(* ===== verification/_CoqProject ===== *)
-Q . S2P
Prelude.v
CInt.v
Crc32c.v
NovaEnv.v
RangeNode.v
Pmem.v
NovaState.v
NovaMonad.v
NovaLib.v
Balloc.v
BallocSpec.v
BallocAlloc.v
BallocInit.v
BallocExample.v
InodeMap.v
InodeMapSpec.v
NovaLayout.v
PmemOps.v
LogPage.v
LogPageSpec.v
RangeLog.v
RangeLogSpec.v
RangeRoundtrip.v
ScanBitmap.v
ScanBuildSpec.v
InodeTable.v
InodeTableSpec.v
Journal.v
Crash.v
JournalSpec.v
JournalRecover.v
JournalTx.v
LogExample.v
Checksum.v
MetaCsum.v
MetaCsumSpec.v
MetaInodeSpec.v
LogEntry.v
LogEntrySpec.v
Snapshot.v
SnapshotSpec.v
MetaExample.v
FileTree.v
FileTreeSpec.v
DirTree.v
DirTreeSpec.v
Parity.v
ParitySpec.v
ParityRepair.v
ParityUpdate.v
ParityExample.v
Rebuild.v
RebuildSpec.v
RebuildFileSpec.v
Readdir.v
LogGc.v
LogAppend.v
LogGcSpec.v
LogAppendSpec.v
DirSync.v
TreeExample.v
VfsInode.v
Namei.v
NameiSpec.v
FileData.v
FileMap.v
FileDataSpec.v
CowWriteSpec.v
Super.v
NameiExample.v
SnapshotOps.v
FailureScan.v
FailureScanSpec.v
Squint.v
SquintModule.v
SquintNova.v
SquintEval.v
FencePass.v
FencePassSpec.v
TracerExample.v
