(* ===== verification/Prelude.v ===== *)
(** * Persistent-memory tracing: the instrumentation pass, the Squint tracer and NOVA

    ** The program

    The repository instruments persistent-memory code.  An LLVM pass
    (src/fencePass/fencePass.cpp) inserts callbacks before stores and at the
    entry of the flush and fence functions; the callbacks (print.c) write trace
    lines into a kernel FIFO (squint_module.c, in three copies), which a user
    program reads from /proc/squint.  The code being instrumented is the NOVA
    file system (src/llvm_evaluation/NOVA/nova), whose own correctness rests on
    the order of the stores, flushes and fences that the tracer records: its
    block allocator (balloc.c), its undo journal (journal.c), the checksums and
    parity of its data and metadata (checksum.c, parity.c), its super block
    (super.c), its inode numbers
    and inode table (inode.c), the pages and entries of its logs (log.c), the
    index of a file's pages (log.c, inode.c), its directories (dir.c) and
    snapshots (snapshot.c), reads and writes of files (file.c, dax.c), names
    (namei.c), and the free lists it saves at unmount and rebuilds
    at mount (bbuild.c), over a layer of NVMM accessors (nova.h, nova_def.h,
    mprotect.h, inode.h, log.h).

    ** The files

    - [Prelude] (this file): notations in [nova_scope], the hint databases
      [cint] and [len], tactics and list lemmas.
    - [CInt]: C integers as [Z] with explicit wrap-around; little-endian bytes.
    - [Crc32c]: nova_crc32c over a bit-level model of the crc32 instructions.
    - [NovaEnv]: constants of the headers; the class [NovaEnv] of module
      parameters and kernel services.
    - [RangeNode]: struct nova_range_node in the kernel's red-black tree, an
      interface ([RbLib], laws [RbLibOk]); search, insertion, removal.
    - [Pmem], [NovaState], [NovaMonad], [NovaLib]: byte-addressed NVMM with a
      trace of stores, flushes and fences; struct nova_sb_info and free_list;
      the state-and-fault monad; accessors, flushes, write protection.
    - [Balloc]: balloc.c.  [BallocSpec], [BallocAlloc], [BallocInit]: its
      invariant [alloc_wf] and theorems; [BallocExample]: a mounted device.
    - [InodeMap]: inode numbers of inode.c (allocation, release, initial maps)
      and their insertion after a scan (bbuild.c); [InodeMapSpec]: the invariant
      and the refinement of a set of numbers.
    - [NovaLayout]: packed on-media structures and the inode helpers.
      [PmemOps]: rules to step through code that only touches the device.
    - [LogPage]: log pages of log.c and nova.h (allocation, linking, alternate
      pages, release); [LogPageSpec]: chains of pages.
    - [RangeLog]: saving and loading free lists and inode maps (bbuild.c);
      [RangeLogSpec], [RangeRoundtrip]: the entries of the saved log, saving,
      loading, unmount followed by mount.
    - [ScanBitmap]: the bitmaps of a failure scan and the free lists built from
      them (bbuild.c), the kernel's bit searches an interface ([BitLib]);
      [ScanBuildSpec].
    - [InodeTable]: the inode table of inode.c and the creation of inodes;
      [InodeTableSpec].
    - [Journal]: journal.c.  [Crash]: what a power failure can leave in NVMM.
      [JournalSpec], [JournalRecover], [JournalTx]: what a
      transaction writes, recovery, crash atomicity with the updates and the
      commit.  [LogExample]: logs,
      the failure scan, inodes and the journal on a small device.
    - [Checksum], [Parity]: the data half of checksum.c and parity.c.
      [ParitySpec], [ParityRepair], [ParityUpdate]: parity as XOR, repair on the
      read path, the unrolled write path; [ParityExample].
    - [MetaCsum]: the metadata half of checksum.c, media errors an interface
      ([MediaLib], laws [MediaOk]); [MetaCsumSpec], [MetaInodeSpec]:
      what a log entry on the device is, verification and
      repair of entries and inodes, writing entries.
    - [LogEntry]: log entries of log.c: invalidation and reassignment, filling
      in, update in place; [LogEntrySpec].
    - [Snapshot]: the table of snapshots and their lists in DRAM, in a monad
      [SM] that adds them to the state, kmalloc an interface ([KmallocLib], laws
      [KmallocOk]); [SnapshotSpec].  [MetaExample]: metadata, log entries and
      snapshots on a small device.
    - [FileTree]: the radix tree from file pages to write entries: new entries,
      removal of pages, holes; [FileTreeSpec].
    - [DirTree]: the tree of directory entries by hash and their replay (dir.c,
      rebuild.c); [DirTreeSpec].
    - [Rebuild]: an inode's DRAM state from its log (rebuild.c); [RebuildSpec]:
      directories; [RebuildFileSpec]: files.
    - [LogGc]: garbage collection of logs (gc.c) and the position of the next
      entry; [LogGcSpec].
    - [LogAppend]: the append of entries and the growth of logs (log.c), names
      added to and removed from a directory (dir.c); [LogAppendSpec]: the log
      after an append; [DirSync]: tree, log and inode of a directory in step.
      [TreeExample]: directories and files on a small device, their rebuild,
      collection and changes.
    - [Readdir]: the two ways to list a directory (dir.c) and what is listed.
    - [VfsInode]: truncation, eviction and deletion of inodes; inodes in the
      VFS's cache: reading, creating, attributes, flags, holes (inode.c), in a monad [IM] that adds the cache, the VFS an
      interface ([VfsLib]).  [Namei]: the operations on names and symbolic links
      (namei.c, symlink.c); [NameiSpec]: the creation of an inode is all or
      nothing.
    - [FileData]: reads and writes of files (file.c, dax.c), user memory an
      interface ([UserLib], laws [UserLibOk]); [FileMap]: allocation, mapped
      memory, seek and sync (file.c, dax.c, mprotect.c, rebuild.c);
      [FileDataSpec]: the bytes of a file, what a read returns and what the copy
      of a write holds; [CowWriteSpec]: a whole write and its power failures.
    - [Super]: the super block and its second copy (super.c): checksum, update,
      check at mount, and what a power failure during an update leaves.
      [NameiExample]: names and files on a small device.
    - [SnapshotOps]: walks over snapshot lists, deletion of snapshots, the
      cleaner, the copies of the lists on the device (snapshot.c).
    - [FailureScan]: the scan of all inodes after a crash and the choice between
      the saved lists and the scan (bbuild.c), the table of snapshots read from
      its log (rebuild.c); [FailureScanSpec]: what the scan of a file marks, and
      the super block on a small device.
    - [Squint]: the kfifo interface ([KfifoOps], laws [KfifoLaws]), C strings,
      print.c.  [SquintModule], [SquintNova], [SquintEval]: the three copies of
      squint_module.c (and mockfs.c).
    - [FencePass]: the pass on a data type of the IR, and a semantics of the IR;
      [FencePassSpec]: what instrumentation preserves.  [TracerExample]: runs of
      the tracer and of the pass.

    ** State and operations

    NOVA's functions keep their names.  A function that changes state is an
    action of [NovaMonad.M]: it maps a [nova] to a result and a new [nova], or
    to a [fault] (BUG, a wild or protected store, an index out of range, a loop
    that exceeds its bound).  Pointers into NVMM are addresses, NULL is 0; error
    codes are negative numbers, as in the source.  NOVA's spinlocks are not modelled:
    each allocator call holds its list's lock throughout and is one atomic
    action.  The Squint handlers are state transformers with [None] for a use of
    an unallocated FIFO; concurrency there is a step relation: in [SquintModule]
    over taking the spinlock, beginning and ending the copy into the FIFO and
    releasing the lock, in [SquintEval] over whole [kfifo] operations.  IR functions are lists of blocks of instructions.

    ** What the theorems show

    - Allocator: initialisation establishes [alloc_wf] with exactly the usable
      blocks free; allocation returns runs of free blocks (zeroed or 2 MB
      aligned when asked), makes progress while a block is free, and keeps the
      invariant, except that a superpage request without memory for a node can
      lose free blocks; the areas of a list are laid out without gaps, and the
      area for the parity's replica lies in the allocatable blocks; freeing adds exactly the range; freeing twice is refused;
      allocations are disjoint and free is their inverse.
    - Inodes: sequences of number allocations and releases refine a set of
      numbers, in which a release without memory can be lost; a lookup in the table ends and returns the inode's own slot,
      slots are disjoint; a new inode gets an unused number and its slot.
    - Logs: a request for log pages returns a chain of pages that were free;
      releasing a chain ends and gives exactly its pages back.
    - Mount: saving the free lists and loading them again gives the same free
      blocks; after a crash the lists rebuilt from the bitmaps hold no block in
      use, and all others when memory suffices.
    - Failure scan: the scan of a file's log ends and marks exactly the pages of
      the log and the blocks its replay keeps, among them every block of the index
      that a rebuild gives.
    - Super block: a mount takes the first good copy and makes the other equal to
      it, or refuses; after a power failure at any point of an update a mount
      succeeds, and finds the new super block once the update has returned.
    - Metadata: an entry or inode whose copy can be trusted is returned and both
      copies are made equal to it, through wrong checksums and media errors (of
      entries that lie inside one poison radius); two bad copies are refused; a written entry verifies; marking an entry keeps
      both copies equal and counts it in its page exactly when it is invalid.
    - Directories: the tree is a finite map from hashes to entries, and from names
      when their hashes are distinct; a removal succeeds exactly when the name
      matches, and drops the entry anyway; adding and removing names keeps tree,
      log and inode in step, but for the removal of a name that only collides with
      the one that is there.
    - Names: listing a directory gives exactly the live entries of its log;
      creating an inode is all or nothing under a power failure at any point, and
      durable once it has returned.
    - File data: a read returns exactly the bytes of the file; the copy made by a
      write touches no byte of the file at any power failure and durably holds
      the pages with the new bytes in place once a fence has followed; a write
      into pages the file does not have succeeds, reads back, and is all or
      nothing under a power failure at any point.
    - Collection: fast collection of a log frees exactly the pages before the
      tail page without valid entries and keeps the rest of the log.
    - File index: a new entry takes over exactly its pages and retires, in
      order, the runs of pages it displaces; removing pages ends whatever the
      holes and removes exactly the pages from the first one on.
    - Rebuild: the walk over a file's or a directory's log ends and gives the
      index and size, or the map from hashes (from names, when they do not
      collide) to entries, that a replay of its entries gives.
    - Snapshots: data that is given up is handed to the first snapshot that sees
      it, and is free to go exactly when none does.
    - Journal: each kind of transaction is atomic under a power failure at any
      point, where unflushed and unfenced stores persist in any combination of
      aligned words, and with its updates and the commit it is all or nothing;
      commit is durable; misuse stops with BUG.
    - Data protection: CRC32C equals its reference and detects short bursts;
      parity is XOR on every CPU; the unrolled routine stores the right
      checksums and parity; a read repairs any one damaged stripe.
    - Tracer: for any interleaving of threads that take the lock the device is a
      FIFO of lines that are not mixed, cut only when the FIFO is full; store
      records are complete and decodable; the sleeping variant is lossless for
      two threads but can lose a wake-up.
    - Pass: instrumented functions behave as the originals and report every
      store; the pass on the fence and flush functions hooks the first of each and
      reports every call of it, with the address that is flushed.

    ** Bounds and fuel

    Loops over trees and lists recurse on the number of nodes or on the loop
    count, so they cannot run out: each theorem states that the action returns
    [Ok].  [flush_lines] has one iteration more than a loop that does not wrap;
    the journal walks have one iteration per slot of the page (128).  The
    allocator's invariant bounds a list's span by 2^31 blocks, the width of the
    counters the code compares, and block numbers by 2^52, so that byte offsets
    fit 64 bits.  Walks over chains of log pages have
    one iteration for each page of the device ([chain_fuel]), enough for every
    chain without repeated pages; loads of saved entries one for each 16-byte
    slot of the device ([entry_fuel], also for the copies of thorough
    collection); the search of the bitmap one for each
    block and list ([build_fuel]); the removal of pages from an index one for
    each page up to the last one in it ([delete_fuel]); the passes of the failure
    scan over a file one for each window of pages up to the last one.  The bitmap theorems are for devices below
    8 TB, where the code's int counter does not overflow.  IR runs are bounded by the number of blocks executed, the same
    for the original and the instrumented function.

    ** Not modelled

    The dentry cache and page cache of the VFS and page faults, the
    creation of snapshots, mount options, formatting and statistics of NOVA; the
    threads of the failure scan are run one after the other, as each has its own
    ring and bitmap; the registration of the
    pass and of the /proc entries; printk output; LLVM, the kernel's kfifo,
    red-black trees, bit searches, slab allocator and memcpy_mcsafe, which are
    parameters with the behaviour they document.  What a failing memcpy_mcsafe
    returns is a parameter too ([MediaLib], [memcpy_mcsafe_rc]): the theorems on
    media errors are for a negative code ([McsafeNegative]), for which the code
    tests; the kernels since 4.18 return the number of bytes not copied, which
    passes these tests, and the bytes that are used then count as uninitialised.

    ** Next

    The deletion of snapshots and the round trip of their lists, the round trip
    of the inode maps, thorough collection, writes over existing pages. *)

From stdpp Require Export base numbers list list_numbers sorting gmap.
From Stdlib Require Export ZArith Lia.

#[global] Set Default Goal Selector "!".
#[global] Open Scope Z_scope.

(** ** Notations *)

Declare Scope nova_scope.
Delimit Scope nova_scope with nova.
Reserved Notation "'let!' x ':=' m 'in' k"
  (at level 10, x pattern, m at level 200, k at level 200).
Reserved Notation "m ';;;' k" (at level 199, right associativity).

(** ** Hint databases

    [cint] resolves and rewrites the machine-integer side conditions;
    [len] normalises list lengths. *)
Create HintDb cint.
Create Rewrite HintDb len.

#[export] Hint Rewrite @length_app @length_drop @length_take @length_fmap
  @length_replicate @length_insert @length_seq @length_reverse : len.

Ltac len := autorewrite with len in *; simpl in *; try lia.

(** Case analysis on the innermost boolean test of the goal or a hypothesis,
    turning the comparison into a proposition [lia] understands. *)
Ltac zify_bool :=
  repeat match goal with
  | H : (_ && _)%bool = true |- _ => apply andb_true_iff in H; destruct H
  | H : (_ || _)%bool = false |- _ => apply orb_false_iff in H; destruct H
  | H : negb _ = true |- _ => apply negb_true_iff in H
  | H : negb _ = false |- _ => apply negb_false_iff in H
  | H : (_ =? _) = true |- _ => apply Z.eqb_eq in H
  | H : (_ =? _) = false |- _ => apply Z.eqb_neq in H
  | H : (_ <? _) = true |- _ => apply Z.ltb_lt in H
  | H : (_ <? _) = false |- _ => apply Z.ltb_ge in H
  | H : (_ <=? _) = true |- _ => apply Z.leb_le in H
  | H : (_ <=? _) = false |- _ => apply Z.leb_gt in H
  end.

Ltac case_if :=
  match goal with
  | |- context [if ?b then _ else _] =>
      let E := fresh "E" in destruct b eqn:E; zify_bool
  end.

(** Boolean goals made of comparisons. *)
Ltac bool_lia :=
  repeat match goal with
  | |- context [?x <=? ?y] => destruct (Z.leb_spec x y)
  | |- context [?x <? ?y] => destruct (Z.ltb_spec x y)
  | |- context [?x =? ?y] => destruct (Z.eqb_spec x y)
  end; cbn; try done; try lia.

(** ** Lists *)

Section lists.
Context {A B : Type}.

Lemma elem_app_split (l : list A) (x : A) :
  x ∈ l -> exists l1 l2, l = l1 ++ x :: l2.
Proof. apply list_elem_of_split. Qed.

Lemma foldr_add_app (f : A -> Z) (l1 l2 : list A) :
  foldr (fun x a => f x + a) 0 (l1 ++ l2)
  = foldr (fun x a => f x + a) 0 l1 + foldr (fun x a => f x + a) 0 l2.
Proof. induction l1; simpl; lia. Qed.

Lemma Forall_last (P : A -> Prop) (l : list A) (x : A) :
  Forall P l -> last l = Some x -> P x.
Proof.
  intros HF HL. rewrite Forall_forall in HF. apply HF.
  apply last_Some in HL as [l' ->]. set_solver.
Qed.
End lists.

(** [sumZ f l] is the sum of [f] over [l]. *)
Definition sumZ {A} (f : A -> Z) (l : list A) : Z :=
  foldr (fun x a => f x + a) 0 l.

Lemma sumZ_app {A} (f : A -> Z) (l1 l2 : list A) :
  sumZ f (l1 ++ l2) = sumZ f l1 + sumZ f l2.
Proof. apply foldr_add_app. Qed.

Lemma sumZ_cons {A} (f : A -> Z) x (l : list A) :
  sumZ f (x :: l) = f x + sumZ f l.
Proof. reflexivity. Qed.

Lemma sumZ_nonneg {A} (f : A -> Z) (l : list A) :
  Forall (fun x => 0 <= f x) l -> 0 <= sumZ f l.
Proof. induction 1; [done|]. rewrite sumZ_cons. lia. Qed.

Lemma sumZ_elem {A} (f : A -> Z) (l : list A) x :
  Forall (fun x => 0 <= f x) l -> x ∈ l -> f x <= sumZ f l.
Proof.
  intros HF Hx. apply elem_app_split in Hx as (l1 & l2 & ->).
  rewrite Forall_app, Forall_cons in HF. destruct HF as (H1 & H2 & H3).
  rewrite sumZ_app, sumZ_cons.
  pose proof (sumZ_nonneg f l1 H1). pose proof (sumZ_nonneg f l2 H3). lia.
Qed.
