(* ===== verification/CInt.v ===== *)
(** Fixed-width C integers and little-endian byte encodings.

    A C integer is a [Z]; a value computed at width [w] is reduced with
    [uwrap w] (unsigned) or [swrap w] (signed, two's complement), where the
    source's conversions and wrap-around happen. *)

From S2P Require Import Prelude.

Definition uwrap (w z : Z) : Z := z mod 2 ^ w.
Definition swrap (w z : Z) : Z := (z + 2 ^ (w - 1)) mod 2 ^ w - 2 ^ (w - 1).

Abbreviation u8 := (uwrap 8).
Abbreviation u16 := (uwrap 16).
Abbreviation u32 := (uwrap 32).
Abbreviation u64 := (uwrap 64).
Abbreviation s32 := (swrap 32).
Abbreviation s64 := (swrap 64).

Lemma uwrap_range w z : 0 <= w -> 0 <= uwrap w z < 2 ^ w.
Proof. intros. apply Z.mod_pos_bound, Z.pow_pos_nonneg; lia. Qed.

Lemma uwrap_small w z : 0 <= z < 2 ^ w -> uwrap w z = z.
Proof. intros. by apply Z.mod_small. Qed.

Lemma uwrap_uwrap w z : uwrap w (uwrap w z) = uwrap w z.
Proof. apply Zmod_mod. Qed.

Lemma swrap_small w z :
  0 < w -> - 2 ^ (w - 1) <= z < 2 ^ (w - 1) -> swrap w z = z.
Proof.
  intros Hw Hz. unfold swrap.
  replace (2 ^ w) with (2 * 2 ^ (w - 1)) by
    (rewrite <- Z.pow_succ_r by lia; f_equal; lia).
  rewrite Z.mod_small; lia.
Qed.

Lemma swrap_range w z :
  0 < w -> - 2 ^ (w - 1) <= swrap w z < 2 ^ (w - 1).
Proof.
  intros Hw. unfold swrap.
  pose proof (Z.mod_pos_bound (z + 2 ^ (w - 1)) (2 ^ w)) as H.
  assert (2 ^ w = 2 * 2 ^ (w - 1)) as E.
  { rewrite <- Z.pow_succ_r by lia. f_equal. lia. }
  assert (0 < 2 ^ (w - 1)) by (apply Z.pow_pos_nonneg; lia). lia.
Qed.

(** Discharges the [uwrap]s and [swrap]s of a goal whose arguments are in
    range. *)
Ltac nowrap :=
  repeat match goal with
  | |- context [uwrap ?w ?z] => rewrite (uwrap_small w z) by lia
  | |- context [swrap ?w ?z] => rewrite (swrap_small w z) by lia
  end.

Ltac nowrap_in H :=
  repeat match type of H with
  | context [uwrap ?w ?z] => rewrite (uwrap_small w z) in H by lia
  | context [swrap ?w ?z] => rewrite (swrap_small w z) in H by lia
  end.

(** ** Masks *)

(** [x & (2^k - 1)] *)
Lemma land_mask x k : 0 <= k -> Z.land x (2 ^ k - 1) = x mod 2 ^ k.
Proof. intros. rewrite <- Z.land_ones by lia. f_equal. rewrite Z.ones_equiv. lia. Qed.

(** [x & ~(2^k - 1)] *)
Lemma land_lnot_mask x k :
  0 <= k -> Z.land x (Z.lnot (2 ^ k - 1)) = x - x mod 2 ^ k.
Proof.
  intros Hk. rewrite <- Z.ldiff_land.
  replace (2 ^ k - 1) with (Z.ones k) by (rewrite Z.ones_equiv; lia).
  rewrite Z.ldiff_ones_r, Z.shiftl_mul_pow2, Z.shiftr_div_pow2 by lia.
  assert (0 < 2 ^ k) by (apply Z.pow_pos_nonneg; lia).
  pose proof (Z.div_mod x (2 ^ k)). lia.
Qed.

(** ** Little-endian bytes *)

Definition byteZ (b : Z) : Prop := 0 <= b < 256.

#[global] Instance byteZ_dec b : Decision (byteZ b) := _.

Fixpoint le_bytes (n : nat) (z : Z) : list Z :=
  match n with
  | O => []
  | S n => z mod 256 :: le_bytes n (z / 256)
  end.

Fixpoint le_val (l : list Z) : Z :=
  match l with
  | [] => 0
  | b :: l => b + 256 * le_val l
  end.

Lemma length_le_bytes n z : length (le_bytes n z) = n.
Proof. revert z. induction n; intros; simpl; auto. Qed.
#[export] Hint Rewrite length_le_bytes : len.

Lemma le_bytes_byteZ n z : Forall byteZ (le_bytes n z).
Proof.
  revert z. induction n; intros; simpl; constructor; auto.
  unfold byteZ. apply Z.mod_pos_bound. lia.
Qed.

Lemma le_val_le_bytes n z : le_val (le_bytes n z) = z mod 2 ^ (8 * Z.of_nat n).
Proof.
  revert z. induction n as [|n IH]; intros z; simpl le_bytes; simpl le_val.
  - by rewrite Z.mod_1_r.
  - rewrite IH.
    replace (8 * Z.of_nat (S n)) with (8 + 8 * Z.of_nat n) by lia.
    rewrite Z.pow_add_r by lia. change (2 ^ 8) with 256.
    assert (0 < 2 ^ (8 * Z.of_nat n)) by (apply Z.pow_pos_nonneg; lia).
    rewrite Z.rem_mul_r by lia. lia.
Qed.

Lemma le_val_range l :
  Forall byteZ l -> 0 <= le_val l < 2 ^ (8 * Z.of_nat (length l)).
Proof.
  induction 1 as [|b l Hb _ IH]; [simpl; lia|].
  replace (8 * Z.of_nat (length (b :: l))) with (8 + 8 * Z.of_nat (length l))
    by (simpl length; lia).
  rewrite Z.pow_add_r by lia. change (2 ^ 8) with 256.
  unfold byteZ in Hb. simpl le_val. lia.
Qed.

Lemma le_bytes_le_val l :
  Forall byteZ l -> le_bytes (length l) (le_val l) = l.
Proof.
  induction 1 as [|b l Hb _ IH]; simpl; [done|]. unfold byteZ in Hb.
  f_equal.
  - replace (b + 256 * le_val l) with (b + le_val l * 256) by lia.
    rewrite Z.mod_add, Z.mod_small by lia. done.
  - replace (b + 256 * le_val l) with (b + le_val l * 256) by lia.
    rewrite Z.div_add, Z.div_small by lia. by rewrite Z.add_0_l.
Qed.

Lemma le_val_inj l1 l2 :
  Forall byteZ l1 -> Forall byteZ l2 -> length l1 = length l2 ->
  le_val l1 = le_val l2 -> l1 = l2.
Proof.
  intros H1 H2 HL HV.
  by rewrite <- (le_bytes_le_val l1), <- (le_bytes_le_val l2), HL, HV by done.
Qed.
