(* ===== verification/Crc32c.v ===== *)
(** CRC32C as NOVA computes it ([nova_crc32c], nova.h).

    The inline assembly uses the SSE-4.2 [crc32q] and [crc32b] instructions;
    they are modelled by their bit-serial definition over GF(2) (reflected
    Castagnoli polynomial).  The kernel's [crc32c] routine, taken when the
    CPU has no SSE-4.2, is a parameter of the model. *)

From S2P Require Import Prelude CInt.

(** ** The instructions *)

Definition CRC32C_POLY : Z := 0x82F63B78.

Definition crc_bit (x : Z) : Z :=
  Z.lxor (Z.shiftr x 1) (if Z.odd x then CRC32C_POLY else 0).

Definition crc_steps (n : nat) (x : Z) : Z := Nat.iter n crc_bit x.

(** [crc32b src, acc]: the low 32 bits of [acc], updated by one byte. *)
Definition crc32b (acc b : Z) : Z := crc_steps 8 (Z.lxor (u32 acc) (u8 b)).

(** [crc32q src, acc]: the same, by a 64-bit word. *)
Definition crc32q (acc q : Z) : Z := crc_steps 64 (Z.lxor (u32 acc) (u64 q)).

(** ** [nova_crc32c] *)

Class CrcEnv := {
  cpu_has_xmm4_2 : bool;              (* static_cpu_has(X86_FEATURE_XMM4_2) *)
  kernel_crc32c : Z -> list Z -> Z    (* crc32c(crc, data, len) of the kernel *)
}.

(** [while (len > 8) { crc32q; ptr += 8; len -= 8; }] *)
Fixpoint crc32c_qwords (fuel : nat) (acc : Z) (ptr : list Z) : Z * list Z :=
  match fuel with
  | O => (acc, ptr)
  | S fuel =>
      if 8 <? Z.of_nat (length ptr)
      then crc32c_qwords fuel (crc32q acc (le_val (take 8 ptr))) (drop 8 ptr)
      else (acc, ptr)
  end.

(** [while (len > 0) { crc32b; ptr++; len--; }] *)
Definition crc32c_bytes (acc : Z) (ptr : list Z) : Z := foldl crc32b acc ptr.

Definition nova_crc32c `{CrcEnv} (crc : Z) (data : list Z) : Z :=
  if cpu_has_xmm4_2 then
    let '(acc, ptr) := crc32c_qwords (length data) crc data in
    u32 (crc32c_bytes acc ptr)
  else kernel_crc32c crc data.

(** The reference definition: one table-free byte step per byte. *)
Definition crc32c_ref (crc : Z) (data : list Z) : Z := crc32c_bytes crc data.

(** What the kernel documents of [crc32c]: the CRC32C update, no final
    inversion. *)
Class CrcEnvOk `{CrcEnv} : Prop :=
  kernel_crc32c_spec : forall crc data,
    0 <= crc < 2 ^ 32 -> Forall byteZ data ->
    kernel_crc32c crc data = crc32c_ref crc data.

(** ** Linear algebra of the bit step *)

Lemma odd_lxor x y : Z.odd (Z.lxor x y) = xorb (Z.odd x) (Z.odd y).
Proof. rewrite <- !Z.bit0_odd. apply Z.lxor_spec. Qed.

Lemma crc_bit_lxor x y : crc_bit (Z.lxor x y) = Z.lxor (crc_bit x) (crc_bit y).
Proof.
  unfold crc_bit. rewrite Z.shiftr_lxor, odd_lxor.
  apply Z.bits_inj'. intros i Hi. rewrite !Z.lxor_spec.
  destruct (Z.odd x), (Z.odd y); simpl xorb; rewrite ?Z.bits_0;
    destruct (Z.testbit (Z.shiftr x 1) i), (Z.testbit (Z.shiftr y 1) i),
      (Z.testbit CRC32C_POLY i); reflexivity.
Qed.

Lemma crc_steps_S n x : crc_steps (S n) x = crc_steps n (crc_bit x).
Proof. unfold crc_steps. by rewrite Nat.iter_succ_r. Qed.

Lemma crc_steps_add n m x : crc_steps (n + m) x = crc_steps m (crc_steps n x).
Proof.
  revert x. induction n as [|n IH]; intros x; [done|].
  simpl Nat.add. by rewrite !crc_steps_S, IH.
Qed.

Lemma crc_steps_lxor n x y :
  crc_steps n (Z.lxor x y) = Z.lxor (crc_steps n x) (crc_steps n y).
Proof.
  revert x y. induction n as [|n IH]; intros x y; [done|].
  by rewrite !crc_steps_S, crc_bit_lxor, IH.
Qed.

Lemma crc_steps_shiftl n x :
  crc_steps n (Z.shiftl x (Z.of_nat n)) = x.
Proof.
  induction n as [|n IH]; [apply Z.shiftl_0_r|].
  rewrite crc_steps_S. rewrite <- IH at 2. f_equal.
  unfold crc_bit.
  replace (Z.of_nat (S n)) with (Z.of_nat n + 1) by lia.
  rewrite <- Z.shiftl_shiftl by lia.
  rewrite Z.shiftr_shiftl_l by lia. change (1 - 1) with 0.
  rewrite Z.shiftl_0_r.
  rewrite <- Z.bit0_odd, Z.shiftl_spec_low by lia. apply Z.lxor_0_r.
Qed.

(** ** Ranges and injectivity *)

Lemma crc_bit_range x : 0 <= x < 2 ^ 32 -> 0 <= crc_bit x < 2 ^ 32.
Proof.
  intros Hx. unfold crc_bit.
  assert (0 <= Z.shiftr x 1 < 2 ^ 31) as Hs.
  { rewrite Z.shiftr_div_pow2 by lia. change (2 ^ 1) with 2.
    split; [apply Z.div_pos; lia|apply Z.div_lt_upper_bound; lia]. }
  assert (forall p, 0 <= p < 2 ^ 32 -> 0 <= Z.lxor (Z.shiftr x 1) p < 2 ^ 32) as HL.
  { intros p Hp. split; [apply Z.lxor_nonneg; lia|].
    destruct (Z.eq_dec (Z.lxor (Z.shiftr x 1) p) 0) as [->|Hne]; [lia|].
    apply Z.log2_lt_pow2; [pose proof (Z.lxor_nonneg (Z.shiftr x 1) p); lia|].
    eapply Z.le_lt_trans; [apply Z.log2_lxor; lia|].
    apply Z.max_lub_lt.
    - destruct (Z.eq_dec (Z.shiftr x 1) 0) as [->|]; [simpl; lia|].
      apply Z.log2_lt_pow2; lia.
    - destruct (Z.eq_dec p 0) as [->|]; [simpl; lia|].
      apply Z.log2_lt_pow2; lia. }
  apply HL. destruct (Z.odd x); unfold CRC32C_POLY; lia.
Qed.

Lemma crc_bit_inj x y :
  0 <= x < 2 ^ 32 -> 0 <= y < 2 ^ 32 -> crc_bit x = crc_bit y -> x = y.
Proof.
  intros Hx Hy E.
  assert (forall z, 0 <= z < 2 ^ 32 -> Z.testbit (crc_bit z) 31 = Z.odd z) as B31.
  { intros z Hz. unfold crc_bit. rewrite Z.lxor_spec, Z.shiftr_spec by lia.
    assert (Z.testbit z (31 + 1) = false) as ->.
    { apply Z.testbit_false; [lia|]. by rewrite Z.div_small by lia. }
    by destruct (Z.odd z). }
  assert (Z.odd x = Z.odd y) as Ho by (rewrite <- !B31, E by lia; done).
  unfold crc_bit in E. rewrite Ho in E.
  assert (Z.shiftr x 1 = Z.shiftr y 1) as Es.
  { apply Z.bits_inj'. intros i Hi.
    apply (f_equal (fun z => Z.testbit z i)) in E. rewrite !Z.lxor_spec in E.
    destruct (Z.testbit (if Z.odd y then _ else _) i),
      (Z.testbit (Z.shiftr x 1) i), (Z.testbit (Z.shiftr y 1) i); done. }
  rewrite !Z.shiftr_div_pow2 in Es by lia. change (2 ^ 1) with 2 in Es.
  rewrite (Zodd_mod x), (Zodd_mod y) in Ho.
  pose proof (Z.div_mod x 2). pose proof (Z.div_mod y 2).
  pose proof (Z.mod_pos_bound x 2). pose proof (Z.mod_pos_bound y 2).
  destruct (Zeq_bool (x mod 2) 1) eqn:E1, (Zeq_bool (y mod 2) 1) eqn:E2; try done.
  - apply Zeq_bool_eq in E1, E2. lia.
  - apply Zeq_bool_neq in E1, E2. lia.
Qed.

Lemma crc_steps_range n x : 0 <= x < 2 ^ 32 -> 0 <= crc_steps n x < 2 ^ 32.
Proof.
  revert x. induction n as [|n IH]; intros x Hx; [done|].
  rewrite crc_steps_S. by apply IH, crc_bit_range.
Qed.

Lemma crc_steps_inj n x y :
  0 <= x < 2 ^ 32 -> 0 <= y < 2 ^ 32 -> crc_steps n x = crc_steps n y -> x = y.
Proof.
  revert x y. induction n as [|n IH]; intros x y Hx Hy; [done|].
  rewrite !crc_steps_S. intros E.
  apply IH in E; [|by apply crc_bit_range..]. by apply crc_bit_inj.
Qed.

(** ** [nova_crc32c] is the byte-serial CRC32C *)

Lemma lxor_range32 x y :
  0 <= x < 2 ^ 32 -> 0 <= y < 2 ^ 32 -> 0 <= Z.lxor x y < 2 ^ 32.
Proof.
  intros Hx Hy. split; [apply Z.lxor_nonneg; lia|].
  destruct (Z.eq_dec (Z.lxor x y) 0) as [->|Hne]; [lia|].
  apply Z.log2_lt_pow2; [pose proof (Z.lxor_nonneg x y); lia|].
  eapply Z.le_lt_trans; [apply Z.log2_lxor; lia|].
  apply Z.max_lub_lt;
    [destruct (Z.eq_dec x 0) as [->|]|destruct (Z.eq_dec y 0) as [->|]];
    try (simpl; lia); apply Z.log2_lt_pow2; lia.
Qed.

Lemma crc32b_range acc b : 0 <= crc32b acc b < 2 ^ 32.
Proof.
  apply crc_steps_range, lxor_range32; [apply uwrap_range; lia|].
  pose proof (uwrap_range 8 b). lia.
Qed.

Lemma crc32c_bytes_range crc l :
  0 <= crc < 2 ^ 32 -> 0 <= crc32c_bytes crc l < 2 ^ 32.
Proof.
  unfold crc32c_bytes. revert crc.
  induction l as [|b l IH]; intros crc Hc; [done|]. apply IH, crc32b_range.
Qed.

(** Splitting a word into its low byte and the rest. *)
Lemma le_val_cons_lxor b l :
  byteZ b -> b + 256 * le_val l = Z.lxor b (Z.shiftl (le_val l) 8).
Proof.
  intros Hb. unfold byteZ in Hb.
  rewrite <- Z.add_nocarry_lxor.
  - rewrite Z.shiftl_mul_pow2 by lia. change (2 ^ 8) with 256. lia.
  - apply Z.bits_inj'. intros i Hi. rewrite Z.land_spec, Z.bits_0.
    destruct (Z.lt_ge_cases i 8).
    + rewrite (Z.shiftl_spec_low _ 8 i) by lia. apply andb_false_r.
    + assert (Z.testbit b i = false) as ->; [|done].
      apply Z.testbit_false; [lia|].
      rewrite Z.div_small; [done|]. split; [lia|].
      apply Z.lt_le_trans with (2 ^ 8); [lia|]. apply Z.pow_le_mono_r; lia.
Qed.

(** [8n] bit steps over [n] bytes at once are [n] byte steps. *)
Lemma crc_steps_bytes l c :
  Forall byteZ l -> 0 <= c < 2 ^ 32 ->
  crc_steps (8 * length l) (Z.lxor c (le_val l)) = crc32c_bytes c l.
Proof.
  intros HF. revert c. induction HF as [|b l Hb HF IH]; intros c Hc.
  - by rewrite Z.lxor_0_r.
  - replace (8 * length (b :: l))%nat with (8 + 8 * length l)%nat by (simpl; lia).
    cbn [le_val]. rewrite crc_steps_add, le_val_cons_lxor by done.
    rewrite <- Z.lxor_assoc, crc_steps_lxor.
    rewrite (crc_steps_shiftl 8 (le_val l)
      : crc_steps 8 (Z.shiftl (le_val l) 8) = le_val l).
    assert (crc_steps 8 (Z.lxor c b) = crc32b c b) as ->.
    { unfold crc32b. unfold byteZ in Hb. by rewrite !uwrap_small by lia. }
    by rewrite IH by apply crc32b_range.
Qed.

Lemma crc32q_bytes c l :
  Forall byteZ l -> length l = 8%nat -> 0 <= c < 2 ^ 32 ->
  crc32q c (le_val l) = crc32c_bytes c l.
Proof.
  intros HF HL Hc. rewrite <- crc_steps_bytes, HL by done.
  unfold crc32q. pose proof (le_val_range l HF) as Hr. rewrite HL in Hr.
  rewrite !uwrap_small; [done|done|lia].
Qed.

Lemma crc32c_qwords_ref fuel c l :
  Forall byteZ l -> 0 <= c < 2 ^ 32 ->
  let '(acc, ptr) := crc32c_qwords fuel c l in
  crc32c_bytes acc ptr = crc32c_bytes c l.
Proof.
  revert c l. induction fuel as [|fuel IH]; intros c l HF Hc; [done|].
  cbn [crc32c_qwords]. case_if; [|done].
  assert (length (take 8 l) = 8%nat) as HL by (rewrite length_take; lia).
  rewrite crc32q_bytes by (auto using Forall_take).
  specialize (IH (crc32c_bytes c (take 8 l)) (drop 8 l)).
  destruct (crc32c_qwords fuel _ _) as [acc ptr].
  rewrite IH by (auto using Forall_drop, crc32c_bytes_range).
  unfold crc32c_bytes. by rewrite <- foldl_app, take_drop.
Qed.

(** The word loop leaves at most eight bytes for the byte loop. *)
Lemma crc32c_qwords_rest fuel c l :
  (length l <= fuel)%nat -> (length (crc32c_qwords fuel c l).2 <= 8)%nat.
Proof.
  revert c l. induction fuel as [|fuel IH]; intros c l HL; cbn [crc32c_qwords].
  - simpl. lia.
  - case_if; [|simpl; lia]. apply IH. rewrite length_drop. lia.
Qed.

Lemma nova_crc32c_ref `{CrcEnvOk} crc data :
  0 <= crc < 2 ^ 32 -> Forall byteZ data ->
  nova_crc32c crc data = crc32c_ref crc data.
Proof.
  intros Hc HF. unfold nova_crc32c. destruct cpu_has_xmm4_2.
  - pose proof (crc32c_qwords_ref (length data) crc data HF Hc) as E.
    destruct (crc32c_qwords _ _ _) as [acc ptr]. rewrite E.
    apply uwrap_small. by apply crc32c_bytes_range.
  - by apply kernel_crc32c_spec.
Qed.

#[global] Opaque crc_steps crc32b crc32q.

Lemma crc32c_bytes_cons c b l : crc32c_bytes c (b :: l) = crc32c_bytes (crc32b c b) l.
Proof. reflexivity. Qed.

Lemma crc32b_unfold c b :
  0 <= c < 2 ^ 32 -> byteZ b -> crc32b c b = crc_steps 8 (Z.lxor c b).
Proof.
  intros Hc Hb. with_strategy transparent [crc32b] unfold crc32b.
  unfold byteZ in Hb. by rewrite !uwrap_small by lia.
Qed.

Lemma crc32c_bytes_app c l1 l2 :
  crc32c_bytes c (l1 ++ l2) = crc32c_bytes (crc32c_bytes c l1) l2.
Proof. apply foldl_app. Qed.

(** For a fixed buffer, the update is injective in the running CRC. *)
Lemma crc32c_bytes_inj l c1 c2 :
  Forall byteZ l -> 0 <= c1 < 2 ^ 32 -> 0 <= c2 < 2 ^ 32 ->
  crc32c_bytes c1 l = crc32c_bytes c2 l -> c1 = c2.
Proof.
  intros HF. revert c1 c2. induction HF as [|b l Hb HF IH]; intros c1 c2 H1 H2 E;
    [done|].
  rewrite !crc32c_bytes_cons in E. apply IH in E; [|apply crc32b_range..].
  rewrite !crc32b_unfold in E by done. unfold byteZ in Hb.
  apply crc_steps_inj in E; [|apply lxor_range32; lia..].
  apply (f_equal (fun z => Z.lxor z b)) in E.
  by rewrite !Z.lxor_assoc, !Z.lxor_nilpotent, !Z.lxor_0_r in E.
Qed.

(** For a fixed running CRC, up to four bytes can be read back from the
    result. *)
Lemma crc32c_bytes_window_inj c w1 w2 :
  Forall byteZ w1 -> Forall byteZ w2 -> length w1 = length w2 ->
  (length w1 <= 4)%nat -> 0 <= c < 2 ^ 32 ->
  crc32c_bytes c w1 = crc32c_bytes c w2 -> w1 = w2.
Proof.
  intros F1 F2 HL H4 Hc E.
  rewrite <- !crc_steps_bytes, HL in E by done.
  assert (forall w, Forall byteZ w -> (length w <= 4)%nat ->
                    0 <= le_val w < 2 ^ 32) as Hr.
  { intros w Fw Lw. pose proof (le_val_range w Fw).
    pose proof (Z.pow_le_mono_r 2 (8 * Z.of_nat (length w)) 32). lia. }
  apply crc_steps_inj in E; [|apply lxor_range32; auto; apply Hr; auto; lia..].
  apply le_val_inj; auto.
  apply (f_equal (Z.lxor c)) in E.
  by rewrite <- !Z.lxor_assoc, !Z.lxor_nilpotent, !Z.lxor_0_l in E.
Qed.

Lemma nova_crc32c_range `{CrcEnvOk} crc data :
  0 <= crc < 2 ^ 32 -> Forall byteZ data ->
  0 <= nova_crc32c crc data < 2 ^ 32.
Proof. intros. rewrite nova_crc32c_ref by done. by apply crc32c_bytes_range. Qed.

(** C32: the unrolled [nova_crc32c] (eight bytes per [crc32q], then
    [crc32b] on the at most eight trailing bytes, or the kernel routine when
    the CPU lacks SSE-4.2) computes the byte-serial CRC32C of the buffer, and
    the word loop never leaves more than eight bytes behind. *)
Theorem nova_crc32c_is_crc32c `{CrcEnvOk} crc data :
  0 <= crc < 2 ^ 32 -> Forall byteZ data ->
  nova_crc32c crc data = crc32c_ref crc data /\
  0 <= nova_crc32c crc data < 2 ^ 32 /\
  (length (crc32c_qwords (length data) crc data).2 <= 8)%nat.
Proof.
  intros Hc HF. split_and!; [by apply nova_crc32c_ref|by apply nova_crc32c_range..|].
  by apply crc32c_qwords_rest.
Qed.

(** C33: two buffers of equal length that differ only inside a
    window of at most four consecutive bytes have different checksums, so
    every such corruption is detected. *)
Theorem nova_crc32c_detects_burst `{CrcEnvOk} crc pre w1 w2 post :
  0 <= crc < 2 ^ 32 ->
  Forall byteZ pre -> Forall byteZ w1 -> Forall byteZ w2 -> Forall byteZ post ->
  length w1 = length w2 -> (length w1 <= 4)%nat -> w1 <> w2 ->
  nova_crc32c crc (pre ++ w1 ++ post) <> nova_crc32c crc (pre ++ w2 ++ post).
Proof.
  intros Hc Fp F1 F2 Fq HL H4 Hne E. apply Hne.
  rewrite !nova_crc32c_ref in E by (auto; rewrite !Forall_app; auto).
  unfold crc32c_ref in E. rewrite !crc32c_bytes_app in E.
  apply crc32c_bytes_inj in E; [|done|auto using crc32c_bytes_range..].
  apply crc32c_bytes_window_inj in E; auto using crc32c_bytes_range.
Qed.

(** A concrete environment: a CPU with SSE-4.2, whose kernel routine agrees. *)
Module CrcExample.
#[export] Instance env : CrcEnv :=
  {| cpu_has_xmm4_2 := true; kernel_crc32c := crc32c_ref |}.

#[export] Instance env_ok : CrcEnvOk.
Proof. intros crc data _ _. reflexivity. Qed.

(** The CRC32C check value of "123456789" (with final inversion). *)
Example check_value :
  Z.lxor (nova_crc32c 0xFFFFFFFF [49;50;51;52;53;54;55;56;57]) 0xFFFFFFFF
  = 0xE3069283.
Proof. vm_compute. reflexivity. Qed.

Definition buf : list Z := [1;2;3;4;5;6;7;8;9;10].

Lemma nova_crc32c_is_crc32c_witness :
  nova_crc32c 1 buf = crc32c_ref 1 buf /\ 0 <= nova_crc32c 1 buf < 2 ^ 32 /\
  (length (crc32c_qwords (length buf) 1 buf).2 <= 8)%nat.
Proof.
  apply nova_crc32c_is_crc32c; [lia|].
  repeat constructor; unfold byteZ; lia.
Defined.

Lemma nova_crc32c_detects_burst_witness :
  nova_crc32c 1 ([7;7] ++ [1;2;3;4] ++ [9])
  <> nova_crc32c 1 ([7;7] ++ [1;0;0;4] ++ [9]).
Proof.
  apply nova_crc32c_detects_burst;
    first [lia | (repeat constructor; unfold byteZ; lia)
          | reflexivity | (simpl; lia) | congruence].
Defined.
End CrcExample.
