(* ===== verification/NovaEnv.v ===== *)
(** Constants of the NOVA headers (nova_def.h, super.h, nova.h, log.h) and the
    environment the file system runs in: its module parameters and the
    kernel services it calls. *)

From S2P Require Import Prelude CInt Crc32c.

(** ** errno *)
Definition EIO : Z := 5.
Definition ENOMEM : Z := 12.
Definition EFAULT : Z := 14.
Definition EINVAL : Z := 22.
Definition ENOSPC : Z := 28.

(** ** Page and block geometry *)
Definition PAGE_SHIFT : Z := 12.
Definition PAGE_SIZE : Z := 4096.
Definition CACHELINE_SIZE : Z := 64.
Definition NOVA_DEF_BLOCK_SIZE_4K : Z := 4096.
Definition NOVA_INODE_SIZE : Z := 128.
Definition NOVA_STRIPE_SHIFT : Z := 9.
Definition NOVA_STRIPE_SIZE : Z := Z.shiftl 1 NOVA_STRIPE_SHIFT.
Definition NOVA_DATA_CSUM_LEN : Z := 4.
Definition NOVA_INIT_CSUM : Z := 1.

Definition NOVA_BLOCK_TYPE_4K : Z := 0.
Definition NOVA_BLOCK_TYPE_2M : Z := 1.
Definition NOVA_BLOCK_TYPE_1G : Z := 2.
Definition NOVA_DEFAULT_BLOCK_TYPE : Z := NOVA_BLOCK_TYPE_4K.

(** ** Reserved blocks and inodes (super.h) *)
Definition HEAD_RESERVED_BLOCKS : Z := 64.
Definition TAIL_RESERVED_BLOCKS : Z := 2.
Definition RESERVE_INODE_START : Z := 1.
Definition INODE_TABLE0_START : Z := 16.
Definition INODE_TABLE1_START : Z := 32.
Definition JOURNAL_START : Z := 48.
Definition NOVA_INODETABLE_INO : Z := 2.
Definition NOVA_BLOCKNODE_INO : Z := 3.
Definition NOVA_LITEJOURNAL_INO : Z := 4.
Definition NOVA_INODELIST_INO : Z := 5.
Definition NOVA_NORMAL_INODE_START : Z := 32.

(** ** Mount options *)
Definition NOVA_MOUNT_PROTECT : Z := 0x1.
Definition NOVA_MOUNT_ERRORS_RO : Z := 0x20.
Definition NOVA_MOUNT_ERRORS_PANIC : Z := 0x40.
Definition MS_RDONLY : Z := 1.

(** ** nova.h *)
Definition ANY_CPU : Z := 65536.
Definition DEAD_ZONE_BLOCKS : Z := 256.
Definition RANGENODE_PER_PAGE : Z := 254.

(** ** Module parameters and kernel services

    [kmem_cache_zalloc_ok n] tells whether the [n]-th slab allocation
    succeeds; [memcpy_mcsafe_rc src len] is the return code of the
    machine-check-safe copy (0 when no media error lies in the range). *)
Class NovaEnv := {
  nova_crc_env :: CrcEnv;
  metadata_csum : Z;
  data_csum : Z;
  data_parity : Z;
  dram_struct_csum : Z;
  wprotect : Z;
  support_clwb : Z;
  kmem_cache_zalloc_ok : positive -> bool;
  memcpy_mcsafe_rc : Z -> Z -> Z
}.
