(* ===== verification/RangeNode.v ===== *)
(** Range nodes and the red-black trees that hold them (nova.h, balloc.c).

    [struct nova_range_node] embeds its [rb_node], so a tree is modelled with
    the node's contents at its position and the node's address [p] as its
    identity: [container_of] is the pairing [(p, n)], and a store through a
    node pointer is [rb_update].  The kernel's rbtree routines ([rb_erase],
    [rb_insert_color], [rb_first], [rb_next], [rb_prev]) are parameters; what
    the code relies on is that they respect the in-order sequence. *)

From S2P Require Import Prelude CInt Crc32c NovaEnv.

Abbreviation ptr := positive.

(** Projections of updated nodes. *)
Create Rewrite HintDb node.

(** [range_low]/[range_high] share their storage with [hash]/[direntry]. *)
Record range_node := mkRangeNode {
  vma : Z;
  mmap_entry : Z;
  range_low : Z;
  range_high : Z;
  csum : Z
}.

Definition hash (n : range_node) : Z := range_low n.
Definition direntry (n : range_node) : Z := range_high n.

#[global] Instance range_node_eq_dec : EqDecision range_node.
Proof. solve_decision. Defined.

(** [kmem_cache_zalloc] returns zeroed memory. *)
Definition zeroed_node : range_node := mkRangeNode 0 0 0 0 0.

Definition set_range_low (v : Z) (n : range_node) : range_node :=
  mkRangeNode (vma n) (mmap_entry n) v (range_high n) (csum n).
Definition set_range_high (v : Z) (n : range_node) : range_node :=
  mkRangeNode (vma n) (mmap_entry n) (range_low n) v (csum n).
Definition set_csum (v : Z) (n : range_node) : range_node :=
  mkRangeNode (vma n) (mmap_entry n) (range_low n) (range_high n) v.

(** ** Node checksums (nova.h) *)
Section checksum.
Context `{NovaEnv}.

(** The bytes from [&node->vma] up to [&node->csum]. *)
Definition range_node_bytes (n : range_node) : list Z :=
  le_bytes 8 (vma n) ++ le_bytes 8 (mmap_entry n) ++
  le_bytes 8 (range_low n) ++ le_bytes 8 (range_high n).

Definition nova_calculate_range_node_csum (n : range_node) : Z :=
  nova_crc32c (u32 (-1)) (range_node_bytes n).

Definition nova_update_range_node_checksum (n : range_node) : range_node :=
  if negb (dram_struct_csum =? 0)
  then set_csum (nova_calculate_range_node_csum n) n else n.

Definition nova_range_node_checksum_ok (n : range_node) : bool :=
  if dram_struct_csum =? 0 then true
  else csum n =? nova_calculate_range_node_csum n.
End checksum.

(** ** Trees *)
Inductive rb_tree :=
| RB_ROOT
| RbNode (rb_left : rb_tree) (p : ptr) (n : range_node) (rb_right : rb_tree).

#[global] Instance rb_tree_eq_dec : EqDecision rb_tree.
Proof. solve_decision. Defined.

Fixpoint inorder (t : rb_tree) : list (ptr * range_node) :=
  match t with
  | RB_ROOT => []
  | RbNode l p n r => inorder l ++ (p, n) :: inorder r
  end.

(** A store through the node pointer [p]. *)
Fixpoint rb_update (p : ptr) (f : range_node -> range_node) (t : rb_tree) : rb_tree :=
  match t with
  | RB_ROOT => RB_ROOT
  | RbNode l q n r =>
      RbNode (rb_update p f l) q (if decide (p = q) then f n else n) (rb_update p f r)
  end.

(** A load through a node pointer. *)
Fixpoint node_at (p : ptr) (l : list (ptr * range_node)) : option range_node :=
  match l with
  | [] => None
  | (q, n) :: l => if decide (p = q) then Some n else node_at p l
  end.

Definition rb_deref (t : rb_tree) (p : ptr) : option range_node := node_at p (inorder t).

(** The kernel's rbtree library (linux/rbtree.h). *)
Class RbLib := {
  rb_insert_color : ptr -> rb_tree -> rb_tree;
  rb_erase : ptr -> rb_tree -> rb_tree;
  rb_first : rb_tree -> option (ptr * range_node);
  rb_next : rb_tree -> ptr -> option (ptr * range_node);
  rb_prev : rb_tree -> ptr -> option (ptr * range_node)
}.

(** Its documented behaviour, on trees whose nodes are distinct. *)
Class RbLibOk `{RbLib} : Prop := {
  rb_insert_color_inorder : forall p t,
    NoDup (inorder t).*1 -> inorder (rb_insert_color p t) = inorder t;
  rb_erase_inorder : forall t l1 p n l2,
    NoDup (inorder t).*1 -> inorder t = l1 ++ (p, n) :: l2 ->
    inorder (rb_erase p t) = l1 ++ l2;
  rb_first_inorder : forall t,
    NoDup (inorder t).*1 -> rb_first t = head (inorder t);
  rb_next_inorder : forall t l1 p n l2,
    NoDup (inorder t).*1 -> inorder t = l1 ++ (p, n) :: l2 ->
    rb_next t p = head l2;
  rb_prev_inorder : forall t l1 p n l2,
    NoDup (inorder t).*1 -> inorder t = l1 ++ (p, n) :: l2 ->
    rb_prev t p = last l1
}.

(** ** balloc.c: comparison, search, insertion *)
Inductive node_type := NODE_BLOCK | NODE_INODE | NODE_DIR.

Definition nova_rbtree_compare_rangenode
    (curr : range_node) (key : Z) (type : node_type) : Z :=
  match type with
  | NODE_DIR =>
      if key <? hash curr then -1 else if hash curr <? key then 1 else 0
  | _ =>
      if key <? range_low curr then -1
      else if range_high curr <? key then 1 else 0
  end.

(** [while (temp) ...]: the result is [ret] and the last node visited. *)
Fixpoint find_walk (temp : rb_tree) (key : Z) (type : node_type)
    (curr : option (ptr * range_node)) : Z * option (ptr * range_node) :=
  match temp with
  | RB_ROOT => (0, curr)
  | RbNode l p n r =>
      let compVal := nova_rbtree_compare_rangenode n key type in
      if compVal =? -1 then find_walk l key type (Some (p, n))
      else if compVal =? 1 then find_walk r key type (Some (p, n))
      else (1, Some (p, n))
  end.

Section ops.
Context `{NovaEnv, RbLib}.

(** [ret_node0] is the caller's value of [*ret_node], kept when the checksum
    of the last node visited is wrong. *)
Definition nova_find_range_node (tree : rb_tree) (key : Z) (type : node_type)
    (ret_node0 : option (ptr * range_node)) : Z * option (ptr * range_node) :=
  let '(ret, curr) := find_walk tree key type None in
  match curr with
  | Some (_, c) =>
      if negb (nova_range_node_checksum_ok c) then (0, ret_node0) else (ret, curr)
  | None => (ret, curr)
  end.

(** The descent of [nova_insert_range_node] with [rb_link_node] at the empty
    link it reaches; [None] when a node already covers the key. *)
Fixpoint insert_walk (temp : rb_tree) (p : ptr) (n : range_node) (type : node_type)
    : option rb_tree :=
  match temp with
  | RB_ROOT => Some (RbNode RB_ROOT p n RB_ROOT)
  | RbNode l q c r =>
      let compVal := nova_rbtree_compare_rangenode c (range_low n) type in
      if compVal =? -1 then (fun l' => RbNode l' q c r) <$> insert_walk l p n type
      else if compVal =? 1 then (fun r' => RbNode l q c r') <$> insert_walk r p n type
      else None
  end.

Definition nova_insert_range_node (tree : rb_tree) (p : ptr) (new_node : range_node)
    (type : node_type) : Z * rb_tree :=
  match insert_walk tree p new_node type with
  | None => (- EINVAL, tree)
  | Some t => (0, rb_insert_color p t)
  end.

Definition nova_insert_blocktree (tree : rb_tree) (p : ptr) (new_node : range_node)
    : Z * rb_tree :=
  nova_insert_range_node tree p new_node NODE_BLOCK.

(** [temp = rb_first(tree); while (temp) { ...; temp = rb_next(temp); rb_erase }] *)
Fixpoint destroy_walk (fuel : nat) (tree : rb_tree) (temp : option (ptr * range_node))
    : rb_tree :=
  match fuel, temp with
  | S fuel, Some (curr, _) =>
      let temp' := rb_next tree curr in
      destroy_walk fuel (rb_erase curr tree) temp'
  | _, _ => tree
  end.

Definition nova_destroy_range_node_tree (tree : rb_tree) : rb_tree :=
  destroy_walk (length (inorder tree)) tree (rb_first tree).

(** Returns [ret] and the out-parameters [*prev], [*next] (their initial
    values are [prev0], [next0]). *)
Definition nova_find_free_slot (tree : rb_tree) (low high : Z)
    (prev0 next0 : option (ptr * range_node))
    : Z * option (ptr * range_node) * option (ptr * range_node) :=
  let '(ret, ret_node) := nova_find_range_node tree low NODE_BLOCK None in
  if negb (ret =? 0) then (- EINVAL, prev0, next0)
  else
    match ret_node with
    | None => (0, None, None)
    | Some (p, n) =>
        if range_high n <? low then
          match rb_next tree p with
          | Some (q, m) =>
              if negb (nova_range_node_checksum_ok m)
              then (- EIO, ret_node, Some (q, m))
              else (0, ret_node, Some (q, m))
          | None => (0, ret_node, None)
          end
        else if high <? range_low n then
          match rb_prev tree p with
          | Some (q, m) =>
              if negb (nova_range_node_checksum_ok m)
              then (- EIO, Some (q, m), ret_node)
              else (0, Some (q, m), ret_node)
          | None => (0, None, ret_node)
          end
        else (- EINVAL, prev0, next0)
    end.
End ops.

(** ** Sorted range sequences *)

(** The keys a node covers. *)
Definition node_lo (type : node_type) (n : range_node) : Z :=
  match type with NODE_DIR => hash n | _ => range_low n end.
Definition node_hi (type : node_type) (n : range_node) : Z :=
  match type with NODE_DIR => hash n | _ => range_high n end.

Definition node_lt (type : node_type) (x y : ptr * range_node) : Prop :=
  node_hi type x.2 < node_lo type y.2.

Definition ranges_wf (type : node_type) (l : list (ptr * range_node)) : Prop :=
  StronglySorted (node_lt type) l /\
  Forall (fun x => node_lo type x.2 <= node_hi type x.2) l.

(** Every node of [l] lies below (above) [key]. *)
Definition all_below (type : node_type) (key : Z) (l : list (ptr * range_node)) : Prop :=
  Forall (fun x => node_hi type x.2 < key) l.
Definition all_above (type : node_type) (key : Z) (l : list (ptr * range_node)) : Prop :=
  Forall (fun x => key < node_lo type x.2) l.

Lemma ranges_wf_nil type : ranges_wf type [].
Proof. split; constructor. Qed.

Lemma ranges_wf_app type l1 l2 :
  ranges_wf type (l1 ++ l2) <->
  ranges_wf type l1 /\ ranges_wf type l2 /\
  (forall x y, x ∈ l1 -> y ∈ l2 -> node_lt type x y).
Proof.
  unfold ranges_wf. rewrite StronglySorted_app, Forall_app. naive_solver.
Qed.

Lemma ranges_wf_cons type x l :
  ranges_wf type (x :: l) <->
  node_lo type x.2 <= node_hi type x.2 /\ ranges_wf type l /\
  (forall y, y ∈ l -> node_lt type x y).
Proof.
  unfold ranges_wf. rewrite StronglySorted_cons, Forall_cons, Forall_forall.
  naive_solver.
Qed.

(** A node put between two halves of a sorted sequence keeps it sorted. *)
Lemma ranges_wf_insert type l1 x l2 :
  ranges_wf type (l1 ++ l2) ->
  node_lo type x.2 <= node_hi type x.2 ->
  all_below type (node_lo type x.2) l1 -> all_above type (node_hi type x.2) l2 ->
  ranges_wf type (l1 ++ x :: l2).
Proof.
  unfold all_below, all_above. rewrite !Forall_forall.
  rewrite !ranges_wf_app, ranges_wf_cons. intros (W1 & W2 & W3) Hx B A.
  split_and!; auto.
  intros y z Hy Hz. apply elem_of_cons in Hz as [->|Hz]; [|by apply W3].
  by apply B.
Qed.

Lemma ranges_wf_remove type l1 x l2 :
  ranges_wf type (l1 ++ x :: l2) -> ranges_wf type (l1 ++ l2).
Proof. rewrite !ranges_wf_app, ranges_wf_cons. set_solver. Qed.

Lemma ranges_wf_middle type l1 x l2 :
  ranges_wf type (l1 ++ x :: l2) ->
  node_lo type x.2 <= node_hi type x.2 /\
  all_below type (node_lo type x.2) l1 /\ all_above type (node_hi type x.2) l2.
Proof.
  unfold all_below, all_above. rewrite !Forall_forall, ranges_wf_app, ranges_wf_cons.
  intros (W1 & (Hx & W2 & A) & B). split_and!; [done| |].
  - intros y Hy. apply (B y x Hy). set_solver.
  - intros y Hy. apply (A y Hy).
Qed.

(** Shrinking or moving a node inside its gap keeps the sequence sorted. *)
Lemma ranges_wf_replace type l1 x x' l2 :
  ranges_wf type (l1 ++ x :: l2) ->
  node_lo type x'.2 <= node_hi type x'.2 ->
  all_below type (node_lo type x'.2) l1 -> all_above type (node_hi type x'.2) l2 ->
  ranges_wf type (l1 ++ x' :: l2).
Proof. intros W **. apply ranges_wf_insert; auto. by eapply ranges_wf_remove. Qed.

Lemma compare_spec n key type :
  node_lo type n <= node_hi type n ->
  (key < node_lo type n /\ nova_rbtree_compare_rangenode n key type = -1) \/
  (node_hi type n < key /\ nova_rbtree_compare_rangenode n key type = 1) \/
  (node_lo type n <= key <= node_hi type n /\
   nova_rbtree_compare_rangenode n key type = 0).
Proof.
  destruct type; unfold nova_rbtree_compare_rangenode, node_lo, node_hi;
    intros; repeat case_if; lia.
Qed.

Lemma all_below_app type key l1 l2 :
  all_below type key (l1 ++ l2) <-> all_below type key l1 /\ all_below type key l2.
Proof. apply Forall_app. Qed.
Lemma all_above_app type key l1 l2 :
  all_above type key (l1 ++ l2) <-> all_above type key l1 /\ all_above type key l2.
Proof. apply Forall_app. Qed.
Lemma all_below_nil type key : all_below type key [].
Proof. constructor. Qed.
Lemma all_above_nil type key : all_above type key [].
Proof. constructor. Qed.
Lemma all_below_mono type k k' l : all_below type k l -> k <= k' -> all_below type k' l.
Proof. intros HF Hk. eapply Forall_impl; [exact HF|]. simpl. intros; lia. Qed.
Lemma all_above_mono type k k' l : all_above type k l -> k' <= k -> all_above type k' l.
Proof. intros HF Hk. eapply Forall_impl; [exact HF|]. simpl. intros; lia. Qed.

Create HintDb ranges.
#[export] Hint Resolve ranges_wf_nil ranges_wf_remove all_below_nil all_above_nil : ranges.
#[export] Hint Constructors Forall : ranges.

(** What the descent of [nova_find_range_node] returns: either a node that
    covers the key, or the last node visited, which is the predecessor or the
    successor of the key. *)
Definition found_at (type : node_type) (key : Z) (l : list (ptr * range_node))
    (res : Z * option (ptr * range_node)) : Prop :=
  (exists l1 x l2, l = l1 ++ x :: l2 /\ node_lo type x.2 <= key <= node_hi type x.2 /\
     res = (1, Some x)) \/
  (exists l1 l2 x, l = l1 ++ l2 /\ all_below type key l1 /\ all_above type key l2 /\
     res = (0, Some x) /\ (last l1 = Some x \/ head l2 = Some x)).

Lemma find_walk_found type key t :
  ranges_wf type (inorder t) -> t <> RB_ROOT ->
  forall curr, found_at type key (inorder t) (find_walk t key type curr).
Proof.
  induction t as [|l IHl p n r IHr]; [done|]. intros W _ curr.
  cbn [inorder find_walk] in *.
  pose proof (ranges_wf_middle _ _ _ _ W) as (Hn & B & A). cbn [snd] in *.
  pose proof W as W'. rewrite ranges_wf_app, ranges_wf_cons in W'.
  destruct W' as (Wl & (_ & Wr & _) & _).
  destruct (compare_spec n key type Hn) as [[Hk E]|[[Hk E]|[Hk E]]];
    rewrite E; cbn [Z.eqb Pos.eqb].
  - destruct l as [|ll lp ln lr].
    + right. exists [], ((p, n) :: inorder r), (p, n). cbn.
      split_and!; auto with ranges. constructor; [done|].
      eapply all_above_mono; [eassumption|lia].
    + destruct (IHl Wl ltac:(done) (Some (p, n)))
        as [(l1 & x & l2 & E1 & Hx & E2)|(l1 & l2 & x & E1 & B1 & A1 & E2 & HL)].
      * left. exists l1, x, (l2 ++ (p, n) :: inorder r). rewrite E1.
        by rewrite <- app_assoc, E2.
      * right. exists l1, (l2 ++ (p, n) :: inorder r), x. rewrite E1.
        split_and!; auto; [by rewrite app_assoc| |].
        -- apply all_above_app. split; [done|]. constructor; [done|].
           eapply all_above_mono; [eassumption|lia].
        -- destruct HL as [HL|HL]; [by left|right]. by destruct l2.
  - destruct r as [|rl rp rn rr].
    + right. exists (inorder l ++ [(p, n)]), [], (p, n).
      rewrite app_nil_r. split_and!; auto with ranges.
      * apply all_below_app. split; [|by constructor]. eapply all_below_mono; [eassumption|lia].
      * left. apply last_snoc.
    + destruct (IHr Wr ltac:(done) (Some (p, n)))
        as [(l1 & x & l2 & E1 & Hx & E2)|(l1 & l2 & x & E1 & B1 & A1 & E2 & HL)].
      * left. exists (inorder l ++ (p, n) :: l1), x, l2. rewrite E1.
        by rewrite <- app_assoc, E2.
      * right. exists (inorder l ++ (p, n) :: l1), l2, x. rewrite E1.
        split_and!; auto; [by rewrite <- app_assoc| |].
        -- apply all_below_app. split; [eapply all_below_mono; [eassumption|lia]|].
           by constructor.
        -- destruct HL as [HL|HL]; [left|by right].
           rewrite last_app_cons. by destruct l1.
  - left. by exists (inorder l), (p, n), (inorder r).
Qed.

(** Insertion fails exactly when a node covers the key, and otherwise puts
    the new node at the key's place in the sequence. *)
Lemma insert_walk_spec type t p n :
  ranges_wf type (inorder t) ->
  node_lo type n = range_low n ->
  match insert_walk t p n type with
  | None => exists x, x ∈ inorder t /\ node_lo type x.2 <= range_low n <= node_hi type x.2
  | Some t' => exists l1 l2, inorder t = l1 ++ l2 /\ inorder t' = l1 ++ (p, n) :: l2 /\
      all_below type (range_low n) l1 /\ all_above type (range_low n) l2
  end.
Proof.
  intros W Hlo. induction t as [|l IHl q c r IHr]; cbn [inorder insert_walk] in *.
  - exists [], []. auto with ranges.
  - pose proof (ranges_wf_middle _ _ _ _ W) as (Hc & B & A). cbn [snd] in *.
    pose proof W as W'. rewrite ranges_wf_app, ranges_wf_cons in W'.
    destruct W' as (Wl & (_ & Wr & _) & _).
    destruct (compare_spec c (range_low n) type Hc) as [[Hk E]|[[Hk E]|[Hk E]]];
      rewrite E; cbn [Z.eqb Pos.eqb].
    + specialize (IHl Wl). destruct (insert_walk l p n type) as [l'|]; cbn.
      * destruct IHl as (l1 & l2 & E1 & E2 & B1 & A1).
        exists l1, (l2 ++ (q, c) :: inorder r). rewrite E1, E2, <- !app_assoc.
        split_and!; auto. apply all_above_app. split; [done|]. constructor; [done|].
        eapply all_above_mono; [eassumption|lia].
      * destruct IHl as (x & Hx & ?). exists x. set_solver.
    + specialize (IHr Wr). destruct (insert_walk r p n type) as [r'|]; cbn.
      * destruct IHr as (l1 & l2 & E1 & E2 & B1 & A1).
        exists (inorder l ++ (q, c) :: l1), l2. rewrite E1, E2, <- !app_assoc.
        split_and!; auto. apply all_below_app.
        split; [eapply all_below_mono; [eassumption|lia]|]. by constructor.
      * destruct IHr as (x & Hx & ?). exists x. set_solver.
    + exists (q, c). set_solver.
Qed.

(** A key splits a sorted sequence in only one way. *)
Lemma split_unique type key l1 l2 k1 k2 :
  ranges_wf type (l1 ++ l2) -> l1 ++ l2 = k1 ++ k2 ->
  all_below type key l1 -> all_above type key l2 ->
  all_below type key k1 -> all_above type key k2 -> k1 = l1 /\ k2 = l2.
Proof.
  intros [_ W] E B1 A1 B2 A2.
  assert (forall k, Forall (fun x => node_lo type x.2 <= node_hi type x.2) k ->
            all_below type key k -> all_above type key k -> k = []) as Hnil.
  { intros [|z k] HW HB HA; [done|].
    apply Forall_inv in HW, HB, HA. lia. }
  destruct (app_eq_inv _ _ _ _ E) as [(k & -> & ->)|(k & -> & ->)].
  - rewrite <- app_assoc, !Forall_app in W. apply all_below_app in B1 as [_ B1].
    apply all_above_app in A2 as [A2 _].
    rewrite (Hnil k) by naive_solver. by rewrite app_nil_r.
  - rewrite !Forall_app in W. apply all_below_app in B2 as [_ B2].
    apply all_above_app in A1 as [A1 _].
    rewrite (Hnil k) by naive_solver. by rewrite app_nil_r.
Qed.

(** [rb_update] in the sequence. *)
Lemma inorder_update p f t :
  inorder (rb_update p f t)
  = (fun x => if decide (p = x.1) then (x.1, f x.2) else x) <$> inorder t.
Proof.
  induction t as [|l IHl q n r IHr]; cbn [rb_update inorder]; [done|].
  rewrite fmap_app, fmap_cons, IHl, IHr. do 2 f_equal. cbn. by case_decide.
Qed.

Lemma fmap_update_notin p f (l : list (ptr * range_node)) :
  p ∉ l.*1 -> (fun x => if decide (p = x.1) then (x.1, f x.2) else x) <$> l = l.
Proof.
  induction l as [|[q n] l IH]; cbn; [done|]. intros Hp.
  case_decide; [set_solver|]. f_equal. apply IH. set_solver.
Qed.

Lemma inorder_update_at p f t l1 n l2 :
  NoDup (inorder t).*1 -> inorder t = l1 ++ (p, n) :: l2 ->
  inorder (rb_update p f t) = l1 ++ (p, f n) :: l2.
Proof.
  intros ND E. rewrite inorder_update, E, fmap_app, fmap_cons.
  rewrite E, fmap_app, fmap_cons, NoDup_app, NoDup_cons in ND.
  destruct ND as (N1 & N2 & N3 & _).
  rewrite !fmap_update_notin; [|done|].
  - cbn. by rewrite decide_True.
  - intros Hp. apply (N2 p Hp). set_solver.
Qed.

Lemma node_at_middle p n l1 l2 :
  NoDup (l1 ++ (p, n) :: l2).*1 -> node_at p (l1 ++ (p, n) :: l2) = Some n.
Proof.
  induction l1 as [|[q m] l1 IH]; cbn; intros ND.
  - by rewrite decide_True.
  - apply NoDup_cons in ND as [Hq ND]. case_decide; [|auto].
    subst. destruct Hq. rewrite fmap_app. set_solver.
Qed.

Lemma rb_deref_at p t l1 n l2 :
  NoDup (inorder t).*1 -> inorder t = l1 ++ (p, n) :: l2 -> rb_deref t p = Some n.
Proof. intros ND E. unfold rb_deref. rewrite E in *. by apply node_at_middle. Qed.

Lemma NoDup_remove_fst (l1 l2 : list (ptr * range_node)) x :
  NoDup (l1 ++ x :: l2).*1 -> NoDup (l1 ++ l2).*1.
Proof.
  rewrite !fmap_app, fmap_cons, !NoDup_app, NoDup_cons. set_solver.
Qed.

(** ** Well-formed trees and the specifications of the operations *)
Section specs.
Context `{NovaEnv, RbLibOk}.

Definition csums_ok (l : list (ptr * range_node)) : Prop :=
  Forall (fun x => nova_range_node_checksum_ok x.2 = true) l.

Record tree_wf (type : node_type) (t : rb_tree) : Prop := {
  tree_sorted : ranges_wf type (inorder t);
  tree_nodup : NoDup (inorder t).*1;
  tree_csums : csums_ok (inorder t)
}.

Lemma update_checksum_ok n :
  nova_range_node_checksum_ok (nova_update_range_node_checksum n) = true.
Proof.
  unfold nova_range_node_checksum_ok, nova_update_range_node_checksum.
  destruct (dram_struct_csum =? 0); [done|]. cbn. apply Z.eqb_refl.
Qed.

Lemma update_checksum_low n :
  range_low (nova_update_range_node_checksum n) = range_low n.
Proof. unfold nova_update_range_node_checksum. by case_match. Qed.
Lemma update_checksum_high n :
  range_high (nova_update_range_node_checksum n) = range_high n.
Proof. unfold nova_update_range_node_checksum. by case_match. Qed.
Lemma low_set_low v n : range_low (set_range_low v n) = v.
Proof. done. Qed.
Lemma low_set_high v n : range_low (set_range_high v n) = range_low n.
Proof. done. Qed.
Lemma high_set_high v n : range_high (set_range_high v n) = v.
Proof. done. Qed.
Lemma high_set_low v n : range_high (set_range_low v n) = range_high n.
Proof. done. Qed.

Lemma tree_wf_root type : tree_wf type RB_ROOT.
Proof. split; [apply ranges_wf_nil|constructor..]. Qed.

Lemma csums_ok_app l1 l2 : csums_ok (l1 ++ l2) <-> csums_ok l1 /\ csums_ok l2.
Proof. apply Forall_app. Qed.
Lemma csums_ok_cons x l :
  csums_ok (x :: l) <-> nova_range_node_checksum_ok x.2 = true /\ csums_ok l.
Proof. unfold csums_ok. by rewrite Forall_cons. Qed.
Lemma csums_ok_elem l p n :
  csums_ok l -> (p, n) ∈ l -> nova_range_node_checksum_ok n = true.
Proof. unfold csums_ok. rewrite Forall_forall. intros HF Hin. apply (HF _ Hin). Qed.

Lemma nova_find_range_node_spec type t key r0 :
  tree_wf type t ->
  let res := nova_find_range_node t key type r0 in
  (inorder t = [] /\ res = (0, None)) \/ found_at type key (inorder t) res.
Proof.
  intros [W ND C]. unfold nova_find_range_node.
  destruct (decide (t = RB_ROOT)) as [->|Hne]; [by left|]. right.
  pose proof (find_walk_found type key t W Hne None) as F.
  destruct (find_walk t key type None) as [ret curr].
  destruct F as [(l1 & x & l2 & E & Hk & E2)|(l1 & l2 & x & E & B & A & E2 & HL)];
    simplify_eq; destruct x as [p c]; cbn.
  - rewrite (csums_ok_elem _ p c C) by (rewrite E; set_solver).
    left. by exists l1, (p, c), l2.
  - assert ((p, c) ∈ inorder t) as Hin.
    { rewrite E. destruct HL as [HL%last_Some_elem_of|HL].
      - set_solver.
      - destruct l2; simplify_eq/=. set_solver. }
    rewrite (csums_ok_elem _ p c C Hin).
    right. by exists l1, l2, (p, c).
Qed.

(** A split of the sequence around a free slot. *)
Definition free_slot (type : node_type) (t : rb_tree) (low high : Z)
    (l1 l2 : list (ptr * range_node)) : Prop :=
  inorder t = l1 ++ l2 /\ all_below type low l1 /\ all_above type high l2.

(** If [low..high] meets no node, the neighbours of the slot are returned. *)
Lemma nova_find_free_slot_free t low high l1 l2 pv nx :
  tree_wf NODE_BLOCK t -> low <= high -> free_slot NODE_BLOCK t low high l1 l2 ->
  nova_find_free_slot t low high pv nx = (0, last l1, head l2).
Proof.
  intros Wf Hlh (E & B & A). destruct Wf as [W ND C] eqn:EWf. clear EWf.
  unfold nova_find_free_slot.
  destruct (nova_find_range_node_spec NODE_BLOCK t low None Wf)
    as [[E0 ->]|[(k1 & x & k2 & E1 & Hk & ->)|(k1 & k2 & x & E1 & B1 & A1 & -> & HL)]].
  - rewrite E0 in E. symmetry in E. apply app_eq_nil in E as [-> ->]. done.
  - exfalso. assert (x ∈ l1 ++ l2) as Hx by (rewrite <- E, E1; set_solver).
    unfold all_below, all_above in *. rewrite Forall_forall in *.
    apply elem_of_app in Hx as [Hx|Hx]; [specialize (B x Hx)|specialize (A x Hx)]; lia.
  - assert (k1 = l1 /\ k2 = l2) as [-> ->].
    { rewrite E in W, E1. eapply split_unique; eauto using all_above_mono. }
    destruct x as [p n]. cbn.
    destruct HL as [HL|HL].
    + pose proof HL as [l' ->]%last_Some.
      assert (range_high n < low) as Hn.
      { apply all_below_app in B as [_ B]. by apply Forall_inv in B. }
      rewrite (proj2 (Z.ltb_lt _ _) Hn).
      rewrite (rb_next_inorder t l' p n l2) by (auto; by rewrite E, <- app_assoc).
      destruct l2 as [|[q m] l2]; cbn; [by rewrite HL|].
      rewrite (csums_ok_elem _ q m C) by (rewrite E; set_solver).
      by rewrite HL.
    + destruct l2 as [|y l2]; simplify_eq/=.
      assert (high < range_low n) as Hn by (by apply Forall_inv in A).
      assert (range_low n <= range_high n) as Hn2.
      { rewrite E in W. by apply ranges_wf_middle in W as [? _]. }
      rewrite (proj2 (Z.ltb_ge _ _)) by lia. rewrite (proj2 (Z.ltb_lt _ _) Hn).
      rewrite (rb_prev_inorder t l1 p n l2) by auto.
      destruct (last l1) as [[q m]|] eqn:EL; [|done].
      rewrite (csums_ok_elem _ q m C); [done|].
      rewrite E. apply last_Some_elem_of in EL. set_solver.
Qed.
(** The start of the range is already covered: rejected, outputs untouched. *)
Lemma nova_find_free_slot_covered t low high x pv nx :
  tree_wf NODE_BLOCK t -> x ∈ inorder t -> range_low x.2 <= low <= range_high x.2 ->
  nova_find_free_slot t low high pv nx = (- EINVAL, pv, nx).
Proof.
  intros Wf Hx Hl. unfold nova_find_free_slot.
  destruct (nova_find_range_node_spec NODE_BLOCK t low None Wf)
    as [[E0 ->]|[(k1 & y & k2 & E1 & Hk & ->)|(k1 & k2 & y & E1 & B1 & A1 & -> & HL)]].
  - rewrite E0 in Hx. set_solver.
  - done.
  - exfalso. rewrite E1 in Hx. unfold all_below, all_above in *.
    rewrite Forall_forall in *.
    apply elem_of_app in Hx as [Hx|Hx]; [specialize (B1 x Hx)|specialize (A1 x Hx)];
      simpl in *; lia.
Qed.

Lemma tree_wf_insert type t t' l1 l2 p n :
  tree_wf type t -> inorder t = l1 ++ l2 -> inorder t' = l1 ++ (p, n) :: l2 ->
  p ∉ (inorder t).*1 -> node_lo type n <= node_hi type n ->
  all_below type (node_lo type n) l1 -> all_above type (node_hi type n) l2 ->
  nova_range_node_checksum_ok n = true -> tree_wf type t'.
Proof.
  intros [W ND C] E E' Hp Hn B A Hc. rewrite E in *. split; rewrite E'.
  - by apply ranges_wf_insert.
  - rewrite !fmap_app, fmap_cons in *. apply NoDup_app in ND as (N1 & N2 & N3).
    apply NoDup_app. split_and!; [done| |apply NoDup_cons; set_solver].
    set_solver.
  - rewrite csums_ok_app, csums_ok_cons in *. naive_solver.
Qed.

Lemma tree_wf_remove type t t' l1 l2 x :
  tree_wf type t -> inorder t = l1 ++ x :: l2 -> inorder t' = l1 ++ l2 ->
  tree_wf type t'.
Proof.
  intros [W ND C] E E'. rewrite E in *. split; rewrite E'.
  - by eapply ranges_wf_remove.
  - by eapply NoDup_remove_fst.
  - rewrite csums_ok_app, csums_ok_cons in *. naive_solver.
Qed.

Lemma tree_wf_replace type t t' l1 l2 p n n' :
  tree_wf type t -> inorder t = l1 ++ (p, n) :: l2 -> inorder t' = l1 ++ (p, n') :: l2 ->
  node_lo type n' <= node_hi type n' ->
  all_below type (node_lo type n') l1 -> all_above type (node_hi type n') l2 ->
  nova_range_node_checksum_ok n' = true -> tree_wf type t'.
Proof.
  intros [W ND C] E E' Hn B A Hc. rewrite E in *. split; rewrite E'.
  - by eapply ranges_wf_replace.
  - by rewrite fmap_app, fmap_cons in *.
  - rewrite csums_ok_app, csums_ok_cons in *. naive_solver.
Qed.

Lemma nova_insert_blocktree_free t p n l1 l2 :
  tree_wf NODE_BLOCK t -> p ∉ (inorder t).*1 -> range_low n <= range_high n ->
  nova_range_node_checksum_ok n = true ->
  free_slot NODE_BLOCK t (range_low n) (range_high n) l1 l2 ->
  exists t', nova_insert_blocktree t p n = (0, t') /\ inorder t' = l1 ++ (p, n) :: l2 /\ tree_wf NODE_BLOCK t'.
Proof.
  intros Wf Hp Hn Hc (E & B & A). destruct Wf as [W ND C] eqn:EWf. clear EWf.
  unfold nova_insert_blocktree, nova_insert_range_node.
  pose proof (insert_walk_spec NODE_BLOCK t p n W eq_refl) as S.
  assert (all_above NODE_BLOCK (range_low n) l2) as A' by eauto using all_above_mono.
  destruct (insert_walk t p n NODE_BLOCK) as [t0|].
  - destruct S as (k1 & k2 & E1 & E2 & B1 & A1).
    assert (k1 = l1 /\ k2 = l2) as [-> ->].
    { rewrite E in W, E1. by eapply split_unique. }
    assert (tree_wf NODE_BLOCK t0) as Wf0 by (eapply tree_wf_insert; eauto).
    assert (inorder (rb_insert_color p t0) = inorder t0) as Ec
      by (apply rb_insert_color_inorder, Wf0).
    exists (rb_insert_color p t0). split_and!; [done|by rewrite Ec|].
    destruct Wf0 as [W0 N0 C0]. split; by rewrite Ec.
  - exfalso. destruct S as (x & Hx & Hl). rewrite E in Hx.
    unfold all_below, all_above in *. rewrite Forall_forall in *.
    apply elem_of_app in Hx as [Hx|Hx]; [specialize (B x Hx)|specialize (A x Hx)];
      simpl in *; lia.
Qed.

Lemma nova_insert_blocktree_covered t p n x :
  tree_wf NODE_BLOCK t -> x ∈ inorder t ->
  range_low x.2 <= range_low n <= range_high x.2 ->
  nova_insert_blocktree t p n = (- EINVAL, t).
Proof.
  intros [W _ _] Hx Hl. unfold nova_insert_blocktree, nova_insert_range_node.
  pose proof (insert_walk_spec NODE_BLOCK t p n W eq_refl) as S.
  destruct (insert_walk t p n NODE_BLOCK) as [t0|]; [|done]. exfalso.
  destruct S as (k1 & k2 & E1 & E2 & B1 & A1). rewrite E1 in Hx.
  unfold all_below, all_above in *. rewrite Forall_forall in *.
  apply elem_of_app in Hx as [Hx|Hx]; [specialize (B1 x Hx)|specialize (A1 x Hx)];
    simpl in *; lia.
Qed.

(** The destruction loop empties the tree within one pass. *)
Lemma destroy_walk_empty t :
  NoDup (inorder t).*1 ->
  inorder (destroy_walk (length (inorder t)) t (head (inorder t))) = [].
Proof.
  remember (inorder t) as l eqn:E. symmetry in E. revert t E.
  induction l as [|[p n] l IH]; intros t E ND; [done|].
  cbn [length head destroy_walk].
  rewrite (rb_next_inorder t [] p n l) by (by rewrite ?E).
  apply IH.
  - by rewrite (rb_erase_inorder t [] p n l) by (by rewrite ?E).
  - by apply NoDup_cons in ND as [_ ND].
Qed.

End specs.

#[export] Hint Rewrite @update_checksum_low @update_checksum_high low_set_low low_set_high
  high_set_high high_set_low @update_checksum_ok : node.

(** A reference rbtree library, used to instantiate the parameter: no
    rebalancing, deletion by rebuilding the right spine. *)
Module RbExample.

Definition spine (l : list (ptr * range_node)) : rb_tree :=
  foldr (fun x t => RbNode RB_ROOT x.1 x.2 t) RB_ROOT l.

Fixpoint after (p : ptr) (l : list (ptr * range_node)) : option (ptr * range_node) :=
  match l with
  | [] => None
  | x :: l => if decide (p = x.1) then head l else after p l
  end.

#[export] Instance lib : RbLib := {|
  rb_insert_color _ t := t;
  rb_erase p t := spine (filter (fun x => p <> x.1) (inorder t));
  rb_first t := head (inorder t);
  rb_next t p := after p (inorder t);
  rb_prev t p := after p (reverse (inorder t))
|}.

Lemma inorder_spine l : inorder (spine l) = l.
Proof. induction l as [|[p n] l IH]; [done|]. cbn. f_equal. apply IH. Qed.

Lemma filter_ne_notin p (l : list (ptr * range_node)) :
  p ∉ l.*1 -> filter (fun x => p <> x.1) l = l.
Proof.
  induction l as [|[q m] l IH]; [done|]. rewrite fmap_cons. intros Hp.
  rewrite filter_cons_True by (cbn; set_solver). f_equal. apply IH. set_solver.
Qed.

Lemma after_middle p n l1 l2 :
  p ∉ l1.*1 -> after p (l1 ++ (p, n) :: l2) = head l2.
Proof.
  induction l1 as [|[q m] l1 IH]; cbn; intros Hp; [by rewrite decide_True|].
  rewrite decide_False by set_solver. apply IH. set_solver.
Qed.

#[export] Instance lib_ok : RbLibOk.
Proof.
  split; intros; try done.
  - cbn. rewrite inorder_spine, H0. rewrite H0, fmap_app, fmap_cons in H.
    apply NoDup_app in H as (_ & H1 & (H2 & _)%NoDup_cons).
    rewrite filter_app, filter_cons_False by (cbn; auto).
    rewrite !filter_ne_notin; [done|done|]. intros Hp. apply (H1 p Hp). set_solver.
  - cbn. rewrite H0. rewrite H0, fmap_app, fmap_cons in H.
    apply NoDup_app in H as (_ & H1 & _). apply after_middle.
    intros Hp. apply (H1 p Hp). set_solver.
  - cbn. rewrite H0, reverse_app, reverse_cons, <- app_assoc. cbn.
    rewrite H0, fmap_app, fmap_cons in H.
    apply NoDup_app in H as (_ & _ & (H2 & _)%NoDup_cons).
    rewrite after_middle; [by rewrite head_reverse|].
    rewrite fmap_reverse. set_solver.
Qed.

End RbExample.
