(* ===== verification/Pmem.v ===== *)
(** Byte-addressed persistent memory.

    The NVMM region is a finite map from addresses to bytes (absent bytes read
    as zero); [load n]/[store n] are the [n]-byte little-endian accesses the
    C code performs through typed pointers.  Every access the code makes that
    matters for persistence is also recorded as a [pm_event]. *)

From S2P Require Import Prelude CInt.

Abbreviation mem := (gmap Z Z).

Definition mget (m : mem) (a : Z) : Z := default 0 (m !! a).

Fixpoint load_bytes (m : mem) (a : Z) (n : nat) : list Z :=
  match n with
  | O => []
  | S n => mget m a :: load_bytes m (a + 1) n
  end.

Fixpoint store_bytes (m : mem) (a : Z) (l : list Z) : mem :=
  match l with
  | [] => m
  | b :: l => <[a := b]> (store_bytes m (a + 1) l)
  end.

Definition load (n : nat) (m : mem) (a : Z) : Z := le_val (load_bytes m a n).
Definition store (n : nat) (m : mem) (a v : Z) : mem := store_bytes m a (le_bytes n v).

(** What the processor sees: cached stores, non-temporal stores, cache-line
    write-backs and store fences. *)
Inductive flush_kind := CLWB | CLFLUSH.

Inductive pm_event :=
| EvStore (a : Z) (l : list Z)
| EvNtStore (a : Z) (l : list Z)
| EvFlush (k : flush_kind) (a : Z)
| EvFence.

#[global] Instance flush_kind_eq_dec : EqDecision flush_kind.
Proof. solve_decision. Defined.

#[global] Instance pm_event_eq_dec : EqDecision pm_event.
Proof. solve_decision. Defined.

(** Extensional equality of memories: same bytes at every address. *)
Definition mem_equiv (m1 m2 : mem) : Prop := forall a, mget m1 a = mget m2 a.
Infix "=m=" := mem_equiv (at level 70) : nova_scope.
Local Open Scope nova_scope.

#[global] Instance mem_equiv_equivalence : Equivalence mem_equiv.
Proof.
  split.
  - intros m a. done.
  - intros m1 m2 E a. by rewrite (E a).
  - intros m1 m2 m3 E1 E2 a. by rewrite (E1 a), (E2 a).
Qed.

#[global] Instance mget_proper : Proper (mem_equiv ==> eq ==> eq) mget.
Proof. intros m1 m2 E a ? <-. apply E. Qed.

Lemma mget_insert m a b x : mget (<[a := b]> m) x = if decide (a = x) then b else mget m x.
Proof. unfold mget. rewrite lookup_insert. by case_decide. Qed.

#[global] Instance load_bytes_proper : Proper (mem_equiv ==> eq ==> eq ==> eq) load_bytes.
Proof.
  intros m1 m2 E a ? <- n ? <-. revert a.
  induction n as [|n IH]; intros a; cbn; [done|]. by rewrite IH, (E a).
Qed.

#[global] Instance load_proper n : Proper (mem_equiv ==> eq ==> eq) (load n).
Proof. intros m1 m2 E a ? <-. unfold load. by rewrite E. Qed.

Lemma mget_store_bytes m a l x :
  mget (store_bytes m a l) x
  = if decide (a <= x < a + Z.of_nat (length l))
    then default 0 (l !! Z.to_nat (x - a)) else mget m x.
Proof.
  revert a. induction l as [|b l IH]; intros a; cbn [store_bytes length].
  - rewrite decide_False by lia. done.
  - rewrite mget_insert, IH. destruct (decide (a = x)) as [->|Hne].
    + rewrite decide_True by lia. by rewrite Z.sub_diag.
    + destruct (decide (a + 1 <= x < a + 1 + Z.of_nat (length l))).
      * rewrite decide_True by lia.
        replace (Z.to_nat (x - a)) with (S (Z.to_nat (x - (a + 1)))) by lia. done.
      * by rewrite decide_False by lia.
Qed.

#[global] Instance store_bytes_proper : Proper (mem_equiv ==> eq ==> eq ==> mem_equiv) store_bytes.
Proof. intros m1 m2 E a ? <- l ? <- x. rewrite !mget_store_bytes. by rewrite (E x). Qed.

#[global] Instance store_proper n : Proper (mem_equiv ==> eq ==> eq ==> mem_equiv) (store n).
Proof. intros m1 m2 E a ? <- v ? <-. unfold store. by rewrite E. Qed.

Lemma length_load_bytes m a n : length (load_bytes m a n) = n.
Proof. revert a. induction n as [|n IH]; intros a; cbn; auto. Qed.
#[export] Hint Rewrite length_load_bytes : len.

Lemma lookup_load_bytes m a n i :
  (i < n)%nat -> load_bytes m a n !! i = Some (mget m (a + Z.of_nat i)).
Proof.
  revert a i. induction n as [|n IH]; intros a i Hi; [lia|]. destruct i as [|i]; cbn.
  - by rewrite Z.add_0_r.
  - rewrite IH by lia. do 2 f_equal. lia.
Qed.

Lemma load_bytes_ext m1 m2 a n :
  (forall x, a <= x < a + Z.of_nat n -> mget m1 x = mget m2 x) ->
  load_bytes m1 a n = load_bytes m2 a n.
Proof.
  revert a. induction n as [|n IH]; intros a Hx; cbn; [done|].
  rewrite Hx by lia. f_equal. apply IH. intros. apply Hx. lia.
Qed.

Lemma load_ext n m1 m2 a :
  (forall x, a <= x < a + Z.of_nat n -> mget m1 x = mget m2 x) ->
  load n m1 a = load n m2 a.
Proof. intros. unfold load. f_equal. by apply load_bytes_ext. Qed.

Lemma load_store_bytes_same m a l :
  load_bytes (store_bytes m a l) a (length l) = l.
Proof.
  apply list_eq. intros i. destruct (decide (i < length l)%nat).
  - rewrite lookup_load_bytes by lia. rewrite mget_store_bytes, decide_True by lia.
    replace (Z.to_nat (a + Z.of_nat i - a)) with i by lia.
    by destruct (lookup_lt_is_Some_2 l i) as [x ->].
  - rewrite !lookup_ge_None_2; [done|lia|]. rewrite length_load_bytes. lia.
Qed.

Lemma load_bytes_app m a n k :
  load_bytes m a (n + k) = load_bytes m a n ++ load_bytes m (a + Z.of_nat n) k.
Proof.
  revert a. induction n as [|n IH]; intros a; cbn [load_bytes Nat.add app].
  - by rewrite Z.add_0_r.
  - rewrite IH. do 3 f_equal. lia.
Qed.

Lemma mget_store_bytes_out m a l x :
  ~ (a <= x < a + Z.of_nat (length l)) -> mget (store_bytes m a l) x = mget m x.
Proof. intros. rewrite mget_store_bytes. by rewrite decide_False. Qed.

Lemma load_bytes_store_other m a l b n :
  b + Z.of_nat n <= a \/ a + Z.of_nat (length l) <= b ->
  load_bytes (store_bytes m a l) b n = load_bytes m b n.
Proof. intros Hd. apply load_bytes_ext. intros x Hx. apply mget_store_bytes_out. lia. Qed.

(** A memory that holds [l] at [a] and agrees with [m] elsewhere. *)
Lemma store_bytes_intro m m' a l :
  load_bytes m' a (length l) = l ->
  (forall x, ~ (a <= x < a + Z.of_nat (length l)) -> mget m' x = mget m x) ->
  m' =m= store_bytes m a l.
Proof.
  intros El Ho x. rewrite mget_store_bytes. case_decide as D; [|by apply Ho].
  rewrite <- El at 1. rewrite lookup_load_bytes by lia. cbn. f_equal. lia.
Qed.

Lemma mget_store_out n m a v x :
  ~ (a <= x < a + Z.of_nat n) -> mget (store n m a v) x = mget m x.
Proof. intros. apply mget_store_bytes_out. by rewrite length_le_bytes. Qed.

(** Reading back a stored word. *)
Lemma load_store_same n m a v :
  0 <= v < 2 ^ (8 * Z.of_nat n) -> load n (store n m a v) a = v.
Proof.
  intros Hv. unfold load, store.
  rewrite <- (length_le_bytes n v) at 2. rewrite load_store_bytes_same.
  rewrite le_val_le_bytes. by apply Z.mod_small.
Qed.

Lemma load_store_other n k m a b v :
  b + Z.of_nat k <= a \/ a + Z.of_nat n <= b -> load k (store n m a v) b = load k m b.
Proof. intros Hd. apply load_ext. intros x Hx. apply mget_store_out. lia. Qed.

Lemma load_store_bytes_other k m a l b :
  b + Z.of_nat k <= a \/ a + Z.of_nat (length l) <= b ->
  load k (store_bytes m a l) b = load k m b.
Proof. intros Hd. apply load_ext. intros x Hx. apply mget_store_bytes_out. lia. Qed.

(** Memories that hold bytes. *)
Definition mem_bytes (m : mem) : Prop := forall a, byteZ (mget m a).

Lemma mem_bytes_store_bytes m a l :
  mem_bytes m -> Forall byteZ l -> mem_bytes (store_bytes m a l).
Proof.
  intros Hm Hl x. rewrite mget_store_bytes. case_decide; [|apply Hm].
  destruct (l !! Z.to_nat (x - a)) as [b|] eqn:E; cbn; [|unfold byteZ; lia].
  eapply Forall_lookup_1; eauto.
Qed.

Lemma mem_bytes_store n m a v : mem_bytes m -> mem_bytes (store n m a v).
Proof. intros. apply mem_bytes_store_bytes; [done|apply le_bytes_byteZ]. Qed.

Lemma mem_bytes_empty : mem_bytes ∅.
Proof. intros a. unfold mget. rewrite lookup_empty. unfold byteZ; cbn; lia. Qed.

Lemma load_bytes_byteZ m a n : mem_bytes m -> Forall byteZ (load_bytes m a n).
Proof. intros Hm. revert a. induction n; intros a; cbn; constructor; auto. Qed.

Lemma load_range n m a : mem_bytes m -> 0 <= load n m a < 2 ^ (8 * Z.of_nat n).
Proof.
  intros Hm. pose proof (le_val_range _ (load_bytes_byteZ m a n Hm)) as Hr.
  by rewrite length_load_bytes in Hr.
Qed.

(** Writing back the word just read changes nothing. *)
Lemma store_load_same n m a : mem_bytes m -> store n m a (load n m a) =m= m.
Proof.
  intros Hm x. unfold store, load.
  assert (le_bytes n (le_val (load_bytes m a n)) = load_bytes m a n) as E.
  { rewrite <- (length_load_bytes m a n) at 1.
    by apply le_bytes_le_val, load_bytes_byteZ. }
  rewrite E, mget_store_bytes, length_load_bytes. case_decide; [|done].
  rewrite lookup_load_bytes by lia. cbn. f_equal. lia.
Qed.

Lemma store_store_same n m a v w : store n (store n m a v) a w =m= store n m a w.
Proof.
  intros x. unfold store. rewrite !mget_store_bytes, !length_le_bytes.
  by case_decide.
Qed.

#[global] Hint Resolve mem_bytes_store mem_bytes_empty le_bytes_byteZ
  load_bytes_byteZ : core.
