(* ===== verification/NovaState.v ===== *)
(** The state of a mounted NOVA instance.

    [nova] gathers what the C code keeps in [struct nova_sb_info], [struct
    super_block] and the NVMM region, with [alloc_clock] numbering the slab
    allocations made so far (the address of a node is its allocation number),
    [cr0_wp] the CR0.WP bit and [trace] the persistence events issued. *)

From S2P Require Import Prelude CInt Crc32c NovaEnv RangeNode Pmem.

(** ** struct free_list (balloc.h) *)
Record free_list := mkFreeList {
  block_free_tree : rb_tree;
  first_node : option ptr;
  last_node : option ptr;
  index : Z;
  csum_start : Z;
  replica_csum_start : Z;
  num_csum_blocks : Z;
  parity_start : Z;
  replica_parity_start : Z;
  num_parity_blocks : Z;
  block_start : Z;
  block_end : Z;
  num_free_blocks : Z;
  num_blocknode : Z;
  fl_csum : Z;
  alloc_log_count : Z;
  alloc_data_count : Z;
  free_log_count : Z;
  free_data_count : Z;
  alloc_log_pages : Z;
  alloc_data_pages : Z;
  freed_log_pages : Z;
  freed_data_pages : Z
}.

Definition set_block_free_tree (v : rb_tree) (f : free_list) : free_list :=
  mkFreeList v (first_node f) (last_node f) (index f) (csum_start f)
    (replica_csum_start f) (num_csum_blocks f) (parity_start f)
    (replica_parity_start f) (num_parity_blocks f) (block_start f) (block_end f)
    (num_free_blocks f) (num_blocknode f) (fl_csum f) (alloc_log_count f)
    (alloc_data_count f) (free_log_count f) (free_data_count f) (alloc_log_pages f)
    (alloc_data_pages f) (freed_log_pages f) (freed_data_pages f).
Definition set_first_node (v : option ptr) (f : free_list) : free_list :=
  mkFreeList (block_free_tree f) v (last_node f) (index f) (csum_start f)
    (replica_csum_start f) (num_csum_blocks f) (parity_start f)
    (replica_parity_start f) (num_parity_blocks f) (block_start f) (block_end f)
    (num_free_blocks f) (num_blocknode f) (fl_csum f) (alloc_log_count f)
    (alloc_data_count f) (free_log_count f) (free_data_count f) (alloc_log_pages f)
    (alloc_data_pages f) (freed_log_pages f) (freed_data_pages f).
Definition set_last_node (v : option ptr) (f : free_list) : free_list :=
  mkFreeList (block_free_tree f) (first_node f) v (index f) (csum_start f)
    (replica_csum_start f) (num_csum_blocks f) (parity_start f)
    (replica_parity_start f) (num_parity_blocks f) (block_start f) (block_end f)
    (num_free_blocks f) (num_blocknode f) (fl_csum f) (alloc_log_count f)
    (alloc_data_count f) (free_log_count f) (free_data_count f) (alloc_log_pages f)
    (alloc_data_pages f) (freed_log_pages f) (freed_data_pages f).
Definition set_csum_start (v : Z) (f : free_list) : free_list :=
  mkFreeList (block_free_tree f) (first_node f) (last_node f) (index f) v
    (replica_csum_start f) (num_csum_blocks f) (parity_start f)
    (replica_parity_start f) (num_parity_blocks f) (block_start f) (block_end f)
    (num_free_blocks f) (num_blocknode f) (fl_csum f) (alloc_log_count f)
    (alloc_data_count f) (free_log_count f) (free_data_count f) (alloc_log_pages f)
    (alloc_data_pages f) (freed_log_pages f) (freed_data_pages f).
Definition set_replica_csum_start (v : Z) (f : free_list) : free_list :=
  mkFreeList (block_free_tree f) (first_node f) (last_node f) (index f) (csum_start f)
    v (num_csum_blocks f) (parity_start f) (replica_parity_start f)
    (num_parity_blocks f) (block_start f) (block_end f) (num_free_blocks f)
    (num_blocknode f) (fl_csum f) (alloc_log_count f) (alloc_data_count f)
    (free_log_count f) (free_data_count f) (alloc_log_pages f) (alloc_data_pages f)
    (freed_log_pages f) (freed_data_pages f).
Definition set_num_csum_blocks (v : Z) (f : free_list) : free_list :=
  mkFreeList (block_free_tree f) (first_node f) (last_node f) (index f) (csum_start f)
    (replica_csum_start f) v (parity_start f) (replica_parity_start f)
    (num_parity_blocks f) (block_start f) (block_end f) (num_free_blocks f)
    (num_blocknode f) (fl_csum f) (alloc_log_count f) (alloc_data_count f)
    (free_log_count f) (free_data_count f) (alloc_log_pages f) (alloc_data_pages f)
    (freed_log_pages f) (freed_data_pages f).
Definition set_parity_start (v : Z) (f : free_list) : free_list :=
  mkFreeList (block_free_tree f) (first_node f) (last_node f) (index f) (csum_start f)
    (replica_csum_start f) (num_csum_blocks f) v (replica_parity_start f)
    (num_parity_blocks f) (block_start f) (block_end f) (num_free_blocks f)
    (num_blocknode f) (fl_csum f) (alloc_log_count f) (alloc_data_count f)
    (free_log_count f) (free_data_count f) (alloc_log_pages f) (alloc_data_pages f)
    (freed_log_pages f) (freed_data_pages f).
Definition set_replica_parity_start (v : Z) (f : free_list) : free_list :=
  mkFreeList (block_free_tree f) (first_node f) (last_node f) (index f) (csum_start f)
    (replica_csum_start f) (num_csum_blocks f) (parity_start f) v
    (num_parity_blocks f) (block_start f) (block_end f) (num_free_blocks f)
    (num_blocknode f) (fl_csum f) (alloc_log_count f) (alloc_data_count f)
    (free_log_count f) (free_data_count f) (alloc_log_pages f) (alloc_data_pages f)
    (freed_log_pages f) (freed_data_pages f).
Definition set_num_parity_blocks (v : Z) (f : free_list) : free_list :=
  mkFreeList (block_free_tree f) (first_node f) (last_node f) (index f) (csum_start f)
    (replica_csum_start f) (num_csum_blocks f) (parity_start f)
    (replica_parity_start f) v (block_start f) (block_end f) (num_free_blocks f)
    (num_blocknode f) (fl_csum f) (alloc_log_count f) (alloc_data_count f)
    (free_log_count f) (free_data_count f) (alloc_log_pages f) (alloc_data_pages f)
    (freed_log_pages f) (freed_data_pages f).
Definition set_block_start (v : Z) (f : free_list) : free_list :=
  mkFreeList (block_free_tree f) (first_node f) (last_node f) (index f) (csum_start f)
    (replica_csum_start f) (num_csum_blocks f) (parity_start f)
    (replica_parity_start f) (num_parity_blocks f) v (block_end f) (num_free_blocks f)
    (num_blocknode f) (fl_csum f) (alloc_log_count f) (alloc_data_count f)
    (free_log_count f) (free_data_count f) (alloc_log_pages f) (alloc_data_pages f)
    (freed_log_pages f) (freed_data_pages f).
Definition set_block_end (v : Z) (f : free_list) : free_list :=
  mkFreeList (block_free_tree f) (first_node f) (last_node f) (index f) (csum_start f)
    (replica_csum_start f) (num_csum_blocks f) (parity_start f)
    (replica_parity_start f) (num_parity_blocks f) (block_start f) v
    (num_free_blocks f) (num_blocknode f) (fl_csum f) (alloc_log_count f)
    (alloc_data_count f) (free_log_count f) (free_data_count f) (alloc_log_pages f)
    (alloc_data_pages f) (freed_log_pages f) (freed_data_pages f).
Definition set_num_free_blocks (v : Z) (f : free_list) : free_list :=
  mkFreeList (block_free_tree f) (first_node f) (last_node f) (index f) (csum_start f)
    (replica_csum_start f) (num_csum_blocks f) (parity_start f)
    (replica_parity_start f) (num_parity_blocks f) (block_start f) (block_end f) v
    (num_blocknode f) (fl_csum f) (alloc_log_count f) (alloc_data_count f)
    (free_log_count f) (free_data_count f) (alloc_log_pages f) (alloc_data_pages f)
    (freed_log_pages f) (freed_data_pages f).
Definition set_num_blocknode (v : Z) (f : free_list) : free_list :=
  mkFreeList (block_free_tree f) (first_node f) (last_node f) (index f) (csum_start f)
    (replica_csum_start f) (num_csum_blocks f) (parity_start f)
    (replica_parity_start f) (num_parity_blocks f) (block_start f) (block_end f)
    (num_free_blocks f) v (fl_csum f) (alloc_log_count f) (alloc_data_count f)
    (free_log_count f) (free_data_count f) (alloc_log_pages f) (alloc_data_pages f)
    (freed_log_pages f) (freed_data_pages f).
Definition set_alloc_log_count (v : Z) (f : free_list) : free_list :=
  mkFreeList (block_free_tree f) (first_node f) (last_node f) (index f) (csum_start f)
    (replica_csum_start f) (num_csum_blocks f) (parity_start f)
    (replica_parity_start f) (num_parity_blocks f) (block_start f) (block_end f)
    (num_free_blocks f) (num_blocknode f) (fl_csum f) v (alloc_data_count f)
    (free_log_count f) (free_data_count f) (alloc_log_pages f) (alloc_data_pages f)
    (freed_log_pages f) (freed_data_pages f).
Definition set_alloc_data_count (v : Z) (f : free_list) : free_list :=
  mkFreeList (block_free_tree f) (first_node f) (last_node f) (index f) (csum_start f)
    (replica_csum_start f) (num_csum_blocks f) (parity_start f)
    (replica_parity_start f) (num_parity_blocks f) (block_start f) (block_end f)
    (num_free_blocks f) (num_blocknode f) (fl_csum f) (alloc_log_count f) v
    (free_log_count f) (free_data_count f) (alloc_log_pages f) (alloc_data_pages f)
    (freed_log_pages f) (freed_data_pages f).
Definition set_free_log_count (v : Z) (f : free_list) : free_list :=
  mkFreeList (block_free_tree f) (first_node f) (last_node f) (index f) (csum_start f)
    (replica_csum_start f) (num_csum_blocks f) (parity_start f)
    (replica_parity_start f) (num_parity_blocks f) (block_start f) (block_end f)
    (num_free_blocks f) (num_blocknode f) (fl_csum f) (alloc_log_count f)
    (alloc_data_count f) v (free_data_count f) (alloc_log_pages f)
    (alloc_data_pages f) (freed_log_pages f) (freed_data_pages f).
Definition set_free_data_count (v : Z) (f : free_list) : free_list :=
  mkFreeList (block_free_tree f) (first_node f) (last_node f) (index f) (csum_start f)
    (replica_csum_start f) (num_csum_blocks f) (parity_start f)
    (replica_parity_start f) (num_parity_blocks f) (block_start f) (block_end f)
    (num_free_blocks f) (num_blocknode f) (fl_csum f) (alloc_log_count f)
    (alloc_data_count f) (free_log_count f) v (alloc_log_pages f) (alloc_data_pages f)
    (freed_log_pages f) (freed_data_pages f).
Definition set_alloc_log_pages (v : Z) (f : free_list) : free_list :=
  mkFreeList (block_free_tree f) (first_node f) (last_node f) (index f) (csum_start f)
    (replica_csum_start f) (num_csum_blocks f) (parity_start f)
    (replica_parity_start f) (num_parity_blocks f) (block_start f) (block_end f)
    (num_free_blocks f) (num_blocknode f) (fl_csum f) (alloc_log_count f)
    (alloc_data_count f) (free_log_count f) (free_data_count f) v (alloc_data_pages f)
    (freed_log_pages f) (freed_data_pages f).
Definition set_alloc_data_pages (v : Z) (f : free_list) : free_list :=
  mkFreeList (block_free_tree f) (first_node f) (last_node f) (index f) (csum_start f)
    (replica_csum_start f) (num_csum_blocks f) (parity_start f)
    (replica_parity_start f) (num_parity_blocks f) (block_start f) (block_end f)
    (num_free_blocks f) (num_blocknode f) (fl_csum f) (alloc_log_count f)
    (alloc_data_count f) (free_log_count f) (free_data_count f) (alloc_log_pages f) v
    (freed_log_pages f) (freed_data_pages f).
Definition set_freed_log_pages (v : Z) (f : free_list) : free_list :=
  mkFreeList (block_free_tree f) (first_node f) (last_node f) (index f) (csum_start f)
    (replica_csum_start f) (num_csum_blocks f) (parity_start f)
    (replica_parity_start f) (num_parity_blocks f) (block_start f) (block_end f)
    (num_free_blocks f) (num_blocknode f) (fl_csum f) (alloc_log_count f)
    (alloc_data_count f) (free_log_count f) (free_data_count f) (alloc_log_pages f)
    (alloc_data_pages f) v (freed_data_pages f).
Definition set_freed_data_pages (v : Z) (f : free_list) : free_list :=
  mkFreeList (block_free_tree f) (first_node f) (last_node f) (index f) (csum_start f)
    (replica_csum_start f) (num_csum_blocks f) (parity_start f)
    (replica_parity_start f) (num_parity_blocks f) (block_start f) (block_end f)
    (num_free_blocks f) (num_blocknode f) (fl_csum f) (alloc_log_count f)
    (alloc_data_count f) (free_log_count f) (free_data_count f) (alloc_log_pages f)
    (alloc_data_pages f) (freed_log_pages f) v.

Definition set_index (v : Z) (f : free_list) : free_list :=
  mkFreeList (block_free_tree f) (first_node f) (last_node f) v (csum_start f)
    (replica_csum_start f) (num_csum_blocks f) (parity_start f)
    (replica_parity_start f) (num_parity_blocks f) (block_start f) (block_end f)
    (num_free_blocks f) (num_blocknode f) (fl_csum f) (alloc_log_count f)
    (alloc_data_count f) (free_log_count f) (free_data_count f) (alloc_log_pages f)
    (alloc_data_pages f) (freed_log_pages f) (freed_data_pages f).

(** [kcalloc]ed memory. *)
Definition zeroed_free_list : free_list :=
  mkFreeList RB_ROOT None None 0 0 0 0 0 0 0 0 0 0 0 0 0 0 0 0 0 0 0 0.

(** ** struct inode_map (nova.h) *)
Record inode_map := mkInodeMap {
  inode_inuse_tree : rb_tree;
  num_range_node_inode : Z;
  first_inode_range : option ptr;
  allocated : Z;
  freed : Z
}.

Definition set_inode_inuse_tree (v : rb_tree) (im : inode_map) : inode_map :=
  mkInodeMap v (num_range_node_inode im) (first_inode_range im) (allocated im)
    (freed im).
Definition set_num_range_node_inode (v : Z) (im : inode_map) : inode_map :=
  mkInodeMap (inode_inuse_tree im) v (first_inode_range im) (allocated im) (freed im).
Definition set_first_inode_range (v : option ptr) (im : inode_map) : inode_map :=
  mkInodeMap (inode_inuse_tree im) (num_range_node_inode im) v (allocated im)
    (freed im).
Definition set_allocated (v : Z) (im : inode_map) : inode_map :=
  mkInodeMap (inode_inuse_tree im) (num_range_node_inode im) (first_inode_range im) v
    (freed im).
Definition set_freed (v : Z) (im : inode_map) : inode_map :=
  mkInodeMap (inode_inuse_tree im) (num_range_node_inode im) (first_inode_range im)
    (allocated im) v.

(** ** struct nova_sb_info and struct super_block

    [sb_const] holds the fields that are fixed at mount. *)
Record sb_const := mkSbConst {
  virt_addr : Z;
  initsize : Z;
  num_blocks : Z;
  cpus : Z;
  head_reserved_blocks : Z;
  tail_reserved_blocks : Z;
  s_blocksize : Z;
  s_blocksize_bits : Z;
  s_mount_opt : Z;
  replica_reserved_inodes_addr : Z
}.

Record nova := mkNova {
  sbc : sb_const;
  s_flags : Z;
  cr0_wp : bool;
  per_list_blocks : Z;
  free_lists : list free_list;
  inode_maps : list inode_map;
  map_id : Z;
  s_inodes_used_count : Z;
  s_epoch_id : Z;
  mount_snapshot_epoch_id : Z;
  running_cpu : Z;
  alloc_clock : positive;
  nvmm : mem;
  trace : list pm_event
}.

Definition set_s_flags (v : Z) (s : nova) : nova :=
  mkNova (sbc s) v (cr0_wp s) (per_list_blocks s) (free_lists s) (inode_maps s)
    (map_id s) (s_inodes_used_count s) (s_epoch_id s) (mount_snapshot_epoch_id s)
    (running_cpu s) (alloc_clock s) (nvmm s) (trace s).
Definition set_cr0_wp (v : bool) (s : nova) : nova :=
  mkNova (sbc s) (s_flags s) v (per_list_blocks s) (free_lists s) (inode_maps s)
    (map_id s) (s_inodes_used_count s) (s_epoch_id s) (mount_snapshot_epoch_id s)
    (running_cpu s) (alloc_clock s) (nvmm s) (trace s).
Definition set_per_list_blocks (v : Z) (s : nova) : nova :=
  mkNova (sbc s) (s_flags s) (cr0_wp s) v (free_lists s) (inode_maps s) (map_id s)
    (s_inodes_used_count s) (s_epoch_id s) (mount_snapshot_epoch_id s) (running_cpu s)
    (alloc_clock s) (nvmm s) (trace s).
Definition set_free_lists (v : list free_list) (s : nova) : nova :=
  mkNova (sbc s) (s_flags s) (cr0_wp s) (per_list_blocks s) v (inode_maps s)
    (map_id s) (s_inodes_used_count s) (s_epoch_id s) (mount_snapshot_epoch_id s)
    (running_cpu s) (alloc_clock s) (nvmm s) (trace s).
Definition set_inode_maps (v : list inode_map) (s : nova) : nova :=
  mkNova (sbc s) (s_flags s) (cr0_wp s) (per_list_blocks s) (free_lists s) v
    (map_id s) (s_inodes_used_count s) (s_epoch_id s) (mount_snapshot_epoch_id s)
    (running_cpu s) (alloc_clock s) (nvmm s) (trace s).
Definition set_map_id (v : Z) (s : nova) : nova :=
  mkNova (sbc s) (s_flags s) (cr0_wp s) (per_list_blocks s) (free_lists s)
    (inode_maps s) v (s_inodes_used_count s) (s_epoch_id s)
    (mount_snapshot_epoch_id s) (running_cpu s) (alloc_clock s) (nvmm s) (trace s).
Definition set_s_inodes_used_count (v : Z) (s : nova) : nova :=
  mkNova (sbc s) (s_flags s) (cr0_wp s) (per_list_blocks s) (free_lists s)
    (inode_maps s) (map_id s) v (s_epoch_id s) (mount_snapshot_epoch_id s)
    (running_cpu s) (alloc_clock s) (nvmm s) (trace s).
Definition set_s_epoch_id (v : Z) (s : nova) : nova :=
  mkNova (sbc s) (s_flags s) (cr0_wp s) (per_list_blocks s) (free_lists s)
    (inode_maps s) (map_id s) (s_inodes_used_count s) v (mount_snapshot_epoch_id s)
    (running_cpu s) (alloc_clock s) (nvmm s) (trace s).
Definition set_mount_snapshot_epoch_id (v : Z) (s : nova) : nova :=
  mkNova (sbc s) (s_flags s) (cr0_wp s) (per_list_blocks s) (free_lists s)
    (inode_maps s) (map_id s) (s_inodes_used_count s) (s_epoch_id s) v (running_cpu s)
    (alloc_clock s) (nvmm s) (trace s).
Definition set_running_cpu (v : Z) (s : nova) : nova :=
  mkNova (sbc s) (s_flags s) (cr0_wp s) (per_list_blocks s) (free_lists s)
    (inode_maps s) (map_id s) (s_inodes_used_count s) (s_epoch_id s)
    (mount_snapshot_epoch_id s) v (alloc_clock s) (nvmm s) (trace s).
Definition set_alloc_clock (v : positive) (s : nova) : nova :=
  mkNova (sbc s) (s_flags s) (cr0_wp s) (per_list_blocks s) (free_lists s)
    (inode_maps s) (map_id s) (s_inodes_used_count s) (s_epoch_id s)
    (mount_snapshot_epoch_id s) (running_cpu s) v (nvmm s) (trace s).
Definition set_nvmm (v : mem) (s : nova) : nova :=
  mkNova (sbc s) (s_flags s) (cr0_wp s) (per_list_blocks s) (free_lists s)
    (inode_maps s) (map_id s) (s_inodes_used_count s) (s_epoch_id s)
    (mount_snapshot_epoch_id s) (running_cpu s) (alloc_clock s) v (trace s).
Definition set_trace (v : list pm_event) (s : nova) : nova :=
  mkNova (sbc s) (s_flags s) (cr0_wp s) (per_list_blocks s) (free_lists s)
    (inode_maps s) (map_id s) (s_inodes_used_count s) (s_epoch_id s)
    (mount_snapshot_epoch_id s) (running_cpu s) (alloc_clock s) (nvmm s) v.
