(* ===== verification/NovaMonad.v ===== *)
(** The monad the NOVA code runs in, and the helpers every component uses.

    [M] is the state monad over [nova] with faults for [BUG()], [panic()],
    wild or write-protected accesses, out-of-range array indices and loops
    that exceed their bound.  [wp m Q s] is its total-correctness weakest
    precondition.  The helpers are those of nova_def.h, nova.h, mprotect.h
    and super.c. *)

From S2P Require Import Prelude CInt Crc32c NovaEnv RangeNode Pmem NovaState.

(** ** The monad *)
Inductive fault :=
| FBug                 (* BUG() *)
| FPanic               (* panic() *)
| FWild (a : Z)        (* access outside the NVMM region, NULL included *)
| FProtect (a : Z)     (* store to write-protected NVMM *)
| FIndex (i : Z)       (* array index out of range *)
| FDivide              (* division by zero *)
| FDangling            (* dereference of a node that is in no tree *)
| FUninit              (* use of a buffer a failed copy left unspecified *)
| FFuel.               (* loop bound exceeded *)

Inductive outcome (A : Type) :=
| Ok (a : A) (s : nova)
| Fault (f : fault).
Arguments Ok {A} a s.
Arguments Fault {A} f.

Definition M (A : Type) : Type := nova -> outcome A.

Definition ret {A} (a : A) : M A := fun s => Ok a s.
Definition bind {A B} (m : M A) (k : A -> M B) : M B :=
  fun s => match m s with Ok a s' => k a s' | Fault f => Fault f end.
Definition raise {A} (f : fault) : M A := fun _ => Fault f.
Definition gets {A} (g : nova -> A) : M A := fun s => Ok (g s) s.
Definition modify (g : nova -> nova) : M unit := fun s => Ok tt (g s).

Notation "'let!' x ':=' m 'in' k" := (bind m (fun x => k)) : nova_scope.
Notation "m ';;;' k" := (bind m (fun _ => k)) : nova_scope.
Local Open Scope nova_scope.

Definition when (b : bool) (m : M unit) : M unit := if b then m else ret tt.

(** [for (i = i0; i < i0 + n; i++) body], left early when [body] yields a
    value (a [return] or a [goto] out of the loop). *)
Fixpoint for_loop {R} (n : nat) (i : Z) (body : Z -> M (option R)) : M (option R) :=
  match n with
  | O => ret None
  | S n =>
      let! r := body i in
      match r with
      | Some v => ret (Some v)
      | None => for_loop n (i + 1) body
      end
  end.

(** ** Weakest preconditions *)
Definition wp {A} (m : M A) (Q : A -> nova -> Prop) (s : nova) : Prop :=
  match m s with Ok a s' => Q a s' | Fault _ => False end.

Lemma wp_bind {A B} (m : M A) (k : A -> M B) Q s :
  wp (bind m k) Q s <-> wp m (fun a s' => wp (k a) Q s') s.
Proof. unfold wp, bind. by destruct (m s). Qed.

Lemma wp_ret {A} (a : A) Q s : wp (ret a) Q s <-> Q a s.
Proof. done. Qed.
Lemma wp_gets {A} (g : nova -> A) Q s : wp (gets g) Q s <-> Q (g s) s.
Proof. done. Qed.
Lemma wp_modify g Q s : wp (modify g) Q s <-> Q tt (g s).
Proof. done. Qed.

Lemma wp_mono {A} (m : M A) (Q Q' : A -> nova -> Prop) s :
  wp m Q s -> (forall a s', Q a s' -> Q' a s') -> wp m Q' s.
Proof. unfold wp. destruct (m s); auto. Qed.

Lemma wp_run {A} (m : M A) (Q : A -> nova -> Prop) s :
  wp m Q s <-> exists a s', m s = Ok a s' /\ Q a s'.
Proof. unfold wp. destruct (m s) as [a s'|f]; naive_solver. Qed.

Lemma wp_ok {A} (m : M A) (Q : A -> nova -> Prop) s a s' :
  m s = Ok a s' -> Q a s' -> wp m Q s.
Proof. unfold wp. by intros ->. Qed.

#[global] Instance wp_proper {A} (m : M A) :
  Proper (pointwise_relation A (pointwise_relation nova impl) ==> eq ==> impl) (wp m).
Proof. intros Q Q' HQ s ? <- H. eapply wp_mono; [exact H|]. intros a s'. apply HQ. Qed.

(** Symbolic execution of the straight-line primitives. *)
Ltac wp_step :=
  first [ rewrite wp_bind | rewrite wp_ret | rewrite wp_gets | rewrite wp_modify ].
Ltac wps := repeat (wp_step; cbv beta).

(** Running a bind whose first part is known to return. *)
Lemma bind_ok {A B} (m : M A) (k : A -> M B) s a s' :
  m s = Ok a s' -> bind m k s = k a s'.
Proof. unfold bind. by intros ->. Qed.

Ltac run_bind tac := erewrite bind_ok; [|tac].

(** A loop whose body never leaves early, by its invariant. *)
Lemma for_loop_inv {R} (P : Z -> nova -> Prop) (body : Z -> M (option R)) n i s :
  P i s ->
  (forall j s, i <= j < i + Z.of_nat n -> P j s ->
     exists s', body j s = Ok None s' /\ P (j + 1) s') ->
  exists s', for_loop n i body s = Ok None s' /\ P (i + Z.of_nat n) s'.
Proof.
  revert i s. induction n as [|n IH]; intros i s HP Hb.
  - exists s. split; [done|]. by rewrite Z.add_0_r.
  - destruct (Hb i s ltac:(lia) HP) as (s1 & E1 & HP1). cbn [for_loop].
    rewrite (bind_ok _ _ _ _ _ E1).
    destruct (IH (i + 1) s1 HP1) as (s2 & E2 & HP2).
    { intros j s' Hj. apply Hb. lia. }
    exists s2. split; [done|]. by replace (i + Z.of_nat (S n)) with (i + 1 + Z.of_nat n) by lia.
Qed.
