(* ===== verification/NovaLib.v ===== *)
(** The helpers of nova_def.h, nova.h, mprotect.h and super.c that every
    NOVA component uses: NVMM accesses, cache-line flushes and fences, write
    protection, error handling, block and offset arithmetic. *)

From S2P Require Import Prelude CInt Crc32c NovaEnv RangeNode Pmem NovaState NovaMonad.

Local Open Scope nova_scope.

Section lib.
Context `{NovaEnv}.

(** ** Error handling (super.c) *)
Definition test_opt (s : nova) (opt : Z) : bool :=
  negb (Z.land (s_mount_opt (sbc s)) opt =? 0).

Definition nova_error_mng : M unit :=
  let! panics := gets (fun s => test_opt s NOVA_MOUNT_ERRORS_PANIC) in
  if panics : bool then raise FPanic
  else
    let! ro := gets (fun s => test_opt s NOVA_MOUNT_ERRORS_RO) in
    when ro (modify (fun s => set_s_flags (Z.lor (s_flags s) MS_RDONLY) s)).

Definition nova_err : M unit := nova_error_mng.

(** ** Write protection (mprotect.h) *)
Definition nova_range_check (p len : Z) : M Z :=
  let! lo := gets (fun s => virt_addr (sbc s)) in
  let! sz := gets (fun s => initsize (sbc s)) in
  if (p <? lo) || (u64 (lo + sz) <? u64 (p + len)) then
    nova_err ;;; ret (- EINVAL)
  else ret 0.

Definition wprotect_disable : M unit := modify (set_cr0_wp false).
Definition wprotect_enable : M unit := modify (set_cr0_wp true).

Definition nova_writeable (rw : bool) : M Z :=
  (if rw then wprotect_disable else wprotect_enable) ;;; ret 0.

Definition nova_is_protected (s : nova) : Z :=
  if negb (wprotect =? 0) then wprotect
  else Z.land (s_mount_opt (sbc s)) NOVA_MOUNT_PROTECT.

Definition is_protected (s : nova) : bool := negb (nova_is_protected s =? 0).

Definition nova_memunlock_range (p len : Z) : M unit :=
  let! rc := nova_range_check p len in
  if negb (rc =? 0) then ret tt
  else
    let! prot := gets is_protected in
    when prot (nova_writeable true ;;; ret tt).

Definition nova_memlock_range (p len : Z) : M unit :=
  let! prot := gets is_protected in
  when prot (nova_writeable false ;;; ret tt).

Definition nova_memunlock_inode (pi : Z) : M unit := nova_memunlock_range pi NOVA_INODE_SIZE.
Definition nova_memlock_inode (pi : Z) : M unit := nova_memlock_range pi NOVA_INODE_SIZE.

Definition nova_memunlock_block (bp : Z) : M unit :=
  let! size := gets (fun s => s_blocksize (sbc s)) in nova_memunlock_range bp size.
Definition nova_memlock_block (bp : Z) : M unit :=
  let! size := gets (fun s => s_blocksize (sbc s)) in nova_memlock_range bp size.

(** ** Pointers into NVMM (nova.h)

    A pointer is an address; NULL is 0. *)
Definition nova_get_block (s : nova) (block : Z) : Z :=
  if block =? 0 then 0 else virt_addr (sbc s) + block.

Definition nova_get_addr_off (s : nova) (addr : Z) : Z :=
  u64 (addr - virt_addr (sbc s)).

Definition nova_get_block_off (blocknr btype : Z) : Z := u64 (Z.shiftl blocknr PAGE_SHIFT).
Definition nova_get_blocknr (block btype : Z) : Z := Z.shiftr block PAGE_SHIFT.
Definition nova_get_cpuid (s : nova) : Z := Z.rem (running_cpu s) (cpus (sbc s)).

Definition nova_get_numblocks (btype : Z) : Z :=
  if btype =? NOVA_BLOCK_TYPE_4K then 1
  else if btype =? NOVA_BLOCK_TYPE_2M then 512
  else 0x40000.

Definition nova_get_epoch_id (s : nova) : Z := s_epoch_id s.

Definition old_entry_freeable (s : nova) (epoch_id : Z) : bool := epoch_id =? s_epoch_id s.
Definition pass_mount_snapshot (s : nova) (epoch_id : Z) : bool :=
  mount_snapshot_epoch_id s <? epoch_id.

(** BKDR string hash: [hash * seed + c] in [unsigned long], [c] a signed char. *)
Definition BKDRHash (str : list Z) : Z :=
  foldl (fun h c => u64 (h * 131 + swrap 8 c)) 0 str.

(** ** NVMM accesses *)
Definition in_pmem (s : nova) (a : Z) (n : nat) : bool :=
  (virt_addr (sbc s) <=? a) && (a + Z.of_nat n <=? virt_addr (sbc s) + initsize (sbc s)).

Definition pload (n : nat) (a : Z) : M Z :=
  fun s => if in_pmem s a n then Ok (load n (nvmm s) a) s else Fault (FWild a).

Definition pload_bytes (n : nat) (a : Z) : M (list Z) :=
  fun s => if in_pmem s a n then Ok (load_bytes (nvmm s) a n) s else Fault (FWild a).

Definition writable (s : nova) : bool := negb (is_protected s && cr0_wp s).

Definition pstore_bytes (ev : Z -> list Z -> pm_event) (a : Z) (l : list Z) : M unit :=
  fun s =>
    if negb (in_pmem s a (length l)) then Fault (FWild a)
    else if negb (writable s) then Fault (FProtect a)
    else Ok tt (set_trace (trace s ++ [ev a l]) (set_nvmm (store_bytes (nvmm s) a l) s)).

(** An [n]-byte store through a typed pointer. *)
Definition pstore (n : nat) (a v : Z) : M unit := pstore_bytes EvStore a (le_bytes n v).

(** [__copy_from_user_inatomic_nocache] into NVMM. *)
Definition memcpy_to_pmem_nocache (dst : Z) (src : list Z) : M Z :=
  pstore_bytes EvNtStore dst src ;;; ret 0.

(** ** Flushes and fences (nova_def.h) *)
Definition emit (ev : pm_event) : M unit := modify (fun s => set_trace (trace s ++ [ev]) s).

Definition PERSISTENT_BARRIER : M unit := emit EvFence.

(** [for (i = 0; i < len; i += CACHELINE_SIZE) _mm_clwb(buf + i)], [i] a
    [uint32_t]; the bound is one more iteration than a loop that does not wrap
    can make. *)
Fixpoint flush_lines (fuel : nat) (k : flush_kind) (buf i len : Z) : M unit :=
  if i <? len then
    match fuel with
    | O => raise FFuel
    | S fuel =>
        emit (EvFlush k (buf + i)) ;;; flush_lines fuel k buf (u32 (i + CACHELINE_SIZE)) len
    end
  else ret tt.

Definition nova_flush_buffer (buf len : Z) (fence : bool) : M unit :=
  let len := u32 (len + Z.land buf (CACHELINE_SIZE - 1)) in
  flush_lines (Z.to_nat (len / CACHELINE_SIZE + 1))
    (if negb (support_clwb =? 0) then CLWB else CLFLUSH) buf 0 len ;;;
  when fence PERSISTENT_BARRIER.

(** ** memset_nt (nova.h)

    The assembly takes the length in [edx], so only its low 32 bits count:
    64-byte rounds, then 8-byte ones, then one last 4-byte store. *)
Definition memset_nt_len (length : Z) : Z :=
  let edx := u32 length in
  Z.shiftr edx 6 * 64 + Z.shiftr (Z.land edx 63) 3 * 8 + Z.shiftr (Z.land edx 7) 2 * 4.

Definition memset_nt (dest dword length : Z) : M unit :=
  let n := memset_nt_len length in
  pstore_bytes EvNtStore dest
    (concat (replicate (Z.to_nat (n / 4)) (le_bytes 4 dword))).
End lib.

(** ** Specifications of the helpers *)

(** The state after issuing some events. *)
Definition add_trace (evs : list pm_event) (s : nova) : nova := set_trace (trace s ++ evs) s.

Lemma add_trace_nil s : add_trace [] s = s.
Proof. unfold add_trace. rewrite app_nil_r. by destruct s. Qed.
Lemma add_trace_app e1 e2 s : add_trace e2 (add_trace e1 s) = add_trace (e1 ++ e2) s.
Proof. unfold add_trace. cbn. by rewrite app_assoc. Qed.

(** The write-backs of [n] consecutive cache lines starting at [buf]. *)
Fixpoint line_flushes (k : flush_kind) (buf : Z) (n : nat) : list pm_event :=
  match n with
  | O => []
  | S n => EvFlush k buf :: line_flushes k (buf + CACHELINE_SIZE) n
  end.

Lemma elem_line_flushes k buf n j :
  (j < n)%nat -> EvFlush k (buf + CACHELINE_SIZE * Z.of_nat j) ∈ line_flushes k buf n.
Proof.
  revert buf j. induction n as [|n IH]; intros buf j Hj; [lia|]. cbn.
  destruct j as [|j].
  - apply elem_of_cons. left. f_equal. lia.
  - apply elem_of_cons. right. replace (buf + CACHELINE_SIZE * Z.of_nat (S j))
      with (buf + CACHELINE_SIZE + CACHELINE_SIZE * Z.of_nat j) by lia.
    apply IH. lia.
Qed.

Definition flush_count (i len : Z) : nat := Z.to_nat ((len - i + 63) / 64).

Lemma flush_lines_run fuel k buf i len s :
  0 <= i -> len <= 2 ^ 32 - 64 -> len - i <= 64 * Z.of_nat fuel ->
  flush_lines fuel k buf i len s
  = Ok tt (add_trace (line_flushes k (buf + i) (flush_count i len)) s).
Proof.
  intros Hi Hlen. revert i Hi s.
  induction fuel as [|fuel IH]; intros i Hi s Hf; cbn [flush_lines];
    destruct (i <? len) eqn:E; zify_bool; [lia| | |].
  1, 3: unfold flush_count; rewrite (Z2Nat.nonpos ((len - i + 63) / 64));
    [cbn; by rewrite add_trace_nil|].
  1, 2: enough ((len - i + 63) / 64 < 1) by lia; apply Z.div_lt_upper_bound; lia.
  unfold bind. unfold emit at 1, modify. unfold CACHELINE_SIZE at 1.
  rewrite uwrap_small by lia. rewrite IH by lia.
  fold (add_trace [EvFlush k (buf + i)] s). rewrite add_trace_app.
  unfold flush_count.
  replace (len - i + 63) with ((len - (i + 64) + 63) + 1 * 64) by lia.
  rewrite Z.div_add by lia.
  assert (0 <= (len - (i + 64) + 63) / 64) by (apply Z.div_pos; lia).
  replace (Z.to_nat ((len - (i + 64) + 63) / 64 + 1))
    with (S (Z.to_nat ((len - (i + 64) + 63) / 64))) by lia.
  cbn [line_flushes app]. unfold CACHELINE_SIZE. do 4 f_equal. lia.
Qed.

Section lib_specs.
Context `{NovaEnv}.

Definition flush_kind_of : flush_kind :=
  if negb (support_clwb =? 0) then CLWB else CLFLUSH.

(** The lines [nova_flush_buffer buf len] writes back. *)
Definition flush_buffer_events (buf len : Z) (fence : bool) : list pm_event :=
  line_flushes flush_kind_of buf (flush_count 0 (len + buf mod 64))
  ++ (if fence then [EvFence] else []).

Lemma nova_flush_buffer_run buf len fence s :
  0 <= len -> len + 63 <= 2 ^ 32 - 64 ->
  nova_flush_buffer buf len fence s
  = Ok tt (add_trace (flush_buffer_events buf len fence) s).
Proof.
  intros H0 Hlen. unfold nova_flush_buffer.
  change (CACHELINE_SIZE - 1) with (2 ^ 6 - 1). rewrite land_mask by lia.
  change (2 ^ 6) with 64. pose proof (Z.mod_pos_bound buf 64).
  rewrite uwrap_small by lia. unfold bind.
  rewrite flush_lines_run; [|lia..|].
  - rewrite Z.add_0_r. fold flush_kind_of. unfold flush_buffer_events.
    destruct fence; cbn; [|by rewrite app_nil_r].
    unfold PERSISTENT_BARRIER, emit, modify. f_equal. apply add_trace_app.
  - unfold CACHELINE_SIZE.
    pose proof (Z.div_mod (len + buf mod 64) 64).
    pose proof (Z.mod_pos_bound (len + buf mod 64) 64).
    assert (0 <= (len + buf mod 64) / 64) by (apply Z.div_pos; lia).
    rewrite Z2Nat.id by lia. lia.
Qed.

(** An address whose cache line an event list writes back. *)
Definition line_flushed (evs : list pm_event) (a : Z) : Prop :=
  exists k f, EvFlush k f ∈ evs /\ f / 64 = a / 64.

(** Every byte of the buffer lies in a written-back line. *)
Lemma flush_buffer_events_cover buf len fence a :
  buf <= a < buf + len -> line_flushed (flush_buffer_events buf len fence) a.
Proof.
  intros Ha. set (j := Z.to_nat (a / 64 - buf / 64)).
  assert (buf / 64 <= a / 64) as Hle by (apply Z.div_le_mono; lia).
  exists flush_kind_of, (buf + CACHELINE_SIZE * Z.of_nat j). split.
  - unfold flush_buffer_events. apply elem_of_app. left.
    apply elem_line_flushes. unfold flush_count, j.
    apply Z2Nat.inj_lt; [lia| |].
    + apply Z.div_pos; pose proof (Z.mod_pos_bound buf 64); lia.
    + rewrite Z.sub_0_r. apply Z.le_succ_l. apply Z.div_le_lower_bound; [lia|].
      pose proof (Z.div_mod a 64). pose proof (Z.div_mod buf 64).
      pose proof (Z.mod_pos_bound a 64). lia.
  - unfold CACHELINE_SIZE. replace (buf + 64 * Z.of_nat j) with (buf + Z.of_nat j * 64) by lia.
    rewrite Z.div_add by lia. unfold j. lia.
Qed.

Lemma memset_nt_len_ok length :
  0 <= length < 2 ^ 32 -> length mod 4 = 0 -> memset_nt_len length = length.
Proof.
  intros Hl H4. unfold memset_nt_len. rewrite uwrap_small by lia.
  change 63 with (2 ^ 6 - 1). change 7 with (2 ^ 3 - 1).
  rewrite !land_mask, !Z.shiftr_div_pow2 by lia.
  change (2 ^ 6) with 64. change (2 ^ 3) with 8. change (2 ^ 2) with 4.
  pose proof (Z.div_mod length 64). pose proof (Z.div_mod (length mod 64) 8).
  pose proof (Z.div_mod (length mod 8) 4).
  assert (length mod 64 mod 8 = length mod 8) as E1.
  { rewrite <- Znumtheory.Zmod_div_mod; [done|lia..|]. by exists 8. }
  assert (length mod 8 mod 4 = length mod 4) as E2.
  { rewrite <- Znumtheory.Zmod_div_mod; [done|lia..|]. by exists 2. }
  lia.
Qed.

(** ** Stores *)
Definition pm_write (ev : Z -> list Z -> pm_event) (a : Z) (l : list Z) (s : nova) : nova :=
  set_trace (trace s ++ [ev a l]) (set_nvmm (store_bytes (nvmm s) a l) s).

Lemma pstore_bytes_run ev a l s :
  in_pmem s a (length l) = true -> writable s = true ->
  pstore_bytes ev a l s = Ok tt (pm_write ev a l s).
Proof. unfold pstore_bytes. by intros -> ->. Qed.

Lemma pstore_run n a v s :
  in_pmem s a n = true -> writable s = true ->
  pstore n a v s = Ok tt (pm_write EvStore a (le_bytes n v) s).
Proof. intros. apply pstore_bytes_run; by rewrite ?length_le_bytes. Qed.

Lemma pload_run n a s : in_pmem s a n = true -> pload n a s = Ok (load n (nvmm s) a) s.
Proof. unfold pload. by intros ->. Qed.

Lemma in_pmem_spec s a n :
  in_pmem s a n = true <->
  virt_addr (sbc s) <= a /\ a + Z.of_nat n <= virt_addr (sbc s) + initsize (sbc s).
Proof. unfold in_pmem. rewrite andb_true_iff, !Z.leb_le. done. Qed.

Lemma in_pmem_sub s a n b k :
  in_pmem s a n = true -> a <= b -> b + Z.of_nat k <= a + Z.of_nat n -> in_pmem s b k = true.
Proof. rewrite !in_pmem_spec. lia. Qed.

(** ** The write-protection window *)
Definition unlocked (s : nova) : nova := if is_protected s then set_cr0_wp false s else s.
Definition locked (s : nova) : nova := if is_protected s then set_cr0_wp true s else s.

Lemma memunlock_run s p len :
  virt_addr (sbc s) <= p -> 0 <= len -> p + len <= virt_addr (sbc s) + initsize (sbc s) ->
  0 < virt_addr (sbc s) -> virt_addr (sbc s) + initsize (sbc s) < 2 ^ 64 ->
  nova_memunlock_range p len s = Ok tt (unlocked s).
Proof.
  intros Hlo Hlen Hhi Hv Hsz. unfold nova_memunlock_range, nova_range_check.
  rewrite (bind_ok _ _ _ 0 s).
  - unfold bind, gets, unlocked. cbn. by destruct (is_protected s).
  - unfold bind, gets. rewrite (uwrap_small 64 (p + len)), uwrap_small by lia.
    by rewrite !(proj2 (Z.ltb_ge _ _)) by lia.
Qed.

Lemma memlock_run s p len : nova_memlock_range p len s = Ok tt (locked s).
Proof. unfold nova_memlock_range, bind, gets, locked. by destruct (is_protected s). Qed.

Lemma writable_unlocked s : writable (unlocked s) = true.
Proof.
  unfold unlocked. destruct (is_protected s) eqn:E; unfold writable; [|by rewrite E].
  change (is_protected (set_cr0_wp false s)) with (is_protected s). by rewrite E.
Qed.

Lemma unlocked_sbc s : sbc (unlocked s) = sbc s.
Proof. unfold unlocked. by destruct (is_protected s). Qed.
Lemma unlocked_nvmm s : nvmm (unlocked s) = nvmm s.
Proof. unfold unlocked. by destruct (is_protected s). Qed.
Lemma locked_sbc s : sbc (locked s) = sbc s.
Proof. unfold locked. by destruct (is_protected s). Qed.
Lemma locked_nvmm s : nvmm (locked s) = nvmm s.
Proof. unfold locked. by destruct (is_protected s). Qed.
End lib_specs.
