(* ===== verification/Balloc.v ===== *)
(** The NVMM block allocator (balloc.c): per-CPU free lists of block ranges.

    Each definition translates the C function of the same name; [cpu] stands
    for the [struct free_list *] it receives, which always points into
    [sbi->free_lists].  Spin locks are not modelled: every operation runs
    under its list's lock.  Out-parameters are returned beside the result. *)

From S2P Require Import Prelude CInt Crc32c NovaEnv RangeNode Pmem NovaState NovaMonad NovaLib.

Local Open Scope nova_scope.

(** ** balloc.h *)
Inductive nova_alloc_direction := ALLOC_FROM_HEAD | ALLOC_FROM_TAIL.
Inductive alloc_type := LOG | DATA.

#[global] Instance nova_alloc_direction_eq_dec : EqDecision nova_alloc_direction.
Proof. solve_decision. Defined.
#[global] Instance alloc_type_eq_dec : EqDecision alloc_type.
Proof. solve_decision. Defined.

Definition nova_get_free_list (cpu : Z) : M free_list :=
  fun s =>
    if cpu <? 0 then Fault (FIndex cpu)
    else match free_lists s !! Z.to_nat cpu with
         | Some fl => Ok fl s
         | None => Fault (FIndex cpu)
         end.

(** A store to fields of [*free_list]. *)
Definition put_free_list (cpu : Z) (fl : free_list) : M unit :=
  modify (fun s => set_free_lists (<[Z.to_nat cpu := fl]> (free_lists s)) s).

Definition update_free_list (cpu : Z) (g : free_list -> free_list) : M unit :=
  let! fl := nova_get_free_list cpu in put_free_list cpu (g fl).

Section balloc.
Context `{NovaEnv, RbLib}.

(** ** Slab allocation of range nodes (super.c) *)
Definition kmem_cache_zalloc : M (option ptr) :=
  fun s => let c := alloc_clock s in
    Ok (if kmem_cache_zalloc_ok c then Some c else None) (set_alloc_clock (c + 1)%positive s).

Definition nova_alloc_range_node : M (option ptr) := kmem_cache_zalloc.
Definition nova_alloc_range_node_atomic : M (option ptr) := kmem_cache_zalloc.
(** [kmem_cache_free]: the address is never handed out again in the model. *)
Definition nova_free_range_node (p : ptr) : M unit := ret tt.

Definition nova_alloc_blocknode : M (option ptr) := nova_alloc_range_node.
Definition nova_alloc_blocknode_atomic : M (option ptr) := nova_alloc_range_node_atomic.
Definition nova_free_blocknode (p : ptr) : M unit := nova_free_range_node p.

(** ** Set-up *)
Definition nova_alloc_block_free_lists : M Z :=
  let! mem := kmem_cache_zalloc in
  match mem with
  | None => ret (- ENOMEM)
  | Some _ =>
      let! n := gets (fun s => cpus (sbc s)) in
      modify (set_free_lists (replicate (Z.to_nat n) zeroed_free_list)) ;;;
      let! _ := for_loop (R := unit) (Z.to_nat n) 0 (fun i =>
        update_free_list i (fun fl => set_index i (set_block_free_tree RB_ROOT fl)) ;;;
        ret None) in
      ret 0
  end.

Definition nova_delete_free_lists : M unit := modify (set_free_lists []).

Definition nova_data_csum_init_free_list (sb : sb_const) (fl : free_list) : free_list :=
  let data_csum_blocks :=
    Z.shiftr (u64 (Z.shiftr (initsize sb) NOVA_STRIPE_SHIFT * NOVA_DATA_CSUM_LEN))
      PAGE_SHIFT in
  let fl := set_csum_start (block_start fl) fl in
  let fl := set_block_start (u64 (block_start fl + data_csum_blocks / cpus sb)) fl in
  let fl := if negb (data_csum_blocks mod cpus sb =? 0)
            then set_block_start (u64 (block_start fl + 1)) fl else fl in
  let fl := set_num_csum_blocks (u64 (block_start fl - csum_start fl)) fl in
  let fl := set_replica_csum_start (u64 (block_end fl + 1 - num_csum_blocks fl)) fl in
  set_block_end (u64 (block_end fl - num_csum_blocks fl)) fl.

Definition nova_data_parity_init_free_list (sb : sb_const) (fl : free_list) : free_list :=
  let blocksize := s_blocksize sb in
  let total_blocks := initsize sb / blocksize in
  let per := u64 (blocksize / NOVA_STRIPE_SIZE + 1) in
  let parity_blocks := total_blocks / per in
  let parity_blocks :=
    if negb (total_blocks mod per =? 0) then u64 (parity_blocks + 1) else parity_blocks in
  let fl := set_parity_start (block_start fl) fl in
  let fl := set_block_start (u64 (block_start fl + parity_blocks / cpus sb)) fl in
  let fl := if negb (parity_blocks mod cpus sb =? 0)
            then set_block_start (u64 (block_start fl + 1)) fl else fl in
  let fl := set_num_parity_blocks (u64 (block_start fl - parity_start fl)) fl in
  set_replica_parity_start (u64 (block_end fl + 1 - num_parity_blocks fl)) fl.

Definition nova_init_free_list (sb : sb_const) (fl : free_list) (index : Z) : free_list :=
  let per_list_blocks := num_blocks sb / cpus sb in
  let fl := set_block_start (u64 (per_list_blocks * index)) fl in
  let fl := set_block_end (u64 (block_start fl + per_list_blocks - 1)) fl in
  let fl := if index =? 0
            then set_block_start (u64 (block_start fl + head_reserved_blocks sb)) fl
            else fl in
  let fl := if index =? cpus sb - 1
            then set_block_end (u64 (block_end fl - tail_reserved_blocks sb)) fl
            else fl in
  let fl := nova_data_csum_init_free_list sb fl in
  nova_data_parity_init_free_list sb fl.

(** The body of the loop of [nova_init_blockmap]; [Some tt] is its [return]. *)
Definition init_blockmap_body (recovery : Z) (i : Z) : M (option unit) :=
  let! sb := gets sbc in
  update_free_list i (fun fl => nova_init_free_list sb fl i) ;;;
  if recovery =? 0 then
    update_free_list i (fun fl =>
      set_num_free_blocks (u64 (block_end fl - block_start fl + 1)) fl) ;;;
    let! blknode := nova_alloc_blocknode in
    match blknode with
    | None => raise FBug
    | Some p =>
        let! fl := nova_get_free_list i in
        let n := nova_update_range_node_checksum
          (set_range_high (block_end fl) (set_range_low (block_start fl) zeroed_node)) in
        let '(rc, tree) := nova_insert_blocktree (block_free_tree fl) p n in
        put_free_list i (set_block_free_tree tree fl) ;;;
        if negb (rc =? 0) then
          nova_err ;;; nova_free_blocknode p ;;; ret (Some tt)
        else
          update_free_list i (fun fl =>
            set_num_blocknode 1 (set_last_node (Some p) (set_first_node (Some p) fl))) ;;;
          ret None
    end
  else ret None.

Definition nova_init_blockmap (recovery : Z) : M unit :=
  let! sb := gets sbc in
  if cpus sb =? 0 then raise FDivide
  else
    modify (set_per_list_blocks (num_blocks sb / cpus sb)) ;;;
    let! _ := for_loop (Z.to_nat (cpus sb)) 0 (init_blockmap_body recovery) in
    ret tt.

(** ** Freeing *)

(** The tail of [nova_free_blocks] from label [block_found]. *)
Definition free_blocks_found (cpuid num_blocks : Z) (log_page : bool) : M unit :=
  update_free_list cpuid (fun fl =>
    let fl := set_num_free_blocks (u64 (num_free_blocks fl + num_blocks)) fl in
    if log_page
    then set_freed_log_pages (u64 (freed_log_pages fl + num_blocks))
           (set_free_log_count (u64 (free_log_count fl + 1)) fl)
    else set_freed_data_pages (u64 (freed_data_pages fl + num_blocks))
           (set_free_data_count (u64 (free_data_count fl + 1)) fl)).

(** The part of [nova_free_blocks] after a free slot was found: merge with the
    neighbours or insert [curr_node]; the result is [ret]. *)
Definition free_blocks_merge (cpuid : Z) (fl : free_list) (curr_node : ptr)
    (prev next : option (ptr * range_node)) (block_low block_high num_blocks : Z)
    (log_page : bool) : M Z :=
  let tree := block_free_tree fl in
  let fits_prev := match prev with
    | Some (_, n) => block_low =? u64 (range_high n + 1) | None => false end in
  let fits_next := match next with
    | Some (_, n) => u64 (block_high + 1) =? range_low n | None => false end in
  match prev, next, fits_prev, fits_next with
  | Some (pp, pn), Some (np, nn), true, true =>
      (* fits the hole *)
      let tree := rb_erase np tree in
      let tree := rb_update pp (fun n =>
        nova_update_range_node_checksum (set_range_high (range_high nn) n)) tree in
      let fl := set_num_blocknode (u64 (num_blocknode fl - 1)) fl in
      let fl := if decide (last_node fl = Some np) then set_last_node (Some pp) fl else fl in
      put_free_list cpuid (set_block_free_tree tree fl) ;;;
      nova_free_blocknode np ;;;
      free_blocks_found cpuid num_blocks log_page ;;; nova_free_blocknode curr_node ;;; ret 0
  | Some (pp, pn), _, true, _ =>
      (* aligns left *)
      put_free_list cpuid (set_block_free_tree (rb_update pp (fun n =>
        nova_update_range_node_checksum
          (set_range_high (u64 (range_high n + num_blocks)) n)) tree) fl) ;;;
      free_blocks_found cpuid num_blocks log_page ;;; nova_free_blocknode curr_node ;;; ret 0
  | _, Some (np, nn), _, true =>
      (* aligns right *)
      put_free_list cpuid (set_block_free_tree (rb_update np (fun n =>
        nova_update_range_node_checksum
          (set_range_low (u64 (range_low n - num_blocks)) n)) tree) fl) ;;;
      free_blocks_found cpuid num_blocks log_page ;;; nova_free_blocknode curr_node ;;; ret 0
  | _, _, _, _ =>
      (* aligns somewhere in the middle *)
      let n := nova_update_range_node_checksum
        (set_range_high block_high (set_range_low block_low zeroed_node)) in
      let '(rc, tree) := nova_insert_blocktree tree curr_node n in
      let fl := set_block_free_tree tree fl in
      if negb (rc =? 0) then
        put_free_list cpuid fl ;;; nova_free_blocknode curr_node ;;; ret rc
      else
        let fl := match prev with None => set_first_node (Some curr_node) fl | _ => fl end in
        let fl := match next with None => set_last_node (Some curr_node) fl | _ => fl end in
        put_free_list cpuid (set_num_blocknode (u64 (num_blocknode fl + 1)) fl) ;;;
        free_blocks_found cpuid num_blocks log_page ;;; ret 0
  end.

Definition nova_free_blocks (blocknr num btype : Z) (log_page : bool) : M Z :=
  if num <=? 0 then ret (- EINVAL)
  else
    let! plb := gets per_list_blocks in
    if plb =? 0 then raise FDivide
    else
    let cpuid := s32 (blocknr / plb) in
    let! curr_node := nova_alloc_blocknode in
    match curr_node with
    | None => ret (- ENOMEM)
    | Some curr_node =>
        let! fl := nova_get_free_list cpuid in
        let num_blocks := u64 (nova_get_numblocks btype * num) in
        let block_low := blocknr in
        let block_high := u64 (blocknr + num_blocks - 1) in
        if (blocknr <? block_start fl) || (u64 (block_end fl + 1) <? u64 (blocknr + num)) then
          nova_err ;;; nova_free_blocknode curr_node ;;; ret (- EIO)
        else
          let '(rc, prev, next) :=
            nova_find_free_slot (block_free_tree fl) block_low block_high None None in
          if negb (rc =? 0) then nova_free_blocknode curr_node ;;; ret rc
          else free_blocks_merge cpuid fl curr_node prev next block_low block_high
                 num_blocks log_page
    end.

(** [nova_print_nova_log] only prints. *)
Definition nova_free_data_blocks (i_blk_type blocknr num : Z) : M Z :=
  if blocknr =? 0 then ret (- EINVAL)
  else
    let! rc := nova_free_blocks blocknr num i_blk_type false in
    when (negb (rc =? 0)) nova_err ;;; ret rc.

Definition nova_free_log_blocks (i_blk_type blocknr num : Z) : M Z :=
  if blocknr =? 0 then ret (- EINVAL)
  else
    let! rc := nova_free_blocks blocknr num i_blk_type true in
    when (negb (rc =? 0)) nova_err ;;; ret rc.

(** ** Allocation *)
Definition node_of (fl : free_list) (p : option ptr) : M (option range_node) :=
  match p with
  | None => ret None
  | Some p => match rb_deref (block_free_tree fl) p with
              | Some n => ret (Some n)
              | None => raise FDangling
              end
  end.

Definition not_enough_blocks (fl : free_list) (num_blocks : Z) (atype : alloc_type) : M bool :=
  if num_free_blocks fl <? num_blocks then ret true
  else
    match first_node fl, last_node fl with
    | Some first, Some last =>
        if decide (atype = LOG) then
          let! f := node_of fl (Some first) in
          let! l := node_of fl (Some last) in
          match f, l with
          | Some f, Some l => ret (u64 (range_high l - range_low f) <? DEAD_ZONE_BLOCKS)
          | _, _ => raise FDangling
          end
        else ret false
    | _, _ => ret true
    end.

Definition PAGES_PER_2MB : Z := 512.
Definition PAGES_PER_2MB_MASK : Z := 512 - 1.
Definition IS_DATABLOCKS_2MB_ALIGNED (num_blocks : Z) (atype : alloc_type) : bool :=
  (Z.land num_blocks PAGES_PER_2MB_MASK =? 0) && bool_decide (atype = DATA).

Definition step_node (from_tail : nova_alloc_direction) (tree : rb_tree) (temp : ptr)
    : option ptr :=
  fst <$> match from_tail with
          | ALLOC_FROM_HEAD => rb_next tree temp
          | ALLOC_FROM_TAIL => rb_prev tree temp
          end.

Definition start_node (from_tail : nova_alloc_direction) (fl : free_list) : option ptr :=
  match from_tail with
  | ALLOC_FROM_HEAD => first_node fl
  | ALLOC_FROM_TAIL => last_node fl
  end.

(** The corner case of [nova_alloc_superpage]: [curr] is aligned and used up.
    [temp] is moved by the first test and read by the second. *)
Definition superpage_used_up (cpu : Z) (curr : ptr) : M unit :=
  let! fl := nova_get_free_list cpu in
  let tree := block_free_tree fl in
  let at_first := bool_decide (first_node fl = Some curr) in
  let temp := if at_first then fst <$> rb_next tree curr else Some curr in
  let node := if at_first then temp else None in
  let fl := if at_first then set_first_node node fl else fl in
  let! fl :=
    if bool_decide (last_node fl = Some curr) then
      match temp with
      | None => raise FDangling
      | Some t =>
          let node := match fst <$> rb_prev tree t with Some q => Some q | None => node end in
          ret (set_last_node node fl)
      end
    else ret fl in
  put_free_list cpu (set_num_blocknode (u64 (num_blocknode fl - 1))
    (set_block_free_tree (rb_erase curr tree) fl)) ;;;
  nova_free_blocknode curr.

(** Carving [num_blocks] blocks out of [curr] after [left_margin] of them; the
    result is [nova_alloc_superpage]'s, beside the new [*new_blocknr]. *)
Definition superpage_carve (cpu : Z) (temp : ptr) (curr : range_node)
    (left_margin curr_blocks num_blocks : Z) : M (Z * Z) :=
  let saved_range_high := range_high curr in
  let new_blocknr := u64 (range_low curr + left_margin) in
  let right_margin := u32 (curr_blocks - left_margin - num_blocks) in
  when (negb (left_margin =? 0)) (update_free_list cpu (fun fl =>
    set_block_free_tree (rb_update temp (fun n => nova_update_range_node_checksum
      (set_range_high (u64 (range_low n + left_margin - 1)) n)) (block_free_tree fl)) fl)) ;;;
  let! enomem :=
    if negb (right_margin =? 0) then
      if negb (left_margin =? 0) then
        let! node := nova_alloc_blocknode_atomic in
        match node with
        | None => ret true
        | Some p =>
            let n := nova_update_range_node_checksum
              (set_range_high saved_range_high (set_range_low
                (u64 (range_low curr + left_margin + num_blocks)) zeroed_node)) in
            update_free_list cpu (fun fl =>
              let fl := set_block_free_tree
                (nova_insert_blocktree (block_free_tree fl) p n).2 fl in
              let fl := set_num_blocknode (u64 (num_blocknode fl + 1)) fl in
              if decide (last_node fl = Some temp) then set_last_node (Some p) fl else fl) ;;;
            ret false
        end
      else
        update_free_list cpu (fun fl =>
          set_block_free_tree (rb_update temp (fun n => nova_update_range_node_checksum
            (set_range_low (u64 (range_low n + num_blocks)) n)) (block_free_tree fl)) fl) ;;;
        ret false
    else ret false in
  if enomem : bool then ret (- ENOMEM, new_blocknr)
  else
    when ((left_margin =? 0) && (right_margin =? 0)) (superpage_used_up cpu temp) ;;;
    ret (s64 num_blocks, new_blocknr).

(** The [while (temp)] loop; [num_blocks] may shrink on the way. *)
Fixpoint superpage_walk (fuel : nat) (cpu : Z) (temp : option ptr)
    (num_blocks new_blocknr : Z) (from_tail : nova_alloc_direction) : M (Z * Z) :=
  match temp with
  | None => ret (0, new_blocknr)
  | Some p =>
      match fuel with
      | O => raise FFuel
      | S fuel =>
          let! fl := nova_get_free_list cpu in
          let next nb := superpage_walk fuel cpu (step_node from_tail (block_free_tree fl) p)
                           nb new_blocknr from_tail in
          match rb_deref (block_free_tree fl) p with
          | None => raise FDangling
          | Some curr =>
              if negb (nova_range_node_checksum_ok curr) then nova_err ;;; next num_blocks
              else
                let curr_blocks := u64 (range_high curr - range_low curr + 1) in
                let left_margin :=
                  u32 (PAGES_PER_2MB - Z.land (range_low curr) PAGES_PER_2MB_MASK) in
                let room := u64 (curr_blocks - left_margin) in
                let aligned := Z.land room (Z.lnot PAGES_PER_2MB_MASK) in
                let num_blocks :=
                  if (room <? num_blocks) && (0 <? aligned) then aligned else num_blocks in
                if (left_margin <? curr_blocks) && (num_blocks <=? room)
                then superpage_carve cpu p curr left_margin curr_blocks num_blocks
                else next num_blocks
          end
      end
  end.

Definition nova_alloc_superpage (cpu num_blocks new_blocknr : Z)
    (from_tail : nova_alloc_direction) : M (Z * Z) :=
  let! fl := nova_get_free_list cpu in
  superpage_walk (S (length (inorder (block_free_tree fl)))) cpu (start_node from_tail fl)
    num_blocks new_blocknr from_tail.

(** The un-aligned loop of [nova_alloc_blocks_in_free_list]: [Some (n, b)]
    when [n] blocks were taken at [b]. *)
Fixpoint alloc_walk (fuel : nat) (cpu : Z) (temp : option ptr) (btype num_blocks : Z)
    (from_tail : nova_alloc_direction) : M (option (Z * Z)) :=
  match temp with
  | None => ret None
  | Some p =>
      match fuel with
      | O => raise FFuel
      | S fuel =>
          let! fl := nova_get_free_list cpu in
          let tree := block_free_tree fl in
          let next := alloc_walk fuel cpu (step_node from_tail tree p) btype num_blocks
                        from_tail in
          match rb_deref tree p with
          | None => raise FDangling
          | Some curr =>
              if negb (nova_range_node_checksum_ok curr) then nova_err ;;; next
              else
                let curr_blocks := u64 (range_high curr - range_low curr + 1) in
                if curr_blocks <=? num_blocks then
                  if (0 <? btype) && (curr_blocks <? num_blocks) then next
                  else
                    (* allocate the whole blocknode *)
                    let fl' := if decide (first_node fl = Some p)
                               then set_first_node (fst <$> rb_next tree p) fl else fl in
                    let fl' := if decide (last_node fl = Some p)
                               then set_last_node (fst <$> rb_prev tree p) fl' else fl' in
                    put_free_list cpu (set_num_blocknode (u64 (num_blocknode fl' - 1))
                      (set_block_free_tree (rb_erase p tree) fl')) ;;;
                    nova_free_blocknode p ;;;
                    ret (Some (curr_blocks, range_low curr))
                else
                  (* allocate partial blocknode *)
                  let '(blk, upd) :=
                    match from_tail with
                    | ALLOC_FROM_HEAD =>
                        (range_low curr,
                         fun n => set_range_low (u64 (range_low n + num_blocks)) n)
                    | ALLOC_FROM_TAIL =>
                        (u64 (range_high curr + 1 - num_blocks),
                         fun n => set_range_high (u64 (range_high n - num_blocks)) n)
                    end in
                  put_free_list cpu (set_block_free_tree (rb_update p (fun n =>
                    nova_update_range_node_checksum (upd n)) tree) fl) ;;;
                  ret (Some (num_blocks, blk))
          end
      end
  end.

(** Returns the number of blocks allocated (or an error) and [*new_blocknr]. *)
Definition nova_alloc_blocks_in_free_list (cpu btype : Z) (atype : alloc_type)
    (num_blocks new_blocknr : Z) (from_tail : nova_alloc_direction) : M (Z * Z) :=
  let! fl := nova_get_free_list cpu in
  if bool_decide (first_node fl = None) || (num_free_blocks fl =? 0) then
    ret (- ENOSPC, new_blocknr)
  else
    let! short := (if decide (atype = LOG) then not_enough_blocks fl num_blocks atype
                   else ret false) in
    if short : bool then ret (- ENOSPC, new_blocknr)
    else
      let temp := start_node from_tail fl in
      let! huge :=
        (if IS_DATABLOCKS_2MB_ALIGNED num_blocks atype
         then nova_alloc_superpage cpu num_blocks new_blocknr from_tail
         else ret (0, new_blocknr)) in
      let '(ret_blocks, new_blocknr) := huge in
      if (0 <? ret_blocks) && negb (new_blocknr =? 0)
         && IS_DATABLOCKS_2MB_ALIGNED num_blocks atype then
        (* success, huge block *)
        update_free_list cpu (fun fl =>
          set_num_free_blocks (u64 (num_free_blocks fl - ret_blocks)) fl) ;;;
        ret (ret_blocks, new_blocknr)
      else
        let! fl := nova_get_free_list cpu in
        let! found := alloc_walk (S (length (inorder (block_free_tree fl)))) cpu temp
                        btype num_blocks from_tail in
        let '(num_blocks, new_blocknr) :=
          match found with Some r => r | None => (num_blocks, new_blocknr) end in
        let! fl := nova_get_free_list cpu in
        if num_free_blocks fl <? num_blocks then ret (- ENOSPC, new_blocknr)
        else
          match found with
          | None => ret (- ENOSPC, new_blocknr)
          | Some _ =>
              put_free_list cpu (set_num_free_blocks (u64 (num_free_blocks fl - num_blocks)) fl) ;;;
              ret (s64 num_blocks, new_blocknr)
          end.

(** The free list with most free blocks, compared in [int]. *)
Fixpoint candidate_scan (fls : list free_list) (i cpuid num : Z) : Z :=
  match fls with
  | [] => cpuid
  | fl :: fls =>
      if u64 num <? num_free_blocks fl
      then candidate_scan fls (i + 1) i (s32 (num_free_blocks fl))
      else candidate_scan fls (i + 1) cpuid num
  end.

Definition nova_get_candidate_free_list : M Z :=
  let! n := gets (fun s => cpus (sbc s)) in
  let! fls := gets free_lists in
  ret (candidate_scan (take (Z.to_nat n) fls) 0 0 0).

(** The [retry]/[alloc] part of [nova_new_blocks]: the CPU whose list is used
    and what the allocation in it returned. *)
Fixpoint new_blocks_retry (retries : nat) (cpuid btype : Z) (atype : alloc_type)
    (num_blocks : Z) (from_tail : nova_alloc_direction) : M (Z * (Z * Z)) :=
  let! fl := nova_get_free_list cpuid in
  let! short := not_enough_blocks fl num_blocks atype in
  match short, retries with
  | true, S retries =>
      let! cpuid := nova_get_candidate_free_list in
      new_blocks_retry retries cpuid btype atype num_blocks from_tail
  | _, _ =>
      let! r := nova_alloc_blocks_in_free_list cpuid btype atype num_blocks 0 from_tail in
      ret (cpuid, r)
  end.

Definition count_alloc (atype : alloc_type) (ret_blocks : Z) (fl : free_list) : free_list :=
  match atype with
  | LOG => set_alloc_log_pages (u64 (alloc_log_pages fl + ret_blocks))
             (set_alloc_log_count (u64 (alloc_log_count fl + 1)) fl)
  | DATA => set_alloc_data_pages (u64 (alloc_data_pages fl + ret_blocks))
              (set_alloc_data_count (u64 (alloc_data_count fl + 1)) fl)
  end.

(** Returns the result and [*blocknr]. *)
Definition nova_new_blocks (blocknr num btype : Z) (zero : bool) (atype : alloc_type)
    (cpuid : Z) (from_tail : nova_alloc_direction) : M (Z * Z) :=
  let num_blocks := u64 (num * nova_get_numblocks btype) in
  if num_blocks =? 0 then ret (- EINVAL, blocknr)
  else
    let! this := gets nova_get_cpuid in
    let cpuid := if cpuid =? ANY_CPU then this else cpuid in
    let! r := new_blocks_retry 2 cpuid btype atype num_blocks from_tail in
    let '(cpuid, (ret_blocks, new_blocknr)) := r in
    when (0 <? ret_blocks) (update_free_list cpuid (count_alloc atype ret_blocks)) ;;;
    if (ret_blocks <=? 0) || (new_blocknr =? 0) then ret (- ENOSPC, blocknr)
    else
      when zero (
        let! bp := gets (fun s => nova_get_block s (nova_get_block_off new_blocknr btype)) in
        nova_memunlock_range bp (u64 (PAGE_SIZE * ret_blocks)) ;;;
        memset_nt bp 0 (u64 (PAGE_SIZE * ret_blocks)) ;;;
        nova_memlock_range bp (u64 (PAGE_SIZE * ret_blocks))) ;;;
      ret (s32 (ret_blocks / nova_get_numblocks btype), new_blocknr).

Definition nova_new_data_blocks (i_blk_type blocknr num : Z) (zero : bool) (cpu : Z)
    (from_tail : nova_alloc_direction) : M (Z * Z) :=
  nova_new_blocks blocknr num i_blk_type zero DATA cpu from_tail.

Definition nova_new_log_blocks (i_blk_type blocknr num : Z) (zero : bool) (cpu : Z)
    (from_tail : nova_alloc_direction) : M (Z * Z) :=
  nova_new_blocks blocknr num i_blk_type zero LOG cpu from_tail.

Definition nova_count_free_blocks : M Z :=
  let! n := gets (fun s => cpus (sbc s)) in
  let! fls := gets free_lists in
  ret (foldl (fun acc fl => u64 (acc + num_free_blocks fl)) 0 (take (Z.to_nat n) fls)).
End balloc.
