(* ===== verification/BallocSpec.v ===== *)
(** Correctness of the block allocator.

    [fl_wf] is the representation invariant of one free list, [alloc_wf] that
    of the allocator; [free_block s b] is the abstraction, the set of free
    block numbers.  Freeing adds exactly the freed range to that set,
    allocation removes exactly the returned range from it, and every operation
    keeps the invariant. *)

From S2P Require Import Prelude CInt Crc32c NovaEnv RangeNode Pmem NovaState NovaMonad NovaLib.
From S2P Require Import Balloc.

Local Open Scope nova_scope.

(** ** Free ranges as sets of blocks *)
Definition node_size (x : ptr * range_node) : Z := range_high x.2 - range_low x.2 + 1.
Definition covers (x : ptr * range_node) (b : Z) : bool :=
  (range_low x.2 <=? b) && (b <=? range_high x.2).
Definition covered (l : list (ptr * range_node)) (b : Z) : bool := existsb (fun x => covers x b) l.

Definition fl_nodes (fl : free_list) : list (ptr * range_node) := inorder (block_free_tree fl).
Definition fl_free (fl : free_list) (b : Z) : bool := covered (fl_nodes fl) b.

Lemma covered_app l1 l2 b : covered (l1 ++ l2) b = covered l1 b || covered l2 b.
Proof. apply existsb_app. Qed.
Lemma covered_cons x l b : covered (x :: l) b = covers x b || covered l b.
Proof. done. Qed.
Lemma covers_spec x b : covers x b = true <-> range_low x.2 <= b <= range_high x.2.
Proof. unfold covers. rewrite andb_true_iff, !Z.leb_le. done. Qed.
Lemma covered_spec l b :
  covered l b = true <-> exists x, x ∈ l /\ range_low x.2 <= b <= range_high x.2.
Proof.
  unfold covered. rewrite existsb_exists. setoid_rewrite covers_spec.
  setoid_rewrite list_elem_of_In. done.
Qed.

(** The first and the last node of a sequence, by identity. *)
Lemma head_fst_iff (l1 l2 : list (ptr * range_node)) x :
  NoDup (l1 ++ x :: l2).*1 -> fst <$> head (l1 ++ x :: l2) = Some x.1 <-> l1 = [].
Proof.
  destruct l1 as [|y l1]; cbn; [naive_solver|]. intros [Hy _]%NoDup_cons.
  split; [|done]. intros [= E]. destruct Hy. rewrite E, fmap_app. set_solver.
Qed.

Lemma last_fst_iff (l1 l2 : list (ptr * range_node)) x :
  NoDup (l1 ++ x :: l2).*1 -> fst <$> last (l1 ++ x :: l2) = Some x.1 <-> l2 = [].
Proof.
  intros ND. rewrite last_app_cons. destruct (last l2) as [y|] eqn:E.
  - rewrite last_cons, E. cbn. split; [|intros ->; done]. intros [= Ey].
    rewrite fmap_app, NoDup_app in ND. destruct ND as (_ & _ & [Hx _]%NoDup_cons).
    destruct Hx. rewrite <- Ey. apply last_Some_elem_of in E. set_solver.
  - apply last_None in E as ->. cbn. naive_solver.
Qed.

Section spec.
Context `{NovaEnv, RbLibOk}.

(** ** The invariant of a free list

    Block numbers stay below [2^52] and a list spans fewer than [2^31] blocks
    (8 TB of 4 KB blocks per CPU), the range the code's [int] and
    [unsigned int] temporaries can hold. *)
Record fl_wf (clock : ptr) (fl : free_list) : Prop := {
  fl_tree : tree_wf NODE_BLOCK (block_free_tree fl);
  fl_first : first_node fl = fst <$> head (fl_nodes fl);
  fl_last : last_node fl = fst <$> last (fl_nodes fl);
  fl_num_nodes : num_blocknode fl = Z.of_nat (length (fl_nodes fl));
  fl_num_blocks : num_free_blocks fl = sumZ node_size (fl_nodes fl);
  fl_bounds : Forall (fun x => block_start fl <= range_low x.2 /\
                               range_high x.2 <= block_end fl) (fl_nodes fl);
  fl_start : 0 < block_start fl;
  fl_end : block_end fl < 2 ^ 52;
  fl_span : block_end fl - block_start fl + 1 < 2 ^ 31;
  fl_fresh : Forall (fun x => (x.1 < clock)%positive) (fl_nodes fl)
}.

(** The sizes of sorted ranges inside [lo..hi] add up to at most its size. *)
Lemma sum_sizes_bound l lo hi :
  ranges_wf NODE_BLOCK l ->
  Forall (fun x => lo <= range_low x.2 /\ range_high x.2 <= hi) l ->
  lo <= hi + 1 -> Z.of_nat (length l) <= sumZ node_size l <= hi - lo + 1.
Proof.
  revert lo. induction l as [|x l IH]; intros lo W F Hlh; [cbn; lia|].
  apply ranges_wf_cons in W as (Hx & W & A). apply Forall_cons in F as [[F1 F2] F].
  cbn [node_lo node_hi] in Hx. rewrite sumZ_cons. cbn [length].
  specialize (IH (range_high x.2 + 1) W).
  assert (node_size x = range_high x.2 - range_low x.2 + 1) as -> by done.
  enough (Z.of_nat (length l) <= sumZ node_size l <= hi - (range_high x.2 + 1) + 1) by lia.
  apply IH; [|lia]. rewrite Forall_forall in *. intros y Hy.
  specialize (A y Hy). specialize (F y Hy). unfold node_lt in A. cbn in A. lia.
Qed.

Lemma fl_wf_bound clock fl :
  fl_wf clock fl -> fl_nodes fl <> [] ->
  Z.of_nat (length (fl_nodes fl)) <= num_free_blocks fl <= block_end fl - block_start fl + 1.
Proof.
  intros W Hne. rewrite (fl_num_blocks _ _ W). apply sum_sizes_bound.
  - apply (fl_tree _ _ W).
  - apply (fl_bounds _ _ W).
  - pose proof (fl_bounds _ _ W) as F. pose proof (fl_tree _ _ W) as [[_ Wt] _ _].
    fold (fl_nodes fl) in Wt. destruct (fl_nodes fl) as [|x l]; [done|].
    apply Forall_inv in F, Wt. cbn in Wt. lia.
Qed.

Lemma fl_wf_counts clock fl :
  fl_wf clock fl -> 0 <= num_free_blocks fl < 2 ^ 52 /\ 0 <= num_blocknode fl < 2 ^ 52.
Proof.
  intros W. rewrite (fl_num_nodes _ _ W).
  pose proof (fl_start _ _ W). pose proof (fl_end _ _ W).
  destruct (decide (fl_nodes fl = [])) as [E|Hne].
  - rewrite (fl_num_blocks _ _ W), E. cbn. lia.
  - pose proof (fl_wf_bound _ _ W Hne). lia.
Qed.

Lemma fl_wf_clock c c' fl : fl_wf c fl -> (c <= c')%positive -> fl_wf c' fl.
Proof.
  intros [] Hc. split; auto. eapply Forall_impl; [eassumption|]. cbn. lia.
Qed.

(** The statistics counters are not part of the invariant. *)
Definition same_core (fl fl' : free_list) : Prop :=
  block_free_tree fl' = block_free_tree fl /\ first_node fl' = first_node fl /\
  last_node fl' = last_node fl /\ num_blocknode fl' = num_blocknode fl /\
  num_free_blocks fl' = num_free_blocks fl /\
  block_start fl' = block_start fl /\ block_end fl' = block_end fl.

Lemma fl_wf_same_core c fl fl' : same_core fl fl' -> fl_wf c fl -> fl_wf c fl'.
Proof.
  intros (E1 & E2 & E3 & E4 & E5 & E6 & E7) []. unfold fl_nodes in *.
  split; unfold fl_nodes; rewrite ?E1, ?E2, ?E3, ?E4, ?E5, ?E6, ?E7; auto.
Qed.

(** A range inside a sorted sequence of free ranges is a slot when none of its
    blocks is free. *)
Definition range_disjoint (fl : free_list) (low high : Z) : Prop :=
  forall b, low <= b <= high -> fl_free fl b = false.

Lemma disjoint_split l low high :
  ranges_wf NODE_BLOCK l -> low <= high ->
  (forall b, low <= b <= high -> covered l b = false) ->
  exists l1 l2, l = l1 ++ l2 /\ all_below NODE_BLOCK low l1 /\ all_above NODE_BLOCK high l2.
Proof.
  intros W Hlh D. induction l as [|x l IH].
  - exists [], []. auto with ranges.
  - apply ranges_wf_cons in W as (Hx & W & A). cbn [node_lo node_hi] in Hx.
    assert (range_high x.2 < low \/ high < range_low x.2) as [Hb|Ha].
    { destruct (decide (range_high x.2 < low)); [by left|right].
      apply Z.nle_gt. intros Hle.
      specialize (D (Z.max low (range_low x.2)) ltac:(lia)).
      rewrite covered_cons in D. apply orb_false_iff in D as [D _].
      apply not_true_iff_false in D. apply D, covers_spec. lia. }
    + destruct IH as (l1 & l2 & -> & B1 & A1); [done| |].
      { intros b Hb'. specialize (D b Hb'). rewrite covered_cons in D.
        by apply orb_false_iff in D as [_ D]. }
      exists (x :: l1), l2. split_and!; auto. by constructor.
    + exists [], (x :: l). split_and!; auto with ranges. constructor; [done|].
      apply Forall_forall. intros y Hy. specialize (A y Hy). unfold node_lt in A.
      cbn [node_lo node_hi] in *. lia.
Qed.

Lemma free_slot_exists fl c low high :
  fl_wf c fl -> low <= high -> range_disjoint fl low high ->
  exists l1 l2, free_slot NODE_BLOCK (block_free_tree fl) low high l1 l2.
Proof. intros W Hlh D. apply disjoint_split; auto. apply (fl_tree _ _ W). Qed.

(** ** Reading and writing the free lists *)
Definition with_list (cpu : Z) (fl : free_list) (s : nova) : nova :=
  set_free_lists (<[Z.to_nat cpu := fl]> (free_lists s)) s.

Definition list_at (s : nova) (cpu : Z) (fl : free_list) : Prop :=
  0 <= cpu /\ free_lists s !! Z.to_nat cpu = Some fl.

Lemma get_free_list_run s cpu fl :
  list_at s cpu fl -> nova_get_free_list cpu s = Ok fl s.
Proof.
  intros [Hc E]. unfold nova_get_free_list.
  rewrite (proj2 (Z.ltb_ge _ _)) by lia. by rewrite E.
Qed.

Lemma list_at_with s cpu fl fl' :
  list_at s cpu fl -> list_at (with_list cpu fl' s) cpu fl'.
Proof.
  intros [Hc E]. split; [done|]. cbn. apply list_lookup_insert_eq.
  by apply lookup_lt_is_Some; rewrite E.
Qed.

Lemma with_list_with s cpu fl fl' :
  with_list cpu fl' (with_list cpu fl s) = with_list cpu fl' s.
Proof. unfold with_list. cbn. by rewrite list_insert_insert_eq. Qed.

Lemma update_free_list_run s cpu fl g :
  list_at s cpu fl -> update_free_list cpu g s = Ok tt (with_list cpu (g fl) s).
Proof. intros A. unfold update_free_list, bind. by rewrite (get_free_list_run _ _ _ A). Qed.

Lemma put_free_list_run s cpu fl : put_free_list cpu fl s = Ok tt (with_list cpu fl s).
Proof. done. Qed.

(** ** Freeing: the list after the merge *)

(** [fl1] is [fl] with the range [low..high] added to its ranges, before the
    counters are updated. *)
Record added (c : ptr) (fl fl1 : free_list) (low high : Z) : Prop := {
  added_tree : tree_wf NODE_BLOCK (block_free_tree fl1);
  added_first : first_node fl1 = fst <$> head (fl_nodes fl1);
  added_last : last_node fl1 = fst <$> last (fl_nodes fl1);
  added_nodes : num_blocknode fl1 = Z.of_nat (length (fl_nodes fl1));
  added_count : num_free_blocks fl1 = num_free_blocks fl;
  added_sum : sumZ node_size (fl_nodes fl1) = sumZ node_size (fl_nodes fl) + (high - low + 1);
  added_start : block_start fl1 = block_start fl;
  added_end : block_end fl1 = block_end fl;
  added_bounds : Forall (fun x => block_start fl <= range_low x.2 /\
                                  range_high x.2 <= block_end fl) (fl_nodes fl1);
  added_fresh : Forall (fun x => (x.1 < c + 1)%positive) (fl_nodes fl1);
  added_free : forall b, fl_free fl1 b = fl_free fl b || ((low <=? b) && (b <=? high))
}.

Lemma bounds_split (P : ptr * range_node -> Prop) l1 x l2 :
  Forall P (l1 ++ x :: l2) <-> Forall P l1 /\ P x /\ Forall P l2.
Proof. by rewrite Forall_app, Forall_cons. Qed.

Lemma fresh_mono c c' (l : list (ptr * range_node)) :
  Forall (fun x => (x.1 < c)%positive) l -> (c <= c')%positive ->
  Forall (fun x => (x.1 < c')%positive) l.
Proof. intros F Hc. eapply Forall_impl; [exact F|]. cbn. lia. Qed.

Lemma fresh_weaken c (l : list (ptr * range_node)) :
  Forall (fun x => (x.1 < c)%positive) l -> Forall (fun x => (x.1 < c + 1)%positive) l.
Proof. intros F. eapply fresh_mono; [exact F|]. lia. Qed.

(** The ranges of a slot's neighbours that are absorbed ([o1] below, [o2]
    above) and the node [x] that replaces them. *)
Definition absorbs_low (o1 : option (ptr * range_node)) (low : Z) (x : ptr * range_node) :=
  match o1 with
  | None => range_low x.2 = low
  | Some p => range_low x.2 = range_low p.2 /\ range_high p.2 + 1 = low
  end.
Definition absorbs_high (o2 : option (ptr * range_node)) (high : Z) (x : ptr * range_node) :=
  match o2 with
  | None => range_high x.2 = high
  | Some q => range_high x.2 = range_high q.2 /\ high + 1 = range_low q.2
  end.

Definition opt_list {A} (o : option A) : list A := match o with Some x => [x] | None => [] end.

Lemma absorb_wf low high k1 o1 o2 k2 x :
  ranges_wf NODE_BLOCK (k1 ++ opt_list o1 ++ opt_list o2 ++ k2) -> low <= high ->
  all_below NODE_BLOCK low (k1 ++ opt_list o1) ->
  all_above NODE_BLOCK high (opt_list o2 ++ k2) ->
  absorbs_low o1 low x -> absorbs_high o2 high x ->
  ranges_wf NODE_BLOCK (k1 ++ x :: k2).
Proof.
  intros W Hlh B A L Hh. apply all_below_app in B as [B _]. apply all_above_app in A as [_ A].
  assert (ranges_wf NODE_BLOCK (k1 ++ opt_list o2 ++ k2)) as W2.
  { destruct o1; cbn in W; [|done]. by eapply ranges_wf_remove. }
  assert (ranges_wf NODE_BLOCK (k1 ++ k2)) as W1.
  { destruct o2; cbn in W2; [|done]. by eapply ranges_wf_remove. }
  assert (all_below NODE_BLOCK (range_low x.2) k1 /\ range_low x.2 <= low) as [B' Hlo].
  { destruct o1 as [p|]; cbn in *; [|rewrite L; split; [done|lia]].
    destruct L as [-> <-]. apply ranges_wf_middle in W as (Hp & B' & _). cbn in Hp.
    split; [done|lia]. }
  assert (all_above NODE_BLOCK (range_high x.2) k2 /\ high <= range_high x.2) as [A' Hhi].
  { destruct o2 as [q|]; cbn in *; [|rewrite Hh; split; [done|lia]].
    destruct Hh as [-> E]. apply ranges_wf_middle in W2 as (Hp & _ & A'). cbn in Hp.
    split; [done|lia]. }
  apply ranges_wf_insert; auto. cbn. lia.
Qed.

Lemma absorb_size low high o1 o2 x :
  absorbs_low o1 low x -> absorbs_high o2 high x ->
  node_size x = sumZ node_size (opt_list o1) + sumZ node_size (opt_list o2) + (high - low + 1).
Proof. unfold node_size. destruct o1, o2; cbn; intros; lia. Qed.

Lemma absorb_covers low high o1 o2 x b :
  low <= high -> Forall (fun y => range_low y.2 <= range_high y.2) (opt_list o1 ++ opt_list o2) ->
  absorbs_low o1 low x -> absorbs_high o2 high x ->
  covers x b = covered (opt_list o1) b || covered (opt_list o2) b
               || ((low <=? b) && (b <=? high)).
Proof.
  intros Hlh F L Hh.
  destruct o1, o2; cbn in *; unfold covers; rewrite ?Forall_cons in F; bool_lia.
Qed.

Lemma added_intro c fl fl1 low high k1 o1 o2 k2 x :
  fl_wf c fl -> low <= high -> block_start fl <= low -> high <= block_end fl ->
  free_slot NODE_BLOCK (block_free_tree fl) low high (k1 ++ opt_list o1) (opt_list o2 ++ k2) ->
  absorbs_low o1 low x -> absorbs_high o2 high x ->
  nova_range_node_checksum_ok x.2 = true ->
  x.1 ∉ (k1 ++ k2).*1 -> (x.1 < c + 1)%positive ->
  fl_nodes fl1 = k1 ++ x :: k2 ->
  first_node fl1 = fst <$> head (k1 ++ x :: k2) ->
  last_node fl1 = fst <$> last (k1 ++ x :: k2) ->
  num_blocknode fl1 = Z.of_nat (length (k1 ++ x :: k2)) ->
  num_free_blocks fl1 = num_free_blocks fl ->
  block_start fl1 = block_start fl -> block_end fl1 = block_end fl ->
  added c fl fl1 low high.
Proof.
  intros W Hlh Hs He (E & B & A) L Hh Hc Hx Hf EN E1 E2 E3 E4 E5 E6.
  destruct (fl_tree _ _ W) as [Ws ND C]. rewrite E, <- app_assoc in Ws, ND, C.
  pose proof (fl_bounds _ _ W) as FB. pose proof (fl_fresh _ _ W) as FF.
  unfold fl_nodes in FB, FF. rewrite E, <- app_assoc, !Forall_app in FB, FF.
  destruct FB as (Fb1 & Fo1 & Fo2 & Fb2). destruct FF as (Ff1 & _ & _ & Ff2).
  assert (Forall (fun y => range_low y.2 <= range_high y.2) (opt_list o1 ++ opt_list o2)) as Fo.
  { destruct Ws as [_ Ws]. rewrite !Forall_app in Ws. apply Forall_app. naive_solver. }
  split; rewrite ?EN; auto.
  - split; fold (fl_nodes fl1); rewrite EN.
    + by apply (absorb_wf low high k1 o1 o2 k2 x).
    + rewrite !fmap_app, ?fmap_cons in *. rewrite !NoDup_app in ND.
      destruct ND as (N1 & N2 & _ & _ & _ & _ & N3).
      apply NoDup_app. rewrite NoDup_cons. split_and!; [done| |set_solver|done].
      intros y Hy. specialize (N2 y Hy). set_solver.
    + rewrite !csums_ok_app in C. apply csums_ok_app. rewrite csums_ok_cons. naive_solver.
  - unfold fl_nodes. rewrite E, !sumZ_app, sumZ_cons. rewrite (absorb_size _ _ _ _ _ L Hh). lia.
  - apply bounds_split. split_and!; [done| | |done].
    + destruct o1; cbn in L; [|lia]. apply Forall_inv in Fo1. cbn in Fo1. lia.
    + destruct o2; cbn in Hh; [|lia]. apply Forall_inv in Fo2. cbn in Fo2. lia.
  - apply bounds_split. split_and!; auto using fresh_weaken.
  - intros b. unfold fl_free at 1. rewrite EN. unfold fl_free, fl_nodes. rewrite E.
    rewrite !covered_app, covered_cons. rewrite (absorb_covers low high o1 o2 x b) by done.
    by destruct (covered k1 b), (covered k2 b), (covered (opt_list o1) b),
      (covered (opt_list o2) b), ((low <=? b) && (b <=? high)).
Qed.

(** The counters [free_blocks_found] updates. *)
Definition fl_found (num_blocks : Z) (log_page : bool) (fl : free_list) : free_list :=
  let fl := set_num_free_blocks (u64 (num_free_blocks fl + num_blocks)) fl in
  if log_page
  then set_freed_log_pages (u64 (freed_log_pages fl + num_blocks))
         (set_free_log_count (u64 (free_log_count fl + 1)) fl)
  else set_freed_data_pages (u64 (freed_data_pages fl + num_blocks))
         (set_free_data_count (u64 (free_data_count fl + 1)) fl).

(** What freeing does to one list. *)
Record freed (c : ptr) (fl fl' : free_list) (low high : Z) : Prop := {
  freed_wf : fl_wf (c + 1) fl';
  freed_start : block_start fl' = block_start fl;
  freed_end : block_end fl' = block_end fl;
  freed_count : num_free_blocks fl' = num_free_blocks fl + (high - low + 1);
  freed_free : forall b, fl_free fl' b = fl_free fl b || ((low <=? b) && (b <=? high))
}.

Lemma added_freed c fl fl1 low high lp :
  fl_wf c fl -> low <= high -> added c fl fl1 low high ->
  freed c fl (fl_found (high - low + 1) lp fl1) low high.
Proof.
  intros W Hlh []. pose proof (fl_start _ _ W). pose proof (fl_end _ _ W).
  pose proof (fl_wf_counts _ _ W) as [Hn _].
  assert (fl_nodes fl1 <> []) as Hne.
  { intros E. rewrite E in added_sum0. cbn in added_sum0.
    rewrite <- (fl_num_blocks _ _ W) in added_sum0. lia. }
  assert (num_free_blocks fl + (high - low + 1) <= block_end fl - block_start fl + 1) as Hsum.
  { rewrite (fl_num_blocks _ _ W), <- added_sum0. apply sum_sizes_bound; auto.
    - apply added_tree0.
    - destruct (fl_nodes fl1) as [|y l] eqn:E; [done|].
      apply Forall_inv in added_bounds0. destruct added_tree0 as [[_ Wt] _ _].
      fold (fl_nodes fl1) in Wt. rewrite E in Wt. apply Forall_inv in Wt. cbn in Wt. lia. }
  assert (num_free_blocks (fl_found (high - low + 1) lp fl1)
          = num_free_blocks fl + (high - low + 1)) as EC.
  { unfold fl_found. destruct lp; cbn; rewrite uwrap_small by lia; by rewrite added_count0. }
  split; [|by destruct lp|by destruct lp|done|by destruct lp].
  split; try (destruct lp; done).
  - rewrite EC, (fl_num_blocks _ _ W), <- added_sum0. by destruct lp.
  - destruct lp; cbn; rewrite added_start0, added_end0; done.
  - destruct lp; cbn; rewrite added_start0; done.
  - destruct lp; cbn; rewrite added_end0; done.
  - destruct lp; cbn; rewrite added_end0, added_start0; apply W.
Qed.

Lemma free_blocks_found_run s cpu fl n lp :
  list_at s cpu fl -> free_blocks_found cpu n lp s = Ok tt (with_list cpu (fl_found n lp fl) s).
Proof. intros A. unfold free_blocks_found. by rewrite (update_free_list_run _ _ _ _ A). Qed.

(** Storing the merged list and updating the counters. *)
Lemma merge_found_run s cpu fl fl1 n lp (k : M Z) r :
  list_at s cpu fl -> (forall s', k s' = Ok r s') ->
  (put_free_list cpu fl1 ;;; free_blocks_found cpu n lp ;;; k) s
  = Ok r (with_list cpu (fl_found n lp fl1) s).
Proof.
  intros A Hk. unfold bind at 1. rewrite put_free_list_run. unfold bind at 1.
  rewrite (free_blocks_found_run _ _ _ _ _ (list_at_with _ _ _ fl1 A)).
  by rewrite with_list_with, Hk.
Qed.

(** Storing through a node of the list keeps its identity and place. *)
Lemma fl_middle c fl k1 p n k2 n' :
  fl_wf c fl -> fl_nodes fl = k1 ++ (p, n) :: k2 ->
  p ∉ (k1 ++ k2).*1 /\ (p < c)%positive /\
  first_node fl = fst <$> head (k1 ++ (p, n') :: k2) /\
  last_node fl = fst <$> last (k1 ++ (p, n') :: k2) /\
  num_blocknode fl = Z.of_nat (length (k1 ++ (p, n') :: k2)).
Proof.
  intros W E. destruct (fl_tree _ _ W) as [_ ND _]. fold (fl_nodes fl) in ND.
  pose proof (fl_fresh _ _ W) as F. rewrite E in ND, F.
  rewrite (fl_first _ _ W), (fl_last _ _ W), (fl_num_nodes _ _ W), E. split_and!.
  - rewrite fmap_app, fmap_cons, NoDup_app, NoDup_cons in ND. rewrite fmap_app. set_solver.
  - by apply bounds_split in F as (_ & F & _).
  - by destruct k1.
  - rewrite !last_app_cons, !last_cons. by destruct (last k2).
  - by rewrite !length_app.
Qed.

Lemma absorb_left c fl low high n k1 p pn l2 :
  fl_wf c fl -> low <= high -> block_start fl <= low -> high <= block_end fl ->
  n = high - low + 1 -> range_high pn + 1 = low ->
  free_slot NODE_BLOCK (block_free_tree fl) low high (k1 ++ [(p, pn)]) l2 ->
  added c fl (set_block_free_tree (rb_update p (fun n0 => nova_update_range_node_checksum
    (set_range_high (u64 (range_high n0 + n)) n0)) (block_free_tree fl)) fl) low high.
Proof.
  intros W Hlh Hs He -> Hp SL. destruct SL as (E & B & A) eqn:ESL. clear ESL.
  pose proof (fl_tree _ _ W) as [Ws ND C]. pose proof (fl_end _ _ W).
  assert (E' : inorder (block_free_tree fl) = k1 ++ (p, pn) :: l2)
    by (by rewrite E, <- app_assoc).
  set (x' := nova_update_range_node_checksum
     (set_range_high (u64 (range_high pn + (high - low + 1))) pn)).
  destruct (fl_middle c fl k1 p pn l2 x' W E') as (Hx & Hc & ?).
  apply (added_intro c fl _ low high k1 (Some (p, pn)) None l2 (p, x')); cbn; try tauto; try lia.
  - unfold x'. by autorewrite with node.
  - unfold x'. autorewrite with node. rewrite uwrap_small; [lia|].
    pose proof (fl_start _ _ W). lia.
  - unfold x'. by autorewrite with node.
  - unfold fl_nodes. cbn. by rewrite (inorder_update_at _ _ _ k1 pn l2) by done.
Qed.

Lemma absorb_right c fl low high n l1 q qn k2 :
  fl_wf c fl -> low <= high -> block_start fl <= low -> high <= block_end fl ->
  n = high - low + 1 -> high + 1 = range_low qn ->
  free_slot NODE_BLOCK (block_free_tree fl) low high l1 ((q, qn) :: k2) ->
  added c fl (set_block_free_tree (rb_update q (fun n0 => nova_update_range_node_checksum
    (set_range_low (u64 (range_low n0 - n)) n0)) (block_free_tree fl)) fl) low high.
Proof.
  intros W Hlh Hs He -> Hp SL. destruct SL as (E & B & A) eqn:ESL. clear ESL.
  pose proof (fl_tree _ _ W) as [Ws ND C]. pose proof (fl_end _ _ W).
  set (x' := nova_update_range_node_checksum
     (set_range_low (u64 (range_low qn - (high - low + 1))) qn)).
  destruct (fl_middle c fl l1 q qn k2 x' W E) as (Hx & Hc & ?).
  apply (added_intro c fl _ low high l1 None (Some (q, qn)) k2 (q, x')); cbn; try tauto; try lia.
  - by rewrite app_nil_r.
  - unfold x'. autorewrite with node. rewrite uwrap_small; [lia|].
    pose proof (fl_start _ _ W). lia.
  - unfold x'. by autorewrite with node.
  - unfold x'. by autorewrite with node.
  - unfold fl_nodes. cbn. by rewrite (inorder_update_at _ _ _ l1 qn k2) by done.
Qed.

Lemma absorb_both c fl low high k1 p pn q qn k2 :
  fl_wf c fl -> low <= high -> block_start fl <= low -> high <= block_end fl ->
  range_high pn + 1 = low -> high + 1 = range_low qn ->
  free_slot NODE_BLOCK (block_free_tree fl) low high (k1 ++ [(p, pn)]) ((q, qn) :: k2) ->
  let tree := rb_update p (fun n => nova_update_range_node_checksum
    (set_range_high (range_high qn) n)) (rb_erase q (block_free_tree fl)) in
  let fl1 := set_num_blocknode (u64 (num_blocknode fl - 1)) fl in
  let fl1 := if decide (last_node fl1 = Some q) then set_last_node (Some p) fl1 else fl1 in
  added c fl (set_block_free_tree tree fl1) low high.
Proof.
  intros W Hlh Hs He Hp Hq SL. destruct SL as (E & B & A) eqn:ESL. clear ESL.
  pose proof (fl_tree _ _ W) as [Ws ND C].
  assert (EE : inorder (rb_erase q (block_free_tree fl)) = k1 ++ (p, pn) :: k2).
  { rewrite (rb_erase_inorder _ (k1 ++ [(p, pn)]) q qn k2) by done. by rewrite <- app_assoc. }
  assert (E' : fl_nodes fl = k1 ++ (p, pn) :: (q, qn) :: k2)
    by (unfold fl_nodes; by rewrite E, <- app_assoc).
  set (x' := nova_update_range_node_checksum (set_range_high (range_high qn) pn)).
  destruct (fl_middle c fl k1 p pn _ x' W E') as (Hx & Hc & EF & EL & EN). intros tree fl1 fl2.
  assert (ET : fl_nodes (set_block_free_tree tree fl2) = k1 ++ (p, x') :: k2).
  { unfold fl_nodes. cbn. unfold tree. rewrite (inorder_update_at _ _ _ k1 pn k2); [done| |done].
    rewrite EE. rewrite E in ND. apply NoDup_remove_fst in ND. by rewrite <- app_assoc in ND. }
  pose proof (fl_wf_counts _ _ W) as [_ Hn]. rewrite EN in Hn.
  rewrite length_app in EN, Hn. cbn in EN, Hn.
  assert (num_blocknode fl2 = Z.of_nat (length (k1 ++ (p, x') :: k2))) as EN2.
  { transitivity (u64 (num_blocknode fl - 1)); [unfold fl2; by case_decide|].
    rewrite EN, uwrap_small, length_app by lia. cbn. lia. }
  assert (last_node fl2 = fst <$> last (k1 ++ (p, x') :: k2)) as EL2.
  { pose proof (last_fst_iff (k1 ++ [(p, pn)]) k2 (q, qn)) as HL. rewrite <- E in HL.
    specialize (HL ND). fold (fl_nodes fl) in HL. rewrite <- (fl_last _ _ W) in HL.
    cbn in HL. unfold fl2, fl1. cbn. case_decide as D.
    - apply HL in D as ->. cbn. by rewrite last_snoc.
    - cbn. rewrite EL. rewrite !last_app_cons, !last_cons.
      destruct k2 as [|y k2]; [by destruct D; apply HL|].
      rewrite !last_cons. by destruct (last k2). }
  apply (added_intro c fl _ low high k1 (Some (p, pn)) (Some (q, qn)) k2 (p, x'));
    cbn; try tauto; try lia; try (unfold fl2; case_decide; done).
  - unfold x'. by autorewrite with node.
  - unfold x'. by autorewrite with node.
  - unfold x'. by autorewrite with node.
  - rewrite fmap_app, fmap_cons in *. set_solver.
  - transitivity (first_node fl); [unfold fl2; by case_decide|]. rewrite EF. by destruct k1.
Qed.

Lemma absorb_none c fl low high l1 l2 :
  fl_wf c fl -> low <= high -> block_start fl <= low -> high <= block_end fl ->
  free_slot NODE_BLOCK (block_free_tree fl) low high l1 l2 ->
  let n := nova_update_range_node_checksum
    (set_range_high high (set_range_low low zeroed_node)) in
  exists t', nova_insert_blocktree (block_free_tree fl) c n = (0, t') /\
  let fl1 := set_block_free_tree t' fl in
  let fl1 := match last l1 with None => set_first_node (Some c) fl1 | _ => fl1 end in
  let fl1 := match head l2 with None => set_last_node (Some c) fl1 | _ => fl1 end in
  added c fl (set_num_blocknode (u64 (num_blocknode fl1 + 1)) fl1) low high.
Proof.
  intros W Hlh Hs He SL n. destruct SL as (E & B & A) eqn:ESL. clear ESL.
  pose proof (fl_fresh _ _ W) as F. unfold fl_nodes in F.
  assert (c ∉ (inorder (block_free_tree fl)).*1) as Hc.
  { intros ([q m] & -> & Hq)%list_elem_of_fmap. rewrite Forall_forall in F.
    specialize (F _ Hq). cbn in F. lia. }
  assert (range_low n = low /\ range_high n = high) as [Hl Hh].
  { unfold n. by autorewrite with node. }
  destruct (nova_insert_blocktree_free (block_free_tree fl) c n l1 l2) as (t' & EI & EO & WT);
    [apply (fl_tree _ _ W)|done|lia|unfold n; by autorewrite with node|by rewrite Hl, Hh|].
  exists t'. split; [done|]. intros fl1 fl2 fl3.
  pose proof (fl_wf_counts _ _ W) as [_ Hn].
  pose proof (fl_num_nodes _ _ W) as EN. unfold fl_nodes in EN. rewrite E in EN.
  assert (num_blocknode fl3 = num_blocknode fl) as EN3.
  { unfold fl3, fl2. by destruct (last l1), (head l2). }
  apply (added_intro c fl _ low high l1 None None l2 (c, n)); cbn; try tauto; try lia;
    try (unfold fl3, fl2; destruct (last l1), (head l2); done).
  - by rewrite app_nil_r.
  - unfold n. by autorewrite with node.
  - by rewrite <- E.
  - destruct l1 as [|y l1]; [unfold fl3, fl2; by destruct (head l2)|].
    transitivity (first_node fl).
    + unfold fl3, fl2. destruct (last (y :: l1)) eqn:EL; [by destruct (head l2)|].
      by apply last_None in EL.
    + rewrite (fl_first _ _ W). unfold fl_nodes. by rewrite E.
  - destruct l2 as [|y l2]; [unfold fl3, fl2; cbn; by rewrite last_snoc|].
    transitivity (last_node fl); [unfold fl3, fl2; by destruct (last l1)|].
    rewrite (fl_last _ _ W). unfold fl_nodes. rewrite E, !last_app_cons.
    by rewrite (last_cons_cons (c, n)).
  - rewrite EN3, EN, uwrap_small by (rewrite <- EN; lia). rewrite !length_app. cbn. lia.
Qed.

Lemma free_blocks_merge_run c cpu fl low high n lp s l1 l2 :
  fl_wf c fl -> list_at s cpu fl -> low <= high -> n = high - low + 1 ->
  block_start fl <= low -> high <= block_end fl ->
  free_slot NODE_BLOCK (block_free_tree fl) low high l1 l2 ->
  exists fl', free_blocks_merge cpu fl c (last l1) (head l2) low high n lp s
              = Ok 0 (with_list cpu fl' s) /\ freed c fl fl' low high.
Proof.
  intros W At Hlh -> Hs He SL. unfold free_blocks_merge.
  pose proof (fl_start _ _ W). pose proof (fl_end _ _ W).
  assert (forall fl1 (k : M Z), (forall s', k s' = Ok 0 s') -> added c fl fl1 low high ->
    exists fl', (put_free_list cpu fl1 ;;; free_blocks_found cpu (high - low + 1) lp ;;; k) s
      = Ok 0 (with_list cpu fl' s) /\ freed c fl fl' low high) as Fin.
  { intros fl1 k Hk Ad. exists (fl_found (high - low + 1) lp fl1).
    split; [by eapply merge_found_run|by apply added_freed]. }
  assert (Hb : forall p n0, (p, n0) ∈ l1 ++ l2 -> 0 <= range_high n0 + 1 < 2 ^ 64).
  { intros p n0 Hin. destruct SL as (E & _ & _).
    pose proof (fl_bounds _ _ W) as FB. destruct (fl_tree _ _ W) as [[_ Wl] _ _].
    unfold fl_nodes in FB. rewrite E, Forall_forall in FB, Wl.
    specialize (FB _ Hin). specialize (Wl _ Hin). cbn in *. lia. }
  destruct (last l1) as [[pp pn]|] eqn:EL.
  - pose proof EL as [k1 ->]%last_Some.
    rewrite (uwrap_small 64 (range_high pn + 1)) by (apply (Hb pp); set_solver).
    destruct (head l2) as [[np nn]|] eqn:EH.
    + destruct l2 as [|y k2]; simplify_eq/=.
      destruct (Z.eqb_spec low (range_high pn + 1)); rewrite uwrap_small by lia;
        destruct (Z.eqb_spec (high + 1) (range_low nn)).
      * apply Fin; [done|]. by apply (absorb_both c fl low high k1 pp pn np nn k2).
      * apply Fin; [done|]. by apply (absorb_left c fl low high _ k1 pp pn ((np, nn) :: k2)).
      * apply Fin; [done|]. by apply (absorb_right c fl low high _ (k1 ++ [(pp, pn)]) np nn k2).
      * destruct (absorb_none c fl low high _ _ W Hlh Hs He SL) as (t' & -> & Ad).
        rewrite EL in Ad. by apply Fin.
    + destruct l2; [|done]. destruct (Z.eqb_spec low (range_high pn + 1)).
      * apply Fin; [done|]. by apply (absorb_left c fl low high _ k1 pp pn []).
      * destruct (absorb_none c fl low high _ _ W Hlh Hs He SL) as (t' & -> & Ad).
        rewrite EL in Ad. by apply Fin.
  - destruct (head l2) as [[np nn]|] eqn:EH.
    + destruct l2 as [|y k2]; simplify_eq/=. rewrite uwrap_small by lia.
      destruct (Z.eqb_spec (high + 1) (range_low nn)).
      * apply Fin; [done|]. by apply (absorb_right c fl low high _ l1 np nn k2).
      * destruct (absorb_none c fl low high _ _ W Hlh Hs He SL) as (t' & -> & Ad).
        rewrite EL in Ad. by apply Fin.
    + destruct (absorb_none c fl low high _ _ W Hlh Hs He SL) as (t' & -> & Ad).
      rewrite EL, EH in Ad. by apply Fin.
Qed.

(** ** The invariant and the abstraction of the allocator *)
Record alloc_wf (s : nova) : Prop := {
  aw_len : Z.of_nat (length (free_lists s)) = cpus (sbc s);
  aw_cpus : 0 < cpus (sbc s) < 2 ^ 31;
  aw_plb : 0 < per_list_blocks s;
  aw_list : forall i fl, free_lists s !! i = Some fl -> fl_wf (alloc_clock s) fl;
  aw_home : forall i fl, free_lists s !! i = Some fl ->
    Z.of_nat i * per_list_blocks s <= block_start fl /\
    block_end fl < (Z.of_nat i + 1) * per_list_blocks s
}.

Definition free_block (s : nova) (b : Z) : bool :=
  existsb (fun fl => fl_free fl b) (free_lists s).

Definition total_free (s : nova) : Z := sumZ num_free_blocks (free_lists s).

Lemma existsb_insert {A} (f : A -> bool) l i x y :
  l !! i = Some x -> existsb f (<[i := y]> l) = true <->
  f y = true \/ exists j z, j <> i /\ l !! j = Some z /\ f z = true.
Proof.
  intros E. rewrite existsb_exists. setoid_rewrite <- list_elem_of_In.
  setoid_rewrite list_elem_of_lookup. split.
  - intros (z & [j Hj] & Hz). apply list_lookup_insert_Some in Hj as [(-> & -> & _)|[Hne Hj]];
      [by left|right; eauto].
  - intros [Hy|(j & z & Hne & Hj & Hz)].
    + exists y. split; [|done]. exists i. apply list_lookup_insert_eq. by eapply lookup_lt_Some.
    + exists z. split; [|done]. exists j. by rewrite list_lookup_insert_ne.
Qed.

Lemma existsb_lookup {A} (f : A -> bool) l :
  existsb f l = true <-> exists j z, l !! j = Some z /\ f z = true.
Proof.
  rewrite existsb_exists. setoid_rewrite <- list_elem_of_In.
  setoid_rewrite list_elem_of_lookup. naive_solver.
Qed.

Lemma sumZ_insert {A} (f : A -> Z) l i x y :
  l !! i = Some x -> sumZ f (<[i := y]> l) = sumZ f l - f x + f y.
Proof.
  revert i. induction l as [|z l IH]; intros [|i] E; simplify_eq/=; [lia|].
  change (f z + sumZ f (<[i := y]> l) = f z + sumZ f l - f x + f y). rewrite (IH i E). lia.
Qed.

(** Changing one list by [g] changes the allocator's set by the same [g],
    when the block lies in that list's part of the device. *)
Lemma free_block_with s cpu fl fl' b :
  list_at s cpu fl ->
  free_block (with_list cpu fl' s) b = true <->
  fl_free fl' b = true \/
  exists j z, j <> Z.to_nat cpu /\ free_lists s !! j = Some z /\ fl_free z b = true.
Proof. intros [_ E]. unfold free_block. cbn.
  exact (existsb_insert (fun f => fl_free f b) _ _ _ _ E).
Qed.

Lemma free_block_split s cpu fl b :
  list_at s cpu fl ->
  free_block s b = true <->
  fl_free fl b = true \/
  exists j z, j <> Z.to_nat cpu /\ free_lists s !! j = Some z /\ fl_free z b = true.
Proof.
  intros At. rewrite <- (free_block_with s cpu fl fl b At). destruct At as [_ E].
  unfold free_block. cbn. by rewrite list_insert_id.
Qed.

Lemma total_free_with s cpu fl fl' :
  list_at s cpu fl ->
  total_free (with_list cpu fl' s) = total_free s - num_free_blocks fl + num_free_blocks fl'.
Proof. intros [_ E]. unfold total_free. cbn. by apply sumZ_insert. Qed.

(** A block lies in the part of at most one list. *)
Lemma fl_free_bounds c fl b :
  fl_wf c fl -> fl_free fl b = true -> block_start fl <= b <= block_end fl.
Proof.
  intros W (x & Hx & Hb)%covered_spec. pose proof (fl_bounds _ _ W) as F.
  rewrite Forall_forall in F. specialize (F x Hx). lia.
Qed.

Lemma home_unique s i j fli flj b :
  alloc_wf s -> free_lists s !! i = Some fli -> free_lists s !! j = Some flj ->
  block_start fli <= b <= block_end fli -> block_start flj <= b <= block_end flj -> i = j.
Proof.
  intros W Ei Ej Hi Hj. pose proof (aw_home _ W _ _ Ei). pose proof (aw_home _ W _ _ Ej).
  pose proof (aw_plb _ W). nia.
Qed.

Lemma alloc_wf_with s cpu fl fl' :
  alloc_wf s -> list_at s cpu fl -> fl_wf (alloc_clock s) fl' ->
  block_start fl' = block_start fl -> block_end fl' = block_end fl ->
  alloc_wf (with_list cpu fl' s).
Proof.
  intros [] [Hc E] W Es Ee. split; cbn; rewrite ?length_insert; auto.
  - intros i f [(<- & -> & _)|[_ ?]]%list_lookup_insert_Some; eauto.
  - intros i f [(<- & -> & _)|[_ ?]]%list_lookup_insert_Some; eauto.
    rewrite Es, Ee. eauto.
Qed.

Lemma alloc_wf_clock s c :
  alloc_wf s -> (alloc_clock s <= c)%positive -> alloc_wf (set_alloc_clock c s).
Proof. intros [] Hc. split; cbn; eauto using fl_wf_clock. Qed.

(** The fields of the state the allocator leaves alone. *)
Definition balloc_frame (s s' : nova) : Prop :=
  sbc s' = sbc s /\ nvmm s' = nvmm s /\ trace s' = trace s /\
  inode_maps s' = inode_maps s /\ s_flags s' = s_flags s /\ cr0_wp s' = cr0_wp s /\
  per_list_blocks s' = per_list_blocks s.

(** [bump s] is the state after one slab allocation. *)
Definition bump (s : nova) : nova := set_alloc_clock (alloc_clock s + 1)%positive s.

(** The bounds of the lists never change; the slab clock only advances. *)
Definition home_bounds (fl : free_list) : Z * Z := (block_start fl, block_end fl).
Definition balloc_keep (s s' : nova) : Prop :=
  running_cpu s' = running_cpu s /\ (alloc_clock s <= alloc_clock s')%positive /\
  home_bounds <$> free_lists s' = home_bounds <$> free_lists s.

Lemma balloc_keep_refl s : balloc_keep s s.
Proof. repeat split. lia. Qed.
Lemma balloc_keep_trans s1 s2 s3 : balloc_keep s1 s2 -> balloc_keep s2 s3 -> balloc_keep s1 s3.
Proof. intros (? & ? & ?) (? & ? & ?). repeat split; [congruence|lia|congruence]. Qed.

Lemma balloc_keep_with s s1 cpu fl fl' :
  (s1 = s \/ s1 = bump s) -> list_at s cpu fl -> block_start fl' = block_start fl ->
  block_end fl' = block_end fl -> balloc_keep s (with_list cpu fl' s1).
Proof.
  intros Hs [_ E] Es Ee. assert (free_lists s1 = free_lists s) as Ef by (by destruct Hs as [-> | ->]).
  repeat split.
  - by destruct Hs as [-> | ->].
  - destruct Hs as [-> | ->]; cbn; lia.
  - cbn. rewrite Ef, list_fmap_insert. apply list_insert_id. rewrite list_lookup_fmap, E. cbn.
    unfold home_bounds. by rewrite Es, Ee.
Qed.

Lemma balloc_frame_refl s : balloc_frame s s.
Proof. by repeat split. Qed.
Lemma balloc_frame_with s cpu fl : balloc_frame s (with_list cpu fl s).
Proof. by repeat split. Qed.

(** ** Freeing *)

(** [b] is one of the [n] blocks from [low] on. *)
Definition in_blocks (low n b : Z) : bool := (low <=? b) && (b <? low + n).

Lemma alloc_wf_bump s : alloc_wf s -> alloc_wf (bump s).
Proof. intros W. apply alloc_wf_clock; [done|lia]. Qed.

(** A legal request to free: the range lies in the list [fl] of [cpu] and no
    block of it is free. *)
Record free_request (s : nova) (blocknr num btype cpu : Z) (fl : free_list) : Prop := {
  req_num : 0 < num;
  req_cpu : cpu = blocknr / per_list_blocks s;
  req_list : list_at s cpu fl;
  req_low : block_start fl <= blocknr;
  req_high : blocknr + nova_get_numblocks btype * num - 1 <= block_end fl;
  req_taken : forall b, in_blocks blocknr (nova_get_numblocks btype * num) b = true ->
    free_block s b = false
}.

Lemma numblocks_pos btype : 0 < nova_get_numblocks btype.
Proof. unfold nova_get_numblocks. repeat case_if; lia. Qed.

Lemma list_at_cpu s cpu fl : alloc_wf s -> list_at s cpu fl -> 0 <= cpu < cpus (sbc s).
Proof.
  intros W [Hc E]. apply lookup_lt_Some in E. pose proof (aw_len _ W). lia.
Qed.

Lemma nova_free_blocks_run s blocknr num btype lp cpu fl :
  alloc_wf s -> free_request s blocknr num btype cpu fl ->
  kmem_cache_zalloc_ok (alloc_clock s) = true ->
  exists fl', nova_free_blocks blocknr num btype lp s = Ok 0 (with_list cpu fl' (bump s)) /\
    freed (alloc_clock s) fl fl' blocknr (blocknr + nova_get_numblocks btype * num - 1).
Proof.
  intros W [Hnum Hcpu At Hlow Hhigh Htaken] Hk. pose proof (numblocks_pos btype).
  pose proof (list_at_cpu _ _ _ W At) as Hc. pose proof (aw_cpus _ W).
  pose proof (aw_plb _ W). set (n := nova_get_numblocks btype * num) in *.
  assert (num <= n) by (unfold n; nia).
  pose proof (aw_list _ W _ _ (proj2 At)) as Wfl.
  pose proof (fl_start _ _ Wfl). pose proof (fl_end _ _ Wfl).
  unfold nova_free_blocks. rewrite (proj2 (Z.leb_gt _ _)) by lia.
  unfold bind, gets, nova_alloc_blocknode, nova_alloc_range_node, kmem_cache_zalloc.
  rewrite (proj2 (Z.eqb_neq _ _)) by lia. rewrite Hk. fold (bump s). fold n.
  rewrite <- Hcpu. rewrite swrap_small by lia.
  assert (list_at (bump s) cpu fl) as At' by done.
  rewrite (get_free_list_run _ _ _ At').
  rewrite (uwrap_small 64 n), !uwrap_small by lia. rewrite (proj2 (Z.ltb_ge _ _)) by lia.
  rewrite (proj2 (Z.ltb_ge _ _)) by lia. cbn [orb].
  assert (range_disjoint fl blocknr (blocknr + n - 1)) as D.
  { intros b Hb. specialize (Htaken b). apply not_true_iff_false. intros Hf.
    rewrite (proj2 (free_block_split s cpu fl b At)) in Htaken by (by left).
    unfold in_blocks in Htaken.
    rewrite (proj2 (Z.leb_le _ _)), (proj2 (Z.ltb_lt _ _)) in Htaken by lia.
    by specialize (Htaken eq_refl). }
  destruct (free_slot_exists fl _ blocknr (blocknr + n - 1) Wfl) as (l1 & l2 & SL); [lia|done|].
  rewrite (nova_find_free_slot_free _ _ _ l1 l2) by (auto; try lia; apply Wfl).
  cbn [negb Z.eqb].
  apply (free_blocks_merge_run _ _ _ _ _ _ _ _ _ _ Wfl At'); auto; lia.
Qed.

(** What a successful free does to the allocator. *)
Record free_effect (s s' : nova) (blocknr n : Z) : Prop := {
  fe_wf : alloc_wf s';
  fe_free : forall b, free_block s' b = free_block s b || in_blocks blocknr n b;
  fe_total : total_free s' = total_free s + n;
  fe_frame : balloc_frame s s';
  fe_keep : balloc_keep s s'
}.

Lemma freed_effect s cpu fl fl' low high :
  alloc_wf s -> list_at s cpu fl -> freed (alloc_clock s) fl fl' low high ->
  free_effect s (with_list cpu fl' (bump s)) low (high - low + 1).
Proof.
  intros W At []. assert (list_at (bump s) cpu fl) as At' by done. split.
  - apply (alloc_wf_with _ _ fl); auto using alloc_wf_bump.
  - intros b. apply eq_true_iff_eq. rewrite orb_true_iff.
    rewrite (free_block_with _ _ _ _ _ At'), (free_block_split s cpu fl b At).
    rewrite freed_free0, orb_true_iff. unfold in_blocks.
    replace (b <? low + (high - low + 1)) with (b <=? high); [cbn; tauto|].
    apply eq_true_iff_eq. rewrite Z.leb_le, Z.ltb_lt. lia.
  - rewrite (total_free_with _ _ _ _ At'). rewrite freed_count0.
    change (total_free (bump s)) with (total_free s). lia.
  - by repeat split.
  - apply (balloc_keep_with s _ cpu fl); auto.
Qed.

(** C12: freeing a range none of whose blocks is free succeeds, adds
    exactly the blocks of that range to the set of free blocks, accounts for
    them, and keeps the allocator's invariant; the device contents, the write
    trace and the other components are untouched. *)
Theorem nova_free_blocks_correct s blocknr num btype lp cpu fl :
  alloc_wf s -> free_request s blocknr num btype cpu fl ->
  kmem_cache_zalloc_ok (alloc_clock s) = true ->
  exists s', nova_free_blocks blocknr num btype lp s = Ok 0 s' /\
    free_effect s s' blocknr (nova_get_numblocks btype * num).
Proof.
  intros W R Hk. destruct (nova_free_blocks_run _ _ _ _ lp _ _ W R Hk) as (fl' & -> & F).
  eexists. split; [done|]. pose proof (freed_effect _ _ _ _ _ _ W (req_list _ _ _ _ _ _ R) F) as E.
  by replace (blocknr + nova_get_numblocks btype * num - 1 - blocknr + 1)
    with (nova_get_numblocks btype * num) in E by lia.
Qed.

(** Freeing a range whose first block is already free is
    refused with EINVAL and changes no free list (only the pre-allocated node
    is consumed). *)
Theorem nova_free_blocks_double s blocknr num btype lp cpu fl :
  alloc_wf s -> 0 < num < 2 ^ 31 -> cpu = blocknr / per_list_blocks s -> list_at s cpu fl ->
  fl_free fl blocknr = true -> blocknr + num <= block_end fl + 1 ->
  kmem_cache_zalloc_ok (alloc_clock s) = true ->
  nova_free_blocks blocknr num btype lp s = Ok (- EINVAL) (bump s).
Proof.
  intros W Hnum Hcpu At Hf Hend Hk. pose proof (list_at_cpu _ _ _ W At) as Hc.
  pose proof (aw_cpus _ W). pose proof (aw_plb _ W).
  pose proof (aw_list _ W _ _ (proj2 At)) as Wfl.
  pose proof (fl_free_bounds _ _ _ Wfl Hf). pose proof (fl_start _ _ Wfl).
  pose proof (fl_end _ _ Wfl).
  unfold nova_free_blocks. rewrite (proj2 (Z.leb_gt _ _)) by lia.
  unfold bind, gets, nova_alloc_blocknode, nova_alloc_range_node, kmem_cache_zalloc.
  rewrite (proj2 (Z.eqb_neq _ _)) by lia. rewrite Hk. fold (bump s).
  rewrite <- Hcpu. rewrite swrap_small by lia.
  rewrite (get_free_list_run (bump s) cpu fl) by done.
  rewrite (uwrap_small 64 (block_end fl + 1)), (uwrap_small 64 (blocknr + num)) by lia.
  rewrite !(proj2 (Z.ltb_ge _ _)) by lia. cbn [orb].
  apply covered_spec in Hf as (x & Hx & Hb).
  rewrite (nova_find_free_slot_covered _ _ _ x) by (auto; apply Wfl). done.
Qed.

(** ** Allocating from one list *)

(** [fl1] is [fl] with the [k] blocks from [blk] on taken out of its ranges,
    before the counter is updated. *)
Record carved (c : ptr) (fl fl1 : free_list) (blk k : Z) : Prop := {
  carved_tree : tree_wf NODE_BLOCK (block_free_tree fl1);
  carved_first : first_node fl1 = fst <$> head (fl_nodes fl1);
  carved_last : last_node fl1 = fst <$> last (fl_nodes fl1);
  carved_nodes : num_blocknode fl1 = Z.of_nat (length (fl_nodes fl1));
  carved_count : num_free_blocks fl1 = num_free_blocks fl;
  carved_sum : sumZ node_size (fl_nodes fl1) = sumZ node_size (fl_nodes fl) - k;
  carved_start : block_start fl1 = block_start fl;
  carved_end : block_end fl1 = block_end fl;
  carved_bounds : Forall (fun x => block_start fl <= range_low x.2 /\
                                   range_high x.2 <= block_end fl) (fl_nodes fl1);
  carved_fresh : Forall (fun x => (x.1 < c)%positive) (fl_nodes fl1);
  carved_pos : 0 < k;
  carved_from : forall b, in_blocks blk k b = true -> fl_free fl b = true;
  carved_free : forall b, fl_free fl1 b = fl_free fl b && negb (in_blocks blk k b)
}.

(** Replacing one node by the nodes [os] of what is left of it. *)
Lemma carved_intro c c' fl fl1 k1 p n os k2 blk k :
  fl_wf c fl -> fl_nodes fl = k1 ++ (p, n) :: k2 -> (c <= c')%positive ->
  0 < k -> range_low n <= blk -> blk + k - 1 <= range_high n ->
  ranges_wf NODE_BLOCK os -> csums_ok os -> NoDup os.*1 ->
  (forall q, q ∈ os.*1 -> q = p \/ (c <= q)%positive) ->
  Forall (fun x => (x.1 < c')%positive) os ->
  Forall (fun x => range_low n <= range_low x.2 /\ range_high x.2 <= range_high n) os ->
  (forall b, covered os b = covers (p, n) b && negb (in_blocks blk k b)) ->
  sumZ node_size os = node_size (p, n) - k ->
  fl_nodes fl1 = k1 ++ os ++ k2 ->
  first_node fl1 = fst <$> head (k1 ++ os ++ k2) ->
  last_node fl1 = fst <$> last (k1 ++ os ++ k2) ->
  num_blocknode fl1 = Z.of_nat (length (k1 ++ os ++ k2)) ->
  num_free_blocks fl1 = num_free_blocks fl ->
  block_start fl1 = block_start fl -> block_end fl1 = block_end fl ->
  carved c' fl fl1 blk k.
Proof.
  intros W E Hcc Hk Hl Hh Wo Co No Po Fo Io Co2 So EN E1 E2 E3 E4 E5 E6.
  destruct (fl_tree _ _ W) as [Ws ND C]. fold (fl_nodes fl) in *. rewrite E in *.
  pose proof (fl_bounds _ _ W) as FB. pose proof (fl_fresh _ _ W) as FF.
  rewrite E in FB, FF. apply bounds_split in FB as (Fb1 & [Fbl Fbh] & Fb2).
  apply bounds_split in FF as (Ff1 & Ffp & Ff2).
  pose proof (ranges_wf_middle _ _ _ _ Ws) as (Hn & B & A). cbn in Hn, B, A, Fbl, Fbh.
  pose proof (ranges_wf_remove _ _ _ _ Ws) as Ws'.
  assert (forall b, fl_free fl1 b = fl_free fl b && negb (in_blocks blk k b)) as Hfree.
  { intros b. unfold fl_free. rewrite EN, E, !covered_app, covered_cons, Co2.
    destruct (in_blocks blk k b) eqn:Eb; [|by rewrite !andb_true_r].
    unfold in_blocks in Eb. zify_bool.
    enough (covered k1 b = false /\ covered k2 b = false) as [-> ->]
      by (by rewrite !andb_false_r).
    unfold all_below, all_above in *. rewrite Forall_forall in *.
    split; apply not_true_iff_false; intros (x & Hx & Hb)%covered_spec;
      [specialize (B x Hx)|specialize (A x Hx)]; cbn in *; lia. }
  split; rewrite ?EN; auto.
  - split; fold (fl_nodes fl1); rewrite EN.
    + apply ranges_wf_app in Ws' as (W1 & W2 & W3).
      unfold all_below, all_above in *. rewrite Forall_forall in *.
      rewrite !ranges_wf_app. split_and!; auto.
      * intros x y Hx Hy. unfold node_lt. cbn.
        specialize (A y Hy). specialize (Io x Hx). cbn in *. lia.
      * intros x y Hx Hy. apply elem_of_app in Hy as [Hy|Hy]; [|by apply W3].
        unfold node_lt. cbn. specialize (B x Hx). specialize (Io y Hy). cbn in *. lia.
    + rewrite !fmap_app, fmap_cons in *. apply NoDup_app in ND as (N1 & N2 & [N3 N4]%NoDup_cons).
      assert (forall q, q ∈ os.*1 -> q ∈ k1.*1 \/ q ∈ k2.*1 -> False) as Dis.
      { intros q Hq [Hq1|Hq1]; (destruct (Po q Hq) as [->|Hge]; [set_solver|]);
          apply list_elem_of_fmap in Hq1 as (y & -> & Hy);
          rewrite Forall_forall in Ff1, Ff2; [specialize (Ff1 y Hy)|specialize (Ff2 y Hy)];
          cbn in *; lia. }
      rewrite !NoDup_app. set_solver.
    + rewrite !csums_ok_app, csums_ok_cons in *. naive_solver.
  - rewrite E, !sumZ_app, sumZ_cons, So. lia.
  - rewrite !Forall_app. split_and!; auto.
    eapply Forall_impl; [exact Io|]. cbn. lia.
  - rewrite !Forall_app. split_and!; eauto using fresh_mono.
  - intros b Hb. unfold fl_free. rewrite E, covered_app, covered_cons.
    rewrite (proj2 (covers_spec (p, n) b)); [by rewrite orb_true_r|].
    unfold in_blocks in Hb. zify_bool. cbn. lia.
Qed.

(** The whole node [p] is taken. *)
Lemma take_whole c fl k1 p n k2 :
  fl_wf c fl -> fl_nodes fl = k1 ++ (p, n) :: k2 ->
  let tree := block_free_tree fl in
  let fl1 := if decide (first_node fl = Some p)
             then set_first_node (fst <$> rb_next tree p) fl else fl in
  let fl1 := if decide (last_node fl = Some p)
             then set_last_node (fst <$> rb_prev tree p) fl1 else fl1 in
  carved c fl (set_num_blocknode (u64 (num_blocknode fl1 - 1))
    (set_block_free_tree (rb_erase p tree) fl1)) (range_low n) (range_high n - range_low n + 1).
Proof.
  intros W E tree fl1 fl2.
  destruct (fl_tree _ _ W) as [Ws ND C]. fold (fl_nodes fl) in *.
  pose proof Ws as Ws'. rewrite E in Ws'. apply ranges_wf_middle in Ws' as (Hn & _). cbn in Hn.
  pose proof (fl_wf_counts _ _ W) as [_ Hc]. pose proof (fl_num_nodes _ _ W) as EN.
  rewrite E, length_app in EN. cbn in EN.
  assert (num_blocknode fl2 = num_blocknode fl) as EN2.
  { unfold fl2, fl1. by repeat case_decide. }
  apply (carved_intro c c fl _ k1 p n [] k2);
    try done; try lia; try (unfold fl2, fl1; repeat case_decide; done); cbn.
  - apply ranges_wf_nil.
  - constructor.
  - constructor.
  - set_solver.
  - intros b. unfold covers, in_blocks. cbn. bool_lia.
  - unfold node_size. cbn. lia.
  - unfold fl_nodes. cbn. by rewrite (rb_erase_inorder _ k1 p n k2).
  - pose proof (head_fst_iff k1 k2 (p, n)) as HF. rewrite <- E in HF.
    specialize (HF ND). rewrite <- (fl_first _ _ W) in HF.
    transitivity (first_node fl1); [unfold fl2; by case_decide|]. unfold fl1. case_decide as D.
    + apply HF in D as ->. cbn. by rewrite (rb_next_inorder _ [] p n k2).
    + rewrite (fl_first _ _ W), E. destruct k1; [|done]. by destruct D; apply HF.
  - pose proof (last_fst_iff k1 k2 (p, n)) as HL. rewrite <- E in HL.
    specialize (HL ND). rewrite <- (fl_last _ _ W) in HL.
    unfold fl2. case_decide as D.
    + apply HL in D as ->. cbn. rewrite (rb_prev_inorder _ k1 p n []) by done.
      by rewrite app_nil_r.
    + transitivity (last_node fl); [unfold fl1; by case_decide|].
      rewrite (fl_last _ _ W), E. destruct k2 as [|y k2]; [by destruct D; apply HL|].
      by rewrite !last_app_cons, last_cons_cons.
  - rewrite EN2, EN, uwrap_small by lia. rewrite length_app. lia.
Qed.

(** Blocks are cut off the low or the high end of [p]. *)
Lemma take_part c fl k1 p n k2 n' blk k :
  fl_wf c fl -> fl_nodes fl = k1 ++ (p, n) :: k2 ->
  0 < k < node_size (p, n) ->
  nova_range_node_checksum_ok n' = true ->
  (blk = range_low n /\ range_low n' = range_low n + k /\ range_high n' = range_high n) \/
  (blk = range_high n + 1 - k /\ range_low n' = range_low n /\ range_high n' = range_high n - k) ->
  forall f, f n = n' ->
  carved c fl (set_block_free_tree (rb_update p f (block_free_tree fl)) fl) blk k.
Proof.
  intros W E Hk Hcs Hcase f Hf. unfold node_size in Hk. cbn in Hk.
  destruct (fl_middle c fl k1 p n k2 n' W E) as (Hx & Hc & EF & EL & EN).
  apply (carved_intro c c fl _ k1 p n [(p, n')] k2); try done; try lia; cbn.
  - apply ranges_wf_cons. cbn. split_and!; [lia|apply ranges_wf_nil|set_solver].
  - by repeat constructor.
  - apply NoDup_singleton.
  - set_solver.
  - by repeat constructor.
  - repeat constructor; cbn; lia.
  - intros b. rewrite orb_false_r. unfold covers, in_blocks. cbn.
    bool_lia.
  - unfold node_size. cbn. lia.
  - unfold fl_nodes. cbn. destruct (fl_tree _ _ W) as [_ ND _].
    rewrite (inorder_update_at _ _ _ k1 n k2) by done. by rewrite Hf.
Qed.

(** Visiting one node in the un-aligned loop. *)
Lemma alloc_walk_visit c s cpu fl fuel k1 p n k2 btype nb dir :
  fl_wf c fl -> list_at s cpu fl -> fl_nodes fl = k1 ++ (p, n) :: k2 -> 0 < nb ->
  let size := node_size (p, n) in
  if (0 <? btype) && (size <? nb) then
    alloc_walk (S fuel) cpu (Some p) btype nb dir s
    = alloc_walk fuel cpu (step_node dir (block_free_tree fl) p) btype nb dir s
  else exists fl1 blk,
    alloc_walk (S fuel) cpu (Some p) btype nb dir s
    = Ok (Some (Z.min size nb, blk)) (with_list cpu fl1 s) /\
    carved c fl fl1 blk (Z.min size nb) /\ num_blocknode fl1 <= num_blocknode fl.
Proof.
  intros W At E Hnb size. pose proof (fl_wf_counts _ _ W) as [_ Hcnt].
  pose proof (fl_num_nodes _ _ W) as Hnn. rewrite E, length_app in Hnn. cbn in Hnn.
  destruct (fl_tree _ _ W) as [Ws ND C]. fold (fl_nodes fl) in *.
  pose proof Ws as Ws'. rewrite E in Ws'. apply ranges_wf_middle in Ws' as (Hn & _). cbn in Hn.
  pose proof (fl_bounds _ _ W) as FB. rewrite E in FB.
  apply bounds_split in FB as (_ & [Hs He] & _). cbn in Hs, He.
  pose proof (fl_start _ _ W). pose proof (fl_end _ _ W).
  remember (alloc_walk (S fuel) cpu (Some p) btype nb dir s) as r eqn:Er.
  cbn [alloc_walk] in Er. unfold bind at 1 in Er.
  rewrite (get_free_list_run _ _ _ At) in Er.
  rewrite (rb_deref_at p (block_free_tree fl) k1 n k2) in Er by done.
  rewrite E in C. rewrite (csums_ok_elem _ p n C) in Er by set_solver. cbn [negb] in Er.
  unfold size, node_size. cbn [snd].
  rewrite (uwrap_small 64 (range_high n - range_low n + 1)) in Er by lia. subst r.
  destruct (Z.leb_spec (range_high n - range_low n + 1) nb) as [Hle|Hgt].
  - destruct ((0 <? btype) && (range_high n - range_low n + 1 <? nb)); [done|].
    rewrite Z.min_l by lia. eexists _, (range_low n).
    split; [reflexivity|]. split; [by apply (take_whole c fl k1 p n k2)|].
    cbn. repeat case_decide; cbn; rewrite uwrap_small by lia; lia.
  - rewrite (proj2 (Z.ltb_ge (range_high n - range_low n + 1) nb)), andb_false_r by lia.
    rewrite Z.min_r by lia. destruct dir.
    + eexists _, (range_low n). split; [reflexivity|]. split; [|cbn; lia].
      eapply (take_part c fl k1 p n k2); [done..|unfold node_size; cbn; lia| | |done].
      * by autorewrite with node.
      * left. autorewrite with node. by rewrite uwrap_small by lia.
    + eexists _, (u64 (range_high n + 1 - nb)). split; [reflexivity|]. split; [|cbn; lia].
      eapply (take_part c fl k1 p n k2); [done..|unfold node_size; cbn; lia| | |done].
      * by autorewrite with node.
      * right. autorewrite with node. by rewrite !uwrap_small by lia.
Qed.

(** ** The loops over a list's nodes *)

(** [todo] are the nodes a loop in direction [dir] still has to visit. *)
Definition remaining (dir : nova_alloc_direction) (fl : free_list)
    (todo : list (ptr * range_node)) : Prop :=
  match dir with
  | ALLOC_FROM_HEAD => exists l1, fl_nodes fl = l1 ++ todo
  | ALLOC_FROM_TAIL => exists l2, fl_nodes fl = reverse todo ++ l2
  end.

Definition visit_order (dir : nova_alloc_direction) (fl : free_list) : list (ptr * range_node) :=
  match dir with
  | ALLOC_FROM_HEAD => fl_nodes fl
  | ALLOC_FROM_TAIL => reverse (fl_nodes fl)
  end.

Lemma remaining_start c dir fl :
  fl_wf c fl ->
  remaining dir fl (visit_order dir fl) /\ start_node dir fl = fst <$> head (visit_order dir fl).
Proof.
  intros W. destruct dir; cbn [remaining visit_order start_node].
  - split; [by exists []|apply (fl_first _ _ W)].
  - split; [exists []; by rewrite reverse_involutive, app_nil_r|].
    rewrite head_reverse. apply (fl_last _ _ W).
Qed.

Lemma remaining_step c dir fl p n todo :
  fl_wf c fl -> remaining dir fl ((p, n) :: todo) ->
  (exists k1 k2, fl_nodes fl = k1 ++ (p, n) :: k2) /\
  step_node dir (block_free_tree fl) p = fst <$> head todo /\ remaining dir fl todo.
Proof.
  intros W R. destruct (fl_tree _ _ W) as [_ ND _]. unfold step_node. destruct dir.
  - destruct R as (l1 & E). split_and!; [by exists l1, todo| |].
    + by rewrite (rb_next_inorder _ l1 p n todo).
    + exists (l1 ++ [(p, n)]). by rewrite <- app_assoc.
  - destruct R as (l2 & E). rewrite reverse_cons, <- app_assoc in E. cbn in E.
    split_and!; [by exists (reverse todo), l2| |].
    + rewrite (rb_prev_inorder _ (reverse todo) p n l2) by done.
      by rewrite <- head_reverse, reverse_involutive.
    + by exists ((p, n) :: l2).
Qed.

Lemma length_visit_order dir fl : length (visit_order dir fl) = length (fl_nodes fl).
Proof. destruct dir; [done|]. apply length_reverse. Qed.

Lemma elem_visit_order dir fl x : x ∈ visit_order dir fl <-> x ∈ fl_nodes fl.
Proof. destruct dir; [done|]. apply elem_of_reverse. Qed.

(** The un-aligned loop: nothing is found only if every node is too small for
    a superpage request; otherwise a range of one node is carved out. *)
Lemma alloc_walk_run c s cpu fl btype nb dir todo fuel :
  fl_wf c fl -> list_at s cpu fl -> 0 < nb -> remaining dir fl todo ->
  (length todo <= fuel)%nat ->
  (alloc_walk fuel cpu (fst <$> head todo) btype nb dir s = Ok None s /\
   Forall (fun x => 0 < btype /\ node_size x < nb) todo) \/
  (exists x fl1 blk, x ∈ todo /\
   alloc_walk fuel cpu (fst <$> head todo) btype nb dir s
   = Ok (Some (Z.min (node_size x) nb, blk)) (with_list cpu fl1 s) /\
   carved c fl fl1 blk (Z.min (node_size x) nb) /\ (0 < btype -> nb <= node_size x) /\
   num_blocknode fl1 <= num_blocknode fl).
Proof.
  intros W At Hnb. revert fuel. induction todo as [|[p n] todo IH]; intros fuel R Hf.
  - left. split; [by destruct fuel|constructor].
  - destruct fuel as [|fuel]; [cbn in Hf; lia|]. cbn [head fmap option_fmap option_map fst].
    destruct (remaining_step _ _ _ _ _ _ W R) as ((k1 & k2 & E) & ES & R').
    pose proof (alloc_walk_visit c s cpu fl fuel k1 p n k2 btype nb dir W At E Hnb) as V.
    cbn zeta in V. destruct ((0 <? btype) && (node_size (p, n) <? nb)) eqn:Eb.
    + change (fst <$> Some (p, n)) with (Some p). rewrite V, ES. zify_bool.
      destruct (IH fuel R' ltac:(cbn in Hf; lia)) as [[-> F]|(x & fl1 & blk & Hx & -> & Cv & Hb & Hnum)].
      * left. split; [done|]. by constructor.
      * right. exists x, fl1, blk. split_and!; [set_solver|done..].
    + right. destruct V as (fl1 & blk & V & Cv & Hnum). exists (p, n), fl1, blk.
      split_and!; [set_solver|done|done| |done]. intros Hb.
      apply andb_false_iff in Eb. rewrite !Z.ltb_ge in Eb. lia.
Qed.

(** What a successful allocation does to one list. *)
Record took (c : ptr) (fl fl' : free_list) (blk k : Z) : Prop := {
  took_wf : fl_wf c fl';
  took_start : block_start fl' = block_start fl;
  took_end : block_end fl' = block_end fl;
  took_pos : 0 < k;
  took_count : num_free_blocks fl' = num_free_blocks fl - k;
  took_from : forall b, in_blocks blk k b = true -> fl_free fl b = true;
  took_free : forall b, fl_free fl' b = fl_free fl b && negb (in_blocks blk k b)
}.

Lemma sum_sizes_nonneg l : ranges_wf NODE_BLOCK l -> 0 <= sumZ node_size l.
Proof.
  intros [_ W]. apply sumZ_nonneg. eapply Forall_impl; [exact W|].
  intros x Hx. unfold node_size. cbn in Hx. lia.
Qed.

Lemma carved_took c0 c fl fl1 blk k :
  fl_wf c0 fl -> carved c fl fl1 blk k ->
  k <= num_free_blocks fl /\
  took c fl (set_num_free_blocks (u64 (num_free_blocks fl1 - k)) fl1) blk k.
Proof.
  intros W []. pose proof (fl_wf_counts _ _ W) as [Hn _].
  pose proof (fl_num_blocks _ _ W) as EN.
  pose proof (sum_sizes_nonneg _ (tree_sorted _ _ carved_tree0)) as Hp.
  fold (fl_nodes fl1) in Hp. split; [lia|].
  assert (num_free_blocks (set_num_free_blocks (u64 (num_free_blocks fl1 - k)) fl1)
          = num_free_blocks fl - k) as EC.
  { cbn. rewrite carved_count0. apply uwrap_small. lia. }
  split; [|done..]. split; [done..| | | | | |]; cbn; rewrite ?carved_start0, ?carved_end0.
  - change (u64 (num_free_blocks fl1 - k) = sumZ node_size (fl_nodes fl1)).
    cbn in EC. rewrite EC, carved_sum0. lia.
  - done.
  - apply W.
  - apply W.
  - apply W.
  - done.
Qed.

(** ** Superpages *)

(** The node left of an aligned range cut out of [n]. *)
Definition left_part (lm : Z) (n : range_node) : range_node :=
  nova_update_range_node_checksum (set_range_high (u64 (range_low n + lm - 1)) n).
(** The node right of it. *)
Definition right_part (lm nb : Z) (n : range_node) : range_node :=
  nova_update_range_node_checksum
    (set_range_high (range_high n) (set_range_low (u64 (range_low n + lm + nb)) zeroed_node)).

Lemma left_part_tree c fl k1 p n k2 lm :
  fl_wf c fl -> fl_nodes fl = k1 ++ (p, n) :: k2 -> 0 < lm <= node_size (p, n) ->
  let t := rb_update p (left_part lm) (block_free_tree fl) in
  inorder t = k1 ++ (p, left_part lm n) :: k2 /\ tree_wf NODE_BLOCK t /\
  range_low (left_part lm n) = range_low n /\ range_high (left_part lm n) = range_low n + lm - 1.
Proof.
  intros W E Hlm t. unfold node_size in Hlm. cbn in Hlm.
  destruct (fl_tree _ _ W) as [Ws ND C] eqn:ET. clear ET. fold (fl_nodes fl) in *.
  pose proof Ws as Ws'. rewrite E in Ws'. apply ranges_wf_middle in Ws' as (Hn & B & A).
  cbn in Hn, B, A.
  pose proof (fl_bounds _ _ W) as FB. rewrite E in FB.
  apply bounds_split in FB as (_ & [Hs He] & _). cbn in Hs, He.
  pose proof (fl_start _ _ W). pose proof (fl_end _ _ W).
  assert (range_low (left_part lm n) = range_low n /\
          range_high (left_part lm n) = range_low n + lm - 1) as [EL EH].
  { unfold left_part. autorewrite with node. by rewrite uwrap_small by lia. }
  assert (inorder t = k1 ++ (p, left_part lm n) :: k2) as EO by (by apply inorder_update_at).
  split_and!; auto.
  eapply (tree_wf_replace NODE_BLOCK (block_free_tree fl) t k1 k2 p n (left_part lm n));
    [apply W|done|done|cbn; lia|cbn; by rewrite EL| |].
  - cbn. rewrite EH. eapply all_above_mono; [exact A|lia].
  - unfold left_part. by autorewrite with node.
Qed.

Lemma right_part_tree c fl k1 p n k2 lm nb :
  fl_wf c fl -> fl_nodes fl = k1 ++ (p, n) :: k2 -> 0 < lm -> 0 < nb ->
  lm + nb < node_size (p, n) ->
  exists t', nova_insert_blocktree (rb_update p (left_part lm) (block_free_tree fl)) c
      (right_part lm nb n) = (0, t') /\
    inorder t' = k1 ++ [(p, left_part lm n); (c, right_part lm nb n)] ++ k2 /\
    tree_wf NODE_BLOCK t'.
Proof.
  intros W E Hlm Hnb Hsz.
  destruct (left_part_tree _ fl k1 p n k2 lm W E ltac:(lia)) as (EO & WT & EL & EH).
  unfold node_size in Hsz. cbn in Hsz.
  pose proof (fl_bounds _ _ W) as FB. rewrite E in FB.
  apply bounds_split in FB as (Fb1 & [Hs He] & Fb2). cbn in Hs, He.
  pose proof (fl_start _ _ W). pose proof (fl_end _ _ W).
  assert (range_low (right_part lm nb n) = range_low n + lm + nb /\
          range_high (right_part lm nb n) = range_high n) as [RL RH].
  { unfold right_part. autorewrite with node. by rewrite uwrap_small by lia. }
  destruct (nova_insert_blocktree_free (rb_update p (left_part lm) (block_free_tree fl)) c
    (right_part lm nb n) (k1 ++ [(p, left_part lm n)]) k2) as (t' & EI & EO' & WT').
  - done.
  - rewrite EO. pose proof (fl_fresh _ _ W) as F. rewrite E in F.
    intros ([q m] & -> & Hq)%list_elem_of_fmap. rewrite Forall_forall in F.
    assert (exists m', (q, m') ∈ k1 ++ (p, n) :: k2) as (m' & Hm') by set_solver.
    specialize (F _ Hm'). cbn in F. lia.
  - lia.
  - unfold right_part. by autorewrite with node.
  - rewrite RL, RH. destruct WT as [Ws _ _]. rewrite EO in Ws.
    apply ranges_wf_middle in Ws as (_ & B & _). cbn in B.
    destruct (fl_tree _ _ W) as [Wt _ _]. fold (fl_nodes fl) in Wt. rewrite E in Wt.
    apply ranges_wf_middle in Wt as (_ & _ & A). cbn in A.
    split_and!; [by rewrite EO, <- app_assoc| |done].
    apply all_below_app. split; [eapply all_below_mono; [exact B|lia]|].
    constructor; [|constructor]. cbn. lia.
  - exists t'. split_and!; [done| |done]. by rewrite EO', <- app_assoc.
Qed.

(** Nothing is left to the right of the range. *)
Lemma carved_one c fl k1 p n k2 lm nb :
  fl_wf c fl -> fl_nodes fl = k1 ++ (p, n) :: k2 -> 0 < lm -> 0 < nb ->
  lm + nb = node_size (p, n) ->
  carved c fl (set_block_free_tree (rb_update p (left_part lm) (block_free_tree fl)) fl)
    (range_low n + lm) nb.
Proof.
  intros W E Hlm Hnb Hsz.
  destruct (left_part_tree _ fl k1 p n k2 lm W E ltac:(lia)) as (EO & WT & EL & EH).
  pose proof (fl_middle _ fl k1 p n k2 (left_part lm n) W E) as (Hx & Hpc & EF & ELa & EN).
  unfold node_size in Hsz. cbn in Hsz.
  apply (carved_intro c c fl _ k1 p n [(p, left_part lm n)] k2); try done; try lia; cbn.
  - apply ranges_wf_cons. cbn. split_and!; [lia|apply ranges_wf_nil|set_solver].
  - repeat constructor. unfold left_part. cbn. by autorewrite with node.
  - apply NoDup_singleton.
  - set_solver.
  - by repeat constructor.
  - repeat constructor; cbn; lia.
  - intros b. unfold covers, in_blocks. cbn. rewrite EL, EH. bool_lia.
  - unfold node_size. cbn. lia.
Qed.

(** Both a left and a right node are left. *)
Lemma carved_two c fl k1 p n k2 lm nb t' :
  fl_wf c fl -> fl_nodes fl = k1 ++ (p, n) :: k2 -> 0 < lm -> 0 < nb ->
  lm + nb < node_size (p, n) ->
  inorder t' = k1 ++ [(p, left_part lm n); (c, right_part lm nb n)] ++ k2 ->
  let fl' := set_num_blocknode (u64 (num_blocknode fl + 1)) (set_block_free_tree t' fl) in
  carved (c + 1) fl (if decide (last_node fl' = Some p) then set_last_node (Some c) fl' else fl')
    (range_low n + lm) nb.
Proof.
  intros W E Hlm Hnb Hsz EO' fl'.
  destruct (left_part_tree _ fl k1 p n k2 lm W E ltac:(lia)) as (EO & WT & EL & EH).
  pose proof (fl_middle _ fl k1 p n k2 (left_part lm n) W E) as (Hx & Hpc & EF & ELa & EN).
  unfold node_size in Hsz. cbn in Hsz. set (fl_b := if decide _ then _ else _).
  pose proof (fl_wf_counts _ _ W) as [_ Hc]. rewrite EN in Hc.
  pose proof (fl_bounds _ _ W) as FB. rewrite E in FB.
  apply bounds_split in FB as (Fb1 & [Hs He] & Fb2). cbn in Hs, He.
  pose proof (fl_start _ _ W). pose proof (fl_end _ _ W).
  assert (range_low (right_part lm nb n) = range_low n + lm + nb /\
          range_high (right_part lm nb n) = range_high n) as [RL RH].
  { unfold right_part. autorewrite with node. by rewrite uwrap_small by lia. }
  apply (carved_intro c _ fl fl_b k1 p n
    [(p, left_part lm n); (c, right_part lm nb n)] k2);
    [done|done|lia|done|lia|lia|..]; try (unfold fl_b; case_decide; done).
  - apply ranges_wf_cons. cbn. split_and!; [lia| |].
    + apply ranges_wf_cons. cbn. split_and!; [lia|apply ranges_wf_nil|set_solver].
    + intros y ->%list_elem_of_singleton. unfold node_lt. cbn. lia.
  - unfold left_part, right_part. repeat constructor; cbn; by autorewrite with node.
  - cbn. apply NoDup_cons. split; [|apply NoDup_singleton].
    intros Heq%list_elem_of_singleton. lia.
  - intros q Hq. cbn in Hq. rewrite elem_of_cons, list_elem_of_singleton in Hq.
    destruct Hq as [-> | ->]; [by left|right; lia].
  - repeat constructor; cbn; lia.
  - repeat constructor; cbn; lia.
  - intros b. unfold covers, in_blocks. cbn. unfold covers. cbn. rewrite EL, EH, RL, RH. bool_lia.
  - unfold node_size. cbn. lia.
  - transitivity (first_node fl); [unfold fl_b; by case_decide|]. rewrite EF. by destruct k1.
  - pose proof (last_fst_iff k1 k2 (p, n)) as HL. destruct (fl_tree _ _ W) as [_ ND _].
    fold (fl_nodes fl) in ND. rewrite <- E in HL. specialize (HL ND).
    rewrite <- (fl_last _ _ W) in HL. unfold fl_b. case_decide as D.
    + apply HL in D as ->. cbn. by rewrite last_app_cons.
    + transitivity (last_node fl); [done|]. rewrite ELa. destruct k2 as [|y k2].
      * destruct D. by apply HL.
      * cbn [app]. by rewrite !last_app_cons, !last_cons_cons.
  - transitivity (u64 (num_blocknode fl + 1)); [unfold fl_b; by case_decide|].
    rewrite EN, length_app in *. cbn in *. rewrite uwrap_small, length_app by lia. cbn. lia.
Qed.

(** No node can be had for the right part: [n] blocks from [lo] on are in no
    range any more, but are still counted. *)
Definition superpage_lost (s : nova) (cpu : Z) (fl : free_list) (res : outcome (Z * Z)) : Prop :=
  kmem_cache_zalloc_ok (alloc_clock s) = false /\
  exists lo n fl1, res = Ok (- ENOMEM, lo) (with_list cpu fl1 (bump s)) /\
    carved (alloc_clock s) fl fl1 lo n /\ first_node fl1 = first_node fl /\ last_node fl1 = last_node fl.

Lemma superpage_carve_run c s cpu fl k1 p n k2 lm nb :
  fl_wf c fl -> list_at s cpu fl -> c = alloc_clock s ->
  fl_nodes fl = k1 ++ (p, n) :: k2 ->
  0 < lm < 2 ^ 31 -> 0 < nb -> lm + nb <= node_size (p, n) ->
  let res := superpage_carve cpu p n lm (node_size (p, n)) nb s in
  (exists fl1 s1, res = Ok (nb, range_low n + lm) (with_list cpu fl1 s1) /\
    (s1 = s \/ s1 = bump s) /\ carved (alloc_clock s1) fl fl1 (range_low n + lm) nb) \/
  superpage_lost s cpu fl res.
Proof.
  intros W At -> E Hlm Hnb Hsz res. unfold res. clear res.
  destruct (left_part_tree _ fl k1 p n k2 lm W E ltac:(lia)) as (EO & WT & EL & EH).
  pose proof (fl_middle _ fl k1 p n k2 (left_part lm n) W E) as (Hx & Hpc & EF & ELa & EN).
  unfold node_size in *. cbn in Hsz.
  pose proof (fl_bounds _ _ W) as FB. rewrite E in FB.
  apply bounds_split in FB as (Fb1 & [Hs He] & Fb2). cbn in Hs, He.
  pose proof (fl_start _ _ W). pose proof (fl_end _ _ W). pose proof (fl_span _ _ W).
  unfold superpage_carve. cbn [snd].
  rewrite (uwrap_small 32 (range_high n - range_low n + 1 - lm - nb)) by lia.
  rewrite (uwrap_small 64 (range_low n + lm)) by lia.
  rewrite (proj2 (Z.eqb_neq lm 0)) by lia. cbn [negb when andb].
  set (fl_a := set_block_free_tree (rb_update p (left_part lm) (block_free_tree fl)) fl).
  rewrite (bind_ok _ _ _ tt (with_list cpu fl_a s)) by exact (update_free_list_run _ _ _ _ At).
  rewrite (swrap_small 64 nb) by lia.
  destruct (Z.eqb_spec (range_high n - range_low n + 1 - lm - nb) 0) as [Er|Er]; cbn [negb].
  - left. exists fl_a, s. split; [reflexivity|]. split; [by left|].
    apply (carved_one (alloc_clock s) fl k1 p n k2 lm nb); auto; [lia|].
    unfold node_size. cbn. lia.
  - assert (At2 : list_at (with_list cpu fl_a (bump s)) cpu fl_a).
    { eapply (list_at_with (bump s)). exact At. }
    destruct (kmem_cache_zalloc_ok (alloc_clock s)) eqn:Hk.
    2: { right. split; [done|]. exists (range_low n + lm), (node_size (p, n) - lm), fl_a. split_and!; [|..|done|done].
         - rewrite (bind_ok _ _ _ true (with_list cpu fl_a (bump s))); [done|].
           rewrite (bind_ok _ _ _ None (with_list cpu fl_a (bump s))); [done|].
           unfold nova_alloc_blocknode_atomic, nova_alloc_range_node_atomic, kmem_cache_zalloc. cbn. by rewrite Hk.
         - apply (carved_one (alloc_clock s) fl k1 p n k2 lm); auto; unfold node_size; cbn; lia. }
    left. destruct (right_part_tree _ fl k1 p n k2 lm nb W E) as (t' & EI & EO' & WT');
      [lia..|unfold node_size; cbn; lia|].
    set (fl_b := let fl' := set_num_blocknode (u64 (num_blocknode fl + 1))
                   (set_block_free_tree t' fl) in
                 if decide (last_node fl' = Some p)
                 then set_last_node (Some (alloc_clock s)) fl' else fl').
    exists fl_b, (bump s). split; [|split; [by right|]].
    + rewrite (bind_ok _ _ _ false (with_list cpu fl_b (bump s))); [reflexivity|].
      rewrite (bind_ok _ _ _ (Some (alloc_clock s)) (with_list cpu fl_a (bump s)))
        by (unfold nova_alloc_blocknode_atomic, nova_alloc_range_node_atomic, kmem_cache_zalloc;
            cbn; by rewrite Hk).
      rewrite (bind_ok _ _ _ tt (with_list cpu fl_b (bump s))); [reflexivity|].
      rewrite (update_free_list_run _ _ _ _ At2), with_list_with.
      fold (right_part lm nb n). cbn [block_free_tree fl_a set_block_free_tree].
      by rewrite EI.
    + apply (carved_two (alloc_clock s) fl k1 p n k2 lm nb t'); auto; [lia|].
      unfold node_size. cbn. lia.
Qed.

Lemma left_margin_spec low :
  0 <= low ->
  let lm := u32 (PAGES_PER_2MB - Z.land low PAGES_PER_2MB_MASK) in
  0 < lm <= 512 /\ (low + lm) mod 512 = 0.
Proof.
  intros Hl. cbn zeta. change PAGES_PER_2MB_MASK with (2 ^ 9 - 1).
  rewrite land_mask by lia. change (2 ^ 9) with 512. unfold PAGES_PER_2MB.
  pose proof (Z.mod_pos_bound low 512). rewrite uwrap_small by lia. split; [lia|].
  pose proof (Z.div_mod low 512).
  replace (low + (512 - low mod 512)) with ((low / 512 + 1) * 512) by lia.
  apply Z.mod_mul. lia.
Qed.

(** Outcome of a superpage search: [k] blocks at [blk], both 2 MB aligned. *)
Definition superpage_found (s : nova) (cpu : Z) (fl : free_list) (nb : Z)
    (res : outcome (Z * Z)) : Prop :=
  exists k blk fl1 s1, res = Ok (k, blk) (with_list cpu fl1 s1) /\
    (s1 = s \/ s1 = bump s) /\ carved (alloc_clock s1) fl fl1 blk k /\
    k <= nb /\ k mod 512 = 0 /\ blk mod 512 = 0.

Lemma superpage_walk_visit s cpu fl fuel k1 p n k2 nb blk0 dir :
  fl_wf (alloc_clock s) fl -> list_at s cpu fl -> fl_nodes fl = k1 ++ (p, n) :: k2 ->
  0 < nb < 2 ^ 63 -> nb mod 512 = 0 ->
  let res := superpage_walk (S fuel) cpu (Some p) nb blk0 dir s in
  res = superpage_walk fuel cpu (step_node dir (block_free_tree fl) p) nb blk0 dir s \/
  superpage_found s cpu fl nb res \/ superpage_lost s cpu fl res.
Proof.
  intros W At E Hnb Hal res. unfold res. clear res.
  destruct (fl_tree _ _ W) as [Ws ND C]. fold (fl_nodes fl) in *.
  pose proof Ws as Ws'. rewrite E in Ws'. apply ranges_wf_middle in Ws' as (Hn & _). cbn in Hn.
  pose proof (fl_bounds _ _ W) as FB. rewrite E in FB.
  apply bounds_split in FB as (_ & [Hs He] & _). cbn in Hs, He.
  pose proof (fl_start _ _ W). pose proof (fl_end _ _ W).
  destruct (left_margin_spec (range_low n) ltac:(lia)) as [Hlm Hal2].
  remember (superpage_walk (S fuel) cpu (Some p) nb blk0 dir s) as r eqn:Er.
  cbn [superpage_walk] in Er. unfold bind at 1 in Er.
  rewrite (get_free_list_run _ _ _ At) in Er.
  rewrite (rb_deref_at p (block_free_tree fl) k1 n k2) in Er by done.
  rewrite E in C. rewrite (csums_ok_elem _ p n C) in Er by set_solver. cbn [negb] in Er.
  rewrite (uwrap_small 64 (range_high n - range_low n + 1)) in Er by lia.
  set (lm := u32 (PAGES_PER_2MB - Z.land (range_low n) PAGES_PER_2MB_MASK)) in *.
  fold (node_size (p, n)) in Er.
  change (range_high n - range_low n + 1) with (node_size (p, n)) in Er.
  assert (0 < node_size (p, n) < 2 ^ 52) as Hsz by (unfold node_size; cbn; lia).
  destruct (Z.ltb_spec lm (node_size (p, n))) as [Hlt|Hge]; cbn [andb] in Er.
  - rewrite (uwrap_small 64 (node_size (p, n) - lm)) in Er by lia.
    set (room := node_size (p, n) - lm) in *.
    change PAGES_PER_2MB_MASK with (2 ^ 9 - 1) in Er. rewrite land_lnot_mask in Er by lia.
    change (2 ^ 9) with 512 in Er. pose proof (Z.mod_pos_bound room 512).
    set (nb' := if (room <? nb) && (0 <? room - room mod 512)
                then room - room mod 512 else nb) in *.
    assert (0 < nb' <= nb /\ nb' mod 512 = 0 /\ (nb' = nb \/ nb' <= room)) as (Hp & Hm & Hr).
    { unfold nb'. destruct ((room <? nb) && (0 <? room - room mod 512)) eqn:Eb; zify_bool;
        [|lia]. split_and!; [lia|lia| |lia].
      rewrite Zminus_mod, Zmod_mod, Z.sub_diag. done. }
    destruct (Z.leb_spec nb' room) as [Hle|Hgt]; cbn [andb] in Er.
    + right. subst r. destruct (superpage_carve_run _ s cpu fl k1 p n k2 lm nb' W At eq_refl E)
        as [(fl1 & s1 & -> & Hs1 & Cv)|Lo]; [lia|lia|lia| |by right].
      left. exists nb', (range_low n + lm), fl1, s1. split_and!; auto; lia.
    + left. subst r. destruct Hr as [->|?]; [done|lia].
  - left. subst r. cbn [andb].
    enough ((u64 (node_size (p, n) - lm) <? nb)
      && (0 <? Z.land (u64 (node_size (p, n) - lm)) (Z.lnot PAGES_PER_2MB_MASK)) = false)
      as -> by done.
    apply andb_false_iff. destruct (decide (node_size (p, n) = lm)) as [->|Hne].
    + right. by rewrite Z.sub_diag.
    + left. apply Z.ltb_ge. unfold uwrap.
      rewrite <- (Z.mod_add _ 1) by lia. rewrite Z.mod_small by lia. lia.
Qed.

Lemma superpage_walk_run s cpu fl nb blk0 dir todo fuel :
  fl_wf (alloc_clock s) fl -> list_at s cpu fl ->
  0 < nb < 2 ^ 63 -> nb mod 512 = 0 ->
  remaining dir fl todo -> (length todo <= fuel)%nat ->
  let res := superpage_walk fuel cpu (fst <$> head todo) nb blk0 dir s in
  res = Ok (0, blk0) s \/ superpage_found s cpu fl nb res \/ superpage_lost s cpu fl res.
Proof.
  intros W At Hnb Hal. cbn zeta. revert fuel. induction todo as [|[p n] todo IH]; intros fuel R Hf.
  - left. by destruct fuel.
  - destruct fuel as [|fuel]; [cbn in Hf; lia|].
    destruct (remaining_step _ _ _ _ _ _ W R) as ((k1 & k2 & E) & ES & R').
    destruct (superpage_walk_visit s cpu fl fuel k1 p n k2 nb blk0 dir W At E Hnb Hal)
      as [V|V]; [|by right]. cbn zeta in V.
    change (fst <$> head ((p, n) :: todo)) with (Some p). rewrite V, ES.
    apply IH; [done|]. cbn in Hf. lia.
Qed.

(** ** Allocating from one list: the whole operation *)

(** [not_enough_blocks], on a well-formed list. *)
Definition short_of (fl : free_list) (nb : Z) (atype : alloc_type) : bool :=
  (num_free_blocks fl <? nb) ||
  match head (fl_nodes fl), last (fl_nodes fl) with
  | Some (_, f), Some (_, l) =>
      bool_decide (atype = LOG) && (range_high l - range_low f <? DEAD_ZONE_BLOCKS)
  | _, _ => true
  end.

Lemma deref_first c fl p n :
  fl_wf c fl -> head (fl_nodes fl) = Some (p, n) -> rb_deref (block_free_tree fl) p = Some n.
Proof.
  intros W E. destruct (fl_tree _ _ W) as [_ ND _].
  unfold fl_nodes in E. destruct (inorder (block_free_tree fl)) as [|x l] eqn:EI; [done|].
  simplify_eq/=. apply (rb_deref_at p _ [] n l); by rewrite ?EI.
Qed.

Lemma deref_last c fl p n :
  fl_wf c fl -> last (fl_nodes fl) = Some (p, n) -> rb_deref (block_free_tree fl) p = Some n.
Proof.
  intros W E. destruct (fl_tree _ _ W) as [_ ND _].
  apply last_Some in E as [l E]. by apply (rb_deref_at p _ l n []).
Qed.

Lemma first_last_le c fl p f q l :
  fl_wf c fl -> head (fl_nodes fl) = Some (p, f) -> last (fl_nodes fl) = Some (q, l) ->
  block_start fl <= range_low f <= range_high l /\ range_high l <= block_end fl.
Proof.
  intros W EF EL. pose proof (fl_bounds _ _ W) as FB. destruct (fl_tree _ _ W) as [Ws _ _].
  fold (fl_nodes fl) in Ws. destruct (fl_nodes fl) as [|x nodes]; [done|]. simplify_eq/=.
  apply ranges_wf_cons in Ws as (Hx & [_ Wn] & A). rewrite Forall_forall in FB, Wn.
  pose proof (FB (p, f) ltac:(set_solver)) as Hf.
  rewrite last_cons in EL. destruct (last nodes) as [y|] eqn:Ey; simplify_eq/=; [|lia].
  apply last_Some_elem_of in Ey. pose proof (FB _ (list_elem_of_further _ _ _ Ey)).
  specialize (A _ Ey). specialize (Wn _ Ey). unfold node_lt in A. cbn in *. lia.
Qed.

Lemma not_enough_blocks_run c s fl nb atype :
  fl_wf c fl -> not_enough_blocks fl nb atype s = Ok (short_of fl nb atype) s.
Proof.
  intros W. unfold not_enough_blocks, short_of. pose proof (fl_end _ _ W).
  pose proof (fl_start _ _ W).
  destruct (num_free_blocks fl <? nb); [done|]. cbn [orb].
  rewrite (fl_first _ _ W), (fl_last _ _ W).
  destruct (head (fl_nodes fl)) as [[p f]|] eqn:EF; [|done].
  destruct (last (fl_nodes fl)) as [[q l]|] eqn:EL; [|done]. cbn.
  case_decide as D; [|by rewrite bool_decide_false].
  rewrite bool_decide_true by done. unfold bind, node_of.
  rewrite (deref_first _ _ _ _ W EF), (deref_last _ _ _ _ W EL). cbn.
  pose proof (first_last_le _ _ _ _ _ _ W EF EL). by rewrite uwrap_small by lia.
Qed.

Lemma short_of_false fl nb atype :
  short_of fl nb atype = false -> nb <= num_free_blocks fl /\ fl_nodes fl <> [].
Proof.
  unfold short_of. intros [E1 E2]%orb_false_iff. zify_bool. split; [done|].
  intros E. by rewrite E in E2.
Qed.

(** A request may be granted in part, unless it is for log superpages. *)
Definition granted (btype : Z) (atype : alloc_type) (nb k : Z) : Prop :=
  k <= nb /\ (atype = LOG -> 0 < btype -> k = nb).

(** The two outcomes of an allocation in list [cpu]. *)
Definition alloc_failed (s : nova) (res : outcome (Z * Z)) : Prop :=
  exists b, res = Ok (- ENOSPC, b) s.
Definition alloc_done (s : nova) (cpu : Z) (fl : free_list) (btype : Z) (atype : alloc_type)
    (nb : Z) (res : outcome (Z * Z)) : Prop :=
  exists k blk fl' s1, res = Ok (k, blk) (with_list cpu fl' s1) /\ (s1 = s \/ s1 = bump s) /\
    took (alloc_clock s1) fl fl' blk k /\ granted btype atype nb k /\
    (IS_DATABLOCKS_2MB_ALIGNED nb atype = false -> num_blocknode fl' <= num_blocknode fl).

(** A slab failure can only disturb a superpage request. *)
Definition slab_ok (s : nova) (nb : Z) (atype : alloc_type) : Prop :=
  IS_DATABLOCKS_2MB_ALIGNED nb atype = true -> kmem_cache_zalloc_ok (alloc_clock s) = true.

Lemma aligned_mod nb atype : IS_DATABLOCKS_2MB_ALIGNED nb atype = true -> nb mod 512 = 0.
Proof.
  unfold IS_DATABLOCKS_2MB_ALIGNED. intros [E _]%andb_true_iff.
  change PAGES_PER_2MB_MASK with (2 ^ 9 - 1) in E. rewrite land_mask in E by lia. by zify_bool.
Qed.

Lemma took_nonzero c c' fl fl' blk k : fl_wf c fl -> took c' fl fl' blk k -> 0 < blk.
Proof.
  intros W []. assert (fl_free fl blk = true) as Hf.
  { apply took_from0. unfold in_blocks. rewrite Z.leb_refl. apply Z.ltb_lt. lia. }
  apply (fl_free_bounds _ _ _ W) in Hf. pose proof (fl_start _ _ W). lia.
Qed.

(** The superpage attempt, up to the [success] label. *)
Lemma superpage_attempt_any s cpu fl nb blk0 atype dir :
  fl_wf (alloc_clock s) fl -> list_at s cpu fl -> 0 < nb < 2 ^ 63 ->
  let m := if IS_DATABLOCKS_2MB_ALIGNED nb atype
           then nova_alloc_superpage cpu nb blk0 dir else ret (0, blk0) in
  m s = Ok (0, blk0) s \/
  (IS_DATABLOCKS_2MB_ALIGNED nb atype = true /\
   (superpage_found s cpu fl nb (m s) \/ superpage_lost s cpu fl (m s))).
Proof.
  intros W At Hnb m. unfold m. destruct (IS_DATABLOCKS_2MB_ALIGNED nb atype) eqn:Ea; [|by left].
  destruct (remaining_start _ dir fl W) as [R ES].
  unfold nova_alloc_superpage. rewrite (bind_ok _ _ _ fl s) by (by apply get_free_list_run).
  rewrite ES.
  destruct (superpage_walk_run s cpu fl nb blk0 dir (visit_order dir fl)
    (S (length (inorder (block_free_tree fl)))) W At Hnb (aligned_mod _ _ Ea) R)
    as [Hr|Hr]; [|by left|by right].
  rewrite length_visit_order. unfold fl_nodes. lia.
Qed.

Lemma superpage_attempt s cpu fl nb blk0 atype dir :
  fl_wf (alloc_clock s) fl -> list_at s cpu fl -> 0 < nb < 2 ^ 63 -> slab_ok s nb atype ->
  let m := if IS_DATABLOCKS_2MB_ALIGNED nb atype
           then nova_alloc_superpage cpu nb blk0 dir else ret (0, blk0) in
  m s = Ok (0, blk0) s \/
  (IS_DATABLOCKS_2MB_ALIGNED nb atype = true /\ superpage_found s cpu fl nb (m s)).
Proof.
  intros W At Hnb Sl m.
  destruct (superpage_attempt_any s cpu fl nb blk0 atype dir W At Hnb) as [?|(Ea & [?|[Hk _]])]; [by left|by right|].
  by rewrite (Sl Ea) in Hk.
Qed.

(** ** A superpage request without memory

    The walk over the ranges does not look at the count of free blocks. *)
Definition recount (n : Z) (fl : free_list) : free_list := set_num_free_blocks n fl.

Lemma nova_err_with s cpu fl :
  nova_err (with_list cpu fl s) = match nova_err s with Ok _ s' => Ok tt (with_list cpu fl s') | Fault f => Fault f end.
Proof.
  unfold nova_err, nova_error_mng, bind, gets. unfold test_opt.
  change (sbc (with_list cpu fl s)) with (sbc s). cbv beta.
  destruct (negb (Z.land _ NOVA_MOUNT_ERRORS_PANIC =? 0)); [done|].
  by destruct (negb (Z.land _ NOVA_MOUNT_ERRORS_RO =? 0)).
Qed.

Lemma nova_err_lists s s' : nova_err s = Ok tt s' -> free_lists s' = free_lists s.
Proof.
  unfold nova_err, nova_error_mng, bind, gets. destruct (test_opt s NOVA_MOUNT_ERRORS_PANIC); [done|].
  destruct (test_opt s NOVA_MOUNT_ERRORS_RO); intros E; by injection E as <-.
Qed.

Definition recounts {A} (x cpu : Z) (fl : free_list) (r1 r2 : outcome A) : Prop :=
  match r1 with
  | Ok res s' => exists fl' s0, s' = with_list cpu fl' s0 /\ list_at s0 cpu fl /\
      r2 = Ok res (with_list cpu (recount x fl') s0)
  | Fault f => r2 = Fault f
  end.

Lemma alloc_walk_recount x fuel : forall cpu temp btype nb dir s fl,
  list_at s cpu fl ->
  recounts x cpu fl (alloc_walk fuel cpu temp btype nb dir s)
    (alloc_walk fuel cpu temp btype nb dir (with_list cpu (recount x fl) s)).
Proof.
  induction fuel as [|fuel IH]; intros cpu temp btype nb dir s fl At; cbn [alloc_walk];
    (destruct temp as [p|]; [|exists fl, s; split; [|by split]; destruct At as [_ At]; unfold with_list;
       rewrite list_insert_id by done; by destruct s]); [done|].
  assert (list_at (with_list cpu (recount x fl) s) cpu (recount x fl)) as At' by by eapply list_at_with.
  rewrite (bind_ok _ _ _ _ _ (get_free_list_run _ _ _ At)), (bind_ok _ _ _ _ _ (get_free_list_run _ _ _ At')).
  change (block_free_tree (recount x fl)) with (block_free_tree fl).
  destruct (rb_deref (block_free_tree fl) p) as [curr|]; [|done].
  destruct (negb (nova_range_node_checksum_ok curr)).
  { unfold bind at 1 2. rewrite nova_err_with. destruct (nova_err s) as [[] s1|f] eqn:Ee; [|done].
    apply IH. unfold list_at. by rewrite (nova_err_lists _ _ Ee). }
  destruct (u64 _ <=? nb).
  - destruct (_ && _); [by apply IH|].
    unfold bind. rewrite !put_free_list_run, with_list_with. cbn [nova_free_blocknode nova_free_range_node ret].
    eexists _, s. split_and!; [reflexivity|done|]. cbn [recount first_node last_node set_num_free_blocks].
    by repeat case_decide.
  - destruct dir; unfold bind; rewrite !put_free_list_run, with_list_with; by eexists _, s.
Qed.

(** The outcome of a request that lost blocks: the list is as after an allocation
    of the [n] blocks at [lo] that nobody got, but counts them. *)
Definition alloc_lost (s : nova) (cpu : Z) (fl : free_list) (btype : Z) (atype : alloc_type)
    (nb : Z) (res : outcome (Z * Z)) : Prop :=
  IS_DATABLOCKS_2MB_ALIGNED nb atype = true /\ kmem_cache_zalloc_ok (alloc_clock s) = false /\
  exists lo n fl', took (alloc_clock (bump s)) fl fl' lo n /\
    ((exists b, res = Ok (- ENOSPC, b) (with_list cpu (recount (num_free_blocks fl' + n) fl') (bump s))) \/
     (exists k blk fl'', took (alloc_clock (bump s)) fl' fl'' blk k /\ granted btype atype nb k /\
        res = Ok (k, blk) (with_list cpu (recount (num_free_blocks fl'' + n) fl'') (bump s)))).

Lemma with_list_inj s s0 cpu fl fl' f f0 :
  list_at s cpu fl -> list_at s0 cpu fl' -> with_list cpu f s = with_list cpu f0 s0 ->
  f = f0 /\ forall g, with_list cpu g s = with_list cpu g s0.
Proof.
  intros A A0 E. split.
  - destruct (list_at_with s cpu fl f A) as [_ E1]. destruct (list_at_with s0 cpu fl' f0 A0) as [_ E2].
    rewrite E in E1. congruence.
  - intros g. rewrite <- (with_list_with s cpu f g), E. apply with_list_with.
Qed.

(** The un-aligned walk after a failed split. *)
Lemma alloc_after_loss s cpu fl fl1 lo n btype nb dir :
  fl_wf (alloc_clock s) fl -> list_at s cpu fl -> 0 < nb < 2 ^ 63 ->
  carved (alloc_clock s) fl fl1 lo n -> first_node fl1 = first_node fl -> last_node fl1 = last_node fl ->
  exists fl', took (alloc_clock (bump s)) fl fl' lo n /\ fl1 = recount (num_free_blocks fl' + n) fl' /\
  let w := alloc_walk (S (length (inorder (block_free_tree fl1)))) cpu (start_node dir fl) btype nb dir
             (with_list cpu fl1 (bump s)) in
  w = Ok None (with_list cpu fl1 (bump s)) \/
  exists k blk flw, k <= nb /\ (0 < btype -> k = nb) /\ k <= num_free_blocks fl' /\
    num_free_blocks flw = num_free_blocks fl' /\
    w = Ok (Some (k, blk)) (with_list cpu (recount (num_free_blocks fl' + n) flw) (bump s)) /\
    took (alloc_clock (bump s)) fl' (set_num_free_blocks (u64 (num_free_blocks flw - k)) flw) blk k.
Proof.
  intros W At Hnb Cv Ef El. destruct (carved_took _ _ _ _ _ _ W Cv) as [Hle Tk].
  set (fl' := set_num_free_blocks (u64 (num_free_blocks fl1 - n)) fl1) in *.
  assert (num_free_blocks fl' + n = num_free_blocks fl1) as En.
  { rewrite (took_count _ _ _ _ _ Tk), (carved_count _ _ _ _ _ Cv). lia. }
  assert (took (alloc_clock (bump s)) fl fl' lo n) as Tk'.
  { destruct Tk. split; try done. eapply fl_wf_clock; [done|]. cbn. lia. }
  exists fl'. split; [done|]. split; [rewrite En; unfold fl', recount; by destruct fl1|].
  assert (fl1 = recount (num_free_blocks fl' + n) fl') as E1 by (rewrite En; unfold fl', recount; by destruct fl1).
  pose proof (took_wf _ _ _ _ _ Tk') as W'. intros w.
  assert (list_at (with_list cpu fl' (bump s)) cpu fl') as At' by (by apply (list_at_with (bump s) cpu fl)).
  pose proof (alloc_walk_recount (num_free_blocks fl' + n) (S (length (inorder (block_free_tree fl1)))) cpu
    (start_node dir fl) btype nb dir _ _ At') as Hr. rewrite with_list_with, <- E1 in Hr. fold w in Hr.
  destruct (remaining_start _ dir fl' W') as [R ES].
  assert (start_node dir fl = start_node dir fl') as Est by (destruct dir; cbn; unfold fl'; by rewrite <- ?Ef, <- ?El).
  rewrite Est, ES in Hr.
  destruct (alloc_walk_run _ (with_list cpu fl' (bump s)) cpu fl' btype nb dir (visit_order dir fl')
    (S (length (inorder (block_free_tree fl1)))) W' At' ltac:(lia) R) as [[Hw _]|(x & flw & blk & Hx & Hw & Cw & Hbt & _)].
  { rewrite length_visit_order. unfold fl_nodes, fl'. cbn. lia. }
  - left. rewrite Hw in Hr. destruct Hr as (f0 & s0 & Es & At0 & ->).
    destruct (with_list_inj (bump s) s0 cpu fl fl' _ _ At At0 Es) as [<- Eg]. by rewrite <- E1, <- Eg.
  - right. rewrite Hw in Hr. destruct Hr as (f0 & s0 & Es & At0 & Ew).
    destruct (carved_took _ _ _ _ _ _ W' Cw) as [Hlw Tw]. pose proof (carved_pos _ _ _ _ _ Cw).
    exists (Z.min (node_size x) nb), blk, flw. split_and!; [lia|intros Hb; specialize (Hbt Hb); lia|done|by apply Cw| |exact Tw].
    rewrite with_list_with in Es. destruct (with_list_inj (bump s) s0 cpu fl fl' _ _ At At0 Es) as [<- Eg].
    by rewrite Ew, Eg.
Qed.

Lemma alloc_in_list_any s cpu fl btype atype nb blk0 dir :
  fl_wf (alloc_clock s) fl -> list_at s cpu fl -> 0 < nb < 2 ^ 63 ->
  let res := nova_alloc_blocks_in_free_list cpu btype atype nb blk0 dir s in
  (alloc_failed s res /\
   (fl_nodes fl = [] \/ (atype = LOG /\ short_of fl nb atype = true) \/ 0 < btype)) \/
  alloc_done s cpu fl btype atype nb res \/ alloc_lost s cpu fl btype atype nb res.
Proof.
  intros W At Hnb res. unfold res, nova_alloc_blocks_in_free_list.
  rewrite (bind_ok _ _ _ fl s) by (by apply get_free_list_run).
  pose proof (fl_wf_counts _ _ W) as [Hc _].
  destruct (decide (fl_nodes fl = [])) as [En|Hne].
  { left. rewrite (fl_first _ _ W), En. cbn. split; [by eexists|by left]. }
  pose proof (fl_wf_bound _ _ W Hne) as Hb.
  assert (0 < num_free_blocks fl) by (destruct (fl_nodes fl); [done|cbn in Hb; lia]).
  rewrite bool_decide_false, (proj2 (Z.eqb_neq _ _))
    by (lia || rewrite (fl_first _ _ W); by destruct (fl_nodes fl)). cbn [orb].
  destruct (decide (atype = LOG /\ short_of fl nb atype = true)) as [[-> Es]|Hls].
  { left. erewrite bind_ok; [|rewrite decide_True by done; by eapply not_enough_blocks_run].
    rewrite Es. split; [by eexists|auto]. }
  erewrite (bind_ok _ _ _ false s).
  2: { case_decide; [|done]. erewrite not_enough_blocks_run by done.
       destruct (short_of fl nb atype); [by destruct Hls|done]. }
  destruct (superpage_attempt_any s cpu fl nb blk0 atype dir W At Hnb)
    as [Hm|(Ea & [(k & blk & fl1 & s1 & Hm & Hs1 & Cv & Hk & _)|(Hno & lo & n & fl1 & Hm & Cv & Ef & El)])]; rewrite (bind_ok _ _ _ _ _ Hm).
  - rewrite Z.ltb_irrefl. cbn [andb].
    rewrite (bind_ok _ _ _ fl s) by (by apply get_free_list_run).
    destruct (remaining_start _ dir fl W) as [R ES]. rewrite ES.
    destruct (alloc_walk_run _ s cpu fl btype nb dir (visit_order dir fl)
      (S (length (inorder (block_free_tree fl)))) W At ltac:(lia) R)
      as [[Hw F]|(x & fl1 & blk & Hx & Hw & Cv & Hbt & Hnum)].
    + rewrite length_visit_order. unfold fl_nodes. lia.
    + left. rewrite (bind_ok _ _ _ _ _ Hw), (bind_ok _ _ _ fl s) by (by apply get_free_list_run).
      split; [case_if; by eexists|]. do 2 right.
      assert (visit_order dir fl <> []) as Hv.
      { intros Ev. apply (f_equal length) in Ev. rewrite length_visit_order in Ev.
        by destruct (fl_nodes fl). }
      destruct (visit_order dir fl); [done|]. by apply Forall_inv in F as [? _].
    + right; left. rewrite (bind_ok _ _ _ _ _ Hw).
      rewrite (bind_ok _ _ _ fl1 (with_list cpu fl1 s))
        by (apply get_free_list_run; by eapply list_at_with).
      destruct (carved_took _ _ _ _ _ _ W Cv) as [Hle Tk].
      rewrite (carved_count _ _ _ _ _ Cv), (proj2 (Z.ltb_ge _ _)) by lia.
      pose proof (carved_pos _ _ _ _ _ Cv). rewrite swrap_small by lia.
      eexists (Z.min (node_size x) nb), blk, _, s. split_and!.
      * rewrite <- (carved_count _ _ _ _ _ Cv). unfold bind. rewrite put_free_list_run.
        by rewrite with_list_with.
      * by left.
      * exact Tk.
      * split; [lia|]. intros _ Hbt'. specialize (Hbt Hbt'). lia.
      * intros _. exact Hnum.
  - right; left. destruct (carved_took _ _ _ _ _ _ W Cv) as [Hle Tk].
    pose proof (took_nonzero _ _ _ _ _ _ W Tk). pose proof (carved_pos _ _ _ _ _ Cv).
    rewrite (proj2 (Z.ltb_lt 0 k)), (proj2 (Z.eqb_neq blk 0)), Ea by lia. cbn [andb negb].
    assert (At1 : list_at (with_list cpu fl1 s1) cpu fl1).
    { eapply list_at_with. destruct Hs1 as [-> | ->]; exact At. }
    rewrite (bind_ok _ _ _ _ _ (update_free_list_run _ _ _ _ At1)), with_list_with.
    exists k, blk. eexists _, s1. split_and!; [reflexivity|done|exact Tk| |by rewrite Ea].
    split; [done|]. intros ->. unfold IS_DATABLOCKS_2MB_ALIGNED in Ea.
    by rewrite bool_decide_false, andb_false_r in Ea by done.
  - right; right. split; [done|]. split; [done|]. rewrite (proj2 (Z.ltb_ge 0 (- ENOMEM))) by (unfold ENOMEM; lia). cbn [andb].
    assert (At1 : list_at (with_list cpu fl1 (bump s)) cpu fl1) by (by apply (list_at_with (bump s) cpu fl)).
    rewrite (bind_ok _ _ _ _ _ (get_free_list_run _ _ _ At1)).
    destruct (alloc_after_loss s cpu fl fl1 lo n btype nb dir W At Hnb Cv Ef El) as (fl' & Tk & E1 & Hw).
    exists lo, n, fl'. split; [done|]. pose proof (took_pos _ _ _ _ _ Tk).
    destruct Hw as [Hw|(k & blk & flw & Hk & Hbt & Hle & En & Hw & Tw)]; rewrite (bind_ok _ _ _ _ _ Hw).
    + left. rewrite (bind_ok _ _ _ _ _ (get_free_list_run _ _ _ At1)), <- E1. case_if; by eexists.
    + right. exists k, blk. eexists. pose proof (took_pos _ _ _ _ _ Tw).
      pose proof (took_count _ _ _ _ _ Tw) as Ec. split; [exact Tw|]. split; [by split; [|intros _]|].
      assert (At2 : forall f, list_at (with_list cpu f (bump s)) cpu f) by (intros; by apply (list_at_with (bump s) cpu fl)).
      rewrite (bind_ok _ _ _ _ _ (get_free_list_run _ _ _ (At2 _))).
      change (num_free_blocks (recount ?x ?f)) with x. rewrite (proj2 (Z.ltb_ge _ _)) by lia.
      pose proof (fl_wf_counts _ _ W) as [Hcs _]. pose proof (took_count _ _ _ _ _ Tk).
      rewrite (bind_ok _ _ _ _ _ (put_free_list_run _ _ _)), with_list_with. rewrite swrap_small by lia.
      f_equal. f_equal. rewrite Ec, (uwrap_small 64) by lia. unfold recount.
      replace (num_free_blocks fl' - k + n) with (num_free_blocks fl' + n - k) by lia. by destruct flw.
Qed.

Lemma nova_alloc_blocks_in_free_list_run s cpu fl btype atype nb blk0 dir :
  fl_wf (alloc_clock s) fl -> list_at s cpu fl -> 0 < nb < 2 ^ 63 -> slab_ok s nb atype ->
  let res := nova_alloc_blocks_in_free_list cpu btype atype nb blk0 dir s in
  (alloc_failed s res /\
   (fl_nodes fl = [] \/ (atype = LOG /\ short_of fl nb atype = true) \/ 0 < btype)) \/
  alloc_done s cpu fl btype atype nb res.
Proof.
  intros W At Hnb Sl res.
  destruct (alloc_in_list_any s cpu fl btype atype nb blk0 dir W At Hnb) as [?|[?|(Ea & Hk & _)]]; [by left|by right|].
  by rewrite (Sl Ea) in Hk.
Qed.
End spec.
