(* ===== verification/BallocAlloc.v ===== *)
(** Allocation across the per-CPU lists: the candidate list, the retries, the
    statistics and the zeroing of [nova_new_blocks]. *)

From S2P Require Import Prelude CInt Crc32c NovaEnv RangeNode Pmem NovaState NovaMonad NovaLib.
From S2P Require Import Balloc BallocSpec.

Local Open Scope nova_scope.

(** ** The candidate list *)

(** The list chosen by the scan so far has the most free blocks. *)
Lemma candidate_scan_spec fls i cpuid num :
  Forall (fun fl => 0 <= num_free_blocks fl < 2 ^ 31) fls -> 0 <= num < 2 ^ 31 ->
  let r := candidate_scan fls i cpuid num in
  (r = cpuid /\ Forall (fun fl => num_free_blocks fl <= num) fls) \/
  (exists j fl, fls !! j = Some fl /\ r = i + Z.of_nat j /\ num < num_free_blocks fl /\
   Forall (fun fl' => num_free_blocks fl' <= num_free_blocks fl) fls).
Proof.
  revert i cpuid num. induction fls as [|fl fls IH]; intros i cpuid num F Hn; [by left|].
  apply Forall_cons in F as [Hfl F]. cbn [candidate_scan]. rewrite (uwrap_small 64 num) by lia.
  destruct (Z.ltb_spec num (num_free_blocks fl)) as [Hlt|Hge].
  - rewrite swrap_small by lia.
    destruct (IH (i + 1) i (num_free_blocks fl) F Hfl) as [[-> F']|(j & fl' & E & -> & Hlt' & F')].
    + right. exists 0%nat, fl. cbn. split_and!; [done|lia|done|]. by constructor.
    + right. exists (S j), fl'. cbn. split_and!; [done|lia|lia|]. constructor; [lia|done].
  - destruct (IH (i + 1) cpuid num F Hn) as [[-> F']|(j & fl' & E & -> & Hlt' & F')].
    + left. split; [done|]. by constructor.
    + right. exists (S j), fl'. cbn. split_and!; [done|lia|done|]. constructor; [lia|done].
Qed.

Section alloc.
Context `{NovaEnv, RbLibOk}.

Lemma alloc_wf_counts s :
  alloc_wf s -> Forall (fun fl => 0 <= num_free_blocks fl < 2 ^ 31) (free_lists s).
Proof.
  intros W. apply Forall_forall. intros fl [i Hi]%list_elem_of_lookup.
  pose proof (aw_list _ W _ _ Hi) as Wf. pose proof (fl_wf_counts _ _ Wf) as [Hc _].
  pose proof (fl_span _ _ Wf).
  destruct (decide (fl_nodes fl = [])) as [E|Hne].
  - rewrite (fl_num_blocks _ _ Wf), E. cbn. lia.
  - pose proof (fl_wf_bound _ _ Wf Hne). lia.
Qed.

Lemma list_exists s cpu :
  alloc_wf s -> 0 <= cpu < cpus (sbc s) -> exists fl, list_at s cpu fl.
Proof.
  intros W Hc. pose proof (aw_len _ W) as HL.
  destruct (lookup_lt_is_Some_2 (free_lists s) (Z.to_nat cpu)) as [fl E]; [lia|].
  exists fl. split; [lia|done].
Qed.

(** The candidate is a list with the most free blocks. *)
Definition is_candidate (s : nova) (cpu : Z) (fl : free_list) : Prop :=
  list_at s cpu fl /\
  Forall (fun fl' => num_free_blocks fl' <= num_free_blocks fl) (free_lists s).

Lemma candidate_run s :
  alloc_wf s -> exists cpu fl, nova_get_candidate_free_list s = Ok cpu s /\ is_candidate s cpu fl.
Proof.
  intros W. unfold nova_get_candidate_free_list, bind, gets.
  pose proof (aw_len _ W) as HL. pose proof (aw_cpus _ W) as Hc.
  rewrite take_ge by lia.
  destruct (candidate_scan_spec (free_lists s) 0 0 0 (alloc_wf_counts _ W) ltac:(lia))
    as [[Hr F]|(j & fl & E & Hr & Hlt & F)]; rewrite Hr.
  - destruct (list_exists s 0 W ltac:(lia)) as [fl At]. exists 0, fl. split; [done|].
    split; [done|]. eapply Forall_impl; [exact F|]. intros fl' Hle.
    pose proof (aw_list _ W _ _ (proj2 At)) as Wf. pose proof (fl_wf_counts _ _ Wf). cbn in *. lia.
  - exists (Z.of_nat j), fl. split; [done|]. split; [|done]. split; [lia|]. by rewrite Nat2Z.id.
Qed.

(** The retry loop ends in an allocation from some list: the requested one, or
    a candidate. *)
Lemma new_blocks_retry_run retries s cpu fl btype atype nb dir :
  alloc_wf s -> list_at s cpu fl ->
  exists cpu' fl', list_at s cpu' fl' /\
    (short_of fl' nb atype = false \/ is_candidate s cpu' fl' \/ (retries = 0%nat /\ cpu' = cpu)) /\
    new_blocks_retry retries cpu btype atype nb dir s
    = (let! r := nova_alloc_blocks_in_free_list cpu' btype atype nb 0 dir in ret (cpu', r)) s.
Proof.
  intros W. revert cpu fl. induction retries as [|retries IH]; intros cpu fl At;
    cbn [new_blocks_retry]; rewrite (bind_ok _ _ _ fl s) by (by apply get_free_list_run);
    pose proof (aw_list _ W _ _ (proj2 At)) as Wf;
    rewrite (bind_ok _ _ _ _ _ (not_enough_blocks_run _ s fl nb atype Wf)).
  - exists cpu, fl. split_and!; [done|auto|]. by destruct (short_of fl nb atype).
  - destruct (short_of fl nb atype) eqn:Es; [|exists cpu, fl; auto].
    destruct (candidate_run s W) as (c & flc & Ec & Cd).
    rewrite (bind_ok _ _ _ _ _ Ec).
    destruct (IH c flc (proj1 Cd)) as (c' & fl' & A & B & E). exists c', fl'.
    split_and!; [done| |done]. destruct B as [B|[B|[_ ->]]]; auto.
    right; left. destruct Cd as [[_ E1] Cd], A as [Hc E2].
    assert (fl' = flc) as -> by congruence. by split.
Qed.

(** ** The whole allocation *)

(** What a successful allocation of the [k] blocks at [blk] does. *)
Record alloc_effect (s s' : nova) (blk k : Z) : Prop := {
  ae_wf : alloc_wf s';
  ae_pos : 0 < k < 2 ^ 31;
  ae_blk : 0 < blk;
  ae_from : forall b, in_blocks blk k b = true -> free_block s b = true;
  ae_free : forall b, free_block s' b = free_block s b && negb (in_blocks blk k b);
  ae_total : total_free s' = total_free s - k;
  ae_home : exists cpu fl, list_at s' cpu fl /\ block_start fl <= blk /\
    blk + k - 1 <= block_end fl;
  ae_frame : balloc_frame s s';
  ae_keep : balloc_keep s s'
}.

Lemma took_effect s s1 cpu fl fl' blk k :
  alloc_wf s -> list_at s cpu fl -> (s1 = s \/ s1 = bump s) ->
  took (alloc_clock s1) fl fl' blk k -> alloc_effect s (with_list cpu fl' s1) blk k.
Proof.
  intros W At Hs Tk. assert (At1 : list_at s1 cpu fl) by (by destruct Hs as [-> | ->]).
  assert (W1 : alloc_wf s1) by (destruct Hs as [-> | ->]; auto using alloc_wf_bump).
  pose proof (aw_list _ W _ _ (proj2 At)) as Wf.
  pose proof (took_nonzero _ _ _ _ _ _ Wf Tk) as Hblk.
  destruct Tk as [Tw Ts Te Tp Tc Tf Tfr].
  assert (forall b, free_block s b = free_block s1 b) as Eb by (by destruct Hs as [-> | ->]).
  assert (forall b, in_blocks blk k b = true -> forall j z, j <> Z.to_nat cpu ->
            free_lists s1 !! j = Some z -> fl_free z b = false) as Oth.
  { intros b Hb j z Hj Hz. apply not_true_iff_false. intros Hf. apply Hj.
    pose proof (aw_list _ W1 _ _ Hz) as Wz.
    eapply (home_unique s1 _ _ _ _ b W1 Hz (proj2 At1)).
    - by eapply fl_free_bounds.
    - eapply fl_free_bounds; [exact Wf|auto]. }
  split; auto.
  - by eapply alloc_wf_with.
  - pose proof (alloc_wf_counts _ W) as F. rewrite Forall_forall in F.
    specialize (F fl (list_elem_of_lookup_2 _ _ _ (proj2 At))).
    pose proof (fl_wf_counts _ _ Tw). lia.
  - intros b Hb. rewrite (free_block_split _ _ _ _ At). left. auto.
  - intros b. rewrite Eb. apply eq_true_iff_eq. rewrite andb_true_iff, negb_true_iff.
    rewrite (free_block_with _ _ _ _ _ At1), (free_block_split _ _ _ _ At1), Tfr.
    rewrite andb_true_iff, negb_true_iff. split.
    + intros [?|(j & z & Hj & Hz & Hf)]; [tauto|]. split; [eauto 7|].
      apply not_true_iff_false. intros Hb. by rewrite (Oth b Hb j z Hj Hz) in Hf.
    + intros [[?|(j & z & Hj & Hz & Hf)] Hb]; eauto 7.
  - rewrite (total_free_with _ _ _ _ At1), Tc.
    assert (total_free s1 = total_free s) as -> by (by destruct Hs as [-> | ->]). lia.
  - exists cpu, fl'. split; [by eapply list_at_with|]. rewrite Ts, Te.
    pose proof (fl_free_bounds _ _ blk Wf) as H1'.
    pose proof (fl_free_bounds _ _ (blk + k - 1) Wf) as H2'.
    rewrite !Tf in H1', H2' by (unfold in_blocks; bool_lia). lia.
  - by destruct Hs as [-> | ->].
  - by apply (balloc_keep_with s s1 cpu fl).
Qed.

Lemma count_alloc_core atype k fl : same_core fl (count_alloc atype k fl).
Proof. by destruct atype. Qed.

Lemma fl_free_core fl fl' b : same_core fl fl' -> fl_free fl' b = fl_free fl b.
Proof. intros (E & _). unfold fl_free, fl_nodes. by rewrite E. Qed.

(** The statistics update keeps the effect. *)
Lemma took_core c fl fl' fl'' blk k :
  took c fl fl' blk k -> same_core fl' fl'' -> took c fl fl'' blk k.
Proof.
  intros [] S. pose proof S as (E1 & E2 & E3 & E4 & E5 & E6 & E7). split; try congruence.
  - by eapply fl_wf_same_core.
  - done.
  - intros b. by rewrite (fl_free_core _ _ _ S).
Qed.

(** The CPU a request runs on. *)
Definition valid_cpu (s : nova) (cpuid : Z) : Prop :=
  (cpuid = ANY_CPU /\ 0 <= running_cpu s) \/ (cpuid <> ANY_CPU /\ 0 <= cpuid < cpus (sbc s)).

Lemma valid_cpu_list s cpuid :
  alloc_wf s -> valid_cpu s cpuid ->
  exists fl, list_at s (if cpuid =? ANY_CPU then nova_get_cpuid s else cpuid) fl.
Proof.
  intros W Hv. pose proof (aw_cpus _ W). apply list_exists; [done|].
  destruct Hv as [[-> Hr]|[Hne Hr]].
  - rewrite Z.eqb_refl. unfold nova_get_cpuid. pose proof (Z.rem_bound_pos (running_cpu s) (cpus (sbc s))). lia.
  - by rewrite (proj2 (Z.eqb_neq _ _)).
Qed.

(** The nodes of all lists. *)
Definition total_nodes (s : nova) : Z := sumZ num_blocknode (free_lists s).

(** List [cpu] counts [n] blocks more than it has. *)
Definition overcount (cpu n : Z) (t : nova) : nova :=
  match free_lists t !! Z.to_nat cpu with
  | Some fl => with_list cpu (recount (num_free_blocks fl + n) fl) t
  | None => t
  end.

(** The part of [nova_new_blocks] before the zeroing: either nothing changed
    and the request fails, or [k] blocks at [blk] were taken. *)
Lemma new_blocks_core_any s num btype atype cpuid dir :
  alloc_wf s -> valid_cpu s cpuid -> 0 < num < 2 ^ 32 ->
  let nb := num * nova_get_numblocks btype in
  exists cpu' fl, list_at s cpu' fl /\ (short_of fl nb atype = false \/ is_candidate s cpu' fl) /\
  ((forall blocknr zero, nova_new_blocks blocknr num btype zero atype cpuid dir s
      = Ok (- ENOSPC, blocknr) s) /\
    (fl_nodes fl = [] \/ (atype = LOG /\ short_of fl nb atype = true) \/ 0 < btype) \/
   (exists k blk s', alloc_effect s s' blk k /\ granted btype atype nb k /\
    (atype = LOG -> total_nodes s' <= total_nodes s) /\
    forall blocknr zero, nova_new_blocks blocknr num btype zero atype cpuid dir s
    = (when zero (
        let! bp := gets (fun s => nova_get_block s (nova_get_block_off blk btype)) in
        nova_memunlock_range bp (u64 (PAGE_SIZE * k)) ;;;
        memset_nt bp 0 (u64 (PAGE_SIZE * k)) ;;;
        nova_memlock_range bp (u64 (PAGE_SIZE * k))) ;;;
      ret (k / nova_get_numblocks btype, blk)) s') \/
   (IS_DATABLOCKS_2MB_ALIGNED nb atype = true /\ kmem_cache_zalloc_ok (alloc_clock s) = false /\
    exists lo n t, alloc_effect s t lo n /\
     ((forall blocknr zero, nova_new_blocks blocknr num btype zero atype cpuid dir s
         = Ok (- ENOSPC, blocknr) (overcount cpu' n t)) \/
      exists k blk t', alloc_effect t t' blk k /\ granted btype atype nb k /\
        forall blocknr zero, nova_new_blocks blocknr num btype zero atype cpuid dir s
        = (when zero (
            let! bp := gets (fun s => nova_get_block s (nova_get_block_off blk btype)) in
            nova_memunlock_range bp (u64 (PAGE_SIZE * k)) ;;;
            memset_nt bp 0 (u64 (PAGE_SIZE * k)) ;;;
            nova_memlock_range bp (u64 (PAGE_SIZE * k))) ;;;
          ret (k / nova_get_numblocks btype, blk)) (overcount cpu' n t')))).
Proof.
  intros W Hv Hnum nb. pose proof (numblocks_pos btype) as Hp.
  assert (nova_get_numblocks btype <= 2 ^ 18) as Hp2 by (unfold nova_get_numblocks; repeat case_if; lia).
  assert (0 < nb < 2 ^ 50) as Hnb by (unfold nb; nia).
  destruct (valid_cpu_list s cpuid W Hv) as [fl0 At0].
  set (cpu0 := if cpuid =? ANY_CPU then nova_get_cpuid s else cpuid) in *.
  destruct (new_blocks_retry_run 2 s cpu0 fl0 btype atype nb dir W At0)
    as (cpu & fl & At & Hc & Er).
  exists cpu, fl. split; [done|]. split; [destruct Hc as [?|[?|[? _]]]; auto; lia|].
  pose proof (aw_list _ W _ _ (proj2 At)) as Wf.
  destruct (alloc_in_list_any s cpu fl btype atype nb 0 dir Wf At ltac:(lia))
    as [[[b Ha] Hwhy]|[(k & blk & fl' & s1 & Ha & Hs1 & Tk & Hk & Hnn)|(Ea & Hno & lo & n & flt & Tk & Hres)]];
    [left; split; [|done]|right; left; exists k, blk|right; right; split; [done|]; split; [done|]].
  - intros blocknr zero. unfold nova_new_blocks. fold nb. rewrite (uwrap_small 64 nb) by lia.
    rewrite (proj2 (Z.eqb_neq nb 0)) by lia. rewrite (bind_ok _ _ _ _ s) by done. fold cpu0.
    rewrite (bind_ok _ _ _ (cpu, (- ENOSPC, b)) s) by (rewrite Er; by rewrite (bind_ok _ _ _ _ _ Ha)).
    done.
  - pose proof (took_nonzero _ _ _ _ _ _ Wf Tk) as Hblk.
    pose proof (took_core _ _ _ _ _ _ Tk (count_alloc_core atype k fl')) as Tk'.
    pose proof (took_effect _ _ _ _ _ _ _ W At Hs1 Tk') as Eff.
    eexists. split_and!; [exact Eff|done| |].
    { intros ->. unfold total_nodes, with_list. cbn [free_lists set_free_lists]. destruct At as [_ At].
      assert (free_lists s1 = free_lists s) as -> by (by destruct Hs1 as [-> | ->]).
      rewrite (sumZ_insert _ _ _ _ _ At).
      change (num_blocknode (count_alloc LOG k fl')) with (num_blocknode fl'). unfold IS_DATABLOCKS_2MB_ALIGNED in Hnn.
      rewrite bool_decide_false, andb_false_r in Hnn by done. specialize (Hnn eq_refl). lia. }
    intros blocknr zero.
    pose proof (ae_pos _ _ _ _ Eff) as Hkp.
    unfold nova_new_blocks. fold nb. rewrite (uwrap_small 64 nb) by lia.
    rewrite (proj2 (Z.eqb_neq nb 0)) by lia. rewrite (bind_ok _ _ _ _ s) by done. fold cpu0.
    rewrite (bind_ok _ _ _ (cpu, (k, blk)) (with_list cpu fl' s1))
      by (rewrite Er; by rewrite (bind_ok _ _ _ _ _ Ha)).
    rewrite (proj2 (Z.ltb_lt 0 k)) by lia. cbn [when].
    assert (At1 : list_at (with_list cpu fl' s1) cpu fl').
    { eapply list_at_with. destruct Hs1 as [-> | ->]; exact At. }
    rewrite (bind_ok _ _ _ _ _ (update_free_list_run _ _ _ _ At1)), with_list_with.
    rewrite (proj2 (Z.leb_gt k 0)), (proj2 (Z.eqb_neq blk 0)) by lia. cbn [orb].
    rewrite swrap_small; [done|lia|].
    assert (0 <= k / nova_get_numblocks btype <= k).
    { split; [apply Z.div_pos; lia|]. apply Z.div_le_upper_bound; nia. }
    lia.
  - assert (forall f f', list_at (with_list cpu f' (bump s)) cpu f' /\ with_list cpu f (with_list cpu f' (bump s)) = with_list cpu f (bump s)) as Hl.
    { intros. split; [by apply (list_at_with (bump s) cpu fl)|apply with_list_with]. }
    assert (forall f, overcount cpu n (with_list cpu f (bump s)) = with_list cpu (recount (num_free_blocks f + n) f) (bump s)) as Ho.
    { intros f. unfold overcount. destruct (Hl f f) as [[_ ->] _]. by rewrite (proj2 (Hl _ _)). }
    pose proof (took_effect s (bump s) cpu fl flt lo n W At ltac:(by right) Tk) as Eff.
    exists lo, n, (with_list cpu flt (bump s)). split; [done|].
    destruct Hres as [[b Ha]|(k & blk & fl' & Tk' & Hk & Ha)]; [left|right].
    + intros blocknr zero. unfold nova_new_blocks. fold nb. rewrite (uwrap_small 64 nb) by lia.
      rewrite (proj2 (Z.eqb_neq nb 0)) by lia. rewrite (bind_ok _ _ _ _ s) by done. fold cpu0.
      erewrite (bind_ok _ _ _ (cpu, (- ENOSPC, b))) by (rewrite Er; by rewrite (bind_ok _ _ _ _ _ Ha)).
      by rewrite Ho.
    + pose proof (took_core _ _ _ _ _ _ Tk' (count_alloc_core atype k fl')) as Tk2.
      pose proof (took_effect _ _ cpu flt _ blk k (ae_wf _ _ _ _ Eff) (proj1 (Hl flt flt)) (or_introl eq_refl) Tk2) as Eff2.
      rewrite (proj2 (Hl _ _)) in Eff2. pose proof (ae_pos _ _ _ _ Eff2) as Hkp. pose proof (ae_blk _ _ _ _ Eff2) as Hblk.
      exists k, blk. eexists. split; [exact Eff2|]. split; [done|]. intros blocknr zero.
      unfold nova_new_blocks. fold nb. rewrite (uwrap_small 64 nb) by lia.
      rewrite (proj2 (Z.eqb_neq nb 0)) by lia. rewrite (bind_ok _ _ _ _ s) by done. fold cpu0.
      erewrite (bind_ok _ _ _ (cpu, (k, blk))) by (rewrite Er; by rewrite (bind_ok _ _ _ _ _ Ha)).
      rewrite (proj2 (Z.ltb_lt 0 k)) by lia. cbn [when].
      rewrite (bind_ok _ _ _ _ _ (update_free_list_run _ _ _ _ (proj1 (Hl fl _)))), (proj2 (Hl _ _)).
      rewrite (proj2 (Z.leb_gt k 0)), (proj2 (Z.eqb_neq blk 0)) by lia. cbn [orb].
      rewrite swrap_small; [|lia|].
      2: { assert (0 <= k / nova_get_numblocks btype <= k) by (split; [apply Z.div_pos; lia|apply Z.div_le_upper_bound; nia]). lia. }
      rewrite Ho. by destruct atype.
Qed.

(** With memory for a node. *)
Lemma new_blocks_core s num btype atype cpuid dir :
  alloc_wf s -> valid_cpu s cpuid -> 0 < num < 2 ^ 32 ->
  slab_ok s (num * nova_get_numblocks btype) atype ->
  let nb := num * nova_get_numblocks btype in
  exists cpu' fl, list_at s cpu' fl /\ (short_of fl nb atype = false \/ is_candidate s cpu' fl) /\
  ((forall blocknr zero, nova_new_blocks blocknr num btype zero atype cpuid dir s
      = Ok (- ENOSPC, blocknr) s) /\
    (fl_nodes fl = [] \/ (atype = LOG /\ short_of fl nb atype = true) \/ 0 < btype) \/
   exists k blk s', alloc_effect s s' blk k /\ granted btype atype nb k /\
    (atype = LOG -> total_nodes s' <= total_nodes s) /\
    forall blocknr zero, nova_new_blocks blocknr num btype zero atype cpuid dir s
    = (when zero (
        let! bp := gets (fun s => nova_get_block s (nova_get_block_off blk btype)) in
        nova_memunlock_range bp (u64 (PAGE_SIZE * k)) ;;;
        memset_nt bp 0 (u64 (PAGE_SIZE * k)) ;;;
        nova_memlock_range bp (u64 (PAGE_SIZE * k))) ;;;
      ret (k / nova_get_numblocks btype, blk)) s').
Proof.
  intros W Hv Hn Sl nb. destruct (new_blocks_core_any s num btype atype cpuid dir W Hv Hn) as (c & fl & A & B & C).
  exists c, fl. split; [done|]. split; [done|]. destruct C as [C|[C|(Ea & Hk & _)]]; [by left|by right|].
  by rewrite (Sl Ea) in Hk.
Qed.

(** ** Zeroing *)

(** The lists lie inside the NVMM region, which lies in the address space. *)
Definition device_ok (s : nova) : Prop :=
  0 < virt_addr (sbc s) /\ virt_addr (sbc s) + initsize (sbc s) < 2 ^ 64 /\
  forall i fl, free_lists s !! i = Some fl -> (block_end fl + 1) * PAGE_SIZE <= initsize (sbc s).

(** Memories that agree outside [a, a + n) and read as zero inside. *)
Definition zeroed (m m' : mem) (a n : Z) : Prop :=
  forall x, mget m' x = if decide (a <= x < a + n) then 0 else mget m x.

Lemma zero_bytes n : concat (replicate n (le_bytes 4 0)) = replicate (4 * n) 0.
Proof.
  induction n as [|n IH]; [done|]. replace (4 * S n)%nat with (4 + 4 * n)%nat by lia.
  cbn [replicate concat]. by rewrite IH.
Qed.

Definition zero_page_bytes (k : Z) : list Z := replicate (Z.to_nat (PAGE_SIZE * k)) 0.

Lemma memset_zero_run s bp k :
  0 < k < 2 ^ 20 -> writable s = true -> virt_addr (sbc s) <= bp ->
  bp + PAGE_SIZE * k <= virt_addr (sbc s) + initsize (sbc s) ->
  memset_nt bp 0 (PAGE_SIZE * k) s = Ok tt (pm_write EvNtStore bp (zero_page_bytes k) s) /\
    zeroed (nvmm s) (nvmm (pm_write EvNtStore bp (zero_page_bytes k) s)) bp (PAGE_SIZE * k).
Proof.
  intros Hk Hw Hlo Hhi. unfold zero_page_bytes, PAGE_SIZE in *. unfold memset_nt.
  rewrite memset_nt_len_ok; [|lia|].
  2: { replace (4096 * k) with ((1024 * k) * 4) by lia. apply Z.mod_mul. lia. }
  replace (4096 * k / 4) with (1024 * k) by (rewrite <- (Z.div_mul (1024 * k) 4); [f_equal|]; lia).
  rewrite zero_bytes. replace (4 * Z.to_nat (1024 * k))%nat with (Z.to_nat (4096 * k)) by lia. split.
  - apply pstore_bytes_run; [|done]. apply in_pmem_spec. rewrite length_replicate. lia.
  - intros x. unfold pm_write. cbn. rewrite mget_store_bytes, length_replicate.
    repeat case_decide; try lia. by rewrite lookup_replicate_2 by lia.
Qed.

(** The state after the zeroing of the [k] blocks at [bp]. *)
Definition zero_state (bp k : Z) (s : nova) : nova :=
  locked (pm_write EvNtStore bp (zero_page_bytes k) (unlocked s)).

Lemma zero_state_keeps {A} (g : nova -> A) bp k s :
  (forall w x, g (set_cr0_wp w x) = g x) -> (forall m x, g (set_nvmm m x) = g x) ->
  (forall t x, g (set_trace t x) = g x) -> g (zero_state bp k s) = g s.
Proof.
  intros G1 G2 G3. unfold zero_state, locked, pm_write, unlocked. repeat case_match; by rewrite ?G1, ?G3, ?G2, ?G1.
Qed.

Lemma zero_state_with bp k cpu fl s : zero_state bp k (with_list cpu fl s) = with_list cpu fl (zero_state bp k s).
Proof.
  unfold zero_state, locked, unlocked, is_protected, nova_is_protected. cbn.
  repeat (case_match; cbn in *; try congruence); done.
Qed.

Lemma zeroing_run s blk k btype :
  0 < virt_addr (sbc s) -> virt_addr (sbc s) + initsize (sbc s) < 2 ^ 64 -> 0 < blk -> 0 < k < 2 ^ 20 ->
  (blk + k) * PAGE_SIZE <= initsize (sbc s) ->
  let bp := virt_addr (sbc s) + blk * PAGE_SIZE in
  (let! bp := gets (fun s => nova_get_block s (nova_get_block_off blk btype)) in
   nova_memunlock_range bp (u64 (PAGE_SIZE * k)) ;;;
   memset_nt bp 0 (u64 (PAGE_SIZE * k)) ;;;
   nova_memlock_range bp (u64 (PAGE_SIZE * k))) s = Ok tt (zero_state bp k s) /\
  zeroed (nvmm s) (nvmm (zero_state bp k s)) bp (k * PAGE_SIZE) /\
  (is_protected s = true -> cr0_wp (zero_state bp k s) = true).
Proof.
  intros Hv0 Hv1 Hblk Hk Hin bp. unfold PAGE_SIZE in Hin, bp.
  assert (nova_get_block s (nova_get_block_off blk btype) = bp) as Ebp.
  { unfold nova_get_block, nova_get_block_off. rewrite Z.shiftl_mul_pow2 by (unfold PAGE_SHIFT; lia).
    unfold PAGE_SHIFT. change (2 ^ 12) with 4096. rewrite uwrap_small by lia.
    by rewrite (proj2 (Z.eqb_neq _ _)) by lia. }
  assert (sbc (unlocked s) = sbc s) as Es by apply unlocked_sbc.
  destruct (memset_zero_run (unlocked s) bp k) as (Em & Ez);
    [lia|apply writable_unlocked|rewrite Es; lia|rewrite Es; unfold PAGE_SIZE; lia|].
  rewrite unlocked_nvmm in Ez. split_and!.
  - rewrite (bind_ok _ _ _ bp s) by (unfold gets; by rewrite Ebp).
    assert (u64 (PAGE_SIZE * k) = PAGE_SIZE * k) as -> by (apply uwrap_small; unfold PAGE_SIZE; lia).
    rewrite (bind_ok _ _ _ _ _ (memunlock_run s bp (PAGE_SIZE * k) ltac:(lia)
      ltac:(unfold PAGE_SIZE; lia) ltac:(unfold PAGE_SIZE; lia) ltac:(done) ltac:(done))).
    rewrite (bind_ok _ _ _ _ _ Em). apply memlock_run.
  - unfold zero_state. rewrite locked_nvmm. by rewrite (Z.mul_comm k).
  - unfold zero_state, locked.
    assert (is_protected (pm_write EvNtStore bp (zero_page_bytes k) (unlocked s)) = is_protected s) as ->.
    { unfold is_protected, nova_is_protected. change (sbc (pm_write _ _ _ ?x)) with (sbc x). by rewrite Es. }
    by intros ->.
Qed.

(** ** Properties *)

(** Two states whose lists are the same, as far as the allocator goes. *)
Lemma alloc_wf_same s s' :
  alloc_wf s -> sbc s' = sbc s -> free_lists s' = free_lists s ->
  per_list_blocks s' = per_list_blocks s -> (alloc_clock s <= alloc_clock s')%positive -> alloc_wf s'.
Proof.
  intros [A1 A2 A3 A4 A5] Es Ef Ep Hc. split; rewrite ?Es, ?Ef, ?Ep; auto.
  intros i fl Hi. eapply fl_wf_clock; [by eapply A4|done].
Qed.

Lemma device_ok_keep s s' :
  device_ok s -> sbc s' = sbc s ->
  home_bounds <$> free_lists s' = home_bounds <$> free_lists s -> device_ok s'.
Proof.
  intros (H1' & H2' & H3') Es Eh. unfold device_ok. rewrite Es. split_and!; auto.
  intros i fl Hi. assert ((home_bounds <$> free_lists s') !! i = Some (home_bounds fl)) as E
    by (by rewrite list_lookup_fmap, Hi).
  rewrite Eh, list_lookup_fmap in E. destruct (free_lists s !! i) as [fl0|] eqn:E0; [|done].
  cbn in E. injection E as _ <-. eauto.
Qed.

Lemma effect_in_device s s' blk k :
  alloc_wf s -> device_ok s -> alloc_effect s s' blk k -> (blk + k) * PAGE_SIZE <= initsize (sbc s).
Proof.
  intros W (_ & _ & Hd) Eff. pose proof (ae_pos _ _ _ _ Eff).
  pose proof (ae_from _ _ _ _ Eff (blk + k - 1)) as Hf. unfold in_blocks in Hf.
  rewrite (proj2 (Z.leb_le _ _)), (proj2 (Z.ltb_lt _ _)) in Hf by lia.
  specialize (Hf eq_refl). apply existsb_lookup in Hf as (i & f & Ef & Hf).
  apply (fl_free_bounds _ _ _ (aw_list _ W _ _ Ef)) in Hf.
  specialize (Hd _ _ Ef). unfold PAGE_SIZE in *. lia.
Qed.

(** What an allocation of the [k] blocks at [blk] leaves, zeroed or not. *)
Record alloc_result (zero : bool) (s s' : nova) (blk k : Z) : Prop := {
  ar_wf : alloc_wf s';
  ar_pos : 0 < k < 2 ^ 31 /\ 0 < blk;
  ar_from : forall b, in_blocks blk k b = true -> free_block s b = true;
  ar_free : forall b, free_block s' b = free_block s b && negb (in_blocks blk k b);
  ar_total : total_free s' = total_free s - k;
  ar_mem : if zero then zeroed (nvmm s) (nvmm s') (virt_addr (sbc s) + blk * PAGE_SIZE) (k * PAGE_SIZE)
           else nvmm s' = nvmm s;
  ar_lock : zero = true -> is_protected s = true -> cr0_wp s' = true
}.

Definition after_zero (zero : bool) (bp k : Z) (s : nova) : nova := if zero then zero_state bp k s else s.

Lemma after_zero_over zero bp k cpu n s :
  after_zero zero bp k (overcount cpu n s) = overcount cpu n (after_zero zero bp k s).
Proof.
  destruct zero; [|done]. cbn [after_zero]. unfold overcount.
  rewrite (zero_state_keeps free_lists) by done.
  destruct (free_lists s !! Z.to_nat cpu); [apply zero_state_with|done].
Qed.

Lemma after_zero_run {A} zero S blk k btype (x : A) :
  (zero = true -> 0 < virt_addr (sbc S) /\ virt_addr (sbc S) + initsize (sbc S) < 2 ^ 64 /\ 0 < blk /\ 0 < k < 2 ^ 20 /\
     (blk + k) * PAGE_SIZE <= initsize (sbc S)) ->
  (when zero (
     let! bp := gets (fun s => nova_get_block s (nova_get_block_off blk btype)) in
     nova_memunlock_range bp (u64 (PAGE_SIZE * k)) ;;;
     memset_nt bp 0 (u64 (PAGE_SIZE * k)) ;;;
     nova_memlock_range bp (u64 (PAGE_SIZE * k))) ;;;
   ret x) S = Ok x (after_zero zero (virt_addr (sbc S) + blk * PAGE_SIZE) k S).
Proof.
  intros Hz. destruct zero; [|done]. destruct (Hz eq_refl) as (H1' & H2' & H3' & H4' & H5').
  destruct (zeroing_run S blk k btype H1' H2' H3' H4' H5') as (Er & _). cbn [when]. by rewrite (bind_ok _ _ _ _ _ Er).
Qed.

Lemma after_zero_result zero s s1 blk k :
  alloc_wf s -> (zero = true -> device_ok s /\ k < 2 ^ 20) -> alloc_effect s s1 blk k ->
  alloc_result zero s (after_zero zero (virt_addr (sbc s) + blk * PAGE_SIZE) k s1) blk k.
Proof.
  intros W Hz Eff. destruct (ae_frame _ _ _ _ Eff) as (Es & En & _).
  destruct zero; cbn [after_zero]; [|split; [apply Eff|split; apply Eff|apply Eff..|done|done]].
  destruct (Hz eq_refl) as [D Hk]. pose proof (effect_in_device _ _ _ _ W D Eff). destruct D as (? & ? & _).
  pose proof (ae_pos _ _ _ _ Eff). pose proof (ae_blk _ _ _ _ Eff).
  destruct (zeroing_run s1 blk k 0) as (_ & Ez & El); [by rewrite Es..|done|lia|by rewrite Es|].
  rewrite Es, En in Ez. rewrite Es in El. set (s2 := zero_state _ k s1) in *.
  assert (free_lists s2 = free_lists s1) as Ef2 by (by apply (zero_state_keeps free_lists)).
  split; [..|done|].
  - apply (alloc_wf_same s1); [apply Eff|by apply (zero_state_keeps sbc)|done|by apply (zero_state_keeps per_list_blocks)|].
    unfold s2. rewrite (zero_state_keeps alloc_clock) by done. lia.
  - by split.
  - apply Eff.
  - intros b. unfold free_block. rewrite Ef2. apply (ae_free _ _ _ _ Eff b).
  - unfold total_free. rewrite Ef2. apply Eff.
  - intros _ Hp. apply El. unfold is_protected, nova_is_protected in *. by rewrite Es.
Qed.

(** C3: a request for blocks ends without a fault, in one of three ways.  It
    fails with ENOSPC and changes nothing.  Or it takes [k] blocks in a row that
    were all free, at most as many as requested, removes exactly those from the
    free set, accounts for them and keeps the invariant; the memory is unchanged,
    or exactly the pages of the blocks read as zero when that was asked for (on a
    device whose blocks lie in NVMM, for fewer than 2^20 blocks).  The
    number returned is [k] in units of the block type, rounded down, so that it is
    0 when a superpage request was granted less than one unit.  Or, only for a
    superpage request when no memory for a node can be had, it loses a run of free
    blocks: it then behaves as if these [n] blocks had been taken before, but no
    caller gets them, and the list still counts them as free. *)
Theorem nova_new_blocks_correct s blocknr num btype zero atype cpuid dir :
  let unit := nova_get_numblocks btype in
  let nb := num * unit in
  let res := nova_new_blocks blocknr num btype zero atype cpuid dir s in
  alloc_wf s -> valid_cpu s cpuid -> 0 < num < 2 ^ 32 -> (zero = true -> device_ok s /\ nb < 2 ^ 20) ->
  res = Ok (- ENOSPC, blocknr) s \/
  (exists k blk s', res = Ok (k / unit, blk) s' /\ alloc_result zero s s' blk k /\ k <= nb) \/
  (IS_DATABLOCKS_2MB_ALIGNED nb atype = true /\ kmem_cache_zalloc_ok (alloc_clock s) = false /\
   exists cpu lo n t, alloc_result false s t lo n /\
     (res = Ok (- ENOSPC, blocknr) (overcount cpu n t) \/
      exists k blk t', res = Ok (k / unit, blk) (overcount cpu n t') /\ alloc_result zero t t' blk k /\ k <= nb)).
Proof.
  intros unit nb res W Hv Hn Hz. unfold nb, unit in *.
  destruct (new_blocks_core_any s num btype atype cpuid dir W Hv Hn)
    as (cpu & fl & _ & _ & [[E _]|[(k & blk & s' & Eff & [Hk _] & _ & E)|(Ea & Hno & lo & n & t & Eff & C)]]);
    unfold res.
  - left. by rewrite E.
  - right; left. destruct (ae_frame _ _ _ _ Eff) as (Es & _). exists k, blk. eexists. rewrite E. split; [|split; [|done]].
    + apply after_zero_run. intros Hz'. destruct (Hz Hz') as [D ?]. pose proof (effect_in_device _ _ _ _ W D Eff).
      rewrite Es. destruct D as (? & ? & _). pose proof (ae_pos _ _ _ _ Eff). pose proof (ae_blk _ _ _ _ Eff). split_and!; lia.
    + rewrite Es. apply after_zero_result; [done| |done]. intros Hz'. destruct (Hz Hz') as [D ?]. split; [done|lia].
  - right; right. split; [done|]. split; [done|]. exists cpu, lo, n, t.
    split; [by apply (after_zero_result false s t lo n W)|].
    destruct C as [E|(k & blk & t' & Eff2 & [Hk _] & E)]; [left; by rewrite E|right].
    pose proof (ae_wf _ _ _ _ Eff) as Wt.
    assert (zero = true -> device_ok t /\ k < 2 ^ 20) as Hzt.
    { intros Hz'. destruct (Hz Hz') as [D ?]. split; [|lia].
      destruct (ae_frame _ _ _ _ Eff) as (Es & _). destruct (ae_keep _ _ _ _ Eff) as (_ & _ & K3). by apply (device_ok_keep s). }
    destruct (ae_frame _ _ _ _ Eff2) as (Es2 & _).
    assert (sbc (overcount cpu n t') = sbc t) as Eo by (unfold overcount; by case_match).
    exists k, blk, (after_zero zero (virt_addr (sbc t) + blk * PAGE_SIZE) k t'). rewrite E. split; [|split; [|done]].
    + rewrite after_zero_run, after_zero_over, Eo; [done|]. intros Hz'. destruct (Hzt Hz') as [D ?].
      pose proof (effect_in_device _ _ _ _ Wt D Eff2). rewrite Eo. destruct D as (? & ? & _).
      pose proof (ae_pos _ _ _ _ Eff2). pose proof (ae_blk _ _ _ _ Eff2). split_and!; lia.
    + by apply after_zero_result.
Qed.

(** What an allocation with zeroing does. *)
Record zeroed_alloc (s s' : nova) (blk k : Z) : Prop := {
  za_wf : alloc_wf s';
  za_pos : 0 < k < 2 ^ 31;
  za_blk : 0 < blk;
  za_from : forall b, in_blocks blk k b = true -> free_block s b = true;
  za_free : forall b, free_block s' b = free_block s b && negb (in_blocks blk k b);
  za_in : (blk + k) * PAGE_SIZE <= initsize (sbc s);
  za_zero : zeroed (nvmm s) (nvmm s') (virt_addr (sbc s) + blk * PAGE_SIZE) (k * PAGE_SIZE);
  za_lock : is_protected s = true -> cr0_wp s' = true;
  za_sbc : sbc s' = sbc s;
  za_maps : inode_maps s' = inode_maps s;
  za_keep : balloc_keep s s';
  za_dev : device_ok s'
}.

Lemma new_blocks_zeroed_run s blocknr num btype atype cpuid dir :
  alloc_wf s -> device_ok s -> valid_cpu s cpuid ->
  0 < num -> num * nova_get_numblocks btype < 2 ^ 20 ->
  slab_ok s (num * nova_get_numblocks btype) atype ->
  let res := nova_new_blocks blocknr num btype true atype cpuid dir s in
  res = Ok (- ENOSPC, blocknr) s \/
  exists k blk s', res = Ok (k / nova_get_numblocks btype, blk) s' /\
    zeroed_alloc s s' blk k /\ granted btype atype (num * nova_get_numblocks btype) k.
Proof.
  intros W D Hv Hn Hnb Sl res. pose proof D as (Hv0 & Hv1 & Hd). pose proof (numblocks_pos btype).
  destruct (new_blocks_core s num btype atype cpuid dir W Hv ltac:(nia) Sl)
    as (cpu & fl & _ & _ & [[E _]|(k & blk & s' & Eff & [Hk Hkl] & _ & E)]); unfold res; rewrite E;
    [by left|right]. clear E res. exists k, blk.
  pose proof (ae_pos _ _ _ _ Eff). pose proof (ae_blk _ _ _ _ Eff).
  pose proof (effect_in_device _ _ _ _ W D Eff) as Hin.
  destruct (ae_frame _ _ _ _ Eff) as (Es & En & _ & Em0 & _ & Ewp & Epl).
  destruct (zeroing_run s' blk k btype) as (Er & Ez & El); [by rewrite Es..|done|lia|by rewrite Es|].
  rewrite Es in Er, Ez, El. set (bp := virt_addr (sbc s) + blk * PAGE_SIZE) in *. set (s2 := zero_state bp k s') in *.
  exists s2. split_and!; [| |done].
  - cbn [when]. by rewrite (bind_ok _ _ _ _ _ Er).
  - destruct (ae_keep _ _ _ _ Eff) as (K1 & K2 & K3).
    assert (sbc s2 = sbc s') as Es2 by (by apply (zero_state_keeps sbc)).
    assert (free_lists s2 = free_lists s') as Ef2 by (by apply (zero_state_keeps free_lists)).
    assert (alloc_clock s2 = alloc_clock s') as Ec2 by (by apply (zero_state_keeps alloc_clock)).
    split; try (by apply Eff).
    + apply (alloc_wf_same s'); [apply Eff|done..|by apply (zero_state_keeps per_list_blocks)|lia].
    + intros b. unfold free_block. rewrite Ef2. apply (ae_free _ _ _ _ Eff b).
    + exact Hin.
    + by rewrite <- En.
    + intros Hp. apply El. unfold is_protected, nova_is_protected in *. by rewrite Es.
    + by rewrite Es2.
    + rewrite <- Em0. by apply (zero_state_keeps inode_maps).
    + split_and!; [rewrite <- K1; by apply (zero_state_keeps running_cpu)|lia|by rewrite Ef2].
    + apply (device_ok_keep s); [done|by rewrite Es2|by rewrite Ef2].
Qed.

(** With zeroing requested, the pages of the returned blocks
    read as zero afterwards and every other byte of the device is unchanged,
    also when the device is mounted write-protected; the write protection is
    back on at the end. *)
Theorem nova_new_blocks_zeroed s blocknr num btype atype cpuid dir :
  alloc_wf s -> device_ok s -> valid_cpu s cpuid ->
  0 < num -> num * nova_get_numblocks btype < 2 ^ 20 ->
  slab_ok s (num * nova_get_numblocks btype) atype ->
  let res := nova_new_blocks blocknr num btype true atype cpuid dir s in
  res = Ok (- ENOSPC, blocknr) s \/
  exists k blk s', res = Ok (k / nova_get_numblocks btype, blk) s' /\
    zeroed (nvmm s) (nvmm s') (virt_addr (sbc s) + blk * PAGE_SIZE) (k * PAGE_SIZE) /\
    (is_protected s = true -> cr0_wp s' = true) /\
    (forall b, free_block s' b = free_block s b && negb (in_blocks blk k b)).
Proof.
  intros W D Hv Hn Hnb Sl res.
  destruct (new_blocks_zeroed_run s blocknr num btype atype cpuid dir W D Hv Hn Hnb Sl)
    as [E|(k & blk & s' & E & [] & _)]; [by left|right].
  by exists k, blk, s'.
Qed.

(** C29: a request for 4 KB data blocks never fails while any
    list of any CPU still has a free block. *)
Theorem nova_new_data_blocks_progress s blocknr num cpuid dir b :
  alloc_wf s -> valid_cpu s cpuid -> 0 < num < 2 ^ 32 -> slab_ok s num DATA ->
  free_block s b = true ->
  exists k blk s', nova_new_data_blocks NOVA_BLOCK_TYPE_4K blocknr num false cpuid dir s
    = Ok (k, blk) s' /\ 0 < k <= num /\ alloc_effect s s' blk k.
Proof.
  intros W Hv Hn Sl Hb.
  destruct (new_blocks_core s num NOVA_BLOCK_TYPE_4K DATA cpuid dir W Hv Hn)
    as (cpu & fl & At & Hc & [[_ Hwhy]|(k & blk & s' & Eff & [Hk Hkl] & _ & E)]).
  - unfold nova_get_numblocks. cbn. by rewrite Z.mul_1_r.
  - exfalso. destruct Hwhy as [En|[[? _]|Hlt]]; [|done|by cbn in Hlt].
    destruct Hc as [Hs%short_of_false|[_ F]]; [tauto|].
    apply existsb_lookup in Hb as (i & f & Ef & Hf). rewrite Forall_forall in F.
    specialize (F f (list_elem_of_lookup_2 _ _ _ Ef)). pose proof (aw_list _ W _ _ Ef) as Wf.
    pose proof (aw_list _ W _ _ (proj2 At)) as Wl.
    rewrite (fl_num_blocks _ _ Wl), En in F. cbn in F.
    assert (fl_nodes f <> []) as Hne by (intros E0; unfold fl_free in Hf; by rewrite E0 in Hf).
    pose proof (fl_wf_bound _ _ Wf Hne). destruct (fl_nodes f); [done|]. cbn in *. lia.
  - exists k, blk, s'. unfold nova_new_data_blocks. rewrite E. unfold nova_get_numblocks in *. cbn in *.
    rewrite Z.div_1_r. pose proof (ae_pos _ _ _ _ Eff). split_and!; [done|lia|lia|done].
Qed.

(** A successful allocation of 4 KB blocks, from its result. *)
Lemma new_blocks_inv s s' blocknr num atype cpuid dir r blk :
  alloc_wf s -> valid_cpu s cpuid -> 0 < num < 2 ^ 32 -> slab_ok s num atype ->
  nova_new_blocks blocknr num NOVA_BLOCK_TYPE_4K false atype cpuid dir s = Ok (r, blk) s' ->
  0 < r -> alloc_effect s s' blk r.
Proof.
  intros W Hv Hn Sl Er Hr.
  destruct (new_blocks_core s num NOVA_BLOCK_TYPE_4K atype cpuid dir W Hv Hn)
    as (cpu & fl & _ & _ & [[E _]|(k & b & s1 & Eff & [Hk Hkl] & _ & E)]).
  - unfold nova_get_numblocks. cbn. by rewrite Z.mul_1_r.
  - rewrite E in Er. unfold ENOSPC in Er. simplify_eq. lia.
  - rewrite E in Er. unfold nova_get_numblocks in Er. cbn in Er. rewrite Z.div_1_r in Er.
    injection Er as <- <- <-. done.
Qed.

Lemma alloc_free_again s s' blk k lp :
  alloc_effect s s' blk k -> kmem_cache_zalloc_ok (alloc_clock s') = true ->
  exists s'', nova_free_blocks blk k NOVA_BLOCK_TYPE_4K lp s' = Ok 0 s'' /\ alloc_wf s'' /\
    total_free s'' = total_free s /\ forall b, free_block s'' b = free_block s b.
Proof.
  intros Eff Hk. pose proof (ae_wf _ _ _ _ Eff) as W'. pose proof (ae_pos _ _ _ _ Eff) as Hp.
  destruct (ae_home _ _ _ _ Eff) as (cpu & fl & At & Hlo & Hhi).
  pose proof (aw_home _ W' _ _ (proj2 At)) as Hh. rewrite Z2Nat.id in Hh by apply At.
  pose proof (aw_plb _ W') as Hplb.
  assert (free_request s' blk k NOVA_BLOCK_TYPE_4K cpu fl) as R.
  { split; auto; try (unfold nova_get_numblocks; cbn; lia).
    - apply (Z.div_unique _ _ _ (blk - per_list_blocks s' * cpu)); lia.
    - intros b Hb. unfold nova_get_numblocks in Hb. cbn in Hb. rewrite Z.mul_1_l in Hb.
      by rewrite (ae_free _ _ _ _ Eff), Hb, andb_false_r. }
  destruct (nova_free_blocks_run _ _ _ _ lp _ _ W' R Hk) as (fl' & E & F).
  pose proof (freed_effect _ _ _ _ _ _ W' At F) as [Ww Hfree Htot _].
  eexists. split_and!; [exact E|exact Ww| |].
  - rewrite Htot, (ae_total _ _ _ _ Eff). unfold nova_get_numblocks. cbn. lia.
  - intros b. rewrite Hfree, (ae_free _ _ _ _ Eff).
    replace (blk + nova_get_numblocks NOVA_BLOCK_TYPE_4K * k - 1 - blk + 1) with k
      by (unfold nova_get_numblocks; cbn; lia).
    destruct (in_blocks blk k b) eqn:Eb; [|by rewrite andb_true_r, orb_false_r].
    by rewrite (ae_from _ _ _ _ Eff b Eb).
Qed.

(** Freeing the blocks an allocation returned succeeds and
    gives back the set of free blocks and the count there was before. *)
Theorem alloc_free_roundtrip s s' blocknr num atype cpuid dir k blk lp :
  alloc_wf s -> valid_cpu s cpuid -> 0 < num < 2 ^ 32 -> slab_ok s num atype ->
  nova_new_blocks blocknr num NOVA_BLOCK_TYPE_4K false atype cpuid dir s = Ok (k, blk) s' ->
  0 < k -> kmem_cache_zalloc_ok (alloc_clock s') = true ->
  exists s'', nova_free_blocks blk k NOVA_BLOCK_TYPE_4K lp s' = Ok 0 s'' /\ alloc_wf s'' /\
    total_free s'' = total_free s /\ forall b, free_block s'' b = free_block s b.
Proof.
  intros W Hv Hn Sl E Hk Ha. eapply alloc_free_again; [|done]. by eapply new_blocks_inv.
Qed.

(** Two allocations, one after the other, never hand out the
    same block, whatever CPU, direction and type they are made for. *)
Theorem allocations_disjoint s s1 s2 n1 n2 a1 a2 c1 c2 d1 d2 k1 k2 blk1 blk2 :
  alloc_wf s -> valid_cpu s c1 -> valid_cpu s1 c2 -> 0 < n1 < 2 ^ 32 -> 0 < n2 < 2 ^ 32 ->
  slab_ok s n1 a1 -> slab_ok s1 n2 a2 ->
  nova_new_blocks 0 n1 NOVA_BLOCK_TYPE_4K false a1 c1 d1 s = Ok (k1, blk1) s1 -> 0 < k1 ->
  nova_new_blocks 0 n2 NOVA_BLOCK_TYPE_4K false a2 c2 d2 s1 = Ok (k2, blk2) s2 -> 0 < k2 ->
  blk1 + k1 <= blk2 \/ blk2 + k2 <= blk1.
Proof.
  intros W V1 V2 H1' H2' S1 S2 E1 P1 E2 P2.
  apply (new_blocks_inv _ _ _ _ _ _ _ _ _ W V1 H1' S1) in E1 as A1; [|done].
  apply (new_blocks_inv _ _ _ _ _ _ _ _ _ (ae_wf _ _ _ _ A1) V2 H2' S2) in E2 as A2; [|done].
  destruct (decide (blk1 + k1 <= blk2 \/ blk2 + k2 <= blk1)); [done|exfalso].
  pose proof (ae_from _ _ _ _ A2 (Z.max blk1 blk2)) as Hf.
  rewrite (ae_free _ _ _ _ A1) in Hf.
  assert (in_blocks blk1 k1 (Z.max blk1 blk2) = true) as Hb1 by (unfold in_blocks; bool_lia).
  assert (in_blocks blk2 k2 (Z.max blk1 blk2) = true) as Hb2 by (unfold in_blocks; bool_lia).
  rewrite Hb1, andb_false_r in Hf. by specialize (Hf Hb2).
Qed.

(** The fallback list is one with the most free blocks. *)
Theorem nova_get_candidate_free_list_max s :
  alloc_wf s ->
  exists cpu fl, nova_get_candidate_free_list s = Ok cpu s /\ list_at s cpu fl /\
    forall fl', fl' ∈ free_lists s -> num_free_blocks fl' <= num_free_blocks fl.
Proof.
  intros W. destruct (candidate_run s W) as (cpu & fl & E & At & F).
  exists cpu, fl. split_and!; [done..|]. by apply Forall_forall.
Qed.

(** A superpage allocation that succeeds returns a 2 MB
    aligned, 2 MB multiple range that was free in the list; one that finds
    nothing leaves the state as it was. *)
Theorem nova_alloc_superpage_aligned s cpu fl nb blk0 dir :
  fl_wf (alloc_clock s) fl -> list_at s cpu fl -> 0 < nb < 2 ^ 63 -> nb mod 512 = 0 ->
  kmem_cache_zalloc_ok (alloc_clock s) = true ->
  let res := nova_alloc_superpage cpu nb blk0 dir s in
  res = Ok (0, blk0) s \/
  exists k blk s', res = Ok (k, blk) s' /\ 0 < k <= nb /\ k mod 512 = 0 /\ blk mod 512 = 0 /\
    forall b, in_blocks blk k b = true -> fl_free fl b = true.
Proof.
  intros W At Hnb Hal Hk res.
  assert (IS_DATABLOCKS_2MB_ALIGNED nb DATA = true) as Ea.
  { unfold IS_DATABLOCKS_2MB_ALIGNED. change PAGES_PER_2MB_MASK with (2 ^ 9 - 1).
    rewrite land_mask by lia. change (2 ^ 9) with 512. by rewrite Hal. }
  pose proof (superpage_attempt s cpu fl nb blk0 DATA dir W At Hnb (fun _ => Hk)) as A.
  cbn zeta in A. rewrite Ea in A.
  destruct A as [E|[_ (k & blk & fl1 & s1 & E & _ & Cv & Hle & Hm & Hb)]]; [by left|right].
  exists k, blk. eexists. pose proof (carved_pos _ _ _ _ _ Cv).
  split_and!; [exact E|lia|lia|done|done|]. apply (carved_from _ _ _ _ _ Cv).
Qed.
End alloc.
