(* ===== verification/BallocInit.v ===== *)
(** The layout of the device and the initial allocator ([nova_init_blockmap]).

    Each list owns an equal share of the blocks, reduced by the reserved
    blocks at the two ends of the device, its data-checksum area, the replica
    of that area and its parity area. *)

From S2P Require Import Prelude CInt Crc32c NovaEnv RangeNode Pmem NovaState NovaMonad NovaLib.
From S2P Require Import Balloc BallocSpec BallocAlloc.

Local Open Scope nova_scope.

(** ** Geometry *)
Definition plb (sb : sb_const) : Z := num_blocks sb / cpus sb.

(** A total of [n] blocks shared among the CPUs, rounded up. *)
Definition share (sb : sb_const) (n : Z) : Z :=
  n / cpus sb + (if n mod cpus sb =? 0 then 0 else 1).

Definition csum_blocks (sb : sb_const) : Z :=
  Z.shiftr (u64 (Z.shiftr (initsize sb) NOVA_STRIPE_SHIFT * NOVA_DATA_CSUM_LEN)) PAGE_SHIFT.

Definition parity_blocks (sb : sb_const) : Z :=
  let total := initsize sb / s_blocksize sb in
  let per := u64 (s_blocksize sb / NOVA_STRIPE_SIZE + 1) in
  total / per + (if total mod per =? 0 then 0 else 1).

Definition head_res (sb : sb_const) (i : Z) : Z := if i =? 0 then head_reserved_blocks sb else 0.
Definition tail_res (sb : sb_const) (i : Z) : Z :=
  if i =? cpus sb - 1 then tail_reserved_blocks sb else 0.

(** The first and the last allocatable block of list [i]. *)
Definition list_start (sb : sb_const) (i : Z) : Z :=
  plb sb * i + head_res sb i + share sb (csum_blocks sb) + share sb (parity_blocks sb).
Definition list_end (sb : sb_const) (i : Z) : Z :=
  plb sb * (i + 1) - 1 - tail_res sb i - share sb (csum_blocks sb).

(** The device is large enough for its reserved areas, and small enough for
    the code's integers. *)
Record geometry_ok (sb : sb_const) : Prop := {
  geo_cpus : 0 < cpus sb < 2 ^ 31;
  geo_plb : plb sb < 2 ^ 31 - 1;
  geo_blocks : 0 <= num_blocks sb < 2 ^ 52;
  geo_size : 0 <= initsize sb < 2 ^ 62;
  geo_blocksize : 0 < s_blocksize sb < 2 ^ 31;
  geo_head : 0 < head_reserved_blocks sb;
  geo_tail : 0 <= tail_reserved_blocks sb;
  geo_fits : head_reserved_blocks sb + tail_reserved_blocks sb
    + 2 * share sb (csum_blocks sb) + share sb (parity_blocks sb) < plb sb
}.

Lemma share_nonneg sb n : 0 < cpus sb -> 0 <= n -> 0 <= share sb n.
Proof.
  intros Hc Hn. unfold share. assert (0 <= n / cpus sb) by (apply Z.div_pos; lia).
  case_if; lia.
Qed.

Lemma csum_blocks_nonneg sb : 0 <= csum_blocks sb.
Proof.
  unfold csum_blocks. rewrite Z.shiftr_nonneg. apply uwrap_range. lia.
Qed.

Lemma parity_blocks_range sb :
  geometry_ok sb -> 0 <= parity_blocks sb < 2 ^ 63.
Proof.
  intros []. unfold parity_blocks.
  assert (0 <= s_blocksize sb / NOVA_STRIPE_SIZE < 2 ^ 31).
  { change NOVA_STRIPE_SIZE with 512. split; [apply Z.div_pos; lia|].
    apply Z.div_lt_upper_bound; lia. }
  rewrite (uwrap_small 64) by lia.
  set (per := s_blocksize sb / NOVA_STRIPE_SIZE + 1) in *.
  assert (0 <= initsize sb / s_blocksize sb <= initsize sb).
  { split; [apply Z.div_pos; lia|]. apply Z.div_le_upper_bound; nia. }
  assert (0 <= initsize sb / s_blocksize sb / per <= initsize sb / s_blocksize sb).
  { split; [apply Z.div_pos; lia|]. apply Z.div_le_upper_bound; nia. }
  case_if; lia.
Qed.

Lemma list_range sb i :
  geometry_ok sb -> 0 <= i < cpus sb ->
  0 < list_start sb i <= list_end sb i /\ list_end sb i < 2 ^ 52 /\
  plb sb * i <= list_start sb i /\ list_end sb i < plb sb * (i + 1).
Proof.
  intros G Hi. pose proof (geo_cpus _ G). pose proof (geo_fits _ G). pose proof (geo_head _ G).
  pose proof (geo_tail _ G). pose proof (geo_blocks _ G).
  pose proof (share_nonneg sb _ ltac:(lia) (csum_blocks_nonneg sb)).
  pose proof (share_nonneg sb _ ltac:(lia) (proj1 (parity_blocks_range sb G))).
  assert (plb sb * cpus sb <= num_blocks sb).
  { unfold plb. pose proof (Z.mul_div_le (num_blocks sb) (cpus sb)). lia. }
  unfold list_start, list_end, head_res, tail_res.
  assert (plb sb * (i + 1) <= plb sb * cpus sb) by nia.
  assert (0 <= plb sb * i) by nia.
  destruct (Z.eqb_spec i 0), (Z.eqb_spec i (cpus sb - 1)); subst; nia.
Qed.

(** The fields the layout functions leave alone. *)
Definition same_nodes (fl fl' : free_list) : Prop :=
  block_free_tree fl' = block_free_tree fl /\ first_node fl' = first_node fl /\
  last_node fl' = last_node fl /\ num_blocknode fl' = num_blocknode fl /\
  num_free_blocks fl' = num_free_blocks fl.

Lemma csum_init_spec sb fl :
  0 < cpus sb -> 0 <= block_start fl < 2 ^ 62 -> share sb (csum_blocks sb) <= block_end fl < 2 ^ 62 ->
  let c := share sb (csum_blocks sb) in
  let fl' := nova_data_csum_init_free_list sb fl in
  block_start fl' = block_start fl + c /\ block_end fl' = block_end fl - c /\
  csum_start fl' = block_start fl /\ num_csum_blocks fl' = c /\
  replica_csum_start fl' = block_end fl + 1 - c /\ same_nodes fl fl'.
Proof.
  intros Hc Hs He c fl'. unfold fl', nova_data_csum_init_free_list. fold (csum_blocks sb).
  pose proof (share_nonneg sb _ Hc (csum_blocks_nonneg sb)) as Hn.
  assert (0 <= csum_blocks sb / cpus sb) by (apply Z.div_pos; [apply csum_blocks_nonneg|lia]).
  unfold share in *. unfold c, share.
  destruct (Z.eqb_spec (csum_blocks sb mod cpus sb) 0); cbn [negb];
    cbn; rewrite (uwrap_small 64 (block_start fl + csum_blocks sb / cpus sb)) by lia;
    rewrite ?(uwrap_small 64 (block_start fl + csum_blocks sb / cpus sb + 1)) by lia.
  - replace (block_start fl + csum_blocks sb / cpus sb - block_start fl)
      with (csum_blocks sb / cpus sb) by lia.
    rewrite !(uwrap_small 64 (csum_blocks sb / cpus sb)), !uwrap_small by lia.
    split_and!; try lia. by repeat split.
  - replace (block_start fl + csum_blocks sb / cpus sb + 1 - block_start fl)
      with (csum_blocks sb / cpus sb + 1) by lia.
    rewrite !(uwrap_small 64 (csum_blocks sb / cpus sb + 1)), !uwrap_small by lia.
    split_and!; try lia. by repeat split.
Qed.

Lemma parity_init_spec sb fl :
  geometry_ok sb -> 0 <= block_start fl < 2 ^ 62 ->
  share sb (parity_blocks sb) <= block_end fl < 2 ^ 62 ->
  let c := share sb (parity_blocks sb) in
  let fl' := nova_data_parity_init_free_list sb fl in
  block_start fl' = block_start fl + c /\ block_end fl' = block_end fl /\
  parity_start fl' = block_start fl /\ num_parity_blocks fl' = c /\
  replica_parity_start fl' = block_end fl + 1 - c /\
  csum_start fl' = csum_start fl /\ num_csum_blocks fl' = num_csum_blocks fl /\
  replica_csum_start fl' = replica_csum_start fl /\ same_nodes fl fl'.
Proof.
  intros G Hs He c fl'. pose proof (geo_cpus _ G) as Hc.
  pose proof (parity_blocks_range sb G) as Hp. pose proof (geo_blocksize _ G).
  pose proof (share_nonneg sb _ ltac:(lia) (proj1 Hp)) as Hn.
  assert (0 <= parity_blocks sb / cpus sb) by (apply Z.div_pos; lia).
  unfold fl', nova_data_parity_init_free_list.
  set (total := initsize sb / s_blocksize sb).
  set (per := u64 (s_blocksize sb / NOVA_STRIPE_SIZE + 1)).
  assert ((if negb (total mod per =? 0) then u64 (total / per + 1) else total / per)
          = parity_blocks sb) as ->.
  { unfold parity_blocks in *. fold total per in Hp |- *.
    destruct (Z.eqb_spec (total mod per) 0); cbn [negb]; [lia|].
    apply uwrap_small. assert (0 <= total / per); [|lia].
    apply Z.div_pos; [apply Z.div_pos; [apply G|lia]|].
    unfold per. assert (0 <= s_blocksize sb / NOVA_STRIPE_SIZE < 2 ^ 31); [|rewrite uwrap_small; lia].
    change NOVA_STRIPE_SIZE with 512. split; [apply Z.div_pos; lia|].
    apply Z.div_lt_upper_bound; lia. }
  unfold share in *. unfold c, share.
  destruct (Z.eqb_spec (parity_blocks sb mod cpus sb) 0); cbn [negb];
    cbn; rewrite (uwrap_small 64 (block_start fl + parity_blocks sb / cpus sb)) by lia;
    rewrite ?(uwrap_small 64 (block_start fl + parity_blocks sb / cpus sb + 1)) by lia.
  - replace (block_start fl + parity_blocks sb / cpus sb - block_start fl)
      with (parity_blocks sb / cpus sb) by lia.
    rewrite !(uwrap_small 64 (parity_blocks sb / cpus sb)), !uwrap_small by lia.
    split_and!; try lia. by repeat split.
  - replace (block_start fl + parity_blocks sb / cpus sb + 1 - block_start fl)
      with (parity_blocks sb / cpus sb + 1) by lia.
    rewrite !(uwrap_small 64 (parity_blocks sb / cpus sb + 1)), !uwrap_small by lia.
    split_and!; try lia. by repeat split.
Qed.

(** The layout of list [i]: checksum area, parity area, allocatable blocks,
    replica of the checksum area, one after the other. *)
Record layout (sb : sb_const) (i : Z) (fl : free_list) : Prop := {
  lay_csum : csum_start fl = plb sb * i + head_res sb i;
  lay_parity : parity_start fl = csum_start fl + num_csum_blocks fl;
  lay_start : block_start fl = parity_start fl + num_parity_blocks fl;
  lay_start_at : block_start fl = list_start sb i;
  lay_end_at : block_end fl = list_end sb i;
  lay_replica : replica_csum_start fl = block_end fl + 1;
  lay_replica_end :
    replica_csum_start fl + num_csum_blocks fl = plb sb * (i + 1) - tail_res sb i;
  lay_sizes : 0 <= num_csum_blocks fl /\ 0 <= num_parity_blocks fl;
  lay_shares : num_csum_blocks fl = share sb (csum_blocks sb) /\ num_parity_blocks fl = share sb (parity_blocks sb);
  lay_replica_parity : replica_parity_start fl = block_end fl + 1 - num_parity_blocks fl
}.

Lemma init_free_list_layout sb i fl :
  geometry_ok sb -> 0 <= i < cpus sb ->
  layout sb i (nova_init_free_list sb fl i) /\ same_nodes fl (nova_init_free_list sb fl i).
Proof.
  intros G Hi. pose proof (geo_cpus _ G). pose proof (geo_fits _ G). pose proof (geo_head _ G).
  pose proof (geo_tail _ G). pose proof (geo_blocks _ G). pose proof (geo_plb _ G).
  pose proof (share_nonneg sb _ ltac:(lia) (csum_blocks_nonneg sb)) as Hcs.
  pose proof (share_nonneg sb _ ltac:(lia) (proj1 (parity_blocks_range sb G))) as Hps.
  pose proof (list_range sb i G Hi) as (Hr1 & Hr2 & Hr3 & Hr4).
  assert (0 <= plb sb * i < 2 ^ 52) by nia.
  unfold nova_init_free_list. cbv zeta. fold (plb sb).
  rewrite (uwrap_small 64 (plb sb * i)) by lia.
  set (fl0 := set_block_end (u64 (block_start (set_block_start (plb sb * i) fl) + plb sb - 1))
                (set_block_start (plb sb * i) fl)).
  assert (block_start fl0 = plb sb * i /\ block_end fl0 = plb sb * (i + 1) - 1 /\ same_nodes fl fl0)
    as (S0 & E0 & N0).
  { unfold fl0. cbn. rewrite uwrap_small by lia. split_and!; [done|lia|by repeat split]. }
  set (fl1 := if i =? 0 then _ else fl0).
  assert (block_start fl1 = plb sb * i + head_res sb i /\ block_end fl1 = block_end fl0 /\
          same_nodes fl fl1) as (S1 & E1 & N1).
  { unfold fl1, head_res. unfold head_res in *.
    destruct (i =? 0); [|rewrite Z.add_0_r; done].
    split_and!; [|done..].
    etransitivity; [reflexivity|]. cbn. rewrite <- S0. apply uwrap_small. lia. }
  set (fl2 := if i =? cpus sb - 1 then _ else fl1).
  assert (block_start fl2 = plb sb * i + head_res sb i /\
          block_end fl2 = plb sb * (i + 1) - 1 - tail_res sb i /\ same_nodes fl fl2)
    as (S2 & E2 & N2).
  { unfold fl2, tail_res. destruct (i =? cpus sb - 1).
    - split_and!; [done| |done]. rewrite <- E0, <- E1. cbn. apply uwrap_small. lia.
    - rewrite E1, E0. split_and!; [done|lia|done]. }
  unfold list_start, list_end in *.
  assert (0 <= head_res sb i) by (unfold head_res; case_if; lia).
  assert (0 <= tail_res sb i) by (unfold tail_res; case_if; lia).
  destruct (csum_init_spec sb fl2) as (Cs & Ce & Ccs & Cn & Cr & CN); [lia|nia|nia|].
  set (fl3 := nova_data_csum_init_free_list sb fl2) in *.
  destruct (parity_init_spec sb fl3 G) as (Ps & Pe & Pps & Pn & Pr & P1 & P2 & P3 & PN); [nia|nia|].
  set (fl4 := nova_data_parity_init_free_list sb fl3) in *.
  split.
  - split; rewrite ?P1, ?P2, ?P3; unfold list_start, list_end; lia.
  - unfold same_nodes in *. destruct N2 as (?&?&?&?&?), CN as (?&?&?&?&?), PN as (?&?&?&?&?).
    split_and!; congruence.
Qed.

(** C38: in every list the checksum area, the parity area, the allocatable
    blocks and the replica of the checksum area follow one another and fill the
    list's share of the device but for the blocks reserved at both ends of the
    device; the areas have the sizes the device's size asks for, divided over the
    CPUs and rounded up, and at least one block is allocatable.  The area meant
    for the replica of the parity is not set aside: it is the end of the
    allocatable blocks. *)
Theorem nova_init_free_list_layout sb i fl :
  geometry_ok sb -> 0 <= i < cpus sb ->
  let fl' := nova_init_free_list sb fl i in
  plb sb * i + head_res sb i = csum_start fl' /\
  csum_start fl' + num_csum_blocks fl' = parity_start fl' /\
  parity_start fl' + num_parity_blocks fl' = block_start fl' /\
  block_start fl' <= block_end fl' /\
  block_end fl' + 1 = replica_csum_start fl' /\
  replica_csum_start fl' + num_csum_blocks fl' = plb sb * (i + 1) - tail_res sb i /\
  num_csum_blocks fl' = share sb (csum_blocks sb) /\
  num_parity_blocks fl' = share sb (parity_blocks sb) /\
  replica_parity_start fl' + num_parity_blocks fl' = block_end fl' + 1.
Proof.
  intros G Hi fl'. unfold fl'. destruct (init_free_list_layout sb i fl G Hi) as [[] _].
  pose proof (list_range sb i G Hi). split_and!; lia.
Qed.

(** The area [replica_parity_start] points to is not set
    aside: it is the last part of the allocatable blocks. *)
Theorem replica_parity_is_allocatable sb i fl :
  geometry_ok sb -> 0 <= i < cpus sb ->
  let fl' := nova_init_free_list sb fl i in
  0 < num_parity_blocks fl' <= block_end fl' - block_start fl' + 1 ->
  block_start fl' <= replica_parity_start fl' <= block_end fl'.
Proof.
  intros G Hi fl' Hn. unfold fl' in *.
  destruct (init_free_list_layout sb i fl G Hi) as [[] _]. lia.
Qed.

Section init.
Context `{NovaEnv, RbLibOk}.

(** List [i] as the initialisation leaves it: one node with every allocatable
    block. *)
Record inited (sb : sb_const) (i : Z) (c : ptr) (fl : free_list) : Prop := {
  in_wf : fl_wf c fl;
  in_layout : layout sb i fl;
  in_free : forall b, fl_free fl b = (list_start sb i <=? b) && (b <=? list_end sb i)
}.

Lemma init_blockmap_body_run s i fl :
  geometry_ok (sbc s) -> list_at s i fl -> 0 <= i < cpus (sbc s) ->
  block_free_tree fl = RB_ROOT -> kmem_cache_zalloc_ok (alloc_clock s) = true ->
  exists fl', init_blockmap_body 0 i s = Ok None (with_list i fl' (bump s)) /\
    inited (sbc s) i (alloc_clock s + 1) fl'.
Proof.
  intros G At Hi Hroot Hk. unfold init_blockmap_body.
  pose proof (init_free_list_layout (sbc s) i fl G Hi) as [L N].
  set (fl1 := nova_init_free_list (sbc s) fl i) in *.
  pose proof (list_range _ _ G Hi) as (Hr1 & Hr2 & Hr3 & Hr4). pose proof (geo_plb _ G).
  destruct L as [L1 L2 L3 L4 L5 L6 L7 L8 L8' L9] eqn:EL. clear EL.
  rewrite (bind_ok _ _ _ (sbc s) s) by done.
  rewrite (bind_ok _ _ _ tt (with_list i fl1 s)) 
    by exact (update_free_list_run s i fl (fun fl => nova_init_free_list (sbc s) fl i) At).
  cbn [Z.eqb]. clearbody fl1.
  set (fl2 := set_num_free_blocks (u64 (block_end fl1 - block_start fl1 + 1)) fl1).
  rewrite (bind_ok _ _ _ tt (with_list i fl2 s)).
  2: { rewrite (update_free_list_run _ _ fl1) by (by eapply list_at_with).
       by rewrite with_list_with. }
  rewrite (bind_ok _ _ _ (Some (alloc_clock s)) (with_list i fl2 (bump s)))
    by (unfold nova_alloc_blocknode, nova_alloc_range_node, kmem_cache_zalloc; cbn; by rewrite Hk).
  assert (At2 : list_at (with_list i fl2 (bump s)) i fl2).
  { eapply (list_at_with (bump s)). exact At. }
  rewrite (bind_ok _ _ _ _ _ (get_free_list_run _ _ _ At2)).
  set (n := nova_update_range_node_checksum _).
  assert (range_low n = list_start (sbc s) i /\ range_high n = list_end (sbc s) i) as [Hl Hh].
  { unfold n. autorewrite with node. by rewrite <- L4, <- L5. }
  assert (block_free_tree fl2 = RB_ROOT) as Hr 
    by (destruct N as [E _]; rewrite <- Hroot; exact E).
  destruct (nova_insert_blocktree_free (block_free_tree fl2) (alloc_clock s) n [] [])
    as (t' & EI & EO & WT).
  { rewrite Hr. apply tree_wf_root. }
  { rewrite Hr. apply not_elem_of_nil. }
  { lia. }
  { unfold n. by autorewrite with node. }
  { rewrite Hr. split_and!; [done|constructor..]. }
  rewrite EI. set (fl3 := set_block_free_tree t' fl2).
  rewrite (bind_ok _ _ _ tt (with_list i fl3 (bump s)))
    by (rewrite put_free_list_run; by rewrite with_list_with).
  cbn [Z.eqb negb].
  eexists. split.
  - rewrite (bind_ok _ _ _ tt (with_list i (set_num_blocknode 1 (set_last_node (Some (alloc_clock s))
      (set_first_node (Some (alloc_clock s)) fl3))) (bump s))); [reflexivity|].
    rewrite (update_free_list_run _ _ fl3) by (eapply (list_at_with (bump s)); exact At).
    by rewrite with_list_with.
  - split.
    + split; unfold fl_nodes; cbn; rewrite ?EO; cbn; try done.
      * rewrite L4, L5, uwrap_small by lia. unfold sumZ, node_size. cbn. lia.
      * repeat constructor; cbn; lia.
      * lia.
      * lia.
      * unfold list_start, list_end, tail_res, head_res in *.
        pose proof (geo_fits _ G). pose proof (geo_head _ G). pose proof (geo_tail _ G).
        rewrite L4, L5. repeat case_if; lia.
      * repeat constructor; cbn; lia.
    + by split.
    + intros b. unfold fl_free, fl_nodes. cbn. rewrite EO. cbn. unfold covers. cbn.
      by rewrite Hl, Hh, orb_false_r.
Qed.

(** The loop of [nova_init_blockmap] before iteration [i]. *)
Record init_upto (s0 : nova) (i : Z) (s : nova) : Prop := {
  iu_sbc : sbc s = sbc s0;
  iu_len : length (free_lists s) = length (free_lists s0);
  iu_clock : (alloc_clock s0 <= alloc_clock s)%positive;
  iu_plb : per_list_blocks s = per_list_blocks s0;
  iu_done : forall j fl, free_lists s !! j = Some fl -> Z.of_nat j < i ->
    inited (sbc s0) (Z.of_nat j) (alloc_clock s) fl;
  iu_todo : forall j fl, free_lists s !! j = Some fl -> i <= Z.of_nat j ->
    block_free_tree fl = RB_ROOT
}.

Lemma inited_clock sb i c c' fl :
  inited sb i c fl -> (c <= c')%positive -> inited sb i c' fl.
Proof. intros [] Hc. split; eauto using fl_wf_clock. Qed.

Lemma init_blockmap_loop s0 :
  geometry_ok (sbc s0) -> Z.of_nat (length (free_lists s0)) = cpus (sbc s0) ->
  (forall fl, fl ∈ free_lists s0 -> block_free_tree fl = RB_ROOT) ->
  (forall c, (alloc_clock s0 <= c)%positive -> kmem_cache_zalloc_ok c = true) ->
  exists s', for_loop (Z.to_nat (cpus (sbc s0))) 0 (init_blockmap_body 0) s0 = Ok None s' /\
    init_upto s0 (cpus (sbc s0)) s'.
Proof.
  intros G HL Hroot Hk. pose proof (geo_cpus _ G).
  destruct (for_loop_inv (init_upto s0) (init_blockmap_body 0) (Z.to_nat (cpus (sbc s0))) 0 s0)
    as (s' & E & I).
  - split; try done; [lia|]. intros j fl Ej _. apply Hroot. by eapply list_elem_of_lookup_2.
  - intros i s Hi [].
    destruct (lookup_lt_is_Some_2 (free_lists s) (Z.to_nat i)) as [fl Efl]; [lia|].
    assert (At : list_at s i fl) by (split; [lia|done]).
    destruct (init_blockmap_body_run s i fl) as (fl' & Eb & In).
    { by rewrite iu_sbc0. }
    { done. }
    { rewrite iu_sbc0. lia. }
    { apply (iu_todo0 _ _ Efl). lia. }
    { by apply Hk. }
    rewrite iu_sbc0 in In.
    exists (with_list i fl' (bump s)). split; [done|]. split; cbn; auto.
    + by rewrite length_insert.
    + lia.
    + intros j f [(<- & -> & _)|[Hne Hj]]%list_lookup_insert_Some Hlt.
      * rewrite Z2Nat.id by lia. done.
      * eapply inited_clock; [|by instantiate (1 := alloc_clock s); lia].
        apply iu_done0; [done|lia].
    + intros j f [(<- & -> & _)|[Hne Hj]]%list_lookup_insert_Some Hle; [lia|].
      apply (iu_todo0 _ _ Hj). lia.
  - exists s'. split; [done|]. by rewrite Z.add_0_l, Z2Nat.id in I by lia.
Qed.

Lemma init_blockmap_run s :
  geometry_ok (sbc s) -> Z.of_nat (length (free_lists s)) = cpus (sbc s) ->
  (forall fl, fl ∈ free_lists s -> block_free_tree fl = RB_ROOT) ->
  (forall c, (alloc_clock s <= c)%positive -> kmem_cache_zalloc_ok c = true) ->
  exists s', nova_init_blockmap 0 s = Ok tt s' /\ alloc_wf s' /\
    forall b, free_block s' b = true <->
      exists i, 0 <= i < cpus (sbc s) /\ list_start (sbc s) i <= b <= list_end (sbc s) i.
Proof.
  intros G HL Hroot Hk. pose proof (geo_cpus _ G) as Hc. pose proof (geo_fits _ G).
  set (s1 := set_per_list_blocks (num_blocks (sbc s) / cpus (sbc s)) s).
  destruct (init_blockmap_loop s1 G HL Hroot Hk) as (s' & E & [Isb Il Ic Ip Id _]).
  exists s'. change (sbc s1) with (sbc s) in *. change (per_list_blocks s1) with (plb (sbc s)) in Ip.
  assert (forall i fl, free_lists s' !! i = Some fl ->
    0 <= Z.of_nat i < cpus (sbc s) /\ inited (sbc s) (Z.of_nat i) (alloc_clock s') fl) as Hall.
  { intros i fl Ei. assert (Z.of_nat i < cpus (sbc s)).
    { apply lookup_lt_Some in Ei. rewrite Il in Ei. cbn in Ei. lia. }
    split; [lia|]. by apply Id. }
  split_and!.
  - unfold nova_init_blockmap. rewrite (bind_ok _ _ _ (sbc s) s) by done.
    rewrite (proj2 (Z.eqb_neq _ _)) by lia. rewrite (bind_ok _ _ _ tt s1) by done.
    by rewrite (bind_ok _ _ _ _ _ E).
  - split; rewrite ?Isb, ?Ip; try lia.
    + rewrite Il. done.
    + pose proof (geo_head _ G). pose proof (geo_tail _ G).
      pose proof (share_nonneg (sbc s) _ ltac:(lia) (csum_blocks_nonneg (sbc s))).
      pose proof (share_nonneg (sbc s) _ ltac:(lia) (proj1 (parity_blocks_range (sbc s) G))). lia.
    + intros i fl Ei. apply (Hall _ _ Ei).
    + intros i fl Ei. destruct (Hall _ _ Ei) as [Hi [_ L _]].
      pose proof (list_range _ _ G Hi). rewrite (lay_start_at _ _ _ L), (lay_end_at _ _ _ L). lia.
  - intros b. unfold free_block. rewrite existsb_lookup. split.
    + intros (i & fl & Ei & Hf). destruct (Hall _ _ Ei) as [Hi [_ _ F]].
      exists (Z.of_nat i). split; [done|]. rewrite F in Hf. zify_bool. lia.
    + intros (i & Hi & Hb).
      destruct (lookup_lt_is_Some_2 (free_lists s') (Z.to_nat i)) as [fl Ei]; [rewrite Il; cbn; lia|].
      exists (Z.to_nat i), fl. split; [done|]. destruct (Hall _ _ Ei) as [_ [_ _ F]].
      rewrite F, Z2Nat.id by lia. bool_lia.
Qed.

(** C28: initialising the lists of a device whose geometry leaves room
    for every reserved area establishes the allocator's invariant, and the
    free blocks are exactly the allocatable blocks of the lists. *)
Theorem nova_init_blockmap_correct s :
  geometry_ok (sbc s) -> Z.of_nat (length (free_lists s)) = cpus (sbc s) ->
  (forall fl, fl ∈ free_lists s -> block_free_tree fl = RB_ROOT) ->
  (forall c, (alloc_clock s <= c)%positive -> kmem_cache_zalloc_ok c = true) ->
  exists s', nova_init_blockmap 0 s = Ok tt s' /\ alloc_wf s' /\
    forall b, free_block s' b = true <->
      exists i, 0 <= i < cpus (sbc s) /\ list_start (sbc s) i <= b <= list_end (sbc s) i.
Proof. apply init_blockmap_run. Qed.

(** ** Initialisation at recovery: bounds, but no ranges *)

(** Every list has the bounds the geometry gives it. *)
Definition laid_out (s : nova) : Prop :=
  forall i fl, free_lists s !! i = Some fl ->
    block_start fl = list_start (sbc s) (Z.of_nat i) /\ block_end fl = list_end (sbc s) (Z.of_nat i).

Lemma blank_fl_wf sb i c fl :
  geometry_ok sb -> 0 <= i < cpus sb -> layout sb i fl -> same_nodes zeroed_free_list fl ->
  fl_wf c fl /\ fl_nodes fl = [].
Proof.
  intros G Hi L (N1 & N2 & N3 & N4 & N5). pose proof (list_range sb i G Hi) as (Hr1 & Hr2 & Hr3 & Hr4).
  pose proof (geo_plb _ G).
  assert (fl_nodes fl = []) as En by (unfold fl_nodes; by rewrite N1). split; [|done].
  split; rewrite ?En, ?(lay_start_at _ _ _ L), ?(lay_end_at _ _ _ L); try done; try lia.
  rewrite N1. apply tree_wf_root.
Qed.

Record blank_upto (s0 : nova) (i : Z) (s : nova) : Prop := {
  bu_eq : s = set_free_lists (free_lists s) s0;
  bu_len : length (free_lists s) = length (free_lists s0);
  bu_done : forall j fl, free_lists s !! j = Some fl -> Z.of_nat j < i ->
    layout (sbc s0) (Z.of_nat j) fl /\ same_nodes zeroed_free_list fl;
  bu_todo : forall j fl, free_lists s !! j = Some fl -> i <= Z.of_nat j -> fl = zeroed_free_list
}.

Lemma init_blockmap_recovery_loop s0 :
  geometry_ok (sbc s0) -> Z.of_nat (length (free_lists s0)) = cpus (sbc s0) ->
  (forall fl, fl ∈ free_lists s0 -> fl = zeroed_free_list) ->
  exists s', for_loop (Z.to_nat (cpus (sbc s0))) 0 (init_blockmap_body 1) s0 = Ok None s' /\
    blank_upto s0 (cpus (sbc s0)) s'.
Proof.
  intros G HL Hz. pose proof (geo_cpus _ G).
  destruct (for_loop_inv (blank_upto s0) (init_blockmap_body 1) (Z.to_nat (cpus (sbc s0))) 0 s0)
    as (s' & E & I).
  - split; [by destruct s0|done|lia|]. intros j fl Ej _. apply Hz. by eapply list_elem_of_lookup_2.
  - intros i s Hi [Ieq Il Id It].
    destruct (lookup_lt_is_Some_2 (free_lists s) (Z.to_nat i)) as [fl Efl]; [lia|].
    assert (At : list_at s i fl) by (split; [lia|done]).
    assert (sbc s = sbc s0) as Es by (by rewrite Ieq).
    pose proof (It _ _ Efl ltac:(lia)) as ->.
    destruct (init_free_list_layout (sbc s0) i zeroed_free_list G ltac:(lia)) as [L N].
    set (fl' := nova_init_free_list (sbc s0) zeroed_free_list i) in *.
    exists (with_list i fl' s). split.
    + unfold init_blockmap_body. rewrite (bind_ok _ _ _ (sbc s) s) by done. rewrite Es.
      by rewrite (bind_ok _ _ _ _ _ (update_free_list_run _ _ _ _ At)).
    + split; cbn; [|by rewrite length_insert| |].
      * exact (f_equal (set_free_lists (<[Z.to_nat i := fl']> (free_lists s))) Ieq).
      * intros j f [(<- & -> & _)|[Hne Hj]]%list_lookup_insert_Some Hlt.
        -- by rewrite Z2Nat.id by lia.
        -- apply Id; [done|lia].
      * intros j f [(<- & -> & _)|[Hne Hj]]%list_lookup_insert_Some Hle; [lia|].
        apply (It _ _ Hj). lia.
  - exists s'. split; [done|]. by rewrite Z.add_0_l, Z2Nat.id in I by lia.
Qed.

(** What [nova_init_blockmap(sb, 1)] leaves: only the lists and
    [per_list_blocks] change. *)
Lemma init_blockmap_recovery_run s :
  geometry_ok (sbc s) -> Z.of_nat (length (free_lists s)) = cpus (sbc s) ->
  (forall fl, fl ∈ free_lists s -> fl = zeroed_free_list) ->
  exists s', nova_init_blockmap 1 s = Ok tt s' /\ alloc_wf s' /\ laid_out s' /\
    (forall i fl, free_lists s' !! i = Some fl -> fl_nodes fl = []) /\
    s' = set_free_lists (free_lists s') (set_per_list_blocks (plb (sbc s)) s).
Proof.
  intros G HL Hz. pose proof (geo_cpus _ G) as Hc. pose proof (geo_fits _ G).
  set (s1 := set_per_list_blocks (plb (sbc s)) s).
  destruct (init_blockmap_recovery_loop s1 G HL Hz) as (s' & E & [Ieq Il Id _]). exists s'.
  assert (sbc s' = sbc s) as Es by (by rewrite Ieq).
  assert (forall i fl, free_lists s' !! i = Some fl -> 0 <= Z.of_nat i < cpus (sbc s) /\
    layout (sbc s) (Z.of_nat i) fl /\ same_nodes zeroed_free_list fl) as Hall.
  { intros i fl Ei. assert (Z.of_nat i < cpus (sbc s)).
    { apply lookup_lt_Some in Ei. rewrite Il in Ei. cbn in Ei. lia. }
    split; [lia|]. by apply Id. }
  assert (per_list_blocks s' = plb (sbc s)) as Ep by (by rewrite Ieq).
  split_and!; [| | | |done].
  - unfold nova_init_blockmap. rewrite (bind_ok _ _ _ (sbc s) s) by done.
    rewrite (proj2 (Z.eqb_neq _ _)) by lia. rewrite (bind_ok _ _ _ tt s1) by done.
    by rewrite (bind_ok _ _ _ _ _ E).
  - split; rewrite ?Es, ?Ep; try lia.
    + rewrite Il. done.
    + pose proof (geo_head _ G). pose proof (geo_tail _ G).
      pose proof (share_nonneg (sbc s) _ ltac:(lia) (csum_blocks_nonneg (sbc s))).
      pose proof (share_nonneg (sbc s) _ ltac:(lia) (proj1 (parity_blocks_range (sbc s) G))). lia.
    + intros i fl Ei. destruct (Hall _ _ Ei) as (Hi & L & N). by eapply blank_fl_wf.
    + intros i fl Ei. destruct (Hall _ _ Ei) as (Hi & L & N).
      pose proof (list_range _ _ G Hi). rewrite (lay_start_at _ _ _ L), (lay_end_at _ _ _ L). lia.
  - intros i fl Ei. destruct (Hall _ _ Ei) as (Hi & L & N). rewrite Es.
    split; [apply (lay_start_at _ _ _ L)|apply (lay_end_at _ _ _ L)].
  - intros i fl Ei. destruct (Hall _ _ Ei) as (Hi & L & N). by eapply (blank_fl_wf _ _ 1%positive).
Qed.
End init.
