(* ===== verification/BallocExample.v ===== *)
(** A small mounted device, on which the allocator's theorems are exercised:
    two CPUs, 4096 blocks of 4 KB, node checksums on, write protection on. *)

From S2P Require Import Prelude CInt Crc32c NovaEnv RangeNode Pmem NovaState NovaMonad NovaLib.
From S2P Require Import Balloc BallocSpec BallocAlloc BallocInit.

Module BallocExample.

#[export] Instance env : NovaEnv := {|
  nova_crc_env := CrcExample.env;
  metadata_csum := 1; data_csum := 1; data_parity := 1; dram_struct_csum := 1;
  wprotect := 1; support_clwb := 1;
  kmem_cache_zalloc_ok := fun _ => true;
  memcpy_mcsafe_rc := fun _ _ => 0
|}.

#[local] Existing Instance RbExample.lib.
#[local] Existing Instance RbExample.lib_ok.

Definition sb : sb_const := {|
  virt_addr := 0x100000000; initsize := 0x1000000; num_blocks := 4096; cpus := 2;
  head_reserved_blocks := HEAD_RESERVED_BLOCKS; tail_reserved_blocks := TAIL_RESERVED_BLOCKS;
  s_blocksize := 4096; s_blocksize_bits := 12; s_mount_opt := 0;
  replica_reserved_inodes_addr := 0x100fff000
|}.

(** After [nova_alloc_block_free_lists]. *)
Definition s0 : nova := {|
  sbc := sb; s_flags := 0; cr0_wp := true; per_list_blocks := 0;
  free_lists := [zeroed_free_list; zeroed_free_list]; inode_maps := []; map_id := 0;
  s_inodes_used_count := 0; s_epoch_id := 1; mount_snapshot_epoch_id := 0;
  running_cpu := 1; alloc_clock := 1%positive; nvmm := ∅; trace := []
|}.

Definition run {A} (m : M A) (s : nova) : nova :=
  match m s with Ok _ s' => s' | Fault _ => s end.

(** After [nova_init_blockmap]. *)
Definition s1 : nova := Eval vm_compute in run (nova_init_blockmap 0) s0.

Lemma sb_geometry : geometry_ok sb.
Proof. split; vm_compute; intuition congruence. Qed.

Lemma s1_run : nova_init_blockmap 0 s0 = Ok tt s1.
Proof. vm_compute. reflexivity. Qed.

Lemma s1_wf : alloc_wf s1.
Proof.
  destruct (init_blockmap_run s0) as (s' & E & W & _).
  - apply sb_geometry.
  - reflexivity.
  - intros fl Hfl. cbn in Hfl. set_solver.
  - intros. reflexivity.
  - rewrite s1_run in E. by simplify_eq.
Qed.

Lemma nova_init_blockmap_correct_witness :
  exists s', nova_init_blockmap 0 s0 = Ok tt s' /\ alloc_wf s' /\
    forall b, free_block s' b = true <->
      exists i, 0 <= i < 2 /\ list_start sb i <= b <= list_end sb i.
Proof.
  apply (nova_init_blockmap_correct s0).
  - apply sb_geometry.
  - reflexivity.
  - intros fl Hfl. cbn in Hfl. set_solver.
  - intros. reflexivity.
Defined.

Lemma nova_init_free_list_layout_witness :
  let fl' := nova_init_free_list sb zeroed_free_list 0 in
  plb sb * 0 + head_res sb 0 = csum_start fl' /\
  csum_start fl' + num_csum_blocks fl' = parity_start fl' /\
  parity_start fl' + num_parity_blocks fl' = block_start fl' /\
  block_start fl' <= block_end fl' /\
  block_end fl' + 1 = replica_csum_start fl' /\
  replica_csum_start fl' + num_csum_blocks fl' = plb sb * (0 + 1) - tail_res sb 0 /\
  num_csum_blocks fl' = share sb (csum_blocks sb) /\
  num_parity_blocks fl' = share sb (parity_blocks sb) /\
  replica_parity_start fl' + num_parity_blocks fl' = block_end fl' + 1.
Proof. apply (nova_init_free_list_layout sb 0); [apply sb_geometry|cbn; lia]. Defined.

Lemma replica_parity_is_allocatable_witness :
  let fl' := nova_init_free_list sb zeroed_free_list 0 in
  block_start fl' <= replica_parity_start fl' <= block_end fl'.
Proof.
  apply (replica_parity_is_allocatable sb 0); [apply sb_geometry|cbn; lia|].
  vm_compute. intuition congruence.
Defined.

(** 1536 blocks from CPU 0 for data: a superpage request. *)
Lemma nova_alloc_superpage_aligned_witness :
  let res := nova_alloc_superpage 0 1536 0 ALLOC_FROM_HEAD s1 in
  res = Ok (0, 0) s1 \/
  exists k blk s', res = Ok (k, blk) s' /\ 0 < k <= 1536 /\ k mod 512 = 0 /\ blk mod 512 = 0 /\
    forall b, in_blocks blk k b = true ->
      fl_free (nth 0 (free_lists s1) zeroed_free_list) b = true.
Proof.
  apply (nova_alloc_superpage_aligned s1 0 (nth 0 (free_lists s1) zeroed_free_list) 1536 0).
  - apply (aw_list _ s1_wf 0). reflexivity.
  - split; [lia|reflexivity].
  - lia.
  - reflexivity.
  - reflexivity.
Defined.

Lemma valid1 : valid_cpu s1 ANY_CPU.
Proof. left. split; [done|cbn; lia]. Qed.

Lemma slab_s1 nb a : slab_ok s1 nb a.
Proof. by intros _. Qed.

Lemma s1_device : device_ok s1.
Proof.
  split; [cbn; lia|]. split; [cbn; lia|]. intros [|[|i]] fl E; cbn in E; simplify_eq; cbn.
  all: unfold PAGE_SIZE; lia.
Qed.

Lemma nova_new_blocks_correct_witness :
  let res := nova_new_blocks 7 3 1 true DATA ANY_CPU ALLOC_FROM_TAIL s1 in
  res = Ok (- ENOSPC, 7) s1 \/
  (exists k blk s', res = Ok (k / 512, blk) s' /\ alloc_result true s1 s' blk k /\ k <= 1536) \/
  (IS_DATABLOCKS_2MB_ALIGNED 1536 DATA = true /\ kmem_cache_zalloc_ok (alloc_clock s1) = false /\
   exists cpu lo n t, alloc_result false s1 t lo n /\
     (res = Ok (- ENOSPC, 7) (overcount cpu n t) \/
      exists k blk t', res = Ok (k / 512, blk) (overcount cpu n t') /\ alloc_result true t t' blk k /\ k <= 1536)).
Proof.
  apply (nova_new_blocks_correct s1 7 3 1 true DATA ANY_CPU ALLOC_FROM_TAIL);
    [apply s1_wf|apply valid1|lia|split; [apply s1_device|done]].
Defined.


Lemma nova_new_blocks_zeroed_witness :
  let res := nova_new_blocks 7 3 0 true LOG ANY_CPU ALLOC_FROM_TAIL s1 in
  res = Ok (- ENOSPC, 7) s1 \/
  exists k blk s', res = Ok (k / nova_get_numblocks 0, blk) s' /\
    zeroed (nvmm s1) (nvmm s') (virt_addr (sbc s1) + blk * PAGE_SIZE) (k * PAGE_SIZE) /\
    (is_protected s1 = true -> cr0_wp s' = true) /\
    (forall b, free_block s' b = free_block s1 b && negb (in_blocks blk k b)).
Proof.
  apply (nova_new_blocks_zeroed s1 7 3 0 LOG ANY_CPU ALLOC_FROM_TAIL);
    [apply s1_wf|apply s1_device|apply valid1|lia|cbn; lia|apply slab_s1].
Defined.

Lemma nova_new_data_blocks_progress_witness :
  exists k blk s', nova_new_data_blocks NOVA_BLOCK_TYPE_4K 0 5000 false ANY_CPU ALLOC_FROM_HEAD s1
    = Ok (k, blk) s' /\ 0 < k <= 5000 /\ alloc_effect s1 s' blk k.
Proof.
  apply (nova_new_data_blocks_progress s1 0 5000 ANY_CPU ALLOC_FROM_HEAD 400);
    [apply s1_wf|apply valid1|lia|apply slab_s1|reflexivity].
Defined.

(** After allocating three log blocks. *)
Definition s2 : nova := Eval vm_compute in
  run (nova_new_blocks 0 3 NOVA_BLOCK_TYPE_4K false LOG ANY_CPU ALLOC_FROM_HEAD) s1.

Lemma s2_run :
  nova_new_blocks 0 3 NOVA_BLOCK_TYPE_4K false LOG ANY_CPU ALLOC_FROM_HEAD s1 = Ok (3, 2292) s2.
Proof. vm_compute. reflexivity. Qed.

Lemma alloc_free_roundtrip_witness :
  exists s'', nova_free_blocks 2292 3 NOVA_BLOCK_TYPE_4K true s2 = Ok 0 s'' /\ alloc_wf s'' /\
    total_free s'' = total_free s1 /\ forall b, free_block s'' b = free_block s1 b.
Proof.
  eapply (alloc_free_roundtrip s1 s2 0 3 LOG ANY_CPU ALLOC_FROM_HEAD 3 2292);
    [apply s1_wf|apply valid1|lia|apply slab_s1|apply s2_run|lia|reflexivity].
Defined.

Definition s3 : nova := Eval vm_compute in
  run (nova_new_blocks 0 5 NOVA_BLOCK_TYPE_4K false DATA 1 ALLOC_FROM_TAIL) s2.

Lemma s3_run :
  nova_new_blocks 0 5 NOVA_BLOCK_TYPE_4K false DATA 1 ALLOC_FROM_TAIL s2 = Ok (5, 4073) s3.
Proof. vm_compute. reflexivity. Qed.

Lemma allocations_disjoint_witness : 2292 + 3 <= 4073 \/ 4073 + 5 <= 2292.
Proof.
  eapply (allocations_disjoint s1 s2 s3 3 5 LOG DATA ANY_CPU 1 ALLOC_FROM_HEAD ALLOC_FROM_TAIL
    3 5 2292 4073);
    [apply s1_wf|apply valid1|right; cbn; split; [done|lia]|lia|lia|by intros _|by intros _
    |apply s2_run|lia|apply s3_run|lia].
Defined.

Lemma nova_get_candidate_free_list_max_witness :
  exists cpu fl, nova_get_candidate_free_list s2 = Ok cpu s2 /\ list_at s2 cpu fl /\
    forall fl', fl' ∈ free_lists s2 -> num_free_blocks fl' <= num_free_blocks fl.
Proof.
  apply (nova_get_candidate_free_list_max s2).
  assert (alloc_effect s1 s2 2292 3) as E.
  { eapply new_blocks_inv; [apply s1_wf|apply valid1| |apply slab_s1|apply s2_run|]; lia. }
  apply (ae_wf _ _ _ _ E).
Defined.

Lemma s2_wf : alloc_wf s2.
Proof.
  assert (alloc_effect s1 s2 2292 3) as E.
  { eapply new_blocks_inv; [apply s1_wf|apply valid1| |apply slab_s1|apply s2_run|]; lia. }
  apply (ae_wf _ _ _ _ E).
Qed.

Definition fl2 : free_list := nth 1 (free_lists s2) zeroed_free_list.

Lemma nova_free_blocks_correct_witness :
  exists s', nova_free_blocks 2293 1 0 false s2 = Ok 0 s' /\
    free_effect s2 s' 2293 (nova_get_numblocks 0 * 1).
Proof.
  apply (nova_free_blocks_correct s2 2293 1 0 false 1 fl2); [apply s2_wf| |reflexivity].
  split; [lia|reflexivity|split; [lia|reflexivity]|vm_compute; congruence|vm_compute; congruence|].
  intros b Hb. assert (b = 2293) as ->; [|reflexivity].
  unfold in_blocks, nova_get_numblocks in Hb. cbn in Hb. zify_bool. lia.
Defined.

Lemma nova_free_blocks_double_witness :
  nova_free_blocks 2295 4 0 false s2 = Ok (- EINVAL) (bump s2).
Proof.
  apply (nova_free_blocks_double s2 2295 4 0 false 1 fl2);
    [apply s2_wf|lia|reflexivity|split; [lia|reflexivity]|reflexivity|vm_compute; congruence
    |reflexivity].
Defined.

End BallocExample.
