(* ===== verification/InodeMap.v ===== *)
(** Inode numbers (inode.c): every CPU owns the numbers congruent to its index
    and keeps the ones in use as a tree of ranges of [ino / cpus].

    Each definition translates the C function of the same name.  The per-map
    mutex is not modelled: every operation runs under it. *)

From S2P Require Import Prelude CInt Crc32c NovaEnv RangeNode Pmem NovaState NovaMonad NovaLib.
From S2P Require Import Balloc.

Local Open Scope nova_scope.

(** [&sbi->inode_maps[cpu]] *)
Definition get_inode_map (cpu : Z) : M inode_map :=
  fun s =>
    if cpu <? 0 then Fault (FIndex cpu)
    else match inode_maps s !! Z.to_nat cpu with
         | Some im => Ok im s
         | None => Fault (FIndex cpu)
         end.

(** A store to fields of [*inode_map]. *)
Definition put_inode_map (cpu : Z) (im : inode_map) : M unit :=
  modify (fun s => set_inode_maps (<[Z.to_nat cpu := im]> (inode_maps s)) s).

Definition MAX_INODE : Z := Z.shiftl 1 31.

Section inode_map.
Context `{NovaEnv, RbLib}.

(** super.c *)
Definition nova_alloc_inode_node : M (option ptr) := nova_alloc_range_node.
Definition nova_free_inode_node (p : ptr) : M unit := nova_free_range_node p.

(** Returns the result and the tree the map has afterwards. *)
Definition nova_insert_inodetree (im : inode_map) (p : ptr) (new_node : range_node)
    : Z * rb_tree :=
  nova_insert_range_node (inode_inuse_tree im) p new_node NODE_INODE.

(** The body of the loop of [nova_init_inode_inuse_list]; [Some r] is its
    [return]. *)
Definition init_inuse_body (high : Z) (i : Z) : M (option Z) :=
  let! range_node := nova_alloc_inode_node in
  match range_node with
  | None => ret (Some (- ENOMEM))
  | Some p =>
      let! im := get_inode_map i in
      let n := nova_update_range_node_checksum
        (set_range_high high (set_range_low 0 zeroed_node)) in
      let '(rc, tree) := nova_insert_inodetree im p n in
      put_inode_map i (set_inode_inuse_tree tree im) ;;;
      if negb (rc =? 0) then
        nova_err ;;; nova_free_inode_node p ;;; ret (Some rc)
      else
        let! im := get_inode_map i in
        put_inode_map i (set_first_inode_range (Some p) (set_num_range_node_inode 1 im)) ;;;
        ret None
  end.

Definition nova_init_inode_inuse_list : M Z :=
  modify (set_s_inodes_used_count NOVA_NORMAL_INODE_START) ;;;
  let! n := gets (fun s => cpus (sbc s)) in
  if n =? 0 then raise FDivide
  else
    let range_high := NOVA_NORMAL_INODE_START / n in
    let range_high :=
      if negb (NOVA_NORMAL_INODE_START mod n =? 0) then u64 (range_high + 1) else range_high in
    let! r := for_loop (Z.to_nat n) 0 (init_inuse_body range_high) in
    ret (default 0 r).

(** Returns the result and the out-parameter [*ret_node]. *)
Definition nova_search_inodetree (ino : Z) (ret_node0 : option (ptr * range_node))
    : M (Z * option (ptr * range_node)) :=
  let! n := gets (fun s => cpus (sbc s)) in
  if n =? 0 then raise FDivide
  else
    let! im := get_inode_map (s32 (ino mod n)) in
    ret (nova_find_range_node (inode_inuse_tree im) (ino / n) NODE_INODE ret_node0).

(** Returns the result and [*ino], which keeps its value [ino0] on failure. *)
Definition nova_alloc_unused_inode (cpuid ino0 : Z) : M (Z * Z) :=
  let! im := get_inode_map cpuid in
  let tree := inode_inuse_tree im in
  match first_inode_range im with
  | None => raise (FWild 0)
  | Some i =>
      match rb_deref tree i with
      | None => raise FDangling
      | Some n =>
          if negb (nova_range_node_checksum_ok n) then ret (- EIO, ino0)
          else
            let next := rb_next tree i in
            let next_bad := match next with
              | Some (_, m) => negb (nova_range_node_checksum_ok m) | None => false end in
            if next_bad : bool then ret (- EIO, ino0)
            else
              let next_range_low := match next with
                | Some (_, m) => range_low m | None => MAX_INODE end in
              let new_ino := u64 (range_high n + 1) in
              let! rc :=
                match next, new_ino =? u64 (next_range_low - 1) with
                | Some (q, m), true =>
                    (* fill the gap completely *)
                    let tree := rb_update i (fun n =>
                      nova_update_range_node_checksum (set_range_high (range_high m) n)) tree in
                    let tree := rb_erase q tree in
                    nova_free_inode_node q ;;;
                    put_inode_map cpuid (set_num_range_node_inode
                      (u64 (num_range_node_inode im - 1)) (set_inode_inuse_tree tree im)) ;;;
                    ret 0
                | _, _ =>
                    if new_ino <? u64 (next_range_low - 1) then
                      (* aligns to left *)
                      put_inode_map cpuid (set_inode_inuse_tree (rb_update i (fun n =>
                        nova_update_range_node_checksum (set_range_high new_ino n)) tree) im) ;;;
                      ret 0
                    else ret (- ENOSPC)
                end in
              if negb (rc =? 0) then ret (rc, ino0)
              else
                let! n := gets (fun s => cpus (sbc s)) in
                modify (fun s => set_s_inodes_used_count (u64 (s_inodes_used_count s + 1)) s) ;;;
                let! im := get_inode_map cpuid in
                put_inode_map cpuid (set_allocated (s32 (allocated im + 1)) im) ;;;
                ret (0, u64 (new_ino * n + cpuid))
      end
  end.

(** The tail of [nova_free_inuse_inode] from label [block_found]. *)
Definition free_inuse_found (cpuid : Z) : M Z :=
  modify (fun s => set_s_inodes_used_count (u64 (s_inodes_used_count s - 1)) s) ;;;
  let! im := get_inode_map cpuid in
  put_inode_map cpuid (set_freed (s32 (freed im + 1)) im) ;;;
  ret 0.

(** The tail from label [err]. *)
Definition free_inuse_err (rc : Z) : M Z := nova_error_mng ;;; nova_error_mng ;;; ret rc.

Definition nova_free_inuse_inode (ino : Z) : M Z :=
  let! n := gets (fun s => cpus (sbc s)) in
  if n =? 0 then raise FDivide
  else
    let cpuid := s32 (ino mod n) in
    let internal_ino := ino / n in
    let! r := nova_search_inodetree ino None in
    match r with
    | (found, Some (i, nd)) =>
        if found =? 0 then ret (- EINVAL)
        else
          let! im := get_inode_map cpuid in
          let tree := inode_inuse_tree im in
          if (internal_ino =? range_low nd) && (internal_ino =? range_high nd) then
            (* fits entire node *)
            put_inode_map cpuid (set_num_range_node_inode (u64 (num_range_node_inode im - 1))
              (set_inode_inuse_tree (rb_erase i tree) im)) ;;;
            nova_free_inode_node i ;;; free_inuse_found cpuid
          else if (internal_ino =? range_low nd) && (internal_ino <? range_high nd) then
            (* aligns left *)
            put_inode_map cpuid (set_inode_inuse_tree (rb_update i (fun n =>
              nova_update_range_node_checksum (set_range_low (u64 (internal_ino + 1)) n)) tree) im) ;;;
            free_inuse_found cpuid
          else if (range_low nd <? internal_ino) && (internal_ino =? range_high nd) then
            (* aligns right *)
            put_inode_map cpuid (set_inode_inuse_tree (rb_update i (fun n =>
              nova_update_range_node_checksum (set_range_high (u64 (internal_ino - 1)) n)) tree) im) ;;;
            free_inuse_found cpuid
          else if (range_low nd <? internal_ino) && (internal_ino <? range_high nd) then
            (* aligns somewhere in the middle *)
            let! curr_node := nova_alloc_inode_node in
            match curr_node with
            | None => free_inuse_found cpuid
            | Some p =>
                let curr := nova_update_range_node_checksum
                  (set_range_high (range_high nd) (set_range_low (u64 (internal_ino + 1)) zeroed_node)) in
                let im := set_inode_inuse_tree (rb_update i (fun n =>
                  nova_update_range_node_checksum (set_range_high (u64 (internal_ino - 1)) n)) tree) im in
                let '(rc, tree) := nova_insert_inodetree im p curr in
                let im := set_inode_inuse_tree tree im in
                if negb (rc =? 0) then
                  put_inode_map cpuid im ;;; nova_free_inode_node p ;;; free_inuse_err rc
                else
                  put_inode_map cpuid
                    (set_num_range_node_inode (u64 (num_range_node_inode im + 1)) im) ;;;
                  free_inuse_found cpuid
            end
          else free_inuse_err 0
    | (found, None) => if found =? 0 then ret (- EINVAL) else raise (FWild 0)
    end.

(** bbuild.c: marks [ino_low..ino_high] (in steps of [cpus]) used during
    recovery. *)
Definition nova_failure_insert_inodetree (ino_low ino_high : Z) : M Z :=
  if ino_high <? ino_low then nova_err ;;; raise FBug
  else
    let! n := gets (fun s => cpus (sbc s)) in
    if n =? 0 then raise FDivide
    else
      let cpu := s32 (ino_low mod n) in
      if negb (ino_high mod n =? u64 cpu) then nova_err ;;; raise FBug
      else
        let internal_low := ino_low / n in
        let internal_high := ino_high / n in
        let! im := get_inode_map cpu in
        let tree := inode_inuse_tree im in
        let '(rc, prev, next) := nova_find_free_slot tree internal_low internal_high None None in
        if negb (rc =? 0) then ret rc
        else
          let fits_prev := match prev with
            | Some (_, m) => internal_low =? u64 (range_high m + 1) | None => false end in
          let fits_next := match next with
            | Some (_, m) => u64 (internal_high + 1) =? range_low m | None => false end in
          match prev, next, fits_prev, fits_next with
          | Some (pp, pn), Some (np, nn), true, true =>
              (* fits the hole *)
              let tree := rb_erase np tree in
              let tree := rb_update pp (fun n =>
                nova_update_range_node_checksum (set_range_high (range_high nn) n)) tree in
              put_inode_map cpu (set_inode_inuse_tree tree
                (set_num_range_node_inode (u64 (num_range_node_inode im - 1)) im)) ;;;
              nova_free_inode_node np ;;; ret 0
          | Some (pp, pn), _, true, _ =>
              (* aligns left *)
              put_inode_map cpu (set_inode_inuse_tree (rb_update pp (fun n =>
                nova_update_range_node_checksum (set_range_high
                  (u64 (range_high n + (internal_high - internal_low + 1))) n)) tree) im) ;;;
              ret 0
          | _, Some (np, nn), _, true =>
              (* aligns right *)
              put_inode_map cpu (set_inode_inuse_tree (rb_update np (fun n =>
                nova_update_range_node_checksum (set_range_low
                  (u64 (range_low n - (internal_high - internal_low + 1))) n)) tree) im) ;;;
              ret 0
          | _, _, _, _ =>
              (* aligns somewhere in the middle *)
              let! new_node := nova_alloc_inode_node in
              match new_node with
              | None => raise (FWild 0)
              | Some p =>
                  let nd := nova_update_range_node_checksum
                    (set_range_high internal_high (set_range_low internal_low zeroed_node)) in
                  let '(rc, tree) := nova_insert_inodetree im p nd in
                  let im := set_inode_inuse_tree tree im in
                  if negb (rc =? 0) then
                    put_inode_map cpu im ;;; nova_err ;;; nova_free_inode_node p ;;; ret rc
                  else
                    put_inode_map cpu
                      (set_num_range_node_inode (u64 (num_range_node_inode im + 1)) im) ;;;
                    ret 0
              end
          end.

(** bbuild.c *)
Definition nova_destroy_inode_trees : M unit :=
  let! n := gets (fun s => cpus (sbc s)) in
  let! _ := for_loop (R := unit) (Z.to_nat n) 0 (fun i =>
    let! im := get_inode_map i in
    put_inode_map i (set_inode_inuse_tree
      (nova_destroy_range_node_tree (inode_inuse_tree im)) im) ;;;
    ret None) in
  ret tt.
End inode_map.
