(* ===== verification/InodeMapSpec.v ===== *)
(** Correctness of the inode-number allocator.

    [imap_wf] is the representation invariant of one map, [inodes_wf] that of
    all of them; [ino_inuse s ino] is the abstraction, the set of inode numbers
    in use.  Ranges of a map are kept apart by at least one unused number, and
    its first range starts at 0, so the least unused number of a map is the one
    after its first range.  [num_step] is the abstract allocator: a set of used
    numbers from which the least unused number of a CPU is taken. *)

From S2P Require Import Prelude CInt Crc32c NovaEnv RangeNode Pmem NovaState NovaMonad NovaLib.
From S2P Require Import Balloc BallocSpec InodeMap.

Local Open Scope nova_scope.

Definition im_nodes (im : inode_map) : list (ptr * range_node) := inorder (inode_inuse_tree im).
Definition im_inuse (im : inode_map) (k : Z) : bool := covered (im_nodes im) k.

(** At least one number lies between two ranges; nodes are distinct. *)
Definition apart (x y : ptr * range_node) : Prop :=
  range_high x.2 + 1 < range_low y.2 /\ x.1 <> y.1.

Definition ino_inuse (s : nova) (ino : Z) : bool :=
  match inode_maps s !! Z.to_nat (ino mod cpus (sbc s)) with
  | Some im => im_inuse im (ino / cpus (sbc s))
  | None => false
  end.

Section spec.
Context `{NovaEnv, RbLibOk}.

Definition node_ok (c : ptr) (x : ptr * range_node) : Prop :=
  0 <= range_low x.2 <= range_high x.2 /\ range_high x.2 < MAX_INODE - 1 /\
  nova_range_node_checksum_ok x.2 = true /\ (x.1 < c)%positive.

Definition nodes_ok (c : ptr) (l : list (ptr * range_node)) : Prop :=
  StronglySorted apart l /\ Forall (node_ok c) l.

Record imap_wf (c : ptr) (im : inode_map) : Prop := {
  im_ok : nodes_ok c (im_nodes im);
  im_first : exists p n l, im_nodes im = (p, n) :: l /\ range_low n = 0 /\
    first_inode_range im = Some p;
  im_num : num_range_node_inode im = Z.of_nat (length (im_nodes im))
}.

Record inodes_wf (s : nova) : Prop := {
  iw_len : Z.of_nat (length (inode_maps s)) = cpus (sbc s);
  iw_cpus : 0 < cpus (sbc s) < 2 ^ 31;
  iw_map : forall i im, inode_maps s !! i = Some im -> imap_wf (alloc_clock s) im
}.

(** ** Sequences of nodes *)
Lemma nodes_ok_app c l1 l2 :
  nodes_ok c (l1 ++ l2) <->
  nodes_ok c l1 /\ nodes_ok c l2 /\ (forall x y, x ∈ l1 -> y ∈ l2 -> apart x y).
Proof. unfold nodes_ok. rewrite StronglySorted_app, Forall_app. naive_solver. Qed.

Lemma nodes_ok_cons c x l :
  nodes_ok c (x :: l) <-> node_ok c x /\ nodes_ok c l /\ (forall y, y ∈ l -> apart x y).
Proof.
  unfold nodes_ok. rewrite StronglySorted_cons, Forall_cons, Forall_forall. naive_solver.
Qed.

Lemma nodes_ok_clock c c' l : nodes_ok c l -> (c <= c')%positive -> nodes_ok c' l.
Proof.
  intros [S F] Hc. split; [done|]. eapply Forall_impl; [exact F|].
  intros x (? & ? & ? & ?). repeat split; auto; lia.
Qed.

Lemma nodes_ok_nodup c l : nodes_ok c l -> NoDup l.*1.
Proof.
  induction l as [|x l IH]; [constructor|]. intros (_ & W & A)%nodes_ok_cons.
  apply NoDup_cons. split; [|auto]. intros (y & E & Hy)%list_elem_of_fmap.
  by destruct (A y Hy).
Qed.

Lemma nodes_ok_ranges c l : nodes_ok c l -> ranges_wf NODE_INODE l.
Proof.
  intros [S F]. split.
  - induction S as [|x l S IH HF]; constructor.
    + apply IH. by inversion F.
    + rewrite Forall_forall in *. intros y Hy. destruct (HF y Hy). unfold node_lt. cbn. lia.
  - eapply Forall_impl; [exact F|]. cbn. intros x (? & _). lia.
Qed.

(** A map has fewer nodes than inode numbers. *)
Lemma nodes_ok_length c l : nodes_ok c l -> Z.of_nat (length l) < 2 ^ 31.
Proof.
  intros W. destruct (sum_sizes_bound l 0 (MAX_INODE - 2)) as [L R].
  - exact (nodes_ok_ranges _ _ W).
  - destruct W as [_ F]. eapply Forall_impl; [exact F|]. intros x (? & ? & _). lia.
  - done.
  - assert (MAX_INODE = 2 ^ 31) by done. lia.
Qed.

Lemma nodes_ok_tree c t : nodes_ok c (inorder t) -> tree_wf NODE_INODE t.
Proof.
  intros W. pose proof (nodes_ok_nodup _ _ W) as ND. pose proof W as [_ F]. split; [|done|].
  - by apply (nodes_ok_ranges c).
  - eapply Forall_impl; [exact F|]. by intros x (_ & _ & ? & _).
Qed.

Lemma tree_wf_inode_block t : tree_wf NODE_INODE t <-> tree_wf NODE_BLOCK t.
Proof. split; intros [W N C]; by split. Qed.

Lemma insert_walk_inode t p n : insert_walk t p n NODE_INODE = insert_walk t p n NODE_BLOCK.
Proof.
  induction t as [|l IHl q m r IHr]; [done|]. cbn [insert_walk].
  unfold nova_rbtree_compare_rangenode. by rewrite IHl, IHr.
Qed.

(** The sequence with the node [(p, n)] moved to another place of its gap. *)
Lemma nodes_ok_resize c l1 p n n' l2 :
  nodes_ok c (l1 ++ (p, n) :: l2) -> node_ok c (p, n') -> range_low n <= range_low n' ->
  (forall y, y ∈ l2 -> range_high n' + 1 < range_low y.2) ->
  nodes_ok c (l1 ++ (p, n') :: l2).
Proof.
  rewrite !nodes_ok_app, !nodes_ok_cons. intros (W1 & (Hn & W2 & A2) & A1) Hn' Hlo Hhi.
  split_and!; auto.
  - intros y Hy. split; [by apply Hhi|]. apply (A2 y Hy).
  - intros x y Hx [->|Hy]%elem_of_cons.
    + destruct (A1 x (p, n) Hx) as [Hg Hp]; [set_solver|]. split; cbn in *; [lia|done].
    + apply A1; set_solver.
Qed.

Lemma nodes_ok_after c l1 p n l2 y :
  nodes_ok c (l1 ++ (p, n) :: l2) -> y ∈ l2 -> range_high n + 1 < range_low y.2.
Proof. rewrite nodes_ok_app, nodes_ok_cons. intros (_ & (_ & _ & A) & _) Hy. apply (A y Hy). Qed.

Lemma nodes_ok_elem c l x : nodes_ok c l -> x ∈ l -> node_ok c x.
Proof. intros [_ F] Hx. rewrite Forall_forall in F. auto. Qed.

Lemma nodes_ok_remove c l1 x l2 : nodes_ok c (l1 ++ x :: l2) -> nodes_ok c (l1 ++ l2).
Proof. rewrite !nodes_ok_app, nodes_ok_cons. set_solver. Qed.

(** A key covered by one node is covered by no other. *)
Lemma covered_unique c l1 x l2 k :
  nodes_ok c (l1 ++ x :: l2) -> range_low x.2 <= k <= range_high x.2 ->
  covered l1 k = false /\ covered l2 k = false.
Proof.
  rewrite nodes_ok_app, nodes_ok_cons. intros (_ & (_ & _ & A2) & A1) Hk.
  split; apply not_true_iff_false; intros (y & Hy & Hky)%covered_spec.
  - destruct (A1 y x Hy) as [Hg _]; [set_solver|]. lia.
  - destruct (A2 y Hy) as [Hg _]. lia.
Qed.

(** ** Reading and writing the maps *)
Definition with_map (cpu : Z) (im : inode_map) (s : nova) : nova :=
  set_inode_maps (<[Z.to_nat cpu := im]> (inode_maps s)) s.

Definition map_at (s : nova) (cpu : Z) (im : inode_map) : Prop :=
  0 <= cpu /\ inode_maps s !! Z.to_nat cpu = Some im.

Lemma get_inode_map_run s cpu im : map_at s cpu im -> get_inode_map cpu s = Ok im s.
Proof.
  intros [Hc E]. unfold get_inode_map. rewrite (proj2 (Z.ltb_ge _ _)) by lia. by rewrite E.
Qed.

Lemma map_at_with s cpu im im' : map_at s cpu im -> map_at (with_map cpu im' s) cpu im'.
Proof.
  intros [Hc E]. split; [done|]. cbn. apply list_lookup_insert_eq.
  by apply lookup_lt_is_Some; rewrite E.
Qed.

Lemma with_map_with s cpu im im' : with_map cpu im' (with_map cpu im s) = with_map cpu im' s.
Proof. unfold with_map. cbn. by rewrite list_insert_insert_eq. Qed.

Lemma map_at_cpu s cpu im : inodes_wf s -> map_at s cpu im -> 0 <= cpu < cpus (sbc s).
Proof. intros W [Hc E]. apply lookup_lt_Some in E. pose proof (iw_len _ W). lia. Qed.

Lemma map_exists s cpu : inodes_wf s -> 0 <= cpu < cpus (sbc s) -> exists im, map_at s cpu im.
Proof.
  intros W Hc. pose proof (iw_len _ W).
  destruct (lookup_lt_is_Some_2 (inode_maps s) (Z.to_nat cpu)) as [im E]; [lia|].
  exists im. split; [lia|done].
Qed.

Lemma inodes_wf_with s cpu im im' :
  inodes_wf s -> map_at s cpu im -> imap_wf (alloc_clock s) im' -> inodes_wf (with_map cpu im' s).
Proof.
  intros [] [Hc E] W. split; cbn; rewrite ?length_insert; auto.
  intros i f [(<- & -> & _)|[_ ?]]%list_lookup_insert_Some; eauto.
Qed.

Lemma imap_wf_clock c c' im : imap_wf c im -> (c <= c')%positive -> imap_wf c' im.
Proof. intros [] Hc. split; eauto using nodes_ok_clock. Qed.

Lemma inodes_wf_bump s : inodes_wf s -> inodes_wf (bump s).
Proof.
  intros []. split; auto. intros i im E. eapply imap_wf_clock; [by eapply iw_map0|].
  cbn. lia.
Qed.

(** The counters are not part of the invariant. *)
Definition im_core (im im' : inode_map) : Prop :=
  inode_inuse_tree im' = inode_inuse_tree im /\
  first_inode_range im' = first_inode_range im /\
  num_range_node_inode im' = num_range_node_inode im.

Lemma imap_wf_core c im im' : im_core im im' -> imap_wf c im -> imap_wf c im'.
Proof.
  intros (E1 & E2 & E3) []. unfold im_nodes in *.
  split; unfold im_nodes; rewrite ?E1, ?E2, ?E3; auto.
Qed.

Lemma im_inuse_core im im' k : im_core im im' -> im_inuse im' k = im_inuse im k.
Proof. intros (E & _). unfold im_inuse, im_nodes. by rewrite E. Qed.

Lemma ino_inuse_at s cpu im x :
  map_at s cpu im -> x mod cpus (sbc s) = cpu -> ino_inuse s x = im_inuse im (x / cpus (sbc s)).
Proof. intros [_ E] <-. unfold ino_inuse. by rewrite E. Qed.

Lemma ino_inuse_with s cpu im im' x :
  inodes_wf s -> map_at s cpu im ->
  ino_inuse (with_map cpu im' s) x =
  if x mod cpus (sbc s) =? cpu then im_inuse im' (x / cpus (sbc s)) else ino_inuse s x.
Proof.
  intros W At. pose proof (map_at_cpu _ _ _ W At) as Hc.
  pose proof (Z.mod_pos_bound x (cpus (sbc s)) ltac:(lia)) as Hm.
  destruct (Z.eqb_spec (x mod cpus (sbc s)) cpu) as [E|Hne].
  - by rewrite (ino_inuse_at _ cpu im') by eauto using map_at_with.
  - unfold ino_inuse. cbn. rewrite list_lookup_insert_ne by lia. done.
Qed.

(** An inode number and its place: [ino = k * cpus + cpu]. *)
Lemma ino_split n cpu k : 0 <= cpu < n -> (k * n + cpu) mod n = cpu /\ (k * n + cpu) / n = k.
Proof.
  intros Hc. rewrite Z.add_comm, Z.mod_add, Z.div_add by lia.
  rewrite Z.mod_small, Z.div_small by lia. lia.
Qed.

Lemma ino_join n cpu k x : 0 <= cpu < n -> x mod n = cpu /\ x / n = k <-> x = k * n + cpu.
Proof.
  intros Hc. split; [|intros ->; by apply ino_split].
  intros [<- <-]. rewrite (Z.div_mod x n) at 1 by lia. lia.
Qed.

(** A change of one map at one internal number [k], in terms of numbers. *)
Lemma ino_inuse_change s cpu im im' k v :
  inodes_wf s -> map_at s cpu im ->
  (forall j, im_inuse im' j = if j =? k then v else im_inuse im j) ->
  forall x, ino_inuse (with_map cpu im' s) x =
    if x =? k * cpus (sbc s) + cpu then v else ino_inuse s x.
Proof.
  intros W At Hch x. pose proof (map_at_cpu _ _ _ W At) as Hc.
  rewrite (ino_inuse_with _ _ im) by auto. rewrite Hch.
  destruct (Z.eqb_spec x (k * cpus (sbc s) + cpu)) as [->|Hne].
  - destruct (ino_split (cpus (sbc s)) cpu k Hc) as [-> ->]. by rewrite !Z.eqb_refl.
  - destruct (Z.eqb_spec (x mod cpus (sbc s)) cpu) as [E1|]; [|done].
    destruct (Z.eqb_spec (x / cpus (sbc s)) k) as [E2|].
    + destruct Hne. by apply ino_join.
    + symmetry. by apply (ino_inuse_at _ cpu).
Qed.

(** ** Taking a number *)

(** [im'] is [im] with the internal number [k] marked [v]. *)
Definition im_set (c : ptr) (im im' : inode_map) (k : Z) (v : bool) : Prop :=
  imap_wf c im' /\ forall j, im_inuse im' j = if j =? k then v else im_inuse im j.

(** Everything before the end of the first range is in use, the number after
    it is not. *)
Lemma first_range_used c im p n l :
  imap_wf c im -> im_nodes im = (p, n) :: l -> range_low n = 0 ->
  im_inuse im (range_high n + 1) = false /\
  (forall j, 0 <= j <= range_high n -> im_inuse im j = true).
Proof.
  intros W E Hz. pose proof (im_ok _ _ W) as Wn. unfold im_inuse. rewrite E in *.
  apply nodes_ok_cons in Wn as (Hn & Wl & A). split.
  - apply not_true_iff_false. intros (y & [->|Hy]%elem_of_cons & Hk)%covered_spec; cbn in *; [lia|].
    destruct (A y Hy). cbn in *. lia.
  - intros j Hj. rewrite covered_cons. apply orb_true_iff. left. apply covers_spec. cbn. lia.
Qed.

(** The first range grown by one number, with a gap left after it. *)
Lemma grow_first c im p n l im' n' :
  imap_wf c im -> im_nodes im = (p, n) :: l -> range_low n = 0 ->
  im_nodes im' = (p, n') :: l -> node_ok c (p, n') -> range_low n' = 0 ->
  range_high n' = range_high n + 1 ->
  (forall y, y ∈ l -> range_high n + 2 < range_low y.2) ->
  first_inode_range im' = first_inode_range im ->
  num_range_node_inode im' = num_range_node_inode im ->
  im_set c im im' (range_high n + 1) true.
Proof.
  intros W E Hz E' Hn' Hz' Hhi Hgap Ef En. pose proof W as [Wn (p0 & n0 & l0 & E0 & _ & Hf) Hnum].
  rewrite E in E0. simplify_eq. rewrite E in Wn. split.
  - split.
    + rewrite E'. apply (nodes_ok_resize c [] p0 n0 n' l0 Wn); [done|lia|].
      intros y Hy. specialize (Hgap y Hy). lia.
    + exists p0, n', l0. rewrite Ef. auto.
    + rewrite En, Hnum, E, E'. done.
  - intros j. unfold im_inuse. rewrite E, E', !covered_cons. unfold covers. cbn [snd].
    rewrite Hz, Hz', Hhi. destruct (Z.eqb_spec j (range_high n0 + 1)) as [->|].
    + apply nodes_ok_cons in Wn as ((Hb & _) & _). cbn in Hb. bool_lia.
    + f_equal. bool_lia.
Qed.

(** The first range grown over a gap of one number, swallowing the next. *)
Lemma fill_first c im p n q m l im' n' :
  imap_wf c im -> im_nodes im = (p, n) :: (q, m) :: l -> range_low n = 0 ->
  im_nodes im' = (p, n') :: l -> range_low n' = 0 -> range_high n' = range_high m ->
  nova_range_node_checksum_ok n' = true -> range_low m = range_high n + 2 ->
  first_inode_range im' = first_inode_range im ->
  num_range_node_inode im' = num_range_node_inode im - 1 ->
  im_set c im im' (range_high n + 1) true.
Proof.
  intros W E Hz E' Hz' Hhi Hc' Hm Ef En.
  pose proof W as [Wn (p0 & n0 & l0 & E0 & _ & Hf) Hnum].
  rewrite E in E0. simplify_eq. rewrite E in Wn.
  pose proof Wn as Wn'. rewrite !nodes_ok_cons in Wn'.
  destruct Wn' as ((B0 & B1 & _ & Hp) & ((B2 & B3 & _) & _ & Am) & A0). cbn in *.
  split.
  - split.
    + rewrite E'. apply (nodes_ok_resize c [] p0 n0 n' l).
      * by apply (nodes_ok_remove c [(p0, n0)] (q, m) l).
      * repeat split; cbn; auto; lia.
      * lia.
      * intros y Hy. destruct (Am y Hy). cbn in *. lia.
    + exists p0, n', l. rewrite Ef. auto.
    + rewrite En, Hnum, E, E'. cbn [length]. lia.
  - intros j. unfold im_inuse. rewrite E, E', !covered_cons. unfold covers. cbn [snd].
    rewrite Hz, Hz', Hhi, Hm. destruct (Z.eqb_spec j (range_high n0 + 1)) as [->|].
    + bool_lia.
    + rewrite orb_assoc. f_equal. bool_lia.
Qed.

(** The end of [nova_alloc_unused_inode], once the tree has been changed. *)
Lemma alloc_unused_tail s cpu im im1 k :
  inodes_wf s -> map_at s cpu im -> 0 < k < MAX_INODE - 1 ->
  im_set (alloc_clock s) im im1 k true ->
  exists im',
    (let! n := gets (fun s => cpus (sbc s)) in
     modify (fun s => set_s_inodes_used_count (u64 (s_inodes_used_count s + 1)) s) ;;;
     let! im := get_inode_map cpu in
     put_inode_map cpu (set_allocated (s32 (allocated im + 1)) im) ;;;
     ret (0, u64 (k * n + cpu))) (with_map cpu im1 s)
    = Ok (0, k * cpus (sbc s) + cpu)
        (set_s_inodes_used_count (u64 (s_inodes_used_count s + 1)) (with_map cpu im' s)) /\
    im_set (alloc_clock s) im im' k true.
Proof.
  intros W At Hk [W1 U1]. pose proof (map_at_cpu _ _ _ W At) as Hc.
  pose proof (iw_cpus _ W) as Hn. unfold MAX_INODE in Hk. change (Z.shiftl 1 31) with (2 ^ 31) in Hk.
  eexists. split.
  - unfold bind at 1, gets. unfold bind at 1, modify.
    erewrite bind_ok; [|apply get_inode_map_run; exact (map_at_with _ _ _ im1 At)].
    unfold bind, put_inode_map, modify, ret. rewrite uwrap_small; [|cbn; nia].
    f_equal. unfold with_map. cbn. by rewrite list_insert_insert_eq.
  - split; [apply (imap_wf_core _ im1); [by repeat split|done]|]. intros j. by rewrite (im_inuse_core im1).
Qed.

Lemma alloc_unused_run s cpu im ino0 :
  inodes_wf s -> map_at s cpu im ->
  (exists im' k,
     nova_alloc_unused_inode cpu ino0 s
     = Ok (0, k * cpus (sbc s) + cpu)
         (set_s_inodes_used_count (u64 (s_inodes_used_count s + 1)) (with_map cpu im' s)) /\
     0 < k < MAX_INODE - 1 /\ im_inuse im k = false /\
     (forall j, 0 <= j < k -> im_inuse im j = true) /\
     im_set (alloc_clock s) im im' k true) \/
  (nova_alloc_unused_inode cpu ino0 s = Ok (- ENOSPC, ino0) s /\
   forall j, 0 <= j < MAX_INODE - 1 -> im_inuse im j = true).
Proof.
  intros W At. pose proof (iw_map _ W _ _ (proj2 At)) as Wm.
  pose proof (im_first _ _ Wm) as (p & n & l & E & Hz & Hf).
  pose proof (im_ok _ _ Wm) as Wn. pose proof (nodes_ok_nodup _ _ Wn) as ND.
  pose proof (first_range_used _ _ _ _ _ Wm E Hz) as [Hfree Hused].
  pose proof (nodes_ok_elem _ _ (p, n) Wn ltac:(rewrite E; set_solver)) as (Hb & Hmax & Hcs & Hp).
  cbn [fst snd] in *. assert (MAX_INODE = 2 ^ 31) as EM by done.
  unfold nova_alloc_unused_inode. erewrite bind_ok; [|by apply get_inode_map_run].
  rewrite Hf. rewrite (rb_deref_at p _ [] n l ND E), Hcs. cbn [negb].
  rewrite (rb_next_inorder _ [] p n l ND E).
  destruct l as [|[q m] l]; cbn [head].
  - rewrite !uwrap_small by lia. destruct (Z.ltb_spec (range_high n + 1) (MAX_INODE - 1)) as [Hlt|Hge].
    + left. erewrite (bind_ok _ _ _ 0 (with_map cpu _ s)); [|reflexivity].
      cbn [negb Z.eqb].
      edestruct (alloc_unused_tail s cpu im) as (im' & -> & S'); [done..| | |].
      3: { exists im', (range_high n + 1). split_and!; auto; try lia. intros; apply Hused; lia. }
      { lia. }
      eapply grow_first;
        [exact Wm|exact E|exact Hz|exact (inorder_update_at p _ _ [] n [] ND E)|..]; try done.
      * repeat split; cbn [fst snd]; rewrite ?update_checksum_low, ?update_checksum_high; cbn; auto; try lia.
        apply update_checksum_ok.
      * by rewrite update_checksum_low.
      * by rewrite update_checksum_high.
      * set_solver.
    + right. split; [done|]. intros j Hj. apply Hused. lia.
  - pose proof (nodes_ok_elem _ _ (q, m) Wn ltac:(rewrite E; set_solver)) as (Hb' & Hmax' & Hcs' & Hq).
    cbn [fst snd] in *. rewrite Hcs'. cbn [negb].
    pose proof Wn as Wn'. rewrite E, !nodes_ok_cons in Wn'. destruct Wn' as (_ & (_ & _ & Am) & A0).
    destruct (A0 (q, m) ltac:(set_solver)) as [Hgap _]. cbn [fst snd] in Hgap.
    rewrite !uwrap_small by lia.
    left. destruct (Z.eqb_spec (range_high n + 1) (range_low m - 1)) as [He|Hne].
    + erewrite (bind_ok _ _ _ 0 (with_map cpu _ s)); [|reflexivity].
      cbn [negb Z.eqb].
      edestruct (alloc_unused_tail s cpu im) as (im' & -> & S'); [done..| | |].
      3: { exists im', (range_high n + 1). split_and!; auto; try lia. intros; apply Hused; lia. }
      { lia. }
      set (t1 := rb_update p _ _).
      assert (inorder t1 = [(p, _)] ++ (q, m) :: l) as E1
        by exact (inorder_update_at p _ _ [] n _ ND E).
      assert (NoDup (inorder t1).*1) as ND1 by (rewrite E1; rewrite E in ND; exact ND).
      eapply fill_first;
        [exact Wm|exact E|exact Hz|exact (rb_erase_inorder _ _ _ _ _ ND1 E1)|..]; try done.
      * by rewrite update_checksum_low.
      * by rewrite update_checksum_high.
      * apply update_checksum_ok.
      * lia.
      * cbn. rewrite (im_num _ _ Wm), E. cbn [length]. rewrite uwrap_small; [done|].
        pose proof (nodes_ok_length _ _ Wn) as HL. rewrite E in HL. cbn [length] in HL. lia.
    + rewrite (proj2 (Z.ltb_lt _ _)) by lia. erewrite (bind_ok _ _ _ 0 (with_map cpu _ s)); [|reflexivity].
      cbn [negb Z.eqb].
      edestruct (alloc_unused_tail s cpu im) as (im' & -> & S'); [done..| | |].
      3: { exists im', (range_high n + 1). split_and!; auto; try lia. intros; apply Hused; lia. }
      { lia. }
      eapply grow_first;
        [exact Wm|exact E|exact Hz|exact (inorder_update_at p _ _ [] n _ ND E)|..]; try done.
      * repeat split; cbn [fst snd]; rewrite ?update_checksum_low, ?update_checksum_high; cbn; auto; try lia.
        apply update_checksum_ok.
      * by rewrite update_checksum_low.
      * by rewrite update_checksum_high.
      * intros y [->|Hy]%elem_of_cons; [cbn; lia|]. destruct (Am y Hy). cbn in *. lia.
Qed.

(** ** Giving a number back *)

(** The node [(p, n)] of a map replaced by nodes that cover its range but for
    [k]. *)
Lemma im_unset c c' im p n l1 l2 mid im' k :
  imap_wf c im -> im_nodes im = l1 ++ (p, n) :: l2 -> im_nodes im' = l1 ++ mid ++ l2 ->
  nodes_ok c' (l1 ++ mid ++ l2) ->
  (l1 = [] -> exists n' m, mid = (p, n') :: m /\ range_low n' = 0) ->
  range_low n <= k <= range_high n ->
  (forall j, covered mid j = if j =? k then false else covers (p, n) j) ->
  first_inode_range im' = first_inode_range im ->
  num_range_node_inode im' = num_range_node_inode im - 1 + Z.of_nat (length mid) ->
  im_set c' im im' k false.
Proof.
  intros [Wn (p0 & n0 & l0 & E0 & Hz & Hf) Hnum] E E' Wn' Hhd Hk Hmid Ef En. split.
  - split.
    + by rewrite E'.
    + rewrite E', Ef. destruct l1 as [|x l1].
      * destruct (Hhd eq_refl) as (n' & m & -> & Hz'). rewrite E in E0. cbn in *. simplify_eq.
        by eexists _, _, _.
      * rewrite E in E0. cbn in *. simplify_eq. by eexists _, _, _.
    + rewrite En, Hnum, E, E', !length_app. cbn [length]. lia.
  - intros j. unfold im_inuse. rewrite E, E', !covered_app, covered_cons, Hmid.
    rewrite E in Wn. destruct (covered_unique _ _ _ _ k Wn Hk) as [U1 U2].
    destruct (Z.eqb_spec j k) as [->|]; [|done]. by rewrite U1, U2.
Qed.

Lemma free_inuse_tail c s cpu im im1 k :
  map_at s cpu im -> im_set c im im1 k false ->
  exists im',
    free_inuse_found cpu (with_map cpu im1 s)
    = Ok 0 (set_s_inodes_used_count (u64 (s_inodes_used_count s - 1)) (with_map cpu im' s)) /\
    im_set c im im' k false.
Proof.
  intros At [W1 U1]. eexists. split.
  - unfold free_inuse_found. unfold bind at 1, modify.
    erewrite bind_ok; [|apply get_inode_map_run; exact (map_at_with _ _ _ im1 At)].
    unfold bind, put_inode_map, modify, ret. f_equal. unfold with_map. cbn.
    by rewrite list_insert_insert_eq.
  - split; [apply (imap_wf_core _ im1); [by repeat split|done]|].
    intros j. by rewrite (im_inuse_core im1).
Qed.

(** The node that covers a number in use. *)
Lemma search_inuse s cpu im k :
  inodes_wf s -> map_at s cpu im -> im_inuse im k = true ->
  exists l1 p n l2, im_nodes im = l1 ++ (p, n) :: l2 /\ range_low n <= k <= range_high n /\
    nova_search_inodetree (k * cpus (sbc s) + cpu) None s = Ok (1, Some (p, n)) s.
Proof.
  intros W At Hu. pose proof (map_at_cpu _ _ _ W At) as Hc. pose proof (iw_cpus _ W).
  pose proof (nodes_ok_tree _ _ (im_ok _ _ (iw_map _ W _ _ (proj2 At)))) as Wt.
  unfold nova_search_inodetree. unfold bind at 1, gets.
  rewrite (proj2 (Z.eqb_neq _ _)) by lia.
  destruct (ino_split (cpus (sbc s)) cpu k Hc) as [-> ->]. rewrite swrap_small by lia.
  erewrite bind_ok; [|by apply get_inode_map_run].
  apply covered_spec in Hu as (x & Hx & Hk).
  destruct (nova_find_range_node_spec NODE_INODE _ k None Wt)
    as [[E0 _]|[(l1 & [p n] & l2 & E & Hb & ->)|(l1 & l2 & y & E & B & A & _)]].
  - unfold im_nodes in Hx. rewrite E0 in Hx. set_solver.
  - exists l1, p, n, l2. done.
  - exfalso. unfold im_nodes in Hx. rewrite E in Hx. unfold all_below, all_above in *.
    rewrite Forall_forall in *.
    apply elem_of_app in Hx as [Hx|Hx]; [specialize (B x Hx)|specialize (A x Hx)]; cbn in *; lia.
Qed.

Lemma search_unused s cpu im k :
  inodes_wf s -> map_at s cpu im -> im_inuse im k = false ->
  exists r, nova_search_inodetree (k * cpus (sbc s) + cpu) None s = Ok (0, r) s.
Proof.
  intros W At Hu. pose proof (map_at_cpu _ _ _ W At) as Hc. pose proof (iw_cpus _ W).
  pose proof (nodes_ok_tree _ _ (im_ok _ _ (iw_map _ W _ _ (proj2 At)))) as Wt.
  unfold nova_search_inodetree. unfold bind at 1, gets.
  rewrite (proj2 (Z.eqb_neq _ _)) by lia.
  destruct (ino_split (cpus (sbc s)) cpu k Hc) as [-> ->]. rewrite swrap_small by lia.
  erewrite bind_ok; [|by apply get_inode_map_run].
  destruct (nova_find_range_node_spec NODE_INODE _ k None Wt)
    as [[E0 ->]|[(l1 & x & l2 & E & Hb & _)|(l1 & l2 & y & E & B & A & -> & _)]]; [by eexists| |by eexists].
  exfalso. apply not_true_iff_false in Hu. apply Hu. apply covered_spec. exists x.
  unfold im_nodes. rewrite E. split; [set_solver|exact Hb].
Qed.

(** The node [(p, n)] narrowed to [(p, f n)], which leaves out [k] only. *)
Lemma shrink_set c im p n l1 l2 k f :
  imap_wf c im -> im_nodes im = l1 ++ (p, n) :: l2 ->
  range_low n <= k <= range_high n ->
  range_low n <= range_low (f n) <= range_high (f n) -> range_high (f n) <= range_high n ->
  nova_range_node_checksum_ok (f n) = true ->
  (range_low n = 0 -> range_low (f n) = 0) ->
  (forall j, covers (p, f n) j = if j =? k then false else covers (p, n) j) ->
  im_set c im (set_inode_inuse_tree (rb_update p f (inode_inuse_tree im)) im) k false.
Proof.
  intros W E Hk Hlo Hhi Hcs Hz0 Hcov. pose proof (im_ok _ _ W) as Wn.
  pose proof (nodes_ok_nodup _ _ Wn) as ND.
  pose proof (nodes_ok_elem _ _ (p, n) Wn ltac:(rewrite E; set_solver)) as (Hb & Hm & Hc & Hp).
  cbn [fst snd] in *.
  apply (im_unset c c im p n l1 l2 [(p, f n)]); auto.
  - exact (inorder_update_at p _ _ l1 n l2 ND E).
  - rewrite E in Wn. apply (nodes_ok_resize c l1 p n (f n) l2 Wn); [|lia|].
    + repeat split; cbn [fst snd]; auto; lia.
    + intros y Hy. pose proof (nodes_ok_after _ _ _ _ _ _ Wn Hy). lia.
  - intros ->. destruct (im_first _ _ W) as (p0 & n0 & l0 & E0 & Hz & _).
    rewrite E in E0. cbn in E0. simplify_eq. eauto.
  - intros j. cbn [covered existsb]. by rewrite orb_false_r.
  - cbn. lia.
Qed.

(** The node [(p, n)] cut in two around [k]; the upper part is the new node
    [(q, m)]. *)
Lemma cut_set im p n l1 l2 k q f m t' :
  imap_wf q im -> im_nodes im = l1 ++ (p, n) :: l2 ->
  range_low n < k < range_high n ->
  range_low (f n) = range_low n -> range_high (f n) = k - 1 ->
  nova_range_node_checksum_ok (f n) = true ->
  range_low m = k + 1 -> range_high m = range_high n ->
  nova_range_node_checksum_ok m = true ->
  nova_insert_inodetree (set_inode_inuse_tree (rb_update p f (inode_inuse_tree im)) im) q m = (0, t') ->
  inorder t' = l1 ++ [(p, f n); (q, m)] ++ l2 ->
  im_set (q + 1)%positive im (set_num_range_node_inode (num_range_node_inode im + 1)
    (set_inode_inuse_tree t' im)) k false.
Proof.
  intros W E Hk Flo Fhi Fcs Mlo Mhi Mcs Et Et'. pose proof (im_ok _ _ W) as Wn.
  pose proof (nodes_ok_elem _ _ (p, n) Wn ltac:(rewrite E; set_solver)) as (Hb & Hm & Hc & Hp).
  cbn [fst snd] in *.
  apply (im_unset q (q + 1)%positive im p n l1 l2 [(p, f n); (q, m)]); auto; [| |lia| |cbn; lia].
  - rewrite E in Wn. pose proof Wn as Wn2. rewrite nodes_ok_app, nodes_ok_cons in Wn2.
    destruct Wn2 as (W1 & (_ & W2 & A2) & A1).
    assert (forall x, x ∈ l1 \/ x ∈ l2 -> x.1 <> q) as Hq.
    { intros x Hx. destruct (nodes_ok_elem _ _ x Wn) as (_ & _ & _ & Hx'); [set_solver|]. lia. }
    assert (q <= q + 1)%positive as Hle by lia.
    cbn [app]. rewrite nodes_ok_app, !nodes_ok_cons.
    split_and!; eauto using nodes_ok_clock; try (repeat split; cbn [fst snd]; auto; lia).
    + intros y Hy. destruct (A2 y Hy). split; cbn in *; [lia|]. intros Eq. by apply (Hq y); auto.
    + intros y [->|Hy]%elem_of_cons; [split; cbn; [lia|]; intros ->; lia|].
      destruct (A2 y Hy). split; cbn in *; [lia|done].
    + intros x y Hx [->|[->|Hy]%elem_of_cons]%elem_of_cons.
      * destruct (A1 x (p, n) Hx) as []; [set_solver|]. split; cbn in *; [lia|done].
      * destruct (A1 x (p, n) Hx) as []; [set_solver|]. split; cbn in *; [lia|]. by apply Hq; auto.
      * apply A1; set_solver.
  - intros ->. destruct (im_first _ _ W) as (p0 & n0 & l0 & E0 & Hz & _).
    rewrite E in E0. cbn in E0. simplify_eq. eexists _, _. split; [done|]. lia.
  - intros j. cbn [covered existsb]. unfold covers. cbn [snd]. rewrite Flo, Fhi, Mlo, Mhi. bool_lia.
Qed.

Lemma insert_inodetree_at c im p f m l1 n l2 :
  nodes_ok c (l1 ++ (p, f n) :: l2) -> (forall x, x ∈ l1 ++ (p, f n) :: l2 -> x.1 <> c) ->
  NoDup (im_nodes im).*1 -> im_nodes im = l1 ++ (p, n) :: l2 ->
  range_high (f n) < range_low m -> range_low m <= range_high m ->
  nova_range_node_checksum_ok m = true ->
  (forall y, y ∈ l2 -> range_high m < range_low y.2) ->
  exists t', nova_insert_inodetree (set_inode_inuse_tree
      (rb_update p f (inode_inuse_tree im)) im) c m = (0, t') /\
    inorder t' = l1 ++ [(p, f n); (c, m)] ++ l2.
Proof.
  intros Wn Hc ND E Hlo Hm Hcs Hl2. set (t := rb_update p f _).
  assert (inorder t = l1 ++ (p, f n) :: l2) as Et by exact (inorder_update_at p f _ l1 n l2 ND E).
  assert (tree_wf NODE_BLOCK t) as Wt.
  { apply tree_wf_inode_block. apply (nodes_ok_tree c). by rewrite Et. }
  pose proof (nodes_ok_ranges _ _ Wn) as Wr.
  apply ranges_wf_middle in Wr as (_ & B & _). cbn in B.
  destruct (nova_insert_blocktree_free t c m (l1 ++ [(p, f n)]) l2) as (t' & Ei & E' & _); auto.
  - rewrite Et. intros (x & Ex & Hx)%list_elem_of_fmap. by apply (Hc x Hx).
  - split; [by rewrite Et, <- app_assoc|]. split.
    + pose proof (nodes_ok_elem _ _ (p, f n) Wn ltac:(set_solver)) as ([_ ?] & _). cbn in *.
      apply all_below_app. split; [eapply all_below_mono; [exact B|]; lia|].
      constructor; [cbn; lia|constructor].
    + apply Forall_forall. cbn. auto.
  - exists t'. split; [|by rewrite E', <- app_assoc].
    rewrite <- Ei. unfold nova_insert_inodetree, nova_insert_blocktree, nova_insert_range_node.
    by rewrite insert_walk_inode.
Qed.

Definition freed_count (s : nova) : Z := u64 (s_inodes_used_count s - 1).

(** The outcome of a free that went through. *)
Definition free_done (s : nova) (cpu : Z) (im : inode_map) (k : Z) (res : outcome Z) : Prop :=
  exists c im',
    res = Ok 0 (set_s_inodes_used_count (freed_count s) (with_map cpu im' (set_alloc_clock c s))) /\
    (alloc_clock s <= c)%positive /\ im_set c im im' k false.

Lemma free_finish s c cpu im im1 k :
  map_at s cpu im -> (alloc_clock s <= c)%positive -> im_set c im im1 k false ->
  free_done s cpu im k (free_inuse_found cpu (with_map cpu im1 (set_alloc_clock c s))).
Proof.
  intros At Hc S1.
  destruct (free_inuse_tail c (set_alloc_clock c s) cpu im im1 k At S1) as (im' & -> & S').
  by exists c, im'.
Qed.

Lemma free_finish_same s cpu im im1 k :
  map_at s cpu im -> im_set (alloc_clock s) im im1 k false ->
  free_done s cpu im k (free_inuse_found cpu (with_map cpu im1 s)).
Proof.
  intros At S1. pose proof (free_finish s (alloc_clock s) cpu im im1 k At ltac:(lia) S1) as F.
  by replace (set_alloc_clock (alloc_clock s) s) with s in F by (by destruct s).
Qed.

Lemma free_inuse_middle s cpu im k p n l1 l2 :
  inodes_wf s -> map_at s cpu im -> im_nodes im = l1 ++ (p, n) :: l2 ->
  range_low n < k < range_high n -> kmem_cache_zalloc_ok (alloc_clock s) = true ->
  free_done s cpu im k (
    (let! curr_node := nova_alloc_inode_node in
     match curr_node with
     | None => free_inuse_found cpu
     | Some q =>
         let curr := nova_update_range_node_checksum
           (set_range_high (range_high n) (set_range_low (u64 (k + 1)) zeroed_node)) in
         let im := set_inode_inuse_tree (rb_update p (fun n =>
           nova_update_range_node_checksum (set_range_high (u64 (k - 1)) n)) (inode_inuse_tree im)) im in
         let '(rc, tree) := nova_insert_inodetree im q curr in
         let im := set_inode_inuse_tree tree im in
         if negb (rc =? 0) then
           put_inode_map cpu im ;;; nova_free_inode_node q ;;; free_inuse_err rc
         else
           put_inode_map cpu
             (set_num_range_node_inode (u64 (num_range_node_inode im + 1)) im) ;;;
           free_inuse_found cpu
     end) s).
Proof.
  intros W At E Hk Hslab. pose proof (iw_map _ W _ _ (proj2 At)) as Wm.
  pose proof (im_ok _ _ Wm) as Wn. pose proof (nodes_ok_nodup _ _ Wn) as ND.
  pose proof (nodes_ok_length _ _ Wn) as HL.
  pose proof (nodes_ok_elem _ _ (p, n) Wn ltac:(rewrite E; set_solver)) as (Hb & Hm & Hcs & Hp).
  cbn [fst snd] in *. assert (MAX_INODE = 2 ^ 31) as EM by done.
  erewrite (bind_ok _ _ _ (Some (alloc_clock s)) (bump s)).
  2: { unfold nova_alloc_inode_node, nova_alloc_range_node, kmem_cache_zalloc. by rewrite Hslab. }
  rewrite !(uwrap_small 64 (k + 1)), !(uwrap_small 64 (k - 1)) by lia. cbv zeta.
  set (f := fun n : range_node => nova_update_range_node_checksum (set_range_high (k - 1) n)).
  set (m := nova_update_range_node_checksum _).
  assert (range_low (f n) = range_low n /\ range_high (f n) = k - 1) as [Flo Fhi].
  { unfold f. rewrite update_checksum_low, update_checksum_high. done. }
  assert (range_low m = k + 1 /\ range_high m = range_high n) as [Mlo Mhi].
  { unfold m. rewrite update_checksum_low, update_checksum_high. done. }
  pose proof (update_checksum_ok (set_range_high (k - 1) n) : nova_range_node_checksum_ok (f n) = true) as Fcs.
  assert (nova_range_node_checksum_ok m = true) as Mcs by apply update_checksum_ok.
  rewrite E in Wn. pose proof (nodes_ok_resize _ _ _ _ (f n) _ Wn) as Wn'.
  destruct (insert_inodetree_at (alloc_clock s) im p f m l1 n l2) as (t' & Ei & Et'); auto; try lia.
  { apply Wn'; [repeat split; cbn [fst snd]; auto; lia|lia|].
    intros y Hy. pose proof (nodes_ok_after _ _ _ _ _ _ Wn Hy). lia. }
  { intros x Hx Ex. apply elem_of_app in Hx as [Hx|[->|Hx]%elem_of_cons].
    - destruct (nodes_ok_elem _ _ x Wn) as (_ & _ & _ & ?); [set_solver|lia].
    - cbn in Ex. lia.
    - destruct (nodes_ok_elem _ _ x Wn) as (_ & _ & _ & ?); [set_solver|lia]. }
  { intros y Hy. pose proof (nodes_ok_after _ _ _ _ _ _ Wn Hy). lia. }
  rewrite Ei. cbn [negb Z.eqb].
  erewrite (bind_ok _ _ _ tt (with_map cpu _ (bump s))); [|reflexivity].
  apply free_finish; [done|lia|]. cbn [num_range_node_inode set_inode_inuse_tree].
  rewrite uwrap_small by (rewrite (im_num _ _ Wm); lia).
  by apply (cut_set im p n l1 l2 k (alloc_clock s) f m t').
Qed.

(** Freeing a number in use, other than the first of its map, which is
    reserved. *)
Lemma free_inuse_run s cpu im k :
  inodes_wf s -> map_at s cpu im -> im_inuse im k = true -> 0 < k ->
  kmem_cache_zalloc_ok (alloc_clock s) = true \/ im_inuse im (k - 1) = false \/ im_inuse im (k + 1) = false ->
  free_done s cpu im k (nova_free_inuse_inode (k * cpus (sbc s) + cpu) s).
Proof.
  intros W At Hu Hk Hslab. pose proof (map_at_cpu _ _ _ W At) as Hc. pose proof (iw_cpus _ W) as Hn.
  pose proof (iw_map _ W _ _ (proj2 At)) as Wm. pose proof (im_ok _ _ Wm) as Wn.
  pose proof (nodes_ok_nodup _ _ Wn) as ND. pose proof (nodes_ok_length _ _ Wn) as HL.
  destruct (search_inuse s cpu im k W At Hu) as (l1 & p & n & l2 & E & Hr & Es).
  pose proof (nodes_ok_elem _ _ (p, n) Wn ltac:(rewrite E; set_solver)) as (Hb & Hm & Hcs & Hp).
  cbn [fst snd] in *. assert (MAX_INODE = 2 ^ 31) as EM by done.
  unfold nova_free_inuse_inode. unfold bind at 1, gets. rewrite (proj2 (Z.eqb_neq _ 0)) by lia.
  erewrite bind_ok; [|exact Es]. cbn [Z.eqb].
  destruct (ino_split (cpus (sbc s)) cpu k Hc) as [-> ->]. rewrite (swrap_small 32) by lia.
  erewrite bind_ok; [|by apply get_inode_map_run].
  destruct (Z.eqb_spec k (range_low n)) as [El|Hnl]; destruct (Z.eqb_spec k (range_high n)) as [Eh|Hnh];
    cbn [andb].
  - erewrite (bind_ok _ _ _ tt (with_map cpu _ s)); [|reflexivity].
    erewrite bind_ok; [|reflexivity]. apply free_finish_same; [done|].
    assert (l1 <> []) as Hl1.
    { intros ->. destruct (im_first _ _ Wm) as (p0 & n0 & l0 & E0 & Hz & _).
      rewrite E in E0. cbn in E0. simplify_eq. lia. }
    apply (im_unset (alloc_clock s) (alloc_clock s) im p n l1 l2 []); auto.
    + exact (rb_erase_inorder _ l1 p n l2 ND E).
    + cbn. rewrite E in Wn. by eapply nodes_ok_remove.
    + done.
    + intros j. cbn [covered existsb]. unfold covers. cbn [snd]. bool_lia.
    + cbn. rewrite (im_num _ _ Wm), E, length_app in *. cbn [length] in *. rewrite uwrap_small; lia.
  - rewrite (proj2 (Z.ltb_lt k _)) by lia.
    erewrite (bind_ok _ _ _ tt (with_map cpu _ s)); [|reflexivity]. apply free_finish_same; [done|].
    rewrite (uwrap_small 64 (k + 1)) by lia.
    apply (shrink_set _ im p n l1 l2); auto; rewrite ?update_checksum_low, ?update_checksum_high; cbn;
      try lia; [apply update_checksum_ok|].
    intros j. unfold covers. cbn [snd]. rewrite update_checksum_low, update_checksum_high. cbn. bool_lia.
  - rewrite (proj2 (Z.ltb_lt _ k)) by lia. cbn [andb].
    erewrite (bind_ok _ _ _ tt (with_map cpu _ s)); [|reflexivity]. apply free_finish_same; [done|].
    rewrite (uwrap_small 64 (k - 1)) by lia.
    apply (shrink_set _ im p n l1 l2); auto; rewrite ?update_checksum_low, ?update_checksum_high; cbn;
      try lia; [apply update_checksum_ok|].
    intros j. unfold covers. cbn [snd]. rewrite update_checksum_low, update_checksum_high. cbn. bool_lia.
  - rewrite !(proj2 (Z.ltb_lt _ _)) by lia. cbn [andb].
    apply (free_inuse_middle s cpu im k p n l1 l2); auto; [lia|].
    assert (forall j, range_low n <= j <= range_high n -> im_inuse im j = true) as Hin.
    { intros j Hj. apply covered_spec. exists (p, n). rewrite E. split; [set_solver|done]. }
    destruct Hslab as [?|[Hf|Hf]]; [done|rewrite Hin in Hf by lia; done|rewrite Hin in Hf by lia; done].
Qed.

(** A number whose neighbours are both in use lies inside a range. *)
Lemma inside_range c im k :
  imap_wf c im -> im_inuse im (k - 1) = true -> im_inuse im (k + 1) = true ->
  im_inuse im k = true -> exists p n, (p, n) ∈ im_nodes im /\ range_low n < k < range_high n.
Proof.
  intros Wm H1' H2' Hu. pose proof (im_ok _ _ Wm) as Wn.
  apply covered_spec in Hu as ([p n] & Hx & Hk). exists p, n. split; [done|]. cbn in Hk.
  apply list_elem_of_split in Hx as (l1 & l2 & E). rewrite E in Wn.
  assert (forall j, im_inuse im j = true -> k - 1 <= j <= k + 1 -> range_low n <= j <= range_high n) as Hj.
  { intros j (y & Hy & Hyj)%covered_spec Hjk. rewrite E in Hy.
    apply nodes_ok_app in Wn as (_ & (_ & _ & A2)%nodes_ok_cons & A1).
    apply elem_of_app in Hy as [Hy|[->|Hy]%elem_of_cons]; [|done|].
    - destruct (A1 y (p, n) Hy ltac:(set_solver)) as [Hg _]. cbn in *. lia.
    - destruct (A2 y Hy) as [Hg _]. cbn in *. lia. }
  pose proof (Hj _ H1' ltac:(lia)). pose proof (Hj _ H2' ltac:(lia)). lia.
Qed.

(** Without memory for the upper part of its range, the number stays in use. *)
Lemma free_nomem_run s cpu im k p n :
  inodes_wf s -> map_at s cpu im -> (p, n) ∈ im_nodes im -> range_low n < k < range_high n ->
  kmem_cache_zalloc_ok (alloc_clock s) = false ->
  exists s', nova_free_inuse_inode (k * cpus (sbc s) + cpu) s = Ok 0 s' /\ inodes_wf s' /\ sbc s' = sbc s /\
    (forall x, ino_inuse s' x = ino_inuse s x) /\
    s_inodes_used_count s' = u64 (s_inodes_used_count s - 1).
Proof.
  intros W At Hin Hk Hslab.
  pose proof (map_at_cpu _ _ _ W At) as Hc. pose proof (iw_cpus _ W) as Hn.
  pose proof (iw_map _ W _ _ (proj2 At)) as Wm. pose proof (im_ok _ _ Wm) as Wn.
  assert (im_inuse im k = true) as Hu by (apply covered_spec; exists (p, n); cbn; split; [done|lia]).
  destruct (search_inuse s cpu im k W At Hu) as (l1 & q & m & l2 & E & Hr & Es).
  assert ((q, m) = (p, n)) as Eq.
  { destruct (covered_unique _ l1 (q, m) l2 k ltac:(by rewrite <- E) Hr) as [U1 U2].
    rewrite E in Hin. apply elem_of_app in Hin as [Hin|[->|Hin]%elem_of_cons]; [|done|];
      [apply not_true_iff_false in U1; destruct U1|apply not_true_iff_false in U2; destruct U2];
      apply covered_spec; exists (p, n); cbn; split; auto; lia. }
  simplify_eq. unfold nova_free_inuse_inode. unfold bind at 1, gets. rewrite (proj2 (Z.eqb_neq _ 0)) by lia.
  rewrite (bind_ok _ _ _ _ _ Es). cbn [Z.eqb].
  destruct (ino_split (cpus (sbc s)) cpu k Hc) as [-> ->].
  rewrite (swrap_small 32) by lia. erewrite bind_ok by (by apply get_inode_map_run).
  rewrite !(proj2 (Z.eqb_neq _ _)), !(proj2 (Z.ltb_lt _ _)) by lia. cbn [andb].
  erewrite (bind_ok _ _ _ None (bump s)).
  2: { unfold nova_alloc_inode_node, nova_alloc_range_node, kmem_cache_zalloc. by rewrite Hslab. }
  unfold free_inuse_found. unfold bind at 1, modify.
  erewrite bind_ok by (apply get_inode_map_run; exact At).
  eexists. split; [reflexivity|].
  set (im' := set_freed (s32 (NovaState.freed im + 1)) im).
  assert (im_core im im') as Co by done.
  pose proof (inodes_wf_with (bump s) cpu im im' (inodes_wf_bump s W) At
    (imap_wf_core _ _ _ Co (iw_map _ (inodes_wf_bump s W) _ _ (proj2 At)))) as Wb.
  split_and!; [by destruct Wb|done| |done]. intros x.
  etransitivity; [exact (ino_inuse_with (bump s) cpu im im' x (inodes_wf_bump s W) At)|].
  cbn [sbc bump set_alloc_clock].
  destruct (Z.eqb_spec (x mod cpus (sbc s)) cpu) as [Ex|]; [|done].
  symmetry. by apply (ino_inuse_at s cpu im).
Qed.

Lemma free_unused_run s cpu im k :
  inodes_wf s -> map_at s cpu im -> im_inuse im k = false ->
  nova_free_inuse_inode (k * cpus (sbc s) + cpu) s = Ok (- EINVAL) s.
Proof.
  intros W At Hu. pose proof (iw_cpus _ W) as Hn.
  destruct (search_unused s cpu im k W At Hu) as (r & Es).
  unfold nova_free_inuse_inode. unfold bind at 1, gets. rewrite (proj2 (Z.eqb_neq _ 0)) by lia.
  erewrite bind_ok; [|exact Es]. by destruct r as [[p n]|].
Qed.

(** ** The abstract allocator *)

(** The numbers in use and their count. *)
Record numbers := mkNumbers { used : Z -> bool; used_count : Z }.

Inductive num_op := NewIno (cpu : Z) | FreeIno (ino : Z).

Definition same_numbers (a a' : numbers) : Prop :=
  (forall x, used a' x = used a x) /\ used_count a' = used_count a.

(** One operation of an allocator of numbers for [n] CPUs, which may ask for
    memory once and gets it if [mem]: the result code, the number handed out (0
    when none is) and the numbers in use next.  A number both of whose neighbours
    on its CPU are in use needs memory to be given back; without it the free is
    lost, although it reports success and is counted. *)
Inductive num_step (n : Z) (mem : bool) : numbers -> num_op -> Z * Z -> numbers -> Prop :=
| StepNew a a' cpu ino :
    0 <= ino -> ino mod n = cpu -> used a ino = false ->
    (forall j, 0 <= j < ino -> j mod n = cpu -> used a j = true) ->
    (forall x, used a' x = if x =? ino then true else used a x) ->
    used_count a' = u64 (used_count a + 1) ->
    num_step n mem a (NewIno cpu) (0, ino) a'
| StepFull a a' cpu :
    (forall j, 0 <= j < (MAX_INODE - 1) * n -> j mod n = cpu -> used a j = true) ->
    same_numbers a a' -> num_step n mem a (NewIno cpu) (- ENOSPC, 0) a'
| StepFree a a' ino :
    used a ino = true -> mem = true \/ used a (ino - n) = false \/ used a (ino + n) = false ->
    (forall x, used a' x = if x =? ino then false else used a x) ->
    used_count a' = u64 (used_count a - 1) ->
    num_step n mem a (FreeIno ino) (0, 0) a'
| StepLost a a' ino :
    used a ino = true -> mem = false -> used a (ino - n) = true -> used a (ino + n) = true ->
    (forall x, used a' x = used a x) -> used_count a' = u64 (used_count a - 1) ->
    num_step n mem a (FreeIno ino) (0, 0) a'
| StepUnused a a' ino :
    used a ino = false -> same_numbers a a' -> num_step n mem a (FreeIno ino) (- EINVAL, 0) a'.

Inductive num_run (n : Z) : numbers -> list num_op -> list bool -> list (Z * Z) -> numbers -> Prop :=
| RunNil a : num_run n a [] [] [] a
| RunCons a a1 a' op mem mems r ops rs :
    num_step n mem a op r a1 -> num_run n a1 ops mems rs a' -> num_run n a (op :: ops) (mem :: mems) (r :: rs) a'.

(** The code of an operation, and of a sequence of them. *)
Definition exec_op (op : num_op) : M (Z * Z) :=
  match op with
  | NewIno cpu => nova_alloc_unused_inode cpu 0
  | FreeIno ino => let! r := nova_free_inuse_inode ino in ret (r, 0)
  end.

Fixpoint exec_ops (ops : list num_op) : M (list (Z * Z)) :=
  match ops with
  | [] => ret []
  | op :: ops => let! r := exec_op op in let! rs := exec_ops ops in ret (r :: rs)
  end.

Definition abs_numbers (s : nova) : numbers := mkNumbers (ino_inuse s) (s_inodes_used_count s).

(** A CPU that exists; a number other than the first of each map. *)
Definition op_ok (n : Z) (op : num_op) : Prop :=
  match op with NewIno cpu => 0 <= cpu < n | FreeIno ino => n <= ino end.

(** A changed map, with what else the operations change. *)
Lemma inodes_wf_set s c cpu im im' k v w :
  inodes_wf s -> map_at s cpu im -> (alloc_clock s <= c)%positive -> im_set c im im' k v ->
  let s' := set_s_inodes_used_count w (with_map cpu im' (set_alloc_clock c s)) in
  inodes_wf s' /\
  forall x, ino_inuse s' x = if x =? k * cpus (sbc s) + cpu then v else ino_inuse s x.
Proof.
  intros W At Hc [W' U].
  assert (inodes_wf (set_alloc_clock c s)) as Wc.
  { destruct W. split; auto. intros i im0 E0. eapply imap_wf_clock; [by eapply iw_map0|done]. }
  split.
  - pose proof (inodes_wf_with _ cpu im im' Wc At W') as []. by split.
  - exact (ino_inuse_change _ cpu im im' k v Wc At U).
Qed.

(** Below [k * n + cpu], the numbers of the CPU are those with a smaller
    quotient. *)
Lemma ino_below n cpu k j : 0 <= cpu < n -> 0 <= j -> j mod n = cpu -> j < k * n + cpu -> 0 <= j / n < k.
Proof.
  intros Hc Hj Hm Hlt. pose proof (Z.div_mod j n). pose proof (Z.div_pos j n). nia.
Qed.

Lemma exec_op_refines s op :
  inodes_wf s -> op_ok (cpus (sbc s)) op ->
  exists r s', exec_op op s = Ok r s' /\ sbc s' = sbc s /\ inodes_wf s' /\
    num_step (cpus (sbc s)) (kmem_cache_zalloc_ok (alloc_clock s)) (abs_numbers s) op r (abs_numbers s').
Proof.
  intros W Hop. pose proof (iw_cpus _ W) as Hn. destruct op as [cpu|ino]; cbn in Hop.
  - destruct (map_exists s cpu W Hop) as [im At].
    destruct (alloc_unused_run s cpu im 0 W At) as [(im' & k & E & Hk & Hf & Hu & S')|[E Hu]].
    + destruct (inodes_wf_set s (alloc_clock s) cpu im im' k true
        (u64 (s_inodes_used_count s + 1)) W At ltac:(lia) S') as [W' U'].
      replace (set_alloc_clock (alloc_clock s) s) with s in W', U' by (by destruct s).
      destruct (ino_split (cpus (sbc s)) cpu k Hop) as [Em Ed].
      eexists _, _. split; [exact E|]. split_and!; [done|done|]. apply StepNew; cbn; auto; try nia.
      * by rewrite (ino_inuse_at s cpu im), Ed.
      * intros j Hj Hm. rewrite (ino_inuse_at s cpu im) by auto. apply Hu.
        apply (ino_below _ cpu); auto; lia.
    + eexists _, _. split; [exact E|]. split_and!; [done|done|]. apply StepFull; [|done].
      intros j Hj Hm. cbn. rewrite (ino_inuse_at s cpu im) by auto. apply Hu.
      apply (ino_below _ cpu); auto; lia.
  - set (cpu := ino mod cpus (sbc s)). set (k := ino / cpus (sbc s)).
    assert (0 <= cpu < cpus (sbc s)) as Hc by (apply Z.mod_pos_bound; lia).
    assert (ino = k * cpus (sbc s) + cpu) as Ei by (by apply ino_join).
    assert (0 < k) as Hk by (apply Z.div_str_pos; lia).
    destruct (map_exists s cpu W Hc) as [im At].
    pose proof (ino_inuse_at s cpu im ino At eq_refl) as Eu. fold k in Eu.
    unfold exec_op. destruct (ino_inuse s ino) eqn:E1.
    + assert (forall d, ino_inuse s (ino + d * cpus (sbc s)) = im_inuse im (k + d)) as Hnb.
      { intros d. rewrite (ino_inuse_at s cpu im) by (done || (unfold cpu; by rewrite Z.mod_add by lia)).
        by rewrite Z.div_add by lia. }
      pose proof (Hnb 1) as Hr1. pose proof (Hnb (-1)) as Hl1. rewrite Z.mul_1_l in Hr1.
      replace (ino + -1 * cpus (sbc s)) with (ino - cpus (sbc s)) in Hl1 by lia.
      replace (k + -1) with (k - 1) in Hl1 by lia.
      destruct (decide (kmem_cache_zalloc_ok (alloc_clock s) = true \/ im_inuse im (k - 1) = false \/ im_inuse im (k + 1) = false))
        as [Hm|Hm].
      2: { assert (im_inuse im (k - 1) = true /\ im_inuse im (k + 1) = true /\ kmem_cache_zalloc_ok (alloc_clock s) = false)
             as (M1 & M2 & M3) 
             by (destruct (im_inuse im (k - 1)), (im_inuse im (k + 1)), (kmem_cache_zalloc_ok (alloc_clock s)); naive_solver).
           destruct (inside_range _ im k (iw_map _ W _ _ (proj2 At)) M1 M2 ltac:(done)) as (p & nd & Hin & Hb).
           destruct (free_nomem_run s cpu im k p nd W At Hin Hb M3) as (s' & E & W' & Es & Hu & Hcnt).
           rewrite <- Ei in E. erewrite bind_ok by exact E. eexists _, _. split; [done|]. split_and!; [done|done|].
           apply StepLost; cbn; [done|done|by rewrite Hl1|by rewrite Hr1|done|done]. }
      destruct (free_inuse_run s cpu im k W At ltac:(done) Hk Hm) as (c & im' & E & Hcl & S').
      rewrite <- Ei in E. destruct (inodes_wf_set s c cpu im im' k false (freed_count s) W At Hcl S') as [W' U'].
      rewrite <- Ei in U'. erewrite bind_ok by exact E.
      eexists _, _. split; [done|]. split_and!; [done|done|]. apply StepFree; cbn; rewrite ?Hl1, ?Hr1; done.
    + pose proof (free_unused_run s cpu im k W At ltac:(done)) as E. rewrite <- Ei in E.
      erewrite bind_ok by exact E. eexists _, _. split; [done|]. split_and!; [done|done|].
      by apply StepUnused.
Qed.

(** C14: any sequence of inode-number allocations and frees (on existing
    CPUs; of numbers other than the first of each map, which is reserved) runs
    without a fault and behaves exactly as the abstract allocator on the set of
    numbers in use.  An allocation returns the least unused number of its CPU and
    marks that number only, or reports ENOSPC when all are in use.  A free gives
    back that number only, or is refused with EINVAL when it is not in use; when
    both of its neighbours on the CPU are in use and no memory can be had it
    reports success, but the number stays in use.  The count of used numbers
    follows the reported successes, and the maps keep their invariant.  With
    memory for every node no free is lost. *)
Theorem inode_numbers_refine ops s :
  inodes_wf s -> Forall (op_ok (cpus (sbc s))) ops ->
  exists mems rs s', exec_ops ops s = Ok rs s' /\ inodes_wf s' /\
    num_run (cpus (sbc s)) (abs_numbers s) ops mems rs (abs_numbers s') /\
    ((forall p, kmem_cache_zalloc_ok p = true) -> Forall (fun m => m = true) mems).
Proof.
  intros W Hops. revert s W Hops. induction ops as [|op ops IH]; intros s W Hops.
  - exists [], [], s. split_and!; [done..|constructor|by constructor].
  - apply Forall_cons in Hops as [Hop Hops].
    destruct (exec_op_refines s op W Hop) as (r & s1 & E1 & Es & W1 & St).
    destruct (IH s1 W1) as (mems & rs & s' & E2 & W2 & R & Hm); [by rewrite Es|].
    exists (kmem_cache_zalloc_ok (alloc_clock s) :: mems), (r :: rs), s'.
    cbn. rewrite (bind_ok _ _ _ _ _ E1), (bind_ok _ _ _ _ _ E2).
    split_and!; [done..| |by constructor; [|apply Hm]]. rewrite Es in R. by econstructor.
Qed.

(** ** Initialisation *)

(** [ceil (NOVA_NORMAL_INODE_START / n)] *)
Definition init_high (n : Z) : Z := (NOVA_NORMAL_INODE_START + n - 1) / n.

Lemma init_high_code n :
  0 < n ->
  (if negb (NOVA_NORMAL_INODE_START mod n =? 0)
   then u64 (NOVA_NORMAL_INODE_START / n + 1) else NOVA_NORMAL_INODE_START / n) = init_high n.
Proof.
  intros Hn. unfold init_high. assert (NOVA_NORMAL_INODE_START = 32) as -> by done.
  pose proof (Z.div_mod 32 n). pose proof (Z.mod_pos_bound 32 n Hn).
  assert (0 <= 32 / n <= 32) by (split; [apply Z.div_pos|apply Z.div_le_upper_bound]; nia).
  destruct (Z.eqb_spec (32 mod n) 0) as [E|Hne]; cbn [negb].
  - apply (Z.div_unique _ _ _ (n - 1)); lia.
  - rewrite uwrap_small by lia. apply (Z.div_unique _ _ _ (32 mod n - 1)); nia.
Qed.

Lemma init_high_bound n : 0 < n -> 0 < init_high n <= 32.
Proof.
  intros Hn. unfold init_high. assert (NOVA_NORMAL_INODE_START = 32) as -> by done. split.
  - apply Z.div_str_pos. lia.
  - apply Z.div_le_upper_bound; nia.
Qed.

(** A map holding the one range [0..high]. *)
Definition one_range (c : ptr) (high : Z) (im : inode_map) : Prop :=
  exists p n, im_nodes im = [(p, n)] /\ first_inode_range im = Some p /\
    num_range_node_inode im = 1 /\ range_low n = 0 /\ range_high n = high /\
    nova_range_node_checksum_ok n = true /\ (p < c)%positive.

Lemma one_range_wf c high im : one_range c high im -> 0 <= high <= 32 -> imap_wf c im.
Proof.
  intros (p & n & E & Ef & En & Hlo & Hhi & Hcs & Hp) Hh. assert (MAX_INODE = 2 ^ 31) by done. split.
  - rewrite E. apply nodes_ok_cons. split_and!; [|split; constructor|set_solver].
    repeat split; cbn; auto; lia.
  - exists p, n, []. auto.
  - by rewrite En, E.
Qed.

Lemma one_range_clock c c' high im :
  one_range c high im -> (c <= c')%positive -> one_range c' high im.
Proof. intros (p & n & ? & ? & ? & ? & ? & ? & ?) Hc. exists p, n. split_and!; auto. lia. Qed.

Record init_inv (s0 : nova) (high : Z) (i : Z) (s : nova) : Prop := {
  ii_sbc : sbc s = sbc s0;
  ii_len : length (inode_maps s) = length (inode_maps s0);
  ii_done : forall j im, Z.of_nat j < i -> inode_maps s !! j = Some im ->
    one_range (alloc_clock s) high im;
  ii_todo : forall j, i <= Z.of_nat j -> inode_maps s !! j = inode_maps s0 !! j;
  ii_count : s_inodes_used_count s = NOVA_NORMAL_INODE_START;
  ii_frame : free_lists s = free_lists s0 /\ nvmm s = nvmm s0 /\ per_list_blocks s = per_list_blocks s0
}.

Lemma init_inuse_step s0 high i s im :
  init_inv s0 high i s -> map_at s0 i im -> inode_inuse_tree im = RB_ROOT -> 0 <= high ->
  (forall p, kmem_cache_zalloc_ok p = true) ->
  exists s', init_inuse_body high i s = Ok None s' /\ init_inv s0 high (i + 1) s'.
Proof.
  intros I [Hi Ei] Hroot Hh Hslab.
  assert (map_at s i im) as At by (split; [done|]; rewrite (ii_todo _ _ _ _ I); [done|lia]).
  set (c := alloc_clock s).
  set (n := nova_update_range_node_checksum (set_range_high high (set_range_low 0 zeroed_node))).
  set (t := RbNode RB_ROOT c n RB_ROOT).
  assert (inorder (rb_insert_color c t) = [(c, n)]) as Et.
  { rewrite rb_insert_color_inorder; [done|]. cbn. apply NoDup_singleton. }
  set (im' := set_first_inode_range (Some c) (set_num_range_node_inode 1
    (set_inode_inuse_tree (rb_insert_color c t) im))).
  exists (with_map i im' (bump s)). split.
  - unfold init_inuse_body. erewrite (bind_ok _ _ _ (Some c) (bump s)).
    2: { unfold nova_alloc_inode_node, nova_alloc_range_node, kmem_cache_zalloc. by rewrite Hslab. }
    erewrite bind_ok by (apply get_inode_map_run; exact At).
    fold n. unfold nova_insert_inodetree, nova_insert_range_node. rewrite Hroot. cbn [insert_walk].
    fold t. cbn [negb Z.eqb].
    erewrite (bind_ok _ _ _ tt (with_map i _ (bump s))) by reflexivity.
    erewrite bind_ok by (apply get_inode_map_run; by eapply map_at_with).
    unfold bind, put_inode_map, modify, ret. f_equal. unfold with_map. cbn.
    by rewrite list_insert_insert_eq.
  - destruct I. split; cbn; rewrite ?length_insert; auto.
    + intros j im0 Hj [(<- & E0 & _)|[Hne E0]]%list_lookup_insert_Some.
      * rewrite <- E0. exists c, n. split_and!; [exact Et|done|done| | |apply update_checksum_ok|cbn; lia];
          unfold n; by rewrite ?update_checksum_low, ?update_checksum_high.
      * eapply one_range_clock; [apply (ii_done0 j); [lia|done]|]. cbn. lia.
    + intros j Hj. rewrite list_lookup_insert_ne by lia. apply ii_todo0. lia.
Qed.

Lemma init_inuse_list_run s :
  Z.of_nat (length (inode_maps s)) = cpus (sbc s) -> 0 < cpus (sbc s) < 2 ^ 31 ->
  (forall im, im ∈ inode_maps s -> inode_inuse_tree im = RB_ROOT) ->
  (forall p, kmem_cache_zalloc_ok p = true) ->
  exists s', nova_init_inode_inuse_list s = Ok 0 s' /\ inodes_wf s' /\
    (forall x, ino_inuse s' x = (0 <=? x) && (x / cpus (sbc s) <=? init_high (cpus (sbc s)))) /\
    (forall x, 0 <= x < NOVA_NORMAL_INODE_START -> ino_inuse s' x = true) /\
    s_inodes_used_count s' = NOVA_NORMAL_INODE_START.
Proof.
  intros Hlen Hn Hroot Hslab. set (n := cpus (sbc s)) in *.
  pose proof (init_high_bound n ltac:(lia)) as Hh.
  set (s1 := set_s_inodes_used_count NOVA_NORMAL_INODE_START s).
  destruct (for_loop_inv (init_inv s1 (init_high n)) (init_inuse_body (init_high n)) (Z.to_nat n) 0 s1)
    as (s' & E & I).
  { split; auto. intros; lia. }
  { intros j s2 Hj I. destruct (lookup_lt_is_Some_2 (inode_maps s) (Z.to_nat j)) as [im Eim]; [lia|].
    apply (init_inuse_step s1 _ j s2 im); auto; [split; [lia|done]| |lia].
    apply Hroot. by eapply list_elem_of_lookup_2. }
  assert (sbc s' = sbc s) as Es by apply I.
  assert (forall j im, inode_maps s' !! j = Some im ->
    one_range (alloc_clock s') (init_high n) im) as Hone.
  { intros j im Ej. apply (ii_done _ _ _ _ I j); [|done].
    apply lookup_lt_Some in Ej. rewrite (ii_len _ _ _ _ I) in Ej. cbn in Ej. lia. }
  assert (forall x, ino_inuse s' x = (0 <=? x) && (x / n <=? init_high n)) as U.
  { intros x. unfold ino_inuse. rewrite Es. fold n.
    pose proof (Z.mod_pos_bound x n ltac:(lia)).
    destruct (lookup_lt_is_Some_2 (inode_maps s') (Z.to_nat (x mod n))) as [im Eim].
    { rewrite (ii_len _ _ _ _ I). cbn. lia. }
    rewrite Eim. destruct (Hone _ _ Eim) as (p & nd & En & _ & _ & Hlo & Hhi & _).
    unfold im_inuse. rewrite En. cbn [covered existsb]. rewrite orb_false_r. unfold covers. cbn [snd].
    rewrite Hlo, Hhi. f_equal. pose proof (Z.div_mod x n). pose proof (Z.mod_pos_bound x n).
    destruct (Z.leb_spec 0 (x / n)), (Z.leb_spec 0 x); auto; nia. }
  exists s'. split.
  { unfold nova_init_inode_inuse_list. unfold bind at 1, modify. unfold bind at 1, gets. cbn [cpus sbc].
    change (cpus (sbc (set_s_inodes_used_count NOVA_NORMAL_INODE_START s))) with n.
    rewrite (proj2 (Z.eqb_neq _ 0)) by lia. rewrite init_high_code by lia.
    fold s1. by rewrite (bind_ok _ _ _ _ _ E). }
  split_and!; [|exact U| |exact (ii_count _ _ _ _ I)].
  - split.
    + rewrite (ii_len _ _ _ _ I), Es. done.
    + by rewrite Es.
    + intros j im Ej. eapply one_range_wf; [by eapply Hone|lia].
  - intros x Hx. rewrite U. apply andb_true_iff. split; [bool_lia|].
    apply Z.leb_le. unfold init_high. apply Z.div_le_mono; lia.
Qed.

(** on freshly created maps, [nova_init_inode_inuse_list]
    establishes the invariant of the maps; the numbers in use are then exactly
    those whose quotient by the number of CPUs is at most the quotient of
    NOVA_NORMAL_INODE_START rounded up, which include every reserved number. *)
Theorem nova_init_inode_inuse_list_correct s :
  Z.of_nat (length (inode_maps s)) = cpus (sbc s) -> 0 < cpus (sbc s) < 2 ^ 31 ->
  (forall im, im ∈ inode_maps s -> inode_inuse_tree im = RB_ROOT) ->
  (forall p, kmem_cache_zalloc_ok p = true) ->
  exists s', nova_init_inode_inuse_list s = Ok 0 s' /\ inodes_wf s' /\
    (forall x, ino_inuse s' x = (0 <=? x) && (x / cpus (sbc s) <=? init_high (cpus (sbc s)))) /\
    (forall x, 0 <= x < NOVA_NORMAL_INODE_START -> ino_inuse s' x = true) /\
    s_inodes_used_count s' = NOVA_NORMAL_INODE_START.
Proof. apply init_inuse_list_run. Qed.

(** C40: when the number to free lies strictly inside its
    range and the node for the upper part cannot be allocated, the free reports
    success and lowers the count of used numbers, yet the number stays in
    use. *)
Theorem nova_free_inuse_inode_nomem s ino cpu im p n :
  inodes_wf s -> cpu = ino mod cpus (sbc s) -> map_at s cpu im -> (p, n) ∈ im_nodes im ->
  range_low n < ino / cpus (sbc s) < range_high n ->
  kmem_cache_zalloc_ok (alloc_clock s) = false ->
  exists s', nova_free_inuse_inode ino s = Ok 0 s' /\
    (forall x, ino_inuse s' x = ino_inuse s x) /\
    s_inodes_used_count s' = u64 (s_inodes_used_count s - 1).
Proof.
  intros W -> At Hin Hk Hslab. pose proof (map_at_cpu _ _ _ W At) as Hc.
  destruct (free_nomem_run s _ im _ p n W At Hin Hk Hslab) as (s' & E & _ & _ & Hu & Hn).
  exists s'. split; [|done]. rewrite <- E. f_equal. by apply ino_join.
Qed.
End spec.
