(* ===== verification/NovaLayout.v ===== *)
(** The on-media structures (inode.h, log.h, journal.h, nova.h) and the helpers
    that read and write their fields.

    A packed structure is the list of its fields with their sizes; a field
    access is a load or store at the field's computed offset. *)

From stdpp Require Import strings.
From S2P Require Import Prelude CInt Crc32c NovaEnv RangeNode Pmem NovaState NovaMonad NovaLib.

Local Open Scope nova_scope.
Local Open Scope string_scope.
Local Open Scope Z_scope.

(** ** Packed structures *)
Definition struct : Type := list (string * nat).

Definition sizeof (st : struct) : Z := sumZ (fun f => Z.of_nat f.2) st.

Fixpoint offsetof (st : struct) (f : string) : Z :=
  match st with
  | [] => 0
  | (g, n) :: st => if decide (f = g) then 0 else Z.of_nat n + offsetof st f
  end.

Fixpoint sizeof_field (st : struct) (f : string) : nat :=
  match st with
  | [] => 0%nat
  | (g, n) :: st => if decide (f = g) then n else sizeof_field st f
  end.

(** inode.h *)
Definition nova_inode : struct := [
  ("i_rsvd", 1%nat); ("valid", 1%nat); ("deleted", 1%nat); ("i_blk_type", 1%nat);
  ("i_flags", 4%nat); ("i_size", 8%nat); ("i_ctime", 4%nat); ("i_mtime", 4%nat);
  ("i_atime", 4%nat); ("i_mode", 2%nat); ("i_links_count", 2%nat); ("i_xattr", 8%nat);
  ("i_uid", 4%nat); ("i_gid", 4%nat); ("i_generation", 4%nat); ("i_create_time", 4%nat);
  ("nova_ino", 8%nat); ("log_head", 8%nat); ("log_tail", 8%nat); ("alter_log_head", 8%nat);
  ("alter_log_tail", 8%nat); ("create_epoch_id", 8%nat); ("delete_epoch_id", 8%nat);
  ("rdev", 4%nat); ("csum", 4%nat)].

Definition inode_table : struct := [("log_head", 8%nat)].

(** log.h *)
Definition LOG_BLOCK_TAIL : Z := 4064.
Definition nova_inode_page_tail : struct := [
  ("invalid_entries", 4%nat); ("num_entries", 4%nat); ("epoch_id", 8%nat);
  ("alter_page", 8%nat); ("next_page", 8%nat)].
Definition nova_inode_log_page : struct :=
  ("padding", Z.to_nat LOG_BLOCK_TAIL) :: nova_inode_page_tail.

Inductive nova_entry_type :=
| FILE_WRITE | DIR_LOG | SET_ATTR | LINK_CHANGE | MMAP_WRITE | SNAPSHOT_INFO | NEXT_PAGE.

#[global] Instance nova_entry_type_eq_dec : EqDecision nova_entry_type.
Proof. solve_decision. Defined.

Definition entry_type_val (t : nova_entry_type) : Z :=
  match t with
  | FILE_WRITE => 1 | DIR_LOG => 2 | SET_ATTR => 3 | LINK_CHANGE => 4
  | MMAP_WRITE => 5 | SNAPSHOT_INFO => 6 | NEXT_PAGE => 7
  end.

Definition nova_file_write_entry : struct := [
  ("entry_type", 1%nat); ("reassigned", 1%nat); ("updating", 1%nat); ("padding", 1%nat);
  ("num_pages", 4%nat); ("block", 8%nat); ("pgoff", 8%nat); ("invalid_pages", 4%nat);
  ("mtime", 4%nat); ("size", 8%nat); ("epoch_id", 8%nat); ("trans_id", 8%nat);
  ("csumpadding", 4%nat); ("csum", 4%nat)].

Definition NOVA_NAME_LEN : Z := 255.
Definition nova_dentry : struct := [
  ("entry_type", 1%nat); ("name_len", 1%nat); ("reassigned", 1%nat); ("invalid", 1%nat);
  ("de_len", 2%nat); ("links_count", 2%nat); ("mtime", 4%nat); ("csum", 4%nat);
  ("ino", 8%nat); ("padding", 8%nat); ("epoch_id", 8%nat); ("trans_id", 8%nat);
  ("name", Z.to_nat (NOVA_NAME_LEN + 1))].
Definition NOVA_DENTRY_HEADER_LEN : Z := 48.
Definition NOVA_DIR_ROUND : Z := 8 - 1.
Definition NOVA_DIR_LOG_REC_LEN (name_len : Z) : Z :=
  Z.land ((name_len + 1) + NOVA_DENTRY_HEADER_LEN + NOVA_DIR_ROUND) (Z.lnot NOVA_DIR_ROUND).

Definition nova_setattr_logentry : struct := [
  ("entry_type", 1%nat); ("attr", 1%nat); ("mode", 2%nat); ("uid", 4%nat); ("gid", 4%nat);
  ("atime", 4%nat); ("mtime", 4%nat); ("ctime", 4%nat); ("size", 8%nat); ("epoch_id", 8%nat);
  ("trans_id", 8%nat); ("invalid", 1%nat); ("paddings", 3%nat); ("csum", 4%nat)].
Definition nova_link_change_entry : struct := [
  ("entry_type", 1%nat); ("invalid", 1%nat); ("links", 2%nat); ("ctime", 4%nat);
  ("flags", 4%nat); ("generation", 4%nat); ("epoch_id", 8%nat); ("trans_id", 8%nat);
  ("csumpadding", 4%nat); ("csum", 4%nat)].
Definition nova_mmap_entry : struct := [
  ("entry_type", 1%nat); ("invalid", 1%nat); ("paddings", 6%nat); ("epoch_id", 8%nat);
  ("pgoff", 8%nat); ("num_pages", 8%nat); ("csumpadding", 4%nat); ("csum", 4%nat)].
Definition nova_snapshot_info_entry : struct := [
  ("type", 1%nat); ("deleted", 1%nat); ("paddings", 6%nat); ("epoch_id", 8%nat);
  ("timestamp", 8%nat); ("nvmm_page_addr", 8%nat); ("csumpadding", 4%nat); ("csum", 4%nat)].

Definition nova_get_log_entry_size (type : nova_entry_type) : Z :=
  match type with
  | FILE_WRITE => sizeof nova_file_write_entry
  | DIR_LOG => NOVA_DENTRY_HEADER_LEN
  | SET_ATTR => sizeof nova_setattr_logentry
  | LINK_CHANGE => sizeof nova_link_change_entry
  | MMAP_WRITE => sizeof nova_mmap_entry
  | SNAPSHOT_INFO => sizeof nova_snapshot_info_entry
  | NEXT_PAGE => 0
  end.

(** journal.h *)
Definition JOURNAL_INODE : Z := 1.
Definition JOURNAL_ENTRY : Z := 2.
Definition nova_lite_journal_entry : struct := [
  ("type", 8%nat); ("data1", 8%nat); ("data2", 8%nat); ("padding", 4%nat); ("csum", 4%nat)].
Definition journal_ptr_pair : struct := [("journal_head", 8%nat); ("journal_tail", 8%nat)].

(** The DRAM header of an inode, the fields the modelled code uses. *)
Record inode_header := mkSih {
  sih_ino : Z;
  pi_addr : Z;
  alter_pi_addr : Z;
  i_blk_type : Z;
  sih_log_head : Z;
  sih_log_tail : Z;
  sih_alter_log_head : Z;
  sih_alter_log_tail : Z
}.

Section layout.
Context `{NovaEnv}.

(** ** Field accesses: [p] is the address of a structure. *)
Definition field_addr (st : struct) (p : Z) (f : string) : Z := p + offsetof st f.
Definition pload_field (st : struct) (p : Z) (f : string) : M Z :=
  pload (sizeof_field st f) (field_addr st p f).
Definition pstore_field (st : struct) (p : Z) (f : string) (v : Z) : M unit :=
  pstore (sizeof_field st f) (field_addr st p f) v.

(** [memcpy_mcsafe(&x, addr, n)]: the return code and the bytes copied. *)
Definition memcpy_mcsafe (addr : Z) (n : nat) : M (Z * list Z) :=
  let rc := memcpy_mcsafe_rc addr (Z.of_nat n) in
  if negb (rc =? 0) then ret (rc, [])
  else let! l := pload_bytes n addr in ret (0, l).

(** ** Inodes (inode.h, nova.h) *)
Definition nova_get_inode (sih : inode_header) : M Z :=
  let! addr := gets (fun s => nova_get_block s (pi_addr sih)) in
  let! r := memcpy_mcsafe addr (Z.to_nat (sizeof nova_inode)) in
  if negb (r.1 =? 0) then ret 0 else ret addr.

Definition nova_get_alter_inode (sih : inode_header) : M Z :=
  if metadata_csum =? 0 then ret 0
  else
    let! addr := gets (fun s => nova_get_block s (alter_pi_addr sih)) in
    let! r := memcpy_mcsafe addr (Z.to_nat (sizeof nova_inode)) in
    if negb (r.1 =? 0) then ret 0 else ret addr.

Definition nova_update_alter_inode (sih : inode_header) (pi : Z) : M Z :=
  if metadata_csum =? 0 then ret 0
  else
    let! alter_pi := nova_get_alter_inode sih in
    if alter_pi =? 0 then ret (- EINVAL)
    else
      let! l := pload_bytes (Z.to_nat (sizeof nova_inode)) pi in
      let! _ := memcpy_to_pmem_nocache alter_pi l in
      ret 0.

Definition inode_crc (pi : Z) : M Z :=
  let! l := pload_bytes (Z.to_nat (sizeof nova_inode - 4)) pi in
  ret (nova_crc32c (u32 (-1)) l).

Definition nova_update_inode_checksum (pi : Z) : M Z :=
  (if metadata_csum =? 0 then ret tt
   else let! crc := inode_crc pi in pstore_field nova_inode pi "csum" crc) ;;;
  nova_flush_buffer pi (sizeof nova_inode) true ;;; ret 0.

Definition nova_check_inode_checksum (pi : Z) : M Z :=
  if metadata_csum =? 0 then ret 0
  else
    let! crc := inode_crc pi in
    let! c := pload_field nova_inode pi "csum" in
    ret (if c =? crc then 0 else 1).

Definition nova_update_tail (pi new_tail : Z) : M unit :=
  PERSISTENT_BARRIER ;;;
  pstore_field nova_inode pi "log_tail" new_tail ;;;
  nova_flush_buffer (field_addr nova_inode pi "log_tail") CACHELINE_SIZE true.

Definition nova_update_alter_tail (pi new_tail : Z) : M unit :=
  if metadata_csum =? 0 then ret tt
  else
    PERSISTENT_BARRIER ;;;
    pstore_field nova_inode pi "alter_log_tail" new_tail ;;;
    nova_flush_buffer (field_addr nova_inode pi "alter_log_tail") CACHELINE_SIZE true.

(** Returns the updated header. *)
Definition nova_update_inode (sih : inode_header) (pi tail alter_tail : Z) (update_alter : bool)
    : M inode_header :=
  let sih := mkSih (sih_ino sih) (pi_addr sih) (alter_pi_addr sih) (i_blk_type sih)
    (sih_log_head sih) tail (sih_alter_log_head sih) alter_tail in
  nova_update_tail pi tail ;;;
  when (negb (metadata_csum =? 0)) (nova_update_alter_tail pi alter_tail) ;;;
  let! _ := nova_update_inode_checksum pi in
  (if update_alter then let! _ := nova_update_alter_inode sih pi in ret tt else ret tt) ;;;
  ret sih.

(** [None] when the copy of the inode fails, with the error. *)
Definition nova_get_head_tail (pi : Z) (sih : inode_header) : M (Z * inode_header) :=
  let! r := memcpy_mcsafe pi (Z.to_nat (sizeof nova_inode)) in
  if negb (r.1 =? 0) then ret (r.1, sih)
  else
    let fld f := le_val (take (sizeof_field nova_inode f)
                   (drop (Z.to_nat (offsetof nova_inode f)) r.2)) in
    ret (0, mkSih (sih_ino sih) (pi_addr sih) (alter_pi_addr sih) (fld "i_blk_type")
      (fld "log_head") (fld "log_tail") (fld "alter_log_head") (fld "alter_log_tail")).

Definition nova_get_inode_table (version cpu : Z) : M Z :=
  let! s := gets id in
  if cpus (sbc s) <=? cpu then ret 0
  else
    let table_start := if Z.land version 1 =? 0 then INODE_TABLE0_START else INODE_TABLE1_START in
    ret (nova_get_block s (NOVA_DEF_BLOCK_SIZE_4K * table_start) + cpu * CACHELINE_SIZE).

Definition nova_get_reserved_inode_addr (inode_number : Z) : Z :=
  u64 (NOVA_DEF_BLOCK_SIZE_4K * RESERVE_INODE_START + inode_number * NOVA_INODE_SIZE).
Definition nova_get_alter_reserved_inode_addr (s : nova) (inode_number : Z) : Z :=
  u64 (nova_get_addr_off s (replica_reserved_inodes_addr (sbc s))
       + inode_number * NOVA_INODE_SIZE).
Definition nova_get_reserved_inode (s : nova) (inode_number : Z) : Z :=
  virt_addr (sbc s) + nova_get_reserved_inode_addr inode_number.
Definition nova_get_alter_reserved_inode (s : nova) (inode_number : Z) : Z :=
  virt_addr (sbc s) + nova_get_alter_reserved_inode_addr s inode_number.
Definition nova_get_inode_by_ino (s : nova) (ino : Z) : Z :=
  if (ino =? 0) || (NOVA_NORMAL_INODE_START <=? ino) then 0
  else nova_get_reserved_inode s ino.
End layout.
