(* ===== verification/PmemOps.v ===== *)
(** Symbolic execution of code that only touches the device.

    [mem_upd m s0 s] says that [s] is [s0] but for the device contents, which
    are [m], the trace and the write-protection bit.  The rules below step
    through stores, loads, flushes, fences and the write-protection window
    while keeping such a statement about the state the code started from. *)

From stdpp Require Import strings.
From S2P Require Import Prelude CInt Crc32c NovaEnv RangeNode Pmem NovaState NovaMonad NovaLib.
From S2P Require Import NovaLayout.

Local Open Scope nova_scope.

Definition mem_upd (m : mem) (s0 s : nova) : Prop :=
  exists w t, s = set_cr0_wp w (set_trace t (set_nvmm m s0)).

Lemma mem_upd_refl s : mem_upd (nvmm s) s s.
Proof. exists (cr0_wp s), (trace s). by destruct s. Qed.

Lemma mem_upd_trans m1 m2 s0 s1 s2 : mem_upd m1 s0 s1 -> mem_upd m2 s1 s2 -> mem_upd m2 s0 s2.
Proof. intros (w1 & t1 & ->) (w2 & t2 & ->). by exists w2, t2. Qed.

(** What a [mem_upd] keeps. *)
Lemma mem_upd_nvmm m s0 s : mem_upd m s0 s -> nvmm s = m.
Proof. by intros (w & t & ->). Qed.
Lemma mem_upd_sbc m s0 s : mem_upd m s0 s -> sbc s = sbc s0.
Proof. by intros (w & t & ->). Qed.
Lemma mem_upd_keep {A} (g : nova -> A) m s0 s :
  (forall w x, g (set_cr0_wp w x) = g x) -> (forall t x, g (set_trace t x) = g x) ->
  (forall m x, g (set_nvmm m x) = g x) -> mem_upd m s0 s -> g s = g s0.
Proof. intros G1 G2 G3 (w & t & ->). by rewrite G1, G2, G3. Qed.

Lemma mem_upd_lists m s0 s : mem_upd m s0 s -> free_lists s = free_lists s0.
Proof. by apply mem_upd_keep. Qed.
Lemma mem_upd_maps m s0 s : mem_upd m s0 s -> inode_maps s = inode_maps s0.
Proof. by apply mem_upd_keep. Qed.
Lemma mem_upd_clock m s0 s : mem_upd m s0 s -> alloc_clock s = alloc_clock s0.
Proof. by apply mem_upd_keep. Qed.
Lemma mem_upd_plb m s0 s : mem_upd m s0 s -> per_list_blocks s = per_list_blocks s0.
Proof. by apply mem_upd_keep. Qed.
Lemma mem_upd_cpu m s0 s : mem_upd m s0 s -> running_cpu s = running_cpu s0.
Proof. by apply mem_upd_keep. Qed.

(** A word in zeroed memory. *)
Lemma load_zero n m a :
  (forall x, a <= x < a + Z.of_nat n -> mget m x = 0) -> load n m a = 0.
Proof.
  unfold load. revert a. induction n as [|n IH]; intros a Hz; cbn [load_bytes le_val]; [done|].
  rewrite IH by (intros; apply Hz; lia). rewrite Hz by lia. lia.
Qed.

(** ** Chains

    [linked_to link m l next]: the word at [link p] of every [p] of [l] is the
    element after it, and [next] for the last. *)
Fixpoint linked_to (link : Z -> Z) (m : mem) (l : list Z) (next : Z) : Prop :=
  match l with
  | [] => True
  | p :: l => load 8 m (link p) = default next (head l) /\ linked_to link m l next
  end.

(** A chain that ends. *)
Definition linked (link : Z -> Z) (m : mem) (l : list Z) : Prop := linked_to link m l 0.

Lemma linked_to_app link m l1 l2 next :
  linked_to link m (l1 ++ l2) next <->
  linked_to link m l1 (default next (head l2)) /\ linked_to link m l2 next.
Proof.
  induction l1 as [|p l1 IH]; cbn [linked_to app]; [tauto|]. rewrite IH.
  destruct l1 as [|q l1]; cbn [head app]; tauto.
Qed.

Lemma linked_at link m l1 p l2 :
  linked link m (l1 ++ p :: l2) -> load 8 m (link p) = default 0 (head l2).
Proof. intros (_ & E & _)%linked_to_app. exact E. Qed.

Lemma linked_to_ext link m m' l next :
  linked_to link m l next ->
  (forall p, p ∈ l -> load 8 m' (link p) = load 8 m (link p)) -> linked_to link m' l next.
Proof.
  induction l as [|p l IH]; [done|]. intros [E C] Hm. cbn [linked_to]. split.
  - rewrite Hm by set_solver. done.
  - apply IH; [done|]. set_solver.
Qed.

(** The last link redirected to a new chain. *)
Lemma linked_join link m m' l p l2 :
  linked link m (l ++ [p]) -> load 8 m' (link p) = default 0 (head l2) -> linked link m' l2 ->
  (forall x, x ∈ l -> load 8 m' (link x) = load 8 m (link x)) -> linked link m' (l ++ p :: l2).
Proof.
  intros C Ep C2 Hm. apply linked_to_app in C as [C _]. apply linked_to_app.
  split; [by eapply linked_to_ext|]. by split.
Qed.

Section rules.
Context `{NovaEnv}.

Lemma mem_upd_in_pmem m s0 s a n : mem_upd m s0 s -> in_pmem s a n = in_pmem s0 a n.
Proof. intros U. unfold in_pmem. by rewrite (mem_upd_sbc _ _ _ U). Qed.
Lemma mem_upd_block m s0 s p : mem_upd m s0 s -> nova_get_block s p = nova_get_block s0 p.
Proof. intros U. unfold nova_get_block. by rewrite (mem_upd_sbc _ _ _ U). Qed.

Lemma wp_pload m s0 s n a (Q : Z -> nova -> Prop) :
  mem_upd m s0 s -> in_pmem s0 a n = true -> Q (load n m a) s -> wp (pload n a) Q s.
Proof.
  intros U Hin HQ. unfold wp, pload. rewrite (mem_upd_in_pmem _ _ _ _ _ U), Hin.
  by rewrite (mem_upd_nvmm _ _ _ U).
Qed.

Lemma wp_pload_bytes m s0 s n a (Q : list Z -> nova -> Prop) :
  mem_upd m s0 s -> in_pmem s0 a n = true -> Q (load_bytes m a n) s -> wp (pload_bytes n a) Q s.
Proof.
  intros U Hin HQ. unfold wp, pload_bytes. rewrite (mem_upd_in_pmem _ _ _ _ _ U), Hin.
  by rewrite (mem_upd_nvmm _ _ _ U).
Qed.

Lemma wp_pstore m s0 s n a v (Q : unit -> nova -> Prop) :
  mem_upd m s0 s -> writable s = true -> in_pmem s0 a n = true ->
  (forall s', mem_upd (store n m a v) s0 s' -> writable s' = true -> Q tt s') ->
  wp (pstore n a v) Q s.
Proof.
  intros U W Hin HQ. unfold wp. rewrite pstore_run; [|by rewrite (mem_upd_in_pmem _ _ _ _ _ U)|done].
  apply HQ; [|done]. pose proof U as (w & t & ->). by eexists _, _.
Qed.

Lemma wp_flush m s0 s buf len fence (Q : unit -> nova -> Prop) :
  mem_upd m s0 s -> 0 <= len -> len + 63 <= 2 ^ 32 - 64 ->
  (forall s', mem_upd m s0 s' -> writable s' = writable s -> Q tt s') ->
  wp (nova_flush_buffer buf len fence) Q s.
Proof.
  intros U H0' Hl HQ. unfold wp. rewrite nova_flush_buffer_run by done.
  apply HQ; [|done]. pose proof U as (w & t & ->). by eexists _, _.
Qed.

Lemma wp_barrier m s0 s (Q : unit -> nova -> Prop) :
  mem_upd m s0 s ->
  (forall s', mem_upd m s0 s' -> writable s' = writable s -> Q tt s') -> wp PERSISTENT_BARRIER Q s.
Proof.
  intros U HQ. unfold wp. apply HQ; [|done]. pose proof U as (w & t & ->). by eexists _, _.
Qed.

Lemma wp_memunlock m s0 s p len (Q : unit -> nova -> Prop) :
  mem_upd m s0 s -> 0 < virt_addr (sbc s0) -> virt_addr (sbc s0) + initsize (sbc s0) < 2 ^ 64 ->
  virt_addr (sbc s0) <= p -> 0 <= len -> p + len <= virt_addr (sbc s0) + initsize (sbc s0) ->
  (forall s', mem_upd m s0 s' -> writable s' = true -> Q tt s') ->
  wp (nova_memunlock_range p len) Q s.
Proof.
  intros U Hv Hsz Hlo Hlen Hhi HQ. pose proof (mem_upd_sbc _ _ _ U) as Es. unfold wp.
  rewrite memunlock_run by (rewrite ?Es; lia). apply HQ; [|apply writable_unlocked].
  pose proof U as (w & t & ->). unfold unlocked. case_match; by eexists _, _.
Qed.

Lemma wp_memlock m s0 s p len (Q : unit -> nova -> Prop) :
  mem_upd m s0 s -> (forall s', mem_upd m s0 s' -> Q tt s') -> wp (nova_memlock_range p len) Q s.
Proof.
  intros U HQ. unfold wp. rewrite memlock_run. apply HQ.
  pose proof U as (w & t & ->). unfold locked. case_match; by eexists _, _.
Qed.

Lemma wp_mcsafe m s0 s a n (Q : Z * list Z -> nova -> Prop) :
  mem_upd m s0 s -> memcpy_mcsafe_rc a (Z.of_nat n) = 0 -> in_pmem s0 a n = true ->
  Q (0, load_bytes m a n) s -> wp (memcpy_mcsafe a n) Q s.
Proof.
  intros U Hrc Hin HQ. unfold memcpy_mcsafe. rewrite Hrc. cbn [negb Z.eqb].
  apply wp_bind. eapply wp_pload_bytes; [done..|]. by apply wp_ret.
Qed.
End rules.
