(* ===== verification/LogPage.v ===== *)
(** Log pages (log.h, nova.h) and their allocation and release (log.c).

    A log is a chain of 4 KB pages; the last 32 bytes of a page are its tail,
    whose [next_page] links it to the next one.  An offset [curr_p] into a log
    is a page offset plus the location of an entry in the page.

    Each definition translates the C function of the same name.  Loops that
    follow a chain are bounded by the number of pages of the device: a longer
    walk means the chain is cyclic and the C loop does not end. *)

From stdpp Require Import strings.
From S2P Require Import Prelude CInt Crc32c NovaEnv RangeNode Pmem NovaState NovaMonad NovaLib.
From S2P Require Import Balloc NovaLayout.

Local Open Scope nova_scope.
Local Open Scope string_scope.
Local Open Scope Z_scope.

Definition MAIN_LOG : Z := 0.
Definition ALTER_LOG : Z := 1.
Definition PAGE_OFFSET_MASK : Z := 4095.
Definition BLOCK_OFF (p : Z) : Z := Z.land p (Z.lnot PAGE_OFFSET_MASK).
Definition ENTRY_LOC (p : Z) : Z := Z.land p PAGE_OFFSET_MASK.

Definition is_last_entry (curr_p size : Z) : bool :=
  LOG_BLOCK_TAIL <? u32 (ENTRY_LOC curr_p + size).

(** Pages a chain on the device can have. *)
Definition chain_fuel (s : nova) : nat := Z.to_nat (initsize (sbc s) / PAGE_SIZE + 1).

Section log_page.
Context `{NovaEnv, RbLib}.

(** ** Page tails (nova.h) *)

(** [memcpy_mcsafe(&x, &curr_page->page_tail.f, sizeof(u64))]; the error code
    is returned in place of the value. *)
Definition read_tail (curr : Z) (f : string) : M Z :=
  let! page := gets (fun s => nova_get_block s (BLOCK_OFF curr)) in
  let! r := memcpy_mcsafe (field_addr nova_inode_log_page page f) 8 in
  ret (if negb (r.1 =? 0) then u64 r.1 else le_val r.2).

Definition next_log_page (curr : Z) : M Z := read_tail curr "next_page".
Definition alter_log_page (curr : Z) : M Z :=
  if metadata_csum =? 0 then ret 0 else read_tail curr "alter_page".

Definition alter_log_entry (curr_p : Z) : M Z :=
  if metadata_csum =? 0 then ret 0
  else
    let! addr := gets (fun s => nova_get_block s curr_p) in
    let! alter := pload_field nova_inode_page_tail (BLOCK_OFF addr + LOG_BLOCK_TAIL) "alter_page" in
    ret (u64 (alter + ENTRY_LOC curr_p)).

(** log.h; the result is a [u8]. *)
Definition nova_get_entry_type (p : Z) : M Z :=
  let! r := memcpy_mcsafe p 1 in
  ret (if negb (r.1 =? 0) then uwrap 8 r.1 else le_val r.2).

Definition nova_set_entry_type (p : Z) (type : nova_entry_type) : M unit :=
  pstore 1 p (entry_type_val type).

Definition nova_set_next_page_flag (curr_p : Z) : M unit :=
  if LOG_BLOCK_TAIL <=? ENTRY_LOC curr_p then ret tt
  else
    let! p := gets (fun s => nova_get_block s curr_p) in
    nova_set_entry_type p NEXT_PAGE ;;;
    nova_flush_buffer p CACHELINE_SIZE true.

Definition page_tail (page : Z) : Z := page + LOG_BLOCK_TAIL.

Definition nova_set_next_page_address (curr_page next_page : Z) (fence : bool) : M unit :=
  pstore_field nova_inode_log_page curr_page "next_page" next_page ;;;
  nova_flush_buffer (page_tail curr_page) (sizeof nova_inode_page_tail) false ;;;
  when fence PERSISTENT_BARRIER.

Definition nova_set_page_num_entries (curr_page num : Z) (flush : bool) : M unit :=
  pstore_field nova_inode_log_page curr_page "num_entries" num ;;;
  when flush (nova_flush_buffer (page_tail curr_page) (sizeof nova_inode_page_tail) false).

Definition nova_set_page_invalid_entries (curr_page num : Z) (flush : bool) : M unit :=
  pstore_field nova_inode_log_page curr_page "invalid_entries" num ;;;
  when flush (nova_flush_buffer (page_tail curr_page) (sizeof nova_inode_page_tail) false).

Definition nova_inc_page_num_entries (curr : Z) : M unit :=
  let! page := gets (fun s => nova_get_block s (BLOCK_OFF curr)) in
  let! n := pload_field nova_inode_log_page page "num_entries" in
  pstore_field nova_inode_log_page page "num_entries" (u32 (n + 1)) ;;;
  nova_flush_buffer (page_tail page) (sizeof nova_inode_page_tail) false.

(** The message printed when the count exceeds the entries is not modelled. *)
Definition nova_inc_page_invalid_entries (curr : Z) : M unit :=
  let! page := gets (fun s => nova_get_block s (BLOCK_OFF curr)) in
  let! n := pload_field nova_inode_log_page page "invalid_entries" in
  pstore_field nova_inode_log_page page "invalid_entries" (u32 (n + 1)) ;;;
  nova_flush_buffer (page_tail page) (sizeof nova_inode_page_tail) false.

Definition nova_set_alter_page_address (curr alter_curr : Z) : M unit :=
  if metadata_csum =? 0 then ret tt
  else
    let! curr_page := gets (fun s => nova_get_block s (BLOCK_OFF curr)) in
    let! alter_page := gets (fun s => nova_get_block s (BLOCK_OFF alter_curr)) in
    pstore_field nova_inode_log_page curr_page "alter_page" alter_curr ;;;
    nova_flush_buffer (page_tail curr_page) (sizeof nova_inode_page_tail) false ;;;
    pstore_field nova_inode_log_page alter_page "alter_page" curr ;;;
    nova_flush_buffer (page_tail alter_page) (sizeof nova_inode_page_tail) false.

Definition goto_next_page (curr_p : Z) : M bool :=
  if LOG_BLOCK_TAIL <? ENTRY_LOC curr_p + 32 then ret true
  else
    let! addr := gets (fun s => nova_get_block s curr_p) in
    let! r := memcpy_mcsafe addr 1 in
    if r.1 <? 0 then ret true
    else if negb (r.1 =? 0) then raise FUninit
    else ret (le_val r.2 =? entry_type_val NEXT_PAGE).

(** ** Building chains (log.c) *)
Fixpoint alter_pages_walk (fuel : nat) (curr alter_curr : Z) : M unit :=
  if (curr =? 0) || (alter_curr =? 0) then ret tt
  else
    match fuel with
    | O => raise FFuel
    | S fuel =>
        nova_set_alter_page_address curr alter_curr ;;;
        let! curr := next_log_page curr in
        let! alter_curr := next_log_page alter_curr in
        alter_pages_walk fuel curr alter_curr
    end.

Definition nova_update_alter_pages (curr alter_curr : Z) : M Z :=
  if (curr =? 0) || (alter_curr =? 0) || (metadata_csum =? 0) then ret 0
  else
    let! fuel := gets chain_fuel in
    alter_pages_walk fuel curr alter_curr ;;; ret 0.

(** The loop of [nova_coalesce_log_pages] over all pages but the last: [page]
    is [curr_page], the result its value at the end. *)
Fixpoint coalesce_pages (n : nat) (page next_blocknr : Z) : M Z :=
  match n with
  | O => ret page
  | S n =>
      let next_page := nova_get_block_off next_blocknr NOVA_BLOCK_TYPE_4K in
      nova_memunlock_block page ;;;
      nova_set_page_num_entries page 0 false ;;;
      nova_set_page_invalid_entries page 0 false ;;;
      nova_set_next_page_address page next_page false ;;;
      nova_memlock_block page ;;;
      coalesce_pages n (u64 (page + PAGE_SIZE)) (u64 (next_blocknr + 1))
  end.

Definition nova_coalesce_log_pages (prev_blocknr first_blocknr num_pages : Z) : M Z :=
  (if negb (prev_blocknr =? 0) then
     let! page := gets (fun s =>
       nova_get_block s (nova_get_block_off prev_blocknr NOVA_BLOCK_TYPE_4K)) in
     let next_page := nova_get_block_off first_blocknr NOVA_BLOCK_TYPE_4K in
     nova_memunlock_block page ;;;
     nova_set_next_page_address page next_page false ;;;
     nova_memlock_block page
   else ret tt) ;;;
  let! page := gets (fun s =>
    nova_get_block s (nova_get_block_off first_blocknr NOVA_BLOCK_TYPE_4K)) in
  let! page := coalesce_pages (Z.to_nat (u64 (num_pages - 1))) page (u64 (first_blocknr + 1)) in
  nova_memunlock_block page ;;;
  nova_set_page_num_entries page 0 false ;;;
  nova_set_page_invalid_entries page 0 false ;;;
  nova_set_next_page_address page 0 true ;;;
  nova_memlock_block page ;;;
  ret 0.

(** [while (num_pages)]: every round allocates at least one page, so [fuel] is
    the number of pages still wanted. *)
Fixpoint allocate_pages_loop (fuel : nat) (i_blk_type num_pages prev_blocknr ret_pages cpuid : Z)
    (from_tail : nova_alloc_direction) : M Z :=
  if num_pages =? 0 then ret ret_pages
  else
    match fuel with
    | O => raise FFuel
    | S fuel =>
        let! r := nova_new_log_blocks i_blk_type 0 (u32 num_pages) false cpuid from_tail in
        let '(allocated, new_inode_blocknr) := r in
        if allocated <=? 0 then ret ret_pages
        else
          let! _ := nova_coalesce_log_pages prev_blocknr new_inode_blocknr allocated in
          allocate_pages_loop fuel i_blk_type (u64 (num_pages - allocated))
            (u64 (new_inode_blocknr + allocated - 1)) (s32 (ret_pages + allocated)) cpuid from_tail
    end.

(** Returns the number of pages (or an error) and [*new_block], which keeps its
    value [new_block0] on failure. *)
Definition nova_allocate_inode_log_pages (i_blk_type num_pages new_block0 cpuid : Z)
    (from_tail : nova_alloc_direction) : M (Z * Z) :=
  let! r := nova_new_log_blocks i_blk_type 0 (u32 num_pages) false cpuid from_tail in
  let '(allocated, first_blocknr) := r in
  if allocated <=? 0 then nova_err ;;; ret (allocated, new_block0)
  else
    let! _ := nova_coalesce_log_pages 0 first_blocknr allocated in
    let! ret_pages := allocate_pages_loop (Z.to_nat num_pages) i_blk_type
      (u64 (num_pages - allocated)) (u64 (first_blocknr + allocated - 1)) allocated cpuid from_tail in
    ret (ret_pages, nova_get_block_off first_blocknr NOVA_BLOCK_TYPE_4K).

(** Returns the result, the header and its [log_pages]. *)
Definition nova_initialize_inode_log (pi : Z) (sih : inode_header) (log_pages log_id : Z)
    : M (Z * inode_header * Z) :=
  let! r := nova_allocate_inode_log_pages (i_blk_type sih) 1 0 ANY_CPU
    (if log_id =? MAIN_LOG then ALLOC_FROM_HEAD else ALLOC_FROM_TAIL) in
  let '(allocated, new_block) := r in
  if negb (allocated =? 1) then nova_err ;;; ret (- ENOSPC, sih, log_pages)
  else
    nova_memunlock_inode pi ;;;
    let! r :=
      if log_id =? MAIN_LOG then
        pstore_field nova_inode pi "log_tail" new_block ;;;
        nova_flush_buffer (field_addr nova_inode pi "log_tail") CACHELINE_SIZE false ;;;
        pstore_field nova_inode pi "log_head" new_block ;;;
        nova_flush_buffer (field_addr nova_inode pi "log_head") CACHELINE_SIZE true ;;;
        ret (mkSih (sih_ino sih) (pi_addr sih) (alter_pi_addr sih) (i_blk_type sih) new_block
          new_block (sih_alter_log_head sih) (sih_alter_log_tail sih), 1)
      else
        pstore_field nova_inode pi "alter_log_tail" new_block ;;;
        nova_flush_buffer (field_addr nova_inode pi "alter_log_tail") CACHELINE_SIZE false ;;;
        pstore_field nova_inode pi "alter_log_head" new_block ;;;
        nova_flush_buffer (field_addr nova_inode pi "alter_log_head") CACHELINE_SIZE true ;;;
        ret (mkSih (sih_ino sih) (pi_addr sih) (alter_pi_addr sih) (i_blk_type sih)
          (sih_log_head sih) (sih_log_tail sih) new_block new_block, u64 (log_pages + 1)) in
    nova_memlock_inode pi ;;;
    ret (0, r.1, r.2).

(** Returns [curr_p] as the C code does, [curr_p] itself unless the log was
    empty. *)
Definition nova_append_one_log_page (i_blk_type curr_p : Z) : M Z :=
  let! r := nova_allocate_inode_log_pages i_blk_type 1 0 ANY_CPU ALLOC_FROM_HEAD in
  let '(allocated, new_block) := r in
  if negb (allocated =? 1) then nova_err ;;; ret 0
  else if curr_p =? 0 then ret new_block
  else
    let! page := gets (fun s => nova_get_block s (BLOCK_OFF curr_p)) in
    nova_memunlock_block page ;;;
    nova_set_next_page_address page new_block true ;;;
    nova_memlock_block page ;;;
    ret curr_p.

(** ** Releasing a log *)
Fixpoint free_contiguous_loop (fuel : nat) (btype curr_block start_blocknr num_free freed : Z)
    : M (Z * Z * Z) :=
  if curr_block =? 0 then ret (start_blocknr, num_free, freed)
  else if negb (ENTRY_LOC curr_block =? 0) then ret (start_blocknr, num_free, freed)
  else
    match fuel with
    | O => raise FFuel
    | S fuel =>
        let blocknr := nova_get_blocknr curr_block btype in
        let! curr_block := next_log_page curr_block in
        if start_blocknr =? 0 then free_contiguous_loop fuel btype curr_block blocknr 1 freed
        else if blocknr =? u64 (start_blocknr + num_free) then
          free_contiguous_loop fuel btype curr_block start_blocknr (s32 (num_free + 1)) freed
        else
          let! _ := nova_free_log_blocks btype start_blocknr num_free in
          free_contiguous_loop fuel btype curr_block blocknr 1 (s32 (freed + num_free))
    end.

Definition nova_free_contiguous_log_blocks (btype head : Z) : M Z :=
  let! fuel := gets chain_fuel in
  let! r := free_contiguous_loop fuel btype head 0 0 0 in
  let '(start_blocknr, num_free, freed) := r in
  if negb (start_blocknr =? 0) then
    let! _ := nova_free_log_blocks btype start_blocknr num_free in
    ret (s32 (freed + num_free))
  else ret freed.

(** The part of [nova_free_inode_log] that clears the inode and its replica. *)
Definition clear_log (pi : Z) (sih : inode_header) : M unit :=
  nova_memunlock_inode pi ;;;
  pstore_field nova_inode pi "log_tail" 0 ;;;
  pstore_field nova_inode pi "log_head" 0 ;;;
  pstore_field nova_inode pi "alter_log_tail" 0 ;;;
  pstore_field nova_inode pi "alter_log_head" 0 ;;;
  let! _ := nova_update_inode_checksum pi in
  (if negb (metadata_csum =? 0) then
     let! alter_pi := gets (fun s => nova_get_block s (alter_pi_addr sih)) in
     if negb (alter_pi =? 0) then
       let! l := pload_bytes (Z.to_nat (sizeof nova_inode)) pi in
       let! _ := memcpy_to_pmem_nocache alter_pi l in ret tt
     else ret tt
   else ret tt) ;;;
  nova_memlock_inode pi.

Definition nova_free_inode_log (pi : Z) (sih : inode_header) : M Z :=
  if (sih_log_head sih =? 0) || (sih_log_tail sih =? 0) then ret 0
  else
    (if negb (pi =? 0) then clear_log pi sih else ret tt) ;;;
    let! _ := nova_free_contiguous_log_blocks (i_blk_type sih) (sih_log_head sih) in
    (if negb (metadata_csum =? 0) then
       let! _ := nova_free_contiguous_log_blocks (i_blk_type sih) (sih_alter_log_head sih) in ret tt
     else ret tt) ;;;
    ret 0.
End log_page.
