(* ===== verification/LogPageSpec.v ===== *)
(** Correctness of log-page chains.

    Pages are named by their block number; [log_link] is the address of the
    [next_page] word.  Allocation returns a chain of pages that were free, each
    linked to the next and the last one ending the chain; releasing a chain
    gives exactly its pages back. *)

From stdpp Require Import strings.
From S2P Require Import Prelude CInt Crc32c NovaEnv RangeNode Pmem NovaState NovaMonad NovaLib.
From S2P Require Import Balloc BallocSpec BallocAlloc NovaLayout PmemOps LogPage.

Local Open Scope nova_scope.

Definition log_link (s : nova) (p : Z) : Z := virt_addr (sbc s) + p + 4088.
Definition page_off (b : Z) : Z := b * 4096.

(** The address [x] lies in page [b]. *)
Definition in_page (s : nova) (b x : Z) : Prop :=
  virt_addr (sbc s) + page_off b <= x < virt_addr (sbc s) + page_off b + 4096.

(** A chain of log pages, by block number. *)
Definition log_chain (s : nova) (m : mem) (bs : list Z) : Prop :=
  linked (log_link s) m (page_off <$> bs).

Record log_ctx `{NovaEnv} (s : nova) : Prop := {
  lc_alloc : alloc_wf s;
  lc_dev : device_ok s;
  lc_bs : s_blocksize (sbc s) = 4096;
  lc_cpu : 0 <= running_cpu s;
  lc_nopanic : test_opt s NOVA_MOUNT_ERRORS_PANIC = false
}.

(** Page [b] lies inside the device. *)
Definition page_ok (s : nova) (b : Z) : Prop := 0 < b /\ page_off b + 4096 <= initsize (sbc s).

Section spec.
Context `{NovaEnv, RbLibOk}.

Lemma page_addr s b :
  device_ok s -> page_ok s b ->
  nova_get_block_off b NOVA_BLOCK_TYPE_4K = page_off b /\
  nova_get_block s (page_off b) = virt_addr (sbc s) + page_off b.
Proof.
  intros (Hv & Hsz & _) [Hb Hp]. unfold page_off in *. split.
  - unfold nova_get_block_off. rewrite Z.shiftl_mul_pow2 by done. change (2 ^ PAGE_SHIFT) with 4096.
    apply uwrap_small. lia.
  - unfold nova_get_block. by rewrite (proj2 (Z.eqb_neq _ 0)) by lia.
Qed.

(** ** One page *)

(** Setting the link of the page at [page]. *)
Lemma wp_set_next m s0 s page next fence (Q : unit -> nova -> Prop) :
  mem_upd m s0 s -> writable s = true -> virt_addr (sbc s0) <= page ->
  page + 4096 <= virt_addr (sbc s0) + initsize (sbc s0) ->
  (forall s', mem_upd (store 8 m (page + 4088) next) s0 s' -> writable s' = true -> Q tt s') ->
  wp (nova_set_next_page_address page next fence) Q s.
Proof.
  intros U W Hlo Hhi HQ. unfold nova_set_next_page_address, pstore_field.
  change (sizeof_field nova_inode_log_page "next_page") with 8%nat.
  assert (field_addr nova_inode_log_page page "next_page" = page + 4088) as -> by done.
  apply wp_bind. eapply wp_pstore; [exact U|done|apply in_pmem_spec; cbn; lia|]. intros s1 U1 W1.
  apply wp_bind. eapply wp_flush; [exact U1|done|done|]. intros s2 U2 W2. rewrite W1 in W2.
  destruct fence; cbn [when].
  - eapply wp_barrier; [exact U2|]. intros s3 U3 W3. apply HQ; [done|congruence].
  - apply wp_ret. by apply HQ.
Qed.

(** The steps that initialise one page of a chain, before [k]. *)
Lemma wp_init_page {B} m s0 s page next fence (k : M B) (Q : B -> nova -> Prop) :
  mem_upd m s0 s -> device_ok s0 -> s_blocksize (sbc s0) = 4096 -> virt_addr (sbc s0) <= page ->
  page + 4096 <= virt_addr (sbc s0) + initsize (sbc s0) -> 0 <= next < 2 ^ 64 ->
  (forall m' s', mem_upd m' s0 s' -> load 8 m' (page + 4088) = next ->
     (forall x, ~ (page <= x < page + 4096) -> mget m' x = mget m x) -> wp k Q s') ->
  wp (nova_memunlock_block page ;;;
      nova_set_page_num_entries page 0 false ;;;
      nova_set_page_invalid_entries page 0 false ;;;
      nova_set_next_page_address page next fence ;;;
      nova_memlock_block page ;;; k) Q s.
Proof.
  intros U (Hv & Hsz & _) Hbs Hlo Hhi Hnx HQ. pose proof (mem_upd_sbc _ _ _ U) as Es.
  apply wp_bind. unfold nova_memunlock_block. apply wp_bind, wp_gets. rewrite Es, Hbs.
  eapply wp_memunlock; [exact U|lia..|]. intros s1 U1 W1.
  apply wp_bind. unfold nova_set_page_num_entries, pstore_field.
  change (sizeof_field nova_inode_log_page "num_entries") with 4%nat.
  assert (field_addr nova_inode_log_page page "num_entries" = page + 4068) as -> by done.
  apply wp_bind. eapply wp_pstore; [exact U1|done|apply in_pmem_spec; cbn; lia|]. intros s2 U2 W2.
  cbn [when]. apply wp_ret.
  apply wp_bind. unfold nova_set_page_invalid_entries, pstore_field.
  change (sizeof_field nova_inode_log_page "invalid_entries") with 4%nat.
  assert (field_addr nova_inode_log_page page "invalid_entries" = page + 4064) as -> by done.
  apply wp_bind. eapply wp_pstore; [exact U2|done|apply in_pmem_spec; cbn; lia|]. intros s3 U3 W3.
  cbn [when]. apply wp_ret.
  apply wp_bind. eapply wp_set_next; [exact U3|done|done|done|]. intros s4 U4 W4.
  apply wp_bind. unfold nova_memlock_block. apply wp_bind, wp_gets.
  eapply wp_memlock; [exact U4|]. intros s5 U5. eapply HQ; [exact U5|..].
  - apply load_store_same. by change (8 * Z.of_nat 8) with 64.
  - intros x Hx. rewrite !mget_store_out; [done|cbn; lia..].
Qed.

(** ** Coalescing *)

(** The pages from [c] on, [n] of them. *)
Definition run_of (c : Z) (n : nat) : list Z := seqZ c (Z.of_nat n).

Lemma run_of_S c n : run_of c (S n) = c :: run_of (c + 1) n.
Proof. unfold run_of. rewrite seqZ_cons by lia. f_equal. f_equal; lia. Qed.

Lemma run_of_snoc c n : run_of c (S n) = run_of c n ++ [c + Z.of_nat n].
Proof. unfold run_of. by rewrite seqZ_S. Qed.

Lemma elem_of_run c n b : b ∈ run_of c n <-> c <= b < c + Z.of_nat n.
Proof. apply elem_of_seqZ. Qed.

Lemma length_run_of c n : length (run_of c n) = n.
Proof. unfold run_of. rewrite length_seqZ. lia. Qed.

Lemma link_in_page s b : in_page s b (log_link s (page_off b)).
Proof. unfold in_page, log_link. lia. Qed.

(** Memories that agree outside the pages of [bs]. *)
Definition same_outside (s : nova) (bs : list Z) (m m' : mem) : Prop :=
  forall x, (forall b, b ∈ bs -> ~ in_page s b x) -> mget m' x = mget m x.

Lemma in_page_unique s b c x : in_page s b x -> in_page s c x -> b = c.
Proof. unfold in_page, page_off. lia. Qed.

Lemma same_outside_link s bs m m' b :
  same_outside s bs m m' -> b ∉ bs ->
  load 8 m' (log_link s (page_off b)) = load 8 m (log_link s (page_off b)).
Proof.
  intros Ho Hb. apply load_ext. intros x Hx. apply Ho. intros c Hc Hin.
  assert (in_page s b x) as Hb' by (unfold in_page, log_link, page_off in *; cbn in Hx; lia).
  by rewrite (in_page_unique _ _ _ _ Hb' Hin) in Hb.
Qed.

Lemma wp_coalesce_pages n : forall m s0 s c (Q : Z -> nova -> Prop),
  mem_upd m s0 s -> device_ok s0 -> s_blocksize (sbc s0) = 4096 -> 0 < c ->
  page_off (c + Z.of_nat n) + 4096 <= initsize (sbc s0) ->
  (forall m' s', mem_upd m' s0 s' ->
     linked_to (log_link s0) m' (page_off <$> run_of c n) (page_off (c + Z.of_nat n)) ->
     same_outside s0 (run_of c n) m m' -> Q (virt_addr (sbc s0) + page_off (c + Z.of_nat n)) s') ->
  wp (coalesce_pages n (virt_addr (sbc s0) + page_off c) (c + 1)) Q s.
Proof.
  induction n as [|n IH]; intros m s0 s c Q U D Hbs Hc Hend HQ.
  - cbn [coalesce_pages]. apply wp_ret. specialize (HQ m s U). rewrite Z.add_0_r in HQ.
    by apply HQ.
  - pose proof D as (Hv & Hsz & _). cbn [coalesce_pages].
    assert (page_ok s0 (c + 1)) as P1 by (unfold page_ok, page_off in *; lia).
    destruct (page_addr s0 (c + 1) D P1) as [-> _].
    eapply wp_init_page; [exact U|done|done|unfold page_off in *; lia..|]. intros m1 s1 U1 E1 F1.
    assert (u64 (virt_addr (sbc s0) + page_off c + PAGE_SIZE) = virt_addr (sbc s0) + page_off (c + 1)) as ->
      by (unfold page_off, PAGE_SIZE in *; rewrite uwrap_small; lia).
    assert (u64 (c + 1 + 1) = c + 1 + 1) as -> by (unfold page_off in *; rewrite uwrap_small; lia).
    eapply IH; [exact U1|done|done|lia|unfold page_off in *; lia|]. intros m2 s2 U2 L2 F2.
    replace (c + Z.of_nat (S n)) with (c + 1 + Z.of_nat n) in * by lia.
    eapply HQ; [exact U2| |].
    + rewrite run_of_S, fmap_cons. split.
      * rewrite (same_outside_link _ _ _ _ c F2) by (rewrite elem_of_run; lia).
        unfold log_link. rewrite E1. destruct n as [|n]; [|by rewrite run_of_S].
        change (run_of (c + 1) 0) with (@nil Z). cbn [fmap list_fmap head default].
        unfold page_off. lia.
      * done.
    + intros x Hx. rewrite F2, F1; [done| |].
      * specialize (Hx c). rewrite elem_of_run in Hx. unfold in_page in Hx.
        intros Hp. apply Hx; [lia|exact Hp].
      * intros b Hb. apply Hx. rewrite elem_of_run in *. lia.
Qed.

(** All pages of an allocation: linked in order, the last one ending the
    chain, and the page before them, if any, linked to the first. *)
Lemma wp_coalesce m s0 s prev first n (Q : Z -> nova -> Prop) :
  mem_upd m s0 s -> device_ok s0 -> s_blocksize (sbc s0) = 4096 -> 0 < first ->
  page_off (first + Z.of_nat n) + 4096 <= initsize (sbc s0) -> (prev <> 0 -> page_ok s0 prev) ->
  (prev <> 0 -> prev ∉ run_of first (S n)) ->
  (forall m' s', mem_upd m' s0 s' -> log_chain s0 m' (run_of first (S n)) ->
     (prev <> 0 -> load 8 m' (log_link s0 (page_off prev)) = page_off first) ->
     (forall x, (forall b, b ∈ run_of first (S n) -> ~ in_page s0 b x) ->
        ~ (prev <> 0 /\ log_link s0 (page_off prev) <= x < log_link s0 (page_off prev) + 8) ->
        mget m' x = mget m x) -> Q 0 s') ->
  wp (nova_coalesce_log_pages prev first (Z.of_nat (S n))) Q s.
Proof.
  intros U D Hbs Hf Hend Hprev Hnin HQ. pose proof D as (Hv & Hsz & _).
  assert (page_ok s0 first) as Pf by (unfold page_ok, page_off in *; lia).
  destruct (page_addr s0 first D Pf) as [Eoff Eblk]. unfold nova_coalesce_log_pages. rewrite Eoff.
  apply wp_bind.
  assert (forall (k : unit -> nova -> Prop), (forall m1 s1, mem_upd m1 s0 s1 ->
      (prev <> 0 -> load 8 m1 (log_link s0 (page_off prev)) = page_off first) ->
      (forall x, ~ (prev <> 0 /\ log_link s0 (page_off prev) <= x < log_link s0 (page_off prev) + 8) ->
        mget m1 x = mget m x) -> k tt s1) ->
    wp (if negb (prev =? 0) then
          let! page := gets (fun s => nova_get_block s (nova_get_block_off prev NOVA_BLOCK_TYPE_4K)) in
          nova_memunlock_block page ;;; nova_set_next_page_address page (page_off first) false ;;;
          nova_memlock_block page
        else ret tt) k s) as Hlink.
  { intros k Hk. destruct (Z.eqb_spec prev 0) as [->|Hne]; cbn [negb]; [by apply wp_ret, (Hk m)|].
    destruct (page_addr s0 prev D (Hprev Hne)) as [-> Ep]. destruct (Hprev Hne) as [Hp0 Hp1].
    apply wp_bind, wp_gets. rewrite (mem_upd_block _ _ _ _ U), Ep.
    pose proof (mem_upd_sbc _ _ _ U) as Es.
    apply wp_bind. unfold nova_memunlock_block. apply wp_bind, wp_gets. rewrite Es, Hbs.
    eapply wp_memunlock; [exact U|unfold page_off in *; lia..|]. intros s1 U1 W1.
    apply wp_bind. eapply wp_set_next; [exact U1|done|unfold page_off in *; lia..|]. intros s2 U2 W2.
    unfold nova_memlock_block. apply wp_bind, wp_gets. eapply wp_memlock; [exact U2|].
    intros s3 U3. eapply Hk; [exact U3|..]; fold (log_link s0 (page_off prev)).
    - intros _. apply load_store_same. unfold page_off in *. change (8 * Z.of_nat 8) with 64. lia.
    - intros x Hx. rewrite mget_store_out; [done|]. cbn. lia. }
  apply Hlink. clear Hlink. intros m1 s1 U1 E1 F1. apply wp_bind, wp_gets.
  rewrite (mem_upd_block _ _ _ _ U1), Eblk.
  assert (Z.to_nat (u64 (Z.of_nat (S n) - 1)) = n) as ->
    by (unfold page_off in *; rewrite uwrap_small; lia).
  assert (u64 (first + 1) = first + 1) as -> by (unfold page_off in *; rewrite uwrap_small; lia).
  apply wp_bind. eapply wp_coalesce_pages; [exact U1|done..|]. intros m2 s2 U2 L2 F2.
  eapply wp_init_page; [exact U2|done|done|unfold page_off in *; lia..|]. intros m3 s3 U3 E3 F3.
  apply wp_ret. set (c := first + Z.of_nat n) in *.
  assert (same_outside s0 (run_of first (S n)) m1 m3) as F13.
  { intros x Hx. rewrite F3, F2; [done| |].
    - intros b Hb. apply Hx. rewrite run_of_snoc. set_solver.
    - specialize (Hx c). rewrite run_of_snoc in Hx. unfold in_page in Hx. apply Hx. set_solver. }
  eapply HQ; [exact U3|..].
  - unfold log_chain. rewrite run_of_snoc, fmap_app. apply linked_to_app. split; [|by split].
    apply (linked_to_ext _ m2); [done|]. intros p (b & -> & Hb)%list_elem_of_fmap.
    apply (same_outside_link s0 [c]).
    + intros x Hx. apply F3. specialize (Hx c). unfold in_page in Hx. apply Hx. set_solver.
    + rewrite elem_of_run in Hb. unfold c. set_unfold. lia.
  - intros Hne. rewrite (same_outside_link s0 _ _ _ _ F13) by auto. auto.
  - intros x Hx Hp. by rewrite F13, F1.
Qed.

(** ** Allocation *)

(** [s'] is [s] after the pages [bs] were taken, in order, and made into a
    chain. *)
Record log_taken (s s' : nova) (bs : list Z) : Prop := {
  lt_ctx : log_ctx s';
  lt_sbc : sbc s' = sbc s;
  lt_nodup : NoDup bs;
  lt_from : forall b, b ∈ bs -> free_block s b = true;
  lt_free : forall b, free_block s' b = free_block s b && negb (bool_decide (b ∈ bs));
  lt_ok : forall b, b ∈ bs -> page_ok s b;
  lt_mem : same_outside s bs (nvmm s) (nvmm s');
  lt_chain : log_chain s (nvmm s') bs;
  lt_maps : inode_maps s' = inode_maps s;
  lt_plb : per_list_blocks s' = per_list_blocks s;
  lt_keep : balloc_keep s s';
  lt_nodes : total_nodes s' <= total_nodes s
}.

Lemma log_taken_nil s : log_ctx s -> log_taken s s [].
Proof.
  intros C. split; try done; try apply NoDup_nil_2; try set_solver.
  intros b. by rewrite bool_decide_false, andb_true_r by set_solver.
Qed.

Lemma alloc_page_ok s s' blk k b :
  device_ok s -> alloc_effect s s' blk k -> blk <= b < blk + k -> page_ok s b.
Proof.
  intros D Eff Hb. destruct (ae_frame _ _ _ _ Eff) as (Es & _).
  pose proof (ae_blk _ _ _ _ Eff). destruct (ae_keep _ _ _ _ Eff) as (_ & _ & Hh).
  destruct (device_ok_keep s s' D Es Hh) as (_ & _ & Hd).
  destruct (ae_home _ _ _ _ Eff) as (cpu & fl & [_ At] & H1' & H2'). specialize (Hd _ _ At).
  rewrite Es in Hd. unfold page_ok, page_off, PAGE_SIZE in *. lia.
Qed.

Lemma log_ctx_upd s s' :
  log_ctx s -> alloc_wf s' -> sbc s' = sbc s -> balloc_keep s s' -> log_ctx s'.
Proof.
  intros [] W Es (Hr & _ & Hh). split; rewrite ?Es, ?Hr; auto.
  - by apply (device_ok_keep s).
  - unfold test_opt in *. by rewrite Es.
Qed.

Lemma mem_upd_balloc m s0 s : mem_upd m s0 s -> balloc_keep s0 s.
Proof. intros (w & t & ->). repeat split. cbn. lia. Qed.

(** One more run of pages taken and appended to the chain. *)
Lemma log_taken_step s s1 bs s2 blk n m s3 :
  log_taken s s1 bs -> alloc_effect s1 s2 blk (Z.of_nat (S n)) -> total_nodes s2 <= total_nodes s1 ->
  mem_upd m s2 s3 ->
  log_chain s2 m (run_of blk (S n)) ->
  (forall b, last bs = Some b -> load 8 m (log_link s2 (page_off b)) = page_off blk) ->
  (forall x, (forall b, b ∈ run_of blk (S n) -> ~ in_page s2 b x) ->
     ~ (exists b, last bs = Some b /\ log_link s2 (page_off b) <= x < log_link s2 (page_off b) + 8) ->
     mget m x = mget (nvmm s1) x) ->
  log_taken s s3 (bs ++ run_of blk (S n)).
Proof.
  intros T Eff Hnum U Ch Hlast Fr. destruct (ae_frame _ _ _ _ Eff) as (Es & En & _ & Em & _ & _ & Epl).
  pose proof (lt_sbc _ _ _ T) as Es1. pose proof (lt_ctx _ _ _ T) as C1.
  assert (forall b, in_page s2 b = in_page s b) as Eip by (intros; unfold in_page; by rewrite Es, Es1).
  assert (log_link s2 = log_link s) as Ell by (unfold log_link; by rewrite Es, Es1).
  unfold log_chain in Ch. rewrite Ell in *.
  assert (forall b, b ∈ run_of blk (S n) <-> in_blocks blk (Z.of_nat (S n)) b = true) as Hrun.
  { intros b. rewrite elem_of_run. unfold in_blocks. rewrite andb_true_iff, Z.leb_le, Z.ltb_lt. done. }
  assert (forall b, b ∈ bs -> b ∉ run_of blk (S n)) as Hdis.
  { intros b Hb Hr. apply Hrun in Hr. apply (ae_from _ _ _ _ Eff) in Hr.
    rewrite (lt_free _ _ _ T), bool_decide_true in Hr by done. by rewrite andb_false_r in Hr. }
  assert (balloc_keep s s3) as K.
  { apply (balloc_keep_trans _ s1); [apply T|]. apply (balloc_keep_trans _ s2); [apply Eff|].
    by eapply mem_upd_balloc. }
  assert (alloc_wf s3) as W3.
  { apply (alloc_wf_same s2); [apply Eff|by rewrite (mem_upd_sbc _ _ _ U)|
      by rewrite (mem_upd_lists _ _ _ U)|by rewrite (mem_upd_plb _ _ _ U)|].
    by rewrite (mem_upd_clock _ _ _ U). }
  assert (sbc s3 = sbc s) as Es3 by (rewrite (mem_upd_sbc _ _ _ U); congruence).
  split; auto.
  - apply (log_ctx_upd s1); [done..|congruence|].
    apply (balloc_keep_trans _ s2); [apply Eff|]. by eapply mem_upd_balloc.
  - apply NoDup_app. split_and!; [apply T|done|apply NoDup_seqZ].
  - intros b [Hb|Hb]%elem_of_app; [by apply T|]. apply Hrun, (ae_from _ _ _ _ Eff) in Hb.
    rewrite (lt_free _ _ _ T) in Hb. by apply andb_true_iff in Hb as [? _].
  - intros b. unfold free_block. rewrite (mem_upd_lists _ _ _ U). fold (free_block s2 b).
    rewrite (ae_free _ _ _ _ Eff), (lt_free _ _ _ T), <- andb_assoc. f_equal.
    rewrite <- negb_orb. f_equal. apply eq_true_iff_eq.
    rewrite orb_true_iff, !bool_decide_eq_true, elem_of_app, Hrun. done.
  - intros b [Hb|Hb]%elem_of_app; [by apply T|].
    assert (page_ok s1 b) as Hp by (eapply alloc_page_ok; [apply C1|exact Eff|by apply elem_of_run in Hb]).
    unfold page_ok in *. by rewrite Es1 in Hp.
  - rewrite (mem_upd_nvmm _ _ _ U). intros x Hx. rewrite Fr, (lt_mem _ _ _ T); [done|..].
    + intros b Hb. apply Hx. set_solver.
    + intros b Hb. rewrite Eip. apply Hx. set_solver.
    + intros (b & Hb & Hin). apply (Hx b); [apply last_Some_elem_of in Hb; set_solver|].
      unfold in_page, log_link in *. lia.
  - unfold log_chain. rewrite (mem_upd_nvmm _ _ _ U), fmap_app.
    destruct (last bs) as [b|] eqn:El.
    + apply last_Some in El as [l ->]. rewrite fmap_app, <- app_assoc.
      assert (forall c, c ∈ l -> c <> b) as Hne.
      { pose proof (lt_nodup _ _ _ T) as ND. apply NoDup_app in ND as (_ & ND & _).
        intros c Hc ->. by apply (ND b Hc), list_elem_of_singleton. }
      pose proof (lt_chain _ _ _ T) as Ct. unfold log_chain in Ct. rewrite fmap_app in Ct.
      apply (linked_join _ (nvmm s1)); [exact Ct|by rewrite Hlast, run_of_S|done|].
      intros p (c & -> & Hc)%list_elem_of_fmap. apply load_ext. intros x Hx.
      assert (in_page s c x) as Hcx by (unfold in_page, log_link, page_off in *; cbn in Hx; lia).
      apply Fr.
      * intros d Hd. rewrite Eip. intros Hdx. rewrite (in_page_unique _ _ _ _ Hdx Hcx) in Hd.
        by apply (Hdis c); [set_solver|].
      * intros (d & [= <-] & Hin). apply (Hne c Hc). apply (in_page_unique s _ _ x Hcx).
        unfold in_page, log_link in *. lia.
    + apply last_None in El as ->. exact Ch.
  - rewrite (mem_upd_maps _ _ _ U), Em. apply T.
  - rewrite (mem_upd_plb _ _ _ U), Epl. apply T.
  - unfold total_nodes in *. rewrite (mem_upd_lists _ _ _ U). pose proof (lt_nodes _ _ _ T) as Hn.
    unfold total_nodes in Hn. lia.
Qed.

(** What a request for [num] more pages returns when none is left. *)
Definition no_page (s : nova) (num cpuid : Z) (dir : nova_alloc_direction) : Prop :=
  nova_new_log_blocks NOVA_BLOCK_TYPE_4K 0 num false cpuid dir s = Ok (- ENOSPC, 0) s.

Lemma last_run_of bs blk n : last (bs ++ run_of blk (S n)) = Some (blk + Z.of_nat n).
Proof. by rewrite run_of_snoc, app_assoc, last_snoc. Qed.

Lemma valid_cpu_taken s s' bs cpuid : log_taken s s' bs -> valid_cpu s cpuid -> valid_cpu s' cpuid.
Proof. intros T. destruct (lt_keep _ _ _ T) as [Hr _]. unfold valid_cpu. by rewrite Hr, (lt_sbc _ _ _ T). Qed.

(** One round of the allocation: nothing is left, or a run of pages is taken
    and appended to the chain. *)
Lemma log_pages_round s s1 bs num cpuid dir :
  log_taken s s1 bs -> valid_cpu s1 cpuid -> 0 < num < 2 ^ 31 ->
  no_page s1 num cpuid dir \/
  exists n blk s2 s3, Z.of_nat (S n) <= num /\
    nova_new_log_blocks NOVA_BLOCK_TYPE_4K 0 num false cpuid dir s1 = Ok (Z.of_nat (S n), blk) s2 /\
    nova_coalesce_log_pages (default 0 (last bs)) blk (Z.of_nat (S n)) s2 = Ok 0 s3 /\
    log_taken s s3 (bs ++ run_of blk (S n)) /\ 0 < blk /\ blk + Z.of_nat (S n) <= 2 ^ 52.
Proof.
  intros T V Hn. pose proof (lt_ctx _ _ _ T) as C1. unfold no_page, nova_new_log_blocks.
  destruct (new_blocks_core s1 num NOVA_BLOCK_TYPE_4K LOG cpuid dir) as
    (cpu & fl & _ & _ & [[E _]|(k & blk & s2 & Eff & [Hk _] & Hnum & E)]); [apply C1|done|lia| |by left|].
  { intros Ha. unfold IS_DATABLOCKS_2MB_ALIGNED in Ha.
    by rewrite bool_decide_false, andb_false_r in Ha by done. }
  right. change (nova_get_numblocks NOVA_BLOCK_TYPE_4K) with 1 in *.
  pose proof (ae_pos _ _ _ _ Eff) as Hp. pose proof (ae_blk _ _ _ _ Eff) as Hb.
  assert (exists n, k = Z.of_nat (S n)) as [n ->] by (exists (Z.to_nat (k - 1)); lia).
  destruct (ae_frame _ _ _ _ Eff) as (Es & En & _).
  assert (device_ok s2) as D2 by (eapply device_ok_keep; [apply C1|done|apply Eff]).
  assert (forall b, b ∈ run_of blk (S n) -> free_block s1 b = true) as Hfr.
  { intros b Hb'%elem_of_run. apply (ae_from _ _ _ _ Eff). unfold in_blocks. bool_lia. }
  assert (page_ok s2 (blk + Z.of_nat n)) as Pl.
  { pose proof (alloc_page_ok _ _ _ _ (blk + Z.of_nat n) (lc_dev _ C1) Eff ltac:(lia)) as Pl.
    unfold page_ok in *. by rewrite Es. }
  assert (wp (nova_coalesce_log_pages (default 0 (last bs)) blk (Z.of_nat (S n)))
    (fun r s3 => r = 0 /\ log_taken s s3 (bs ++ run_of blk (S n))) s2) as Wp.
  { assert (forall b, last bs = Some b -> page_ok s2 b /\ b ∉ run_of blk (S n) /\ b <> 0) as Hl.
    { intros b Hb'%last_Some_elem_of. pose proof (lt_ok _ _ _ T b Hb') as Pb. split_and!.
      - unfold page_ok in *. by rewrite Es, (lt_sbc _ _ _ T).
      - intros Hf%Hfr. rewrite (lt_free _ _ _ T), bool_decide_true in Hf by done.
        by rewrite andb_false_r in Hf.
      - destruct Pb. lia. }
    eapply wp_coalesce; [apply mem_upd_refl|done|by rewrite Es; apply C1|done|apply Pl|..].
    - intros Hne. destruct (last bs) as [b|] eqn:El; [|done]. by apply Hl.
    - intros Hne. destruct (last bs) as [b|] eqn:El; [|done]. by apply Hl.
    - intros m s3 U Ch Hpv Fr. split; [done|].
      eapply log_taken_step; [exact T|exact Eff|by apply Hnum|exact U|done|..].
      + intros b El. rewrite El in Hpv. apply Hpv. by apply Hl.
      + intros x Hx Hnl. rewrite <- En. apply Fr; [done|]. intros [Hne Hin]. apply Hnl.
        destruct (last bs) as [b|]; [|done]. by exists b. }
  apply wp_run in Wp as (r & s3 & Ec & -> & T3). exists n, blk, s2, s3. split_and!; auto; [lia|..].
  - rewrite E. cbn [when]. by rewrite Z.div_1_r.
  - destruct D2 as (Hv & Hsz & _), Pl as [_ Pl]. unfold page_off in *. lia.
Qed.

Lemma allocate_pages_loop_run s cpuid dir fuel : forall s1 bs num,
  log_taken s s1 bs -> valid_cpu s cpuid -> 0 <= num <= Z.of_nat fuel ->
  Z.of_nat (length bs) + num < 2 ^ 31 ->
  exists bs' s', allocate_pages_loop fuel NOVA_BLOCK_TYPE_4K num (default 0 (last bs))
      (Z.of_nat (length bs)) cpuid dir s1 = Ok (Z.of_nat (length (bs ++ bs'))) s' /\
    log_taken s s' (bs ++ bs') /\
    (Z.of_nat (length bs') = num \/
     Z.of_nat (length bs') < num /\ no_page s' (num - Z.of_nat (length bs')) cpuid dir).
Proof.
  induction fuel as [|fuel IH]; intros s1 bs num T V Hn Hlt; cbn [allocate_pages_loop].
  - assert (num = 0) as -> by lia. exists [], s1. rewrite app_nil_r. split_and!; auto.
  - destruct (Z.eqb_spec num 0) as [->|Hne]; [exists [], s1; rewrite app_nil_r; by split_and!; auto|].
    rewrite uwrap_small by lia.
    destruct (log_pages_round s s1 bs num cpuid dir T) as [E|(n & blk & s2 & s3 & Hle & E & Ec & T3 & Hb & Hb2)];
      [by eapply valid_cpu_taken|lia|..].
    + unfold no_page in E. exists [], s1. rewrite (bind_ok _ _ _ _ _ E), app_nil_r.
      split_and!; [done..|]. right. cbn. rewrite Z.sub_0_r. split; [lia|done].
    + rewrite (bind_ok _ _ _ _ _ E), (proj2 (Z.leb_gt _ _)), (bind_ok _ _ _ _ _ Ec) by lia.
      rewrite uwrap_small, uwrap_small, swrap_small by lia.
      destruct (IH s3 (bs ++ run_of blk (S n)) (num - Z.of_nat (S n)) T3 V) as (bs' & s' & Er & T' & Hs);
        [lia|rewrite length_app, length_run_of; lia|].
      exists (run_of blk (S n) ++ bs'), s'. rewrite app_assoc. split_and!; [|done|].
      * rewrite last_run_of, length_app, length_run_of in Er. cbn [default] in Er.
        replace (blk + Z.of_nat (S n) - 1) with (blk + Z.of_nat n) by lia.
        by replace (Z.of_nat (length bs) + Z.of_nat (S n)) with (Z.of_nat (length bs + S n)) by lia.
      * rewrite length_app, length_run_of.
        destruct Hs as [Hs|[Hs Hno]]; [left; lia|right; split; [lia|]].
        by replace (num - Z.of_nat (S n + length bs')) with (num - Z.of_nat (S n) - Z.of_nat (length bs')) by lia.
Qed.

Lemma nova_err_taken s s' bs : log_taken s s' bs ->
  exists s'', nova_err s' = Ok tt s'' /\ log_taken s s'' bs.
Proof.
  intros T. pose proof (lt_ctx _ _ _ T) as C. unfold nova_err, nova_error_mng, bind, gets.
  rewrite (lc_nopanic _ C). destruct (test_opt s' NOVA_MOUNT_ERRORS_RO); cbn [when]; [|by eexists].
  eexists. split; [done|]. destruct T. split; auto.
  - apply (log_ctx_upd s'); [done| |done|].
    + apply (alloc_wf_same s'); [apply C|done..|cbn; lia].
    + repeat split. cbn. lia.
Qed.

Lemma allocate_log_pages_run s num new_block0 cpuid dir :
  log_ctx s -> valid_cpu s cpuid -> 0 < num < 2 ^ 31 ->
  exists r new_block s' bs,
    nova_allocate_inode_log_pages NOVA_BLOCK_TYPE_4K num new_block0 cpuid dir s = Ok (r, new_block) s' /\
    log_taken s s' bs /\
    match bs with
    | [] => r = - ENOSPC /\ new_block = new_block0
    | b :: _ => r = Z.of_nat (length bs) /\ new_block = page_off b /\
        (r = num \/ r < num /\ no_page s' (num - r) cpuid dir)
    end.
Proof.
  intros C V Hn. unfold nova_allocate_inode_log_pages. rewrite uwrap_small by lia.
  pose proof (log_taken_nil s C) as T0.
  destruct (log_pages_round s s [] num cpuid dir T0 V Hn)
    as [E|(n & blk & s2 & s3 & Hle & E & Ec & T3 & Hb & Hb2)].
  - unfold no_page in E. rewrite (bind_ok _ _ _ _ _ E).
    destruct (nova_err_taken _ _ _ T0) as (s'' & Ee & T''). exists (- ENOSPC), new_block0, s'', [].
    change (- ENOSPC <=? 0) with true. cbv iota. rewrite (bind_ok _ _ _ _ _ Ee). by split_and!.
  - rewrite (bind_ok _ _ _ _ _ E), (proj2 (Z.leb_gt _ _)) by lia. cbn [last default] in Ec.
    rewrite (bind_ok _ _ _ _ _ Ec), uwrap_small, uwrap_small by lia. cbn [app] in T3.
    destruct (allocate_pages_loop_run s cpuid dir (Z.to_nat num) s3 (run_of blk (S n))
      (num - Z.of_nat (S n)) T3 V) as (bs' & s' & Er & T' & Hs);
      [lia|rewrite length_run_of; lia|].
    pose proof (last_run_of [] blk n) as El. cbn [app] in El. rewrite El, length_run_of in Er.
    cbn [default] in Er. replace (blk + Z.of_nat (S n) - 1) with (blk + Z.of_nat n) by lia.
    rewrite (bind_ok _ _ _ _ _ Er).
    assert (page_ok s blk) as Pb
      by (apply (lt_ok _ _ _ T3); rewrite elem_of_run; lia).
    destruct (page_addr s blk (lc_dev _ C) Pb) as [Eo _]. rewrite Eo.
    eexists _, _, s', (run_of blk (S n) ++ bs'). split_and!; [done|done|].
    rewrite length_app, length_run_of. destruct (run_of blk (S n)) as [|b l] eqn:Eb; [done|].
    rewrite run_of_S in Eb. injection Eb as <- <-. cbn [app].
    split_and!; [done..|].
    destruct Hs as [Hs|[Hs Hno]]; [left; lia|right; split; [lia|]].
    by replace (num - Z.of_nat (S n + length bs')) with (num - Z.of_nat (S n) - Z.of_nat (length bs')) by lia.
Qed.

(** A request for log pages always returns: it either takes
    nothing and reports ENOSPC, or it takes between one and [num] pages, none
    of which was in use, returns their number and the offset of the first, and
    has linked them into one chain that ends after the last; fewer than [num]
    pages are returned only when the free lists cannot grant more.  The rest of
    the device and the other components are untouched. *)
Theorem nova_allocate_inode_log_pages_correct s num new_block0 cpuid dir :
  log_ctx s -> valid_cpu s cpuid -> 0 < num < 2 ^ 31 ->
  exists r new_block s' bs,
    nova_allocate_inode_log_pages NOVA_BLOCK_TYPE_4K num new_block0 cpuid dir s = Ok (r, new_block) s' /\
    log_taken s s' bs /\
    match bs with
    | [] => r = - ENOSPC /\ new_block = new_block0
    | b :: _ => r = Z.of_nat (length bs) /\ new_block = page_off b /\
        (r = num \/ r < num /\ no_page s' (num - r) cpuid dir)
    end.
Proof. apply allocate_log_pages_run. Qed.
End spec.

(** ** The release of a log ([nova_free_contiguous_log_blocks])

    The walk follows the chain, gathers consecutive pages into runs and frees
    each run at once.  It ends on every chain without repeated pages, and gives
    exactly the pages of the chain back. *)

(** Block [b] belongs to one of the lists. *)
Definition homed (s : nova) (b : Z) : Prop :=
  exists i fl, free_lists s !! i = Some fl /\ block_start fl <= b <= block_end fl.

(** No list starts where another one ends: reserved blocks lie in between. *)
Definition lists_apart (s : nova) : Prop :=
  forall i j fi fj, free_lists s !! i = Some fi -> free_lists s !! j = Some fj ->
    block_end fi + 1 <> block_start fj.

(** A chain of allocated pages that can be read. *)
Record log_pages `{NovaEnv} (s : nova) (bs : list Z) : Prop := {
  lp_nodup : NoDup bs;
  lp_ok : forall b, b ∈ bs -> page_ok s b;
  lp_home : forall b, b ∈ bs -> homed s b;
  lp_taken : forall b, b ∈ bs -> free_block s b = false;
  lp_read : forall b, b ∈ bs -> memcpy_mcsafe_rc (log_link s (page_off b)) 8 = 0;
  lp_chain : log_chain s (nvmm s) bs
}.

Section release.
Context `{NovaEnv, RbLibOk}.

(** [s'] is [s] after the pages [bs] were given back. *)
Record log_freed (s s' : nova) (bs : list Z) : Prop := {
  lf_ctx : log_ctx s';
  lf_sbc : sbc s' = sbc s;
  lf_nvmm : nvmm s' = nvmm s;
  lf_free : forall b, free_block s' b = free_block s b || bool_decide (b ∈ bs);
  lf_maps : inode_maps s' = inode_maps s;
  lf_plb : per_list_blocks s' = per_list_blocks s;
  lf_keep : balloc_keep s s'
}.

Lemma log_freed_nil s : log_ctx s -> log_freed s s [].
Proof.
  intros C. split; try done. intros b. by rewrite bool_decide_false, orb_false_r by set_solver.
Qed.

(** Two states whose lists have the same bounds. *)
Definition same_home (s s' : nova) : Prop :=
  home_bounds <$> free_lists s' = home_bounds <$> free_lists s.

Lemma keep_home s s' : balloc_keep s s' -> same_home s s'.
Proof. by intros (_ & _ & E). Qed.

Lemma home_lookup s s' i fl :
  same_home s s' -> free_lists s !! i = Some fl ->
  exists fl', free_lists s' !! i = Some fl' /\ home_bounds fl' = home_bounds fl.
Proof.
  intros E Hi. unfold same_home in E. apply (f_equal (.!! i)) in E. rewrite !list_lookup_fmap, Hi in E.
  destruct (free_lists s' !! i) as [fl'|]; [|done]. exists fl'. split; [done|]. cbn in E. congruence.
Qed.

Lemma home_back s s' i fl' :
  same_home s s' -> free_lists s' !! i = Some fl' ->
  exists fl, free_lists s !! i = Some fl /\ home_bounds fl' = home_bounds fl.
Proof.
  intros E Hi. unfold same_home in E. apply (f_equal (.!! i)) in E. rewrite !list_lookup_fmap, Hi in E.
  destruct (free_lists s !! i) as [fl|]; [|done]. exists fl. split; [done|]. cbn in E. congruence.
Qed.

Lemma homed_home s s' b : same_home s s' -> homed s b -> homed s' b.
Proof.
  intros K (i & fl & Hi & Hb). destruct (home_lookup _ _ _ _ K Hi) as (fl' & Hi' & [= E1 E2]).
  exists i, fl'. rewrite E1, E2. done.
Qed.

Lemma lists_apart_home s s' : same_home s s' -> lists_apart s -> lists_apart s'.
Proof.
  intros K A i j fi fj Hi Hj. destruct (home_back _ _ _ _ K Hi) as (gi & Gi & [= _ ->]).
  destruct (home_back _ _ _ _ K Hj) as (gj & Gj & [= -> _]). eauto.
Qed.

(** Consecutive blocks lie in one list. *)
Lemma run_home s c n :
  alloc_wf s -> lists_apart s -> (forall b, b ∈ run_of c (S n) -> homed s b) ->
  exists i fl, free_lists s !! i = Some fl /\ block_start fl <= c /\ c + Z.of_nat n <= block_end fl.
Proof.
  intros W A. induction n as [|n IH]; intros Hh.
  - destruct (Hh c) as (i & fl & Hi & Hb); [rewrite elem_of_run; lia|].
    exists i, fl. split_and!; [done|lia..].
  - destruct IH as (i & fl & Hi & Hs & He).
    { intros b Hb. apply Hh. rewrite elem_of_run in *. lia. }
    destruct (Hh (c + Z.of_nat (S n))) as (j & fj & Hj & Hb); [rewrite elem_of_run; lia|].
    exists i, fl. split_and!; [done..|].
    destruct (decide (c + Z.of_nat (S n) <= block_end fl)) as [|Hgt]; [done|exfalso].
    specialize (A i j fl fj Hi Hj).
    assert (i = j) as -> by (eapply (home_unique s _ _ _ _ (c + Z.of_nat n) W Hi Hj); lia).
    rewrite Hi in Hj. injection Hj as <-. lia.
Qed.

(** Freeing one run. *)
Lemma free_run s s1 bs c n :
  log_freed s s1 bs -> lists_apart s -> (forall b, b ∈ run_of c (S n) -> homed s b) ->
  (forall b, b ∈ run_of c (S n) -> b ∉ bs /\ free_block s b = false) -> 0 < c ->
  (forall p, (alloc_clock s <= p)%positive -> kmem_cache_zalloc_ok p = true) ->
  exists s2, nova_free_log_blocks NOVA_BLOCK_TYPE_4K c (Z.of_nat (S n)) s1 = Ok 0 s2 /\
    log_freed s s2 (bs ++ run_of c (S n)).
Proof.
  intros F A Hh Ht Hc Hk. pose proof (lf_ctx _ _ _ F) as C1. pose proof (lf_keep _ _ _ F) as K.
  pose proof (lc_alloc _ C1) as W1.
  destruct (run_home s1 c n W1) as (i & fl & Hi & Hs & He);
    [eapply lists_apart_home; eauto using keep_home|intros b Hb; eapply homed_home; eauto using keep_home|].
  assert (list_at s1 (Z.of_nat i) fl) as At by (split; [lia|by rewrite Nat2Z.id]).
  pose proof (aw_home _ W1 _ _ Hi) as Hh1. pose proof (aw_plb _ W1).
  assert (forall b, b ∈ run_of c (S n) <-> in_blocks c (Z.of_nat (S n)) b = true) as Hrun.
  { intros b. rewrite elem_of_run. unfold in_blocks. rewrite andb_true_iff, Z.leb_le, Z.ltb_lt. done. }
  assert (free_request s1 c (Z.of_nat (S n)) NOVA_BLOCK_TYPE_4K (Z.of_nat i) fl) as R.
  { change (nova_get_numblocks NOVA_BLOCK_TYPE_4K) with 1.
    split; auto; try (change (nova_get_numblocks NOVA_BLOCK_TYPE_4K) with 1); try lia.
    - apply (Z.div_unique _ _ _ (c - per_list_blocks s1 * Z.of_nat i)); lia.
    - rewrite Z.mul_1_l. intros b Hb%Hrun. destruct (Ht b Hb) as [Hb1 Hb2].
      by rewrite (lf_free _ _ _ F), Hb2, bool_decide_false. }
  destruct (nova_free_blocks_run _ _ _ _ true _ _ W1 R) as (fl' & E & Fr).
  { apply Hk. apply K. }
  pose proof (freed_effect _ _ _ _ _ _ W1 At Fr) as Eff.
  unfold nova_free_log_blocks. rewrite (proj2 (Z.eqb_neq _ _)), (bind_ok _ _ _ _ _ E) by lia.
  eexists. split; [done|]. destruct (fe_frame _ _ _ _ Eff) as (Es & En & _ & Em & _ & _ & Ep).
  pose proof (balloc_keep_trans _ _ _ K (fe_keep _ _ _ _ Eff)) as K2. destruct F. split; try congruence.
  - apply (log_ctx_upd s1); [done|apply Eff|congruence|apply Eff].
  - intros b. rewrite (fe_free _ _ _ _ Eff), lf_free0, <- orb_assoc. f_equal. apply eq_true_iff_eq.
    change (nova_get_numblocks NOVA_BLOCK_TYPE_4K) with 1.
    replace (c + 1 * Z.of_nat (S n) - 1 - c + 1) with (Z.of_nat (S n)) by lia.
    rewrite orb_true_iff, !bool_decide_eq_true, elem_of_app, Hrun. done.
Qed.

(** ** The walk *)
Lemma off_split b r :
  0 <= r < 4096 -> ENTRY_LOC (page_off b + r) = r /\ BLOCK_OFF (page_off b + r) = page_off b.
Proof.
  intros Hr. unfold ENTRY_LOC, BLOCK_OFF, page_off, PAGE_OFFSET_MASK. change 4095 with (2 ^ 12 - 1).
  rewrite land_mask, land_lnot_mask by done. change (2 ^ 12) with 4096.
  rewrite Z.add_comm, Z.mod_add, Z.mod_small by lia. lia.
Qed.

Lemma page_off_entry b : ENTRY_LOC (page_off b) = 0.
Proof. rewrite <- (Z.add_0_r (page_off b)). by apply off_split. Qed.

Lemma page_off_block b : BLOCK_OFF (page_off b) = page_off b.
Proof. rewrite <- (Z.add_0_r (page_off b)) at 1. by apply off_split. Qed.

Lemma page_off_nr b bt : nova_get_blocknr (page_off b) bt = b.
Proof.
  unfold nova_get_blocknr, page_off. rewrite Z.shiftr_div_pow2 by done. by apply Z.div_mul.
Qed.

Lemma next_log_page_run s p b :
  device_ok s -> page_ok s b -> memcpy_mcsafe_rc (log_link s (page_off b)) 8 = 0 ->
  BLOCK_OFF p = page_off b ->
  next_log_page p s = Ok (load 8 (nvmm s) (log_link s (page_off b))) s.
Proof.
  intros D P Hr Ep. assert (wp (next_log_page p)
    (fun r s' => r = load 8 (nvmm s) (log_link s (page_off b)) /\ s' = s) s) as Wp.
  { unfold next_log_page, read_tail. apply wp_bind, wp_gets. rewrite Ep.
    destruct (page_addr s b D P) as [_ ->]. destruct P as [P1 P2].
    assert (field_addr nova_inode_log_page (virt_addr (sbc s) + page_off b) "next_page"
      = log_link s (page_off b)) as -> by done.
    apply wp_bind. eapply wp_mcsafe; [apply mem_upd_refl|done| |by split].
    apply in_pmem_spec. unfold log_link, page_off in *. destruct D as (Hv & _). cbn. lia. }
  apply wp_run in Wp as (r & s' & E & -> & ->). exact E.
Qed.

(** Distinct pages of the device are fewer than its blocks. *)
Lemma log_pages_bound s bs :
  NoDup bs -> (forall b, b ∈ bs -> page_ok s b) -> 0 <= initsize (sbc s) ->
  (length bs < chain_fuel s)%nat.
Proof.
  intros ND Hok Hsz.
  assert (bs ⊆+ seqZ 1 (initsize (sbc s) / 4096)) as Hs.
  { apply NoDup_submseteq; [done|]. intros b Hb. destruct (Hok b Hb) as [H1' H2'].
    apply elem_of_seqZ. unfold page_off in H2'.
    assert (b + 1 <= initsize (sbc s) / 4096) by (apply Z.div_le_lower_bound; lia). lia. }
  apply submseteq_length in Hs. rewrite length_seqZ in Hs. unfold chain_fuel, PAGE_SIZE.
  assert (0 <= initsize (sbc s) / 4096) by (apply Z.div_pos; lia). lia.
Qed.

(** The pages already gathered when the walk is at [start], [num]. *)
Definition pending (start num : Z) : list Z := if start =? 0 then [] else run_of start (Z.to_nat num).

Lemma free_contiguous_loop_run s bs0 :
  log_pages s bs0 -> lists_apart s -> log_ctx s ->
  (forall p, (alloc_clock s <= p)%positive -> kmem_cache_zalloc_ok p = true) ->
  Z.of_nat (length bs0) < 2 ^ 31 ->
  forall rest fuel gone start num s1,
  bs0 = gone ++ pending start num ++ rest -> (length rest < fuel)%nat ->
  (start <> 0 -> 0 < num) -> log_freed s s1 gone ->
  exists start' num' gone' s2,
    free_contiguous_loop fuel NOVA_BLOCK_TYPE_4K (default 0 (head (page_off <$> rest))) start num
      (Z.of_nat (length gone)) s1 = Ok (start', num', Z.of_nat (length gone')) s2 /\
    bs0 = gone' ++ pending start' num' /\ (start' <> 0 -> 0 < num') /\ log_freed s s2 gone'.
Proof.
  intros L A C Hk Hlen. pose proof (lc_dev _ C) as D.
  induction rest as [|b rest IH]; intros fuel gone start num s1 E Hf Hnum F.
  { exists start, num, gone, s1. rewrite app_nil_r in E. split_and!; auto.
    by destruct fuel. }
  destruct fuel as [|fuel]; [cbn in Hf; lia|]. cbn [length] in Hf.
  assert (b ∈ bs0) as Hb by (rewrite E; set_solver).
  pose proof (lp_ok _ _ L b Hb) as Pb. pose proof Pb as [Hb1 Hb2].
  change (default 0 (head (page_off <$> b :: rest))) with (page_off b).
  cbn [free_contiguous_loop].
  rewrite (proj2 (Z.eqb_neq (page_off b) 0)) by (unfold page_off; lia).
  rewrite page_off_entry. cbn [Z.eqb negb].
  assert (log_link s1 = log_link s) as El by (unfold log_link; by rewrite (lf_sbc _ _ _ F)).
  rewrite (bind_ok _ _ _ _ _ (next_log_page_run s1 _ b (lc_dev _ (lf_ctx _ _ _ F))
    ltac:(unfold page_ok in *; by rewrite (lf_sbc _ _ _ F))
    ltac:(rewrite El; by apply (lp_read _ _ L)) (page_off_block b))).
  rewrite El, (lf_nvmm _ _ _ F), page_off_nr.
  assert (load 8 (nvmm s) (log_link s (page_off b)) = default 0 (head (page_off <$> rest))) as ->.
  { pose proof (lp_chain _ _ L) as Ch. unfold log_chain in Ch.
    rewrite E, app_assoc, fmap_app, fmap_cons in Ch. by apply linked_at in Ch. }
  destruct (Z.eqb_spec start 0) as [->|Hs].
  - apply (IH fuel gone b 1 s1); [|lia|lia|done]. rewrite E. unfold pending.
    rewrite Z.eqb_refl, (proj2 (Z.eqb_neq b 0)) by lia. done.
  - specialize (Hnum Hs). unfold pending in E. rewrite (proj2 (Z.eqb_neq start 0)) in E by done.
    assert (exists n, num = Z.of_nat (S n)) as [n ->] by (exists (Z.to_nat (num - 1)); lia).
    rewrite Nat2Z.id in E.
    assert (Z.of_nat (length gone) + Z.of_nat (S n) + 1 < 2 ^ 31) as Hsum.
    { rewrite E, !length_app, length_run_of in Hlen. cbn [length] in Hlen. lia. }
    assert (forall c, c ∈ run_of start (S n) -> page_ok s c) as Pr
      by (intros c Hc; apply (lp_ok _ _ L); rewrite E; set_solver).
    assert (0 < start) as Hs0 by (apply (Pr start); rewrite elem_of_run; lia).
    assert (u64 (start + Z.of_nat (S n)) = start + Z.of_nat (S n)) as ->.
    { destruct (Pr (start + Z.of_nat n)) as [P1 P2]; [rewrite elem_of_run; lia|].
      destruct D as (Hv & Hsz & _). unfold page_off in *. apply uwrap_small. lia. }
    destruct (Z.eqb_spec b (start + Z.of_nat (S n))) as [->|Hne].
    + rewrite swrap_small by lia. apply (IH fuel gone start); [|lia|lia|done].
      rewrite E. unfold pending. rewrite (proj2 (Z.eqb_neq start 0)) by done. f_equal.
      replace (Z.to_nat (Z.of_nat (S n) + 1)) with (S (S n)) by lia.
      by rewrite (run_of_snoc start (S n)), <- app_assoc.
    + pose proof (lp_nodup _ _ L) as ND. rewrite E in ND. apply NoDup_app in ND as (_ & ND & _).
      destruct (free_run s s1 gone start n F A) as (s2 & E2 & F2); auto.
      * intros c Hc. apply (lp_home _ _ L). rewrite E. set_solver.
      * intros c Hc. split; [|apply (lp_taken _ _ L); rewrite E; set_solver].
        intros Hg. apply (ND c Hg). set_solver.
      * rewrite (bind_ok _ _ _ _ _ E2), swrap_small by lia.
        replace (Z.of_nat (length gone) + Z.of_nat (S n))
          with (Z.of_nat (length (gone ++ run_of start (S n))))
          by (rewrite length_app, length_run_of; lia).
        apply (IH fuel (gone ++ run_of start (S n)) b 1 s2); [|lia|lia|done].
        rewrite E. unfold pending. rewrite (proj2 (Z.eqb_neq b 0)) by lia.
        by rewrite <- app_assoc.
Qed.

Lemma free_contiguous_run s bs :
  log_ctx s -> log_pages s bs -> lists_apart s -> Z.of_nat (length bs) < 2 ^ 31 ->
  (forall p, (alloc_clock s <= p)%positive -> kmem_cache_zalloc_ok p = true) ->
  exists s', nova_free_contiguous_log_blocks NOVA_BLOCK_TYPE_4K (default 0 (head (page_off <$> bs))) s
      = Ok (Z.of_nat (length bs)) s' /\ log_freed s s' bs.
Proof.
  intros C L A Hlen Hk. unfold nova_free_contiguous_log_blocks.
  rewrite (bind_ok _ _ _ (chain_fuel s) s) by done.
  destruct (decide (initsize (sbc s) < 0)) as [Hneg|Hpos].
  { destruct bs as [|b bs].
    - exists s. split; [|by apply log_freed_nil]. by destruct (chain_fuel s).
    - exfalso. destruct (lp_ok _ _ L b) as [P1 P2]; [set_solver|]. unfold page_off in P2. lia. }
  destruct (free_contiguous_loop_run s bs L A C Hk Hlen bs (chain_fuel s) [] 0 0 s) as
    (start & num & gone & s2 & E & Eb & Hn & F); [done| |done|by apply log_freed_nil|].
  { apply log_pages_bound; [apply L|apply L|lia]. }
  cbn [length] in E. change (Z.of_nat 0) with 0 in E. rewrite (bind_ok _ _ _ _ _ E).
  destruct (Z.eqb_spec start 0) as [->|Hs]; cbn [negb].
  - exists s2. unfold pending in Eb. rewrite Z.eqb_refl, app_nil_r in Eb. subst gone. done.
  - specialize (Hn Hs). unfold pending in Eb. rewrite (proj2 (Z.eqb_neq start 0)) in Eb by done.
    assert (exists n, num = Z.of_nat (S n)) as [n ->] by (exists (Z.to_nat (num - 1)); lia).
    rewrite Nat2Z.id in Eb. pose proof (lp_nodup _ _ L) as ND. rewrite Eb in ND.
    apply NoDup_app in ND as (_ & ND & _).
    destruct (free_run s s2 gone start n F A) as (s3 & E3 & F3); auto.
    + intros c Hc. apply (lp_home _ _ L). rewrite Eb. set_solver.
    + intros c Hc. split; [|apply (lp_taken _ _ L); rewrite Eb; set_solver]. intros Hg. by apply (ND c Hg).
    + apply (lp_ok _ _ L start). rewrite Eb, elem_of_app, elem_of_run. right. lia.
    + exists s3. rewrite (bind_ok _ _ _ _ _ E3), Eb. split; [|done].
      rewrite Eb in Hlen. rewrite length_app, length_run_of in *. rewrite swrap_small by lia.
      unfold ret. f_equal. lia.
Qed.

(** Releasing a log ends, whatever the order of its pages on
    the device, and gives back exactly the pages of its chain: the result is
    their number, every one of them is free afterwards, no other block's state
    has changed and the device contents are untouched. *)
Theorem nova_free_contiguous_log_blocks_correct s bs :
  log_ctx s -> log_pages s bs -> lists_apart s -> Z.of_nat (length bs) < 2 ^ 31 ->
  (forall p, (alloc_clock s <= p)%positive -> kmem_cache_zalloc_ok p = true) ->
  exists s', nova_free_contiguous_log_blocks NOVA_BLOCK_TYPE_4K (default 0 (head (page_off <$> bs))) s
      = Ok (Z.of_nat (length bs)) s' /\ log_freed s s' bs.
Proof. apply free_contiguous_run. Qed.
End release.
