(* ===== verification/RangeLog.v ===== *)
(** Saving the free lists and the inode maps at unmount and loading them back
    at mount (bbuild.c).

    Each list is written as a sequence of (low, high) pairs, 254 to a log page,
    into a log whose head and tail are kept in a reserved inode.  Each
    definition translates the C function of the same name. *)

From stdpp Require Import strings.
From S2P Require Import Prelude CInt Crc32c NovaEnv RangeNode Pmem NovaState NovaMonad NovaLib.
From S2P Require Import Balloc InodeMap NovaLayout LogPage.

Local Open Scope nova_scope.
Local Open Scope string_scope.
Local Open Scope Z_scope.

Definition nova_range_node_lowhigh : struct := [("range_low", 8%nat); ("range_high", 8%nat)].
Definition CPUID_MASK : Z := 0xff00000000000000.

(** [nova_get_block(sb, block)]'s entries a log on the device can have. *)
Definition entry_fuel (s : nova) : nat := Z.to_nat (initsize (sbc s) / 16 + 1).

Section range_log.
Context `{NovaEnv, RbLib}.

Definition get_block_cpuid (blocknr : Z) : M Z :=
  let! plb := gets per_list_blocks in
  if plb =? 0 then raise FDivide else ret (s32 (blocknr / plb)).

Definition nova_destroy_blocknode_tree (cpu : Z) : M unit :=
  update_free_list cpu (fun fl =>
    set_block_free_tree (nova_destroy_range_node_tree (block_free_tree fl)) fl).

Definition nova_destroy_blocknode_trees : M unit :=
  let! n := gets (fun s => cpus (sbc s)) in
  let! _ := for_loop (R := unit) (Z.to_nat n) 0 (fun i =>
    nova_destroy_blocknode_tree i ;;; ret None) in
  ret tt.

(** ** Saving *)

(** The two places where a walk moves to the next page. *)
Definition next_entry (curr_p size : Z) : M Z :=
  if is_last_entry curr_p size then next_log_page curr_p else ret curr_p.

Definition nova_append_range_node_entry (curr : range_node) (tail cpuid : Z) : M Z :=
  let size := sizeof nova_range_node_lowhigh in
  if negb (nova_range_node_checksum_ok curr) then ret tail
  else
    let! at_end :=
      if tail =? 0 then ret true
      else if is_last_entry tail size then let! n := next_log_page tail in ret (n =? 0)
      else ret false in
    if at_end : bool then ret tail
    else
      let! curr_p := next_entry tail size in
      let! entry := gets (fun s => nova_get_block s curr_p) in
      nova_memunlock_range entry size ;;;
      pstore_field nova_range_node_lowhigh entry "range_low" (range_low curr) ;;;
      (if negb (cpuid =? 0) then
         let! low := pload_field nova_range_node_lowhigh entry "range_low" in
         pstore_field nova_range_node_lowhigh entry "range_low"
           (Z.lor low (u64 (Z.shiftl cpuid 56)))
       else ret tt) ;;;
      pstore_field nova_range_node_lowhigh entry "range_high" (range_high curr) ;;;
      nova_memlock_range entry size ;;;
      nova_flush_buffer entry size false ;;;
      ret curr_p.

(** Returns the tail and the tree, which the loop empties. *)
Fixpoint save_range_nodes (fuel : nat) (tree : rb_tree) (temp : option (ptr * range_node))
    (temp_tail cpuid : Z) : M (Z * rb_tree) :=
  match temp with
  | None => ret (temp_tail, tree)
  | Some (p, curr) =>
      match fuel with
      | O => raise FFuel
      | S fuel =>
          let! curr_entry := nova_append_range_node_entry curr temp_tail cpuid in
          let temp_tail := u64 (curr_entry + sizeof nova_range_node_lowhigh) in
          let temp := rb_next tree p in
          save_range_nodes fuel (rb_erase p tree) temp temp_tail cpuid
      end
  end.

Definition nova_save_range_nodes_to_log (tree : rb_tree) (temp_tail cpuid : Z) : M (Z * rb_tree) :=
  save_range_nodes (length (inorder tree)) tree (rb_first tree) temp_tail cpuid.

Definition nova_save_free_list_blocknodes (cpu temp_tail : Z) : M Z :=
  let! fl := nova_get_free_list cpu in
  let! r := nova_save_range_nodes_to_log (block_free_tree fl) temp_tail 0 in
  let '(temp_tail, tree) := r in
  update_free_list cpu (set_block_free_tree tree) ;;;
  ret temp_tail.

(** Pages for [n] entries. *)
Definition rangenode_pages (n : Z) : Z :=
  n / RANGENODE_PER_PAGE + (if n mod RANGENODE_PER_PAGE =? 0 then 0 else 1).

(** The steps that publish the saved log in the reserved inode [pi]. *)
Definition publish_log (pi new_block temp_tail : Z) : M unit :=
  nova_memunlock_inode pi ;;;
  pstore_field nova_inode pi "alter_log_tail" 0 ;;;
  pstore_field nova_inode pi "alter_log_head" 0 ;;;
  pstore_field nova_inode pi "log_head" new_block ;;;
  nova_update_tail pi temp_tail ;;;
  nova_flush_buffer (field_addr nova_inode pi "log_head") CACHELINE_SIZE false ;;;
  nova_memlock_inode pi.

(** [for (i = 0; i < cpus; i++) tail = save(i, tail)] *)
Fixpoint save_loop (n : nat) (i : Z) (save : Z -> Z -> M Z) (temp_tail : Z) : M Z :=
  match n with
  | O => ret temp_tail
  | S n => let! temp_tail := save i temp_tail in save_loop n (i + 1) save temp_tail
  end.

Definition nova_save_inode_list_to_log : M unit :=
  let! pi := gets (fun s => nova_get_inode_by_ino s NOVA_INODELIST_INO) in
  let! n := gets (fun s => cpus (sbc s)) in
  let! ims := gets inode_maps in
  let num_nodes := foldl (fun acc im => u64 (acc + num_range_node_inode im)) 0 (take (Z.to_nat n) ims) in
  let num_blocks := rangenode_pages num_nodes in
  let! r := nova_allocate_inode_log_pages NOVA_DEFAULT_BLOCK_TYPE num_blocks 0 ANY_CPU ALLOC_FROM_HEAD in
  let '(allocated, new_block) := r in
  if negb (u64 allocated =? num_blocks) then ret tt
  else
    let! temp_tail := save_loop (Z.to_nat n) 0 (fun i tail =>
      let! im := get_inode_map i in
      let! r := nova_save_range_nodes_to_log (inode_inuse_tree im) tail i in
      let '(tail, tree) := r in
      put_inode_map i (set_inode_inuse_tree tree im) ;;; ret tail) new_block in
    publish_log pi new_block temp_tail.

Definition nova_save_blocknode_mappings_to_log : M unit :=
  let! pi := gets (fun s => nova_get_inode_by_ino s NOVA_BLOCKNODE_INO) in
  let! n := gets (fun s => cpus (sbc s)) in
  let! fls := gets free_lists in
  let num_blocknode := foldl (fun acc fl => u64 (acc + num_blocknode fl)) 0 (take (Z.to_nat n) fls) in
  let num_pages := rangenode_pages num_blocknode in
  let! r := nova_allocate_inode_log_pages NOVA_DEFAULT_BLOCK_TYPE num_pages 0 ANY_CPU ALLOC_FROM_HEAD in
  let '(allocated, new_block) := r in
  if negb (u64 allocated =? num_pages) then ret tt
  else
    let! temp_tail := save_loop (Z.to_nat n) 0 nova_save_free_list_blocknodes new_block in
    publish_log pi new_block temp_tail.

(** ** Loading *)

(** One entry of the saved free lists; the result is an error for [goto out].
    Running out of slab memory only warns before the node is used. *)
Definition load_blocknode (curr_p : Z) : M Z :=
  let! entry := gets (fun s => nova_get_block s curr_p) in
  let! blknode := nova_alloc_blocknode in
  match blknode with
  | None => raise (FWild 0)
  | Some p =>
      let! low := pload_field nova_range_node_lowhigh entry "range_low" in
      let! high := pload_field nova_range_node_lowhigh entry "range_high" in
      let n := nova_update_range_node_checksum (set_range_high high (set_range_low low zeroed_node)) in
      let! cpuid := get_block_cpuid (range_low n) in
      let! fl := nova_get_free_list cpuid in
      let '(rc, tree) := nova_insert_blocktree (block_free_tree fl) p n in
      if negb (rc =? 0) then
        put_free_list cpuid (set_block_free_tree tree fl) ;;;
        nova_err ;;; nova_free_blocknode p ;;; nova_destroy_blocknode_trees ;;; ret rc
      else
        let fl := set_block_free_tree tree fl in
        let fl := set_num_blocknode (u64 (num_blocknode fl + 1)) fl in
        let fl := if num_blocknode fl =? 1 then set_first_node (Some p) fl else fl in
        let fl := set_last_node (Some p) fl in
        let fl := set_num_free_blocks
          (u64 (num_free_blocks fl + (range_high n - range_low n + 1))) fl in
        put_free_list cpuid fl ;;; ret 0
  end.

Fixpoint load_blocknodes (fuel : nat) (curr_p log_tail : Z) : M Z :=
  if curr_p =? log_tail then ret 0
  else
    match fuel with
    | O => raise FFuel
    | S fuel =>
        let! curr_p := next_entry curr_p (sizeof nova_range_node_lowhigh) in
        if curr_p =? 0 then ret (- EINVAL)
        else
          let! rc := load_blocknode curr_p in
          if negb (rc =? 0) then ret rc
          else load_blocknodes fuel (u64 (curr_p + sizeof nova_range_node_lowhigh)) log_tail
    end.

Definition nova_init_blockmap_from_inode : M Z :=
  let! pi := gets (fun s => nova_get_inode_by_ino s NOVA_BLOCKNODE_INO) in
  let! r := nova_get_head_tail pi (mkSih 0 0 0 0 0 0 0 0) in
  let '(rc, sih) := r in
  if negb (rc =? 0) then let! _ := nova_free_inode_log pi sih in ret rc
  else if sih_log_head sih =? 0 then ret (- EINVAL)
  else
    let! fuel := gets entry_fuel in
    let! rc := load_blocknodes fuel (sih_log_head sih) (sih_log_tail sih) in
    let! _ := nova_free_inode_log pi sih in
    ret rc.

(** One entry of the saved inode maps; [Some rc] is a [goto out] that returns
    [rc].  An invalid CPU leaves [ret] at the value it had, 0. *)
Definition load_inode_range (curr_p : Z) : M (option Z) :=
  let! entry := gets (fun s => nova_get_block s curr_p) in
  let! range_node := nova_alloc_inode_node in
  match range_node with
  | None => raise (FWild 0)
  | Some p =>
      let! low := pload_field nova_range_node_lowhigh entry "range_low" in
      let! n := gets (fun s => cpus (sbc s)) in
      let cpuid := Z.shiftr (Z.land low CPUID_MASK) 56 in
      if n <=? cpuid then
        nova_err ;;; nova_free_inode_node p ;;; nova_destroy_inode_trees ;;; ret (Some 0)
      else
        let! high := pload_field nova_range_node_lowhigh entry "range_high" in
        let nd := nova_update_range_node_checksum
          (set_range_high high (set_range_low (Z.land low (Z.lnot CPUID_MASK)) zeroed_node)) in
        let! im := get_inode_map cpuid in
        let '(rc, tree) := nova_insert_inodetree im p nd in
        let im := set_inode_inuse_tree tree im in
        if negb (rc =? 0) then
          put_inode_map cpuid im ;;;
          nova_err ;;; nova_free_inode_node p ;;; nova_destroy_inode_trees ;;; ret (Some rc)
        else
          modify (fun s => set_s_inodes_used_count
            (u64 (s_inodes_used_count s + (range_high nd - range_low nd + 1))) s) ;;;
          let im := set_num_range_node_inode (u64 (num_range_node_inode im + 1)) im in
          let im := match first_inode_range im with
                    | None => set_first_inode_range (Some p) im
                    | Some _ => im
                    end in
          put_inode_map cpuid im ;;; ret None
  end.

(** A [curr_p] of 0 only warns: [nova_get_block] then yields NULL. *)
Fixpoint load_inode_ranges (fuel : nat) (curr_p log_tail : Z) : M Z :=
  if curr_p =? log_tail then ret 0
  else
    match fuel with
    | O => raise FFuel
    | S fuel =>
        let! curr_p := next_entry curr_p (sizeof nova_range_node_lowhigh) in
        let! r := load_inode_range curr_p in
        match r with
        | Some rc => ret rc
        | None => load_inode_ranges fuel (u64 (curr_p + sizeof nova_range_node_lowhigh)) log_tail
        end
    end.

(** [sih0] is what the stack slot of [sih] holds: the function does not
    initialise it. *)
Definition nova_init_inode_list_from_inode (sih0 : inode_header) : M Z :=
  let! pi := gets (fun s => nova_get_inode_by_ino s NOVA_INODELIST_INO) in
  let! r := nova_get_head_tail pi sih0 in
  let '(rc, sih) := r in
  if negb (rc =? 0) then let! _ := nova_free_inode_log pi sih in ret rc
  else
    modify (set_s_inodes_used_count 0) ;;;
    if sih_log_head sih =? 0 then ret (- EINVAL)
    else
      let! fuel := gets entry_fuel in
      let! rc := load_inode_ranges fuel (sih_log_head sih) (sih_log_tail sih) in
      let! _ := nova_free_inode_log pi sih in
      ret rc.
End range_log.
