(* ===== verification/RangeLogSpec.v ===== *)
(** Correctness of the saved range logs: what saving writes.

    Entry [j] of a saved log lies in slot [j mod 254] of page [j / 254] of its
    chain.  Writing entries and reading them back both move from slot to slot,
    over page boundaries. *)

From stdpp Require Import strings.
From S2P Require Import Prelude CInt Crc32c NovaEnv RangeNode Pmem NovaState NovaMonad NovaLib.
From S2P Require Import Balloc BallocSpec BallocAlloc InodeMap NovaLayout PmemOps LogPage LogPageSpec.
From S2P Require Import LogPageSpec RangeLog.

Local Open Scope nova_scope.

(** ** Slots *)
Definition slot (bs : list Z) (j : nat) : Z :=
  page_off (default 0 (bs !! (j / 254)%nat)) + Z.of_nat (j mod 254) * 16.

(** The tail of the log after [k] entries. *)
Definition tail_of (bs : list Z) (k : nat) : Z :=
  match k with O => slot bs 0 | S j => slot bs j + 16 end.

Notation entry := (Z * Z)%type.

Definition entries_at (s : nova) (m : mem) (bs : list Z) (l : list entry) : Prop :=
  forall j e, l !! j = Some e ->
    load 8 m (virt_addr (sbc s) + slot bs j) = e.1 /\
    load 8 m (virt_addr (sbc s) + slot bs j + 8) = e.2.

(** A chain of readable pages in the memory [m]. *)
Record chain_at `{NovaEnv} (s : nova) (m : mem) (bs : list Z) : Prop := {
  ca_nodup : NoDup bs;
  ca_ok : forall b, b ∈ bs -> page_ok s b;
  ca_read : forall b, b ∈ bs -> memcpy_mcsafe_rc (log_link s (page_off b)) 8 = 0;
  ca_chain : log_chain s m bs
}.

(** A number of entries that fits in the pages. *)
Definition room (bs : list Z) (k : nat) : Prop := (k <= 254 * length bs)%nat.

Lemma slot_page bs j :
  (j < 254 * length bs)%nat ->
  exists b, bs !! (j / 254)%nat = Some b /\ slot bs j = page_off b + Z.of_nat (j mod 254) * 16 /\
    0 <= Z.of_nat (j mod 254) * 16 <= 4048.
Proof.
  intros Hj. assert (j / 254 < length bs)%nat as Hq by (apply Nat.Div0.div_lt_upper_bound; lia).
  destruct (lookup_lt_is_Some_2 bs _ Hq) as [b Hb]. exists b.
  pose proof (Nat.mod_upper_bound j 254 ltac:(lia)). unfold slot. rewrite Hb. split_and!; [done..|lia|lia].
Qed.

Lemma nat_step j :
  (j mod 254 = 253 /\ S j / 254 = S (j / 254) /\ S j mod 254 = 0)%nat \/
  (j mod 254 < 253 /\ S j / 254 = j / 254 /\ S j mod 254 = S (j mod 254))%nat.
Proof.
  pose proof (Nat.div_mod j 254 ltac:(lia)) as E. pose proof (Nat.mod_upper_bound j 254 ltac:(lia)).
  destruct (decide (j mod 254 = 253)%nat) as [E1|]; [left|right]; split_and!; try lia.
  - symmetry. apply (Nat.div_unique _ _ _ 0); lia.
  - symmetry. apply (Nat.mod_unique _ _ (S (j / 254))); lia.
  - symmetry. apply (Nat.div_unique _ _ _ (S (j mod 254))); lia.
  - symmetry. apply (Nat.mod_unique _ _ (j / 254)); lia.
Qed.

(** Different entries do not overlap. *)
Lemma slot_inj bs i j :
  NoDup bs -> (i < 254 * length bs)%nat -> (j < 254 * length bs)%nat -> i <> j ->
  slot bs i + 16 <= slot bs j \/ slot bs j + 16 <= slot bs i.
Proof.
  intros ND Hi Hj Hne. destruct (slot_page bs i Hi) as (b & Hb & -> & Rb).
  destruct (slot_page bs j Hj) as (c & Hc & -> & Rc). unfold page_off.
  destruct (decide (b = c)) as [->|]; [|lia].
  pose proof (NoDup_lookup _ _ _ _ ND Hb Hc) as Eq.
  pose proof (Nat.div_mod i 254 ltac:(lia)). pose proof (Nat.div_mod j 254 ltac:(lia)). lia.
Qed.

Section spec.
Context `{NovaEnv, RbLibOk}.

Lemma chain_slot_ok s m bs j :
  chain_at s m bs -> (j < 254 * length bs)%nat ->
  0 < slot bs j /\ slot bs j + 48 <= initsize (sbc s).
Proof.
  intros C Hj. destruct (slot_page bs j Hj) as (b & Hb & -> & Rb).
  destruct (ca_ok _ _ _ C b) as [P1 P2]; [by eapply list_elem_of_lookup_2|].
  unfold page_off in *. lia.
Qed.

Lemma chain_at_sbc s s' m bs : sbc s' = sbc s -> chain_at s m bs -> chain_at s' m bs.
Proof.
  intros Es []. unfold page_ok, log_chain, log_link in *.
  split; unfold page_ok, log_chain, log_link; rewrite ?Es; auto.
Qed.

Lemma slot_block s j : 0 < j -> nova_get_block s j = virt_addr (sbc s) + j.
Proof. intros Hj. unfold nova_get_block. by rewrite (proj2 (Z.eqb_neq _ 0)) by lia. Qed.

(** From the tail after [k] entries to the slot of entry [k]. *)
Lemma wp_next_entry m s0 s bs k (Q : Z -> nova -> Prop) :
  mem_upd m s0 s -> device_ok s0 -> chain_at s0 m bs -> (k < 254 * length bs)%nat ->
  Q (slot bs k) s -> wp (next_entry (tail_of bs k) 16) Q s.
Proof.
  intros U D C Hk HQ. unfold next_entry, is_last_entry. destruct k as [|j]; cbn [tail_of].
  - destruct (slot_page bs 0 Hk) as (b & Hb & Es & _).
    change (Z.of_nat (0 mod 254) * 16) with 0 in Es. rewrite Es in *.
    rewrite (proj1 (off_split b 0 ltac:(lia))). change (LOG_BLOCK_TAIL <? u32 (0 + 16)) with false.
    exact HQ.
  - destruct (slot_page bs j ltac:(lia)) as (b & Hb & Es & Rb).
    destruct (slot_page bs (S j) Hk) as (c & Hc & Es' & _).
    assert (slot bs j + 16 = page_off b + (Z.of_nat (j mod 254) * 16 + 16)) as Et by lia.
    rewrite Et. destruct (off_split b (Z.of_nat (j mod 254) * 16 + 16) ltac:(lia)) as [El Eb].
    rewrite El, uwrap_small by lia. unfold LOG_BLOCK_TAIL.
    destruct (nat_step j) as [(E1 & E2 & E3)|(E1 & E2 & E3)].
    + rewrite E1, (proj2 (Z.ltb_lt _ _)) by lia. rewrite E1 in Eb.
      rewrite E2 in Hc. rewrite E3, Z.add_0_r in Es'.
      assert (b ∈ bs) as Hin by (by eapply list_elem_of_lookup_2).
      pose proof (mem_upd_sbc _ _ _ U) as Esb.
      assert (log_link s = log_link s0) as Ell by (unfold log_link; by rewrite Esb).
      eapply wp_ok; [apply (next_log_page_run s _ b)|].
      * unfold device_ok in *. by rewrite Esb, (mem_upd_lists _ _ _ U).
      * pose proof (ca_ok _ _ _ C b Hin). unfold page_ok in *. by rewrite Esb.
      * rewrite Ell. by apply (ca_read _ _ _ C).
      * exact Eb.
      * rewrite Ell, (mem_upd_nvmm _ _ _ U). pose proof (ca_chain _ _ _ C) as Ch.
        rewrite <- (take_drop_middle bs _ _ Hb) in Ch. unfold log_chain in Ch.
        rewrite fmap_app, fmap_cons in Ch. rewrite (linked_at _ _ _ _ _ Ch).
        rewrite head_lookup, list_lookup_fmap, lookup_drop, Nat.add_0_r, Hc. cbn.
        by rewrite Es' in HQ.
    + rewrite (proj2 (Z.ltb_ge _ _)) by lia. apply wp_ret. rewrite E2, Hb in Hc. injection Hc as <-.
      rewrite Es', E3 in HQ.
      by replace (page_off b + (Z.of_nat (j mod 254) * 16 + 16))
        with (page_off b + Z.of_nat (S (j mod 254)) * 16) by lia.
Qed.

(** The first word of an entry, with its CPU. *)
Definition tagged (cpuid low : Z) : Z := if cpuid =? 0 then low else Z.lor low (u64 (Z.shiftl cpuid 56)).
Definition entry_of (cpuid : Z) (x : ptr * range_node) : entry :=
  (tagged cpuid (range_low x.2), range_high x.2).

(** What can be written: a node with a valid checksum and 64-bit bounds. *)
Definition node_fits (cpuid : Z) (n : range_node) : Prop :=
  nova_range_node_checksum_ok n = true /\ 0 <= range_low n < 2 ^ 64 /\ 0 <= range_high n < 2 ^ 64 /\
  0 <= tagged cpuid (range_low n) < 2 ^ 64.

Lemma wp_append m s0 s bs k n cpuid (Q : Z -> nova -> Prop) :
  mem_upd m s0 s -> device_ok s0 -> chain_at s0 m bs -> (k < 254 * length bs)%nat ->
  node_fits cpuid n ->
  (forall m' s', mem_upd m' s0 s' ->
     load 8 m' (virt_addr (sbc s0) + slot bs k) = tagged cpuid (range_low n) ->
     load 8 m' (virt_addr (sbc s0) + slot bs k + 8) = range_high n ->
     (forall x, ~ (virt_addr (sbc s0) + slot bs k <= x < virt_addr (sbc s0) + slot bs k + 16) ->
        mget m' x = mget m x) -> Q (slot bs k) s') ->
  wp (nova_append_range_node_entry n (tail_of bs k) cpuid) Q s.
Proof.
  intros U D C Hk (Hc & Hlo & Hhi & Htag) HQ. pose proof D as (Hv & Hsz & _).
  destruct (chain_slot_ok _ _ _ _ C Hk) as [S1 S2]. pose proof (mem_upd_sbc _ _ _ U) as Es.
  unfold nova_append_range_node_entry. rewrite Hc. cbn [negb].
  change (sizeof nova_range_node_lowhigh) with 16. apply wp_bind.
  assert (tail_of bs k <> 0) as Ht.
  { destruct k as [|j]; cbn [tail_of]; [lia|]. destruct (chain_slot_ok _ _ _ j C ltac:(lia)). lia. }
  rewrite (proj2 (Z.eqb_neq _ _) Ht).
  assert (forall q : bool -> nova -> Prop, q false s ->
    wp (if is_last_entry (tail_of bs k) 16 then let! n := next_log_page (tail_of bs k) in ret (n =? 0)
        else ret false) q s) as Hend.
  { intros q Hq. pose proof (wp_next_entry m s0 s bs k
      (fun p s' => p = slot bs k /\ s' = s) U D C Hk ltac:(by split)) as Wn.
    unfold next_entry in Wn. destruct (is_last_entry (tail_of bs k) 16); [|done].
    apply wp_bind. eapply wp_mono; [exact Wn|]. intros p s' [-> ->]. apply wp_ret.
    by rewrite (proj2 (Z.eqb_neq _ 0)) by lia. }
  apply Hend. clear Hend. apply wp_bind. eapply wp_next_entry; [done..|]. apply wp_bind, wp_gets.
  rewrite slot_block, Es by lia. set (a := virt_addr (sbc s0) + slot bs k) in *.
  apply wp_bind. eapply wp_memunlock; [exact U|lia..|]. intros s1 U1 W1.
  unfold pstore_field, pload_field. change (sizeof_field nova_range_node_lowhigh "range_low") with 8%nat.
  change (sizeof_field nova_range_node_lowhigh "range_high") with 8%nat.
  assert (field_addr nova_range_node_lowhigh a "range_low" = a) as -> by apply Z.add_0_r.
  assert (field_addr nova_range_node_lowhigh a "range_high" = a + 8) as -> by done.
  assert (in_pmem s0 a 8 = true /\ in_pmem s0 (a + 8) 8 = true) as [I1 I2]
    by (split; apply in_pmem_spec; cbn; lia).
  apply wp_bind. eapply wp_pstore; [exact U1|done|done|]. intros s2 U2 W2.
  apply wp_bind.
  assert (exists m1, load 8 m1 a = tagged cpuid (range_low n) /\
    (forall x, ~ (a <= x < a + 8) -> mget m1 x = mget m x) /\
    forall (q : unit -> nova -> Prop), (forall s3, mem_upd m1 s0 s3 -> writable s3 = true -> q tt s3) ->
    wp (if negb (cpuid =? 0) then
          let! low := pload 8 a in pstore 8 a (Z.lor low (u64 (Z.shiftl cpuid 56)))
        else ret tt) q s2) as (m1 & L1 & F1 & Hlow).
  { unfold tagged in *. destruct (Z.eqb_spec cpuid 0) as [->|Hne]; cbn [negb].
    - exists (store 8 m a (range_low n)). split_and!.
      + by apply load_store_same.
      + intros x Hx. by apply mget_store_out.
      + intros q Hq. by apply wp_ret, Hq.
    - eexists (store 8 (store 8 m a (range_low n)) a _). split_and!.
      + by apply load_store_same.
      + intros x Hx. by rewrite !mget_store_out.
      + intros q Hq. apply wp_bind. eapply wp_pload; [exact U2|done|].
        rewrite load_store_same by done. eapply wp_pstore; [exact U2|done|done|]. exact Hq. }
  apply Hlow. clear Hlow. intros s3 U3 W3.
  apply wp_bind. eapply wp_pstore; [exact U3|done|done|]. intros s4 U4 W4.
  apply wp_bind. eapply wp_memlock; [exact U4|]. intros s5 U5.
  apply wp_bind. eapply wp_flush; [exact U5|lia|lia|]. intros s6 U6 _. apply wp_ret.
  eapply HQ; [exact U6|..].
  - rewrite load_store_other by (left; cbn; lia). exact L1.
  - by apply load_store_same.
  - intros x Hx. rewrite mget_store_out, F1; [done|lia|cbn; lia].
Qed.

(** ** Sequences of entries *)
Lemma append_keeps s0 m m' bs l e :
  chain_at s0 m bs -> (length l < 254 * length bs)%nat -> entries_at s0 m bs l ->
  let a := virt_addr (sbc s0) + slot bs (length l) in
  load 8 m' a = e.1 -> load 8 m' (a + 8) = e.2 ->
  (forall x, ~ (a <= x < a + 16) -> mget m' x = mget m x) ->
  chain_at s0 m' bs /\ entries_at s0 m' bs (l ++ [e]) /\ same_outside s0 bs m m'.
Proof.
  intros C Hl En a L1 L2 Fr. destruct (slot_page bs _ Hl) as (b & Hb & Es & Rb).
  assert (b ∈ bs) as Hin by (by eapply list_elem_of_lookup_2). split_and!.
  - destruct C as [C1 C2 C3 C4]. split; auto. unfold log_chain in *.
    apply (linked_to_ext _ m); [done|]. intros p (c & -> & Hc)%list_elem_of_fmap.
    apply load_ext. intros x Hx. apply Fr. unfold a, log_link, page_off in *. cbn in Hx. rewrite Es. lia.
  - intros j f Hj. apply lookup_app_Some in Hj as [Hj|[Hge Hj]].
    + pose proof (lookup_lt_Some _ _ _ Hj) as Hlt. destruct (En j f Hj) as [E1 E2].
      pose proof (slot_inj bs j (length l) (ca_nodup _ _ _ C) ltac:(lia) Hl ltac:(lia)).
      rewrite <- E1, <- E2. split; apply load_ext; intros x Hx; apply Fr; unfold a;
        change (Z.of_nat 8) with 8 in Hx; lia.
    + apply list_lookup_singleton_Some in Hj as [Hj <-].
      assert (j = length l) as -> by lia. by split.
  - intros x Hx. apply Fr. intros Hxa. apply (Hx b Hin). unfold in_page, a in *. rewrite Es in Hxa. lia.
Qed.

(** What a sequence of appends leaves behind. *)
Definition appended (s0 : nova) (m m' : mem) (bs : list Z) (l : list entry) : Prop :=
  chain_at s0 m' bs /\ entries_at s0 m' bs l /\ same_outside s0 bs m m'.

Lemma same_outside_trans s bs m1 m2 m3 :
  same_outside s bs m1 m2 -> same_outside s bs m2 m3 -> same_outside s bs m1 m3.
Proof. intros H1' H2' x Hx. by rewrite H2', H1'. Qed.

Lemma wp_save_range_nodes s0 bs cpuid : device_ok s0 ->
  forall nodes fuel t l m s (Q : Z * rb_tree -> nova -> Prop),
  mem_upd m s0 s -> chain_at s0 m bs -> entries_at s0 m bs l ->
  inorder t = nodes -> NoDup nodes.*1 -> Forall (fun x => node_fits cpuid x.2) nodes ->
  room bs (length l + length nodes) -> (length nodes <= fuel)%nat ->
  (forall m' s' t', mem_upd m' s0 s' -> inorder t' = [] ->
     appended s0 m m' bs (l ++ (entry_of cpuid <$> nodes)) ->
     Q (tail_of bs (length l + length nodes), t') s') ->
  wp (save_range_nodes fuel t (head nodes) (tail_of bs (length l)) cpuid) Q s.
Proof.
  intros D. induction nodes as [|[p n] nodes IH]; intros fuel t l m s Q U C En Et ND Fit Rm Hf HQ.
  - destruct fuel; cbn [head save_range_nodes]; apply wp_ret; cbn [length fmap list_fmap] in HQ;
      rewrite Nat.add_0_r, app_nil_r in HQ; eapply HQ; eauto; by split_and!.
  - destruct fuel as [|fuel]; [cbn in Hf; lia|]. cbn [head save_range_nodes]. unfold room in Rm.
    cbn [length] in Rm, Hf. apply Forall_cons in Fit as [Fn Fit]. apply wp_bind.
    eapply wp_append; [exact U|done|done|lia|exact Fn|]. intros m1 s1 U1 L1 L2 F1.
    destruct (append_keeps s0 m m1 bs l (entry_of cpuid (p, n)) C ltac:(lia) En L1 L2 F1) as (C1 & En1 & O1).
    change (sizeof nova_range_node_lowhigh) with 16.
    destruct (chain_slot_ok _ _ _ (length l) C ltac:(lia)) as [S1 S2].
    destruct D as (Hv & Hsz & Hd) eqn:ED.
    rewrite (rb_next_inorder t [] p n nodes) by (by rewrite Et).
    rewrite uwrap_small by lia. change (slot bs (length l) + 16) with (tail_of bs (S (length l))).
    replace (S (length l)) with (length (l ++ [entry_of cpuid (p, n)])) by (rewrite length_app; cbn; lia).
    eapply IH; [exact U1|done|done| |by apply NoDup_cons in ND as [_ ?]|done| |lia|].
    + by apply (rb_erase_inorder t [] p n nodes); rewrite ?Et.
    + unfold room. rewrite length_app. cbn. lia.
    + intros m2 s2 t2 U2 Et2 (C2 & En2 & O2). rewrite length_app. cbn [length].
      replace (length l + 1 + length nodes)%nat with (length l + S (length nodes))%nat by lia.
      eapply HQ; [exact U2|done|]. rewrite <- app_assoc in En2. split_and!; [done|done|].
      by eapply same_outside_trans.
Qed.

Lemma wp_save_to_log s0 bs cpuid t l m s (Q : Z * rb_tree -> nova -> Prop) :
  device_ok s0 -> mem_upd m s0 s -> chain_at s0 m bs -> entries_at s0 m bs l ->
  NoDup (inorder t).*1 -> Forall (fun x => node_fits cpuid x.2) (inorder t) ->
  room bs (length l + length (inorder t)) ->
  (forall m' s' t', mem_upd m' s0 s' -> inorder t' = [] ->
     appended s0 m m' bs (l ++ (entry_of cpuid <$> inorder t)) ->
     Q (tail_of bs (length l + length (inorder t)), t') s') ->
  wp (nova_save_range_nodes_to_log t (tail_of bs (length l)) cpuid) Q s.
Proof.
  intros. unfold nova_save_range_nodes_to_log. rewrite rb_first_inorder by done.
  by eapply wp_save_range_nodes.
Qed.

(** ** The free lists *)

(** The entries the lists are saved as. *)
Definition list_entries (fls : list free_list) : list entry :=
  concat ((fun fl => entry_of 0 <$> fl_nodes fl) <$> fls).

Definition empty_list (fl fl' : free_list) : Prop :=
  exists t, fl' = set_block_free_tree t fl /\ inorder t = [].

Lemma mem_upd_with m s0 s cpu fl :
  mem_upd m s0 s -> mem_upd m (with_list cpu fl s0) (with_list cpu fl s).
Proof. intros (w & t & ->). by exists w, t. Qed.

Lemma wp_save_free_lists bs n : forall i s0 s m l (Q : Z -> nova -> Prop),
  mem_upd m s0 s -> device_ok s0 -> chain_at s0 m bs -> entries_at s0 m bs l ->
  (i + n = length (free_lists s0))%nat ->
  (forall j fl, free_lists s0 !! j = Some fl -> (i <= j)%nat -> NoDup (fl_nodes fl).*1 /\
     Forall (fun x => node_fits 0 x.2) (fl_nodes fl)) ->
  room bs (length (l ++ list_entries (drop i (free_lists s0)))) ->
  (forall m' s1 s', mem_upd m' s1 s' -> sbc s1 = sbc s0 -> balloc_keep s0 s1 ->
     appended s0 m m' bs (l ++ list_entries (drop i (free_lists s0))) ->
     Q (tail_of bs (length (l ++ list_entries (drop i (free_lists s0))))) s') ->
  wp (save_loop n (Z.of_nat i) nova_save_free_list_blocknodes (tail_of bs (length l))) Q s.
Proof.
  induction n as [|n IH]; intros i s0 s m l Q U D C En Hi Hw Rm HQ; cbn [save_loop].
  - apply wp_ret. rewrite drop_ge in * by lia. change (list_entries []) with (@nil entry) in *.
    rewrite app_nil_r in *. eapply HQ; [exact U|done|apply balloc_keep_refl|]. by split_and!.
  - destruct (lookup_lt_is_Some_2 (free_lists s0) i ltac:(lia)) as [fl Hfl].
    rewrite (drop_S _ _ _ Hfl) in *. unfold list_entries in *. cbn [fmap list_fmap concat] in *.
    fold (list_entries (drop (S i) (free_lists s0))) in *. set (r := list_entries _) in *.
    change (list_fmap _ _ (entry_of 0) (fl_nodes fl)) with (entry_of 0 <$> fl_nodes fl) in *.
    destruct (Hw i fl Hfl ltac:(lia)) as [ND Fit].
    assert (list_at s (Z.of_nat i) fl) as At.
    { split; [lia|]. by rewrite Nat2Z.id, (mem_upd_lists _ _ _ U). }
    apply wp_bind. unfold nova_save_free_list_blocknodes. apply wp_bind.
    eapply wp_ok; [by apply get_free_list_run|]. apply wp_bind.
    eapply wp_save_to_log; [done|exact U|done|done|exact ND|exact Fit| |].
    { unfold room in *. rewrite !length_app, length_fmap in Rm. unfold fl_nodes in Rm. lia. }
    fold (fl_nodes fl). intros m1 s1 t U1 Et (C1 & En1 & O1).
    assert (list_at s1 (Z.of_nat i) fl) as At1.
    { split; [lia|]. by rewrite Nat2Z.id, (mem_upd_lists _ _ _ U1). }
    apply wp_bind. eapply wp_ok; [by apply (update_free_list_run _ _ _ _ At1)|]. apply wp_ret.
    set (fl' := set_block_free_tree t fl). pose proof (mem_upd_with _ _ _ (Z.of_nat i) fl' U1) as U1'.
    set (s0' := with_list (Z.of_nat i) fl' s0) in *.
    assert (balloc_keep s0 s0') as K.
    { apply (balloc_keep_with s0 s0 _ fl); [by left|split; [lia|by rewrite Nat2Z.id]|done..]. }
    assert (drop (S i) (free_lists s0') = drop (S i) (free_lists s0)) as Ed.
    { cbn. rewrite Nat2Z.id. by apply drop_insert_lt; lia. }
    replace (length l + length (fl_nodes fl))%nat with (length (l ++ (entry_of 0 <$> fl_nodes fl)))
      by (by rewrite length_app, length_fmap).
    replace (Z.of_nat i + 1) with (Z.of_nat (S i)) by lia.
    eapply (IH (S i) s0' _ m1); [exact U1'|eapply device_ok_keep; [done|done|apply K]|by apply (chain_at_sbc s0)|exact En1|..].
    + cbn. rewrite length_insert. lia.
    + intros j f Hj Hge. apply (Hw j); [|lia]. cbn in Hj. rewrite Nat2Z.id in Hj.
      by rewrite list_lookup_insert_ne in Hj by lia.
    + rewrite Ed, <- app_assoc. exact Rm.
    + rewrite Ed, <- app_assoc. intros m2 s2 s3 U2 Es2 K2 (C2 & En2 & O2).
      eapply HQ; [exact U2|by rewrite Es2|by eapply balloc_keep_trans|].
      split_and!; [by apply (chain_at_sbc s0')|done|by eapply same_outside_trans].
Qed.
End spec.

(** What an unmount leaves on the device ([nova_save_blocknode_mappings_to_log]):
    the ranges of all free lists, in order, in the log of the block-node inode. *)

From stdpp Require Import strings.
From S2P Require Import Prelude CInt Crc32c NovaEnv RangeNode Pmem NovaState NovaMonad NovaLib.
From S2P Require Import Balloc BallocSpec BallocAlloc InodeMap NovaLayout PmemOps LogPage LogPageSpec.
From S2P Require Import LogPageSpec RangeLog.

Local Open Scope nova_scope.

(** The reserved inode that keeps the allocator state. *)
Definition blocknode_pi (s : nova) : Z := virt_addr (sbc s) + 4096 + 3 * 128.

(** A device whose first blocks are reserved and on which every read succeeds. *)
Record save_ctx `{NovaEnv} (s : nova) : Prop := {
  sv_log : log_ctx s;
  sv_start : forall i fl, free_lists s !! i = Some fl -> HEAD_RESERVED_BLOCKS <= block_start fl;
  sv_size : HEAD_RESERVED_BLOCKS * 4096 <= initsize (sbc s);
  sv_read : forall a n, memcpy_mcsafe_rc a n = 0
}.

(** The device after [l] was saved in the pages [bs]. *)
Record saved `{NovaEnv} (s s' : nova) (bs : list Z) (l : list entry) : Prop := {
  sd_sbc : sbc s' = sbc s;
  sd_keep : balloc_keep s s';
  sd_chain : chain_at s (nvmm s') bs;
  sd_entries : entries_at s (nvmm s') bs l;
  sd_room : room bs (length l);
  sd_head : load 8 (nvmm s') (blocknode_pi s + 64) = page_off (default 0 (head bs));
  sd_tail : load 8 (nvmm s') (blocknode_pi s + 72) = tail_of bs (length l);
  sd_ahead : load 8 (nvmm s') (blocknode_pi s + 80) = 0;
  sd_atail : load 8 (nvmm s') (blocknode_pi s + 88) = 0;
  sd_frame : forall x, (forall b, b ∈ bs -> ~ in_page s b x) ->
    ~ (blocknode_pi s + 64 <= x < blocknode_pi s + 96) -> mget (nvmm s') x = mget (nvmm s) x
}.

Lemma foldl_sum {A} (f : A -> Z) l acc :
  0 <= acc -> Forall (fun x => 0 <= f x) l -> acc + sumZ f l < 2 ^ 64 ->
  foldl (fun a x => u64 (a + f x)) acc l = acc + sumZ f l.
Proof.
  revert acc. induction l as [|x l IH]; intros acc Ha F Hs; [cbn; lia|].
  apply Forall_cons in F as [Fx F]. rewrite sumZ_cons in *. cbn [foldl].
  pose proof (sumZ_nonneg f l F). rewrite uwrap_small by lia. rewrite IH by (auto; lia). lia.
Qed.

Section spec.
Context `{NovaEnv, RbLibOk}.

(** ** Publishing *)
Lemma wp_publish m s0 s pi new_block tail (Q : unit -> nova -> Prop) :
  mem_upd m s0 s -> device_ok s0 -> virt_addr (sbc s0) <= pi ->
  pi + 128 <= virt_addr (sbc s0) + initsize (sbc s0) -> 0 <= new_block < 2 ^ 64 -> 0 <= tail < 2 ^ 64 ->
  (forall m' s', mem_upd m' s0 s' -> load 8 m' (pi + 64) = new_block -> load 8 m' (pi + 72) = tail ->
     load 8 m' (pi + 80) = 0 -> load 8 m' (pi + 88) = 0 ->
     (forall x, ~ (pi + 64 <= x < pi + 96) -> mget m' x = mget m x) -> Q tt s') ->
  wp (publish_log pi new_block tail) Q s.
Proof.
  intros U (Hv & Hsz & _) Hlo Hhi Hnb Ht HQ. unfold publish_log, nova_update_tail, pstore_field.
  change (sizeof_field nova_inode "alter_log_tail") with 8%nat.
  change (sizeof_field nova_inode "alter_log_head") with 8%nat.
  change (sizeof_field nova_inode "log_head") with 8%nat.
  change (sizeof_field nova_inode "log_tail") with 8%nat.
  assert (field_addr nova_inode pi "alter_log_tail" = pi + 88) as -> by done.
  assert (field_addr nova_inode pi "alter_log_head" = pi + 80) as -> by done.
  assert (field_addr nova_inode pi "log_head" = pi + 64) as -> by done.
  assert (field_addr nova_inode pi "log_tail" = pi + 72) as -> by done.
  assert (forall k, 64 <= k <= 88 -> in_pmem s0 (pi + k) 8 = true) as I
    by (intros; apply in_pmem_spec; cbn; lia).
  apply wp_bind. eapply wp_memunlock; [exact U|unfold NOVA_INODE_SIZE; lia..|]. intros s1 U1 W1.
  apply wp_bind. eapply wp_pstore; [exact U1|done|apply I; lia|]. intros s2 U2 W2.
  apply wp_bind. eapply wp_pstore; [exact U2|done|apply I; lia|]. intros s3 U3 W3.
  apply wp_bind. eapply wp_pstore; [exact U3|done|apply I; lia|]. intros s4 U4 W4.
  apply wp_bind. apply wp_bind. eapply wp_barrier; [exact U4|]. intros s5 U5 W5. rewrite W4 in W5.
  apply wp_bind. eapply wp_pstore; [exact U5|done|apply I; lia|]. intros s6 U6 W6.
  eapply wp_flush; [exact U6|done|done|]. intros s7 U7 W7.
  apply wp_bind. eapply wp_flush; [exact U7|done|done|]. intros s8 U8 W8.
  eapply wp_memlock; [exact U8|]. intros s9 U9.
  eapply HQ; [exact U9|..].
  - rewrite load_store_other by (left; cbn; lia). by apply load_store_same.
  - by apply load_store_same.
  - rewrite !load_store_other by (cbn; lia). by apply load_store_same.
  - rewrite !load_store_other by (cbn; lia). by apply load_store_same.
  - intros x Hx. rewrite !mget_store_out; [done|cbn; lia..].
Qed.

(** ** Counting *)
Lemma length_list_entries c fls :
  (forall fl, fl ∈ fls -> fl_wf c fl) ->
  Z.of_nat (length (list_entries fls)) = sumZ num_blocknode fls.
Proof.
  unfold list_entries. induction fls as [|fl fls IH]; intros W; [done|].
  rewrite fmap_cons, sumZ_cons. cbn [concat]. rewrite length_app, length_fmap, Nat2Z.inj_add, IH by set_solver.
  by rewrite (fl_num_nodes c fl) by (apply W; set_solver).
Qed.

Lemma rangenode_pages_spec n :
  0 <= n -> rangenode_pages n * 254 < n + 254 /\ n <= rangenode_pages n * 254.
Proof.
  intros Hn. unfold rangenode_pages, RANGENODE_PER_PAGE.
  pose proof (Z.div_mod n 254 ltac:(lia)). pose proof (Z.mod_pos_bound n 254 ltac:(lia)).
  destruct (Z.eqb_spec (n mod 254) 0); lia.
Qed.

Lemma alloc_wf_elem s fl : alloc_wf s -> fl ∈ free_lists s -> fl_wf (alloc_clock s) fl.
Proof. intros W [i Hi]%list_elem_of_lookup. by eapply (aw_list _ W). Qed.

Lemma save_count s :
  alloc_wf s -> total_nodes s < 2 ^ 64 ->
  foldl (fun acc fl => u64 (acc + num_blocknode fl)) 0 (take (Z.to_nat (cpus (sbc s))) (free_lists s))
  = total_nodes s.
Proof.
  intros W Ht. rewrite take_ge by (pose proof (aw_len _ W); lia).
  rewrite foldl_sum; [done|lia| |unfold total_nodes in Ht; lia].
  apply Forall_forall. intros fl Hfl. pose proof (fl_wf_counts _ _ (alloc_wf_elem _ _ W Hfl)). lia.
Qed.

Lemma node_fits_list s fl :
  alloc_wf s -> fl ∈ free_lists s ->
  NoDup (fl_nodes fl).*1 /\ Forall (fun x => node_fits 0 x.2) (fl_nodes fl).
Proof.
  intros W Hfl. pose proof (alloc_wf_elem _ _ W Hfl) as Wf. destruct (fl_tree _ _ Wf) as [[_ Ws] ND C].
  split; [done|]. pose proof (fl_bounds _ _ Wf) as FB. pose proof (fl_start _ _ Wf). pose proof (fl_end _ _ Wf).
  fold (fl_nodes fl) in *. rewrite Forall_forall in *. intros [p n] Hx.
  specialize (FB _ Hx). specialize (Ws _ Hx). cbn in *. unfold node_fits, tagged. cbn.
  split_and!; try lia. by eapply csums_ok_elem.
Qed.

(** ** Saving the free lists *)
Lemma blocknode_pi_eq s : nova_get_inode_by_ino s NOVA_BLOCKNODE_INO = blocknode_pi s.
Proof. unfold blocknode_pi. rewrite <- Z.add_assoc. reflexivity. Qed.

(** The pages written before the log is published keep their contents. *)
Lemma publish_saved s s' m bs l :
  sbc s' = sbc s -> balloc_keep s s' -> (forall c, c ∈ bs -> HEAD_RESERVED_BLOCKS <= c) ->
  appended s (nvmm s) m bs l -> room bs (length l) ->
  load 8 (nvmm s') (blocknode_pi s + 64) = page_off (default 0 (head bs)) ->
  load 8 (nvmm s') (blocknode_pi s + 72) = tail_of bs (length l) ->
  load 8 (nvmm s') (blocknode_pi s + 80) = 0 -> load 8 (nvmm s') (blocknode_pi s + 88) = 0 ->
  (forall x, ~ (blocknode_pi s + 64 <= x < blocknode_pi s + 96) -> mget (nvmm s') x = mget m x) ->
  saved s s' bs l.
Proof.
  intros Es K Hbl (Ch & En & O) Rm L1 L2 L3 L4 F.
  assert (Hpi : forall x c, c ∈ bs -> in_page s c x -> ~ (blocknode_pi s + 64 <= x < blocknode_pi s + 96)).
  { intros x c Hc Hx. specialize (Hbl c Hc).
    unfold in_page, blocknode_pi, page_off, HEAD_RESERVED_BLOCKS in *. lia. }
  split; auto.
  - destruct Ch as [X1 X2 X3 X4]. split; auto. unfold log_chain in *.
    apply (linked_to_ext _ m); [done|]. intros p (c & -> & Hc)%list_elem_of_fmap.
    apply load_ext. intros x Hx. apply F. apply (Hpi x c Hc).
    unfold in_page, log_link in *. change (Z.of_nat 8) with 8 in Hx. lia.
  - intros j e Hj. destruct (En j e Hj) as [E1 E2]. rewrite <- E1, <- E2.
    pose proof (lookup_lt_Some _ _ _ Hj) as Hlt. unfold room in Rm.
    destruct (slot_page bs j ltac:(lia)) as (c & Hc & Esl & Rc). apply list_elem_of_lookup_2 in Hc.
    split; apply load_ext; intros x Hx; apply F; apply (Hpi x c Hc);
      unfold in_page; change (Z.of_nat 8) with 8 in Hx; rewrite Esl in Hx; lia.
  - intros x Hx1 Hx2. by rewrite F, O.
Qed.

Lemma tail_range s m bs k :
  device_ok s -> chain_at s m bs -> bs <> [] -> room bs k -> 0 < tail_of bs k < 2 ^ 64.
Proof.
  intros (Hv & Hsz & _) Ch Hne Rm. unfold room in Rm.
  assert (0 < length bs)%nat by (destruct bs; [done|cbn; lia]).
  destruct k as [|j]; cbn [tail_of];
    [destruct (chain_slot_ok _ _ _ 0 Ch ltac:(lia))|destruct (chain_slot_ok _ _ _ j Ch ltac:(lia))]; lia.
Qed.

(** Writing the entries and publishing the log, on the pages taken for it. *)
Lemma save_pages_run s s1 b bs :
  save_ctx s -> log_taken s s1 (b :: bs) ->
  let l := list_entries (free_lists s1) in
  room (b :: bs) (length l) ->
  wp (let! temp_tail := save_loop (Z.to_nat (cpus (sbc s))) 0 nova_save_free_list_blocknodes
      (page_off b) in publish_log (blocknode_pi s) (page_off b) temp_tail)
    (fun _ s' => saved s s' (b :: bs) l) s1.
Proof.
  intros [C Hst Hsize Hrd] T l Rm. set (bl := b :: bs) in *. pose proof (lc_dev _ C) as D.
  pose proof (lt_ctx _ _ _ T) as C1. pose proof (lt_sbc _ _ _ T) as Es1. pose proof (lc_alloc _ C1) as W1.
  assert (Hbl : forall c, c ∈ bl -> HEAD_RESERVED_BLOCKS <= c).
  { intros c Hc. apply (lt_from _ _ _ T) in Hc. apply existsb_lookup in Hc as (i & fl & Hi & Hf).
    apply (fl_free_bounds _ _ _ (aw_list _ (lc_alloc _ C) _ _ Hi)) in Hf. specialize (Hst _ _ Hi). lia. }
  assert (chain_at s (nvmm s1) bl) as Ch by (split; [apply T|apply T|intros; apply Hrd|apply T]).
  pose proof (aw_len _ W1) as Hln. rewrite Es1 in Hln.
  apply wp_bind. replace (page_off b) with (tail_of bl (length (@nil entry))) at 1.
  2: { cbn. unfold slot. cbn. lia. }
  change 0 with (Z.of_nat 0) at 1.
  eapply (wp_save_free_lists bl _ 0 s1 s1 (nvmm s1) []); [apply mem_upd_refl|apply C1| | |lia|..].
  - by apply (chain_at_sbc s).
  - intros j e Hj. done.
  - intros j fl Hj _. apply (node_fits_list s1); [done|]. by eapply list_elem_of_lookup_2.
  - exact Rm.
  - rewrite drop_0. cbn [app]. fold l. intros m' s2 s3 U3 Es2 K (Ch2 & En2 & O2).
    assert (sbc s2 = sbc s) as Es2' by congruence.
    pose proof (balloc_keep_trans _ _ _ (lt_keep _ _ _ T) K) as K2.
    destruct (lt_ok _ _ _ T b ltac:(set_solver)) as [Pb1 Pb2].
    eapply wp_publish; [exact U3|eapply device_ok_keep; [exact D|done|apply K2]
      |rewrite Es2'; unfold blocknode_pi, HEAD_RESERVED_BLOCKS in *; lia..
      |destruct D as (Hv & Hsz & _); unfold page_off in *; lia
      |pose proof (tail_range _ _ bl _ D Ch ltac:(done) Rm); lia|].
    intros m4 s4 U4 L1 L2 L3 L4 F4. pose proof (mem_upd_nvmm _ _ _ U4) as E4.
    apply (publish_saved _ _ m'); rewrite ?E4; auto.
    + by rewrite (mem_upd_sbc _ _ _ U4).
    + eapply balloc_keep_trans; [exact K2|]. by eapply mem_upd_balloc.
    + split_and!; [by apply (chain_at_sbc s1)|unfold entries_at in *; by rewrite Es1 in En2|].
      intros x Hx. rewrite O2, (lt_mem _ _ _ T); [done|done|].
      intros c Hc. specialize (Hx c Hc). unfold in_page in *. by rewrite Es1.
Qed.

Lemma save_blocknodes_run s :
  save_ctx s -> 0 < total_nodes s < 2 ^ 31 ->
  exists s1 bs, log_taken s s1 bs /\
   ((Z.of_nat (length bs) <> rangenode_pages (total_nodes s) /\
     nova_save_blocknode_mappings_to_log s = Ok tt s1) \/
    (exists s', nova_save_blocknode_mappings_to_log s = Ok tt s' /\
       Z.of_nat (length bs) = rangenode_pages (total_nodes s) /\
       saved s s' bs (list_entries (free_lists s1)))).
Proof.
  intros [C Hst Hsize Hrd] Hn. pose proof (lc_alloc _ C) as W. pose proof (lc_dev _ C) as D.
  pose proof (rangenode_pages_spec (total_nodes s) ltac:(lia)) as Hp.
  set (np := rangenode_pages (total_nodes s)) in *.
  destruct (allocate_log_pages_run s np 0 ANY_CPU ALLOC_FROM_HEAD C)
    as (r & nb & s1 & bs & E & T & Hr); [left; split; [done|apply C]|lia|].
  exists s1, bs. split; [done|]. unfold nova_save_blocknode_mappings_to_log.
  rewrite (bind_ok _ _ _ (blocknode_pi s) s) by (unfold gets; by rewrite blocknode_pi_eq).
  rewrite (bind_ok _ _ _ (cpus (sbc s)) s) by done. rewrite (bind_ok _ _ _ (free_lists s) s) by done.
  rewrite save_count by (auto; lia). fold np. rewrite (bind_ok _ _ _ _ _ E).
  destruct bs as [|b bs].
  { destruct Hr as [-> ->]. left. split; [cbn; lia|].
    rewrite (proj2 (Z.eqb_neq _ np)); [done|]. change (u64 (- ENOSPC)) with (2 ^ 64 - 28). lia. }
  destruct Hr as (-> & -> & Hr). set (bl := b :: bs) in *.
  assert (Z.of_nat (length bl) <= np) as Hle by (destruct Hr as [->|[? _]]; lia).
  rewrite uwrap_small by lia. destruct (Z.eqb_spec (Z.of_nat (length bl)) np) as [Enp|Hne];
    cbn [negb]; [right|by left].
  pose proof (lt_ctx _ _ _ T) as C1. pose proof (lt_sbc _ _ _ T) as Es1.
  set (l := list_entries (free_lists s1)).
  assert (Z.of_nat (length l) = total_nodes s1) as Hlen.
  { apply (length_list_entries (alloc_clock s1)). intros fl. apply alloc_wf_elem, C1. }
  assert (room bl (length l)) as Rm.
  { unfold room. pose proof (lt_nodes _ _ _ T). lia. }
  pose proof (save_pages_run s s1 b bs (Build_save_ctx _ _ C Hst Hsize Hrd) T Rm) as Wp.
  apply wp_run in Wp as ([] & s' & Ew & Sv). exists s'. by split_and!.
Qed.
End spec.

(** What a mount rebuilds from a saved log ([nova_init_blockmap_from_inode]),
    and the round trip through unmount and mount. *)

From stdpp Require Import strings.
From S2P Require Import Prelude CInt Crc32c NovaEnv RangeNode Pmem NovaState NovaMonad NovaLib.
From S2P Require Import Balloc BallocSpec BallocAlloc InodeMap NovaLayout PmemOps LogPage LogPageSpec.
From S2P Require Import LogPageSpec RangeLog.

Local Open Scope nova_scope.

(** The blocks a sequence of entries stands for. *)
Definition in_entries (l : list entry) (b : Z) : bool :=
  existsb (fun e => (e.1 <=? b) && (b <=? e.2)) l.

(** An entry that fits in one of the lists. *)
Definition entry_home (s : nova) (e : entry) : Prop :=
  e.1 <= e.2 /\
  exists i fl, free_lists s !! i = Some fl /\ block_start fl <= e.1 /\ e.2 <= block_end fl.

Definition entries_sorted (l : list entry) : Prop := StronglySorted (fun x y => x.2 < y.1) l.

Lemma in_entries_app l1 l2 b : in_entries (l1 ++ l2) b = in_entries l1 b || in_entries l2 b.
Proof. apply existsb_app. Qed.

Lemma tail_inj bs k1 k2 :
  NoDup bs -> bs <> [] -> room bs k1 -> room bs k2 -> tail_of bs k1 = tail_of bs k2 -> k1 = k2.
Proof.
  unfold room. intros ND Hne R1 R2 E. assert (0 < length bs)%nat by (destruct bs; [done|cbn; lia]).
  assert (forall j, (j < 254 * length bs)%nat -> slot bs 0 <> slot bs j + 16) as Hz.
  { intros j Hj E0. destruct (slot_page bs 0 ltac:(lia)) as (b & _ & E1 & _).
    destruct (slot_page bs j Hj) as (c & _ & E2 & Rc).
    change (Z.of_nat (0 mod 254) * 16) with 0 in E1. unfold page_off in *. lia. }
  destruct k1 as [|i], k2 as [|j]; cbn [tail_of] in E; [done| | |].
  - by destruct (Hz j).
  - by destruct (Hz i).
  - destruct (decide (i = j)) as [->|Hij]; [done|].
    pose proof (slot_inj bs i j ND ltac:(lia) ltac:(lia) Hij). lia.
Qed.

Section spec.
Context `{NovaEnv, RbLibOk}.

(** [s] is [s0] with the entries [l] loaded into the free lists. *)
Record loaded (s0 s : nova) (l : list entry) : Prop := {
  ld_wf : alloc_wf s;
  ld_sbc : sbc s = sbc s0;
  ld_nvmm : nvmm s = nvmm s0;
  ld_maps : inode_maps s = inode_maps s0;
  ld_plb : per_list_blocks s = per_list_blocks s0;
  ld_keep : balloc_keep s0 s;
  ld_free : forall b, free_block s b = in_entries l b
}.

Lemma freed_core c fl fl' fl'' low high :
  freed c fl fl' low high -> same_core fl' fl'' -> freed c fl fl'' low high.
Proof.
  intros [] S. pose proof S as (E1 & E2 & E3 & E4 & E5 & E6 & E7). split; try congruence.
  - by eapply fl_wf_same_core.
  - intros b. by rewrite (fl_free_core _ _ _ S).
Qed.

(** A range above all free blocks is appended to its list. *)
Lemma append_range c fl low high :
  fl_wf c fl -> low <= high -> block_start fl <= low -> high <= block_end fl ->
  (forall b, fl_free fl b = true -> b < low) ->
  let n := nova_update_range_node_checksum (set_range_high high (set_range_low low zeroed_node)) in
  exists t, nova_insert_blocktree (block_free_tree fl) c n = (0, t) /\
    let fl1 := set_num_blocknode (u64 (num_blocknode fl + 1)) (set_block_free_tree t fl) in
    let fl1 := if num_blocknode fl1 =? 1 then set_first_node (Some c) fl1 else fl1 in
    let fl1 := set_last_node (Some c) fl1 in
    freed c fl (set_num_free_blocks (u64 (num_free_blocks fl1 + (high - low + 1))) fl1) low high.
Proof.
  intros W Hlh Hs He Hb n.
  assert (free_slot NODE_BLOCK (block_free_tree fl) low high (fl_nodes fl) []) as SL.
  { split_and!; [by rewrite app_nil_r| |constructor]. apply Forall_forall. intros x Hx. cbn.
    destruct (fl_tree _ _ W) as [[_ Ws] _ _]. rewrite Forall_forall in Ws. specialize (Ws x Hx). cbn in Ws.
    apply Hb. apply covered_spec. exists x. split; [done|lia]. }
  destruct (absorb_none c fl low high _ _ W Hlh Hs He SL) as (t & Et & Ad). exists t. split; [exact Et|].
  apply (added_freed _ _ _ _ _ true W Hlh) in Ad. eapply freed_core; [exact Ad|].
  pose proof (fl_wf_counts _ _ W) as [_ Hc]. pose proof (fl_num_nodes _ _ W) as Hn.
  change (num_blocknode (set_num_blocknode (u64 (num_blocknode fl + 1)) (set_block_free_tree t fl)))
    with (u64 (num_blocknode fl + 1)).
  rewrite (uwrap_small 64 (num_blocknode fl + 1)) by lia. cbn [head]. destruct (last (fl_nodes fl)) as [x|] eqn:El.
  - rewrite (proj2 (Z.eqb_neq _ 1)).
    2: { rewrite Hn. destruct (fl_nodes fl); [done|cbn; lia]. }
    unfold same_core, fl_found. cbn. repeat split. by rewrite uwrap_small by lia.
  - apply last_None in El. rewrite El in Hn. cbn in Hn. rewrite Hn.
    unfold same_core, fl_found. cbn. rewrite Hn. by repeat split.
Qed.

Lemma load_blocknode_run s0 s l e p :
  loaded s0 s l -> device_ok s0 -> entry_home s0 e -> (forall x, x ∈ l -> x.2 < e.1) ->
  kmem_cache_zalloc_ok (alloc_clock s) = true -> 0 < p -> p + 16 <= initsize (sbc s0) ->
  load 8 (nvmm s0) (virt_addr (sbc s0) + p) = e.1 ->
  load 8 (nvmm s0) (virt_addr (sbc s0) + p + 8) = e.2 ->
  exists s', load_blocknode p s = Ok 0 s' /\ loaded s0 s' (l ++ [e]).
Proof.
  intros L D [Hlh (i & fl0 & Hi0 & Hs0 & He0)] Hab Hk Hp0 Hp1 L1 L2.
  pose proof (ld_wf _ _ _ L) as W. pose proof (ld_sbc _ _ _ L) as Es.
  destruct (home_lookup _ _ _ _ (keep_home _ _ (ld_keep _ _ _ L)) Hi0) as (fl & Hi & [= Eb1 Eb2]).
  rewrite <- Eb1 in Hs0. rewrite <- Eb2 in He0.
  assert (list_at s (Z.of_nat i) fl) as At by (split; [lia|by rewrite Nat2Z.id]).
  pose proof (aw_list _ W _ _ Hi) as Wf. pose proof (aw_home _ W _ _ Hi) as Hh.
  pose proof (aw_plb _ W) as Hplb. pose proof (aw_cpus _ W). pose proof (list_at_cpu _ _ _ W At) as Hci.
  destruct (append_range (alloc_clock s) fl e.1 e.2 Wf Hlh Hs0 He0) as (t & Et & F).
  { intros b Hb. assert (free_block s b = true) as Hfb
      by (apply existsb_lookup; by exists i, fl). rewrite (ld_free _ _ _ L) in Hfb.
    apply existsb_exists in Hfb as (x & Hx%list_elem_of_In & Hx2). specialize (Hab x Hx). zify_bool. lia. }
  destruct D as (Hv & Hsz & _). unfold load_blocknode.
  rewrite (bind_ok _ _ _ (virt_addr (sbc s0) + p) s) by (unfold gets; by rewrite slot_block, Es by lia).
  rewrite (bind_ok _ _ _ (Some (alloc_clock s)) (bump s))
    by (unfold nova_alloc_blocknode, nova_alloc_range_node, kmem_cache_zalloc, bind; by rewrite Hk).
  assert (forall a, in_pmem s0 a 8 = true -> pload 8 a (bump s) = Ok (load 8 (nvmm s0) a) (bump s)) as Hld.
  { intros a Ha. unfold pload, in_pmem in *. change (sbc (bump s)) with (sbc s). rewrite Es, Ha.
    change (nvmm (bump s)) with (nvmm s). by rewrite (ld_nvmm _ _ _ L). }
  unfold pload_field. change (sizeof_field nova_range_node_lowhigh "range_low") with 8%nat.
  change (sizeof_field nova_range_node_lowhigh "range_high") with 8%nat.
  set (a := virt_addr (sbc s0) + p) in *.
  assert (field_addr nova_range_node_lowhigh a "range_low" = a) as -> by apply Z.add_0_r.
  assert (field_addr nova_range_node_lowhigh a "range_high" = a + 8) as -> by done.
  rewrite (bind_ok _ _ _ _ _ (Hld a ltac:(apply in_pmem_spec; cbn; lia))).
  rewrite (bind_ok _ _ _ _ _ (Hld (a + 8) ltac:(apply in_pmem_spec; cbn; lia))), L1, L2.
  autorewrite with node. rewrite (bind_ok _ _ _ (Z.of_nat i) (bump s)).
  2: { unfold get_block_cpuid, bind, gets. change (per_list_blocks (bump s)) with (per_list_blocks s).
       rewrite (proj2 (Z.eqb_neq _ _)) by lia.
       assert (e.1 / per_list_blocks s = Z.of_nat i) as ->.
       { symmetry. apply (Z.div_unique _ _ _ (e.1 - per_list_blocks s * Z.of_nat i)); lia. }
       unfold ret. by rewrite swrap_small by lia. }
  rewrite (bind_ok _ _ _ fl (bump s)) by (by apply get_free_list_run). rewrite Et.
  cbn [negb Z.eqb]. rewrite (bind_ok _ _ _ _ _ (put_free_list_run _ _ _)).
  eexists. split; [reflexivity|].
  pose proof (freed_effect _ _ _ _ _ _ W At F) as Eff.
  destruct (fe_frame _ _ _ _ Eff) as (X1 & X2 & _ & X3 & _ & _ & X4).
  destruct L. split; try (by apply Eff); try (etransitivity; [eassumption|done]).
  - eapply balloc_keep_trans; [eassumption|]. apply Eff.
  - intros b. etransitivity; [apply (fe_free _ _ _ _ Eff b)|]. rewrite ld_free0, in_entries_app. f_equal.
    cbn. rewrite orb_false_r. unfold in_blocks. f_equal.
    replace (e.1 + (e.2 - e.1 + 1)) with (e.2 + 1) by lia. bool_lia.
Qed.

(** ** The walk over the saved entries *)
Lemma entry_room s m bs (l : list entry) :
  chain_at s m bs -> room bs (length l) -> 0 <= initsize (sbc s) -> (length l <= entry_fuel s)%nat.
Proof.
  intros C Rm Hsz. pose proof (log_pages_bound s bs (ca_nodup _ _ _ C) (ca_ok _ _ _ C) Hsz) as Hb.
  unfold room, chain_fuel, entry_fuel, PAGE_SIZE in *.
  assert (0 <= initsize (sbc s) / 4096) by (apply Z.div_pos; lia).
  assert (256 * (initsize (sbc s) / 4096) <= initsize (sbc s) / 16).
  { apply Z.div_le_lower_bound; [lia|]. pose proof (Z.mul_div_le (initsize (sbc s)) 4096). lia. }
  lia.
Qed.

Lemma loaded_device s0 s l : loaded s0 s l -> device_ok s0 -> device_ok s.
Proof. intros L D. eapply device_ok_keep; [exact D|apply L|apply (ld_keep _ _ _ L)]. Qed.

Lemma load_blocknodes_run s0 bs l :
  device_ok s0 -> chain_at s0 (nvmm s0) bs -> entries_at s0 (nvmm s0) bs l ->
  room bs (length l) -> bs <> [] -> Forall (entry_home s0) l -> entries_sorted l ->
  (forall p, (alloc_clock s0 <= p)%positive -> kmem_cache_zalloc_ok p = true) ->
  forall rest pre fuel s, l = pre ++ rest -> (length rest <= fuel)%nat -> loaded s0 s pre ->
  exists s', load_blocknodes fuel (tail_of bs (length pre)) (tail_of bs (length l)) s = Ok 0 s' /\
    loaded s0 s' l.
Proof.
  intros D C En Rm Hne Fh Srt Hk. induction rest as [|e rest IH]; intros pre fuel s El Hf L.
  - rewrite app_nil_r in El. subst pre. exists s. split; [|done]. destruct fuel; cbn; by rewrite Z.eqb_refl.
  - destruct fuel as [|fuel]; [cbn in Hf; lia|]. cbn [load_blocknodes length] in *.
    assert (length l = length pre + S (length rest))%nat as Hlen by (rewrite El, length_app; done).
    unfold room in Rm. rewrite (proj2 (Z.eqb_neq _ _)).
    2: { intros E%tail_inj; [lia|apply C|done|unfold room; lia..]. }
    change (sizeof nova_range_node_lowhigh) with 16.
    pose proof (wp_next_entry (nvmm s) s s bs (length pre) (fun p s' => p = slot bs (length pre) /\ s' = s)
      (mem_upd_refl s) (loaded_device _ _ _ L D)) as Wn.
    apply wp_run in Wn as (p & s' & En' & -> & ->); [| |lia|by split].
    2: { rewrite (ld_nvmm _ _ _ L). apply (chain_at_sbc s0); [apply L|done]. }
    rewrite (bind_ok _ _ _ _ _ En').
    destruct (chain_slot_ok _ _ _ (length pre) C ltac:(lia)) as [S1 S2].
    rewrite (proj2 (Z.eqb_neq _ _)) by lia.
    assert (l !! length pre = Some e) as Hle by (rewrite El; by rewrite list_lookup_middle).
    destruct (En _ _ Hle) as [L1 L2].
    destruct (load_blocknode_run s0 s pre e (slot bs (length pre)) L D) as (s1 & E1 & Ld1);
      [| |apply Hk, (ld_keep _ _ _ L)|lia|lia|done|done|].
    { rewrite Forall_forall in Fh. apply Fh. by eapply list_elem_of_lookup_2. }
    { intros x Hx. unfold entries_sorted in Srt. rewrite El in Srt.
      apply StronglySorted_app in Srt as (Hs & _ & _). apply Hs; set_solver. }
    rewrite (bind_ok _ _ _ _ _ E1). cbn [negb Z.eqb].
    destruct D as (Hv & Hsz & Hd). rewrite uwrap_small by lia.
    change (slot bs (length pre) + 16) with (tail_of bs (S (length pre))).
    replace (S (length pre)) with (length (pre ++ [e])) by (rewrite length_app; cbn; lia).
    apply IH; [by rewrite <- app_assoc|lia|done].
Qed.

(** ** The saved entries of a well-formed allocator *)
Lemma in_list_entries fls b :
  in_entries (list_entries fls) b = existsb (fun fl => fl_free fl b) fls.
Proof.
  unfold list_entries. induction fls as [|fl fls IH]; [done|]. rewrite fmap_cons. cbn [concat existsb].
  rewrite in_entries_app, IH. f_equal. unfold fl_free, in_entries, covered.
  induction (fl_nodes fl) as [|x l IHl]; [done|]. cbn [fmap list_fmap existsb]. by rewrite <- IHl.
Qed.

Lemma elem_list_entries fls e :
  e ∈ list_entries fls <-> exists i fl x, fls !! i = Some fl /\ x ∈ fl_nodes fl /\ e = entry_of 0 x.
Proof.
  unfold list_entries. rewrite list_elem_of_In, in_concat. setoid_rewrite <- list_elem_of_In.
  setoid_rewrite list_elem_of_fmap. split.
  - intros (l & (fl & -> & [i Hi]%list_elem_of_lookup) & (x & -> & Hx)%list_elem_of_fmap). eauto 7.
  - intros (i & fl & x & Hi & Hx & ->). eexists. split.
    + exists fl. split; [done|]. by eapply list_elem_of_lookup_2.
    + apply list_elem_of_fmap. eauto.
Qed.

Lemma list_entries_sorted c plb fls : forall k,
  (forall i fl, fls !! i = Some fl -> fl_wf c fl /\ (k + Z.of_nat i) * plb <= block_start fl /\
     block_end fl < (k + Z.of_nat i + 1) * plb) ->
  0 < plb -> entries_sorted (list_entries fls).
Proof.
  unfold list_entries, entries_sorted. induction fls as [|fl fls IH]; intros k Hw Hp; [constructor|].
  rewrite fmap_cons. cbn [concat]. apply StronglySorted_app. split_and!.
  - intros e f (x & -> & Hx)%list_elem_of_fmap Hf.
    apply (elem_list_entries fls) in Hf as (i & g & y & Hi & Hy & ->).
    destruct (Hw 0%nat fl eq_refl) as (W0 & _ & B0). destruct (Hw (S i) g Hi) as (W1 & B1 & _).
    pose proof (fl_bounds _ _ W0) as F0. pose proof (fl_bounds _ _ W1) as F1.
    rewrite Forall_forall in F0, F1. specialize (F0 _ Hx). specialize (F1 _ Hy). cbn. nia.
  - destruct (Hw 0%nat fl eq_refl) as [W _]. destruct (fl_tree _ _ W) as [[Ws _] _ _].
    fold (fl_nodes fl) in Ws. induction Ws as [|x l Ws IHl F]; [constructor|]. cbn. constructor; [done|].
    rewrite Forall_forall in F. apply Forall_forall.
    intros e (y & -> & Hy)%list_elem_of_fmap. by apply F.
  - apply (IH (k + 1)); [|done]. intros i f Hi. destruct (Hw (S i) f Hi) as (W & H1' & H2').
    split_and!; [done|lia..].
Qed.

Lemma list_entries_home s s2 :
  alloc_wf s -> home_bounds <$> free_lists s2 = home_bounds <$> free_lists s ->
  Forall (entry_home s2) (list_entries (free_lists s)).
Proof.
  intros W Eh. apply Forall_forall. intros e (i & fl & x & Hi & Hx & ->)%elem_list_entries.
  pose proof (aw_list _ W _ _ Hi) as Wf. pose proof (fl_bounds _ _ Wf) as F.
  destruct (fl_tree _ _ Wf) as [[_ Ws] _ _]. rewrite Forall_forall in F, Ws.
  specialize (F _ Hx). specialize (Ws _ Hx). cbn in Ws. split; [done|].
  apply (f_equal (.!! i)) in Eh. rewrite !list_lookup_fmap, Hi in Eh.
  destruct (free_lists s2 !! i) as [fl2|] eqn:E2; [|done]. cbn in Eh. injection Eh as E3 E4.
  exists i, fl2. rewrite E3, E4. split_and!; [done|apply F|apply F].
Qed.
End spec.
