(* ===== verification/RangeRoundtrip.v ===== *)
(** Unmount followed by mount: the free lists come back.

    Saving takes log pages from the allocator, so the saved lists lack them;
    loading rebuilds the saved lists and then gives the pages of the log back.
    Together they restore the set of free blocks there was before the
    unmount. *)

From stdpp Require Import strings.
From S2P Require Import Prelude CInt Crc32c NovaEnv RangeNode Pmem NovaState NovaMonad NovaLib.
From S2P Require Import Balloc BallocSpec BallocAlloc BallocInit InodeMap NovaLayout PmemOps LogPage LogPageSpec.
From S2P Require Import LogPageSpec RangeLog RangeLogSpec.

Local Open Scope nova_scope.

(** A freshly mounted instance on the device of [s]: the lists have their
    bounds and no ranges yet. *)
Record remounted `{NovaEnv} (s s2 : nova) : Prop := {
  rm_ctx : log_ctx s2;
  rm_sbc : sbc s2 = sbc s;
  rm_nvmm : nvmm s2 = nvmm s;
  rm_bounds : home_bounds <$> free_lists s2 = home_bounds <$> free_lists s;
  rm_blank : forall i fl, free_lists s2 !! i = Some fl -> fl_nodes fl = [];
  rm_clock : forall p, (alloc_clock s2 <= p)%positive -> kmem_cache_zalloc_ok p = true
}.

Section spec.
Context `{NovaEnv, RbLibOk}.

(** ** Reading the inode *)
Lemma load_slice m a N k n :
  (k + n <= N)%nat -> le_val (take n (drop k (load_bytes m a N))) = load n m (a + Z.of_nat k).
Proof.
  intros Hkn. replace N with (k + (n + (N - k - n)))%nat by lia. rewrite !load_bytes_app.
  rewrite drop_app_length' by (by rewrite length_load_bytes).
  rewrite take_app_length' by (by rewrite length_load_bytes). done.
Qed.

Lemma get_head_tail_run s pi sih :
  memcpy_mcsafe_rc pi 120 = 0 -> in_pmem s pi 120 = true ->
  nova_get_head_tail pi sih s
  = Ok (0, mkSih (sih_ino sih) (pi_addr sih) (alter_pi_addr sih) (load 1 (nvmm s) (pi + 3))
      (load 8 (nvmm s) (pi + 64)) (load 8 (nvmm s) (pi + 72)) (load 8 (nvmm s) (pi + 80))
      (load 8 (nvmm s) (pi + 88))) s.
Proof.
  intros Hrc Hin. unfold nova_get_head_tail. change (Z.to_nat (sizeof nova_inode)) with 120%nat.
  rewrite (bind_ok _ _ _ (0, load_bytes (nvmm s) pi 120) s).
  - cbn [fst snd negb Z.eqb]. unfold ret. cbv zeta. do 3 f_equal.
    all: rewrite load_slice; [done|vm_compute; lia].
  - unfold memcpy_mcsafe. change (Z.of_nat 120) with 120. rewrite Hrc. cbn [negb Z.eqb].
    by rewrite (bind_ok _ _ _ (load_bytes (nvmm s) pi 120) s) by (unfold pload_bytes; by rewrite Hin).
Qed.

(** ** Releasing the log of an inode *)
Lemma wp_update_checksum m s0 s pi (Q : Z -> nova -> Prop) :
  mem_upd m s0 s -> writable s = true -> virt_addr (sbc s0) <= pi ->
  pi + 128 <= virt_addr (sbc s0) + initsize (sbc s0) ->
  (forall m' s', mem_upd m' s0 s' -> writable s' = true ->
     (forall x, ~ (pi + 116 <= x < pi + 120) -> mget m' x = mget m x) -> Q 0 s') ->
  wp (nova_update_inode_checksum pi) Q s.
Proof.
  intros U W Hlo Hhi HQ. unfold nova_update_inode_checksum. apply wp_bind.
  assert (forall k : unit -> nova -> Prop, (forall m' s', mem_upd m' s0 s' -> writable s' = true ->
     (forall x, ~ (pi + 116 <= x < pi + 120) -> mget m' x = mget m x) -> k tt s') ->
    wp (if metadata_csum =? 0 then ret tt
        else let! crc := inode_crc pi in pstore_field nova_inode pi "csum" crc) k s) as Hc.
  { intros k Hk. destruct (metadata_csum =? 0); [by apply wp_ret, (Hk m)|].
    apply wp_bind. unfold inode_crc. apply wp_bind.
    eapply wp_pload_bytes; [exact U|apply in_pmem_spec; vm_compute Z.to_nat; lia|]. apply wp_ret.
    unfold pstore_field. change (sizeof_field nova_inode "csum") with 4%nat.
    assert (field_addr nova_inode pi "csum" = pi + 116) as -> by done.
    eapply wp_pstore; [exact U|done|apply in_pmem_spec; cbn; lia|]. intros s' U' W'.
    eapply Hk; [exact U'|done|]. intros x Hx. rewrite mget_store_out; [done|cbn; lia]. }
  apply Hc. clear Hc. intros m1 s1 U1 W1 F1. apply wp_bind. change (sizeof nova_inode) with 120.
  eapply wp_flush; [exact U1|done|done|]. intros s2 U2 W2. apply wp_ret.
  eapply HQ; [exact U2|congruence|done].
Qed.

(** Clearing an inode that has no replica. *)
Lemma wp_clear_log s pi sih (Q : unit -> nova -> Prop) :
  alter_pi_addr sih = 0 ->
  device_ok s -> virt_addr (sbc s) <= pi -> pi + 128 <= virt_addr (sbc s) + initsize (sbc s) ->
  (forall m' s', mem_upd m' s s' -> load 8 m' (pi + 64) = 0 -> load 8 m' (pi + 72) = 0 ->
     (forall x, ~ (pi <= x < pi + 128) -> mget m' x = mget (nvmm s) x) -> Q tt s') ->
  wp (clear_log pi sih) Q s.
Proof.
  intros Ha0 (Hv & Hsz & _) Hlo Hhi HQ. unfold clear_log, pstore_field. rewrite Ha0.
  change (sizeof_field nova_inode "alter_log_tail") with 8%nat.
  change (sizeof_field nova_inode "alter_log_head") with 8%nat.
  change (sizeof_field nova_inode "log_head") with 8%nat.
  change (sizeof_field nova_inode "log_tail") with 8%nat.
  assert (field_addr nova_inode pi "alter_log_tail" = pi + 88) as -> by done.
  assert (field_addr nova_inode pi "alter_log_head" = pi + 80) as -> by done.
  assert (field_addr nova_inode pi "log_head" = pi + 64) as -> by done.
  assert (field_addr nova_inode pi "log_tail" = pi + 72) as -> by done.
  assert (forall k, 64 <= k <= 88 -> in_pmem s (pi + k) 8 = true) as I
    by (intros; apply in_pmem_spec; cbn; lia).
  apply wp_bind. eapply wp_memunlock; [apply mem_upd_refl|unfold NOVA_INODE_SIZE; lia..|]. intros s1 U1 W1.
  apply wp_bind. eapply wp_pstore; [exact U1|done|apply I; lia|]. intros s2 U2 W2.
  apply wp_bind. eapply wp_pstore; [exact U2|done|apply I; lia|]. intros s3 U3 W3.
  apply wp_bind. eapply wp_pstore; [exact U3|done|apply I; lia|]. intros s4 U4 W4.
  apply wp_bind. eapply wp_pstore; [exact U4|done|apply I; lia|]. intros s5 U5 W5.
  apply wp_bind. eapply wp_update_checksum; [exact U5|done..|]. intros m6 s6 U6 W6 F6.
  apply wp_bind.
  assert (forall k : unit -> nova -> Prop, k tt s6 -> wp (if negb (metadata_csum =? 0) then
     let! alter_pi := gets (fun s => nova_get_block s 0) in
     if negb (alter_pi =? 0) then
       let! l := pload_bytes (Z.to_nat (sizeof nova_inode)) pi in
       let! _ := memcpy_to_pmem_nocache alter_pi l in ret tt
     else ret tt
   else ret tt) k s6) as Ha by (intros k Hk; by destruct (metadata_csum =? 0)).
  apply Ha. eapply wp_memlock; [exact U6|]. intros s7 U7. eapply HQ; [exact U7|..].
  - erewrite (load_ext 8 m6) by (intros x Hx; change (Z.of_nat 8) with 8 in Hx; apply F6; lia).
    rewrite !load_store_other by (cbn; lia). by apply load_store_same.
  - erewrite (load_ext 8 m6) by (intros x Hx; change (Z.of_nat 8) with 8 in Hx; apply F6; lia).
    rewrite !load_store_other by (cbn; lia). by apply load_store_same.
  - intros x Hx. rewrite F6 by lia. rewrite !mget_store_out; [done|cbn; lia..].
Qed.

Lemma log_pages_upd s s' m bs :
  log_pages s bs -> mem_upd m s s' -> same_outside s [1] (nvmm s) m -> 1 ∉ bs -> log_pages s' bs.
Proof.
  intros [X1 X2 X3 X4 X5 X6] U O H1'. pose proof (mem_upd_sbc _ _ _ U) as Es.
  pose proof (mem_upd_lists _ _ _ U) as El.
  split; unfold page_ok, homed, free_block, log_chain, log_link in *; rewrite ?Es, ?El; auto.
  rewrite (mem_upd_nvmm _ _ _ U). apply (linked_to_ext _ (nvmm s)); [exact X6|].
  intros p (b & -> & Hb)%list_elem_of_fmap. apply (same_outside_link s [1] _ _ b O). set_solver.
Qed.

(** Releasing the log of a reserved inode. *)
Lemma free_inode_log_run s sih bs :
  log_ctx s -> log_pages s bs -> lists_apart s -> Z.of_nat (length bs) < 2 ^ 31 -> bs <> [] ->
  (forall p, (alloc_clock s <= p)%positive -> kmem_cache_zalloc_ok p = true) ->
  8192 <= initsize (sbc s) -> 1 ∉ bs -> alter_pi_addr sih = 0 -> i_blk_type sih = NOVA_BLOCK_TYPE_4K ->
  sih_log_head sih = page_off (default 0 (head bs)) -> sih_log_tail sih <> 0 -> sih_alter_log_head sih = 0 ->
  exists s', nova_free_inode_log (blocknode_pi s) sih s = Ok 0 s' /\ log_ctx s' /\ sbc s' = sbc s /\
    (forall b, free_block s' b = free_block s b || bool_decide (b ∈ bs)) /\
    load 8 (nvmm s') (blocknode_pi s + 64) = 0.
Proof.
  intros C L A Hlen Hne Hk Hsz H1' Ha Hbt Hh Ht Hah. pose proof (lc_dev _ C) as D. pose proof D as (Hv & _).
  assert (Hb0 : sih_log_head sih <> 0).
  { rewrite Hh. destruct bs as [|b bs]; [done|]. cbn.
    destruct (lp_ok _ _ L b) as [P1 P2]; [set_solver|]. unfold page_off. lia. }
  unfold nova_free_inode_log. rewrite (proj2 (Z.eqb_neq _ 0) Hb0), (proj2 (Z.eqb_neq _ 0) Ht). cbn [orb].
  rewrite (proj2 (Z.eqb_neq _ 0)) by (unfold blocknode_pi; lia). cbn [negb].
  assert (wp (clear_log (blocknode_pi s) sih) (fun _ s1 => exists m, mem_upd m s s1 /\
    load 8 m (blocknode_pi s + 64) = 0 /\ same_outside s [1] (nvmm s) m) s) as Wc.
  { apply wp_clear_log; [done|done|unfold blocknode_pi; lia..|]. intros m' s' U' L1 _ F. exists m'.
    split_and!; [done|done|]. intros x Hx. apply F. specialize (Hx 1). unfold in_page, blocknode_pi in *.
    change (page_off 1) with 4096 in Hx. intros Hx2. apply Hx; [set_solver|lia]. }
  apply wp_run in Wc as ([] & s1 & Ec & m & U & L1 & O). rewrite (bind_ok _ _ _ _ _ Ec), Hbt, Hh.
  pose proof (mem_upd_balloc _ _ _ U) as K. pose proof (mem_upd_sbc _ _ _ U) as Es.
  assert (log_ctx s1) as C1.
  { apply (log_ctx_upd s); [done| |done|done]. apply (alloc_wf_same s); [apply C|done|..].
    - by rewrite (mem_upd_lists _ _ _ U).
    - by rewrite (mem_upd_plb _ _ _ U).
    - apply K. }
  replace (page_off (default 0 (head bs))) with (default 0 (head (page_off <$> bs)))
    by (by destruct bs).
  destruct (free_contiguous_run s1 bs C1) as (s2 & E2 & F2);
    [by eapply log_pages_upd|eapply lists_apart_home; eauto using keep_home|done|by rewrite (mem_upd_clock _ _ _ U)|].
  rewrite (bind_ok _ _ _ _ _ E2). exists s2. split_and!.
  - destruct (metadata_csum =? 0); cbn [negb]; [done|]. rewrite Hah.
    rewrite (bind_ok _ _ _ tt s2); [done|]. rewrite (bind_ok _ _ _ 0 s2); [done|].
    unfold nova_free_contiguous_log_blocks, bind, gets. by destruct (chain_fuel s2).
  - apply F2.
  - by rewrite (lf_sbc _ _ _ F2).
  - intros b. rewrite (lf_free _ _ _ F2). unfold free_block. by rewrite (mem_upd_lists _ _ _ U).
  - by rewrite (lf_nvmm _ _ _ F2), (mem_upd_nvmm _ _ _ U).
Qed.

(** ** Loading the free lists *)
Lemma remounted_loaded s s2 : remounted s s2 -> loaded s2 s2 [].
Proof.
  intros R. split; try done; [apply R|]. intros b. unfold free_block. cbn.
  apply not_true_iff_false. intros (i & fl & Hi & Hf)%existsb_lookup.
  unfold fl_free in Hf. by rewrite (rm_blank _ _ R _ _ Hi) in Hf.
Qed.

Lemma chain_moved s s2 m bs : sbc s2 = sbc s -> nvmm s2 = m -> chain_at s m bs -> chain_at s2 (nvmm s2) bs.
Proof. intros Es <- Ch. by apply (chain_at_sbc s). Qed.

(** Blocks taken for a log lie past the reserved ones. *)
Lemma taken_reserved s s1 bs c :
  save_ctx s -> log_taken s s1 bs -> c ∈ bs -> HEAD_RESERVED_BLOCKS <= c.
Proof.
  intros Cs T Hc. apply (lt_from _ _ _ T) in Hc. apply existsb_lookup in Hc as (i & fl & Hi & Hf).
  apply (fl_free_bounds _ _ _ (aw_list _ (lc_alloc _ (sv_log _ Cs)) _ _ Hi)) in Hf.
  pose proof (sv_start _ Cs _ _ Hi). lia.
Qed.

(** The pages of the log, seen by the instance that loaded the lists. *)
Lemma log_pages_back s s1 s3 bs :
  alloc_wf s -> log_taken s s1 bs -> sbc s3 = sbc s -> same_home s s3 ->
  (forall b, free_block s3 b = free_block s1 b) -> (forall a n, memcpy_mcsafe_rc a n = 0) ->
  chain_at s3 (nvmm s3) bs -> log_pages s3 bs.
Proof.
  intros W T Es Hm Hf Hrd Ch. split.
  - apply T.
  - apply Ch.
  - intros b Hb. eapply homed_home; [exact Hm|]. apply (lt_from _ _ _ T) in Hb.
    apply existsb_lookup in Hb as (i & fl & Hi & Hfb). exists i, fl. split; [done|].
    by apply (fl_free_bounds _ _ _ (aw_list _ W _ _ Hi)).
  - intros b Hb. by rewrite Hf, (lt_free _ _ _ T), bool_decide_true, andb_false_r.
  - intros b Hb. apply Hrd.
  - apply Ch.
Qed.

(** The entries of the lists, loaded into blank ones. *)
Lemma load_lists_run s s1 s' s2 bs :
  log_ctx s1 -> sbc s2 = sbc s -> same_home s1 s2 -> bs <> [] ->
  saved s s' bs (list_entries (free_lists s1)) -> remounted s' s2 ->
  exists s3, load_blocknodes (entry_fuel s2) (page_off (default 0 (head bs)))
      (tail_of bs (length (list_entries (free_lists s1)))) s2 = Ok 0 s3 /\
    loaded s2 s3 (list_entries (free_lists s1)).
Proof.
  intros C1 Es Hm Hne Sv R. set (l := list_entries (free_lists s1)) in *.
  pose proof (lc_dev _ (rm_ctx _ _ R)) as D2. pose proof (lc_alloc _ C1) as W1.
  pose proof (chain_moved _ _ _ _ Es (rm_nvmm _ _ R) (sd_chain _ _ _ _ Sv)) as Ch2.
  assert (page_off (default 0 (head bs)) = tail_of bs (length (@nil entry))) as ->.
  { cbn. unfold slot. cbn. rewrite <- head_lookup. lia. }
  apply (load_blocknodes_run s2 bs l D2 Ch2) with (rest := l); auto.
  - intros j e Hj. rewrite (rm_nvmm _ _ R), Es. by apply (sd_entries _ _ _ _ Sv).
  - apply Sv.
  - by apply list_entries_home.
  - apply (list_entries_sorted (alloc_clock s1) (per_list_blocks s1) _ 0); [|apply W1].
    intros i fl Hi. rewrite Z.add_0_l. split; [by apply (aw_list _ W1 i)|by apply (aw_home _ W1)].
  - apply R.
  - eapply entry_room; [exact Ch2|apply Sv|].
    destruct bs as [|b bs']; [done|]. destruct (ca_ok _ _ _ Ch2 b) as [P1 P2]; [set_solver|].
    unfold page_off in *. lia.
  - by eapply remounted_loaded.
Qed.

(** The log read back from a device on which [l] was saved in [bs]. *)
Lemma load_blockmap_run s s1 s' s2 bs :
  save_ctx s -> lists_apart s -> log_taken s s1 bs -> bs <> [] ->
  saved s s' bs (list_entries (free_lists s1)) -> Z.of_nat (length bs) < 2 ^ 31 ->
  load 1 (nvmm s) (blocknode_pi s + 3) = NOVA_BLOCK_TYPE_4K -> remounted s' s2 ->
  exists s3, nova_init_blockmap_from_inode s2 = Ok 0 s3 /\ alloc_wf s3 /\
    (forall b, free_block s3 b = free_block s b) /\ load 8 (nvmm s3) (blocknode_pi s + 64) = 0.
Proof.
  intros Cs A T Hne Sv Hlen Hbt R. pose proof (sv_log _ Cs) as C. pose proof (lt_ctx _ _ _ T) as C1.
  set (l := list_entries (free_lists s1)) in *. pose proof (rm_ctx _ _ R) as C2.
  pose proof (lc_dev _ C2) as D2. pose proof D2 as (Hv & Hsz & _).
  assert (sbc s2 = sbc s) as Es by (rewrite (rm_sbc _ _ R); apply Sv).
  assert (blocknode_pi s2 = blocknode_pi s) as Epi by (unfold blocknode_pi; by rewrite Es).
  assert (Hbl : forall c, c ∈ bs -> HEAD_RESERVED_BLOCKS <= c) by eauto using taken_reserved.
  pose proof (sv_size _ Cs) as Hsize. rewrite <- Es in Hsize. unfold HEAD_RESERVED_BLOCKS in *.
  pose proof (chain_moved _ _ _ _ Es (rm_nvmm _ _ R) (sd_chain _ _ _ _ Sv)) as Ch2.
  assert (Hb0 : page_off (default 0 (head bs)) <> 0).
  { destruct bs as [|b bs']; [done|]. specialize (Hbl b ltac:(set_solver)). cbn. unfold page_off. lia. }
  assert (home_bounds <$> free_lists s2 = home_bounds <$> free_lists s) as Ehb.
  { rewrite (rm_bounds _ _ R). apply (sd_keep _ _ _ _ Sv). }
  assert (home_bounds <$> free_lists s1 = home_bounds <$> free_lists s) as Ehb1 by apply (lt_keep _ _ _ T).
  unfold nova_init_blockmap_from_inode.
  rewrite (bind_ok _ _ _ (blocknode_pi s2) s2) by (unfold gets; by rewrite blocknode_pi_eq).
  rewrite (bind_ok _ _ _ _ _ (get_head_tail_run s2 (blocknode_pi s2) _ (sv_read _ Cs _ _)
    ltac:(apply in_pmem_spec; unfold blocknode_pi; lia))).
  rewrite (rm_nvmm _ _ R), Epi.
  rewrite (sd_head _ _ _ _ Sv), (sd_tail _ _ _ _ Sv), (sd_ahead _ _ _ _ Sv), (sd_atail _ _ _ _ Sv).
  set (sih := mkSih _ _ _ _ _ _ _ _). cbn [negb Z.eqb].
  assert (sih_log_head sih = page_off (default 0 (head bs)) /\ sih_log_tail sih = tail_of bs (length l))
    as [Hsh Hst] by done.
  rewrite (proj2 (Z.eqb_neq (sih_log_head sih) 0)) by (by rewrite Hsh).
  rewrite (bind_ok _ _ _ (entry_fuel s2) s2) by done.
  destruct (load_lists_run s s1 s' s2 bs C1 Es) as (s3 & E3 & L3); [|done..|].
  { unfold same_home. by rewrite Ehb, Ehb1. }
  fold l in E3, L3. rewrite Hsh, Hst, (bind_ok _ _ _ _ _ E3).
  assert (same_home s s3) as Hm3.
  { pose proof (keep_home _ _ (ld_keep _ _ _ L3)) as K3. unfold same_home in *. congruence. }
  assert (sbc s3 = sbc s) as Es3 by (rewrite (ld_sbc _ _ _ L3); done).
  assert (forall b, free_block s3 b = free_block s1 b) as Hf3.
  { intros b. rewrite (ld_free _ _ _ L3). apply in_list_entries. }
  destruct (free_inode_log_run s3 sih bs) as (s4 & E4 & C4 & _ & F4 & Z4); auto.
  { apply (log_ctx_upd s2); [done|apply L3|apply L3|apply (ld_keep _ _ _ L3)]. }
  { eapply log_pages_back; [apply C|exact T|done|exact Hm3|done|apply Cs|].
    rewrite (ld_nvmm _ _ _ L3). by apply (chain_at_sbc s2); [apply L3|]. }
  { by eapply lists_apart_home. }
  { intros p Hp. apply (rm_clock _ _ R). destruct (ld_keep _ _ _ L3) as (_ & Hc & _). lia. }
  { rewrite Es3, <- Es. lia. }
  { intros Hb%Hbl. lia. }
  { change (i_blk_type sih) with (load 1 (nvmm s') (blocknode_pi s + 3)). transitivity (load 1 (nvmm s) (blocknode_pi s + 3)); [|done].
    apply load_ext. intros x Hx. change (Z.of_nat 1) with 1 in Hx. apply (sd_frame _ _ _ _ Sv); [|lia].
    intros b Hb Hin. specialize (Hbl b Hb). unfold in_page, blocknode_pi, page_off in *. lia. }
  { pose proof (tail_range s2 _ bs (length l) D2 Ch2 Hne (sd_room _ _ _ _ Sv)). lia. }
  assert (blocknode_pi s3 = blocknode_pi s) as Epi3 by (unfold blocknode_pi; by rewrite Es3).
  rewrite Epi3 in E4, Z4. rewrite (bind_ok _ _ _ _ _ E4).
  exists s4. split_and!; [done|apply C4| |done].
  intros b. rewrite F4, Hf3, (lt_free _ _ _ T).
  destruct (bool_decide_reflect (b ∈ bs)) as [Hb|Hb]; cbn [negb];
    [by rewrite (lt_from _ _ _ T b Hb)|by rewrite andb_true_r, orb_false_r].
Qed.

(** ** Unmount and mount *)

(** A mount that starts on the device [s] left behind: the lists are as
    [nova_alloc_block_free_lists] makes them. *)
Record mounting (s s2 : nova) : Prop := {
  mt_sbc : sbc s2 = sbc s;
  mt_nvmm : nvmm s2 = nvmm s;
  mt_lists : free_lists s2 = replicate (Z.to_nat (cpus (sbc s))) zeroed_free_list;
  mt_cpu : 0 <= running_cpu s2;
  mt_clock : forall p, (alloc_clock s2 <= p)%positive -> kmem_cache_zalloc_ok p = true
}.

Lemma share_pos sb n : 0 < cpus sb -> 0 < n -> 0 < share sb n.
Proof.
  intros Hc Hn. unfold share. pose proof (Z.div_mod n (cpus sb) ltac:(lia)).
  assert (0 <= n / cpus sb) by (apply Z.div_pos; lia). destruct (Z.eqb_spec (n mod cpus sb) 0); nia.
Qed.

Lemma parity_blocks_pos sb : geometry_ok sb -> s_blocksize sb <= initsize sb -> 0 < parity_blocks sb.
Proof.
  intros G Hle. unfold parity_blocks. pose proof (geo_blocksize _ G).
  assert (0 < initsize sb / s_blocksize sb) by (apply Z.div_str_pos; lia).
  change NOVA_STRIPE_SIZE with 512. assert (0 <= s_blocksize sb / 512) by (apply Z.div_pos; lia).
  assert (s_blocksize sb / 512 <= s_blocksize sb) by (apply Z.div_le_upper_bound; lia).
  rewrite uwrap_small by lia. set (per := s_blocksize sb / 512 + 1).
  pose proof (Z.div_mod (initsize sb / s_blocksize sb) per ltac:(lia)).
  assert (0 <= initsize sb / s_blocksize sb / per) by (apply Z.div_pos; lia).
  destruct (Z.eqb_spec ((initsize sb / s_blocksize sb) mod per) 0); nia.
Qed.

(** The parity area keeps the lists apart. *)
Lemma laid_out_apart s :
  geometry_ok (sbc s) -> s_blocksize (sbc s) <= initsize (sbc s) ->
  Z.of_nat (length (free_lists s)) = cpus (sbc s) -> laid_out s -> lists_apart s.
Proof.
  intros G Hle HL Lo i j fi fj Hi Hj. destruct (Lo _ _ Hi) as [_ ->]. destruct (Lo _ _ Hj) as [-> _].
  apply lookup_lt_Some in Hi, Hj. pose proof (geo_cpus _ G).
  pose proof (list_range _ (Z.of_nat i) G ltac:(lia)) as (Ri1 & _ & Ri2 & Ri3).
  pose proof (list_range _ (Z.of_nat j) G ltac:(lia)) as (Rj1 & _ & Rj2 & Rj3).
  pose proof (share_pos (sbc s) _ ltac:(lia) (parity_blocks_pos _ G Hle)).
  pose proof (share_nonneg (sbc s) _ ltac:(lia) (csum_blocks_nonneg (sbc s))).
  assert (0 <= head_res (sbc s) (Z.of_nat j)) by (unfold head_res; pose proof (geo_head _ G); case_if; lia).
  assert (plb (sbc s) * Z.of_nat j < list_start (sbc s) (Z.of_nat j)) by (unfold list_start; lia).
  intros E. assert (Z.of_nat i = Z.of_nat j) as Eij by nia. rewrite Eij in *. lia.
Qed.

Lemma remount_run s s' m0 :
  log_ctx s -> geometry_ok (sbc s) -> laid_out s -> sbc s' = sbc s -> same_home s s' -> mounting s' m0 ->
  exists s2, nova_init_blockmap 1 m0 = Ok tt s2 /\ remounted s' s2.
Proof.
  intros C G Lo Es Hm [M1 M2 M3 M4 M5]. pose proof (geo_cpus _ G) as Hc.
  assert (sbc m0 = sbc s) as E0 by congruence.
  destruct (init_blockmap_recovery_run m0) as (s2 & E & W2 & Lo2 & Bl & Eq).
  { by rewrite E0. }
  { rewrite M3, length_replicate, E0, Es. lia. }
  { intros fl Hfl. rewrite M3 in Hfl. by apply elem_of_replicate in Hfl as [-> _]. }
  exists s2. split; [done|]. assert (sbc s2 = sbc s) as E2 by (by rewrite Eq).
  pose proof (aw_len _ W2) as L2. rewrite E2 in L2. pose proof (aw_len _ (lc_alloc _ C)) as L1.
  assert (same_home s s2) as Hm2.
  { apply list_eq. intros i. rewrite !list_lookup_fmap.
    destruct (free_lists s2 !! i) as [f2|] eqn:F2, (free_lists s !! i) as [f1|] eqn:F1; try done.
    - cbn. unfold home_bounds. destruct (Lo2 _ _ F2) as [-> ->]. destruct (Lo _ _ F1) as [-> ->]. by rewrite E2.
    - apply lookup_lt_Some in F2. apply lookup_ge_None in F1. lia.
    - apply lookup_lt_Some in F1. apply lookup_ge_None in F2. lia. }
  split; [|congruence|by rewrite Eq|unfold same_home in *; congruence|exact Bl|by rewrite Eq].
  destruct C as [C1 C2 C3 C4 C5]. split; [done|by apply (device_ok_keep s)|by rewrite E2|by rewrite Eq|].
  unfold test_opt in *. by rewrite E2.
Qed.

(** C4: saving the free lists at unmount always returns.  When it
    leaves a log in the block-node inode, a mount on that device sets the lists
    up and loads them back without an error: the allocator is well formed, its
    free blocks are exactly those there were before the unmount (the pages of
    the log are given back), and the log is gone from the inode. *)
Theorem blocknode_mappings_roundtrip s :
  save_ctx s -> geometry_ok (sbc s) -> laid_out s -> 0 < total_nodes s < 2 ^ 31 ->
  load 1 (nvmm s) (blocknode_pi s + 3) = NOVA_BLOCK_TYPE_4K ->
  load 8 (nvmm s) (blocknode_pi s + 64) = 0 ->
  exists s', nova_save_blocknode_mappings_to_log s = Ok tt s' /\
    (load 8 (nvmm s') (blocknode_pi s + 64) <> 0 -> forall m0, mounting s' m0 ->
     exists s2 s3, nova_init_blockmap 1 m0 = Ok tt s2 /\ nova_init_blockmap_from_inode s2 = Ok 0 s3 /\
       alloc_wf s3 /\ (forall b, free_block s3 b = free_block s b) /\
       load 8 (nvmm s3) (blocknode_pi s + 64) = 0).
Proof.
  intros Cs G Lo Hn Hbt Hh0. pose proof (sv_log _ Cs) as C.
  destruct (save_blocknodes_run s Cs Hn) as (s1 & bs & T & [[Hne E]|(s' & E & Hlen & Sv)]).
  - exists s1. split; [done|]. intros Hnz. exfalso. apply Hnz. rewrite <- Hh0. apply load_ext.
    intros x Hx. change (Z.of_nat 8) with 8 in Hx. apply (lt_mem _ _ _ T). intros b Hb Hin.
    pose proof (taken_reserved _ _ _ _ Cs T Hb).
    unfold in_page, blocknode_pi, page_off, HEAD_RESERVED_BLOCKS in *. lia.
  - exists s'. split; [done|]. intros _ m0 Mt.
    destruct (remount_run s s' m0 C G Lo (sd_sbc _ _ _ _ Sv) (keep_home _ _ (sd_keep _ _ _ _ Sv)) Mt)
      as (s2 & E2 & R).
    pose proof (rangenode_pages_spec (total_nodes s) ltac:(lia)).
    destruct (load_blockmap_run s s1 s' s2 bs) as (s3 & E3 & X); auto; [| |lia|by exists s2, s3].
    + apply laid_out_apart; [done| |apply (lc_alloc _ C)|done]. rewrite (lc_bs _ C).
      pose proof (sv_size _ Cs). unfold HEAD_RESERVED_BLOCKS in *. lia.
    + intros ->. cbn in Hlen. lia.
Qed.
End spec.
