(* ===== verification/ScanBitmap.v ===== *)
(** Rebuilding the free lists from the bitmaps of a failure scan (bbuild.c).

    A scan sets a bit for every block in use, in bitmaps of 4 KB, 2 MB and 1 GB
    units, one set per CPU.  They are merged, and the clear bits of the result
    become the ranges of the free lists.

    A bitmap is the integer its words make up; [bitmap_size] counts its bytes.
    The kernel's bit searches are parameters with their documented behaviour.
    Each definition translates the C function of the same name. *)

From stdpp Require Import strings.
From S2P Require Import Prelude CInt Crc32c NovaEnv RangeNode Pmem NovaState NovaMonad NovaLib.
From S2P Require Import Balloc NovaLayout LogPage.

Local Open Scope nova_scope.

(** linux/find.h: the next set (clear) bit of the first [size] bits, from
    [offset] on; [size] when there is none. *)
Class BitLib := {
  find_next_bit : Z -> Z -> Z -> Z;
  find_next_zero_bit : Z -> Z -> Z -> Z
}.

Definition next_bit_spec (v : bool) (find : Z -> Z -> Z -> Z) : Prop :=
  forall m size offset, 0 <= offset ->
    if offset <? size then
      offset <= find m size offset <= size /\
      (forall k, offset <= k < find m size offset -> Z.testbit m k = negb v) /\
      (find m size offset < size -> Z.testbit m (find m size offset) = v)
    else find m size offset = size.

Class BitLibOk `{BitLib} : Prop := {
  find_next_bit_ok : next_bit_spec true find_next_bit;
  find_next_zero_bit_ok : next_bit_spec false find_next_zero_bit
}.

(** ** nova.h *)
Inductive bm_type := BM_4K | BM_2M | BM_1G.

Record single_scan_bm := mkScanBm { bitmap_size : Z; bitmap : Z }.

Record scan_bitmap := mkScanBitmap {
  scan_bm_4K : single_scan_bm;
  scan_bm_2M : single_scan_bm;
  scan_bm_1G : single_scan_bm
}.

Definition PAGE_SHIFT_2M : Z := 21.
Definition PAGE_SHIFT_1G : Z := 30.

(** [set_bit] on a bitmap of [bitmap_size] bytes. *)
Definition set_scan_bm (bit : Z) (bm : single_scan_bm) : M single_scan_bm :=
  if (bit <? 0) || (8 * bitmap_size bm <=? bit) then raise (FIndex bit)
  else ret (mkScanBm (bitmap_size bm) (Z.setbit (bitmap bm) bit)).

Definition set_bm (bit : Z) (bm : scan_bitmap) (type : bm_type) : M scan_bitmap :=
  match type with
  | BM_4K => let! b := set_scan_bm bit (scan_bm_4K bm) in
             ret (mkScanBitmap b (scan_bm_2M bm) (scan_bm_1G bm))
  | BM_2M => let! b := set_scan_bm bit (scan_bm_2M bm) in
             ret (mkScanBitmap (scan_bm_4K bm) b (scan_bm_1G bm))
  | BM_1G => let! b := set_scan_bm bit (scan_bm_1G bm) in
             ret (mkScanBitmap (scan_bm_4K bm) (scan_bm_2M bm) b)
  end.

Section scan.
Context `{NovaEnv, RbLib, BitLib}.

(** ** From bitmap to free lists *)
Definition nova_insert_blocknode_map (cpuid low high : Z) : M Z :=
  let num_blocks := u64 (high - low + 1) in
  let! fl := nova_get_free_list cpuid in
  let! blknode := nova_alloc_blocknode in
  match blknode with
  | None => ret (- ENOMEM)
  | Some p =>
      let n := nova_update_range_node_checksum (set_range_high high (set_range_low low zeroed_node)) in
      let '(rc, tree) := nova_insert_blocktree (block_free_tree fl) p n in
      let fl := set_block_free_tree tree fl in
      if negb (rc =? 0) then put_free_list cpuid fl ;;; nova_err ;;; nova_free_blocknode p ;;; ret rc
      else
        let fl := match first_node fl with None => set_first_node (Some p) fl | Some _ => fl end in
        let fl := set_last_node (Some p) fl in
        let fl := set_num_blocknode (u64 (num_blocknode fl + 1)) fl in
        let fl := set_num_free_blocks (u64 (num_free_blocks fl + num_blocks)) fl in
        put_free_list cpuid fl ;;; ret 0
  end.

(** [while (1)]: [start] and [end_] are the unsearched part of list [cpuid].
    A range that cannot be inserted is only reported. *)
Fixpoint build_map_loop (fuel : nat) (bm bsize scale cpuid start end_ : Z) : M unit :=
  match fuel with
  | O => raise FFuel
  | S fuel =>
      let! cpus := gets (fun s => cpus (sbc s)) in
      let next_list :=
        if cpuid =? cpus - 1 then ret tt
        else
          let! fl := nova_get_free_list (cpuid + 1) in
          build_map_loop fuel bm bsize scale (cpuid + 1) (block_start fl) (u64 (block_end fl + 1)) in
      let next := find_next_zero_bit bm end_ start in
      if next =? bsize then ret tt
      else if next =? end_ then next_list
      else
        let low := next in
        let next := find_next_bit bm end_ next in
        let! _ := nova_insert_blocknode_map cpuid (u64 (Z.shiftl low scale))
          (u64 (u64 (Z.shiftl next scale) - 1)) in
        if next =? bsize then ret tt
        else if next =? end_ then next_list
        else build_map_loop fuel bm bsize scale cpuid next end_
  end.

(** Every round moves on to the next list or shortens the unsearched part. *)
Definition list_cost (fl : free_list) : Z := Z.max 0 (block_end fl + 1 - block_start fl) + 1.
Definition build_fuel (s : nova) : nat := Z.to_nat (sumZ list_cost (free_lists s)).

Definition __nova_build_blocknode_map (bm bsize scale : Z) : M Z :=
  let! fl := nova_get_free_list 0 in
  let! fuel := gets build_fuel in
  build_map_loop fuel bm bsize scale 0 (block_start fl) (u64 (block_end fl + 1)) ;;; ret 0.

(** [for (i = lo; i < lo + n; i++) set_bm(i, bm, BM_4K)]; the overflow of the
    [int] counter is undefined. *)
Fixpoint set_4K_range (n : nat) (i : Z) (bm : scan_bitmap) : M scan_bitmap :=
  match n with
  | O => ret bm
  | S n =>
      let! bm := set_bm i bm BM_4K in
      if 2 ^ 31 <=? i + 1 then raise (FIndex (i + 1)) else set_4K_range n (i + 1) bm
  end.

(** The rounds of [for (i = lo; i < hi; i++)] with an [int i] and an unsigned
    [hi]: a negative [lo] converts to a value above [hi]. *)
Definition int_range (lo hi : Z) : nat := if lo <? 0 then 0%nat else Z.to_nat (hi - lo).

Fixpoint update_4K_loop (fuel : nat) (bm : scan_bitmap) (src bsize scale next : Z) : M scan_bitmap :=
  match fuel with
  | O => raise FFuel
  | S fuel =>
      let next := find_next_bit src bsize next in
      if next =? bsize then ret bm
      else
        let low := next in
        let next := find_next_zero_bit src bsize next in
        let! bm := set_4K_range (int_range (s32 (Z.shiftl low scale)) (u64 (Z.shiftl next scale)))
                     (s32 (Z.shiftl low scale)) bm in
        if next =? bsize then ret bm else update_4K_loop fuel bm src bsize scale next
  end.

Definition nova_update_4K_map (bm : scan_bitmap) (src bsize scale : Z) : M scan_bitmap :=
  update_4K_loop (Z.to_nat bsize + 1) bm src bsize scale 0.

Definition bm_bits (b : single_scan_bm) : Z := u64 (bitmap_size b * 8).

(** The first loop of [nova_build_blocknode_map], over [global_bm]. *)
Fixpoint expand_bms (bms : list scan_bitmap) : M (list scan_bitmap) :=
  match bms with
  | [] => ret []
  | bm :: bms =>
      let! bm := nova_update_4K_map bm (bitmap (scan_bm_2M bm)) (bm_bits (scan_bm_2M bm))
                   (PAGE_SHIFT_2M - 12) in
      let! bm := nova_update_4K_map bm (bitmap (scan_bm_1G bm)) (bm_bits (scan_bm_1G bm))
                   (PAGE_SHIFT_1G - 12) in
      let! rest := expand_bms bms in
      ret (bm :: rest)
  end.

(** [dst[j] |= src[j]] for [num] words. *)
Definition merge_words (num dst src : Z) : Z :=
  Z.lor dst (Z.land src (Z.ones (64 * num))).

(** Returns the result and [global_bm]. *)
Definition nova_build_blocknode_map (bms : list scan_bitmap) (initsize : Z) : M (Z * list scan_bitmap) :=
  let! final := kmem_cache_zalloc in
  match final with
  | None => ret (- ENOMEM, bms)
  | Some _ =>
      let size := Z.shiftr initsize (PAGE_SHIFT + 3) in
      let! mem := kmem_cache_zalloc in
      match mem with
      | None => ret (- ENOMEM, bms)
      | Some _ =>
          let! bms := expand_bms bms in
          let num := size / 8 + (if size mod 8 =? 0 then 0 else 1) in
          let merged := foldl (fun dst bm => merge_words num dst (bitmap (scan_bm_4K bm))) 0 bms in
          let! rc := __nova_build_blocknode_map merged (u64 (size * 8)) (PAGE_SHIFT - 12) in
          ret (rc, bms)
      end
  end.

(** ** Allocating the bitmaps: [None] when memory runs out *)
Definition new_bm (initsize shift : Z) : single_scan_bm :=
  mkScanBm (Z.shiftr initsize (shift + 3)) 0.

Fixpoint alloc_bm_loop (n : nat) (initsize : Z) : M (option (list scan_bitmap)) :=
  match n with
  | O => ret (Some [])
  | S n =>
      let! bm := kmem_cache_zalloc in
      match bm with
      | None => ret None
      | Some _ =>
          let! b1 := kmem_cache_zalloc in
          let! b2 := kmem_cache_zalloc in
          let! b3 := kmem_cache_zalloc in
          match b1, b2, b3 with
          | Some _, Some _, Some _ =>
              let! rest := alloc_bm_loop n initsize in
              ret (cons (mkScanBitmap (new_bm initsize PAGE_SHIFT) (new_bm initsize PAGE_SHIFT_2M)
                           (new_bm initsize PAGE_SHIFT_1G)) <$> rest)
          | _, _, _ => ret None
          end
      end
  end.

Definition alloc_bm (initsize : Z) : M (Z * list scan_bitmap) :=
  let! n := gets (fun s => cpus (sbc s)) in
  let! r := alloc_bm_loop (Z.to_nat n) initsize in
  ret match r with Some bms => (0, bms) | None => (- ENOMEM, []) end.

(** ** Marking a log *)
Fixpoint traverse_log (fuel : nat) (next : Z) (bm : scan_bitmap) : M scan_bitmap :=
  if next =? 0 then ret bm
  else
    match fuel with
    | O => raise FFuel
    | S fuel =>
        if negb (Z.land next (PAGE_SIZE - 1) =? 0) then raise FBug
        else
          let! bm := set_bm (Z.shiftr next PAGE_SHIFT) bm BM_4K in
          let! next := next_log_page next in
          traverse_log fuel next bm
    end.

Definition nova_traverse_inode_log (bm : scan_bitmap) (head : Z) : M scan_bitmap :=
  let! fuel := gets chain_fuel in traverse_log fuel head bm.

Definition nova_traverse_dir_inode_log (pi : Z) (bm : scan_bitmap) : M scan_bitmap :=
  let! head := pload_field nova_inode pi "log_head" in
  let! bm := nova_traverse_inode_log bm head in
  if negb (metadata_csum =? 0) then
    let! head := pload_field nova_inode pi "alter_log_head" in
    nova_traverse_inode_log bm head
  else ret bm.
End scan.
