(* ===== verification/ScanBuildSpec.v ===== *)
(** Correctness of the free lists rebuilt after a failure.

    [bm_marks bm b]: the bitmaps [bm] mark the 4 KB block [b], directly or
    through its 2 MB or 1 GB unit.  The rebuilt lists hold exactly the blocks of
    their parts of the device that no bitmap marks. *)

From S2P Require Import Prelude CInt Crc32c NovaEnv RangeNode Pmem NovaState NovaMonad NovaLib.
From S2P Require Import Balloc BallocSpec BallocAlloc NovaLayout LogPage LogPageSpec.
From S2P Require Import RangeLog RangeLogSpec ScanBitmap.

Local Open Scope nova_scope.

(** A bitmap whose bits lie inside its size. *)
Record bm_ok (b : single_scan_bm) : Prop := {
  bo_size : 0 <= bitmap_size b;
  bo_bits : forall k, 8 * bitmap_size b <= k -> Z.testbit (bitmap b) k = false
}.

(** The bitmaps of one CPU on a device of [nb] 4 KB blocks. *)
Record bms_ok (nb : Z) (bm : scan_bitmap) : Prop := {
  bs_4K : bm_ok (scan_bm_4K bm);
  bs_2M : bm_ok (scan_bm_2M bm);
  bs_1G : bm_ok (scan_bm_1G bm);
  bs_nb : 8 * bitmap_size (scan_bm_4K bm) = nb;
  bs_fit_2M : 8 * bitmap_size (scan_bm_2M bm) * 2 ^ 9 <= nb;
  bs_fit_1G : 8 * bitmap_size (scan_bm_1G bm) * 2 ^ 18 <= nb
}.

Definition bm_marks (bm : scan_bitmap) (b : Z) : bool :=
  Z.testbit (bitmap (scan_bm_4K bm)) b || Z.testbit (bitmap (scan_bm_2M bm)) (Z.shiftr b 9) ||
  Z.testbit (bitmap (scan_bm_1G bm)) (Z.shiftr b 18).

(** [bm'] is [bm] with the 4 KB bits for which [f] holds set as well. *)
Definition marked_4K (bm bm' : scan_bitmap) (f : Z -> bool) : Prop :=
  scan_bm_2M bm' = scan_bm_2M bm /\ scan_bm_1G bm' = scan_bm_1G bm /\
  bitmap_size (scan_bm_4K bm') = bitmap_size (scan_bm_4K bm) /\
  forall k, 0 <= k -> Z.testbit (bitmap (scan_bm_4K bm')) k = Z.testbit (bitmap (scan_bm_4K bm)) k || f k.

Lemma marked_4K_trans bm1 bm2 bm3 f g :
  marked_4K bm1 bm2 f -> marked_4K bm2 bm3 g -> marked_4K bm1 bm3 (fun k => f k || g k).
Proof.
  intros (A1 & A2 & A3 & A4) (B1 & B2 & B3 & B4). split_and!; try congruence.
  intros k Hk. rewrite B4, A4 by done. by rewrite orb_assoc.
Qed.

Lemma marked_4K_ext bm bm' f g :
  marked_4K bm bm' f -> (forall k, 0 <= k -> f k = g k) -> marked_4K bm bm' g.
Proof.
  intros (A1 & A2 & A3 & A4) E. split_and!; auto. intros k Hk. by rewrite A4, E.
Qed.

Lemma set_bm_4K_run bit bm s :
  0 <= bit < 8 * bitmap_size (scan_bm_4K bm) ->
  exists bm', set_bm bit bm BM_4K s = Ok bm' s /\ marked_4K bm bm' (fun k => k =? bit).
Proof.
  intros Hb. unfold set_bm, set_scan_bm. rewrite (proj2 (Z.ltb_ge _ _)), (proj2 (Z.leb_gt _ _)) by lia.
  eexists. split; [reflexivity|]. split_and!; [done..|]. intros k Hk. cbn. rewrite Z.setbit_eqb by lia.
  by rewrite orb_comm, Z.eqb_sym.
Qed.

Lemma set_4K_range_run n : forall i bm s,
  0 <= i -> i + Z.of_nat n <= 8 * bitmap_size (scan_bm_4K bm) < 2 ^ 31 ->
  exists bm', set_4K_range n i bm s = Ok bm' s /\
    marked_4K bm bm' (fun k => (i <=? k) && (k <? i + Z.of_nat n)).
Proof.
  induction n as [|n IH]; intros i bm s Hi Hn; cbn [set_4K_range].
  - exists bm. split; [done|]. split_and!; auto. intros k Hk. destruct (Z.testbit _ k); [done|]. bool_lia.
  - destruct (set_bm_4K_run i bm s) as (bm1 & E1 & M1); [lia|]. rewrite (bind_ok _ _ _ _ _ E1).
    rewrite (proj2 (Z.leb_gt _ _)) by lia. destruct (IH (i + 1) bm1 s) as (bm' & E & Mk); [lia|destruct M1 as (_ & _ & -> & _); lia|].
    exists bm'. split; [exact E|].
    eapply marked_4K_ext; [exact (marked_4K_trans _ _ _ _ _ M1 Mk)|]. intros k Hk. cbn. bool_lia.
Qed.

Section spec.
Context `{NovaEnv, RbLibOk, BitLibOk}.

(** ** Larger units *)
Lemma find_set m size off :
  0 <= off < size -> off <= find_next_bit m size off <= size /\
  (forall k, off <= k < find_next_bit m size off -> Z.testbit m k = false) /\
  (find_next_bit m size off < size -> Z.testbit m (find_next_bit m size off) = true).
Proof.
  intros Ho. pose proof (find_next_bit_ok m size off ltac:(lia)) as F.
  by rewrite (proj2 (Z.ltb_lt _ _)) in F by lia.
Qed.

Lemma find_clear m size off :
  0 <= off < size -> off <= find_next_zero_bit m size off <= size /\
  (forall k, off <= k < find_next_zero_bit m size off -> Z.testbit m k = true) /\
  (find_next_zero_bit m size off < size -> Z.testbit m (find_next_zero_bit m size off) = false).
Proof.
  intros Ho. pose proof (find_next_zero_bit_ok m size off ltac:(lia)) as F.
  by rewrite (proj2 (Z.ltb_lt _ _)) in F by lia.
Qed.

Lemma find_set_end m size off : 0 <= off -> size <= off -> find_next_bit m size off = size.
Proof.
  intros Ho Hs. pose proof (find_next_bit_ok m size off Ho) as F.
  by rewrite (proj2 (Z.ltb_ge _ _)) in F by lia.
Qed.

Lemma find_clear_end m size off : 0 <= off -> size <= off -> find_next_zero_bit m size off = size.
Proof.
  intros Ho Hs. pose proof (find_next_zero_bit_ok m size off Ho) as F.
  by rewrite (proj2 (Z.ltb_ge _ _)) in F by lia.
Qed.

Lemma shiftr_range lo hi k sc :
  0 <= sc -> (Z.shiftl lo sc <=? k) && (k <? Z.shiftl hi sc) = (lo <=? Z.shiftr k sc) && (Z.shiftr k sc <? hi).
Proof.
  intros Hs. rewrite !Z.shiftl_mul_pow2, Z.shiftr_div_pow2 by done.
  assert (0 < 2 ^ sc) by (apply Z.pow_pos_nonneg; lia).
  apply eq_true_iff_eq. rewrite !andb_true_iff, !Z.leb_le, !Z.ltb_lt. split; intros [H1' H2'].
  - split; [apply Z.div_le_lower_bound; lia|apply Z.div_lt_upper_bound; lia].
  - pose proof (Z.mul_div_le k (2 ^ sc) ltac:(lia)). pose proof (Z.mul_succ_div_gt k (2 ^ sc) ltac:(lia)). nia.
Qed.

Lemma update_4K_loop_run src bsize sc s : 0 <= sc -> 0 <= bsize ->
  forall fuel next bm, 0 <= next <= bsize -> bsize - next < Z.of_nat fuel ->
  Z.shiftl bsize sc <= 8 * bitmap_size (scan_bm_4K bm) -> 8 * bitmap_size (scan_bm_4K bm) < 2 ^ 31 ->
  exists bm', update_4K_loop fuel bm src bsize sc next s = Ok bm' s /\
    marked_4K bm bm' (fun k => (next <=? Z.shiftr k sc) && (Z.shiftr k sc <? bsize) &&
                               Z.testbit src (Z.shiftr k sc)).
Proof.
  intros Hsc Hbs. induction fuel as [|fuel IH]; intros next bm Hn Hf Hfit Hlim; [lia|].
  cbn [update_4K_loop].
  destruct (decide (next = bsize)) as [->|Hlt].
  { rewrite find_set_end by lia. rewrite Z.eqb_refl. exists bm. split; [done|].
    split_and!; auto. intros k Hk. destruct (Z.testbit _ _); cbn; [done|]. bool_lia. }
  destruct (find_set src bsize next ltac:(lia)) as (F1 & F2 & F3).
  set (n1 := find_next_bit src bsize next) in *. destruct (Z.eqb_spec n1 bsize) as [E1|Hn1].
  { exists bm. split; [done|]. split_and!; auto. intros k Hk.
    destruct (decide (next <= Z.shiftr k sc < bsize)) as [Hr|Hr].
    - rewrite F2 by lia. by rewrite andb_false_r, orb_false_r.
    - destruct (Z.testbit (bitmap _) k); cbn; [done|]. bool_lia. }
  destruct (find_clear src bsize n1 ltac:(lia)) as (G1 & G2 & G3).
  set (n2 := find_next_zero_bit src bsize n1) in *.
  assert (n1 < n2) as H12.
  { destruct (decide (n2 = n1)) as [E|]; [|lia]. rewrite E in G3. rewrite (F3 ltac:(lia)) in G3.
    by specialize (G3 ltac:(lia)). }
  assert (0 < 2 ^ sc) by (apply Z.pow_pos_nonneg; lia).
  rewrite !Z.shiftl_mul_pow2 in * by done.
  rewrite uwrap_small, swrap_small by nia. unfold int_range. rewrite (proj2 (Z.ltb_ge _ _)) by nia.
  destruct (set_4K_range_run (Z.to_nat (n2 * 2 ^ sc - n1 * 2 ^ sc)) (n1 * 2 ^ sc) bm s) as (bm1 & E & M1);
    [nia|nia|]. rewrite (bind_ok _ _ _ _ _ E).
  assert (marked_4K bm bm1 (fun k => (n1 <=? Z.shiftr k sc) && (Z.shiftr k sc <? n2))) as M1'.
  { eapply marked_4K_ext; [exact M1|]. intros k Hk. cbn. rewrite <- shiftr_range by done.
    rewrite !Z.shiftl_mul_pow2 by done. f_equal. f_equal. nia. }
  assert (forall k, (n1 <=? k) && (k <? n2) = (next <=? k) && (k <? n2) && Z.testbit src k) as Hmid.
  { intros k. destruct (decide (next <= k < n1)) as [Hr|Hr]; [rewrite F2 by lia; bool_lia|].
    destruct (decide (n1 <= k < n2)) as [Hr2|Hr2]; [rewrite G2 by lia; bool_lia|].
    destruct (Z.testbit src k); bool_lia. }
  destruct (Z.eqb_spec n2 bsize) as [E2|Hn2].
  - exists bm1. split; [done|]. eapply marked_4K_ext; [exact M1'|]. intros k Hk. cbn. by rewrite Hmid, E2.
  - pose proof M1' as (_ & _ & Esz & _).
    destruct (IH n2 bm1 ltac:(lia) ltac:(lia)) as (bm' & E' & M'); [by rewrite Esz..|].
    exists bm'. split; [done|]. eapply marked_4K_ext; [exact (marked_4K_trans _ _ _ _ _ M1' M')|].
    intros k Hk. cbn. rewrite Hmid. destruct (Z.testbit src (Z.shiftr k sc)); bool_lia.
Qed.

Lemma update_4K_map_run bm b sc s :
  0 <= sc -> bm_ok b -> 8 * bitmap_size b * 2 ^ sc <= 8 * bitmap_size (scan_bm_4K bm) ->
  8 * bitmap_size (scan_bm_4K bm) < 2 ^ 31 ->
  exists bm', nova_update_4K_map bm (bitmap b) (bm_bits b) sc s = Ok bm' s /\
    marked_4K bm bm' (fun k => Z.testbit (bitmap b) (Z.shiftr k sc)).
Proof.
  intros Hsc [Hs0 Hb] Hfit Hlim. assert (0 < 2 ^ sc) by (apply Z.pow_pos_nonneg; lia).
  unfold nova_update_4K_map, bm_bits. rewrite uwrap_small by nia.
  destruct (update_4K_loop_run (bitmap b) (bitmap_size b * 8) sc s Hsc ltac:(lia)
    (Z.to_nat (bitmap_size b * 8) + 1) 0 bm) as (bm' & E & Mk); [lia|lia| |done|].
  { rewrite Z.shiftl_mul_pow2 by done. nia. }
  exists bm'. split; [exact E|]. eapply marked_4K_ext; [exact Mk|]. intros k Hk. cbn.
  assert (0 <= Z.shiftr k sc) by (by apply Z.shiftr_nonneg).
  destruct (Z.testbit (bitmap b) (Z.shiftr k sc)) eqn:E1; [|by rewrite andb_false_r].
  destruct (Z.ltb_spec (Z.shiftr k sc) (bitmap_size b * 8)); [bool_lia|].
  rewrite Hb in E1 by lia. done.
Qed.

(** One CPU's bitmaps after [nova_build_blocknode_map]'s first loop. *)
Definition expanded (bm bm' : scan_bitmap) : Prop :=
  scan_bm_2M bm' = scan_bm_2M bm /\ scan_bm_1G bm' = scan_bm_1G bm /\
  bitmap_size (scan_bm_4K bm') = bitmap_size (scan_bm_4K bm) /\
  forall k, 0 <= k -> Z.testbit (bitmap (scan_bm_4K bm')) k = bm_marks bm k.

Lemma expand_bms_run nb s : nb < 2 ^ 31 -> forall bms, Forall (bms_ok nb) bms ->
  exists bms', expand_bms bms s = Ok bms' s /\ Forall2 expanded bms bms'.
Proof.
  intros Hnb. induction 1 as [|bm bms B F IH]; [by exists []|].
  destruct B as [B4 B2 B1 Bn F2 F1]. cbn [expand_bms]. change (PAGE_SHIFT_2M - 12) with 9.
  change (PAGE_SHIFT_1G - 12) with 18.
  destruct (update_4K_map_run bm (scan_bm_2M bm) 9 s) as (bm1 & E1 & M1); [lia|done|lia..|].
  pose proof M1 as (S2 & S1 & S4 & _). rewrite (bind_ok _ _ _ _ _ E1), S1.
  destruct (update_4K_map_run bm1 (scan_bm_1G bm) 18 s) as (bm2 & E2 & M2); [lia|done|lia..|].
  rewrite (bind_ok _ _ _ _ _ E2). destruct IH as (bms' & E3 & F3). rewrite (bind_ok _ _ _ _ _ E3).
  exists (bm2 :: bms'). split; [done|]. constructor; [|done].
  pose proof (marked_4K_trans _ _ _ _ _ M1 M2) as (X1 & X2 & X3 & X4). split_and!; auto.
  intros k Hk. rewrite X4 by done. unfold bm_marks. by rewrite orb_assoc.
Qed.

Lemma merge_fold num bms bms' k : 0 <= k < 64 * num -> Forall2 expanded bms bms' -> forall dst,
  Z.testbit (foldl (fun dst bm => merge_words num dst (bitmap (scan_bm_4K bm))) dst bms') k
  = Z.testbit dst k || existsb (fun bm => bm_marks bm k) bms.
Proof.
  intros Hk. induction 1 as [|bm bm' bms bms' (_ & _ & _ & E) F IH]; intros dst; cbn; [by rewrite orb_false_r|].
  rewrite IH. unfold merge_words. rewrite Z.lor_spec, Z.land_spec, Z.ones_spec_low, andb_true_r, E by lia.
  by rewrite orb_assoc.
Qed.
End spec.

(** The free lists [nova_build_blocknode_map] builds from the bitmaps.

    [searched s0 i start b]: block [b] belongs to a list of [s0] before list
    [i], or to list [i] below [start].  [rebuilt] is the invariant of the search:
    whatever is in the lists is unmarked and searched, and when no node
    allocation fails nothing is missing. *)

From S2P Require Import Prelude CInt Crc32c NovaEnv RangeNode Pmem NovaState NovaMonad NovaLib.
From S2P Require Import Balloc BallocSpec BallocAlloc NovaLayout LogPage LogPageSpec.
From S2P Require Import BallocInit RangeLog RangeLogSpec ScanBitmap.

Local Open Scope nova_scope.

Section build.
Context `{NovaEnv, RbLibOk, BitLibOk}.

Definition searched (s : nova) (i : nat) (start b : Z) : Prop :=
  exists j fl, free_lists s !! j = Some fl /\ block_start fl <= b <= block_end fl /\
    ((j < i)%nat \/ j = i /\ b < start).

(** No allocation from [p] on fails. *)
Definition memory_from (p : ptr) : Prop :=
  forall q, (p <= q)%positive -> kmem_cache_zalloc_ok q = true.

Record rebuilt (s0 s : nova) (m : Z) (done : Z -> Prop) : Prop := {
  rb_wf : alloc_wf s;
  rb_sbc : sbc s = sbc s0;
  rb_nvmm : nvmm s = nvmm s0;
  rb_maps : inode_maps s = inode_maps s0;
  rb_plb : per_list_blocks s = per_list_blocks s0;
  rb_keep : balloc_keep s0 s;
  rb_sound : forall b, free_block s b = true -> Z.testbit m b = false /\ done b;
  rb_complete : memory_from (alloc_clock s0) ->
    forall b, Z.testbit m b = false -> done b -> free_block s b = true
}.

Lemma rebuilt_iff s0 s m (P Q : Z -> Prop) :
  rebuilt s0 s m P -> (forall b, P b -> Z.testbit m b = false -> Q b) ->
  (forall b, Q b -> Z.testbit m b = false -> P b) -> rebuilt s0 s m Q.
Proof. intros [] HP HQ. split; auto. intros b Hb. destruct (rb_sound0 b Hb). auto. Qed.

Lemma homed_iff s s' b : same_home s s' -> homed s b <-> homed s' b.
Proof. intros E. split; apply homed_home; [done|]. exact (eq_sym E). Qed.

Lemma laid_out_home s s' : same_home s s' -> sbc s' = sbc s -> laid_out s -> laid_out s'.
Proof.
  intros E Es L i fl Hi. destruct (home_lookup s' s i fl (eq_sym E) Hi) as (fl' & Hi' & [= E1 E2]).
  rewrite Es, <- E1, <- E2. by apply L.
Qed.

(** The blocks of two lists are apart. *)
Lemma home_inj s i j fl fl' b :
  alloc_wf s -> free_lists s !! i = Some fl -> free_lists s !! j = Some fl' ->
  block_start fl <= b <= block_end fl -> block_start fl' <= b <= block_end fl' -> i = j.
Proof.
  intros W Hi Hj B1 B2. pose proof (aw_home _ W _ _ Hi). pose proof (aw_home _ W _ _ Hj).
  pose proof (aw_plb _ W). destruct (Nat.lt_trichotomy i j) as [Hl|[Hl|Hl]]; [exfalso| |exfalso]; [nia|done|nia].
Qed.

(** One range, which the search has just passed. *)
Lemma insert_blocknode_map_run s0 s m i fl0 start low next :
  alloc_wf s0 -> rebuilt s0 s m (searched s0 i start) -> free_lists s0 !! i = Some fl0 ->
  block_start fl0 <= start <= low -> low < next <= block_end fl0 + 1 ->
  (forall k, start <= k < low -> Z.testbit m k = true) ->
  (forall k, low <= k < next -> Z.testbit m k = false) ->
  exists rc s', nova_insert_blocknode_map (Z.of_nat i) low (next - 1) s = Ok rc s' /\
    rebuilt s0 s' m (searched s0 i next).
Proof.
  intros W0 R Hi0 Hs Hn Hset Hclr. pose proof (rb_wf _ _ _ _ R) as W.
  destruct (home_lookup _ _ _ _ (keep_home _ _ (rb_keep _ _ _ _ R)) Hi0) as (fl & Hi & [= Eb1 Eb2]).
  assert (list_at s (Z.of_nat i) fl) as At by (split; [lia|by rewrite Nat2Z.id]).
  pose proof (aw_list _ W _ _ Hi) as Wf. pose proof (aw_list _ W0 _ _ Hi0) as Wf0.
  pose proof (fl_start _ _ Wf0). pose proof (fl_end _ _ Wf0).
  assert (forall b, searched s0 i start b <-> searched s0 i next b /\ ~ (start <= b < next)) as Hsplit.
  { intros b. split.
    - intros (j & f & Hj & Hb & Hor). split; [exists j, f; split_and!; [done|lia..]|].
      intros Hb'. assert (j = i) as -> by (eapply (home_inj s0 j i _ _ b); eauto with lia). lia.
    - intros [(j & f & Hj & Hb & Hor) Hout]. exists j, f. split_and!; [done|lia..]. }
  assert (forall b, searched s0 i next b -> Z.testbit m b = false ->
    searched s0 i start b \/ low <= b < next) as Hnew.
  { intros b Hb Hm. destruct (decide (low <= b < next)); [by right|left]. apply Hsplit. split; [done|].
    intros Hc. rewrite Hset in Hm by lia. done. }
  assert (forall b, low <= b < next -> searched s0 i next b) as Hin.
  { intros b Hb. exists i, fl0. split_and!; [done|lia..]. }
  unfold nova_insert_blocknode_map. rewrite (bind_ok _ _ _ fl s) by (by apply get_free_list_run).
  destruct (kmem_cache_zalloc_ok (alloc_clock s)) eqn:Ek.
  2: { rewrite (bind_ok _ _ _ None (bump s))
         by (unfold nova_alloc_blocknode, nova_alloc_range_node, kmem_cache_zalloc; by rewrite Ek).
       eexists _, (bump s). split; [reflexivity|]. destruct R. split; auto using alloc_wf_bump.
       - eapply balloc_keep_trans; [eassumption|]. repeat split. cbn. lia.
       - intros b Hb. destruct (rb_sound0 b Hb) as [? ?]. split; [done|]. by apply Hsplit.
       - intros Hmem. rewrite (Hmem (alloc_clock s)) in Ek by apply rb_keep0. done. }
  rewrite (bind_ok _ _ _ (Some (alloc_clock s)) (bump s))
    by (unfold nova_alloc_blocknode, nova_alloc_range_node, kmem_cache_zalloc; by rewrite Ek).
  destruct (append_range (alloc_clock s) fl low (next - 1) Wf) as (t & Et & F); [lia..| |].
  { intros b Hb. pose proof (fl_free_bounds _ _ _ Wf Hb).
    assert (free_block s b = true) as Hfb by (apply existsb_lookup; by exists i, fl).
    destruct (rb_sound _ _ _ _ R b Hfb) as [_ (j & f & Hj & Hjb & Hor)].
    assert (j = i) as -> by (eapply (home_inj s0 j i _ _ b); eauto with lia). lia. }
  rewrite Et. cbn [negb Z.eqb]. rewrite (bind_ok _ _ _ _ _ (put_free_list_run _ _ _)).
  eexists 0, _. split; [reflexivity|]. rewrite (uwrap_small 64 (next - 1 - low + 1)) by lia.
  match goal with |- context [with_list _ ?f _] => set (fl1 := f) end.
  apply (freed_core _ _ _ fl1) in F.
  - pose proof (freed_effect _ _ _ _ _ _ W At F) as Eff.
    destruct (fe_frame _ _ _ _ Eff) as (X1 & X2 & _ & X3 & _ & _ & X4).
    assert (forall b, free_block (with_list (Z.of_nat i) fl1 (bump s)) b = true <->
      free_block s b = true \/ low <= b < next) as Hfree.
    { intros b. rewrite (fe_free _ _ _ _ Eff b), orb_true_iff. unfold in_blocks. rewrite andb_true_iff, Z.leb_le, Z.ltb_lt. intuition lia. }
    destruct R. split; try (by apply Eff); try (etransitivity; [eassumption|done]).
    + eapply balloc_keep_trans; [eassumption|]. apply Eff.
    + intros b [Hb|Hb]%Hfree; [|by auto]. destruct (rb_sound0 b Hb). split; [done|]. by apply Hsplit.
    + intros Hmem b Hm Hb. apply Hfree. destruct (Hnew b Hb Hm); auto.
  - pose proof (fl_first _ _ Wf) as Hf. pose proof (fl_num_nodes _ _ Wf) as Hnn.
    pose proof (fl_wf_counts _ _ Wf) as [_ Hc].
    subst fl1. cbn [num_blocknode set_num_blocknode set_block_free_tree first_node].
    rewrite (uwrap_small 64 (num_blocknode fl + 1)) by lia.
    destruct (fl_nodes fl) as [|x l]; cbn in Hf, Hnn; rewrite Hf.
    + repeat split; cbn; rewrite ?Hnn; done.
    + rewrite (proj2 (Z.eqb_neq _ 1)) by lia. repeat split; cbn; by rewrite ?uwrap_small by lia.
Qed.

(** ** The search *)
Section search.
Context (s0 : nova) (m bsize : Z).
Hypothesis W0 : alloc_wf s0.
Hypothesis Hfit : forall i fl, free_lists s0 !! i = Some fl -> 0 <= block_end fl < bsize.

(** The rest of list [i] is in use and no list after it has blocks. *)
Lemma search_done s i fl start :
  free_lists s0 !! i = Some fl -> rebuilt s0 s m (searched s0 i start) ->
  (forall k, start <= k <= block_end fl -> Z.testbit m k = true) ->
  (S i = length (free_lists s0) \/ block_end fl + 1 = bsize) ->
  rebuilt s0 s m (homed s0).
Proof.
  intros Hi R Hset Hlast. eapply rebuilt_iff; [exact R|..].
  - intros b (j & f & Hj & Hb & _) _. by exists j, f.
  - intros b (j & f & Hj & Hb) Hm. exists j, f. split_and!; [done|lia..|].
    destruct (Nat.lt_trichotomy j i) as [Hl|[->|Hl]]; [by left| |].
    + right. split; [done|]. rewrite Hi in Hj. injection Hj as <-.
      destruct (decide (b < start)); [done|]. rewrite Hset in Hm by lia. done.
    + exfalso. pose proof (lookup_lt_Some _ _ _ Hj). destruct Hlast as [|He]; [lia|].
      pose proof (Hfit _ _ Hj). pose proof (aw_home _ W0 _ _ Hi). pose proof (aw_home _ W0 _ _ Hj).
      pose proof (aw_plb _ W0). nia.
Qed.

Lemma search_next s i fl fl' start :
  free_lists s0 !! i = Some fl -> free_lists s0 !! S i = Some fl' ->
  rebuilt s0 s m (searched s0 i start) ->
  (forall k, start <= k <= block_end fl -> Z.testbit m k = true) ->
  rebuilt s0 s m (searched s0 (S i) (block_start fl')).
Proof.
  intros Hi Hi' R Hset. eapply rebuilt_iff; [exact R|..].
  - intros b (j & f & Hj & Hb & Hor) _. exists j, f. split_and!; [done|lia..].
  - intros b (j & f & Hj & Hb & Hor) Hm. exists j, f. split_and!; [done|lia..|].
    destruct (decide (j < i)%nat); [by left|]. right. destruct Hor as [Hlt|[-> Hlt]].
    + assert (j = i) as -> by lia. split; [done|]. rewrite Hi in Hj. injection Hj as <-.
      destruct (decide (b < start)); [done|]. rewrite Hset in Hm by lia. done.
    + rewrite Hi' in Hj. injection Hj as <-. lia.
Qed.

Definition search_cost (i : nat) (fl : free_list) (start : Z) : Z :=
  Z.max 0 (block_end fl + 1 - start) + 1 + sumZ list_cost (drop (S i) (free_lists s0)).

Lemma build_map_loop_run : forall fuel i fl start s,
  free_lists s0 !! i = Some fl -> block_start fl <= start ->
  search_cost i fl start <= Z.of_nat fuel -> rebuilt s0 s m (searched s0 i start) ->
  exists s', build_map_loop fuel m bsize 0 (Z.of_nat i) start (u64 (block_end fl + 1)) s = Ok tt s' /\
    rebuilt s0 s' m (homed s0).
Proof.
  induction fuel as [|fuel IH]; intros i fl start s Hi Hs Hf R.
  { unfold search_cost in Hf. assert (0 <= sumZ list_cost (drop (S i) (free_lists s0))); [|lia].
    apply sumZ_nonneg, Forall_forall. intros x _. unfold list_cost. lia. }
  pose proof (aw_list _ W0 _ _ Hi) as Wf. pose proof (fl_start _ _ Wf). pose proof (fl_end _ _ Wf).
  pose proof (Hfit _ _ Hi). set (e := block_end fl + 1) in *.
  assert (u64 e = e) as Ee by (unfold e; by rewrite uwrap_small by lia). rewrite Ee.
  cbn [build_map_loop]. rewrite (bind_ok _ _ _ (cpus (sbc s)) s), (rb_sbc _ _ _ _ R) by done.
  pose proof (aw_len _ W0) as Hlen. cbv zeta.
  assert (forall s1 start1, rebuilt s0 s1 m (searched s0 i start1) ->
    (forall k, start1 <= k < e -> Z.testbit m k = true) ->
    exists s', (if Z.of_nat i =? cpus (sbc s0) - 1 then ret tt else
      let! fl := nova_get_free_list (Z.of_nat i + 1) in
      build_map_loop fuel m bsize 0 (Z.of_nat i + 1) (block_start fl) (u64 (block_end fl + 1))) s1 = Ok tt s' /\
      rebuilt s0 s' m (homed s0)) as Hnext.
  { intros s1 start1 R1 Hset1. destruct (Z.eqb_spec (Z.of_nat i) (cpus (sbc s0) - 1)) as [El|Hl].
    - exists s1. split; [done|]. apply (search_done s1 i fl start1); [done..|intros; apply Hset1; lia|left; lia].
    - pose proof (lookup_lt_Some _ _ _ Hi). destruct (lookup_lt_is_Some_2 (free_lists s0) (S i)) as [fl' Hi']; [lia|].
      destruct (home_lookup _ _ _ _ (keep_home _ _ (rb_keep _ _ _ _ R1)) Hi') as (fl1 & Hi1 & [= Eb1 Eb2]).
      replace (Z.of_nat i + 1) with (Z.of_nat (S i)) by lia.
      rewrite (bind_ok _ _ _ fl1 s1) by (apply get_free_list_run; split; [lia|by rewrite Nat2Z.id]).
      rewrite Eb1, Eb2. apply IH; [done|lia| |].
      + revert Hf. unfold search_cost. rewrite (drop_S _ _ _ Hi'), sumZ_cons. unfold list_cost at 1. lia.
      + apply (search_next s1 i fl fl' start1); [done..|]. intros; apply Hset1; lia. }
  destruct (decide (e <= start)) as [Hge|Hlt].
  { rewrite find_clear_end by lia. destruct (Z.eqb_spec e bsize) as [Eb|].
    - exists s. split; [done|]. apply (search_done s i fl start); [done..|intros; lia|right; done].
    - rewrite Z.eqb_refl. apply (Hnext s start R). intros; lia. }
  destruct (find_clear m e start ltac:(lia)) as (F1 & F2 & F3).
  set (n1 := find_next_zero_bit m e start) in *. destruct (Z.eqb_spec n1 bsize) as [E1|Hn1].
  { exists s. split; [done|]. apply (search_done s i fl start); [done..|intros; apply F2; lia|right; lia]. }
  destruct (Z.eqb_spec n1 e) as [E2|Hn2]; [apply (Hnext s start R); intros; apply F2; lia|].
  destruct (find_set m e n1 ltac:(lia)) as (G1 & G2 & G3). set (n2 := find_next_bit m e n1) in *.
  assert (n1 < n2) as H12.
  { destruct (decide (n2 = n1)) as [E|]; [|lia]. rewrite E, F3 in G3 by lia. by specialize (G3 ltac:(lia)). }
  rewrite !Z.shiftl_0_r, (uwrap_small 64 n1), (uwrap_small 64 n2), (uwrap_small 64 (n2 - 1)) by lia.
  destruct (insert_blocknode_map_run s0 s m i fl start n1 n2 W0 R Hi) as (rc & s1 & Er & R1);
    [lia|unfold e in *; lia|intros; apply F2; lia|done|]. rewrite (bind_ok _ _ _ _ _ Er).
  destruct (Z.eqb_spec n2 bsize) as [E3|Hn3].
  { exists s1. split; [done|]. apply (search_done s1 i fl n2); [done..|intros; lia|right; lia]. }
  destruct (Z.eqb_spec n2 e) as [E4|Hn4]; [apply (Hnext s1 n2 R1); intros; lia|].
  specialize (IH i fl n2 s1 Hi ltac:(lia)). fold e in IH. rewrite Ee in IH. apply IH; [|done].
  revert Hf. unfold search_cost. fold e. lia.
Qed.
End search.

(** ** Logs *)

(** Every page of a log is marked in the 4 KB bitmap, and nothing else. *)
Lemma traverse_log_run s : device_ok s -> forall bs fuel bm,
  (forall b, b ∈ bs -> page_ok s b /\ memcpy_mcsafe_rc (log_link s (page_off b)) 8 = 0 /\
     b < 8 * bitmap_size (scan_bm_4K bm)) ->
  log_chain s (nvmm s) bs -> (length bs <= fuel)%nat ->
  exists bm', traverse_log fuel (default 0 (head (page_off <$> bs))) bm s = Ok bm' s /\
    marked_4K bm bm' (fun k => bool_decide (k ∈ bs)).
Proof.
  intros D. induction bs as [|b bs IH]; intros fuel bm Hok C Hf.
  { exists bm. split; [by destruct fuel|]. split_and!; auto. intros k _. by rewrite orb_false_r. }
  destruct fuel as [|fuel]; [cbn in Hf; lia|]. cbn [length] in Hf. change (default 0 (head (page_off <$> b :: bs))) with (page_off b).
  destruct (Hok b ltac:(set_solver)) as (P & Hr & Hb). pose proof P as [P1 P2].
  cbn [traverse_log]. rewrite (proj2 (Z.eqb_neq (page_off b) 0)) by (unfold page_off; lia).
  assert (Z.land (page_off b) (PAGE_SIZE - 1) = 0) as ->.
  { change (PAGE_SIZE - 1) with (Z.ones 12). rewrite Z.land_ones by lia. unfold page_off. by apply Z.mod_mul. }
  cbn [negb Z.eqb]. assert (Z.shiftr (page_off b) PAGE_SHIFT = b) as ->.
  { unfold page_off, PAGE_SHIFT. rewrite Z.shiftr_div_pow2 by done. by apply Z.div_mul. }
  destruct (set_bm_4K_run b bm s) as (bm1 & E1 & M1); [lia|]. rewrite (bind_ok _ _ _ _ _ E1).
  rewrite (bind_ok _ _ _ _ _ (next_log_page_run s (page_off b) b D P Hr (page_off_block b))).
  destruct C as [-> C]. destruct (IH fuel bm1) as (bm' & E & Mk); [|exact C|lia|].
  { intros c Hc. destruct M1 as (_ & _ & -> & _). apply Hok. set_solver. }
  exists bm'. split; [exact E|]. eapply marked_4K_ext; [exact (marked_4K_trans _ _ _ _ _ M1 Mk)|].
  intros k _. cbn. apply eq_true_iff_eq.
  rewrite orb_true_iff, !bool_decide_eq_true, Z.eqb_eq, elem_of_cons. done.
Qed.

Lemma traverse_inode_log_run s bs bm :
  device_ok s -> log_pages s bs -> (forall b, b ∈ bs -> b < 8 * bitmap_size (scan_bm_4K bm)) ->
  exists bm', nova_traverse_inode_log bm (default 0 (head (page_off <$> bs))) s = Ok bm' s /\
    marked_4K bm bm' (fun k => bool_decide (k ∈ bs)).
Proof.
  intros D L Hb. unfold nova_traverse_inode_log. rewrite (bind_ok _ _ _ (chain_fuel s) s) by done.
  apply (traverse_log_run s D); [|apply L|].
  - intros b Hin. split_and!; [by apply L..|by apply Hb].
  - destruct bs as [|b bs]; [cbn; lia|]. destruct (lp_ok _ _ L b ltac:(set_solver)) as [H1' H2'].
    pose proof (log_pages_bound s _ (lp_nodup _ _ L) (lp_ok _ _ L) ltac:(unfold page_off in H2'; lia)). lia.
Qed.

(** ** The whole rebuild *)
Definition marked (bms : list scan_bitmap) (b : Z) : bool := existsb (fun bm => bm_marks bm b) bms.

(** The 4 KB blocks a bitmap of a device of [size] bytes has bits for. *)
Definition bm_blocks (size : Z) : Z := 8 * Z.shiftr size (PAGE_SHIFT + 3).

Lemma __build_blocknode_map_run s m bsize :
  alloc_wf s -> (forall i fl, free_lists s !! i = Some fl -> 0 <= block_end fl < bsize /\ fl_nodes fl = []) ->
  exists s', __nova_build_blocknode_map m bsize 0 s = Ok 0 s' /\ rebuilt s s' m (homed s).
Proof.
  intros W Hl. pose proof (aw_len _ W). pose proof (aw_cpus _ W).
  destruct (lookup_lt_is_Some_2 (free_lists s) 0) as [fl Hi]; [lia|].
  destruct (build_map_loop_run s m bsize W) with (fuel := build_fuel s) (i := 0%nat) (fl := fl)
    (start := block_start fl) (s := s) as (s' & E & R); [|done|lia| | |].
  - intros i f Hf. apply (Hl i f Hf).
  - pose proof (f_equal (sumZ list_cost) (drop_S _ _ _ Hi)) as Ed. rewrite drop_0, sumZ_cons in Ed.
    unfold build_fuel, search_cost. rewrite Ed. unfold list_cost at 2. lia.
  - split; try done; try apply balloc_keep_refl.
    + intros b (i & f & Hf & Hb)%existsb_lookup. unfold fl_free in Hb. by rewrite (proj2 (Hl i f Hf)) in Hb.
    + intros _ b _ (j & f & Hj & Hb & [|[-> Hlt]]); [lia|]. rewrite Hi in Hj. injection Hj as <-. lia.
  - exists s'. split; [|done]. unfold __nova_build_blocknode_map.
    rewrite (bind_ok _ _ _ fl s) by (by apply get_free_list_run).
    rewrite (bind_ok _ _ _ (build_fuel s) s) by done. by rewrite (bind_ok _ _ _ _ _ E).
Qed.

(** After the parts of the device have been laid out. *)
Lemma build_blocknode_map_run s bms nb size :
  alloc_wf s -> nb = bm_blocks size -> 0 <= size -> nb < 2 ^ 31 -> Forall (bms_ok nb) bms ->
  (forall i fl, free_lists s !! i = Some fl -> 0 <= block_end fl < nb /\ fl_nodes fl = []) ->
  kmem_cache_zalloc_ok (alloc_clock s) = true -> kmem_cache_zalloc_ok (alloc_clock s + 1) = true ->
  exists bms' s' m, nova_build_blocknode_map bms size s = Ok (0, bms') s' /\ Forall2 expanded bms bms' /\
    (forall b, 0 <= b < nb -> Z.testbit m b = marked bms b) /\ rebuilt (bump (bump s)) s' m (homed s).
Proof.
  intros W Enb Hsz Hnb F Hl Hk1 Hk2. unfold bm_blocks in Enb.
  unfold nova_build_blocknode_map. set (sz := Z.shiftr size (PAGE_SHIFT + 3)) in *.
  assert (0 <= sz) by (by apply Z.shiftr_nonneg).
  rewrite (bind_ok _ _ _ (Some (alloc_clock s)) (bump s)) by (unfold kmem_cache_zalloc; by rewrite Hk1).
  rewrite (bind_ok _ _ _ (Some (alloc_clock s + 1)%positive) (bump (bump s)))
    by (unfold kmem_cache_zalloc; change (alloc_clock (bump s)) with (alloc_clock s + 1)%positive; by rewrite Hk2).
  destruct (expand_bms_run nb (bump (bump s)) Hnb bms F) as (bms' & E1 & Fe).
  rewrite (bind_ok _ _ _ _ _ E1). cbv zeta. rewrite (uwrap_small 64 (sz * 8)) by lia.
  set (num := sz / 8 + (if sz mod 8 =? 0 then 0 else 1)). set (m := foldl _ 0 bms').
  destruct (__build_blocknode_map_run (bump (bump s)) m (sz * 8)) as (s' & E2 & R).
  { by repeat apply alloc_wf_bump. }
  { intros i fl Hi. destruct (Hl i fl Hi). split; [lia|done]. }
  exists bms', s', m. split_and!; [|done| |exact R].
  - change (PAGE_SHIFT - 12) with 0. by rewrite (bind_ok _ _ _ _ _ E2).
  - intros b Hb. assert (8 * sz <= 64 * num).
    { unfold num. pose proof (Z.div_mod sz 8). pose proof (Z.mod_pos_bound sz 8).
      destruct (Z.eqb_spec (sz mod 8) 0); lia. }
    unfold m. rewrite (merge_fold num bms bms') by (done || lia). by rewrite Z.testbit_0_l.
Qed.

(** What recovery does with the lists after a crash, the scan apart: lay them
    out empty, then fill them from the bitmaps. *)
Definition rebuild_free_lists (bms : list scan_bitmap) (size : Z) : M (Z * list scan_bitmap) :=
  nova_init_blockmap 1 ;;; nova_build_blocknode_map bms size.

(** C7: after a crash, [nova_build_blocknode_map] run on the
    freshly laid out free lists returns 0 and leaves a well-formed allocator
    that only has blocks no CPU's 4 KB, 2 MB or 1 GB bitmap marks: no block in
    use is ever handed out again, even when node allocations fail on the way.
    When none fails, every unmarked block of the lists' parts of the device is
    free again. *)
Theorem nova_build_blocknode_map_correct s bms :
  let nb := bm_blocks (initsize (sbc s)) in
  geometry_ok (sbc s) -> Z.of_nat (length (free_lists s)) = cpus (sbc s) ->
  (forall fl, fl ∈ free_lists s -> fl = zeroed_free_list) ->
  num_blocks (sbc s) <= nb < 2 ^ 31 -> Forall (bms_ok nb) bms ->
  kmem_cache_zalloc_ok (alloc_clock s) = true -> kmem_cache_zalloc_ok (alloc_clock s + 1) = true ->
  exists bms' s', rebuild_free_lists bms (initsize (sbc s)) s = Ok (0, bms') s' /\
    alloc_wf s' /\ laid_out s' /\
    (forall b, free_block s' b = true -> homed s' b /\ marked bms b = false) /\
    (memory_from (alloc_clock s) ->
     forall b, homed s' b -> marked bms b = false -> free_block s' b = true).
Proof.
  intros nb G HL Hz Hnb F Hk1 Hk2.
  destruct (init_blockmap_recovery_run s G HL Hz) as (s1 & E1 & W1 & Lo & Hn & Eq).
  assert (sbc s1 = sbc s) as Es by (by rewrite Eq). assert (alloc_clock s1 = alloc_clock s) as Ec by (by rewrite Eq).
  assert (forall i fl, free_lists s1 !! i = Some fl -> 0 <= block_end fl < nb /\ fl_nodes fl = []) as Hl.
  { intros i fl Hi. split; [|by eapply Hn]. destruct (Lo i fl Hi) as [L1 L2]. rewrite Es in L1, L2.
    pose proof (lookup_lt_Some _ _ _ Hi). pose proof (aw_len _ W1) as Hlen. rewrite Es in Hlen.
    pose proof (list_range (sbc s) (Z.of_nat i) G ltac:(lia)) as (R1 & R2 & R3 & R4).
    pose proof (geo_cpus _ G). assert (plb (sbc s) * cpus (sbc s) <= num_blocks (sbc s)).
    { unfold plb. pose proof (Z.mul_div_le (num_blocks (sbc s)) (cpus (sbc s))). lia. }
    rewrite L2. nia. }
  destruct (build_blocknode_map_run s1 bms nb (initsize (sbc s)) W1 eq_refl) as
    (bms' & s' & m & E2 & Fe & Hm & R); [apply G|lia|done|done|by rewrite Ec..|].
  assert (same_home s1 s') as Sh by exact (keep_home _ _ (rb_keep _ _ _ _ R)).
  pose proof (fun b => homed_iff _ _ b Sh) as Hin.
  assert (forall b, homed s1 b -> 0 <= b < nb) as Hrng.
  { intros b (i & fl & Hi & Hb). pose proof (Hl i fl Hi). pose proof (fl_start _ _ (aw_list _ W1 _ _ Hi)). lia. }
  exists bms', s'. split_and!; [| | | |].
  - unfold rebuild_free_lists. by rewrite (bind_ok _ _ _ _ _ E1).
  - apply R.
  - apply (laid_out_home s1); [done|exact (rb_sbc _ _ _ _ R)|done].
  - intros b Hb. destruct (rb_sound _ _ _ _ R b Hb) as [H1' H2']. split; [by apply Hin|].
    rewrite <- Hm; auto.
  - intros Hmem b Hb Hm'. apply (rb_complete _ _ _ _ R).
    + intros q Hq. apply Hmem. cbn in Hq. rewrite Ec in Hq. lia.
    + rewrite Hm; [done|]. by apply Hrng, Hin.
    + by apply Hin.
Qed.
End build.
