(* ===== verification/InodeTable.v ===== *)
(** The inode table (inode.c): per-CPU chains of 2 MB superpages holding the
    inodes, the link to the next superpage in the last 8 bytes of each.

    Each definition translates the C function of the same name. *)

From stdpp Require Import strings.
From S2P Require Import Prelude CInt Crc32c NovaEnv RangeNode Pmem NovaState NovaMonad NovaLib.
From S2P Require Import Balloc NovaLayout InodeMap.

Local Open Scope nova_scope.
Local Open Scope string_scope.
Local Open Scope Z_scope.

Definition blk_type_to_shift : list Z := [12; 21; 30].
Definition blk_type_to_size : list Z := [0x1000; 0x200000; 0x40000000].
Definition NOVA_INODE_BITS : Z := 7.

(** [sih.i_blk_type = NOVA_BLOCK_TYPE_2M] *)
Definition nova_inode_blk_size (i_blk_type : Z) : Z :=
  default 0 (blk_type_to_size !! Z.to_nat i_blk_type).
Definition nova_inode_blk_shift (i_blk_type : Z) : Z :=
  default 0 (blk_type_to_shift !! Z.to_nat i_blk_type).

Section table.
Context `{NovaEnv, RbLib}.

(** The body of the loop of [nova_alloc_inode_table]; [Some r] is its
    [return].  [version ? ALLOC_FROM_TAIL : ALLOC_FROM_HEAD]. *)
Definition alloc_dir (version : Z) : nova_alloc_direction :=
  if negb (version =? 0) then ALLOC_FROM_TAIL else ALLOC_FROM_HEAD.

Definition alloc_table_body (i_blk_type version i : Z) : M (option Z) :=
  let! table := nova_get_inode_table version i in
  if table =? 0 then ret (Some (- EINVAL))
  else
    let! r := nova_new_log_blocks i_blk_type 0 1 true i (alloc_dir version) in
    let '(allocated, blocknr) := r in
    if negb (allocated =? 1) || (blocknr =? 0) then ret (Some (- ENOSPC))
    else
      let block := nova_get_block_off blocknr NOVA_BLOCK_TYPE_2M in
      nova_memunlock_range table CACHELINE_SIZE ;;;
      pstore_field inode_table table "log_head" block ;;;
      nova_memlock_range table CACHELINE_SIZE ;;;
      nova_flush_buffer table CACHELINE_SIZE false ;;;
      ret None.

Definition nova_alloc_inode_table (i_blk_type version : Z) : M Z :=
  let! n := gets (fun s => cpus (sbc s)) in
  let! r := for_loop (Z.to_nat n) 0 (alloc_table_body i_blk_type version) in
  ret (default 0 r).

Definition nova_init_inode_table : M Z :=
  let! pi := gets (fun s => nova_get_inode_by_ino s NOVA_INODETABLE_INO) in
  nova_memunlock_inode pi ;;;
  pstore_field nova_inode pi "i_mode" 0 ;;;
  pstore_field nova_inode pi "i_uid" 0 ;;;
  pstore_field nova_inode pi "i_gid" 0 ;;;
  pstore_field nova_inode pi "i_links_count" 1 ;;;
  pstore_field nova_inode pi "i_flags" 0 ;;;
  pstore_field nova_inode pi "nova_ino" NOVA_INODETABLE_INO ;;;
  pstore_field nova_inode pi "i_blk_type" NOVA_BLOCK_TYPE_2M ;;;
  nova_memlock_inode pi ;;;
  let num_tables := if negb (metadata_csum =? 0) then 2 else 1 in
  let! r := for_loop (Z.to_nat num_tables) 0 (fun i =>
    let! rc := nova_alloc_inode_table NOVA_BLOCK_TYPE_2M i in
    ret (if negb (rc =? 0) then Some rc else None)) in
  match r with
  | Some rc => ret rc
  | None => PERSISTENT_BARRIER ;;; ret 0
  end.

(** The loop of [nova_get_inode_address]: [inl rc] is a [return], [inr (curr,
    extended)] its end after [n] steps along the chain. *)
Fixpoint table_walk (n : nat) (version cpuid : Z) (extendable : bool) (curr : Z)
    (extended : bool) : M (Z + Z * bool) :=
  match n with
  | O => ret (inr (curr, extended))
  | S n =>
      if curr =? 0 then ret (inl (- EINVAL))
      else
        let! curr_addr := gets (fun s =>
          u64 (nova_get_block s curr + (nova_inode_blk_size NOVA_BLOCK_TYPE_2M - 8))) in
        let! curr := pload 8 curr_addr in
        if curr =? 0 then
          if negb extendable then ret (inl (- EINVAL))
          else
            let! r := nova_new_log_blocks NOVA_BLOCK_TYPE_2M 0 1 true cpuid (alloc_dir version) in
            let '(allocated, blocknr) := r in
            if negb (allocated =? 1) then ret (inl allocated)
            else
              let curr := nova_get_block_off blocknr NOVA_BLOCK_TYPE_2M in
              nova_memunlock_range curr_addr CACHELINE_SIZE ;;;
              pstore 8 curr_addr curr ;;;
              nova_memlock_range curr_addr CACHELINE_SIZE ;;;
              nova_flush_buffer curr_addr NOVA_INODE_SIZE true ;;;
              table_walk n version cpuid extendable curr true
        else table_walk n version cpuid extendable curr extended
  end.

(** [nova_get_inode_address] up to the extension of the alternate table:
    [inl rc], or the address and [extended]. *)
Definition inode_address_in (ino version : Z) (extendable : bool) : M (Z + Z * bool) :=
  let! n := gets (fun s => cpus (sbc s)) in
  if n =? 0 then raise FDivide
  else
    let num_inodes_bits := nova_inode_blk_shift NOVA_BLOCK_TYPE_2M - NOVA_INODE_BITS in
    let cpuid := s32 (ino mod n) in
    let internal_ino := ino / n in
    let! table := nova_get_inode_table version cpuid in
    let superpage_count := u32 (Z.shiftr internal_ino num_inodes_bits) in
    let index := u32 (Z.land internal_ino (Z.shiftl 1 num_inodes_bits - 1)) in
    let! curr := pload_field inode_table table "log_head" in
    if curr =? 0 then ret (inl (- EINVAL))
    else
      let! r := table_walk (Z.to_nat superpage_count) version cpuid extendable curr false in
      match r with
      | inl rc => ret (inl rc)
      | inr (curr, extended) => ret (inr (u64 (curr + u32 (index * NOVA_INODE_SIZE)), extended))
      end.

(** Returns the result and [*pi_addr], which keeps its value [pi_addr0] on
    failure.  The recursive call passes [extend_alternate = 0] and its result
    is ignored. *)
Definition nova_get_inode_address (ino version pi_addr0 : Z) (extendable extend_alternate : bool)
    : M (Z * Z) :=
  if ino <? NOVA_NORMAL_INODE_START then ret (0, nova_get_reserved_inode_addr ino)
  else
    let! r := inode_address_in ino version extendable in
    match r with
    | inl rc => ret (rc, pi_addr0)
    | inr (pi_addr, extended) =>
        (if extended && extend_alternate && negb (metadata_csum =? 0)
         then let! _ := inode_address_in ino (version + 1) extendable in ret tt
         else ret tt) ;;;
        ret (0, pi_addr)
    end.

(** Returns the result and [*alter_pi_addr]. *)
Definition nova_get_alter_inode_address (ino alter_pi_addr0 : Z) : M (Z * Z) :=
  if metadata_csum =? 0 then nova_err ;;; ret (0, alter_pi_addr0)
  else if ino <? NOVA_NORMAL_INODE_START then
    let! a := gets (fun s => nova_get_alter_reserved_inode_addr s ino) in ret (0, a)
  else nova_get_inode_address ino 1 alter_pi_addr0 false false.

(** Returns the inode number (0 on failure) and [*pi_addr]. *)
Definition nova_new_nova_inode (pi_addr0 : Z) : M (Z * Z) :=
  let! map := gets map_id in
  let! n := gets (fun s => cpus (sbc s)) in
  if n =? 0 then raise FDivide
  else
    modify (fun s => set_map_id (u64 (map_id s + 1) mod n) s) ;;;
    let! r := nova_alloc_unused_inode (s32 map) 0 in
    let '(rc, free_ino) := r in
    if negb (rc =? 0) then ret (0, pi_addr0)
    else
      let! r := nova_get_inode_address free_ino 0 pi_addr0 true true in
      let '(rc, pi_addr) := r in
      if negb (rc =? 0) then ret (0, pi_addr0)
      else ret (free_ino, pi_addr).
End table.
