(* ===== verification/InodeTableSpec.v ===== *)
(** Correctness of the inode table.

    [tables_wf s pages] describes the two tables: [pages v cpu] is the chain of
    superpages of [cpu] in table [v] (the primary one or its replica), linked
    through the last word of each.  The address of an inode is its slot in the
    superpage its number selects; slots of different inodes do not overlap, nor
    do they reach the link words. *)

From stdpp Require Import strings.
From S2P Require Import Prelude CInt Crc32c NovaEnv RangeNode Pmem NovaState NovaMonad NovaLib.
From S2P Require Import Balloc BallocSpec BallocAlloc NovaLayout PmemOps.
From S2P Require Import InodeMap InodeMapSpec InodeTable.

Local Open Scope nova_scope.

Definition SUPERPAGE : Z := 2 ^ 21.
Definition PER_SUPERPAGE : Z := 2 ^ 14.

(** The superpages of each CPU, for the primary table ([false]) and the
    replica. *)
Definition chains : Type := bool -> Z -> list Z.

Definition link_addr (s : nova) (p : Z) : Z := virt_addr (sbc s) + p + SUPERPAGE - 8.
Definition head_addr (s : nova) (v : bool) (cpu : Z) : Z :=
  virt_addr (sbc s) + 4096 * (if v then INODE_TABLE1_START else INODE_TABLE0_START) + cpu * 64.

(** A chain of superpages in memory. *)
Notation chain_in s := (linked (link_addr s)).

(** A superpage lies past the reserved blocks and inside the device, and its
    blocks are allocated. *)
Definition superpage_ok (s : nova) (p : Z) : Prop :=
  HEAD_RESERVED_BLOCKS * 4096 <= p /\ p + SUPERPAGE + 64 <= initsize (sbc s) /\
  forall b, p < (b + 1) * 4096 -> b * 4096 < p + SUPERPAGE -> free_block s b = false.

Definition pages_apart (p q : Z) : Prop := p + SUPERPAGE <= q \/ q + SUPERPAGE <= p.

Record tables_wf (s : nova) (pages : chains) : Prop := {
  tw_head : forall v cpu, 0 <= cpu < cpus (sbc s) ->
    load 8 (nvmm s) (head_addr s v cpu) = default 0 (head (pages v cpu));
  tw_chain : forall v cpu, 0 <= cpu < cpus (sbc s) -> chain_in s (nvmm s) (pages v cpu);
  tw_page : forall v cpu p, 0 <= cpu < cpus (sbc s) -> p ∈ pages v cpu -> superpage_ok s p;
  tw_apart : forall v1 c1 i1 p1 v2 c2 i2 p2,
    0 <= c1 < cpus (sbc s) -> 0 <= c2 < cpus (sbc s) ->
    pages v1 c1 !! i1 = Some p1 -> pages v2 c2 !! i2 = Some p2 ->
    (v1, c1, i1) <> (v2, c2, i2) -> pages_apart p1 p2
}.

(** The state the table code runs in: a well-formed allocator on a device that
    leaves a cache line after the last block it may hand out. *)
Record table_ctx `{NovaEnv} (s : nova) (pages : chains) : Prop := {
  tc_alloc : alloc_wf s;
  tc_dev : device_ok s;
  tc_room : forall fl, fl ∈ free_lists s -> (block_end fl + 1) * PAGE_SIZE + 64 <= initsize (sbc s);
  tc_start : forall fl, fl ∈ free_lists s -> HEAD_RESERVED_BLOCKS <= block_start fl;
  tc_cpus : cpus (sbc s) <= 1024;
  tc_size : HEAD_RESERVED_BLOCKS * 4096 <= initsize (sbc s);
  tc_tables : tables_wf s pages
}.

(** ** Slots *)
Definition ino_super (n ino : Z) : Z := ino / n / PER_SUPERPAGE.
Definition ino_index (n ino : Z) : Z := (ino / n) mod PER_SUPERPAGE.
Definition inode_slot (n : Z) (pages : chains) (v : bool) (ino : Z) : option Z :=
  (fun p => p + ino_index n ino * NOVA_INODE_SIZE) <$>
  pages v (ino mod n) !! Z.to_nat (ino_super n ino).

Lemma ino_index_bound n ino : 0 <= ino_index n ino < PER_SUPERPAGE.
Proof. apply Z.mod_pos_bound. done. Qed.

(** A number is its CPU, its superpage and its index. *)
Lemma ino_coords n i j :
  0 < n -> i mod n = j mod n -> ino_super n i = ino_super n j -> ino_index n i = ino_index n j ->
  i = j.
Proof.
  unfold ino_super, ino_index, PER_SUPERPAGE. intros Hn Em Es Ei.
  assert (i / n = j / n) as E.
  { rewrite (Z.div_mod (i / n) (2 ^ 14)), (Z.div_mod (j / n) (2 ^ 14)) by done. congruence. }
  rewrite (Z.div_mod i n), (Z.div_mod j n) by lia. congruence.
Qed.

(** The records of two different inodes (of either table)
    never overlap, and a record, whose 120 bytes leave the last word of its
    slot alone, never overlaps the link word of any superpage. *)
Theorem inode_slots_disjoint s pages v1 ino1 a1 v2 ino2 a2 cpu v p :
  tables_wf s pages -> 0 < cpus (sbc s) -> 0 <= ino1 -> 0 <= ino2 ->
  inode_slot (cpus (sbc s)) pages v1 ino1 = Some a1 ->
  inode_slot (cpus (sbc s)) pages v2 ino2 = Some a2 -> (v1, ino1) <> (v2, ino2) ->
  0 <= cpu < cpus (sbc s) -> p ∈ pages v cpu ->
  (a1 + NOVA_INODE_SIZE <= a2 \/ a2 + NOVA_INODE_SIZE <= a1) /\
  (virt_addr (sbc s) + a1 + sizeof nova_inode <= link_addr s p \/
   link_addr s p + 8 <= virt_addr (sbc s) + a1).
Proof.
  intros W Hn H1 H2 E1 E2 Hne Hc Hp. unfold inode_slot in *.
  set (n := cpus (sbc s)) in *.
  pose proof (ino_index_bound n ino1) as B1. pose proof (ino_index_bound n ino2) as B2.
  pose proof (Z.mod_pos_bound ino1 n Hn) as M1. pose proof (Z.mod_pos_bound ino2 n Hn) as M2.
  destruct (pages v1 (ino1 mod n) !! _) as [p1|] eqn:L1; [|done].
  destruct (pages v2 (ino2 mod n) !! _) as [p2|] eqn:L2; [|done]. injection E1 as <-. injection E2 as <-.
  assert (sizeof nova_inode = 120) as -> by done.
  unfold PER_SUPERPAGE, NOVA_INODE_SIZE, link_addr, pages_apart, SUPERPAGE in *. split.
  - destruct (decide ((v1, ino1 mod n, Z.to_nat (ino_super n ino1))
                    = (v2, ino2 mod n, Z.to_nat (ino_super n ino2)))) as [[= -> Em Es]|Hd].
    + assert (ino_index n ino1 <> ino_index n ino2) as Hi.
      { intros Ei. apply Hne. f_equal. apply (ino_coords n); auto.
        assert (0 <= ino_super n ino1) by (unfold ino_super; repeat apply Z.div_pos; lia || done).
        assert (0 <= ino_super n ino2) by (unfold ino_super; repeat apply Z.div_pos; lia || done).
        lia. }
      rewrite Em, Es in L1. rewrite L1 in L2. simplify_eq. lia.
    + destruct (tw_apart _ _ W _ _ _ _ _ _ _ _ M1 M2 L1 L2 Hd) as [A|A];
        unfold SUPERPAGE in A; lia.
  - apply list_elem_of_lookup in Hp as [i Hp].
    destruct (decide ((v1, ino1 mod n, Z.to_nat (ino_super n ino1)) = (v, cpu, i))) as [[= -> <- <-]|Hd].
    + rewrite L1 in Hp. simplify_eq. lia.
    + destruct (tw_apart _ _ W _ _ _ _ _ _ _ _ M1 Hc L1 Hp Hd) as [A|A];
        unfold SUPERPAGE in A; lia.
Qed.

Section spec.
Context `{NovaEnv, RbLibOk}.

(** ** Reading the table *)
Definition table_of (version : Z) : bool := negb (Z.land version 1 =? 0).

Lemma get_inode_table_run s version cpu :
  0 <= cpu < cpus (sbc s) ->
  nova_get_inode_table version cpu s = Ok (head_addr s (table_of version) cpu) s.
Proof.
  intros Hc. unfold nova_get_inode_table, bind, gets. rewrite (proj2 (Z.leb_gt _ _)) by (cbn; lia).
  unfold ret, head_addr, table_of. f_equal. unfold nova_get_block.
  unfold NOVA_DEF_BLOCK_SIZE_4K, INODE_TABLE0_START, INODE_TABLE1_START, CACHELINE_SIZE.
  destruct (Z.land version 1 =? 0); reflexivity.
Qed.

Lemma link_addr_code s p :
  device_ok s -> 0 < p -> p + SUPERPAGE <= initsize (sbc s) ->
  u64 (nova_get_block s p + (nova_inode_blk_size NOVA_BLOCK_TYPE_2M - 8)) = link_addr s p.
Proof.
  intros (Hv & Hsz & _) Hp Hi. unfold nova_get_block, link_addr, SUPERPAGE in *.
  rewrite (proj2 (Z.eqb_neq p 0)) by lia.
  change (nova_inode_blk_size NOVA_BLOCK_TYPE_2M - 8) with (2 ^ 21 - 8).
  rewrite uwrap_small by lia. lia.
Qed.

Lemma pload_link s p :
  device_ok s -> 0 < p -> p + SUPERPAGE <= initsize (sbc s) ->
  pload 8 (link_addr s p) s = Ok (load 8 (nvmm s) (link_addr s p)) s.
Proof.
  intros _ Hp Hi. apply pload_run. apply in_pmem_spec. unfold link_addr, SUPERPAGE in *. lia.
Qed.

Lemma superpage_pos s p : superpage_ok s p -> 0 < p /\ p + SUPERPAGE <= initsize (sbc s).
Proof. intros (? & ? & _). unfold HEAD_RESERVED_BLOCKS in *. lia. Qed.

(** Following [n] links that exist. *)
Lemma table_walk_in s pages version v cpu c e ext n l1 p l2 k :
  table_ctx s pages -> 0 <= cpu < cpus (sbc s) -> pages v cpu = l1 ++ p :: l2 ->
  (n <= length l2)%nat ->
  table_walk (n + k) version c e p ext s = table_walk k version c e (nth n (p :: l2) 0) ext s.
Proof.
  intros T Hc. revert l1 p l2. induction n as [|n IH]; intros l1 p l2 E Hn; [done|].
  destruct l2 as [|q l2]; [cbn in Hn; lia|].
  pose proof (tc_tables _ _ T) as W. pose proof (tc_dev _ _ T) as D.
  pose proof (tw_chain _ _ W v cpu Hc) as C. rewrite E in C. apply linked_at in C. change (default 0 (head (q :: l2))) with q in C.
  assert (superpage_ok s p) as Pp by (apply (tw_page _ _ W v cpu); [done|]; rewrite E; set_solver).
  assert (superpage_ok s q) as Pq by (apply (tw_page _ _ W v cpu); [done|]; rewrite E; set_solver).
  apply superpage_pos in Pp as [P1 P2]. apply superpage_pos in Pq as [Q1 _].
  change (S n + k)%nat with (S (n + k)). cbn [table_walk].
  rewrite (proj2 (Z.eqb_neq p 0)) by lia.
  rewrite (bind_ok _ _ _ (link_addr s p) s) by (unfold gets; by rewrite link_addr_code).
  rewrite (bind_ok _ _ _ _ _ (pload_link s p D P1 P2)), C.
  rewrite (proj2 (Z.eqb_neq q 0)) by lia.
  rewrite (IH (l1 ++ [p]) q l2) by (rewrite ?E, <- ?app_assoc; cbn in *; auto; lia). done.
Qed.

(** ** Extending a chain *)
Definition grow (pages : chains) (v : bool) (cpu q : Z) : chains :=
  fun v' c' => if decide ((v', c') = (v, cpu)) then pages v' c' ++ [q] else pages v' c'.

Lemma grow_lookup pages v cpu q v' c' i p :
  grow pages v cpu q v' c' !! i = Some p ->
  pages v' c' !! i = Some p \/ (v' = v /\ c' = cpu /\ i = length (pages v cpu) /\ p = q).
Proof.
  unfold grow. case_decide as D; [|by left]. injection D as -> ->.
  intros [?|[? Hp]]%lookup_app_Some; [by left|right].
  apply list_lookup_singleton_Some in Hp as [? ->]. split_and!; auto. lia.
Qed.

Lemma chain_in_sbc s s' m l : sbc s' = sbc s -> chain_in s m l -> chain_in s' m l.
Proof.
  intros Es. unfold linked. induction l as [|p l IH]; cbn [linked_to]; [done|].
  unfold link_addr. rewrite Es. intros [? ?]; auto.
Qed.

(** The blocks of a superpage that was free are apart from every superpage of
    the tables. *)
Lemma free_apart s p blk :
  superpage_ok s p -> (forall b, in_blocks blk 512 b = true -> free_block s b = true) ->
  pages_apart p (blk * 4096).
Proof.
  intros (_ & _ & Hp) Hf. unfold pages_apart, SUPERPAGE in *.
  destruct (decide (p + 2 ^ 21 <= blk * 4096)) as [|H1']; [by left|].
  destruct (decide (blk * 4096 + 2 ^ 21 <= p)) as [|H2']; [by right|]. exfalso.
  assert (exists b, p < (b + 1) * 4096 /\ b * 4096 < p + 2 ^ 21 /\ blk <= b < blk + 512)
    as (b & Hb1 & Hb2 & Hb3).
  { destruct (decide (p <= blk * 4096)).
    - exists blk. lia.
    - exists (p / 4096). pose proof (Z.div_mod p 4096). pose proof (Z.mod_pos_bound p 4096). lia. }
  specialize (Hp b Hb1 Hb2). rewrite Hf in Hp; [done|]. unfold in_blocks. bool_lia.
Qed.

Lemma link_apart s p q : pages_apart p q ->
  link_addr s p + 8 <= link_addr s q \/ link_addr s q + 8 <= link_addr s p.
Proof. unfold pages_apart, link_addr, SUPERPAGE. lia. Qed.

(** Where a new superpage lies. *)
Lemma new_superpage_place s pages s1 blk :
  table_ctx s pages -> zeroed_alloc s s1 blk 512 ->
  HEAD_RESERVED_BLOCKS * 4096 <= blk * 4096 /\ blk * 4096 + SUPERPAGE + 64 <= initsize (sbc s).
Proof.
  intros T Z. pose proof (tc_alloc _ _ T) as W.
  assert (forall b, in_blocks blk 512 b = true ->
    HEAD_RESERVED_BLOCKS <= b /\ (b + 1) * 4096 + 64 <= initsize (sbc s)) as Hb.
  { intros b Hin. apply (za_from _ _ _ _ Z) in Hin. apply existsb_lookup in Hin as (i & fl & Ei & Hf).
    pose proof (fl_free_bounds _ _ _ (aw_list _ W _ _ Ei) Hf).
    pose proof (tc_room _ _ T fl (list_elem_of_lookup_2 _ _ _ Ei)) as R.
    pose proof (tc_start _ _ T fl (list_elem_of_lookup_2 _ _ _ Ei)). unfold PAGE_SIZE in R. lia. }
  unfold SUPERPAGE. destruct (Hb blk) as [? _]; [unfold in_blocks; bool_lia|].
  destruct (Hb (blk + 511)) as [_ ?]; [unfold in_blocks; bool_lia|]. lia.
Qed.

(** What the extension leaves of the device. *)
Lemma grow_mem s pages s1 blk p x :
  table_ctx s pages -> zeroed_alloc s s1 blk 512 ->
  let q := blk * 4096 in
  let m := store 8 (nvmm s1) (link_addr s p) q in
  ~ (virt_addr (sbc s) + q <= x < virt_addr (sbc s) + q + SUPERPAGE) ->
  ~ (link_addr s p <= x < link_addr s p + 8) -> mget m x = mget (nvmm s) x.
Proof.
  intros T Z q m Hq Hl. unfold m. rewrite mget_store_out by (cbn; lia).
  rewrite (za_zero _ _ _ _ Z x). unfold PAGE_SIZE, q, SUPERPAGE in *. by rewrite decide_False by lia.
Qed.

(** One superpage [blk], just allocated and zeroed, linked after the last
    superpage [p] of the chain of [cpu] in table [v]. *)
Section growing.
Context (s s1 s' : nova) (pages : chains) (blk : Z) (v : bool) (cpu : Z) (l : list Z) (p : Z).
Hypothesis T : table_ctx s pages.
Hypothesis Hc : 0 <= cpu < cpus (sbc s).
Hypothesis E : pages v cpu = l ++ [p].
Hypothesis Z : zeroed_alloc s s1 blk 512.
Hypothesis U : mem_upd (store 8 (nvmm s1) (link_addr s p) (blk * 4096)) s1 s'.
Let q := blk * 4096.

Lemma grow_sbc : sbc s' = sbc s.
Proof. rewrite (mem_upd_sbc _ _ _ U). apply Z. Qed.

Lemma grow_last : p ∈ pages v cpu.
Proof. rewrite E. set_solver. Qed.

Lemma grow_apart v' c' x : 0 <= c' < cpus (sbc s) -> x ∈ pages v' c' -> pages_apart x q.
Proof.
  intros Hc' Hx. apply (free_apart s); [|apply Z]. by apply (tw_page _ _ (tc_tables _ _ T) v' c').
Qed.

(** Words outside the new superpage and the link of [p] are as before. *)
Lemma grow_keep a :
  a + 8 <= virt_addr (sbc s) + q \/ virt_addr (sbc s) + q + SUPERPAGE <= a ->
  a + 8 <= link_addr s p \/ link_addr s p + 8 <= a ->
  load 8 (nvmm s') a = load 8 (nvmm s) a.
Proof.
  intros H1' H2'. rewrite (mem_upd_nvmm _ _ _ U). apply load_ext. intros x Hx.
  apply (grow_mem s pages s1); auto; fold q; cbn in *; lia.
Qed.

Lemma grow_link v' c' i x :
  0 <= c' < cpus (sbc s) -> pages v' c' !! i = Some x -> (v', c', i) <> (v, cpu, length l) ->
  load 8 (nvmm s') (link_addr s x) = load 8 (nvmm s) (link_addr s x).
Proof.
  intros Hc' Hx Hne.
  assert (pages v cpu !! length l = Some p) as Hp' by (rewrite E; by apply list_lookup_middle).
  pose proof (link_apart s _ _ (tw_apart _ _ (tc_tables _ _ T) _ _ _ _ _ _ _ _ Hc' Hc Hx Hp' Hne)).
  pose proof (grow_apart v' c' x Hc' (list_elem_of_lookup_2 _ _ _ Hx)) as A.
  apply grow_keep; unfold pages_apart, link_addr, SUPERPAGE in *; lia.
Qed.

Lemma grow_heads v' c' :
  0 <= c' < cpus (sbc s) ->
  load 8 (nvmm s') (head_addr s' v' c') = default 0 (head (grow pages v cpu q v' c')).
Proof.
  intros Hc'. destruct (new_superpage_place _ _ _ _ T Z) as [Q1 _]. pose proof (tc_cpus _ _ T) as Hcp.
  destruct (tw_page _ _ (tc_tables _ _ T) v cpu p Hc grow_last) as (Pp & _).
  assert (head_addr s' v' c' = head_addr s v' c') as -> by (unfold head_addr; by rewrite grow_sbc).
  rewrite grow_keep.
  - rewrite (tw_head _ _ (tc_tables _ _ T) v' c' Hc'). unfold grow. case_decide as D; [|done].
    injection D as -> ->. rewrite E. by destruct l.
  - fold q in Q1. unfold HEAD_RESERVED_BLOCKS, head_addr, INODE_TABLE0_START, INODE_TABLE1_START in *.
    destruct v'; lia.
  - unfold HEAD_RESERVED_BLOCKS, head_addr, link_addr, SUPERPAGE in *.
    unfold INODE_TABLE0_START, INODE_TABLE1_START in *. destruct v'; lia.
Qed.

(** The new link, and the end of the chain. *)
Lemma grow_new_links :
  load 8 (nvmm s') (link_addr s p) = q /\ load 8 (nvmm s') (link_addr s q) = 0.
Proof.
  destruct (new_superpage_place _ _ _ _ T Z) as [Q1 Q2]. pose proof (tc_dev _ _ T) as (Hv & Hsz & _).
  rewrite (mem_upd_nvmm _ _ _ U). fold q in Q1, Q2. split.
  - apply load_store_same. change (8 * Z.of_nat 8) with 64.
    unfold SUPERPAGE, HEAD_RESERVED_BLOCKS in *. lia.
  - apply load_zero. intros x Hx. change (Z.of_nat 8) with 8 in Hx.
    pose proof (link_apart s _ _ (grow_apart v cpu p Hc grow_last)).
    rewrite mget_store_out by (cbn; lia).
    rewrite (za_zero _ _ _ _ Z x). unfold PAGE_SIZE. rewrite decide_True; [done|].
    unfold link_addr, SUPERPAGE, q in *. lia.
Qed.

Lemma grow_chains v' c' :
  0 <= c' < cpus (sbc s) -> chain_in s' (nvmm s') (grow pages v cpu q v' c').
Proof.
  intros Hc'. apply (chain_in_sbc s); [apply grow_sbc|]. unfold grow. case_decide as D.
  - injection D as -> ->. rewrite E, <- app_assoc. apply (linked_join _ (nvmm s)).
    + rewrite <- E. by apply (tw_chain _ _ (tc_tables _ _ T)).
    + apply grow_new_links.
    + split; [apply grow_new_links|done].
    + intros x [i Hi]%list_elem_of_lookup. pose proof (lookup_lt_Some _ _ _ Hi).
      apply (grow_link v cpu i); [done| |intros [= ->]; lia]. rewrite E. by apply lookup_app_l_Some.
  - eapply linked_to_ext; [by apply (tw_chain _ _ (tc_tables _ _ T))|].
    intros x [i Hi]%list_elem_of_lookup. apply (grow_link v' c' i); [done..|]. by intros [= -> -> ->].
Qed.

Lemma grow_pages v' c' x :
  0 <= c' < cpus (sbc s) -> x ∈ grow pages v cpu q v' c' -> superpage_ok s' x.
Proof.
  intros Hc' [i Hx]%list_elem_of_lookup.
  destruct (new_superpage_place _ _ _ _ T Z) as [Q1 Q2].
  assert (forall b, free_block s' b = free_block s b && negb (in_blocks blk 512 b)) as Hfb.
  { intros b. rewrite <- (za_free _ _ _ _ Z b). unfold free_block. by rewrite (mem_upd_lists _ _ _ U). }
  unfold superpage_ok. rewrite grow_sbc. apply grow_lookup in Hx as [Hx|(_ & _ & _ & ->)].
  - apply list_elem_of_lookup_2 in Hx.
    destruct (tw_page _ _ (tc_tables _ _ T) v' c' x Hc' Hx) as (X1 & X2 & X3).
    split_and!; [done..|]. intros b Hb1 Hb2. by rewrite Hfb, X3.
  - split_and!; [done..|]. intros b Hb1 Hb2. rewrite Hfb.
    replace (in_blocks blk 512 b) with true by
      (symmetry; unfold in_blocks, q, SUPERPAGE in *; bool_lia). by rewrite andb_false_r.
Qed.

Lemma tables_wf_grow : tables_wf s' (grow pages v cpu q).
Proof.
  split; rewrite grow_sbc.
  - apply grow_heads.
  - apply grow_chains.
  - apply grow_pages.
  - intros v1 c1 i1 p1 v2 c2 i2 p2 C1 C2 L1 L2 Hne.
    apply grow_lookup in L1 as [L1|(-> & -> & -> & ->)], L2 as [L2|(-> & -> & -> & ->)].
    + by apply (tw_apart _ _ (tc_tables _ _ T) v1 c1 i1 p1 v2 c2 i2 p2).
    + apply list_elem_of_lookup_2 in L1. by apply (grow_apart v1 c1).
    + apply list_elem_of_lookup_2 in L2. destruct (grow_apart _ _ _ C2 L2); [by right|by left].
    + done.
Qed.

Lemma table_ctx_grow : table_ctx s' (grow pages v cpu q).
Proof.
  pose proof grow_sbc as Es. pose proof (mem_upd_lists _ _ _ U) as Ef.
  destruct (za_keep _ _ _ _ Z) as (_ & _ & Hh).
  assert (forall fl, fl ∈ free_lists s' -> exists fl0, fl0 ∈ free_lists s /\ home_bounds fl0 = home_bounds fl)
    as Hfl.
  { intros fl Hfl. rewrite Ef in Hfl. apply (list_elem_of_fmap_2 home_bounds) in Hfl. rewrite Hh in Hfl.
    apply list_elem_of_fmap in Hfl as (fl0 & ? & ?). by exists fl0. }
  split; rewrite ?Es; try apply T.
  - apply (alloc_wf_same s1); [apply Z|..].
    + apply (mem_upd_sbc _ _ _ U).
    + done.
    + apply (mem_upd_plb _ _ _ U).
    + rewrite (mem_upd_clock _ _ _ U). lia.
  - apply (device_ok_keep s1); [apply Z|apply (mem_upd_sbc _ _ _ U)|by rewrite Ef].
  - intros fl (fl0 & H0' & [= _ <-])%Hfl. by apply T.
  - intros fl (fl0 & H0' & [= <- _])%Hfl. by apply T.
  - apply tables_wf_grow.
Qed.
End growing.

(** How the tables may change: chains only get longer. *)
Record table_ext (s s' : nova) (pages pages' : chains) : Prop := {
  te_ctx : table_ctx s' pages';
  te_prefix : forall v c, exists l, pages' v c = pages v c ++ l;
  te_sbc : sbc s' = sbc s;
  te_maps : inode_maps s' = inode_maps s;
  te_keep : balloc_keep s s'
}.

Lemma table_ext_refl s pages : table_ctx s pages -> table_ext s s pages pages.
Proof. split; auto using balloc_keep_refl. intros. exists []. by rewrite app_nil_r. Qed.

Lemma table_ext_trans s1 s2 s3 p1 p2 p3 :
  table_ext s1 s2 p1 p2 -> table_ext s2 s3 p2 p3 -> table_ext s1 s3 p1 p3.
Proof.
  intros [_ P1 S1 M1 K1] [C2 P2 S2 M2 K2]. split; auto; [|congruence..|by eapply balloc_keep_trans].
  intros v c. destruct (P1 v c) as [l1 E1], (P2 v c) as [l2 E2]. exists (l1 ++ l2).
  by rewrite E2, E1, app_assoc.
Qed.

Lemma inode_slot_mono s s' pages pages' n v ino a :
  table_ext s s' pages pages' -> inode_slot n pages v ino = Some a -> inode_slot n pages' v ino = Some a.
Proof.
  intros X. unfold inode_slot. destruct (te_prefix _ _ _ _ X v (ino mod n)) as [l ->].
  intros (p & Hp & ->)%fmap_Some. by rewrite (lookup_app_l_Some _ _ _ _ Hp).
Qed.

Lemma table_ext_grow s s1 s' pages blk v cpu l p :
  table_ctx s pages -> 0 <= cpu < cpus (sbc s) -> pages v cpu = l ++ [p] ->
  zeroed_alloc s s1 blk 512 ->
  mem_upd (store 8 (nvmm s1) (link_addr s p) (blk * 4096)) s1 s' ->
  table_ext s s' pages (grow pages v cpu (blk * 4096)).
Proof.
  intros T Hc E Z U. split.
  - by apply (table_ctx_grow s s1 s' pages blk v cpu l p).
  - intros v' c'. unfold grow. case_decide; [by exists [blk * 4096]|exists []; by rewrite app_nil_r].
  - by apply (grow_sbc s s1 s' blk p).
  - rewrite (mem_upd_maps _ _ _ U). apply Z.
  - destruct (za_keep _ _ _ _ Z) as (K1 & K2 & K3). repeat split.
    + by rewrite (mem_upd_cpu _ _ _ U).
    + by rewrite (mem_upd_clock _ _ _ U).
    + by rewrite (mem_upd_lists _ _ _ U).
Qed.

(** ** Walking past the end *)
Lemma table_walk_extend s pages version cpu ext k l p :
  table_ctx s pages -> 0 <= cpu < cpus (sbc s) -> pages (table_of version) cpu = l ++ [p] ->
  table_walk (S k) version cpu true p ext s = Ok (inl (- ENOSPC)) s \/
  exists blk s', table_walk (S k) version cpu true p ext s
    = table_walk k version cpu true (blk * 4096) true s' /\
    table_ext s s' pages (grow pages (table_of version) cpu (blk * 4096)).
Proof.
  intros T Hc E. pose proof (tc_dev _ _ T) as D. pose proof (tc_cpus _ _ T) as Hcp.
  pose proof (tc_tables _ _ T) as W.
  assert (superpage_ok s p) as Pp by (apply (tw_page _ _ W (table_of version) cpu); [done|]; rewrite E; set_solver).
  destruct (superpage_pos _ _ Pp) as [P1 P2].
  pose proof (tw_chain _ _ W (table_of version) cpu Hc) as C. rewrite E in C. apply linked_at in C.
  change (default 0 (head [])) with 0 in C.
  cbn [table_walk]. rewrite (proj2 (Z.eqb_neq p 0)) by lia.
  rewrite (bind_ok _ _ _ (link_addr s p) s) by (unfold gets; by rewrite link_addr_code).
  rewrite (bind_ok _ _ _ _ _ (pload_link s p D P1 P2)), C. cbn [Z.eqb negb].
  destruct (new_blocks_zeroed_run s 0 1 NOVA_BLOCK_TYPE_2M LOG cpu (alloc_dir version))
    as [Ea|(kk & blk & s1 & Ea & Z & Hg)]; [apply T|done|right; unfold ANY_CPU; lia|lia|done|done|..].
  - left. by rewrite (bind_ok _ _ _ _ _ Ea).
  - right. destruct Hg as [_ Hg]. specialize (Hg eq_refl ltac:(done)).
    change (1 * nova_get_numblocks NOVA_BLOCK_TYPE_2M) with 512 in Hg. subst kk.
    rewrite (bind_ok _ _ _ _ _ Ea). change (512 / nova_get_numblocks NOVA_BLOCK_TYPE_2M) with 1.
    cbn [Z.eqb Pos.eqb negb].
    destruct (new_superpage_place _ _ _ _ T Z) as [Q1 Q2]. destruct D as (Hv & Hsz & _).
    assert (nova_get_block_off blk NOVA_BLOCK_TYPE_2M = blk * 4096) as Eo.
    { unfold nova_get_block_off. rewrite Z.shiftl_mul_pow2 by done. change (2 ^ PAGE_SHIFT) with 4096.
      apply uwrap_small. unfold SUPERPAGE, HEAD_RESERVED_BLOCKS in *. lia. }
    rewrite Eo. pose proof (za_sbc _ _ _ _ Z) as Es. destruct Pp as (Pp0 & Pp & _).
    assert (in_pmem s1 (link_addr s p) 8 = true) as Hin.
    { apply in_pmem_spec. rewrite Es. unfold link_addr, SUPERPAGE in *. cbn. lia. }
    enough (wp (nova_memunlock_range (link_addr s p) CACHELINE_SIZE ;;;
                pstore 8 (link_addr s p) (blk * 4096) ;;;
                nova_memlock_range (link_addr s p) CACHELINE_SIZE ;;;
                nova_flush_buffer (link_addr s p) NOVA_INODE_SIZE true)
              (fun _ s' => mem_upd (store 8 (nvmm s1) (link_addr s p) (blk * 4096)) s1 s') s1) as Hwp.
    { apply wp_run in Hwp as (u & s' & Ew & U). exists blk, s'. split.
      - revert Ew. unfold bind. repeat case_match; intros; simplify_eq; done.
      - by apply (table_ext_grow s s1 s' pages blk (table_of version) cpu l p). }
    pose proof (mem_upd_refl s1) as U0.
    apply wp_bind. eapply wp_memunlock; [exact U0|..]; rewrite ?Es; unfold CACHELINE_SIZE; try lia;
      [unfold link_addr, SUPERPAGE in *; lia..|].
    intros s2 U2 W2. apply wp_bind. eapply wp_pstore; [exact U2|done|done|]. intros s3 U3 W3.
    apply wp_bind. eapply wp_memlock; [exact U3|]. intros s4 U4.
    eapply wp_flush; [exact U4|done|done|]. intros s5 U5 _. exact U5.
Qed.

(** [k] more superpages than the chain has: all are added, or the device runs
    out of space. *)
Lemma table_walk_grows k : forall s pages version cpu ext l p,
  table_ctx s pages -> 0 <= cpu < cpus (sbc s) -> pages (table_of version) cpu = l ++ [p] ->
  exists s' pages', table_ext s s' pages pages' /\
   (table_walk k version cpu true p ext s = Ok (inl (- ENOSPC)) s' \/
    exists q ext', table_walk k version cpu true p ext s = Ok (inr (q, ext')) s' /\
      (ext' = ext \/ ext' = true) /\
      pages' (table_of version) cpu !! (length l + k)%nat = Some q).
Proof.
  induction k as [|k IH]; intros s pages version cpu ext l p T Hc E.
  - exists s, pages. split; [by apply table_ext_refl|]. right. exists p, ext.
    split_and!; [done|by left|]. rewrite E, Nat.add_0_r. by apply list_lookup_middle.
  - destruct (table_walk_extend s pages version cpu ext k l p T Hc E) as [Ew|(blk & s1 & Ew & X1)].
    + exists s, pages. split; [by apply table_ext_refl|]. by left.
    + pose proof (te_ctx _ _ _ _ X1) as T1. pose proof (te_sbc _ _ _ _ X1) as Es.
      destruct (IH s1 _ version cpu true (l ++ [p]) (blk * 4096) T1)
        as (s' & pages' & X2 & Hr); [by rewrite Es|unfold grow; by rewrite decide_True, E by done|].
      exists s', pages'. split; [by eapply table_ext_trans|]. rewrite Ew.
      destruct Hr as [Hr|(q & ext' & Hr & He & Hq)]; [by left|right]. exists q, ext'.
      split_and!; [done|right; by destruct He|].
      rewrite length_app in Hq. cbn [length] in Hq. rewrite <- Hq. f_equal. lia.
Qed.

Lemma table_walk_end s pages version c v cpu ext k l p :
  table_ctx s pages -> 0 <= cpu < cpus (sbc s) -> pages v cpu = l ++ [p] ->
  table_walk (S k) version c false p ext s = Ok (inl (- EINVAL)) s.
Proof.
  intros T Hc E. pose proof (tc_dev _ _ T) as D. pose proof (tc_tables _ _ T) as W.
  assert (superpage_ok s p) as Pp by (apply (tw_page _ _ W v cpu); [done|]; rewrite E; set_solver).
  destruct (superpage_pos _ _ Pp) as [P1 P2].
  pose proof (tw_chain _ _ W v cpu Hc) as C. rewrite E in C. apply linked_at in C.
  change (default 0 (head [])) with 0 in C.
  cbn [table_walk]. rewrite (proj2 (Z.eqb_neq p 0)) by lia.
  rewrite (bind_ok _ _ _ (link_addr s p) s) by (unfold gets; by rewrite link_addr_code).
  by rewrite (bind_ok _ _ _ _ _ (pload_link s p D P1 P2)), C.
Qed.

(** ** The address of an inode *)

(** Outcomes of a lookup that succeeded or failed. *)
Definition address_ok (s s' : nova) (pages pages' : chains) (version ino : Z)
    (r : Z + Z * bool) : Prop :=
  match r with
  | inl rc => rc < 0
  | inr (a, extended) =>
      inode_slot (cpus (sbc s)) pages' (table_of version) ino = Some a /\
      (extended = false -> s' = s /\ pages' = pages)
  end.

Lemma index_code k : 0 <= k ->
  u32 (Z.land k (Z.shiftl 1 (nova_inode_blk_shift NOVA_BLOCK_TYPE_2M - NOVA_INODE_BITS) - 1))
  = k mod PER_SUPERPAGE /\
  Z.shiftr k (nova_inode_blk_shift NOVA_BLOCK_TYPE_2M - NOVA_INODE_BITS) = k / PER_SUPERPAGE.
Proof.
  intros Hk. change (nova_inode_blk_shift NOVA_BLOCK_TYPE_2M - NOVA_INODE_BITS) with 14.
  change (Z.shiftl 1 14 - 1) with (2 ^ 14 - 1). unfold PER_SUPERPAGE.
  rewrite land_mask, Z.shiftr_div_pow2 by lia. split; [|done].
  pose proof (Z.mod_pos_bound k (2 ^ 14)). apply uwrap_small. lia.
Qed.

(** The slot of the superpage [q] the walk ended in. *)
Lemma slot_code s pages v ino q :
  table_ctx s pages -> 0 <= ino ->
  pages v (ino mod cpus (sbc s)) !! Z.to_nat (ino_super (cpus (sbc s)) ino) = Some q ->
  inode_slot (cpus (sbc s)) pages v ino
  = Some (u64 (q + u32 (ino_index (cpus (sbc s)) ino * NOVA_INODE_SIZE))).
Proof.
  intros T Hi Hq. unfold inode_slot. rewrite Hq. cbn [fmap option_fmap option_map]. f_equal.
  pose proof (ino_index_bound (cpus (sbc s)) ino) as B. pose proof (aw_cpus _ (tc_alloc _ _ T)).
  pose proof (Z.mod_pos_bound ino (cpus (sbc s)) ltac:(lia)).
  destruct (tw_page _ _ (tc_tables _ _ T) v (ino mod cpus (sbc s)) q ltac:(lia)) as (Q1 & Q2 & _).
  { by eapply list_elem_of_lookup_2. }
  destruct (tc_dev _ _ T) as (Hv & Hsz & _).
  unfold PER_SUPERPAGE, NOVA_INODE_SIZE, SUPERPAGE, HEAD_RESERVED_BLOCKS in *.
  rewrite (uwrap_small 32), uwrap_small; lia.
Qed.

(** The walk from the head of a chain. *)
Lemma table_walk_run s pages version cpu e p l n :
  table_ctx s pages -> 0 <= cpu < cpus (sbc s) -> pages (table_of version) cpu = p :: l ->
  exists r s' pages', table_walk n version cpu e p false s = Ok r s' /\
    table_ext s s' pages pages' /\
    match r with
    | inl rc => rc < 0 /\ (length l < n)%nat
    | inr (q, extended) => pages' (table_of version) cpu !! n = Some q /\
        (extended = false -> s' = s /\ pages' = pages) /\
        (extended = true -> (length l < n)%nat)
    end.
Proof.
  intros T Hc E. destruct (decide (n <= length l)%nat) as [Hle|Hgt].
  - pose proof (table_walk_in s pages version _ cpu cpu e false n [] p l 0 T Hc E Hle) as Ew.
    rewrite Nat.add_0_r in Ew. eexists _, s, pages. split; [exact Ew|].
    split; [by apply table_ext_refl|]. split_and!; [|done..]. rewrite E.
    destruct (nth_lookup_or_length (p :: l) n 0) as [?|Hlen]; [done|cbn in Hlen; lia].
  - destruct (exists_last (l := p :: l)) as (l' & q & El); [done|].
    assert (length l = length l') as Hlen.
    { apply (f_equal length) in El. rewrite length_app in El. cbn in El. lia. }
    assert (nth (length l) (p :: l) 0 = q) as Eq
      by (rewrite El, Hlen; apply nth_lookup_Some, list_lookup_middle; done).
    destruct (n - length l)%nat as [|k] eqn:Ek; [lia|].
    replace n with (length l + S k)%nat by lia.
    rewrite (table_walk_in s pages version _ cpu cpu e false (length l) [] p l (S k) T Hc E ltac:(lia)), Eq.
    rewrite El in E. destruct e.
    + destruct (table_walk_extend s pages version cpu false k l' q T Hc E) as [Ew|(blk & s1 & Ew & X1)].
      { eexists _, s, pages. split; [exact Ew|]. split; [by apply table_ext_refl|]. unfold ENOSPC. lia. }
      destruct (table_walk_grows k s1 _ version cpu true (l' ++ [q]) (blk * 4096) (te_ctx _ _ _ _ X1))
        as (s' & pages' & X2 & Hr); [by rewrite (te_sbc _ _ _ _ X1)|unfold grow; by rewrite decide_True, E by done|].
      rewrite Ew. destruct Hr as [Hr|(q' & ext' & Hr & He & Hq)]; eexists _, s', pages';
        (split; [exact Hr|]; split; [by eapply table_ext_trans|]); [unfold ENOSPC; lia|].
      split_and!; [|by destruct He as [-> | ->]|lia]. rewrite length_app in Hq. cbn [length] in Hq.
      rewrite <- Hq. f_equal. lia.
    + eexists _, s, pages. split; [by eapply table_walk_end|]. split; [by apply table_ext_refl|].
      unfold EINVAL. lia.
Qed.

Lemma pload_head s pages v cpu :
  table_ctx s pages -> 0 <= cpu < cpus (sbc s) ->
  pload_field inode_table (head_addr s v cpu) "log_head" s = Ok (default 0 (head (pages v cpu))) s.
Proof.
  intros T Hc. pose proof (tc_cpus _ _ T). pose proof (tc_size _ _ T) as Hsz.
  rewrite <- (tw_head _ _ (tc_tables _ _ T) v cpu Hc).
  unfold pload_field, field_addr. change (offsetof inode_table "log_head") with 0.
  change (sizeof_field inode_table "log_head") with 8%nat. rewrite Z.add_0_r. apply pload_run.
  apply in_pmem_spec. unfold HEAD_RESERVED_BLOCKS, head_addr, INODE_TABLE0_START, INODE_TABLE1_START in *.
  change (Z.of_nat 8) with 8. destruct v; lia.
Qed.

(** The numbers for which the code's [unsigned int superpage_count] is exact. *)
Definition ino_range (n ino : Z) : Prop := 0 <= ino /\ ino_super n ino < 2 ^ 32.

Lemma inode_address_in_run s pages ino version e :
  table_ctx s pages -> ino_range (cpus (sbc s)) ino ->
  exists r s' pages', inode_address_in ino version e s = Ok r s' /\
    table_ext s s' pages pages' /\ address_ok s s' pages pages' version ino r /\
    (forall a, inode_slot (cpus (sbc s)) pages (table_of version) ino = Some a -> r = inr (a, false)).
Proof.
  intros T [Hi Hsp]. pose proof (aw_cpus _ (tc_alloc _ _ T)) as Hn. set (n := cpus (sbc s)) in *.
  pose proof (Z.mod_pos_bound ino n ltac:(lia)) as Hm.
  assert (0 <= ino / n) as Hk by (apply Z.div_pos; lia).
  unfold inode_address_in. unfold bind at 1, gets. fold n. rewrite (proj2 (Z.eqb_neq n 0)) by lia.
  destruct (index_code (ino / n) Hk) as [-> ->]. fold (ino_index n ino). fold (ino_super n ino).
  rewrite (swrap_small 32) by lia.
  assert (0 <= ino_super n ino) by (unfold ino_super; apply Z.div_pos; done).
  rewrite (uwrap_small 32 (ino_super n ino)) by lia.
  rewrite (bind_ok _ _ _ _ _ (get_inode_table_run s version _ Hm)).
  rewrite (bind_ok _ _ _ _ _ (pload_head s pages _ _ T Hm)).
  destruct (pages (table_of version) (ino mod n)) as [|p l] eqn:E.
  - eexists _, s, pages. split; [done|]. split; [by apply table_ext_refl|]. split; [done|].
    intros a. unfold inode_slot. by rewrite E.
  - change (default 0 (head (p :: l))) with p.
    assert (superpage_ok s p) as Pp
      by (apply (tw_page _ _ (tc_tables _ _ T) (table_of version) (ino mod n)); [done|]; rewrite E; set_solver).
    apply superpage_pos in Pp as [P1 _]. rewrite (proj2 (Z.eqb_neq p 0)) by lia.
    destruct (table_walk_run s pages version (ino mod n) e p l (Z.to_nat (ino_super n ino)) T Hm E)
      as (r & s' & pages' & Ew & X & Hr). rewrite (bind_ok _ _ _ _ _ Ew).
    destruct r as [rc|[q ext]].
    + eexists _, s', pages'. split; [done|]. split; [done|]. destruct Hr as [Hr Hl]. split; [done|].
      intros a. unfold inode_slot. rewrite E, lookup_ge_None_2; [done|]. cbn. lia.
    + destruct Hr as (Hq & He & Hlt). pose proof (te_sbc _ _ _ _ X) as Es.
      assert (inode_slot n pages' (table_of version) ino
        = Some (u64 (q + u32 (ino_index n ino * NOVA_INODE_SIZE)))) as Hsl.
      { unfold n in *. rewrite <- Es in Hq |- *. apply slot_code; [apply X|done|done]. }
      eexists _, s', pages'. split; [done|]. split; [done|]. split; [done|]. intros a Ha.
      pose proof (inode_slot_mono _ _ _ _ _ _ _ _ X Ha) as Ha'. rewrite Hsl in Ha'. injection Ha' as ->.
      destruct ext; [|done]. exfalso. specialize (Hlt eq_refl). unfold inode_slot in Ha.
      rewrite E, lookup_ge_None_2 in Ha; [done|]. cbn. lia.
Qed.

Lemma nova_get_inode_address_run s pages ino version a0 e ea :
  table_ctx s pages -> NOVA_NORMAL_INODE_START <= ino -> ino_range (cpus (sbc s)) ino ->
  exists r a s' pages', nova_get_inode_address ino version a0 e ea s = Ok (r, a) s' /\
    table_ext s s' pages pages' /\
    ((r = 0 /\ inode_slot (cpus (sbc s)) pages' (table_of version) ino = Some a) \/
     (r < 0 /\ a = a0)) /\
    (forall a1, inode_slot (cpus (sbc s)) pages (table_of version) ino = Some a1 ->
       r = 0 /\ a = a1 /\ s' = s).
Proof.
  intros T Hi Hr. unfold nova_get_inode_address. rewrite (proj2 (Z.ltb_ge _ _)) by lia.
  destruct (inode_address_in_run s pages ino version e T Hr) as (r & s1 & p1 & E1 & X1 & Ok1 & Hs1).
  rewrite (bind_ok _ _ _ _ _ E1). destruct r as [rc|[a ext]].
  - eexists rc, a0, s1, p1. split; [done|]. split; [done|]. split; [by right|].
    intros a1 Ha. by specialize (Hs1 a1 Ha).
  - destruct Ok1 as [Hsl Hext].
    destruct (ext && ea && negb (metadata_csum =? 0)) eqn:Ec.
    + assert (ext = true) as -> by (by destruct ext).
      pose proof (te_sbc _ _ _ _ X1) as Es.
      destruct (inode_address_in_run s1 p1 ino (version + 1) e (te_ctx _ _ _ _ X1))
        as (r2 & s2 & p2 & E2 & X2 & _); [by rewrite Es|].
      exists 0, a, s2, p2. split_and!.
      * unfold bind. by rewrite E2.
      * by eapply table_ext_trans.
      * left. split; [done|]. by eapply inode_slot_mono.
      * intros a1 Ha. by specialize (Hs1 a1 Ha).
    + exists 0, a, s1, p1. split_and!; [done|done|by left|]. intros a1 Ha.
      specialize (Hs1 a1 Ha). injection Hs1 as <- ->. by destruct (Hext eq_refl) as [-> _].
Qed.

(** The address of an inode in a well-formed table is
    found without a fault, whatever the table's length: it is the inode's slot
    in the table as it is afterwards, the chains having at most grown (the
    replica's too, when the caller asked for it), or the call fails with a
    negative code.  When the inode's superpage exists, the call succeeds and
    changes nothing. *)
Theorem nova_get_inode_address_correct s pages ino version a0 e ea :
  table_ctx s pages -> NOVA_NORMAL_INODE_START <= ino -> ino_range (cpus (sbc s)) ino ->
  exists r a s' pages', nova_get_inode_address ino version a0 e ea s = Ok (r, a) s' /\
    table_ext s s' pages pages' /\
    ((r = 0 /\ inode_slot (cpus (sbc s)) pages' (table_of version) ino = Some a) \/
     (r < 0 /\ a = a0)) /\
    (forall a1, inode_slot (cpus (sbc s)) pages (table_of version) ino = Some a1 ->
       r = 0 /\ a = a1 /\ s' = s).
Proof. apply nova_get_inode_address_run. Qed.

(** ** A new inode *)

(** Parts of the state the table does not depend on. *)
Lemma table_ctx_same s s' pages :
  table_ctx s pages -> sbc s' = sbc s -> free_lists s' = free_lists s -> nvmm s' = nvmm s ->
  per_list_blocks s' = per_list_blocks s -> (alloc_clock s <= alloc_clock s')%positive ->
  table_ctx s' pages.
Proof.
  intros T Es Ef Em Ep Hc. pose proof (tc_tables _ _ T) as [W1 W2 W3 W4].
  split; rewrite ?Es, ?Ef; try apply T.
  - apply (alloc_wf_same s); [apply T|done..].
  - apply (device_ok_keep s); [apply T|done|by rewrite Ef].
  - split; rewrite ?Es, ?Em; auto.
    + intros v c Hc'. unfold head_addr. rewrite Es. by apply W1.
    + intros v c Hc'. apply (chain_in_sbc s); auto.
    + intros v c p Hc' Hp. destruct (W3 v c p Hc' Hp) as (P1 & P2 & P3). split_and!; rewrite ?Es; auto.
      intros b Hb1 Hb2. unfold free_block. rewrite Ef. by apply P3.
Qed.

Lemma inodes_wf_same s s' :
  inodes_wf s -> sbc s' = sbc s -> inode_maps s' = inode_maps s ->
  (alloc_clock s <= alloc_clock s')%positive ->
  inodes_wf s' /\ forall x, ino_inuse s' x = ino_inuse s x.
Proof.
  intros [A1 A2 A3] Es Em Hc. split; [split|]; rewrite ?Es, ?Em; auto.
  - intros i im Hi. eapply imap_wf_clock; [by eapply A3|done].
  - intros x. unfold ino_inuse. by rewrite Es, Em.
Qed.

Definition next_map (s : nova) : Z := u64 (map_id s + 1) mod cpus (sbc s).

(** [ino] is the only number that became used. *)
Definition only_new (s s' : nova) (ino : Z) : Prop :=
  ino_inuse s ino = false /\ forall x, ino_inuse s' x = if x =? ino then true else ino_inuse s x.

(** C23: creating an inode keeps the number maps, the allocator and
    the tables well formed.  On success the number returned is a normal one
    that was not in use, it is the only number that became used, and the
    address is its slot in the table; on failure 0 is returned, and a number
    may be left in use that nobody owns (when the table could not grow). *)
Theorem nova_new_nova_inode_correct s pages a0 :
  inodes_wf s -> table_ctx s pages -> 0 <= map_id s < cpus (sbc s) ->
  (forall x, 0 <= x < NOVA_NORMAL_INODE_START -> ino_inuse s x = true) ->
  exists ino a s' pages', nova_new_nova_inode a0 s = Ok (ino, a) s' /\
    inodes_wf s' /\ table_ctx s' pages' /\
    ((NOVA_NORMAL_INODE_START <= ino /\ only_new s s' ino /\
      inode_slot (cpus (sbc s)) pages' false ino = Some a) \/
     (ino = 0 /\ a = a0 /\
      ((forall x, ino_inuse s' x = ino_inuse s x) \/ exists lost, only_new s s' lost))).
Proof.
  intros W T Hmap Hres. pose proof (iw_cpus _ W) as Hn. set (n := cpus (sbc s)) in *.
  set (s0 := set_map_id (next_map s) s).
  destruct (inodes_wf_same s s0 W) as [W0 U0]; [done..|cbn; lia|].
  assert (table_ctx s0 pages) as T0 by (apply (table_ctx_same s); cbn; auto; lia).
  destruct (map_exists s (map_id s) W Hmap) as [im At].
  unfold nova_new_nova_inode. unfold bind at 1, gets. unfold bind at 1. fold n.
  rewrite (proj2 (Z.eqb_neq n 0)) by lia.
  rewrite (bind_ok _ _ _ tt s0) by done. rewrite (swrap_small 32) by lia.
  destruct (alloc_unused_run s0 (map_id s) im 0 W0 At) as [(im' & k & E & Hk & Hf & Hu & Sk)|[E Hu]].
  2: { rewrite (bind_ok _ _ _ _ _ E). exists 0, a0, s0, pages. split_and!; [done..|].
       right. auto. }
  rewrite (bind_ok _ _ _ _ _ E). change (cpus (sbc s0)) with n in *. cbn [negb Z.eqb].
  set (ino := k * n + map_id s) in *.
  set (s1 := set_s_inodes_used_count _ _) in *.
  destruct (inodes_wf_set s0 (alloc_clock s0) (map_id s) im im' k true
    (u64 (s_inodes_used_count s0 + 1)) W0 At ltac:(lia) Sk) as [W1 U1].
  change (set_s_inodes_used_count _ _) with s1 in W1, U1.
  assert (only_new s s1 ino) as Hnew.
  { destruct (ino_split n (map_id s) k Hmap) as [Em Ed]. split.
    - rewrite <- U0, (ino_inuse_at s0 (map_id s) im) by auto. change (cpus (sbc s0)) with n.
      unfold ino. by rewrite Ed.
    - intros x. rewrite (U1 x), <- U0. done. }
  assert (NOVA_NORMAL_INODE_START <= ino) as Hnorm.
  { destruct (decide (NOVA_NORMAL_INODE_START <= ino)); [done|]. exfalso.
    destruct Hnew as [Hnew _]. rewrite Hres in Hnew; [done|]. unfold ino in *. nia. }
  assert (table_ctx s1 pages) as T1 by (apply (table_ctx_same s0); cbn; auto; lia).
  destruct (nova_get_inode_address_run s1 pages ino 0 a0 true true T1 Hnorm)
    as (r & a & s2 & pages' & E2 & X & Hr & _).
  { change (cpus (sbc s1)) with n. split; [unfold ino; nia|].
    unfold ino_super, ino. destruct (ino_split n (map_id s) k Hmap) as [_ ->].
    unfold PER_SUPERPAGE. apply Z.div_lt_upper_bound; [done|].
    assert (MAX_INODE = 2 ^ 31) by done. lia. }
  rewrite (bind_ok _ _ _ _ _ E2).
  destruct (te_keep _ _ _ _ X) as (_ & Hcl & _).
  destruct (inodes_wf_same s1 s2 W1 (te_sbc _ _ _ _ X) (te_maps _ _ _ _ X) Hcl) as [W2 U2].
  assert (only_new s s2 ino) as Hnew2.
  { destruct Hnew as [N1 N2]. split; [done|]. intros x. by rewrite U2. }
  destruct Hr as [[-> Hsl]|[Hneg ->]].
  - exists ino, a, s2, pages'. split_and!; [done|done|apply X|]. by left.
  - rewrite (proj2 (Z.eqb_neq r 0)) by lia. exists 0, a0, s2, pages'.
    split_and!; [done|done|apply X|]. right. eauto.
Qed.
End spec.
