(* ===== verification/Journal.v ===== *)
(** The lite journal (journal.c, journal.h): one circular page of undo entries
    per CPU, between [journal_head] and [journal_tail].

    Offsets into NVMM ([curr_p], heads and tails) are as in the C code; the
    address of an entry is [nova_get_block s curr_p].  [nova_dbg] output is
    not modelled, the journal locks neither: each operation runs under its
    CPU's lock. *)

From stdpp Require Import strings.
From S2P Require Import Prelude CInt Crc32c NovaEnv RangeNode Pmem NovaState NovaMonad NovaLib.
From S2P Require Import Balloc NovaLayout.

Local Open Scope nova_scope.
Local Open Scope string_scope.
Local Open Scope Z_scope.

Definition PAGE_MASK : Z := Z.lnot (PAGE_SIZE - 1).

Section journal.
Context `{NovaEnv, RbLib}.

(** ** Addresses *)
Definition nova_get_journal_pointers (cpu : Z) : M Z :=
  let! s := gets id in
  if cpus (sbc s) <=? cpu then raise FBug
  else ret (nova_get_block s (NOVA_DEF_BLOCK_SIZE_4K * JOURNAL_START) + cpu * CACHELINE_SIZE).

(** The journal's write-protection window (mprotect.h). *)
Definition nova_memunlock_journal : M unit :=
  let! addr := gets (fun s => nova_get_block s (NOVA_DEF_BLOCK_SIZE_4K * JOURNAL_START)) in
  nova_memunlock_range addr NOVA_DEF_BLOCK_SIZE_4K.
Definition nova_memlock_journal : M unit :=
  let! addr := gets (fun s => nova_get_block s (NOVA_DEF_BLOCK_SIZE_4K * JOURNAL_START)) in
  nova_memlock_range addr NOVA_DEF_BLOCK_SIZE_4K.

Definition entry_size : Z := sizeof nova_lite_journal_entry.

Definition next_lite_journal (curr_p : Z) : Z :=
  let size := entry_size in
  if PAGE_SIZE <=? u64 (Z.land curr_p (PAGE_SIZE - 1) + size)
  then Z.land curr_p PAGE_MASK
  else u64 (curr_p + size).

(** ** Checksums of entries *)
Definition journal_entry_crc (entry : Z) : M Z :=
  let! l := pload_bytes (Z.to_nat (entry_size - 4)) entry in
  ret (nova_crc32c (u32 (-1)) l).

Definition nova_update_journal_entry_csum (entry : Z) : M Z :=
  let! crc := journal_entry_crc entry in
  pstore_field nova_lite_journal_entry entry "csum" crc ;;; ret 0.

Definition nova_check_entry_integrity (entry : Z) : M Z :=
  let! crc := journal_entry_crc entry in
  let! c := pload_field nova_lite_journal_entry entry "csum" in
  ret (if c =? crc then 0 else 1).

(** [temp = head; while (temp != tail) { body(temp); temp = next(temp); }].
    The tail is re-read from NVMM at each test, as [pair->journal_tail] is;
    [Some r] leaves the loop.  [fuel] bounds the iterations: a page holds 128
    entries. *)
Definition max_entries : nat := 128.

Fixpoint journal_walk (fuel : nat) (pairp temp : Z) (body : Z -> M (option Z)) : M (option Z) :=
  let! tail := pload_field journal_ptr_pair pairp "journal_tail" in
  if temp =? tail then ret None
  else
    match fuel with
    | O => raise FFuel
    | S fuel =>
        let! entry := gets (fun s => nova_get_block s temp) in
        let! r := body entry in
        match r with
        | Some v => ret (Some v)
        | None => journal_walk fuel pairp (next_lite_journal temp) body
        end
    end.

Definition nova_check_journal_entries (pairp : Z) : M Z :=
  let! head := pload_field journal_ptr_pair pairp "journal_head" in
  let! r := journal_walk max_entries pairp head (fun entry =>
    let! rc := nova_check_entry_integrity entry in
    ret (if negb (rc =? 0) then Some rc else None)) in
  ret (default 0 r).

(** ** Recovery *)
Definition nova_undo_journal_inode (entry : Z) : M unit :=
  if metadata_csum =? 0 then ret tt
  else
    let! pi_addr := pload_field nova_lite_journal_entry entry "data1" in
    let! alter_pi_addr := pload_field nova_lite_journal_entry entry "data2" in
    let! pi := gets (fun s => nova_get_block s pi_addr) in
    let! alter_pi := gets (fun s => nova_get_block s alter_pi_addr) in
    let! l := pload_bytes (Z.to_nat (sizeof nova_inode)) alter_pi in
    let! _ := memcpy_to_pmem_nocache pi l in
    ret tt.

Definition nova_undo_journal_entry (entry : Z) : M unit :=
  let! addr := pload_field nova_lite_journal_entry entry "data1" in
  let! value := pload_field nova_lite_journal_entry entry "data2" in
  let! p := gets (fun s => nova_get_block s addr) in
  pstore 8 p value ;;;
  nova_flush_buffer p CACHELINE_SIZE false.

Definition nova_undo_lite_journal_entry (entry : Z) : M unit :=
  let! type := pload_field nova_lite_journal_entry entry "type" in
  if type =? JOURNAL_INODE then nova_undo_journal_inode entry
  else if type =? JOURNAL_ENTRY then nova_undo_journal_entry entry
  else ret tt.

Definition nova_recover_lite_journal (pairp : Z) : M Z :=
  nova_memunlock_journal ;;;
  let! head := pload_field journal_ptr_pair pairp "journal_head" in
  let! _ := journal_walk max_entries pairp head (fun entry =>
    nova_undo_lite_journal_entry entry ;;; ret None) in
  let! head := pload_field journal_ptr_pair pairp "journal_head" in
  pstore_field journal_ptr_pair pairp "journal_tail" head ;;;
  nova_memlock_journal ;;;
  nova_flush_buffer (field_addr journal_ptr_pair pairp "journal_head") CACHELINE_SIZE true ;;;
  ret 0.

(** ** Creating transactions *)
Definition nova_append_replica_inode_journal (curr_p : Z) (sih : inode_header) : M Z :=
  let! entry := gets (fun s => nova_get_block s curr_p) in
  pstore_field nova_lite_journal_entry entry "type" JOURNAL_INODE ;;;
  pstore_field nova_lite_journal_entry entry "padding" 0 ;;;
  pstore_field nova_lite_journal_entry entry "data1" (pi_addr sih) ;;;
  pstore_field nova_lite_journal_entry entry "data2" (alter_pi_addr sih) ;;;
  let! _ := nova_update_journal_entry_csum entry in
  ret (next_lite_journal curr_p).

Definition nova_append_entry_journal (curr_p field : Z) : M Z :=
  let! entry := gets (fun s => nova_get_block s curr_p) in
  pstore_field nova_lite_journal_entry entry "type" JOURNAL_ENTRY ;;;
  pstore_field nova_lite_journal_entry entry "padding" 0 ;;;
  let aligned_field := Z.land field (Z.lnot 7) in
  let! addr := gets (fun s => nova_get_addr_off s aligned_field) in
  pstore_field nova_lite_journal_entry entry "data1" addr ;;;
  let! v := pload 8 aligned_field in
  pstore_field nova_lite_journal_entry entry "data2" v ;;;
  let! _ := nova_update_journal_entry_csum entry in
  ret (next_lite_journal curr_p).

Definition nova_journal_inode_tail (curr_p pi : Z) : M Z :=
  let! curr_p := nova_append_entry_journal curr_p (field_addr nova_inode pi "log_tail") in
  if negb (metadata_csum =? 0)
  then nova_append_entry_journal curr_p (field_addr nova_inode pi "alter_log_tail")
  else ret curr_p.

Definition nova_append_inode_journal (curr_p : Z) (inode : inode_header)
    (new_inode invalidate is_dir : bool) : M Z :=
  let! pi := nova_get_inode inode in
  if negb (metadata_csum =? 0) then nova_append_replica_inode_journal curr_p inode
  else if pi =? 0 then nova_err ;;; ret curr_p
  else if is_dir then nova_journal_inode_tail curr_p pi
  else if new_inode then nova_append_entry_journal curr_p (field_addr nova_inode pi "valid")
  else
    let! curr_p := nova_journal_inode_tail curr_p pi in
    if invalidate then
      let! curr_p := nova_append_entry_journal curr_p (field_addr nova_inode pi "valid") in
      nova_append_entry_journal curr_p (field_addr nova_inode pi "delete_epoch_id")
    else ret curr_p.

Definition nova_append_dentry_journal (curr_p dentry : Z) : M Z :=
  let! curr_p := nova_append_entry_journal curr_p (field_addr nova_dentry dentry "ino") in
  nova_append_entry_journal curr_p (field_addr nova_dentry dentry "csum").

Definition nova_flush_journal_in_batch (head tail : Z) : M unit :=
  (if head <? tail then
     let! p := gets (fun s => nova_get_block s head) in
     nova_flush_buffer p (u64 (tail - head)) false
   else
     let! p := gets (fun s => nova_get_block s head) in
     nova_flush_buffer p (u64 (PAGE_SIZE - Z.land head (Z.lnot PAGE_MASK))) false ;;;
     let! p := gets (fun s => nova_get_block s tail) in
     nova_flush_buffer (Z.land p PAGE_MASK) (Z.land tail (Z.lnot PAGE_MASK)) false) ;;;
  PERSISTENT_BARRIER.

(** The frame every [nova_create_*_transaction] has: check that the journal is
    empty, append, flush, publish the new tail. *)
Definition create_transaction (cpu : Z) (append : Z -> M Z) : M Z :=
  let! pairp := nova_get_journal_pointers cpu in
  let! head := pload_field journal_ptr_pair pairp "journal_head" in
  let! tail := pload_field journal_ptr_pair pairp "journal_tail" in
  if (head =? 0) || negb (head =? tail) then raise FBug
  else
    let! temp := append head in
    let! head := pload_field journal_ptr_pair pairp "journal_head" in
    nova_flush_journal_in_batch head temp ;;;
    pstore_field journal_ptr_pair pairp "journal_tail" temp ;;;
    nova_flush_buffer (field_addr journal_ptr_pair pairp "journal_head") CACHELINE_SIZE true ;;;
    ret temp.

Definition nova_create_inode_transaction (inode dir : inode_header) (cpu : Z)
    (new_inode invalidate : bool) : M Z :=
  create_transaction cpu (fun temp =>
    let! temp := nova_append_inode_journal temp inode new_inode invalidate false in
    nova_append_inode_journal temp dir new_inode invalidate true).

Definition nova_create_rename_transaction (old_inode old_dir : inode_header)
    (new_inode new_dir : option inode_header) (father_entry : Z)
    (invalidate_new_inode : bool) (cpu : Z) : M Z :=
  create_transaction cpu (fun temp =>
    let! temp := nova_append_inode_journal temp old_inode false false false in
    let! temp := nova_append_inode_journal temp old_dir false false true in
    let! temp := match new_inode with
                 | Some i => nova_append_inode_journal temp i false invalidate_new_inode false
                 | None => ret temp end in
    let! temp := match new_dir with
                 | Some d => nova_append_inode_journal temp d false false true
                 | None => ret temp end in
    if negb (father_entry =? 0) then nova_append_dentry_journal temp father_entry else ret temp).

(** [for (i = 0; i < count; i++) temp = append(temp, entry + i * 8)] *)
Fixpoint append_words (count : nat) (i temp entry : Z) : M Z :=
  match count with
  | O => ret temp
  | S count =>
      let! temp := nova_append_entry_journal temp (entry + i * 8) in
      append_words count (i + 1) temp entry
  end.

Definition nova_create_logentry_transaction (entry : Z) (type : nova_entry_type) (cpu : Z) : M Z :=
  create_transaction cpu (fun temp =>
    append_words (Z.to_nat (nova_get_log_entry_size type / 8)) 0 temp entry).

Definition nova_commit_lite_transaction (tail cpu : Z) : M unit :=
  let! pairp := nova_get_journal_pointers cpu in
  let! t := pload_field journal_ptr_pair pairp "journal_tail" in
  if negb (t =? tail) then raise FBug
  else
    pstore_field journal_ptr_pair pairp "journal_head" tail ;;;
    nova_flush_buffer (field_addr journal_ptr_pair pairp "journal_head") CACHELINE_SIZE true.

(** ** Initialisation *)

(** One CPU of [nova_lite_journal_soft_init]; [Some r] is its [break]. *)
Definition soft_init_body (i : Z) : M (option Z) :=
  let! pairp := nova_get_journal_pointers i in
  let! head := pload_field journal_ptr_pair pairp "journal_head" in
  let! tail := pload_field journal_ptr_pair pairp "journal_tail" in
  if head =? tail then ret None
  else
    let! rc := nova_check_journal_entries pairp in
    if negb (rc =? 0) then nova_err ;;; ret (Some (- EINVAL))
    else let! _ := nova_recover_lite_journal pairp in ret None.

(** [nova_recover_lite_journal] always returns 0, so [ret] is 0 when the loop
    ends. *)
Definition nova_lite_journal_soft_init : M Z :=
  let! locks := kmem_cache_zalloc in
  match locks with
  | None => ret (- ENOMEM)
  | Some _ =>
      let! n := gets (fun s => cpus (sbc s)) in
      let! r := for_loop (Z.to_nat n) 0 soft_init_body in
      ret (default 0 r)
  end.

Fixpoint hard_init_loop (n : nat) (i blocknr : Z) : M (option Z) :=
  match n with
  | O => ret None
  | S n =>
      let! pairp := nova_get_journal_pointers i in
      let! r := nova_new_log_blocks NOVA_BLOCK_TYPE_4K blocknr 1 true ANY_CPU ALLOC_FROM_HEAD in
      let '(allocated, blocknr) := r in
      if negb (allocated =? 1) || (blocknr =? 0) then ret (Some (- ENOSPC))
      else
        let block := nova_get_block_off blocknr NOVA_BLOCK_TYPE_4K in
        nova_memunlock_range pairp CACHELINE_SIZE ;;;
        pstore_field journal_ptr_pair pairp "journal_tail" block ;;;
        pstore_field journal_ptr_pair pairp "journal_head" block ;;;
        nova_flush_buffer pairp CACHELINE_SIZE false ;;;
        nova_memlock_range pairp CACHELINE_SIZE ;;;
        hard_init_loop n (i + 1) blocknr
  end.

Definition nova_lite_journal_hard_init : M Z :=
  let! n := gets (fun s => cpus (sbc s)) in
  let! r := hard_init_loop (Z.to_nat n) 0 0 in
  match r with
  | Some rc => ret rc
  | None => PERSISTENT_BARRIER ;;; nova_lite_journal_soft_init
  end.
End journal.
