(* ===== verification/Crash.v ===== *)
(** Crashes of persistent memory.

    A store is guaranteed to be durable once its cache line was written back
    and a fence followed (a fence alone, for a non-temporal store); before
    that it may or may not be, independently of other stores.  Aligned 8-byte
    words persist atomically.  [crash m0 evs m]: [m] is what the device may
    hold after a power failure that follows the events [evs], issued from the
    durable contents [m0]. *)

From S2P Require Import Prelude CInt Pmem.

Definition apply_ev (m : mem) (ev : pm_event) : mem :=
  match ev with
  | EvStore a l | EvNtStore a l => store_bytes m a l
  | EvFlush _ _ | EvFence => m
  end.

Definition apply_evs (m : mem) (evs : list pm_event) : mem := foldl apply_ev m evs.

(** [ev] writes the byte at [x]. *)
Definition writes (ev : pm_event) (x : Z) : Prop :=
  match ev with
  | EvStore a l | EvNtStore a l => a <= x < a + Z.of_nat (length l)
  | _ => False
  end.

(** [ev] writes a byte of the word at [w]. *)
Definition touches (ev : pm_event) (w : Z) : Prop := exists x, w <= x < w + 8 /\ writes ev x.

Definition flushes (ev : pm_event) (w : Z) : Prop :=
  match ev with EvFlush _ f => f / 64 = w / 64 | _ => False end.

Definition non_temporal (ev : pm_event) : Prop :=
  match ev with EvNtStore _ _ => True | _ => False end.

(** The store at index [i] is durable in word [w] at the end of [evs]. *)
Definition must_persist (evs : list pm_event) (i : nat) (w : Z) : Prop :=
  exists ev, evs !! i = Some ev /\ touches ev w /\
  ((exists f g fe, (i < f < g)%nat /\ evs !! f = Some fe /\ flushes fe w /\
      evs !! g = Some EvFence) \/
   (non_temporal ev /\ exists g, (i < g)%nat /\ evs !! g = Some EvFence)).

Definition crash (m0 : mem) (evs : list pm_event) (m : mem) : Prop :=
  forall w, w mod 8 = 0 -> exists k, (k <= length evs)%nat /\
    (forall i, (k <= i)%nat -> ~ must_persist evs i w) /\
    load_bytes m w 8 = load_bytes (apply_evs m0 (take k evs)) w 8.

(** The current contents are one of the possible crash states. *)
Lemma crash_current m0 evs : crash m0 evs (apply_evs m0 evs).
Proof.
  intros w _. exists (length evs). split_and!; [lia| |by rewrite firstn_all].
  intros i Hi (ev & E & _). apply lookup_lt_Some in E. lia.
Qed.

Lemma apply_evs_app m e1 e2 : apply_evs m (e1 ++ e2) = apply_evs (apply_evs m e1) e2.
Proof. apply foldl_app. Qed.

Lemma apply_evs_unwritten m evs x :
  Forall (fun ev => ~ writes ev x) evs -> mget (apply_evs m evs) x = mget m x.
Proof.
  intros F. revert m. induction F as [|ev evs T _ IH]; intros m; [done|].
  cbn. rewrite IH. destruct ev; cbn in *; try done; by apply mget_store_bytes_out.
Qed.

Lemma load_untouched m evs w :
  Forall (fun ev => ~ touches ev w) evs ->
  load_bytes (apply_evs m evs) w 8 = load_bytes m w 8.
Proof.
  intros F. apply load_bytes_ext. intros x Hx. apply apply_evs_unwritten.
  eapply Forall_impl; [exact F|]. intros ev Hn Hw. apply Hn. exists x. split; [lia|done].
Qed.

(** A word no store touches keeps its durable contents. *)
Lemma crash_untouched m0 evs m w :
  crash m0 evs m -> w mod 8 = 0 -> Forall (fun ev => ~ touches ev w) evs ->
  load_bytes m w 8 = load_bytes m0 w 8.
Proof.
  intros C Hw F. destruct (C w Hw) as (k & Hk & _ & ->).
  apply load_untouched. by apply Forall_take.
Qed.

(** A word all of whose stores are guaranteed holds its current contents. *)
Lemma crash_persisted m0 evs m w :
  crash m0 evs m -> w mod 8 = 0 ->
  (forall i ev, evs !! i = Some ev -> touches ev w -> must_persist evs i w) ->
  load_bytes m w 8 = load_bytes (apply_evs m0 evs) w 8.
Proof.
  intros C Hw P. destruct (C w Hw) as (k & Hk & Hn & ->).
  rewrite <- (take_drop k evs) at 2. rewrite apply_evs_app. symmetry. apply load_untouched.
  apply Forall_lookup. intros i ev Ei T. rewrite lookup_drop in Ei.
  apply (Hn (k + i)%nat); [lia|]. by eapply P.
Qed.

(** A word touched by a single store holds its old or its new contents. *)
Lemma crash_single m0 e1 ev e2 m w :
  crash m0 (e1 ++ ev :: e2) m -> w mod 8 = 0 ->
  Forall (fun ev => ~ touches ev w) e1 -> Forall (fun ev => ~ touches ev w) e2 ->
  load_bytes m w 8 = load_bytes m0 w 8 \/
  load_bytes m w 8 = load_bytes (apply_evs m0 (e1 ++ [ev])) w 8.
Proof.
  intros C Hw F1 F2. destruct (C w Hw) as (k & Hk & _ & ->).
  destruct (decide (k <= length e1)%nat) as [Hle|Hgt].
  - left. rewrite take_app_le by lia. apply load_untouched. by apply Forall_take.
  - right. rewrite take_app_ge by lia.
    destruct (k - length e1)%nat as [|j] eqn:E; [lia|]. cbn [take].
    change (ev :: take j e2) with ([ev] ++ take j e2). rewrite app_assoc, apply_evs_app.
    apply load_untouched. by apply Forall_take.
Qed.

(** Stores before a write-back and a fence are guaranteed. *)
Lemma must_persist_flushed e1 fl e2 i ev w :
  e1 !! i = Some ev -> touches ev w -> Exists (fun fe => flushes fe w) fl ->
  must_persist (e1 ++ fl ++ EvFence :: e2) i w.
Proof.
  intros Ei T (fe & Hfe & Hw)%Exists_exists. apply list_elem_of_lookup in Hfe as [j Ej].
  pose proof (lookup_lt_Some _ _ _ Ei). pose proof (lookup_lt_Some _ _ _ Ej).
  exists ev. split_and!; [by rewrite lookup_app_l|done|]. left.
  exists (length e1 + j)%nat, (length e1 + length fl)%nat, fe. split_and!; [lia|lia| |done|].
  - rewrite lookup_app_r by lia. rewrite lookup_app_l by lia.
    by replace (length e1 + j - length e1)%nat with j by lia.
  - rewrite lookup_app_r by lia. rewrite lookup_app_r by lia.
    by replace (length e1 + length fl - length e1 - length fl)%nat with 0%nat by lia.
Qed.

(** A word written only before a write-back and a fence is durable. *)
Lemma crash_flushed m0 e1 fl e2 m w :
  crash m0 (e1 ++ fl ++ EvFence :: e2) m -> w mod 8 = 0 ->
  Exists (fun fe => flushes fe w) fl ->
  Forall (fun ev => ~ touches ev w) fl -> Forall (fun ev => ~ touches ev w) e2 ->
  load_bytes m w 8 = load_bytes (apply_evs m0 e1) w 8.
Proof.
  intros C Hw Hfl F1 F2. rewrite (crash_persisted _ _ _ _ C Hw).
  - rewrite apply_evs_app. apply load_untouched. rewrite Forall_app, Forall_cons.
    split_and!; [done| |done]. by intros (x & _ & []).
  - intros i ev Ei T. apply (must_persist_flushed e1 fl e2 i ev w); [|done|done].
    apply lookup_app_Some in Ei as [?|[_ Ei]]; [done|exfalso].
    apply lookup_app_Some in Ei as [Ei|[_ Ei]].
    + rewrite Forall_lookup in F1. by apply (F1 _ _ Ei).
    + destruct (i - length e1 - length fl)%nat; simplify_eq/=; [by destruct T as (x & _ & [])|].
      rewrite Forall_lookup in F2. by apply (F2 _ _ Ei).
Qed.

Lemma load_bytes_mget m m' a n x :
  load_bytes m a n = load_bytes m' a n -> a <= x < a + Z.of_nat n -> mget m x = mget m' x.
Proof.
  intros E Hx. apply (f_equal (fun l => l !! Z.to_nat (x - a))) in E.
  rewrite !lookup_load_bytes in E by lia. replace (a + Z.of_nat (Z.to_nat (x - a))) with x in E by lia.
  by simplify_eq.
Qed.

(** A byte no store writes keeps its durable contents. *)
Lemma crash_unwritten m0 evs m x :
  crash m0 evs m -> Forall (fun ev => ~ writes ev x) evs -> mget m x = mget m0 x.
Proof.
  intros C F. set (w := x - x mod 8). pose proof (Z.mod_pos_bound x 8).
  assert (w mod 8 = 0) as Hw by (unfold w; by rewrite Zminus_mod, Zmod_mod, Z.sub_diag).
  destruct (C w Hw) as (k & _ & _ & E).
  rewrite (load_bytes_mget _ _ _ _ x E) by (unfold w; lia).
  apply apply_evs_unwritten. by apply Forall_take.
Qed.
