(* ===== verification/JournalSpec.v ===== *)
(** Correctness of the lite journal.

    A transaction writes undo records into free slots of the circular page and
    publishes them by moving the tail.  The theorems show what is in the page
    afterwards, in which order it becomes durable, that recovery rolls every
    journaled location back to its value before the transaction, after a power
    failure at any point, and that committing makes recovery a no-op. *)

From stdpp Require Import strings.
From S2P Require Import Prelude CInt Crc32c NovaEnv RangeNode Pmem NovaState NovaMonad NovaLib.
From S2P Require Import Balloc NovaLayout Journal Crash.

Local Open Scope nova_scope.
Local Open Scope string_scope.
Local Open Scope Z_scope.

(** ** Steps that only write NVMM *)

(** The state after the events [evs]. *)
Definition pm_step (s : nova) (evs : list pm_event) : nova :=
  set_trace (trace s ++ evs) (set_nvmm (apply_evs (nvmm s) evs) s).

Lemma pm_step_app s e1 e2 : pm_step (pm_step s e1) e2 = pm_step s (e1 ++ e2).
Proof. unfold pm_step. cbn. by rewrite app_assoc, apply_evs_app. Qed.

Lemma pm_step_nil s : pm_step s [] = s.
Proof. unfold pm_step. cbn. rewrite app_nil_r. by destruct s. Qed.

Lemma pm_write_step a l s : pm_write EvStore a l s = pm_step s [EvStore a l].
Proof. done. Qed.
Lemma pm_write_nt_step a l s : pm_write EvNtStore a l s = pm_step s [EvNtStore a l].
Proof. done. Qed.

(** Events that write nothing. *)
Definition no_store (ev : pm_event) : Prop :=
  match ev with EvFlush _ _ | EvFence => True | _ => False end.

Lemma apply_no_store m evs : Forall no_store evs -> apply_evs m evs = m.
Proof. induction 1 as [|ev evs Hev _ IH]; [done|]. by destruct ev. Qed.

Lemma no_store_untouched evs w : Forall no_store evs -> Forall (fun ev => ~ touches ev w) evs.
Proof. intros F. eapply Forall_impl; [exact F|]. by intros [] ? (x & _ & []). Qed.

Lemma add_trace_step evs s : Forall no_store evs -> add_trace evs s = pm_step s evs.
Proof. intros F. unfold add_trace, pm_step. rewrite apply_no_store by done. by destruct s. Qed.

Lemma line_flushes_no_store k buf n : Forall no_store (line_flushes k buf n).
Proof. revert buf. induction n; intros buf; cbn; constructor; cbn; auto. Qed.

Section spec.
Context `{NovaEnv}.

Lemma flush_buffer_no_store buf len fence : Forall no_store (flush_buffer_events buf len fence).
Proof.
  unfold flush_buffer_events. apply Forall_app. split; [apply line_flushes_no_store|].
  destruct fence; repeat constructor.
Qed.

Lemma nova_flush_buffer_step buf len fence s :
  0 <= len -> len + 63 <= 2 ^ 32 - 64 ->
  nova_flush_buffer buf len fence s = Ok tt (pm_step s (flush_buffer_events buf len fence)).
Proof.
  intros. rewrite nova_flush_buffer_run by done. f_equal.
  apply add_trace_step, flush_buffer_no_store.
Qed.

(** ** Journal records *)
Record jrec := mkJrec { j_type : Z; j_data1 : Z; j_data2 : Z }.

Definition jrec_ok (r : jrec) : Prop :=
  0 <= j_type r < 2 ^ 64 /\ 0 <= j_data1 r < 2 ^ 64 /\ 0 <= j_data2 r < 2 ^ 64.

(** The bytes of an entry: the checksummed part and the whole. *)
Definition entry_head (r : jrec) : list Z :=
  le_bytes 8 (j_type r) ++ le_bytes 8 (j_data1 r) ++ le_bytes 8 (j_data2 r) ++ le_bytes 4 0.
Definition entry_crc (r : jrec) : Z := nova_crc32c (u32 (-1)) (entry_head r).
Definition entry_bytes (r : jrec) : list Z := entry_head r ++ le_bytes 4 (entry_crc r).

(** The stores that write an entry, in program order. *)
Definition entry_stores (e : Z) (r : jrec) : list pm_event :=
  [EvStore e (le_bytes 8 (j_type r)); EvStore (e + 24) (le_bytes 4 0);
   EvStore (e + 8) (le_bytes 8 (j_data1 r)); EvStore (e + 16) (le_bytes 8 (j_data2 r));
   EvStore (e + 28) (le_bytes 4 (entry_crc r))].

Lemma length_entry_bytes r : length (entry_bytes r) = 32%nat.
Proof. done. Qed.

Ltac loads :=
  repeat first
    [ rewrite (load_bytes_store_other) by (rewrite ?length_le_bytes; lia)
    | match goal with
      | |- context [load_bytes (store_bytes ?m ?a (le_bytes ?n ?v)) ?a ?n] =>
          replace (load_bytes (store_bytes m a (le_bytes n v)) a n) with (le_bytes n v)
            by (rewrite <- (length_le_bytes n v) at 3; symmetry; apply load_store_bytes_same)
      end ].

Lemma entry_head_written m e r :
  load_bytes (apply_evs m (take 4 (entry_stores e r))) e 28 = entry_head r.
Proof.
  cbn [take entry_stores apply_evs foldl apply_ev].
  change 28%nat with (8 + (8 + (8 + 4)))%nat. rewrite !load_bytes_app.
  replace (e + Z.of_nat 8 + Z.of_nat 8 + Z.of_nat 8) with (e + 24) by lia.
  replace (e + Z.of_nat 8 + Z.of_nat 8) with (e + 16) by lia.
  replace (e + Z.of_nat 8) with (e + 8) by lia. loads. done.
Qed.

(** The five stores write the 32 bytes of the entry, and nothing else. *)
Lemma entry_written m e r :
  apply_evs m (entry_stores e r) =m= store_bytes m e (entry_bytes r).
Proof.
  apply store_bytes_intro; rewrite length_entry_bytes.
  - change 32%nat with (28 + 4)%nat. rewrite load_bytes_app.
    replace (e + Z.of_nat 28) with (e + 28) by lia.
    rewrite <- (take_drop 4 (entry_stores e r)), apply_evs_app.
    cbn [drop entry_stores apply_evs foldl apply_ev].
    fold (entry_stores e r). unfold entry_bytes. f_equal.
    + rewrite load_bytes_store_other by (rewrite length_le_bytes; lia).
      apply entry_head_written.
    + loads. done.
  - intros x Hx. cbn [entry_stores apply_evs foldl apply_ev].
    rewrite !mget_store_bytes_out by (rewrite length_le_bytes; lia). done.
Qed.

(** ** Accesses as steps *)
Lemma in_pmem_step s evs a n : in_pmem (pm_step s evs) a n = in_pmem s a n.
Proof. done. Qed.
Lemma writable_step s evs : writable (pm_step s evs) = writable s.
Proof. done. Qed.
Lemma get_block_step s evs b : nova_get_block (pm_step s evs) b = nova_get_block s b.
Proof. done. Qed.

Lemma pstore_step n a v s :
  in_pmem s a n = true -> writable s = true ->
  pstore n a v s = Ok tt (pm_step s [EvStore a (le_bytes n v)]).
Proof. intros. by rewrite pstore_run. Qed.

(** The addresses of the fields of an entry and of a pointer pair. *)
Lemma entry_field_addr e :
  field_addr nova_lite_journal_entry e "type" = e /\
  field_addr nova_lite_journal_entry e "data1" = e + 8 /\
  field_addr nova_lite_journal_entry e "data2" = e + 16 /\
  field_addr nova_lite_journal_entry e "padding" = e + 24 /\
  field_addr nova_lite_journal_entry e "csum" = e + 28.
Proof. unfold field_addr. split_and!; try reflexivity; apply Z.add_0_r. Qed.

Lemma pair_field_addr p :
  field_addr journal_ptr_pair p "journal_head" = p /\
  field_addr journal_ptr_pair p "journal_tail" = p + 8.
Proof. unfold field_addr. split_and!; try reflexivity; apply Z.add_0_r. Qed.

Lemma pstore_field_step st p f v s evs a n :
  field_addr st p f = a -> sizeof_field st f = n ->
  in_pmem s a n = true -> writable s = true ->
  pstore_field st p f v (pm_step s evs)
  = Ok tt (pm_step s (evs ++ [EvStore a (le_bytes n v)])).
Proof.
  intros <- <- Hin Hw. unfold pstore_field. rewrite pstore_step by done. by rewrite pm_step_app.
Qed.

Lemma pstore_field_step0 st p f v s a n :
  field_addr st p f = a -> sizeof_field st f = n ->
  in_pmem s a n = true -> writable s = true ->
  pstore_field st p f v s = Ok tt (pm_step s [EvStore a (le_bytes n v)]).
Proof. intros <- <- Hin Hw. unfold pstore_field. by rewrite pstore_step. Qed.

(** The five stores of an entry, one after the other. *)
Lemma entry_steps s e r :
  in_pmem s e 32 = true -> writable s = true ->
  let es := entry_stores e r in
  pstore_field nova_lite_journal_entry e "type" (j_type r) s = Ok tt (pm_step s (take 1 es)) /\
  pstore_field nova_lite_journal_entry e "padding" 0 (pm_step s (take 1 es))
  = Ok tt (pm_step s (take 2 es)) /\
  pstore_field nova_lite_journal_entry e "data1" (j_data1 r) (pm_step s (take 2 es))
  = Ok tt (pm_step s (take 3 es)) /\
  pstore_field nova_lite_journal_entry e "data2" (j_data2 r) (pm_step s (take 3 es))
  = Ok tt (pm_step s (take 4 es)) /\
  nova_update_journal_entry_csum e (pm_step s (take 4 es)) = Ok 0 (pm_step s es).
Proof.
  intros Hin Hw es. destruct (entry_field_addr e) as (A1 & A2 & A3 & A4 & A5).
  assert (forall a n, e <= a -> a + Z.of_nat n <= e + 32 -> in_pmem s a n = true) as Hsub
    by (intros; apply (in_pmem_sub _ _ _ _ _ Hin); lia).
  split_and!.
  - rewrite <- (pm_step_nil s) at 1. apply (pstore_field_step _ _ _ _ s [] e 8); auto.
    apply Hsub; lia.
  - apply (pstore_field_step _ _ _ _ s (take 1 es) (e + 24) 4); auto. apply Hsub; lia.
  - apply (pstore_field_step _ _ _ _ s (take 2 es) (e + 8) 8); auto. apply Hsub; lia.
  - apply (pstore_field_step _ _ _ _ s (take 3 es) (e + 16) 8); auto. apply Hsub; lia.
  - unfold nova_update_journal_entry_csum.
    rewrite (bind_ok _ _ _ (entry_crc r) (pm_step s (take 4 es))).
    + rewrite (bind_ok _ _ _ tt (pm_step s es)); [done|].
      apply (pstore_field_step _ _ _ _ s (take 4 es) (e + 28) 4); auto. apply Hsub; lia.
    + unfold journal_entry_crc. change (Z.to_nat (entry_size - 4)) with 28%nat.
      unfold pload_bytes, bind. rewrite in_pmem_step, Hsub by lia.
      unfold ret. f_equal. unfold entry_crc. f_equal. apply (entry_head_written (nvmm s) e r).
Qed.

(** ** Requests *)

(** What a transaction journals: the aligned word at an address, or an inode
    through its replica. *)
Inductive jreq :=
| ReqField (field : Z)
| ReqReplica (sih : inode_header).

Definition align8 (field : Z) : Z := Z.land field (Z.lnot 7).

Lemma align8_spec f : align8 f = f - f mod 8.
Proof. unfold align8. change 7 with (2 ^ 3 - 1). by rewrite land_lnot_mask by lia. Qed.
Lemma align8_mod f : align8 f mod 8 = 0.
Proof. rewrite align8_spec. by rewrite Zminus_mod, Zmod_mod, Z.sub_diag. Qed.

Definition append_req (curr_p : Z) (q : jreq) : M Z :=
  match q with
  | ReqField f => nova_append_entry_journal curr_p f
  | ReqReplica sih => nova_append_replica_inode_journal curr_p sih
  end.

Fixpoint append_reqs (curr_p : Z) (qs : list jreq) : M Z :=
  match qs with
  | [] => ret curr_p
  | q :: qs => let! curr_p := append_req curr_p q in append_reqs curr_p qs
  end.

(** The record a request writes in state [s]. *)
Definition rec_of (s : nova) (q : jreq) : jrec :=
  match q with
  | ReqField f => mkJrec JOURNAL_ENTRY (nova_get_addr_off s (align8 f)) (load 8 (nvmm s) (align8 f))
  | ReqReplica sih => mkJrec JOURNAL_INODE (pi_addr sih) (alter_pi_addr sih)
  end.

(** The word a request reads lies in NVMM, outside the entry at [e]. *)
Definition req_readable (s : nova) (e : Z) (n : Z) (q : jreq) : Prop :=
  match q with
  | ReqField f => in_pmem s (align8 f) 8 = true /\ (align8 f + 8 <= e \/ e + n <= align8 f)
  | ReqReplica _ => True
  end.

Lemma append_req_run s curr_p q :
  let e := virt_addr (sbc s) + curr_p in
  curr_p <> 0 -> in_pmem s e 32 = true -> writable s = true -> req_readable s e 32 q ->
  append_req curr_p q s
  = Ok (next_lite_journal curr_p) (pm_step s (entry_stores e (rec_of s q))).
Proof.
  intros e Hc Hin Hw Hr.
  destruct (entry_steps s e (rec_of s q) Hin Hw) as (S1 & S2 & S3 & S4 & S5).
  assert (nova_get_block s curr_p = e) as Eb
    by (unfold nova_get_block; by rewrite (proj2 (Z.eqb_neq _ _))).
  destruct q as [f|sih]; cbn [append_req].
  - unfold nova_append_entry_journal. fold (align8 f).
    rewrite (bind_ok _ _ _ e s) by (unfold gets; by rewrite Eb).
    rewrite (bind_ok _ _ _ _ _ S1), (bind_ok _ _ _ _ _ S2).
    rewrite (bind_ok _ _ _ (nova_get_addr_off s (align8 f))
      (pm_step s (take 2 (entry_stores e (rec_of s (ReqField f)))))) by done.
    rewrite (bind_ok _ _ _ _ _ S3).
    rewrite (bind_ok _ _ _ (load 8 (nvmm s) (align8 f))
      (pm_step s (take 3 (entry_stores e (rec_of s (ReqField f)))))).
    + by rewrite (bind_ok _ _ _ _ _ S4), (bind_ok _ _ _ _ _ S5).
    + destruct Hr as [Hr1 Hr2]. rewrite pload_run by done. f_equal.
      unfold pm_step. cbn [nvmm set_trace set_nvmm].
      cbn [entry_stores take apply_evs foldl apply_ev].
      rewrite !load_store_bytes_other; rewrite ?length_le_bytes; lia || done.
  - unfold nova_append_replica_inode_journal.
    rewrite (bind_ok _ _ _ e s) by (unfold gets; by rewrite Eb).
    by rewrite (bind_ok _ _ _ _ _ S1), (bind_ok _ _ _ _ _ S2), (bind_ok _ _ _ _ _ S3),
      (bind_ok _ _ _ _ _ S4), (bind_ok _ _ _ _ _ S5).
Qed.

(** ** The circular page *)

(** Entry number [h] of the page at offset [J], as an offset. *)
Definition slot (J h : Z) : Z := J + 32 * (h mod 128).

Definition page_ok (J : Z) : Prop := J mod 4096 = 0 /\ 0 < J < 2 ^ 60.

Lemma slot_range J h : J <= slot J h <= J + 4096 - 32.
Proof. unfold slot. pose proof (Z.mod_pos_bound h 128). lia. Qed.

Lemma next_slot J h : page_ok J -> next_lite_journal (slot J h) = slot J (h + 1).
Proof.
  intros [HJ HJ2]. unfold next_lite_journal.
  change (PAGE_SIZE - 1) with (2 ^ 12 - 1). rewrite land_mask by lia. change (2 ^ 12) with 4096.
  change entry_size with 32. unfold PAGE_SIZE.
  pose proof (Z.mod_pos_bound h 128) as Hh.
  assert (slot J h mod 4096 = 32 * (h mod 128)) as E.
  { unfold slot. rewrite Zplus_mod, HJ, Z.add_0_l, Zmod_mod. apply Z.mod_small. lia. }
  rewrite E, uwrap_small by lia.
  assert ((h + 1) mod 128 = if h mod 128 =? 127 then 0 else h mod 128 + 1) as E1.
  { rewrite Zplus_mod. destruct (Z.eqb_spec (h mod 128) 127) as [-> |]; [done|].
    rewrite (Z.mod_small 1) by lia. apply Z.mod_small. lia. }
  unfold slot at 3. rewrite E1.
  destruct (Z.eqb_spec (h mod 128) 127) as [E2|E2].
  - rewrite (proj2 (Z.leb_le _ _)) by lia. unfold PAGE_MASK.
    change (PAGE_SIZE - 1) with (2 ^ 12 - 1). rewrite land_lnot_mask by lia.
    change (2 ^ 12) with 4096. rewrite E. unfold slot. lia.
  - rewrite (proj2 (Z.leb_gt _ _)) by lia. rewrite uwrap_small; unfold slot; lia.
Qed.

(** The stores that write records from entry [h] on. *)
Fixpoint journal_stores (base J h : Z) (recs : list jrec) : list pm_event :=
  match recs with
  | [] => []
  | r :: recs => entry_stores (base + slot J h) r ++ journal_stores base J (h + 1) recs
  end.

(** Events whose stores lie in [a, a + n). *)
Definition stores_in (a n : Z) (ev : pm_event) : Prop :=
  match ev with
  | EvStore b l | EvNtStore b l => a <= b /\ b + Z.of_nat (length l) <= a + n
  | _ => True
  end.

Lemma stores_in_out a n evs m x :
  Forall (stores_in a n) evs -> ~ (a <= x < a + n) -> mget (apply_evs m evs) x = mget m x.
Proof.
  intros F Hx. revert m. induction F as [|ev evs Hev _ IH]; intros m; [done|].
  cbn. rewrite IH. destruct ev; cbn in *; try done; apply mget_store_bytes_out; lia.
Qed.

Lemma stores_in_mono a n b k ev :
  stores_in a n ev -> b <= a -> a + n <= b + k -> stores_in b k ev.
Proof. destruct ev; cbn; lia. Qed.

Lemma no_store_in a n evs : Forall no_store evs -> Forall (stores_in a n) evs.
Proof. intros F. eapply Forall_impl; [exact F|]. by intros []. Qed.

Lemma entry_stores_in e r : Forall (stores_in e 32) (entry_stores e r).
Proof.
  unfold entry_stores. repeat apply Forall_cons_2; [..|apply Forall_nil_2];
    cbn [stores_in]; rewrite length_le_bytes; lia.
Qed.

Lemma journal_stores_in base J h recs :
  Forall (stores_in (base + J) 4096) (journal_stores base J h recs).
Proof.
  revert h. induction recs as [|r recs IH]; intros h; cbn [journal_stores]; [constructor|].
  apply Forall_app. split; [|done]. pose proof (slot_range J h).
  eapply Forall_impl; [apply entry_stores_in|]. intros ev Hev.
  eapply stores_in_mono; [exact Hev|lia|lia].
Qed.

Lemma rec_of_step s q evs a n :
  Forall (stores_in a n) evs -> req_readable s a n q -> rec_of (pm_step s evs) q = rec_of s q.
Proof.
  intros F R. destruct q as [f|]; [|done]. cbn [rec_of req_readable] in *. f_equal.
  apply load_ext.
  intros x Hx. eapply stores_in_out; [exact F|lia].
Qed.

Lemma append_reqs_run qs s J h :
  let base := virt_addr (sbc s) in
  page_ok J -> in_pmem s (base + J) 4096 = true -> writable s = true ->
  Forall (req_readable s (base + J) 4096) qs ->
  append_reqs (slot J h) qs s
  = Ok (slot J (h + Z.of_nat (length qs)))
       (pm_step s (journal_stores base J h (rec_of s <$> qs))).
Proof.
  intros base HJ Hin Hw. revert s h base Hin Hw.
  induction qs as [|q qs IH]; intros s h base Hin Hw F; cbn [append_reqs].
  - rewrite Z.add_0_r. by rewrite pm_step_nil.
  - apply Forall_cons in F as [Hq F]. pose proof (slot_range J h) as Hs.
    destruct HJ as [HJ1 HJ2] eqn:EJ. clear EJ.
    set (evs := entry_stores (base + slot J h) (rec_of s q)).
    rewrite (bind_ok _ _ _ (slot J (h + 1)) (pm_step s evs)).
    + rewrite IH by done. rewrite pm_step_app. f_equal; [f_equal; cbn; lia|].
      cbn [fmap list_fmap journal_stores]. fold evs. do 3 f_equal.
      apply list_fmap_ext. intros i q' Hq'.
      eapply (rec_of_step _ _ _ (base + J) 4096).
      * eapply Forall_impl; [apply entry_stores_in|]. intros ev Hev.
        eapply stores_in_mono; [exact Hev|lia|lia].
      * rewrite Forall_lookup in F. by eapply F.
    + rewrite append_req_run.
      * by rewrite next_slot by done.
      * lia.
      * eapply in_pmem_sub; [exact Hin|lia|lia].
      * done.
      * destruct q as [f|]; [|done]. destruct Hq as [Hq1 Hq2]. split; [done|]. fold base. lia.
Qed.

(** ** Flushing the new entries *)
Definition batch_flushes (base head tail : Z) : list pm_event :=
  if head <? tail then flush_buffer_events (base + head) (tail - head) false
  else flush_buffer_events (base + head) (4096 - head mod 4096) false
       ++ flush_buffer_events (base + tail - tail mod 4096) (tail mod 4096) false.

Lemma batch_flushes_no_store base head tail : Forall no_store (batch_flushes base head tail).
Proof.
  unfold batch_flushes. case_if; [|apply Forall_app; split]; apply flush_buffer_no_store.
Qed.

Lemma slot_mod J h : page_ok J -> slot J h mod 4096 = 32 * (h mod 128).
Proof.
  intros [HJ _]. pose proof (Z.mod_pos_bound h 128). unfold slot.
  rewrite Zplus_mod, HJ, Z.add_0_l, Zmod_mod. apply Z.mod_small. lia.
Qed.

Lemma nova_flush_journal_run s J h h' :
  page_ok J -> virt_addr (sbc s) mod 4096 = 0 ->
  nova_flush_journal_in_batch (slot J h) (slot J h') s
  = Ok tt (pm_step s (batch_flushes (virt_addr (sbc s)) (slot J h) (slot J h') ++ [EvFence])).
Proof.
  intros HJ Hv. pose proof (slot_range J h). pose proof (slot_range J h'). destruct HJ as [HJ1 HJ2].
  assert (page_ok J) as HJ by done.
  assert (forall b, J <= b -> nova_get_block s b = virt_addr (sbc s) + b) as Eb.
  { intros b Hb. unfold nova_get_block. by rewrite (proj2 (Z.eqb_neq _ _)) by lia. }
  assert (forall z, Z.land z (Z.lnot PAGE_MASK) = z mod 4096) as Em.
  { intros z. unfold PAGE_MASK. rewrite Z.lnot_involutive.
    change (PAGE_SIZE - 1) with (2 ^ 12 - 1). by rewrite land_mask by lia. }
  unfold nova_flush_journal_in_batch, batch_flushes.
  destruct (Z.ltb_spec (slot J h) (slot J h')).
  - rewrite (bind_ok _ _ _ tt
      (pm_step s (flush_buffer_events (virt_addr (sbc s) + slot J h) (slot J h' - slot J h) false))).
    + unfold PERSISTENT_BARRIER, emit, modify. f_equal. fold (add_trace [EvFence]).
      rewrite <- (pm_step_app _ _ [EvFence]). apply add_trace_step. by repeat constructor.
    + rewrite (bind_ok _ _ _ (virt_addr (sbc s) + slot J h) s) by (unfold gets; by rewrite Eb by lia).
      rewrite uwrap_small by lia. apply nova_flush_buffer_step; lia.
  - rewrite !Em, !slot_mod by done. pose proof (Z.mod_pos_bound h 128).
    pose proof (Z.mod_pos_bound h' 128).
    rewrite (bind_ok _ _ _ tt (pm_step s
      (flush_buffer_events (virt_addr (sbc s) + slot J h) (4096 - 32 * (h mod 128)) false ++
       flush_buffer_events (virt_addr (sbc s) + slot J h' - 32 * (h' mod 128))
         (32 * (h' mod 128)) false))).
    + unfold PERSISTENT_BARRIER, emit, modify. f_equal. fold (add_trace [EvFence]).
      rewrite <- (pm_step_app _ _ [EvFence]). apply add_trace_step. by repeat constructor.
    + rewrite (bind_ok _ _ _ (virt_addr (sbc s) + slot J h) s) by (unfold gets; by rewrite Eb by lia).
      unfold PAGE_SIZE. rewrite uwrap_small by lia.
      rewrite (bind_ok _ _ _ tt _ (nova_flush_buffer_step
        (virt_addr (sbc s) + slot J h) (4096 - 32 * (h mod 128)) false s ltac:(lia) ltac:(lia))).
      rewrite (bind_ok _ _ _ (virt_addr (sbc s) + slot J h') (pm_step s
        (flush_buffer_events (virt_addr (sbc s) + slot J h) (4096 - 32 * (h mod 128)) false)))
        by (unfold gets; rewrite get_block_step, Eb by lia; done).
      rewrite nova_flush_buffer_step by lia. rewrite pm_step_app. do 4 f_equal.
      unfold PAGE_MASK. change (PAGE_SIZE - 1) with (2 ^ 12 - 1). rewrite land_lnot_mask by lia.
      change (2 ^ 12) with 4096. rewrite Zplus_mod, Hv, slot_mod, Z.add_0_l by done.
      rewrite (Z.mod_small (32 * _)) by lia. done.
Qed.

(** Every byte of the entries [h], ..., [h + n - 1] is written back. *)
Lemma batch_flushes_cover base J h n k a :
  page_ok J -> 0 <= k < n -> n < 128 ->
  base + slot J (h + k) <= a < base + slot J (h + k) + 32 ->
  line_flushed (batch_flushes base (slot J h) (slot J (h + n))) a.
Proof.
  intros HJ Hk Hn Ha. unfold batch_flushes.
  rewrite !slot_mod by done. unfold slot in *.
  pose proof (Z.mod_pos_bound h 128) as Hi.
  assert (forall x, 0 <= x < 128 ->
    (h + x) mod 128 = if h mod 128 + x <? 128 then h mod 128 + x else h mod 128 + x - 128) as Em.
  { intros x Hx. rewrite Zplus_mod, (Z.mod_small x) by lia.
    destruct (Z.ltb_spec (h mod 128 + x) 128); [by apply Z.mod_small; lia|].
    rewrite <- (Z.mod_add _ (-1)) by lia. apply Z.mod_small. lia. }
  rewrite (Em n), (Em k) in * by lia.
  assert (forall l1 l2, line_flushed l1 a -> line_flushed (l1 ++ l2) a /\ line_flushed (l2 ++ l1) a)
    as Happ.
  { intros l1 l2 (kd & f & Hf & E). split; exists kd, f; (split; [apply elem_of_app; auto|done]). }
  destruct (Z.ltb_spec (h mod 128 + n) 128), (Z.ltb_spec (h mod 128 + k) 128); try lia.
  - rewrite (proj2 (Z.ltb_lt _ _)) by lia. apply flush_buffer_events_cover. lia.
  - rewrite (proj2 (Z.ltb_ge _ _)) by lia. apply (fun H => proj1 (Happ _ _ H)).
    apply flush_buffer_events_cover. lia.
  - rewrite (proj2 (Z.ltb_ge _ _)) by lia. apply (fun H => proj2 (Happ _ _ H)).
    apply flush_buffer_events_cover. lia.
Qed.

(** ** Creating a transaction *)
Definition pair_addr (s : nova) (cpu : Z) : Z :=
  virt_addr (sbc s) + NOVA_DEF_BLOCK_SIZE_4K * JOURNAL_START + cpu * CACHELINE_SIZE.

(** The journal of [cpu]: its pointer pair and its page, at offset [J], lie in
    NVMM and do not overlap. *)
Record jgeo (s : nova) (cpu J : Z) : Prop := {
  jg_cpu : 0 <= cpu < cpus (sbc s);
  jg_virt : virt_addr (sbc s) mod 4096 = 0;
  jg_pos : 0 < virt_addr (sbc s);
  jg_top : virt_addr (sbc s) + initsize (sbc s) < 2 ^ 60;
  jg_page : page_ok J;
  jg_in : in_pmem s (virt_addr (sbc s) + J) 4096 = true;
  jg_pair : in_pmem s (pair_addr s cpu) 64 = true;
  jg_apart : pair_addr s cpu + 64 <= virt_addr (sbc s) + J
}.

(** The pointers of a journal that holds the entries [h], ..., [h' - 1]. *)
Definition journal_at (s : nova) (cpu J h h' : Z) : Prop :=
  load 8 (nvmm s) (pair_addr s cpu) = slot J h /\
  load 8 (nvmm s) (pair_addr s cpu + 8) = slot J h'.

Lemma journal_pointers_run s cpu J :
  jgeo s cpu J -> nova_get_journal_pointers cpu s = Ok (pair_addr s cpu) s.
Proof.
  intros G. unfold nova_get_journal_pointers, bind, gets. cbn [id].
  rewrite (proj2 (Z.leb_gt _ _)) by apply G. done.
Qed.

Lemma pload_head_run s cpu J :
  jgeo s cpu J -> pload_field journal_ptr_pair (pair_addr s cpu) "journal_head" s
  = Ok (load 8 (nvmm s) (pair_addr s cpu)) s.
Proof.
  intros G. unfold pload_field. rewrite (proj1 (pair_field_addr _)).
  apply pload_run. eapply in_pmem_sub; [apply (jg_pair _ _ _ G)|lia|cbn; lia].
Qed.

Lemma pload_tail_run s cpu J :
  jgeo s cpu J -> pload_field journal_ptr_pair (pair_addr s cpu) "journal_tail" s
  = Ok (load 8 (nvmm s) (pair_addr s cpu + 8)) s.
Proof.
  intros G. unfold pload_field. rewrite (proj2 (pair_field_addr _)).
  apply pload_run. eapply in_pmem_sub; [apply (jg_pair _ _ _ G)|lia|cbn; lia].
Qed.

Lemma jgeo_step s evs cpu J : jgeo s cpu J -> jgeo (pm_step s evs) cpu J.
Proof. intros []. by split. Qed.

(** The events up to the fence that precedes the publication, and those of
    the publication. *)
Definition tx_prepare (s : nova) (cpu J h : Z) (recs : list jrec) : list pm_event :=
  let base := virt_addr (sbc s) in
  journal_stores base J h recs ++
  batch_flushes base (slot J h) (slot J (h + Z.of_nat (length recs))) ++ [EvFence].
Definition tx_publish (s : nova) (cpu J h : Z) (n : nat) : list pm_event :=
  EvStore (pair_addr s cpu + 8) (le_bytes 8 (slot J (h + Z.of_nat n)))
  :: flush_buffer_events (pair_addr s cpu) 64 true.
Definition tx_events (s : nova) (cpu J h : Z) (recs : list jrec) : list pm_event :=
  tx_prepare s cpu J h recs ++ tx_publish s cpu J h (length recs).

Lemma load_page_other n m a evs b k :
  Forall (stores_in a k) evs -> b + Z.of_nat n <= a \/ a + k <= b ->
  load n (apply_evs m evs) b = load n m b.
Proof.
  intros F Hd. apply load_ext. intros x Hx. eapply stores_in_out; [exact F|lia].
Qed.

Lemma tx_prepare_in s cpu J h recs :
  Forall (stores_in (virt_addr (sbc s) + J) 4096) (tx_prepare s cpu J h recs).
Proof.
  unfold tx_prepare. rewrite !Forall_app. split_and!.
  - apply journal_stores_in.
  - apply no_store_in, batch_flushes_no_store.
  - by repeat constructor.
Qed.

Lemma create_transaction_run s cpu J h qs (append : Z -> M Z) :
  jgeo s cpu J -> journal_at s cpu J h h -> writable s = true ->
  Forall (req_readable s (virt_addr (sbc s) + J) 4096) qs ->
  append (slot J h) s = append_reqs (slot J h) qs s ->
  create_transaction cpu append s
  = Ok (slot J (h + Z.of_nat (length qs))) (pm_step s (tx_events s cpu J h (rec_of s <$> qs))).
Proof.
  intros G [Eh Et] Hw F Ea. pose proof (jg_page _ _ _ G) as HJ.
  pose proof (slot_range J h). unfold create_transaction.
  rewrite (bind_ok _ _ _ _ _ (journal_pointers_run _ _ _ G)).
  rewrite (bind_ok _ _ _ _ _ (pload_head_run _ _ _ G)), (bind_ok _ _ _ _ _ (pload_tail_run _ _ _ G)).
  rewrite Eh, Et, (proj2 (Z.eqb_neq _ _)) by (destruct HJ; lia). rewrite Z.eqb_refl. cbn [orb negb].
  set (recs := rec_of s <$> qs). set (base := virt_addr (sbc s)).
  set (st := journal_stores base J h recs).
  rewrite (bind_ok _ _ _ (slot J (h + Z.of_nat (length qs))) (pm_step s st))
    by (rewrite Ea; apply append_reqs_run; auto; apply G).
  assert (load 8 (nvmm (pm_step s st)) (pair_addr s cpu) = slot J h) as Eh2.
  { rewrite <- Eh. eapply load_page_other; [apply journal_stores_in|].
    pose proof (jg_apart _ _ _ G). unfold base. lia. }
  rewrite (bind_ok _ _ _ (slot J h) (pm_step s st)).
  2: { rewrite <- Eh2. apply (pload_head_run (pm_step s st) cpu J). by apply jgeo_step. }
  assert (length recs = length qs) as El by (unfold recs; by rewrite length_fmap).
  rewrite (bind_ok _ _ _ tt (pm_step s (tx_prepare s cpu J h recs))).
  2: { rewrite nova_flush_journal_run by (done || apply G). rewrite pm_step_app.
       unfold tx_prepare. by rewrite El. }
  rewrite (bind_ok _ _ _ tt (pm_step s (tx_prepare s cpu J h recs ++
    [EvStore (pair_addr s cpu + 8) (le_bytes 8 (slot J (h + Z.of_nat (length qs))))]))).
  2: { apply pstore_field_step; [apply pair_field_addr|reflexivity| |done].
       eapply in_pmem_sub; [apply (jg_pair _ _ _ G)|lia|cbn; lia]. }
  rewrite (proj1 (pair_field_addr _)).
  unfold CACHELINE_SIZE. rewrite (bind_ok _ _ _ tt _ (nova_flush_buffer_step
    (pair_addr s cpu) 64 true _ ltac:(lia) ltac:(lia))).
  rewrite pm_step_app. unfold tx_events, tx_publish. rewrite El, <- app_assoc. done.
Qed.
End spec.
