(* ===== verification/JournalRecover.v ===== *)
(** Recovery of the lite journal, and crash atomicity of transactions. *)

From stdpp Require Import strings.
From S2P Require Import Prelude CInt Crc32c NovaEnv RangeNode Pmem NovaState NovaMonad NovaLib.
From S2P Require Import Balloc NovaLayout Journal Crash JournalSpec.

Local Open Scope nova_scope.
Local Open Scope string_scope.
Local Open Scope Z_scope.

Section recover.
Context {NE : NovaEnv} {CO : @CrcEnvOk nova_crc_env}.

(** ** What the page holds *)

(** The entries from [h] on hold the records. *)
Fixpoint holds (m : mem) (base J h : Z) (recs : list jrec) : Prop :=
  match recs with
  | [] => True
  | r :: recs => load_bytes m (base + slot J h) 32 = entry_bytes r /\ holds m base J (h + 1) recs
  end.

Lemma slot_apart J h k :
  0 < k < 128 -> slot J (h + k) + 32 <= slot J h \/ slot J h + 32 <= slot J (h + k).
Proof.
  intros Hk. unfold slot. pose proof (Z.mod_pos_bound h 128). pose proof (Z.mod_pos_bound (h + k) 128).
  assert ((h + k) mod 128 <> h mod 128); [|lia]. intros E.
  pose proof (Z.div_mod h 128). pose proof (Z.div_mod (h + k) 128). lia.
Qed.

(** The stores of the entries after [h] leave entry [h] alone. *)
Lemma journal_stores_later m base J h k recs :
  0 < k -> k + Z.of_nat (length recs) <= 128 ->
  load_bytes (apply_evs m (journal_stores base J (h + k) recs)) (base + slot J h) 32
  = load_bytes m (base + slot J h) 32.
Proof.
  revert m k. induction recs as [|r recs IH]; intros m k Hk Hlen; cbn [journal_stores]; [done|].
  cbn [length] in Hlen. rewrite apply_evs_app, <- Z.add_assoc, IH by lia.
  rewrite (entry_written m). apply load_bytes_store_other. rewrite length_entry_bytes.
  pose proof (slot_apart J h k). lia.
Qed.

Lemma journal_stores_holds m base J h recs :
  (length recs <= 128)%nat -> holds (apply_evs m (journal_stores base J h recs)) base J h recs.
Proof.
  revert m h. induction recs as [|r recs IH]; intros m h Hlen; cbn [journal_stores holds]; [done|].
  cbn [length] in Hlen. rewrite apply_evs_app. split; [|apply IH; lia].
  rewrite journal_stores_later by lia. rewrite (entry_written m).
  rewrite <- (length_entry_bytes r) at 1. apply load_store_bytes_same.
Qed.

Lemma holds_ext m m' base J h recs :
  (forall x, base + J <= x < base + J + 4096 -> mget m' x = mget m x) ->
  holds m base J h recs -> holds m' base J h recs.
Proof.
  intros E. revert h. induction recs as [|r recs IH]; intros h; cbn [holds]; [done|].
  intros [E1 Hh]. split; [|auto]. rewrite <- E1. apply load_bytes_ext.
  intros x Hx. apply E. pose proof (slot_range J h). lia.
Qed.

(** The fields of a held entry. *)
Lemma entry_fields m e r :
  load_bytes m e 32 = entry_bytes r -> jrec_ok r ->
  load 8 m e = j_type r /\ load 8 m (e + 8) = j_data1 r /\ load 8 m (e + 16) = j_data2 r /\
  load 4 m (e + 28) = entry_crc r /\ load_bytes m e 28 = entry_head r.
Proof.
  intros E (H1' & H2' & H3'). unfold entry_bytes, entry_head in E.
  change 32%nat with (8 + (8 + (8 + (4 + 4))))%nat in E. rewrite !load_bytes_app in E.
  rewrite <- !app_assoc in E.
  apply app_inj_1 in E as [E1 E]; [|by rewrite length_load_bytes, length_le_bytes].
  apply app_inj_1 in E as [E2 E]; [|by rewrite length_load_bytes, length_le_bytes].
  apply app_inj_1 in E as [E3 E]; [|by rewrite length_load_bytes, length_le_bytes].
  apply app_inj_1 in E as [E4 E5]; [|by rewrite length_load_bytes, length_le_bytes].
  replace (e + Z.of_nat 8 + Z.of_nat 8 + Z.of_nat 8 + Z.of_nat 4) with (e + 28) in * by lia.
  replace (e + Z.of_nat 8 + Z.of_nat 8 + Z.of_nat 8) with (e + 24) in * by lia.
  replace (e + Z.of_nat 8 + Z.of_nat 8) with (e + 16) in * by lia.
  replace (e + Z.of_nat 8) with (e + 8) in * by lia.
  unfold load. rewrite E1, E2, E3, E5, !le_val_le_bytes. split_and!; try (apply Z.mod_small; lia).
  - apply Z.mod_small. apply nova_crc32c_range; [apply uwrap_range; lia|].
    unfold entry_head. rewrite !Forall_app. auto using le_bytes_byteZ.
  - change 28%nat with (8 + (8 + (8 + 4)))%nat. rewrite !load_bytes_app.
    replace (e + Z.of_nat 8 + Z.of_nat 8 + Z.of_nat 8) with (e + 24) by lia.
    replace (e + Z.of_nat 8 + Z.of_nat 8) with (e + 16) by lia.
    replace (e + Z.of_nat 8) with (e + 8) by lia. by rewrite E1, E2, E3, E4.
Qed.

(** ** Journaled locations *)

(** The bytes a request protects. *)
Definition region (s : nova) (q : jreq) : Z * Z :=
  match q with
  | ReqField f => (align8 f, 8)
  | ReqReplica sih => (virt_addr (sbc s) + pi_addr sih, 120)
  end.

Definition in_region (s : nova) (q : jreq) (x : Z) : Prop :=
  (region s q).1 <= x < (region s q).1 + (region s q).2.
#[export] Instance in_region_dec s q x : Decision (in_region s q x) := _.

Definition journaled (s : nova) (qs : list jreq) (x : Z) : Prop :=
  Exists (fun q => in_region s q x) qs.
#[export] Instance journaled_dec s qs x : Decision (journaled s qs x) := _.

(** The journal's own bytes. *)
Definition in_journal (s : nova) (cpu J x : Z) : Prop :=
  virt_addr (sbc s) + J <= x < virt_addr (sbc s) + J + 4096 \/
  pair_addr s cpu <= x < pair_addr s cpu + 64.

(** [a, a + n) does not meet them. *)
Definition off_journal (s : nova) (cpu J a n : Z) : Prop :=
  (a + n <= virt_addr (sbc s) + J \/ virt_addr (sbc s) + J + 4096 <= a) /\
  (a + n <= pair_addr s cpu \/ pair_addr s cpu + 64 <= a).

(** A request a transaction may make: an aligned word of NVMM, or an inode
    that agrees with its replica. *)
Definition req_ok (s : nova) (cpu J : Z) (q : jreq) : Prop :=
  let base := virt_addr (sbc s) in
  match q with
  | ReqField f =>
      in_pmem s (align8 f) 8 = true /\ base < align8 f /\ off_journal s cpu J (align8 f) 8
  | ReqReplica sih =>
      metadata_csum <> 0 /\ 0 < pi_addr sih < 2 ^ 60 /\ 0 < alter_pi_addr sih < 2 ^ 60 /\
      in_pmem s (base + pi_addr sih) 120 = true /\
      in_pmem s (base + alter_pi_addr sih) 120 = true /\
      off_journal s cpu J (base + pi_addr sih) 120 /\
      off_journal s cpu J (base + alter_pi_addr sih) 120 /\
      load_bytes (nvmm s) (base + alter_pi_addr sih) 120
      = load_bytes (nvmm s) (base + pi_addr sih) 120
  end.

(** No replica is itself journaled. *)
Definition replicas_apart (s : nova) (qs : list jreq) : Prop :=
  forall sih x, ReqReplica sih ∈ qs ->
    virt_addr (sbc s) + alter_pi_addr sih <= x < virt_addr (sbc s) + alter_pi_addr sih + 120 ->
    ~ journaled s qs x.

Lemma req_ok_readable s cpu J q :
  req_ok s cpu J q -> req_readable s (virt_addr (sbc s) + J) 4096 q.
Proof. destruct q; cbn; [|done]. intros (? & ? & ? & _). split; [done|lia]. Qed.

Lemma rec_of_ok s cpu J q :
  jgeo s cpu J -> mem_bytes (nvmm s) -> req_ok s cpu J q -> jrec_ok (rec_of s q).
Proof.
  intros G Hm. destruct q as [f|sih]; cbn [rec_of req_ok].
  - intros (Hin & _). split_and!; cbn; try (unfold JOURNAL_ENTRY; lia).
    + apply uwrap_range. lia.
    + apply uwrap_range. lia.
    + apply (load_range 8). done.
    + apply (load_range 8). done.
  - intros (_ & ? & ? & _). split_and!; cbn; unfold JOURNAL_INODE; lia.
Qed.

(** ** Undoing one entry *)

(** [r] is the state recovery runs in; [s] the one the transaction started
    from. *)
Record undo_ctx (s r : nova) : Prop := {
  uc_sbc : sbc r = sbc s;
  uc_writable : writable r = true
}.

Lemma in_pmem_sbc s r a n : sbc r = sbc s -> in_pmem r a n = in_pmem s a n.
Proof. unfold in_pmem. by intros ->. Qed.

Lemma pload_entry_run r e f a n :
  field_addr nova_lite_journal_entry e f = a -> sizeof_field nova_lite_journal_entry f = n ->
  in_pmem r a n = true ->
  pload_field nova_lite_journal_entry e f r = Ok (load n (nvmm r) a) r.
Proof. intros <- <- Hin. by apply pload_run. Qed.

Lemma undo_entry_run s r cpu J q e :
  jgeo s cpu J -> mem_bytes (nvmm s) -> undo_ctx s r -> req_ok s cpu J q ->
  in_pmem s e 32 = true -> load_bytes (nvmm r) e 32 = entry_bytes (rec_of s q) ->
  (forall sih x, q = ReqReplica sih ->
     virt_addr (sbc s) + alter_pi_addr sih <= x < virt_addr (sbc s) + alter_pi_addr sih + 120 ->
     mget (nvmm r) x = mget (nvmm s) x) ->
  exists evs, nova_undo_lite_journal_entry e r = Ok tt (pm_step r evs) /\
    Forall (stores_in (region s q).1 (region s q).2) evs /\
    forall x, mget (apply_evs (nvmm r) evs) x
      = if decide (in_region s q x) then mget (nvmm s) x else mget (nvmm r) x.
Proof.
  intros G Hm [Es Hw] Hq Hin He Halt.
  pose proof (rec_of_ok _ _ _ _ G Hm Hq) as Hok.
  destruct (entry_fields _ _ _ He Hok) as (L1 & L2 & L3 & _).
  destruct (entry_field_addr e) as (A1 & A2 & A3 & _).
  assert (forall a n, e <= a -> a + Z.of_nat n <= e + 32 -> in_pmem r a n = true) as Hsub.
  { intros. rewrite (in_pmem_sbc s) by done. apply (in_pmem_sub _ _ _ _ _ Hin); lia. }
  pose proof (Hsub e 8%nat ltac:(lia) ltac:(lia)) as D1.
  pose proof (Hsub (e + 8) 8%nat ltac:(lia) ltac:(lia)) as D2.
  pose proof (Hsub (e + 16) 8%nat ltac:(lia) ltac:(lia)) as D3.
  unfold nova_undo_lite_journal_entry.
  rewrite (bind_ok _ _ _ _ _ (pload_entry_run r e "type" e 8 A1 eq_refl D1)).
  rewrite L1. destruct q as [f|sih]; cbn [rec_of j_type] in *.
  - change (JOURNAL_ENTRY =? JOURNAL_INODE) with false. rewrite Z.eqb_refl.
    destruct Hq as (Hf & Hlt & _). pose proof (jg_top _ _ _ G). pose proof (jg_pos _ _ _ G).
    pose proof (proj1 (in_pmem_spec _ _ _) Hf).
    assert (nova_get_addr_off s (align8 f) = align8 f - virt_addr (sbc s)) as Eo.
    { unfold nova_get_addr_off. apply uwrap_small. lia. }
    cbn [j_data1 j_data2] in L2, L3. rewrite Eo in L2.
    unfold nova_undo_journal_entry.
    rewrite (bind_ok _ _ _ _ _ (pload_entry_run r e "data1" (e + 8) 8 A2 eq_refl D2)).
    rewrite (bind_ok _ _ _ _ _ (pload_entry_run r e "data2" (e + 16) 8 A3 eq_refl D3)).
    rewrite L2, L3.
    rewrite (bind_ok _ _ _ (align8 f) r).
    2: { unfold gets, nova_get_block. rewrite (proj2 (Z.eqb_neq _ _)) by lia.
         rewrite Es. f_equal. lia. }
    rewrite (bind_ok _ _ _ tt _ (pstore_step 8 (align8 f) (load 8 (nvmm s) (align8 f)) r
      ltac:(by rewrite (in_pmem_sbc s)) Hw)).
    unfold CACHELINE_SIZE. rewrite nova_flush_buffer_step by lia. rewrite pm_step_app.
    eexists. split; [reflexivity|]. cbn [region fst snd]. split.
    + apply Forall_app. split; [|apply no_store_in, flush_buffer_no_store].
      repeat constructor; cbn; lia.
    + intros x. rewrite apply_evs_app, (apply_no_store _ (flush_buffer_events _ _ _))
        by apply flush_buffer_no_store.
      cbn [apply_evs foldl apply_ev].
      pose proof (store_load_same 8 (nvmm s) (align8 f) Hm x) as Hsl.
      unfold store in Hsl. rewrite mget_store_bytes, length_le_bytes in Hsl |- *.
      unfold in_region. cbn [region fst snd].
      repeat case_decide; try lia; done.
  - rewrite Z.eqb_refl. destruct Hq as (Hmc & Hp & Ha & Hpin & Hain & _ & _ & Hsync).
    cbn [j_data1 j_data2] in L2, L3. unfold nova_undo_journal_inode.
    rewrite (proj2 (Z.eqb_neq _ _)) by done.
    rewrite (bind_ok _ _ _ _ _ (pload_entry_run r e "data1" (e + 8) 8 A2 eq_refl D2)).
    rewrite (bind_ok _ _ _ _ _ (pload_entry_run r e "data2" (e + 16) 8 A3 eq_refl D3)).
    rewrite L2, L3.
    rewrite (bind_ok _ _ _ (virt_addr (sbc s) + pi_addr sih) r)
      by (unfold gets, nova_get_block; by rewrite (proj2 (Z.eqb_neq _ _)), Es by lia).
    rewrite (bind_ok _ _ _ (virt_addr (sbc s) + alter_pi_addr sih) r)
      by (unfold gets, nova_get_block; by rewrite (proj2 (Z.eqb_neq _ _)), Es by lia).
    set (a := virt_addr (sbc s) + alter_pi_addr sih) in *.
    set (p := virt_addr (sbc s) + pi_addr sih) in *.
    change (Z.to_nat (sizeof nova_inode)) with 120%nat.
    assert (load_bytes (nvmm r) a 120 = load_bytes (nvmm s) p 120) as El.
    { rewrite <- Hsync. apply load_bytes_ext. intros x Hx. by apply (Halt sih). }
    rewrite (bind_ok _ _ _ (load_bytes (nvmm s) p 120) r)
      by (unfold pload_bytes; rewrite (in_pmem_sbc s), Hain by done; by rewrite El).
    rewrite (bind_ok _ _ _ 0 (pm_step r [EvNtStore p (load_bytes (nvmm s) p 120)])).
    2: { unfold memcpy_to_pmem_nocache. rewrite (bind_ok _ _ _ tt _ (pstore_bytes_run EvNtStore p
           (load_bytes (nvmm s) p 120) r ltac:(rewrite length_load_bytes; by rewrite (in_pmem_sbc s)) Hw)).
         done. }
    eexists. split; [reflexivity|]. cbn [region fst snd]. split.
    + constructor; [|constructor]. cbn [stores_in]. rewrite length_load_bytes. lia.
    + intros x. cbn [apply_evs foldl apply_ev]. rewrite mget_store_bytes, length_load_bytes.
      unfold in_region. cbn [region fst snd]. fold p.
      repeat case_decide; try lia; try done.
      rewrite lookup_load_bytes by lia. cbn. f_equal. lia.
Qed.

(** ** The recovery loops *)

(** What recovery needs of the state [r]: the journal of [cpu] holds the
    records of [qs] from entry [h] on, and the replicas are as in [s]. *)
Record recoverable (s r : nova) (cpu J h : Z) (qs : list jreq) : Prop := {
  rc_sbc : sbc r = sbc s;
  rc_few : (length qs < 128)%nat;
  rc_tail : load 8 (nvmm r) (pair_addr s cpu + 8) = slot J (h + Z.of_nat (length qs));
  rc_holds : holds (nvmm r) (virt_addr (sbc s)) J h (rec_of s <$> qs);
  rc_alter : forall sih x, ReqReplica sih ∈ qs ->
    virt_addr (sbc s) + alter_pi_addr sih <= x < virt_addr (sbc s) + alter_pi_addr sih + 120 ->
    mget (nvmm r) x = mget (nvmm s) x
}.

Lemma slot_ne J h n : 0 < n < 128 -> slot J h <> slot J (h + n).
Proof. intros Hn. pose proof (slot_apart J h n Hn). lia. Qed.

Lemma region_off s cpu J q x :
  req_ok s cpu J q -> in_region s q x -> ~ in_journal s cpu J x.
Proof.
  unfold in_region, in_journal. destruct q; cbn [req_ok region fst snd]; unfold off_journal; lia.
Qed.

Lemma pair_addr_sbc s r cpu : sbc r = sbc s -> pair_addr r cpu = pair_addr s cpu.
Proof. unfold pair_addr. by intros ->. Qed.

Lemma jgeo_sbc s r cpu J : sbc r = sbc s -> jgeo s cpu J -> jgeo r cpu J.
Proof.
  intros E []. split; rewrite ?E, ?(pair_addr_sbc s r), ?(in_pmem_sbc s r) by done; auto.
Qed.

(** One iteration: the remaining records are still recoverable. *)
Lemma recoverable_next s r cpu J h q qs evs :
  jgeo s cpu J -> recoverable s r cpu J h (q :: qs) -> req_ok s cpu J q ->
  (forall x, mget (apply_evs (nvmm r) evs) x
     = if decide (in_region s q x) then mget (nvmm s) x else mget (nvmm r) x) ->
  recoverable s (pm_step r evs) cpu J (h + 1) qs.
Proof.
  intros G [] Hq Hm. cbn [length fmap list_fmap holds] in *.
  assert (forall x, in_journal s cpu J x -> mget (apply_evs (nvmm r) evs) x = mget (nvmm r) x) as Hj.
  { intros x Hx. rewrite Hm. case_decide as D; [|done]. by apply (region_off _ _ _ _ _ Hq) in D. }
  split; cbn [sbc nvmm pm_step set_trace set_nvmm]; auto.
  - lia.
  - rewrite (load_ext 8 _ (nvmm r)) by (intros x Hx; apply Hj; right; lia).
    rewrite rc_tail0. f_equal. lia.
  - eapply holds_ext; [|apply rc_holds0]. intros x Hx. apply Hj. by left.
  - intros sih x Hin Hx. rewrite Hm. case_decide; [done|]. apply (rc_alter0 sih); [|done].
    apply elem_of_cons. by right.
Qed.

Lemma recoverable_tail_run s r cpu J h qs :
  jgeo s cpu J -> recoverable s r cpu J h qs ->
  pload_field journal_ptr_pair (pair_addr s cpu) "journal_tail" r
  = Ok (slot J (h + Z.of_nat (length qs))) r.
Proof.
  intros G R. rewrite <- (rc_tail _ _ _ _ _ _ R). rewrite <- (pair_addr_sbc s r) by apply R.
  apply (pload_tail_run r cpu J). eapply jgeo_sbc; [apply R|done].
Qed.

Lemma recoverable_entry s r cpu J h q qs :
  jgeo s cpu J -> recoverable s r cpu J h (q :: qs) ->
  let e := virt_addr (sbc s) + slot J h in
  nova_get_block r (slot J h) = e /\ in_pmem s e 32 = true /\
  load_bytes (nvmm r) e 32 = entry_bytes (rec_of s q) /\
  slot J h <> slot J (h + Z.of_nat (length (q :: qs))).
Proof.
  intros G R e. pose proof (slot_range J h). pose proof (jg_page _ _ _ G) as [_ HJ].
  split_and!.
  - unfold nova_get_block. rewrite (proj2 (Z.eqb_neq _ _)) by lia.
    by rewrite (rc_sbc _ _ _ _ _ _ R).
  - eapply in_pmem_sub; [apply (jg_in _ _ _ G)|lia|lia].
  - apply (rc_holds _ _ _ _ _ _ R).
  - apply slot_ne. pose proof (rc_few _ _ _ _ _ _ R). cbn in *. lia.
Qed.

Lemma undo_walk_run s cpu J qs : jgeo s cpu J -> mem_bytes (nvmm s) ->
  forall r h fuel, recoverable s r cpu J h qs -> writable r = true ->
  Forall (req_ok s cpu J) qs -> (length qs <= fuel)%nat ->
  exists evs, journal_walk fuel (pair_addr s cpu) (slot J h) (fun entry =>
      nova_undo_lite_journal_entry entry ;;; ret None) r = Ok None (pm_step r evs) /\
    forall x, mget (apply_evs (nvmm r) evs) x
      = if decide (journaled s qs x) then mget (nvmm s) x else mget (nvmm r) x.
Proof.
  intros G Hm. induction qs as [|q qs IH]; intros r h fuel R Hw F Hf.
  - pose proof (recoverable_tail_run _ _ _ _ _ _ G R) as Et. cbn [length] in Et.
    rewrite Z.add_0_r in Et. exists []. split.
    + destruct fuel; cbn [journal_walk]; rewrite (bind_ok _ _ _ _ _ Et), Z.eqb_refl, pm_step_nil; done.
    + intros x. rewrite decide_False by (by intros ?%Exists_nil). done.
  - destruct fuel as [|fuel]; [cbn in Hf; lia|]. apply Forall_cons in F as [Hq F].
    destruct (recoverable_entry _ _ _ _ _ _ _ G R) as (Eb & Hin & He & Hne).
    pose proof (recoverable_tail_run _ _ _ _ _ _ G R) as Et.
    destruct (undo_entry_run s r cpu J q _ G Hm (Build_undo_ctx _ _ (rc_sbc _ _ _ _ _ _ R) Hw) Hq Hin He)
      as (ev1 & E1 & _ & M1).
    { intros sih x ->. apply (rc_alter _ _ _ _ _ _ R). apply elem_of_cons. by left. }
    destruct (IH (pm_step r ev1) (h + 1) fuel) as (ev2 & E2 & M2);
      [by eapply recoverable_next|done|done|cbn in Hf; lia|].
    exists (ev1 ++ ev2)%list. split.
    + cbn [journal_walk]. rewrite (bind_ok _ _ _ _ _ Et), (proj2 (Z.eqb_neq _ _)) by done.
      rewrite (bind_ok _ _ _ (virt_addr (sbc s) + slot J h) r) by (unfold gets; by rewrite Eb).
      rewrite (bind_ok _ _ _ None (pm_step r ev1)) by (by rewrite (bind_ok _ _ _ _ _ E1)).
      rewrite next_slot by apply G. rewrite E2. by rewrite pm_step_app.
    + intros x. rewrite apply_evs_app.
      change (apply_evs (nvmm r) ev1) with (nvmm (pm_step r ev1)). rewrite M2.
      change (nvmm (pm_step r ev1)) with (apply_evs (nvmm r) ev1). rewrite M1.
      unfold journaled. repeat case_decide; rewrite ?Exists_cons in *; tauto || done.
Qed.

Lemma check_walk_run s cpu J qs : jgeo s cpu J -> mem_bytes (nvmm s) ->
  forall r h fuel, recoverable s r cpu J h qs -> Forall (req_ok s cpu J) qs ->
  (length qs <= fuel)%nat ->
  journal_walk fuel (pair_addr s cpu) (slot J h) (fun entry =>
    let! rc := nova_check_entry_integrity entry in
    ret (if negb (rc =? 0) then Some rc else None)) r = Ok None r.
Proof.
  intros G Hm. induction qs as [|q qs IH]; intros r h fuel R F Hf;
    pose proof (recoverable_tail_run _ _ _ _ _ _ G R) as Et.
  - cbn [length] in Et. rewrite Z.add_0_r in Et.
    destruct fuel; cbn [journal_walk]; rewrite (bind_ok _ _ _ _ _ Et), Z.eqb_refl; done.
  - destruct fuel as [|fuel]; [cbn in Hf; lia|]. apply Forall_cons in F as [Hq F].
    destruct (recoverable_entry _ _ _ _ _ _ _ G R) as (Eb & Hin & He & Hne).
    pose proof (rec_of_ok _ _ _ _ G Hm Hq) as Hok.
    destruct (entry_fields _ _ _ He Hok) as (_ & _ & _ & L4 & L5).
    cbn [journal_walk]. rewrite (bind_ok _ _ _ _ _ Et), (proj2 (Z.eqb_neq _ _)) by done.
    rewrite (bind_ok _ _ _ (virt_addr (sbc s) + slot J h) r) by (unfold gets; by rewrite Eb).
    set (e := virt_addr (sbc s) + slot J h) in *.
    assert (forall a n, e <= a -> a + Z.of_nat n <= e + 32 -> in_pmem r a n = true) as Hsub.
    { intros. rewrite (in_pmem_sbc s) by apply R. apply (in_pmem_sub _ _ _ _ _ Hin); lia. }
    rewrite (bind_ok _ _ _ None r).
    + rewrite next_slot by apply G. apply IH; [|done|cbn in Hf; lia].
      destruct R. cbn [length fmap list_fmap holds] in *. split; auto.
      * lia.
      * rewrite rc_tail0. f_equal. lia.
      * apply rc_holds0.
      * intros sih x Hi. apply rc_alter0. apply elem_of_cons. by right.
    + rewrite (bind_ok _ _ _ 0 r); [done|]. unfold nova_check_entry_integrity.
      rewrite (bind_ok _ _ _ (entry_crc (rec_of s q)) r).
      * rewrite (bind_ok _ _ _ _ _ (pload_entry_run r e "csum" (e + 28) 4
          ltac:(apply entry_field_addr) eq_refl (Hsub (e + 28) 4%nat ltac:(lia) ltac:(lia)))).
        rewrite L4, Z.eqb_refl. done.
      * unfold journal_entry_crc. change (Z.to_nat (entry_size - 4)) with 28%nat.
        unfold pload_bytes, bind. rewrite Hsub by lia. by rewrite L5.
Qed.

(** ** Recovery of one journal *)
Lemma unlocked_recoverable s r cpu J h qs :
  recoverable s r cpu J h qs -> recoverable s (unlocked r) cpu J h qs.
Proof. intros []. by split; rewrite ?unlocked_sbc, ?unlocked_nvmm. Qed.

Lemma recover_run s r cpu J h qs :
  jgeo s cpu J -> mem_bytes (nvmm s) -> recoverable s r cpu J h qs ->
  load 8 (nvmm r) (pair_addr s cpu) = slot J h -> Forall (req_ok s cpu J) qs ->
  exists r', nova_recover_lite_journal (pair_addr s cpu) r = Ok 0 r' /\ sbc r' = sbc s /\
    journal_at r' cpu J h h /\
    forall x, ~ in_journal s cpu J x ->
      mget (nvmm r') x = if decide (journaled s qs x) then mget (nvmm s) x else mget (nvmm r) x.
Proof.
  intros G Hm R Eh F. pose proof (rc_sbc _ _ _ _ _ _ R) as Es.
  pose proof (jg_page _ _ _ G) as [HJ1 HJ2]. pose proof (jg_pos _ _ _ G).
  pose proof (jg_top _ _ _ G). pose proof (jg_apart _ _ _ G) as Hap. pose proof (jg_cpu _ _ _ G).
  pose proof (proj1 (in_pmem_spec _ _ _) (jg_in _ _ _ G)) as Hin.
  unfold nova_recover_lite_journal.
  set (r0 := unlocked r). assert (Es0 : sbc r0 = sbc s) by (unfold r0; by rewrite unlocked_sbc).
  assert (G0 : jgeo r0 cpu J) by (by eapply jgeo_sbc).
  rewrite (bind_ok _ _ _ tt r0).
  2: { unfold nova_memunlock_journal. rewrite (bind_ok _ _ _ _ r) by done.
       unfold nova_get_block. cbn [Z.eqb Z.mul NOVA_DEF_BLOCK_SIZE_4K JOURNAL_START Pos.mul].
       unfold pair_addr, NOVA_DEF_BLOCK_SIZE_4K, JOURNAL_START, CACHELINE_SIZE in *.
       pose proof (Z.div_mod J 4096 ltac:(done)). change (4096 * 48 =? 0) with false.
       apply memunlock_run; rewrite ?Es; lia. }
  rewrite (bind_ok _ _ _ (slot J h) r0).
  2: { rewrite <- Eh. replace (nvmm r) with (nvmm r0) by apply unlocked_nvmm.
       rewrite <- (pair_addr_sbc s r0) by done. by apply (pload_head_run r0 cpu J). }
  destruct (undo_walk_run s cpu J qs G Hm r0 h max_entries) as (evs & Ew & Hx);
    [by apply unlocked_recoverable|apply writable_unlocked|done
    |unfold max_entries; pose proof (rc_few _ _ _ _ _ _ R); lia|].
  rewrite (bind_ok _ _ _ _ _ Ew). unfold r0 in Hx at 2. rewrite unlocked_nvmm in Hx.
  assert (Hj : forall x, in_journal s cpu J x -> mget (apply_evs (nvmm r0) evs) x = mget (nvmm r) x).
  { intros x Hxj. rewrite Hx. case_decide as D; [|done]. exfalso.
    apply Exists_exists in D as (q & Hq & D). rewrite Forall_forall in F.
    by apply (region_off _ _ _ _ _ (F q Hq) D). }
  set (r1 := pm_step r0 evs) in *.
  assert (G1 : jgeo r1 cpu J) by (by apply jgeo_step).
  assert (Eh1 : load 8 (nvmm r1) (pair_addr s cpu) = slot J h).
  { rewrite <- Eh. apply load_ext. intros x Hxx. apply Hj. right. lia. }
  rewrite (bind_ok _ _ _ (slot J h) r1).
  2: { rewrite <- Eh1. rewrite <- (pair_addr_sbc s r1) by done. by apply (pload_head_run r1 cpu J). }
  pose proof (slot_range J h).
  set (st := EvStore (pair_addr s cpu + 8) (le_bytes 8 (slot J h))).
  rewrite (bind_ok _ _ _ tt (pm_step r1 [st])).
  2: { rewrite <- (pm_step_nil r1) at 1.
       apply (pstore_field_step _ _ _ _ r1 [] (pair_addr s cpu + 8) 8);
         [apply pair_field_addr|reflexivity| |].
       - rewrite (in_pmem_sbc s) by done. eapply in_pmem_sub; [apply (jg_pair _ _ _ G)|lia|cbn; lia].
       - apply writable_unlocked. }
  rewrite (bind_ok _ _ _ tt (locked (pm_step r1 [st])))
    by (unfold nova_memlock_journal; rewrite (bind_ok _ _ _ _ (pm_step r1 [st])) by done; apply memlock_run).
  rewrite (proj1 (pair_field_addr _)). unfold CACHELINE_SIZE.
  rewrite (bind_ok _ _ _ tt _ (nova_flush_buffer_step (pair_addr s cpu) 64 true _ ltac:(lia) ltac:(lia))).
  set (r' := pm_step (locked (pm_step r1 [st])) (flush_buffer_events (pair_addr s cpu) 64 true)).
  exists r'. split; [reflexivity|].
  assert (Es' : sbc r' = sbc s) by (unfold r'; cbn [sbc pm_step set_trace set_nvmm]; by rewrite locked_sbc).
  assert (Enm : nvmm r' = store 8 (nvmm r1) (pair_addr s cpu + 8) (slot J h)).
  { unfold r'. cbn [nvmm pm_step set_trace set_nvmm].
    rewrite apply_no_store by apply flush_buffer_no_store. by rewrite locked_nvmm. }
  clearbody r'. split_and!; [done| |].
  - split; rewrite Enm, (pair_addr_sbc s r') by done.
    + rewrite load_store_other by lia. done.
    + rewrite load_store_same; [done|]. cbn. lia.
  - intros x Hxj. rewrite Enm, mget_store_out by (intros ?; apply Hxj; right; cbn in *; lia).
    rewrite <- Hx. done.
Qed.
End recover.

(** * Crash atomicity

    The recovery of one CPU's journal at mount, and the theorem that a power
    failure at any point of a transaction, up to its commit, is undone. *)
Local Open Scope list_scope.
Local Open Scope Z_scope.
Section crash.
Context {NE : NovaEnv} {CO : @CrcEnvOk nova_crc_env}.

(** ** The journal of one CPU at mount *)
Lemma soft_init_empty r cpu J h :
  jgeo r cpu J -> journal_at r cpu J h h -> soft_init_body cpu r = Ok None r.
Proof.
  intros G [Eh Et]. unfold soft_init_body.
  rewrite (bind_ok _ _ _ _ _ (journal_pointers_run _ _ _ G)).
  rewrite (bind_ok _ _ _ _ _ (pload_head_run _ _ _ G)), (bind_ok _ _ _ _ _ (pload_tail_run _ _ _ G)).
  by rewrite Eh, Et, Z.eqb_refl.
Qed.

Lemma soft_init_recovers s r cpu J h qs :
  jgeo s cpu J -> mem_bytes (nvmm s) -> recoverable s r cpu J h qs ->
  load 8 (nvmm r) (pair_addr s cpu) = slot J h -> Forall (req_ok s cpu J) qs ->
  exists r', soft_init_body cpu r = Ok None r' /\ sbc r' = sbc s /\ journal_at r' cpu J h h /\
    forall x, ~ in_journal s cpu J x ->
      mget (nvmm r') x = if decide (journaled s qs x) then mget (nvmm s) x else mget (nvmm r) x.
Proof.
  intros G Hm R Eh F. pose proof (rc_sbc _ _ _ _ _ _ R) as Es.
  assert (Gr : jgeo r cpu J) by (by eapply jgeo_sbc).
  assert (Ep : pair_addr r cpu = pair_addr s cpu) by (by apply pair_addr_sbc).
  destruct (decide (qs = [])) as [->|Hne].
  - exists r. assert (journal_at r cpu J h h) as A.
    { split; rewrite Ep; [done|]. rewrite (rc_tail _ _ _ _ _ _ R). f_equal. cbn. lia. }
    split; [by eapply soft_init_empty|]. split; [done|]. split; [done|]. intros x _.
    rewrite decide_False; [done|]. by intros ?%Exists_nil.
  - destruct (recover_run s r cpu J h qs G Hm R Eh F) as (r' & E & Es' & A & Hx).
    exists r'. split; [|by auto]. unfold soft_init_body.
    rewrite (bind_ok _ _ _ _ _ (journal_pointers_run _ _ _ Gr)).
    rewrite (bind_ok _ _ _ _ _ (pload_head_run _ _ _ Gr)), (bind_ok _ _ _ _ _ (pload_tail_run _ _ _ Gr)).
    rewrite Ep, Eh, (rc_tail _ _ _ _ _ _ R).
    rewrite (proj2 (Z.eqb_neq _ _)).
    2: { apply slot_ne. pose proof (rc_few _ _ _ _ _ _ R). destruct qs; [done|cbn in *; lia]. }
    rewrite (bind_ok _ _ _ 0 r).
    + cbn [Z.eqb negb]. by rewrite (bind_ok _ _ _ _ _ E).
    + unfold nova_check_journal_entries.
      rewrite (bind_ok _ _ _ (slot J h) r) by (rewrite <- Eh, <- Ep; by apply (pload_head_run r cpu J)).
      rewrite (bind_ok _ _ _ None r); [done|].
      apply (check_walk_run s cpu J qs G Hm r h max_entries R F).
      unfold max_entries. pose proof (rc_few _ _ _ _ _ _ R). lia.
Qed.

(** ** Crash states of a transaction *)

(** The events of the caller between the creation of the transaction and its
    commit: any stores to journaled bytes, and any flushes and fences. *)
Definition upd_ok (s : nova) (qs : list jreq) (ev : pm_event) : Prop :=
  forall x, writes ev x -> journaled s qs x.

(** The device contents [r] holds after a crash. *)
Record rebooted (s r : nova) (evs : list pm_event) : Prop := {
  rb_sbc : sbc r = sbc s;
  rb_mem : crash (nvmm s) evs (nvmm r)
}.

Lemma journaled_off s cpu J qs x :
  Forall (req_ok s cpu J) qs -> journaled s qs x -> ~ in_journal s cpu J x.
Proof.
  intros F (q & Hq & D)%Exists_exists. rewrite Forall_forall in F.
  by apply (region_off _ _ _ _ _ (F q Hq) D).
Qed.

Lemma stores_in_writes a n ev x : stores_in a n ev -> writes ev x -> a <= x < a + n.
Proof. destruct ev; cbn; lia. Qed.

Lemma publish_writes s cpu J h n ev x :
  ev ∈ tx_publish s cpu J h n -> writes ev x -> pair_addr s cpu + 8 <= x < pair_addr s cpu + 16.
Proof.
  intros [->|Hin]%elem_of_cons; [cbn [writes]; rewrite length_le_bytes; lia|].
  pose proof (flush_buffer_no_store (pair_addr s cpu) 64 true) as F.
  rewrite Forall_forall in F. specialize (F _ Hin). by destruct ev.
Qed.

(** The words of the page and of the pointer pair do not mix. *)
Lemma pair_aligned s cpu J :
  jgeo s cpu J -> pair_addr s cpu mod 64 = 0 /\ (virt_addr (sbc s) + J) mod 64 = 0.
Proof.
  intros G. pose proof (jg_virt _ _ _ G). pose proof (jg_page _ _ _ G) as [HJ _].
  assert (forall z, z mod 4096 = 0 -> z mod 64 = 0) as Hz.
  { intros z Hz. rewrite (Znumtheory.Zmod_div_mod 64 4096) by (lia || by exists 64). by rewrite Hz. }
  split.
  - unfold pair_addr, CACHELINE_SIZE. rewrite Z.mod_add by lia. apply Hz.
    unfold NOVA_DEF_BLOCK_SIZE_4K. by rewrite <- Zplus_mod_idemp_r, Z.mul_comm, Z.mod_mul, Z.add_0_r by lia.
  - apply Hz. by rewrite Zplus_mod, H, HJ.
Qed.

Lemma holds_lookup m base J h recs :
  holds m base J h recs <->
  forall k r, recs !! k = Some r ->
    load_bytes m (base + slot J (h + Z.of_nat k)) 32 = entry_bytes r.
Proof.
  revert h. induction recs as [|r0 recs IH]; intros h; cbn [holds].
  - split; [by intros _ k r|done].
  - rewrite IH. split.
    + intros [E Hk] [|k] r Er; simplify_eq/=; [by rewrite Z.add_0_r|].
      replace (h + Z.of_nat (S k)) with (h + 1 + Z.of_nat k) by lia. by apply Hk.
    + intros Hk. split; [rewrite <- (Hk 0%nat r0 eq_refl); by rewrite Z.add_0_r|].
      intros k r Er. replace (h + 1 + Z.of_nat k) with (h + Z.of_nat (S k)) by lia. by apply Hk.
Qed.

(** Once the fence before the publication was issued, the entries are
    durable. *)
Lemma crash_entries s r cpu J h recs rest :
  jgeo s cpu J -> (length recs < 128)%nat ->
  crash (nvmm s) (tx_prepare s cpu J h recs ++ rest) (nvmm r) ->
  (forall ev x, ev ∈ rest -> writes ev x ->
     ~ (virt_addr (sbc s) + J <= x < virt_addr (sbc s) + J + 4096)) ->
  holds (nvmm r) (virt_addr (sbc s)) J h recs.
Proof.
  intros G Hlen C Hrest. set (base := virt_addr (sbc s)) in *.
  unfold tx_prepare in C. fold base in C. rewrite <- !app_assoc in C. cbn [app] in C.
  set (A := journal_stores base J h recs) in *.
  set (B := batch_flushes base (slot J h) (slot J (h + Z.of_nat (length recs)))) in *.
  pose proof (journal_stores_holds (nvmm s) base J h recs ltac:(lia)) as HA. fold A in HA.
  rewrite holds_lookup in HA |- *. intros k rc Ek. rewrite <- (HA k rc Ek).
  pose proof (lookup_lt_Some _ _ _ Ek) as Hk. pose proof (slot_range J (h + Z.of_nat k)) as Hs.
  apply load_bytes_ext. intros x Hx. set (w := x - x mod 8). pose proof (Z.mod_pos_bound x 8).
  assert ((base + slot J (h + Z.of_nat k)) mod 8 = 0) as H8.
  { destruct (pair_aligned s cpu J G) as [_ Ha]. fold base in Ha. unfold slot.
    replace (base + (J + 32 * ((h + Z.of_nat k) mod 128)))
      with ((base + J) + (4 * ((h + Z.of_nat k) mod 128)) * 8) by lia.
    rewrite Z.mod_add by lia.
    rewrite (Znumtheory.Zmod_div_mod 8 64) by (lia || by exists 8). by rewrite Ha. }
  assert (base + slot J (h + Z.of_nat k) <= w /\ w + 8 <= base + slot J (h + Z.of_nat k) + 32) as Hw.
  { unfold w. pose proof (Z.div_mod x 8). pose proof (Z.div_mod (base + slot J (h + Z.of_nat k)) 8). lia. }
  apply (load_bytes_mget _ _ w 8); [|unfold w; lia].
  apply (crash_flushed _ A B rest); auto.
  - unfold w. by rewrite Zminus_mod, Zmod_mod, Z.sub_diag.
  - destruct (batch_flushes_cover base J h (Z.of_nat (length recs)) (Z.of_nat k) w)
      as (kd & f & Hf & Ef); [apply G|lia|lia|lia|].
    apply Exists_exists. by exists (EvFlush kd f).
  - apply no_store_untouched, batch_flushes_no_store.
  - apply Forall_forall. intros ev Hev (y & Hy & Hwr). apply (Hrest ev y Hev Hwr). lia.
Qed.

(** A crash before the publication leaves the journal empty. *)
Lemma crash_unpublished s r cpu J h evs :
  jgeo s cpu J -> journal_at s cpu J h h -> rebooted s r evs ->
  Forall (stores_in (virt_addr (sbc s) + J) 4096) evs ->
  soft_init_body cpu r = Ok None r /\
  forall x, ~ in_journal s cpu J x -> mget (nvmm r) x = mget (nvmm s) x.
Proof.
  intros G [Eh Et] [Es C] F.
  assert (forall x, ~ (virt_addr (sbc s) + J <= x < virt_addr (sbc s) + J + 4096) ->
            mget (nvmm r) x = mget (nvmm s) x) as Hx.
  { intros x Hx. apply (crash_unwritten _ _ _ _ C). eapply Forall_impl; [exact F|].
    intros ev Hev Hwr. apply Hx. by eapply stores_in_writes. }
  pose proof (jg_apart _ _ _ G). split.
  - apply (soft_init_empty r cpu J h); [by eapply jgeo_sbc|].
    split; rewrite (pair_addr_sbc s r) by done; [rewrite <- Eh|rewrite <- Et];
      apply load_ext; intros x Hxx; apply Hx; cbn in Hxx; lia.
  - intros x Hxj. apply Hx. intros ?. apply Hxj. by left.
Qed.

(** A crash after the publication, with the new tail durable. *)
Lemma crash_published s r cpu J h qs rest :
  let recs := rec_of s <$> qs in
  let T := EvStore (pair_addr s cpu + 8) (le_bytes 8 (slot J (h + Z.of_nat (length recs)))) in
  jgeo s cpu J -> mem_bytes (nvmm s) -> journal_at s cpu J h h ->
  (length qs < 128)%nat -> Forall (req_ok s cpu J) qs -> replicas_apart s qs ->
  rebooted s r (tx_prepare s cpu J h recs ++ T :: rest) ->
  (forall ev x, ev ∈ rest -> writes ev x -> journaled s qs x) ->
  load 8 (nvmm r) (pair_addr s cpu + 8) = slot J (h + Z.of_nat (length recs)) ->
  exists r', soft_init_body cpu r = Ok None r' /\
    forall x, ~ in_journal s cpu J x -> mget (nvmm r') x = mget (nvmm s) x.
Proof.
  intros recs T G Hm [Eh Et] Hlen F Hrep [Es C] Hrest Etail. pose proof (jg_apart _ _ _ G) as Hap.
  assert (length recs = length qs) as El by (unfold recs; by rewrite length_fmap).
  assert (HT : forall x, writes T x -> pair_addr s cpu + 8 <= x < pair_addr s cpu + 16).
  { intros x. unfold T. cbn [writes]. rewrite length_le_bytes. lia. }
  assert (Hun : forall x, ~ (virt_addr (sbc s) + J <= x < virt_addr (sbc s) + J + 4096) ->
    ~ (pair_addr s cpu + 8 <= x < pair_addr s cpu + 16) -> ~ journaled s qs x ->
    mget (nvmm r) x = mget (nvmm s) x).
  { intros x H1 H2 H3. apply (crash_unwritten _ _ _ _ C). rewrite Forall_app, Forall_cons.
    split_and!.
    - eapply Forall_impl; [apply tx_prepare_in|]. intros ev Hev Hwr. apply H1. by eapply stores_in_writes.
    - intros Hwr. by apply H2, HT.
    - apply Forall_forall. intros ev Hev Hwr. by apply H3, (Hrest ev). }
  assert (recoverable s r cpu J h qs) as R.
  { split; auto; try lia.
    - by rewrite Etail, El.
    - apply (crash_entries s r cpu J h recs (T :: rest) G ltac:(lia) C).
      intros ev x [->|Hev]%elem_of_cons Hwr; [apply HT in Hwr; lia|].
      pose proof (journaled_off _ _ _ _ _ F (Hrest _ _ Hev Hwr)) as Hoff.
      intros ?. apply Hoff. by left.
    - intros sih x Hin Hx. rewrite Forall_forall in F.
      destruct (F _ Hin) as (_ & _ & _ & _ & _ & _ & Hoff & _). unfold off_journal in Hoff.
      apply Hun; [lia|lia|by eapply Hrep]. }
  assert (load 8 (nvmm r) (pair_addr s cpu) = slot J h) as Ehr.
  { rewrite <- Eh. apply load_ext. intros x Hx. cbn in Hx. apply Hun; [lia|lia|].
    intros Hj. apply (journaled_off _ _ _ _ _ F Hj). right. lia. }
  destruct (soft_init_recovers s r cpu J h qs G Hm R Ehr F) as (r' & E & _ & _ & Hx).
  exists r'. split; [done|]. intros x Hxj. rewrite Hx by done. case_decide as D; [done|].
  apply Hun; [|intros ?; apply Hxj; right; lia|done]. intros ?. apply Hxj. by left.
Qed.

Lemma published_tail s cpu J h n evs :
  jgeo s cpu J -> Forall (stores_in (virt_addr (sbc s) + J) 4096) evs ->
  le_val (load_bytes (apply_evs (nvmm s) (evs ++
    [EvStore (pair_addr s cpu + 8) (le_bytes 8 (slot J (h + n)))])) (pair_addr s cpu + 8) 8)
  = slot J (h + n).
Proof.
  intros G F. rewrite apply_evs_app. cbn [apply_evs foldl apply_ev].
  apply (load_store_same 8). pose proof (slot_range J (h + n)). pose proof (jg_page _ _ _ G) as [_ ?].
  cbn. lia.
Qed.

Lemma take_publish {A} (n : nat) (p : list A) t c u :
  (n <= length p)%nat /\ take n (p ++ t :: c ++ u) = take n p \/
  (exists k, (k < length c)%nat /\ take n (p ++ t :: c ++ u) = p ++ t :: take k c) \/
  (exists k, take n (p ++ t :: c ++ u) = p ++ t :: c ++ take k u).
Proof.
  destruct (decide (n <= length p)%nat) as [Hle|Hgt].
  - left. by rewrite take_app_le.
  - right. rewrite take_app_ge by lia. destruct (n - length p)%nat as [|k] eqn:E; [lia|].
    cbn [take]. destruct (decide (k < length c)%nat).
    + left. exists k. split; [done|]. by rewrite take_app_le by lia.
    + right. exists (k - length c)%nat. by rewrite take_app_ge by lia.
Qed.

(** A crash at any point from the start of the transaction to its commit. *)
Lemma crash_atomic s r cpu J h qs upd n :
  let recs := rec_of s <$> qs in
  jgeo s cpu J -> mem_bytes (nvmm s) -> journal_at s cpu J h h ->
  (length qs < 128)%nat -> Forall (req_ok s cpu J) qs -> replicas_apart s qs ->
  Forall (upd_ok s qs) upd ->
  rebooted s r (take n (tx_events s cpu J h recs ++ upd)) ->
  exists r', soft_init_body cpu r = Ok None r' /\
    forall x, ~ in_journal s cpu J x -> mget (nvmm r') x = mget (nvmm s) x.
Proof.
  intros recs G Hm A Hlen F Hrep Fu RB. pose proof (jg_apart _ _ _ G) as Hap.
  unfold tx_events, tx_publish in RB. rewrite <- app_assoc in RB. cbn [app] in RB.
  set (P := tx_prepare s cpu J h recs) in *.
  set (T := EvStore (pair_addr s cpu + 8) (le_bytes 8 (slot J (h + Z.of_nat (length recs))))) in *.
  set (C := flush_buffer_events (pair_addr s cpu) 64 true) in *.
  pose proof (tx_prepare_in s cpu J h recs) as FP. fold P in FP.
  pose proof (flush_buffer_no_store (pair_addr s cpu) 64 true) as FC. fold C in FC.
  assert (Hw8 : (pair_addr s cpu + 8) mod 8 = 0).
  { destruct (pair_aligned s cpu J G) as [Hp _]. rewrite Zplus_mod, Z.mod_same, Z.add_0_r, Zmod_mod by lia.
    rewrite (Znumtheory.Zmod_div_mod 8 64) by (lia || by exists 8). by rewrite Hp. }
  assert (FPw : Forall (fun ev => ~ touches ev (pair_addr s cpu + 8)) P).
  { eapply Forall_impl; [exact FP|]. intros ev Hev (x & Hx & Hwr).
    pose proof (stores_in_writes _ _ _ _ Hev Hwr). lia. }
  destruct (take_publish n P T C upd) as [[Hle E]|[(k & Hk & E)|(k & E)]]; rewrite E in RB; clear E.
  - destruct (crash_unpublished s r cpu J h _ G A RB) as [E Hx]; [by apply Forall_take|]. by exists r.
  - pose proof (rb_mem _ _ _ RB) as Cr. pose proof (crash_single _ _ _ _ _ (pair_addr s cpu + 8) Cr Hw8 FPw
      (no_store_untouched _ _ (Forall_take _ k C FC))) as Cs.
    assert (forall ev x, ev ∈ take k C -> writes ev x -> False) as HC.
    { intros ev x Hev Hwr. apply (Forall_take _ k) in FC. rewrite Forall_forall in FC.
      specialize (FC _ Hev). by destruct ev. }
    destruct Cs as [Eo|En].
    + exists r. pose proof (rb_sbc _ _ _ RB) as Es.
      assert (Hun : forall x, ~ (virt_addr (sbc s) + J <= x < virt_addr (sbc s) + J + 4096) ->
        ~ (pair_addr s cpu + 8 <= x < pair_addr s cpu + 16) -> mget (nvmm r) x = mget (nvmm s) x).
      { intros x H1 H2. apply (crash_unwritten _ _ _ _ Cr). rewrite Forall_app, Forall_cons. split_and!.
        - eapply Forall_impl; [exact FP|]. intros ev Hev Hwr. apply H1. by eapply stores_in_writes.
        - unfold T. cbn [writes]. rewrite length_le_bytes. intros ?. apply H2. lia.
        - apply Forall_forall. intros ev Hev Hwr. by eapply HC. }
      split.
      * apply (soft_init_empty r cpu J h); [by eapply jgeo_sbc|]. destruct A as [Eh Et].
        split; rewrite (pair_addr_sbc s r) by done.
        -- rewrite <- Eh. apply load_ext. intros x Hx. cbn in Hx. apply Hun; lia.
        -- rewrite <- Et. unfold load. by rewrite Eo.
      * intros x Hxj. apply Hun; intros ?; apply Hxj; [by left|right; lia].
    + eapply (crash_published s r cpu J h qs (take k C)); eauto.
      * intros ev x Hev Hwr. exfalso. by eapply HC.
      * unfold load. rewrite En. apply (published_tail s cpu J h _ P G FP).
  - assert (forall ev x, ev ∈ C ++ take k upd -> writes ev x -> journaled s qs x) as Hrest.
    { intros ev x [Hev|Hev]%elem_of_app Hwr.
      - rewrite Forall_forall in FC. specialize (FC _ Hev). by destruct ev.
      - apply (Forall_take _ k) in Fu. rewrite Forall_forall in Fu. by apply (Fu ev). }
    eapply (crash_published s r cpu J h qs (C ++ take k upd)); eauto.
    pose proof (rb_mem _ _ _ RB) as Cr.
    unfold C, flush_buffer_events in Cr. rewrite <- !app_assoc in Cr. cbn [app] in Cr.
    set (L := line_flushes _ _ _) in Cr.
    change (T :: L ++ EvFence :: take k upd) with ([T] ++ L ++ EvFence :: take k upd) in Cr.
    rewrite app_assoc in Cr.
    apply (crash_flushed _ (P ++ [T]) L (take k upd) _ (pair_addr s cpu + 8)) in Cr; auto.
    + unfold load. rewrite Cr. apply (published_tail s cpu J h _ P G FP).
    + destruct (flush_buffer_events_cover (pair_addr s cpu) 64 true (pair_addr s cpu + 8))
        as (kd & f & Hf & Ef); [lia|]. unfold flush_buffer_events in Hf. fold L in Hf.
      apply elem_of_app in Hf as [Hf|Hf]; [|set_solver].
      apply Exists_exists. by exists (EvFlush kd f).
    + apply no_store_untouched, line_flushes_no_store.
    + apply Forall_forall. intros ev Hev (x & Hx & Hwr).
      apply (journaled_off s cpu J qs x F); [|right; lia]. apply (Hrest ev); [set_solver|done].
Qed.
End crash.
