(* ===== verification/JournalTx.v ===== *)
(** The transactions of the file system: inode creation, rename and in-place
    update of a log entry, their updates and their commit: all of the updates
    survive a power failure, or none ([tx_all_or_nothing]). *)

From stdpp Require Import strings.
From S2P Require Import Prelude CInt Crc32c NovaEnv RangeNode Pmem NovaState NovaMonad NovaLib.
From S2P Require Import Balloc NovaLayout Journal Crash JournalSpec JournalRecover.

Local Open Scope nova_scope.
Local Open Scope string_scope.
Local Open Scope list_scope.
Local Open Scope Z_scope.

(** ** Computations that keep the device's constants *)
Definition keeps_sbc {A} (m : M A) : Prop := forall s a s', m s = Ok a s' -> sbc s' = sbc s.

Lemma keeps_bind {A B} (m : M A) (k : A -> M B) :
  keeps_sbc m -> (forall a, keeps_sbc (k a)) -> keeps_sbc (bind m k).
Proof.
  intros Hm Hk s b s' E. unfold bind in E. destruct (m s) as [a s1|] eqn:E1; [|done].
  by rewrite (Hk a _ _ _ E), (Hm _ _ _ E1).
Qed.
Lemma keeps_ret {A} (a : A) : keeps_sbc (ret a).
Proof. intros s b s' E. by injection E as <- <-. Qed.
Lemma keeps_gets {A} (g : nova -> A) : keeps_sbc (gets g).
Proof. intros s b s' E. by injection E as <- <-. Qed.

Section tx.
Context {NE : NovaEnv} {CO : @CrcEnvOk nova_crc_env}.

Lemma keeps_pstore n a v : keeps_sbc (pstore n a v).
Proof.
  intros s b s' E. unfold pstore, pstore_bytes in E. repeat case_match; try done.
  by injection E as <- <-.
Qed.
Lemma keeps_pload n a : keeps_sbc (pload n a).
Proof. intros s b s' E. unfold pload in E. case_match; [|done]. by injection E as <- <-. Qed.
Lemma keeps_pload_bytes n a : keeps_sbc (pload_bytes n a).
Proof. intros s b s' E. unfold pload_bytes in E. case_match; [|done]. by injection E as <- <-. Qed.
End tx.

Create HintDb keeps.
#[export] Hint Resolve keeps_bind keeps_ret keeps_gets keeps_pstore keeps_pload
  keeps_pload_bytes : keeps.

Section tx2.
Context {NE : NovaEnv} {CO : @CrcEnvOk nova_crc_env}.

Lemma keeps_append_req curr q : keeps_sbc (append_req curr q).
Proof.
  destruct q; cbn [append_req]; unfold nova_append_entry_journal, nova_append_replica_inode_journal,
    nova_update_journal_entry_csum, journal_entry_crc, pstore_field; eauto 20 with keeps.
Qed.

Lemma keeps_append_reqs qs curr : keeps_sbc (append_reqs curr qs).
Proof.
  revert curr. induction qs as [|q qs IH]; intros curr; cbn [append_reqs];
    eauto using keeps_append_req with keeps.
Qed.

Lemma append_reqs_app q1 q2 curr s :
  append_reqs curr (q1 ++ q2) s = (let! t := append_reqs curr q1 in append_reqs t q2) s.
Proof.
  revert curr s. induction q1 as [|q q1 IH]; intros curr s; cbn [append_reqs app]; [done|].
  unfold bind. destruct (append_req curr q s) as [t s1|]; [|done]. apply IH.
Qed.

(** [f] appends exactly the requests [qs], on any state of the device of [s]. *)
Definition appends (s : nova) (f : Z -> M Z) (qs : list jreq) : Prop :=
  forall s' curr, sbc s' = sbc s -> f curr s' = append_reqs curr qs s'.

Lemma appends_bind s f g q1 q2 :
  appends s f q1 -> appends s g q2 -> appends s (fun t => let! t := f t in g t) (q1 ++ q2).
Proof.
  intros Hf Hg s' curr Es. rewrite append_reqs_app. unfold bind at 1 2. rewrite (Hf _ _ Es).
  destruct (append_reqs curr q1 s') as [t s1|] eqn:E; [|done].
  apply Hg. by rewrite (keeps_append_reqs _ _ _ _ _ E).
Qed.

Lemma appends_ret s : appends s ret [].
Proof. by intros s' curr _. Qed.

Lemma appends_field s f : appends s (fun t => nova_append_entry_journal t f) [ReqField f].
Proof.
  intros s' curr _. cbn [append_reqs append_req]. unfold bind.
  by destruct (nova_append_entry_journal curr f s').
Qed.

Lemma appends_replica s i : appends s (fun t => nova_append_replica_inode_journal t i) [ReqReplica i].
Proof.
  intros s' curr _. cbn [append_reqs append_req]. unfold bind.
  by destruct (nova_append_replica_inode_journal curr i s').
Qed.

(** ** The requests of each transaction *)

(** The inode can be read: no media error, inside NVMM. *)
Definition inode_readable (s : nova) (i : inode_header) : Prop :=
  let a := virt_addr (sbc s) + pi_addr i in
  0 < pi_addr i /\ 0 < virt_addr (sbc s) /\ in_pmem s a 120 = true /\ memcpy_mcsafe_rc a 120 = 0.

Definition inode_reqs (s : nova) (i : inode_header) (new_inode invalidate is_dir : bool)
    : list jreq :=
  let fld f := ReqField (field_addr nova_inode (virt_addr (sbc s) + pi_addr i) f) in
  if negb (metadata_csum =? 0) then [ReqReplica i]
  else if is_dir then [fld "log_tail"]
  else if new_inode then [fld "valid"]
  else fld "log_tail" :: (if invalidate then [fld "valid"; fld "delete_epoch_id"] else []).

Lemma get_inode_run s i :
  inode_readable s i -> nova_get_inode i s = Ok (virt_addr (sbc s) + pi_addr i) s.
Proof.
  intros (Hp & Hv & Hin & Hrc). unfold nova_get_inode.
  rewrite (bind_ok _ _ _ (virt_addr (sbc s) + pi_addr i) s)
    by (unfold gets, nova_get_block; by rewrite (proj2 (Z.eqb_neq _ _)) by lia).
  change (Z.to_nat (sizeof nova_inode)) with 120%nat.
  rewrite (bind_ok _ _ _ (0, load_bytes (nvmm s) (virt_addr (sbc s) + pi_addr i) 120) s); [done|].
  unfold memcpy_mcsafe. change (Z.of_nat 120) with 120. rewrite Hrc. cbn [Z.eqb negb].
  unfold pload_bytes, bind. by rewrite Hin.
Qed.

Lemma inode_readable_sbc s s' i : sbc s' = sbc s -> inode_readable s i -> inode_readable s' i.
Proof. unfold inode_readable, in_pmem. by intros ->. Qed.

Lemma appends_inode s i new_inode invalidate is_dir :
  inode_readable s i ->
  appends s (fun t => nova_append_inode_journal t i new_inode invalidate is_dir)
    (inode_reqs s i new_inode invalidate is_dir).
Proof.
  intros Hi s' curr Es. unfold nova_append_inode_journal, inode_reqs.
  pose proof (inode_readable_sbc _ _ _ Es Hi) as Hi'.
  rewrite (bind_ok _ _ _ _ _ (get_inode_run _ _ Hi')). rewrite Es.
  set (pi := virt_addr (sbc s) + pi_addr i).
  destruct (metadata_csum =? 0) eqn:Em; cbn [negb]; [|by apply (appends_replica s)].
  destruct Hi as (Hp & Hv & _). rewrite (proj2 (Z.eqb_neq _ _)) by (unfold pi; lia).
  assert (appends s (fun t => nova_journal_inode_tail t pi)
    [ReqField (field_addr nova_inode pi "log_tail")]) as Ht.
  { intros s1 c1 E1. unfold nova_journal_inode_tail. rewrite Em. cbn [negb].
    rewrite <- (appends_field s _ s1 c1 E1). unfold bind, ret.
    by destruct (nova_append_entry_journal c1 (field_addr nova_inode pi "log_tail") s1). }
  destruct is_dir; [by apply Ht|]. destruct new_inode; [by apply (appends_field s)|].
  destruct invalidate.
  - apply (appends_bind s _ _ [_] [_; _] Ht); [|done].
    apply (appends_bind s _ _ [_] [_]); apply appends_field.
  - apply (appends_bind s _ _ [_] [] Ht (appends_ret s)). done.
Qed.

Definition rename_reqs (s : nova) (old_inode old_dir : inode_header)
    (new_inode new_dir : option inode_header) (father_entry : Z) (invalidate : bool) : list jreq :=
  inode_reqs s old_inode false false false ++ inode_reqs s old_dir false false true ++
  match new_inode with Some i => inode_reqs s i false invalidate false | None => [] end ++
  match new_dir with Some d => inode_reqs s d false false true | None => [] end ++
  (if negb (father_entry =? 0)
   then [ReqField (field_addr nova_dentry father_entry "ino");
         ReqField (field_addr nova_dentry father_entry "csum")] else []).

Fixpoint word_reqs (count : nat) (i entry : Z) : list jreq :=
  match count with
  | O => []
  | S count => ReqField (entry + i * 8) :: word_reqs count (i + 1) entry
  end.

Lemma appends_words s count i entry :
  appends s (fun t => append_words count i t entry) (word_reqs count i entry).
Proof.
  revert i. induction count as [|count IH]; intros i; cbn [append_words word_reqs];
    [apply appends_ret|].
  apply (appends_bind s (fun t => nova_append_entry_journal t (entry + i * 8))
    (fun t => append_words count (i + 1) t entry) [_]); [apply appends_field|apply IH].
Qed.

Lemma appends_rename s oi od ni nd fe inv :
  inode_readable s oi -> inode_readable s od ->
  (forall i, ni = Some i -> inode_readable s i) -> (forall d, nd = Some d -> inode_readable s d) ->
  appends s (fun temp =>
    let! temp := nova_append_inode_journal temp oi false false false in
    let! temp := nova_append_inode_journal temp od false false true in
    let! temp := match ni with
                 | Some i => nova_append_inode_journal temp i false inv false
                 | None => ret temp end in
    let! temp := match nd with
                 | Some d => nova_append_inode_journal temp d false false true
                 | None => ret temp end in
    if negb (fe =? 0) then nova_append_dentry_journal temp fe else ret temp)
    (rename_reqs s oi od ni nd fe inv).
Proof.
  intros Hoi Hod Hni Hnd. unfold rename_reqs.
  apply appends_bind; [by apply appends_inode|]. apply appends_bind; [by apply appends_inode|].
  apply appends_bind; [destruct ni; [by apply appends_inode, Hni|apply appends_ret]|].
  apply appends_bind; [destruct nd; [by apply appends_inode, Hnd|apply appends_ret]|].
  destruct (fe =? 0); cbn [negb]; [apply appends_ret|].
  apply (appends_bind s _ _ [_] [_]); apply appends_field.
Qed.

(** ** Crash atomicity *)

(** A transaction may start: the journal of [cpu] is empty and the requests
    are sound. *)
Record tx_pre (s : nova) (cpu J h : Z) (qs : list jreq) : Prop := {
  tp_geo : jgeo s cpu J;
  tp_empty : journal_at s cpu J h h;
  tp_writable : writable s = true;
  tp_bytes : mem_bytes (nvmm s);
  tp_few : (length qs < 128)%nat;
  tp_ok : Forall (req_ok s cpu J) qs;
  tp_apart : replicas_apart s qs
}.

(** A crash at any point of [evs] and of any further updates of journaled
    bytes is undone at mount: outside the journal the device reads as in
    [s]. *)
Definition tx_atomic (s : nova) (cpu J : Z) (qs : list jreq) (evs : list pm_event) : Prop :=
  forall upd n r, Forall (upd_ok s qs) upd -> rebooted s r (take n (evs ++ upd)) ->
  exists r', soft_init_body cpu r = Ok None r' /\
    forall x, ~ in_journal s cpu J x -> mget (nvmm r') x = mget (nvmm s) x.

Lemma tx_run s cpu J h qs f :
  tx_pre s cpu J h qs -> appends s f qs ->
  create_transaction cpu f s
  = Ok (slot J (h + Z.of_nat (length qs))) (pm_step s (tx_events s cpu J h (rec_of s <$> qs))).
Proof.
  intros [G A Hw Hm Hlen F Hrep] Hf. apply create_transaction_run; auto.
  eapply Forall_impl; [exact F|]. intros q. apply req_ok_readable.
Qed.

(** The journal holds the records once they are published. *)
Lemma tx_events_journal s cpu J h qs :
  jgeo s cpu J -> journal_at s cpu J h h ->
  journal_at (pm_step s (tx_events s cpu J h (rec_of s <$> qs))) cpu J h (h + Z.of_nat (length qs)).
Proof.
  intros G [Eh Et]. assert (El : length (rec_of s <$> qs) = length qs) by (by rewrite length_fmap).
  pose proof (jg_apart _ _ _ G).
  assert (Eev : apply_evs (nvmm s) (tx_events s cpu J h (rec_of s <$> qs))
    = store 8 (apply_evs (nvmm s) (tx_prepare s cpu J h (rec_of s <$> qs))) (pair_addr s cpu + 8)
        (slot J (h + Z.of_nat (length qs)))).
  { unfold tx_events, tx_publish. rewrite apply_evs_app. cbn [apply_evs foldl apply_ev].
    fold (apply_evs (store_bytes (apply_evs (nvmm s) (tx_prepare s cpu J h (rec_of s <$> qs)))
      (pair_addr s cpu + 8) (le_bytes 8 (slot J (h + Z.of_nat (length (rec_of s <$> qs)))))) (
      flush_buffer_events (pair_addr s cpu) 64 true)).
    rewrite apply_no_store by apply flush_buffer_no_store. by rewrite El. }
  change (pair_addr s cpu) with (pair_addr (pm_step s (tx_events s cpu J h (rec_of s <$> qs))) cpu) in *.
  split; cbn [nvmm pm_step set_trace set_nvmm]; rewrite Eev.
  - rewrite load_store_other by (cbn; lia). rewrite <- Eh.
    eapply load_page_other; [apply tx_prepare_in|]. cbn. lia.
  - rewrite load_store_same; [done|]. pose proof (slot_range J (h + Z.of_nat (length qs))).
    pose proof (jg_page _ _ _ G) as [_ ?]. cbn. lia.
Qed.

(** ** Commit *)

(** The events of a commit. *)
Definition commit_events (s : nova) (cpu J h' : Z) : list pm_event :=
  EvStore (pair_addr s cpu) (le_bytes 8 (slot J h')) :: flush_buffer_events (pair_addr s cpu) 64 true.

Lemma commit_run s cpu J h h' :
  jgeo s cpu J -> journal_at s cpu J h h' -> writable s = true ->
  nova_commit_lite_transaction (slot J h') cpu s = Ok tt (pm_step s (commit_events s cpu J h')).
Proof.
  intros G [Eh Et] Hw. unfold nova_commit_lite_transaction.
  rewrite (bind_ok _ _ _ _ _ (journal_pointers_run _ _ _ G)), (bind_ok _ _ _ _ _ (pload_tail_run _ _ _ G)).
  rewrite Et, Z.eqb_refl. cbn [negb].
  rewrite (bind_ok _ _ _ tt (pm_step s [EvStore (pair_addr s cpu) (le_bytes 8 (slot J h'))])).
  - rewrite (proj1 (pair_field_addr _)). unfold CACHELINE_SIZE.
    rewrite nova_flush_buffer_step by lia. by rewrite pm_step_app.
  - apply pstore_field_step0; [apply pair_field_addr|reflexivity| |done].
    eapply in_pmem_sub; [apply (jg_pair _ _ _ G)|lia|cbn; lia].
Qed.

(** Committing with the current tail succeeds, touches only the
    head pointer, and once it has returned no crash can undo the transaction:
    mounting finds the journal empty and changes nothing. *)
Theorem nova_commit_lite_transaction_durable s cpu J h h' :
  jgeo s cpu J -> journal_at s cpu J h h' -> writable s = true ->
  exists evs, nova_commit_lite_transaction (slot J h') cpu s = Ok tt (pm_step s evs) /\
    Forall (stores_in (pair_addr s cpu) 8) evs /\
    forall r, rebooted s r evs -> soft_init_body cpu r = Ok None r.
Proof.
  intros G A Hw. exists (commit_events s cpu J h'). split; [by eapply commit_run|].
  pose proof (flush_buffer_no_store (pair_addr s cpu) 64 true) as FN. split.
  - constructor; [cbn [stores_in]; rewrite length_le_bytes; lia|by apply no_store_in].
  - intros r [Es C]. destruct A as [_ Et]. destruct (pair_aligned s cpu J G) as [Ha _].
    pose proof (slot_range J h'). pose proof (jg_page _ _ _ G) as [_ ?].
    assert (Hw8 : pair_addr s cpu mod 8 = 0).
    { rewrite (Znumtheory.Zmod_div_mod 8 64) by (lia || by exists 8). by rewrite Ha. }
    apply (soft_init_empty r cpu J h'); [by eapply jgeo_sbc|].
    split; rewrite (pair_addr_sbc s r) by done.
    + unfold commit_events, flush_buffer_events in C. set (L := line_flushes _ _ _) in C.
      set (T := EvStore _ _) in C. change (T :: L ++ [EvFence]) with ([T] ++ L ++ EvFence :: []) in C.
      unfold load. rewrite (crash_flushed _ [T] L [] _ _ C Hw8).
      * cbn [apply_evs foldl apply_ev T]. apply (load_store_same 8). cbn. lia.
      * destruct (flush_buffer_events_cover (pair_addr s cpu) 64 true (pair_addr s cpu))
          as (kd & f & Hf & Ef); [lia|]. unfold flush_buffer_events in Hf. fold L in Hf.
        apply elem_of_app in Hf as [Hf|Hf]; [|by apply list_elem_of_singleton in Hf].
        apply Exists_exists. by exists (EvFlush kd f).
      * apply no_store_untouched, line_flushes_no_store.
      * constructor.
    + rewrite <- Et. apply load_ext. intros x Hx. apply (crash_unwritten _ _ _ _ C).
      constructor; [cbn [writes]; rewrite length_le_bytes; cbn in Hx; lia|].
      eapply Forall_impl; [exact FN|]. by intros [] ? ?.
Qed.

(** ** Crashes and prefixes *)
Lemma must_persist_mid e0 e1 e2 i w : must_persist e1 i w -> must_persist (e0 ++ e1 ++ e2) (length e0 + i) w.
Proof.
  assert (forall j ev, e1 !! j = Some ev -> (e0 ++ e1 ++ e2) !! (length e0 + j)%nat = Some ev) as Hl.
  { intros j ev Hj. rewrite lookup_app_r by lia. replace (length e0 + j - length e0)%nat with j by lia. by apply lookup_app_l_Some. }
  intros (ev & Hi & T & P). exists ev. split_and!; [by apply Hl|done|]. destruct P as [(f & g & fe & Hfg & Hf & Hw & Hg)|(Hn & g & Hg & Eg)].
  - left. exists (length e0 + f)%nat, (length e0 + g)%nat, fe. split_and!; [lia|lia|by apply Hl|done|by apply Hl].
  - right. split; [done|]. exists (length e0 + g)%nat. split; [lia|by apply Hl].
Qed.

(** What the device holds is a crash state of a prefix when nothing of the rest
    shows. *)
Lemma crash_prefix m0 e1 e2 m :
  crash m0 (e1 ++ e2) m ->
  (forall w, w mod 8 = 0 ->
     (load_bytes m w 8 = load_bytes m0 w 8 /\ Forall (fun ev => ~ touches ev w) e1) \/ Forall (fun ev => ~ touches ev w) e2) ->
  crash m0 e1 m.
Proof.
  intros C Ht w Hw. destruct (Ht w Hw) as [[El U]|U].
  - exists 0%nat. split_and!; [lia| |by rewrite take_0]. intros i _ (ev & Hi & T & _). rewrite Forall_lookup in U. by apply (U i ev).
  - destruct (C w Hw) as (k & Hk & Hn & ->). exists (k `min` length e1)%nat. split_and!; [lia| |].
    + intros i Hi P. destruct (decide (k <= length e1)%nat) as [Hle|Hgt].
      * apply (Hn i); [lia|]. apply (must_persist_mid [] e1 e2 i w P).
      * destruct P as (ev & Ei & _). apply lookup_lt_Some in Ei. lia.
    + destruct (decide (k <= length e1)%nat) as [Hle|Hgt].
      * rewrite take_app_le by done. by replace (k `min` length e1)%nat with k by lia.
      * replace (k `min` length e1)%nat with (length e1) by lia. rewrite firstn_all, take_app_ge by lia.
        rewrite apply_evs_app. apply load_untouched. by apply Forall_take.
Qed.

(** Every store of [evs] is written back and fenced within [evs]. *)
Definition durable (evs : list pm_event) : Prop :=
  forall i ev w, w mod 8 = 0 -> evs !! i = Some ev -> touches ev w -> must_persist evs i w.

(** The word of a byte outside the journal is outside the journal. *)
Lemma word_off_journal s cpu J x y :
  jgeo s cpu J -> ~ in_journal s cpu J x -> x - x mod 8 <= y < x - x mod 8 + 8 -> ~ in_journal s cpu J y.
Proof.
  intros G Hx Hy. destruct (pair_aligned s cpu J G) as [Hp HJ]. unfold in_journal in *.
  pose proof (Z.div_mod x 8 ltac:(lia)). pose proof (Z.mod_pos_bound x 8 ltac:(lia)).
  pose proof (Z.div_mod (pair_addr s cpu) 64 ltac:(lia)). pose proof (Z.div_mod (virt_addr (sbc s) + J) 64 ltac:(lia)). lia.
Qed.

Lemma tx_events_writes s cpu J h recs ev x :
  jgeo s cpu J -> ev ∈ tx_events s cpu J h recs -> writes ev x ->
  in_journal s cpu J x /\ ~ (pair_addr s cpu <= x < pair_addr s cpu + 8).
Proof.
  intros G Hev Hw. pose proof (jg_apart _ _ _ G). unfold tx_events in Hev. apply elem_of_app in Hev as [Hev|Hev].
  - pose proof (tx_prepare_in s cpu J h recs) as F. rewrite Forall_forall in F.
    pose proof (stores_in_writes _ _ _ _ (F _ Hev) Hw). split; [by left|lia].
  - pose proof (publish_writes _ _ _ _ _ _ _ Hev Hw). split; [right; lia|lia].
Qed.

(** The tail of the journal is durable when the transaction was created. *)
Lemma tx_tail_durable s r cpu J h recs rest :
  jgeo s cpu J -> crash (nvmm s) (tx_events s cpu J h recs ++ rest) (nvmm r) ->
  (forall ev x, ev ∈ rest -> writes ev x -> ~ (pair_addr s cpu + 8 <= x < pair_addr s cpu + 16)) ->
  load 8 (nvmm r) (pair_addr s cpu + 8) = slot J (h + Z.of_nat (length recs)).
Proof.
  intros G C Hrest. destruct (pair_aligned s cpu J G) as [Ha _].
  assert (Hw8 : (pair_addr s cpu + 8) mod 8 = 0).
  { rewrite Zplus_mod, Z.mod_same, Z.add_0_r, Zmod_mod by lia.
    rewrite (Znumtheory.Zmod_div_mod 8 64) by (lia || by exists 8). by rewrite Ha. }
  unfold tx_events, tx_publish, flush_buffer_events in C. set (L := line_flushes _ _ _) in C. set (T := EvStore _ _) in C.
  rewrite <- app_assoc in C. cbn [app] in C.
  replace (tx_prepare s cpu J h recs ++ T :: (L ++ [EvFence]) ++ rest)
    with ((tx_prepare s cpu J h recs ++ [T]) ++ L ++ EvFence :: rest) in C by (rewrite <- !app_assoc; done).
  unfold load. rewrite (crash_flushed _ _ L rest _ _ C Hw8).
  - apply (published_tail s cpu J h (Z.of_nat (length recs)) _ G). apply tx_prepare_in.
  - destruct (flush_buffer_events_cover (pair_addr s cpu) 64 true (pair_addr s cpu + 8)) as (kd & f & Hf & Ef); [lia|].
    unfold flush_buffer_events in Hf. fold L in Hf. apply elem_of_app in Hf as [Hf|Hf]; [|set_solver].
    apply Exists_exists. by exists (EvFlush kd f).
  - apply no_store_untouched, line_flushes_no_store.
  - apply Forall_forall. intros ev Hev (x & Hx & Hwr). apply (Hrest ev x Hev Hwr). lia.
Qed.

(** The new head is durable: mounting changes nothing, and the updates are there. *)
Lemma committed_state s r cpu J h qs upd rest :
  let recs := rec_of s <$> qs in
  tx_pre s cpu J h qs -> Forall (upd_ok s qs) upd -> durable upd -> sbc r = sbc s ->
  crash (nvmm s) (tx_events s cpu J h recs ++ upd ++ rest) (nvmm r) ->
  (forall ev x, ev ∈ rest -> writes ev x -> pair_addr s cpu <= x < pair_addr s cpu + 8) ->
  load 8 (nvmm r) (pair_addr s cpu) = slot J (h + Z.of_nat (length recs)) ->
  soft_init_body cpu r = Ok None r /\
  forall x, ~ in_journal s cpu J x -> mget (nvmm r) x = mget (apply_evs (nvmm s) upd) x.
Proof.
  intros recs Pre Fu Du Es C Hrest Eh. destruct Pre as [G A Hw Hm Hlen F Hrep].
  assert (forall ev x, ev ∈ upd -> writes ev x -> ~ in_journal s cpu J x) as Hupd.
  { intros ev x Hev Hwr. rewrite Forall_forall in Fu. by eapply (journaled_off s cpu J qs x F), Fu. }
  split.
  - apply (soft_init_empty r cpu J (h + Z.of_nat (length recs))); [by eapply jgeo_sbc|].
    split; rewrite (pair_addr_sbc s r) by done; [done|]. apply (tx_tail_durable s r cpu J h recs (upd ++ rest) G C).
    intros ev x [Hev|Hev]%elem_of_app Hwr Hx; [apply (Hupd ev x Hev Hwr); right; lia|specialize (Hrest ev x Hev Hwr); lia].
  - intros x Hx. set (w := x - x mod 8). pose proof (Z.mod_pos_bound x 8 ltac:(lia)).
    assert (w mod 8 = 0) as Hw8 by (unfold w; by rewrite Zminus_mod, Zmod_mod, Z.sub_diag).
    assert (Forall (fun ev => ~ touches ev w) (tx_events s cpu J h recs)) as U1.
    { apply Forall_forall. intros ev Hev (y & Hy & Hwr). destruct (tx_events_writes s cpu J h recs ev y G Hev Hwr) as [Hj _].
      by apply (word_off_journal s cpu J x y G Hx Hy). }
    assert (Forall (fun ev => ~ touches ev w) rest) as U2.
    { apply Forall_forall. intros ev Hev (y & Hy & Hwr). apply (word_off_journal s cpu J x y G Hx Hy).
      right. specialize (Hrest ev y Hev Hwr). lia. }
    apply (load_bytes_mget _ _ w 8); [|unfold w; lia]. rewrite (crash_persisted _ _ _ w C Hw8).
    + rewrite !apply_evs_app, (load_untouched _ rest) by done. apply load_bytes_ext. intros y Hy.
      assert (forall e m m', mget m y = mget m' y -> mget (apply_evs m e) y = mget (apply_evs m' e) y) as Hcg.
      { induction e as [|ev e IHe]; intros m m' Hmm; [done|]. cbn [apply_evs foldl]. apply IHe.
        destruct ev; cbn [apply_ev]; try done; rewrite !mget_store_bytes; by case_decide. }
      apply Hcg. apply apply_evs_unwritten. eapply Forall_impl; [exact U1|]. intros ev Hn Hwr. apply Hn. exists y. split; [lia|done].
    + intros i ev Ei T. apply lookup_app_Some in Ei as [Ei|[Hi Ei]].
      { rewrite Forall_lookup in U1. by destruct (U1 _ _ Ei). }
      apply lookup_app_Some in Ei as [Ei|[_ Ei]]; [|rewrite Forall_lookup in U2; by destruct (U2 _ _ Ei)].
      pose proof (Du _ ev w Hw8 Ei T) as P. apply (must_persist_mid (tx_events s cpu J h recs) _ rest) in P.
      by replace (length (tx_events s cpu J h recs) + (i - length (tx_events s cpu J h recs)))%nat with i in P by lia.
Qed.

(** After a power failure the device reads as before ([old]) or with all of the
    updates. *)
Definition mounted (s : nova) (cpu J : Z) (m : mem) (r : nova) : Prop :=
  exists r', soft_init_body cpu r = Ok None r' /\ forall x, ~ in_journal s cpu J x -> mget (nvmm r') x = mget m x.

Lemma head_word s cpu J : jgeo s cpu J -> pair_addr s cpu mod 8 = 0.
Proof.
  intros G. destruct (pair_aligned s cpu J G) as [Ha _]. rewrite (Znumtheory.Zmod_div_mod 8 64) by (lia || by exists 8). by rewrite Ha.
Qed.

Lemma commit_writes s cpu J h ev x :
  ev ∈ commit_events s cpu J h -> writes ev x -> pair_addr s cpu <= x < pair_addr s cpu + 8.
Proof.
  intros [->|Hin]%elem_of_cons; [cbn [writes]; rewrite length_le_bytes; lia|].
  pose proof (flush_buffer_no_store (pair_addr s cpu) 64 true) as F. rewrite Forall_forall in F.
  specialize (F _ Hin). by destruct ev.
Qed.

(** A crash while the transaction is committed. *)
Lemma crash_in_commit s r cpu J h qs upd k :
  let recs := rec_of s <$> qs in
  let h' := h + Z.of_nat (length recs) in
  tx_pre s cpu J h qs -> Forall (upd_ok s qs) upd -> durable upd -> sbc r = sbc s ->
  crash (nvmm s) (tx_events s cpu J h recs ++ upd ++ take (S k) (commit_events s cpu J h')) (nvmm r) ->
  (mounted s cpu J (nvmm s) r \/ mounted s cpu J (apply_evs (nvmm s) upd) r) /\
  ((length (flush_buffer_events (pair_addr s cpu) 64 true) <= k)%nat -> mounted s cpu J (apply_evs (nvmm s) upd) r).
Proof.
  intros recs h' Pre Fu Du Es C. pose proof Pre as [G A Hw Hm Hlen F Hrep]. pose proof (head_word s cpu J G) as Hw8.
  assert (forall ev x, ev ∈ take (S k) (commit_events s cpu J h') -> writes ev x -> pair_addr s cpu <= x < pair_addr s cpu + 8) as Hrest.
  { intros ev x Hev. apply (commit_writes s cpu J h'). apply list_elem_of_lookup in Hev as [j Hj].
    apply lookup_take_Some in Hj as [Hj _]. by eapply list_elem_of_lookup_2. }
  assert (load 8 (nvmm r) (pair_addr s cpu) = slot J h' -> mounted s cpu J (apply_evs (nvmm s) upd) r) as Hnew.
  { intros Eh. destruct (committed_state s r cpu J h qs upd _ Pre Fu Du Es C Hrest Eh) as [E Hx]. by exists r. }
  set (Hd := EvStore (pair_addr s cpu) (le_bytes 8 (slot J h'))) in *. set (FL := flush_buffer_events (pair_addr s cpu) 64 true) in *.
  assert (take (S k) (commit_events s cpu J h') = Hd :: take k FL) as Et by done. rewrite Et in *.
  pose proof (flush_buffer_no_store (pair_addr s cpu) 64 true) as FN. fold FL in FN.
  assert (Forall (fun ev => ~ touches ev (pair_addr s cpu)) (tx_events s cpu J h recs ++ upd)) as U1.
  { apply Forall_app. split; apply Forall_forall; intros ev Hev (y & Hy & Hwr).
    - destruct (tx_events_writes s cpu J h recs ev y G Hev Hwr) as [_ Hn]. lia.
    - rewrite Forall_forall in Fu. apply (journaled_off s cpu J qs y F (Fu ev Hev y Hwr)). right. lia. }
  assert (le_val (load_bytes (apply_evs (nvmm s) ((tx_events s cpu J h recs ++ upd) ++ [Hd])) (pair_addr s cpu) 8) = slot J h') as Ev.
  { rewrite apply_evs_app. cbn [apply_evs foldl apply_ev Hd]. apply (load_store_same 8).
    pose proof (slot_range J h'). pose proof (jg_page _ _ _ G) as [_ ?]. cbn. lia. }
  rewrite app_assoc in C. split.
  - destruct (crash_single _ _ _ _ _ _ C Hw8 U1 (no_store_untouched _ _ (Forall_take _ k FL FN))) as [Eo|En].
    + left. assert (crash (nvmm s) (tx_events s cpu J h recs ++ upd) (nvmm r)) as C'.
      { apply (crash_prefix _ _ _ _ C). intros w Hww. destruct (decide (w = pair_addr s cpu)) as [->|Hne]; [by left|right].
        constructor; [|by apply no_store_untouched, Forall_take]. intros (y & Hy & Hwr).
        unfold Hd in Hwr. cbn [writes] in Hwr. rewrite length_le_bytes in Hwr.
        pose proof (Z.div_mod w 8 ltac:(lia)). pose proof (Z.div_mod (pair_addr s cpu) 8 ltac:(lia)). lia. }
      apply (crash_atomic s r cpu J h qs upd (length (tx_events s cpu J h recs ++ upd))); try done.
      split; [done|]. by rewrite firstn_all.
    + right. apply Hnew. unfold load. by rewrite En.
  - intros Hk. apply Hnew. rewrite take_ge in C by lia. unfold FL, flush_buffer_events in C. set (L := line_flushes _ _ _) in C.
    replace ((tx_events s cpu J h recs ++ upd) ++ Hd :: L ++ [EvFence])
      with (((tx_events s cpu J h recs ++ upd) ++ [Hd]) ++ L ++ EvFence :: []) in C by (rewrite <- !app_assoc; done).
    unfold load. rewrite (crash_flushed _ _ L [] _ _ C Hw8); [done| | |constructor].
    + destruct (flush_buffer_events_cover (pair_addr s cpu) 64 true (pair_addr s cpu)) as (kd & f & Hf & Ef); [lia|].
      unfold flush_buffer_events in Hf. fold L in Hf. apply elem_of_app in Hf as [Hf|Hf]; [|set_solver].
      apply Exists_exists. by exists (EvFlush kd f).
    + apply no_store_untouched, line_flushes_no_store.
Qed.

(** All of the updates or none, at any point; all once the commit has returned. *)
Lemma tx_all_or_nothing s r cpu J h qs upd n :
  let recs := rec_of s <$> qs in
  let evs := tx_events s cpu J h recs ++ upd ++ commit_events s cpu J (h + Z.of_nat (length recs)) in
  tx_pre s cpu J h qs -> Forall (upd_ok s qs) upd -> durable upd -> rebooted s r (take n evs) ->
  (mounted s cpu J (nvmm s) r \/ mounted s cpu J (apply_evs (nvmm s) upd) r) /\
  ((length evs <= n)%nat -> mounted s cpu J (apply_evs (nvmm s) upd) r).
Proof.
  intros recs evs Pre Fu Du RB. unfold evs in *. rewrite app_assoc in RB.
  set (E1 := tx_events s cpu J h recs ++ upd) in *.
  destruct (decide (n <= length E1)%nat) as [Hle|Hgt].
  - rewrite take_app_le in RB by done. split.
    + left. destruct Pre as [G A Hw Hm Hlen F Hrep]. by apply (crash_atomic s r cpu J h qs upd n).
    + rewrite app_assoc. fold E1. rewrite length_app. unfold commit_events at 1. cbn [length]. lia.
  - rewrite take_app_ge in RB by lia. destruct (n - length E1)%nat as [|k] eqn:Ek; [lia|].
    destruct RB as [Es C]. unfold E1 in C. rewrite <- app_assoc in C.
    destruct (crash_in_commit s r cpu J h qs upd k Pre Fu Du Es C) as [C1 C2]. split; [done|].
    intros Hn. apply C2. rewrite app_assoc in Hn. fold E1 in Hn. rewrite length_app in Hn. unfold commit_events in Hn. cbn [length] in Hn. lia.
Qed.
(** The tail and the head of the journal are left alone by updates elsewhere. *)
Lemma journal_at_updates s s0 cpu J h h' qs upd :
  sbc s0 = sbc s -> Forall (req_ok s cpu J) qs -> Forall (upd_ok s qs) upd -> journal_at s0 cpu J h h' ->
  journal_at (pm_step s0 upd) cpu J h h'.
Proof.
  intros Es F Fu [Eh Et]. rewrite (pair_addr_sbc s s0 cpu Es) in Eh, Et.
  assert (forall a, pair_addr s cpu <= a -> a + 8 <= pair_addr s cpu + 16 -> load 8 (apply_evs (nvmm s0) upd) a = load 8 (nvmm s0) a) as Hl.
  { intros a Ha1 Ha2. apply load_ext. intros x Hx. change (Z.of_nat 8) with 8 in Hx. apply apply_evs_unwritten. eapply Forall_impl; [exact Fu|].
    intros ev Ho Hw. apply (journaled_off s cpu J qs x F (Ho x Hw)). right. lia. }
  split; cbn [nvmm pm_step set_trace set_nvmm]; rewrite (pair_addr_sbc s (pm_step s0 upd) cpu) by done;
    rewrite Hl by lia; done.
Qed.

(** The updates [upd] of a transaction whose creation issued [evs], and its
    commit: it returns, and a power failure at any point of the three leaves,
    after the mount, the device of [s] or the device with all of the updates; the
    latter once the commit has returned. *)
Definition tx_commits (s : nova) (cpu J h : Z) (qs : list jreq) (evs : list pm_event) : Prop :=
  forall upd, Forall (upd_ok s qs) upd -> durable upd ->
  exists evs', nova_commit_lite_transaction (slot J (h + Z.of_nat (length qs))) cpu (pm_step s (evs ++ upd))
      = Ok tt (pm_step s (evs ++ upd ++ evs')) /\
    forall n r, rebooted s r (take n (evs ++ upd ++ evs')) ->
      (mounted s cpu J (nvmm s) r \/ mounted s cpu J (apply_evs (nvmm s) upd) r) /\
      ((length (evs ++ upd ++ evs') <= n)%nat -> mounted s cpu J (apply_evs (nvmm s) upd) r).

(** What a transaction does: it returns the new tail, its events are [evs], it is
    undone when power fails before its commit, and committed as a whole. *)
Definition tx_done (s : nova) (cpu J h : Z) (qs : list jreq) (res : outcome Z) : Prop :=
  exists evs s1, res = Ok (slot J (h + Z.of_nat (length qs))) s1 /\ s1 = pm_step s evs /\
    journal_at s1 cpu J h (h + Z.of_nat (length qs)) /\ tx_atomic s cpu J qs evs /\ tx_commits s cpu J h qs evs.

Lemma transaction_commits s cpu J h qs :
  tx_pre s cpu J h qs -> tx_commits s cpu J h qs (tx_events s cpu J h (rec_of s <$> qs)).
Proof.
  intros Pre upd Fu Du. pose proof Pre as [G A Hw Hm Hlen F Hrep].
  assert (length (rec_of s <$> qs) = length qs) as El by apply length_fmap.
  exists (commit_events s cpu J (h + Z.of_nat (length qs))). split.
  - set (T := tx_events s cpu J h (rec_of s <$> qs)).
    assert (journal_at (pm_step s (T ++ upd)) cpu J h (h + Z.of_nat (length qs))) as A2.
    { rewrite <- pm_step_app. apply (journal_at_updates s _ _ _ _ _ qs); [done|exact F|exact Fu|]. by apply tx_events_journal. }
    rewrite (commit_run _ cpu J h _ (jgeo_step _ _ _ _ G) A2 Hw), pm_step_app. by rewrite <- app_assoc.
  - intros n r RB. rewrite <- El in RB |- *. by apply tx_all_or_nothing.
Qed.

Lemma transaction_atomic s cpu J h qs f :
  tx_pre s cpu J h qs -> appends s f qs -> tx_done s cpu J h qs (create_transaction cpu f s).
Proof.
  intros Pre Hf. exists (tx_events s cpu J h (rec_of s <$> qs)), (pm_step s (tx_events s cpu J h (rec_of s <$> qs))).
  destruct (Pre) as [G A Hw Hm Hlen F Hrep]. split_and!; [by apply tx_run|done|by apply tx_events_journal| |by apply transaction_commits].
  intros upd n r Fu RB. by eapply (crash_atomic s r cpu J h qs upd n).
Qed.

(** C1: creating (or unlinking) an inode is crash atomic.  The transaction
    returns.  A power failure at any point of it, or of any updates of journaled
    bytes that follow before the commit, is rolled back at mount, so that every
    byte outside the journal reads as before the transaction.  When the updates
    have been written back and fenced, the commit returns; a power failure at any
    point up to there leaves, after the mount, all of the updates undone or all of
    them in place, and once the commit has returned all of them are in place. *)
Theorem nova_create_inode_transaction_atomic s cpu J h inode dir new_inode invalidate :
  let qs := inode_reqs s inode new_inode invalidate false
            ++ inode_reqs s dir new_inode invalidate true in
  inode_readable s inode -> inode_readable s dir -> tx_pre s cpu J h qs ->
  tx_done s cpu J h qs (nova_create_inode_transaction inode dir cpu new_inode invalidate s).
Proof.
  intros qs Hi Hd Pre. apply transaction_atomic; [done|].
  apply appends_bind; by apply appends_inode.
Qed.

(** A rename transaction is crash atomic in the same sense,
    over the old and new inodes and directories and the father entry. *)
Theorem nova_create_rename_transaction_atomic s cpu J h oi od ni nd fe inv :
  let qs := rename_reqs s oi od ni nd fe inv in
  inode_readable s oi -> inode_readable s od ->
  (forall i, ni = Some i -> inode_readable s i) -> (forall d, nd = Some d -> inode_readable s d) ->
  tx_pre s cpu J h qs ->
  tx_done s cpu J h qs (nova_create_rename_transaction oi od ni nd fe inv cpu s).
Proof.
  intros qs Hoi Hod Hni Hnd Pre. apply transaction_atomic; [done|]. by apply appends_rename.
Qed.

Lemma word_reqs_cover s count i entry x :
  entry mod 8 = 0 -> entry + i * 8 <= x < entry + (i + Z.of_nat count) * 8 ->
  journaled s (word_reqs count i entry) x.
Proof.
  intros He. revert i. induction count as [|count IH]; intros i Hx; [lia|]. cbn [word_reqs].
  apply Exists_cons. destruct (decide (x < entry + (i + 1) * 8)) as [Hlt|Hge].
  - left. unfold in_region. cbn [region fst snd]. rewrite align8_spec, Z.mod_add, He by lia. lia.
  - right. apply IH. lia.
Qed.

Lemma log_entry_words type : nova_get_log_entry_size type = nova_get_log_entry_size type / 8 * 8.
Proof. by destruct type. Qed.

(** The in-place update of a log entry is crash atomic, and
    the journaled bytes include every byte of the entry, whatever its type. *)
Theorem nova_create_logentry_transaction_atomic s cpu J h entry type :
  let qs := word_reqs (Z.to_nat (nova_get_log_entry_size type / 8)) 0 entry in
  tx_pre s cpu J h qs -> entry mod 8 = 0 ->
  tx_done s cpu J h qs (nova_create_logentry_transaction entry type cpu s) /\
  forall x, entry <= x < entry + nova_get_log_entry_size type -> journaled s qs x.
Proof.
  intros qs Pre He. split; [by apply transaction_atomic; [|apply appends_words]|].
  intros x Hx. apply word_reqs_cover; [done|].
  rewrite log_entry_words in Hx. rewrite Z2Nat.id by (destruct type; vm_compute; congruence). lia.
Qed.

(** A transaction is never started on a journal that still
    holds entries, and never committed with a stale tail: both hit BUG(). *)
Theorem journal_misuse_is_bug s cpu J h h' f tail :
  jgeo s cpu J -> journal_at s cpu J h h' -> slot J h <> slot J h' -> tail <> slot J h' ->
  create_transaction cpu f s = Fault FBug /\
  nova_commit_lite_transaction tail cpu s = Fault FBug.
Proof.
  intros G [Eh Et] Hne Ht. split.
  - unfold create_transaction.
    rewrite (bind_ok _ _ _ _ _ (journal_pointers_run _ _ _ G)).
    rewrite (bind_ok _ _ _ _ _ (pload_head_run _ _ _ G)), (bind_ok _ _ _ _ _ (pload_tail_run _ _ _ G)).
    rewrite Eh, Et, (proj2 (Z.eqb_neq (slot J h) (slot J h'))) by done. by rewrite orb_true_r.
  - unfold nova_commit_lite_transaction.
    rewrite (bind_ok _ _ _ _ _ (journal_pointers_run _ _ _ G)), (bind_ok _ _ _ _ _ (pload_tail_run _ _ _ G)).
    by rewrite Et, (proj2 (Z.eqb_neq _ _)).
Qed.
End tx2.
