(* ===== verification/LogExample.v ===== *)
(** Logs, the failure scan, inodes and the journal on the device of
    [BallocExample]. *)

(** Log pages, their release and the saved free lists on the device of
    [BallocExample]. *)

From stdpp Require Import strings.
From S2P Require Import Prelude CInt Crc32c NovaEnv RangeNode Pmem NovaState NovaMonad NovaLib.
From S2P Require Import Balloc BallocSpec BallocAlloc BallocInit BallocExample InodeMap NovaLayout PmemOps.
From S2P Require Import LogPage LogPageSpec RangeLog RangeLogSpec.
From S2P Require Import RangeRoundtrip.

Module LogExample.
Import BallocExample.
#[local] Existing Instance RbExample.lib.
#[local] Existing Instance RbExample.lib_ok.

Lemma s1_log : log_ctx s1.
Proof. split; [apply s1_wf|apply s1_device|reflexivity|cbn; lia|reflexivity]. Qed.

(** 3000 pages are more than one list has. *)
Lemma nova_allocate_inode_log_pages_correct_witness :
  exists r new_block s' bs,
    nova_allocate_inode_log_pages NOVA_BLOCK_TYPE_4K 3000 7 ANY_CPU ALLOC_FROM_HEAD s1
      = Ok (r, new_block) s' /\
    log_taken s1 s' bs /\
    match bs with
    | [] => r = - ENOSPC /\ new_block = 7
    | b :: _ => r = Z.of_nat (length bs) /\ new_block = page_off b /\
        (r = 3000 \/ r < 3000 /\ no_page s' (3000 - r) ANY_CPU ALLOC_FROM_HEAD)
    end.
Proof.
  apply (nova_allocate_inode_log_pages_correct s1 3000 7 ANY_CPU ALLOC_FROM_HEAD);
    [apply s1_log|apply valid1|lia].
Defined.

(** A log of five pages. *)
Definition l1 : nova := Eval vm_compute in
  run (nova_allocate_inode_log_pages NOVA_BLOCK_TYPE_4K 5 0 ANY_CPU ALLOC_FROM_HEAD) s1.

Lemma l1_run :
  nova_allocate_inode_log_pages NOVA_BLOCK_TYPE_4K 5 0 ANY_CPU ALLOC_FROM_HEAD s1
  = Ok (5, 2292 * 4096) l1.
Proof. vm_compute. reflexivity. Qed.

Lemma l1_taken : exists bs, log_taken s1 l1 bs /\ length bs = 5%nat /\ head bs = Some 2292.
Proof.
  destruct (allocate_log_pages_run s1 5 0 ANY_CPU ALLOC_FROM_HEAD s1_log valid1 ltac:(lia))
    as (r & nb & s' & bs & E & T & Hr). rewrite l1_run in E. injection E as <- <- <-.
  exists bs. split; [done|]. destruct bs as [|b bs]; [by destruct Hr|]. destruct Hr as (Hl & Hb & _).
  split; [lia|]. cbn. unfold page_off in Hb. f_equal. lia.
Qed.

Lemma l1_apart : lists_apart l1.
Proof.
  intros [|[|i]] [|[|j]] fi fj Hi Hj; cbn in Hi, Hj; simplify_eq; vm_compute; congruence.
Qed.

(** The pages of that log are given back. *)
Lemma nova_free_contiguous_log_blocks_correct_witness :
  exists bs s', length bs = 5%nat /\
    nova_free_contiguous_log_blocks NOVA_BLOCK_TYPE_4K (default 0 (head (page_off <$> bs))) l1
      = Ok (Z.of_nat (length bs)) s' /\ log_freed l1 s' bs.
Proof.
  destruct l1_taken as (bs & T & Hl & Hh). exists bs.
  assert (log_pages l1 bs) as L.
  { apply (log_pages_back s1 l1 l1).
    - apply s1_wf.
    - exact T.
    - reflexivity.
    - reflexivity.
    - reflexivity.
    - reflexivity.
    - split; [apply T|intros b Hb; exact (lt_ok _ _ _ T b Hb)|reflexivity|exact (lt_chain _ _ _ T)]. }
  destruct (nova_free_contiguous_log_blocks_correct l1 bs (lt_ctx _ _ _ T) L l1_apart) as (s' & E & F).
  - rewrite Hl. lia.
  - reflexivity.
  - exists s'. split; [done|]. split; [exact E|exact F].
Defined.

(** ** Unmount and mount *)
Lemma s1_save : save_ctx s1.
Proof.
  split; [apply s1_log| |vm_compute; congruence|reflexivity].
  intros [|[|i]] fl E; cbn in E; simplify_eq; vm_compute; congruence.
Qed.

Definition x1 : nova := Eval vm_compute in run nova_save_blocknode_mappings_to_log s1.

Lemma x1_run : nova_save_blocknode_mappings_to_log s1 = Ok tt x1.
Proof. vm_compute. reflexivity. Qed.

Definition x2 : nova := set_free_lists [zeroed_free_list; zeroed_free_list] x1.

Lemma blocknode_mappings_roundtrip_witness :
  exists s2 s3, nova_init_blockmap 1 x2 = Ok tt s2 /\ nova_init_blockmap_from_inode s2 = Ok 0 s3 /\
    alloc_wf s3 /\ (forall b, free_block s3 b = free_block s1 b) /\
    load 8 (nvmm s3) (blocknode_pi s1 + 64) = 0.
Proof.
  destruct (blocknode_mappings_roundtrip s1 s1_save sb_geometry) as (s' & E & Hrt).
  - intros [|[|i]] fl Ei; cbn in Ei; simplify_eq; vm_compute; split; reflexivity.
  - vm_compute. split; reflexivity.
  - reflexivity.
  - reflexivity.
  - rewrite x1_run in E. injection E as <-. apply Hrt.
    + vm_compute. congruence.
    + split; [reflexivity|reflexivity|reflexivity|cbn; lia|reflexivity].
Defined.
End LogExample.

(** The rebuild of the free lists on the device of [BallocExample], with a
    linear bit search. *)

From S2P Require Import Prelude CInt Crc32c NovaEnv RangeNode Pmem NovaState NovaMonad NovaLib.
From S2P Require Import Balloc BallocSpec BallocAlloc BallocInit BallocExample LogPageSpec.
From S2P Require Import ScanBitmap ScanBuildSpec.

Module ScanExample.
Import BallocExample.
#[local] Existing Instance RbExample.lib.
#[local] Existing Instance RbExample.lib_ok.

Fixpoint linear (v : bool) (n : nat) (m i : Z) : Z :=
  match n with
  | O => i
  | S n => if Bool.eqb (Z.testbit m i) v then i else linear v n m (i + 1)
  end.

Definition find_next (v : bool) (m size offset : Z) : Z :=
  if offset <? size then linear v (Z.to_nat (size - offset)) m offset else size.

Lemma linear_spec v m n : forall i,
  i <= linear v n m i <= i + Z.of_nat n /\
  (forall k, i <= k < linear v n m i -> Z.testbit m k = negb v) /\
  (linear v n m i < i + Z.of_nat n -> Z.testbit m (linear v n m i) = v).
Proof.
  induction n as [|n IH]; intros i; cbn [linear]; [split_and!; intros; lia|].
  destruct (Bool.eqb _ v) eqn:E.
  - apply eqb_prop in E. split_and!; [lia..|intros; lia|done].
  - destruct (IH (i + 1)) as (I1 & I2 & I3). split_and!; [lia..| |intros; apply I3; lia].
    intros k Hk. destruct (decide (k = i)) as [->|]; [|apply I2; lia].
    by destruct (Z.testbit m i), v.
Qed.

Lemma find_next_ok v : next_bit_spec v (find_next v).
Proof.
  intros m size off Ho. unfold find_next. destruct (Z.ltb_spec off size); [|done].
  pose proof (linear_spec v m (Z.to_nat (size - off)) off) as (I1 & I2 & I3).
  rewrite Z2Nat.id in I1, I3 by lia. replace (off + (size - off)) with size in * by lia. done.
Qed.

#[local] Instance bits : BitLib :=
  {| find_next_bit := find_next true; find_next_zero_bit := find_next false |}.
#[local] Instance bits_ok : BitLibOk.
Proof. split; apply find_next_ok. Qed.

(** CPU 0 saw blocks 340 and 341, CPU 1 the third 2 MB unit. *)
Definition cpu0 : scan_bitmap :=
  mkScanBitmap (mkScanBm 512 (Z.shiftl 3 340)) (mkScanBm 1 0) (mkScanBm 0 0).
Definition cpu1 : scan_bitmap :=
  mkScanBitmap (mkScanBm 512 0) (mkScanBm 1 4) (mkScanBm 0 0).

Lemma bm_ok_small sz m : 0 <= sz -> 0 <= m < 2 ^ (8 * sz) -> bm_ok (mkScanBm sz m).
Proof.
  intros Hs Hm. split; cbn; [done|]. intros k Hk. destruct (decide (m = 0)) as [->|]; [apply Z.testbit_0_l|].
  apply Z.bits_above_log2; [lia|]. assert (Z.log2 m < 8 * sz) by (apply Z.log2_lt_pow2; lia). lia.
Qed.

Lemma bms_are_ok : Forall (bms_ok 4096) [cpu0; cpu1].
Proof.
  repeat constructor; cbn [cpu0 cpu1 scan_bm_4K scan_bm_2M scan_bm_1G bitmap_size]; try lia;
    try (apply bm_ok_small; vm_compute; intuition congruence).
Qed.

Lemma nova_build_blocknode_map_correct_witness :
  exists bms' s', rebuild_free_lists [cpu0; cpu1] 0x1000000 s0 = Ok (0, bms') s' /\
    alloc_wf s' /\ laid_out s' /\
    (forall b, free_block s' b = true -> homed s' b /\ marked [cpu0; cpu1] b = false) /\
    (memory_from 1%positive ->
     forall b, homed s' b -> marked [cpu0; cpu1] b = false -> free_block s' b = true).
Proof.
  apply (nova_build_blocknode_map_correct s0 [cpu0; cpu1]).
  - apply sb_geometry.
  - reflexivity.
  - intros fl Hfl. cbn in Hfl. set_solver.
  - vm_compute. intuition congruence.
  - apply bms_are_ok.
  - reflexivity.
  - reflexivity.
Defined.

(** The third 2 MB unit's neighbours and the blocks around 340 are free, the
    marked ones are not. *)
Example rebuilt_blocks :
  match rebuild_free_lists [cpu0; cpu1] 0x1000000 s0 with
  | Ok (rc, _) s' => (rc, map (free_block s') [339; 340; 341; 342; 1023; 1024; 1535; 1536])
  | Fault _ => (-1, [])
  end = (0, [true; false; false; true; true; false; false; true]).
Proof. vm_compute. reflexivity. Qed.
End ScanExample.

(** The device of [BallocExample] with one inode superpage per CPU and the
    number maps just initialised, on which the theorems on inodes are
    exercised. *)

From S2P Require Import Prelude CInt Crc32c NovaEnv RangeNode Pmem NovaState NovaMonad NovaLib.
From S2P Require Import Balloc BallocSpec BallocAlloc BallocInit BallocExample NovaLayout PmemOps.
From S2P Require Import InodeMap InodeMapSpec InodeTable InodeTableSpec.

Module InodeExample.
Import BallocExample.
#[local] Existing Instance RbExample.lib.
#[local] Existing Instance RbExample.lib_ok.

Definition empty_map : inode_map := mkInodeMap RB_ROOT 0 None 0 0.

(** One superpage for each CPU. *)
Definition a1 : nova := Eval vm_compute in
  run (nova_new_blocks 0 1 NOVA_BLOCK_TYPE_2M false LOG 0 ALLOC_FROM_HEAD) s1.
Definition a2 : nova := Eval vm_compute in
  run (nova_new_blocks 0 1 NOVA_BLOCK_TYPE_2M false LOG 1 ALLOC_FROM_HEAD) a1.

Lemma superpage_wf s s' cpu blk :
  alloc_wf s -> valid_cpu s cpu ->
  nova_new_blocks 0 1 NOVA_BLOCK_TYPE_2M false LOG cpu ALLOC_FROM_HEAD s = Ok (1, blk) s' -> alloc_wf s'.
Proof.
  intros W V E. destruct (new_blocks_core s 1 NOVA_BLOCK_TYPE_2M LOG cpu ALLOC_FROM_HEAD W V)
    as (c & fl & _ & _ & [[Ef _]|(k & b & s2 & Eff & _ & _ & Ek)]); [lia|by intros _| |].
  - rewrite Ef in E. done.
  - rewrite Ek in E. cbn in E. unfold ret in E. simplify_eq. apply Eff.
Qed.

Lemma a1_run :
  nova_new_blocks 0 1 NOVA_BLOCK_TYPE_2M false LOG 0 ALLOC_FROM_HEAD s1 = Ok (1, 308) a1.
Proof. vm_compute. reflexivity. Qed.
Lemma a2_run :
  nova_new_blocks 0 1 NOVA_BLOCK_TYPE_2M false LOG 1 ALLOC_FROM_HEAD a1 = Ok (1, 2292) a2.
Proof. vm_compute. reflexivity. Qed.

Lemma a2_wf : alloc_wf a2.
Proof.
  apply (superpage_wf a1 a2 1 2292); [|right; cbn; split; [done|lia]|apply a2_run].
  apply (superpage_wf s1 a1 0 308); [apply s1_wf|right; cbn; split; [done|lia]|apply a1_run].
Qed.

Definition p0 : Z := 308 * 4096.
Definition p1 : Z := 2292 * 4096.
Definition pages : chains := fun v cpu =>
  if v then [] else if cpu =? 0 then [p0] else [p1].

(** The heads of the primary table, on a device that is zero elsewhere. *)
Definition m : mem := store 8 (store 8 ∅ (head_addr a2 false 0) p0) (head_addr a2 false 1) p1.
Definition t0 : nova := Eval vm_compute in set_inode_maps [empty_map; empty_map] (set_nvmm m a2).

Definition t1 : nova := Eval vm_compute in run nova_init_inode_inuse_list t0.

Lemma t1_run : nova_init_inode_inuse_list t0 = Ok 0 t1.
Proof. vm_compute. reflexivity. Qed.

Lemma nova_init_inode_inuse_list_correct_witness :
  exists s', nova_init_inode_inuse_list t0 = Ok 0 s' /\ inodes_wf s' /\
    (forall x, ino_inuse s' x = (0 <=? x) && (x / 2 <=? init_high 2)) /\
    (forall x, 0 <= x < NOVA_NORMAL_INODE_START -> ino_inuse s' x = true) /\
    s_inodes_used_count s' = NOVA_NORMAL_INODE_START.
Proof.
  apply (nova_init_inode_inuse_list_correct t0).
  - reflexivity.
  - cbn. lia.
  - intros im Him. cbn in Him. set_solver.
  - reflexivity.
Defined.

Lemma t1_inodes : inodes_wf t1 /\
  forall x, 0 <= x < NOVA_NORMAL_INODE_START -> ino_inuse t1 x = true.
Proof.
  destruct (init_inuse_list_run t0) as (s' & E & W & _ & U & _); [reflexivity|cbn; lia| |reflexivity|].
  - intros im Him. cbn in Him. set_solver.
  - rewrite t1_run in E. by simplify_eq.
Qed.

(** Allocate twice on CPU 0, free the first number, refuse to free it again,
    and allocate: the number comes back. *)
Definition ops : list num_op := [NewIno 0; NewIno 0; FreeIno 34; FreeIno 34; NewIno 0].

Lemma inode_numbers_refine_witness :
  exists mems rs s', exec_ops ops t1 = Ok rs s' /\ inodes_wf s' /\
    num_run 2 (abs_numbers t1) ops mems rs (abs_numbers s') /\
    ((forall p, kmem_cache_zalloc_ok p = true) -> Forall (fun m => m = true) mems).
Proof.
  apply (inode_numbers_refine ops t1).
  - apply t1_inodes.
  - repeat constructor; cbn; lia.
Defined.

Example ops_results : exists s',
  exec_ops ops t1 = Ok [(0, 34); (0, 36); (0, 0); (- EINVAL, 0); (0, 34)] s'.
Proof. eexists. vm_compute. reflexivity. Qed.

(** ** The table *)
Lemma t1_cpu cpu : 0 <= cpu < cpus (sbc t1) -> cpu = 0 \/ cpu = 1.
Proof. cbn. lia. Qed.

Lemma t1_free b :
  free_block t1 b = ((820 <=? b) && (b <=? 2031)) || ((2804 <=? b) && (b <=? 4077)).
Proof.
  change (free_block t1 b) with
    (((820 <=? b) && (b <=? 2031) || false) || (((2804 <=? b) && (b <=? 4077) || false) || false)).
  by rewrite !orb_false_r.
Qed.

Lemma t1_page p : p = p0 \/ p = p1 -> superpage_ok t1 p.
Proof.
  intros Hp. unfold p0, p1 in Hp. assert (initsize (sbc t1) = 16777216) as Ei by done.
  unfold superpage_ok, SUPERPAGE, HEAD_RESERVED_BLOCKS. rewrite Ei. split_and!; [lia..|].
  intros b H1 H2. rewrite t1_free. bool_lia.
Qed.

Lemma t1_tables : tables_wf t1 pages.
Proof.
  split.
  - intros v cpu [-> | ->]%t1_cpu; destruct v; vm_compute; reflexivity.
  - intros v cpu [-> | ->]%t1_cpu; destruct v; split; vm_compute; reflexivity.
  - intros v cpu p Hc Hp. apply t1_page. unfold pages in Hp.
    destruct v; [set_solver|]. destruct (cpu =? 0); set_solver.
  - intros v1 c1 i1 q1 v2 c2 i2 q2 H1 H2 L1 L2 Hne. unfold pages in *.
    destruct v1, v2; try done.
    apply t1_cpu in H1 as [-> | ->], H2 as [-> | ->]; cbn [Z.eqb] in *;
      apply list_lookup_singleton_Some in L1 as [-> <-], L2 as [-> <-]; try done;
      unfold pages_apart, p0, p1, SUPERPAGE; lia.
Qed.

Lemma t1_lists (P : free_list -> Prop) :
  Forall P (free_lists t1) -> forall fl, fl ∈ free_lists t1 -> P fl.
Proof. by rewrite Forall_forall. Qed.

Lemma t1_ctx : table_ctx t1 pages.
Proof.
  split.
  - apply (alloc_wf_same a2); [apply a2_wf|done..|vm_compute; congruence].
  - split; [cbn; lia|]. split; [cbn; lia|]. intros [|[|i]] fl E; cbn in E; simplify_eq; cbn.
    all: unfold PAGE_SIZE; lia.
  - apply t1_lists. repeat constructor; vm_compute; congruence.
  - apply t1_lists. repeat constructor; vm_compute; congruence.
  - vm_compute. congruence.
  - vm_compute. congruence.
  - apply t1_tables.
Qed.

Lemma inode_slots_disjoint_witness :
  (p0 + 16 * 128 + NOVA_INODE_SIZE <= p1 + 16383 * 128 \/
   p1 + 16383 * 128 + NOVA_INODE_SIZE <= p0 + 16 * 128) /\
  (virt_addr (sbc t1) + (p0 + 16 * 128) + sizeof nova_inode <= link_addr t1 p1 \/
   link_addr t1 p1 + 8 <= virt_addr (sbc t1) + (p0 + 16 * 128)).
Proof.
  apply (inode_slots_disjoint t1 pages false 32 (p0 + 16 * 128) false 32767 (p1 + 16383 * 128) 1 false p1).
  - apply t1_tables.
  - cbn; lia.
  - lia.
  - lia.
  - reflexivity.
  - reflexivity.
  - done.
  - cbn; lia.
  - cbn. set_solver.
Defined.

(** Inode 40000 needs a second superpage. *)
Lemma nova_get_inode_address_correct_witness :
  exists r a s' pages', nova_get_inode_address 40000 0 7 true true t1 = Ok (r, a) s' /\
    table_ext t1 s' pages pages' /\
    ((r = 0 /\ inode_slot 2 pages' (table_of 0) 40000 = Some a) \/ (r < 0 /\ a = 7)) /\
    (forall a1, inode_slot 2 pages (table_of 0) 40000 = Some a1 -> r = 0 /\ a = a1 /\ s' = t1).
Proof.
  apply (nova_get_inode_address_correct t1 pages 40000 0 7 true true).
  - apply t1_ctx.
  - vm_compute. congruence.
  - split; vm_compute; congruence.
Defined.

Example address_of_36 : nova_get_inode_address 36 0 0 true true t1 = Ok (0, p0 + 18 * 128) t1.
Proof. vm_compute. reflexivity. Qed.

Lemma nova_new_nova_inode_correct_witness :
  exists ino a s' pages', nova_new_nova_inode 0 t1 = Ok (ino, a) s' /\
    inodes_wf s' /\ table_ctx s' pages' /\
    ((NOVA_NORMAL_INODE_START <= ino /\ only_new t1 s' ino /\
      inode_slot 2 pages' false ino = Some a) \/
     (ino = 0 /\ a = 0 /\
      ((forall x, ino_inuse s' x = ino_inuse t1 x) \/ exists lost, only_new t1 s' lost))).
Proof.
  apply (nova_new_nova_inode_correct t1 pages 0);
    [apply t1_inodes|apply t1_ctx|vm_compute; split; congruence|apply t1_inodes].
Defined.

(** ** A free that finds no memory *)
Module NoMem.
Definition env : NovaEnv := {|
  nova_crc_env := CrcExample.env;
  metadata_csum := 1; data_csum := 1; data_parity := 1; dram_struct_csum := 1;
  wprotect := 1; support_clwb := 1;
  kmem_cache_zalloc_ok := fun _ => false;
  memcpy_mcsafe_rc := fun _ _ => 0
|}.

Definition map0 : inode_map := nth 0 (inode_maps t1) empty_map.
Definition node0 : ptr * range_node := default (1%positive, zeroed_node) (head (im_nodes map0)).

(** Number 10 lies inside the range [0..16] of CPU 0. *)
Lemma nova_free_inuse_inode_nomem_witness :
  exists s', @nova_free_inuse_inode env RbExample.lib 10 t1 = Ok 0 s' /\
    (forall x, ino_inuse s' x = ino_inuse t1 x) /\
    s_inodes_used_count s' = u64 (s_inodes_used_count t1 - 1).
Proof.
  apply (@nova_free_inuse_inode_nomem env RbExample.lib RbExample.lib_ok t1 10 0 map0 node0.1 node0.2).
  - destruct t1_inodes as [[A1 A2 A3] _]. split; [done|done|].
    intros i im Hi. destruct (A3 i im Hi) as [B1 B2 B3]. split; [exact B1|exact B2|exact B3].
  - reflexivity.
  - split; [lia|reflexivity].
  - cbn. set_solver.
  - vm_compute. split; congruence.
  - reflexivity.
Defined.
End NoMem.
End InodeExample.

(** A device with an empty journal, on which the journal's theorems are
    exercised: CPU 0's journal is the page at block 400, two inodes and their
    replicas lie at blocks 500 to 503. *)

From stdpp Require Import strings.
From S2P Require Import Prelude CInt Crc32c NovaEnv RangeNode Pmem NovaState NovaMonad NovaLib.
From S2P Require Import Balloc NovaLayout Journal Crash JournalSpec JournalRecover.
From S2P Require Import JournalTx BallocExample.

Local Open Scope Z_scope.

Module JournalExample.

#[local] Existing Instance BallocExample.env.
#[local] Existing Instance CrcExample.env_ok.

Definition J : Z := 400 * 4096.
Definition base : Z := virt_addr BallocExample.sb.
Definition P : Z := base + 4096 * 48.

(** Head and tail both at the first entry of the page; write protection off. *)
Definition s : nova :=
  set_nvmm (store 8 (store 8 ∅ P J) (P + 8) J) (set_cr0_wp false BallocExample.s0).

Definition mk_inode (ino b : Z) : inode_header :=
  mkSih ino (b * 4096) ((b + 1) * 4096) 0 0 0 0 0.
Definition file := mk_inode 33 500.
Definition dir := mk_inode 34 502.

Lemma s_geo : jgeo s 0 J.
Proof. split; try reflexivity; try (vm_compute; intuition congruence). Qed.

Lemma s_empty : journal_at s 0 J 0 0.
Proof. split; vm_compute; reflexivity. Qed.

Lemma s_bytes : mem_bytes (nvmm s).
Proof. apply mem_bytes_store, mem_bytes_store, mem_bytes_empty. Qed.

Lemma file_ok : req_ok s 0 J (ReqReplica file).
Proof.
  unfold req_ok. split_and!; try reflexivity; try (vm_compute; intuition congruence).
Qed.
Lemma dir_ok : req_ok s 0 J (ReqReplica dir).
Proof.
  unfold req_ok. split_and!; try reflexivity; try (vm_compute; intuition congruence).
Qed.

Lemma both_apart : replicas_apart s [ReqReplica file; ReqReplica dir].
Proof.
  intros sih x Hin Hx Hj.
  rewrite !elem_of_cons in Hin. unfold journaled in Hj. rewrite !Exists_cons, Exists_nil in Hj.
  unfold in_region in Hj. cbn [region fst snd] in Hj.
  change (virt_addr (sbc s)) with base in *.
  destruct Hin as [Hin|[Hin|Hin]]; [| |by apply not_elem_of_nil in Hin]; injection Hin as ->;
    cbn [file dir mk_inode pi_addr alter_pi_addr] in *; lia.
Qed.

Lemma readable_file : inode_readable s file.
Proof. split_and!; try reflexivity; vm_compute; reflexivity. Qed.
Lemma readable_dir : inode_readable s dir.
Proof. split_and!; try reflexivity; vm_compute; reflexivity. Qed.

Lemma both_pre : tx_pre s 0 J 0 [ReqReplica file; ReqReplica dir].
Proof.
  split; [apply s_geo|apply s_empty|reflexivity|apply s_bytes|cbn; lia| |apply both_apart].
  apply Forall_cons_2; [apply file_ok|]. apply Forall_cons_2; [apply dir_ok|constructor].
Qed.

Lemma nova_create_inode_transaction_atomic_witness :
  tx_done s 0 J 0 [ReqReplica file; ReqReplica dir]
    (nova_create_inode_transaction file dir 0 true false s).
Proof.
  apply (nova_create_inode_transaction_atomic (NE := BallocExample.env) s 0 J 0 file dir true false);
    [apply readable_file|apply readable_dir|apply both_pre].
Defined.

Lemma nova_create_rename_transaction_atomic_witness :
  tx_done s 0 J 0 [ReqReplica file; ReqReplica dir]
    (nova_create_rename_transaction file dir None None 0 false 0 s).
Proof.
  apply (nova_create_rename_transaction_atomic (NE := BallocExample.env) s 0 J 0 file dir None None 0 false);
    [apply readable_file|apply readable_dir|done|done|apply both_pre].
Defined.

(** A write entry in the log page at block 600. *)
Definition entry : Z := base + 600 * 4096 + 64.
Definition entry_qs : list jreq := Eval vm_compute in word_reqs 8 0 entry.

Lemma entry_pre : tx_pre s 0 J 0 entry_qs.
Proof.
  split; [apply s_geo|apply s_empty|reflexivity|apply s_bytes|cbn; lia| |].
  - unfold entry_qs. repeat apply Forall_cons_2; [..|apply Forall_nil_2];
      vm_compute; intuition congruence.
  - intros sih x Hin. unfold entry_qs in Hin. rewrite !elem_of_cons in Hin.
    repeat (destruct Hin as [Hin|Hin]; [done|]). by apply not_elem_of_nil in Hin.
Qed.

Lemma nova_create_logentry_transaction_atomic_witness :
  tx_done s 0 J 0 entry_qs (nova_create_logentry_transaction entry FILE_WRITE 0 s) /\
  forall x, entry <= x < entry + nova_get_log_entry_size FILE_WRITE -> journaled s entry_qs x.
Proof.
  apply (nova_create_logentry_transaction_atomic (NE := BallocExample.env) s 0 J 0 entry FILE_WRITE);
    [apply entry_pre|reflexivity].
Defined.

(** The journal after two entries were published. *)
Definition s_open : nova := set_nvmm (store 8 (nvmm s) (P + 8) (J + 64)) s.

Lemma s_open_geo : jgeo s_open 0 J.
Proof. split; try reflexivity; try (vm_compute; intuition congruence). Qed.
Lemma s_open_at : journal_at s_open 0 J 0 2.
Proof. split; vm_compute; reflexivity. Qed.

Lemma nova_commit_lite_transaction_durable_witness :
  exists evs, nova_commit_lite_transaction (slot J 2) 0 s_open = Ok tt (pm_step s_open evs) /\
    Forall (stores_in (pair_addr s_open 0) 8) evs /\
    forall r, rebooted s_open r evs -> soft_init_body 0 r = Ok None r.
Proof.
  apply (nova_commit_lite_transaction_durable s_open 0 J 0 2);
    [apply s_open_geo|apply s_open_at|reflexivity].
Defined.

Lemma journal_misuse_is_bug_witness :
  create_transaction 0 ret s_open = Fault FBug /\
  nova_commit_lite_transaction J 0 s_open = Fault FBug.
Proof.
  apply (journal_misuse_is_bug s_open 0 J 0 2 ret J);
    [apply s_open_geo|apply s_open_at|vm_compute; congruence|vm_compute; congruence].
Defined.
End JournalExample.
