(* ===== verification/Checksum.v ===== *)
(** Data checksums (the data half of checksum.c, with the address helpers of
    nova.h): every 512-byte stripe of a data block has a CRC32C, kept twice in
    the checksum areas of the block's free list.

    A block buffer in DRAM is the list of its bytes, a pointer into it the
    remaining bytes; reading past its end is a fault. *)

From stdpp Require Import strings.
From S2P Require Import Prelude CInt Crc32c NovaEnv RangeNode Pmem NovaState NovaMonad NovaLib.
From S2P Require Import Balloc NovaLayout InodeTable.

Local Open Scope nova_scope.
Local Open Scope string_scope.
Local Open Scope list_scope.
Local Open Scope Z_scope.

Definition STRIPE : nat := 512.

Section checksum.
Context `{NovaEnv}.

(** ** Where the checksum of a stripe lives (nova.h) *)
Definition nova_get_data_csum_addr (strp_nr replica : Z) : M Z :=
  let BLOCK_SHIFT := PAGE_SHIFT - NOVA_STRIPE_SHIFT in
  if data_csum =? 0 then ret 0
  else
    let blocknr := Z.shiftr strp_nr BLOCK_SHIFT in
    let! s := gets id in
    if per_list_blocks s =? 0 then raise FDivide
    else
      let index := s32 (blocknr / per_list_blocks s) in
      if cpus (sbc s) <=? index then ret 0
      else
        let strp_nr := u64 (strp_nr - Z.shiftl (u64 (index * per_list_blocks s)) BLOCK_SHIFT) in
        let! fl := nova_get_free_list index in
        let start := if replica =? 0 then csum_start fl else replica_csum_start fl in
        let blockoff := u64 (Z.shiftl start PAGE_SHIFT) in
        if num_csum_blocks fl <=? Z.shiftr (u64 (NOVA_DATA_CSUM_LEN * strp_nr)) PAGE_SHIFT
        then ret 0
        else ret (nova_get_block s blockoff + NOVA_DATA_CSUM_LEN * strp_nr).

(** ** Buffers *)
Definition dram_read (n : nat) (buf : list Z) : M (list Z) :=
  if (n <=? length buf)%nat then ret (take n buf) else raise (FWild 0).

(** [memcpy] into NVMM: cached stores. *)
Definition memcpy_to_pmem (dst : Z) (src : list Z) : M unit := pstore_bytes EvStore dst src.

(** [sbi->zero_csum[i]]: the checksum of a stripe of the zeroed page (super.c). *)
Definition zero_csum : Z := nova_crc32c NOVA_INIT_CSUM (replicate STRIPE 0).

Definition stripe_csum (strip : list Z) : Z := nova_crc32c NOVA_INIT_CSUM strip.

(** The checksums of [n] consecutive stripes, as the bytes of a [u32] array. *)
Fixpoint stripe_csums (n : nat) (strp_ptr : list Z) : M (list Z) :=
  match n with
  | O => ret []
  | S n =>
      let! strip := dram_read STRIPE strp_ptr in
      let! rest := stripe_csums n (drop STRIPE strp_ptr) in
      ret (le_bytes 4 (stripe_csum strip) ++ rest)
  end.

(** The body of [while (strps >= 8)]. *)
Definition update_eight_csums (strp_nr : Z) (strp_ptr : list Z) (zero : bool) : M unit :=
  let! src := (if zero then ret (concat (replicate 8 (le_bytes 4 zero_csum)))
               else stripe_csums 8 strp_ptr) in
  let! csum_addr := nova_get_data_csum_addr strp_nr 0 in
  let! csum_addr1 := nova_get_data_csum_addr strp_nr 1 in
  nova_memunlock_range csum_addr (NOVA_DATA_CSUM_LEN * 8) ;;;
  (if negb (support_clwb =? 0) then
     memcpy_to_pmem csum_addr src ;;; memcpy_to_pmem csum_addr1 src
   else
     let! _ := memcpy_to_pmem_nocache csum_addr src in
     let! _ := memcpy_to_pmem_nocache csum_addr1 src in ret tt) ;;;
  nova_memlock_range csum_addr (NOVA_DATA_CSUM_LEN * 8) ;;;
  when (negb (support_clwb =? 0))
    (nova_flush_buffer csum_addr (NOVA_DATA_CSUM_LEN * 8) false ;;;
     nova_flush_buffer csum_addr1 (NOVA_DATA_CSUM_LEN * 8) false).

(** The body of [for (strp = 0; strp < strps; strp++)]. *)
Definition update_one_csum (strp_nr : Z) (strp_ptr : list Z) (zero : bool) : M unit :=
  let! csum := (if zero then ret zero_csum
                else let! strip := dram_read STRIPE strp_ptr in ret (stripe_csum strip)) in
  let! csum_addr := nova_get_data_csum_addr strp_nr 0 in
  let! csum_addr1 := nova_get_data_csum_addr strp_nr 1 in
  nova_memunlock_range csum_addr NOVA_DATA_CSUM_LEN ;;;
  let! _ := memcpy_to_pmem_nocache csum_addr (le_bytes 4 csum) in
  let! _ := memcpy_to_pmem_nocache csum_addr1 (le_bytes 4 csum) in
  nova_memlock_range csum_addr NOVA_DATA_CSUM_LEN.

Definition advance (n : nat) (zero : bool) (strp_ptr : list Z) : list Z :=
  if zero then strp_ptr else drop (n * STRIPE) strp_ptr.

Fixpoint update_csums_one (strps : nat) (strp_nr : Z) (strp_ptr : list Z) (zero : bool)
    : M unit :=
  match strps with
  | O => ret tt
  | S strps =>
      update_one_csum strp_nr strp_ptr zero ;;;
      update_csums_one strps (u64 (strp_nr + 1)) (advance 1 zero strp_ptr) zero
  end.

(** [octs] rounds of eight stripes, then the remaining ones. *)
Fixpoint update_csums (octs strps : nat) (strp_nr : Z) (strp_ptr : list Z) (zero : bool)
    : M unit :=
  match octs with
  | O => update_csums_one strps strp_nr strp_ptr zero
  | S octs =>
      update_eight_csums strp_nr strp_ptr zero ;;;
      update_csums octs strps (u64 (strp_nr + 8)) (advance 8 zero strp_ptr) zero
  end.

Definition nova_update_stripe_csum (strps strp_nr : Z) (strp_ptr : list Z) (zero : bool)
    : M Z :=
  update_csums (Z.to_nat (strps / 8)) (Z.to_nat (strps mod 8)) strp_nr strp_ptr zero ;;;
  ret 0.

Definition nova_update_block_csum (sih : inode_header) (block : list Z)
    (blocknr offset bytes : Z) (zero : bool) : M Z :=
  let blockoff := nova_get_block_off blocknr (i_blk_type sih) in
  let strp_index := u32 (Z.shiftr offset NOVA_STRIPE_SHIFT) in
  let strp_offset := u32 (offset - u32 (Z.shiftl strp_index NOVA_STRIPE_SHIFT)) in
  let strps := u64 (Z.shiftr (u64 (strp_offset + bytes - 1)) NOVA_STRIPE_SHIFT + 1) in
  let strp_nr := Z.shiftr (u64 (blockoff + offset)) NOVA_STRIPE_SHIFT in
  let strp_ptr := drop (Z.to_nat (u32 (Z.shiftl strp_index NOVA_STRIPE_SHIFT))) block in
  let! _ := nova_update_stripe_csum strps strp_nr strp_ptr zero in
  ret 0.

(** ** Finding a file's data block (nova.h)

    [tree] is the inode's radix tree: file page to the address of its write
    entry. *)
Definition get_nvmm (entryc : list Z) (pgoff : Z) : Z :=
  let fld f := le_val (take (sizeof_field nova_file_write_entry f)
                 (drop (Z.to_nat (offsetof nova_file_write_entry f)) entryc)) in
  u64 (Z.shiftr (fld "block") PAGE_SHIFT + pgoff - fld "pgoff").

Definition nova_find_nvmm_block (tree : gmap Z Z) (entry blocknr : Z) : M Z :=
  let entry := if entry =? 0 then default 0 (tree !! blocknr) else entry in
  if entry =? 0 then ret 0
  else
    let! r := memcpy_mcsafe entry (Z.to_nat (sizeof nova_file_write_entry)) in
    if r.1 <? 0 then ret 0
    else if negb (r.1 =? 0) then raise FUninit
    else ret (u64 (Z.shiftl (get_nvmm r.2 blocknr) PAGE_SHIFT)).

Definition nova_update_pgoff_csum (sih : inode_header) (tree : gmap Z Z)
    (entry pgoff : Z) (zero : bool) : M Z :=
  let count := nova_inode_blk_size (i_blk_type sih) / NOVA_STRIPE_SIZE in
  let! blockoff := nova_find_nvmm_block tree entry pgoff in
  if blockoff =? 0 then ret 0
  else
    let! dax_mem := gets (fun s => nova_get_block s blockoff) in
    let strp_nr := Z.shiftr blockoff NOVA_STRIPE_SHIFT in
    let! buf := (if zero then ret [] else
                   pload_bytes (Z.to_nat (count * NOVA_STRIPE_SIZE)) dax_mem) in
    let! _ := nova_update_stripe_csum count strp_nr buf zero in
    ret 0.

Definition nova_update_truncated_block_csum (sih : inode_header) (tree : gmap Z Z)
    (newsize : Z) : M Z :=
  let! s := gets id in
  let offset := Z.land newsize (s_blocksize (sbc s) - 1) in
  let length := s_blocksize (sbc s) - offset in
  let pgoff := Z.shiftr newsize (s_blocksize_bits (sbc s)) in
  let! nvmm_off := nova_find_nvmm_block tree 0 pgoff in
  if nvmm_off =? 0 then ret (- EFAULT)
  else
    let nvmm_addr := nova_get_block s nvmm_off in
    let strp_index := u32 (Z.shiftr offset NOVA_STRIPE_SHIFT) in
    let strp_offset := u32 (offset - u32 (Z.shiftl strp_index NOVA_STRIPE_SHIFT)) in
    let strps := u64 (Z.shiftr (u64 (strp_offset + length - 1)) NOVA_STRIPE_SHIFT + 1) in
    let strp_nr := Z.shiftr (u64 (nvmm_off + offset)) NOVA_STRIPE_SHIFT in
    let strp_addr := nvmm_addr + u32 (Z.shiftl strp_index NOVA_STRIPE_SHIFT) in
    let tail (strps strp_nr : Z) :=
      (if 0 <? strps then
         let! _ := nova_update_stripe_csum strps strp_nr [] true in ret 0
       else ret 0) in
    if 0 <? strp_offset then
      let! tail_strp := kmem_cache_zalloc in
      match tail_strp with
      | None => ret (- ENOMEM)
      | Some _ =>
          let! r := memcpy_mcsafe strp_addr (Z.to_nat strp_offset) in
          if r.1 <? 0 then ret (- EIO)
          else if negb (r.1 =? 0) then raise FUninit
          else
            let! _ := nova_update_stripe_csum 1 strp_nr
                        (r.2 ++ replicate (STRIPE - Z.to_nat strp_offset) 0) false in
            tail (u64 (strps - 1)) (u64 (strp_nr + 1))
      end
    else tail strps strp_nr.
End checksum.
