(* ===== verification/MetaCsum.v ===== *)
(** Metadata checksums (the first half of checksum.c): every log entry and every
    inode has a CRC32C and a replica; readers verify both copies and repair one
    from the other.

    Media errors are part of the state here: [poisoned t a] says whether the
    byte at [a] cannot be read after the device operations [t].  What a
    failing [memcpy_mcsafe] returns, and what it has written by then, are
    parameters: the code tests for a negative result in most places, as the
    kernels it was written for return -EFAULT, while the kernels since 4.18 return
    the number of bytes that were not copied.  A positive result passes those
    tests, and the bytes that are used then were not read ([FUninit]).
    A DRAM buffer is the list of the bytes known to be in it; reading beyond
    them, or an output variable that was not assigned, is a fault.
    Each definition translates the C function of the same name. *)

From stdpp Require Import strings.
From S2P Require Import Prelude CInt Crc32c NovaEnv RangeNode Pmem NovaState NovaMonad NovaLib.
From S2P Require Import Balloc NovaLayout LogPage.

Local Open Scope nova_scope.
Local Open Scope string_scope.
Local Open Scope list_scope.
Local Open Scope Z_scope.

Class MediaLib := {
  poisoned : list pm_event -> Z -> bool;
  (* bytes a failing copy of [n] bytes from [a] has stored *)
  copied : list pm_event -> Z -> nat -> nat;
  (* what it returns *)
  mcsafe_error : list pm_event -> Z -> nat -> Z
}.

(** The convention that the tests in the code need. *)
Class McsafeNegative `{MediaLib} : Prop := mcsafe_negative : forall t a n, mcsafe_error t a n < 0.

(** nova_def.h, log.h *)
Definition POISON_RADIUS : Z := 512.
Definition POISON_MASK : Z := Z.lnot (POISON_RADIUS - 1).
Definition NOVA_META_CSUM_LEN : Z := 4.
Definition NOVA_MAX_ENTRY_LEN : Z := NOVA_DIR_LOG_REC_LEN NOVA_NAME_LEN.

(** The cases of the [switch]es on an entry's type byte; [None] is [default]. *)
Definition entry_kind (type : Z) : option nova_entry_type :=
  if type =? entry_type_val DIR_LOG then Some DIR_LOG
  else if type =? entry_type_val FILE_WRITE then Some FILE_WRITE
  else if type =? entry_type_val SET_ATTR then Some SET_ATTR
  else if type =? entry_type_val LINK_CHANGE then Some LINK_CHANGE
  else if type =? entry_type_val MMAP_WRITE then Some MMAP_WRITE
  else if type =? entry_type_val SNAPSHOT_INFO then Some SNAPSHOT_INFO
  else None.

Definition entry_struct (t : nova_entry_type) : struct :=
  match t with
  | FILE_WRITE => nova_file_write_entry
  | DIR_LOG => nova_dentry
  | SET_ATTR => nova_setattr_logentry
  | LINK_CHANGE => nova_link_change_entry
  | MMAP_WRITE => nova_mmap_entry
  | SNAPSHOT_INFO => nova_snapshot_info_entry
  | NEXT_PAGE => []
  end.

(** A field of a structure in a DRAM buffer. *)
Definition buf_field (st : struct) (f : string) (l : list Z) : Z :=
  le_val (take (sizeof_field st f) (drop (Z.to_nat (offsetof st f)) l)).

(** The variables [nova_get_entry_copy] writes through its pointers. *)
Record entry_buf := mkBuf { b_csum : option Z; b_size : option Z; b_copy : list Z }.
Definition no_buf : entry_buf := mkBuf None None [].

Definition initialised {A} (x : option A) : M A :=
  match x with Some v => ret v | None => raise FUninit end.

Definition buf_read (n : nat) (l : list Z) : M (list Z) :=
  if (n <=? length l)%nat then ret (take n l) else raise FUninit.

(** [memcmp] of [n] bytes: does it find a difference? *)
Fixpoint memcmp (n : nat) (l1 l2 : list Z) : M bool :=
  match n, l1, l2 with
  | O, _, _ => ret false
  | S n, x :: l1, y :: l2 => if x =? y then memcmp n l1 l2 else ret true
  | S _, _, _ => raise FUninit
  end.

Section meta.
Context `{NovaEnv, MediaLib}.

Definition unreadable (t : list pm_event) (a : Z) (n : nat) : bool :=
  existsb (poisoned t) (seqZ a (Z.of_nat n)).

(** [memcpy_mcsafe] from NVMM to DRAM, and within NVMM. *)
Definition mcsafe (addr : Z) (n : nat) : M (Z * list Z) :=
  let! t := gets trace in
  if unreadable t addr n then ret (mcsafe_error t addr n, [])
  else let! l := pload_bytes n addr in ret (0, l).

Definition mcsafe_pmem (dst src : Z) (n : nat) : M Z :=
  let! t := gets trace in
  if unreadable t src n then
    let! l := pload_bytes (Nat.min n (copied t src n)) src in
    pstore_bytes EvStore dst l ;;; ret (mcsafe_error t src n)
  else
    let! l := pload_bytes n src in
    pstore_bytes EvStore dst l ;;; ret 0.

(** ** Log entries *)

(** The cases of fixed length. *)
Definition copy_fixed (st : struct) (entry : Z) (b : entry_buf) : M (Z * entry_buf) :=
  let! r := mcsafe entry (Z.to_nat (sizeof st)) in
  let b := mkBuf (b_csum b) (Some (sizeof st)) r.2 in
  if r.1 <? 0 then ret (r.1, b)
  else if negb (r.1 =? 0) then raise FUninit
  else ret (r.1, mkBuf (Some (buf_field st "csum" r.2)) (b_size b) (b_copy b)).

(** The case of a directory entry, whose length is in its header; the length of
    the second copy is unsigned. *)
Definition copy_dentry (entry : Z) (b : entry_buf) : M (Z * entry_buf) :=
  let! r := mcsafe entry (Z.to_nat NOVA_DENTRY_HEADER_LEN) in
  let b := mkBuf (b_csum b) (b_size b) r.2 in
  if r.1 <? 0 then ret (r.1, b)
  else if negb (r.1 =? 0) then raise FUninit
  else
    let de_len := buf_field nova_dentry "de_len" r.2 in
    if NOVA_MAX_ENTRY_LEN <? de_len then ret (r.1, b)
    else if de_len <? NOVA_DENTRY_HEADER_LEN then raise (FWild entry)
    else
      let! r2 := mcsafe (entry + NOVA_DENTRY_HEADER_LEN) (Z.to_nat (de_len - NOVA_DENTRY_HEADER_LEN)) in
      let b := mkBuf (b_csum b) (Some de_len) (r.2 ++ r2.2) in
      if r2.1 <? 0 then ret (r2.1, b)
      else if negb (r2.1 =? 0) then raise FUninit
      else ret (r2.1, mkBuf (Some (buf_field nova_dentry "csum" r.2)) (b_size b) (b_copy b)).

Definition nova_get_entry_copy (entry : Z) (b : entry_buf) : M (Z * entry_buf) :=
  let! r := mcsafe entry 1 in
  if r.1 <? 0 then ret (r.1, b)
  else if negb (r.1 =? 0) then raise FUninit
  else
    match entry_kind (le_val r.2) with
    | Some DIR_LOG => copy_dentry entry b
    | Some t => copy_fixed (entry_struct t) entry b
    | None => ret (- EINVAL, mkBuf (Some 0) (Some 0) (b_copy b))
    end.

(** The checksum of the entry whose bytes [rd] reads: everything but its csum
    field.  The remaining length is unsigned: a shorter entry makes it huge. *)
Definition nova_calc_entry_csum (rd : Z -> nat -> M (list Z)) (type : Z) : M Z :=
  match entry_kind type with
  | None => ret 0
  | Some t =>
      let! entry_len := (match t with
        | DIR_LOG => let! l := rd (offsetof nova_dentry "de_len") 2%nat in ret (le_val l)
        | _ => ret (sizeof (entry_struct t))
        end) in
      if entry_len =? 0 then ret 0
      else
        let check_len := offsetof (entry_struct t) "csum" in
        let! l := rd 0 (Z.to_nat check_len) in
        let csum := nova_crc32c NOVA_INIT_CSUM l in
        let rest := entry_len - (check_len + NOVA_META_CSUM_LEN) in
        if rest =? 0 then ret csum
        else if rest <? 0 then raise (FWild entry_len)
        else
          let! l := rd (check_len + NOVA_META_CSUM_LEN) (Z.to_nat rest) in
          ret (nova_crc32c csum l)
  end.

Definition read_pmem (entry : Z) (off : Z) (n : nat) : M (list Z) := pload_bytes n (entry + off).
Definition read_buf (l : list Z) (off : Z) (n : nat) : M (list Z) := buf_read n (drop (Z.to_nat off) l).

Definition nova_update_entry_csum (entry : Z) : M unit :=
  if metadata_csum =? 0 then nova_flush_buffer entry CACHELINE_SIZE true
  else
    let! type := nova_get_entry_type entry in
    let! type' := nova_get_entry_type entry in
    let! csum := nova_calc_entry_csum (read_pmem entry) type' in
    match entry_kind type with
    | None => ret tt
    | Some t =>
        pstore_field (entry_struct t) entry "csum" csum ;;;
        let! entry_len := (match t with
          | DIR_LOG => pload_field nova_dentry entry "de_len"
          | _ => ret (sizeof (entry_struct t))
          end) in
        if 0 <? entry_len then nova_flush_buffer entry entry_len true else ret tt
    end.

Definition nova_update_alter_entry (entry : Z) : M Z :=
  if metadata_csum =? 0 then ret 0
  else
    let! curr := gets (fun s => nova_get_addr_off s entry) in
    let! alter_curr := alter_log_entry curr in
    if alter_curr =? 0 then nova_err ;;; ret (- EIO)
    else
      let! alter_entry := gets (fun s => nova_get_block s alter_curr) in
      let! r := nova_get_entry_copy entry no_buf in
      if negb (r.1 =? 0) then ret r.1
      else
        let! size := initialised (b_size r.2) in
        let! l := buf_read (Z.to_nat size) (b_copy r.2) in
        memcpy_to_pmem_nocache alter_entry l.

(** Copy a poison radius, the same in both repair functions. *)
Definition replace_radius (bad_pr good_pr : Z) : M Z :=
  nova_memunlock_range bad_pr POISON_RADIUS ;;;
  let! rc := mcsafe_pmem bad_pr good_pr (Z.to_nat POISON_RADIUS) in
  nova_memlock_range bad_pr POISON_RADIUS ;;;
  nova_flush_buffer bad_pr POISON_RADIUS false ;;;
  if rc <? 0 then nova_err ;;; ret (-1) else ret 0.

Definition nova_repair_entry_pr (entry : Z) : M Z :=
  let! entry_off := gets (fun s => nova_get_addr_off s entry) in
  let! alter_off := alter_log_entry entry_off in
  if alter_off =? 0 then nova_err ;;; nova_err ;;; ret (-1)
  else
    let! entry_pr := gets (fun s => nova_get_block s (Z.land entry_off POISON_MASK)) in
    let! alter_pr := gets (fun s => nova_get_block s (Z.land alter_off POISON_MASK)) in
    if (entry_pr =? 0) || (alter_pr =? 0) then raise FBug
    else replace_radius entry_pr alter_pr.

(** [good]: the bytes at that pointer. *)
Definition nova_repair_entry (bad : Z) (good : list Z) (entry_size : Z) : M Z :=
  nova_memunlock_range bad entry_size ;;;
  let! l := buf_read (Z.to_nat entry_size) good in
  let! rc := memcpy_to_pmem_nocache bad l in
  nova_memlock_range bad entry_size ;;;
  ret rc.

(** Copy the entry; on an error repair it and try again.  [false] is [goto
    fail]. *)
Definition copy_or_repair (entry : Z) : M (bool * entry_buf) :=
  let! r := nova_get_entry_copy entry no_buf in
  if r.1 <? 0 then
    let! rc := nova_repair_entry_pr entry in
    if rc <? 0 then ret (false, r.2)
    else
      let! r := nova_get_entry_copy entry r.2 in
      ret (negb (r.1 <? 0), r.2)
  else ret (true, r.2).

Definition verify_failed : M (bool * option (list Z)) := nova_err ;;; ret (false, None).

(** Repair the copy at [bad] from [good], which is also what [entryc] gets. *)
Definition repair_and_return (bad : Z) (good : list Z) (size : Z) : M (bool * option (list Z)) :=
  let! rc := nova_repair_entry bad good size in
  if negb (rc =? 0) then verify_failed
  else let! l := buf_read (Z.to_nat size) good in ret (true, Some l).

(** Both copies could be read: verify the checksums. *)
Definition judge_copies (entry alter : Z) (e a : entry_buf) : M (bool * option (list Z)) :=
  let! entry_csum := initialised (b_csum e) in
  let! alter_csum := initialised (b_csum a) in
  let! te := buf_read 1 (b_copy e) in
  let! entry_csum_calc := nova_calc_entry_csum (read_buf (b_copy e)) (le_val te) in
  let! ta := buf_read 1 (b_copy a) in
  let! alter_csum_calc := nova_calc_entry_csum (read_buf (b_copy a)) (le_val ta) in
  let! entry_size := initialised (b_size e) in
  let! alter_size := initialised (b_size a) in
  if negb (entry_csum =? entry_csum_calc) && negb (alter_csum =? alter_csum_calc) then
    nova_err ;;; verify_failed
  else if negb (entry_csum =? entry_csum_calc) then
    repair_and_return entry (b_copy a) alter_size
  else if negb (alter_csum =? alter_csum_calc) then
    repair_and_return alter (b_copy e) entry_size
  else
    let! differ := memcmp (Z.to_nat entry_size) (b_copy e) (b_copy a) in
    if differ : bool then repair_and_return alter (b_copy e) entry_size
    else let! l := buf_read (Z.to_nat entry_size) (b_copy e) in ret (true, Some l).

(** Returns the verdict and what was written to [entryc]. *)
Definition nova_verify_entry_csum (entry : Z) : M (bool * option (list Z)) :=
  if metadata_csum =? 0 then ret (true, None)
  else
    let! e := copy_or_repair entry in
    if negb e.1 then verify_failed
    else
      let! entry_off := gets (fun s => nova_get_addr_off s entry) in
      let! alter_off := alter_log_entry entry_off in
      if alter_off =? 0 then nova_err ;;; verify_failed
      else
        let! alter := gets (fun s => nova_get_block s alter_off) in
        let! a := copy_or_repair alter in
        if negb a.1 then verify_failed
        else judge_copies entry alter e.2 a.2.

(** ** Inodes *)
Definition nova_repair_inode_pr (bad_pi good_pi : Z) : M Z :=
  let bad_pr := Z.land bad_pi POISON_MASK in
  let good_pr := Z.land good_pi POISON_MASK in
  if (bad_pr =? 0) || (good_pr =? 0) then raise FBug
  else replace_radius bad_pr good_pr.

Definition nova_repair_inode (bad_pi : Z) (good_copy : list Z) : M Z :=
  nova_memunlock_inode bad_pi ;;;
  let! rc := memcpy_to_pmem_nocache bad_pi good_copy in
  nova_memlock_inode bad_pi ;;;
  ret rc.

(** [nova_check_inode_checksum] of a DRAM copy: is it bad? *)
Definition inode_copy_bad (pic : list Z) : M bool :=
  let! l := buf_read (Z.to_nat (sizeof nova_inode - 4)) pic in
  ret (negb (buf_field nova_inode "csum" pic =? nova_crc32c (u32 (-1)) l)).

(** Copy an inode; on an error repair it from [other] and try again. *)
Definition copy_inode_or_repair (pi other : Z) (may_repair : bool) : M (option (list Z)) :=
  let n := Z.to_nat (sizeof nova_inode) in
  let! r := mcsafe pi n in
  if r.1 <? 0 then
    if may_repair then
      let! rc := nova_repair_inode_pr pi other in
      if rc <? 0 then ret None
      else
        let! r := mcsafe pi n in
        ret (if r.1 <? 0 then None else Some r.2)
    else ret None
  else ret (Some r.2).

Definition integrity_failed : M (Z * list Z) := nova_err ;;; ret (- EIO, []).

(** Once the primary has been copied to [pic]: look at the replica. *)
Definition check_rest (pi alter_pi : Z) (check_replica : bool) (pic : list Z) : M (Z * list Z) :=
  let! inode_bad := inode_copy_bad pic in
  if negb inode_bad && negb check_replica then ret (0, pic)
  else
    let! c := copy_inode_or_repair alter_pi pi (negb inode_bad) in
    match c with
    | None => integrity_failed
    | Some alter_pic =>
        let! alter_bad := inode_copy_bad alter_pic in
        if inode_bad && alter_bad then nova_err ;;; integrity_failed
        else if inode_bad : bool then
          let! rc := nova_repair_inode pi alter_pic in
          if negb (rc =? 0) then integrity_failed else ret (0, alter_pic)
        else
          let! stale := (if alter_bad : bool then ret true
                         else memcmp (Z.to_nat (sizeof nova_inode)) pic alter_pic) in
          if stale : bool then
            let! rc := nova_repair_inode alter_pi pic in
            if negb (rc =? 0) then integrity_failed else ret (0, pic)
          else ret (0, pic)
    end.

(** Returns the code and the copy in [pic]. *)
Definition nova_check_inode_integrity (pi_addr alter_pi_addr : Z) (check_replica : bool) : M (Z * list Z) :=
  let! pi := gets (fun s => nova_get_block s pi_addr) in
  if metadata_csum =? 0 then mcsafe pi (Z.to_nat (sizeof nova_inode))
  else
    let! alter_pi := gets (fun s => nova_get_block s alter_pi_addr) in
    let! c := copy_inode_or_repair pi alter_pi true in
    match c with
    | None => integrity_failed
    | Some pic => check_rest pi alter_pi check_replica pic
    end.
End meta.
