(* ===== verification/MetaCsumSpec.v ===== *)
(** The image of a log entry on the device, and what reading a copy of it
    returns.

    [entry_image m a] is the entry at [a] as its type byte and length delimit
    it; [entry_read] is the image when no byte of it is poisoned. *)

From stdpp Require Import strings.
From S2P Require Import Prelude CInt Crc32c NovaEnv RangeNode Pmem NovaState NovaMonad NovaLib.
From S2P Require Import Balloc NovaLayout LogPage MetaCsum.

Local Open Scope nova_scope.

(** ** Images *)
Definition entry_size_at (m : mem) (a : Z) (t : nova_entry_type) : Z :=
  match t with DIR_LOG => load 2 m (a + 4) | _ => sizeof (entry_struct t) end.

Definition entry_image (m : mem) (a : Z) : option (list Z) :=
  t ← entry_kind (load 1 m a); Some (load_bytes m a (Z.to_nat (entry_size_at m a t))).

(** A directory entry has a length that its buffer can hold. *)
Definition dentry_sane (m : mem) (a : Z) : Prop :=
  entry_kind (load 1 m a) = Some DIR_LOG ->
  NOVA_DENTRY_HEADER_LEN <= load 2 m (a + 4) <= NOVA_MAX_ENTRY_LEN.

(** The type and the checksum of an image. *)
Definition image_kind (l : list Z) : option nova_entry_type := entry_kind (le_val (take 1 l)).

Section image.
Context `{NovaEnv, McsafeNegative}.

Definition csum_off (t : nova_entry_type) : nat := Z.to_nat (offsetof (entry_struct t) "csum").

(** The CRC32C of the bytes around the csum field. *)
Definition image_csum (t : nova_entry_type) (l : list Z) : Z :=
  let c := nova_crc32c NOVA_INIT_CSUM (take (csum_off t) l) in
  match drop (csum_off t + 4) l with [] => c | rest => nova_crc32c c rest end.

Definition csum_ok (l : list Z) : bool :=
  match image_kind l with
  | Some t => buf_field (entry_struct t) "csum" l =? image_csum t l
  | None => false
  end.

Definition entry_read (t : list pm_event) (m : mem) (a : Z) : option (list Z) :=
  l ← entry_image m a; if unreadable t a (length l) then None else Some l.

Lemma entry_kind_cases v t : entry_kind v = Some t ->
  v = entry_type_val t /\ t <> NEXT_PAGE.
Proof. unfold entry_kind. intros E. repeat case_match; simplify_eq; zify_bool; by split. Qed.

Lemma take_load_bytes m a n k : (k <= n)%nat -> take k (load_bytes m a n) = load_bytes m a k.
Proof.
  intros Hk. replace n with (k + (n - k))%nat by lia. rewrite load_bytes_app.
  by rewrite take_app_length' by (by rewrite length_load_bytes).
Qed.
Lemma drop_load_bytes m a n k : (k <= n)%nat ->
  drop k (load_bytes m a n) = load_bytes m (a + Z.of_nat k) (n - k).
Proof.
  intros Hk. replace n with (k + (n - k))%nat at 1 by lia. rewrite load_bytes_app.
  by rewrite drop_app_length' by (by rewrite length_load_bytes).
Qed.

(** Fields of a prefix of the device's bytes. *)
Lemma field_load m a n o k :
  (o + k <= n)%nat -> le_val (take k (drop o (load_bytes m a n))) = load k m (a + Z.of_nat o).
Proof.
  intros Hn. by rewrite drop_load_bytes, take_load_bytes by lia.
Qed.

Lemma buf_field_load st f m a n :
  0 <= offsetof st f -> (Z.to_nat (offsetof st f) + sizeof_field st f <= n)%nat ->
  buf_field st f (load_bytes m a n) = load (sizeof_field st f) m (a + offsetof st f).
Proof. intros H0' Hn. unfold buf_field. rewrite field_load by done. by rewrite Z2Nat.id. Qed.

Lemma sane_size m a t :
  entry_kind (load 1 m a) = Some t -> dentry_sane m a -> 40 <= entry_size_at m a t <= NOVA_MAX_ENTRY_LEN.
Proof.
  intros E S. destruct (entry_kind_cases _ _ E) as [_ Ht].
  destruct t; try done.
  specialize (S E). unfold NOVA_DENTRY_HEADER_LEN in S. cbn [entry_size_at]. lia.
Qed.

Lemma image_spec m a l :
  entry_image m a = Some l -> dentry_sane m a ->
  exists t, entry_kind (load 1 m a) = Some t /\ image_kind l = Some t /\
    Z.of_nat (length l) = entry_size_at m a t /\ l = load_bytes m a (length l) /\
    40 <= Z.of_nat (length l) <= NOVA_MAX_ENTRY_LEN.
Proof.
  unfold entry_image. intros E S. destruct (entry_kind (load 1 m a)) as [t|] eqn:Ek; [|done].
  cbn in E. injection E as <-. exists t. pose proof (sane_size _ _ _ Ek S) as Hs.
  rewrite length_load_bytes, Z2Nat.id by lia. split_and!; try done; try lia.
  unfold image_kind. change (take 1 ?l) with (take 1 (drop 0 l)).
  rewrite field_load, Z.add_0_r by lia. exact Ek.
Qed.

(** An image found at another place is an image there. *)
Lemma image_transfer m a m' c l :
  entry_image m a = Some l -> dentry_sane m a -> load_bytes m' c (length l) = l ->
  entry_image m' c = Some l /\ dentry_sane m' c.
Proof.
  intros E S El. destruct (image_spec _ _ _ E S) as (t & Ek & _ & Hlen & Eld & Hl).
  assert (forall o k, (o + k <= length l)%nat -> load k m' (c + Z.of_nat o) = load k m (a + Z.of_nat o)) as F.
  { intros o k Hok. rewrite <- (field_load m' c (length l)), <- (field_load m a (length l)) by done.
    congruence. }
  pose proof (F 0%nat 1%nat ltac:(lia)) as F1. rewrite !Z.add_0_r in F1.
  pose proof (F 4%nat 2%nat ltac:(lia)) as F2. change (Z.of_nat 4) with 4 in F2.
  split; [|unfold dentry_sane; by rewrite F1, F2].
  unfold entry_image. rewrite F1, Ek. cbn. f_equal.
  assert (entry_size_at m' c t = entry_size_at m a t) as -> by (destruct t; cbn [entry_size_at]; done).
  rewrite <- Hlen, Nat2Z.id. exact El.
Qed.

(** Two images of which one starts with the other are equal. *)
Lemma image_prefix m a l m' c l' :
  entry_image m a = Some l -> dentry_sane m a -> entry_image m' c = Some l' -> dentry_sane m' c ->
  l' `prefix_of` l -> l' = l.
Proof.
  intros E S E' S' [k ->]. destruct (image_spec _ _ _ E' S') as (t' & _ & _ & Hlen & El & Hl).
  destruct (image_transfer m' c m a l' E' S') as [Ea _].
  - destruct (image_spec _ _ _ E S) as (t & _ & _ & _ & El2 & _).
    rewrite length_app, load_bytes_app in El2. apply app_inj_1 in El2 as [<- _]; [done|].
    by rewrite length_load_bytes.
  - rewrite Ea in E. injection E as E. done.
Qed.

(** ** Reading a copy *)
Lemma unreadable_app t a n k :
  unreadable t a (n + k) = unreadable t a n || unreadable t (a + Z.of_nat n) k.
Proof. unfold unreadable. rewrite Nat2Z.inj_add, seqZ_app, existsb_app by lia. done. Qed.

Lemma unreadable_sub t a n k : (k <= n)%nat -> unreadable t a n = false -> unreadable t a k = false.
Proof.
  intros Hk. replace n with (k + (n - k))%nat by lia. rewrite unreadable_app.
  by intros [? _]%orb_false_iff.
Qed.

Lemma mcsafe_ok s a n :
  in_pmem s a n = true ->
  mcsafe a n s = Ok (if unreadable (trace s) a n then (mcsafe_error (trace s) a n, []) else (0, load_bytes (nvmm s) a n)) s.
Proof.
  intros Hin. unfold mcsafe. rewrite (bind_ok _ _ _ (trace s) s) by done.
  destruct (unreadable (trace s) a n); [done|]. unfold bind, pload_bytes. by rewrite Hin.
Qed.

(** A copy that fails returns its negative code. *)
Ltac copy_fails :=
  cbn [fst snd]; rewrite (proj2 (Z.ltb_lt _ _) (mcsafe_negative _ _ _)); eexists _, _; split; [reflexivity|apply mcsafe_negative].

(** What [nova_get_entry_copy] leaves for an image. *)
Definition image_buf (l : list Z) : entry_buf :=
  mkBuf (match image_kind l with Some t => Some (buf_field (entry_struct t) "csum" l) | None => None end)
    (Some (Z.of_nat (length l))) l.

Lemma copy_fixed_run s a b t :
  entry_kind (load 1 (nvmm s) a) = Some t -> t <> DIR_LOG ->
  in_pmem s a (Z.to_nat (sizeof (entry_struct t))) = true ->
  exists r b', copy_fixed (entry_struct t) a b s = Ok (r, b') s /\
    match entry_read (trace s) (nvmm s) a with
    | Some l => r = 0 /\ b' = image_buf l
    | None => r < 0
    end.
Proof.
  intros Ek Ht Hin. unfold copy_fixed. rewrite (bind_ok _ _ _ _ _ (mcsafe_ok _ _ _ Hin)).
  destruct (entry_kind_cases _ _ Ek) as [_ Hn]. unfold entry_read, entry_image. rewrite Ek. cbn [mbind option_bind].
  assert (entry_size_at (nvmm s) a t = sizeof (entry_struct t)) as -> by (by destruct t).
  rewrite length_load_bytes. destruct (unreadable _ _ _); [copy_fails|].
  eexists _, _. split; [reflexivity|]. split; [done|]. unfold image_buf. cbn [b_size b_copy snd].
  destruct (image_spec (nvmm s) a (load_bytes (nvmm s) a (Z.to_nat (sizeof (entry_struct t)))))
    as (t' & Ek' & -> & Hl & _).
  - unfold entry_image. rewrite Ek. cbn. by destruct t.
  - intros E. rewrite Ek in E. by injection E as ->.
  - rewrite Ek in Ek'. injection Ek' as <-. rewrite Hl. by destruct t.
Qed.

Lemma copy_dentry_run s a b :
  entry_kind (load 1 (nvmm s) a) = Some DIR_LOG -> dentry_sane (nvmm s) a ->
  in_pmem s a (Z.to_nat (load 2 (nvmm s) (a + 4))) = true ->
  exists r b', copy_dentry a b s = Ok (r, b') s /\
    match entry_read (trace s) (nvmm s) a with
    | Some l => r = 0 /\ b' = image_buf l
    | None => r < 0
    end.
Proof.
  intros Ek S Hin. pose proof (S Ek) as Hd. set (d := load 2 (nvmm s) (a + 4)) in *.
  change NOVA_DENTRY_HEADER_LEN with 48 in Hd. change NOVA_MAX_ENTRY_LEN with 304 in Hd.
  destruct (image_spec (nvmm s) a (load_bytes (nvmm s) a (Z.to_nat d))) as (t & Ek' & Ei & _); [|done|].
  { unfold entry_image. by rewrite Ek. }
  rewrite Ek in Ek'. injection Ek' as <-.
  assert (Z.to_nat d = 48 + Z.to_nat (d - 48))%nat as En by lia.
  unfold copy_dentry. change (Z.to_nat NOVA_DENTRY_HEADER_LEN) with 48%nat.
  rewrite (bind_ok _ _ _ _ _ (mcsafe_ok s a 48 (in_pmem_sub s a (Z.to_nat d) a 48 Hin ltac:(lia) ltac:(lia)))).
  unfold entry_read, entry_image. rewrite Ek. cbn [mbind option_bind entry_size_at]. fold d.
  rewrite length_load_bytes, En, unreadable_app. rewrite En in Ei.
  destruct (unreadable (trace s) a 48); [copy_fails|]. cbn [fst snd orb Z.ltb Z.compare Z.eqb negb].
  assert (buf_field nova_dentry "de_len" (load_bytes (nvmm s) a 48) = d) as ->.
  { rewrite buf_field_load; [done|by vm_compute|vm_compute; lia]. }
  change NOVA_MAX_ENTRY_LEN with 304. change NOVA_DENTRY_HEADER_LEN with 48.
  rewrite !(proj2 (Z.ltb_ge _ _)) by lia.
  rewrite (bind_ok _ _ _ _ _ (mcsafe_ok s (a + 48) (Z.to_nat (d - 48))
    (in_pmem_sub s a (Z.to_nat d) (a + 48) (Z.to_nat (d - 48)) Hin ltac:(lia) ltac:(lia)))).
  change (Z.of_nat 48) with 48. destruct (unreadable (trace s) (a + 48) _); [copy_fails|].
  eexists _, _. split; [reflexivity|]. split; [done|]. unfold image_buf. cbn [b_size b_copy snd]. rewrite Ei.
  rewrite length_load_bytes, load_bytes_app. change (Z.of_nat 48) with 48. f_equal; f_equal; lia.
Qed.

Lemma get_entry_copy_run s a b :
  in_pmem s a 1 = true -> dentry_sane (nvmm s) a ->
  (forall l, entry_image (nvmm s) a = Some l -> in_pmem s a (length l) = true) ->
  exists r b', nova_get_entry_copy a b s = Ok (r, b') s /\
    match entry_read (trace s) (nvmm s) a with
    | Some l => r = 0 /\ b' = image_buf l
    | None => r < 0
    end.
Proof.
  intros H1' S Hin. unfold nova_get_entry_copy. rewrite (bind_ok _ _ _ _ _ (mcsafe_ok s a 1 H1')).
  unfold entry_image in Hin.
  destruct (unreadable (trace s) a 1) eqn:Eu.
  { cbn [fst snd]. rewrite (proj2 (Z.ltb_lt _ _) (mcsafe_negative _ _ _)). eexists _, _. split; [reflexivity|].
    unfold entry_read. destruct (entry_image _ _) as [l|] eqn:Ei; [|apply mcsafe_negative].
    cbn. destruct (image_spec _ _ _ Ei S) as (t & _ & _ & _ & _ & Hl).
    destruct (unreadable (trace s) a (length l)) eqn:El; [apply mcsafe_negative|].
    rewrite (unreadable_sub _ _ (length l) 1 ltac:(lia) El) in Eu. done. }
  cbn [fst snd Z.ltb Z.compare Z.eqb negb]. fold (load 1 (nvmm s) a).
  destruct (entry_kind (load 1 (nvmm s) a)) as [t|] eqn:Ek.
  - cbn in Hin. specialize (Hin _ eq_refl). rewrite length_load_bytes in Hin.
    destruct (decide (t = DIR_LOG)) as [->|Ht]; [by apply copy_dentry_run|].
    assert (entry_size_at (nvmm s) a t = sizeof (entry_struct t)) as E by (by destruct t). rewrite E in Hin.
    pose proof (copy_fixed_run s a b t Ek Ht Hin) as X. by destruct t.
  - eexists _, _. split; [reflexivity|]. unfold entry_read, entry_image. by rewrite Ek.
Qed.

(** ** Checking a copy *)
Lemma buf_read_run n l s : (n <= length l)%nat -> buf_read n l s = Ok (take n l) s.
Proof. intros Hn. unfold buf_read. by rewrite (proj2 (Nat.leb_le _ _) Hn). Qed.

Lemma image_len_fixed t m a l :
  entry_image m a = Some l -> dentry_sane m a -> image_kind l = Some t -> t <> DIR_LOG ->
  Z.of_nat (length l) = sizeof (entry_struct t).
Proof.
  intros E S Ei Ht. destruct (image_spec _ _ _ E S) as (t' & _ & Ei' & -> & _).
  rewrite Ei in Ei'. injection Ei' as <-. by destruct t.
Qed.

Lemma image_len_dentry m a l :
  entry_image m a = Some l -> dentry_sane m a -> image_kind l = Some DIR_LOG ->
  le_val (take 2 (drop 4 l)) = Z.of_nat (length l) /\ 48 <= Z.of_nat (length l).
Proof.
  intros E S Ei. destruct (image_spec _ _ _ E S) as (t' & Ek & Ei' & Hl & El & Hr).
  rewrite Ei in Ei'. injection Ei' as <-. cbn [entry_size_at] in Hl.
  rewrite El at 1. rewrite field_load by lia. change (Z.of_nat 4) with 4. rewrite <- Hl.
  specialize (S Ek). unfold NOVA_DENTRY_HEADER_LEN in S. split; [done|lia].
Qed.

Lemma calc_run rd m a l t s :
  (forall off n, 0 <= off -> off + Z.of_nat n <= Z.of_nat (length l) ->
     rd off n s = Ok (take n (drop (Z.to_nat off) l)) s) ->
  entry_image m a = Some l -> dentry_sane m a -> image_kind l = Some t ->
  nova_calc_entry_csum rd (le_val (take 1 l)) s = Ok (image_csum t l) s.
Proof.
  intros Hrd E S Ei. unfold nova_calc_entry_csum. fold (image_kind l). rewrite Ei.
  assert (t <> NEXT_PAGE) as Hn.
  { unfold image_kind in Ei. exact (proj2 (entry_kind_cases _ _ Ei)). }
  destruct (decide (t = DIR_LOG)) as [->|Ht].
  - destruct (image_len_dentry _ _ _ E S Ei) as [Ed Hl].
    rewrite (bind_ok _ _ _ (Z.of_nat (length l)) s).
    2: { change (offsetof nova_dentry "de_len") with 4. unfold bind. rewrite Hrd by lia.
         change (Z.to_nat 4) with 4%nat. by rewrite Ed. }
    rewrite (proj2 (Z.eqb_neq _ 0)) by lia.
    change (offsetof (entry_struct DIR_LOG) "csum") with 12. change (Z.to_nat 12) with 12%nat.
    rewrite (bind_ok _ _ _ _ _ (Hrd 0 12%nat ltac:(lia) ltac:(lia))). change (Z.to_nat 0) with 0%nat. rewrite drop_0.
    change (12 + NOVA_META_CSUM_LEN) with 16.
    rewrite (proj2 (Z.eqb_neq _ 0)), (proj2 (Z.ltb_ge _ _)) by lia.
    rewrite (bind_ok _ _ _ (drop 16 l) s).
    2: { rewrite Hrd by lia. change (Z.to_nat 16) with 16%nat.
         rewrite take_ge by (rewrite length_drop; lia). done. }
    unfold image_csum. change (csum_off DIR_LOG + 4)%nat with 16%nat. change (csum_off DIR_LOG) with 12%nat.
    assert (length (drop 16 l) <> 0%nat) as Hne by (rewrite length_drop; lia).
    by destruct (drop 16 l).
  - pose proof (image_len_fixed t _ _ _ E S Ei Ht) as Hl.
    rewrite (bind_ok _ _ _ (sizeof (entry_struct t)) s) by (by destruct t).
    rewrite (proj2 (Z.eqb_neq _ 0)) by (by destruct t).
    assert (offsetof (entry_struct t) "csum" + NOVA_META_CSUM_LEN = sizeof (entry_struct t)) as Eo by (by destruct t).
    rewrite Eo, Z.sub_diag.
    assert (0 <= offsetof (entry_struct t) "csum") by (by destruct t). unfold NOVA_META_CSUM_LEN in Eo.
    rewrite (bind_ok _ _ _ _ _ (Hrd 0 (Z.to_nat (offsetof (entry_struct t) "csum")) ltac:(lia) ltac:(lia))).
    change (Z.to_nat 0) with 0%nat. rewrite drop_0.
    cbn [Z.eqb]. unfold image_csum. rewrite (drop_ge l) by (unfold csum_off; lia). done.
Qed.

Lemma calc_buf_run m a l t s :
  entry_image m a = Some l -> dentry_sane m a -> image_kind l = Some t ->
  nova_calc_entry_csum (read_buf l) (le_val (take 1 l)) s = Ok (image_csum t l) s.
Proof.
  apply calc_run. intros off n Ho Hn. unfold read_buf. apply buf_read_run. rewrite length_drop. lia.
Qed.

(** The same on the device. *)
Lemma calc_pmem_run a l t s :
  entry_image (nvmm s) a = Some l -> dentry_sane (nvmm s) a -> image_kind l = Some t ->
  in_pmem s a (length l) = true ->
  nova_calc_entry_csum (read_pmem a) (le_val (take 1 l)) s = Ok (image_csum t l) s.
Proof.
  intros E S Ei Hin. apply (calc_run _ (nvmm s) a); [|done..]. intros off n Ho Hn. unfold read_pmem, pload_bytes.
  rewrite (in_pmem_sub s a (length l)) by (done || lia). f_equal.
  destruct (image_spec _ _ _ E S) as (_ & _ & _ & _ & El & _). rewrite El.
  rewrite drop_load_bytes, take_load_bytes by lia. by rewrite Z2Nat.id.
Qed.

(** [memcmp] of images finds a difference exactly when they differ. *)
Lemma memcmp_run l : forall l' s, ~ (l' `prefix_of` l /\ l' <> l) ->
  exists d, memcmp (length l) l l' s = Ok d s /\ (d = false -> l `prefix_of` l').
Proof.
  induction l as [|x l IH]; intros l' s Hp; cbn [memcmp length].
  - exists false. split; [done|]. intros _. apply prefix_nil.
  - destruct l' as [|y l']; [exfalso; apply Hp; split; [apply prefix_nil|done]|].
    destruct (Z.eqb_spec x y) as [<-|Hne]; [|by exists true].
    destruct (IH l' s) as (d & E & Hd).
    + intros [P N]. apply Hp. split; [by apply prefix_cons|congruence].
    + exists d. split; [done|]. intros Ed. apply prefix_cons. auto.
Qed.

Lemma memcmp_images m a l m' c l' s :
  entry_image m a = Some l -> dentry_sane m a -> entry_image m' c = Some l' -> dentry_sane m' c ->
  exists d, memcmp (length l) l l' s = Ok d s /\ (d = false -> l = l').
Proof.
  intros E S E' S'. destruct (memcmp_run l l' s) as (d & Ed & Hd).
  - intros [P N]. apply N. by eapply (image_prefix m a l m' c l').
  - exists d. split; [done|]. intros X%Hd. by eapply (image_prefix m' c l' m a l).
Qed.
End image.

(** Verification and repair of log entries ([nova_verify_entry_csum]).

    An entry and its replica lie at the same place of two log pages that name
    each other as alternate page.  [trusted] says which bytes can be relied on;
    the theorems show that verification returns them and leaves both copies
    equal to them, and that it refuses when neither copy checks. *)

From stdpp Require Import strings.
From S2P Require Import Prelude CInt Crc32c NovaEnv RangeNode Pmem NovaState NovaMonad NovaLib.
From S2P Require Import Balloc BallocSpec BallocAlloc NovaLayout PmemOps LogPage LogPageSpec.
From S2P Require Import MetaCsum.

Local Open Scope nova_scope.

(** What the repair relies on: a failing copy returns a negative code, writing
    never spoils a byte, and writing a whole poison radius makes it readable. *)
Class MediaOk `{MediaLib} : Prop := {
  media_negative :: McsafeNegative;
  poison_mono : forall t t' a, poisoned t a = false -> poisoned (t ++ t') a = false;
  poison_cleared : forall t p l a, p mod POISON_RADIUS = 0 -> Z.of_nat (length l) = POISON_RADIUS ->
    p <= a < p + POISON_RADIUS -> poisoned (t ++ [EvStore p l]) a = false
}.

(** Byte [loc] of page [b], and the word that names its alternate page. *)
Definition addr (s : nova) (b loc : Z) : Z := virt_addr (sbc s) + page_off b + loc.
Definition alter_word (s : nova) (b : Z) : Z := addr s b 4080.

(** The start of the poison radius of [loc]. *)
Definition radius (loc : Z) : Z := loc - loc mod 512.

Record entry_pages (s : nova) (b b' loc : Z) : Prop := {
  pg_virt : 0 < virt_addr (sbc s) /\ virt_addr (sbc s) + initsize (sbc s) < 2 ^ 64;
  pg_align : virt_addr (sbc s) mod 4096 = 0;
  pg_ok : page_ok s b;
  pg_ok' : page_ok s b';
  pg_ne : b <> b';
  pg_loc : 0 <= loc < LOG_BLOCK_TAIL;
  pg_link : load 8 (nvmm s) (alter_word s b) = page_off b';
  pg_link' : load 8 (nvmm s) (alter_word s b') = page_off b
}.

Lemma entry_pages_sym s b b' loc : entry_pages s b b' loc -> entry_pages s b' b loc.
Proof. intros []. by split. Qed.

(** The entry ends before the page's tail, and is no broken directory entry. *)
Definition fits (s : nova) (b loc : Z) : Prop :=
  dentry_sane (nvmm s) (addr s b loc) /\
  forall l, entry_image (nvmm s) (addr s b loc) = Some l -> loc + Z.of_nat (length l) <= LOG_BLOCK_TAIL.

Section spec.
Context `{NovaEnv, MediaOk}.

Lemma pages_in_pmem s b b' loc o n :
  entry_pages s b b' loc -> 0 <= o -> o + Z.of_nat n <= 4096 -> in_pmem s (addr s b o) n = true.
Proof. intros [] Ho Hn. apply in_pmem_spec. unfold addr, page_ok, page_off in *. lia. Qed.

(** Pages do not overlap. *)
Lemma pages_apart s b b' x y :
  b <> b' -> 0 <= x < 4096 -> 0 <= y < 4096 -> addr s b x <> addr s b' y.
Proof. unfold addr, page_off. lia. Qed.

Lemma alter_entry_run s b b' loc :
  metadata_csum <> 0 -> entry_pages s b b' loc ->
  nova_get_addr_off s (addr s b loc) = page_off b + loc /\
  nova_get_block s (page_off b + loc) = addr s b loc /\
  alter_log_entry (page_off b + loc) s = Ok (page_off b' + loc) s /\ page_off b + loc <> 0.
Proof.
  intros Hm P. pose proof P as [[V1 V2] Va [B1 B2] [B1' B2'] _ Hl Lk _]. unfold LOG_BLOCK_TAIL in Hl.
  unfold page_off in *.
  assert (nova_get_block s (b * 4096 + loc) = addr s b loc) as Eb.
  { unfold nova_get_block, addr, page_off. rewrite (proj2 (Z.eqb_neq _ 0)) by lia. lia. }
  split_and!; [|done| |lia].
  - unfold nova_get_addr_off, addr, page_off. rewrite uwrap_small by lia. lia.
  - unfold alter_log_entry. rewrite (proj2 (Z.eqb_neq _ _)) by done. unfold bind, gets. rewrite Eb.
    unfold pload_field. change (sizeof_field nova_inode_page_tail "alter_page") with 8%nat.
    assert (BLOCK_OFF (addr s b loc) = addr s b 0) as ->.
    { pose proof (Z.div_mod (virt_addr (sbc s)) 4096 ltac:(lia)) as Ed. rewrite Va in Ed.
      unfold addr. replace (virt_addr (sbc s) + page_off b + loc)
        with (page_off (virt_addr (sbc s) / 4096 + b) + loc) by (unfold page_off; lia).
      rewrite (proj2 (off_split _ loc ltac:(lia))). unfold page_off. lia. }
    assert (field_addr nova_inode_page_tail (addr s b 0 + LOG_BLOCK_TAIL) "alter_page" = alter_word s b) as ->.
    { unfold field_addr, alter_word, addr. change (offsetof nova_inode_page_tail "alter_page") with 16.
      unfold LOG_BLOCK_TAIL. lia. }
    rewrite pload_run by (eapply pages_in_pmem; [exact P|lia..]). rewrite Lk. unfold ret.
    change (b * 4096) with (page_off b). rewrite (proj1 (off_split b loc ltac:(lia))).
    by rewrite uwrap_small by lia.
Qed.

(** ** Repairs *)
Lemma radius_range loc : 0 <= loc < 4096 -> 0 <= radius loc <= loc /\ loc < radius loc + 512 /\ radius loc + 512 <= 4096.
Proof.
  intros Hl. unfold radius. pose proof (Z.mod_pos_bound loc 512). pose proof (Z.div_mod loc 512).
  assert (loc / 512 < 8) by (apply Z.div_lt_upper_bound; lia). lia.
Qed.

Lemma radius_land b loc : Z.land (page_off b + loc) POISON_MASK = page_off b + radius loc.
Proof.
  unfold POISON_MASK, POISON_RADIUS, radius, page_off. change (512 - 1) with (2 ^ 9 - 1).
  rewrite land_lnot_mask by lia. change (2 ^ 9) with 512.
  replace (b * 4096 + loc) with (loc + (b * 8) * 512) by lia. rewrite Z.mod_add by lia. lia.
Qed.

(** The state after the bytes [l] were stored at [a], with the events [t]. *)
Definition repaired (s s' : nova) (a : Z) (l : list Z) (t : list pm_event) : Prop :=
  mem_upd (store_bytes (nvmm s) a l) s s' /\ trace s' = trace s ++ t.

Lemma unlocked_trace s : trace (unlocked s) = trace s.
Proof. unfold unlocked. by destruct (is_protected s). Qed.
Lemma locked_trace s : trace (locked s) = trace s.
Proof. unfold locked. by destruct (is_protected s). Qed.

Lemma window_repaired s ev a l :
  repaired s (locked (pm_write ev a l (unlocked s))) a l [ev a l].
Proof.
  split.
  - exists (cr0_wp (locked (pm_write ev a l (unlocked s)))), (trace (locked (pm_write ev a l (unlocked s)))).
    unfold locked, pm_write, unlocked. destruct s; cbn. by repeat case_match.
  - by rewrite locked_trace; cbn; rewrite unlocked_trace.
Qed.

Lemma replace_radius_run s dst src :
  0 < virt_addr (sbc s) -> virt_addr (sbc s) + initsize (sbc s) < 2 ^ 64 ->
  in_pmem s dst 512 = true -> in_pmem s src 512 = true -> unreadable (trace s) src 512 = false ->
  let l := load_bytes (nvmm s) src 512 in
  exists s' t, replace_radius dst src s = Ok 0 s' /\ repaired s s' dst l (EvStore dst l :: t).
Proof.
  intros V1 V2 Hd Hs Hr l. pose proof (proj1 (in_pmem_spec _ _ _) Hd) as [D1 D2]. unfold replace_radius.
  rewrite (bind_ok _ _ _ _ _ (memunlock_run s dst POISON_RADIUS ltac:(lia) ltac:(done)
    ltac:(unfold POISON_RADIUS; lia) V1 V2)).
  assert (forall x n, in_pmem (unlocked s) x n = in_pmem s x n) as Ei
    by (intros; unfold in_pmem; by rewrite unlocked_sbc).
  rewrite (bind_ok _ _ _ 0 (pm_write EvStore dst l (unlocked s))).
  2: { unfold mcsafe_pmem. rewrite (bind_ok _ _ _ (trace s) (unlocked s))
         by (unfold gets; by rewrite unlocked_trace). change (Z.to_nat POISON_RADIUS) with 512%nat. rewrite Hr.
       rewrite (bind_ok _ _ _ l (unlocked s)).
       2: { unfold pload_bytes. rewrite Ei, Hs. unfold l. by rewrite unlocked_nvmm. }
       rewrite (bind_ok _ _ _ _ _ (pstore_bytes_run EvStore dst l (unlocked s)
         ltac:(by rewrite Ei; unfold l; rewrite length_load_bytes) (writable_unlocked s))). done. }
  rewrite (bind_ok _ _ _ _ _ (memlock_run _ _ _)).
  rewrite (bind_ok _ _ _ _ _ (nova_flush_buffer_run dst POISON_RADIUS false _ ltac:(done) ltac:(done))).
  cbn [Z.ltb Z.compare]. eexists _, _. split; [reflexivity|].
  destruct (window_repaired s EvStore dst l) as [U T]. split.
  - destruct U as (w & t & ->). by eexists w, _.
  - unfold add_trace. cbn [trace set_trace]. rewrite T, <- app_assoc. reflexivity.
Qed.

Lemma repair_entry_pr_run s b b' loc :
  metadata_csum <> 0 -> entry_pages s b b' loc ->
  unreadable (trace s) (addr s b' (radius loc)) 512 = false ->
  let l := load_bytes (nvmm s) (addr s b' (radius loc)) 512 in
  exists s' t, nova_repair_entry_pr (addr s b loc) s = Ok 0 s' /\
    repaired s s' (addr s b (radius loc)) l (EvStore (addr s b (radius loc)) l :: t).
Proof.
  intros Hm P Hr l. destruct (alter_entry_run s b b' loc Hm P) as (E1 & _ & E3 & _).
  pose proof (pg_virt _ _ _ _ P) as [V1 V2]. pose proof (pg_ok _ _ _ _ P) as [B1 B2].
  pose proof (pg_ok' _ _ _ _ P) as [B1' B2'].
  pose proof (pg_loc _ _ _ _ P) as Hl. unfold LOG_BLOCK_TAIL in Hl.
  pose proof (radius_range loc ltac:(lia)) as (R1 & R2 & R3).
  unfold nova_repair_entry_pr. rewrite (bind_ok _ _ _ (page_off b + loc) s) by (unfold gets; by rewrite E1).
  rewrite (bind_ok _ _ _ _ _ E3). rewrite (proj2 (Z.eqb_neq _ 0)) by (unfold page_off in *; lia).
  assert (forall c, page_ok s c -> gets (fun s => nova_get_block s (Z.land (page_off c + loc) POISON_MASK)) s
    = Ok (addr s c (radius loc)) s) as G.
  { intros c [C1 C2]. unfold gets. rewrite radius_land. unfold nova_get_block.
    rewrite (proj2 (Z.eqb_neq _ 0)) by (unfold page_off in *; lia). unfold addr. f_equal. lia. }
  rewrite (bind_ok _ _ _ _ _ (G b (pg_ok _ _ _ _ P))), (bind_ok _ _ _ _ _ (G b' (pg_ok' _ _ _ _ P))).
  rewrite !(proj2 (Z.eqb_neq _ 0)) by (unfold addr, page_off in *; lia). cbn [orb].
  apply replace_radius_run; [done..| | |done].
  - eapply pages_in_pmem; [exact P|lia..].
  - eapply pages_in_pmem; [exact (entry_pages_sym _ _ _ _ P)|lia..].
Qed.

Lemma repair_entry_run s b b' loc l :
  entry_pages s b b' loc -> loc + Z.of_nat (length l) <= 4096 ->
  exists s', nova_repair_entry (addr s b loc) l (Z.of_nat (length l)) s = Ok 0 s' /\
    repaired s s' (addr s b loc) l [EvNtStore (addr s b loc) l].
Proof.
  intros P Hl. pose proof (pg_virt _ _ _ _ P) as [V1 V2]. pose proof (pg_ok _ _ _ _ P) as [B1 B2].
  pose proof (pg_loc _ _ _ _ P) as Hloc. unfold nova_repair_entry.
  rewrite (bind_ok _ _ _ _ _ (memunlock_run s (addr s b loc) (Z.of_nat (length l))
    ltac:(unfold addr, page_off in *; lia) ltac:(lia) ltac:(unfold addr, page_off in *; lia) V1 V2)).
  rewrite Nat2Z.id, (bind_ok _ _ _ _ _ (buf_read_run (length l) l _ ltac:(lia))), take_ge by lia.
  rewrite (bind_ok _ _ _ 0 (pm_write EvNtStore (addr s b loc) l (unlocked s))).
  2: { unfold memcpy_to_pmem_nocache, bind. rewrite pstore_bytes_run; [done| |apply writable_unlocked].
       unfold in_pmem. rewrite unlocked_sbc. by apply (pages_in_pmem s b b' loc); [|lia..]. }
  rewrite (bind_ok _ _ _ _ _ (memlock_run _ _ _)). eexists. split; [reflexivity|]. apply window_repaired.
Qed.

Lemma repaired_sbc s s' a l t : repaired s s' a l t -> sbc s' = sbc s.
Proof. intros [U _]. apply (mem_upd_sbc _ _ _ U). Qed.
Lemma repaired_nvmm s s' a l t : repaired s s' a l t -> nvmm s' = store_bytes (nvmm s) a l.
Proof. intros [U _]. apply (mem_upd_nvmm _ _ _ U). Qed.

Lemma repaired_pages s s' b b' loc o l t :
  entry_pages s b b' loc -> repaired s s' (addr s b o) l t -> 0 <= o ->
  o + Z.of_nat (length l) <= LOG_BLOCK_TAIL -> entry_pages s' b b' loc.
Proof.
  intros [] R Ho Hl. unfold LOG_BLOCK_TAIL in Hl.
  split; unfold alter_word, addr, page_ok in *; rewrite ?(repaired_sbc _ _ _ _ _ R), ?(repaired_nvmm _ _ _ _ _ R);
    try done; rewrite load_store_bytes_other; try done; unfold addr, page_off in *; lia.
Qed.

(** The bytes of the other page stay. *)
Lemma repaired_other s s' b b' loc o l t x n :
  entry_pages s b b' loc -> repaired s s' (addr s b o) l t -> 0 <= o -> o + Z.of_nat (length l) <= 4096 ->
  0 <= x -> x + Z.of_nat n <= 4096 ->
  load_bytes (nvmm s') (addr s b' x) n = load_bytes (nvmm s) (addr s b' x) n.
Proof.
  intros [] R Ho Hl Hx Hn. rewrite (repaired_nvmm _ _ _ _ _ R).
  apply load_bytes_store_other. unfold addr, page_off in *. lia.
Qed.

(** Both copies of the entry are [l]; nothing outside their pages changed. *)
Record healed (s s' : nova) (b b' loc : Z) (l : list Z) : Prop := {
  hl_upd : mem_upd (nvmm s') s s';
  hl_entry : entry_image (nvmm s') (addr s b loc) = Some l;
  hl_alter : entry_image (nvmm s') (addr s b' loc) = Some l;
  hl_pages : entry_pages s' b b' loc;
  hl_frame : same_outside s [b; b'] (nvmm s) (nvmm s')
}.

Lemma healed_sym s s' b b' loc l : healed s s' b b' loc l -> healed s s' b' b loc l.
Proof.
  intros [U E A P F]. split; auto using entry_pages_sym. intros x Hx. apply F. intros c Hc. apply Hx. set_solver.
Qed.

Lemma healed_refl s b b' loc l :
  entry_pages s b b' loc -> entry_image (nvmm s) (addr s b loc) = Some l ->
  entry_image (nvmm s) (addr s b' loc) = Some l -> healed s s b b' loc l.
Proof. intros P E A. split; auto using mem_upd_refl. by intros x _. Qed.

(** The copy at [b] overwritten with the image at [b']. *)
Lemma repaired_healed s s' b b' loc l t :
  entry_pages s b b' loc -> repaired s s' (addr s b loc) l t ->
  entry_image (nvmm s) (addr s b' loc) = Some l -> fits s b' loc -> healed s s' b b' loc l.
Proof.
  intros P R E [S F]. specialize (F l E). pose proof (pg_loc _ _ _ _ P) as Hl.
  pose proof (repaired_nvmm _ _ _ _ _ R) as En. unfold LOG_BLOCK_TAIL in *. split.
  - rewrite En. apply R.
  - eapply (image_transfer (nvmm s) _ _ _ l E S). rewrite En. apply load_store_bytes_same.
  - eapply (image_transfer (nvmm s) _ _ _ l E S).
    rewrite (repaired_other s s' b b' loc loc l t) by (done || lia).
    by destruct (image_spec _ _ _ E S) as (_ & _ & _ & _ & <- & _).
  - eapply repaired_pages; [exact P|exact R|lia|unfold LOG_BLOCK_TAIL; lia].
  - intros x Hx. rewrite En. apply mget_store_bytes_out.
    specialize (Hx b ltac:(by left)). unfold in_page in Hx. unfold addr. lia.
Qed.

(** ** The verdict *)
Lemma nova_err_run s :
  test_opt s NOVA_MOUNT_ERRORS_PANIC = false ->
  exists s', nova_err s = Ok tt s' /\ nvmm s' = nvmm s /\ test_opt s' NOVA_MOUNT_ERRORS_PANIC = false.
Proof.
  intros Hp. unfold nova_err, nova_error_mng, bind, gets. rewrite Hp.
  destruct (test_opt s NOVA_MOUNT_ERRORS_RO); by eexists.
Qed.

Lemma verify_failed_run s :
  test_opt s NOVA_MOUNT_ERRORS_PANIC = false ->
  exists s', verify_failed s = Ok (false, None) s' /\ nvmm s' = nvmm s.
Proof.
  intros Hp. destruct (nova_err_run s Hp) as (s' & E & N & _). exists s'. split; [|done].
  unfold verify_failed. by rewrite (bind_ok _ _ _ _ _ E).
Qed.

Lemma repair_and_return_run s b b' loc l :
  entry_pages s b b' loc -> entry_image (nvmm s) (addr s b' loc) = Some l -> fits s b' loc ->
  exists s', repair_and_return (addr s b loc) l (Z.of_nat (length l)) s = Ok (true, Some l) s' /\
    healed s s' b b' loc l.
Proof.
  intros P E F. pose proof (proj2 F l E) as Hl. unfold LOG_BLOCK_TAIL in Hl.
  destruct (repair_entry_run s b b' loc l P ltac:(lia)) as (s' & Er & R). exists s'.
  split; [|by eapply repaired_healed]. unfold repair_and_return. rewrite (bind_ok _ _ _ _ _ Er).
  cbn [negb Z.eqb]. rewrite Nat2Z.id, (bind_ok _ _ _ _ _ (buf_read_run (length l) l _ ltac:(lia))).
  by rewrite take_ge by lia.
Qed.

Lemma judge_run s b b' loc le lr :
  test_opt s NOVA_MOUNT_ERRORS_PANIC = false -> entry_pages s b b' loc -> fits s b loc -> fits s b' loc ->
  entry_image (nvmm s) (addr s b loc) = Some le -> entry_image (nvmm s) (addr s b' loc) = Some lr ->
  exists ok out s', judge_copies (addr s b loc) (addr s b' loc) (image_buf le) (image_buf lr) s = Ok (ok, out) s' /\
    if csum_ok le then ok = true /\ out = Some le /\ healed s s' b b' loc le
    else if csum_ok lr then ok = true /\ out = Some lr /\ healed s s' b b' loc lr
    else ok = false /\ out = None /\ nvmm s' = nvmm s.
Proof.
  intros Hp P F F' E E'. destruct (image_spec _ _ _ E (proj1 F)) as (t & _ & Ei & _ & _ & Hl).
  destruct (image_spec _ _ _ E' (proj1 F')) as (t' & _ & Ei' & _ & _ & Hl').
  unfold judge_copies, image_buf, csum_ok. cbn [b_csum b_size b_copy]. rewrite Ei, Ei'. cbn [initialised].
  rewrite (bind_ok _ _ _ (buf_field (entry_struct t) "csum" le) s) by done.
  rewrite (bind_ok _ _ _ (buf_field (entry_struct t') "csum" lr) s) by done.
  rewrite (bind_ok _ _ _ _ _ (buf_read_run 1 le s ltac:(lia))).
  rewrite (bind_ok _ _ _ _ _ (calc_buf_run _ _ _ _ s E (proj1 F) Ei)).
  rewrite (bind_ok _ _ _ _ _ (buf_read_run 1 lr s ltac:(lia))).
  rewrite (bind_ok _ _ _ _ _ (calc_buf_run _ _ _ _ s E' (proj1 F') Ei')).
  rewrite (bind_ok _ _ _ (Z.of_nat (length le)) s) by done.
  rewrite (bind_ok _ _ _ (Z.of_nat (length lr)) s) by done.
  assert (exists s', repair_and_return (addr s b' loc) le (Z.of_nat (length le)) s = Ok (true, Some le) s' /\
    healed s s' b b' loc le) as (s1 & E1 & H1').
  { destruct (repair_and_return_run s b' b loc le (entry_pages_sym _ _ _ _ P) E F) as (s1 & E1 & H1').
    exists s1. split; [done|by apply healed_sym]. }
  destruct (repair_and_return_run s b b' loc lr P E' F') as (s2 & E2 & H2').
  destruct (_ =? image_csum t le), (_ =? image_csum t' lr); cbn [negb andb].
  - destruct (memcmp_images _ _ _ _ _ _ s E (proj1 F) E' (proj1 F')) as (d & Ed & Hd).
    rewrite Nat2Z.id, (bind_ok _ _ _ _ _ Ed). destruct d; [by eexists _, _, s1|].
    rewrite (bind_ok _ _ _ _ _ (buf_read_run (length le) le s ltac:(lia))), take_ge by lia.
    eexists _, _, s. split; [done|]. split_and!; [done..|]. rewrite <- (Hd eq_refl) in E'. by apply healed_refl.
  - by eexists _, _, s1.
  - by eexists _, _, s2.
  - destruct (nova_err_run s Hp) as (s3 & E3 & N3 & Hp3). rewrite (bind_ok _ _ _ _ _ E3).
    destruct (verify_failed_run s3 Hp3) as (s4 & E4 & N4). eexists _, _, s4. split; [done|].
    split_and!; [done..|congruence].
Qed.

(** ** Reading with repair *)
Lemma unreadable_false t a n :
  unreadable t a n = false <-> forall x, a <= x < a + Z.of_nat n -> poisoned t x = false.
Proof.
  unfold unreadable. rewrite <- not_true_iff_false, existsb_exists. split.
  - intros N x Hx. apply not_true_iff_false. intros Hp. apply N. exists x.
    split; [|done]. apply list_elem_of_In, elem_of_seqZ. lia.
  - intros A (x & Hx%list_elem_of_In%elem_of_seqZ & Hp). rewrite A in Hp by lia. done.
Qed.

Lemma unreadable_mono t t' a n : unreadable t a n = false -> unreadable (t ++ t') a n = false.
Proof. rewrite !unreadable_false. intros A x Hx. by apply poison_mono, A. Qed.

Lemma load_bytes_shift m1 a1 m2 a2 n :
  (forall i, 0 <= i < Z.of_nat n -> mget m1 (a1 + i) = mget m2 (a2 + i)) ->
  load_bytes m1 a1 n = load_bytes m2 a2 n.
Proof.
  intros E. apply list_eq. intros i. destruct (decide (i < n)%nat).
  - rewrite !lookup_load_bytes by done. f_equal. apply E. lia.
  - rewrite !lookup_ge_None_2 by (rewrite length_load_bytes; lia). done.
Qed.

Lemma entry_read_image t m a l : entry_read t m a = Some l -> entry_image m a = Some l /\ unreadable t a (length l) = false.
Proof.
  unfold entry_read. destruct (entry_image m a) as [l'|]; [|done]. cbn. destruct (unreadable _ _ _) eqn:E; [done|].
  by intros [= ->].
Qed.

Lemma image_read t m a l : entry_image m a = Some l -> unreadable t a (length l) = false -> entry_read t m a = Some l.
Proof. unfold entry_read. intros -> E. cbn. by rewrite E. Qed.

Lemma entry_copy_run s b b' loc buf :
  entry_pages s b b' loc -> fits s b loc ->
  exists r buf', nova_get_entry_copy (addr s b loc) buf s = Ok (r, buf') s /\
    match entry_read (trace s) (nvmm s) (addr s b loc) with
    | Some l => r = 0 /\ buf' = image_buf l
    | None => r < 0
    end.
Proof.
  intros P [S F]. pose proof (pg_loc _ _ _ _ P) as Hl. unfold LOG_BLOCK_TAIL in *. apply get_entry_copy_run.
  - eapply pages_in_pmem; [exact P|lia..].
  - done.
  - intros l E. specialize (F l E). eapply pages_in_pmem; [exact P|lia..].
Qed.

Lemma copy_or_repair_ok s b b' loc l :
  entry_pages s b b' loc -> fits s b loc -> entry_read (trace s) (nvmm s) (addr s b loc) = Some l ->
  copy_or_repair (addr s b loc) s = Ok (true, image_buf l) s.
Proof.
  intros P F E. destruct (entry_copy_run s b b' loc no_buf P F) as (r & buf & Er & X). rewrite E in X.
  destruct X as [-> ->]. unfold copy_or_repair. by rewrite (bind_ok _ _ _ _ _ Er).
Qed.

(** The entry lies in one poison radius, which is not the one with the tail. *)
Definition in_radius (loc n : Z) : Prop := loc mod 512 + n <= 512 /\ loc < 3584.

Lemma radius_below loc n : 0 <= loc -> in_radius loc n -> radius loc + 512 <= LOG_BLOCK_TAIL /\ loc + n <= radius loc + 512.
Proof.
  intros Hl [Hr Hlt]. unfold radius, LOG_BLOCK_TAIL. pose proof (Z.div_mod loc 512). pose proof (Z.mod_pos_bound loc 512).
  assert (loc / 512 < 7) by (apply Z.div_lt_upper_bound; lia). lia.
Qed.

(** The repaired radius holds the other copy, and can be read. *)
Lemma repaired_radius s s' b b' loc (l : list Z) t :
  entry_pages s b b' loc -> in_radius loc (Z.of_nat (length l)) ->
  let rl := load_bytes (nvmm s) (addr s b' (radius loc)) 512 in
  repaired s s' (addr s b (radius loc)) rl (EvStore (addr s b (radius loc)) rl :: t) ->
  load_bytes (nvmm s') (addr s b loc) (length l) = load_bytes (nvmm s) (addr s b' loc) (length l) /\
  unreadable (trace s') (addr s b loc) (length l) = false.
Proof.
  intros P Ir rl R. pose proof (pg_loc _ _ _ _ P) as Hl. unfold LOG_BLOCK_TAIL in Hl.
  destruct (radius_below loc _ ltac:(lia) Ir) as [R1 R2]. destruct (radius_range loc ltac:(lia)) as (R3 & R4 & _).
  unfold LOG_BLOCK_TAIL in R1. assert (length rl = 512%nat) as Hrl by apply length_load_bytes. split.
  - rewrite (repaired_nvmm _ _ _ _ _ R). apply load_bytes_shift. intros i Hi.
    rewrite mget_store_bytes, decide_True by (rewrite Hrl; unfold addr; lia).
    unfold rl. rewrite lookup_load_bytes by (unfold addr; lia). cbn. f_equal. unfold addr. lia.
  - apply unreadable_false. intros x Hx. destruct R as [_ ->].
    change (EvStore (addr s b (radius loc)) rl :: t) with ([EvStore (addr s b (radius loc)) rl] ++ t).
    rewrite app_assoc. apply poison_mono. apply poison_cleared; unfold POISON_RADIUS.
    + pose proof (pg_align _ _ _ _ P) as Va. pose proof (Z.div_mod (virt_addr (sbc s)) 4096 ltac:(lia)) as Ed.
      rewrite Va in Ed. pose proof (Z.div_mod loc 512 ltac:(lia)).
      unfold addr, radius, page_off. apply Z.mod_divide; [lia|].
      exists (virt_addr (sbc s) / 4096 * 8 + b * 8 + loc / 512). lia.
    + by rewrite Hrl.
    + unfold addr in *. lia.
Qed.

Lemma copy_or_repair_fix s b b' loc l :
  metadata_csum <> 0 -> entry_pages s b b' loc -> fits s b loc -> fits s b' loc ->
  entry_read (trace s) (nvmm s) (addr s b loc) = None ->
  entry_read (trace s) (nvmm s) (addr s b' loc) = Some l ->
  unreadable (trace s) (addr s b' (radius loc)) 512 = false -> in_radius loc (Z.of_nat (length l)) ->
  exists s', copy_or_repair (addr s b loc) s = Ok (true, image_buf l) s' /\ healed s s' b b' loc l /\
    entry_read (trace s') (nvmm s') (addr s b' loc) = Some l.
Proof.
  intros Hm P F F' E E' Hu Ir. destruct (entry_copy_run s b b' loc no_buf P F) as (r & buf & Er & X).
  rewrite E in X. unfold copy_or_repair. rewrite (bind_ok _ _ _ _ _ Er). cbn [fst snd].
  rewrite (proj2 (Z.ltb_lt _ _)) by done.
  destruct (repair_entry_pr_run s b b' loc Hm P Hu) as (s' & t & E1 & R). rewrite (bind_ok _ _ _ _ _ E1).
  cbn [Z.ltb Z.compare]. destruct (repaired_radius s s' b b' loc l t P Ir R) as [Eb Hr].
  pose proof (pg_loc _ _ _ _ P) as Hl. unfold LOG_BLOCK_TAIL in Hl.
  destruct (radius_below loc _ ltac:(lia) Ir) as [R1 R2]. destruct (radius_range loc ltac:(lia)) as (R3 & R4 & _).
  destruct (entry_read_image _ _ _ _ E') as [Ei' Hu']. destruct F' as [S' F'].
  destruct (image_spec _ _ _ Ei' S') as (_ & _ & _ & _ & El & _). rewrite <- El in Eb.
  destruct (image_transfer _ _ _ _ _ Ei' S' Eb) as [Ei S].
  specialize (F' l Ei'). unfold LOG_BLOCK_TAIL in *.
  assert (load_bytes (nvmm s') (addr s b' loc) (length l) = l) as Eb'.
  { rewrite El at 2. eapply repaired_other; [exact P|exact R|lia|rewrite length_load_bytes; lia|lia..]. }
  destruct (image_transfer _ _ _ _ _ Ei' S' Eb') as [Ei2 _].
  assert (entry_pages s' b b' loc) as P'.
  { eapply repaired_pages; [exact P|exact R|lia|rewrite length_load_bytes; unfold LOG_BLOCK_TAIL; lia]. }
  assert (addr s' b loc = addr s b loc) as Ea by (unfold addr; by rewrite (repaired_sbc _ _ _ _ _ R)).
  destruct (entry_copy_run s' b b' loc buf P') as (r2 & buf2 & Er2 & X2).
  { split; rewrite Ea; [done|]. intros l2 E2. rewrite Ei in E2. injection E2 as <-. done. }
  rewrite Ea, (image_read _ _ _ _ Ei Hr) in *. destruct X2 as [-> ->]. rewrite (bind_ok _ _ _ _ _ Er2).
  exists s'. split_and!; [done| |].
  - pose proof (repaired_nvmm _ _ _ _ _ R) as En. split; [|done..|].
    + rewrite En. exact (proj1 R).
    + intros x Hx. rewrite En. apply mget_store_bytes_out. rewrite length_load_bytes.
      specialize (Hx b ltac:(by left)). unfold in_page in Hx. unfold addr. lia.
  - apply image_read; [done|]. destruct R as [_ ->]. by apply unreadable_mono.
Qed.

(** ** Verification *)

(** The bytes that can be relied on: the primary's when its checksum is right,
    and the replica's when the primary's is not, provided the other copy can be
    read or its poison radius can be replaced. *)
Inductive trusted (s : nova) (b b' loc : Z) (l : list Z) : Prop :=
| trust_primary lr :
    entry_read (trace s) (nvmm s) (addr s b loc) = Some l -> csum_ok l = true ->
    entry_read (trace s) (nvmm s) (addr s b' loc) = Some lr -> trusted s b b' loc l
| trust_replica le :
    entry_read (trace s) (nvmm s) (addr s b loc) = Some le -> csum_ok le = false ->
    entry_read (trace s) (nvmm s) (addr s b' loc) = Some l -> csum_ok l = true -> trusted s b b' loc l
| trust_primary_alone :
    entry_read (trace s) (nvmm s) (addr s b loc) = Some l -> csum_ok l = true ->
    entry_read (trace s) (nvmm s) (addr s b' loc) = None ->
    unreadable (trace s) (addr s b (radius loc)) 512 = false ->
    in_radius loc (Z.of_nat (length l)) -> trusted s b b' loc l
| trust_replica_alone :
    entry_read (trace s) (nvmm s) (addr s b loc) = None ->
    entry_read (trace s) (nvmm s) (addr s b' loc) = Some l -> csum_ok l = true ->
    unreadable (trace s) (addr s b' (radius loc)) 512 = false ->
    in_radius loc (Z.of_nat (length l)) -> trusted s b b' loc l.

Lemma addr_upd m s s' b loc : mem_upd m s s' -> addr s' b loc = addr s b loc.
Proof. intros U. unfold addr. by rewrite (mem_upd_sbc _ _ _ U). Qed.

Lemma healed_trans s s1 s2 b b' loc l l' :
  healed s s1 b b' loc l -> healed s1 s2 b b' loc l' -> healed s s2 b b' loc l'.
Proof.
  intros A B. pose proof (hl_upd _ _ _ _ _ _ A) as U. split.
  - eapply mem_upd_trans; [exact U|apply B].
  - rewrite <- (addr_upd _ _ _ _ _ U). apply B.
  - rewrite <- (addr_upd _ _ _ _ _ U). apply B.
  - apply B.
  - intros x Hx. rewrite (hl_frame _ _ _ _ _ _ B); [by apply (hl_frame _ _ _ _ _ _ A)|].
    intros c Hc. unfold in_page. rewrite (mem_upd_sbc _ _ _ U). by apply Hx.
Qed.

(** A healed copy is again a sane entry. *)
Lemma healed_fits s s' b b' loc l :
  healed s s' b b' loc l -> entry_image (nvmm s) (addr s b loc) = Some l -> fits s b loc ->
  fits s' b loc /\ fits s' b' loc.
Proof.
  intros Hh E [S F]. pose proof (hl_upd _ _ _ _ _ _ Hh) as U. pose proof (F l E) as Hl.
  assert (forall c, entry_image (nvmm s') (addr s c loc) = Some l -> fits s' c loc) as X; [|by split; apply X; apply Hh].
  intros c Ec. unfold fits. rewrite (addr_upd _ _ _ _ _ U). split; [|intros l' El; rewrite Ec in El; by injection El as <-].
  destruct (image_spec _ _ _ E S) as (t & Ek & Ei & Hlen & El & Hr). intros Ed.
  assert (exists n, l = load_bytes (nvmm s') (addr s c loc) n) as [n En].
  { unfold entry_image in Ec. rewrite Ed in Ec. cbn in Ec. injection Ec as <-. by eexists. }
  assert (length l = n) as Hn by (by rewrite En, length_load_bytes). subst n.
  pose proof (proj2 (image_transfer _ _ _ _ _ E S (eq_sym En))) as D. by apply D.
Qed.

Lemma verify_steps s s1 s2 b b' loc e r :
  metadata_csum <> 0 -> entry_pages s1 b b' loc -> sbc s1 = sbc s ->
  copy_or_repair (addr s b loc) s = Ok (true, e) s1 ->
  copy_or_repair (addr s b' loc) s1 = Ok (true, r) s2 ->
  nova_verify_entry_csum (addr s b loc) s = judge_copies (addr s b loc) (addr s b' loc) e r s2.
Proof.
  intros Hm P Es E1 E2. assert (forall c, addr s c loc = addr s1 c loc) as Ea by (intros; unfold addr; by rewrite Es).
  destruct (alter_entry_run s1 b b' loc Hm P) as (A1 & _ & A3 & _).
  destruct (alter_entry_run s1 b' b loc Hm (entry_pages_sym _ _ _ _ P)) as (_ & A2 & _ & A4).
  unfold nova_verify_entry_csum. rewrite (proj2 (Z.eqb_neq _ _)) by done.
  rewrite (bind_ok _ _ _ _ _ E1). cbn [fst snd negb].
  rewrite (bind_ok _ _ _ (page_off b + loc) s1) by (unfold gets; by rewrite Ea, A1).
  rewrite (bind_ok _ _ _ _ _ A3), (proj2 (Z.eqb_neq _ 0)) by done.
  rewrite (bind_ok _ _ _ (addr s b' loc) s1) by (unfold gets; by rewrite A2, Ea).
  by rewrite (bind_ok _ _ _ _ _ E2).
Qed.

(** Both copies can be read. *)
Lemma verify_readable s b b' loc le lr :
  metadata_csum <> 0 -> test_opt s NOVA_MOUNT_ERRORS_PANIC = false -> entry_pages s b b' loc ->
  fits s b loc -> fits s b' loc ->
  entry_read (trace s) (nvmm s) (addr s b loc) = Some le ->
  entry_read (trace s) (nvmm s) (addr s b' loc) = Some lr ->
  exists ok out s', nova_verify_entry_csum (addr s b loc) s = Ok (ok, out) s' /\
    if csum_ok le then ok = true /\ out = Some le /\ healed s s' b b' loc le
    else if csum_ok lr then ok = true /\ out = Some lr /\ healed s s' b b' loc lr
    else ok = false /\ out = None /\ nvmm s' = nvmm s.
Proof.
  intros Hm Hp P F F' E E'. destruct (entry_read_image _ _ _ _ E) as [Ei _].
  destruct (entry_read_image _ _ _ _ E') as [Ei' _].
  rewrite (verify_steps s s s b b' loc (image_buf le) (image_buf lr) Hm P eq_refl).
  - by apply judge_run.
  - by apply (copy_or_repair_ok s b b').
  - by apply (copy_or_repair_ok s b' b); [apply entry_pages_sym|..].
Qed.

(** Both copies are [l] after one of them was replaced. *)
Lemma judge_healed s s1 b b' loc l :
  test_opt s NOVA_MOUNT_ERRORS_PANIC = false -> healed s s1 b b' loc l -> fits s1 b loc -> fits s1 b' loc ->
  csum_ok l = true ->
  exists s', judge_copies (addr s b loc) (addr s b' loc) (image_buf l) (image_buf l) s1 = Ok (true, Some l) s' /\
    healed s s' b b' loc l.
Proof.
  intros Hp Hh F F' Hc. pose proof (hl_upd _ _ _ _ _ _ Hh) as U.
  destruct (judge_run s1 b b' loc l l) as (ok & out & s' & E & X); [|apply Hh|done..| | |].
  - unfold test_opt in *. by rewrite (mem_upd_sbc _ _ _ U).
  - rewrite (addr_upd _ _ _ _ _ U). apply Hh.
  - rewrite (addr_upd _ _ _ _ _ U). apply Hh.
  - rewrite Hc in X. destruct X as (-> & -> & H2'). rewrite !(addr_upd _ _ _ _ _ U) in E. exists s'.
    split; [done|]. by eapply healed_trans.
Qed.


(** A poison radius that holds the tail of a log page is replaced with its
    tail: afterwards the page names itself as its alternate page and continues
    with the replica's next page. *)
Theorem repair_entry_pr_clobbers_tail s b b' loc :
  metadata_csum <> 0 -> entry_pages s b b' loc -> 3584 <= loc ->
  unreadable (trace s) (addr s b' (radius loc)) 512 = false ->
  exists s', nova_repair_entry_pr (addr s b loc) s = Ok 0 s' /\
    load 8 (nvmm s') (alter_word s b) = page_off b /\
    load 8 (nvmm s') (log_link s (page_off b)) = load 8 (nvmm s) (log_link s (page_off b')).
Proof.
  intros Hm P Hl Hu. destruct (repair_entry_pr_run s b b' loc Hm P Hu) as (s' & t & E & R). exists s'.
  pose proof (pg_loc _ _ _ _ P) as Hl2. unfold LOG_BLOCK_TAIL in Hl2.
  assert (radius loc = 3584) as Er.
  { unfold radius. pose proof (Z.div_mod loc 512). assert (loc / 512 = 7); [|lia].
    symmetry. apply (Z.div_unique _ _ _ (loc - 3584)); lia. }
  rewrite Er in R. split; [done|].
  assert (forall o, 3584 <= o -> o + 8 <= 4096 ->
    load 8 (nvmm s') (addr s b o) = load 8 (nvmm s) (addr s b' o)) as X.
  { intros o Ho1 Ho2. rewrite (repaired_nvmm _ _ _ _ _ R). unfold load. f_equal.
    apply load_bytes_shift. intros i Hi.
    rewrite mget_store_bytes, decide_True by (rewrite length_load_bytes; unfold addr; lia).
    rewrite lookup_load_bytes by (unfold addr; lia). cbn. f_equal. unfold addr. lia. }
  split; [unfold alter_word; rewrite X by lia; apply P|]. apply (X 4088); lia.
Qed.
End spec.
