(* ===== verification/MetaInodeSpec.v ===== *)
(** Verification and repair of inodes ([nova_check_inode_integrity]), and the
    checksums of log entries that are written.

    An inode and its replica are at the offsets [p] and [q] of the device, in
    different poison radii. *)

From stdpp Require Import strings.
From S2P Require Import Prelude CInt Crc32c NovaEnv RangeNode Pmem NovaState NovaMonad NovaLib.
From S2P Require Import Balloc BallocSpec BallocAlloc NovaLayout PmemOps LogPage LogPageSpec.
From S2P Require Import MetaCsum MetaCsumSpec.

Local Open Scope nova_scope.

Definition at_off (s : nova) (p : Z) : Z := virt_addr (sbc s) + p.

Record inode_pair (s : nova) (p q : Z) : Prop := {
  ip_virt : 0 < virt_addr (sbc s) /\ virt_addr (sbc s) + initsize (sbc s) < 2 ^ 64;
  ip_align : virt_addr (sbc s) mod 4096 = 0;
  ip_slot : p mod NOVA_INODE_SIZE = 0 /\ q mod NOVA_INODE_SIZE = 0;
  ip_p : 0 < p /\ radius p + 512 <= initsize (sbc s);
  ip_q : 0 < q /\ radius q + 512 <= initsize (sbc s);
  ip_apart : radius p <> radius q;
  ip_same : p mod 512 = q mod 512
}.

Lemma inode_pair_sym s p q : inode_pair s p q -> inode_pair s q p.
Proof. intros [? ? [? ?] ? ? ? ?]. by split. Qed.

(** An inode slot is inside one radius. *)
Lemma slot_radius p : p mod NOVA_INODE_SIZE = 0 -> radius p <= p /\ p + 128 <= radius p + 512 /\ radius p mod 512 = 0.
Proof.
  unfold NOVA_INODE_SIZE, radius. intros Hp. pose proof (Z.div_mod p 128 ltac:(lia)) as E. rewrite Hp in E.
  pose proof (Z.div_mod p 512 ltac:(lia)). pose proof (Z.mod_pos_bound p 512 ltac:(lia)).
  split_and!; [lia|lia|]. rewrite Zminus_mod_idemp_r, Z.sub_diag. done.
Qed.

Section spec.
Context `{NovaEnv, MediaOk}.

Definition inode_at (s : nova) (p : Z) : list Z := load_bytes (nvmm s) (at_off s p) 120.
Definition inode_readable (s : nova) (p : Z) : bool := negb (unreadable (trace s) (at_off s p) 120).
Definition radius_readable (s : nova) (p : Z) : bool := negb (unreadable (trace s) (at_off s (radius p)) 512).

(** The checksum in the copy is the one of its first 116 bytes. *)
Definition inode_ok (l : list Z) : bool :=
  buf_field nova_inode "csum" l =? nova_crc32c (u32 (-1)) (take 116 l).

Lemma inode_copy_bad_run s p s' : inode_copy_bad (inode_at s p) s' = Ok (negb (inode_ok (inode_at s p))) s'.
Proof.
  unfold inode_copy_bad. change (Z.to_nat (sizeof nova_inode - 4)) with 116%nat.
  by rewrite (bind_ok _ _ _ _ _ (buf_read_run 116 (inode_at s p) s' ltac:(unfold inode_at; rewrite length_load_bytes; lia))).
Qed.

Lemma slots_apart s p q : inode_pair s p q -> p + 128 <= q \/ q + 128 <= p.
Proof.
  intros [_ _ [Hp Hq] _ _ Ha _]. destruct (slot_radius p Hp) as (P1 & P2 & P3).
  destruct (slot_radius q Hq) as (Q1 & Q2 & Q3).
  pose proof (Z.div_mod (radius p) 512 ltac:(lia)). pose proof (Z.div_mod (radius q) 512 ltac:(lia)). lia.
Qed.

Lemma radii_apart s p q : inode_pair s p q -> radius p + 512 <= radius q \/ radius q + 512 <= radius p.
Proof.
  intros [_ _ [Hp Hq] _ _ Ha _]. destruct (slot_radius p Hp) as (_ & _ & P3).
  destruct (slot_radius q Hq) as (_ & _ & Q3).
  pose proof (Z.div_mod (radius p) 512 ltac:(lia)). pose proof (Z.div_mod (radius q) 512 ltac:(lia)). lia.
Qed.

Lemma radius_addr s p : virt_addr (sbc s) mod 4096 = 0 -> Z.land (at_off s p) POISON_MASK = at_off s (radius p).
Proof.
  intros Va. pose proof (Z.div_mod (virt_addr (sbc s)) 4096 ltac:(lia)) as Ed. rewrite Va in Ed.
  unfold at_off. replace (virt_addr (sbc s)) with (page_off (virt_addr (sbc s) / 4096)) by (unfold page_off; lia).
  by rewrite radius_land.
Qed.

Lemma inode_in_pmem s p q x n :
  inode_pair s p q -> radius p <= x -> x + Z.of_nat n <= radius p + 512 -> in_pmem s (at_off s x) n = true.
Proof.
  intros [_ _ [Hp _] [? ?] _ _ _] Hx Hn. apply in_pmem_spec. unfold at_off, radius in *.
  pose proof (Z.div_mod p 512 ltac:(lia)). assert (0 <= p / 512) by (apply Z.div_pos; lia). lia.
Qed.

Lemma mcsafe_inode_run s p q : inode_pair s p q ->
  mcsafe (at_off s p) 120 s = Ok (if inode_readable s p then (0, inode_at s p) else (mcsafe_error (trace s) (at_off s p) 120, [])) s.
Proof.
  intros I. destruct (slot_radius p (proj1 (ip_slot _ _ _ I))) as (R1 & R2 & _).
  rewrite mcsafe_ok by (eapply inode_in_pmem; [exact I|lia..]).
  unfold inode_readable. by destruct (unreadable _ _ _).
Qed.

Lemma inode_pair_upd s s' a l t p q : repaired s s' a l t -> inode_pair s p q -> inode_pair s' p q.
Proof. intros R []. by split; rewrite ?(repaired_sbc _ _ _ _ _ R). Qed.

(** ** Repairs *)
Lemma repair_inode_pr_run s p q :
  inode_pair s p q -> radius_readable s q = true ->
  let l := load_bytes (nvmm s) (at_off s (radius q)) 512 in
  exists s' t, nova_repair_inode_pr (at_off s p) (at_off s q) s = Ok 0 s' /\
    repaired s s' (at_off s (radius p)) l (EvStore (at_off s (radius p)) l :: t).
Proof.
  intros I Hr l. pose proof I as [[V1 V2] Va [Sp Sq] [P1 P2] [Q1 Q2] _ _].
  destruct (slot_radius p Sp) as (R1 & R2 & R3). destruct (slot_radius q Sq) as (T1 & T2 & T3).
  pose proof (Z.div_mod (radius p) 512 ltac:(lia)). pose proof (Z.div_mod (radius q) 512 ltac:(lia)).
  assert (0 <= radius p /\ 0 <= radius q) as [Hp0 Hq0] by lia.
  unfold nova_repair_inode_pr. rewrite !radius_addr by done.
  rewrite !(proj2 (Z.eqb_neq _ 0)) by (unfold at_off; lia). cbn [orb].
  apply replace_radius_run; [done..| | |by apply negb_true_iff].
  - eapply inode_in_pmem; [exact I|lia..].
  - eapply inode_in_pmem; [exact (inode_pair_sym _ _ _ I)|lia..].
Qed.

Lemma repair_inode_run s p q l :
  inode_pair s p q -> length l = 120%nat ->
  exists s', nova_repair_inode (at_off s p) l s = Ok 0 s' /\
    repaired s s' (at_off s p) l [EvNtStore (at_off s p) l].
Proof.
  intros I Hl. pose proof I as [[V1 V2] Va [Sp Sq] [P1 P2] _ _ _]. destruct (slot_radius p Sp) as (R1 & R2 & _).
  unfold nova_repair_inode, nova_memunlock_inode.
  rewrite (bind_ok _ _ _ _ _ (memunlock_run s (at_off s p) NOVA_INODE_SIZE
    ltac:(unfold at_off; lia) ltac:(done) ltac:(unfold at_off, NOVA_INODE_SIZE; lia) V1 V2)).
  rewrite (bind_ok _ _ _ 0 (pm_write EvNtStore (at_off s p) l (unlocked s))).
  2: { unfold memcpy_to_pmem_nocache, bind. rewrite pstore_bytes_run; [done| |apply writable_unlocked].
       unfold in_pmem. rewrite unlocked_sbc. apply (inode_in_pmem s p q); [done|lia|lia]. }
  unfold nova_memlock_inode. rewrite (bind_ok _ _ _ _ _ (memlock_run _ _ _)).
  eexists. split; [reflexivity|]. apply window_repaired.
Qed.

(** Both copies are [l]; nothing outside their radii changed. *)
Record inode_healed (s s' : nova) (p q : Z) (l : list Z) : Prop := {
  ih_upd : mem_upd (nvmm s') s s';
  ih_p : inode_at s' p = l;
  ih_q : inode_at s' q = l;
  ih_frame : forall x, ~ (at_off s (radius p) <= x < at_off s (radius p) + 512) ->
    ~ (at_off s (radius q) <= x < at_off s (radius q) + 512) -> mget (nvmm s') x = mget (nvmm s) x
}.

Lemma inode_healed_sym s s' p q l : inode_healed s s' p q l -> inode_healed s s' q p l.
Proof. intros []. split; auto. Qed.

Lemma at_off_upd s s' a l t p : repaired s s' a l t -> at_off s' p = at_off s p.
Proof. intros R. unfold at_off. by rewrite (repaired_sbc _ _ _ _ _ R). Qed.

(** A copy overwritten with the other one. *)
Lemma inode_repaired s s' p q t :
  inode_pair s p q -> repaired s s' (at_off s p) (inode_at s q) t -> inode_healed s s' p q (inode_at s q).
Proof.
  intros I R. pose proof (repaired_nvmm _ _ _ _ _ R) as En. pose proof (slots_apart _ _ _ I) as Ha.
  destruct (slot_radius p (proj1 (ip_slot _ _ _ I))) as (R1 & R2 & _).
  assert (length (inode_at s q) = 120%nat) as Hl by apply length_load_bytes. split.
  - rewrite En. apply R.
  - unfold inode_at at 1. rewrite (at_off_upd _ _ _ _ _ _ R), En. rewrite <- Hl at 1. apply load_store_bytes_same.
  - unfold inode_at at 1. rewrite (at_off_upd _ _ _ _ _ _ R), En. apply load_bytes_store_other.
    rewrite Hl. unfold at_off. lia.
  - intros x Hx _. rewrite En. apply mget_store_bytes_out. rewrite Hl. unfold at_off in *. lia.
Qed.

(** A poison radius replaced by the other one. *)
Lemma inode_radius_repaired s s' p q t :
  inode_pair s p q ->
  let l := load_bytes (nvmm s) (at_off s (radius q)) 512 in
  repaired s s' (at_off s (radius p)) l (EvStore (at_off s (radius p)) l :: t) ->
  inode_healed s s' p q (inode_at s q) /\ inode_readable s' p = true.
Proof.
  intros I l R. pose proof I as [_ Va [Sp Sq] _ _ _ Hpq]. pose proof (repaired_nvmm _ _ _ _ _ R) as En.
  pose proof (radii_apart _ _ _ I) as Ha.
  destruct (slot_radius p Sp) as (R1 & R2 & R3). destruct (slot_radius q Sq) as (T1 & T2 & _).
  assert (p - radius p = q - radius q) as Hd by (unfold radius; lia).
  assert (length l = 512%nat) as Hl by apply length_load_bytes. split; [split|].
  - rewrite En. apply R.
  - unfold inode_at. rewrite (at_off_upd _ _ _ _ _ _ R), En. apply load_bytes_shift. intros i Hi.
    rewrite mget_store_bytes, decide_True by (rewrite Hl; unfold at_off; lia).
    unfold l. rewrite lookup_load_bytes by (unfold at_off; lia). cbn. f_equal. unfold at_off. lia.
  - unfold inode_at. rewrite (at_off_upd _ _ _ _ _ _ R), En. apply load_bytes_store_other.
    rewrite Hl. unfold at_off. lia.
  - intros x Hx _. rewrite En. apply mget_store_bytes_out. rewrite Hl. lia.
  - unfold inode_readable. rewrite (at_off_upd _ _ _ _ _ _ R). apply negb_true_iff, unreadable_false. intros x Hx.
    destruct R as [_ ->]. change (EvStore (at_off s (radius p)) l :: t) with ([EvStore (at_off s (radius p)) l] ++ t).
    rewrite app_assoc. apply poison_mono, poison_cleared; unfold POISON_RADIUS; [|by rewrite Hl|unfold at_off in *; lia].
    unfold at_off. rewrite <- Z.add_mod_idemp_r, R3, Z.add_0_r by lia.
    pose proof (Z.div_mod (virt_addr (sbc s)) 4096 ltac:(lia)) as Ed. rewrite Va in Ed.
    apply Z.mod_divide; [lia|]. exists (virt_addr (sbc s) / 4096 * 8). lia.
Qed.

Lemma memcmp_same_length l : forall l' s, length l = length l' ->
  memcmp (length l) l l' s = Ok (bool_decide (l <> l')) s.
Proof.
  induction l as [|x l IH]; intros [|y l'] s Hl; try done. cbn [memcmp length].
  destruct (Z.eqb_spec x y) as [<-|Hne].
  - rewrite IH by (by injection Hl). f_equal. apply bool_decide_ext. split; congruence.
  - unfold ret. f_equal. symmetry. apply bool_decide_eq_true. congruence.
Qed.

(** ** The check *)
Lemma radius_inode_readable s p q : inode_pair s p q -> radius_readable s p = true -> inode_readable s p = true.
Proof.
  intros I. destruct (slot_radius p (proj1 (ip_slot _ _ _ I))) as (R1 & R2 & _).
  unfold radius_readable, inode_readable. rewrite !negb_true_iff, !unreadable_false.
  intros A x Hx. apply A. unfold at_off in *. lia.
Qed.

Lemma copy_inode_ok s p q other b :
  inode_pair s p q -> inode_readable s p = true ->
  copy_inode_or_repair (at_off s p) other b s = Ok (Some (inode_at s p)) s.
Proof.
  intros I Hr. unfold copy_inode_or_repair. change (Z.to_nat (sizeof nova_inode)) with 120%nat.
  rewrite (bind_ok _ _ _ _ _ (mcsafe_inode_run s p q I)), Hr. done.
Qed.

Lemma copy_inode_fix s p q :
  inode_pair s p q -> inode_readable s p = false -> radius_readable s q = true ->
  exists s', copy_inode_or_repair (at_off s p) (at_off s q) true s = Ok (Some (inode_at s q)) s' /\
    inode_healed s s' p q (inode_at s q) /\ inode_pair s' p q /\ inode_readable s' q = true.
Proof.
  intros I Hp Hq. unfold copy_inode_or_repair. change (Z.to_nat (sizeof nova_inode)) with 120%nat.
  rewrite (bind_ok _ _ _ _ _ (mcsafe_inode_run s p q I)), Hp. cbn [fst].
  rewrite (proj2 (Z.ltb_lt _ _) (mcsafe_negative _ _ _)).
  destruct (repair_inode_pr_run s p q I Hq) as (s' & t & E & R). rewrite (bind_ok _ _ _ _ _ E).
  cbn [Z.ltb Z.compare]. destruct (inode_radius_repaired s s' p q t I R) as [Hh Hr].
  pose proof (inode_pair_upd _ _ _ _ _ _ _ R I) as I'. pose proof (mcsafe_inode_run s' p q I') as Em.
  rewrite Hr, (ih_p _ _ _ _ _ Hh), (at_off_upd _ _ _ _ _ _ R) in Em. rewrite (bind_ok _ _ _ _ _ Em).
  exists s'. split_and!; [done..|].
  pose proof (radius_inode_readable s q p (inode_pair_sym _ _ _ I) Hq) as Hq'.
  unfold inode_readable in *. rewrite (at_off_upd _ _ _ _ _ _ R). apply negb_true_iff.
  destruct R as [_ ->]. apply unreadable_mono. by apply negb_true_iff.
Qed.

(** The copy that can be relied on. *)
Inductive inode_trusted (s : nova) (p q : Z) : list Z -> Prop :=
| it_primary : inode_readable s p = true -> inode_ok (inode_at s p) = true ->
    inode_readable s q = true -> inode_trusted s p q (inode_at s p)
| it_replica : inode_readable s p = true -> inode_ok (inode_at s p) = false ->
    inode_readable s q = true -> inode_ok (inode_at s q) = true -> inode_trusted s p q (inode_at s q)
| it_primary_alone : inode_readable s p = true -> inode_ok (inode_at s p) = true ->
    inode_readable s q = false -> radius_readable s p = true -> inode_trusted s p q (inode_at s p)
| it_replica_alone : inode_readable s p = false ->
    radius_readable s q = true -> inode_ok (inode_at s q) = true -> inode_trusted s p q (inode_at s q).


Lemma repair_inode_heals s p q :
  inode_pair s p q ->
  exists s', nova_repair_inode (at_off s p) (inode_at s q) s = Ok 0 s' /\ inode_healed s s' p q (inode_at s q).
Proof.
  intros I. destruct (repair_inode_run s p q (inode_at s q) I (length_load_bytes _ _ _)) as (s' & E & R).
  exists s'. split; [done|]. by eapply inode_repaired.
Qed.

Lemma integrity_failed_run s :
  test_opt s NOVA_MOUNT_ERRORS_PANIC = false ->
  exists s', integrity_failed s = Ok (- EIO, []) s' /\ nvmm s' = nvmm s.
Proof.
  intros Hp. destruct (nova_err_run s Hp) as (s' & E & N & _). exists s'. split; [|done].
  unfold integrity_failed. by rewrite (bind_ok _ _ _ _ _ E).
Qed.

Lemma inode_healed_refl s p q :
  inode_at s q = inode_at s p -> inode_healed s s p q (inode_at s p).
Proof. intros E. split; auto using mem_upd_refl. Qed.

(** The replica can be read. *)
Lemma check_rest_readable s p q :
  test_opt s NOVA_MOUNT_ERRORS_PANIC = false -> inode_pair s p q -> inode_readable s q = true ->
  exists rc out s', check_rest (at_off s p) (at_off s q) true (inode_at s p) s = Ok (rc, out) s' /\
    if inode_ok (inode_at s p) then rc = 0 /\ out = inode_at s p /\ inode_healed s s' p q (inode_at s p)
    else if inode_ok (inode_at s q) then rc = 0 /\ out = inode_at s q /\ inode_healed s s' p q (inode_at s q)
    else rc = - EIO /\ nvmm s' = nvmm s.
Proof.
  intros Hp I Hq. pose proof (inode_pair_sym _ _ _ I) as I'. unfold check_rest.
  rewrite (bind_ok _ _ _ _ _ (inode_copy_bad_run s p s)). rewrite negb_involutive, andb_false_r.
  rewrite (bind_ok _ _ _ _ _ (copy_inode_ok s q p _ _ I' Hq)).
  rewrite (bind_ok _ _ _ _ _ (inode_copy_bad_run s q s)).
  destruct (repair_inode_heals s p q I) as (s1 & E1 & H1').
  destruct (repair_inode_heals s q p I') as (s2 & E2 & H2'). apply inode_healed_sym in H2'.
  destruct (inode_ok (inode_at s p)), (inode_ok (inode_at s q)); cbn [negb andb].
  - change (Z.to_nat (sizeof nova_inode)) with 120%nat.
    assert (length (inode_at s p) = 120%nat) as Hl by apply length_load_bytes.
    assert (length (inode_at s q) = 120%nat) as Hl' by apply length_load_bytes.
    pose proof (memcmp_same_length (inode_at s p) (inode_at s q) s ltac:(congruence)) as Em. rewrite Hl in Em.
    rewrite (bind_ok _ _ _ _ _ Em). case_bool_decide as Hd.
    + rewrite (bind_ok _ _ _ _ _ E2). by eexists _, _, s2.
    + eexists _, _, s. split; [done|]. split_and!; [done..|]. apply inode_healed_refl.
      destruct (decide (inode_at s p = inode_at s q)); [done|]. by destruct Hd.
  - rewrite (bind_ok _ _ _ true s) by done. rewrite (bind_ok _ _ _ _ _ E2). by eexists _, _, s2.
  - rewrite (bind_ok _ _ _ _ _ E1). by eexists _, _, s1.
  - destruct (nova_err_run s Hp) as (s3 & E3 & N3 & Hp3). rewrite (bind_ok _ _ _ _ _ E3).
    destruct (integrity_failed_run s3 Hp3) as (s4 & E4 & N4). eexists _, _, s4. split; [done|].
    split; [done|congruence].
Qed.

Lemma inode_blocks s p q :
  inode_pair s p q -> nova_get_block s p = at_off s p /\ nova_get_block s q = at_off s q.
Proof.
  intros [_ _ _ [P1 _] [Q1 _] _ _]. unfold nova_get_block, at_off.
  by rewrite !(proj2 (Z.eqb_neq _ 0)) by lia.
Qed.

Lemma integrity_steps s s1 p q cr pic :
  metadata_csum <> 0 -> inode_pair s p q ->
  copy_inode_or_repair (at_off s p) (at_off s q) true s = Ok (Some pic) s1 ->
  nova_check_inode_integrity p q cr s = check_rest (at_off s p) (at_off s q) cr pic s1.
Proof.
  intros Hm I E. destruct (inode_blocks s p q I) as [B1 B2]. unfold nova_check_inode_integrity.
  rewrite (bind_ok _ _ _ (at_off s p) s) by (unfold gets; by rewrite B1).
  rewrite (proj2 (Z.eqb_neq _ _)) by done.
  rewrite (bind_ok _ _ _ (at_off s q) s) by (unfold gets; by rewrite B2).
  by rewrite (bind_ok _ _ _ _ _ E).
Qed.

(** After one copy was replaced by the other. *)
Lemma check_rest_healed s s1 p q l :
  test_opt s NOVA_MOUNT_ERRORS_PANIC = false -> inode_pair s1 p q -> inode_healed s s1 p q l ->
  inode_ok l = true -> inode_readable s1 q = true ->
  exists s', check_rest (at_off s p) (at_off s q) true l s1 = Ok (0, l) s' /\ inode_healed s s' p q l.
Proof.
  intros Hp I Hh Hok Hq. pose proof (ih_upd _ _ _ _ _ Hh) as U. pose proof (mem_upd_sbc _ _ _ U) as Es.
  assert (forall x, at_off s1 x = at_off s x) as Ea by (intros; unfold at_off; by rewrite Es).
  destruct (check_rest_readable s1 p q) as (rc & out & s' & E & X); [|done..|].
  { unfold test_opt in *. by rewrite Es. }
  rewrite (ih_p _ _ _ _ _ Hh), Hok in X. rewrite !Ea, (ih_p _ _ _ _ _ Hh) in E.
  destruct X as (-> & -> & [U' P' Q' F']). exists s'. split; [done|]. split; [|done..|].
  - eapply mem_upd_trans; [exact U|exact U'].
  - intros x H1' H2'. rewrite F' by (by rewrite Ea). by apply (ih_frame _ _ _ _ _ Hh).
Qed.

(** The primary checks, the replica cannot be read. *)
Lemma check_rest_fix s p q :
  inode_pair s p q -> inode_ok (inode_at s p) = true -> inode_readable s q = false -> radius_readable s p = true ->
  exists s', check_rest (at_off s p) (at_off s q) true (inode_at s p) s = Ok (0, inode_at s p) s' /\
    inode_healed s s' p q (inode_at s p).
Proof.
  intros I Hok Hq Hr. pose proof (inode_pair_sym _ _ _ I) as I'. unfold check_rest.
  rewrite (bind_ok _ _ _ _ _ (inode_copy_bad_run s p s)), Hok. cbn [negb andb].
  destruct (copy_inode_fix s q p I' Hq Hr) as (s1 & E1 & Hh & _). rewrite (bind_ok _ _ _ _ _ E1).
  rewrite (bind_ok _ _ _ _ _ (inode_copy_bad_run s p s1)), Hok. cbn [negb andb].
  change (Z.to_nat (sizeof nova_inode)) with 120%nat.
  assert (length (inode_at s p) = 120%nat) as Hl by apply length_load_bytes.
  pose proof (memcmp_same_length (inode_at s p) (inode_at s p) s1 eq_refl) as Em. rewrite Hl in Em.
  rewrite (bind_ok _ _ _ _ _ Em), bool_decide_false by (by intros []).
  exists s1. split; [done|]. by apply inode_healed_sym.
Qed.

(** The inode is bad and the replica cannot be read: nothing is tried. *)
Lemma check_rest_lost s p q cr :
  test_opt s NOVA_MOUNT_ERRORS_PANIC = false -> inode_pair s p q ->
  inode_ok (inode_at s p) = false -> inode_readable s q = false ->
  exists s', check_rest (at_off s p) (at_off s q) cr (inode_at s p) s = Ok (- EIO, []) s' /\ nvmm s' = nvmm s.
Proof.
  intros Hp I Op Rq. unfold check_rest. rewrite (bind_ok _ _ _ _ _ (inode_copy_bad_run s p s)), Op. cbn [negb andb].
  rewrite (bind_ok _ _ _ None s); [by apply integrity_failed_run|].
  unfold copy_inode_or_repair. change (Z.to_nat (sizeof nova_inode)) with 120%nat.
  rewrite (bind_ok _ _ _ _ _ (mcsafe_inode_run s q p (inode_pair_sym _ _ _ I))), Rq. cbn [fst].
  by rewrite (proj2 (Z.ltb_lt _ _) (mcsafe_negative _ _ _)).
Qed.

End spec.

(** ** Writing a log entry's checksum and its replica, and verifying it again *)

Section spec.
Context `{NE : NovaEnv, MediaOk} {CO : @CrcEnvOk nova_crc_env}.

(** [l'] is [l] up to the csum field. *)
Definition same_but_csum (t : nova_entry_type) (l l' : list Z) : Prop :=
  length l' = length l /\ take (csum_off t) l' = take (csum_off t) l /\
  drop (csum_off t + 4) l' = drop (csum_off t + 4) l.

Lemma image_csum_range t l : Forall byteZ l -> 0 <= image_csum t l < 2 ^ 32.
Proof.
  intros B. pose proof (Forall_take _ (csum_off t) _ B) as B1. pose proof (Forall_drop _ (csum_off t + 4) _ B) as B2.
  assert (0 <= nova_crc32c NOVA_INIT_CSUM (take (csum_off t) l) < 2 ^ 32)
    by (by apply nova_crc32c_range).
  unfold image_csum. destruct (drop _ l); [done|]. by apply nova_crc32c_range.
Qed.

Lemma csum_off_range t m a l :
  entry_image m a = Some l -> dentry_sane m a -> image_kind l = Some t ->
  (12 <= csum_off t)%nat /\ (csum_off t + 4 <= length l)%nat /\
  offsetof (entry_struct t) "csum" = Z.of_nat (csum_off t) /\ sizeof_field (entry_struct t) "csum" = 4%nat.
Proof.
  intros E S Ei. assert (t <> NEXT_PAGE) as Hn by exact (proj2 (entry_kind_cases _ _ Ei)).
  destruct (decide (t = DIR_LOG)) as [->|Ht].
  - destruct (image_len_dentry _ _ _ E S Ei) as [_ Hl]. change (csum_off DIR_LOG) with 12%nat. split_and!; try done; lia.
  - pose proof (image_len_fixed t _ _ _ E S Ei Ht) as Hl.
    assert ((12 <= csum_off t)%nat /\ Z.of_nat (csum_off t + 4) = sizeof (entry_struct t) /\
      offsetof (entry_struct t) "csum" = Z.of_nat (csum_off t) /\ sizeof_field (entry_struct t) "csum" = 4%nat) as (? & ? & ? & ?).
    { destruct t; try done; split_and!; try done; vm_compute; lia. }
    split_and!; [done|lia|done..].
Qed.

(** The entry after its checksum has been stored. *)
Lemma store_csum_image m a l t :
  mem_bytes m -> entry_image m a = Some l -> dentry_sane m a -> image_kind l = Some t ->
  let m' := store 4 m (a + Z.of_nat (csum_off t)) (image_csum t l) in
  let l' := load_bytes m' a (length l) in
  entry_image m' a = Some l' /\ dentry_sane m' a /\ same_but_csum t l l' /\ csum_ok l' = true.
Proof.
  intros B E S Ei m' l'. destruct (csum_off_range _ _ _ _ E S Ei) as (O1 & O2 & O3 & O4).
  destruct (image_spec _ _ _ E S) as (t' & Ek & Ei' & Hlen & El & Hl). rewrite Ei in Ei'. injection Ei' as <-.
  set (o := csum_off t) in *.
  assert (forall x k, x + Z.of_nat k <= a + Z.of_nat o \/ a + Z.of_nat o + 4 <= x ->
    load_bytes m' x k = load_bytes m x k) as Out.
  { intros x k Hx. apply load_bytes_store_other. rewrite length_le_bytes. lia. }
  assert (forall x k, x + Z.of_nat k <= a + Z.of_nat o -> load k m' x = load k m x) as OutV.
  { intros x k Hx. unfold load. f_equal. apply Out. lia. }
  pose proof (OutV a 1%nat ltac:(lia)) as V1. pose proof (OutV (a + 4) 2%nat ltac:(lia)) as V2.
  assert (entry_size_at m' a t = entry_size_at m a t) as Es by (destruct t; cbn [entry_size_at]; done).
  assert (length l' = length l) as Hl' by apply length_load_bytes.
  assert (same_but_csum t l l') as Sm.
  { pose proof (f_equal (take o) El) as T1. pose proof (f_equal (drop (o + 4)) El) as T2.
    rewrite take_load_bytes in T1 by lia. rewrite drop_load_bytes in T2 by lia.
    split; [done|]. fold o. rewrite T1, T2. unfold l'.
    rewrite take_load_bytes, drop_load_bytes by lia. split; apply Out; lia. }
  assert (image_kind l' = Some t) as Ei'.
  { unfold image_kind, l'. change (take 1 ?x) with (take 1 (drop 0 x)).
    rewrite field_load, Z.add_0_r, V1 by lia. exact Ek. }
  split_and!; [|unfold dentry_sane; by rewrite V1, V2|done|].
  - unfold entry_image. rewrite V1, Ek. cbn [mbind option_bind]. rewrite Es, <- Hlen, Nat2Z.id. done.
  - unfold csum_ok. rewrite Ei'. unfold l' at 1. rewrite buf_field_load by lia.
    rewrite O3, O4. fold o. unfold m' at 1. rewrite load_store_same
      by (apply image_csum_range; rewrite El; by apply load_bytes_byteZ).
    destruct Sm as (_ & S1 & S2). unfold image_csum. rewrite S1, S2. by apply Z.eqb_eq.
Qed.

Lemma entry_type_run s b b' loc :
  entry_pages s b b' loc -> memcpy_mcsafe_rc (addr s b loc) 1 = 0 ->
  nova_get_entry_type (addr s b loc) s = Ok (load 1 (nvmm s) (addr s b loc)) s.
Proof.
  intros P Hr. pose proof (pg_loc _ _ _ _ P) as Hl. unfold LOG_BLOCK_TAIL in Hl.
  unfold nova_get_entry_type, memcpy_mcsafe, bind. change (Z.of_nat 1) with 1. rewrite Hr. cbn [negb Z.eqb].
  unfold pload_bytes. rewrite (pages_in_pmem s b b' loc) by (done || lia). done.
Qed.

(** [s'] is [s] with the device contents [m], and still writable. *)
Definition stored (s s' : nova) (m : mem) : Prop :=
  mem_upd m s s' /\ writable s' = true /\ exists t, trace s' = trace s ++ t.

Lemma update_entry_csum_run s b b' loc l t :
  metadata_csum <> 0 -> entry_pages s b b' loc -> fits s b loc -> mem_bytes (nvmm s) -> writable s = true ->
  memcpy_mcsafe_rc (addr s b loc) 1 = 0 ->
  entry_image (nvmm s) (addr s b loc) = Some l -> image_kind l = Some t ->
  exists s', nova_update_entry_csum (addr s b loc) s = Ok tt s' /\
    stored s s' (store 4 (nvmm s) (addr s b loc + Z.of_nat (csum_off t)) (image_csum t l)).
Proof.
  intros Hm P [S F] B Hw Hr E Ei. pose proof (F l E) as Hl. pose proof (pg_loc _ _ _ _ P) as Hloc.
  unfold LOG_BLOCK_TAIL in *. destruct (csum_off_range _ _ _ _ E S Ei) as (O1 & O2 & O3 & O4).
  destruct (image_spec _ _ _ E S) as (t' & Ek & Ei' & Hlen & El & Hb). rewrite Ei in Ei'. injection Ei' as <-.
  change NOVA_MAX_ENTRY_LEN with 304 in Hb.
  assert (le_val (take 1 l) = load 1 (nvmm s) (addr s b loc)) as Et.
  { rewrite El, take_load_bytes by lia. done. }
  unfold nova_update_entry_csum. rewrite (proj2 (Z.eqb_neq _ _)) by done.
  rewrite (bind_ok _ _ _ _ _ (entry_type_run s b b' loc P Hr)).
  rewrite (bind_ok _ _ _ _ _ (entry_type_run s b b' loc P Hr)).
  assert (in_pmem s (addr s b loc) (length l) = true) as Hin by (eapply pages_in_pmem; [exact P|lia..]).
  pose proof (calc_pmem_run _ _ _ s E S Ei Hin) as Hcalc. rewrite Et in Hcalc.
  rewrite (bind_ok _ _ _ _ _ Hcalc), Ek.
  unfold pstore_field, field_addr. rewrite O3, O4. set (c := addr s b loc + Z.of_nat (csum_off t)).
  rewrite (bind_ok _ _ _ _ _ (pstore_run 4 c (image_csum t l) s
    ltac:(apply (in_pmem_sub s _ _ _ _ Hin); unfold c; lia) Hw)).
  set (s1 := pm_write EvStore c _ s).
  rewrite (bind_ok _ _ _ (Z.of_nat (length l)) s1).
  2: { destruct (decide (t = DIR_LOG)) as [->|Ht]; [|rewrite Hlen; by destruct t].
       unfold pload_field. change (sizeof_field nova_dentry "de_len") with 2%nat.
       assert (field_addr nova_dentry (addr s b loc) "de_len" = addr s b loc + 4) as -> by done.
       rewrite pload_run.
       - rewrite Hlen. cbn [entry_size_at]. f_equal. change (nvmm s1) with (store 4 (nvmm s) c (image_csum DIR_LOG l)).
         apply load_store_other. unfold c. lia.
       - apply (in_pmem_sub s _ _ _ _ Hin); lia. }
  rewrite (proj2 (Z.ltb_lt _ _)) by lia. rewrite nova_flush_buffer_run by lia.
  eexists. split; [reflexivity|]. split_and!; [|exact Hw|].
  - match goal with |- mem_upd _ _ ?x => exists (cr0_wp x), (trace x) end. by destruct s.
  - eexists. unfold add_trace, s1, pm_write. cbn [trace set_trace]. by rewrite <- app_assoc.
Qed.

Lemma update_alter_entry_run s b b' loc l :
  metadata_csum <> 0 -> entry_pages s b b' loc -> fits s b loc -> writable s = true ->
  entry_read (trace s) (nvmm s) (addr s b loc) = Some l ->
  exists s', nova_update_alter_entry (addr s b loc) s = Ok 0 s' /\
    repaired s s' (addr s b' loc) l [EvNtStore (addr s b' loc) l].
Proof.
  intros Hm P F Hw E. destruct (entry_read_image _ _ _ _ E) as [Ei _]. pose proof (proj2 F l Ei) as Hl.
  destruct (alter_entry_run s b b' loc Hm P) as (A1 & _ & A3 & _).
  destruct (alter_entry_run s b' b loc Hm (entry_pages_sym _ _ _ _ P)) as (_ & A2 & _ & A4).
  pose proof (pg_loc _ _ _ _ P) as Hloc. unfold LOG_BLOCK_TAIL in *.
  unfold nova_update_alter_entry. rewrite (proj2 (Z.eqb_neq _ _)) by done.
  rewrite (bind_ok _ _ _ (page_off b + loc) s) by (unfold gets; by rewrite A1).
  rewrite (bind_ok _ _ _ _ _ A3), (proj2 (Z.eqb_neq _ 0)) by done.
  rewrite (bind_ok _ _ _ (addr s b' loc) s) by (unfold gets; by rewrite A2).
  destruct (entry_copy_run s b b' loc no_buf P F) as (r & buf & Er & X). rewrite E in X. destruct X as [-> ->].
  rewrite (bind_ok _ _ _ _ _ Er). cbn [fst snd negb Z.eqb image_buf b_size b_copy initialised].
  rewrite (bind_ok _ _ _ (Z.of_nat (length l)) s) by done. rewrite Nat2Z.id.
  rewrite (bind_ok _ _ _ _ _ (buf_read_run (length l) l s ltac:(lia))), take_ge by lia.
  unfold memcpy_to_pmem_nocache.
  rewrite (bind_ok _ _ _ _ _ (pstore_bytes_run EvNtStore (addr s b' loc) l s
    ltac:(eapply pages_in_pmem; [exact (entry_pages_sym _ _ _ _ P)|lia|lia]) Hw)).
  eexists. split; [reflexivity|]. split; [|done].
  match goal with |- mem_upd _ _ ?x => exists (cr0_wp x), (trace x) end. by destruct s.
Qed.

(** Both steps: afterwards both copies are the entry with its checksum, and
    nothing but the bytes of the two copies has changed. *)
Lemma csum_and_alter_run s b b' loc l t :
  metadata_csum <> 0 -> entry_pages s b b' loc ->
  fits s b loc -> mem_bytes (nvmm s) -> writable s = true -> memcpy_mcsafe_rc (addr s b loc) 1 = 0 ->
  entry_image (nvmm s) (addr s b loc) = Some l -> image_kind l = Some t ->
  unreadable (trace s) (addr s b loc) (length l) = false ->
  exists l' s1 s2, nova_update_entry_csum (addr s b loc) s = Ok tt s1 /\
    nova_update_alter_entry (addr s b loc) s1 = Ok 0 s2 /\
    same_but_csum t l l' /\ csum_ok l' = true /\ healed s s2 b b' loc l' /\
    fits s2 b loc /\ fits s2 b' loc /\ (exists tr, trace s2 = trace s ++ tr) /\
    forall x, ~ (addr s b loc <= x < addr s b loc + Z.of_nat (length l)) ->
      ~ (addr s b' loc <= x < addr s b' loc + Z.of_nat (length l)) -> mget (nvmm s2) x = mget (nvmm s) x.
Proof.
  intros Hm P F B Hw Hr E Ei U1. pose proof F as [S Fl]. pose proof (Fl l E) as Hl.
  pose proof (pg_loc _ _ _ _ P) as Hloc. unfold LOG_BLOCK_TAIL in *.
  destruct (update_entry_csum_run s b b' loc l t Hm P F B Hw Hr E Ei) as (s1 & E1 & (Up1 & Hw1 & tr & T1)).
  destruct (store_csum_image _ _ _ _ B E S Ei) as (Im & Sn & Sm & Ok').
  set (m1 := store 4 (nvmm s) _ _) in *. set (l' := load_bytes m1 _ _) in *.
  pose proof (mem_upd_nvmm _ _ _ Up1) as N1. pose proof (proj1 Sm) as Hlen.
  pose proof (csum_off_range _ _ _ _ E S Ei) as (O1 & O2 & _).
  assert (repaired s s1 (addr s b (loc + Z.of_nat (csum_off t))) (le_bytes 4 (image_csum t l)) tr) as R1.
  { split; [|done]. unfold addr in *. rewrite Z.add_assoc. exact Up1. }
  assert (entry_pages s1 b b' loc) as P1.
  { eapply repaired_pages; [exact P|exact R1|lia|rewrite length_le_bytes; unfold LOG_BLOCK_TAIL; lia]. }
  assert (forall c, addr s1 c loc = addr s c loc) as Ea by (intros; apply (addr_upd _ _ _ _ _ Up1)).
  assert (fits s1 b loc) as F1.
  { unfold fits. rewrite Ea, N1. split; [done|]. intros x Hx. rewrite Im in Hx. injection Hx as <-.
    unfold LOG_BLOCK_TAIL. lia. }
  assert (entry_read (trace s1) (nvmm s1) (addr s1 b loc) = Some l') as Er1.
  { rewrite Ea, N1. apply image_read; [done|]. rewrite T1, Hlen. by apply unreadable_mono. }
  destruct (update_alter_entry_run s1 b b' loc l' Hm P1 F1 Hw1 Er1) as (s2 & E2 & R2).
  pose proof (entry_read_image _ _ _ _ Er1) as [Im1 _].
  pose proof (repaired_healed s1 s2 b' b loc l' _ (entry_pages_sym _ _ _ _ P1) R2 Im1 F1) as Hh2.
  apply healed_sym in Hh2. pose proof (hl_upd _ _ _ _ _ _ Hh2) as Up2.
  assert (forall x, ~ (addr s b loc <= x < addr s b loc + Z.of_nat (length l)) ->
    ~ (addr s b' loc <= x < addr s b' loc + Z.of_nat (length l)) -> mget (nvmm s2) x = mget (nvmm s) x) as Fr.
  { intros x Hx1 Hx2. rewrite (repaired_nvmm _ _ _ _ _ R2), N1, Ea. rewrite mget_store_bytes_out by (rewrite Hlen; lia).
    unfold m1. apply mget_store_out. unfold addr in *. lia. }
  rewrite Ea in E2. exists l', s1, s2. destruct (healed_fits s1 s2 b b' loc l' Hh2 Im1 F1) as [F2 F2'].
  split_and!; [done|done|done|done| |done|done| |done].
  - split; [eapply mem_upd_trans; [exact Up1|exact Up2]|rewrite <- Ea; apply Hh2|rewrite <- Ea; apply Hh2|apply Hh2|].
    intros x Hx. apply Fr; intros Hin.
    + apply (Hx b ltac:(by left)). unfold in_page, addr in *. lia.
    + apply (Hx b' ltac:(by right; left)). unfold in_page, addr in *. lia.
  - destruct R2 as [_ ->]. rewrite T1, <- app_assoc. by eexists.
Qed.

(** writing an entry's checksum and then its replica
    succeeds, changes nothing of the entry but its csum field, leaves both
    copies equal with a right checksum, and a later verification accepts the
    entry and returns exactly these bytes. *)
Theorem entry_csum_roundtrip s b b' loc l t :
  metadata_csum <> 0 -> test_opt s NOVA_MOUNT_ERRORS_PANIC = false -> entry_pages s b b' loc ->
  fits s b loc -> mem_bytes (nvmm s) -> writable s = true -> memcpy_mcsafe_rc (addr s b loc) 1 = 0 ->
  entry_image (nvmm s) (addr s b loc) = Some l -> image_kind l = Some t ->
  unreadable (trace s) (addr s b loc) (length l) = false ->
  unreadable (trace s) (addr s b' loc) (length l) = false ->
  exists l' s', (nova_update_entry_csum (addr s b loc) ;;; nova_update_alter_entry (addr s b loc)) s = Ok 0 s' /\
    same_but_csum t l l' /\ csum_ok l' = true /\ healed s s' b b' loc l' /\
    exists s'', nova_verify_entry_csum (addr s b loc) s' = Ok (true, Some l') s'' /\ healed s' s'' b b' loc l'.
Proof.
  intros Hm Hp P F B Hw Hr E Ei U1 U2.
  destruct (csum_and_alter_run s b b' loc l t Hm P F B Hw Hr E Ei U1) as
    (l' & s1 & s2 & E1 & E2 & Sm & Ok' & Hh & F2 & F2' & (tr & T) & _).
  exists l', s2. split_and!; [by rewrite (bind_ok _ _ _ _ _ E1)|done..|].
  pose proof (hl_upd _ _ _ _ _ _ Hh) as U. pose proof (proj1 Sm) as Hlen.
  destruct (verify_readable s2 b b' loc l' l' Hm) as (ok & out & s3 & E3 & X); [|apply Hh|done..| | |].
  - unfold test_opt in *. by rewrite (mem_upd_sbc _ _ _ U).
  - rewrite (addr_upd _ _ _ _ _ U). apply image_read; [apply Hh|]. rewrite T, Hlen. by apply unreadable_mono.
  - rewrite (addr_upd _ _ _ _ _ U). apply image_read; [apply Hh|]. rewrite T, Hlen. by apply unreadable_mono.
  - rewrite Ok' in X. destruct X as (-> & -> & Hh3). rewrite (addr_upd _ _ _ _ _ U) in E3. by exists s3.
Qed.
End spec.
