(* ===== verification/LogEntry.v ===== *)
(** Log entries (log.c): marking them invalid or reassigned, filling them in,
    and updating them in place.

    An entry is named by its address in NVMM.  [vfs_inode] and [iattr] are the
    fields of struct inode and struct iattr the code reads; the data an entry is
    copied from is the list of its bytes.
    Each definition translates the C function of the same name. *)

From stdpp Require Import strings.
From S2P Require Import Prelude CInt Crc32c NovaEnv RangeNode Pmem NovaState NovaMonad NovaLib.
From S2P Require Import Balloc NovaLayout LogPage Journal MetaCsum.

Local Open Scope nova_scope.
Local Open Scope string_scope.
Local Open Scope list_scope.
Local Open Scope Z_scope.

(** linux/fs.h *)
Definition ATTR_SIZE : Z := 8.
Definition attr_mask : Z := 127.

Record vfs_inode := mkInode {
  vi_mode : Z; vi_uid : Z; vi_gid : Z; vi_atime : Z; vi_mtime : Z; vi_ctime : Z;
  vi_size : Z; vi_nlink : Z; vi_generation : Z; vi_blocks : Z
}.
Record iattr := mkAttr { ia_valid : Z; ia_size : Z }.

(** The fields of struct nova_inode_info_header used here. *)
Record sih_log := mkSihLog {
  last_setattr : Z; last_link_change : Z; sih_trans_id : Z; sih_i_flags : Z
}.

(** struct nova_log_entry_info; [ei_data] is what [data] points to: an entry,
    or the name of a directory entry. *)
Record nova_log_entry_info := mkEntryInfo {
  ei_type : nova_entry_type;
  ei_attr : iattr;
  ei_data : list Z;
  ei_epoch_id : Z;
  ei_trans_id : Z;
  ei_ino : Z;
  ei_time : Z;
  ei_file_size : Z;
  ei_link_change : Z;
  ei_inplace : bool
}.

Section log_entry.
Context `{NovaEnv, MediaLib}.

(** ** Invalidation *)

(** The [switch]: marks the entry and says whether it is invalid now. *)
Definition mark_entry (entry : Z) (type : nova_entry_type) (reassign : bool) (num_free : Z) : M bool :=
  match type with
  | FILE_WRITE =>
      when reassign (pstore_field nova_file_write_entry entry "reassigned" 1) ;;;
      (if negb (num_free =? 0) then
         let! n := pload_field nova_file_write_entry entry "invalid_pages" in
         pstore_field nova_file_write_entry entry "invalid_pages" (u32 (n + num_free))
       else ret tt) ;;;
      let! invalid := pload_field nova_file_write_entry entry "invalid_pages" in
      let! num := pload_field nova_file_write_entry entry "num_pages" in
      ret (invalid =? num)
  | DIR_LOG =>
      if reassign then pstore_field nova_dentry entry "reassigned" 1 ;;; ret false
      else pstore_field nova_dentry entry "invalid" 1 ;;; ret true
  | SET_ATTR => pstore_field nova_setattr_logentry entry "invalid" 1 ;;; ret true
  | LINK_CHANGE => pstore_field nova_link_change_entry entry "invalid" 1 ;;; ret true
  | MMAP_WRITE => pstore_field nova_mmap_entry entry "invalid" 1 ;;; ret true
  | SNAPSHOT_INFO => pstore_field nova_snapshot_info_entry entry "deleted" 1 ;;; ret true
  | NEXT_PAGE => ret false
  end.

Definition nova_execute_invalidate_reassign_logentry (entry : Z) (type : nova_entry_type)
    (reassign : bool) (num_free : Z) : M Z :=
  let! invalid := mark_entry entry type reassign num_free in
  (if invalid : bool then
     let! addr := gets (fun s => nova_get_addr_off s entry) in
     nova_inc_page_invalid_entries addr
   else ret tt) ;;;
  nova_update_entry_csum entry ;;; ret 0.

Definition nova_invalidate_reassign_logentry (entry : Z) (type : nova_entry_type)
    (reassign : bool) (num_free : Z) : M Z :=
  nova_memunlock_range entry CACHELINE_SIZE ;;;
  let! _ := nova_execute_invalidate_reassign_logentry entry type reassign num_free in
  let! _ := nova_update_alter_entry entry in
  nova_memlock_range entry CACHELINE_SIZE ;;; ret 0.

Definition nova_invalidate_logentry (entry : Z) (type : nova_entry_type) (num_free : Z) : M Z :=
  nova_invalidate_reassign_logentry entry type false num_free.
Definition nova_reassign_logentry (entry : Z) (type : nova_entry_type) : M Z :=
  nova_invalidate_reassign_logentry entry type true 0.

(** [entryc]: the entry itself, or its verified copy; [None] is -EIO. *)
Definition entry_copy (st : struct) (entry : Z) : M (option (list Z)) :=
  if metadata_csum =? 0 then
    let! l := pload_bytes (Z.to_nat (sizeof st)) entry in ret (Some l)
  else
    let! r := nova_verify_entry_csum entry in
    if negb r.1 then ret None else let! l := initialised r.2 in ret (Some l).

Definition nova_invalidate_write_entry (entry : Z) (reassign : bool) (num_free : Z) : M Z :=
  if entry =? 0 then ret 0
  else
    let! c := entry_copy nova_file_write_entry entry in
    match c with
    | None => ret (- EIO)
    | Some entryc =>
        if (num_free =? 0) && (buf_field nova_file_write_entry "reassigned" entryc =? 1) then ret 0
        else nova_invalidate_reassign_logentry entry FILE_WRITE reassign num_free
    end.

(** ** Filling in an entry *)
Definition nova_update_setattr_entry (inode : vfs_inode) (entry : Z) (info : nova_log_entry_info) : M unit :=
  let set f v := pstore_field nova_setattr_logentry entry f v in
  let valid := ia_valid (ei_attr info) in
  set "entry_type" (entry_type_val SET_ATTR) ;;;
  set "attr" (Z.land valid attr_mask) ;;;
  set "mode" (vi_mode inode) ;;;
  set "uid" (vi_uid inode) ;;;
  set "gid" (vi_gid inode) ;;;
  set "atime" (u32 (vi_atime inode)) ;;;
  set "ctime" (u32 (vi_ctime inode)) ;;;
  set "mtime" (u32 (vi_mtime inode)) ;;;
  set "epoch_id" (ei_epoch_id info) ;;;
  set "trans_id" (ei_trans_id info) ;;;
  set "invalid" 0 ;;;
  set "size" (u64 (if negb (Z.land valid ATTR_SIZE =? 0) then ia_size (ei_attr info) else vi_size inode)) ;;;
  nova_update_entry_csum entry.

Definition nova_update_link_change_entry (i_flags : Z) (inode : vfs_inode) (entry : Z)
    (info : nova_log_entry_info) : M unit :=
  let set f v := pstore_field nova_link_change_entry entry f v in
  set "entry_type" (entry_type_val LINK_CHANGE) ;;;
  set "epoch_id" (ei_epoch_id info) ;;;
  set "trans_id" (ei_trans_id info) ;;;
  set "invalid" 0 ;;;
  set "links" (uwrap 16 (vi_nlink inode)) ;;;
  set "ctime" (u32 (vi_ctime inode)) ;;;
  set "flags" (u32 i_flags) ;;;
  set "generation" (u32 (vi_generation inode)) ;;;
  nova_update_entry_csum entry.

Definition nova_update_write_entry (entry : Z) (info : nova_log_entry_info) : M Z :=
  let set f v := pstore_field nova_file_write_entry entry f v in
  set "epoch_id" (ei_epoch_id info) ;;;
  set "trans_id" (ei_trans_id info) ;;;
  set "mtime" (u32 (ei_time info)) ;;;
  set "size" (u64 (ei_file_size info)) ;;;
  set "updating" 0 ;;;
  nova_update_entry_csum entry ;;; ret 0.

(** [links_count] is an unsigned short. *)
Definition new_links_count (i_nlink link_change : Z) : Z :=
  let links_count := uwrap 16 i_nlink in
  if (links_count =? 0) && (link_change =? -1) then 0 else uwrap 16 (links_count + link_change).

Definition nova_update_old_dentry (dir : vfs_inode) (dentry : Z) (info : nova_log_entry_info) : M Z :=
  let set f v := pstore_field nova_dentry dentry f v in
  set "epoch_id" (ei_epoch_id info) ;;;
  set "trans_id" (ei_trans_id info) ;;;
  set "ino" 0 ;;;
  set "invalid" 1 ;;;
  set "mtime" (u32 (vi_mtime dir)) ;;;
  set "links_count" (new_links_count (vi_nlink dir) (ei_link_change info)) ;;;
  let! addr := gets (fun s => nova_get_addr_off s dentry) in
  nova_inc_page_invalid_entries addr ;;;
  nova_update_entry_csum dentry ;;; ret 0.

Definition nova_update_new_dentry (dir : vfs_inode) (entry : Z) (info : nova_log_entry_info) : M Z :=
  let set f v := pstore_field nova_dentry entry f v in
  let name := ei_data info in
  set "entry_type" (entry_type_val DIR_LOG) ;;;
  set "epoch_id" (ei_epoch_id info) ;;;
  set "trans_id" (ei_trans_id info) ;;;
  set "ino" (ei_ino info) ;;;
  set "name_len" (uwrap 8 (Z.of_nat (length name))) ;;;
  let! _ := memcpy_to_pmem_nocache (field_addr nova_dentry entry "name") name in
  pstore 1 (field_addr nova_dentry entry "name" + Z.of_nat (length name)) 0 ;;;
  set "mtime" (u32 (vi_mtime dir)) ;;;
  set "links_count" (new_links_count (vi_nlink dir) (ei_link_change info)) ;;;
  set "de_len" (uwrap 16 (ei_file_size info)) ;;;
  nova_update_entry_csum entry ;;; ret 0.

(** [memcpy_to_pmem_nocache(entry, entry_info->data, sizeof(st))] *)
Definition copy_entry_data (st : struct) (entry : Z) (info : nova_log_entry_info) : M Z :=
  let! l := buf_read (Z.to_nat (sizeof st)) (ei_data info) in
  memcpy_to_pmem_nocache entry l.

Definition nova_update_log_entry (i_flags : Z) (inode : vfs_inode) (entry : Z) (info : nova_log_entry_info) : M Z :=
  let! _ := (match ei_type info with
    | FILE_WRITE =>
        if ei_inplace info then nova_update_write_entry entry info
        else copy_entry_data nova_file_write_entry entry info
    | DIR_LOG =>
        if ei_inplace info then nova_update_old_dentry inode entry info
        else nova_update_new_dentry inode entry info
    | SET_ATTR => nova_update_setattr_entry inode entry info ;;; ret 0
    | LINK_CHANGE => nova_update_link_change_entry i_flags inode entry info ;;; ret 0
    | MMAP_WRITE => copy_entry_data nova_mmap_entry entry info
    | SNAPSHOT_INFO => copy_entry_data nova_snapshot_info_entry entry info
    | NEXT_PAGE => ret 0
    end) in
  ret 0.

(** ** Updates in place *)
Definition nova_inplace_update_log_entry (i_flags : Z) (inode : vfs_inode) (entry : Z)
    (info : nova_log_entry_info) : M Z :=
  let size := nova_get_log_entry_size (ei_type info) in
  if negb (metadata_csum =? 0) then
    nova_memunlock_range entry size ;;;
    let! _ := nova_update_log_entry i_flags inode entry info in
    let! _ := nova_update_alter_entry entry in
    nova_memlock_range entry size ;;; ret 0
  else
    let! cpu := gets nova_get_cpuid in
    nova_memunlock_journal ;;;
    let! journal_tail := nova_create_logentry_transaction entry (ei_type info) cpu in
    let! _ := nova_update_log_entry i_flags inode entry info in
    PERSISTENT_BARRIER ;;;
    nova_commit_lite_transaction journal_tail cpu ;;;
    nova_memlock_journal ;;; ret 0.

Definition nova_inplace_update_write_entry (i_flags : Z) (inode : vfs_inode) (entry : Z)
    (info : nova_log_entry_info) : M Z :=
  nova_inplace_update_log_entry i_flags inode entry info.

Definition nova_set_write_entry_updating (entry : Z) (set : bool) : M Z :=
  nova_memunlock_range entry (sizeof nova_file_write_entry) ;;;
  pstore_field nova_file_write_entry entry "updating" (if set then 1 else 0) ;;;
  nova_update_entry_csum entry ;;;
  let! _ := nova_update_alter_entry entry in
  nova_memlock_range entry (sizeof nova_file_write_entry) ;;; ret 0.

(** The uninitialised fields of [entry_info] are not read for these types. *)
Definition setattr_info (attr : iattr) (epoch_id trans_id : Z) : nova_log_entry_info :=
  mkEntryInfo SET_ATTR attr [] epoch_id trans_id 0 0 0 0 false.
Definition linkc_info (epoch_id trans_id : Z) : nova_log_entry_info :=
  mkEntryInfo LINK_CHANGE (mkAttr 0 0) [] epoch_id trans_id 0 0 0 0 false.

Definition nova_can_inplace_update_setattr (sih : sih_log) (epoch_id : Z) : M bool :=
  if last_setattr sih =? 0 then ret false
  else
    let! entry := gets (fun s => nova_get_block s (last_setattr sih)) in
    let! attr := pload_field nova_setattr_logentry entry "attr" in
    if negb (Z.land attr ATTR_SIZE =? 0) then ret false
    else
      let! e := pload_field nova_setattr_logentry entry "epoch_id" in
      ret (e =? epoch_id).

Definition nova_inplace_update_setattr_entry (inode : vfs_inode) (sih : sih_log) (attr : iattr) (epoch_id : Z) : M Z :=
  let! entry := gets (fun s => nova_get_block s (last_setattr sih)) in
  nova_inplace_update_log_entry (sih_i_flags sih) inode entry (setattr_info attr epoch_id (sih_trans_id sih)).

Definition nova_inplace_update_lcentry (inode : vfs_inode) (sih : sih_log) (epoch_id : Z) : M Z :=
  let! entry := gets (fun s => nova_get_block s (last_link_change sih)) in
  nova_inplace_update_log_entry (sih_i_flags sih) inode entry (linkc_info epoch_id (sih_trans_id sih)).

(** ** Old entries *)
Definition nova_invalidate_setattr_entry (last : Z) : M Z :=
  let! old_entry := gets (fun s => nova_get_block s last) in
  let! c := entry_copy nova_setattr_logentry old_entry in
  match c with
  | None => ret (- EIO)
  | Some old_entryc =>
      let! freeable := gets (fun s => old_entry_freeable s (buf_field nova_setattr_logentry "epoch_id" old_entryc)) in
      if negb freeable || negb (Z.land (buf_field nova_setattr_logentry "attr" old_entryc) ATTR_SIZE =? 0)
      then ret 0
      else nova_invalidate_logentry old_entry SET_ATTR 0
  end.

Definition nova_invalidate_link_change_entry (old_link_change : Z) : M Z :=
  if old_link_change =? 0 then ret 0
  else
    let! old_entry := gets (fun s => nova_get_block s old_link_change) in
    let! c := entry_copy nova_link_change_entry old_entry in
    match c with
    | None => ret (- EIO)
    | Some old_entryc =>
        let! freeable := gets (fun s => old_entry_freeable s (buf_field nova_link_change_entry "epoch_id" old_entryc)) in
        if negb freeable then ret 0 else nova_invalidate_logentry old_entry LINK_CHANGE 0
    end.
End log_entry.
