(* ===== verification/LogEntrySpec.v ===== *)
(** What invalidating and reassigning a log entry does.

    [marked_image] is the entry's bytes with the marks set, [now_invalid] the
    condition on which its page counts one more invalid entry.  With metadata
    checksums on, both copies end up equal with a right checksum. *)

From stdpp Require Import strings.
From S2P Require Import Prelude CInt Crc32c NovaEnv RangeNode Pmem NovaState NovaMonad NovaLib.
From S2P Require Import Balloc BallocSpec BallocAlloc NovaLayout PmemOps LogPage LogPageSpec.
From S2P Require Import MetaCsum MetaCsumSpec MetaInodeSpec LogEntry.

Local Open Scope nova_scope.

(** [l] with the bytes [x] at [o]. *)
Definition splice (o : nat) (x l : list Z) : list Z := take o l ++ x ++ drop (o + length x) l.

Definition set_field (st : struct) (f : string) (v : Z) (l : list Z) : list Z :=
  splice (Z.to_nat (offsetof st f)) (le_bytes (sizeof_field st f) v) l.

Definition marked_image (t : nova_entry_type) (reassign : bool) (num_free : Z) (l : list Z) : list Z :=
  match t with
  | FILE_WRITE =>
      let l := if reassign then set_field nova_file_write_entry "reassigned" 1 l else l in
      if num_free =? 0 then l
      else set_field nova_file_write_entry "invalid_pages"
             (u32 (buf_field nova_file_write_entry "invalid_pages" l + num_free)) l
  | DIR_LOG => set_field nova_dentry (if reassign then "reassigned" else "invalid") 1 l
  | SET_ATTR => set_field nova_setattr_logentry "invalid" 1 l
  | LINK_CHANGE => set_field nova_link_change_entry "invalid" 1 l
  | MMAP_WRITE => set_field nova_mmap_entry "invalid" 1 l
  | SNAPSHOT_INFO => set_field nova_snapshot_info_entry "deleted" 1 l
  | NEXT_PAGE => l
  end.

Definition now_invalid (t : nova_entry_type) (reassign : bool) (num_free : Z) (l : list Z) : bool :=
  match t with
  | FILE_WRITE =>
      let l := marked_image FILE_WRITE reassign num_free l in
      buf_field nova_file_write_entry "invalid_pages" l =? buf_field nova_file_write_entry "num_pages" l
  | DIR_LOG => negb reassign
  | NEXT_PAGE => false
  | _ => true
  end.

(** The bytes an entry of type [t] has at least. *)
Definition hdr_len (t : nova_entry_type) : Z :=
  match t with DIR_LOG => NOVA_DENTRY_HEADER_LEN | _ => sizeof (entry_struct t) end.

Lemma image_hdr m a l t :
  entry_image m a = Some l -> dentry_sane m a -> image_kind l = Some t -> hdr_len t <= Z.of_nat (length l).
Proof.
  intros E S Ei. destruct (image_spec _ _ _ E S) as (t' & Ek & Ei' & -> & _). rewrite Ei in Ei'. injection Ei' as <-.
  destruct t; cbn [entry_size_at hdr_len]; try lia. by apply S.
Qed.

(** A field that is neither the type nor the length of an entry of type [t]. *)
Definition body_field (t : nova_entry_type) (f : string) : Prop :=
  let o := offsetof (entry_struct t) f in
  let n := Z.of_nat (sizeof_field (entry_struct t) f) in
  0 < o /\ 0 < n /\ o + n <= hdr_len t /\ (t = DIR_LOG -> o + n <= 4 \/ 6 <= o).

Lemma load_splice m a l o x :
  l = load_bytes m a (length l) -> (o + length x <= length l)%nat ->
  load_bytes (store_bytes m (a + Z.of_nat o) x) a (length l) = splice o x l.
Proof.
  intros El Hn. unfold splice. pose proof (f_equal (take o) El) as T1.
  pose proof (f_equal (drop (o + length x)) El) as T2.
  rewrite take_load_bytes in T1 by lia. rewrite drop_load_bytes in T2 by lia. rewrite T1, T2.
  replace (length l) with (o + (length x + (length l - (o + length x))))%nat at 1 by lia.
  rewrite !load_bytes_app. f_equal; [apply load_bytes_store_other; lia|]. f_equal; [apply load_store_bytes_same|].
  rewrite load_bytes_store_other by lia. f_equal. lia.
Qed.

Section spec.
Context `{NE : NovaEnv, MediaOk} {CO : @CrcEnvOk nova_crc_env}.

(** Storing a body field of the entry at [a]. *)
Lemma store_field_image m a l t f v :
  entry_image m a = Some l -> dentry_sane m a -> image_kind l = Some t -> body_field t f ->
  let m' := store (sizeof_field (entry_struct t) f) m (a + offsetof (entry_struct t) f) v in
  let l' := set_field (entry_struct t) f v l in
  entry_image m' a = Some l' /\ dentry_sane m' a /\ image_kind l' = Some t /\ length l' = length l.
Proof.
  intros E S Ei (F1 & F2 & F3 & F4) m' l'.
  destruct (image_spec _ _ _ E S) as (t' & Ek & Ei' & Hlen & El & Hl). rewrite Ei in Ei'. injection Ei' as <-.
  pose proof (image_hdr _ _ _ _ E S Ei) as Hh.
  set (o := Z.to_nat (offsetof (entry_struct t) f)). set (x := le_bytes (sizeof_field (entry_struct t) f) v).
  assert (length x = sizeof_field (entry_struct t) f) as Hx by apply length_le_bytes.
  assert (load_bytes m' a (length l) = l') as El'.
  { unfold m', store, l', set_field. fold o x. replace (offsetof (entry_struct t) f) with (Z.of_nat o) by (unfold o; lia).
    apply load_splice; [done|]. rewrite Hx. unfold o. lia. }
  assert (length l' = length l) as Hl' by (rewrite <- El', length_load_bytes; done).
  assert (load 1 m' a = load 1 m a) as V1.
  { unfold load, m'. f_equal. apply load_bytes_store_other. lia. }
  assert (t = DIR_LOG -> load 2 m' (a + 4) = load 2 m (a + 4)) as V2.
  { intros Ht. specialize (F4 Ht). unfold load, m'. f_equal. apply load_bytes_store_other. rewrite length_le_bytes. lia. }
  assert (entry_size_at m' a t = entry_size_at m a t) as Es by (destruct t; cbn [entry_size_at]; auto).
  split_and!; [| | |done].
  - unfold entry_image. rewrite V1, Ek. cbn [mbind option_bind]. by rewrite Es, <- Hlen, Nat2Z.id, El'.
  - intros Ed. rewrite V1, Ek in Ed. injection Ed as ->. rewrite V2 by done. by apply S.
  - unfold image_kind. rewrite <- El', take_load_bytes by lia. fold (load 1 m' a). by rewrite V1.
Qed.

(** [s] is [s0] while the entry of type [t] at ([b], [loc]) is being changed:
    it is [l] now and its page counts [n] invalid entries. *)
Record editing (s0 s : nova) (b b' loc : Z) (t : nova_entry_type) (l : list Z) (n : Z) : Prop := {
  ed_upd : mem_upd (nvmm s) s0 s;
  ed_pages : entry_pages s b b' loc;
  ed_fits : fits s b loc;
  ed_bytes : mem_bytes (nvmm s);
  ed_wr : writable s = true;
  ed_image : entry_image (nvmm s) (addr s0 b loc) = Some l;
  ed_kind : image_kind l = Some t;
  ed_trace : exists tr, trace s = trace s0 ++ tr;
  ed_count : load 4 (nvmm s) (addr s0 b LOG_BLOCK_TAIL) = n;
  ed_frame : forall x, ~ (addr s0 b loc <= x < addr s0 b loc + Z.of_nat (length l)) ->
    ~ (addr s0 b LOG_BLOCK_TAIL <= x < addr s0 b LOG_BLOCK_TAIL + 4) -> mget (nvmm s) x = mget (nvmm s0) x
}.

Lemma editing_addr s0 s b b' loc t l n c x : editing s0 s b b' loc t l n -> addr s c x = addr s0 c x.
Proof. intros E. apply (addr_upd _ _ _ _ _ (ed_upd _ _ _ _ _ _ _ _ E)). Qed.

Lemma body_field_load t f m a l :
  body_field t f -> entry_image m a = Some l -> dentry_sane m a -> image_kind l = Some t ->
  buf_field (entry_struct t) f l = load (sizeof_field (entry_struct t) f) m (a + offsetof (entry_struct t) f).
Proof.
  intros (F1 & F2 & F3 & _) E S Ei. pose proof (image_hdr _ _ _ _ E S Ei).
  destruct (image_spec _ _ _ E S) as (_ & _ & _ & _ & El & Hl). rewrite El. apply buf_field_load; lia.
Qed.

Lemma edit_load s0 s b b' loc t l n f :
  editing s0 s b b' loc t l n -> body_field t f ->
  pload_field (entry_struct t) (addr s0 b loc) f s = Ok (buf_field (entry_struct t) f l) s.
Proof.
  intros E Bf. pose proof (editing_addr _ _ _ _ _ _ _ _ b loc E) as Ea. destruct E.
  destruct ed_fits0 as [S F]. rewrite Ea in S, F. pose proof (F l ed_image0) as Hl.
  pose proof (pg_loc _ _ _ _ ed_pages0) as Hloc. unfold LOG_BLOCK_TAIL in *.
  pose proof (image_hdr _ _ _ _ ed_image0 S ed_kind0).
  rewrite (body_field_load t f _ _ _ Bf ed_image0 S ed_kind0). destruct Bf as (F1 & F2 & F3 & _).
  unfold pload_field, field_addr. apply pload_run. rewrite <- Ea.
  replace (addr s b loc + offsetof (entry_struct t) f) with (addr s b (loc + offsetof (entry_struct t) f)) by (unfold addr; lia).
  eapply pages_in_pmem; [exact ed_pages0|lia..].
Qed.

Lemma edit_field s0 s b b' loc t l n f v :
  editing s0 s b b' loc t l n -> body_field t f ->
  exists s', pstore_field (entry_struct t) (addr s0 b loc) f v s = Ok tt s' /\
    editing s0 s' b b' loc t (set_field (entry_struct t) f v l) n.
Proof.
  intros E Bf. pose proof (fun c x => editing_addr _ _ _ _ _ _ _ _ c x E) as Ea. destruct E.
  destruct ed_fits0 as [S F]. rewrite Ea in S, F. pose proof (F l ed_image0) as Hl.
  pose proof (pg_loc _ _ _ _ ed_pages0) as Hloc.
  pose proof (image_hdr _ _ _ _ ed_image0 S ed_kind0).
  destruct (store_field_image _ _ _ _ f v ed_image0 S ed_kind0 Bf) as (I' & S' & K' & L').
  destruct Bf as (F1 & F2 & F3 & _). unfold pstore_field, field_addr. unfold LOG_BLOCK_TAIL in *.
  set (k := sizeof_field (entry_struct t) f) in *. set (o := offsetof (entry_struct t) f) in *.
  assert (addr s0 b loc + o = addr s b (loc + o)) as Eo by (rewrite Ea; unfold addr; lia).
  rewrite pstore_run; [| |done].
  2: { rewrite Eo. eapply pages_in_pmem; [exact ed_pages0|lia..]. }
  eexists. split; [reflexivity|]. set (s' := pm_write _ _ _ s).
  assert (repaired s s' (addr s b (loc + o)) (le_bytes k v) [EvStore (addr s0 b loc + o) (le_bytes k v)]) as R.
  { split; [|done]. unfold s', pm_write. rewrite Eo.
    match goal with |- mem_upd _ _ ?x => exists (cr0_wp x), (trace x) end. by destruct s. }
  assert (nvmm s' = store k (nvmm s) (addr s0 b loc + o) v) as Em by done.
  split.
  - rewrite Em, Eo. eapply mem_upd_trans; [exact ed_upd0|apply R].
  - eapply repaired_pages; [exact ed_pages0|exact R|lia|rewrite length_le_bytes; unfold LOG_BLOCK_TAIL; lia].
  - unfold fits. change (addr s' b loc) with (addr s b loc). rewrite Ea, Em. split; [done|].
    intros x Hx. rewrite I' in Hx. injection Hx as <-. unfold LOG_BLOCK_TAIL. lia.
  - rewrite Em. by apply mem_bytes_store.
  - done.
  - by rewrite Em.
  - done.
  - destruct ed_trace0 as [tr Et]. eexists. unfold s', pm_write. cbn [trace set_trace]. by rewrite Et, <- app_assoc.
  - rewrite Em. rewrite load_store_other; [done|]. unfold addr, LOG_BLOCK_TAIL in *. lia.
  - rewrite L'. intros x H1' H2'. rewrite Em, mget_store_out by lia. by apply ed_frame0.
Qed.

(** The counter in the tail of page [b]. *)
Lemma edit_count s0 s b b' loc t l n :
  metadata_csum <> 0 -> editing s0 s b b' loc t l n ->
  exists s', nova_inc_page_invalid_entries (page_off b + loc) s = Ok tt s' /\
    editing s0 s' b b' loc t l (u32 (n + 1)).
Proof.
  intros Hm E. pose proof (fun c x => editing_addr _ _ _ _ _ _ _ _ c x E) as Ea. destruct E.
  pose proof (pg_loc _ _ _ _ ed_pages0) as Hloc. pose proof (pg_ok _ _ _ _ ed_pages0) as [B1 B2].
  unfold LOG_BLOCK_TAIL in Hloc. unfold nova_inc_page_invalid_entries.
  rewrite (bind_ok _ _ _ (addr s b 0) s).
  2: { unfold gets. rewrite (proj2 (off_split b loc ltac:(lia))). unfold nova_get_block.
       rewrite (proj2 (Z.eqb_neq _ 0)) by (unfold page_off in *; lia). unfold addr. f_equal. lia. }
  unfold pload_field, pstore_field. change (sizeof_field nova_inode_log_page "invalid_entries") with 4%nat.
  assert (field_addr nova_inode_log_page (addr s b 0) "invalid_entries" = addr s b 4064) as ->.
  { unfold field_addr, addr. change (offsetof nova_inode_log_page "invalid_entries") with 4064. lia. }
  assert (in_pmem s (addr s b 4064) 4 = true) as Hin by (eapply pages_in_pmem; [exact ed_pages0|lia..]).
  rewrite (bind_ok _ _ _ _ _ (pload_run _ _ _ Hin)).
  assert (load 4 (nvmm s) (addr s b 4064) = n) as -> by (rewrite Ea; exact ed_count0).
  rewrite (bind_ok _ _ _ _ _ (pstore_run 4 _ (u32 (n + 1)) s Hin ed_wr0)).
  rewrite nova_flush_buffer_run by done. eexists. split; [reflexivity|].
  match goal with |- editing _ ?x _ _ _ _ _ _ => set (s' := x) end.
  assert (nvmm s' = store 4 (nvmm s) (addr s0 b 4064) (u32 (n + 1))) as Em by (by rewrite <- Ea).
  destruct ed_fits0 as [S F]. rewrite Ea in S, F. pose proof (F l ed_image0) as Hl. unfold LOG_BLOCK_TAIL in *.
  destruct (image_spec _ _ _ ed_image0 S) as (_ & _ & _ & _ & El & _).
  assert (load_bytes (nvmm s') (addr s0 b loc) (length l) = l) as El'.
  { rewrite Em. unfold store. rewrite load_bytes_store_other; [done|]. unfold addr. lia. }
  destruct (image_transfer _ _ _ _ _ ed_image0 S El') as [I' S'].
  assert (mem_upd (nvmm s') s s') as U.
  { unfold s', add_trace, pm_write.
    match goal with |- mem_upd _ _ ?x => exists (cr0_wp x), (trace x) end. by destruct s. }
  split; try done.
  - eapply mem_upd_trans; [exact ed_upd0|exact U].
  - pose proof ed_pages0 as [V A O1 O2 N L K1 K2].
    assert (forall c, load 8 (nvmm s') (alter_word s c) = load 8 (nvmm s) (alter_word s c)) as X.
    { intros c. rewrite Em, <- Ea. apply load_store_other. unfold alter_word, addr, page_off. lia. }
    split; [exact V|exact A|exact O1|exact O2|exact N|exact L|exact (eq_trans (X b) K1)|exact (eq_trans (X b') K2)].
  - unfold fits. change (addr s' b loc) with (addr s b loc). rewrite Ea. split; [done|].
    intros x Hx. rewrite I' in Hx. injection Hx as <-. unfold LOG_BLOCK_TAIL. lia.
  - rewrite Em. by apply mem_bytes_store.
  - destruct ed_trace0 as [tr Et]. eexists. unfold s', add_trace, pm_write. cbn [trace set_trace].
    by rewrite Et, <- !app_assoc.
  - rewrite Em. unfold LOG_BLOCK_TAIL. apply load_store_same. apply uwrap_range. lia.
  - intros x H1' H2'. rewrite Em, mget_store_out by (unfold LOG_BLOCK_TAIL in *; cbn; lia). by apply ed_frame0.
Qed.

Lemma mark_entry_run s0 s b b' loc t l n reassign num_free :
  editing s0 s b b' loc t l n ->
  exists s', mark_entry (addr s0 b loc) t reassign num_free s = Ok (now_invalid t reassign num_free l) s' /\
    editing s0 s' b b' loc t (marked_image t reassign num_free l) n.
Proof.
  intros E. assert (t <> NEXT_PAGE) as Hn.
  { intros ->. pose proof (ed_kind _ _ _ _ _ _ _ _ E) as K. by apply entry_kind_cases in K as [_ K]. }
  assert (forall t f s1 l1, editing s0 s1 b b' loc t l1 n -> body_field t f ->
    exists s', (pstore_field (entry_struct t) (addr s0 b loc) f 1 ;;; ret true) s1 = Ok true s' /\
      editing s0 s' b b' loc t (set_field (entry_struct t) f 1 l1) n) as Set1.
  { intros t1 f s1 l1 E1 Bf. destruct (edit_field _ _ _ _ _ _ _ _ f 1 E1 Bf) as (s' & Es & E').
    exists s'. split; [|done]. by rewrite (bind_ok _ _ _ _ _ Es). }
  destruct t; try done; cbn [mark_entry marked_image now_invalid].
  - assert (forall f, f = "reassigned" \/ f = "invalid_pages" \/ f = "num_pages" -> body_field FILE_WRITE f) as Bf.
    { intros f Hf. destruct Hf as [->|[->| ->]]; vm_compute; intuition congruence. }
    set (l1 := if reassign then _ else l).
    assert (exists s1, when reassign (pstore_field nova_file_write_entry (addr s0 b loc) "reassigned" 1) s = Ok tt s1 /\
      editing s0 s1 b b' loc FILE_WRITE l1 n) as (s1 & E1 & Ed1).
    { unfold l1. destruct reassign; [|by exists s]. apply (edit_field s0 s b b' loc FILE_WRITE l n "reassigned"); auto. }
    rewrite (bind_ok _ _ _ _ _ E1).
    set (l2 := if num_free =? 0 then l1 else _).
    assert (exists s2, (if negb (num_free =? 0) then
        let! n := pload_field nova_file_write_entry (addr s0 b loc) "invalid_pages" in
        pstore_field nova_file_write_entry (addr s0 b loc) "invalid_pages" (u32 (n + num_free))
      else ret tt) s1 = Ok tt s2 /\ editing s0 s2 b b' loc FILE_WRITE l2 n) as (s2 & E2 & Ed2).
    { unfold l2. destruct (num_free =? 0); [by exists s1|]. cbn [negb].
      rewrite (bind_ok _ _ _ _ _ (edit_load s0 s1 b b' loc FILE_WRITE l1 n "invalid_pages" Ed1 (Bf "invalid_pages" ltac:(auto)))).
      apply (edit_field s0 s1 b b' loc FILE_WRITE l1 n "invalid_pages"); auto. }
    rewrite (bind_ok _ _ _ _ _ E2).
    rewrite (bind_ok _ _ _ _ _ (edit_load s0 s2 b b' loc FILE_WRITE l2 n "invalid_pages" Ed2 (Bf "invalid_pages" ltac:(auto)))).
    rewrite (bind_ok _ _ _ _ _ (edit_load s0 s2 b b' loc FILE_WRITE l2 n "num_pages" Ed2 (Bf "num_pages" ltac:(auto)))).
    by exists s2.
  - destruct reassign; [|apply (Set1 DIR_LOG "invalid" s l E); vm_compute; intuition congruence].
    destruct (edit_field s0 s b b' loc DIR_LOG l n "reassigned" 1 E) as (s' & Es & E'); [vm_compute; intuition congruence|].
    exists s'. split; [|done]. cbn [entry_struct] in Es. by rewrite (bind_ok _ _ _ _ _ Es).
  - apply (Set1 SET_ATTR "invalid" s l E); vm_compute; intuition congruence.
  - apply (Set1 LINK_CHANGE "invalid" s l E); vm_compute; intuition congruence.
  - apply (Set1 MMAP_WRITE "invalid" s l E); vm_compute; intuition congruence.
  - apply (Set1 SNAPSHOT_INFO "deleted" s l E); vm_compute; intuition congruence.
Qed.

Lemma length_set_field st f v l :
  (Z.to_nat (offsetof st f) + sizeof_field st f <= length l)%nat -> length (set_field st f v l) = length l.
Proof.
  intros Hn. unfold set_field, splice. rewrite !length_app, length_take, length_drop, length_le_bytes. lia.
Qed.

Lemma length_marked t reassign num_free l :
  hdr_len t <= Z.of_nat (length l) -> length (marked_image t reassign num_free l) = length l.
Proof.
  intros Hl. assert (forall f, body_field t f -> forall v k, length k = length l ->
    length (set_field (entry_struct t) f v k) = length l) as X.
  { intros f (F1 & F2 & F3 & _) v k Hk. rewrite length_set_field; [done|lia]. }
  destruct t; cbn [marked_image]; try done;
    try (apply (X "invalid"); [vm_compute; intuition congruence|done]);
    try (apply (X "deleted"); [vm_compute; intuition congruence|done]).
  - assert (length (if reassign then set_field nova_file_write_entry "reassigned" 1 l else l) = length l) as L1.
    { destruct reassign; [|done]. apply (X "reassigned"); [vm_compute; intuition congruence|done]. }
    destruct (num_free =? 0); [done|]. apply (X "invalid_pages"); [vm_compute; intuition congruence|done].
  - destruct reassign; [apply (X "reassigned")|apply (X "invalid")]; try done; vm_compute; intuition congruence.
Qed.

(** The write-protection window around an action on the device. *)
Lemma mem_upd_window m s s' : mem_upd m (unlocked s) s' -> mem_upd m s (locked s').
Proof.
  intros (w & t & ->). unfold locked, unlocked. repeat case_match; by eexists _, _.
Qed.

Lemma editing_start s b b' loc l t :
  entry_pages s b b' loc -> fits s b loc -> mem_bytes (nvmm s) ->
  entry_image (nvmm s) (addr s b loc) = Some l -> image_kind l = Some t ->
  editing (unlocked s) (unlocked s) b b' loc t l (load 4 (nvmm s) (addr s b LOG_BLOCK_TAIL)).
Proof.
  intros P F B E Ei. assert (forall c x, addr (unlocked s) c x = addr s c x) as Ea
    by (intros; unfold addr; by rewrite unlocked_sbc).
  split; rewrite ?unlocked_nvmm, ?Ea; try done.
  - rewrite <- unlocked_nvmm. apply mem_upd_refl.
  - destruct P. split; unfold alter_word, page_ok in *; rewrite ?unlocked_sbc, ?unlocked_nvmm, ?Ea; done.
  - destruct F. split; rewrite unlocked_nvmm, Ea; done.
  - apply writable_unlocked.
  - exists []. by rewrite app_nil_r.
Qed.

(** The entry to work on. *)
Record live_entry (s : nova) (b b' loc : Z) (t : nova_entry_type) (l : list Z) : Prop := {
  le_pages : entry_pages s b b' loc;
  le_fits : fits s b loc;
  le_bytes_ok : mem_bytes (nvmm s);
  le_type_read : memcpy_mcsafe_rc (addr s b loc) 1 = 0;
  le_image : entry_image (nvmm s) (addr s b loc) = Some l;
  le_kind : image_kind l = Some t;
  le_read : unreadable (trace s) (addr s b loc) (length l) = false
}.

Lemma unlocked_addr s c x : addr (unlocked s) c x = addr s c x.
Proof. unfold addr. by rewrite unlocked_sbc. Qed.

(** Checksum, replica and lock after the entry was changed to [l2]. *)
Lemma edit_and_sync s s3 b b' loc t l l2 n :
  metadata_csum <> 0 -> live_entry s b b' loc t l -> editing (unlocked s) s3 b b' loc t l2 n -> length l2 = length l ->
  exists l' s4 s5, nova_update_entry_csum (addr s b loc) s3 = Ok tt s4 /\
    nova_update_alter_entry (addr s b loc) s4 = Ok 0 s5 /\
    same_but_csum t l2 l' /\ csum_ok l' = true /\ healed s (locked s5) b b' loc l' /\
    load 4 (nvmm (locked s5)) (addr s b LOG_BLOCK_TAIL) = n.
Proof.
  intros Hm [P F B Hr E Ei Hu] Ed Hl2. pose proof (proj2 F l E) as Hl. pose proof (pg_loc _ _ _ _ P) as Hloc.
  unfold LOG_BLOCK_TAIL in Hl, Hloc. pose proof (pg_ne _ _ _ _ P) as Hne.
  assert (forall c x, addr s3 c x = addr s c x) as Ea
    by (intros; rewrite (editing_addr _ _ _ _ _ _ _ _ _ _ Ed); apply unlocked_addr).
  destruct (csum_and_alter_run s3 b b' loc l2 t Hm) as
    (l' & s4 & s5 & E4 & E5 & Sm & Ok' & Hh & _ & _ & _ & Fr); try (by apply Ed).
  { by rewrite Ea. }
  { rewrite Ea, <- unlocked_addr. apply Ed. }
  { destruct (ed_trace _ _ _ _ _ _ _ _ Ed) as [tr ->]. rewrite Ea, Hl2. apply unreadable_mono.
    by rewrite unlocked_trace. }
  rewrite Ea in E4, E5. exists l', s4, s5. rewrite !Ea, Hl2 in Fr.
  pose proof (mem_upd_trans _ _ _ _ _ (ed_upd _ _ _ _ _ _ _ _ Ed) (hl_upd _ _ _ _ _ _ Hh)) as U.
  split_and!; [done..| |].
  - split; rewrite ?locked_nvmm.
    + by apply mem_upd_window.
    + rewrite <- Ea. apply Hh.
    + rewrite <- Ea. apply Hh.
    + pose proof (hl_pages _ _ _ _ _ _ Hh) as []. split; unfold alter_word, addr, page_ok in *;
        rewrite ?locked_sbc, ?locked_nvmm; done.
    + intros x Hx. assert (~ in_page s b x /\ ~ in_page s b' x) as [Hx1 Hx2] by (split; apply Hx; [by left|by right; left]).
      unfold in_page in Hx1, Hx2. rewrite Fr by (unfold addr; lia).
      rewrite (ed_frame _ _ _ _ _ _ _ _ Ed); [by rewrite unlocked_nvmm|..];
        rewrite unlocked_addr, ?Hl2; unfold addr, LOG_BLOCK_TAIL; lia.
  - rewrite locked_nvmm, <- (ed_count _ _ _ _ _ _ _ _ Ed), unlocked_addr. apply load_ext. intros x Hx.
    change (Z.of_nat 4) with 4 in Hx. apply Fr; unfold addr, LOG_BLOCK_TAIL, page_off in *; lia.
Qed.

Lemma entry_window s b b' loc t l len :
  live_entry s b b' loc t l -> 0 <= len <= 64 ->
  nova_memunlock_range (addr s b loc) len s = Ok tt (unlocked s).
Proof.
  intros [P F _ _ E _ _] Hlen. pose proof (pg_virt _ _ _ _ P) as [V1 V2]. pose proof (pg_ok _ _ _ _ P) as [B1 B2].
  pose proof (proj2 F l E) as Hl. pose proof (pg_loc _ _ _ _ P).
  destruct (image_spec _ _ _ E (proj1 F)) as (_ & _ & _ & _ & _ & Hmin). unfold LOG_BLOCK_TAIL in *.
  apply memunlock_run; unfold addr, page_off in *; lia.
Qed.

Lemma live_editing s b b' loc t l :
  live_entry s b b' loc t l ->
  editing (unlocked s) (unlocked s) b b' loc t l (load 4 (nvmm s) (addr s b LOG_BLOCK_TAIL)).
Proof. intros []. by apply editing_start. Qed.

(** C35: marking a log entry invalid or reassigned always
    succeeds, sets exactly the marks of its type in the entry, leaves entry and
    replica equal with a right checksum, and counts one more invalid entry in
    the page exactly when the entry is invalid now; nothing outside the two log
    pages changes. *)
Theorem nova_invalidate_reassign_logentry_correct s b b' loc l t reassign num_free :
  metadata_csum <> 0 -> live_entry s b b' loc t l ->
  exists l' s', nova_invalidate_reassign_logentry (addr s b loc) t reassign num_free s = Ok 0 s' /\
    same_but_csum t (marked_image t reassign num_free l) l' /\ csum_ok l' = true /\ healed s s' b b' loc l' /\
    load 4 (nvmm s') (addr s b LOG_BLOCK_TAIL)
    = let n := load 4 (nvmm s) (addr s b LOG_BLOCK_TAIL) in
      if now_invalid t reassign num_free l then u32 (n + 1) else n.
Proof.
  intros Hm L. pose proof (live_editing _ _ _ _ _ _ L) as Ed0. set (n := load 4 (nvmm s) _) in *.
  destruct (mark_entry_run _ _ b b' loc t l n reassign num_free Ed0) as (s2 & E2 & Ed2). rewrite unlocked_addr in E2.
  assert (length (marked_image t reassign num_free l) = length l) as Hl2.
  { apply length_marked. pose proof (proj1 (le_fits _ _ _ _ _ _ L)). by eapply image_hdr; [apply L|done|apply L]. }
  assert (exists s3, (if now_invalid t reassign num_free l : bool then
      let! a := gets (fun x => nova_get_addr_off x (addr s b loc)) in nova_inc_page_invalid_entries a
    else ret tt) s2 = Ok tt s3 /\
    editing (unlocked s) s3 b b' loc t (marked_image t reassign num_free l)
      (if now_invalid t reassign num_free l then u32 (n + 1) else n)) as (s3 & E3 & Ed3).
  { destruct (now_invalid _ _ _ _); [|by exists s2].
    destruct (alter_entry_run s2 b b' loc Hm (ed_pages _ _ _ _ _ _ _ _ Ed2)) as (A1 & _).
    rewrite (editing_addr _ _ _ _ _ _ _ _ _ _ Ed2), unlocked_addr in A1.
    rewrite (bind_ok _ _ _ (page_off b + loc) s2) by (unfold gets; by rewrite A1). by apply edit_count. }
  destruct (edit_and_sync s s3 b b' loc t l _ _ Hm L Ed3 Hl2) as (l' & s4 & s5 & E4 & E5 & Sm & Ok' & Hh & Hc).
  exists l', (locked s5). split_and!; [|done..].
  unfold nova_invalidate_reassign_logentry.
  rewrite (bind_ok _ _ _ _ _ (entry_window s b b' loc t l CACHELINE_SIZE L ltac:(done))).
  rewrite (bind_ok _ _ _ 0 s4).
  2: { unfold nova_execute_invalidate_reassign_logentry. rewrite (bind_ok _ _ _ _ _ E2).
       rewrite (bind_ok _ _ _ _ _ E3). by rewrite (bind_ok _ _ _ _ _ E4). }
  rewrite (bind_ok _ _ _ _ _ E5). by rewrite (bind_ok _ _ _ _ _ (memlock_run _ _ _)).
Qed.
End spec.
