(* ===== verification/Snapshot.v ===== *)
(** Snapshots (snapshot.c, snapshot.h): the table of snapshots and, for each
    snapshot and CPU, the list in DRAM of what was deleted while the snapshot
    still needs it.

    The lists live in pages from kmalloc; [dram] is their bytes, [dram_pages]
    the pages that are allocated, and an access outside them is a fault.
    kmalloc's addresses and the bytes its pages come with are a parameter
    ([KmallocLib]).  A [struct snapshot_info] is identified by its epoch, the key
    of the radix tree that holds it.  Mutexes are not modelled: one list
    operation is one atomic action.
    Each definition translates the C function of the same name. *)

From stdpp Require Import strings.
From S2P Require Import Prelude CInt Crc32c NovaEnv RangeNode Pmem NovaState NovaMonad NovaLib.
From S2P Require Import Balloc NovaLayout LogPage MetaCsum LogEntry.

Local Open Scope nova_scope.
Local Open Scope string_scope.
Local Open Scope list_scope.
Local Open Scope Z_scope.

Definition SS_INODE : Z := 1.
Definition SS_FILE_WRITE : Z := 2.

Definition snapshot_inode_entry : struct := [
  ("type", 1%nat); ("deleted", 1%nat); ("padding", 6%nat); ("padding64", 8%nat);
  ("nova_ino", 8%nat); ("delete_epoch_id", 8%nat)].
Definition snapshot_file_write_entry : struct := [
  ("type", 1%nat); ("deleted", 1%nat); ("padding", 6%nat); ("nvmm", 8%nat);
  ("num_pages", 8%nat); ("delete_epoch_id", 8%nat)].
Definition snapshot_nvmm_list : struct := [
  ("padding", 8%nat); ("num_pages", 8%nat); ("head", 8%nat); ("tail", 8%nat)].

Record snapshot_list := mkSnapList { sl_num_pages : Z; sl_head : Z; sl_tail : Z }.
Record snapshot_info := mkSnapInfo {
  si_epoch_id : Z; si_timestamp : Z; si_snapshot_entry : Z; si_lists : list snapshot_list
}.

(** The page the [n]-th kmalloc of a page returns, 0 when it fails, and the
    bytes found there; whether the tree of the snapshots gets the nodes it needs
    for a new key. *)
Class KmallocLib := {
  kmalloc_page : positive -> Z;
  kmalloc_bytes : positive -> list Z;
  snapshot_node_ok : gmap Z snapshot_info -> Z -> bool
}.

Record snapshots := mkSnaps {
  dram : mem;
  dram_pages : gset Z;
  kmalloc_clock : positive;
  snapshot_info_tree : gmap Z snapshot_info;
  sbi_num_snapshots : Z;
  curr_clean_snapshot_info : option Z
}.

Definition set_dram (v : mem) (d : snapshots) : snapshots :=
  mkSnaps v (dram_pages d) (kmalloc_clock d) (snapshot_info_tree d) (sbi_num_snapshots d)
    (curr_clean_snapshot_info d).
Definition set_dram_pages (v : gset Z) (d : snapshots) : snapshots :=
  mkSnaps (dram d) v (kmalloc_clock d) (snapshot_info_tree d) (sbi_num_snapshots d) (curr_clean_snapshot_info d).
Definition set_kmalloc_clock (v : positive) (d : snapshots) : snapshots :=
  mkSnaps (dram d) (dram_pages d) v (snapshot_info_tree d) (sbi_num_snapshots d) (curr_clean_snapshot_info d).
Definition set_snapshot_info_tree (v : gmap Z snapshot_info) (d : snapshots) : snapshots :=
  mkSnaps (dram d) (dram_pages d) (kmalloc_clock d) v (sbi_num_snapshots d) (curr_clean_snapshot_info d).
Definition set_num_snapshots (v : Z) (d : snapshots) : snapshots :=
  mkSnaps (dram d) (dram_pages d) (kmalloc_clock d) (snapshot_info_tree d) v (curr_clean_snapshot_info d).
Definition set_curr_clean (v : option Z) (d : snapshots) : snapshots :=
  mkSnaps (dram d) (dram_pages d) (kmalloc_clock d) (snapshot_info_tree d) (sbi_num_snapshots d) v.

(** ** Actions that also change the snapshots *)
Definition SM (A : Type) : Type := snapshots -> M (A * snapshots).
Definition sret {A} (a : A) : SM A := fun d => ret (a, d).
Definition sbind {A B} (m : SM A) (k : A -> SM B) : SM B := fun d => let! r := m d in k r.1 r.2.
Definition lift {A} (m : M A) : SM A := fun d => let! a := m in ret (a, d).
Definition sgets {A} (g : snapshots -> A) : SM A := fun d => ret (g d, d).
Definition smodify (g : snapshots -> snapshots) : SM unit := fun d => ret (tt, g d).
Definition sraise {A} (f : fault) : SM A := fun _ => raise f.

Notation "'do!' x ':=' m 'in' k" := (sbind m (fun x => k))
  (at level 10, x pattern, m at level 200, k at level 200) : nova_scope.
Notation "m ',,,' k" := (sbind m (fun _ => k)) (at level 199, right associativity) : nova_scope.

Section snapshot.
Context `{NovaEnv, RbLib, MediaLib, KmallocLib}.

(** ** DRAM pages *)
Definition dram_ok (d : snapshots) (a : Z) (n : nat) : bool :=
  bool_decide (BLOCK_OFF a ∈ dram_pages d) && (ENTRY_LOC a + Z.of_nat n <=? PAGE_SIZE).

Definition dload_bytes (n : nat) (a : Z) : SM (list Z) :=
  fun d => if dram_ok d a n then ret (load_bytes (dram d) a n, d) else raise (FWild a).
Definition dstore_bytes (a : Z) (l : list Z) : SM unit :=
  fun d => if dram_ok d a (length l) then ret (tt, set_dram (store_bytes (dram d) a l) d) else raise (FWild a).
Definition dload (n : nat) (a : Z) : SM Z := do! l := dload_bytes n a in sret (le_val l).
Definition dstore (n : nat) (a v : Z) : SM unit := dstore_bytes a (le_bytes n v).
Definition dload_field (st : struct) (p : Z) (f : string) : SM Z := dload (sizeof_field st f) (field_addr st p f).
Definition dstore_field (st : struct) (p : Z) (f : string) (v : Z) : SM unit :=
  dstore (sizeof_field st f) (field_addr st p f) v.

(** [kmalloc(PAGE_SIZE, GFP_KERNEL)] *)
Definition kmalloc : SM Z := fun d =>
  let c := kmalloc_clock d in
  let d := set_kmalloc_clock (c + 1) d in
  let a := kmalloc_page c in
  if a =? 0 then ret (0, d)
  else ret (a, set_dram_pages ({[ a ]} ∪ dram_pages d) (set_dram (store_bytes (dram d) a (kmalloc_bytes c)) d)).
Definition kfree (a : Z) : SM unit := smodify (fun d => set_dram_pages (dram_pages d ∖ {[ a ]}) d).

Definition next_list_page (curr_p : Z) : SM Z :=
  dload_field nova_inode_page_tail (BLOCK_OFF curr_p + LOG_BLOCK_TAIL) "next_page".

Definition goto_next_list_page (curr_p : Z) : SM bool :=
  if LOG_BLOCK_TAIL <? ENTRY_LOC curr_p + 32 then sret true
  else
    do! type := dload 1 curr_p in
    sret (type =? entry_type_val NEXT_PAGE).

Definition nova_set_link_page_epoch_id (curr_page epoch_id : Z) : SM unit :=
  dstore_field nova_inode_log_page curr_page "epoch_id" epoch_id.
Definition nova_set_next_link_page_address (curr_page next_page : Z) : SM unit :=
  dstore_field nova_inode_log_page curr_page "next_page" next_page.
Definition dram_set_entry_type (p : Z) (type : nova_entry_type) : SM unit := dstore 1 p (entry_type_val type).

(** ** The table *)

(** [radix_tree_gang_lookup(tree, infos, epoch_id, 1)]: the first snapshot at or
    after [epoch_id]. *)
Definition first_from (epoch_id : Z) (l : list (Z * snapshot_info)) : option snapshot_info :=
  foldr (fun x acc =>
    if epoch_id <=? x.1 then
      match acc with
      | Some info => if si_epoch_id info <=? x.1 then acc else Some x.2
      | None => Some x.2
      end
    else acc) None l.

Definition nova_find_target_snapshot_info (epoch_id : Z) : SM (option snapshot_info) :=
  sgets (fun d => first_from epoch_id (map_to_list (snapshot_info_tree d))).

Definition nova_find_next_snapshot_info (info : snapshot_info) : SM (option snapshot_info) :=
  do! r := nova_find_target_snapshot_info (u64 (si_epoch_id info + 1)) in
  match r with
  | Some ret_info => if si_epoch_id ret_info <=? si_epoch_id info then lift nova_err ,,, sret None else sret r
  | None => sret None
  end.

(** [radix_tree_insert]: -EEXIST when the key is there, -ENOMEM when a node cannot
    be allocated. *)
Definition EEXIST : Z := 17.
Definition nova_insert_snapshot_info (info : snapshot_info) : SM Z := fun d =>
  match snapshot_info_tree d !! si_epoch_id info with
  | Some _ => ret (- EEXIST, d)
  | None =>
      if snapshot_node_ok (snapshot_info_tree d) (si_epoch_id info)
      then ret (0, set_snapshot_info_tree (<[si_epoch_id info := info]> (snapshot_info_tree d)) d)
      else ret (- ENOMEM, d)
  end.

(** A store through [&info->lists[i]]. *)
Definition set_list (epoch_id : Z) (i : nat) (l : snapshot_list) : SM unit :=
  smodify (fun d => set_snapshot_info_tree
    (alter (fun info => mkSnapInfo (si_epoch_id info) (si_timestamp info) (si_snapshot_entry info)
       (<[i := l]> (si_lists info))) epoch_id (snapshot_info_tree d)) d).

(** ** Lists *)

(** Returns the list. *)
Definition nova_write_snapshot_list_entry (l : snapshot_list) (curr_p : Z) (entry : list Z) : SM snapshot_list :=
  let size := Z.of_nat (length entry) in
  if is_last_entry curr_p size then lift nova_err ,,, sret l
  else
    dstore_bytes curr_p entry ,,,
    sret (mkSnapList (sl_num_pages l) (sl_head l) (u64 (curr_p + size))).

(** From [retry]; [again] is the second pass, which has [new_page]. *)
Definition append_pass (l : snapshot_list) (entry : list Z) (new_page : Z) (again : SM (Z * snapshot_list))
    : SM (Z * snapshot_list) :=
  let size := Z.of_nat (length entry) in
  let curr_p := sl_tail l in
  do! l := (if negb (new_page =? 0) then
      nova_set_next_link_page_address (BLOCK_OFF curr_p) new_page ,,,
      sret (mkSnapList (u64 (sl_num_pages l + 1)) (sl_head l) (sl_tail l))
    else sret l) in
  do! full := (if is_last_entry curr_p size then do! n := next_list_page curr_p in sret (n =? 0) else sret false) in
  (if full : bool then dram_set_entry_type curr_p NEXT_PAGE else sret tt) ,,,
  if full && (new_page =? 0) then again
  else
    do! curr_p := (if is_last_entry curr_p size then
        dram_set_entry_type curr_p NEXT_PAGE ,,, next_list_page curr_p
      else sret curr_p) in
    do! l := nova_write_snapshot_list_entry l curr_p entry in
    sret (0, l).

(** The list of the running CPU; -ENOMEM when no page can be had. *)
Definition nova_append_snapshot_list_entry (info : snapshot_info) (entry : list Z) : SM Z :=
  do! cpuid := lift (gets nova_get_cpuid) in
  match si_lists info !! Z.to_nat cpuid with
  | None => sraise (FIndex cpuid)
  | Some l =>
      do! r := append_pass l entry 0 (
        do! new_page := kmalloc in
        if (new_page =? 0) || negb (ENTRY_LOC new_page =? 0) then
          kfree new_page ,,, lift nova_err ,,, sret (- ENOMEM, l)
        else
          nova_set_link_page_epoch_id new_page (si_epoch_id info) ,,,
          nova_set_next_link_page_address new_page 0 ,,,
          append_pass l entry new_page (sraise FFuel)) in
      set_list (si_epoch_id info) (Z.to_nat cpuid) r.2 ,,,
      sret r.1
  end.

(** 1 when the entry can be deleted; otherwise 0 and the snapshot that needs it. *)
Definition nova_old_entry_deleteable (create_epoch_id delete_epoch_id : Z) : SM (Z * option snapshot_info) :=
  if create_epoch_id =? delete_epoch_id then sret (1, None)
  else
    do! r := nova_find_target_snapshot_info create_epoch_id in
    match r with
    | None => sret (1, None)
    | Some info => if delete_epoch_id <=? si_epoch_id info then sret (1, None) else sret (0, Some info)
    end.

Definition file_write_bytes (nvmm num_pages delete_epoch_id : Z) : list Z :=
  [SS_FILE_WRITE; 0] ++ replicate 6 0 ++ le_bytes 8 nvmm ++ le_bytes 8 num_pages ++ le_bytes 8 delete_epoch_id.

Definition nova_append_snapshot_file_write_entry (info : option snapshot_info)
    (nvmm num_pages delete_epoch_id : Z) : SM Z :=
  match info with
  | None => sret (- EINVAL)
  | Some info => nova_append_snapshot_list_entry info (file_write_bytes nvmm num_pages delete_epoch_id)
  end.

(** [entry_epoch] is [entry->epoch_id]. *)
Definition nova_append_data_to_snapshot (entry_epoch nvmm num_pages delete_epoch_id : Z) : SM Z :=
  do! r := nova_old_entry_deleteable entry_epoch delete_epoch_id in
  (if r.1 =? 0 then do! _ := nova_append_snapshot_file_write_entry r.2 nvmm num_pages delete_epoch_id in sret tt
   else sret tt) ,,,
  sret r.1.

Definition inode_bytes (nova_ino delete_epoch_id : Z) : list Z :=
  [SS_INODE; 0] ++ replicate 6 0 ++ replicate 8 0 ++ le_bytes 8 nova_ino ++ le_bytes 8 delete_epoch_id.

Definition nova_append_snapshot_inode_entry (pi : Z) (info : option snapshot_info) : SM Z :=
  match info with
  | None => sret (- EINVAL)
  | Some info =>
      do! ino := lift (pload_field nova_inode pi "nova_ino") in
      do! del := lift (pload_field nova_inode pi "delete_epoch_id") in
      nova_append_snapshot_list_entry info (inode_bytes ino del)
  end.

Definition nova_append_inode_to_snapshot (pi : Z) : SM Z :=
  do! create := lift (pload_field nova_inode pi "create_epoch_id") in
  do! del := lift (pload_field nova_inode pi "delete_epoch_id") in
  do! r := nova_old_entry_deleteable create del in
  (if r.1 =? 0 then do! _ := nova_append_snapshot_inode_entry pi r.2 in sret tt else sret tt) ,,,
  sret r.1.

Definition nova_encounter_mount_snapshot (addr type : Z) : M bool :=
  let pass st := let! e := pload_field st addr "epoch_id" in gets (fun s => pass_mount_snapshot s e) in
  match entry_kind type with
  | Some SET_ATTR => pass nova_setattr_logentry
  | Some LINK_CHANGE => pass nova_link_change_entry
  | Some DIR_LOG => pass nova_dentry
  | Some FILE_WRITE => pass nova_file_write_entry
  | Some MMAP_WRITE => pass nova_mmap_entry
  | _ => ret false
  end.

(** ** Creating and releasing lists *)
Fixpoint delete_pages_loop (fuel : nat) (curr_block freed : Z) : SM Z :=
  if curr_block =? 0 then sret freed
  else
    match fuel with
    | O => sraise FFuel
    | S fuel =>
        if negb (ENTRY_LOC curr_block =? 0) then sret freed
        else
          do! next := dload_field nova_inode_log_page curr_block "next_page" in
          kfree curr_block ,,,
          delete_pages_loop fuel next (s32 (freed + 1))
    end.

(** Every page is freed at most once. *)
Definition nova_delete_snapshot_list_pages (l : snapshot_list) : SM Z :=
  do! n := sgets (fun d => size (dram_pages d)) in
  delete_pages_loop (n + 1) (sl_head l) 0.

(** One round for each list, left early with -ENOMEM. *)
Fixpoint initialize_pages_loop (ls : list snapshot_list) (epoch_id : Z) : SM (Z * list snapshot_list) :=
  match ls with
  | [] => sret (0, [])
  | l :: ls =>
      do! new_page := kmalloc in
      if (new_page =? 0) || negb (ENTRY_LOC new_page =? 0) then
        kfree new_page ,,, sret (- ENOMEM, l :: ls)
      else
        nova_set_link_page_epoch_id new_page epoch_id ,,,
        nova_set_next_link_page_address new_page 0 ,,,
        do! r := initialize_pages_loop ls epoch_id in
        sret (r.1, mkSnapList 1 new_page new_page :: r.2)
  end.

(** Returns the result and the lists of the info. *)
Definition nova_initialize_snapshot_info_pages (lists : list snapshot_list) (epoch_id : Z)
    : SM (Z * list snapshot_list) :=
  initialize_pages_loop lists epoch_id.

(** [nova_link_to_next_snapshot]: one CPU's lists.  Returns the next list. *)
Definition link_list (prev_list next_list : snapshot_list) : SM snapshot_list :=
  let curr_p := sl_tail prev_list in
  do! b := goto_next_list_page curr_p in
  (if negb b then dram_set_entry_type curr_p NEXT_PAGE else sret tt) ,,,
  nova_set_next_link_page_address (BLOCK_OFF (sl_tail prev_list)) (sl_head next_list) ,,,
  sret (mkSnapList (u64 (sl_num_pages next_list + sl_num_pages prev_list)) (sl_head prev_list) (sl_tail next_list)).

Fixpoint link_lists (i : nat) (n : nat) (prev next : snapshot_info) : SM unit :=
  match n with
  | O => sret tt
  | S n =>
      match si_lists prev !! i, si_lists next !! i with
      | Some pl, Some nl =>
          do! nl := link_list pl nl in
          set_list (si_epoch_id next) i nl ,,,
          link_lists (S i) n prev next
      | _, _ => sraise (FIndex (Z.of_nat i))
      end
  end.

Definition nova_link_to_next_snapshot (prev next : snapshot_info) : SM Z :=
  do! n := lift (gets (fun s => cpus (sbc s))) in
  link_lists 0 (Z.to_nat n) prev next ,,,
  smodify (set_curr_clean (Some (si_epoch_id next))) ,,,
  sret 0.
End snapshot.
