(* ===== verification/SnapshotSpec.v ===== *)
(** What the snapshot lists promise: an entry is handed to the earliest snapshot
    that still sees it, and a list keeps every entry appended to it, in order.

    [list_rep] is a list in memory: a chain of pages, each with the entries it
    holds; [snaps_rep] all lists of all snapshots, on disjoint pages. *)

From stdpp Require Import strings.
From S2P Require Import Prelude CInt Crc32c NovaEnv RangeNode Pmem NovaState NovaMonad NovaLib.
From S2P Require Import Balloc BallocSpec NovaLayout PmemOps LogPage LogPageSpec.
From S2P Require Import MetaCsum MetaCsumSpec LogEntry Snapshot.

Local Open Scope nova_scope.

(** What kmalloc documents: live pages are distinct and lie in the address
    space.  Addresses are not handed out again in the model. *)
Class KmallocOk `{KmallocLib} : Prop := {
  kmalloc_apart : forall c c', c <> c' -> kmalloc_page c <> 0 -> kmalloc_page c' <> 0 ->
    kmalloc_page c + 4096 <= kmalloc_page c' \/ kmalloc_page c' + 4096 <= kmalloc_page c;
  kmalloc_range : forall c, 0 <= kmalloc_page c /\ kmalloc_page c + 4096 < 2 ^ 64;
  kmalloc_size : forall c, length (kmalloc_bytes c) = 4096%nat
}.

Lemma sbind_ok {A B} (m : SM A) (k : A -> SM B) d s a d' s' :
  m d s = Ok (a, d') s' -> sbind m k d s = k a d' s'.
Proof. unfold sbind. intros E. by rewrite (bind_ok _ _ _ _ _ E). Qed.

(** ** The table *)

(** Every snapshot is filed under its epoch. *)
Definition table_ok (d : snapshots) : Prop :=
  forall k info, snapshot_info_tree d !! k = Some info -> si_epoch_id info = k.

(** [k] is the first snapshot at or after [c]. *)
Definition first_snapshot (d : snapshots) (c k : Z) : Prop :=
  is_Some (snapshot_info_tree d !! k) /\ c <= k /\
  forall j, is_Some (snapshot_info_tree d !! j) -> c <= j -> k <= j.

Lemma first_from_spec c (l : list (Z * snapshot_info)) :
  (forall x, x ∈ l -> si_epoch_id x.2 = x.1) ->
  match first_from c l with
  | Some info => (si_epoch_id info, info) ∈ l /\ c <= si_epoch_id info /\
      forall x, x ∈ l -> c <= x.1 -> si_epoch_id info <= x.1
  | None => forall x, x ∈ l -> x.1 < c
  end.
Proof.
  induction l as [|x l IH]; intros Hl; [by intros y ?%elem_of_nil|].
  cbn [first_from foldr]. fold (first_from c l).
  assert (forall y, y ∈ l -> si_epoch_id y.2 = y.1) as Hl' by (intros y Hy; apply Hl; by right).
  specialize (IH Hl'). pose proof (Hl x ltac:(by left)) as Hx.
  destruct x as [k i]. cbn [fst snd] in *. destruct (Z.leb_spec c k).
  - destruct (first_from c l) as [info|].
    + destruct IH as (I1 & I2 & I3). destruct (Z.leb_spec (si_epoch_id info) k).
      * split_and!; [by right|done|]. intros y [->|Hy]%elem_of_cons Hc; [done|by apply I3].
      * rewrite Hx. split_and!; [|done|]; [by left|].
        intros y [->|Hy]%elem_of_cons Hc; [done|]. specialize (I3 y Hy Hc). lia.
    + rewrite Hx. split_and!; [by left|done|].
      intros y [->|Hy]%elem_of_cons Hc; [done|]. specialize (IH y Hy). lia.
  - destruct (first_from c l) as [info|].
    + destruct IH as (I1 & I2 & I3). split_and!; [by right|done|].
      intros y [->|Hy]%elem_of_cons Hc; [cbn in Hc; lia|by apply I3].
    + intros y [->|Hy]%elem_of_cons; [done|by apply IH].
Qed.

Lemma find_target_run c d s :
  table_ok d ->
  exists o, nova_find_target_snapshot_info c d s = Ok (o, d) s /\
    match o with
    | Some info => snapshot_info_tree d !! si_epoch_id info = Some info /\ first_snapshot d c (si_epoch_id info)
    | None => forall k, is_Some (snapshot_info_tree d !! k) -> k < c
    end.
Proof.
  intros T. exists (first_from c (map_to_list (snapshot_info_tree d))). split; [done|].
  pose proof (first_from_spec c (map_to_list (snapshot_info_tree d))) as F.
  assert (forall k info, (k, info) ∈ map_to_list (snapshot_info_tree d) <-> snapshot_info_tree d !! k = Some info) as Em
    by (intros; apply elem_of_map_to_list).
  destruct (first_from c _) as [info|].
  - destruct F as (I1 & I2 & I3); [intros [k i] Hk%Em; by apply T|]. apply Em in I1. split; [done|].
    split_and!; [by eexists|done|]. intros j [i Hj%Em] Hc. by apply (I3 (j, i)).
  - intros k [i Hk%Em]. apply (F ltac:(intros [k' i'] Hk'%Em; by apply T) (k, i) Hk).
Qed.

(** A snapshot sees what was created at [c] and deleted at [dl]: it was taken
    from [c] on and before [dl]. *)
Definition seen (d : snapshots) (c dl : Z) : Prop := exists k, is_Some (snapshot_info_tree d !! k) /\ c <= k < dl.

Lemma deleteable_run c dl d s :
  table_ok d ->
  exists r o, nova_old_entry_deleteable c dl d s = Ok ((r, o), d) s /\
    match o with
    | Some info => r = 0 /\ snapshot_info_tree d !! si_epoch_id info = Some info /\
        first_snapshot d c (si_epoch_id info) /\ si_epoch_id info < dl
    | None => r = 1 /\ ~ seen d c dl
    end.
Proof.
  intros T. unfold nova_old_entry_deleteable. destruct (Z.eqb_spec c dl) as [->|Hne].
  { exists 1, None. split_and!; [done|done|]. intros (k & _ & Hk). lia. }
  destruct (find_target_run c d s T) as (o & E & Ho). rewrite (sbind_ok _ _ _ _ _ _ _ E).
  destruct o as [info|].
  - destruct Ho as (I1 & I2). destruct (Z.leb_spec dl (si_epoch_id info)).
    + exists 1, None. split_and!; [done|done|]. intros (k & Hk & Hc). destruct I2 as (_ & _ & Hf).
      specialize (Hf k Hk ltac:(lia)). lia.
    + by exists 0, (Some info).
  - exists 1, None. split_and!; [done|done|]. intros (k & Hk & Hc). specialize (Ho k Hk). lia.
Qed.

(** ** Lists *)
Definition entry_ok (e : list Z) : Prop := length e = 32%nat /\ head e <> Some (entry_type_val NEXT_PAGE).

(** The page number [b] holds the entries [es]. *)
Record page_rep (d : snapshots) (b : Z) (es : list (list Z)) : Prop := {
  pr_live : page_off b ∈ dram_pages d;
  pr_range : 0 < page_off b /\ page_off b + 4096 < 2 ^ 64;
  pr_room : (length es <= 127)%nat;
  pr_ok : Forall entry_ok es;
  pr_bytes : load_bytes (dram d) (page_off b) (32 * length es) = concat es
}.

Definition next_word (d : snapshots) (b : Z) : Z := load 8 (dram d) (page_off b + 4088).

(** The walk leaves the page after its entries. *)
Definition page_ended (d : snapshots) (b : Z) (es : list (list Z)) : Prop :=
  length es = 127%nat \/ load 1 (dram d) (page_off b + 32 * Z.of_nat (length es)) = entry_type_val NEXT_PAGE.

(** The pages [pgs], ending at [tail]. *)
Fixpoint pages_rep (d : snapshots) (pgs : list (Z * list (list Z))) (tail : Z) : Prop :=
  match pgs with
  | [] => False
  | (b, es) :: rest =>
      page_rep d b es /\
      match rest with
      | [] => next_word d b = 0 /\ tail = page_off b + 32 * Z.of_nat (length es)
      | (q, _) :: _ => next_word d b = page_off q /\ page_ended d b es /\ pages_rep d rest tail
      end
  end.

Record list_rep (d : snapshots) (l : snapshot_list) (pgs : list (Z * list (list Z))) : Prop := {
  lr_pages : pages_rep d pgs (sl_tail l);
  lr_nodup : NoDup pgs.*1;
  lr_head : head pgs.*1 = Some (sl_head l / 4096) /\ sl_head l mod 4096 = 0;
  lr_num : sl_num_pages l = u64 (Z.of_nat (length pgs))
}.

(** The entries a list holds, in the order of the walk. *)
Definition entries_of (pgs : list (Z * list (list Z))) : list (list Z) := concat pgs.*2.

Section lists.
Context `{NovaEnv, RbLib, KmallocOk}.

(** [d'] keeps the page [b] of [d]. *)
Definition same_page (d d' : snapshots) (b : Z) : Prop :=
  (page_off b ∈ dram_pages d -> page_off b ∈ dram_pages d') /\
  forall x, page_off b <= x < page_off b + 4096 -> mget (dram d') x = mget (dram d) x.

Lemma same_page_bytes d d' b o n :
  same_page d d' b -> 0 <= o -> o + Z.of_nat n <= 4096 ->
  load_bytes (dram d') (page_off b + o) n = load_bytes (dram d) (page_off b + o) n.
Proof. intros [_ S] Ho Hn. apply load_bytes_ext. intros x Hx. apply S. lia. Qed.

Lemma page_rep_frame d d' b es : page_rep d b es -> same_page d d' b -> page_rep d' b es.
Proof.
  intros [L R K O B] S. split; [by apply S|done..|]. pose proof (same_page_bytes d d' b 0 (32 * length es) S) as E.
  rewrite !Z.add_0_r in E. by rewrite E by lia.
Qed.

Lemma next_word_frame d d' b : same_page d d' b -> next_word d' b = next_word d b.
Proof. intros S. unfold next_word, load. f_equal. apply same_page_bytes; [done|lia..]. Qed.

Lemma page_ended_frame d d' b es :
  page_rep d b es -> page_ended d b es -> same_page d d' b -> page_ended d' b es.
Proof.
  intros P [E|E] S; [by left|right]. rewrite <- E. unfold load. f_equal. apply same_page_bytes; [done|lia|].
  pose proof (pr_room _ _ _ P). lia.
Qed.

Lemma pages_rep_frame d d' pgs tail :
  (forall b, b ∈ pgs.*1 -> same_page d d' b) -> pages_rep d pgs tail -> pages_rep d' pgs tail.
Proof.
  induction pgs as [|[b es] rest IH]; [done|]. intros S [P R].
  pose proof (S b ltac:(by left)) as Sb. split; [by eapply page_rep_frame|].
  destruct rest as [|[q qs] rest]; [by rewrite (next_word_frame d d' b Sb)|].
  destruct R as (N & E & R). rewrite (next_word_frame d d' b Sb). split_and!; [done|by eapply page_ended_frame|].
  apply IH; [|done]. intros c Hc. apply S. by right.
Qed.

(** The chain changed from its page [b] on. *)
Lemma pages_rep_suffix d d' b es rest tail es' rest' tail' init :
  pages_rep d (init ++ (b, es) :: rest) tail -> (forall c, c ∈ init.*1 -> same_page d d' c) ->
  pages_rep d' ((b, es') :: rest') tail' -> pages_rep d' (init ++ (b, es') :: rest') tail'.
Proof.
  induction init as [|[c cs] init IH]; [done|]. intros [P R] S Q. cbn [app] in *.
  pose proof (S c ltac:(by left)) as Sc.
  assert (forall x, x ∈ init.*1 -> same_page d d' x) as S' by (intros x Hx; apply S; by right).
  destruct init as [|[q qs] init].
  - destruct R as (N & E & _). split; [by eapply page_rep_frame|].
    rewrite (next_word_frame d d' c Sc). split_and!; [done|by eapply page_ended_frame|done].
  - destruct R as (N & E & R). split; [by eapply page_rep_frame|]. cbn [app].
    rewrite (next_word_frame d d' c Sc). split_and!; [done|by eapply page_ended_frame|]. by apply IH.
Qed.

Lemma pages_rep_split d pgs tail :
  pages_rep d pgs tail ->
  exists init b es, pgs = init ++ [(b, es)] /\ page_rep d b es /\ next_word d b = 0 /\
    tail = page_off b + 32 * Z.of_nat (length es).
Proof.
  induction pgs as [|[b es] rest IH]; [done|]. intros [P R]. destruct rest as [|[q qs] rest].
  - exists [], b, es. destruct R. done.
  - destruct R as (_ & _ & R). destruct (IH R) as (init & c & cs & E & Pc & N & T).
    exists ((b, es) :: init), c, cs. by rewrite E.
Qed.

Lemma pages_rep_live d pgs tail b : pages_rep d pgs tail -> b ∈ pgs.*1 -> page_off b ∈ dram_pages d.
Proof.
  induction pgs as [|[c cs] rest IH]; [done|]. intros [P R] [->|Hb]%elem_of_cons; [apply P|].
  destruct rest as [|[q qs] rest]; [by apply elem_of_nil in Hb|]. apply IH; [|done]. by destruct R as (_ & _ & R).
Qed.

(** ** Accesses *)
Lemma dram_ok_at d b o n :
  page_off b ∈ dram_pages d -> 0 <= o < 4096 -> o + Z.of_nat n <= 4096 -> dram_ok d (page_off b + o) n = true.
Proof.
  intros L Ho Hn. unfold dram_ok. destruct (off_split b o Ho) as [-> ->]. rewrite bool_decide_true by done.
  cbn. unfold PAGE_SIZE. by apply Z.leb_le.
Qed.

Definition stored (d : snapshots) (a : Z) (l : list Z) : snapshots := set_dram (store_bytes (dram d) a l) d.

Lemma dstore_run d b o l s :
  page_off b ∈ dram_pages d -> 0 <= o < 4096 -> o + Z.of_nat (length l) <= 4096 ->
  dstore_bytes (page_off b + o) l d s = Ok (tt, stored d (page_off b + o) l) s.
Proof. intros L Ho Hn. unfold dstore_bytes. by rewrite dram_ok_at. Qed.

Lemma dload_run d b o n s :
  page_off b ∈ dram_pages d -> 0 <= o < 4096 -> o + Z.of_nat n <= 4096 ->
  dload n (page_off b + o) d s = Ok (load n (dram d) (page_off b + o), d) s.
Proof.
  intros L Ho Hn. unfold dload, dload_bytes. unfold sbind, bind. by rewrite dram_ok_at.
Qed.

Lemma next_list_page_run d b o s :
  page_off b ∈ dram_pages d -> 0 <= o < 4096 -> next_list_page (page_off b + o) d s = Ok (next_word d b, d) s.
Proof.
  intros L Ho. unfold next_list_page, dload_field, field_addr. rewrite (proj2 (off_split b o Ho)).
  change (sizeof_field nova_inode_page_tail "next_page") with 8%nat.
  change (offsetof nova_inode_page_tail "next_page") with 24. unfold LOG_BLOCK_TAIL.
  replace (page_off b + 4064 + 24) with (page_off b + 4088) by lia. apply dload_run; [done|lia..].
Qed.

Lemma stored_other d b o l c :
  b <> c -> 0 <= o -> o + Z.of_nat (length l) <= 4096 -> same_page d (stored d (page_off b + o) l) c.
Proof.
  intros Hne Ho Hn. split; [done|]. intros x Hx. cbn [dram stored set_dram].
  apply mget_store_bytes_out. unfold page_off in *. lia.
Qed.

Lemma is_last_at b o : 0 <= o <= 4064 -> is_last_entry (page_off b + o) 32 = (4064 <? o + 32).
Proof.
  intros Ho. unfold is_last_entry, LOG_BLOCK_TAIL. rewrite (proj1 (off_split b o ltac:(lia))).
  by rewrite uwrap_small by lia.
Qed.

Lemma concat_length32 es : Forall entry_ok es -> length (concat es) = (32 * length es)%nat.
Proof. induction 1 as [|e es [He _] F IH]; [done|]. cbn [concat length]. rewrite length_app, IH, He. lia. Qed.

(** Writing the next entry of the page [b]. *)
Lemma page_rep_store d b es e :
  page_rep d b es -> (length es < 127)%nat -> entry_ok e ->
  page_rep (stored d (page_off b + 32 * Z.of_nat (length es)) e) b (es ++ [e]).
Proof.
  intros [L R K O B] Hl He. split; [done|done|..].
  - rewrite length_app. cbn. lia.
  - apply Forall_app. split; [done|]. by constructor.
  - rewrite length_app. cbn [length]. replace (32 * (length es + 1))%nat with (32 * length es + 32)%nat by lia.
    rewrite load_bytes_app, concat_app. cbn [concat]. rewrite app_nil_r. cbn [dram stored set_dram].
    rewrite load_bytes_store_other by lia. rewrite B. f_equal.
    replace (Z.of_nat (32 * length es)) with (32 * Z.of_nat (length es)) by lia.
    rewrite <- (proj1 He) at 1. apply load_store_bytes_same.
Qed.

Lemma next_word_stored d b o l :
  0 <= o -> o + Z.of_nat (length l) <= 4088 -> next_word (stored d (page_off b + o) l) b = next_word d b.
Proof. intros Ho Hl. unfold next_word, load. f_equal. apply load_bytes_store_other. lia. Qed.

Lemma write_entry_run d l b es e s :
  page_rep d b es -> (length es < 127)%nat -> entry_ok e ->
  let p := page_off b + 32 * Z.of_nat (length es) in
  nova_write_snapshot_list_entry l p e d s
  = Ok (mkSnapList (sl_num_pages l) (sl_head l) (page_off b + 32 * Z.of_nat (length (es ++ [e]))), stored d p e) s.
Proof.
  intros P Hl He p. unfold nova_write_snapshot_list_entry. rewrite (proj1 He).
  change (Z.of_nat 32) with 32. unfold p. rewrite is_last_at by lia.
  rewrite (proj2 (Z.ltb_ge 4064 _)) by lia.
  rewrite (sbind_ok _ _ _ _ _ _ _ (dstore_run d b (32 * Z.of_nat (length es)) e s (pr_live _ _ _ P) ltac:(lia) ltac:(rewrite (proj1 He); lia))).
  unfold sret, ret. rewrite length_app. cbn [length]. rewrite uwrap_small; [do 3 f_equal; lia|].
  destruct (pr_range _ _ _ P). lia.
Qed.

Lemma same_page_trans d1 d2 d3 b : same_page d1 d2 b -> same_page d2 d3 b -> same_page d1 d3 b.
Proof. intros [A1 A2] [B1 B2]. split; [auto|]. intros x Hx. by rewrite B2, A2. Qed.

(** ** Appending *)
Lemma append_room d l init b es e again s :
  pages_rep d (init ++ [(b, es)]) (sl_tail l) -> (length es < 127)%nat -> entry_ok e ->
  append_pass l e 0 again d s
  = Ok ((0, mkSnapList (sl_num_pages l) (sl_head l) (page_off b + 32 * Z.of_nat (length (es ++ [e])))),
        stored d (sl_tail l) e) s.
Proof.
  intros R Hl He. destruct (pages_rep_split _ _ _ R) as (i' & b' & es' & E & P & _ & Et).
  apply app_inj_tail in E as [-> E]. injection E as <- <-. unfold append_pass. cbn [Z.eqb negb].
  rewrite (sbind_ok _ _ d s l d s) by reflexivity.
  rewrite (proj1 He), Et. change (Z.of_nat 32) with 32. rewrite is_last_at by lia.
  rewrite (proj2 (Z.ltb_ge 4064 _)) by lia.
  rewrite (sbind_ok _ _ d s false d s) by reflexivity.
  rewrite (sbind_ok _ _ d s tt d s) by reflexivity. cbn [andb].
  rewrite (sbind_ok _ _ d s (page_off b + 32 * Z.of_nat (length es)) d s) by reflexivity.
  by rewrite (sbind_ok _ _ _ _ _ _ _ (write_entry_run d l b es e s P Hl He)).
Qed.

Lemma append_full d l init b es e again s :
  pages_rep d (init ++ [(b, es)]) (sl_tail l) -> length es = 127%nat -> entry_ok e ->
  append_pass l e 0 again d s = again (stored d (page_off b + 4064) [7]) s.
Proof.
  intros R Hl He. destruct (pages_rep_split _ _ _ R) as (i' & b' & es' & E & P & N & Et).
  apply app_inj_tail in E as [-> E]. injection E as <- <-. unfold append_pass. cbn [Z.eqb negb].
  rewrite (sbind_ok _ _ d s l d s) by reflexivity.
  rewrite Hl in Et. replace (page_off b + 32 * Z.of_nat 127) with (page_off b + 4064) in Et by lia.
  rewrite (proj1 He), Et. change (Z.of_nat 32) with 32. rewrite is_last_at by lia. change (4064 <? 4064 + 32) with true.
  rewrite (sbind_ok _ _ d s true d s).
  2: { rewrite (sbind_ok _ _ _ _ _ _ _ (next_list_page_run d b 4064 s (pr_live _ _ _ P) ltac:(lia))). by rewrite N. }
  rewrite (sbind_ok _ _ _ _ _ _ _ (dstore_run d b 4064 [7] s (pr_live _ _ _ P) ltac:(lia) ltac:(cbn; lia))).
  reflexivity.
Qed.

(** The second pass, with the new page [q] in place. *)
Lemma append_second d l b es q e again s :
  page_rep d b es -> length es = 127%nat -> sl_tail l = page_off b + 4064 -> page_rep d q [] -> b <> q -> entry_ok e ->
  let d1 := stored d (page_off b + 4088) (le_bytes 8 (page_off q)) in
  let d2 := stored d1 (page_off b + 4064) [7] in
  append_pass l e (page_off q) again d s
  = Ok ((0, mkSnapList (u64 (sl_num_pages l + 1)) (sl_head l) (page_off q + 32)), stored d2 (page_off q) e) s.
Proof.
  intros P Hl Et Q Hne He d1 d2. unfold append_pass. pose proof (pr_range _ _ _ Q) as [Rq Rq'].
  rewrite (proj2 (Z.eqb_neq (page_off q) 0)) by lia. cbn [negb andb].
  pose proof (pr_live _ _ _ P) as Lb. pose proof (pr_live _ _ _ Q) as Lq.
  rewrite (sbind_ok _ _ d s (mkSnapList (u64 (sl_num_pages l + 1)) (sl_head l) (sl_tail l)) d1 s).
  2: { rewrite Et, (proj2 (off_split b 4064 ltac:(lia))). unfold nova_set_next_link_page_address, dstore_field, field_addr.
       change (offsetof nova_inode_log_page "next_page") with 4088.
       by rewrite (sbind_ok _ _ _ _ _ _ _ (dstore_run d b 4088 (le_bytes 8 (page_off q)) s Lb ltac:(lia)
         ltac:(rewrite length_le_bytes; lia))). }
  assert (next_word d1 b = page_off q) as N1.
  { unfold next_word, d1. cbn [dram stored set_dram]. apply load_store_same. change (8 * Z.of_nat 8) with 64. lia. }
  assert (is_last_entry (sl_tail l) (Z.of_nat (length e)) = true) as Hlast.
  { rewrite (proj1 He), Et. by rewrite is_last_at by lia. }
  rewrite Hlast. rewrite (sbind_ok _ _ d1 s false d1 s).
  2: { rewrite Et, (sbind_ok _ _ _ _ _ _ _ (next_list_page_run d1 b 4064 s Lb ltac:(lia))). rewrite N1.
       by rewrite (proj2 (Z.eqb_neq (page_off q) 0)) by lia. }
  rewrite (sbind_ok _ _ d1 s tt d1 s) by reflexivity. cbn [andb].
  rewrite (sbind_ok _ _ d1 s (page_off q) d2 s).
  2: { rewrite Et.
       rewrite (sbind_ok _ _ _ _ _ _ _ (dstore_run d1 b 4064 [7] s Lb ltac:(lia) ltac:(cbn; lia))).
       fold d2. rewrite (next_list_page_run d2 b 4064 s Lb ltac:(lia)). unfold d2. by rewrite next_word_stored, N1 by (cbn; lia). }
  assert (page_rep d2 q []) as Q2.
  { eapply page_rep_frame; [exact Q|]. eapply same_page_trans; apply stored_other; rewrite ?length_le_bytes; cbn; lia. }
  pose proof (write_entry_run d2 (mkSnapList (u64 (sl_num_pages l + 1)) (sl_head l) (sl_tail l)) q [] e s Q2 ltac:(cbn; lia) He) as E.
  cbn [length] in E. change (32 * Z.of_nat 0) with 0 in E. rewrite Z.add_0_r in E.
  rewrite (sbind_ok _ _ _ _ _ _ _ E). reflexivity.
Qed.

(** The work of [nova_append_snapshot_list_entry] on one list. *)
Definition append_core (epoch : Z) (l : snapshot_list) (entry : list Z) : SM (Z * snapshot_list) :=
  append_pass l entry 0 (
    do! new_page := kmalloc in
    if (new_page =? 0) || negb (ENTRY_LOC new_page =? 0) then
      kfree new_page ,,, lift nova_err ,,, sret (- ENOMEM, l)
    else
      nova_set_link_page_epoch_id new_page epoch ,,,
      nova_set_next_link_page_address new_page 0 ,,,
      append_pass l entry new_page (sraise FFuel)).

(** Live pages were handed out earlier. *)
Definition pages_from (d : snapshots) : Prop :=
  forall p, p ∈ dram_pages d -> p <> 0 /\ exists c, (c < kmalloc_clock d)%positive /\ p = kmalloc_page c.

(** Memory for a page is there. *)
Definition page_avail (d : snapshots) : Prop :=
  kmalloc_page (kmalloc_clock d) <> 0 /\ kmalloc_page (kmalloc_clock d) mod 4096 = 0.

(** From [d], [pgs] to [d'], [pgs']: other live pages are kept, pages of the new
    list are old or fresh. *)
Record list_change (d d' : snapshots) (pgs pgs' : list (Z * list (list Z))) : Prop := {
  lch_tree : snapshot_info_tree d' = snapshot_info_tree d;
  lch_num : sbi_num_snapshots d' = sbi_num_snapshots d /\ curr_clean_snapshot_info d' = curr_clean_snapshot_info d;
  lch_from : pages_from d';
  lch_keep : forall b, page_off b ∈ dram_pages d -> b ∉ pgs.*1 -> same_page d d' b;
  lch_fresh : forall b, b ∈ pgs'.*1 -> b ∈ pgs.*1 \/ page_off b ∉ dram_pages d
}.

Lemma list_rep_grow d d' l l' init b es es' :
  list_rep d l (init ++ [(b, es)]) -> (forall c, c ∈ init.*1 -> same_page d d' c) -> page_rep d' b es' ->
  next_word d' b = 0 -> sl_num_pages l' = sl_num_pages l -> sl_head l' = sl_head l ->
  sl_tail l' = page_off b + 32 * Z.of_nat (length es') -> list_rep d' l' (init ++ [(b, es')]).
Proof.
  intros [R ND Hh Hn] S P N E1 E2 E3. rewrite fmap_app in *. split.
  - rewrite E3. eapply pages_rep_suffix; [exact R|done|]. by split.
  - by rewrite fmap_app.
  - rewrite E2, fmap_app. by destruct init.
  - rewrite E1, Hn, !length_app. done.
Qed.

Lemma init_ne (init : list (Z * list (list Z))) b es c : NoDup (init ++ [(b, es)]).*1 -> c ∈ init.*1 -> b <> c.
Proof. rewrite fmap_app, NoDup_app. intros (_ & N & _) Hc ->. apply (N c Hc). by left. Qed.

(** Bytes behind the entries of a full page changed. *)
Lemma page_rep_behind d b es o x :
  page_rep d b es -> 4064 <= o -> page_rep (stored d (page_off b + o) x) b es.
Proof.
  intros [L R K O B] Ho. split; [done..|]. cbn [dram stored set_dram]. rewrite load_bytes_store_other; [done|].
  left. lia.
Qed.

Lemma list_change_stored d init b es es' o x :
  pages_from d -> 0 <= o -> o + Z.of_nat (length x) <= 4096 ->
  list_change d (stored d (page_off b + o) x) (init ++ [(b, es)]) (init ++ [(b, es')]).
Proof.
  intros F Ho Hx. split; [done|done|done|..].
  - intros c Hc Hn. apply stored_other; [|done..]. intros ->. apply Hn. rewrite fmap_app. apply elem_of_app. right. by left.
  - intros c. rewrite !fmap_app. by left.
Qed.

(** What kmalloc leaves: the page [q] is live and new. *)
Lemma kmalloc_new d s :
  pages_from d -> page_avail d ->
  exists q d1, kmalloc d s = Ok (page_off q, d1) s /\ page_off q ∉ dram_pages d /\ page_rep d1 q [] /\ pages_from d1 /\
    snapshot_info_tree d1 = snapshot_info_tree d /\ sbi_num_snapshots d1 = sbi_num_snapshots d /\
    curr_clean_snapshot_info d1 = curr_clean_snapshot_info d /\
    (forall c, page_off c ∈ dram_pages d -> same_page d d1 c).
Proof.
  intros F [Ha Hm]. set (c := kmalloc_clock d) in *. set (a := kmalloc_page c) in *.
  pose proof (kmalloc_range c) as [R1 R2]. pose proof (kmalloc_size c) as Rs. fold a in R1, R2.
  assert (a = page_off (a / 4096)) as Ea by (unfold page_off; pose proof (Z.div_mod a 4096); lia).
  exists (a / 4096). unfold kmalloc. fold c a. rewrite (proj2 (Z.eqb_neq a 0) Ha).
  eexists. split; [unfold ret; by rewrite <- Ea|].
  assert (a ∉ dram_pages d) as Hn.
  { intros (Ha' & c' & Hc & E)%F. fold c in Hc. destruct (kmalloc_apart c c' ltac:(lia) Ha); [by rewrite <- E|lia..]. }
  rewrite <- Ea. split_and!; [done| |..]; try done.
  - split; rewrite <- ?Ea; cbn; [set_solver|lia|lia|constructor|done].
  - intros p Hp. cbn in Hp |- *. apply elem_of_union in Hp as [->%elem_of_singleton|Hp].
    + split; [done|]. exists c. split; [lia|done].
    + destruct (F p Hp) as (Hp0 & c' & Hc & E). split; [done|]. exists c'. split; [|done]. fold c in Hc. lia.
  - intros b Hb. split; [cbn; set_solver|]. intros x Hx. cbn [dram set_dram_pages set_dram set_kmalloc_clock].
    apply mget_store_bytes_out. rewrite Rs. assert (b <> a / 4096) by (intros ->; rewrite <- Ea in Hb; done).
    rewrite Ea. unfold page_off in *. lia.
Qed.

(** [d'] is [d] with the live pages kept and [q] new and empty. *)
Record fresh_page (d d' : snapshots) (q : Z) : Prop := {
  fp_new : page_off q ∉ dram_pages d;
  fp_rep : page_rep d' q [];
  fp_from : pages_from d';
  fp_tree : snapshot_info_tree d' = snapshot_info_tree d;
  fp_num : sbi_num_snapshots d' = sbi_num_snapshots d /\ curr_clean_snapshot_info d' = curr_clean_snapshot_info d;
  fp_keep : forall c, page_off c ∈ dram_pages d -> same_page d d' c
}.

(** A page as the list code prepares it. *)
Lemma new_list_page {A} epoch d s (k no : Z -> SM A) :
  pages_from d -> page_avail d ->
  exists q d', fresh_page d d' q /\ next_word d' q = 0 /\
    (do! new_page := kmalloc in
     if (new_page =? 0) || negb (ENTRY_LOC new_page =? 0) then no new_page
     else
       nova_set_link_page_epoch_id new_page epoch ,,,
       nova_set_next_link_page_address new_page 0 ,,, k new_page) d s = k (page_off q) d' s.
Proof.
  intros F Hav. destruct (kmalloc_new d s F Hav) as (q & d1 & Ek & Hq & Q & F1 & T1 & T2 & T3 & K1).
  rewrite (sbind_ok _ _ _ _ _ _ _ Ek). pose proof (pr_range _ _ _ Q) as [Rq _].
  rewrite (proj2 (Z.eqb_neq (page_off q) 0)) by lia. rewrite page_off_entry. cbn [orb negb Z.eqb].
  pose proof (pr_live _ _ _ Q) as Lq.
  set (d2 := stored d1 (page_off q + 4072) (le_bytes 8 epoch)).
  set (d3 := stored d2 (page_off q + 4088) (le_bytes 8 0)).
  rewrite (sbind_ok _ _ d1 s tt d2 s)
    by (apply (dstore_run d1 q 4072 (le_bytes 8 epoch)); [done|rewrite ?length_le_bytes; lia..]).
  rewrite (sbind_ok _ _ d2 s tt d3 s)
    by (apply (dstore_run d2 q 4088 (le_bytes 8 0)); [done|rewrite ?length_le_bytes; lia..]).
  exists q, d3. split_and!; [|apply load_store_same; cbn; lia|done].
  split; [done|by do 2 (apply page_rep_behind; [|lia])|exact F1|done|done|].
  intros c Hc. assert (c <> q) by (intros ->; done). eapply same_page_trans; [by apply K1|].
  eapply same_page_trans; apply stored_other; rewrite ?length_le_bytes; lia.
Qed.

(** The full page [b] linked to the fresh page [q] that got the entry [e]. *)
Lemma link_new_page d d3 l init b es q e :
  list_rep d l (init ++ [(b, es)]) -> page_rep d b es -> length es = 127%nat -> entry_ok e ->
  fresh_page d d3 q -> next_word d3 q = 0 ->
  let d4 := stored d3 (page_off b + 4088) (le_bytes 8 (page_off q)) in
  let d6 := stored (stored d4 (page_off b + 4064) [7]) (page_off q) e in
  let l' := mkSnapList (u64 (sl_num_pages l + 1)) (sl_head l) (page_off q + 32) in
  list_rep d6 l' (init ++ [(b, es); (q, [e])]) /\ list_change d d6 (init ++ [(b, es)]) (init ++ [(b, es); (q, [e])]).
Proof.
  intros [R ND Hh Hn] P Hl He [Hq Q F T1 T2 K] N d4 d6 l'. set (d5 := stored d4 (page_off b + 4064) [7]) in *.
  pose proof (pr_live _ _ _ P) as Lb. assert (b <> q) as Hne by (intros ->; done).
  assert (forall c, c <> b -> same_page d3 d5 c) as K5.
  { intros c Hc. eapply same_page_trans; apply stored_other; rewrite ?length_le_bytes; cbn; lia. }
  assert (forall c, c <> q -> same_page d5 d6 c) as K6.
  { intros c Hc. unfold d6. rewrite <- (Z.add_0_r (page_off q)). apply stored_other; rewrite ?(proj1 He); lia. }
  assert (forall c, c <> b -> page_off c ∈ dram_pages d -> same_page d d6 c) as Kd.
  { intros c Hb Hc. eapply same_page_trans; [by apply K|]. eapply same_page_trans; [by apply K5|].
    apply K6. intros ->. done. }
  assert (forall c, c ∈ (init ++ [(b, es)]).*1 -> c <> q) as Hnq.
  { intros c Hc ->. apply Hq. by apply (pages_rep_live d _ _ q R). }
  assert (pages_rep d6 [(b, es); (q, [e])] (sl_tail l')) as R6.
  { cbn [pages_rep]. split; [|split; [|split; [by left|split; [|split]]]].
    - eapply page_rep_frame; [|by apply K6]. do 2 (apply page_rep_behind; [|lia]).
      eapply page_rep_frame; [exact P|by apply K].
    - rewrite (next_word_frame d5 d6 b (K6 b Hne)). unfold d5. rewrite next_word_stored by (cbn; lia).
      unfold next_word, d4. cbn [dram stored set_dram]. apply load_store_same. change (8 * Z.of_nat 8) with 64.
      destruct (pr_range _ _ _ Q). lia.
    - unfold d6. rewrite <- (Z.add_0_r (page_off q)). apply (page_rep_store d5 q [] e); [|cbn; lia|done].
      eapply page_rep_frame; [exact Q|by apply K5].
    - unfold d6. rewrite <- (Z.add_0_r (page_off q)), next_word_stored by (rewrite ?(proj1 He); lia).
      by rewrite (next_word_frame d3 d5 q) by (by apply K5).
    - cbn. lia. }
  split; split.
  - eapply pages_rep_suffix; [exact R| |exact R6]. intros c Hc. apply Kd.
    + intros ->. by apply (init_ne init b es b ND Hc).
    + apply (pages_rep_live d _ _ c R). rewrite fmap_app. apply elem_of_app. by left.
  - change [(b, es); (q, [e])] with ([(b, es)] ++ [(q, [e])]). rewrite app_assoc, fmap_app.
    apply NoDup_app. split_and!; [done| |apply NoDup_singleton].
    intros c Hc ->%list_elem_of_singleton. by apply (Hnq q Hc).
  - cbn [sl_head]. rewrite fmap_app in *. by destruct init.
  - cbn [sl_num_pages l']. rewrite Hn, !length_app. cbn [length]. unfold u64, uwrap. rewrite Zplus_mod_idemp_l. f_equal. lia.
  - done.
  - done.
  - exact F.
  - intros c Hlive Hc. apply Kd; [|done]. intros ->. apply Hc. rewrite fmap_app. apply elem_of_app. right. by left.
  - intros c. rewrite !fmap_app, !elem_of_app. cbn. rewrite !elem_of_cons.
    intros [Hc|[->|[->|[]%elem_of_nil]]]; [left; by left|left; right; by left|by right].
Qed.

Lemma list_change_trans d1 d2 d3 pgs pgs' :
  list_change d1 d2 pgs pgs -> list_change d2 d3 pgs pgs' -> list_change d1 d3 pgs pgs'.
Proof.
  intros [A1 [A2 A2'] A3 A4 A5] [B1 [B2 B2'] B3 B4 B5]. split; [congruence|split; congruence|done|..].
  - intros b Hb Hn. pose proof (A4 b Hb Hn) as S. eapply same_page_trans; [exact S|]. apply B4; [by apply S|done].
  - intros b Hb. destruct (decide (b ∈ pgs.*1)) as [Hp|Hp]; [by left|right].
    destruct (B5 b Hb) as [|Hf]; [done|]. intros Hd. by apply Hf, (A4 b Hd Hp).
Qed.

Lemma entries_of_last init b es e : entries_of (init ++ [(b, es ++ [e])]) = entries_of (init ++ [(b, es)]) ++ [e].
Proof. unfold entries_of. rewrite !fmap_app, !concat_app. cbn. by rewrite !app_nil_r, app_assoc. Qed.
Lemma entries_of_new init b es q e : entries_of (init ++ [(b, es); (q, [e])]) = entries_of (init ++ [(b, es)]) ++ [e].
Proof. unfold entries_of. rewrite !fmap_app, !concat_app. cbn. by rewrite !app_nil_r, app_assoc. Qed.

(** No page to be had: the list keeps its entries. *)
Lemma no_page_run {A} d s (k : Z -> SM A) (no : SM A) :
  pages_from d -> ~ page_avail d ->
  exists d', (do! new_page := kmalloc in
     if (new_page =? 0) || negb (ENTRY_LOC new_page =? 0) then kfree new_page ,,, no else k new_page) d s = no d' s /\
   pages_from d' /\ snapshot_info_tree d' = snapshot_info_tree d /\
   sbi_num_snapshots d' = sbi_num_snapshots d /\ curr_clean_snapshot_info d' = curr_clean_snapshot_info d /\
   forall c, page_off c ∈ dram_pages d -> same_page d d' c.
Proof.
  intros F Hav. set (c := kmalloc_clock d). set (a := kmalloc_page c). pose proof (kmalloc_range c) as [R1 R2]. fold a in R1, R2.
  assert ((a =? 0) || negb (ENTRY_LOC a =? 0) = true) as Hbad.
  { destruct (Z.eqb_spec a 0) as [|Ha]; [done|]. destruct (Z.eqb_spec (ENTRY_LOC a) 0) as [El|]; [|done].
    exfalso. apply Hav. split; [done|]. fold c a. unfold ENTRY_LOC, PAGE_OFFSET_MASK in El. change 4095 with (2 ^ 12 - 1) in El.
    by rewrite land_mask in El. }
  set (d1 := if a =? 0 then set_kmalloc_clock (c + 1) d
    else set_dram_pages ({[ a ]} ∪ dram_pages d) (set_dram (store_bytes (dram d) a (kmalloc_bytes c)) (set_kmalloc_clock (c + 1) d))).
  assert (kmalloc d s = Ok (a, d1) s) as Ek.
  { unfold kmalloc, d1. fold c a. destruct (Z.eqb_spec a 0) as [->|]; done. }
  exists (set_dram_pages (dram_pages d1 ∖ {[ a ]}) d1). rewrite (sbind_ok _ _ _ _ _ _ _ Ek), Hbad.
  split; [by rewrite (sbind_ok _ _ _ _ tt (set_dram_pages (dram_pages d1 ∖ {[ a ]}) d1) s)|].
  assert (forall p, p ∈ dram_pages d -> p + 4096 <= a \/ a + 4096 <= p \/ a = 0) as Far.
  { intros p (Hp & c' & Hc & E)%F. fold c in Hc. destruct (decide (a = 0)) as [|Ha]; [by right; right|].
    destruct (kmalloc_apart c c' ltac:(lia) Ha); [by rewrite <- E|lia..]. }
  assert (dram_pages d ⊆ dram_pages d1 ∖ {[ a ]}) as Hsub.
  { intros p Hp. apply elem_of_difference. split.
    - unfold d1. destruct (a =? 0); cbn; [done|]. apply elem_of_union. by right.
    - intros ->%elem_of_singleton. destruct (Far a Hp) as [|[|Ha]]; [lia..|]. by destruct (F a Hp). }
  assert (kmalloc_clock d1 = (c + 1)%positive) as Ec by (unfold d1; by case_match).
  split_and!; try (unfold d1; by case_match).
  - intros p Hp. cbn [dram_pages set_dram_pages] in Hp. apply elem_of_difference in Hp as [Hp Hn].
    assert (p ∈ dram_pages d) as Hd.
    { unfold d1 in Hp. destruct (a =? 0); cbn in Hp; [done|]. apply elem_of_union in Hp as [|]; done. }
    destruct (F p Hd) as (Hp0 & c' & Hc & E). split; [done|]. exists c'. split; [|done].
    cbn [kmalloc_clock set_dram_pages]. rewrite Ec. fold c in Hc. lia.
  - intros b Hb. split; [by intros _; apply Hsub|]. intros x Hx. cbn [dram set_dram_pages].
    unfold d1. destruct (Z.eqb_spec a 0); [done|]. cbn [dram set_dram_pages set_dram set_kmalloc_clock].
    apply mget_store_bytes_out. rewrite kmalloc_size. destruct (Far _ Hb) as [|[|]]; lia.
Qed.

Lemma append_core_run epoch l d pgs e s :
  list_rep d l pgs -> entry_ok e -> pages_from d -> test_opt s NOVA_MOUNT_ERRORS_PANIC = false ->
  exists r l' d' s' pgs', append_core epoch l e d s = Ok ((r, l'), d') s' /\ nvmm s' = nvmm s /\
    list_rep d' l' pgs' /\ list_change d d' pgs pgs' /\
    ((r = 0 /\ s' = s /\ entries_of pgs' = entries_of pgs ++ [e]) \/
     (r = - ENOMEM /\ entries_of pgs' = entries_of pgs /\ ~ page_avail d)).
Proof.
  intros L He F Hp. destruct (pages_rep_split _ _ _ (lr_pages _ _ _ L)) as (init & b & es & -> & P & N & Et).
  pose proof (lr_pages _ _ _ L) as R. pose proof (lr_nodup _ _ _ L) as ND. pose proof (pr_room _ _ _ P) as Room.
  unfold append_core. destruct (decide (length es < 127)%nat) as [Hl|Hl].
  - rewrite (append_room d l init b es e _ s R Hl He). eexists 0, _, _, s, (init ++ [(b, es ++ [e])]).
    split; [reflexivity|]. rewrite Et. split; [done|]. split; [|split; [|left]].
    + eapply list_rep_grow; [exact L| |by apply page_rep_store|by rewrite next_word_stored by (rewrite ?(proj1 He); lia)|done..].
      intros c Hc. apply stored_other; [by eapply init_ne|rewrite ?(proj1 He); lia..].
    + apply list_change_stored; [done|rewrite ?(proj1 He); lia..].
    + split_and!; [done..|]. apply entries_of_last.
  - assert (length es = 127%nat) as Hl' by lia. rewrite (append_full d l init b es e _ s R Hl' He).
    set (d0 := stored d (page_off b + 4064) [7]). assert (pages_from d0) as F0 by done.
    assert (page_rep d0 b es) as P0 by (apply page_rep_behind; [done|lia]).
    assert (list_rep d0 l (init ++ [(b, es)])) as L0.
    { eapply list_rep_grow; [exact L| |exact P0| |done..].
      - intros c Hc. apply stored_other; [by eapply init_ne|cbn; lia..].
      - unfold d0. by rewrite next_word_stored by (cbn; lia). }
    pose proof (list_change_stored d init b es es 4064 [7] F ltac:(lia) ltac:(cbn; lia)) as C0. fold d0 in C0.
    destruct (decide (kmalloc_page (kmalloc_clock d0) <> 0 /\ kmalloc_page (kmalloc_clock d0) mod 4096 = 0)) as [Hav|Hav].
    + destruct (new_list_page epoch d0 s (fun p => append_pass l e p (sraise FFuel))
        (fun p => kfree p ,,, lift nova_err ,,, sret (- ENOMEM, l)) F0 Hav) as (q & d3 & Fp & Nq & ->).
      assert (b <> q) as Hne by (intros ->; apply (fp_new _ _ _ Fp), P).
      assert (page_rep d3 b es) as P3 by (eapply page_rep_frame; [exact P0|apply Fp, P]).
      rewrite (append_second d3 l b es q e _ s P3 Hl'); [|rewrite Et, Hl'; lia|apply Fp|done|done].
      destruct (link_new_page d0 d3 l init b es q e L0 P0 Hl' He Fp Nq) as [L6 C6].
      eexists 0, _, _, s, _. split; [reflexivity|]. split_and!; [done|exact L6|by eapply list_change_trans|left].
      split_and!; [done..|]. apply entries_of_new.
    + destruct (no_page_run d0 s (fun p => nova_set_link_page_epoch_id p epoch ,,,
        nova_set_next_link_page_address p 0 ,,, append_pass l e p (sraise FFuel))
        (lift nova_err ,,, sret (- ENOMEM, l)) F0 Hav) as (d1 & -> & F1 & T1 & T2 & T3 & K1).
      destruct (nova_err_run s Hp) as (s' & Es & Ns & _).
      rewrite (sbind_ok _ _ d1 s tt d1 s') by (unfold lift; by rewrite (bind_ok _ _ _ _ _ Es)).
      eexists (- ENOMEM), l, d1, s', (init ++ [(b, es)]). split; [reflexivity|]. split_and!; [done| |..].
      * destruct L0 as [R0 N0 H0' M0]. split; [|done..]. eapply pages_rep_frame; [|exact R0].
        intros c Hc. apply K1. by eapply pages_rep_live.
      * eapply list_change_trans; [exact C0|]. split; [done..|by intros c Hc _; apply K1|by left].
      * right. done.
Qed.
End lists.

(** ** All lists of all snapshots *)
Section snaps.
Context `{NovaEnv, RbLib, MediaLib, KmallocOk}.

Definition has_list (d : snapshots) (k : Z) (i : nat) : Prop :=
  exists info l, snapshot_info_tree d !! k = Some info /\ si_lists info !! i = Some l.

(** [P k i] are the pages of the list of snapshot [k] and CPU [i]. *)
Record snaps_rep (d : snapshots) (P : Z -> nat -> list (Z * list (list Z))) : Prop := {
  sr_table : table_ok d;
  sr_from : pages_from d;
  sr_list : forall k info i l, snapshot_info_tree d !! k = Some info -> si_lists info !! i = Some l -> list_rep d l (P k i);
  sr_disj : forall k i k' i' b, has_list d k i -> has_list d k' i' -> b ∈ (P k i).*1 -> b ∈ (P k' i').*1 ->
    k = k' /\ i = i'
}.

Definition set_pages (P : Z -> nat -> list (Z * list (list Z))) (k : Z) (i : nat) pgs k' i' :=
  if decide (k' = k /\ i' = i) then pgs else P k' i'.

(** The list of snapshot [k] and CPU [i] replaced by [l]. *)
Definition with_list (k : Z) (i : nat) (l : snapshot_list) (d : snapshots) : snapshots :=
  set_snapshot_info_tree
    (alter (fun info => mkSnapInfo (si_epoch_id info) (si_timestamp info) (si_snapshot_entry info)
       (<[i := l]> (si_lists info))) k (snapshot_info_tree d)) d.

Lemma with_list_lookup k i l d k' info' :
  snapshot_info_tree (with_list k i l d) !! k' = Some info' ->
  exists info, snapshot_info_tree d !! k' = Some info /\ si_epoch_id info' = si_epoch_id info /\
    si_lists info' = if decide (k' = k) then <[i := l]> (si_lists info) else si_lists info.
Proof.
  cbn [with_list snapshot_info_tree set_snapshot_info_tree]. destruct (decide (k' = k)) as [->|Hne].
  - rewrite lookup_alter_eq. intros (info & E & E')%fmap_Some. exists info. by subst info'.
  - rewrite lookup_alter_ne by done. intros E. by exists info'.
Qed.

Lemma with_list_has k i l d k' i' : has_list (with_list k i l d) k' i' -> has_list d k' i'.
Proof.
  intros (info' & l' & E & El). destruct (with_list_lookup _ _ _ _ _ _ E) as (info & E0 & _ & Ls).
  exists info. rewrite Ls in El. case_decide; [|by exists l'].
  destruct (decide (i = i')) as [<-|Hne].
  - apply list_lookup_insert_Some in El as [(_ & _ & Hi)|[]]; [|done].
    apply lookup_lt_is_Some in Hi as [x Hx]. by exists x.
  - rewrite list_lookup_insert_ne in El by done. by exists l'.
Qed.

Lemma snaps_rep_change d d' P k i l' pgs' :
  snaps_rep d P -> has_list d k i -> list_change d d' (P k i) pgs' -> list_rep d' l' pgs' ->
  snaps_rep (with_list k i l' d') (set_pages P k i pgs').
Proof.
  intros [T F L D] Hk [C1 C2 C3 C4 C5] L'.
  assert (forall k' i', has_list d' k' i' -> has_list d k' i') as Hd
    by (intros k' i' (info & l & E & El); exists info, l; by rewrite <- C1).
  assert (forall k' i' b, has_list d k' i' -> b ∈ (P k' i').*1 -> page_off b ∈ dram_pages d) as Live.
  { intros k' i' b (info & l & E & El) Hb. eapply pages_rep_live; [apply (L _ _ _ _ E El)|done]. }
  assert (forall k' i', ~ (k' = k /\ i' = i) -> has_list d k' i' -> forall b, b ∈ (P k' i').*1 -> b ∉ pgs'.*1) as Apart.
  { intros k' i' Hne Hh b Hb Hp. destruct (C5 b Hp) as [Hp'|Hp'].
    - apply Hne. by apply (D k' i' k i b).
    - by apply Hp', (Live k' i'). }
  split.
  - intros k' info' (info & E & -> & _)%with_list_lookup. rewrite C1 in E. by apply T.
  - exact C3.
  - intros k' info' i' l E' El. destruct (with_list_lookup _ _ _ _ _ _ E') as (info & E & _ & Ls).
    rewrite C1 in E. rewrite Ls in El. unfold set_pages.
    destruct (decide (k' = k /\ i' = i)) as [Hd'|Hd'].
    + destruct Hd' as [-> ->]. rewrite decide_True in El by done.
      apply list_lookup_insert_Some in El as [(_ & <- & _)|[]]; [|done].
      destruct L' as [A1 A2 A3 A4]. split; [|done..]. eapply pages_rep_frame; [|exact A1]. intros b _. by split.
    + assert (si_lists info !! i' = Some l) as El'.
      { destruct (decide (k' = k)) as [->|]; [|done]. rewrite list_lookup_insert_ne in El; [done|]. intros ->. by apply Hd'. }
      destruct (L _ _ _ _ E El') as [A1 A2 A3 A4]. split; [|done..]. eapply pages_rep_frame; [|exact A1].
      intros b Hb. assert (has_list d k' i') as Hh by (by exists info, l).
      destruct (C4 b (Live _ _ _ Hh Hb)) as [B1 B2]; [|by split].
      intros Hp. apply Hd'. by apply (D k' i' k i b).
  - intros k1 i1 k2 i2 b Hh1%with_list_has%Hd Hh2%with_list_has%Hd. unfold set_pages.
    destruct (decide (k1 = k /\ i1 = i)) as [[-> ->]|N1], (decide (k2 = k /\ i2 = i)) as [[-> ->]|N2]; intros B1 B2.
    + done.
    + by destruct (Apart k2 i2 N2 Hh2 b B2).
    + by destruct (Apart k1 i1 N1 Hh1 b B1).
    + by apply (D k1 i1 k2 i2 b).
Qed.

Lemma append_entry_run d P s k info e :
  snaps_rep d P -> test_opt s NOVA_MOUNT_ERRORS_PANIC = false -> snapshot_info_tree d !! k = Some info ->
  is_Some (si_lists info !! Z.to_nat (nova_get_cpuid s)) -> entry_ok e ->
  let cpu := Z.to_nat (nova_get_cpuid s) in
  exists r d' s' pgs', nova_append_snapshot_list_entry info e d s = Ok (r, d') s' /\ nvmm s' = nvmm s /\
    snaps_rep d' (set_pages P k cpu pgs') /\
    ((r = 0 /\ entries_of pgs' = entries_of (P k cpu) ++ [e]) \/
     (r = - ENOMEM /\ entries_of pgs' = entries_of (P k cpu) /\ ~ page_avail d)).
Proof.
  intros R Hp Ek [l El] He cpu. pose proof (sr_list _ _ R k info cpu l Ek El) as L.
  destruct (append_core_run (si_epoch_id info) l d (P k cpu) e s L He (sr_from _ _ R) Hp)
    as (r & l' & d' & s' & pgs' & E & Ns & L' & C & Hr).
  exists r, (with_list k cpu l' d'), s', pgs'. split_and!; [|done| |].
  - unfold nova_append_snapshot_list_entry. rewrite (sbind_ok _ _ d s (nova_get_cpuid s) d s) by reflexivity.
    rewrite El. rewrite (sbind_ok _ _ _ _ _ _ _ E). by rewrite (sr_table _ _ R k info Ek).
  - eapply snaps_rep_change; [done|by exists info, l|done|done].
  - destruct Hr as [(-> & _ & Hr)|Hr]; [by left|by right].
Qed.

Lemma file_write_entry_ok nv np dl : entry_ok (file_write_bytes nv np dl).
Proof.
  split; [|done]. unfold file_write_bytes. by rewrite !length_app, !length_le_bytes, length_replicate.
Qed.

(** C21: when data written in epoch [c] is replaced in epoch [dl], it
    is handed to the first snapshot taken in between: the entry is appended to
    that snapshot's list of the running CPU, the result 0 tells the caller to
    keep the blocks, and every other list keeps its entries; only when no page
    can be allocated the entry is lost, still with result 0.  When no snapshot
    was taken in between the result is 1 and nothing changes. *)
Theorem nova_append_data_to_snapshot_correct s d P c nv np dl :
  snaps_rep d P -> test_opt s NOVA_MOUNT_ERRORS_PANIC = false ->
  (forall k info, snapshot_info_tree d !! k = Some info -> is_Some (si_lists info !! Z.to_nat (nova_get_cpuid s))) ->
  exists r d' s' P', nova_append_data_to_snapshot c nv np dl d s = Ok (r, d') s' /\ nvmm s' = nvmm s /\ snaps_rep d' P' /\
    let cpu := Z.to_nat (nova_get_cpuid s) in
    ((r = 1 /\ ~ seen d c dl /\ d' = d /\ s' = s /\ P' = P) \/
     (exists k, r = 0 /\ first_snapshot d c k /\ k < dl /\
        (forall k' i', ~ (k' = k /\ i' = cpu) -> P' k' i' = P k' i') /\
        (entries_of (P' k cpu) = entries_of (P k cpu) ++ [file_write_bytes nv np dl] \/
         entries_of (P' k cpu) = entries_of (P k cpu) /\ ~ page_avail d))).
Proof.
  intros R Hp Hcpu. destruct (deleteable_run c dl d s (sr_table _ _ R)) as (r & o & E & Ho).
  unfold nova_append_data_to_snapshot. rewrite (sbind_ok _ _ _ _ _ _ _ E). destruct o as [info|]; cbn [fst snd].
  - destruct Ho as (-> & Ek & Hf & Hlt). cbn [Z.eqb].
    destruct (append_entry_run d P s _ info (file_write_bytes nv np dl) R Hp Ek (Hcpu _ _ Ek) (file_write_entry_ok _ _ _))
      as (r & d' & s' & pgs' & Ea & Ns & R' & Hr).
    exists 0, d', s', (set_pages P (si_epoch_id info) (Z.to_nat (nova_get_cpuid s)) pgs').
    split_and!; [|done|done|right; exists (si_epoch_id info); split_and!; [done|done|done| |]].
    + by rewrite (sbind_ok _ _ d s tt d' s') by (by rewrite (sbind_ok _ _ _ _ _ _ _ Ea)).
    + intros k' i' Hne. unfold set_pages. by rewrite decide_False.
    + unfold set_pages. rewrite decide_True by done. destruct Hr as [[_ Hr]|(_ & Hr & Hn)]; [by left|by right].
  - destruct Ho as (-> & Hs). exists 1, d, s, P. split_and!; [done..|by left].
Qed.
End snaps.
