(* ===== verification/MetaExample.v ===== *)
(** Metadata, log entries and snapshots on the device of [BallocExample]. *)

(** A log entry and its replica on the device of [BallocExample]: written,
    damaged, poisoned and repaired. *)

From stdpp Require Import strings.
From S2P Require Import Prelude CInt Crc32c NovaEnv RangeNode Pmem NovaState NovaMonad NovaLib.
From S2P Require Import Balloc BallocSpec BallocAlloc BallocInit BallocExample NovaLayout PmemOps LogPage LogPageSpec.
From S2P Require Import MetaCsum MetaCsumSpec MetaInodeSpec.

Module MetaExample.
Import BallocExample.
Local Open Scope nova_scope.
Local Open Scope list_scope.

(** The radii [512 * k] for [k] in [bad] are poisoned until they are written. *)
Definition rewritten (t : list pm_event) (p : Z) : bool :=
  existsb (fun ev => match ev with
    | EvStore q l => (q =? p) && (Z.of_nat (length l) =? 512)
    | _ => false end) t.

Definition media (bad : list Z) : MediaLib := {|
  poisoned := fun t a => existsb (fun k => (512 * k <=? a) && (a <? 512 * k + 512) && negb (rewritten t (512 * k))) bad;
  copied := fun _ _ _ => 0%nat;
  mcsafe_error := fun _ _ _ => - EFAULT
|}.

#[export] Instance media_neg bad : @McsafeNegative (media bad).
Proof. intros ? ? ?. reflexivity. Qed.

Lemma media_ok bad : @MediaOk (media bad).
Proof.
  split; cbn [poisoned media]; [apply media_neg|..].
  - intros t t' a Hp. apply not_true_iff_false. intros (k & Hk & Hx)%existsb_exists.
    assert (existsb (fun k => (512 * k <=? a) && (a <? 512 * k + 512) && negb (rewritten t (512 * k))) bad = true); [|congruence].
    apply existsb_exists. exists k. split; [done|]. unfold rewritten in *. rewrite existsb_app, negb_orb in Hx.
    apply andb_true_iff in Hx as [-> Hx]. by apply andb_true_iff in Hx as [-> _].
  - unfold POISON_RADIUS. intros t p l a Hp Hl Ha. apply not_true_iff_false. intros (k & Hk & Hx)%existsb_exists.
    rewrite !andb_true_iff, Z.leb_le, Z.ltb_lt in Hx. destruct Hx as [[H1 H2] Hx].
    pose proof (Z.div_mod p 512 ltac:(lia)). assert (p = 512 * k) as Ep by lia.
    unfold rewritten in Hx. rewrite existsb_app in Hx. cbn in Hx.
    by rewrite <- Ep, Z.eqb_refl, (proj2 (Z.eqb_eq _ _) Hl), orb_true_r in Hx.
Qed.

(** Pages 600 and 601 are each other's alternate page; a write entry is at
    offset 64. *)
Definition base : Z := 0x100000000.
Definition m0 : mem :=
  store 8 (store 8 (store 8 (store 1 ∅ (base + 600 * 4096 + 64) 1)
    (base + 600 * 4096 + 72) 0x1234) (base + 600 * 4096 + 4080) (601 * 4096)) (base + 601 * 4096 + 4080) (600 * 4096).
Definition e0 : nova := set_nvmm m0 (set_cr0_wp false s1).

Lemma pages_of m :
  load 8 m (base + 600 * 4096 + 4080) = 601 * 4096 -> load 8 m (base + 601 * 4096 + 4080) = 600 * 4096 ->
  entry_pages (set_nvmm m (set_cr0_wp false s1)) 600 601 64.
Proof. intros L1 L2. split; try done; vm_compute; intuition congruence. Qed.

Lemma fits_of m b l :
  entry_image m (base + b * 4096 + 64) = Some l -> entry_kind (load 1 m (base + b * 4096 + 64)) <> Some DIR_LOG ->
  64 + Z.of_nat (length l) <= 4064 -> fits (set_nvmm m (set_cr0_wp false s1)) b 64.
Proof.
  intros E N Hl. split; [by intros X|]. intros l' E'. change (addr _ b 64) with (base + b * 4096 + 64) in E'.
  cbn [nvmm set_nvmm] in E'. rewrite E in E'. injection E' as <-. done.
Qed.

Definition written (m : mem) : list Z := load_bytes m (base + 600 * 4096 + 64) 64.

Lemma m0_bytes : mem_bytes m0.
Proof. unfold m0. repeat apply mem_bytes_store. apply mem_bytes_empty. Qed.

Lemma entry_csum_roundtrip_witness :
  exists l' s', (nova_update_entry_csum (base + 600 * 4096 + 64) ;;;
    @nova_update_alter_entry env (media []) (base + 600 * 4096 + 64)) e0 = Ok 0 s' /\
    same_but_csum FILE_WRITE (written m0) l' /\ csum_ok l' = true /\ healed e0 s' 600 601 64 l' /\
    exists s'', @nova_verify_entry_csum env (media []) (base + 600 * 4096 + 64) s' = Ok (true, Some l') s'' /\
      healed s' s'' 600 601 64 l'.
Proof.
  apply (@entry_csum_roundtrip env (media []) (media_ok []) CrcExample.env_ok e0 600 601 64 (written m0) FILE_WRITE).
  - discriminate.
  - vm_compute. reflexivity.
  - apply pages_of; vm_compute; reflexivity.
  - apply (fits_of m0 600 (written m0)); [vm_compute; reflexivity|vm_compute; discriminate|vm_compute; discriminate].
  - apply m0_bytes.
  - vm_compute. reflexivity.
  - vm_compute. reflexivity.
  - vm_compute. reflexivity.
  - vm_compute. reflexivity.
  - vm_compute. reflexivity.
  - vm_compute. reflexivity.
Defined.

(** The entry as it was written, then its primary copy damaged; in the second
    device the primary's poison radius cannot be read either. *)
Definition m1 : mem := Eval vm_compute in
  nvmm (run (nova_update_entry_csum (base + 600 * 4096 + 64) ;;;
    @nova_update_alter_entry env (media []) (base + 600 * 4096 + 64)) e0).
Definition m2 : mem := Eval vm_compute in store 8 m1 (base + 600 * 4096 + 72) 0x9999.
Definition e2 : nova := set_nvmm m2 (set_cr0_wp false s1).
Definition good : list Z := Eval vm_compute in written m1.
Definition bad_radius : Z := Eval vm_compute in (base + 600 * 4096) / 512.


(** With both copies damaged and readable the entry is refused. *)
Example both_bad :
  match @nova_verify_entry_csum env (media []) (base + 600 * 4096 + 64)
          (set_nvmm (store 8 m2 (base + 601 * 4096 + 72) 0x7777) e2) with
  | Ok (ok, out) _ => (ok, out)
  | Fault _ => (true, None)
  end = (false, None).
Proof. vm_compute. reflexivity. Qed.

(** A directory entry whose length is too large is reported as copied although
    its checksum and size were never set. *)
Example oversized_dentry_uninit :
  @nova_verify_entry_csum env (media []) (base + 600 * 4096 + 64)
    (set_nvmm (store 2 (store 1 m1 (base + 600 * 4096 + 64) 2) (base + 600 * 4096 + 68) 4000) e2)
  = Fault FUninit.
Proof. vm_compute. reflexivity. Qed.

(** With the convention of later kernels, a copy that fails returns the number of
    bytes it did not copy: the tests for a negative code let it pass, nothing is
    repaired, and bytes that were never read are used. *)
Definition counting_media (bad : list Z) : MediaLib := {|
  poisoned := @poisoned (media bad);
  copied := fun _ _ _ => 0%nat;
  mcsafe_error := fun _ _ n => Z.of_nat n
|}.
Lemma poisoned_entry_passes :
  @nova_verify_entry_csum env (counting_media [bad_radius]) (base + 600 * 4096 + 64) e2 = Fault FUninit.
Proof. vm_compute. reflexivity. Qed.

(** Inodes at the pages 700 and 701; the primary's size field was damaged. *)
Definition im : mem := Eval vm_compute in
  let c := nova_crc32c (u32 (-1)) (load_bytes ∅ 0 116) in
  store 8 (store 4 (store 4 ∅ (base + 700 * 4096 + 116) c) (base + 701 * 4096 + 116) c) (base + 700 * 4096 + 8) 77.
Definition i0 : nova := set_nvmm im s1.

End MetaExample.

(** Entries marked on the device of [MetaExample]: the last valid page of a
    write entry is given up, and a write entry is reassigned. *)

From stdpp Require Import strings.
From S2P Require Import Prelude CInt Crc32c NovaEnv RangeNode Pmem NovaState NovaMonad NovaLib.
From S2P Require Import Balloc BallocSpec BallocAlloc BallocInit BallocExample NovaLayout PmemOps LogPage LogPageSpec.
From S2P Require Import MetaCsum MetaCsumSpec MetaInodeSpec LogEntry LogEntrySpec.

Module LogEntryExample.
Import BallocExample MetaExample.
Local Open Scope nova_scope.
Local Open Scope list_scope.

(** The write entry has four pages, three of them invalid; its page counts six
    invalid entries. *)
Definition entry : Z := base + 600 * 4096 + 64.
Definition lm : mem :=
  store 4 (store 4 (store 4 m0
    (entry + offsetof nova_file_write_entry "num_pages") 4)
    (entry + offsetof nova_file_write_entry "invalid_pages") 3)
    (base + 600 * 4096 + LOG_BLOCK_TAIL) 6.
Definition ls : nova := set_nvmm lm (set_cr0_wp false s1).

Lemma lm_bytes : mem_bytes lm.
Proof. unfold lm. do 3 apply mem_bytes_store. apply m0_bytes. Qed.

Lemma ls_live : @live_entry env (media []) ls 600 601 64 FILE_WRITE (written lm).
Proof.
  split.
  - apply pages_of; vm_compute; reflexivity.
  - apply (fits_of lm 600 (written lm)); [vm_compute; reflexivity|vm_compute; discriminate..].
  - apply lm_bytes.
  - vm_compute. reflexivity.
  - vm_compute. reflexivity.
  - vm_compute. reflexivity.
  - vm_compute. reflexivity.
Qed.

Lemma nova_invalidate_reassign_logentry_correct_witness :
  exists l' s', @nova_invalidate_reassign_logentry env (media []) entry FILE_WRITE false 1 ls = Ok 0 s' /\
    same_but_csum FILE_WRITE (marked_image FILE_WRITE false 1 (written lm)) l' /\ csum_ok l' = true /\
    healed ls s' 600 601 64 l' /\ load 4 (nvmm s') (base + 600 * 4096 + LOG_BLOCK_TAIL) = 7.
Proof.
  destruct (@nova_invalidate_reassign_logentry_correct env (media []) (media_ok []) CrcExample.env_ok ls 600 601 64
    (written lm) FILE_WRITE false 1 ltac:(discriminate) ls_live) as (l' & s' & E & Sm & Ok' & Hh & Hc).
  exists l', s'. split_and!; [exact E|exact Sm|exact Ok'|exact Hh|].
  refine (eq_trans Hc _). vm_compute. reflexivity.
Defined.

(** Reassigning the entry counts nothing: one of its pages is still valid. *)
Example reassigned_still_valid :
  match @nova_reassign_logentry env (media []) entry FILE_WRITE ls with
  | Ok _ s => (load 1 (nvmm s) (entry + offsetof nova_file_write_entry "reassigned"),
               load 4 (nvmm s) (base + 600 * 4096 + LOG_BLOCK_TAIL))
  | Fault _ => (0, 0)
  end = (1, 6).
Proof. vm_compute. reflexivity. Qed.
End LogEntryExample.

(** One snapshot of epoch 5 on a machine with two CPUs: data written in epoch 3
    and replaced in epoch 8 is handed to it. *)

From stdpp Require Import strings.
From S2P Require Import Prelude CInt Crc32c NovaEnv RangeNode Pmem NovaState NovaMonad NovaLib.
From S2P Require Import Balloc BallocSpec BallocInit BallocExample NovaLayout LogPage LogPageSpec.
From S2P Require Import MetaCsum LogEntry Snapshot SnapshotSpec.

Module SnapshotExample.
Import BallocExample MetaExample.
Local Open Scope nova_scope.
Local Open Scope list_scope.

(** A thousand pages, then no memory. *)
#[export] Instance kmalloc_lib : KmallocLib := {|
  kmalloc_page := fun c => if (c <=? 1000)%positive then 4096 * (65536 + Z.pos c) else 0;
  kmalloc_bytes := fun _ => replicate 4096 170;
  snapshot_node_ok := fun _ _ => true
|}.

#[export] Instance kmalloc_ok : KmallocOk.
Proof.
  split; cbn [kmalloc_page kmalloc_bytes kmalloc_lib].
  - intros c c' Hne. destruct (Pos.leb_spec c 1000), (Pos.leb_spec c' 1000); lia.
  - intros c. destruct (Pos.leb_spec c 1000); lia.
  - intros c. apply length_replicate.
Qed.

Definition empty_snaps : snapshots := mkSnaps ∅ ∅ 1 ∅ 0 None.
Definition no_list : snapshot_list := mkSnapList 0 0 0.

(** The lists as they are initialised, and the snapshot filed. *)
Definition init_snap : SM Z :=
  do! r := nova_initialize_snapshot_info_pages [no_list; no_list] 5 in
  nova_insert_snapshot_info (mkSnapInfo 5 100 0 r.2).
Definition d1 : snapshots :=
  match init_snap empty_snaps s1 with Ok (_, d) _ => d | Fault _ => empty_snaps end.

Definition l1 : snapshot_list := mkSnapList 1 (4096 * 65537) (4096 * 65537).
Definition l2 : snapshot_list := mkSnapList 1 (4096 * 65538) (4096 * 65538).
Definition pages (k : Z) (i : nat) : list (Z * list (list Z)) := [(65537 + Z.of_nat i, [])].

Lemma d1_tree : snapshot_info_tree d1 = {[ 5 := mkSnapInfo 5 100 0 [l1; l2] ]}.
Proof. vm_compute. reflexivity. Qed.

Lemma d1_pages : dram_pages d1 = {[ page_off 65538 ]} ∪ ({[ page_off 65537 ]} ∪ ∅).
Proof. vm_compute. reflexivity. Qed.

Lemma d1_list b : (b = 65537 \/ b = 65538) -> list_rep d1 (mkSnapList 1 (page_off b) (page_off b)) [(b, [])].
Proof.
  intros Hb. assert (next_word d1 b = 0) as N by (destruct Hb as [-> | ->]; vm_compute; reflexivity).
  assert (page_off b ∈ dram_pages d1) as L by (rewrite d1_pages; destruct Hb as [-> | ->]; set_solver).
  split.
  - split; [split; [exact L|unfold page_off; lia|cbn; lia|constructor|cbn [length Nat.mul load_bytes concat]; reflexivity]|].
    split; [exact N|]. cbn [sl_tail length]. lia.
  - apply NoDup_singleton.
  - cbn [fmap list_fmap head sl_head]. unfold page_off. rewrite Z.div_mul, Z.mod_mul by lia. split; reflexivity.
  - reflexivity.
Qed.

Lemma d1_rep : snaps_rep d1 pages.
Proof.
  assert (forall k i, has_list d1 k i -> k = 5 /\ (i < 2)%nat) as Hl.
  { intros k i (info & l & E & El). rewrite d1_tree in E. apply lookup_singleton_Some in E as [<- <-].
    apply lookup_lt_Some in El. done. }
  split.
  - intros k info E. rewrite d1_tree in E. by apply lookup_singleton_Some in E as [<- <-].
  - intros p. rewrite d1_pages. intros Hp. assert (p = page_off 65537 \/ p = page_off 65538) as [-> | ->] by set_solver;
      (split; [done|]); [exists 1%positive|exists 2%positive]; (split; [vm_compute; reflexivity|reflexivity]).
  - intros k info i l E El. rewrite d1_tree in E. apply lookup_singleton_Some in E as [<- <-].
    destruct i as [|[|i]]; [injection El as <-; apply (d1_list 65537); by left|injection El as <-; apply (d1_list 65538); by right|done].
  - intros k i k' i' b [-> Hi]%Hl [-> Hi']%Hl. unfold pages. cbn. rewrite !list_elem_of_singleton. lia.
Qed.

Lemma nova_append_data_to_snapshot_correct_witness :
  exists r d' s' P', nova_append_data_to_snapshot 3 700 4 8 d1 s1 = Ok (r, d') s' /\
    nvmm s' = nvmm s1 /\ snaps_rep d' P' /\
    ((r = 1 /\ ~ seen d1 3 8 /\ d' = d1 /\ s' = s1 /\ P' = pages) \/
     (exists k, r = 0 /\ first_snapshot d1 3 k /\ k < 8 /\
        (forall k' i', ~ (k' = k /\ i' = 1%nat) -> P' k' i' = pages k' i') /\
        (entries_of (P' k 1%nat) = entries_of (pages k 1) ++ [file_write_bytes 700 4 8] \/
         entries_of (P' k 1%nat) = entries_of (pages k 1) /\ ~ page_avail d1))).
Proof.
  apply (nova_append_data_to_snapshot_correct s1 d1 pages 3 700 4 8).
  - apply d1_rep.
  - reflexivity.
  - intros k info E. rewrite d1_tree in E. apply lookup_singleton_Some in E as [<- <-]. by exists l2.
Defined.

(** The running CPU is 1: its list holds the entry. *)
Example handed_over :
  match nova_append_data_to_snapshot 3 700 4 8 d1 s1 with
  | Ok (r, d) _ => (r, load_bytes (dram d) (4096 * 65538) 32)
  | Fault _ => (1, [])
  end = (0, file_write_bytes 700 4 8).
Proof. vm_compute. reflexivity. Qed.
End SnapshotExample.
