(* ===== verification/FileTree.v ===== *)
(** The file index (log.c, inode.c, gc.c): the radix tree from file pages to the
    write entries that hold them, and what happens to the entries and blocks
    that are replaced or truncated.

    [ft_tree] maps a page offset to the address of a write entry; it stands for
    the kernel's radix tree, whose insertion can fail for lack of memory
    ([RadixLib]).  [file_tree] holds the fields of struct nova_inode_info_header
    these functions change.
    Each definition translates the C function of the same name. *)

From stdpp Require Import strings.
From S2P Require Import Prelude CInt Crc32c NovaEnv RangeNode Pmem NovaState NovaMonad NovaLib.
From S2P Require Import Balloc NovaLayout LogPage InodeTable Checksum MetaCsum LogEntry Snapshot.

Local Open Scope nova_scope.
Local Open Scope string_scope.
Local Open Scope list_scope.
Local Open Scope Z_scope.

(** Does inserting a key that is not there find the memory it needs? *)
Class RadixLib := { radix_insert_ok : gmap Z Z -> Z -> bool }.

Record file_tree := mkFileTree { ft_tree : gmap Z Z; ft_i_blocks : Z; ft_blk_type : Z }.
Definition set_tree (v : gmap Z Z) (f : file_tree) : file_tree := mkFileTree v (ft_i_blocks f) (ft_blk_type f).
Definition set_i_blocks (v : Z) (f : file_tree) : file_tree := mkFileTree (ft_tree f) v (ft_blk_type f).

Section file_tree.
Context `{NovaEnv, RbLib, MediaLib, KmallocLib, RadixLib}.

Definition wfield (f : string) (entryc : list Z) : Z := buf_field nova_file_write_entry f entryc.

(** Returns an unsigned int and the header. *)
Definition nova_free_old_entry (sih : file_tree) (entry pgoff num_free : Z) (delete_dead : bool) (epoch_id : Z)
    : SM (Z * file_tree) :=
  if entry =? 0 then sret (0, sih)
  else
    do! c := lift (entry_copy nova_file_write_entry entry) in
    match c with
    | None => sret (u32 (- EIO), sih)
    | Some entryc =>
        let old_nvmm := get_nvmm entryc pgoff in
        do! kept := (if negb delete_dead then
            do! r := nova_append_data_to_snapshot (wfield "epoch_id" entryc) old_nvmm num_free epoch_id in
            if r =? 0 then do! _ := lift (nova_invalidate_write_entry entry true 0) in sret true
            else do! _ := lift (nova_invalidate_write_entry entry true num_free) in sret false
          else sret false) in
        (if kept : bool then sret tt
         else do! _ := lift (nova_free_data_blocks (ft_blk_type sih) old_nvmm (s32 num_free)) in sret tt) ,,,
        sret (num_free, set_i_blocks (u64 (ft_i_blocks sih - num_free)) sih)
    end.

(** [radix_tree_gang_lookup(tree, entries, pgoff, 1)]: the entry at the least
    key from [pgoff] on, with that key. *)
Definition first_key (pgoff : Z) (l : list (Z * Z)) : option (Z * Z) :=
  foldr (fun x acc =>
    if pgoff <=? x.1 then
      match acc with
      | Some y => if y.1 <=? x.1 then acc else Some x
      | None => Some x
      end
    else acc) None l.

(** NULL is 0. *)
Definition nova_find_next_entry (tree : gmap Z Z) (pgoff : Z) : Z :=
  match first_key pgoff (map_to_list tree) with Some (_, e) => e | None => 0 end.

(** ** A new write entry *)

(** The run of pages of one old entry that was displaced: the entry (0 for
    none), its first page and the number of pages. *)
Definition retire (sih : file_tree) (old_entry old_pgoff num_free : Z) (free : bool) (epoch_id : Z) : SM file_tree :=
  do! sih := (if negb (old_entry =? 0) && free then
      do! r := nova_free_old_entry sih old_entry old_pgoff num_free false epoch_id in sret r.2
    else sret sih) in
  do! _ := lift (nova_invalidate_write_entry old_entry true 0) in
  sret sih.

(** The loop from page [curr_pgoff] on, [n] pages left; the result is [ret] and
    the state at the end of the loop, or at [goto out]. *)
Fixpoint assign_loop (n : nat) (curr_pgoff entry : Z) (free : bool) (epoch_id : Z) (sih : file_tree)
    (start_old_entry start_old_pgoff num_free : Z) : SM (Z * file_tree * (Z * Z * Z)) :=
  match n with
  | O => sret (0, sih, (start_old_entry, start_old_pgoff, num_free))
  | S n =>
      let next := u64 (curr_pgoff + 1) in
      match ft_tree sih !! curr_pgoff with
      | Some old_entry =>
          if negb (old_entry =? start_old_entry) then
            do! sih := retire sih start_old_entry start_old_pgoff num_free free epoch_id in
            assign_loop n next entry free epoch_id (set_tree (<[curr_pgoff := entry]> (ft_tree sih)) sih)
              old_entry curr_pgoff 1
          else
            assign_loop n next entry free epoch_id (set_tree (<[curr_pgoff := entry]> (ft_tree sih)) sih)
              start_old_entry start_old_pgoff (u32 (num_free + 1))
      | None =>
          if radix_insert_ok (ft_tree sih) curr_pgoff then
            assign_loop n next entry free epoch_id (set_tree (<[curr_pgoff := entry]> (ft_tree sih)) sih)
              start_old_entry start_old_pgoff num_free
          else sret (- ENOMEM, sih, (start_old_entry, start_old_pgoff, num_free))
      end
  end.

(** [entryc] is the DRAM copy of the new entry at [entry]. *)
Definition nova_assign_write_entry (sih : file_tree) (entry : Z) (entryc : list Z) (free : bool) : SM (Z * file_tree) :=
  let epoch_id := wfield "epoch_id" entryc in
  do! r := assign_loop (Z.to_nat (wfield "num_pages" entryc)) (wfield "pgoff" entryc) entry free epoch_id sih 0 0 0 in
  let '(rc, sih, (start_old_entry, start_old_pgoff, num_free)) := r in
  if negb (rc =? 0) then sret (rc, sih)
  else
    do! sih := retire sih start_old_entry start_old_pgoff num_free free epoch_id in
    sret (0, sih).

(** gc.c: the entry moved from [old_entry] to [new_entry]. *)
Fixpoint gc_assign_loop (n : nat) (curr_pgoff old_entry new_entry : Z) (tree : gmap Z Z) : gmap Z Z :=
  match n with
  | O => tree
  | S n =>
      gc_assign_loop n (u64 (curr_pgoff + 1)) old_entry new_entry
        (match tree !! curr_pgoff with
         | Some temp => if temp =? old_entry then <[curr_pgoff := new_entry]> tree else tree
         | None => tree
         end)
  end.

Definition nova_gc_assign_file_entry (tree : gmap Z Z) (old_entry new_entry : Z) : M (gmap Z Z) :=
  let! pgoff := pload_field nova_file_write_entry old_entry "pgoff" in
  let! num := pload_field nova_file_write_entry old_entry "num_pages" in
  ret (gc_assign_loop (Z.to_nat num) pgoff old_entry new_entry tree).

(** ** Truncation *)

(** [entryc->pgoff] of the entry found behind a hole; [None] leaves the loop. *)
Definition next_entry_pgoff (entry : Z) : M (option Z) :=
  if metadata_csum =? 0 then
    let! p := pload_field nova_file_write_entry entry "pgoff" in ret (Some p)
  else
    let! r := nova_verify_entry_csum entry in
    if negb r.1 then ret None else let! l := initialised r.2 in ret (Some (wfield "pgoff" l)).

(** The run collected so far is given back. *)
Definition free_run (sih : file_tree) (old_entry old_pgoff num_free freed : Z) (delete_nvmm delete_dead : bool)
    (epoch_id : Z) : SM (Z * file_tree) :=
  if negb (old_entry =? 0) && delete_nvmm then
    do! r := nova_free_old_entry sih old_entry old_pgoff num_free delete_dead epoch_id in
    sret (s32 (freed + num_free), r.2)
  else sret (freed, sih).

Fixpoint delete_loop (fuel : nat) (pgoff : Z) (delete_nvmm delete_dead : bool) (epoch_id : Z) (sih : file_tree)
    (old_entry old_pgoff num_free freed : Z) : SM (Z * file_tree * (Z * Z * Z)) :=
  match fuel with
  | O => sraise FFuel
  | S fuel =>
      match ft_tree sih !! pgoff with
      | Some entry =>
          let sih := set_tree (delete pgoff (ft_tree sih)) sih in
          let next := u64 (pgoff + 1) in
          if negb (entry =? old_entry) then
            do! r := free_run sih old_entry old_pgoff num_free freed delete_nvmm delete_dead epoch_id in
            delete_loop fuel next delete_nvmm delete_dead epoch_id r.2 entry pgoff 1 r.1
          else
            delete_loop fuel next delete_nvmm delete_dead epoch_id sih old_entry old_pgoff (u32 (num_free + 1)) freed
      | None =>
          let stop := sret (freed, sih, (old_entry, old_pgoff, num_free)) in
          let entry := nova_find_next_entry (ft_tree sih) pgoff in
          if entry =? 0 then stop
          else
            do! p := lift (next_entry_pgoff entry) in
            match p with
            | None => stop
            | Some p =>
                delete_loop fuel (Z.max (u64 (pgoff + 1)) p) delete_nvmm delete_dead epoch_id sih
                  old_entry old_pgoff num_free freed
            end
      end
  end.

(** One round for each page up to the last one in the tree, and one more. *)
Definition delete_fuel (tree : gmap Z Z) (start : Z) : nat :=
  Z.to_nat (foldr (fun x m => Z.max (x.1 + 1) m) 0 (map_to_list tree) - start) + 1.

Definition nova_delete_file_tree (sih : file_tree) (start_blocknr : Z) (delete_nvmm delete_dead : bool) (epoch_id : Z)
    : SM (Z * file_tree) :=
  do! r := delete_loop (delete_fuel (ft_tree sih) start_blocknr) start_blocknr delete_nvmm delete_dead epoch_id sih 0 0 0 0 in
  let '(freed, sih, (old_entry, old_pgoff, num_free)) := r in
  free_run sih old_entry old_pgoff num_free freed delete_nvmm delete_dead epoch_id.

(** ** Holes *)

(** Returns [blocks], [*data_found] and [*hole_found]. *)
Fixpoint hole_loop (fuel : nat) (tree : gmap Z Z) (pgoff last_blocknr : Z) (hole : bool)
    (blocks : Z) (data_found hole_found : bool) : M (Z * bool * bool) :=
  if negb (pgoff <=? last_blocknr) then ret (blocks, data_found, hole_found)
  else
    match fuel with
    | O => raise FFuel
    | S fuel =>
        match tree !! pgoff with
        | Some _ =>
            if negb hole then ret (blocks, true, hole_found)
            else
              let next := u64 (pgoff + 1) in
              hole_loop fuel tree next last_blocknr hole
                (if negb hole_found || negb hole then u64 (blocks + (next - pgoff)) else blocks) true hole_found
        | None =>
            let entry := nova_find_next_entry tree pgoff in
            let next := u64 (pgoff + 1) in
            let step next := hole_loop fuel tree next last_blocknr hole
              (if negb hole then u64 (blocks + (next - pgoff)) else blocks) data_found true in
            if entry =? 0 then step next
            else
              let! p := next_entry_pgoff entry in
              match p with
              | None => ret (blocks, data_found, true)
              | Some p =>
                  let next := Z.max next p in
                  step (if last_blocknr <? next then u64 (last_blocknr + 1) else next)
              end
        end
    end.

(** The result is an int. *)
Definition nova_lookup_hole_in_range (tree : gmap Z Z) (first_blocknr last_blocknr : Z)
    (data_found hole_found hole : bool) : M (Z * bool * bool) :=
  let! r := hole_loop (Z.to_nat (last_blocknr - first_blocknr + 1)) tree first_blocknr last_blocknr hole 0
    data_found hole_found in
  ret (s32 r.1.1, r.1.2, r.2).
End file_tree.
