(* ===== verification/FileTreeSpec.v ===== *)
(** What assigning a write entry does to the file index.

    [all_runs] is the reference: the displaced pages of the range grouped into
    runs of one old entry.  The code's loop retires exactly these runs, in
    order, and leaves the whole range with the new entry. *)

From stdpp Require Import strings.
From S2P Require Import Prelude CInt Crc32c NovaEnv RangeNode Pmem NovaState NovaMonad NovaLib.
From S2P Require Import Balloc NovaLayout PmemOps LogPage InodeTable Checksum MetaCsum LogEntry Snapshot SnapshotSpec FileTree.

Local Open Scope nova_scope.

(** Entry, first page, number of pages. *)
Definition run_of_pages : Type := Z * Z * Z.

(** The runs that end within [n] pages from [p], and the one that is open. *)
Fixpoint runs (n : nat) (p : Z) (T : gmap Z Z) (cur : run_of_pages) : list run_of_pages * run_of_pages :=
  match n with
  | O => ([], cur)
  | S n =>
      match T !! p with
      | Some e =>
          if e =? cur.1.1 then runs n (p + 1) T (cur.1.1, cur.1.2, cur.2 + 1)
          else let r := runs n (p + 1) T (e, p, 1) in (cur :: r.1, r.2)
      | None => runs n (p + 1) T cur
      end
  end.

Definition is_run (r : run_of_pages) : Prop := r.1.1 <> 0.
#[global] Instance is_run_dec r : Decision (is_run r).
Proof. unfold is_run. apply _. Defined.

Definition all_runs (n : nat) (p : Z) (T : gmap Z Z) (cur : run_of_pages) : list run_of_pages :=
  filter is_run (let r := runs n p T cur in r.1 ++ [r.2]).

(** [T] with [n] pages from [p] on assigned to [entry]. *)
Fixpoint fill (n : nat) (p entry : Z) (T : gmap Z Z) : gmap Z Z :=
  match n with O => T | S n => fill n (p + 1) entry (<[p := entry]> T) end.

Definition pages_of_run (r : run_of_pages) : list Z := seqZ r.1.2 r.2.

Definition present (T : gmap Z Z) (p : Z) : Prop := is_Some (T !! p).

(** An entry's pages have no hole between them. *)
Definition no_gap (T : gmap Z Z) : Prop :=
  forall p q r e, p < q < r -> T !! p = Some e -> T !! r = Some e -> is_Some (T !! q).

Lemma runs_insert n : forall p T cur k x, k < p -> runs n p (<[k := x]> T) cur = runs n p T cur.
Proof.
  induction n as [|n IH]; intros p T cur k x Hk; [done|]. cbn [runs]. rewrite lookup_insert_ne by lia.
  destruct (T !! p) as [e|]; [|apply IH; lia]. case_if; [apply IH; lia|]. by rewrite IH by lia.
Qed.

Lemma fill_lookup n : forall p entry T q,
  fill n p entry T !! q = if decide (p <= q < p + Z.of_nat n) then Some entry else T !! q.
Proof.
  induction n as [|n IH]; intros p entry T q; cbn [fill]; [by rewrite decide_False by lia|].
  rewrite IH. destruct (decide (p + 1 <= q < p + 1 + Z.of_nat n)).
  - by rewrite decide_True by lia.
  - destruct (decide (p = q)) as [->|].
    + by rewrite decide_True, lookup_insert_eq by lia.
    + by rewrite decide_False, lookup_insert_ne by lia.
Qed.

(** The open run in a range scanned up to [p]: its pages, then holes only. *)
Definition open_run (T : gmap Z Z) (p : Z) (r : run_of_pages) : Prop :=
  is_run r -> 0 < r.2 /\ r.1.2 + r.2 <= p /\ (forall q, r.1.2 <= q < r.1.2 + r.2 -> T !! q = Some r.1.1) /\
    (forall q, r.1.2 + r.2 <= q < p -> T !! q = None).

Lemma open_pages T p r : open_run T p r -> Forall (fun r => forall q, q ∈ pages_of_run r -> T !! q = Some r.1.1) (filter is_run [r]).
Proof.
  intros O. rewrite filter_cons. case_decide as Hr; [|done]. constructor; [|done].
  intros q Hq%elem_of_seqZ. destruct (O Hr) as (_ & _ & P & _). by apply P.
Qed.

Lemma seqZ_snoc m n : 0 <= n -> seqZ m (n + 1) = seqZ m n ++ [m + n].
Proof. intros Hn. by rewrite seqZ_app by lia. Qed.

Lemma all_runs_cons n p T cur e : T !! p = Some e -> e <> cur.1.1 ->
  all_runs (S n) p T cur = filter is_run [cur] ++ all_runs n (p + 1) T (e, p, 1).
Proof.
  intros E Ne. unfold all_runs. cbn [runs]. rewrite E, (proj2 (Z.eqb_neq e cur.1.1) Ne). cbn [fst snd].
  change ((cur :: ?a) ++ ?b) with ([cur] ++ (a ++ b)). by rewrite filter_app.
Qed.

Lemma all_runs_same n p T cur : T !! p = Some cur.1.1 -> all_runs (S n) p T cur = all_runs n (p + 1) T (cur.1.1, cur.1.2, cur.2 + 1).
Proof. intros E. unfold all_runs. cbn [runs]. by rewrite E, Z.eqb_refl. Qed.

Lemma all_runs_hole n p T cur : T !! p = None -> all_runs (S n) p T cur = all_runs n (p + 1) T cur.
Proof. intros E. unfold all_runs. cbn [runs]. by rewrite E. Qed.

Lemma present_cons T p n :
  filter (present T) (seqZ p (Z.of_nat (S n))) =
    (if T !! p then [p] else []) ++ filter (present T) (seqZ (p + 1) (Z.of_nat n)).
Proof.
  rewrite Nat2Z.inj_succ, seqZ_cons, Z.pred_succ by lia. rewrite filter_cons. unfold present at 1.
  replace (Z.succ p) with (p + 1) by lia.
  case_decide as P; destruct (T !! p) eqn:E; try done. by destruct P. 
Qed.

Lemma filter_run_some r : is_run r -> filter is_run [r] = [r].
Proof. intros R. by rewrite filter_cons_True. Qed.

(** The run that page [p] of the open run's own entry extends. *)
Lemma open_extend T p cur : no_gap T -> is_run cur -> open_run T p cur -> T !! p = Some cur.1.1 -> cur.1.2 + cur.2 = p.
Proof.
  intros G R O E. destruct (O R) as (Pos & Le & Own & Hole).
  destruct (decide (cur.1.2 + cur.2 = p)) as [|Ne]; [done|]. exfalso.
  destruct (G (cur.1.2 + cur.2 - 1) (cur.1.2 + cur.2) p cur.1.1) as [x Hx]; [lia|apply Own; lia|done|].
  rewrite Hole in Hx by lia. done.
Qed.

Lemma open_hole T p cur : open_run T p cur -> T !! p = None -> open_run T (p + 1) cur.
Proof.
  intros O E R. destruct (O R) as (Pos & Le & Own & Hole). split_and!; [done|lia|done|].
  intros q Hq. destruct (decide (q = p)) as [->|]; [done|]. apply Hole. lia.
Qed.

Lemma open_start T p e : T !! p = Some e -> open_run T (p + 1) (e, p, 1).
Proof.
  intros E _. cbn [fst snd]. split_and!; [lia..| |].
  - intros q Hq. by replace q with p by lia.
  - intros q Hq. lia.
Qed.

Lemma open_more T p cur : no_gap T -> is_run cur -> open_run T p cur -> T !! p = Some cur.1.1 ->
  open_run T (p + 1) (cur.1.1, cur.1.2, cur.2 + 1).
Proof.
  intros G R O E _. pose proof (open_extend T p cur G R O E) as X. destruct (O R) as (Pos & Le & Own & Hole).
  cbn [fst snd]. split_and!; [lia..| |].
  - intros q Hq. destruct (decide (q = p)) as [->|]; [done|]. apply Own. lia.
  - intros q Hq. lia.
Qed.

(** Runs are the displaced pages, in order, each run within one entry. *)
Lemma runs_pages n : forall p T cur,
  no_gap T -> (forall q e, T !! q = Some e -> e <> 0) -> open_run T p cur ->
  concat (pages_of_run <$> all_runs n p T cur)
    = concat (pages_of_run <$> filter is_run [cur]) ++ filter (present T) (seqZ p (Z.of_nat n)) /\
  Forall (fun r => forall q, q ∈ pages_of_run r -> T !! q = Some r.1.1) (all_runs n p T cur).
Proof.
  induction n as [|n IH]; intros p T cur G Nz O.
  { unfold all_runs. cbn [runs fst snd app]. split; [by rewrite app_nil_r|by eapply open_pages]. }
  rewrite present_cons. destruct (T !! p) as [e|] eqn:E.
  - pose proof (Nz p e E) as He. destruct (decide (e = cur.1.1)) as [->|Ne].
    + rewrite all_runs_same by done. destruct (IH (p + 1) T _ G Nz (open_more T p cur G He O E)) as [-> F].
      split; [|done]. rewrite !filter_run_some by done. cbn [fmap list_fmap concat]. unfold pages_of_run. cbn [fst snd].
      destruct (O He) as (Pos & _). rewrite seqZ_snoc by lia.
      rewrite (open_extend T p cur G He O E), !app_nil_r. by rewrite <- app_assoc.
    + rewrite (all_runs_cons n p T cur e) by done.
      destruct (IH (p + 1) T (e, p, 1) G Nz (open_start T p e E)) as [X F]. rewrite fmap_app, concat_app, X.
      split; [|apply Forall_app; split; [by eapply open_pages|done]].
      rewrite (filter_run_some (e, p, 1)) by done. done.
  - rewrite all_runs_hole by done. destruct (IH (p + 1) T cur G Nz (open_hole T p cur O E)) as [-> F]. done.
Qed.

(** ** Actions that behave alike *)
Definition sm_eq {A} (m m' : SM A) : Prop := forall d s, m d s = m' d s.
Local Infix "≈" := sm_eq (at level 70) : nova_scope.

#[global] Instance sm_eq_equiv A : Equivalence (@sm_eq A).
Proof. split; [done|intros m m' E d s; by rewrite E|intros m1 m2 m3 E E' d s; by rewrite E, E']. Qed.

#[global] Instance sbind_proper A B : Proper (sm_eq ==> pointwise_relation A sm_eq ==> sm_eq) (@sbind A B).
Proof.
  intros m m' E k k' Ek d s. unfold sbind, bind. rewrite E. destruct (m' d s) as [[a d'] s'|f]; [apply Ek|done].
Qed.

Lemma sbind_ret_l {A B} (a : A) (k : A -> SM B) : (do! x := sret a in k x) ≈ k a.
Proof. done. Qed.
Lemma sbind_ret_r {A} (m : SM A) : (do! x := m in sret x) ≈ m.
Proof. intros d s. unfold sbind, sret, bind, ret. by destruct (m d s) as [[a d'] s'|f]. Qed.
Lemma sbind_assoc {A B C} (m : SM A) (k : A -> SM B) (h : B -> SM C) :
  (do! y := (do! x := m in k x) in h y) ≈ (do! x := m in do! y := k x in h y).
Proof. intros d s. unfold sbind, bind. by destruct (m d s) as [[a d'] s'|f]. Qed.

Lemma set_tree_twice t t' f : set_tree t (set_tree t' f) = set_tree t f.
Proof. done. Qed.
Lemma set_tree_same f : set_tree (ft_tree f) f = f.
Proof. by destruct f. Qed.

Section assign.
Context `{NovaEnv, RbLib, MediaLib, KmallocLib, RadixLib}.

(** Retiring a run reads and writes nothing of the tree. *)
Lemma free_old_tree t sih e p k dd ep :
  nova_free_old_entry (set_tree t sih) e p k dd ep ≈
    (do! r := nova_free_old_entry sih e p k dd ep in sret (r.1, set_tree t r.2)).
Proof.
  unfold nova_free_old_entry. destruct (e =? 0); [done|]. rewrite sbind_assoc. f_equiv. intros [c|]; [|done].
  rewrite sbind_assoc. f_equiv. intros kept. by rewrite sbind_assoc.
Qed.

Lemma retire_tree t sih e p k free ep :
  retire (set_tree t sih) e p k free ep ≈ (do! x := retire sih e p k free ep in sret (set_tree t x)).
Proof.
  unfold retire. rewrite sbind_assoc. destruct (negb (e =? 0) && free).
  - rewrite free_old_tree, !sbind_assoc. f_equiv. intros r. rewrite !sbind_ret_l, sbind_assoc. done.
  - rewrite !sbind_ret_l, sbind_assoc. done.
Qed.

Lemma retire_none sih p k free ep : retire sih 0 p k free ep ≈ sret sih.
Proof. done. Qed.

Fixpoint retire_all (rs : list run_of_pages) (free : bool) (epoch_id : Z) (sih : file_tree) : SM file_tree :=
  match rs with
  | [] => sret sih
  | r :: rs => do! sih := retire sih r.1.1 r.1.2 r.2 free epoch_id in retire_all rs free epoch_id sih
  end.

Lemma retire_all_tree t rs free ep : forall sih,
  retire_all rs free ep (set_tree t sih) ≈ (do! x := retire_all rs free ep sih in sret (set_tree t x)).
Proof.
  induction rs as [|r rs IH]; intros sih; cbn [retire_all]; [done|].
  rewrite retire_tree, !sbind_assoc. f_equiv. intros x. by rewrite sbind_ret_l, IH.
Qed.

Lemma retire_all_app rs rs' free ep : forall sih,
  retire_all (rs ++ rs') free ep sih ≈ (do! x := retire_all rs free ep sih in retire_all rs' free ep x).
Proof.
  induction rs as [|r rs IH]; intros sih; cbn [retire_all app]; [done|].
  rewrite sbind_assoc. f_equiv. intros x. apply IH.
Qed.

Lemma retire_all_filter rs free ep : forall sih, retire_all (filter is_run rs) free ep sih ≈ retire_all rs free ep sih.
Proof.
  induction rs as [|r rs IH]; intros sih; [done|]. rewrite filter_cons. case_decide as R; cbn [retire_all].
  - f_equiv. intros x. apply IH.
  - assert (r.1.1 = 0) as -> by (unfold is_run in R; lia). by rewrite retire_none, sbind_ret_l.
Qed.

(** A run that is retired leaves the tree the one it was. *)
Lemma retire_keeps {B} sih e p k free ep (h : file_tree -> SM B) :
  (do! x := retire sih e p k free ep in h x) ≈ (do! x := retire sih e p k free ep in h (set_tree (ft_tree sih) x)).
Proof. rewrite <- (set_tree_same sih) at 1. rewrite retire_tree, sbind_assoc. done. Qed.

Lemma assign_loop_eq (Hmem : forall t p, radix_insert_ok t p = true) entry free ep n : forall p sih e0 p0 k,
  0 <= p -> p + Z.of_nat n < 2 ^ 64 -> 0 <= k -> k + Z.of_nat n < 2 ^ 32 ->
  assign_loop n p entry free ep sih e0 p0 k ≈
    (let rs := runs n p (ft_tree sih) (e0, p0, k) in
     do! x := retire_all rs.1 free ep sih in sret (0, set_tree (fill n p entry (ft_tree sih)) x, rs.2)).
Proof.
  induction n as [|n IH]; intros p sih e0 p0 k Hp Hp' Hk Hk'; cbn [assign_loop runs fill].
  { cbn [fst snd retire_all]. by rewrite sbind_ret_l, set_tree_same. }
  rewrite (uwrap_small 64 (p + 1)) by lia. cbn [fst snd]. destruct (ft_tree sih !! p) as [e|] eqn:E.
  - destruct (e =? e0); cbn [negb].
    + rewrite (uwrap_small 32 (k + 1)) by lia. rewrite IH by lia. cbn [ft_tree set_tree].
      rewrite runs_insert by lia. cbv zeta. rewrite retire_all_tree, sbind_assoc. f_equiv. intros x. by rewrite sbind_ret_l.
    + cbn [fst snd retire_all]. rewrite retire_keeps, sbind_assoc.
      rewrite (retire_keeps _ _ _ _ _ _ (fun x => do! y := retire_all _ _ _ x in _)). f_equiv. intros x.
      rewrite IH by lia. cbn [ft_tree set_tree]. rewrite runs_insert by lia. cbv zeta. rewrite !set_tree_twice.
      rewrite !retire_all_tree, !sbind_assoc. f_equiv. intros y. by rewrite !sbind_ret_l.
  - rewrite Hmem. rewrite IH by lia. cbn [ft_tree set_tree]. rewrite runs_insert by lia. cbv zeta.
    rewrite retire_all_tree, sbind_assoc. f_equiv. intros x. by rewrite sbind_ret_l.
Qed.

Lemma assign_run (Hmem : forall t p, radix_insert_ok t p = true) sih entry entryc free :
  let p := wfield "pgoff" entryc in
  let n := wfield "num_pages" entryc in
  0 <= p -> 0 <= n < 2 ^ 31 -> p + n < 2 ^ 64 ->
  nova_assign_write_entry sih entry entryc free ≈
    (do! x := retire_all (all_runs (Z.to_nat n) p (ft_tree sih) (0, 0, 0)) free (wfield "epoch_id" entryc) sih in
     sret (0, set_tree (fill (Z.to_nat n) p entry (ft_tree sih)) x)).
Proof.
  intros p n Hp Hn Hpn. unfold nova_assign_write_entry. fold p n. rewrite assign_loop_eq by (done || lia). cbv zeta.
  unfold all_runs. rewrite retire_all_filter, retire_all_app, !sbind_assoc. cbv zeta. f_equiv. intros x. rewrite !sbind_ret_l.
  destruct (runs _ p (ft_tree sih) (0, 0, 0)) as [rs [[e q] k]]. cbn [fst snd Z.eqb negb retire_all].
  rewrite retire_tree, !sbind_assoc. f_equiv. intros y. by rewrite !sbind_ret_l.
Qed.

Lemma fill_no_gap n p entry T : no_gap T -> (forall q, T !! q <> Some entry) -> no_gap (fill n p entry T).
Proof.
  intros G New a b c e Hb. rewrite !fill_lookup. repeat case_decide; try done; try lia.
  - intros [= <-] Hc. by destruct (New c).
  - intros Ha [= <-]. by destruct (New a).
  - intros Ha Hc. by eapply G.
Qed.

(** C20: While the index finds the memory it needs, assigning a write
    entry to its pages does the same as the reference: it retires, in order,
    the runs of pages of one older entry that the new entry covers, then every
    page of the range belongs to the new entry and every other page keeps its
    own, so an entry that is new leaves no hole within any entry's pages.
    The runs are exactly the pages of the range that had an entry, each
    once and in order, and each run lies within the entry it is retired from. *)
Theorem nova_assign_write_entry_correct sih entry entryc free :
  let p := wfield "pgoff" entryc in
  let n := wfield "num_pages" entryc in
  let T := ft_tree sih in
  (forall t q, radix_insert_ok t q = true) ->
  0 <= p -> 0 <= n < 2 ^ 31 -> p + n < 2 ^ 64 ->
  no_gap T -> (forall q e, T !! q = Some e -> e <> 0) ->
  exists rs T',
    nova_assign_write_entry sih entry entryc free ≈
      (do! x := retire_all rs free (wfield "epoch_id" entryc) sih in sret (0, set_tree T' x)) /\
    (forall q, T' !! q = if decide (p <= q < p + n) then Some entry else T !! q) /\
    ((forall q, T !! q <> Some entry) -> no_gap T') /\
    concat (pages_of_run <$> rs) = filter (present T) (seqZ p n) /\
    Forall (fun r => forall q, q ∈ pages_of_run r -> T !! q = Some r.1.1) rs.
Proof.
  intros p n T Hmem Hp Hn Hpn G Nz.
  destruct (runs_pages (Z.to_nat n) p T (0, 0, 0) G Nz) as [X F]; [by intros R|]. rewrite Z2Nat.id in X by lia.
  exists (all_runs (Z.to_nat n) p T (0, 0, 0)), (fill (Z.to_nat n) p entry T).
  split_and!; [by apply assign_run| |by apply fill_no_gap|exact X|exact F].
  intros q. by rewrite fill_lookup, Z2Nat.id by lia.
Qed.

(** ** Truncation *)
Lemma first_key_spec p l :
  match first_key p l with
  | Some x => x ∈ l /\ p <= x.1 /\ forall y, y ∈ l -> p <= y.1 -> x.1 <= y.1
  | None => forall y, y ∈ l -> y.1 < p
  end.
Proof.
  induction l as [|a l IH]; cbn [first_key foldr]; [by intros y ?%not_elem_of_nil|]. fold (first_key p l).
  destruct (Z.leb_spec p a.1); [destruct (first_key p l) as [y|]; [destruct (Z.leb_spec y.1 a.1)|]|destruct (first_key p l) as [y|]].
  all: try (destruct IH as (I1 & I2 & I3); split_and!; [by constructor|done|]).
  all: try (split_and!; [by constructor|done|]).
  all: intros z [-> |Hz]%elem_of_cons; try lia; intros; try (specialize (I3 z Hz); lia); try (specialize (IH z Hz); lia).
  all: try (destruct IH as (I1 & I2 & I3); specialize (I3 z Hz); lia).
Qed.

Lemma find_next_spec T p :
  (exists k e, nova_find_next_entry T p = e /\ T !! k = Some e /\ p <= k /\ forall q, p <= q < k -> T !! q = None) \/
  (nova_find_next_entry T p = 0 /\ forall q, p <= q -> T !! q = None).
Proof.
  unfold nova_find_next_entry. pose proof (first_key_spec p (map_to_list T)) as F.
  destruct (first_key p (map_to_list T)) as [[k e]|].
  - destruct F as (I1%elem_of_map_to_list & I2 & I3). left. exists k, e. split_and!; [done..|].
    intros q Hq. destruct (T !! q) as [x|] eqn:E; [|done]. apply elem_of_map_to_list in E. specialize (I3 _ E). cbn in I3. lia.
  - right. split; [done|]. intros q Hq. destruct (T !! q) as [x|] eqn:E; [|done]. apply elem_of_map_to_list in E.
    specialize (F _ E). cbn in F. lia.
Qed.

(** The pages before [p]. *)
Definition before (p : Z) (T : gmap Z Z) : gmap Z Z := filter (fun x => x.1 < p) T.

Lemma before_lookup p T q : before p T !! q = if decide (q < p) then T !! q else None.
Proof.
  unfold before. case_decide.
  - destruct (T !! q) as [e|] eqn:E; [by rewrite map_lookup_filter_Some|]. by apply map_lookup_filter_None_2; left.
  - apply map_lookup_filter_None_2. right. intros e _. done.
Qed.

Lemma before_delete p T : before (p + 1) (delete p T) = before p T.
Proof.
  apply map_eq. intros q. rewrite !before_lookup. repeat case_decide; try lia; try done.
  - by rewrite lookup_delete_ne by lia.
  - replace q with p by lia. apply lookup_delete_eq.
Qed.

Lemma before_holes p p' T : p <= p' -> (forall q, p <= q < p' -> T !! q = None) -> before p' T = before p T.
Proof.
  intros Hp N. apply map_eq. intros q. rewrite !before_lookup. repeat case_decide; try lia; try done. apply N. lia.
Qed.

Lemma delete_loop_run s d dd ep M fuel : forall pgoff sih old_entry old_pgoff num_free freed,
  0 <= pgoff -> M < 2 ^ 64 -> M - pgoff < Z.of_nat fuel -> (0 < fuel)%nat ->
  (forall k e, ft_tree sih !! k = Some e -> k < M /\ e <> 0) ->
  (forall k e, ft_tree sih !! k = Some e -> pgoff <= k -> exists p, next_entry_pgoff e s = Ok (Some p) s /\ p <= k) ->
  exists st, delete_loop fuel pgoff false dd ep sih old_entry old_pgoff num_free freed d s
    = Ok (freed, set_tree (before pgoff (ft_tree sih)) sih, st, d) s.
Proof.
  induction fuel as [|fuel IH]; intros pgoff sih oe op nf freed Hp HM Hf Hf0 Hb Hr; [lia|]. cbn [delete_loop].
  destruct (ft_tree sih !! pgoff) as [e|] eqn:E.
  - destruct (Hb _ _ E) as [Hlt _]. rewrite (uwrap_small 64 (pgoff + 1)) by lia.
    assert (forall oe op nf, exists st,
      delete_loop fuel (pgoff + 1) false dd ep (set_tree (delete pgoff (ft_tree sih)) sih) oe op nf freed d s
        = Ok (freed, set_tree (before pgoff (ft_tree sih)) sih, st, d) s) as Next.
    { intros oe' op' nf'.
      destruct (IH (pgoff + 1) (set_tree (delete pgoff (ft_tree sih)) sih) oe' op' nf' freed) as [st Est]; [lia..| | |].
      - intros k x. cbn [ft_tree set_tree]. intros [_ ?]%lookup_delete_Some. by apply Hb.
      - intros k x. cbn [ft_tree set_tree]. intros [_ ?]%lookup_delete_Some ?. apply Hr; [done|lia].
      - exists st. rewrite Est. cbn [ft_tree set_tree]. by rewrite before_delete. }
    destruct (negb (e =? oe)); [|apply Next]. unfold free_run. rewrite andb_false_r. apply Next.
  - cbv zeta. destruct (find_next_spec (ft_tree sih) pgoff) as [(k & e & -> & Ek & Hk & N)|[-> N]].
    + destruct (Hb _ _ Ek) as [Hlt He]. rewrite (proj2 (Z.eqb_neq _ _) He).
      destruct (Hr _ _ Ek Hk) as (p & Rp & Hpk). assert (k <> pgoff) as Hne by congruence.
      rewrite (uwrap_small 64 (pgoff + 1)) by lia.
      erewrite sbind_ok; [|unfold lift; rewrite (bind_ok _ _ _ _ _ Rp); done]. cbn [fst snd].
      destruct (IH (Z.max (pgoff + 1) p) sih oe op nf freed) as [st Est]; [lia..|done| |].
      { intros k' x Ek' ?. apply Hr; [done|lia]. }
      exists st. rewrite Est. by rewrite (before_holes pgoff) by (lia || (intros q Hq; apply N; lia)).
    + eexists. cbn [Z.eqb]. unfold sret, ret. rewrite <- (set_tree_same sih) at 1.
      f_equal. f_equal. f_equal. f_equal. f_equal. apply map_eq. intros q. rewrite before_lookup.
      case_decide; [done|]. apply N. lia.
Qed.

Lemma tree_max_bound (T : gmap Z Z) k e :
  T !! k = Some e -> k < foldr (fun x m => Z.max (x.1 + 1) m) 0 (map_to_list T).
Proof.
  intros E%elem_of_map_to_list. induction (map_to_list T) as [|a l IH]; [by apply not_elem_of_nil in E|].
  cbn [foldr]. apply elem_of_cons in E as [<- |E]; [cbn [fst]; lia|]. specialize (IH E). lia.
Qed.

Lemma tree_max_lt (T : gmap Z Z) b :
  0 < b -> (forall k e, T !! k = Some e -> k + 1 < b) -> foldr (fun x m => Z.max (x.1 + 1) m) 0 (map_to_list T) < b.
Proof.
  intros Pos Hb. assert (forall x, x ∈ map_to_list T -> x.1 + 1 < b) as Hx.
  { intros [k e] E%elem_of_map_to_list. by eapply Hb. }
  induction (map_to_list T) as [|a l IH]; [done|]. cbn [foldr]. apply Z.max_lub_lt; [apply Hx; by left|].
  apply IH. intros x Hl. apply Hx. by right.
Qed.

Lemma delete_file_tree_run s d sih start dd ep :
  0 <= start ->
  (forall k e, ft_tree sih !! k = Some e -> 0 <= k < 2 ^ 64 - 1 /\ e <> 0) ->
  (forall k e, ft_tree sih !! k = Some e -> start <= k -> exists p, next_entry_pgoff e s = Ok (Some p) s /\ p <= k) ->
  nova_delete_file_tree sih start false dd ep d s = Ok (0, set_tree (before start (ft_tree sih)) sih, d) s.
Proof.
  intros Hs Hb Hr. unfold nova_delete_file_tree, delete_fuel.
  set (M := foldr (fun x m => Z.max (x.1 + 1) m) 0 (map_to_list (ft_tree sih))).
  assert (M < 2 ^ 64) as HM by (apply tree_max_lt; [done|]; intros k e E; destruct (Hb k e E); lia).
  destruct (delete_loop_run s d dd ep M (Z.to_nat (M - start) + 1) start sih 0 0 0 0) as [[[oe op] nf] Est]; [lia..| |done|].
  { intros k e E. destruct (Hb k e E). split; [by eapply tree_max_bound|done]. }
  rewrite (sbind_ok _ _ _ _ _ _ _ Est). cbn [fst snd]. unfold free_run. by rewrite andb_false_r.
Qed.

(** C30: Dropping a file's index from a page on, without releasing
    blocks, terminates within the bound, whatever the holes: as long as the
    entries behind the first page can be read and start no later than the pages
    they hold, exactly the pages from there on leave the index and neither the
    device nor the snapshots change. *)
Theorem nova_delete_file_tree_correct s d sih start dd ep :
  0 <= start ->
  (forall k e, ft_tree sih !! k = Some e -> 0 <= k < 2 ^ 64 - 1 /\ e <> 0) ->
  (forall k e, ft_tree sih !! k = Some e -> start <= k -> exists p, next_entry_pgoff e s = Ok (Some p) s /\ p <= k) ->
  exists sih', nova_delete_file_tree sih start false dd ep d s = Ok (0, sih', d) s /\
    ft_i_blocks sih' = ft_i_blocks sih /\ ft_blk_type sih' = ft_blk_type sih /\
    forall q, ft_tree sih' !! q = if decide (q < start) then ft_tree sih !! q else None.
Proof.
  intros Hs Hb Hr. rewrite delete_file_tree_run by done. eexists. split_and!; [done..|]. intros q. apply before_lookup.
Qed.
End assign.
