(* ===== verification/DirTree.v ===== *)
(** Directories (dir.c, rebuild.c, gc.c): the tree of directory entries by the
    hash of their names, the entries of a new directory, and the replay of a
    directory's log.

    A directory's tree [sih->rb_tree] holds range nodes whose first word is the
    hash of a name and whose second the address of its entry; it is passed and
    returned, as the range-node routines do.  A name is the list of its bytes.
    Each definition translates the C function of the same name. *)

From stdpp Require Import strings.
From S2P Require Import Prelude CInt Crc32c NovaEnv RangeNode Pmem NovaState NovaMonad NovaLib.
From S2P Require Import Balloc NovaLayout LogPage InodeTable Journal MetaCsum LogEntry.

Local Open Scope nova_scope.
Local Open Scope string_scope.
Local Open Scope list_scope.
Local Open Scope Z_scope.

(** [entryc]: the entry in NVMM, or its verified copy in DRAM. *)
Inductive entryc := InPlace (p : Z) | InCopy (l : list Z).

(** struct nova_inode_rebuild *)
Record inode_rebuild := mkRebuild {
  reb_size : Z; reb_flags : Z; reb_ctime : Z; reb_mtime : Z; reb_atime : Z; reb_uid : Z; reb_gid : Z;
  reb_generation : Z; reb_links_count : Z; reb_mode : Z; reb_trans_id : Z
}.
Definition set_reb_dir (mtime links_count : Z) (r : inode_rebuild) : inode_rebuild :=
  mkRebuild (reb_size r) (reb_flags r) mtime mtime (reb_atime r) (reb_uid r) (reb_gid r)
    (reb_generation r) links_count (reb_mode r) (reb_trans_id r).
Definition set_reb_trans_id (v : Z) (r : inode_rebuild) : inode_rebuild :=
  mkRebuild (reb_size r) (reb_flags r) (reb_ctime r) (reb_mtime r) (reb_atime r) (reb_uid r) (reb_gid r)
    (reb_generation r) (reb_links_count r) (reb_mode r) v.

Section dir.
Context `{NovaEnv, RbLib, MediaLib}.

Definition entryc_bytes (c : entryc) (off : Z) (n : nat) : M (list Z) :=
  match c with
  | InPlace p => pload_bytes n (p + off)
  | InCopy l => buf_read n (drop (Z.to_nat off) l)
  end.
Definition entryc_field (st : struct) (c : entryc) (f : string) : M Z :=
  let! l := entryc_bytes c (offsetof st f) (sizeof_field st f) in ret (le_val l).

(** [None] when the checksum test fails. *)
Definition verified_entry (entry : Z) : M (option entryc) :=
  if metadata_csum =? 0 then ret (Some (InPlace entry))
  else
    let! r := nova_verify_entry_csum entry in
    if negb r.1 then ret None else let! l := initialised r.2 in ret (Some (InCopy l)).

Definition nova_alloc_dir_node : M (option ptr) := nova_alloc_range_node.
Definition nova_free_dir_node (p : ptr) : M unit := nova_free_range_node p.

(** ** The tree *)

(** NULL is 0. *)
Definition nova_find_dentry (tree : rb_tree) (name : list Z) : Z :=
  let h := BKDRHash name in
  match nova_find_range_node tree h NODE_DIR None with
  | (found, Some (_, ret_node)) => if (found =? 1) && (h =? hash ret_node) then direntry ret_node else 0
  | (_, None) => 0
  end.

(** Returns the result and the tree. *)
Definition nova_insert_dir_tree (tree : rb_tree) (name : list Z) (dentry : Z) : M (Z * rb_tree) :=
  let! node := nova_alloc_dir_node in
  match node with
  | None => ret (- ENOMEM, tree)
  | Some p =>
      let n := set_range_high dentry (set_range_low (BKDRHash name) zeroed_node) in
      let r := nova_insert_range_node tree p n NODE_DIR in
      (if negb (r.1 =? 0) then nova_free_dir_node p else ret tt) ;;; ret r
  end.

(** [strncmp(dentry->name, name, namelen)], byte by byte from index [i]. *)
Fixpoint strncmp_name (dentry : entryc) (i : Z) (name : list Z) : M Z :=
  match name with
  | [] => ret 0
  | c :: name =>
      let! l := entryc_bytes dentry (offsetof nova_dentry "name" + i) 1 in
      let d := le_val l in
      if negb (d =? c) then ret (if d <? c then -1 else 1)
      else if d =? 0 then ret 0
      else strncmp_name dentry (i + 1) name
  end.

Definition nova_check_dentry_match (dentry : entryc) (name : list Z) : M Z :=
  let! name_len := entryc_field nova_dentry dentry "name_len" in
  if negb (name_len =? Z.of_nat (length name)) then ret (- EINVAL)
  else strncmp_name dentry 0 name.

(** The checks of the entry when [replay] is 0: is it refused? *)
Definition dentry_refused (entry : Z) (name : list Z) : M bool :=
  if entry =? 0 then ret true
  else
    let! c := verified_entry entry in
    match c with
    | None => ret true
    | Some entryc =>
        let! ino := entryc_field nova_dentry entryc "ino" in
        if ino =? 0 then ret true
        else
          let! invalid := entryc_field nova_dentry entryc "invalid" in
          if negb (invalid =? 0) then ret true
          else let! r := nova_check_dentry_match entryc name in ret (negb (r =? 0))
    end.

(** Returns the result, the tree and [*create_dentry], which keeps its value
    [create_dentry0] unless the removal succeeds. *)
Definition nova_remove_dir_tree (tree : rb_tree) (name : list Z) (replay : bool) (create_dentry0 : Z)
    : M (Z * rb_tree * Z) :=
  match nova_find_range_node tree (BKDRHash name) NODE_DIR None with
  | (found, ret_node) =>
      if found =? 0 then ret (- EINVAL, tree, create_dentry0)
      else
        match ret_node with
        | None => raise FDangling
        | Some (p, n) =>
            let entry := direntry n in
            let tree := rb_erase p tree in
            nova_free_dir_node p ;;;
            if replay then ret (0, tree, create_dentry0)
            else
              let! refused := dentry_refused entry name in
              if refused : bool then ret (- EINVAL, tree, create_dentry0)
              else ret (0, tree, entry)
        end
  end.

Definition nova_delete_dir_tree (tree : rb_tree) : rb_tree :=
  nova_destroy_range_node_tree tree.

(** gc.c: the entry moved from [old_dentry] to [new_dentry]. *)
Definition nova_gc_assign_dentry (tree : rb_tree) (name : list Z) (old_dentry new_dentry : Z) : rb_tree :=
  let h := BKDRHash name in
  match nova_find_range_node tree h NODE_DIR None with
  | (found, Some (p, ret_node)) =>
      if (found =? 1) && (h =? hash ret_node) && (direntry ret_node =? old_dentry)
      then rb_update p (set_range_high new_dentry) tree
      else tree
  | (_, None) => tree
  end.

(** The offset of the entry at position [pos] of a directory listing. *)
Definition nova_find_next_dentry_addr (tree : rb_tree) (pos : Z) : M Z :=
  match nova_find_range_node tree pos NODE_DIR None with
  | (found, Some (_, ret_node)) =>
      if (found =? 1) && (pos =? hash ret_node)
      then gets (fun s => nova_get_addr_off s (direntry ret_node)) else ret 0
  | (_, None) => ret 0
  end.

(** ** The entries of a new directory *)

(** One of the two entries; [now] is the coarse clock. *)
Definition init_one_dentry (de_entry de_len ino epoch_id now links_count : Z) (name : list Z) : M unit :=
  let set f v := pstore_field nova_dentry de_entry f v in
  pstore_bytes EvStore de_entry (replicate (Z.to_nat de_len) 0) ;;;
  set "entry_type" (entry_type_val DIR_LOG) ;;;
  set "epoch_id" epoch_id ;;;
  set "trans_id" 0 ;;;
  set "ino" ino ;;;
  set "name_len" (Z.of_nat (length name)) ;;;
  set "de_len" de_len ;;;
  set "mtime" (u32 now) ;;;
  set "links_count" links_count ;;;
  pstore_bytes EvStore (field_addr nova_dentry de_entry "name") (name ++ [0]) ;;;
  nova_update_entry_csum de_entry.

(** ["."] and [".."]; returns their length. *)
Definition nova_init_dentry (de_entry self_ino parent_ino epoch_id now now' : Z) : M Z :=
  let de_len := NOVA_DIR_LOG_REC_LEN 1 in
  init_one_dentry de_entry de_len self_ino epoch_id now 1 [46] ;;;
  let length := de_len in
  let de_len := NOVA_DIR_LOG_REC_LEN 2 in
  init_one_dentry (de_entry + length) de_len parent_ino epoch_id now' 2 [46; 46] ;;;
  let length := length + de_len in
  nova_set_page_num_entries de_entry 2 true ;;;
  nova_flush_buffer de_entry length false ;;;
  ret length.

(** [now1] to [now4] are the readings of the clock. *)
Definition nova_append_dir_init_entries (pi self_ino parent_ino epoch_id : Z) (now1 now2 now3 now4 : Z) : M Z :=
  let set f v := pstore_field nova_inode pi f v in
  let! r := nova_allocate_inode_log_pages NOVA_DEFAULT_BLOCK_TYPE 1 0 ANY_CPU ALLOC_FROM_HEAD in
  let '(allocated, new_block) := r in
  if negb (allocated =? 1) then nova_err ;;; ret (- ENOMEM)
  else
    nova_memunlock_inode pi ;;;
    set "log_head" new_block ;;; set "log_tail" new_block ;;;
    let! de_entry := gets (fun s => nova_get_block s new_block) in
    let! length := nova_init_dentry de_entry self_ino parent_ino epoch_id now1 now2 in
    nova_update_tail pi (u64 (new_block + length)) ;;;
    nova_flush_buffer (field_addr nova_inode pi "log_head") CACHELINE_SIZE false ;;;
    nova_memlock_inode pi ;;;
    if metadata_csum =? 0 then ret 0
    else
      let! r := nova_allocate_inode_log_pages NOVA_DEFAULT_BLOCK_TYPE 1 new_block ANY_CPU ALLOC_FROM_TAIL in
      let '(allocated, new_block) := r in
      if negb (allocated =? 1) then nova_err ;;; ret (- ENOMEM)
      else
        nova_memunlock_inode pi ;;;
        set "alter_log_head" new_block ;;; set "alter_log_tail" new_block ;;;
        let! de_entry := gets (fun s => nova_get_block s new_block) in
        let! length := nova_init_dentry de_entry self_ino parent_ino epoch_id now3 now4 in
        nova_update_alter_tail pi (u64 (new_block + length)) ;;;
        let! log_head := pload_field nova_inode pi "log_head" in
        let! alter_log_head := pload_field nova_inode pi "alter_log_head" in
        let! _ := nova_update_alter_pages log_head alter_log_head in
        let! _ := nova_update_inode_checksum pi in
        nova_flush_buffer pi (sizeof nova_inode) false ;;;
        nova_memlock_inode pi ;;;
        let! r := nova_get_alter_inode_address self_ino 0 in
        if negb (r.1 =? 0) then ret r.1
        else
          let! alter_pi := gets (fun s => nova_get_block s r.2) in
          if alter_pi =? 0 then ret (- EINVAL)
          else
            nova_memunlock_inode alter_pi ;;;
            let! l := pload_bytes (Z.to_nat (sizeof nova_inode)) pi in
            let! _ := memcpy_to_pmem_nocache alter_pi l in
            nova_memlock_inode alter_pi ;;; ret 0.

(** ** Updating and invalidating entries *)
Definition nova_can_inplace_update_dentry (dentry epoch_id : Z) : M bool :=
  let! c := verified_entry dentry in
  match c with
  | None => ret false
  | Some dentryc =>
      if dentry =? 0 then ret false
      else let! e := entryc_field nova_dentry dentryc "epoch_id" in ret (e =? epoch_id)
  end.

(** The fields of [entry_info] that are not set are not read for this type. *)
Definition nova_inplace_update_dentry (dir : vfs_inode) (sih : sih_log) (dentry link_change epoch_id : Z) : M Z :=
  nova_inplace_update_log_entry (sih_i_flags sih) dir dentry
    (mkEntryInfo DIR_LOG (mkAttr 0 0) [] epoch_id (sih_trans_id sih) 0 0 0 link_change true).

Definition nova_invalidate_dentries (create_dentry delete_dentry : Z) : M Z :=
  if create_dentry =? 0 then ret 0
  else
    let! _ := nova_reassign_logentry create_dentry DIR_LOG in
    let! c := verified_entry create_dentry in
    match c with
    | None => ret 0
    | Some create_dentryc =>
        let! e := entryc_field nova_dentry create_dentryc "epoch_id" in
        let! freeable := gets (fun s => old_entry_freeable s e) in
        if negb freeable then ret 0
        else
          let! _ := nova_invalidate_logentry create_dentry DIR_LOG 0 in
          nova_invalidate_logentry delete_dentry DIR_LOG 0
    end.

(** ** Replay of a directory's log (rebuild.c) *)

Definition entryc_name (c : entryc) : M (list Z) :=
  let! n := entryc_field nova_dentry c "name_len" in
  entryc_bytes c (offsetof nova_dentry "name") (Z.to_nat n).

Definition nova_rebuild_dir_time_and_size (reb : inode_rebuild) (entryc : entryc) : M inode_rebuild :=
  let! mtime := entryc_field nova_dentry entryc "mtime" in
  let! links_count := entryc_field nova_dentry entryc "links_count" in
  ret (set_reb_dir mtime links_count reb).

(** Returns [sih->last_dentry]. *)
Definition nova_reassign_last_dentry (last_dentry curr_p : Z) : M Z :=
  if last_dentry =? 0 then ret curr_p
  else
    let! old_dentry := gets (fun s => nova_get_block s last_dentry) in
    let! dentry := gets (fun s => nova_get_block s curr_p) in
    let! t := pload_field nova_dentry dentry "trans_id" in
    let! old := pload_field nova_dentry old_dentry "trans_id" in
    ret (if old <=? t then curr_p else last_dentry).

Definition nova_replay_add_dentry (tree : rb_tree) (entry : Z) (entryc : entryc) : M (Z * rb_tree) :=
  let! name_len := entryc_field nova_dentry entryc "name_len" in
  if name_len =? 0 then ret (- EINVAL, tree)
  else let! name := entryc_name entryc in nova_insert_dir_tree tree name entry.

Definition nova_replay_remove_dentry (tree : rb_tree) (entry : entryc) : M (Z * rb_tree) :=
  let! name := entryc_name entry in
  let! r := nova_remove_dir_tree tree name true 0 in
  ret (0, r.1.2).

(** Returns the result, the tree, [sih->last_dentry] and [*reb]. *)
Definition nova_rebuild_handle_dentry (tree : rb_tree) (last_dentry : Z) (reb : inode_rebuild)
    (entry : Z) (entryc : entryc) (curr_p : Z) : M (Z * (rb_tree * Z * inode_rebuild)) :=
  let! last_dentry := nova_reassign_last_dentry last_dentry curr_p in
  let! invalid := entryc_field nova_dentry entryc "invalid" in
  let! r := (if invalid =? 0 then
      let! ino := entryc_field nova_dentry entryc "ino" in
      if 0 <? ino then nova_replay_add_dentry tree entry entryc
      else nova_replay_remove_dentry tree entryc
    else ret (0, tree)) in
  let '(rc, tree) := r in
  if negb (rc =? 0) then nova_err ;;; ret (rc, (tree, last_dentry, reb))
  else
    let! trans_id := entryc_field nova_dentry entryc "trans_id" in
    if reb_trans_id reb <=? trans_id then
      let! reb := nova_rebuild_dir_time_and_size reb entryc in
      ret (0, (tree, last_dentry, set_reb_trans_id trans_id reb))
    else ret (0, (tree, last_dentry, reb)).
End dir.
