(* ===== verification/DirTreeSpec.v ===== *)
(** The tree of a directory as a finite map.

    [dir_map] is the map from hashes to entries a tree holds; lookup, insertion
    and removal are lookup, insertion and deletion in it.  On names without hash
    collisions a directory is a map from names ([dir_rel], [dir_spec]). *)

From stdpp Require Import strings.
From S2P Require Import Prelude CInt Crc32c NovaEnv RangeNode Pmem NovaState NovaMonad NovaLib.
From S2P Require Import Balloc NovaLayout MetaCsum DirTree.

Local Open Scope nova_scope.

Definition dir_pair (x : ptr * range_node) : Z * Z := (hash x.2, direntry x.2).
Definition dir_map (t : rb_tree) : gmap Z Z := list_to_map (dir_pair <$> inorder t).

(** ** The abstract directory *)
Inductive dir_op := DAdd (name : list Z) (dentry : Z) | DDel (name : list Z) | DFind (name : list Z).

Definition op_name (op : dir_op) : list Z :=
  match op with DAdd name _ | DDel name | DFind name => name end.

Definition dir_spec (op : dir_op) (m : gmap (list Z) Z) : Z * gmap (list Z) Z :=
  match op with
  | DAdd name e => match m !! name with Some _ => (- EINVAL, m) | None => (0, <[name := e]> m) end
  | DDel name => match m !! name with Some _ => (0, delete name m) | None => (- EINVAL, m) end
  | DFind name => (default 0 (m !! name), m)
  end.

Fixpoint dir_specs (ops : list dir_op) (m : gmap (list Z) Z) : list Z * gmap (list Z) Z :=
  match ops with
  | [] => ([], m)
  | op :: ops => let '(r, m) := dir_spec op m in let '(rs, m) := dir_specs ops m in (r :: rs, m)
  end.

Section spec.
Context `{NovaEnv, RbLibOk, MediaLib}.

(** The code's operation, with the tree it leaves. *)
Definition dir_exec (op : dir_op) (t : rb_tree) : M (Z * rb_tree) :=
  match op with
  | DAdd name e => nova_insert_dir_tree t name e
  | DDel name => let! r := nova_remove_dir_tree t name true 0 in ret r.1
  | DFind name => ret (nova_find_dentry t name, t)
  end.

Fixpoint dir_execs (ops : list dir_op) (t : rb_tree) : M (list Z * rb_tree) :=
  match ops with
  | [] => ret ([], t)
  | op :: ops =>
      let! r := dir_exec op t in
      let! rs := dir_execs ops r.2 in
      ret (r.1 :: rs.1, rs.2)
  end.

(** The tree's invariant: sorted by hash, distinct nodes that were handed out
    before [c]. *)
Record dir_wf (c : ptr) (t : rb_tree) : Prop := {
  dw_tree : tree_wf NODE_DIR t;
  dw_clock : Forall (fun x => (x.1 < c)%positive) (inorder t)
}.

Lemma dir_keys_nodup l : ranges_wf NODE_DIR l -> NoDup (dir_pair <$> l).*1.
Proof.
  induction l as [|x l IH]; [constructor|]. intros (_ & W & A)%ranges_wf_cons.
  cbn [fmap list_fmap]. apply NoDup_cons. split; [|auto].
  rewrite <- list_fmap_compose. intros (y & E & Hy)%list_elem_of_fmap.
  specialize (A y Hy). unfold node_lt in A. cbn in *. lia.
Qed.

Lemma dir_map_lookup c t h e :
  dir_wf c t -> dir_map t !! h = Some e <-> exists x, x ∈ inorder t /\ hash x.2 = h /\ direntry x.2 = e.
Proof.
  intros [[W _ _] _]. unfold dir_map. rewrite <- elem_of_list_to_map by (by apply dir_keys_nodup).
  rewrite list_elem_of_fmap. unfold dir_pair. split.
  - intros (x & E & Hx). exists x. by injection E as -> ->.
  - intros (x & Hx & <- & <-). by exists x.
Qed.

Lemma dir_map_none c t h :
  dir_wf c t -> dir_map t !! h = None <-> forall x, x ∈ inorder t -> hash x.2 <> h.
Proof.
  intros W. rewrite eq_None_not_Some. split.
  - intros N x Hx E. apply N. eexists. apply (dir_map_lookup c t); eauto.
  - intros N [e (x & Hx & E & _)%(dir_map_lookup c t)]; [|done]. by apply (N x).
Qed.

Lemma dir_map_root : dir_map RB_ROOT = ∅.
Proof. done. Qed.

Lemma dir_wf_root c : dir_wf c RB_ROOT.
Proof. split; [apply tree_wf_root|constructor]. Qed.

Lemma dir_map_split t l1 x l2 c :
  dir_wf c t -> inorder t = l1 ++ x :: l2 ->
  dir_map t !! hash x.2 = Some (direntry x.2) /\
  forall t', inorder t' = l1 ++ l2 -> dir_map t' = delete (hash x.2) (dir_map t) /\ dir_wf c t'.
Proof.
  intros W E. split.
  - apply (dir_map_lookup c t); [done|]. exists x. rewrite E. split_and!; [|done..].
    apply elem_of_app. right. by left.
  - intros t' E'. split.
    + pose proof (dir_keys_nodup _ (tree_sorted _ _ (dw_tree _ _ W))) as ND. unfold dir_map. rewrite E', E in *.
      rewrite !fmap_app, !fmap_cons in *. cbn [dir_pair fst] in ND.
      rewrite !list_to_map_app. cbn [list_to_map foldr fst snd dir_pair uncurry].
      apply NoDup_app in ND as (_ & N2 & [N3 _]%NoDup_cons).
      rewrite <- insert_union_r; [rewrite delete_insert_id; [done|]|].
      * apply lookup_union_None. split; apply not_elem_of_list_to_map_1; [|done].
        intros Hx. apply (N2 _ Hx). by left.
      * apply not_elem_of_list_to_map_1. intros Hx. apply (N2 _ Hx). by left.
    + destruct W as [W C]. split; [by eapply tree_wf_remove|]. rewrite E, E' in *.
      apply Forall_app in C as [C1 [_ C2]%Forall_cons]. by apply Forall_app.
Qed.

(** ** The operations on the map *)
Lemma find_dir_node c t h :
  dir_wf c t ->
  match dir_map t !! h with
  | Some e => exists l1 p n l2, inorder t = l1 ++ (p, n) :: l2 /\ hash n = h /\ direntry n = e /\
      nova_find_range_node t h NODE_DIR None = (1, Some (p, n))
  | None => exists o, nova_find_range_node t h NODE_DIR None = (0, o)
  end.
Proof.
  intros W. destruct (nova_find_range_node_spec NODE_DIR t h None (dw_tree _ _ W))
    as [[E0 R]|[(l1 & [p n] & l2 & E & Hk & R)|(l1 & l2 & x & E & B & A & R & _)]].
  - rewrite (proj2 (dir_map_none c t h W)); [by eexists|]. rewrite E0. by intros x ?%elem_of_nil.
  - cbn [node_lo node_hi snd] in Hk. assert (hash n = h) as Hh by lia.
    destruct (dir_map_split t l1 (p, n) l2 c W E) as [L _]. cbn [snd] in L. rewrite Hh in L. rewrite L.
    by exists l1, p, n, l2.
  - rewrite (proj2 (dir_map_none c t h W)); [by exists (Some x)|].
    unfold all_below, all_above in *. rewrite Forall_forall in A, B.
    intros y Hy. rewrite E in Hy. cbn [node_lo node_hi] in A, B.
    apply elem_of_app in Hy as [Hy|Hy]; [specialize (B y Hy)|specialize (A y Hy)]; lia.
Qed.

Lemma find_dentry_map c t name : dir_wf c t -> nova_find_dentry t name = default 0 (dir_map t !! BKDRHash name).
Proof.
  intros W. unfold nova_find_dentry. pose proof (find_dir_node c t (BKDRHash name) W) as F.
  destruct (dir_map t !! BKDRHash name) as [e|].
  - destruct F as (l1 & p & n & l2 & _ & Hh & <- & ->). by rewrite Hh, !Z.eqb_refl.
  - destruct F as [[[q m]|] ->]; done.
Qed.

Definition after_alloc (s : nova) : nova := set_alloc_clock (alloc_clock s + 1)%positive s.

Lemma insert_dir_run s t name e :
  dram_struct_csum = 0 -> dir_wf (alloc_clock s) t ->
  exists r t', nova_insert_dir_tree t name e s = Ok (r, t') (after_alloc s) /\
    dir_wf (alloc_clock s + 1)%positive t' /\
    if kmem_cache_zalloc_ok (alloc_clock s) then
      match dir_map t !! BKDRHash name with
      | Some _ => r = - EINVAL /\ t' = t
      | None => r = 0 /\ dir_map t' = <[BKDRHash name := e]> (dir_map t)
      end
    else r = - ENOMEM /\ t' = t.
Proof.
  intros Hd W. set (c := alloc_clock s) in *. set (h := BKDRHash name).
  assert (dir_wf (c + 1)%positive t) as W1.
  { destruct W as [W C]. split; [done|]. eapply Forall_impl; [exact C|]. cbn. intros; lia. }
  unfold nova_insert_dir_tree, nova_alloc_dir_node, nova_alloc_range_node, kmem_cache_zalloc, bind.
  fold c. destruct (kmem_cache_zalloc_ok c); [|by exists (- ENOMEM), t]. fold h.
  set (n := set_range_high e (set_range_low h zeroed_node)). unfold nova_insert_range_node.
  pose proof (insert_walk_spec NODE_DIR t c n (tree_sorted _ _ (dw_tree _ _ W)) eq_refl) as S.
  destruct (insert_walk t c n NODE_DIR) as [t0|] eqn:Ew.
  - destruct S as (l1 & l2 & E & E0 & B & A). change (range_low n) with h in *.
    assert (dir_map t !! h = None) as N.
    { apply (dir_map_none c); [done|]. intros x Hx. rewrite E in Hx. unfold all_below, all_above in *.
      rewrite Forall_forall in A, B. cbn [node_lo node_hi] in A, B.
      apply elem_of_app in Hx as [Hx|Hx]; [specialize (B x Hx)|specialize (A x Hx)]; lia. }
    assert (tree_wf NODE_DIR t0) as Wt.
    { eapply (tree_wf_insert NODE_DIR t t0 l1 l2 c n); [apply W|done|done| |done|exact B|exact A|].
      - intros (y & Ey & Hy)%list_elem_of_fmap. pose proof (dw_clock _ _ W) as C.
        rewrite Forall_forall in C. specialize (C y Hy). rewrite <- Ey in C. lia.
      - unfold nova_range_node_checksum_ok. by rewrite Hd. }
    assert (inorder (rb_insert_color c t0) = l1 ++ (c, n) :: l2) as E1
      by (rewrite rb_insert_color_inorder; [done|apply Wt]).
    assert (dir_wf (c + 1)%positive (rb_insert_color c t0)) as W'.
    { split.
      - destruct Wt as [A1 A2 A3]. rewrite <- E0 in E1. split; by rewrite E1.
      - pose proof (dw_clock _ _ W1) as C. rewrite E1. rewrite E in C. apply Forall_app in C as [C1 C2].
        apply Forall_app. split; [done|]. constructor; [cbn; lia|done]. }
    cbn [fst negb Z.eqb]. exists 0, (rb_insert_color c t0). split_and!; [done|done|]. rewrite N. split; [done|].
    destruct (dir_map_split _ l1 (c, n) l2 _ W' E1) as [L D]. destruct (D t E) as [-> _].
    cbn [snd] in *. change (hash n) with h in *. change (direntry n) with e in L.
    by rewrite insert_delete_eq, insert_id.
  - destruct S as (x & Hx & Hl). cbn [node_lo node_hi] in Hl. change (range_low n) with h in Hl.
    exists (- EINVAL), t. split_and!; [done|done|].
    destruct (dir_map t !! h) eqn:El; [done|]. exfalso.
    apply (proj1 (dir_map_none c t h W) El x Hx). lia.
Qed.

Lemma remove_dir_node c t h :
  dir_wf c t ->
  match dir_map t !! h with
  | Some e => exists p n, nova_find_range_node t h NODE_DIR None = (1, Some (p, n)) /\ direntry n = e /\
      dir_map (rb_erase p t) = delete h (dir_map t) /\ dir_wf c (rb_erase p t)
  | None => exists o, nova_find_range_node t h NODE_DIR None = (0, o)
  end.
Proof.
  intros W. pose proof (find_dir_node c t h W) as F. destruct (dir_map t !! h) as [e|]; [|done].
  destruct F as (l1 & p & n & l2 & E & Hh & He & F). exists p, n. split_and!; [done|done|..];
    destruct (dir_map_split t l1 (p, n) l2 c W E) as [_ D]; cbn [snd] in D; rewrite Hh in D; apply D;
    apply (rb_erase_inorder t l1 p n l2); [apply W|done|apply W|done].
Qed.

Lemma remove_replay_run c s t name k :
  dir_wf c t ->
  exists r t', nova_remove_dir_tree t name true k s = Ok (r, t', k) s /\ dir_wf c t' /\
    match dir_map t !! BKDRHash name with
    | Some _ => r = 0 /\ dir_map t' = delete (BKDRHash name) (dir_map t)
    | None => r = - EINVAL /\ t' = t
    end.
Proof.
  intros W. unfold nova_remove_dir_tree. pose proof (remove_dir_node c t (BKDRHash name) W) as F.
  destruct (dir_map t !! BKDRHash name) as [e|].
  - destruct F as (p & n & -> & _ & Ed & W'). by exists 0, (rb_erase p t).
  - destruct F as [o ->]. by exists (- EINVAL), t.
Qed.

(** ** Names *)

(** On [names] the tree is the map [m], and holds nothing else. *)
Record dir_rel (names : list (list Z)) (c : ptr) (t : rb_tree) (m : gmap (list Z) Z) : Prop := {
  dr_wf : dir_wf c t;
  dr_lookup : forall name, name ∈ names -> dir_map t !! BKDRHash name = m !! name;
  dr_tree : forall h, is_Some (dir_map t !! h) -> exists name, name ∈ names /\ BKDRHash name = h;
  dr_names : forall name, is_Some (m !! name) -> name ∈ names
}.

Lemma hash_inj names x y :
  NoDup (BKDRHash <$> names) -> x ∈ names -> y ∈ names -> BKDRHash x = BKDRHash y -> x = y.
Proof.
  intros ND (l1 & l2 & ->)%elem_app_split Hy E. rewrite fmap_app, fmap_cons in ND.
  apply NoDup_app in ND as (_ & N2 & [N3 _]%NoDup_cons).
  assert (forall l : list (list Z), y ∈ l -> BKDRHash x ∈ BKDRHash <$> l) as X.
  { intros l Hl. rewrite E. by apply list_elem_of_fmap_2. }
  apply elem_of_app in Hy as [Hy|[->|Hy]%elem_of_cons]; [|done|].
  - exfalso. apply (N2 _ (X _ Hy)). by left.
  - exfalso. by apply N3, X.
Qed.

Lemma dir_rel_insert names c t t' m name e :
  NoDup (BKDRHash <$> names) -> dir_rel names c t m -> name ∈ names -> dir_wf (c + 1)%positive t' ->
  dir_map t' = <[BKDRHash name := e]> (dir_map t) -> dir_rel names (c + 1)%positive t' (<[name := e]> m).
Proof.
  intros ND [W L T N] Hn W' E. split; [done|..].
  - intros x Hx. rewrite E. destruct (decide (x = name)) as [->|Hne]; [by rewrite !lookup_insert_eq|].
    rewrite !lookup_insert_ne; [by apply L|done|]. intros X. apply Hne. symmetry. by eapply hash_inj.
  - intros h. rewrite E. intros [<-|[_ Hx]]%lookup_insert_is_Some; [by exists name|by apply T].
  - intros x [->|[_ Hx]]%lookup_insert_is_Some; [done|by apply N].
Qed.

Lemma dir_rel_delete names c t t' m name :
  NoDup (BKDRHash <$> names) -> dir_rel names c t m -> name ∈ names -> dir_wf c t' ->
  dir_map t' = delete (BKDRHash name) (dir_map t) -> dir_rel names c t' (delete name m).
Proof.
  intros ND [W L T N] Hn W' E. split; [done|..].
  - intros x Hx. rewrite E. destruct (decide (x = name)) as [->|Hne]; [by rewrite !lookup_delete_eq|].
    rewrite !lookup_delete_ne; [by apply L|done|]. intros X. apply Hne. symmetry. by eapply hash_inj.
  - intros h. rewrite E. intros [_ Hx]%lookup_delete_is_Some. by apply T.
  - intros x [_ Hx]%lookup_delete_is_Some. by apply N.
Qed.

Lemma dir_rel_clock names c c' t m : dir_rel names c t m -> (c <= c')%positive -> dir_rel names c' t m.
Proof.
  intros [[W C] L T N] Hc. split; try done. split; [done|]. eapply Forall_impl; [exact C|]. cbn. intros; lia.
Qed.

Lemma dir_exec_refines names op t s m :
  dram_struct_csum = 0 -> (forall p, kmem_cache_zalloc_ok p = true) -> NoDup (BKDRHash <$> names) ->
  op_name op ∈ names -> dir_rel names (alloc_clock s) t m ->
  exists t' s', dir_exec op t s = Ok ((dir_spec op m).1, t') s' /\
    dir_rel names (alloc_clock s') t' (dir_spec op m).2.
Proof.
  intros Hd Hslab ND Hn R. pose proof (dr_wf _ _ _ _ R) as W. destruct op as [name e|name|name]; cbn in Hn |- *.
  - destruct (insert_dir_run s t name e Hd W) as (r & t' & E & W' & Hr). rewrite Hslab, (dr_lookup _ _ _ _ R) in Hr by done.
    exists t', (after_alloc s). destruct (m !! name) as [e'|]; destruct Hr as [-> Ht]; (split; [done|]).
    + subst t'. eapply dir_rel_clock; [done|]. cbn. lia.
    + by eapply dir_rel_insert.
  - destruct (remove_replay_run _ s t name 0 W) as (r & t' & E & W' & Hr). rewrite (dr_lookup _ _ _ _ R) in Hr by done.
    rewrite (bind_ok _ _ _ _ _ E). exists t', s. destruct (m !! name) as [e'|]; destruct Hr as [-> Ht]; (split; [done|]).
    + by eapply dir_rel_delete.
    + by subst t'.
  - exists t, s. split; [|done]. unfold ret. by rewrite (find_dentry_map _ _ _ W), (dr_lookup _ _ _ _ R).
Qed.

(** C17: on names whose hashes are distinct, any sequence of
    insertions, replayed removals and lookups behaves as a map from names to
    entries: an insertion adds an absent name and refuses one that is there, a
    removal deletes a name or refuses, a lookup returns the entry or NULL; the
    tree stays sorted by hash and holds nothing else. *)
Theorem dir_tree_refines_map names ops t s m :
  dram_struct_csum = 0 -> (forall p, kmem_cache_zalloc_ok p = true) -> NoDup (BKDRHash <$> names) ->
  Forall (fun op => op_name op ∈ names) ops -> dir_rel names (alloc_clock s) t m ->
  exists t' s', dir_execs ops t s = Ok ((dir_specs ops m).1, t') s' /\
    dir_rel names (alloc_clock s') t' (dir_specs ops m).2.
Proof.
  intros Hd Hslab ND F. revert t s m. induction F as [|op ops Ho F IH]; intros t s m R; cbn [dir_execs dir_specs].
  - by exists t, s.
  - destruct (dir_exec_refines names op t s m Hd Hslab ND Ho R) as (t1 & s1 & E1 & R1).
    rewrite (bind_ok _ _ _ _ _ E1). destruct (dir_spec op m) as [r m1]. cbn [fst snd] in *.
    destruct (IH t1 s1 m1 R1) as (t2 & s2 & E2 & R2). rewrite (bind_ok _ _ _ _ _ E2).
    destruct (dir_specs ops m1) as [rs m2]. by exists t2, s2.
Qed.

(** ** Removal on the unlink path *)

(** The entry at [e] is valid and names [name]. *)
Record dentry_at (s : nova) (e : Z) (name : list Z) : Prop := {
  da_nonnull : e <> 0;
  da_pmem : in_pmem s e (48 + length name) = true;
  da_len : load 1 (nvmm s) (e + 1) = Z.of_nat (length name);
  da_name : load_bytes (nvmm s) (e + 48) (length name) = name;
  da_chars : Forall (fun c => c <> 0) name;
  da_ino : load 8 (nvmm s) (e + 16) <> 0;
  da_valid : load 1 (nvmm s) (e + 3) = 0
}.

Lemma inplace_bytes s e off n N :
  in_pmem s e N = true -> 0 <= off -> off + Z.of_nat n <= Z.of_nat N ->
  entryc_bytes (InPlace e) off n s = Ok (load_bytes (nvmm s) (e + off) n) s.
Proof.
  intros Hp H1' H2'. cbn [entryc_bytes]. unfold pload_bytes.
  by rewrite (in_pmem_sub s e N (e + off) n Hp ltac:(lia) ltac:(lia)).
Qed.

Lemma strncmp_name_run s e N name : forall i name',
  in_pmem s e N = true -> 0 <= i -> 48 + i + Z.of_nat (length name) <= Z.of_nat N ->
  load_bytes (nvmm s) (e + 48 + i) (length name) = name -> Forall (fun c => c <> 0) name ->
  length name' = length name ->
  exists r, strncmp_name (InPlace e) i name' s = Ok r s /\ (r = 0 <-> name' = name).
Proof.
  induction name as [|c name IH]; intros i [|c' name'] Hp Hi HN El F Hlen; try done.
  { by exists 0. }
  cbn [length] in *. cbn [strncmp_name]. change (offsetof nova_dentry "name") with 48.
  rewrite (bind_ok _ _ _ _ _ (inplace_bytes s e (48 + i) 1 N Hp ltac:(lia) ltac:(lia))).
  replace (e + (48 + i)) with (e + 48 + i) by lia.
  cbn [load_bytes] in El |- *. injection El as E1 E2.
  rewrite E1. cbn [le_val]. replace (c + 256 * 0) with c by lia. apply Forall_cons in F as [Fc F].
  destruct (Z.eqb_spec c c') as [<-|Hne]; cbn [negb].
  - rewrite (proj2 (Z.eqb_neq c 0) Fc).
    destruct (IH (i + 1) name' Hp ltac:(lia) ltac:(lia)) as (r & Er & Hr); [|done|lia|].
    { by replace (e + 48 + (i + 1)) with (e + 48 + i + 1) by lia. }
    exists r. split; [done|]. rewrite Hr. split; [by intros ->|by intros [= ->]].
  - eexists. split; [reflexivity|]. split; [by case_if|]. intros [= -> _]. done.
Qed.

Lemma inplace_field s e f N v :
  in_pmem s e N = true -> 0 <= offsetof nova_dentry f ->
  offsetof nova_dentry f + Z.of_nat (sizeof_field nova_dentry f) <= Z.of_nat N ->
  load (sizeof_field nova_dentry f) (nvmm s) (e + offsetof nova_dentry f) = v ->
  entryc_field nova_dentry (InPlace e) f s = Ok v s.
Proof.
  intros Hp H1' H2' <-. unfold entryc_field. by rewrite (bind_ok _ _ _ _ _ (inplace_bytes s e _ _ N Hp H1' H2')).
Qed.

(** The entry is refused exactly when it has another name. *)
Lemma dentry_refused_run s e name name' :
  metadata_csum = 0 -> dentry_at s e name ->
  dentry_refused e name' s = Ok (negb (bool_decide (name' = name))) s.
Proof.
  intros Hm [He Hp Hl Hn Hc Hi Hv]. unfold dentry_refused, verified_entry.
  assert (forall f v, offsetof nova_dentry f + Z.of_nat (sizeof_field nova_dentry f) <= 48 ->
    0 <= offsetof nova_dentry f ->
    load (sizeof_field nova_dentry f) (nvmm s) (e + offsetof nova_dentry f) = v ->
    entryc_field nova_dentry (InPlace e) f s = Ok v s) as Fld.
  { intros f v F1 F2 F3. by apply (inplace_field s e f (48 + length name)); [|lia..|]. }
  rewrite (proj2 (Z.eqb_neq e 0) He), Hm. cbn [Z.eqb bind ret].
  rewrite (bind_ok _ _ _ _ _ (Fld "ino" _ ltac:(done) ltac:(done) eq_refl)).
  change (e + offsetof nova_dentry "ino") with (e + 16). change (sizeof_field nova_dentry "ino") with 8%nat.
  rewrite (proj2 (Z.eqb_neq _ 0) Hi).
  rewrite (bind_ok _ _ _ _ _ (Fld "invalid" _ ltac:(done) ltac:(done) Hv)).
  cbn [negb Z.eqb]. unfold nova_check_dentry_match, bind at 1.
  rewrite (bind_ok _ _ _ _ _ (Fld "name_len" _ ltac:(done) ltac:(done) Hl)).
  destruct (Z.eqb_spec (Z.of_nat (length name)) (Z.of_nat (length name'))) as [Eq|Hne]; cbn [negb].
  - destruct (strncmp_name_run s e (48 + length name) name 0 name' Hp ltac:(lia) ltac:(lia)) as (r & -> & Hr);
      [by rewrite Z.add_0_r|done|lia|].
    unfold ret. f_equal. f_equal. destruct (Z.eqb_spec r 0) as [->|Hr0].
    + by rewrite bool_decide_true by (by apply Hr).
    + rewrite bool_decide_false; [done|]. by intros X%Hr.
  - rewrite bool_decide_false; [done|]. by intros ->.
Qed.

Lemma remove_unlink_run s c t e name name' k :
  metadata_csum = 0 -> dir_wf c t -> dir_map t !! BKDRHash name' = Some e -> dentry_at s e name ->
  exists t', nova_remove_dir_tree t name' false k s
      = Ok (if decide (name' = name) then (0, t', e) else (- EINVAL, t', k)) s /\
    dir_wf c t' /\ dir_map t' = delete (BKDRHash name') (dir_map t).
Proof.
  intros Hm W L Da. pose proof (remove_dir_node c t (BKDRHash name') W) as F. rewrite L in F.
  destruct F as (p & n & F & <- & Em & W'). exists (rb_erase p t). unfold nova_remove_dir_tree. rewrite F.
  cbn [Z.eqb]. unfold nova_free_dir_node, nova_free_range_node, bind at 1, ret at 1.
  rewrite (bind_ok _ _ _ _ _ (dentry_refused_run s _ name name' Hm Da)).
  split_and!; [|done|done]. destruct (decide (name' = name)) as [->|Hne].
  - by rewrite bool_decide_true.
  - by rewrite bool_decide_false.
Qed.

(** removing a name for an unlink succeeds exactly when the
    entry found under its hash carries that name, and then returns that entry;
    but the entry under the hash leaves the tree in either case, so an attempt
    to remove a name that only collides with an existing one is refused with
    EINVAL and makes the existing name disappear from the directory. *)
Theorem nova_remove_dir_tree_unlink s c t e name name' k :
  metadata_csum = 0 -> dir_wf c t -> dir_map t !! BKDRHash name' = Some e -> dentry_at s e name ->
  exists t', nova_remove_dir_tree t name' false k s
      = Ok (if decide (name' = name) then (0, t', e) else (- EINVAL, t', k)) s /\
    dir_wf c t' /\ dir_map t' = delete (BKDRHash name') (dir_map t) /\ nova_find_dentry t' name' = 0 /\
    (BKDRHash name = BKDRHash name' -> nova_find_dentry t' name = 0).
Proof.
  intros Hm W L Da. destruct (remove_unlink_run s c t e name name' k Hm W L Da) as (t' & E & W' & Em). exists t'.
  assert (forall x, BKDRHash x = BKDRHash name' -> nova_find_dentry t' x = 0) as X.
  { intros x Hx. by rewrite (find_dentry_map _ _ _ W'), Em, Hx, lookup_delete_eq. }
  split_and!; [done|done|done|by apply X|apply X].
Qed.
End spec.
