(* ===== verification/Parity.v ===== *)
(** Data parity (parity.c): each 4 KB block has one 512-byte parity stripe, the
    XOR of its eight data stripes, from which [nova_restore_data] rebuilds a
    lost stripe; and [nova_verify_data_csum] (checksum.c), which checks the
    stripes it is about to read and repairs data and checksums. *)

From stdpp Require Import strings.
From S2P Require Import Prelude CInt Crc32c NovaEnv RangeNode Pmem NovaState NovaMonad NovaLib.
From S2P Require Import Balloc NovaLayout InodeTable Checksum.

Local Open Scope nova_scope.
Local Open Scope list_scope.
Local Open Scope Z_scope.

(** Whether the CPU has SSE2 ([static_cpu_has(X86_FEATURE_XMM2)]). *)
Class ParityEnv := { cpu_has_xmm2 : bool }.

Section parity.
Context `{NovaEnv} `{ParityEnv}.

(** ** Where the parity stripe of a block lives (nova.h) *)
Definition nova_get_parity_addr (blocknr : Z) : M Z :=
  let BLOCK_SHIFT := PAGE_SHIFT - NOVA_STRIPE_SHIFT in
  if data_parity =? 0 then ret 0
  else
    let! s := gets id in
    if per_list_blocks s =? 0 then raise FDivide
    else
      let index := s32 (blocknr / per_list_blocks s) in
      if cpus (sbc s) <=? index then ret 0
      else
        let! fl := nova_get_free_list index in
        let blockoff := u64 (Z.shiftl (parity_start fl) PAGE_SHIFT) in
        if num_parity_blocks fl <=? Z.shiftr (u64 (blocknr - block_start fl)) BLOCK_SHIFT
        then ret 0
        else ret (nova_get_block s blockoff
                  + u64 (Z.shiftl (u64 (blocknr - block_start fl)) NOVA_STRIPE_SHIFT)).

(** ** Computing parity

    A [w]-byte access to a buffer at index [i]. *)
Definition word (w i : nat) (block : list Z) : Z := le_val (take w (drop i block)).

(** [for (strp = strp0; strp < strp0 + n; strp++) acc ^= block[(strp << 9) + i]] *)
Fixpoint xor_strips (w n strp i : nat) (block : list Z) (acc : Z) : Z :=
  match n with
  | O => acc
  | S n => xor_strips w n (S strp) i block (Z.lxor acc (word w (strp * STRIPE + i) block))
  end.

(** [for (i = i0; i < i0 + n * w; i += w)]: the parity words, as bytes. *)
Fixpoint parity_words (w n i num_strps : nat) (block : list Z) : list Z :=
  match n with
  | O => []
  | S n =>
      le_bytes w (xor_strips w (num_strps - 1) 1 i block (word w i block))
      ++ parity_words w n (i + w) num_strps block
  end.

Definition num_strps_of (s : nova) : nat :=
  Z.to_nat (Z.shiftr (s_blocksize (sbc s)) NOVA_STRIPE_SHIFT).

(** 128-bit lanes with SSE2, 64-bit ones otherwise. *)
Definition nova_calculate_block_parity (s : nova) (block : list Z) : list Z :=
  let num_strps := num_strps_of s in
  if cpu_has_xmm2 then parity_words 16 32 0 num_strps block
  else parity_words 8 64 0 num_strps block.

(** [block] is [None] for a NULL pointer. *)
Definition nova_update_block_parity (block : option (list Z)) (blocknr : Z) (zero : bool)
    : M Z :=
  let! buf := kmem_cache_zalloc in
  match buf with
  | None => ret 0
  | Some _ =>
      match block with
      | None => ret 0
      | Some block =>
          let! s := gets id in
          let parity := if zero then replicate STRIPE 0 else nova_calculate_block_parity s block in
          let! nvmmptr := nova_get_parity_addr blocknr in
          nova_memunlock_range nvmmptr NOVA_STRIPE_SIZE ;;;
          let! _ := memcpy_to_pmem_nocache nvmmptr parity in
          nova_memlock_range nvmmptr NOVA_STRIPE_SIZE ;;;
          ret 0
      end
  end.

Definition nova_update_pgoff_parity (sih : inode_header) (tree : gmap Z Z)
    (entry pgoff : Z) (zero : bool) : M Z :=
  let! blockoff := nova_find_nvmm_block tree entry pgoff in
  if blockoff =? 0 then ret 0
  else
    let! s := gets id in
    let dax_mem := nova_get_block s blockoff in
    let blocknr := nova_get_blocknr blockoff (i_blk_type sih) in
    let! block := pload_bytes (Z.to_nat (s_blocksize (sbc s))) dax_mem in
    let! _ := nova_update_block_parity (Some block) blocknr zero in
    ret 0.

(** ** Checksums and parity of a block being written

    One pass of the unrolled loop reads one 64-bit word of each stripe. *)
Definition qwd (block : list Z) (k : nat) : Z := word 8 (k * STRIPE) block.

Definition qwds (block : list Z) : list Z := qwd block <$> seq 0 8.

Fixpoint unrolled (n : nat) (csum : bool) (block : list Z) (acc : list Z) (parity : list Z)
    : list Z * list Z * list Z :=
  match n with
  | O => (block, acc, parity)
  | S n =>
      let q := qwds block in
      let acc := if csum then zip_with crc32q acc q else acc in
      let parity := if 0 <? data_parity then parity ++ le_bytes 8 (foldl Z.lxor 0 q) else parity in
      unrolled n csum (drop 8 block) acc parity
  end.

Definition nova_update_block_csum_parity (sih : inode_header) (block : list Z)
    (blocknr offset bytes : Z) : M Z :=
  let! s := gets id in
  let blockoff := nova_get_block_off blocknr (i_blk_type sih) in
  let strp_nr := Z.shiftr blockoff NOVA_STRIPE_SHIFT in
  let strp_offset := u32 (Z.land offset (NOVA_STRIPE_SIZE - 1)) in
  let num_strps := u32 (Z.shiftr (u64 (strp_offset + bytes - 1)) NOVA_STRIPE_SHIFT + 1) in
  let unroll_parity := (s_blocksize (sbc s) / NOVA_STRIPE_SIZE =? 8) && (num_strps =? 8) in
  let unroll_csum := unroll_parity && cpu_has_xmm4_2 in
  let finish (block : list Z) : M Z :=
    (when ((0 <? data_csum) && negb unroll_csum)
       (let! _ := nova_update_block_csum sih block blocknr offset bytes false in ret tt) ;;;
     when ((0 <? data_parity) && negb unroll_parity)
       (let! _ := nova_update_block_parity (Some block) blocknr false in ret tt) ;;;
     ret 0) in
  if unroll_parity then
    let! ok := (if 0 <? data_parity then kmem_cache_zalloc else ret (Some 1%positive)) in
    match ok with
    | None => nova_err ;;; ret 0
    | Some _ =>
        (* the loop's last access is the last word of stripe 7 *)
        let! _ := dram_read (8 * STRIPE) block in
        let '(block', acc, parity) :=
          unrolled 64 ((0 <? data_csum) && unroll_csum) block (replicate 8 NOVA_INIT_CSUM) [] in
        when ((0 <? data_csum) && unroll_csum)
          (let crc := acc ≫= (fun a => le_bytes 4 (u32 a)) in
           let! nvmmptr := nova_get_data_csum_addr strp_nr 0 in
           let! nvmmptr1 := nova_get_data_csum_addr strp_nr 1 in
           nova_memunlock_range nvmmptr (NOVA_DATA_CSUM_LEN * 8) ;;;
           let! _ := memcpy_to_pmem_nocache nvmmptr crc in
           let! _ := memcpy_to_pmem_nocache nvmmptr1 crc in
           nova_memlock_range nvmmptr (NOVA_DATA_CSUM_LEN * 8)) ;;;
        when (0 <? data_parity)
          (let! nvmmptr := nova_get_parity_addr blocknr in
           nova_memunlock_range nvmmptr NOVA_STRIPE_SIZE ;;;
           let! _ := memcpy_to_pmem_nocache nvmmptr parity in
           nova_memlock_range nvmmptr NOVA_STRIPE_SIZE) ;;;
        finish block'
    end
  else finish block.

(** ** Recovery *)

(** Gathers the block with the parity in place of the bad strip; the error of a
    failed copy, if any. *)
Fixpoint gather (n : nat) (i : Z) (blockptr parity badstrip_id : Z) : M (Z * list Z) :=
  match n with
  | O => ret (0, [])
  | S n =>
      let offset := Z.shiftl i NOVA_STRIPE_SHIFT in
      let! r := memcpy_mcsafe (if i =? badstrip_id then parity else blockptr + offset) STRIPE in
      if r.1 <? 0 then ret (r.1, [])
      else if negb (r.1 =? 0) then raise FUninit
      else
        let! rest := gather n (i + 1) blockptr parity badstrip_id in
        ret (rest.1, r.2 ++ rest.2)
  end.

(** [for (i = 0; i < strp_size; i++)]: tries the strip with its first [i] bytes
    taken from the bad one; yields the strip and checksum that match. *)
Fixpoint match_strip (n i : nat) (strip badstrip : list Z) (csum0 csum1 : Z) (once : bool)
    : option (list Z * Z) :=
  match n with
  | O => None
  | S n =>
      let strip := take i badstrip ++ drop i strip in
      let csum_calc := stripe_csum strip in
      if (csum_calc =? csum0) || (csum_calc =? csum1) then Some (strip, csum_calc)
      else if once then None
      else match_strip n (S i) strip badstrip csum0 csum1 once
  end.

(** Returns the error code and the good checksum. *)
Definition nova_restore_data (blocknr badstrip_id : Z) (badstrip : list Z) (nvmmerr csum0 csum1 : Z)
    : M (Z * Z) :=
  let! s := gets id in
  let blockoff := nova_get_block_off blocknr NOVA_BLOCK_TYPE_4K in
  let blockptr := nova_get_block s blockoff in
  let stripptr := blockptr + Z.shiftl badstrip_id NOVA_STRIPE_SHIFT in
  let! m1 := kmem_cache_zalloc in
  let! m2 := kmem_cache_zalloc in
  match m1, m2 with
  | Some _, Some _ =>
      let! parity := nova_get_parity_addr blocknr in
      if parity =? 0 then nova_err ;;; ret (- EIO, 0)
      else
        let! g := gather (num_strps_of s) 0 blockptr parity badstrip_id in
        if negb (g.1 =? 0) then nova_err ;;; ret (g.1, 0)
        else
          let strip := nova_calculate_block_parity s g.2 in
          let once := negb (nvmmerr =? 0)
                      || (badstrip_id =? Z.of_nat (num_strps_of s) - 1) in
          match match_strip STRIPE 0 strip badstrip csum0 csum1 once with
          | Some r =>
              nova_memunlock_range stripptr NOVA_STRIPE_SIZE ;;;
              let! _ := memcpy_to_pmem_nocache stripptr r.1 in
              nova_memlock_range stripptr NOVA_STRIPE_SIZE ;;;
              ret (0, r.2)
          | None => ret (- EIO, 0)
          end
  | _, _ => nova_err ;;; ret (- ENOMEM, 0)
  end.

Definition nova_update_truncated_block_parity (sih : inode_header) (tree : gmap Z Z)
    (newsize : Z) : M Z :=
  let! s := gets id in
  let pgoff := Z.shiftr newsize (s_blocksize_bits (sbc s)) in
  let! nvmm_off := nova_find_nvmm_block tree 0 pgoff in
  if nvmm_off =? 0 then ret (- EFAULT)
  else
    let nvmm_addr := nova_get_block s nvmm_off in
    let blocknr := nova_get_blocknr nvmm_off (i_blk_type sih) in
    let! buf := kmem_cache_zalloc in
    match buf with
    | None => ret (- ENOMEM)
    | Some _ =>
        let! r := memcpy_mcsafe nvmm_addr (Z.to_nat (s_blocksize (sbc s))) in
        if r.1 <? 0 then ret (- EIO)
        else if negb (r.1 =? 0) then raise FUninit
        else let! _ := nova_update_block_parity (Some r.2) blocknr false in ret 0
    end.

(** ** Verification on the read path (checksum.c) *)

(** One iteration of the loop over the stripes: whether the stripe is good
    after a possible repair. *)
Definition verify_strip (blocknr strp_nr strp_index strp_ptr : Z) : M bool :=
  let! csum_addr0 := nova_get_data_csum_addr strp_nr 0 in
  let! csum_nvmm0 := pload 4 csum_addr0 in
  let! csum_addr1 := nova_get_data_csum_addr strp_nr 1 in
  let! csum_nvmm1 := pload 4 csum_addr1 in
  let! r := memcpy_mcsafe strp_ptr STRIPE in
  let repair_csums (csum_calc : Z) : M bool :=
    (when (negb (csum_nvmm0 =? csum_nvmm1))
       (nova_memunlock_range csum_addr0 NOVA_DATA_CSUM_LEN ;;;
        when (negb (csum_nvmm0 =? csum_calc))
          (let! _ := memcpy_to_pmem_nocache csum_addr0 (le_bytes 4 csum_calc) in ret tt) ;;;
        when (negb (csum_nvmm1 =? csum_calc))
          (let! _ := memcpy_to_pmem_nocache csum_addr1 (le_bytes 4 csum_calc) in ret tt) ;;;
        nova_memlock_range csum_addr0 NOVA_DATA_CSUM_LEN) ;;;
     ret true) in
  let recover (strip : list Z) (error : Z) : M bool :=
    (if data_parity =? 0 then ret false
     else
       let! e := nova_restore_data blocknr strp_index strip error csum_nvmm0 csum_nvmm1 in
       if negb (e.1 =? 0) then ret false else repair_csums e.2) in
  if r.1 <? 0 then recover [] r.1
  else if negb (r.1 =? 0) then raise FUninit
  else
    let csum_calc := stripe_csum r.2 in
    if (csum_calc =? csum_nvmm0) || (csum_calc =? csum_nvmm1) then repair_csums csum_calc
    else recover r.2 0.

Fixpoint verify_strips (strps : nat) (blocksize blocknr strp_nr strp_index strp_ptr : Z)
    : M bool :=
  match strps with
  | O => ret true
  | S strps =>
      let! ok := verify_strip blocknr strp_nr strp_index strp_ptr in
      if negb ok then ret false
      else
        let strp_index := u32 (strp_index + 1) in
        let next := strp_index =? Z.shiftr blocksize NOVA_STRIPE_SHIFT in
        verify_strips strps blocksize
          (if next then u64 (blocknr + 1) else blocknr)
          (u64 (strp_nr + 1)) (if next then 0 else strp_index) (strp_ptr + NOVA_STRIPE_SIZE)
  end.

Definition nova_verify_data_csum (sih : inode_header) (blocknr offset bytes : Z) : M bool :=
  let! s := gets id in
  let blocksize := nova_inode_blk_size (i_blk_type sih) in
  let strps := u64 (Z.shiftr (u64 (offset + bytes - 1)) NOVA_STRIPE_SHIFT
                    - Z.shiftr offset NOVA_STRIPE_SHIFT + 1) in
  let blockoff := nova_get_block_off blocknr (i_blk_type sih) in
  let blockptr := nova_get_block s blockoff in
  let strp_nr := Z.shiftr (u64 (blockoff + offset)) NOVA_STRIPE_SHIFT in
  let strp_index := u32 (Z.shiftr offset NOVA_STRIPE_SHIFT) in
  let strp_ptr := blockptr + u32 (Z.shiftl strp_index NOVA_STRIPE_SHIFT) in
  let! strip := kmem_cache_zalloc in
  match strip with
  | None => ret false
  | Some _ => verify_strips (Z.to_nat strps) blocksize blocknr strp_nr strp_index strp_ptr
  end.
End parity.
