(* ===== verification/ParityRepair.v ===== *)
(** Repair of corrupted data stripes: [nova_restore_data] rebuilds a stripe from
    the parity, [nova_verify_data_csum] finds the stripe to rebuild. *)

From stdpp Require Import strings.
From S2P Require Import Prelude CInt Crc32c NovaEnv RangeNode Pmem NovaState NovaMonad NovaLib.
From S2P Require Import Balloc NovaLayout InodeTable Checksum Parity ParitySpec.

Local Open Scope nova_scope.
Local Open Scope list_scope.
Local Open Scope Z_scope.

Section repair.
Context `{NovaEnv} `{ParityEnv}.

(** ** A data block and its redundancy

    The address of stripe [k] of a block. *)
Definition strip_addr (s : nova) (blocknr : Z) (k : nat) : Z :=
  virt_addr (sbc s) + 4096 * blocknr + 512 * Z.of_nat k.

Definition apart (a n b k : Z) : Prop := a + n <= b \/ b + k <= a.

(** Block [blocknr] has its parity stripe at [par] and the two copies of its
    eight checksums at [c0] and [c1]; all four areas are NVMM and disjoint. *)
Record block_geo (s : nova) (blocknr c0 c1 par : Z) : Prop := {
  bg_size : s_blocksize (sbc s) = 4096;
  bg_nr : 0 < blocknr < 2 ^ 40;
  bg_region : region_ok s;
  bg_par : nova_get_parity_addr blocknr s = Ok par s;
  bg_c0 k : (k < 8)%nat ->
    nova_get_data_csum_addr (8 * blocknr + Z.of_nat k) 0 s = Ok (c0 + 4 * Z.of_nat k) s;
  bg_c1 k : (k < 8)%nat ->
    nova_get_data_csum_addr (8 * blocknr + Z.of_nat k) 1 s = Ok (c1 + 4 * Z.of_nat k) s;
  bg_in_blk : inside s (strip_addr s blocknr 0) 4096;
  bg_in_par : inside s par 512;
  bg_in_c0 : inside s c0 32;
  bg_in_c1 : inside s c1 32;
  bg_blk_par : apart (strip_addr s blocknr 0) 4096 par 512;
  bg_blk_c0 : apart (strip_addr s blocknr 0) 4096 c0 32;
  bg_blk_c1 : apart (strip_addr s blocknr 0) 4096 c1 32;
  bg_par_c0 : apart par 512 c0 32;
  bg_par_c1 : apart par 512 c1 32;
  bg_c0_c1 : apart c0 32 c1 32
}.

Lemma block_geo_wrote s s' m blocknr c0 c1 par :
  wrote s s' m -> block_geo s blocknr c0 c1 par -> block_geo s' blocknr c0 c1 par.
Proof.
  intros Hw [H1 H2 H3 H4 H5 H6 H7 H8 H9 H10 H11 H12 H13 H14 H15 H16].
  unfold inside, region_ok, strip_addr in *. rewrite <- (w_sbc _ _ _ Hw) in *.
  split; try done.
  - by eapply get_parity_addr_wrote.
  - intros k Hk. eapply get_csum_addr_wrote; [done|]. by apply H5.
  - intros k Hk. eapply get_csum_addr_wrote; [done|]. by apply H6.
Qed.

Definition nstrips : nat := 8.

Lemma block_geo_strips s blocknr c0 c1 par :
  block_geo s blocknr c0 c1 par -> num_strps_of s = nstrips.
Proof. intros Hg. unfold num_strps_of. by rewrite (bg_size _ _ _ _ _ Hg). Qed.

Lemma block_ptr s blocknr c0 c1 par t :
  block_geo s blocknr c0 c1 par ->
  nova_get_block s (nova_get_block_off blocknr t) = strip_addr s blocknr 0
  /\ nova_get_block_off blocknr t = 4096 * blocknr.
Proof.
  intros Hg. pose proof (bg_nr _ _ _ _ _ Hg). unfold nova_get_block, nova_get_block_off, strip_addr.
  change PAGE_SHIFT with 12. rewrite Z.shiftl_mul_pow2 by lia. change (2 ^ 12) with 4096.
  rewrite uwrap_small by lia. destruct (Z.eqb_spec (blocknr * 4096) 0); lia.
Qed.

(** What NVMM holds of a block: the parity and checksums of [orig], and [orig]
    itself except possibly in stripe [b]. *)
Record guarded (s : nova) (blocknr c0 c1 par : Z) (orig : list Z) (b : nat) : Prop := {
  gd_geo : block_geo s blocknr c0 c1 par;
  gd_len : length orig = (nstrips * STRIPE)%nat;
  gd_bytes : Forall byteZ orig;
  gd_b : (b < nstrips)%nat;
  gd_par : load_bytes (nvmm s) par STRIPE = parity_of nstrips orig;
  gd_c0 k : (k < nstrips)%nat ->
    load 4 (nvmm s) (c0 + 4 * Z.of_nat k) = stripe_csum (strip k orig);
  gd_c1 k : (k < nstrips)%nat ->
    load 4 (nvmm s) (c1 + 4 * Z.of_nat k) = stripe_csum (strip k orig);
  gd_data k : (k < nstrips)%nat -> k <> b ->
    load_bytes (nvmm s) (strip_addr s blocknr k) STRIPE = strip k orig
}.

(** The media: no error outside stripe [b]; reading stripe [b] either works or
    reports an error. *)
Record media_ok (s : nova) (blocknr par : Z) (b : nat) : Prop := {
  md_par : memcpy_mcsafe_rc par (Z.of_nat STRIPE) = 0;
  md_data k : (k < nstrips)%nat -> k <> b ->
    memcpy_mcsafe_rc (strip_addr s blocknr k) (Z.of_nat STRIPE) = 0;
  md_bad : memcpy_mcsafe_rc (strip_addr s blocknr b) (Z.of_nat STRIPE) <= 0
}.

Lemma length_strip k orig :
  length orig = (nstrips * STRIPE)%nat -> (k < nstrips)%nat -> length (strip k orig) = STRIPE.
Proof.
  intros Hl Hk. unfold strip, nstrips, STRIPE in *. rewrite length_take, length_drop. lia.
Qed.

Lemma strip_addr_eq s blocknr k :
  strip_addr s blocknr k = strip_addr s blocknr 0 + 512 * Z.of_nat k.
Proof. unfold strip_addr. lia. Qed.

Lemma mcsafe_run s a n :
  memcpy_mcsafe_rc a (Z.of_nat n) = 0 -> inside s a (Z.of_nat n) ->
  memcpy_mcsafe a n s = Ok (0, load_bytes (nvmm s) a n) s.
Proof.
  intros Hrc [Hlo Hhi]. unfold memcpy_mcsafe. rewrite Hrc. cbn.
  unfold bind, pload_bytes. rewrite (proj2 (in_pmem_spec s a n)) by lia. done.
Qed.

Lemma inside_strip s blocknr c0 c1 par k :
  block_geo s blocknr c0 c1 par -> (k < nstrips)%nat ->
  inside s (strip_addr s blocknr k) 512.
Proof.
  intros Hg Hk. destruct (bg_in_blk _ _ _ _ _ Hg). unfold inside, strip_addr, nstrips in *. lia.
Qed.

(** *** Gathering the surviving stripes *)
Lemma gather_run s blocknr c0 c1 par orig b n k :
  guarded s blocknr c0 c1 par orig b -> media_ok s blocknr par b -> (k + n <= nstrips)%nat ->
  gather n (Z.of_nat k) (strip_addr s blocknr 0) par (Z.of_nat b) s
  = Ok (0, seq k n ≫= (fun j => if decide (j = b) then parity_of nstrips orig
                                else strip j orig)) s.
Proof.
  intros Hg Hm. revert k. induction n as [|n IH]; intros k Hk; [done|]. cbn [gather].
  pose proof (gd_geo _ _ _ _ _ _ _ Hg) as Hgeo.
  assert (memcpy_mcsafe (if Z.of_nat k =? Z.of_nat b then par
            else strip_addr s blocknr 0 + Z.shiftl (Z.of_nat k) NOVA_STRIPE_SHIFT) STRIPE s
          = Ok (0, if decide (k = b) then parity_of nstrips orig else strip k orig) s) as E.
  { destruct (decide (k = b)) as [->|Hne].
    - rewrite Z.eqb_refl, mcsafe_run; [by rewrite (gd_par _ _ _ _ _ _ _ Hg)|apply Hm|].
      exact (bg_in_par _ _ _ _ _ Hgeo).
    - destruct (Z.eqb_spec (Z.of_nat k) (Z.of_nat b)); [lia|].
      change NOVA_STRIPE_SHIFT with 9. rewrite Z.shiftl_mul_pow2 by lia.
      replace (strip_addr s blocknr 0 + Z.of_nat k * 2 ^ 9) with (strip_addr s blocknr k)
        by (rewrite (strip_addr_eq _ _ k); lia).
      rewrite mcsafe_run; [by rewrite (gd_data _ _ _ _ _ _ _ Hg) by lia|apply Hm; lia|].
      eapply (inside_strip _ _ _ _ _ k); [exact Hgeo|lia]. }
  rewrite (bind_ok _ _ _ _ _ E). cbn [fst snd]. cbn [Z.ltb Z.eqb Z.compare negb].
  replace (Z.of_nat k + 1) with (Z.of_nat (S k)) by lia.
  rewrite (bind_ok _ _ _ _ _ (IH (S k) ltac:(lia))). done.
Qed.

Lemma bind_one (f : nat -> list Z) x : ([x] ≫= f) = f x.
Proof. cbn. apply app_nil_r. Qed.

Lemma bind_ext_in (f g : nat -> list Z) l :
  (forall j, j ∈ l -> f j = g j) -> (l ≫= f) = (l ≫= g).
Proof.
  induction l as [|x l IH]; intros Hj; [done|]. cbn [mbind list_bind].
  rewrite Hj, IH; [done| |by apply elem_of_cons; left].
  intros j Hin. apply Hj, elem_of_cons. by right.
Qed.

Lemma strips_suffix orig n k :
  length orig = ((k + n) * STRIPE)%nat ->
  (seq k n ≫= (fun j => strip j orig)) = drop (k * STRIPE) orig.
Proof.
  revert k. induction n as [|n IH]; intros k Hk; cbn [seq mbind list_bind].
  - symmetry. apply drop_ge. lia.
  - rewrite IH by lia. unfold strip.
    rewrite <- (take_drop STRIPE (drop (k * STRIPE) orig)) at 2.
    f_equal. rewrite drop_drop. f_equal. lia.
Qed.

Lemma strips_prefix orig n :
  (seq 0 n ≫= (fun j => strip j orig)) = take (n * STRIPE) orig.
Proof.
  induction n as [|n IH]; [done|]. rewrite seq_S, bind_app, IH, bind_one.
  unfold strip. rewrite take_take_drop. f_equal. lia.
Qed.

(** The gathered block is [orig] with stripe [b] replaced by the parity. *)
Lemma gather_with_strip orig b p :
  length orig = (nstrips * STRIPE)%nat -> (b < nstrips)%nat ->
  (seq 0 nstrips ≫= (fun j => if decide (j = b) then p else strip j orig))
  = with_strip b p orig.
Proof.
  intros Hl Hb.
  assert (seq 0 nstrips = seq 0 b ++ [b] ++ seq (S b) (nstrips - S b)) as ->.
  { replace nstrips with (b + (1 + (nstrips - S b)))%nat at 1 by lia.
    rewrite !seq_app. do 2 f_equal. f_equal. lia. }
  unfold with_strip. rewrite !bind_app, bind_one, decide_True by done. f_equal; [|f_equal].
  - rewrite <- strips_prefix. apply bind_ext_in. intros j Hj%elem_of_seq.
    by rewrite decide_False by lia.
  - rewrite <- (strips_suffix orig (nstrips - S b) (S b)) by (rewrite Hl; f_equal; lia).
    apply bind_ext_in. intros j Hj%elem_of_seq. by rewrite decide_False by lia.
Qed.

Lemma Forall_byte_parity n block :
  Forall byteZ block -> Forall byteZ (parity_of n block).
Proof.
  intros Hb. unfold parity_of. apply Forall_fmap, Forall_forall. intros i _. cbn.
  unfold parity_byte. induction n as [|n IH]; [by unfold xorN, byteZ|]. rewrite xorN_S.
  assert (byteZ (bget block (n * STRIPE + i))) as Hx.
  { unfold bget. destruct (block !! _) eqn:E; [|by unfold byteZ].
    exact (Forall_lookup_1 _ _ _ _ Hb E). }
  unfold byteZ in *. change 256 with (2 ^ 8) in *.
  assert (forall x, 0 <= x < 2 ^ 8 -> Z.land x (Z.ones 8) = x) as Hmask
    by (intros x Hx'; rewrite Z.land_ones by lia; by apply Z.mod_small).
  set (x := xorN n _) in *. set (y := bget _ _) in *.
  assert (Z.lxor x y = Z.lxor x y mod 2 ^ 8) as ->; [|apply Z.mod_pos_bound; lia].
  change (2 ^ 8) with 256. rewrite mod_lxor_256, !Z.mod_small by (change 256 with (2 ^ 8); lia).
  done.
Qed.

Lemma Forall_byte_with_strip b l block :
  Forall byteZ block -> Forall byteZ l -> Forall byteZ (with_strip b l block).
Proof.
  intros. unfold with_strip. rewrite !Forall_app. split; [by apply Forall_take|].
  split; [done|]. by apply Forall_drop.
Qed.

Lemma length_with_strip b l block :
  length l = STRIPE -> (S b * STRIPE <= length block)%nat ->
  length (with_strip b l block) = length block.
Proof. intros Hl Hb. unfold with_strip. rewrite !length_app, length_take, length_drop. lia. Qed.

(** *** [nova_restore_data] *)
Lemma match_strip_first n st bad c1 once :
  match_strip (S n) 0 st bad (stripe_csum st) c1 once = Some (st, stripe_csum st).
Proof. cbn [match_strip]. rewrite take_0, drop_0. cbn [app]. by rewrite Z.eqb_refl. Qed.

Lemma guarded_alloc s s' blocknr c0 c1 par orig b :
  wrote s s' (nvmm s) -> guarded s blocknr c0 c1 par orig b -> guarded s' blocknr c0 c1 par orig b.
Proof.
  intros Hw [Hg Hl Hb Hb8 Hp Hc0 Hc1 Hd].
  pose proof (block_geo_wrote _ _ _ _ _ _ _ Hw Hg) as Hg'.
  split; try done; unfold strip_addr; rewrite (w_mem _ _ _ Hw), ?(w_sbc _ _ _ Hw); done.
Qed.

Lemma media_alloc s s' m blocknr par b :
  wrote s s' m -> media_ok s blocknr par b -> media_ok s' blocknr par b.
Proof.
  intros Hw [Hp Hd Hb]. split; unfold strip_addr; rewrite ?(w_sbc _ _ _ Hw); done.
Qed.

Lemma restore_data_run s blocknr c0 c1 par orig b bad err :
  (forall n, kmem_cache_zalloc_ok n = true) ->
  guarded s blocknr c0 c1 par orig b -> media_ok s blocknr par b ->
  let good := stripe_csum (strip b orig) in
  exists s', nova_restore_data blocknr (Z.of_nat b) bad err good good s = Ok (0, good) s'
    /\ wrote s s' (store_bytes (nvmm s) (strip_addr s blocknr b) (strip b orig)).
Proof.
  intros Hk Hg0 Hm0 good. unfold nova_restore_data.
  rewrite (bind_ok _ _ _ s s) by done.
  destruct (kmem_cache_zalloc_run s Hk) as (p1 & s1 & E1 & W1). rewrite (bind_ok _ _ _ _ _ E1).
  destruct (kmem_cache_zalloc_run s1 Hk) as (p2 & s2 & E2 & W2). rewrite (bind_ok _ _ _ _ _ E2).
  rewrite (w_mem _ _ _ W1) in W2. pose proof (wrote_trans _ _ _ _ _ W1 W2) as W.
  pose proof (guarded_alloc _ _ _ _ _ _ _ _ W Hg0) as Hg.
  pose proof (media_alloc _ _ _ _ _ _ W Hm0) as Hm.
  pose proof (gd_geo _ _ _ _ _ _ _ Hg0) as Hgeo0.
  pose proof (gd_geo _ _ _ _ _ _ _ Hg) as Hgeo.
  pose proof (gd_len _ _ _ _ _ _ _ Hg) as Hlen. pose proof (gd_b _ _ _ _ _ _ _ Hg) as Hb.
  rewrite (bind_ok _ _ _ _ _ (bg_par _ _ _ _ _ Hgeo)).
  destruct (Z.eqb_spec par 0) as [->|_].
  { destruct (bg_in_par _ _ _ _ _ Hgeo), (bg_region _ _ _ _ _ Hgeo). lia. }
  rewrite (proj1 (block_ptr _ _ _ _ _ NOVA_BLOCK_TYPE_4K Hgeo0)), (block_geo_strips _ _ _ _ _ Hgeo0).
  pose proof (gather_run _ _ _ _ _ _ _ nstrips 0 Hg Hm ltac:(lia)) as Eg.
  assert (strip_addr s2 blocknr 0 = strip_addr s blocknr 0) as Ea
    by (unfold strip_addr; by rewrite (w_sbc _ _ _ W)).
  rewrite Ea in Eg. rewrite gather_with_strip in Eg by done.
  change (Z.of_nat 0) with 0 in Eg. rewrite (bind_ok _ _ _ _ _ Eg). cbn [fst snd].
  change (negb (0 =? 0)) with false. cbv iota.
  assert (S b * STRIPE <= length orig)%nat as Hsb by (rewrite Hlen; apply Nat.mul_le_mono_r; lia).
  assert (nova_calculate_block_parity s (with_strip b (parity_of nstrips orig) orig)
          = strip b orig) as ->.
  { rewrite calculate_block_parity_ref; rewrite ?(block_geo_strips _ _ _ _ _ Hgeo0).
    - by apply parity_rebuilds.
    - apply Forall_byte_with_strip; [apply Hg|apply Forall_byte_parity, Hg].
    - unfold nstrips. lia.
    - rewrite length_with_strip by (done || apply length_parity_of). by rewrite Hlen. }
  change STRIPE with (S 511) at 1. rewrite match_strip_first. cbn [fst snd].
  pose proof (length_strip b orig Hlen Hb) as Hls.
  assert (Z.shiftl (Z.of_nat b) NOVA_STRIPE_SHIFT = 512 * Z.of_nat b) as ->
    by (change NOVA_STRIPE_SHIFT with 9; rewrite Z.shiftl_mul_pow2 by lia; lia).
  rewrite <- (strip_addr_eq s blocknr b).
  destruct (protected_write s2 (strip_addr s blocknr b) (strip b orig) NOVA_STRIPE_SIZE)
    as (s3 & E3 & W3).
  { exact (bg_region _ _ _ _ _ Hgeo). }
  { pose proof (inside_strip _ _ _ _ _ b Hgeo Hb) as Hin. unfold strip_addr in *.
    by rewrite (w_sbc _ _ _ W) in Hin. }
  { by rewrite Hls. }
  exists s3. split; [|eapply wrote_trans; [exact W|]; by rewrite <- (w_mem _ _ _ W)].
  by rewrite (bind3_ok _ _ _ _ _ _ _ E3).
Qed.

(** *** Verifying one stripe *)

(** A corruption the checksum can tell from the original. *)
Definition detectable (s : nova) (blocknr : Z) (orig : list Z) (b : nat) : Prop :=
  let cur := load_bytes (nvmm s) (strip_addr s blocknr b) STRIPE in
  cur = strip b orig \/ stripe_csum cur <> stripe_csum (strip b orig).

(** [s'] differs from [s] in NVMM at most inside stripe [b]. *)
Definition only_strip (s s' : nova) (blocknr : Z) (b : nat) : Prop :=
  forall x, ~ (strip_addr s blocknr b <= x < strip_addr s blocknr b + 512) ->
    mget (nvmm s') x = mget (nvmm s) x.

Lemma guarded_fixed s s' blocknr c0 c1 par orig b :
  guarded s blocknr c0 c1 par orig b ->
  wrote s s' (store_bytes (nvmm s) (strip_addr s blocknr b) (strip b orig)) ->
  guarded s' blocknr c0 c1 par orig b /\ only_strip s s' blocknr b
  /\ load_bytes (nvmm s') (strip_addr s blocknr b) STRIPE = strip b orig.
Proof.
  intros [Hg Hl Hb Hb8 Hp Hc0 Hc1 Hd] Hw.
  pose proof (length_strip b orig Hl Hb8) as Hls.
  pose proof (block_geo_wrote _ _ _ _ _ _ _ Hw Hg) as Hg'.
  pose proof (bg_blk_par _ _ _ _ _ Hg) as A1. pose proof (bg_blk_c0 _ _ _ _ _ Hg) as A2.
  pose proof (bg_blk_c1 _ _ _ _ _ Hg) as A3. rewrite (strip_addr_eq _ _ b) in *.
  unfold apart, nstrips in *.
  split; [split|split]; try done; rewrite ?(w_mem _ _ _ Hw).
  - rewrite load_bytes_store_other by (rewrite Hls; unfold STRIPE in *; lia). done.
  - intros k Hk. rewrite load_store_bytes_other 
      by (rewrite Hls; unfold nstrips, STRIPE in *; lia). auto.
  - intros k Hk. rewrite load_store_bytes_other 
      by (rewrite Hls; unfold nstrips, STRIPE in *; lia). auto.
  - intros k Hk Hne.
    assert (strip_addr s' blocknr k = strip_addr s blocknr k) as ->
      by (unfold strip_addr; by rewrite (w_sbc _ _ _ Hw)).
    rewrite load_bytes_store_other; [by apply Hd|].
    rewrite Hls, (strip_addr_eq _ _ k). unfold nstrips, STRIPE in *. lia.
  - intros x Hx. rewrite (w_mem _ _ _ Hw). apply mget_store_bytes_out. rewrite Hls.
    unfold STRIPE. rewrite (strip_addr_eq _ _ b) in Hx. lia.
  - rewrite <- Hls at 1. apply load_store_bytes_same.
Qed.

(** Damage confined to stripe [b] keeps a block recoverable. *)
Lemma guarded_corrupt s s' m blocknr c0 c1 par orig b :
  guarded s blocknr c0 c1 par orig b -> wrote s s' m -> only_strip s s' blocknr b ->
  guarded s' blocknr c0 c1 par orig b.
Proof.
  intros [Hg Hl Hb Hb8 Hp Hc0 Hc1 Hd] Hw Ho.
  pose proof (block_geo_wrote _ _ _ _ _ _ _ Hw Hg) as Hg'.
  pose proof (bg_blk_par _ _ _ _ _ Hg) as A1. pose proof (bg_blk_c0 _ _ _ _ _ Hg) as A2.
  pose proof (bg_blk_c1 _ _ _ _ _ Hg) as A3.
  unfold only_strip in Ho. rewrite (strip_addr_eq _ _ b) in Ho. unfold apart in *.
  split; try done.
  - rewrite <- Hp. apply load_bytes_ext. intros x Hx. apply Ho.
    unfold nstrips, STRIPE in *. lia.
  - intros k Hk. rewrite <- Hc0 by done. apply load_ext. intros x Hx. apply Ho.
    unfold nstrips in *. lia.
  - intros k Hk. rewrite <- Hc1 by done. apply load_ext. intros x Hx. apply Ho.
    unfold nstrips in *. lia.
  - intros k Hk Hne. rewrite <- Hd by done.
    assert (strip_addr s' blocknr k = strip_addr s blocknr k) as ->
      by (unfold strip_addr; by rewrite (w_sbc _ _ _ Hw)).
    apply load_bytes_ext. intros x Hx. apply Ho. rewrite (strip_addr_eq _ _ k) in Hx.
    unfold nstrips, STRIPE in *. lia.
Qed.

Record strip_good (s s' : nova) (blocknr c0 c1 par : Z) (orig : list Z) (b k : nat) : Prop := {
  sg_guarded : guarded s' blocknr c0 c1 par orig b;
  sg_media : media_ok s' blocknr par b;
  sg_sbc : sbc s' = sbc s;
  sg_detect : detectable s' blocknr orig b;
  sg_only : only_strip s s' blocknr b;
  sg_data : load_bytes (nvmm s') (strip_addr s blocknr k) STRIPE = strip k orig;
  sg_keep : nvmm s' = nvmm s
    \/ load_bytes (nvmm s') (strip_addr s blocknr b) STRIPE = strip b orig
}.

Lemma strip_addr_sbc s s' blocknr k :
  sbc s' = sbc s -> strip_addr s' blocknr k = strip_addr s blocknr k.
Proof. unfold strip_addr. by intros ->. Qed.

Lemma verify_strip_run s blocknr c0 c1 par orig b k :
  (forall n, kmem_cache_zalloc_ok n = true) -> data_parity <> 0 ->
  guarded s blocknr c0 c1 par orig b -> media_ok s blocknr par b ->
  detectable s blocknr orig b -> (k < nstrips)%nat ->
  exists s', verify_strip blocknr (8 * blocknr + Z.of_nat k) (Z.of_nat k)
               (strip_addr s blocknr k) s = Ok true s'
    /\ strip_good s s' blocknr c0 c1 par orig b k.
Proof.
  intros Hk Hdp Hg Hm Hdet Hk8. pose proof (gd_geo _ _ _ _ _ _ _ Hg) as Hgeo.
  pose proof (inside_strip _ _ _ _ _ k Hgeo Hk8) as Hin.
  unfold verify_strip. rewrite (bind_ok _ _ _ _ _ (bg_c0 _ _ _ _ _ Hgeo k Hk8)).
  pose proof (bg_in_c0 _ _ _ _ _ Hgeo) as [I0 I0']. pose proof (bg_in_c1 _ _ _ _ _ Hgeo) as [I1 I1'].
  unfold nstrips in Hk8.
  erewrite bind_ok by (apply pload_run, in_pmem_spec; lia).
  rewrite (bind_ok _ _ _ _ _ (bg_c1 _ _ _ _ _ Hgeo k Hk8)).
  erewrite bind_ok by (apply pload_run, in_pmem_spec; lia).
  rewrite (gd_c0 _ _ _ _ _ _ _ Hg k Hk8), (gd_c1 _ _ _ _ _ _ _ Hg k Hk8), Z.eqb_refl.
  cbn [negb when].
  assert (forall bad err, k = b -> exists s',
    (let! e := nova_restore_data blocknr (Z.of_nat k) bad err (stripe_csum (strip k orig))
                 (stripe_csum (strip k orig)) in
     if negb (e.1 =? 0) then ret false else (ret tt ;;; ret true)) s = Ok true s'
    /\ strip_good s s' blocknr c0 c1 par orig b k) as Hrec.
  { intros bad err ->.
    destruct (restore_data_run _ _ _ _ _ _ _ bad err Hk Hg Hm) as (s' & E & Hw).
    rewrite (bind_ok _ _ _ _ _ E). exists s'. split; [done|].
    destruct (guarded_fixed _ _ _ _ _ _ _ _ Hg Hw) as (Hg' & Ho & Hd).
    split; try done; [by eapply media_alloc|apply Hw| |by right]. left.
    by rewrite (strip_addr_sbc s s') by apply Hw. }
  destruct (decide (data_parity = 0)); [done|].
  destruct (Z.eqb_spec data_parity 0); [done|].
  destruct (decide (k = b)) as [Ekb|Hne].
  - pose proof (md_bad _ _ _ _ Hm) as Hrc. rewrite <- Ekb in Hrc.
    destruct (Z.ltb_spec (memcpy_mcsafe_rc (strip_addr s blocknr k) (Z.of_nat STRIPE)) 0) as [Hlt|Hge].
    + unfold memcpy_mcsafe. destruct (Z.eqb_spec (memcpy_mcsafe_rc (strip_addr s blocknr k) (Z.of_nat STRIPE)) 0);
        [lia|]. cbn [negb]. rewrite (bind_ok _ _ _ _ s eq_refl). cbn [fst snd].
      rewrite (proj2 (Z.ltb_lt _ _) Hlt). by apply Hrec.
    + assert (memcpy_mcsafe_rc (strip_addr s blocknr k) (Z.of_nat STRIPE) = 0) as Hrc0 by lia.
      rewrite (bind_ok _ _ _ _ _ (mcsafe_run s _ STRIPE Hrc0 Hin)). cbn [fst snd].
      change (0 <? 0) with false. change (negb (0 =? 0)) with false. cbv iota.
      destruct (Z.eqb_spec (stripe_csum (load_bytes (nvmm s) (strip_addr s blocknr k) STRIPE))
        (stripe_csum (strip k orig))) as [Ec|Ec]; cbn [orb]; [|by apply Hrec].
      exists s. split; [done|]. split; try done; [|by left]. subst b.
      destruct Hdet as [Hd|Hd]; [exact Hd|contradiction].
  - rewrite (bind_ok _ _ _ _ _ (mcsafe_run s _ STRIPE (md_data _ _ _ _ Hm k Hk8 Hne) Hin)).
    cbn [fst snd]. change (0 <? 0) with false. change (negb (0 =? 0)) with false. cbv iota.
    rewrite (gd_data _ _ _ _ _ _ _ Hg k Hk8 Hne), Z.eqb_refl.
    exists s. split; [done|]. split; try done; [|by left].
    exact (gd_data _ _ _ _ _ _ _ Hg k Hk8 Hne).
Qed.

Lemma verify_strips_run n blocknr c0 c1 par orig b : forall k s,
  (forall n, kmem_cache_zalloc_ok n = true) -> data_parity <> 0 ->
  guarded s blocknr c0 c1 par orig b -> media_ok s blocknr par b ->
  detectable s blocknr orig b -> (k + n <= nstrips)%nat ->
  exists s', verify_strips n 4096 blocknr (8 * blocknr + Z.of_nat k) (Z.of_nat k)
               (strip_addr s blocknr k) s = Ok true s'
    /\ guarded s' blocknr c0 c1 par orig b /\ only_strip s s' blocknr b /\ sbc s' = sbc s
    /\ (forall j, (k <= j < k + n)%nat ->
          load_bytes (nvmm s') (strip_addr s blocknr j) STRIPE = strip j orig)
    /\ (nvmm s' = nvmm s
        \/ load_bytes (nvmm s') (strip_addr s blocknr b) STRIPE = strip b orig).
Proof.
  induction n as [|n IH]; intros k s Hk Hdp Hg Hm Hdet Hkn.
  { exists s. split; [done|]. split; [done|]. split; [done|]. split; [done|].
    split; [lia|by left]. }
  destruct (verify_strip_run _ _ _ _ _ _ _ k Hk Hdp Hg Hm Hdet ltac:(lia)) as (s1 & E1 & G1).
  pose proof (gd_geo _ _ _ _ _ _ _ Hg) as Hgeo. pose proof (bg_nr _ _ _ _ _ Hgeo).
  cbn [verify_strips]. rewrite (bind_ok _ _ _ _ _ E1). cbn [negb].
  unfold nstrips in Hkn. rewrite (uwrap_small 32), (uwrap_small 64 (8 * _ + _ + 1)) by lia.
  destruct G1 as [Hg1 Hm1 Hs1 Hd1 Ho1 Hgood Hkeep].
  destruct n as [|n].
  { exists s1. split; [done|]. split; [done|]. split; [done|]. split; [done|].
    split; [|done]. intros j Hj. replace j with k by lia. exact Hgood. }
  destruct (Z.eqb_spec (Z.of_nat k + 1) (Z.shiftr 4096 NOVA_STRIPE_SHIFT)) as [Ek|_];
    [change (Z.shiftr 4096 NOVA_STRIPE_SHIFT) with 8 in Ek; lia|].
  destruct (IH (S k) s1 Hk Hdp Hg1 Hm1 Hd1 ltac:(unfold nstrips; lia))
    as (s2 & E2 & Hg2 & Ho2 & Hs2 & Hd2 & Hk2).
  replace (8 * blocknr + Z.of_nat k + 1) with (8 * blocknr + Z.of_nat (S k)) by lia.
  replace (Z.of_nat k + 1) with (Z.of_nat (S k)) by lia.
  replace (strip_addr s blocknr k + NOVA_STRIPE_SIZE) with (strip_addr s1 blocknr (S k))
    by (rewrite (strip_addr_sbc s s1) by done; unfold strip_addr;
        change NOVA_STRIPE_SIZE with 512; lia).
  exists s2. split; [exact E2|]. split; [done|].
  rewrite !(strip_addr_sbc s s1) in * by done.
  assert (nvmm s2 = nvmm s \/ load_bytes (nvmm s2) (strip_addr s blocknr b) STRIPE = strip b orig)
    as Hkeep2.
  { destruct Hk2 as [->|Hk2]; [exact Hkeep|by right]. }
  split; [|split; [congruence|split; [|done]]].
  { intros x Hx. rewrite Ho2 by by rewrite (strip_addr_sbc s s1). by apply Ho1. }
  intros j Hj. destruct (decide (j = k)) as [->|Hne];
    [|rewrite <- (strip_addr_sbc s s1) by done; apply Hd2; lia].
  destruct (decide (k = b)) as [->|Hkb].
  - destruct Hk2 as [->|Hk2]; [exact Hgood|exact Hk2].
  - rewrite <- (strip_addr_sbc s s2) by congruence. apply Hg2; [unfold nstrips; lia|done].
Qed.

(** C25: reads are repaired.  If one stripe of a 4 KB block is damaged,
    silently (in a way its checksum shows) or by a media error (which
    memcpy_mcsafe reports by a negative code), while its
    parity, checksums and other stripes are intact, then verifying any byte
    range of the block succeeds, afterwards every stripe of the range holds the
    original data, the redundancy still matches, and nothing outside the
    damaged stripe has changed. *)
Theorem nova_verify_data_csum_repairs sih s blocknr c0 c1 par orig b offset bytes :
  (forall n, kmem_cache_zalloc_ok n = true) -> data_parity <> 0 -> i_blk_type sih = 0 ->
  guarded s blocknr c0 c1 par orig b -> media_ok s blocknr par b ->
  detectable s blocknr orig b ->
  0 <= offset -> 0 < bytes -> offset + bytes <= 4096 ->
  exists s', nova_verify_data_csum sih blocknr offset bytes s = Ok true s'
    /\ (forall k, offset / 512 <= Z.of_nat k <= (offset + bytes - 1) / 512 ->
          load_bytes (nvmm s') (strip_addr s blocknr k) STRIPE = strip k orig)
    /\ guarded s' blocknr c0 c1 par orig b /\ only_strip s s' blocknr b.
Proof.
  intros Hk Hdp Ht Hg Hm Hd Ho Hb Hob. pose proof (gd_geo _ _ _ _ _ _ _ Hg) as Hgeo.
  pose proof (bg_nr _ _ _ _ _ Hgeo) as Hnr.
  destruct (kmem_cache_zalloc_run s Hk) as (p1 & s1 & E1 & W1).
  set (k0 := Z.to_nat (offset / 512)). set (n := Z.to_nat ((offset + bytes - 1) / 512 - offset / 512 + 1)).
  assert (0 <= offset / 512) by (apply Z.div_pos; lia).
  assert (offset / 512 <= (offset + bytes - 1) / 512) by (apply Z.div_le_mono; lia).
  assert ((offset + bytes - 1) / 512 < 8) by (apply Z.div_lt_upper_bound; lia).
  destruct (verify_strips_run n blocknr c0 c1 par orig b k0 s1 Hk Hdp
    (guarded_alloc _ _ _ _ _ _ _ _ W1 Hg) (media_alloc _ _ _ _ _ _ W1 Hm))
    as (s2 & E2 & Hg2 & Ho2 & Hs2 & Hd2 & _).
  { unfold detectable in *. by rewrite (strip_addr_sbc s s1), (w_mem _ _ _ W1) by apply W1. }
  { unfold nstrips. lia. }
  exists s2. split; [|split; [|split; [done|]]].
  - unfold nova_verify_data_csum. rewrite (bind_ok _ _ _ s s) by done.
    destruct (block_ptr _ _ _ _ _ (i_blk_type sih) Hgeo) as [-> ->].
    rewrite Ht. change (nova_inode_blk_size 0) with 4096. rewrite (bind_ok _ _ _ _ _ E1).
    change NOVA_STRIPE_SHIFT with 9. rewrite !Z.shiftl_mul_pow2, !Z.shiftr_div_pow2 by lia.
    change (2 ^ 9) with 512. rewrite (uwrap_small 64 (offset + bytes - 1)) by lia.
    rewrite (uwrap_small 32 (offset / 512)), (uwrap_small 32 (offset / 512 * 512)) by lia.
    rewrite (uwrap_small 64 (4096 * blocknr + offset)), (uwrap_small 64 (_ - _ + 1)) by lia.
    replace ((4096 * blocknr + offset) / 512) with (8 * blocknr + offset / 512)
      by (replace (4096 * blocknr + offset) with (offset + (8 * blocknr) * 512) by lia;
          rewrite Z.div_add by lia; lia).
    fold n. replace (offset / 512) with (Z.of_nat k0) by lia.
    replace (strip_addr s blocknr 0 + Z.of_nat k0 * 512) with (strip_addr s1 blocknr k0)
      by (rewrite (strip_addr_sbc s s1) by apply W1; rewrite (strip_addr_eq s _ k0); lia).
    exact E2.
  - intros k Hkr. rewrite <- (strip_addr_sbc s s1) by apply W1. apply Hd2. lia.
  - intros x Hx. rewrite Ho2; [by rewrite (w_mem _ _ _ W1)|].
    by rewrite (strip_addr_sbc s s1) by apply W1.
Qed.
End repair.
