(* ===== verification/ParityUpdate.v ===== *)
(** The write path: [nova_update_block_csum_parity] computes, in one unrolled
    pass over the block, the checksums and the parity the read path relies on. *)

From stdpp Require Import strings.
From S2P Require Import Prelude CInt Crc32c NovaEnv RangeNode Pmem NovaState NovaMonad NovaLib.
From S2P Require Import Balloc NovaLayout Checksum Parity ParitySpec ParityRepair.

Local Open Scope nova_scope.
Local Open Scope list_scope.
Local Open Scope Z_scope.

(** ** The unrolled loop *)
Lemma word_drop w i j block : word w i (drop j block) = word w (j + i) block.
Proof. unfold word. by rewrite drop_drop. Qed.

Lemma xor_strips_foldl w n strp i block acc :
  xor_strips w n strp i block acc
  = foldl Z.lxor acc ((fun s => word w (s * STRIPE + i) block) <$> seq strp n).
Proof.
  revert strp acc. induction n as [|n IH]; intros strp acc; cbn [xor_strips seq]; [done|].
  rewrite IH. done.
Qed.

(** The checksum words of stripe [k], from the [j]-th on. *)
Definition strip_words (whole : list Z) (k j n : nat) : list Z :=
  (fun i => word 8 (k * STRIPE + 8 * i) whole) <$> seq j n.

Lemma zip_with_fmap_seq (f : Z -> Z -> Z) (g h : nat -> Z) i n :
  zip_with f (g <$> seq i n) (h <$> seq i n) = (fun k => f (g k) (h k)) <$> seq i n.
Proof.
  revert i. induction n as [|n IH]; intros i; [done|]. cbn [seq fmap list_fmap zip_with].
  f_equal. apply IH.
Qed.

Section update.
Context `{NovaEnv} `{ParityEnv}.

Lemma qwds_words whole j :
  qwds (drop (8 * j) whole) = (fun k => word 8 (k * STRIPE + 8 * j) whole) <$> seq 0 8.
Proof.
  unfold qwds, qwd. apply list_fmap_ext. intros _ k _. rewrite word_drop.
  f_equal. lia.
Qed.

Lemma unrolled_run n j whole A P :
  0 < data_parity ->
  unrolled n true (drop (8 * j) whole) (A <$> seq 0 8) P
  = (drop (8 * (j + n)) whole,
     (fun k => foldl crc32q (A k) (strip_words whole k j n)) <$> seq 0 8,
     P ++ parity_words 8 n (8 * j) 8 whole).
Proof.
  intros Hdp. revert j A P. induction n as [|n IH]; intros j A P; cbn [unrolled parity_words].
  - by rewrite Nat.add_0_r, app_nil_r.
  - rewrite (proj2 (Z.ltb_lt _ _) Hdp), qwds_words, zip_with_fmap_seq, drop_drop.
    replace (8 * j + 8)%nat with (8 * S j)%nat by lia. rewrite IH.
    replace (8 * (j + S n))%nat with (8 * (S j + n))%nat by lia.
    rewrite <- app_assoc. do 3 f_equal.
Qed.

(** CRC by words and by bytes. *)
Lemma crc_words n c l :
  length l = (8 * n)%nat -> Forall byteZ l -> 0 <= c < 2 ^ 32 ->
  foldl crc32q c ((fun i => word 8 (8 * i) l) <$> seq 0 n) = crc32c_bytes c l.
Proof.
  revert c l. induction n as [|n IH]; intros c l Hl Hb Hc.
  - destruct l; [done|cbn in Hl; lia].
  - cbn [seq fmap list_fmap foldl]. rewrite <- fmap_S_seq, <- list_fmap_compose.
    rewrite (list_fmap_ext _ (fun i => word 8 (8 * i) (drop 8 l))).
    2: { intros _ i _. unfold compose. rewrite word_drop. f_equal. lia. }
    transitivity (crc32c_bytes c (take 8 l ++ drop 8 l)); [|by rewrite take_drop].
    rewrite crc32c_bytes_app.
    change (word 8 (8 * 0) l) with (le_val (take 8 l)).
    assert (length (take 8 l) = 8%nat) by (rewrite length_take; lia).
    rewrite crc32q_bytes by (done || by apply Forall_take). apply IH.
    + rewrite length_drop. lia.
    + by apply Forall_drop.
    + by apply crc32c_bytes_range.
Qed.

Lemma strip_words_strip whole k :
  length whole = (nstrips * STRIPE)%nat -> (k < nstrips)%nat ->
  strip_words whole k 0 64 = (fun i => word 8 (8 * i) (strip k whole)) <$> seq 0 64.
Proof.
  intros Hl Hk. unfold strip_words. apply list_fmap_ext. intros j i Hi.
  apply lookup_seq in Hi as [-> Hi]. unfold word, strip. f_equal.
  rewrite <- drop_drop. apply list_eq. intros x.
  rewrite !lookup_take, !lookup_drop, !lookup_take, !lookup_drop. cbn [Nat.add].
  destruct (decide (x < 8)%nat); [|done].
  rewrite decide_True by (unfold STRIPE; lia). done.
Qed.

Section crc.
Context {CO : @CrcEnvOk nova_crc_env}.

Lemma stripe_csum_words whole k :
  length whole = (nstrips * STRIPE)%nat -> Forall byteZ whole -> (k < nstrips)%nat ->
  u32 (foldl crc32q NOVA_INIT_CSUM (strip_words whole k 0 64)) = stripe_csum (strip k whole).
Proof.
  intros Hl Hb Hk. rewrite strip_words_strip by done.
  assert (Forall byteZ (strip k whole)) as Hbs by (by apply Forall_take, Forall_drop).
  rewrite crc_words; [|by rewrite (length_strip k whole Hl Hk)|done|done].
  unfold stripe_csum. rewrite nova_crc32c_ref by done. unfold crc32c_ref.
  apply uwrap_small. by apply crc32c_bytes_range.
Qed.

(** The eight checksums as they are stored. *)
Definition csum_bytes (whole : list Z) : list Z :=
  seq 0 8 ≫= (fun k => le_bytes 4 (stripe_csum (strip k whole))).

Lemma bind_fmap_seq (f : nat -> Z) (g : Z -> list Z) i n :
  ((f <$> seq i n) ≫= g) = (seq i n ≫= (fun k => g (f k))).
Proof.
  revert i. induction n as [|n IH]; intros i; [done|]. cbn [seq fmap list_fmap mbind list_bind].
  f_equal. apply IH.
Qed.

Lemma unrolled_block whole :
  0 < data_parity -> length whole = (nstrips * STRIPE)%nat -> Forall byteZ whole ->
  exists acc, unrolled 64 true whole (replicate 8 NOVA_INIT_CSUM) []
              = (drop STRIPE whole, acc, parity_of nstrips whole)
    /\ (acc ≫= (fun a => le_bytes 4 (u32 a))) = csum_bytes whole.
Proof.
  intros Hdp Hl Hb. pose proof (unrolled_run 64 0 whole (fun _ => NOVA_INIT_CSUM) [] Hdp) as E.
  change (8 * 0)%nat with 0%nat in E. rewrite drop_0 in E.
  assert (8 * STRIPE <= length whole)%nat as H8 by (rewrite Hl; apply Nat.le_refl).
  assert (0 + 64 * 8 <= STRIPE)%nat as H64 by (unfold STRIPE; lia).
  rewrite (parity_words_bytes 8 64 0 8 whole Hb ltac:(lia) H8 H64) in E.
  eexists. split; [exact E|].
  rewrite bind_fmap_seq. unfold csum_bytes. apply bind_ext_in. intros k Hk%elem_of_seq.
  rewrite (stripe_csum_words whole k Hl Hb ltac:(unfold nstrips; lia)). reflexivity.
Qed.

(** ** Reading back what was stored *)
Lemma take_drop_bind (g : nat -> list Z) w i n k :
  (forall j, length (g j) = w) -> (k < n)%nat ->
  take w (drop (w * k) (seq i n ≫= g)) = g (i + k)%nat.
Proof.
  intros Hg. revert i k. induction n as [|n IH]; intros i k Hk; [lia|].
  cbn [seq mbind list_bind]. destruct k as [|k].
  - rewrite Nat.mul_0_r, drop_0, Nat.add_0_r, take_app_le by (rewrite Hg; lia).
    apply take_ge. by rewrite Hg.
  - rewrite drop_app_ge by (rewrite Hg; lia). rewrite Hg.
    replace (w * S k - w)%nat with (w * k)%nat by lia.
    replace (i + S k)%nat with (S i + k)%nat by lia. apply IH. lia.
Qed.

Lemma load_bytes_sub m a i n N :
  (i + n <= N)%nat ->
  load_bytes m (a + Z.of_nat i) n = take n (drop i (load_bytes m a N)).
Proof.
  intros Hi. replace N with (i + (n + (N - i - n)))%nat by lia. rewrite !load_bytes_app.
  rewrite drop_app_ge by (rewrite length_load_bytes; lia).
  rewrite length_load_bytes, Nat.sub_diag, drop_0.
  rewrite take_app_le by (rewrite length_load_bytes; lia).
  by rewrite take_ge by (rewrite length_load_bytes; lia).
Qed.

Lemma length_csum_bytes whole : length (csum_bytes whole) = 32%nat.
Proof. done. Qed.

Lemma load_csum m c whole k :
  (k < nstrips)%nat -> Forall byteZ whole ->
  load_bytes m c 32 = csum_bytes whole ->
  load 4 m (c + 4 * Z.of_nat k) = stripe_csum (strip k whole).
Proof.
  intros Hk Hb E. unfold load. unfold nstrips in Hk.
  replace (c + 4 * Z.of_nat k) with (c + Z.of_nat (4 * k)) by lia.
  rewrite (load_bytes_sub _ _ _ _ 32), E by lia. unfold csum_bytes.
  rewrite take_drop_bind by (done || intros; apply length_le_bytes). cbn [Nat.add].
  rewrite le_val_le_bytes. apply Z.mod_small, nova_crc32c_range; [done|].
  by apply Forall_take, Forall_drop.
Qed.

(** ** The routine *)
Lemma full_block_params blocknr t s c0 c1 par :
  block_geo s blocknr c0 c1 par ->
  Z.shiftr (nova_get_block_off blocknr t) NOVA_STRIPE_SHIFT = 8 * blocknr.
Proof.
  intros Hg. rewrite (proj2 (block_ptr _ _ _ _ _ t Hg)). change NOVA_STRIPE_SHIFT with 9.
  rewrite Z.shiftr_div_pow2 by lia. change (2 ^ 9) with 512.
  replace (4096 * blocknr) with (8 * blocknr * 512) by lia. apply Z.div_mul. lia.
Qed.

(** The memory after the three writes. *)
Lemma guarded_written m c0 c1 par s' s block blocknr b :
  wrote s s' (store_bytes (store_bytes (store_bytes (nvmm s) c0 (csum_bytes block))
                c1 (csum_bytes block)) par (parity_of nstrips block)) ->
  m = nvmm s ->
  block_geo s blocknr c0 c1 par -> length block = (nstrips * STRIPE)%nat ->
  Forall byteZ block -> (b < nstrips)%nat ->
  (forall k, (k < nstrips)%nat -> k <> b ->
     load_bytes m (strip_addr s blocknr k) STRIPE = strip k block) ->
  guarded s' blocknr c0 c1 par block b.
Proof.
  intros Hw -> Hg Hl Hb Hb8 Hd. pose proof (block_geo_wrote _ _ _ _ _ _ _ Hw Hg) as Hg'.
  destruct Hg as [_ _ _ _ _ _ _ _ _ _ A1 A2 A3 A4 A5 A6]. unfold apart in *.
  pose proof (length_parity_of nstrips block) as Hp. pose proof (length_csum_bytes block) as Hc.
  split; try done; rewrite ?(w_mem _ _ _ Hw).
  - rewrite <- Hp at 1. apply load_store_bytes_same.
  - intros k Hk. rewrite load_store_bytes_other
      by (rewrite Hp; unfold nstrips, STRIPE in *; lia).
    apply load_csum; [done|done|].
    rewrite load_bytes_store_other by (rewrite Hc; lia).
    rewrite <- Hc at 1. apply load_store_bytes_same.
  - intros k Hk. rewrite load_store_bytes_other
      by (rewrite Hp; unfold nstrips, STRIPE in *; lia).
    apply load_csum; [done|done|]. rewrite <- Hc at 1. apply load_store_bytes_same.
  - intros k Hk Hne. rewrite (strip_addr_sbc s s') by apply Hw.
    rewrite !load_bytes_store_other; [by apply Hd|..];
      rewrite ?Hc, ?Hp, (strip_addr_eq _ _ k); unfold nstrips, STRIPE in *; lia.
Qed.

(** C31: on a CPU with SSE 4.2, the unrolled pass over a full
    block stores, in both checksum copies, the CRC32C of each stripe and, in
    the parity area, the XOR of the stripes, and changes nothing else, so that
    the block (once its data is in NVMM) is protected against the loss of any
    one stripe. *)
Theorem nova_update_block_csum_parity_guards sih s block blocknr c0 c1 par b :
  cpu_has_xmm4_2 = true -> 0 < data_csum -> 0 < data_parity ->
  (forall n, kmem_cache_zalloc_ok n = true) ->
  block_geo s blocknr c0 c1 par -> length block = (nstrips * STRIPE)%nat ->
  Forall byteZ block -> (b < nstrips)%nat ->
  (forall k, (k < nstrips)%nat -> k <> b ->
     load_bytes (nvmm s) (strip_addr s blocknr k) STRIPE = strip k block) ->
  exists s', nova_update_block_csum_parity sih block blocknr 0 4096 s = Ok 0 s'
    /\ guarded s' blocknr c0 c1 par block b
    /\ (forall x, ~ (c0 <= x < c0 + 32) -> ~ (c1 <= x < c1 + 32) -> ~ (par <= x < par + 512) ->
          mget (nvmm s') x = mget (nvmm s) x).
Proof.
  intros Hsse Hdc Hdp Hk Hg Hl Hb Hb8 Hd. unfold nova_update_block_csum_parity.
  rewrite (bind_ok _ _ _ s s) by done. rewrite (bg_size _ _ _ _ _ Hg).
  rewrite (full_block_params _ _ _ _ _ _ Hg).
  change (u32 (Z.land 0 (NOVA_STRIPE_SIZE - 1))) with 0.
  change (u32 (Z.shiftr (u64 (0 + 4096 - 1)) NOVA_STRIPE_SHIFT + 1)) with 8.
  change ((4096 / NOVA_STRIPE_SIZE =? 8) && (8 =? 8)) with true. cbv iota.
  rewrite Hsse, (proj2 (Z.ltb_lt _ _) Hdc), (proj2 (Z.ltb_lt _ _) Hdp).
  cbn [andb negb].
  destruct (kmem_cache_zalloc_run s Hk) as (p1 & s1 & E1 & W1).
  rewrite (bind_ok _ _ _ _ _ E1).
  rewrite (bind_ok _ _ s1 (take (8 * STRIPE) block) s1).
  2: { unfold dram_read. by rewrite (proj2 (Nat.leb_le _ _)) by (rewrite Hl; done). }
  destruct (unrolled_block block Hdp Hl Hb) as (acc & -> & Eacc). cbn [when]. rewrite Eacc.
  pose proof (block_geo_wrote _ _ _ _ _ _ _ W1 Hg) as Hg1.
  pose proof (bg_c0 _ _ _ _ _ Hg1 0 ltac:(lia)) as Ec0.
  pose proof (bg_c1 _ _ _ _ _ Hg1 0 ltac:(lia)) as Ec1.
  change (Z.of_nat 0) with 0 in Ec0, Ec1. rewrite !Z.mul_0_r, !Z.add_0_r in Ec0, Ec1.
  destruct (protected_write2 s1 c0 c1 (csum_bytes block) (NOVA_DATA_CSUM_LEN * 8))
    as (s2 & E2 & W2); [apply Hg1..|done|].
  pose proof (block_geo_wrote _ _ _ _ _ _ _ W2 Hg1) as Hg2.
  destruct (protected_write s2 par (parity_of nstrips block) NOVA_STRIPE_SIZE)
    as (s3 & E3 & W3); [apply Hg2..|by rewrite length_parity_of|].
  rewrite (bind_ok _ _ s1 tt s2).
  2: { rewrite (bind_ok _ _ _ _ _ Ec0), (bind_ok _ _ _ _ _ Ec1). exact E2. }
  rewrite (bind_ok _ _ s2 tt s3).
  2: { rewrite (bind_ok _ _ _ _ _ (bg_par _ _ _ _ _ Hg2)). exact E3. }
  exists s3. split; [done|].
  rewrite (w_mem _ _ _ W2), (w_mem _ _ _ W1) in W3.
  pose proof (wrote_trans _ _ _ _ _ W1 (wrote_trans _ _ _ _ _ W2 W3)) as W.
  split; [by eapply guarded_written|].
  intros x Hx0 Hx1 Hx2. rewrite (w_mem _ _ _ W).
  rewrite !mget_store_bytes_out; [done|..];
    rewrite ?length_csum_bytes, ?length_parity_of; done.
Qed.
End crc.

(** *** Reading past a buffer *)
Lemma bind_fault {A B} (m : M A) (k : A -> M B) s f : m s = Fault f -> bind m k s = Fault f.
Proof. unfold bind. by intros ->. Qed.

Lemma stripe_csums_short n l s :
  (length l < n * STRIPE)%nat -> stripe_csums n l s = Fault (FWild 0).
Proof.
  revert l. induction n as [|n IH]; intros l Hl; [lia|]. cbn [stripe_csums]. unfold dram_read.
  destruct (Nat.leb_spec STRIPE (length l)); [|done].
  rewrite (bind_ok _ _ s (take STRIPE l) s) by done. apply bind_fault, IH.
  rewrite length_drop. lia.
Qed.

Lemma unrolled_ptr n csum block acc P : (unrolled n csum block acc P).1.1 = drop (8 * n) block.
Proof.
  revert block acc P. induction n as [|n IH]; intros block acc P; cbn [unrolled].
  - by rewrite drop_0.
  - rewrite IH, drop_drop. f_equal. lia.
Qed.

(** C39: without SSE 4.2 the routine passes the buffer pointer,
    already advanced by the unrolled parity loop, on to
    [nova_update_block_csum]: a full-block write then reads past the end of
    its 4 KB buffer. *)
Theorem nova_update_block_csum_parity_overread sih s block blocknr :
  cpu_has_xmm4_2 = false -> 0 < data_csum -> data_parity = 0 ->
  s_blocksize (sbc s) = 4096 -> length block = 4096%nat ->
  nova_update_block_csum_parity sih block blocknr 0 4096 s = Fault (FWild 0).
Proof.
  intros Hsse Hdc Hdp Hbs Hl. unfold nova_update_block_csum_parity.
  rewrite (bind_ok _ _ _ s s) by done. rewrite Hbs.
  change (u32 (Z.land 0 (NOVA_STRIPE_SIZE - 1))) with 0.
  change (u32 (Z.shiftr (u64 (0 + 4096 - 1)) NOVA_STRIPE_SHIFT + 1)) with 8.
  change ((4096 / NOVA_STRIPE_SIZE =? 8) && (8 =? 8)) with true. cbv iota.
  rewrite Hsse, (proj2 (Z.ltb_lt _ _) Hdc), Hdp.
  change (0 <? 0) with false. cbn [andb negb when].
  rewrite (bind_ok _ _ s (Some 1%positive) s) by done.
  rewrite (bind_ok _ _ s (take (8 * STRIPE) block) s).
  2: { unfold dram_read. by rewrite (proj2 (Nat.leb_le _ _)) by (rewrite Hl; done). }
  pose proof (unrolled_ptr 64 false block (replicate 8 NOVA_INIT_CSUM) []) as Hptr.
  destruct (unrolled 64 false block _ _) as [[block' acc] parity]. cbn [fst] in Hptr. subst block'.
  rewrite (bind_ok _ _ s tt s) by done. rewrite (bind_ok _ _ s tt s) by done.
  apply bind_fault, bind_fault. unfold nova_update_block_csum.
  change (u32 (Z.shiftr 0 NOVA_STRIPE_SHIFT)) with 0.
  change (u32 (Z.shiftl 0 NOVA_STRIPE_SHIFT)) with 0.
  change (u64 (Z.shiftr (u64 (u32 (0 - 0) + 4096 - 1)) NOVA_STRIPE_SHIFT + 1)) with 8.
  change (Z.to_nat 0) with 0%nat. rewrite drop_0.
  apply bind_fault, bind_fault. change (Z.to_nat (8 / 8)) with 1%nat. cbn [update_csums].
  apply bind_fault, bind_fault. apply stripe_csums_short.
  rewrite length_drop, Hl. unfold STRIPE. lia.
Qed.
End update.
