(* ===== verification/ParityExample.v ===== *)
(** Data block 1000 of the example device: its redundancy, a damaged stripe and
    the repair. *)

From stdpp Require Import strings.
From S2P Require Import Prelude CInt Crc32c NovaEnv RangeNode Pmem NovaState NovaMonad NovaLib.
From S2P Require Import Balloc NovaLayout Checksum Parity ParitySpec ParityRepair ParityUpdate.
From S2P Require Import BallocExample.

Local Open Scope list_scope.
Local Open Scope Z_scope.

Module ParityExample.

#[local] Existing Instance BallocExample.env.
#[local] Existing Instance CrcExample.env_ok.
#[local] Instance parity_env : ParityEnv := {| cpu_has_xmm2 := true |}.

Definition s : nova := BallocExample.s1.
Definition base : Z := virt_addr BallocExample.sb.
Definition c0 : Z := base + 294144.
Definition c1 : Z := base + 8355072.
Definition par : Z := base + 681984.
Definition sih : inode_header := mkSih 40 0 0 0 0 0 0 0.

(** A block of zeros. *)
Definition orig : list Z := replicate (nstrips * STRIPE) 0.

Lemma block_at_1000 : block_geo s 1000 c0 c1 par.
Proof.
  assert (forall (P : nat -> Prop),
    P 0%nat -> P 1%nat -> P 2%nat -> P 3%nat -> P 4%nat -> P 5%nat -> P 6%nat -> P 7%nat ->
    forall k, (k < 8)%nat -> P k) as Hall
    by (intros P ? ? ? ? ? ? ? ? k Hk; do 8 (destruct k as [|k]; [assumption|]); lia).
  split.
  - reflexivity.
  - lia.
  - vm_compute. intuition congruence.
  - vm_compute. reflexivity.
  - apply Hall; vm_compute; reflexivity.
  - apply Hall; vm_compute; reflexivity.
  - vm_compute. intuition congruence.
  - vm_compute. intuition congruence.
  - vm_compute. intuition congruence.
  - vm_compute. intuition congruence.
  - vm_compute. intuition congruence.
  - vm_compute. intuition congruence.
  - vm_compute. intuition congruence.
  - vm_compute. intuition congruence.
  - vm_compute. intuition congruence.
  - vm_compute. intuition congruence.
Qed.

Lemma orig_len : length orig = (nstrips * STRIPE)%nat.
Proof. apply length_replicate. Qed.

Lemma orig_bytes : Forall byteZ orig.
Proof. apply Forall_replicate. by unfold byteZ. Qed.

Lemma empty_strip a k :
  (k < nstrips)%nat -> load_bytes ∅ a STRIPE = strip k orig.
Proof.
  intros Hk. unfold strip, orig. rewrite drop_replicate, take_replicate.
  replace (_ `min` _)%nat with STRIPE by (unfold nstrips, STRIPE in *; lia).
  generalize STRIPE. intros n. revert a. induction n as [|n IH]; intros a; [done|].
  cbn [load_bytes replicate]. by rewrite IH.
Qed.

Lemma block_empty : nvmm s = ∅.
Proof. reflexivity. Qed.

Lemma nova_calculate_block_parity_xor_witness :
  nova_calculate_block_parity s orig !! 5%nat
  = Some (foldl Z.lxor 0 ((fun k => bget (strip k orig) 5) <$> seq 0 (num_strps_of s))).
Proof.
  apply (nova_calculate_block_parity_xor s orig 5).
  - exact orig_bytes.
  - vm_compute. lia.
  - exact orig_len.
  - unfold STRIPE. lia.
Defined.

Lemma nova_update_block_csum_parity_guards_witness :
  exists s', nova_update_block_csum_parity sih orig 1000 0 4096 s = Ok 0 s'
    /\ guarded s' 1000 c0 c1 par orig 3
    /\ (forall x, ~ (c0 <= x < c0 + 32) -> ~ (c1 <= x < c1 + 32) -> ~ (par <= x < par + 512) ->
          mget (nvmm s') x = mget (nvmm s) x).
Proof.
  apply (nova_update_block_csum_parity_guards sih s orig 1000 c0 c1 par 3).
  - reflexivity.
  - reflexivity.
  - reflexivity.
  - reflexivity.
  - exact block_at_1000.
  - exact orig_len.
  - exact orig_bytes.
  - unfold nstrips. lia.
  - intros k Hk _. rewrite block_empty. by apply empty_strip.
Defined.

(** The protected block, and stripe 3 damaged. *)
Definition m1 : mem :=
  store_bytes (store_bytes (store_bytes ∅ c0 (csum_bytes orig)) c1 (csum_bytes orig))
    par (parity_of nstrips orig).
Definition s1 : nova := set_nvmm m1 s.
Definition s2 : nova := set_nvmm (store 1 m1 (base + 1000 * 4096 + 3 * 512 + 10) 7) s.

Lemma set_nvmm_wrote x m m' :
  wrote (set_nvmm m x) (set_nvmm m' x) (nvmm (set_nvmm m' x)).
Proof. done. Qed.

Lemma s2_guarded : guarded s2 1000 c0 c1 par orig 3.
Proof.
  apply (guarded_corrupt s1 s2 (nvmm s2)).
  - apply (guarded_written ∅ c0 c1 par s1 s orig 1000 3).
    + by split.
    + reflexivity.
    + exact block_at_1000.
    + exact orig_len.
    + exact orig_bytes.
    + unfold nstrips. lia.
    + intros k Hk _. by apply empty_strip.
  - apply (set_nvmm_wrote s m1).
  - intros x Hx. unfold s2, s1. cbn [nvmm set_nvmm]. apply mget_store_out.
    unfold strip_addr in Hx. change (virt_addr (sbc s1)) with base in Hx. lia.
Qed.

Lemma s2_media : media_ok s2 1000 par 3.
Proof. split; cbn; intros; lia. Qed.

Lemma s2_detectable : detectable s2 1000 orig 3.
Proof. right. vm_compute. discriminate. Qed.

Lemma nova_verify_data_csum_repairs_witness :
  exists s', nova_verify_data_csum sih 1000 1500 100 s2 = Ok true s'
    /\ (forall k, 1500 / 512 <= Z.of_nat k <= (1500 + 100 - 1) / 512 ->
          load_bytes (nvmm s') (strip_addr s2 1000 k) STRIPE = strip k orig)
    /\ guarded s' 1000 c0 c1 par orig 3 /\ only_strip s2 s' 1000 3.
Proof.
  apply (nova_verify_data_csum_repairs sih s2 1000 c0 c1 par orig 3 1500 100).
  - reflexivity.
  - discriminate.
  - reflexivity.
  - exact s2_guarded.
  - exact s2_media.
  - exact s2_detectable.
  - lia.
  - lia.
  - lia.
Defined.

(** A CPU without SSE 4.2, checksums without parity. *)
Definition old_cpu : NovaEnv := {|
  nova_crc_env := {| cpu_has_xmm4_2 := false; kernel_crc32c := crc32c_ref |};
  metadata_csum := 1; data_csum := 1; data_parity := 0; dram_struct_csum := 1;
  wprotect := 1; support_clwb := 1;
  kmem_cache_zalloc_ok := fun _ => true;
  memcpy_mcsafe_rc := fun _ _ => 0
|}.

Lemma nova_update_block_csum_parity_overread_witness :
  @nova_update_block_csum_parity old_cpu parity_env sih orig 1000 0 4096 s = Fault (FWild 0).
Proof.
  apply (@nova_update_block_csum_parity_overread old_cpu parity_env sih s orig 1000).
  - reflexivity.
  - reflexivity.
  - reflexivity.
  - reflexivity.
  - exact orig_len.
Defined.
End ParityExample.
