(* ===== verification/Rebuild.v ===== *)
(** Rebuilding an inode's DRAM state from its log (rebuild.c, bbuild.c).

    [info_header] is struct nova_inode_info_header; [ih_base] holds the fields
    other components use (number, addresses, block type, log pointers), and
    [ih_file] is the part the file index works on.  An entry that is read is an
    [entryc]: the entry in NVMM, or its verified copy.  [mount_snapshot] is the
    flag of struct nova_sb_info.
    Each definition translates the C function of the same name. *)

From stdpp Require Import strings.
From S2P Require Import Prelude CInt Crc32c NovaEnv RangeNode Pmem NovaState NovaMonad NovaLib.
From S2P Require Import Balloc NovaLayout LogPage RangeLog InodeTable Journal Checksum Parity MetaCsum LogEntry Snapshot FileTree DirTree.

Local Open Scope nova_scope.
Local Open Scope string_scope.
Local Open Scope list_scope.
Local Open Scope Z_scope.

(** linux/stat.h, asm-generic/errno.h *)
Definition S_IFMT : Z := 0xF000.
Definition S_IFDIR : Z := 0x4000.
Definition S_IFREG : Z := 0x8000.
Definition S_IFLNK : Z := 0xA000.
Definition S_ISREG (m : Z) : bool := Z.land m S_IFMT =? S_IFREG.
Definition S_ISDIR (m : Z) : bool := Z.land m S_IFMT =? S_IFDIR.
Definition ESTALE : Z := 116.

(** struct vm_area_struct: its address, which orders the items, and the fields
    read here; [num_vmas] is the number of items, which are kept in order. *)
Record vm_area := mkVma { vm_ptr : Z; vm_start : Z; vm_end : Z; vm_pgoff : Z }.
Record vma_item := mkVmaItem { it_vma : vm_area; it_mmap_entry : Z }.

Record info_header := mkIH {
  ih_tree : gmap Z Z;
  ih_rb_tree : rb_tree;
  ih_vmas : list vma_item;
  ih_i_mode : Z;
  ih_i_flags : Z;
  ih_log_pages : Z;
  ih_i_size : Z;
  ih_i_blocks : Z;
  ih_valid_entries : Z;
  ih_num_entries : Z;
  ih_last_setattr : Z;
  ih_last_link_change : Z;
  ih_last_dentry : Z;
  ih_trans_id : Z;
  ih_base : inode_header
}.
Definition set_ih_tree (v : gmap Z Z) (h : info_header) : info_header :=
  mkIH v (ih_rb_tree h) (ih_vmas h) (ih_i_mode h) (ih_i_flags h) (ih_log_pages h) (ih_i_size h)
    (ih_i_blocks h) (ih_valid_entries h) (ih_num_entries h) (ih_last_setattr h)
    (ih_last_link_change h) (ih_last_dentry h) (ih_trans_id h) (ih_base h).
Definition set_ih_rb_tree (v : rb_tree) (h : info_header) : info_header :=
  mkIH (ih_tree h) v (ih_vmas h) (ih_i_mode h) (ih_i_flags h) (ih_log_pages h) (ih_i_size h)
    (ih_i_blocks h) (ih_valid_entries h) (ih_num_entries h) (ih_last_setattr h)
    (ih_last_link_change h) (ih_last_dentry h) (ih_trans_id h) (ih_base h).
Definition set_ih_vmas (v : list vma_item) (h : info_header) : info_header :=
  mkIH (ih_tree h) (ih_rb_tree h) v (ih_i_mode h) (ih_i_flags h) (ih_log_pages h) (ih_i_size h)
    (ih_i_blocks h) (ih_valid_entries h) (ih_num_entries h) (ih_last_setattr h)
    (ih_last_link_change h) (ih_last_dentry h) (ih_trans_id h) (ih_base h).
Definition set_ih_i_mode (v : Z) (h : info_header) : info_header :=
  mkIH (ih_tree h) (ih_rb_tree h) (ih_vmas h) v (ih_i_flags h) (ih_log_pages h) (ih_i_size h)
    (ih_i_blocks h) (ih_valid_entries h) (ih_num_entries h) (ih_last_setattr h)
    (ih_last_link_change h) (ih_last_dentry h) (ih_trans_id h) (ih_base h).
Definition set_ih_i_flags (v : Z) (h : info_header) : info_header :=
  mkIH (ih_tree h) (ih_rb_tree h) (ih_vmas h) (ih_i_mode h) v (ih_log_pages h) (ih_i_size h)
    (ih_i_blocks h) (ih_valid_entries h) (ih_num_entries h) (ih_last_setattr h)
    (ih_last_link_change h) (ih_last_dentry h) (ih_trans_id h) (ih_base h).
Definition set_ih_log_pages (v : Z) (h : info_header) : info_header :=
  mkIH (ih_tree h) (ih_rb_tree h) (ih_vmas h) (ih_i_mode h) (ih_i_flags h) v (ih_i_size h)
    (ih_i_blocks h) (ih_valid_entries h) (ih_num_entries h) (ih_last_setattr h)
    (ih_last_link_change h) (ih_last_dentry h) (ih_trans_id h) (ih_base h).
Definition set_ih_i_size (v : Z) (h : info_header) : info_header :=
  mkIH (ih_tree h) (ih_rb_tree h) (ih_vmas h) (ih_i_mode h) (ih_i_flags h) (ih_log_pages h) v
    (ih_i_blocks h) (ih_valid_entries h) (ih_num_entries h) (ih_last_setattr h)
    (ih_last_link_change h) (ih_last_dentry h) (ih_trans_id h) (ih_base h).
Definition set_ih_i_blocks (v : Z) (h : info_header) : info_header :=
  mkIH (ih_tree h) (ih_rb_tree h) (ih_vmas h) (ih_i_mode h) (ih_i_flags h) (ih_log_pages h)
    (ih_i_size h) v (ih_valid_entries h) (ih_num_entries h) (ih_last_setattr h)
    (ih_last_link_change h) (ih_last_dentry h) (ih_trans_id h) (ih_base h).
Definition set_ih_valid_entries (v : Z) (h : info_header) : info_header :=
  mkIH (ih_tree h) (ih_rb_tree h) (ih_vmas h) (ih_i_mode h) (ih_i_flags h) (ih_log_pages h)
    (ih_i_size h) (ih_i_blocks h) v (ih_num_entries h) (ih_last_setattr h) (ih_last_link_change
    h) (ih_last_dentry h) (ih_trans_id h) (ih_base h).
Definition set_ih_num_entries (v : Z) (h : info_header) : info_header :=
  mkIH (ih_tree h) (ih_rb_tree h) (ih_vmas h) (ih_i_mode h) (ih_i_flags h) (ih_log_pages h)
    (ih_i_size h) (ih_i_blocks h) (ih_valid_entries h) v (ih_last_setattr h)
    (ih_last_link_change h) (ih_last_dentry h) (ih_trans_id h) (ih_base h).
Definition set_ih_last_setattr (v : Z) (h : info_header) : info_header :=
  mkIH (ih_tree h) (ih_rb_tree h) (ih_vmas h) (ih_i_mode h) (ih_i_flags h) (ih_log_pages h)
    (ih_i_size h) (ih_i_blocks h) (ih_valid_entries h) (ih_num_entries h) v (ih_last_link_change
    h) (ih_last_dentry h) (ih_trans_id h) (ih_base h).
Definition set_ih_last_link_change (v : Z) (h : info_header) : info_header :=
  mkIH (ih_tree h) (ih_rb_tree h) (ih_vmas h) (ih_i_mode h) (ih_i_flags h) (ih_log_pages h)
    (ih_i_size h) (ih_i_blocks h) (ih_valid_entries h) (ih_num_entries h) (ih_last_setattr h) v
    (ih_last_dentry h) (ih_trans_id h) (ih_base h).
Definition set_ih_last_dentry (v : Z) (h : info_header) : info_header :=
  mkIH (ih_tree h) (ih_rb_tree h) (ih_vmas h) (ih_i_mode h) (ih_i_flags h) (ih_log_pages h)
    (ih_i_size h) (ih_i_blocks h) (ih_valid_entries h) (ih_num_entries h) (ih_last_setattr h)
    (ih_last_link_change h) v (ih_trans_id h) (ih_base h).
Definition set_ih_trans_id (v : Z) (h : info_header) : info_header :=
  mkIH (ih_tree h) (ih_rb_tree h) (ih_vmas h) (ih_i_mode h) (ih_i_flags h) (ih_log_pages h)
    (ih_i_size h) (ih_i_blocks h) (ih_valid_entries h) (ih_num_entries h) (ih_last_setattr h)
    (ih_last_link_change h) (ih_last_dentry h) v (ih_base h).
Definition set_ih_base (v : inode_header) (h : info_header) : info_header :=
  mkIH (ih_tree h) (ih_rb_tree h) (ih_vmas h) (ih_i_mode h) (ih_i_flags h) (ih_log_pages h)
    (ih_i_size h) (ih_i_blocks h) (ih_valid_entries h) (ih_num_entries h) (ih_last_setattr h)
    (ih_last_link_change h) (ih_last_dentry h) (ih_trans_id h) v.

Definition ih_file (h : info_header) : file_tree := mkFileTree (ih_tree h) (ih_i_blocks h) (i_blk_type (ih_base h)).
Definition put_file (f : file_tree) (h : info_header) : info_header := set_ih_tree (ft_tree f) (set_ih_i_blocks (ft_i_blocks f) h).

Definition set_pi_addr (v : Z) (b : inode_header) : inode_header :=
  mkSih (sih_ino b) v (alter_pi_addr b) (i_blk_type b) (sih_log_head b) (sih_log_tail b)
    (sih_alter_log_head b) (sih_alter_log_tail b).
Definition set_numbers (ino alter : Z) (b : inode_header) : inode_header :=
  mkSih ino (pi_addr b) alter (i_blk_type b) (sih_log_head b) (sih_log_tail b)
    (sih_alter_log_head b) (sih_alter_log_tail b).

(** bbuild.c *)
Definition nova_init_header (i_mode : Z) : info_header :=
  mkIH ∅ RB_ROOT [] i_mode 0 0 0 0 0 0 0 0 0 0 (mkSih 0 0 0 NOVA_DEFAULT_BLOCK_TYPE 0 0 0 0).

(** Assignments to fields of [*reb]. *)
Definition reb_attrs (mode uid gid atime : Z) (r : inode_rebuild) : inode_rebuild :=
  mkRebuild (reb_size r) (reb_flags r) (reb_ctime r) (reb_mtime r) atime uid gid
    (reb_generation r) (reb_links_count r) mode (reb_trans_id r).
Definition reb_link (links ctime flags generation : Z) (r : inode_rebuild) : inode_rebuild :=
  mkRebuild (reb_size r) flags ctime (reb_mtime r) (reb_atime r) (reb_uid r) (reb_gid r)
    generation links (reb_mode r) (reb_trans_id r).
Definition nova_rebuild_file_time_and_size (mtime ctime size : Z) (r : inode_rebuild) : inode_rebuild :=
  mkRebuild size (reb_flags r) ctime mtime (reb_atime r) (reb_uid r) (reb_gid r)
    (reb_generation r) (reb_links_count r) (reb_mode r) (reb_trans_id r).

Section rebuild.
Context `{NovaEnv, RbLib, MediaLib, KmallocLib, RadixLib, ParityEnv}.

(** ** Entries other than writes *)
Definition nova_apply_setattr_entry (reb : inode_rebuild) (h : info_header) (entry : entryc)
    : SM (inode_rebuild * info_header) :=
  let fld f := lift (entryc_field nova_setattr_logentry entry f) in
  let data_bits := nova_inode_blk_shift (i_blk_type (ih_base h)) in
  do! type := fld "entry_type" in
  if negb (type =? entry_type_val SET_ATTR) then sraise FBug
  else
    do! mode := fld "mode" in
    do! uid := fld "uid" in
    do! gid := fld "gid" in
    do! atime := fld "atime" in
    let reb := reb_attrs mode uid gid atime reb in
    if S_ISREG (reb_mode reb) then
      do! start := fld "size" in
      let first_blocknr := Z.shiftr (u64 (start + Z.shiftl 1 data_bits - 1)) data_bits in
      do! r := nova_delete_file_tree (ih_file h) first_blocknr false false 0 in
      sret (reb, put_file r.2 h)
    else sret (reb, h).

Definition nova_apply_link_change_entry (reb : inode_rebuild) (entry : entryc) : M inode_rebuild :=
  let fld f := entryc_field nova_link_change_entry entry f in
  let! type := fld "entry_type" in
  if negb (type =? entry_type_val LINK_CHANGE) then raise FBug
  else
    let! links := fld "links" in
    let! ctime := fld "ctime" in
    let! flags := fld "flags" in
    let! generation := fld "generation" in
    ret (reb_link links ctime flags generation reb).

(** ** The inode *)
Definition nova_update_inode_with_rebuild (reb : inode_rebuild) (pi : Z) : M unit :=
  let set f v := pstore_field nova_inode pi f v in
  set "i_size" (reb_size reb) ;;; set "i_flags" (reb_flags reb) ;;;
  set "i_uid" (reb_uid reb) ;;; set "i_gid" (reb_gid reb) ;;;
  set "i_atime" (reb_atime reb) ;;; set "i_ctime" (reb_ctime reb) ;;; set "i_mtime" (reb_mtime reb) ;;;
  set "i_generation" (reb_generation reb) ;;; set "i_links_count" (reb_links_count reb) ;;;
  set "i_mode" (reb_mode reb).

(** [None] is [*reb] left as it was. *)
Definition nova_init_inode_rebuild (pi : Z) : M (Z * option inode_rebuild) :=
  let! r := memcpy_mcsafe pi (Z.to_nat (sizeof nova_inode)) in
  if negb (r.1 =? 0) then ret (r.1, None)
  else
    let fld f := buf_field nova_inode f r.2 in
    ret (0, Some (mkRebuild (fld "i_size") (fld "i_flags") (fld "i_ctime") (fld "i_mtime") (fld "i_atime")
      (fld "i_uid") (fld "i_gid") (fld "i_generation") (fld "i_links_count") (fld "i_mode") 0)).

Definition nova_rebuild_inode_start (pi : Z) (h : info_header) (pi_addr : Z)
    : M (Z * option inode_rebuild * info_header) :=
  let! r := nova_get_head_tail pi (ih_base h) in
  let h := set_ih_base r.2 h in
  if negb (r.1 =? 0) then ret (r.1, None, h)
  else
    let! r := nova_init_inode_rebuild pi in
    if negb (r.1 =? 0) then ret (r.1, None, h)
    else ret (0, r.2, set_ih_log_pages 1 (set_ih_base (set_pi_addr pi_addr (ih_base h)) h)).

(** The pages behind the last one that was walked. *)
Fixpoint count_pages (fuel : nat) (curr_p log_pages : Z) : M Z :=
  let! next := next_log_page curr_p in
  if 0 <? next then
    match fuel with
    | O => raise FFuel
    | S fuel => count_pages fuel next (u64 (log_pages + 1))
    end
  else ret log_pages.

(** The result is always 0. *)
Definition nova_rebuild_inode_finish (pi : Z) (h : info_header) (reb : inode_rebuild) (curr_p : Z) : M info_header :=
  let h := set_ih_trans_id (u64 (reb_trans_id reb + 1))
    (set_ih_i_flags (reb_flags reb) (set_ih_i_mode (reb_mode reb) (set_ih_i_size (reb_size reb) h))) in
  nova_memunlock_inode pi ;;;
  nova_update_inode_with_rebuild reb pi ;;;
  let! _ := nova_update_inode_checksum pi in
  (if negb (metadata_csum =? 0) then
     let! alter_pi := gets (fun s => nova_get_block s (alter_pi_addr (ih_base h))) in
     let! l := pload_bytes (Z.to_nat (sizeof nova_inode)) pi in
     let! _ := memcpy_to_pmem_nocache alter_pi l in ret tt
   else ret tt) ;;;
  nova_memlock_inode pi ;;;
  let! fuel := gets chain_fuel in
  let! pages := count_pages fuel (BLOCK_OFF curr_p) (ih_log_pages h) in
  ret (set_ih_log_pages (if negb (metadata_csum =? 0) then u64 (pages * 2) else pages) h).

(** ** Checksums and parity of data that was being updated *)
Definition nova_reset_csum_parity_page (h : info_header) (entry pgoff : Z) (zero : bool) : M Z :=
  (if negb (data_csum =? 0) then let! _ := nova_update_pgoff_csum (ih_base h) (ih_tree h) entry pgoff zero in ret tt
   else ret tt) ;;;
  (if negb (data_parity =? 0) then let! _ := nova_update_pgoff_parity (ih_base h) (ih_tree h) entry pgoff zero in ret tt
   else ret tt) ;;;
  ret 0.

Definition nova_get_write_entry (h : info_header) (blocknr : Z) : Z := default 0 (ih_tree h !! blocknr).

Definition reset_range_body (h : info_header) (entry : Z) (zero check_entry : bool) (pgoff : Z) : M (option Z) :=
  if negb (entry =? 0) && check_entry && negb zero && negb (nova_get_write_entry h pgoff =? entry) then ret None
  else let! _ := nova_reset_csum_parity_page h entry pgoff zero in ret None.

Definition nova_reset_csum_parity_range (h : info_header) (entry start_pgoff end_pgoff : Z) (zero check_entry : bool)
    : M Z :=
  if (data_csum =? 0) && (data_parity =? 0) then ret 0
  else
    let! _ := for_loop (Z.to_nat (end_pgoff - start_pgoff)) start_pgoff (reset_range_body h entry zero check_entry) in
    ret 0.

Definition nova_reset_data_csum_parity (h : info_header) (entry : Z) (c : entryc) : M Z :=
  let fld f := entryc_field nova_file_write_entry c f in
  let! dead := (if (data_csum =? 0) && (data_parity =? 0) then ret true
    else
      let! invalid := fld "invalid_pages" in
      let! num := fld "num_pages" in ret (invalid =? num)) in
  (if dead : bool then ret tt
   else
     let! pgoff := fld "pgoff" in
     let! num := fld "num_pages" in
     let! _ := nova_reset_csum_parity_range h entry pgoff (u64 (pgoff + num)) false true in ret tt) ;;;
  let! _ := nova_set_write_entry_updating entry false in
  ret 0.

Definition nova_reset_mmap_csum_parity (h : info_header) (entry : Z) (c : entryc) : M Z :=
  let fld f := entryc_field nova_mmap_entry c f in
  if (data_csum =? 0) && (data_parity =? 0) then ret 0
  else
    let! invalid := fld "invalid" in
    if invalid =? 1 then ret 0
    else
      let! pgoff := fld "pgoff" in
      let! num := fld "num_pages" in
      let! _ := nova_reset_csum_parity_range h 0 pgoff (u64 (pgoff + num)) false false in
      nova_invalidate_logentry entry MMAP_WRITE 0.

(** ** Files *)
Definition nova_rebuild_handle_write_entry (h : info_header) (reb : inode_rebuild) (entry : Z) (c : entryc)
    : SM (info_header * inode_rebuild) :=
  let fld f := lift (entryc_field nova_file_write_entry c f) in
  do! num := fld "num_pages" in
  do! invalid := fld "invalid_pages" in
  do! h := (if negb (num =? invalid) then
      do! l := lift (entryc_bytes c 0 (Z.to_nat (sizeof nova_file_write_entry))) in
      do! r := nova_assign_write_entry (ih_file h) entry l false in
      sret (put_file r.2 h)
    else sret h) in
  do! trans_id := fld "trans_id" in
  do! reb := (if reb_trans_id reb <=? trans_id then
      do! mtime := fld "mtime" in
      do! size := fld "size" in
      sret (set_reb_trans_id trans_id (nova_rebuild_file_time_and_size mtime mtime size reb))
    else sret reb) in
  do! updating := fld "updating" in
  (if negb (updating =? 0) then do! _ := lift (nova_reset_data_csum_parity h entry c) in sret tt else sret tt) ,,,
  sret (set_ih_i_size (reb_size reb) h, reb).

(** The top of a round of a log walk: the position of the next entry, and the
    header, which counts the pages. *)
Definition log_cursor (curr_p : Z) (h : info_header) : M (Z * info_header) :=
  let! b := goto_next_page curr_p in
  let! r := (if b : bool then
      let! next := next_log_page curr_p in
      ret (next, set_ih_log_pages (u64 (ih_log_pages h + 1)) h)
    else ret (curr_p, h)) in
  if r.1 =? 0 then nova_err ;;; raise FBug else ret r.

(** [nova_get_entry_type(entryc)] *)
Definition entryc_type (c : entryc) : M Z :=
  match c with InPlace p => nova_get_entry_type p | InCopy l => let! b := buf_read 1 l in ret (le_val b) end.

(** The entry at [addr] and its type, and whether the mounted snapshot ends
    here; [None] when the checksum test fails. *)
Definition log_entry_at (mount_snapshot : bool) (addr : Z) : M (option (entryc * Z * bool)) :=
  let! c := verified_entry addr in
  match c with
  | None => ret None
  | Some c =>
      let! type := entryc_type c in
      let! stop := (if mount_snapshot then nova_encounter_mount_snapshot addr type else ret false) in
      ret (Some (c, type, stop))
  end.

(** The [switch] of [nova_rebuild_file_inode_tree]: the length of the entry. *)
Definition file_entry (h : info_header) (reb : inode_rebuild) (curr_p addr : Z) (c : entryc) (type : Z)
    : SM (Z * info_header * inode_rebuild) :=
  match entry_kind type with
  | Some SET_ATTR =>
      let fld f := lift (entryc_field nova_setattr_logentry c f) in
      do! r := nova_apply_setattr_entry reb h c in
      let '(reb, h) := r in
      let h := set_ih_last_setattr curr_p h in
      do! trans_id := fld "trans_id" in
      do! reb := (if reb_trans_id reb <=? trans_id then
          do! mtime := fld "mtime" in
          do! ctime := fld "ctime" in
          do! size := fld "size" in
          sret (set_reb_trans_id trans_id (nova_rebuild_file_time_and_size mtime ctime size reb))
        else sret reb) in
      sret (sizeof nova_setattr_logentry, set_ih_i_size (reb_size reb) h, reb)
  | Some LINK_CHANGE =>
      do! reb := lift (nova_apply_link_change_entry reb c) in
      sret (sizeof nova_link_change_entry, set_ih_last_link_change curr_p h, reb)
  | Some FILE_WRITE =>
      do! r := nova_rebuild_handle_write_entry h reb addr c in
      sret (sizeof nova_file_write_entry, r.1, r.2)
  | Some MMAP_WRITE =>
      do! _ := lift (nova_reset_mmap_csum_parity h addr c) in
      sret (sizeof nova_mmap_entry, h, reb)
  | _ => lift nova_err ,,, sret (sizeof nova_file_write_entry, h, reb)
  end.

(** [inl] is a [return] out of the loop, [inr] the position where it ends. *)
Fixpoint rebuild_file_loop (fuel : nat) (mount_snapshot : bool) (curr_p : Z) (h : info_header) (reb : inode_rebuild)
    : SM ((Z + Z) * info_header * inode_rebuild) :=
  if curr_p =? sih_log_tail (ih_base h) then sret (inr curr_p, h, reb)
  else
    match fuel with
    | O => sraise FFuel
    | S fuel =>
        do! r := lift (log_cursor curr_p h) in
        let '(curr_p, h) := r in
        do! addr := lift (gets (fun s => nova_get_block s curr_p)) in
        do! e := lift (log_entry_at mount_snapshot addr) in
        match e with
        | None => sret (inl 0, h, reb)
        | Some (c, type, true) => sret (inr curr_p, h, reb)
        | Some (c, type, false) =>
            do! r := file_entry h reb curr_p addr c type in
            let '(len, h, reb) := r in
            rebuild_file_loop fuel mount_snapshot (u64 (curr_p + len)) h reb
        end
    end.

(** [i_size] in blocks, rounded up. *)
Definition blocks_of_size (i_size data_bits : Z) : Z :=
  let n := Z.shiftr i_size data_bits in
  if 0 <? i_size mod (Z.shiftl 1 data_bits) then u64 (n + 1) else n.

Definition nova_rebuild_file_inode_tree (mount_snapshot : bool) (pi pi_addr : Z) (h : info_header)
    : SM (Z * info_header) :=
  let data_bits := nova_inode_blk_shift (i_blk_type (ih_base h)) in
  do! r := lift (nova_rebuild_inode_start pi h pi_addr) in
  let '(rc, reb, h) := r in
  if negb (rc =? 0) then sret (rc, h)
  else
    do! reb := lift (initialised reb) in
    let curr_p := sih_log_head (ih_base h) in
    if (curr_p =? 0) || (sih_log_tail (ih_base h) =? 0) then
      lift (pstore_field nova_inode pi "log_head" 0) ,,,
      lift (pstore_field nova_inode pi "log_tail" 0) ,,,
      lift (nova_flush_buffer pi (sizeof nova_inode) true) ,,,
      sret (0, h)
    else
      do! fuel := lift (gets entry_fuel) in
      do! r := rebuild_file_loop fuel mount_snapshot curr_p h reb in
      let '(out, h, reb) := r in
      match out with
      | inl rc => sret (rc, h)
      | inr curr_p =>
          do! h := lift (nova_rebuild_inode_finish pi h reb curr_p) in
          sret (0, set_ih_i_blocks (blocks_of_size (ih_i_size h) data_bits) h)
      end.

(** ** Directories *)

(** The [switch] of [nova_rebuild_dir_inode_tree]: the result and the length of
    the entry, 0 for an unknown one. *)
Definition dir_entry (h : info_header) (reb : inode_rebuild) (curr_p addr : Z) (c : entryc) (type : Z)
    : SM (Z * Z * info_header * inode_rebuild) :=
  match entry_kind type with
  | Some SET_ATTR =>
      do! r := nova_apply_setattr_entry reb h c in
      let '(reb, h) := r in
      sret (0, sizeof nova_setattr_logentry, set_ih_last_setattr curr_p h, reb)
  | Some LINK_CHANGE =>
      do! trans_id := lift (entryc_field nova_link_change_entry c "trans_id") in
      do! reb := (if reb_trans_id reb <=? trans_id then
          do! reb := lift (nova_apply_link_change_entry reb c) in
          sret (set_reb_trans_id trans_id reb)
        else sret reb) in
      sret (0, sizeof nova_link_change_entry, set_ih_last_link_change curr_p h, reb)
  | Some DIR_LOG =>
      do! r := lift (nova_rebuild_handle_dentry (ih_rb_tree h) (ih_last_dentry h) reb addr c curr_p) in
      let '(rc, (tree, last_dentry, reb)) := r in
      let h := set_ih_last_dentry last_dentry (set_ih_rb_tree tree h) in
      if negb (rc =? 0) then sret (rc, 0, h, reb)
      else
        do! de_len := lift (entryc_field nova_dentry c "de_len") in
        sret (0, de_len, h, reb)
  | _ => sret (0, 0, h, reb)
  end.

Fixpoint rebuild_dir_loop (fuel : nat) (mount_snapshot : bool) (curr_p : Z) (h : info_header) (reb : inode_rebuild)
    : SM ((Z + Z) * info_header * inode_rebuild) :=
  if curr_p =? sih_log_tail (ih_base h) then sret (inr curr_p, h, reb)
  else
    match fuel with
    | O => sraise FFuel
    | S fuel =>
        do! r := lift (log_cursor curr_p h) in
        let '(curr_p, h) := r in
        do! addr := lift (gets (fun s => nova_get_block s curr_p)) in
        do! e := lift (log_entry_at mount_snapshot addr) in
        match e with
        | None => sret (inl 0, h, reb)
        | Some (c, type, true) => sret (inr curr_p, h, reb)
        | Some (c, type, false) =>
            do! r := dir_entry h reb curr_p addr c type in
            let '(rc, len, h, reb) := r in
            if negb (rc =? 0) then sret (inl rc, h, reb)
            else rebuild_dir_loop fuel mount_snapshot (u64 (curr_p + len)) h reb
        end
    end.

Definition nova_rebuild_dir_inode_tree (mount_snapshot : bool) (pi pi_addr : Z) (h : info_header)
    : SM (Z * info_header) :=
  do! r := lift (nova_rebuild_inode_start pi h pi_addr) in
  let '(rc, reb, h) := r in
  if negb (rc =? 0) then sret (rc, h)
  else
    do! reb := lift (initialised reb) in
    let curr_p := sih_log_head (ih_base h) in
    if curr_p =? 0 then lift nova_err ,,, sret (- ENOSPC, h)
    else
      do! fuel := lift (gets entry_fuel) in
      do! r := rebuild_dir_loop fuel mount_snapshot curr_p h reb in
      let '(out, h, reb) := r in
      match out with
      | inl rc => sret (rc, h)
      | inr curr_p =>
          do! h := lift (nova_rebuild_inode_finish pi h reb curr_p) in
          sret (0, set_ih_i_blocks 0 h)
      end.

(** ** Any inode *)
Definition nova_rebuild_inode (mount_snapshot : bool) (h : info_header) (ino pi_addr : Z) (rebuild_dir : bool)
    : SM (Z * info_header) :=
  do! r := (if negb (metadata_csum =? 0) then lift (nova_get_alter_inode_address ino 0) else sret (0, 0)) in
  let '(rc, alter_pi_addr) := r in
  if negb (rc =? 0) then sret (rc, h)
  else
    do! r := lift (nova_check_inode_integrity pi_addr alter_pi_addr true) in
    if negb (r.1 =? 0) then sret (r.1, h)
    else
      do! pi := lift (gets (fun s => nova_get_block s pi_addr)) in
      do! i_mode := lift (pload_field nova_inode pi "i_mode") in
      let h := nova_init_header i_mode in
      let h := set_ih_base (set_pi_addr pi_addr (ih_base h)) h in
      do! deleted := lift (pload_field nova_inode pi "deleted") in
      if deleted =? 1 then sret (- ESTALE, h)
      else
        let h := set_ih_base (set_numbers ino alter_pi_addr (ih_base h)) h in
        do! i_mode := lift (pload_field nova_inode pi "i_mode") in
        let kind := Z.land i_mode S_IFMT in
        do! h := (if (kind =? S_IFLNK) || (kind =? S_IFREG) then
            do! r := nova_rebuild_file_inode_tree mount_snapshot pi pi_addr h in sret r.2
          else if kind =? S_IFDIR then
            if rebuild_dir then do! r := nova_rebuild_dir_inode_tree mount_snapshot pi pi_addr h in sret r.2
            else sret h
          else
            do! log_head := lift (pload_field nova_inode pi "log_head") in
            do! h := (if negb (log_head =? 0) then
                do! r := nova_rebuild_file_inode_tree mount_snapshot pi pi_addr h in sret r.2
              else sret h) in
            sret (set_ih_base (set_pi_addr pi_addr (ih_base h)) h)) in
        sret (0, h).
End rebuild.
