(* ===== verification/RebuildSpec.v ===== *)
(** Rebuilding a directory from its log gives back the directory.

    [dir_log s p tail items]: the log in NVMM from position [p] to [tail] holds
    [items], following the links between pages as the walk does.  [replay] is
    the reference: the map of hashes to entries that the items describe, and
    [name_replay] the map of names. *)

From stdpp Require Import strings.
From S2P Require Import Prelude CInt Crc32c NovaEnv RangeNode Pmem NovaState NovaMonad NovaLib.
From S2P Require Import Balloc NovaLayout PmemOps LogPage RangeLog RangeRoundtrip InodeTable Journal Checksum Parity MetaCsum LogEntry.
From S2P Require Import Snapshot SnapshotSpec FileTree FileTreeSpec DirTree DirTreeSpec Rebuild.

Local Open Scope nova_scope.
Local Open Scope list_scope.

(** ** Logs *)
Definition log_end (s : nova) (p : Z) : bool :=
  (LOG_BLOCK_TAIL <? ENTRY_LOC p + 32) || (load 1 (nvmm s) (nova_get_block s p) =? entry_type_val NEXT_PAGE).

(** The entry met at position [p] is at [q]: [p] itself, or the start of the
    next page when the page ends at [p]. *)
Record cursor_at (s : nova) (p q : Z) : Prop := {
  ca_null : q <> 0;
  ca_byte : (LOG_BLOCK_TAIL <? ENTRY_LOC p + 32) = false -> in_pmem s (nova_get_block s p) 1 = true;
  ca_next : log_end s p = true -> in_pmem s (nova_get_block s (BLOCK_OFF p) + 4088) 8 = true /\
              load 8 (nvmm s) (nova_get_block s (BLOCK_OFF p) + 4088) = q;
  ca_here : log_end s p = false -> p = q
}.

Inductive dir_item := IDentry (addr : Z) (name : list Z) (ino : Z) (invalid : bool) | IAttr.

Record dentry_rep (s : nova) (e : Z) (name : list Z) (ino : Z) (invalid : bool) (len : Z) : Prop := {
  de_pmem : in_pmem s e (48 + length name) = true;
  de_name : name <> [];
  de_type : load 1 (nvmm s) e = entry_type_val DIR_LOG;
  de_nlen : load 1 (nvmm s) (e + 1) = Z.of_nat (length name);
  de_inval : invalid = negb (load 1 (nvmm s) (e + 3) =? 0);
  de_rlen : load 2 (nvmm s) (e + 4) = len;
  de_ino : load 8 (nvmm s) (e + 16) = ino;
  de_bytes : load_bytes (nvmm s) (e + 48) (length name) = name
}.

Inductive dir_log (s : nova) (t : Z) : Z -> list dir_item -> Prop :=
| dl_end : dir_log s t t []
| dl_dentry p q name ino invalid len rest :
    p <> t -> cursor_at s p q -> dentry_rep s (nova_get_block s q) name ino invalid len ->
    dir_log s t (u64 (q + len)) rest ->
    dir_log s t p (IDentry (nova_get_block s q) name ino invalid :: rest)
| dl_setattr p q rest :
    p <> t -> cursor_at s p q -> in_pmem s (nova_get_block s q) 56 = true ->
    load 1 (nvmm s) (nova_get_block s q) = entry_type_val SET_ATTR ->
    S_ISREG (load 2 (nvmm s) (nova_get_block s q + 2)) = false ->
    dir_log s t (u64 (q + sizeof nova_setattr_logentry)) rest -> dir_log s t p (IAttr :: rest)
| dl_link p q rest :
    p <> t -> cursor_at s p q -> in_pmem s (nova_get_block s q) 40 = true ->
    load 1 (nvmm s) (nova_get_block s q) = entry_type_val LINK_CHANGE ->
    dir_log s t (u64 (q + sizeof nova_link_change_entry)) rest -> dir_log s t p (IAttr :: rest).

(** A directory keeps one entry per hash: an item adds the entry of its hash, or
    removes it, whatever its name.  [None]: an entry is added under a hash that has
    one. *)
Definition replay_item (i : dir_item) (m : gmap Z Z) : option (gmap Z Z) :=
  match i with
  | IAttr => Some m
  | IDentry addr name ino invalid =>
      let k := BKDRHash name in
      if invalid then Some m
      else if 0 <? ino then match m !! k with Some _ => None | None => Some (<[k := addr]> m) end
      else Some (delete k m)
  end.
Fixpoint replay (l : list dir_item) (m : gmap Z Z) : option (gmap Z Z) :=
  match l with [] => Some m | i :: l => match replay_item i m with Some m => replay l m | None => None end end.

(** The same by name. *)
Definition name_replay_item (i : dir_item) (m : gmap (list Z) Z) : option (gmap (list Z) Z) :=
  match i with
  | IAttr => Some m
  | IDentry addr name ino invalid =>
      if invalid then Some m
      else if 0 <? ino then match m !! name with Some _ => None | None => Some (<[name := addr]> m) end
      else Some (delete name m)
  end.
Fixpoint name_replay (l : list dir_item) (m : gmap (list Z) Z) : option (gmap (list Z) Z) :=
  match l with
  | [] => Some m
  | i :: l => match name_replay_item i m with Some m => name_replay l m | None => None end
  end.

Definition item_name (i : dir_item) : list (list Z) := match i with IDentry _ name _ _ => [name] | IAttr => [] end.

(** On names without collisions the two are the same: a map of hashes stands for a
    map of names. *)
Definition hashed (names : list (list Z)) (k : gmap Z Z) (m : gmap (list Z) Z) : Prop :=
  forall name, name ∈ names -> k !! BKDRHash name = m !! name.

Lemma hashed_item names i k m :
  NoDup (BKDRHash <$> names) -> item_name i ⊆ names -> hashed names k m ->
  match replay_item i k, name_replay_item i m with
  | Some k', Some m' => hashed names k' m'
  | None, None => True
  | _, _ => False
  end.
Proof.
  intros ND Hn R. destruct i as [addr name ino inv|]; cbn [replay_item name_replay_item item_name] in *; [|done].
  destruct inv; [done|]. assert (name ∈ names) as Hin by set_solver. specialize (R name Hin) as Rn.
  assert (forall x, x ∈ names -> x <> name -> BKDRHash name <> BKDRHash x) as Hx.
  { intros x Hx Hne E. apply Hne. symmetry. by eapply hash_inj. }
  destruct (0 <? ino).
  - rewrite Rn. destruct (m !! name); [done|]. intros x Hxn. destruct (decide (x = name)) as [->|Hne].
    + by rewrite !lookup_insert_eq.
    + rewrite !lookup_insert_ne by auto. by apply R.
  - intros x Hxn. destruct (decide (x = name)) as [->|Hne]; [by rewrite !lookup_delete_eq|].
    rewrite !lookup_delete_ne by auto. by apply R.
Qed.

Lemma hashed_replay names l : forall k m,
  NoDup (BKDRHash <$> names) -> concat (item_name <$> l) ⊆ names -> hashed names k m ->
  match replay l k, name_replay l m with
  | Some k', Some m' => hashed names k' m'
  | None, None => True
  | _, _ => False
  end.
Proof.
  induction l as [|i l IH]; intros k m ND Hn R; [done|]. cbn [fmap list_fmap concat] in Hn.
  apply list_subseteq_app_iff_l in Hn as [Hn1 Hn2]. pose proof (hashed_item names i k m ND Hn1 R) as Hi.
  cbn [replay name_replay]. destruct (replay_item i k), (name_replay_item i m); try done. by apply IH.
Qed.

(** Same device, same contents. *)
Definition same_media (s s' : nova) : Prop := sbc s' = sbc s /\ nvmm s' = nvmm s.

Lemma same_media_refl s : same_media s s.
Proof. done. Qed.
Lemma same_media_trans s1 s2 s3 : same_media s1 s2 -> same_media s2 s3 -> same_media s1 s3.
Proof. intros [A B] [C D]. split; congruence. Qed.
Lemma same_media_block s s' p : same_media s s' -> nova_get_block s' p = nova_get_block s p.
Proof. intros [E _]. unfold nova_get_block. by rewrite E. Qed.
Lemma same_media_pmem s s' a n : same_media s s' -> in_pmem s' a n = in_pmem s a n.
Proof. intros [E _]. unfold in_pmem. by rewrite E. Qed.

Lemma cursor_media s s' p q : same_media s s' -> cursor_at s p q -> cursor_at s' p q.
Proof.
  intros S [C1 C2 C3 C4]. assert (log_end s' p = log_end s p) as E.
  { unfold log_end. by rewrite (same_media_block s s' p S), (proj2 S). }
  split; [done|..].
  - by rewrite (same_media_block s s' p S), (same_media_pmem s s' _ _ S).
  - rewrite E. by rewrite (same_media_block s s' _ S), (same_media_pmem s s' _ _ S), (proj2 S).
  - by rewrite E.
Qed.

Lemma dentry_media s s' e name ino inv len :
  same_media s s' -> dentry_rep s e name ino inv len -> dentry_rep s' e name ino inv len.
Proof. intros S [D1 D2 D3 D4 D5 D6 D7 D8]. split; rewrite ?(same_media_pmem s s' _ _ S), ?(proj2 S); done. Qed.

Section rebuild_spec.
Context `{NovaEnv, RbLibOk, MediaLib, KmallocLib, RadixLib, ParityEnv}.
Context (Hrc : forall a n, memcpy_mcsafe_rc a n = 0) (Hmeta : metadata_csum = 0).

Lemma sbind_lift {A B} (m : M A) (k : A -> SM B) d s a s' : m s = Ok a s' -> sbind (lift m) k d s = k a d s'.
Proof. intros E. unfold sbind, lift, bind, ret. by rewrite E. Qed.

Lemma mcsafe_good a n s : in_pmem s a n = true -> memcpy_mcsafe a n s = Ok (0, load_bytes (nvmm s) a n) s.
Proof. intros Hp. unfold memcpy_mcsafe, bind, pload_bytes, ret. rewrite Hrc. cbn [negb Z.eqb]. by rewrite Hp. Qed.

Lemma entry_field st s e f N :
  in_pmem s e N = true -> 0 <= offsetof st f -> offsetof st f + Z.of_nat (sizeof_field st f) <= Z.of_nat N ->
  entryc_field st (InPlace e) f s = Ok (load (sizeof_field st f) (nvmm s) (e + offsetof st f)) s.
Proof.
  intros Hp Ho Hn. unfold entryc_field.
  by rewrite (bind_ok _ _ _ _ _ (inplace_bytes s e _ _ N Hp Ho Hn)).
Qed.

Lemma goto_run s p q : cursor_at s p q -> goto_next_page p s = Ok (log_end s p) s.
Proof.
  intros [C1 C2 C3 C4]. unfold goto_next_page, log_end. destruct (LOG_BLOCK_TAIL <? ENTRY_LOC p + 32) eqn:E; [done|].
  unfold bind at 1, gets. rewrite (bind_ok _ _ _ _ _ (mcsafe_good _ _ _ (C2 eq_refl))). cbn [fst snd Z.ltb Z.eqb negb].
  by rewrite orb_false_l.
Qed.

Lemma cursor_next_run s p q : cursor_at s p q -> log_end s p = true -> next_log_page p s = Ok q s.
Proof.
  intros C E. destruct (ca_next _ _ _ C E) as [Hp Hq]. unfold next_log_page, read_tail, bind at 1, gets.
  change (field_addr nova_inode_log_page (nova_get_block s (BLOCK_OFF p)) "next_page") with (nova_get_block s (BLOCK_OFF p) + 4088).
  rewrite (bind_ok _ _ _ _ _ (mcsafe_good _ _ _ Hp)). cbn [fst snd Z.eqb negb]. unfold ret. f_equal. exact Hq.
Qed.

Lemma log_cursor_run s p q h :
  cursor_at s p q -> exists h', log_cursor p h s = Ok (q, h') s /\
    ih_rb_tree h' = ih_rb_tree h /\ ih_last_dentry h' = ih_last_dentry h /\ ih_base h' = ih_base h /\ ih_tree h' = ih_tree h.
Proof.
  intros C. unfold log_cursor. rewrite (bind_ok _ _ _ _ _ (goto_run s p q C)). destruct (log_end s p) eqn:E.
  - exists (set_ih_log_pages (u64 (ih_log_pages h + 1)) h).
    rewrite (bind_ok _ _ s (q, set_ih_log_pages (u64 (ih_log_pages h + 1)) h) s)
      by (by rewrite (bind_ok _ _ _ _ _ (cursor_next_run s p q C E))).
    cbn [fst]. by rewrite (proj2 (Z.eqb_neq q 0) (ca_null _ _ _ C)).
  - rewrite (ca_here _ _ _ C E). exists h. unfold bind, ret. cbn [fst]. by rewrite (proj2 (Z.eqb_neq q 0) (ca_null _ _ _ C)).
Qed.

(** ** One entry *)
Definition last_ok (s : nova) (last : Z) : Prop := last = 0 \/ in_pmem s (nova_get_block s last) 48 = true.

Lemma reassign_run s last e q :
  last_ok s last -> e = nova_get_block s q -> in_pmem s e 48 = true ->
  exists last', nova_reassign_last_dentry last q s = Ok last' s /\ last_ok s last'.
Proof.
  intros L -> Hp. unfold nova_reassign_last_dentry. destruct (Z.eqb_spec last 0) as [->|Hne].
  { exists q. split; [done|by right]. }
  destruct L as [L|L]; [done|]. unfold bind at 1 2, gets.
  assert (forall a, in_pmem s a 48 = true -> pload_field nova_dentry a "trans_id" s = Ok (load 8 (nvmm s) (a + 40)) s) as Ld.
  { intros a Ha. unfold pload_field, pload. change (sizeof_field nova_dentry "trans_id") with 8%nat.
    change (field_addr nova_dentry a "trans_id") with (a + 40). by rewrite (in_pmem_sub s a 48 (a + 40) 8 Ha) by lia. }
  rewrite (bind_ok _ _ _ _ _ (Ld _ Hp)), (bind_ok _ _ _ _ _ (Ld _ L)). eexists. split; [reflexivity|].
  destruct (_ <=? _); [by right|by right].
Qed.

(** Reading a dentry's header. *)
Lemma dentry_field s e name ino inv len f :
  dentry_rep s e name ino inv len -> 0 <= offsetof nova_dentry f ->
  offsetof nova_dentry f + Z.of_nat (sizeof_field nova_dentry f) <= 48 ->
  entryc_field nova_dentry (InPlace e) f s = Ok (load (sizeof_field nova_dentry f) (nvmm s) (e + offsetof nova_dentry f)) s.
Proof. intros D Ho Hn. eapply entry_field; [apply (de_pmem _ _ _ _ _ _ D)|done|lia]. Qed.

Lemma entryc_name_run s e name ino inv len :
  dentry_rep s e name ino inv len -> entryc_name (InPlace e) s = Ok name s.
Proof.
  intros D. unfold entryc_name. rewrite (bind_ok _ _ _ _ _ (dentry_field _ _ _ _ _ _ "name_len" D ltac:(done) ltac:(done))).
  change (sizeof_field nova_dentry "name_len") with 1%nat. change (offsetof nova_dentry "name_len") with 1.
  rewrite (de_nlen _ _ _ _ _ _ D), Nat2Z.id. change (offsetof nova_dentry "name") with 48.
  rewrite (inplace_bytes s e 48 (length name) (48 + length name)); [|apply D|lia|lia]. by rewrite (de_bytes _ _ _ _ _ _ D).
Qed.

Lemma time_run s e name ino inv len reb :
  dentry_rep s e name ino inv len ->
  exists reb', nova_rebuild_dir_time_and_size reb (InPlace e) s = Ok reb' s.
Proof.
  intros D. unfold nova_rebuild_dir_time_and_size.
  rewrite (bind_ok _ _ _ _ _ (dentry_field _ _ _ _ _ _ "mtime" D ltac:(done) ltac:(done))).
  rewrite (bind_ok _ _ _ _ _ (dentry_field _ _ _ _ _ _ "links_count" D ltac:(done) ltac:(done))). by eexists.
Qed.

(** The tree after the entry, on success. *)
Lemma replay_entry_run s t m' e name ino inv len :
  dram_struct_csum = 0 -> (forall p, kmem_cache_zalloc_ok p = true) -> 
  dentry_rep s e name ino inv len -> dir_wf (alloc_clock s) t ->
  replay_item (IDentry e name ino inv) (dir_map t) = Some m' ->
  exists t' s', (if inv then ret (0, t)
      else if 0 <? ino then nova_replay_add_dentry t e (InPlace e) else nova_replay_remove_dentry t (InPlace e)) s
    = Ok (0, t') s' /\ same_media s s' /\ dir_wf (alloc_clock s') t' /\ dir_map t' = m'.
Proof.
  intros Hd Hslab D W. cbn [replay_item]. destruct inv.
  { intros [= <-]. by exists t, s. }
  destruct (0 <? ino).
  - destruct (dir_map t !! BKDRHash name) as [x|] eqn:Em; [done|]. intros [= <-].
    destruct (insert_dir_run s t name e Hd W) as (r & t' & E & W' & Hr).
    rewrite Hslab, Em in Hr. destruct Hr as [-> Ht].
    exists t', (after_alloc s). split_and!; [|done..].
    unfold nova_replay_add_dentry. rewrite (bind_ok _ _ _ _ _ (dentry_field _ _ _ _ _ _ "name_len" D ltac:(done) ltac:(done))).
    change (sizeof_field nova_dentry "name_len") with 1%nat. change (offsetof nova_dentry "name_len") with 1.
    rewrite (de_nlen _ _ _ _ _ _ D). destruct (Z.eqb_spec (Z.of_nat (length name)) 0) as [Z0|_].
    { destruct name; [by destruct (de_name _ _ _ _ _ _ D)|]. cbn [length] in Z0. lia. }
    by rewrite (bind_ok _ _ _ _ _ (entryc_name_run _ _ _ _ _ _ D)).
  - intros [= <-]. destruct (remove_replay_run _ s t name 0 W) as (r & t' & E & W' & Hr).
    exists t', s. split_and!; [|done|done|].
    + unfold nova_replay_remove_dentry. rewrite (bind_ok _ _ _ _ _ (entryc_name_run _ _ _ _ _ _ D)).
      by rewrite (bind_ok _ _ _ _ _ E).
    + destruct (dir_map t !! BKDRHash name) as [x|] eqn:Em; destruct Hr as [_ Ht]; [done|].
      subst t'. by rewrite delete_id.
Qed.

Lemma handle_dentry_run s t last reb m' q e name ino inv len :
  dram_struct_csum = 0 -> (forall p, kmem_cache_zalloc_ok p = true) -> 
  e = nova_get_block s q -> dentry_rep s e name ino inv len -> last_ok s last -> dir_wf (alloc_clock s) t ->
  replay_item (IDentry e name ino inv) (dir_map t) = Some m' ->
  exists t' last' reb' s', nova_rebuild_handle_dentry t last reb e (InPlace e) q s = Ok (0, (t', last', reb')) s' /\
    same_media s s' /\ last_ok s last' /\ dir_wf (alloc_clock s') t' /\ dir_map t' = m'.
Proof.
  intros Hd Hslab He D L W Hrep.
  destruct (reassign_run s last e q L He) as (last' & El & L').
  { eapply in_pmem_sub; [apply (de_pmem _ _ _ _ _ _ D)|lia|lia]. }
  destruct (replay_entry_run s t m' e name ino inv len) as (t' & s' & Er & S & W' & R'); [done..|].
  pose proof (dentry_media s s' _ _ _ _ _ S D) as D'. destruct (time_run s' e name ino inv len reb D') as [reb' Et].
  unfold nova_rebuild_handle_dentry. rewrite (bind_ok _ _ _ _ _ El).
  rewrite (bind_ok _ _ _ _ _ (dentry_field _ _ _ _ _ _ "invalid" D ltac:(done) ltac:(done))).
  change (sizeof_field nova_dentry "invalid") with 1%nat. change (offsetof nova_dentry "invalid") with 3.
  rewrite (bind_ok _ _ s (0, t') s').
  2:{ rewrite <- Er. rewrite (de_inval _ _ _ _ _ _ D). destruct (load 1 (nvmm s) (e + 3) =? 0); cbn [negb]; [|done].
      rewrite (bind_ok _ _ _ _ _ (dentry_field _ _ _ _ _ _ "ino" D ltac:(done) ltac:(done))).
      change (sizeof_field nova_dentry "ino") with 8%nat. change (offsetof nova_dentry "ino") with 16.
      by rewrite (de_ino _ _ _ _ _ _ D). }
  cbn [Z.eqb negb]. rewrite (bind_ok _ _ _ _ _ (dentry_field _ _ _ _ _ _ "trans_id" D' ltac:(done) ltac:(done))).
  destruct (reb_trans_id reb <=? _).
  - rewrite (bind_ok _ _ _ _ _ Et). by eexists t', last', _, s'.
  - by eexists t', last', _, s'.
Qed.

Lemma entry_at_run s e N ty :
  in_pmem s e N = true -> (0 < N)%nat -> load 1 (nvmm s) e = ty -> log_entry_at false e s = Ok (Some (InPlace e, ty, false)) s.
Proof.
  intros Hp HN <-. unfold log_entry_at, verified_entry. rewrite Hmeta. cbn [Z.eqb].
  unfold bind at 1, ret at 1. cbn [entryc_type]. unfold nova_get_entry_type.
  rewrite (bind_ok _ _ s (load 1 (nvmm s) e) s); [done|].
  by rewrite (bind_ok _ _ _ _ _ (mcsafe_good e 1 s ltac:(eapply in_pmem_sub; [exact Hp|lia|lia]))).
Qed.

Lemma setattr_run s d e reb h :
  in_pmem s e 56 = true -> load 1 (nvmm s) e = entry_type_val SET_ATTR -> S_ISREG (load 2 (nvmm s) (e + 2)) = false ->
  exists reb', nova_apply_setattr_entry reb h (InPlace e) d s = Ok (reb', h, d) s.
Proof.
  intros Hp Ht Hm. unfold nova_apply_setattr_entry.
  assert (forall f, 0 <= offsetof nova_setattr_logentry f ->
    offsetof nova_setattr_logentry f + Z.of_nat (sizeof_field nova_setattr_logentry f) <= 56 ->
    entryc_field nova_setattr_logentry (InPlace e) f s
      = Ok (load (sizeof_field nova_setattr_logentry f) (nvmm s) (e + offsetof nova_setattr_logentry f)) s) as Fld.
  { intros f F1 F2. by eapply entry_field. }
  rewrite (sbind_lift _ _ _ _ _ _ (Fld "entry_type" ltac:(done) ltac:(done))).
  change (load (sizeof_field nova_setattr_logentry "entry_type") (nvmm s) (e + offsetof nova_setattr_logentry "entry_type"))
    with (load 1 (nvmm s) (e + 0)). rewrite Z.add_0_r, Ht. cbn [Z.eqb negb entry_type_val Pos.eqb].
  rewrite (sbind_lift _ _ _ _ _ _ (Fld "mode" ltac:(done) ltac:(done))).
  rewrite (sbind_lift _ _ _ _ _ _ (Fld "uid" ltac:(done) ltac:(done))).
  rewrite (sbind_lift _ _ _ _ _ _ (Fld "gid" ltac:(done) ltac:(done))).
  rewrite (sbind_lift _ _ _ _ _ _ (Fld "atime" ltac:(done) ltac:(done))).
  cbv zeta. cbn [reb_mode reb_attrs]. change (sizeof_field nova_setattr_logentry "mode") with 2%nat.
  change (offsetof nova_setattr_logentry "mode") with 2. rewrite Hm. by eexists.
Qed.

Lemma apply_link_run s e reb :
  in_pmem s e 40 = true -> load 1 (nvmm s) e = entry_type_val LINK_CHANGE ->
  exists reb', nova_apply_link_change_entry reb (InPlace e) s = Ok reb' s /\
    reb_size reb' = reb_size reb /\ reb_trans_id reb' = reb_trans_id reb.
Proof.
  intros Hp Ht.
  assert (forall f, 0 <= offsetof nova_link_change_entry f ->
    offsetof nova_link_change_entry f + Z.of_nat (sizeof_field nova_link_change_entry f) <= 40 ->
    entryc_field nova_link_change_entry (InPlace e) f s
      = Ok (load (sizeof_field nova_link_change_entry f) (nvmm s) (e + offsetof nova_link_change_entry f)) s) as Fld.
  { intros f F1 F2. by eapply entry_field. }
  unfold nova_apply_link_change_entry. rewrite (bind_ok _ _ _ _ _ (Fld "entry_type" ltac:(done) ltac:(done))).
  change (load (sizeof_field nova_link_change_entry "entry_type") (nvmm s) (e + offsetof nova_link_change_entry "entry_type"))
    with (load 1 (nvmm s) (e + 0)). rewrite Z.add_0_r, Ht. cbn [Z.eqb negb entry_type_val Pos.eqb].
  rewrite (bind_ok _ _ _ _ _ (Fld "links" ltac:(done) ltac:(done))).
  rewrite (bind_ok _ _ _ _ _ (Fld "ctime" ltac:(done) ltac:(done))).
  rewrite (bind_ok _ _ _ _ _ (Fld "flags" ltac:(done) ltac:(done))).
  rewrite (bind_ok _ _ _ _ _ (Fld "generation" ltac:(done) ltac:(done))). by eexists.
Qed.

Lemma link_run s d e reb h q :
  in_pmem s e 40 = true -> load 1 (nvmm s) e = entry_type_val LINK_CHANGE ->
  exists reb', dir_entry h reb q e (InPlace e) (entry_type_val LINK_CHANGE) d s
    = Ok (0, sizeof nova_link_change_entry, set_ih_last_link_change q h, reb', d) s.
Proof.
  intros Hp Ht. unfold dir_entry. change (entry_kind (entry_type_val LINK_CHANGE)) with (Some LINK_CHANGE). cbv iota.
  rewrite (sbind_lift _ _ _ _ _ _ (entry_field nova_link_change_entry s e "trans_id" 40 Hp ltac:(done) ltac:(done))).
  destruct (reb_trans_id reb <=? _); [|by eexists]. destruct (apply_link_run s e reb Hp Ht) as (reb' & E & _).
  rewrite (sbind_ok _ _ d s _ d s (sbind_lift _ _ _ _ _ _ E)). by eexists.
Qed.

(** ** The walk *)
Lemma dir_log_media s s' t p items : same_media s s' -> dir_log s t p items -> dir_log s' t p items.
Proof.
  intros S. induction 1 as [|p q name ino inv len rest Hne C D _ IH|p q rest Hne C Hp Ht Hm _ IH|p q rest Hne C Hp Ht _ IH].
  - constructor.
  - rewrite <- (same_media_block s s' q S). eapply dl_dentry; [done|by eapply cursor_media|..|exact IH].
    rewrite (same_media_block s s' q S). by eapply dentry_media.
  - eapply dl_setattr; [done|by eapply cursor_media|..|exact IH];
      rewrite (same_media_block s s' q S), ?(same_media_pmem s s' _ _ S), ?(proj2 S); done.
  - eapply dl_link; [done|by eapply cursor_media|..|exact IH];
      rewrite (same_media_block s s' q S), ?(same_media_pmem s s' _ _ S), ?(proj2 S); done.
Qed.

Lemma last_ok_media s s' last : same_media s s' -> last_ok s last -> last_ok s' last.
Proof. intros S. unfold last_ok. by rewrite (same_media_block s s' _ S), (same_media_pmem s s' _ _ S). Qed.

Lemma rebuild_dir_loop_run d t :
  dram_struct_csum = 0 -> (forall p, kmem_cache_zalloc_ok p = true) ->
  forall items fuel s p h reb m', dir_log s t p items -> (length items <= fuel)%nat ->
  sih_log_tail (ih_base h) = t -> last_ok s (ih_last_dentry h) ->
  dir_wf (alloc_clock s) (ih_rb_tree h) -> replay items (dir_map (ih_rb_tree h)) = Some m' ->
  exists h' reb' s', rebuild_dir_loop fuel false p h reb d s = Ok (inr t, h', reb', d) s' /\ same_media s s' /\
    ih_base h' = ih_base h /\ dir_wf (alloc_clock s') (ih_rb_tree h') /\ dir_map (ih_rb_tree h') = m'.
Proof.
  intros Hd Hslab. induction items as [|i items IH]; intros fuel s p h reb m' Lg Hf Ht Hl W Hrep.
  - inversion Lg; subst. injection Hrep as <-. exists h, reb, s.
    destruct fuel; cbn [rebuild_dir_loop]; rewrite Z.eqb_refl; done.
  - destruct fuel as [|fuel]; [cbn [length] in Hf; lia|]. cbn [rebuild_dir_loop]. cbn [length] in Hf.
    cbn [replay] in Hrep. destruct (replay_item i (dir_map (ih_rb_tree h))) as [m1|] eqn:Ei; [|done].
    inversion Lg as [|p' q name ino inv len rest Hne C D L1|p' q rest Hne C Hp Hty Hm L1|p' q rest Hne C Hp Hty L1]; subst;
      rewrite (proj2 (Z.eqb_neq _ _) Hne); destruct (log_cursor_run s p q h C) as (h1 & Ec & T1 & T2 & T3 & _);
      rewrite (sbind_lift _ _ _ _ _ _ Ec); cbv iota beta;
      rewrite (sbind_lift (gets (fun s => nova_get_block s q)) _ d s (nova_get_block s q) s eq_refl).
    + rewrite (sbind_lift _ _ _ _ _ _ (entry_at_run s _ _ _ (de_pmem _ _ _ _ _ _ D) ltac:(lia) (de_type _ _ _ _ _ _ D))).
      destruct (handle_dentry_run s (ih_rb_tree h1) (ih_last_dentry h1) reb m1 q (nova_get_block s q)
        name ino inv len) as (t1 & last1 & reb1 & s1 & Eh & S1 & L1' & W1 & R1); try done.
      { by rewrite T2. } { by rewrite T1. } { by rewrite T1. }
      destruct (IH fuel s1 (u64 (q + len)) (set_ih_last_dentry last1 (set_ih_rb_tree t1 h1)) reb1 m')
        as (h2 & reb2 & s2 & E2 & S2 & B2 & W2 & R2); try done.
      { by eapply dir_log_media. } { lia. } { cbn [ih_base set_ih_last_dentry set_ih_rb_tree]. by rewrite T3. }
      { by eapply last_ok_media. } { cbn [ih_rb_tree set_ih_last_dentry set_ih_rb_tree]. by rewrite R1. }
      exists h2, reb2, s2. split_and!; [|by eapply same_media_trans|by rewrite B2|done|done].
      pose proof (dentry_media s s1 _ _ _ _ _ S1 D) as D1.
      rewrite (sbind_ok _ _ d s (0, len, set_ih_last_dentry last1 (set_ih_rb_tree t1 h1), reb1) d s1); [exact E2|].
      unfold dir_entry. change (entry_kind (entry_type_val DIR_LOG)) with (Some DIR_LOG). cbv iota.
      rewrite (sbind_lift _ _ _ _ _ _ Eh). cbn [Z.eqb negb].
      rewrite (sbind_lift _ _ _ _ _ _ (dentry_field _ _ _ _ _ _ "de_len" D1 ltac:(done) ltac:(done))).
      change (sizeof_field nova_dentry "de_len") with 2%nat. change (offsetof nova_dentry "de_len") with 4.
      by rewrite (de_rlen _ _ _ _ _ _ D1).
    + injection Ei as <-. rewrite (sbind_lift _ _ _ _ _ _ (entry_at_run s _ _ _ Hp ltac:(lia) Hty)).
      destruct (setattr_run s d _ reb h1 Hp Hty Hm) as [reb1 Es].
      destruct (IH fuel s (u64 (q + sizeof nova_setattr_logentry)) (set_ih_last_setattr q h1) reb1 m')
        as (h2 & reb2 & s2 & E2 & S2 & B2 & W2 & R2); try done.
      { lia. } { cbn [ih_base set_ih_last_setattr]. by rewrite T3. } { cbn. by rewrite T2. } { cbn. by rewrite T1. } { cbn. by rewrite T1. }
      exists h2, reb2, s2. split_and!; [|done|by rewrite B2|done|done].
      rewrite (sbind_ok _ _ d s (0, sizeof nova_setattr_logentry, set_ih_last_setattr q h1, reb1) d s); [exact E2|].
      unfold dir_entry. change (entry_kind (entry_type_val SET_ATTR)) with (Some SET_ATTR). cbv iota.
      by rewrite (sbind_ok _ _ _ _ _ _ _ Es).
    + injection Ei as <-. rewrite (sbind_lift _ _ _ _ _ _ (entry_at_run s _ _ _ Hp ltac:(lia) Hty)).
      destruct (link_run s d _ reb h1 q Hp Hty) as [reb1 Es].
      destruct (IH fuel s (u64 (q + sizeof nova_link_change_entry)) (set_ih_last_link_change q h1) reb1 m')
        as (h2 & reb2 & s2 & E2 & S2 & B2 & W2 & R2); try done.
      { lia. } { cbn [ih_base set_ih_last_link_change]. by rewrite T3. } { cbn. by rewrite T2. } { cbn. by rewrite T1. } { cbn. by rewrite T1. }
      exists h2, reb2, s2. split_and!; [|done|by rewrite B2|done|done].
      by rewrite (sbind_ok _ _ _ _ _ _ _ Es).
Qed.

(** ** The inode at the end *)

(** A field of an inode is written within its record. *)
Lemma wp_inode_field m s0 s pi f v (Q : unit -> nova -> Prop) :
  mem_upd m s0 s -> writable s = true -> in_pmem s0 pi 120 = true -> 0 <= offsetof nova_inode f ->
  offsetof nova_inode f + Z.of_nat (sizeof_field nova_inode f) <= 120 ->
  (forall m' s', mem_upd m' s0 s' -> writable s' = true ->
     (forall x, ~ (pi <= x < pi + 120) -> mget m' x = mget m x) -> Q tt s') ->
  wp (pstore_field nova_inode pi f v) Q s.
Proof.
  intros U W Hp Ho Hn HQ. unfold pstore_field, field_addr. eapply wp_pstore; [exact U|done| |].
  - eapply in_pmem_sub; [exact Hp|lia|lia].
  - intros s' U' W'. eapply HQ; [exact U'|done|]. intros x Hx. apply mget_store_out. lia.
Qed.

Lemma wp_update_rebuild m s0 s pi reb (Q : unit -> nova -> Prop) :
  mem_upd m s0 s -> writable s = true -> in_pmem s0 pi 120 = true ->
  (forall m' s', mem_upd m' s0 s' -> writable s' = true ->
     (forall x, ~ (pi <= x < pi + 120) -> mget m' x = mget m x) -> Q tt s') ->
  wp (nova_update_inode_with_rebuild reb pi) Q s.
Proof.
  intros U0 W0 Hp HQ. unfold nova_update_inode_with_rebuild.
  do 9 (apply wp_bind; eapply wp_inode_field; [eassumption|assumption|exact Hp|done|done|]; intros ??? ? ?).
  eapply wp_inode_field; [eassumption|assumption|exact Hp|done|done|]. intros mz sz Uz Wz F.
  eapply HQ; [exact Uz|done|]. intros x Hx. rewrite F by done.
  repeat match goal with X : forall x, _ -> mget ?a x = mget ?b x |- mget ?a _ = _ => rewrite X by done; clear X end. done.
Qed.

Definition media_ok (s : nova) : Prop :=
  0 < virt_addr (sbc s) /\ virt_addr (sbc s) + initsize (sbc s) < 2 ^ 64.

Lemma finish_run s pi h reb p :
  media_ok s -> virt_addr (sbc s) <= pi -> pi + 128 <= virt_addr (sbc s) + initsize (sbc s) ->
  let link := nova_get_block s (BLOCK_OFF (BLOCK_OFF p)) + 4088 in
  in_pmem s link 8 = true -> load 8 (nvmm s) link = 0 -> (pi + 120 <= link \/ link + 8 <= pi) ->
  exists h' s' m', nova_rebuild_inode_finish pi h reb p s = Ok h' s' /\ mem_upd m' s s' /\
    (forall x, ~ (pi <= x < pi + 120) -> mget m' x = mget (nvmm s) x) /\
    ih_rb_tree h' = ih_rb_tree h /\ ih_tree h' = ih_tree h /\ ih_i_size h' = reb_size reb.
Proof.
  intros [Hv Hsz] Hlo Hhi link Hl Hn Ha.
  assert (wp (nova_rebuild_inode_finish pi h reb p) (fun h' s' => exists m', mem_upd m' s s' /\
    (forall x, ~ (pi <= x < pi + 120) -> mget m' x = mget (nvmm s) x) /\
    ih_rb_tree h' = ih_rb_tree h /\ ih_tree h' = ih_tree h /\ ih_i_size h' = reb_size reb) s) as W; [|apply wp_run in W; naive_solver].
  unfold nova_rebuild_inode_finish. cbv zeta. apply wp_bind.
  eapply wp_memunlock; [apply mem_upd_refl|done|done|done|unfold NOVA_INODE_SIZE; lia|unfold NOVA_INODE_SIZE; lia|].
  intros s1 U1 W1. apply wp_bind. eapply wp_update_rebuild; [exact U1|done|apply in_pmem_spec; lia|]. intros m2 s2 U2 W2 F2.
  apply wp_bind. eapply wp_update_checksum; [exact U2|done|done|done|]. intros m3 s3 U3 W3 F3.
  assert (forall x, ~ (pi <= x < pi + 120) -> mget m3 x = mget (nvmm s) x) as F
    by (intros x Hx; rewrite F3 by lia; by apply F2).
  rewrite Hmeta. cbn [Z.eqb negb]. apply wp_bind, wp_ret, wp_bind. eapply wp_memlock; [exact U3|]. intros s4 U4.
  apply wp_bind, wp_gets, wp_bind. unfold wp at 1.
  assert (forall fuel n, count_pages fuel (BLOCK_OFF p) n s4 = Ok n s4) as Ec.
  { intros fuel n. assert (next_log_page (BLOCK_OFF p) s4 = Ok 0 s4) as En.
    { unfold next_log_page, read_tail, bind at 1, gets. rewrite (mem_upd_block _ _ _ _ U4). cbv zeta.
      change (field_addr nova_inode_log_page ?a "next_page") with (a + 4088). fold link.
      rewrite (bind_ok _ _ _ (0, load_bytes m3 link 8) s4).
      - cbn [fst snd Z.eqb negb]. unfold ret. f_equal. rewrite <- Hn. unfold load. f_equal.
        apply load_bytes_ext. intros x Hx. apply F. lia.
      - rewrite mcsafe_good by (by rewrite (mem_upd_in_pmem _ _ _ _ _ U4)). by rewrite (mem_upd_nvmm _ _ _ U4). }
    destruct fuel; cbn [count_pages]; by rewrite (bind_ok _ _ _ _ _ En). }
  rewrite Ec. apply wp_ret. exists m3. done.
Qed.

Lemma start_run s pi h pa :
  in_pmem s pi 120 = true ->
  exists reb h', nova_rebuild_inode_start pi h pa s = Ok (0, Some reb, h') s /\
    ih_rb_tree h' = ih_rb_tree h /\ ih_tree h' = ih_tree h /\ ih_last_dentry h' = ih_last_dentry h /\
    ih_i_blocks h' = ih_i_blocks h /\
    sih_log_head (ih_base h') = load 8 (nvmm s) (pi + 64) /\ sih_log_tail (ih_base h') = load 8 (nvmm s) (pi + 72) /\
    i_blk_type (ih_base h') = load 1 (nvmm s) (pi + 3) /\ reb_size reb = load 8 (nvmm s) (pi + 8) /\ reb_trans_id reb = 0.
Proof.
  intros Hp. unfold nova_rebuild_inode_start. rewrite (bind_ok _ _ _ _ _ (get_head_tail_run s pi (ih_base h) (Hrc _ _) Hp)).
  cbn [fst snd Z.eqb negb].
  assert (exists reb, nova_init_inode_rebuild pi s = Ok (0, Some reb) s /\
    reb_size reb = load 8 (nvmm s) (pi + 8) /\ reb_trans_id reb = 0) as (reb & E & E1 & E2).
  { unfold nova_init_inode_rebuild. rewrite (bind_ok _ _ _ _ _ (mcsafe_good pi 120 s Hp)). eexists. split_and!; [reflexivity| |done].
    cbn [reb_size snd]. unfold buf_field. change (Z.to_nat (sizeof nova_inode)) with 120%nat. by rewrite load_slice by (vm_compute; lia). }
  rewrite (bind_ok _ _ _ _ _ E). by eexists reb, _.
Qed.

(** C15: rebuilding a directory from its log gives back the directory.
    A directory keeps its entries by the hash of their names, one for each hash,
    and so does the reference replay: an entry with an inode number is added under
    its hash, one without removes what is there.  When the replay never adds an
    entry under a hash that holds one, the walk over the log's pages ends, returns
    0 and leaves a tree that holds exactly the map the replay gives: a lookup
    finds the entry added last under the hash of the name and not removed since,
    also when that entry is of another name with the same hash.  For names that do
    not collide, the names of the log among them, this is the map from names to
    entries that the log describes.  On the device only the inode's record is
    written.  (Checksums of DRAM nodes and of metadata are off, the media has no
    errors and nodes can be allocated.) *)
Theorem nova_rebuild_dir_inode_tree_correct s d pi pa h items m :
  dram_struct_csum = 0 -> (forall p, kmem_cache_zalloc_ok p = true) ->
  media_ok s -> virt_addr (sbc s) <= pi -> pi + 128 <= virt_addr (sbc s) + initsize (sbc s) ->
  let head := load 8 (nvmm s) (pi + 64) in
  let tail := load 8 (nvmm s) (pi + 72) in
  let link := nova_get_block s (BLOCK_OFF (BLOCK_OFF tail)) + 4088 in
  head <> 0 -> dir_log s tail head items -> (length items <= entry_fuel s)%nat ->
  in_pmem s link 8 = true -> load 8 (nvmm s) link = 0 -> (pi + 120 <= link \/ link + 8 <= pi) ->
  ih_rb_tree h = RB_ROOT -> ih_last_dentry h = 0 -> replay items ∅ = Some m ->
  exists h' s', nova_rebuild_dir_inode_tree false pi pa h d s = Ok (0, h', d) s' /\
    dir_wf (alloc_clock s') (ih_rb_tree h') /\ dir_map (ih_rb_tree h') = m /\
    (forall name, nova_find_dentry (ih_rb_tree h') name = default 0 (m !! BKDRHash name)) /\
    (forall names, NoDup (BKDRHash <$> names) -> concat (item_name <$> items) ⊆ names ->
       exists m', name_replay items ∅ = Some m' /\
         forall name, name ∈ names -> nova_find_dentry (ih_rb_tree h') name = default 0 (m' !! name)) /\
    (forall x, ~ (pi <= x < pi + 120) -> mget (nvmm s') x = mget (nvmm s) x).
Proof.
  intros Hd Hslab Hmo Hlo Hhi head tail link Hh Lg Hf Hl Hl0 Ha Ht Hld Hrep.
  destruct (start_run s pi h pa) as (reb & h1 & Es & T1 & _ & T2 & _ & B1 & B2 & _); [apply in_pmem_spec; lia|].
  destruct (rebuild_dir_loop_run d tail Hd Hslab items (entry_fuel s) s head h1 reb m)
    as (h2 & reb2 & s2 & E2 & S2 & B3 & W2 & R2); [done|done|done|by left; rewrite T2|..].
  { rewrite T1, Ht. apply dir_wf_root. } { by rewrite T1, Ht, dir_map_root. }
  destruct (finish_run s2 pi h2 reb2 tail) as (h3 & s3 & m3 & E3 & U3 & F3 & T3 & _).
  { unfold media_ok. by rewrite (proj1 S2). } { by rewrite (proj1 S2). } { by rewrite (proj1 S2). }
  { by rewrite (same_media_block s s2 _ S2), (same_media_pmem s s2 _ _ S2). }
  { by rewrite (same_media_block s s2 _ S2), (proj2 S2). } { by rewrite (same_media_block s s2 _ S2). }
  exists (set_ih_i_blocks 0 h3), s3. cbn [ih_rb_tree set_ih_i_blocks]. rewrite T3, (mem_upd_clock _ _ _ U3).
  assert (forall name, nova_find_dentry (ih_rb_tree h2) name = default 0 (m !! BKDRHash name)) as Hfind.
  { intros name. by rewrite (find_dentry_map _ _ _ W2), R2. }
  split_and!; [|done|done|done|..].
  - unfold nova_rebuild_dir_inode_tree. rewrite (sbind_lift _ _ _ _ _ _ Es). cbn [Z.eqb negb].
    rewrite (sbind_lift (initialised (Some reb)) _ d s reb s eq_refl). cbv zeta. rewrite B1. fold head.
    rewrite (proj2 (Z.eqb_neq _ _) Hh). rewrite (sbind_lift (gets entry_fuel) _ d s (entry_fuel s) s eq_refl).
    rewrite (sbind_ok _ _ _ _ _ _ _ E2). cbv iota beta. by rewrite (sbind_lift _ _ _ _ _ _ E3).
  - intros names ND Hn. pose proof (hashed_replay names items ∅ ∅ ND Hn ltac:(by intros x _; rewrite !lookup_empty)) as Hs.
    rewrite Hrep in Hs. destruct (name_replay items ∅) as [m'|]; [|done]. exists m'. split; [done|].
    intros name Hname. by rewrite Hfind, (Hs name Hname).
  - intros x Hx. rewrite (mem_upd_nvmm _ _ _ U3), F3 by done. by rewrite (proj2 S2).
Qed.
End rebuild_spec.
