(* ===== verification/RebuildFileSpec.v ===== *)
(** Rebuilding a file from its log gives back its index and its size.

    During the walk the code marks the entries it displaces as reassigned, so
    the log changes while it is read.  [W] is the set of write entries of the
    log; [agree W s s'] says that the device differs at most in the marks of
    these entries, and [file_log] describes a log by what a mark cannot change. *)

From stdpp Require Import strings.
From S2P Require Import Prelude CInt Crc32c NovaEnv RangeNode Pmem NovaState NovaMonad NovaLib.
From S2P Require Import Balloc NovaLayout PmemOps LogPage RangeLog RangeRoundtrip InodeTable Journal Checksum Parity MetaCsum LogEntry.
From S2P Require Import Snapshot SnapshotSpec FileTree FileTreeSpec DirTree DirTreeSpec Rebuild RebuildSpec.

Local Open Scope nova_scope.
Local Open Scope list_scope.

(** The byte [reassigned] of the entry at [w]. *)
Definition mark (w : Z) : Z := w + 1.

Definition agree (W : list Z) (s s' : nova) : Prop :=
  sbc s' = sbc s /\ forall x, (forall w, w ∈ W -> x <> mark w) -> mget (nvmm s') x = mget (nvmm s) x.

(** No mark within the [n] bytes at [a]. *)
Definition apart (W : list Z) (a n : Z) : Prop := Forall (fun w => ~ (a <= mark w < a + n)) W.

Lemma agree_refl W s : agree W s s.
Proof. done. Qed.
Lemma agree_trans W s1 s2 s3 : agree W s1 s2 -> agree W s2 s3 -> agree W s1 s3.
Proof. intros [A B] [C D]. split; [congruence|]. intros x Hx. rewrite D by done. by apply B. Qed.
Lemma agree_sub W W' s s' : W' ⊆ W -> agree W' s s' -> agree W s s'.
Proof. intros Sub [A B]. split; [done|]. intros x Hx. apply B. intros w Hw. apply Hx. by apply Sub. Qed.

Lemma agree_block W s s' p : agree W s s' -> nova_get_block s' p = nova_get_block s p.
Proof. intros [E _]. unfold nova_get_block. by rewrite E. Qed.
Lemma agree_pmem W s s' a n : agree W s s' -> in_pmem s' a n = in_pmem s a n.
Proof. intros [E _]. unfold in_pmem. by rewrite E. Qed.

Lemma agree_load W s s' a n : agree W s s' -> apart W a (Z.of_nat n) -> load n (nvmm s') a = load n (nvmm s) a.
Proof.
  intros [_ A] P. unfold load. f_equal. apply load_bytes_ext. intros x Hx. apply A. intros w Hw ->.
  unfold apart in P. rewrite Forall_forall in P. by apply (P w Hw).
Qed.

Lemma apart_sub W a n a' n' : apart W a n -> a <= a' -> a' + n' <= a + n -> apart W a' n'.
Proof. intros P H1 H2. eapply Forall_impl; [exact P|]. cbn. intros w. lia. Qed.

(** ** The log *)

(** A write entry: [n] pages from [pg] on, [inv] of them invalid, and the size
    and transaction it was written with. *)
Record write_rep (s : nova) (W : list Z) (e pg n inv size tid : Z) : Prop := {
  wr_pmem : in_pmem s e 64 = true;
  wr_in : e ∈ W;
  wr_type : load 1 (nvmm s) e = entry_type_val FILE_WRITE;
  wr_upd : load 1 (nvmm s) (e + 2) = 0;
  wr_num : load 4 (nvmm s) (e + 4) = n;
  wr_pgoff : load 8 (nvmm s) (e + 16) = pg;
  wr_inv : load 4 (nvmm s) (e + 24) = inv;
  wr_size : load 8 (nvmm s) (e + 32) = size;
  wr_tid : load 8 (nvmm s) (e + 48) = tid;
  wr_range : 0 <= pg /\ 0 <= n < 2 ^ 31 /\ pg + n < 2 ^ 64;
  wr_apart : apart W e 1 /\ apart W (e + 2) 62
}.

Lemma write_agree W s s' e pg n inv size tid :
  agree W s s' -> write_rep s W e pg n inv size tid -> write_rep s' W e pg n inv size tid.
Proof.
  intros A [X1 X2 X3 X4 X5 X6 X7 X8 X9 X10 [P1 P2]].
  assert (forall o k, 2 <= o -> o + Z.of_nat k <= 64 -> load k (nvmm s') (e + o) = load k (nvmm s) (e + o)) as L.
  { intros o k Ho Hk. apply (agree_load W s s'); [done|]. apply (apart_sub W (e + 2) 62); [done|lia|lia]. }
  split; rewrite ?(agree_pmem W s s' _ _ A); try done; try (rewrite L; [done|lia|lia]).
  by rewrite (agree_load W s s' e 1 A P1).
Qed.

Definition cursor_apart (W : list Z) (s : nova) (p : Z) : Prop :=
  apart W (nova_get_block s p) 1 /\ apart W (nova_get_block s (BLOCK_OFF p) + 4088) 8.

Lemma cursor_agree W s s' p q : agree W s s' -> cursor_apart W s p -> cursor_at s p q -> cursor_at s' p q.
Proof.
  intros A [P1 P2] [C1 C2 C3 C4]. assert (log_end s' p = log_end s p) as E.
  { unfold log_end. by rewrite (agree_block W s s' p A), (agree_load W s s' _ 1 A P1). }
  split; [done|..].
  - by rewrite (agree_block W s s' p A), (agree_pmem W s s' _ _ A).
  - rewrite E, (agree_block W s s' _ A), (agree_pmem W s s' _ _ A). by rewrite (agree_load W s s' _ 8 A P2).
  - by rewrite E.
Qed.

Inductive file_item := FWrite (e pg n inv size tid : Z) | FAttr (reg : bool) (size tid : Z) | FOther.

Inductive file_log (s : nova) (W : list Z) (t : Z) : Z -> list file_item -> Prop :=
| fl_end : file_log s W t t []
| fl_write p q pg n inv size tid rest :
    p <> t -> cursor_at s p q -> cursor_apart W s p -> write_rep s W (nova_get_block s q) pg n inv size tid ->
    file_log s W t (u64 (q + 64)) rest ->
    file_log s W t p (FWrite (nova_get_block s q) pg n inv size tid :: rest)
| fl_attr p q size tid rest :
    p <> t -> cursor_at s p q -> cursor_apart W s p -> in_pmem s (nova_get_block s q) 56 = true ->
    apart W (nova_get_block s q) 56 -> load 1 (nvmm s) (nova_get_block s q) = entry_type_val SET_ATTR ->
    load 8 (nvmm s) (nova_get_block s q + 24) = size -> load 8 (nvmm s) (nova_get_block s q + 40) = tid ->
    0 <= size -> file_log s W t (u64 (q + 56)) rest ->
    file_log s W t p (FAttr (S_ISREG (load 2 (nvmm s) (nova_get_block s q + 2))) size tid :: rest)
| fl_link p q rest :
    p <> t -> cursor_at s p q -> cursor_apart W s p -> in_pmem s (nova_get_block s q) 40 = true ->
    apart W (nova_get_block s q) 40 -> load 1 (nvmm s) (nova_get_block s q) = entry_type_val LINK_CHANGE ->
    file_log s W t (u64 (q + 40)) rest -> file_log s W t p (FOther :: rest).

Lemma file_log_agree W s s' t p items : agree W s s' -> file_log s W t p items -> file_log s' W t p items.
Proof.
  intros A. pose proof (fun p => agree_block W s s' p A) as Bl.
  assert (forall p, cursor_apart W s p -> cursor_apart W s' p) as Ca
    by (intros p'; unfold cursor_apart; by rewrite !Bl).
  induction 1 as [|p q pg n inv size tid rest Hne C P R _ IH|p q size tid rest Hne C P Hp Ha Ht Hs Hi H0 _ IH
                 |p q rest Hne C P Hp Ha Ht _ IH].
  - constructor.
  - rewrite <- (Bl q). eapply fl_write; [done|by eapply cursor_agree|by apply Ca| |exact IH].
    rewrite (Bl q). by eapply write_agree.
  - assert (forall o k, 0 <= o -> o + Z.of_nat k <= 56 -> load k (nvmm s') (nova_get_block s q + o) = load k (nvmm s) (nova_get_block s q + o)) as L.
    { intros o k Ho Hk. apply (agree_load W s s'); [done|]. apply (apart_sub W (nova_get_block s q) 56); [done|lia|lia]. }
    rewrite <- (L 2 2%nat) by lia. rewrite <- (Bl q).
    eapply fl_attr; [done|by eapply cursor_agree|by apply Ca|..|done|exact IH]; rewrite ?(Bl q), ?(agree_pmem W s s' _ _ A); try done.
    + rewrite <- (Z.add_0_r (nova_get_block s q)), L, Z.add_0_r by lia. done.
    + by rewrite L by lia.
    + by rewrite L by lia.
  - eapply fl_link; [done|by eapply cursor_agree|by apply Ca|..|exact IH]; rewrite ?(Bl q), ?(agree_pmem W s s' _ _ A); try done.
    rewrite (agree_load W s s' _ 1 A); [done|]. apply (apart_sub W (nova_get_block s q) 40); [done|lia|lia].
Qed.

(** ** The reference: index, size and transaction of the entries so far *)
Definition file_state : Type := gmap Z Z * Z * Z.

Definition newer (size tid : Z) (st : file_state) : file_state :=
  if st.2 <=? tid then (st.1.1, size, tid) else st.

Definition first_block (bits size : Z) : Z := Z.shiftr (u64 (size + Z.shiftl 1 bits - 1)) bits.

Definition replay_file_item (bits : Z) (i : file_item) (st : file_state) : file_state :=
  let T := st.1.1 in
  match i with
  | FWrite e pg n inv size tid =>
      newer size tid (if n =? inv then T else fill (Z.to_nat n) pg e T, st.1.2, st.2)
  | FAttr reg size tid => newer size tid (if reg then before (first_block bits size) T else T, st.1.2, st.2)
  | FOther => st
  end.
Definition replay_file (bits : Z) (l : list file_item) (st : file_state) : file_state :=
  fold_left (fun st i => replay_file_item bits i st) l st.

(** ** Displaced entries *)
Definition run_in (T : gmap Z Z) (r : run_of_pages) : Prop := is_run r -> exists q, T !! q = Some r.1.1.

Lemma runs_in n : forall p T cur, run_in T cur -> Forall (run_in T) (runs n p T cur).1 /\ run_in T (runs n p T cur).2.
Proof.
  induction n as [|n IH]; intros p T cur Hc; cbn [runs fst snd]; [by split|].
  destruct (T !! p) as [e|] eqn:E; [|by apply IH].
  destruct (e =? cur.1.1); [by apply IH|]. cbn [fst snd].
  destruct (IH (p + 1) T (e, p, 1)) as [F L]; [intros _; by exists p|]. split; [by constructor|done].
Qed.

Lemma all_runs_in n p T : Forall (fun r => is_run r /\ exists q, T !! q = Some r.1.1) (all_runs n p T (0, 0, 0)).
Proof.
  destruct (runs_in n p T (0, 0, 0)) as [F L]; [by intros R|]. apply Forall_forall. intros r [R Hr]%list_elem_of_filter.
  split; [done|]. apply elem_of_app in Hr as [Hr|Hr%list_elem_of_singleton]; [|subst r; by apply L].
  rewrite Forall_forall in F. by apply F.
Qed.

(** The index refers to live entries of the log. *)
Definition index_ok (s : nova) (W : list Z) (T : gmap Z Z) : Prop :=
  forall k e, T !! k = Some e -> exists pg n inv size tid, write_rep s W e pg n inv size tid /\ pg <= k < pg + n /\ n <> inv.

Lemma index_agree W s s' T : agree W s s' -> index_ok s W T -> index_ok s' W T.
Proof.
  intros A X k e E. destruct (X k e E) as (pg & n & inv & size & tid & R & Hk & Hn).
  exists pg, n, inv, size, tid. split; [by eapply write_agree|by split].
Qed.

Lemma index_fill s W T e pg n inv size tid :
  index_ok s W T -> write_rep s W e pg n inv size tid -> n <> inv -> index_ok s W (fill (Z.to_nat n) pg e T).
Proof.
  intros X R Hn k x. rewrite fill_lookup. pose proof (wr_range _ _ _ _ _ _ _ _ R) as (R1 & R2 & R3).
  case_decide as Hk; [|by apply X]. intros [= <-]. exists pg, n, inv, size, tid. split_and!; [done|lia|lia|done].
Qed.

Lemma index_before s W T b : index_ok s W T -> index_ok s W (before b T).
Proof. intros X k e. rewrite before_lookup. case_decide; [by apply X|done]. Qed.

Section file_spec.
Context `{NovaEnv, RbLib, MediaLib, KmallocLib, RadixLib, ParityEnv}.
Context (Hrc : forall a n, memcpy_mcsafe_rc a n = 0) (Hmeta : metadata_csum = 0).
Context (Hradix : forall t p, radix_insert_ok t p = true).

Lemma pmem_nonnull s e n : media_ok s -> in_pmem s e n = true -> e <> 0.
Proof. intros [Hv _] [Hp _]%in_pmem_spec. lia. Qed.

Lemma media_agree W s s' : agree W s s' -> media_ok s -> media_ok s'.
Proof. intros [E _]. unfold media_ok. by rewrite E. Qed.

(** Marking an entry as reassigned. *)
Lemma reassign_mark_run s e :
  media_ok s -> in_pmem s e 64 = true -> load 4 (nvmm s) (e + 24) <> load 4 (nvmm s) (e + 4) ->
  exists r s', nova_invalidate_reassign_logentry e FILE_WRITE true 0 s = Ok r s' /\ agree [e] s s'.
Proof.
  intros [Hv Hsz] Hp Hn. pose proof Hp as [Hlo Hhi]%in_pmem_spec.
  assert (wp (nova_invalidate_reassign_logentry e FILE_WRITE true 0) (fun _ s' => agree [e] s s') s) as W;
    [|apply wp_run in W as (r & s' & E & A); by exists r, s'].
  assert (forall o k, 0 <= o -> o + Z.of_nat k <= 64 -> in_pmem s (e + o) k = true) as I
    by (intros o k Ho Hk; apply in_pmem_spec; lia).
  unfold nova_invalidate_reassign_logentry. apply wp_bind.
  eapply wp_memunlock; [apply mem_upd_refl|done|done|done|unfold CACHELINE_SIZE; lia|unfold CACHELINE_SIZE; lia|].
  intros s1 U1 W1. apply wp_bind. unfold nova_execute_invalidate_reassign_logentry. apply wp_bind. unfold mark_entry, when.
  apply wp_bind. unfold pstore_field. change (sizeof_field nova_file_write_entry "reassigned") with 1%nat.
  change (field_addr nova_file_write_entry e "reassigned") with (e + 1).
  eapply wp_pstore; [exact U1|done|apply I; lia|]. intros s2 U2 W2. cbn [Z.eqb negb]. apply wp_bind, wp_ret, wp_bind.
  unfold pload_field. change (sizeof_field nova_file_write_entry "invalid_pages") with 4%nat.
  change (field_addr nova_file_write_entry e "invalid_pages") with (e + 24).
  eapply wp_pload; [exact U2|apply I; lia|]. apply wp_bind. change (sizeof_field nova_file_write_entry "num_pages") with 4%nat.
  change (field_addr nova_file_write_entry e "num_pages") with (e + 4).
  eapply wp_pload; [exact U2|apply I; lia|]. rewrite !load_store_other by (cbn; lia). apply wp_ret.
  rewrite (proj2 (Z.eqb_neq _ _) Hn). apply wp_bind, wp_ret, wp_bind. unfold nova_update_entry_csum. rewrite Hmeta. cbn [Z.eqb].
  eapply wp_flush; [exact U2|done|done|]. intros s3 U3 W3. apply wp_ret, wp_bind. unfold nova_update_alter_entry. rewrite Hmeta.
  cbn [Z.eqb]. apply wp_ret, wp_bind. eapply wp_memlock; [exact U3|]. intros s4 U4. apply wp_ret.
  split; [apply (mem_upd_sbc _ _ _ U4)|]. intros x Hx. rewrite (mem_upd_nvmm _ _ _ U4). apply mget_store_out.
  specialize (Hx e ltac:(by left)). unfold mark in Hx. cbn. lia.
Qed.

Lemma invalidate_run s W e pg n inv size tid :
  media_ok s -> write_rep s W e pg n inv size tid -> n <> inv ->
  exists r s', nova_invalidate_write_entry e true 0 s = Ok r s' /\ agree W s s'.
Proof.
  intros Hm R Hn. pose proof (wr_pmem _ _ _ _ _ _ _ _ R) as Hp. unfold nova_invalidate_write_entry.
  rewrite (proj2 (Z.eqb_neq e 0) (pmem_nonnull s e 64 Hm Hp)).
  assert (entry_copy nova_file_write_entry e s = Ok (Some (load_bytes (nvmm s) e 64)) s) as Ec.
  { unfold entry_copy. rewrite Hmeta. cbn [Z.eqb]. change (Z.to_nat (sizeof nova_file_write_entry)) with 64%nat.
    unfold bind, pload_bytes. by rewrite Hp. }
  rewrite (bind_ok _ _ _ _ _ Ec). destruct (_ && _); [by exists 0, s|].
  destruct (reassign_mark_run s e Hm Hp) as (r & s' & E & A).
  { rewrite (wr_inv _ _ _ _ _ _ _ _ R), (wr_num _ _ _ _ _ _ _ _ R). congruence. }
  exists r, s'. split; [done|]. apply (agree_sub W [e]); [|done].
  intros x ->%list_elem_of_singleton. apply (wr_in _ _ _ _ _ _ _ _ R).
Qed.

(** Retiring runs of live entries keeps the header and changes marks only. *)
Lemma retire_all_run W ep d sih rs : forall s,
  media_ok s -> Forall (fun r => exists pg n inv size tid, write_rep s W r.1.1 pg n inv size tid /\ n <> inv) rs ->
  exists s', retire_all rs false ep sih d s = Ok (sih, d) s' /\ agree W s s'.
Proof.
  induction rs as [|r rs IH]; intros s Hm F; [by exists s|].
  apply Forall_cons in F as [(pg & n & inv & size & tid & R & Hn) F].
  destruct (invalidate_run s W _ _ _ _ _ _ Hm R Hn) as (rc & s1 & E1 & A1).
  destruct (IH s1 (media_agree W s s1 A1 Hm)) as (s2 & E2 & A2).
  { eapply Forall_impl; [exact F|]. intros r' (pg' & n' & inv' & size' & tid' & R' & Hn').
    exists pg', n', inv', size', tid'. split; [by eapply write_agree|done]. }
  exists s2. split; [|by eapply agree_trans]. cbn [retire_all].
  rewrite (sbind_ok _ _ d s sih d s1); [exact E2|]. unfold retire. rewrite andb_false_r.
  rewrite (sbind_ok _ _ d s sih d s eq_refl). by rewrite (sbind_lift _ _ _ _ _ _ E1).
Qed.

(** ** One entry *)
Definition view (h : info_header) (reb : inode_rebuild) : file_state := (ih_tree h, reb_size reb, reb_trans_id reb).

Lemma put_file_tree T h : put_file (set_tree T (ih_file h)) h = set_ih_tree T h.
Proof. by destruct h. Qed.

Lemma write_field s W e pg n inv size tid f :
  write_rep s W e pg n inv size tid -> 0 <= offsetof nova_file_write_entry f ->
  offsetof nova_file_write_entry f + Z.of_nat (sizeof_field nova_file_write_entry f) <= 64 ->
  entryc_field nova_file_write_entry (InPlace e) f s
    = Ok (load (sizeof_field nova_file_write_entry f) (nvmm s) (e + offsetof nova_file_write_entry f)) s.
Proof. intros R Ho Hn. eapply entry_field; [apply (wr_pmem _ _ _ _ _ _ _ _ R)|done|lia]. Qed.

(** The index part: the entry takes its pages unless all of them are invalid. *)
Lemma assign_entry_run s W h d e pg n inv size tid :
  media_ok s -> write_rep s W e pg n inv size tid -> index_ok s W (ih_tree h) ->
  exists s', (if negb (n =? inv) then
      do! l := lift (entryc_bytes (InPlace e) 0 (Z.to_nat (sizeof nova_file_write_entry))) in
      do! r := nova_assign_write_entry (ih_file h) e l false in
      sret (put_file r.2 h)
    else sret h) d s = Ok (set_ih_tree (if n =? inv then ih_tree h else fill (Z.to_nat n) pg e (ih_tree h)) h, d) s' /\ agree W s s'.
Proof.
  intros Hm R X. destruct (Z.eqb_spec n inv) as [->|Hn]; cbn [negb].
  { exists s. split; [|done]. unfold sret, ret. by destruct h. }
  pose proof (wr_range _ _ _ _ _ _ _ _ R) as (R1 & R2 & R3). pose proof (wr_pmem _ _ _ _ _ _ _ _ R) as Hp.
  change (Z.to_nat (sizeof nova_file_write_entry)) with 64%nat. set (l := load_bytes (nvmm s) (e + 0) 64).
  rewrite (sbind_lift _ _ _ _ _ _ (inplace_bytes s e 0 64 64 Hp ltac:(lia) ltac:(lia))). fold l.
  assert (forall f v, (Z.to_nat (offsetof nova_file_write_entry f) + sizeof_field nova_file_write_entry f <= 64)%nat ->
    load (sizeof_field nova_file_write_entry f) (nvmm s) (e + Z.of_nat (Z.to_nat (offsetof nova_file_write_entry f))) = v ->
    wfield f l = v) as Wf.
  { intros f v Hf <-. unfold wfield, buf_field, l. rewrite Z.add_0_r. by apply load_slice. }
  assert (wfield "pgoff" l = pg) as E1 by (apply Wf; [vm_compute; lia|apply (wr_pgoff _ _ _ _ _ _ _ _ R)]).
  assert (wfield "num_pages" l = n) as E2 by (apply Wf; [vm_compute; lia|apply (wr_num _ _ _ _ _ _ _ _ R)]).
  pose proof (assign_run Hradix (ih_file h) e l false) as A. cbv zeta in A. rewrite E1, E2 in A.
  specialize (A R1 R2 R3 d s).
  destruct (retire_all_run W (wfield "epoch_id" l) d (ih_file h) (all_runs (Z.to_nat n) pg (ih_tree h) (0, 0, 0)) s Hm)
    as (s' & E' & A').
  { eapply Forall_impl; [apply all_runs_in|]. intros r (_ & q & Hq). destruct (X _ _ Hq) as (pg' & n' & inv' & size' & tid' & R' & _ & Hn').
    by exists pg', n', inv', size', tid'. }
  exists s'. split; [|done]. cbn [ih_file ft_tree] in A. rewrite (sbind_ok _ _ _ _ _ _ _ E') in A.
  rewrite (sbind_ok _ _ _ _ _ _ _ A). cbn [snd]. by rewrite put_file_tree.
Qed.

Lemma handle_write_run bits s W h reb d e pg n inv size tid :
  media_ok s -> write_rep s W e pg n inv size tid -> index_ok s W (ih_tree h) ->
  exists h' reb' s', nova_rebuild_handle_write_entry h reb e (InPlace e) d s = Ok (h', reb', d) s' /\ agree W s s' /\
    ih_base h' = ih_base h /\ view h' reb' = replay_file_item bits (FWrite e pg n inv size tid) (view h reb) /\
    index_ok s' W (ih_tree h').
Proof.
  intros Hm R X. destruct (assign_entry_run s W h d e pg n inv size tid Hm R X) as (s' & E & A).
  pose proof (write_agree W s s' _ _ _ _ _ _ A R) as R'. unfold nova_rebuild_handle_write_entry.
  rewrite (sbind_lift _ _ _ _ _ _ (write_field _ _ _ _ _ _ _ _ "num_pages" R ltac:(done) ltac:(done))).
  rewrite (sbind_lift _ _ _ _ _ _ (write_field _ _ _ _ _ _ _ _ "invalid_pages" R ltac:(done) ltac:(done))).
  change (load (sizeof_field nova_file_write_entry "num_pages") (nvmm s) (e + offsetof nova_file_write_entry "num_pages"))
    with (load 4 (nvmm s) (e + 4)). rewrite (wr_num _ _ _ _ _ _ _ _ R).
  change (load (sizeof_field nova_file_write_entry "invalid_pages") (nvmm s) (e + offsetof nova_file_write_entry "invalid_pages"))
    with (load 4 (nvmm s) (e + 24)). rewrite (wr_inv _ _ _ _ _ _ _ _ R).
  rewrite (sbind_ok _ _ _ _ _ _ _ E). set (T' := if n =? inv then ih_tree h else _) in *.
  rewrite (sbind_lift _ _ _ _ _ _ (write_field _ _ _ _ _ _ _ _ "trans_id" R' ltac:(done) ltac:(done))).
  change (load (sizeof_field nova_file_write_entry "trans_id") (nvmm s') (e + offsetof nova_file_write_entry "trans_id"))
    with (load 8 (nvmm s') (e + 48)). rewrite (wr_tid _ _ _ _ _ _ _ _ R').
  set (reb' := if reb_trans_id reb <=? tid
    then set_reb_trans_id tid (nova_rebuild_file_time_and_size (load 4 (nvmm s') (e + 28)) (load 4 (nvmm s') (e + 28)) size reb) else reb).
  rewrite (sbind_ok _ _ d s' reb' d s').
  2:{ unfold reb'. destruct (reb_trans_id reb <=? tid); [|done].
      rewrite (sbind_lift _ _ _ _ _ _ (write_field _ _ _ _ _ _ _ _ "mtime" R' ltac:(done) ltac:(done))).
      rewrite (sbind_lift _ _ _ _ _ _ (write_field _ _ _ _ _ _ _ _ "size" R' ltac:(done) ltac:(done))).
      change (load (sizeof_field nova_file_write_entry "size") (nvmm s') (e + offsetof nova_file_write_entry "size"))
        with (load 8 (nvmm s') (e + 32)). by rewrite (wr_size _ _ _ _ _ _ _ _ R'). }
  rewrite (sbind_lift _ _ _ _ _ _ (write_field _ _ _ _ _ _ _ _ "updating" R' ltac:(done) ltac:(done))).
  change (load (sizeof_field nova_file_write_entry "updating") (nvmm s') (e + offsetof nova_file_write_entry "updating"))
    with (load 1 (nvmm s') (e + 2)). rewrite (wr_upd _ _ _ _ _ _ _ _ R'). cbn [Z.eqb negb].
  rewrite (sbind_ok _ _ d s' tt d s' eq_refl).
  exists (set_ih_i_size (reb_size reb') (set_ih_tree T' h)), reb', s'. split_and!; [done|done|done|..].
  - unfold view, replay_file_item, newer, reb'. cbn [ih_tree set_ih_i_size set_ih_tree fst snd]. fold T'.
    by destruct (reb_trans_id reb <=? tid).
  - cbn [ih_tree set_ih_i_size set_ih_tree]. apply (index_agree W s s'); [done|]. unfold T'.
    destruct (Z.eqb_spec n inv); [done|]. by eapply index_fill.
Qed.

(** Dropping the pages behind a new end of file. *)
Lemma truncate_run s W h d b :
  media_ok s -> index_ok s W (ih_tree h) -> 0 <= b ->
  nova_delete_file_tree (ih_file h) b false false 0 d s = Ok (0, set_tree (before b (ih_tree h)) (ih_file h), d) s.
Proof.
  intros Hm X Hb. apply (delete_file_tree_run s d (ih_file h) b false 0); [done|..]; intros k e E;
    destruct (X k e E) as (pg & n & inv & size & tid & R & Hk & Hn); pose proof (wr_range _ _ _ _ _ _ _ _ R) as (R1 & R2 & R3).
  - split; [lia|]. eapply pmem_nonnull; [exact Hm|apply R].
  - intros _. exists pg. split; [|lia]. unfold next_entry_pgoff. rewrite Hmeta. cbn [Z.eqb].
    unfold pload_field. change (sizeof_field nova_file_write_entry "pgoff") with 8%nat.
    change (field_addr nova_file_write_entry e "pgoff") with (e + 16). unfold bind, pload.
    rewrite (in_pmem_sub s e 64 (e + 16) 8 (wr_pmem _ _ _ _ _ _ _ _ R)) by lia. by rewrite (wr_pgoff _ _ _ _ _ _ _ _ R).
Qed.

Lemma attr_field s e f :
  in_pmem s e 56 = true -> 0 <= offsetof nova_setattr_logentry f ->
  offsetof nova_setattr_logentry f + Z.of_nat (sizeof_field nova_setattr_logentry f) <= 56 ->
  entryc_field nova_setattr_logentry (InPlace e) f s
    = Ok (load (sizeof_field nova_setattr_logentry f) (nvmm s) (e + offsetof nova_setattr_logentry f)) s.
Proof. intros Hp F1 F2. by eapply entry_field. Qed.

Lemma first_block_nonneg bits size : 0 <= first_block bits size.
Proof. unfold first_block. apply Z.shiftr_nonneg. apply uwrap_range. lia. Qed.

Lemma apply_setattr_run s W d e reb h size :
  media_ok s -> index_ok s W (ih_tree h) -> in_pmem s e 56 = true ->
  load 1 (nvmm s) e = entry_type_val SET_ATTR -> load 8 (nvmm s) (e + 24) = size ->
  let bits := nova_inode_blk_shift (i_blk_type (ih_base h)) in
  exists reb', nova_apply_setattr_entry reb h (InPlace e) d s
    = Ok (reb', set_ih_tree (if S_ISREG (load 2 (nvmm s) (e + 2)) then before (first_block bits size) (ih_tree h) else ih_tree h) h, d) s /\
    reb_size reb' = reb_size reb /\ reb_trans_id reb' = reb_trans_id reb.
Proof.
  intros Hm X Hp Ht Hs bits. unfold nova_apply_setattr_entry. fold bits.
  rewrite (sbind_lift _ _ _ _ _ _ (attr_field s e "entry_type" Hp ltac:(done) ltac:(done))).
  change (load (sizeof_field nova_setattr_logentry "entry_type") (nvmm s) (e + offsetof nova_setattr_logentry "entry_type"))
    with (load 1 (nvmm s) (e + 0)). rewrite Z.add_0_r, Ht. cbn [Z.eqb negb entry_type_val Pos.eqb].
  rewrite (sbind_lift _ _ _ _ _ _ (attr_field s e "mode" Hp ltac:(done) ltac:(done))).
  rewrite (sbind_lift _ _ _ _ _ _ (attr_field s e "uid" Hp ltac:(done) ltac:(done))).
  rewrite (sbind_lift _ _ _ _ _ _ (attr_field s e "gid" Hp ltac:(done) ltac:(done))).
  rewrite (sbind_lift _ _ _ _ _ _ (attr_field s e "atime" Hp ltac:(done) ltac:(done))).
  cbv zeta. cbn [reb_mode reb_attrs]. change (sizeof_field nova_setattr_logentry "mode") with 2%nat.
  change (offsetof nova_setattr_logentry "mode") with 2. destruct (S_ISREG _).
  - rewrite (sbind_lift _ _ _ _ _ _ (attr_field s e "size" Hp ltac:(done) ltac:(done))).
    change (load (sizeof_field nova_setattr_logentry "size") (nvmm s) (e + offsetof nova_setattr_logentry "size"))
      with (load 8 (nvmm s) (e + 24)). rewrite Hs. fold (first_block bits size).
    rewrite (sbind_ok _ _ _ _ _ _ _ (truncate_run s W h d (first_block bits size) Hm X (first_block_nonneg _ _))).
    cbn [snd]. rewrite put_file_tree. eexists. split; [reflexivity|by split].
  - unfold sret, ret. eexists. split; [by destruct h|by split].
Qed.

Lemma attr_entry_run s W d e reb h q size tid :
  media_ok s -> index_ok s W (ih_tree h) -> in_pmem s e 56 = true ->
  load 1 (nvmm s) e = entry_type_val SET_ATTR -> load 8 (nvmm s) (e + 24) = size -> load 8 (nvmm s) (e + 40) = tid ->
  let bits := nova_inode_blk_shift (i_blk_type (ih_base h)) in
  exists h' reb', file_entry h reb q e (InPlace e) (entry_type_val SET_ATTR) d s = Ok (56, h', reb', d) s /\
    ih_base h' = ih_base h /\
    view h' reb' = replay_file_item bits (FAttr (S_ISREG (load 2 (nvmm s) (e + 2))) size tid) (view h reb) /\
    index_ok s W (ih_tree h').
Proof.
  intros Hm X Hp Ht Hs Hi bits. destruct (apply_setattr_run s W d e reb h size Hm X Hp Ht Hs) as (reb1 & E & E1 & E2). fold bits in E.
  unfold file_entry. change (entry_kind (entry_type_val SET_ATTR)) with (Some SET_ATTR). cbv iota.
  rewrite (sbind_ok _ _ _ _ _ _ _ E). set (T' := if S_ISREG _ then _ else ih_tree h) in *.
  rewrite (sbind_lift _ _ _ _ _ _ (attr_field s e "trans_id" Hp ltac:(done) ltac:(done))).
  change (load (sizeof_field nova_setattr_logentry "trans_id") (nvmm s) (e + offsetof nova_setattr_logentry "trans_id"))
    with (load 8 (nvmm s) (e + 40)). rewrite Hi.
  set (reb' := if reb_trans_id reb1 <=? tid
    then set_reb_trans_id tid (nova_rebuild_file_time_and_size (load 4 (nvmm s) (e + 16)) (load 4 (nvmm s) (e + 20)) size reb1) else reb1).
  rewrite (sbind_ok _ _ d s reb' d s).
  2:{ unfold reb'. destruct (reb_trans_id reb1 <=? tid); [|done].
      rewrite (sbind_lift _ _ _ _ _ _ (attr_field s e "mtime" Hp ltac:(done) ltac:(done))).
      rewrite (sbind_lift _ _ _ _ _ _ (attr_field s e "ctime" Hp ltac:(done) ltac:(done))).
      rewrite (sbind_lift _ _ _ _ _ _ (attr_field s e "size" Hp ltac:(done) ltac:(done))).
      change (load (sizeof_field nova_setattr_logentry "size") (nvmm s) (e + offsetof nova_setattr_logentry "size"))
        with (load 8 (nvmm s) (e + 24)). by rewrite Hs. }
  eexists _, reb'. split_and!; [reflexivity|done|..].
  - unfold view, replay_file_item, newer, reb'. cbn [ih_tree set_ih_i_size set_ih_tree set_ih_last_setattr fst snd]. fold T'.
    rewrite E2. destruct (reb_trans_id reb <=? tid); [done|]. by rewrite E1, E2.
  - cbn [ih_tree set_ih_i_size set_ih_tree set_ih_last_setattr]. unfold T'. destruct (S_ISREG _); [by apply index_before|done].
Qed.

Lemma file_link_run s d e reb h q :
  in_pmem s e 40 = true -> load 1 (nvmm s) e = entry_type_val LINK_CHANGE ->
  exists h' reb', file_entry h reb q e (InPlace e) (entry_type_val LINK_CHANGE) d s = Ok (40, h', reb', d) s /\
    ih_base h' = ih_base h /\ view h' reb' = view h reb /\ ih_tree h' = ih_tree h.
Proof.
  intros Hp Ht. unfold file_entry. change (entry_kind (entry_type_val LINK_CHANGE)) with (Some LINK_CHANGE). cbv iota.
  destruct (apply_link_run s e reb Hp Ht) as (reb' & E & E1 & E2). rewrite (sbind_lift _ _ _ _ _ _ E).
  eexists _, reb'. split_and!; [reflexivity|done| |done]. unfold view. cbn [ih_tree set_ih_last_link_change]. by rewrite E1, E2.
Qed.

(** ** The walk *)
Lemma rebuild_file_loop_run W d t items : forall fuel s p h reb,
  media_ok s -> file_log s W t p items -> (length items <= fuel)%nat ->
  sih_log_tail (ih_base h) = t -> index_ok s W (ih_tree h) ->
  exists h' reb' s', rebuild_file_loop fuel false p h reb d s = Ok (inr t, h', reb', d) s' /\ agree W s s' /\
    ih_base h' = ih_base h /\
    view h' reb' = replay_file (nova_inode_blk_shift (i_blk_type (ih_base h))) items (view h reb).
Proof.
  induction items as [|i items IH]; intros fuel s p h reb Hm Lg Hf Ht X.
  - inversion Lg; subst. exists h, reb, s. destruct fuel; cbn [rebuild_file_loop]; rewrite Z.eqb_refl; done.
  - destruct fuel as [|fuel]; [cbn [length] in Hf; lia|]. cbn [rebuild_file_loop length] in *.
    assert (forall s1 q len h1 reb1, agree W s s1 -> file_log s W t (u64 (q + len)) items -> ih_base h1 = ih_base h ->
      index_ok s1 W (ih_tree h1) ->
      view h1 reb1 = replay_file_item (nova_inode_blk_shift (i_blk_type (ih_base h))) i (view h reb) ->
      exists h' reb' s', rebuild_file_loop fuel false (u64 (q + len)) h1 reb1 d s1 = Ok (inr t, h', reb', d) s' /\ agree W s s' /\
        ih_base h' = ih_base h /\
        view h' reb' = replay_file (nova_inode_blk_shift (i_blk_type (ih_base h))) (i :: items) (view h reb)) as Next.
    { intros s1 q len h1 reb1 A1 L1 B1 X1 V1. destruct (IH fuel s1 (u64 (q + len)) h1 reb1) as (h2 & reb2 & s2 & E2 & A2 & B2 & V2).
      - by eapply media_agree.
      - by eapply file_log_agree.
      - lia.
      - by rewrite B1.
      - done.
      - exists h2, reb2, s2. split_and!; [done|by eapply agree_trans|by rewrite B2|]. rewrite V2, B1, V1. done. }
    inversion Lg as [|p' q pg n inv size tid rest Hne C P R L1|p' q size tid rest Hne C P Hp Ha Hty Hs Hi H0' L1
      |p' q rest Hne C P Hp Ha Hty L1]; subst p' rest; try subst i; rewrite Ht, (proj2 (Z.eqb_neq _ _) Hne);
      destruct (log_cursor_run Hrc s p q h C) as (h1 & Ec & _ & _ & B1 & T1); rewrite (sbind_lift _ _ _ _ _ _ Ec); cbv iota beta;
      rewrite (sbind_lift (gets (fun s => nova_get_block s q)) _ d s (nova_get_block s q) s eq_refl);
      rewrite <- T1 in X; assert (view h1 reb = view h reb) as V1 by (unfold view; by rewrite T1).
    + rewrite (sbind_lift _ _ _ _ _ _ (entry_at_run Hrc Hmeta s _ _ _ (wr_pmem _ _ _ _ _ _ _ _ R) ltac:(lia) (wr_type _ _ _ _ _ _ _ _ R))).
      destruct (handle_write_run (nova_inode_blk_shift (i_blk_type (ih_base h))) s W h1 reb d _ pg n inv size tid Hm R X)
        as (h2 & reb2 & s2 & E2 & A2 & B2 & V2 & X2).
      rewrite (sbind_ok _ _ d s (64, h2, reb2) d s2).
      * apply (Next s2 q 64); [done|done|by rewrite B2|done|by rewrite V2, V1].
      * unfold file_entry. change (entry_kind (entry_type_val FILE_WRITE)) with (Some FILE_WRITE). cbv iota.
        by rewrite (sbind_ok _ _ _ _ _ _ _ E2).
    + rewrite (sbind_lift _ _ _ _ _ _ (entry_at_run Hrc Hmeta s _ _ _ Hp ltac:(lia) Hty)).
      destruct (attr_entry_run s W d _ reb h1 q size tid Hm X Hp Hty Hs Hi) as (h2 & reb2 & E2 & B2 & V2 & X2).
      rewrite (sbind_ok _ _ _ _ _ _ _ E2). apply (Next s q 56); [done|done|by rewrite B2|done|by rewrite V2, V1, B1].
    + rewrite (sbind_lift _ _ _ _ _ _ (entry_at_run Hrc Hmeta s _ _ _ Hp ltac:(lia) Hty)).
      destruct (file_link_run s d _ reb h1 q Hp Hty) as (h2 & reb2 & E2 & B2 & V2 & T2).
      rewrite (sbind_ok _ _ _ _ _ _ _ E2). apply (Next s q 40); [done|done|by rewrite B2|by rewrite T2|by rewrite V2, V1].
Qed.

(** C13: Rebuilding a file from its log gives back its index and
    its size: the walk over the log's pages ends and returns 0; every page then
    belongs to the last entry that wrote it and was not truncated since, as the
    reference replay says, entries whose pages are all invalid aside; the size
    is the one of the latest transaction, and the block count the size in
    blocks.  On the device only the marks of write entries and the inode's
    record are written. *)
Theorem nova_rebuild_file_inode_tree_correct W s d pi pa h items :
  media_ok s -> virt_addr (sbc s) <= pi -> pi + 128 <= virt_addr (sbc s) + initsize (sbc s) ->
  let head := load 8 (nvmm s) (pi + 64) in
  let tail := load 8 (nvmm s) (pi + 72) in
  let link := nova_get_block s (BLOCK_OFF (BLOCK_OFF tail)) + 4088 in
  head <> 0 -> tail <> 0 -> file_log s W tail head items -> (length items <= entry_fuel s)%nat ->
  in_pmem s link 8 = true -> load 8 (nvmm s) link = 0 -> apart W link 8 -> (pi + 120 <= link \/ link + 8 <= pi) ->
  ih_tree h = ∅ ->
  let st := replay_file (nova_inode_blk_shift (load 1 (nvmm s) (pi + 3))) items (∅, load 8 (nvmm s) (pi + 8), 0) in
  exists h' s', nova_rebuild_file_inode_tree false pi pa h d s = Ok (0, h', d) s' /\
    ih_tree h' = st.1.1 /\ ih_i_size h' = st.1.2 /\
    ih_i_blocks h' = blocks_of_size st.1.2 (nova_inode_blk_shift (i_blk_type (ih_base h))) /\
    (forall x, (forall w, w ∈ W -> x <> mark w) -> ~ (pi <= x < pi + 120) -> mget (nvmm s') x = mget (nvmm s) x).
Proof.
  intros Hmo Hlo Hhi head tail link Hh Htl Lg Hf Hl Hl0 Hla Ha Ht st.
  destruct (start_run Hrc s pi h pa) as (reb & h1 & Es & _ & T1 & _ & _ & B1 & B2 & Bt & Z1 & Z2); [apply in_pmem_spec; lia|].
  destruct (rebuild_file_loop_run W d tail items (entry_fuel s) s head h1 reb) as (h2 & reb2 & s2 & E2 & A2 & B3 & V2); [done..| |].
  { rewrite T1, Ht. intros k e. by rewrite lookup_empty. }
  assert (view h2 reb2 = st) as V by (rewrite V2, Bt; unfold view; by rewrite T1, Ht, Z1, Z2).
  destruct (finish_run Hrc Hmeta s2 pi h2 reb2 tail) as (h3 & s3 & m3 & E3 & U3 & F3 & _ & T3 & I3).
  { by eapply media_agree. } { by rewrite (proj1 A2). } { by rewrite (proj1 A2). }
  { by rewrite (agree_block W s s2 _ A2), (agree_pmem W s s2 _ _ A2). }
  { rewrite (agree_block W s s2 _ A2). fold link. by rewrite (agree_load W s s2 link 8 A2 Hla). } { by rewrite (agree_block W s s2 _ A2). }
  exists (set_ih_i_blocks (blocks_of_size (ih_i_size h3) (nova_inode_blk_shift (i_blk_type (ih_base h)))) h3), s3.
  cbn [ih_tree ih_i_size ih_i_blocks set_ih_i_blocks]. rewrite T3, I3. rewrite <- V. cbn [view fst snd].
  split_and!; [|done|done|done|].
  - unfold nova_rebuild_file_inode_tree. rewrite (sbind_lift _ _ _ _ _ _ Es). cbn [Z.eqb negb].
    rewrite (sbind_lift (initialised (Some reb)) _ d s reb s eq_refl). cbv zeta. rewrite B1, B2. fold head tail.
    rewrite (proj2 (Z.eqb_neq _ _) Hh), (proj2 (Z.eqb_neq _ _) Htl). cbn [orb].
    rewrite (sbind_lift (gets entry_fuel) _ d s (entry_fuel s) s eq_refl).
    rewrite (sbind_ok _ _ _ _ _ _ _ E2). cbv iota beta. rewrite (sbind_lift _ _ _ _ _ _ E3). by rewrite I3.
  - intros x Hx Hpi. rewrite (mem_upd_nvmm _ _ _ U3), F3 by done. by apply A2.
Qed.
End file_spec.
