(* ===== verification/Readdir.v ===== *)
(** Listing a directory (dir.c): [nova_readdir].

    [dir_ctx] is struct dir_context: the position, and what was handed to the
    caller so far; the caller's buffer is an interface ([DirSink]), which says
    whether the next name is taken.  The fast listing walks the log, the one for
    a mounted snapshot the tree.
    Each definition translates the C function of the same name.

    The second part says what the fast listing hands to its caller: [live] are
    the entries of a log that are listed, [listing] is made of their names and
    inode numbers. *)

From stdpp Require Import strings.
From S2P Require Import Prelude CInt Crc32c NovaEnv RangeNode Pmem NovaState NovaMonad NovaLib.
From S2P Require Import Balloc NovaLayout PmemOps LogPage RangeLog InodeTable Journal Checksum Parity MetaCsum LogEntry Snapshot SnapshotSpec FileTree DirTree DirTreeSpec Rebuild RebuildSpec.

Local Open Scope nova_scope.
Local Open Scope string_scope.
Local Open Scope list_scope.
Local Open Scope Z_scope.

Definition READDIR_END : Z := 2 ^ 64 - 1.
Definition IF2DT (sif : Z) : Z := Z.shiftr (Z.land sif S_IFMT) 12.

(** A name as it is listed: its bytes, the inode number and the type. *)
Record dirent := mkDirent { dt_name : list Z; dt_ino : Z; dt_type : Z }.

(** Is the name taken, after those that were taken before? *)
Class DirSink := { sink_takes : list dirent -> dirent -> bool }.

Record dir_ctx := mkCtx { ctx_pos : Z; ctx_out : list dirent }.
Definition set_ctx_pos (p : Z) (c : dir_ctx) : dir_ctx := mkCtx p (ctx_out c).

Section readdir.
Context `{NovaEnv, RbLib, MediaLib, DirSink}.

Definition dir_emit (c : dir_ctx) (d : dirent) : bool * dir_ctx :=
  if sink_takes (ctx_out c) d then (true, mkCtx (ctx_pos c) (ctx_out c ++ [d])) else (false, c).

(** ** The tree *)

(** [temp] and what follows it.  An entry without inode number does not advance
    [temp]: the loop never ends. *)
Fixpoint slow_loop (tree : rb_tree) (fuel : nat) (temp : option (ptr * range_node)) (c : dir_ctx) : M (Z * dir_ctx) :=
  match temp with
  | None => ret (0, set_ctx_pos READDIR_END c)
  | Some (p, curr) =>
      match fuel with
      | O => raise FFuel
      | S fuel =>
          let! e := verified_entry (direntry curr) in
          match e with
          | None => ret (- EIO, c)
          | Some entryc =>
              let! name := entryc_name entryc in
              let c := set_ctx_pos (BKDRHash name) c in
              let! ino := entryc_field nova_dentry entryc "ino" in
              if ino =? 0 then slow_loop tree fuel temp c
              else
                let! r := nova_get_inode_address ino 0 0 false false in
                let '(rc, pi_addr) := r in
                if negb (rc =? 0) then ret (rc, set_ctx_pos READDIR_END c)
                else
                  let! child_pi := gets (fun s => nova_get_block s pi_addr) in
                  let! i_mode := pload_field nova_inode child_pi "i_mode" in
                  let '(taken, c) := dir_emit c (mkDirent name ino (IF2DT i_mode)) in
                  if negb taken then ret (0, c)
                  else slow_loop tree fuel (rb_next tree p) c
          end
      end
  end.

Definition nova_readdir_slow_rbtree (h : info_header) (c : dir_ctx) : M (Z * dir_ctx) :=
  let tree := ih_rb_tree h in
  let pos := ctx_pos c in
  let fuel := length (inorder tree) in
  if pos =? 0 then slow_loop tree fuel (rb_first tree) c
  else if pos =? READDIR_END then ret (0, c)
  else
    let temp := match nova_find_range_node tree pos NODE_DIR None with
      | (found, Some (p, curr)) => if (found =? 1) && (pos =? hash curr) then Some (p, curr) else None
      | (_, None) => None
      end in
    slow_loop tree fuel temp c.

Definition nova_readdir_slow (h : info_header) (c : dir_ctx) : M (Z * dir_ctx) := nova_readdir_slow_rbtree h c.

(** ** The log *)

(** The entry that waits to be listed, with the inode it names, and the last
    inode number that was read. *)
Record fast_dir := mkFastDir { fd_prev : option (entryc * Z); fd_ino : Z; fd_pos : Z; fd_ctx : dir_ctx }.

(** [prev_entry && !dir_emit(...)]: [false] when the name is refused. *)
Definition emit_prev (prev : option (entryc * Z)) (ino : Z) (c : dir_ctx) : M (bool * dir_ctx) :=
  match prev with
  | None => ret (true, c)
  | Some (prev_entryc, prev_child_pi) =>
      let! name := entryc_name prev_entryc in
      let! i_mode := pload_field nova_inode prev_child_pi "i_mode" in
      ret (dir_emit c (mkDirent name ino (IF2DT i_mode)))
  end.

(** A directory entry; [inl] is the result of the call. *)
Definition fast_dentry (entryc : entryc) (f : fast_dir) : M (Z * dir_ctx + fast_dir) :=
  let '(mkFastDir prev ino0 pos c) := f in
  let! ino := entryc_field nova_dentry entryc "ino" in
  let! invalid := entryc_field nova_dentry entryc "invalid" in
  let! reassigned := entryc_field nova_dentry entryc "reassigned" in
  if (0 <? ino) && (invalid =? 0) && (reassigned =? 0) then
    let! name := entryc_name entryc in
    let! r := nova_get_inode_address ino 0 0 false false in
    let '(rc, pi_addr) := r in
    if negb (rc =? 0) then ret (inl (rc, set_ctx_pos READDIR_END c))
    else
      let! child_pi := gets (fun s => nova_get_block s pi_addr) in
      let! r := emit_prev prev ino c in
      let '(taken, c) := r in
      if negb taken then ret (inl (0, c))
      else ret (inr (mkFastDir (Some (entryc, child_pi)) ino (BKDRHash name) (set_ctx_pos (BKDRHash name) c)))
  else ret (inr (mkFastDir prev ino0 pos (set_ctx_pos pos c))).

Fixpoint fast_loop (fuel : nat) (log_tail curr_p : Z) (f : fast_dir) : M (Z * dir_ctx + fast_dir) :=
  if curr_p =? log_tail then ret (inr f)
  else
    match fuel with
    | O => raise FFuel
    | S fuel =>
        let! b := goto_next_page curr_p in
        let! curr_p := (if b : bool then next_log_page curr_p else ret curr_p) in
        if curr_p =? 0 then nova_err ;;; raise FBug
        else
          let! addr := gets (fun s => nova_get_block s curr_p) in
          let! type := nova_get_entry_type addr in
          match entry_kind type with
          | Some SET_ATTR => fast_loop fuel log_tail (u64 (curr_p + sizeof nova_setattr_logentry)) f
          | Some LINK_CHANGE => fast_loop fuel log_tail (u64 (curr_p + sizeof nova_link_change_entry)) f
          | Some DIR_LOG =>
              let! e := verified_entry addr in
              match e with
              | None => ret (inl (- EIO, fd_ctx f))
              | Some entryc =>
                  let! de_len := entryc_field nova_dentry entryc "de_len" in
                  let! r := fast_dentry entryc f in
                  match r with
                  | inl r => ret (inl r)
                  | inr f => fast_loop fuel log_tail (u64 (curr_p + de_len)) f
                  end
              end
          | _ => raise FBug
          end
    end.

Definition nova_readdir_fast (h : info_header) (c : dir_ctx) : M (Z * dir_ctx) :=
  let b := ih_base h in
  let! _ := nova_get_inode b in
  if sih_log_head b =? 0 then nova_err ;;; ret (- ENOSPC, c)
  else
    let pos := ctx_pos c in
    let! start := (if pos =? 0 then ret (Some (sih_log_head b))
      else if pos =? READDIR_END then ret None
      else let! p := nova_find_next_dentry_addr (ih_rb_tree h) pos in ret (if p =? 0 then None else Some p)) in
    match start with
    | None => ret (0, c)
    | Some curr_p =>
        let! fuel := gets entry_fuel in
        let! r := fast_loop fuel (sih_log_tail b) curr_p (mkFastDir None 0 pos c) in
        match r with
        | inl r => ret r
        | inr (mkFastDir prev ino _ c) =>
            let! r := emit_prev prev ino c in
            let '(taken, c) := r in
            ret (0, if taken : bool then set_ctx_pos READDIR_END c else c)
        end
    end.

Definition nova_readdir (mount_snapshot : bool) (h : info_header) (c : dir_ctx) : M (Z * dir_ctx) :=
  if mount_snapshot then nova_readdir_slow h c else nova_readdir_fast h c.
End readdir.

(** ** What is listed *)

(** The entry adds a name and is neither invalid nor moved. *)
Definition live_item (s : nova) (i : dir_item) : list (list Z * Z) :=
  match i with
  | IDentry e name ino inv => if (0 <? ino) && negb inv && (load 1 (nvmm s) (e + 2) =? 0) then [(name, ino)] else []
  | IAttr => []
  end.
Definition live (s : nova) (items : list dir_item) : list (list Z * Z) := concat (live_item s <$> items).

(** Each name comes with the inode number of the entry after it, the last one
    with its own; [ty] gives the type of an inode. *)
Fixpoint listing (ty : Z -> Z) (l : list (list Z * Z)) : list dirent :=
  match l with
  | [] => []
  | (name, ino) :: rest =>
      mkDirent name (match rest with [] => ino | (_, next) :: _ => next end) (ty ino) :: listing ty rest
  end.

Lemma listing_names ty l : dt_name <$> listing ty l = l.*1.
Proof. induction l as [|[name ino] l IH]; [done|]. cbn [listing fmap list_fmap]. by rewrite <- IH. Qed.

Section spec.
Context `{NovaEnv, RbLibOk, MediaLib, DirSink}.
Context (Hrc : forall a n, memcpy_mcsafe_rc a n = 0) (Hmeta : metadata_csum = 0).
Context (Htake : forall l d, sink_takes l d = true).

(** The inode [ino] is in the table, at [child], and has type [t]. *)
Definition child_at (s : nova) (ino child t : Z) : Prop :=
  exists pi_addr, nova_get_inode_address ino 0 0 false false s = Ok (0, pi_addr) s /\ child = nova_get_block s pi_addr /\
    in_pmem s (child + 28) 2 = true /\ IF2DT (load 2 (nvmm s) (child + 28)) = t.

Definition children_ok (s : nova) (ty : Z -> Z) (l : list (list Z * Z)) : Prop :=
  forall x, x ∈ l -> exists child, child_at s x.2 child (ty x.2).

(** The entry that waits. *)
Definition waits (s : nova) (ty : Z -> Z) (f : fast_dir) (prev : option (list Z * Z)) : Prop :=
  match prev with
  | None => fd_prev f = None
  | Some (name, ino) => exists e child inv len, fd_prev f = Some (InPlace e, child) /\ fd_ino f = ino /\
      dentry_rep s e name ino inv len /\ child_at s ino child (ty ino)
  end.

Lemma emit_prev_run s ty f prev next :
  waits s ty f prev ->
  emit_prev (fd_prev f) next (fd_ctx f) s = Ok (true, mkCtx (ctx_pos (fd_ctx f))
    (ctx_out (fd_ctx f) ++ match prev with Some (name, ino) => [mkDirent name next (ty ino)] | None => [] end)) s.
Proof.
  destruct prev as [[name ino]|]; cbn [waits].
  - intros (e & child & inv & len & -> & _ & D & pi_addr & _ & _ & Hp & Ht). cbn [emit_prev].
    rewrite (bind_ok _ _ _ _ _ (entryc_name_run s e name ino inv len D)). unfold pload_field.
    change (sizeof_field nova_inode "i_mode") with 2%nat. change (field_addr nova_inode child "i_mode") with (child + 28).
    unfold bind at 1, pload. rewrite Hp. unfold ret, dir_emit. by rewrite Htake, Ht.
  - intros ->. cbn [emit_prev]. unfold ret. rewrite app_nil_r. by destruct (fd_ctx f).
Qed.

(** One directory entry. *)
Lemma fast_dentry_run s ty f prev e name ino inv len :
  waits s ty f prev -> dentry_rep s e name ino inv len -> children_ok s ty (live_item s (IDentry e name ino inv)) ->
  exists f', fast_dentry (InPlace e) f s = Ok (inr f') s /\
    match live_item s (IDentry e name ino inv) with
    | [] => waits s ty f' prev /\ ctx_out (fd_ctx f') = ctx_out (fd_ctx f)
    | _ => waits s ty f' (Some (name, ino)) /\
        ctx_out (fd_ctx f') = ctx_out (fd_ctx f) ++
          match prev with Some (n0, i0) => [mkDirent n0 ino (ty i0)] | None => [] end
    end.
Proof.
  intros W D Ch. unfold fast_dentry. destruct f as [pv ino0 pos c] eqn:Ef.
  rewrite (bind_ok _ _ _ _ _ (dentry_field _ _ _ _ _ _ "ino" D ltac:(done) ltac:(done))).
  rewrite (bind_ok _ _ _ _ _ (dentry_field _ _ _ _ _ _ "invalid" D ltac:(done) ltac:(done))).
  rewrite (bind_ok _ _ _ _ _ (dentry_field _ _ _ _ _ _ "reassigned" D ltac:(done) ltac:(done))).
  change (load (sizeof_field nova_dentry "ino") (nvmm s) (e + offsetof nova_dentry "ino")) with (load 8 (nvmm s) (e + 16)).
  change (load (sizeof_field nova_dentry "invalid") (nvmm s) (e + offsetof nova_dentry "invalid")) with (load 1 (nvmm s) (e + 3)).
  change (load (sizeof_field nova_dentry "reassigned") (nvmm s) (e + offsetof nova_dentry "reassigned")) with (load 1 (nvmm s) (e + 2)).
  rewrite (de_ino _ _ _ _ _ _ D). cbn [live_item] in *.
  assert ((load 1 (nvmm s) (e + 3) =? 0) = negb inv) as -> by (rewrite (de_inval _ _ _ _ _ _ D); by rewrite negb_involutive).
  destruct ((0 <? ino) && negb inv && (load 1 (nvmm s) (e + 2) =? 0)).
  - destruct (Ch (name, ino)) as (child & pi_addr & Ea & -> & Hp & Ht); [by left|]. cbn [snd] in *.
    rewrite (bind_ok _ _ _ _ _ (entryc_name_run s e name ino inv len D)), (bind_ok _ _ _ _ _ Ea). cbn [Z.eqb negb].
    unfold bind at 1, gets. pose proof (emit_prev_run s ty (mkFastDir pv ino0 pos c) prev ino W) as Ee. cbn [fd_prev fd_ctx] in Ee.
    rewrite (bind_ok _ _ _ _ _ Ee). cbn [negb]. eexists. split; [reflexivity|]. split; [|done].
    cbn [waits fd_prev fd_ino]. exists e, (nova_get_block s pi_addr), inv, len. split_and!; [done|done|done|]. by exists pi_addr.
  - eexists. split; [reflexivity|]. split; [|done]. destruct prev as [[n0 i0]|]; done.
Qed.

Lemma readdir_entry_type s e N : in_pmem s e N = true -> (0 < N)%nat -> nova_get_entry_type e s = Ok (load 1 (nvmm s) e) s.
Proof.
  intros Hp HN. unfold nova_get_entry_type.
  by rewrite (bind_ok _ _ _ _ _ (mcsafe_good Hrc e 1 s ltac:(eapply in_pmem_sub; [exact Hp|lia|lia]))).
Qed.

Definition pending (ty : Z -> Z) (prev : option (list Z * Z)) : list dirent :=
  match prev with Some (name, ino) => [mkDirent name ino (ty ino)] | None => [] end.

Lemma listing_prev ty prev name ino l :
  listing ty (option_list prev ++ (name, ino) :: l) =
  match prev with Some (n0, i0) => [mkDirent n0 ino (ty i0)] | None => [] end ++ listing ty ((name, ino) :: l).
Proof. by destruct prev as [[n0 i0]|]. Qed.

Lemma fast_loop_run s ty t items : forall fuel p f prev,
  dir_log s t p items -> (length items <= fuel)%nat -> children_ok s ty (live s items) -> waits s ty f prev ->
  exists f' prev', fast_loop fuel t p f s = Ok (inr f') s /\ waits s ty f' prev' /\
    ctx_out (fd_ctx f') ++ pending ty prev' = ctx_out (fd_ctx f) ++ listing ty (option_list prev ++ live s items).
Proof.
  induction items as [|i items IH]; intros fuel p f prev L Hf Ch W.
  - inversion L; subst. exists f, prev. destruct fuel; cbn [fast_loop]; rewrite Z.eqb_refl; (split_and!; [done|done|]);
      unfold live; cbn; rewrite app_nil_r; destruct prev as [[n0 i0]|]; done.
  - destruct fuel as [|fuel]; [cbn in Hf; lia|]. cbn [length] in Hf. cbn [fast_loop].
    assert (live s (i :: items) = live_item s i ++ live s items) as El by done. rewrite El in Ch |- *.
    assert (children_ok s ty (live_item s i)) as Ch1 by (intros x Hx; apply Ch; set_solver).
    assert (children_ok s ty (live s items)) as Ch2 by (intros x Hx; apply Ch; set_solver).
    assert (forall q (k : Z -> M (Z * dir_ctx + fast_dir)), cursor_at s p q ->
      (let! b := goto_next_page p in let! curr_p := (if b : bool then next_log_page p else ret p) in
       if curr_p =? 0 then nova_err ;;; raise FBug else k curr_p) s = k q s) as Hcur.
    { intros q k C. rewrite (bind_ok _ _ _ _ _ (goto_run Hrc s p q C)). destruct (log_end s p) eqn:E.
      - rewrite (bind_ok _ _ _ _ _ (cursor_next_run Hrc s p q C E)). by rewrite (proj2 (Z.eqb_neq q 0) (ca_null _ _ _ C)).
      - rewrite (ca_here _ _ _ C E). unfold bind, ret. by rewrite (proj2 (Z.eqb_neq q 0) (ca_null _ _ _ C)). }
    inversion L as [|p' q name ino inv len rest Hne C D L' Ep Ei|p' q rest Hne C Hp Ht Hm L' Ep Ei|p' q rest Hne C Hp Ht L' Ep Ei]; subst;
      rewrite (proj2 (Z.eqb_neq p t) Hne), (Hcur q) by done; unfold bind at 1, gets.
    + rewrite (bind_ok _ _ _ _ _ (readdir_entry_type s _ _ (de_pmem _ _ _ _ _ _ D) ltac:(lia))), (de_type _ _ _ _ _ _ D).
      change (entry_kind (entry_type_val DIR_LOG)) with (Some DIR_LOG). cbv iota.
      unfold verified_entry. rewrite Hmeta. cbn [Z.eqb]. unfold bind at 1, ret at 1.
      rewrite (bind_ok _ _ _ _ _ (dentry_field _ _ _ _ _ _ "de_len" D ltac:(done) ltac:(done))).
      change (load (sizeof_field nova_dentry "de_len") (nvmm s) (nova_get_block s q + offsetof nova_dentry "de_len"))
        with (load 2 (nvmm s) (nova_get_block s q + 4)). rewrite (de_rlen _ _ _ _ _ _ D).
      destruct (fast_dentry_run s ty f prev _ name ino inv len W D Ch1) as (f1 & E1 & Hf1). rewrite (bind_ok _ _ _ _ _ E1).
      remember (live_item s (IDentry (nova_get_block s q) name ino inv)) as li eqn:Eli.
      assert (li = [] \/ li = [(name, ino)]) as [->| ->] by (rewrite Eli; cbn [live_item]; destruct (_ && _ && _); auto); destruct Hf1 as [W1 O1].
      * destruct (IH fuel (u64 (q + len)) f1 prev L' ltac:(lia) Ch2 W1) as (f2 & prev2 & E2 & W2 & O2).
        exists f2, prev2. split_and!; [exact E2|done|]. by rewrite O2, O1.
      * destruct (IH fuel (u64 (q + len)) f1 (Some (name, ino)) L' ltac:(lia) Ch2 W1) as (f2 & prev2 & E2 & W2 & O2).
        exists f2, prev2. split_and!; [exact E2|done|]. rewrite O2, O1, <- app_assoc. cbn [option_list app].
        by rewrite listing_prev.
    + rewrite (bind_ok _ _ _ _ _ (readdir_entry_type s _ _ Hp ltac:(lia))), Ht.
      change (entry_kind (entry_type_val SET_ATTR)) with (Some SET_ATTR). cbv iota. apply IH; [done|lia|done|done].
    + rewrite (bind_ok _ _ _ _ _ (readdir_entry_type s _ _ Hp ltac:(lia))), Ht.
      change (entry_kind (entry_type_val LINK_CHANGE)) with (Some LINK_CHANGE). cbv iota. apply IH; [done|lia|done|done].
Qed.

Lemma readdir_fast_run s ty h out items :
  in_pmem s (nova_get_block s (pi_addr (ih_base h))) 120 = true ->
  sih_log_head (ih_base h) <> 0 -> dir_log s (sih_log_tail (ih_base h)) (sih_log_head (ih_base h)) items ->
  (length items <= entry_fuel s)%nat -> children_ok s ty (live s items) ->
  nova_readdir_fast h (mkCtx 0 out) s = Ok (0, mkCtx READDIR_END (out ++ listing ty (live s items))) s.
Proof.
  intros Hp Hh L Hf Ch. unfold nova_readdir_fast.
  assert (nova_get_inode (ih_base h) s = Ok (nova_get_block s (pi_addr (ih_base h))) s) as Ei.
  { unfold nova_get_inode, bind at 1, gets. change (Z.to_nat (sizeof nova_inode)) with 120%nat.
    by rewrite (bind_ok _ _ _ _ _ (mcsafe_good Hrc _ 120 s Hp)). }
  rewrite (bind_ok _ _ _ _ _ Ei), (proj2 (Z.eqb_neq _ 0) Hh). cbn [ctx_pos Z.eqb]. unfold bind at 1, ret at 1, bind at 1, gets.
  destruct (fast_loop_run s ty _ items (entry_fuel s) _ (mkFastDir None 0 0 (mkCtx 0 out)) None L Hf Ch eq_refl)
    as ([pv ino pos c] & prev & E & W & O). rewrite (bind_ok _ _ _ _ _ E). cbn [fd_ctx ctx_out] in O. change (option_list None ++ live s items) with (live s items) in O.
  pose proof (emit_prev_run s ty _ prev ino W) as Ee. cbn [fd_prev fd_ctx] in Ee. rewrite (bind_ok _ _ _ _ _ Ee).
  unfold ret, set_ctx_pos. cbn [ctx_out]. rewrite <- O. do 4 f_equal. destruct prev as [[n0 i0]|]; [|done].
  destruct W as (e & child & inv & len & _ & Ei0 & _). cbn [fd_ino] in Ei0. by subst i0.
Qed.

(** C18: listing a directory from the start with a caller that takes
    everything ends, returns 0 and leaves the end position; it lists the names
    of exactly the entries of the log that add a name and are neither invalid
    nor moved, each once and in the order of the log, with the type of its own
    inode; but each name except the last comes with the inode number of the next
    entry that is listed. *)
Theorem nova_readdir_fast_lists s ty h out items :
  in_pmem s (nova_get_block s (pi_addr (ih_base h))) 120 = true ->
  sih_log_head (ih_base h) <> 0 -> dir_log s (sih_log_tail (ih_base h)) (sih_log_head (ih_base h)) items ->
  (length items <= entry_fuel s)%nat -> children_ok s ty (live s items) ->
  exists l, nova_readdir false h (mkCtx 0 out) s = Ok (0, mkCtx READDIR_END (out ++ l)) s /\
    dt_name <$> l = (live s items).*1 /\ dt_type <$> l = ty <$> (live s items).*2 /\
    dt_ino <$> l = drop 1 (live s items).*2 ++ option_list (last (live s items).*2).
Proof.
  intros Hp Hh L Hf Ch. exists (listing ty (live s items)).
  split_and!; [by apply readdir_fast_run|apply listing_names| |].
  - generalize (live s items). intros l. induction l as [|[n i] l IH]; [done|]. cbn [listing fmap list_fmap]. by rewrite <- IH.
  - generalize (live s items). intros l. induction l as [|[n i] l IH]; [done|]. cbn [listing fmap list_fmap drop].
    rewrite IH. destruct l as [|[n' i'] l]; [done|]. cbn [fmap list_fmap snd drop]. by rewrite last_cons_cons, skipn_O.
Qed.
End spec.
