(* ===== verification/LogGc.v ===== *)
(** Garbage collection of logs (gc.c), and the position of the next entry of a
    log (log.c: [nova_get_append_head]).

    [info_header] is struct nova_inode_info_header.  Fast collection unlinks the
    pages whose entries are all invalid; thorough collection copies the live
    entries to a new chain.  Extending a log collects it, and thorough collection
    asks for the position of the next entry without extending: the position is
    written over [extend], which stands for that call.
    Each definition translates the C function of the same name. *)

From stdpp Require Import strings.
From S2P Require Import Prelude CInt Crc32c NovaEnv RangeNode Pmem NovaState NovaMonad NovaLib.
From S2P Require Import Balloc NovaLayout LogPage RangeLog InodeTable Checksum Parity MetaCsum LogEntry Snapshot FileTree DirTree Rebuild.

Local Open Scope nova_scope.
Local Open Scope string_scope.
Local Open Scope list_scope.
Local Open Scope Z_scope.

(** Assignments to the log pointers of the header. *)
Definition set_log_heads (head alter_head : Z) (h : info_header) : info_header :=
  let b := ih_base h in
  set_ih_base (mkSih (sih_ino b) (pi_addr b) (alter_pi_addr b) (i_blk_type b) head (sih_log_tail b)
    alter_head (sih_alter_log_tail b)) h.
Definition set_log_head (head : Z) (h : info_header) : info_header :=
  set_log_heads head (sih_alter_log_head (ih_base h)) h.
Definition set_alter_log_head (head : Z) (h : info_header) : info_header :=
  set_log_heads (sih_log_head (ih_base h)) head h.

(** [p >> PAGE_SHIFT == q >> PAGE_SHIFT] *)
Definition same_page (p q : Z) : bool := Z.shiftr p PAGE_SHIFT =? Z.shiftr q PAGE_SHIFT.

Section log_gc.
Context `{NovaEnv, RbLib, MediaLib}.

(** ** The position of the next entry *)
Definition end_page (curr_p : Z) : M unit :=
  let! page := gets (fun s => nova_get_block s curr_p) in
  nova_memunlock_block page ;;;
  nova_set_next_page_flag curr_p ;;;
  nova_memlock_block page.

(** The log has to grow before the entry fits. *)
Definition log_full (curr_p size : Z) : M bool :=
  if curr_p =? 0 then ret true
  else if is_last_entry curr_p size then let! next := next_log_page curr_p in ret (next =? 0)
  else ret false.

(** The last step: on to the next page when the entry does not fit. *)
Definition enter_page (curr_p size : Z) : M Z :=
  if is_last_entry curr_p size then end_page curr_p ;;; next_log_page curr_p else ret curr_p.

(** Returns the position, 0 on failure, the header, and whether [*extended] was
    set. *)
Definition append_head (extend : Z -> info_header -> SM (Z * info_header)) (h : info_header)
    (tail size log_id : Z) (thorough_gc : bool) : SM (Z * info_header * bool) :=
  let curr_p := if negb (tail =? 0) then tail
    else if log_id =? MAIN_LOG then sih_log_tail (ih_base h) else sih_alter_log_tail (ih_base h) in
  do! full := lift (log_full curr_p size) in
  if full : bool then
    lift (when (is_last_entry curr_p size) (end_page curr_p)) ,,,
    if negb (log_id =? MAIN_LOG) then sret (0, h, false)
    else
      do! r := (if thorough_gc then
          do! p := lift (nova_append_one_log_page (i_blk_type (ih_base h)) curr_p) in sret (p, h)
        else extend curr_p h) in
      if r.1 =? 0 then sret (0, r.2, thorough_gc)
      else
        do! p := lift (enter_page r.1 size) in
        sret (p, r.2, thorough_gc)
  else
    do! p := lift (enter_page curr_p size) in
    sret (p, h, false).

(** ** Entries and pages that are no longer needed *)

(** The result, and [*length], which keeps the value [length0] when the checksum
    test fails. *)
Definition curr_log_entry_invalid (h : info_header) (curr_p length0 : Z) : M (bool * Z) :=
  let! addr := gets (fun s => nova_get_block s curr_p) in
  let! c := verified_entry addr in
  match c with
  | None => ret (true, length0)
  | Some c =>
      let! type := entryc_type c in
      let fld st f := entryc_field st c f in
      match entry_kind type with
      | Some SET_ATTR =>
          let! invalid := fld nova_setattr_logentry "invalid" in
          ret (negb (invalid =? 0), sizeof nova_setattr_logentry)
      | Some LINK_CHANGE =>
          let! invalid := fld nova_link_change_entry "invalid" in
          ret (negb (invalid =? 0), sizeof nova_link_change_entry)
      | Some FILE_WRITE =>
          let! num := fld nova_file_write_entry "num_pages" in
          let! invalid := fld nova_file_write_entry "invalid_pages" in
          ret (num =? invalid, sizeof nova_file_write_entry)
      | Some DIR_LOG =>
          let! invalid := fld nova_dentry "invalid" in
          let! de_len := fld nova_dentry "de_len" in
          ret (negb (invalid =? 0) && negb (ih_last_dentry h =? curr_p), de_len)
      | Some MMAP_WRITE =>
          let! invalid := fld nova_mmap_entry "invalid" in
          ret (negb (invalid =? 0), sizeof nova_mmap_entry)
      | Some SNAPSHOT_INFO =>
          let! deleted := fld nova_snapshot_info_entry "deleted" in
          ret (negb (deleted =? 0), sizeof nova_snapshot_info_entry)
      | Some NEXT_PAGE | None => ret (true, PAGE_SIZE - ENTRY_LOC curr_p)
      end
  end.

(** The counts of the pages that stay are added up in the header. *)
Definition curr_page_invalid (h : info_header) (page_head : Z) : M (bool * info_header) :=
  let! curr_page := gets (fun s => nova_get_block s page_head) in
  let! r := memcpy_mcsafe (page_tail curr_page) (Z.to_nat (sizeof nova_inode_page_tail)) in
  if negb (r.1 =? 0) then nova_err ;;; ret (false, h)
  else
    let num_entries := buf_field nova_inode_page_tail "num_entries" r.2 in
    let invalid_entries := buf_field nova_inode_page_tail "invalid_entries" r.2 in
    if invalid_entries =? num_entries then ret (true, h)
    else ret (false, set_ih_valid_entries (u64 (ih_valid_entries h + u32 (num_entries - invalid_entries)))
      (set_ih_num_entries (u64 (ih_num_entries h + num_entries)) h)).

Definition free_curr_page (btype curr_page last_page curr_head : Z) : M unit :=
  nova_memunlock_block last_page ;;;
  let! next := pload_field nova_inode_log_page curr_page "next_page" in
  nova_set_next_page_address last_page next true ;;;
  nova_memlock_block last_page ;;;
  let! _ := nova_free_log_blocks btype (nova_get_blocknr curr_head btype) 1 in
  ret tt.

(** ** Entries that moved *)
Fixpoint assign_mmap (items : list vma_item) (curr_p new_curr : Z) : list vma_item :=
  match items with
  | [] => []
  | item :: items =>
      if it_mmap_entry item =? curr_p then mkVmaItem (it_vma item) new_curr :: items
      else item :: assign_mmap items curr_p new_curr
  end.

Definition nova_gc_assign_mmap_entry (h : info_header) (curr_p new_curr : Z) : info_header :=
  set_ih_vmas (assign_mmap (ih_vmas h) curr_p new_curr) h.

Definition nova_gc_assign_snapshot_entry (old_entry curr_p new_curr : Z) : SM unit :=
  do! epoch_id := lift (pload_field nova_snapshot_info_entry old_entry "epoch_id") in
  do! info := sgets (fun d => snapshot_info_tree d !! epoch_id) in
  match info with
  | Some info =>
      if si_snapshot_entry info =? curr_p then
        smodify (fun d => set_snapshot_info_tree
          (<[epoch_id := mkSnapInfo (si_epoch_id info) (si_timestamp info) new_curr (si_lists info)]>
             (snapshot_info_tree d)) d)
      else sret tt
  | None => sret tt
  end.

(** The result is always 0. *)
Definition nova_gc_assign_new_entry (h : info_header) (curr_p new_curr : Z) : SM info_header :=
  do! addr := lift (gets (fun s => nova_get_block s curr_p)) in
  do! type := lift (nova_get_entry_type addr) in
  do! new_addr := lift (gets (fun s => nova_get_block s new_curr)) in
  match entry_kind type with
  | Some SET_ATTR => sret (set_ih_last_setattr new_curr h)
  | Some LINK_CHANGE => sret (set_ih_last_link_change new_curr h)
  | Some MMAP_WRITE => sret (nova_gc_assign_mmap_entry h curr_p new_curr)
  | Some SNAPSHOT_INFO => nova_gc_assign_snapshot_entry addr curr_p new_curr ,,, sret h
  | Some FILE_WRITE =>
      do! tree := lift (nova_gc_assign_file_entry (ih_tree h) addr new_addr) in
      sret (set_ih_tree tree h)
  | Some DIR_LOG =>
      let h := if ih_last_dentry h =? curr_p then set_ih_last_dentry new_curr h else h in
      do! name := lift (entryc_name (InPlace addr)) in
      sret (set_ih_rb_tree (nova_gc_assign_dentry (ih_rb_tree h) name addr new_addr) h)
  | _ => sret h
  end.

(** ** Thorough collection *)

(** The inode's record and its replica after a change of a head pointer. *)
Definition seal_inode (pi : Z) (h : info_header) : M unit :=
  let! _ := nova_update_inode_checksum pi in
  (if negb (metadata_csum =? 0) && negb (alter_pi_addr (ih_base h) =? 0) then
     let! alter_pi := gets (fun s => nova_get_block s (alter_pi_addr (ih_base h))) in
     let! l := pload_bytes (Z.to_nat (sizeof nova_inode)) pi in
     let! _ := memcpy_to_pmem_nocache alter_pi l in ret tt
   else ret tt) ;;;
  nova_memlock_inode pi.

(** A position of 0 is not noticed: the entry is then copied to address NULL. *)
Definition copy_live_entry (h : info_header) (curr_p new_curr length : Z) : SM (Z * info_header * bool) :=
  do! r := append_head (fun _ _ => sraise FBug) h new_curr length MAIN_LOG true in
  let '(new_curr, h, extended) := r in
  do! dst := lift (gets (fun s => nova_get_block s new_curr)) in
  do! src := lift (gets (fun s => nova_get_block s curr_p)) in
  lift (nova_memunlock_block dst) ,,,
  do! l := lift (pload_bytes (Z.to_nat length) src) in
  do! _ := lift (memcpy_to_pmem_nocache dst l) in
  lift (nova_inc_page_num_entries new_curr) ,,,
  lift (nova_memlock_block dst) ,,,
  do! h := nova_gc_assign_new_entry h curr_p new_curr in
  sret (u64 (new_curr + length), h, extended).

Record copy_state := mkCopy {
  cs_curr_p : Z; cs_old_curr_p : Z; cs_new_curr : Z; cs_blocks : Z; cs_h : info_header
}.

(** An entry whose checksum test fails has length 0: the walk does not advance. *)
Fixpoint copy_loop (fuel : nat) (c : copy_state) : SM copy_state :=
  let '(mkCopy curr_p _ new_curr blocks h) := c in
  let tail := sih_log_tail (ih_base h) in
  if curr_p =? tail then sret c
  else
    match fuel with
    | O => sraise FFuel
    | S fuel =>
        let old_curr_p := curr_p in
        do! b := lift (goto_next_page curr_p) in
        do! curr_p := (if b : bool then lift (next_log_page curr_p) else sret curr_p) in
        if same_page curr_p tail then sret (mkCopy curr_p old_curr_p new_curr blocks h)
        else if curr_p =? 0 then lift nova_err ,,, sraise FBug
        else
          do! r := lift (curr_log_entry_invalid h curr_p 0) in
          let '(invalid, length) := r in
          if invalid : bool then copy_loop fuel (mkCopy (u64 (curr_p + length)) old_curr_p new_curr blocks h)
          else
            do! r := copy_live_entry h curr_p new_curr length in
            let '(new_curr, h, extended) := r in
            copy_loop fuel (mkCopy (u64 (curr_p + length)) old_curr_p new_curr
              (if extended : bool then u64 (blocks + 1) else blocks) h)
    end.

(** [curr_page] is unlinked from the tail block, which has to follow it. *)
Definition unlink_old (old_curr_p tail_block : Z) : M unit :=
  let! curr_page := gets (fun s => nova_get_block s (BLOCK_OFF old_curr_p)) in
  let! next := next_log_page old_curr_p in
  if negb (next =? tail_block) then nova_err ;;; raise FBug
  else
    nova_memunlock_block curr_page ;;;
    nova_set_next_page_address curr_page 0 true ;;;
    nova_memlock_block curr_page.

(** Returns [blocks] and the header. *)
Definition nova_inode_log_thorough_gc (pi : Z) (h : info_header) (blocks checked_pages : Z) : SM (Z * info_header) :=
  do! _ := lift (pload_field nova_inode pi "nova_ino") in
  let b := ih_base h in
  let old_head := sih_log_head b in
  if (old_head =? 0) && (sih_log_tail b =? 0) then sret (blocks, h)
  else if same_page old_head (sih_log_tail b) then sret (blocks, h)
  else
    do! r := lift (nova_allocate_inode_log_pages (i_blk_type b) blocks 0 ANY_CPU ALLOC_FROM_HEAD) in
    let '(allocated, new_head) := r in
    if negb (u64 allocated =? blocks) then lift nova_err ,,, sret (blocks, h)
    else
      do! fuel := lift (gets entry_fuel) in
      do! c := copy_loop fuel (mkCopy old_head old_head new_head blocks h) in
      let '(mkCopy _ old_curr_p new_curr blocks h) := c in
      let tail_block := BLOCK_OFF (sih_log_tail (ih_base h)) in
      do! curr_page := lift (gets (fun s => nova_get_block s (BLOCK_OFF new_curr))) in
      do! next := lift (next_log_page new_curr) in
      (if 0 <? next then do! _ := lift (nova_free_contiguous_log_blocks (i_blk_type b) next) in sret tt
       else sret tt) ,,,
      lift (nova_memunlock_block curr_page) ,,,
      lift (nova_set_next_page_flag new_curr) ,,,
      lift (nova_set_next_page_address curr_page tail_block false) ,,,
      lift (nova_memlock_block curr_page) ,,,
      lift (nova_memunlock_inode pi) ,,,
      lift (pstore_field nova_inode pi "log_head" new_head) ,,,
      lift (seal_inode pi h) ,,,
      lift (nova_flush_buffer pi (sizeof nova_inode) true) ,,,
      let h := set_log_head new_head h in
      lift (unlink_old old_curr_p tail_block) ,,,
      do! _ := lift (nova_free_contiguous_log_blocks (i_blk_type b) old_head) in
      sret (blocks, set_ih_log_pages (u64 (ih_log_pages h + blocks - checked_pages)) h).

(** The first loop of [nova_inode_alter_log_thorough_gc]: copies the pages up to
    the tail page; the last page of the copy. *)
Fixpoint copy_pages_loop (fuel : nat) (curr_p new_curr tail : Z) : M Z :=
  let! dst := gets (fun s => nova_get_block s new_curr) in
  let! src := gets (fun s => nova_get_block s curr_p) in
  nova_memunlock_block dst ;;;
  let! l := pload_bytes (Z.to_nat LOG_BLOCK_TAIL) src in
  let! _ := memcpy_to_pmem_nocache dst l in
  nova_set_alter_page_address curr_p new_curr ;;;
  nova_memlock_block dst ;;;
  let! curr_p := next_log_page curr_p in
  if same_page curr_p tail then ret new_curr
  else
    let! new_curr := next_log_page new_curr in
    if curr_p =? 0 then nova_err ;;; raise FBug
    else
      match fuel with
      | O => raise FFuel
      | S fuel => copy_pages_loop fuel curr_p new_curr tail
      end.

(** The second loop: the page before the tail page. *)
Fixpoint page_before (fuel : nat) (alter_curr_p tail : Z) : M Z :=
  let! next := next_log_page alter_curr_p in
  if same_page next tail then ret alter_curr_p
  else if next =? 0 then nova_err ;;; raise FBug
  else
    match fuel with
    | O => raise FFuel
    | S fuel => page_before fuel next tail
    end.

Definition nova_inode_alter_log_thorough_gc (pi : Z) (h : info_header) (blocks checked_pages : Z)
    : M (Z * info_header) :=
  let! _ := pload_field nova_inode pi "nova_ino" in
  let b := ih_base h in
  let alter_old_head := sih_alter_log_head b in
  if (sih_log_head b =? 0) && (sih_log_tail b =? 0) then ret (blocks, h)
  else if same_page (sih_log_head b) (sih_log_tail b) then ret (blocks, h)
  else if same_page alter_old_head (sih_alter_log_tail b) then ret (blocks, h)
  else
    let! r := nova_allocate_inode_log_pages (i_blk_type b) blocks 0 ANY_CPU ALLOC_FROM_TAIL in
    let '(allocated, new_head) := r in
    if negb (u64 allocated =? blocks) then nova_err ;;; ret (blocks, h)
    else
      let! fuel := gets chain_fuel in
      let! new_curr := copy_pages_loop fuel (sih_log_head b) new_head (sih_log_tail b) in
      let alter_tail_block := BLOCK_OFF (sih_alter_log_tail b) in
      let! alter_curr_page := gets (fun s => nova_get_block s (BLOCK_OFF new_curr)) in
      let! alter_next := next_log_page new_curr in
      (if 0 <? alter_next then let! _ := nova_free_contiguous_log_blocks (i_blk_type b) alter_next in ret tt
       else ret tt) ;;;
      nova_memunlock_block alter_curr_page ;;;
      nova_set_next_page_address alter_curr_page alter_tail_block false ;;;
      nova_memlock_block alter_curr_page ;;;
      let! old_alter_curr_p := page_before fuel alter_old_head (sih_alter_log_tail b) in
      nova_memunlock_inode pi ;;;
      pstore_field nova_inode pi "alter_log_head" new_head ;;;
      seal_inode pi h ;;;
      nova_flush_buffer pi (sizeof nova_inode) true ;;;
      let h := set_alter_log_head new_head h in
      unlink_old old_alter_curr_p alter_tail_block ;;;
      let! _ := nova_free_contiguous_log_blocks (i_blk_type b) alter_old_head in
      ret (blocks, set_ih_log_pages (u64 (ih_log_pages h + blocks - checked_pages)) h).

(** ** Fast collection *)
Record fast_state := mkFast {
  fs_curr : Z; fs_alter_curr : Z;
  fs_possible_head : Z; fs_alter_possible_head : Z; fs_found_head : bool;
  fs_last_page : Z; fs_alter_last_page : Z;
  fs_first_need_free : bool;
  fs_checked_pages : Z; fs_freed_pages : Z;
  fs_h : info_header
}.

(** One page that is not the tail page, with its successors. *)
Definition fast_gc_page (f : fast_state) (curr_page alter_curr_page next alter_next : Z) : M fast_state :=
  let '(mkFast curr alter_curr possible_head alter_possible_head found_head last_page alter_last_page
          first_need_free checked_pages freed_pages h) := f in
  let btype := i_blk_type (ih_base h) in
  let! r := curr_page_invalid h curr in
  let '(invalid, h) := r in
  let checked_pages := u64 (checked_pages + 1) in
  if invalid : bool then
    if curr =? sih_log_head (ih_base h) then
      ret (mkFast next alter_next possible_head alter_possible_head found_head curr_page alter_curr_page
        true checked_pages (s32 (freed_pages + 1)) h)
    else
      free_curr_page btype curr_page last_page curr ;;;
      when (negb (metadata_csum =? 0)) (free_curr_page btype alter_curr_page alter_last_page alter_curr) ;;;
      ret (mkFast next alter_next possible_head alter_possible_head found_head last_page alter_last_page
        first_need_free checked_pages (s32 (freed_pages + 1)) h)
  else
    ret (mkFast next alter_next (if found_head then possible_head else curr)
      (if found_head then alter_possible_head else alter_curr) true curr_page alter_curr_page
      first_need_free checked_pages freed_pages h).

(** The tests [next < 0] compare an unsigned value and never hold. *)
Fixpoint fast_gc_loop (fuel : nat) (f : fast_state) : M fast_state :=
  let curr := fs_curr f in
  let alter_curr := fs_alter_curr f in
  if same_page curr (sih_log_tail (ih_base (fs_h f))) then
    ret (if fs_found_head f then f
         else mkFast curr alter_curr curr alter_curr false (fs_last_page f) (fs_alter_last_page f)
           (fs_first_need_free f) (fs_checked_pages f) (fs_freed_pages f) (fs_h f))
  else
    match fuel with
    | O => raise FFuel
    | S fuel =>
        let! curr_page := gets (fun s => nova_get_block s curr) in
        let! next := next_log_page curr in
        let! r := (if negb (metadata_csum =? 0) then
            let! p := gets (fun s => nova_get_block s alter_curr) in
            let! n := next_log_page alter_curr in ret (p, n)
          else ret (0, 0)) in
        let! f := fast_gc_page f curr_page r.1 next r.2 in
        if (fs_curr f =? 0) || (negb (metadata_csum =? 0) && (fs_alter_curr f =? 0)) then ret f
        else fast_gc_loop fuel f
    end.

(** [while (next_log_page(sb, alter_curr) > 0)] *)
Fixpoint last_log_page (fuel : nat) (curr : Z) : M Z :=
  let! next := next_log_page curr in
  if 0 <? next then
    match fuel with
    | O => raise FFuel
    | S fuel => let! next := next_log_page curr in last_log_page fuel next
    end
  else ret curr.

(** The new pages are linked to the page of [curr_tail]. *)
Definition link_new_pages (h : info_header) (curr_tail new_block alter_new_block : Z) : M unit :=
  let! curr_page := gets (fun s => nova_get_block s (BLOCK_OFF curr_tail)) in
  nova_memunlock_block curr_page ;;;
  nova_set_next_page_address curr_page new_block true ;;;
  nova_memlock_block curr_page ;;;
  if negb (metadata_csum =? 0) then
    let! fuel := gets chain_fuel in
    let! alter_curr := last_log_page fuel (BLOCK_OFF (sih_alter_log_tail (ih_base h))) in
    let! alter_curr_page := gets (fun s => nova_get_block s alter_curr) in
    nova_memunlock_block curr_page ;;;
    nova_set_next_page_address alter_curr_page alter_new_block true ;;;
    nova_memlock_block curr_page
  else ret tt.

(** The pages the valid entries would need, rounded up. *)
Definition gc_estimate (h : info_header) (checked_pages : Z) : Z :=
  let n := u64 (ih_valid_entries h * checked_pages) in
  let blocks := n / ih_num_entries h in
  if negb (n mod ih_num_entries h =? 0) then u64 (blocks + 1) else blocks.

(** The first page is released when the head pointer has left it. *)
Definition free_first_page (btype curr alter_curr : Z) : M unit :=
  let! _ := nova_free_log_blocks btype (nova_get_blocknr curr btype) 1 in
  if negb (metadata_csum =? 0) then
    let! _ := nova_free_log_blocks btype (nova_get_blocknr alter_curr btype) 1 in ret tt
  else ret tt.

(** Always 0; returns the header.  The part before the decision about thorough
    collection is [fast_gc_pages], which also returns [checked_pages]. *)
Definition fast_gc_pages (pi : Z) (h : info_header) (curr_tail new_block alter_new_block num_pages : Z)
    : M (info_header * Z) :=
  let b := ih_base h in
  let curr := sih_log_head b in
  let alter_curr := sih_alter_log_head b in
  let h := set_ih_num_entries 0 (set_ih_valid_entries 0 h) in
  let num_logs := if negb (metadata_csum =? 0) then 2 else 1 in
  let! fuel := gets chain_fuel in
  let! f := fast_gc_loop fuel (mkFast curr alter_curr 0 0 false 0 0 false 0 0 h) in
  let h := fs_h f in
  let checked_pages := u64 (fs_checked_pages f - fs_freed_pages f) in
  when (0 <? num_pages) (link_new_pages h curr_tail new_block alter_new_block) ;;;
  nova_memunlock_inode pi ;;;
  pstore_field nova_inode pi "log_head" (fs_possible_head f) ;;;
  pstore_field nova_inode pi "alter_log_head" (fs_alter_possible_head f) ;;;
  seal_inode pi h ;;;
  let h := set_log_heads (fs_possible_head f) (fs_alter_possible_head f) h in
  let h := set_ih_log_pages (u64 (ih_log_pages h + s32 (s32 (num_pages - fs_freed_pages f) * num_logs))) h in
  nova_flush_buffer (field_addr nova_inode pi "log_head") CACHELINE_SIZE true ;;;
  when (fs_first_need_free f) (free_first_page (i_blk_type b) curr alter_curr) ;;;
  ret (h, checked_pages).

Definition nova_inode_log_fast_gc (pi : Z) (h : info_header) (curr_tail new_block alter_new_block num_pages : Z)
    (force_thorough : bool) : SM info_header :=
  do! r := lift (fast_gc_pages pi h curr_tail new_block alter_new_block num_pages) in
  let '(h, checked_pages) := r in
  if ih_num_entries h =? 0 then sret h
  else
    let blocks := gc_estimate h checked_pages in
    if force_thorough || (negb (blocks =? 0) && (u64 (blocks * 2) <? checked_pages)) then
      do! r := nova_inode_log_thorough_gc pi h blocks checked_pages in
      let '(blocks, h) := r in
      if negb (metadata_csum =? 0) then
        do! r := lift (nova_inode_alter_log_thorough_gc pi h blocks checked_pages) in sret r.2
      else sret h
    else sret h.
End log_gc.
