(* ===== verification/LogAppend.v ===== *)
(** Appending entries to a log (log.c) and the directory operations on top of it
    (dir.c: adding and removing a name).

    [inode_update] is struct nova_inode_update, where an operation collects the
    new tail before it is published.  [vfs_inode] holds the fields of struct inode
    that entries record; a NULL inode is any value, which the entry does not use.
    Each definition translates the C function of the same name. *)

From stdpp Require Import strings.
From S2P Require Import Prelude CInt Crc32c NovaEnv RangeNode Pmem NovaState NovaMonad NovaLib.
From S2P Require Import Balloc NovaLayout LogPage RangeLog InodeTable Journal Checksum Parity MetaCsum LogEntry Snapshot FileTree DirTree Rebuild LogGc.

Local Open Scope nova_scope.
Local Open Scope string_scope.
Local Open Scope list_scope.
Local Open Scope Z_scope.

Definition EXTEND_THRESHOLD : Z := 256.
Definition ATTR_MODE : Z := 1.

Record inode_update := mkUpdate {
  up_tail : Z; up_alter_tail : Z; up_curr_entry : Z; up_alter_entry : Z;
  up_create_dentry : Z; up_delete_dentry : Z
}.
Definition up_main (curr_p size : Z) (u : inode_update) : inode_update :=
  mkUpdate (u64 (curr_p + size)) (up_alter_tail u) curr_p (up_alter_entry u) (up_create_dentry u) (up_delete_dentry u).
Definition up_alter (curr_p size : Z) (u : inode_update) : inode_update :=
  mkUpdate (up_tail u) (u64 (curr_p + size)) (up_curr_entry u) curr_p (up_create_dentry u) (up_delete_dentry u).
Definition up_tails (tail alter_tail : Z) (u : inode_update) : inode_update :=
  mkUpdate tail alter_tail (up_curr_entry u) (up_alter_entry u) (up_create_dentry u) (up_delete_dentry u).
Definition up_dentries (create delete : Z) (u : inode_update) : inode_update :=
  mkUpdate (up_tail u) (up_alter_tail u) (up_curr_entry u) (up_alter_entry u) create delete.

(** The part of the header [LogEntry] works on. *)
Definition ih_log (h : info_header) : sih_log :=
  mkSihLog (ih_last_setattr h) (ih_last_link_change h) (ih_trans_id h) (ih_i_flags h).

Section log_append.
Context `{NovaEnv, RbLib, MediaLib, ParityEnv}.

(** ** Growing a log *)

(** The first page of each log. *)
Definition init_logs (pi : Z) (h : info_header) : M (Z * info_header) :=
  let! r := nova_initialize_inode_log pi (ih_base h) (ih_log_pages h) MAIN_LOG in
  let '(rc, b, pages) := r in
  let h := set_ih_log_pages pages (set_ih_base b h) in
  if negb (rc =? 0) then ret (0, h)
  else
    let! r := (if negb (metadata_csum =? 0) then
        let! r := nova_initialize_inode_log pi (ih_base h) (ih_log_pages h) ALTER_LOG in
        let '(rc, b, pages) := r in
        let h := set_ih_log_pages pages (set_ih_base b h) in
        if negb (rc =? 0) then ret (false, h)
        else
          nova_memunlock_inode pi ;;;
          let! _ := nova_update_alter_pages (sih_log_head b) (sih_alter_log_head b) in
          nova_memlock_inode pi ;;;
          ret (true, h)
      else ret (true, h)) in
    if negb r.1 then ret (0, r.2)
    else
      nova_memunlock_inode pi ;;;
      let! _ := nova_update_inode_checksum pi in
      nova_memlock_inode pi ;;;
      ret (sih_log_head (ih_base r.2), r.2).

(** Returns the new page, 0 on failure.  [allocated] is the count of the
    alternate pages when there are any. *)
Definition nova_extend_inode_log (pi curr_p : Z) (h : info_header) : SM (Z * info_header) :=
  if curr_p =? 0 then lift (init_logs pi h)
  else
    let btype := i_blk_type (ih_base h) in
    let num_pages := if EXTEND_THRESHOLD <=? ih_log_pages h then EXTEND_THRESHOLD else ih_log_pages h in
    do! r := lift (nova_allocate_inode_log_pages btype num_pages 0 ANY_CPU ALLOC_FROM_HEAD) in
    let '(allocated, new_block) := r in
    if allocated <=? 0 then lift nova_err ,,, sret (0, h)
    else
      do! r := (if negb (metadata_csum =? 0) then
          do! r := lift (nova_allocate_inode_log_pages btype num_pages 0 ANY_CPU ALLOC_FROM_TAIL) in
          let '(allocated, alter_new_block) := r in
          if allocated <=? 0 then lift nova_err ,,, sret (None, 0)
          else
            lift (nova_memunlock_inode pi) ,,,
            do! _ := lift (nova_update_alter_pages new_block alter_new_block) in
            lift (nova_memlock_inode pi) ,,,
            sret (Some allocated, alter_new_block)
        else sret (Some allocated, 0)) in
      match r with
      | (None, _) => sret (0, h)
      | (Some allocated, alter_new_block) =>
          do! h := nova_inode_log_fast_gc pi h curr_p new_block alter_new_block allocated false in
          sret (new_block, h)
      end.

Definition nova_get_append_head (pi : Z) (h : info_header) (tail size log_id : Z) (thorough_gc : bool)
    : SM (Z * info_header * bool) :=
  append_head (nova_extend_inode_log pi) h tail size log_id thorough_gc.

(** ** Appending an entry *)

(** The entry at [curr_p] of one log. *)
Definition fill_entry (h : info_header) (inode : vfs_inode) (curr_p size : Z) (info : nova_log_entry_info)
    (count : bool) : M unit :=
  let! entry := gets (fun s => nova_get_block s curr_p) in
  nova_memunlock_range entry size ;;;
  pstore_bytes EvStore entry (replicate (Z.to_nat size) 0) ;;;
  let! _ := nova_update_log_entry (ih_i_flags h) inode entry info in
  when count (nova_inc_page_num_entries curr_p) ;;;
  nova_memlock_range entry size.

(** Returns the result, the header, the update, and [entry_info->curr_p], which
    keeps the value [curr_p0] on failure. *)
Definition nova_append_log_entry (pi : Z) (inode : vfs_inode) (h : info_header) (info : nova_log_entry_info)
    (update : inode_update) (curr_p0 : Z) : SM (Z * info_header * inode_update * Z) :=
  let size := match ei_type info with
    | DIR_LOG => ei_file_size info
    | type => nova_get_log_entry_size type
    end in
  do! r := nova_get_append_head pi h (up_tail update) size MAIN_LOG false in
  let '(curr_p, h, _) := r in
  if curr_p =? 0 then sret (- ENOSPC, h, update, curr_p0)
  else
    lift (fill_entry h inode curr_p size info true) ,,,
    let update1 := up_main curr_p size update in
    if negb (metadata_csum =? 0) then
      do! r := nova_get_append_head pi h (up_alter_tail update) size ALTER_LOG false in
      let '(alter_curr_p, h, _) := r in
      if alter_curr_p =? 0 then sret (- ENOSPC, h, update1, curr_p0)
      else
        lift (fill_entry h inode alter_curr_p size info false) ,,,
        sret (0, h, up_alter alter_curr_p size update1, curr_p)
    else sret (0, h, update1, curr_p).

(** [nova_check_inode_integrity(..., 0) < 0] *)
Definition inode_unsound (h : info_header) : M bool :=
  let! r := nova_check_inode_integrity (pi_addr (ih_base h)) (alter_pi_addr (ih_base h)) false in
  ret (r.1 <? 0).

Definition fail_if (rc : Z) : SM unit := if negb (rc =? 0) then lift nova_err else sret tt.

(** Returns the result, the header, the update and [*last_setattr]. *)
Definition nova_append_setattr_entry (pi : Z) (inode : vfs_inode) (h : info_header) (attr : iattr)
    (update : inode_update) (last_setattr0 epoch_id : Z) : SM (Z * info_header * inode_update * Z) :=
  do! bad := lift (inode_unsound h) in
  if bad : bool then sret (- EIO, h, update, last_setattr0)
  else
    do! r := nova_append_log_entry pi inode h (setattr_info attr epoch_id (ih_trans_id h)) update 0 in
    let '(rc, h, update, curr_p) := r in
    if negb (rc =? 0) then lift nova_err ,,, sret (rc, h, update, last_setattr0)
    else sret (0, set_ih_last_setattr curr_p h, update, ih_last_setattr h).

(** [ia_valid] is a parameter beside [attr->ia_valid]; returns the result and
    the header. *)
Definition nova_handle_setattr_operation (inode : vfs_inode) (pi valid : Z) (h : info_header) (attr : iattr)
    (epoch_id : Z) : SM (Z * info_header) :=
  let h := if negb (Z.land valid ATTR_MODE =? 0) then set_ih_i_mode (vi_mode inode) h else h in
  do! inplace := (if Z.land valid ATTR_SIZE =? 0 then lift (nova_can_inplace_update_setattr (ih_log h) epoch_id)
    else sret false) in
  do! r := (if inplace : bool then
      do! _ := lift (nova_inplace_update_setattr_entry inode (ih_log h) attr epoch_id) in sret (0, h, 0)
    else
      do! r := nova_append_setattr_entry pi inode h attr (mkUpdate 0 0 0 0 0 0) 0 epoch_id in
      let '(rc, h, update, last_setattr) := r in
      if negb (rc =? 0) then sret (rc, h, 0)
      else
        lift (nova_memunlock_inode pi) ,,,
        do! b := lift (nova_update_inode (ih_base h) pi (up_tail update) (up_alter_tail update) true) in
        lift (nova_memlock_inode pi) ,,,
        sret (0, set_ih_base b h, last_setattr)) in
  let '(rc, h, last_setattr) := r in
  if negb (rc =? 0) then sret (rc, h)
  else
    (if negb (last_setattr =? 0) then do! _ := lift (nova_invalidate_setattr_entry last_setattr) in sret tt
     else sret tt) ,,,
    sret (0, h).

(** In-place update of link changes is switched off. *)
Definition nova_can_inplace_update_lcentry : bool := false.

(** Returns the result, the header, the update and [*old_linkc]. *)
Definition nova_append_link_change_entry (pi : Z) (inode : vfs_inode) (h : info_header) (update : inode_update)
    (old_linkc0 epoch_id : Z) : SM (Z * info_header * inode_update * Z) :=
  do! bad := lift (inode_unsound h) in
  if bad : bool then sret (- EIO, h, update, old_linkc0)
  else if nova_can_inplace_update_lcentry then
    do! _ := lift (nova_inplace_update_lcentry inode (ih_log h) epoch_id) in
    sret (0, set_ih_trans_id (u64 (ih_trans_id h + 1)) h,
      up_tails (sih_log_tail (ih_base h)) (sih_alter_log_tail (ih_base h)) update, 0)
  else
    do! r := nova_append_log_entry pi inode h (linkc_info epoch_id (ih_trans_id h)) update 0 in
    let '(rc, h, update, curr_p) := r in
    if negb (rc =? 0) then lift nova_err ,,, sret (rc, h, update, old_linkc0)
    else sret (0, set_ih_trans_id (u64 (ih_trans_id h + 1)) (set_ih_last_link_change curr_p h), update,
      ih_last_link_change h).

(** [nova_update_entry_csum] on an entry in DRAM: its lines are not part of the
    device, only the fence is recorded. *)
Definition set_buf_field (st : struct) (f : string) (v : Z) (l : list Z) : list Z :=
  let off := Z.to_nat (offsetof st f) in
  take off l ++ le_bytes (sizeof_field st f) v ++ drop (off + sizeof_field st f) l.
Definition update_data_csum (data : list Z) : M (list Z) :=
  if metadata_csum =? 0 then PERSISTENT_BARRIER ;;; ret data
  else
    let! b := buf_read 1 data in
    let! csum := nova_calc_entry_csum (read_buf data) (le_val b) in
    match entry_kind (le_val b) with
    | None => ret data
    | Some t =>
        let! entry_len := (match t with
          | DIR_LOG => ret (buf_field nova_dentry "de_len" data)
          | _ => ret (sizeof (entry_struct t))
          end) in
        when (0 <? entry_len) PERSISTENT_BARRIER ;;;
        ret (set_buf_field (entry_struct t) "csum" csum data)
    end.

(** An entry that is copied from DRAM; the fields that are left out are not read
    for such an entry. *)
Definition data_info (type : nova_entry_type) (data : list Z) : nova_log_entry_info :=
  mkEntryInfo type (mkAttr 0 0) data (buf_field (entry_struct type) "epoch_id" data)
    (match type with FILE_WRITE => buf_field nova_file_write_entry "trans_id" data | _ => 0 end) 0 0 0 0 false.

(** [data] is an entry of its type; returns the result, the header and the
    update. *)
Definition nova_append_file_write_entry (pi : Z) (inode : vfs_inode) (h : info_header) (data : list Z)
    (update : inode_update) : SM (Z * info_header * inode_update) :=
  do! data := lift (update_data_csum data) in
  do! r := nova_append_log_entry pi inode h (data_info FILE_WRITE data) update 0 in
  let '(rc, h, update, _) := r in
  fail_if rc ,,, sret (rc, h, update).

(** Returns also [item->mmap_entry], [None] when it is left alone; after a
    failure it is the uninitialised [curr_p0]. *)
Definition nova_append_mmap_entry (pi : Z) (inode : vfs_inode) (h : info_header) (data : list Z)
    (update : inode_update) (curr_p0 : Z) : SM (Z * info_header * inode_update * option Z) :=
  do! data := lift (update_data_csum data) in
  do! bad := lift (inode_unsound h) in
  if bad : bool then sret (- EIO, h, update, None)
  else
    do! r := nova_append_log_entry pi inode h (data_info MMAP_WRITE data) update curr_p0 in
    let '(rc, h, update, curr_p) := r in
    fail_if rc ,,, sret (rc, h, update, Some curr_p).

(** The same for [info->snapshot_entry]. *)
Definition nova_append_snapshot_info_entry (pi : Z) (no_inode : vfs_inode) (h : info_header) (data : list Z)
    (update : inode_update) (curr_p0 : Z) : SM (Z * info_header * inode_update * option Z) :=
  do! data := lift (update_data_csum data) in
  do! bad := lift (inode_unsound h) in
  if bad : bool then sret (- EIO, h, update, None)
  else
    do! r := nova_append_log_entry pi no_inode h (data_info SNAPSHOT_INFO data) update curr_p0 in
    let '(rc, h, update, curr_p) := r in
    fail_if rc ,,, sret (rc, h, update, Some curr_p).

(** Returns also the directory's VFS inode. *)
Definition set_vi_blocks (b : Z) (v : vfs_inode) : vfs_inode :=
  mkInode (vi_mode v) (vi_uid v) (vi_gid v) (vi_atime v) (vi_mtime v) (vi_ctime v) (vi_size v) (vi_nlink v) (vi_generation v) b.

Definition nova_append_dentry (pi : Z) (dir : vfs_inode) (h : info_header) (name : list Z) (ino de_len : Z)
    (update : inode_update) (link_change epoch_id : Z) : SM (Z * vfs_inode * info_header * inode_update) :=
  do! bad := lift (inode_unsound h) in
  if bad : bool then sret (- EIO, dir, h, update)
  else
    do! r := nova_append_log_entry pi dir h
      (mkEntryInfo DIR_LOG (mkAttr 0 0) name epoch_id (ih_trans_id h) ino 0 de_len link_change false) update 0 in
    let '(rc, h, update, _) := r in
    fail_if rc ,,, sret (rc, set_vi_blocks (ih_i_blocks h) dir, h, update).

(** ** Names of a directory (dir.c) *)
Definition set_dir_times (now : Z) (v : vfs_inode) : vfs_inode :=
  mkInode (vi_mode v) (vi_uid v) (vi_gid v) (vi_atime v) now now (vi_size v) (vi_nlink v) (vi_generation v) (vi_blocks v).

(** [now] is [current_time(dir)]. *)
Definition nova_add_dentry (dir : vfs_inode) (h : info_header) (name : list Z) (ino inc_link now : Z)
    (update : inode_update) (epoch_id : Z) : SM (Z * vfs_inode * info_header * inode_update) :=
  if (Z.of_nat (length name) =? 0) then sret (- EINVAL, dir, h, update)
  else
    do! pidir := lift (nova_get_inode (ih_base h)) in
    let dir := set_dir_times now dir in
    let loglen := uwrap 16 (NOVA_DIR_LOG_REC_LEN (Z.of_nat (length name))) in
    do! r := nova_append_dentry pidir dir h name ino loglen update inc_link epoch_id in
    let '(rc, dir, h, update) := r in
    if negb (rc =? 0) then sret (rc, dir, h, update)
    else
      let curr_entry := up_curr_entry update in
      do! direntry := lift (gets (fun s => nova_get_block s curr_entry)) in
      let h := set_ih_last_dentry curr_entry h in
      do! r := lift (nova_insert_dir_tree (ih_rb_tree h) name direntry) in
      sret (r.1, dir, set_ih_trans_id (u64 (ih_trans_id h + 1)) (set_ih_rb_tree r.2 h), update).

Definition nova_remove_dentry (dir : vfs_inode) (h : info_header) (name : list Z) (dec_link now : Z)
    (update : inode_update) (epoch_id : Z) : SM (Z * vfs_inode * info_header * inode_update) :=
  let update := up_dentries 0 0 update in
  if (Z.of_nat (length name) =? 0) then sret (- EINVAL, dir, h, update)
  else
    do! r := lift (nova_remove_dir_tree (ih_rb_tree h) name false 0) in
    let '(rc, tree, old_dentry) := r in
    let h := set_ih_rb_tree tree h in
    if negb (rc =? 0) then sret (rc, dir, h, update)
    else
      do! pidir := lift (nova_get_inode (ih_base h)) in
      let dir := set_dir_times now dir in
      do! inplace := lift (nova_can_inplace_update_dentry old_dentry epoch_id) in
      if inplace : bool then
        do! _ := lift (nova_inplace_update_dentry dir (ih_log h) old_dentry dec_link epoch_id) in
        do! curr_entry := lift (gets (fun s => nova_get_addr_off s old_dentry)) in
        let update := if up_tail update =? 0
          then up_tails (sih_log_tail (ih_base h)) (sih_alter_log_tail (ih_base h)) update else update in
        sret (0, dir, set_ih_trans_id (u64 (ih_trans_id h + 1)) (set_ih_last_dentry curr_entry h), update)
      else
        let loglen := uwrap 16 (NOVA_DIR_LOG_REC_LEN (Z.of_nat (length name))) in
        do! r := nova_append_dentry pidir dir h name 0 loglen update dec_link epoch_id in
        let '(rc, dir, h, update) := r in
        if negb (rc =? 0) then sret (rc, dir, h, update)
        else
          let curr_entry := up_curr_entry update in
          do! delete_dentry := lift (gets (fun s => nova_get_block s curr_entry)) in
          sret (0, dir, set_ih_trans_id (u64 (ih_trans_id h + 1)) (set_ih_last_dentry curr_entry h),
            up_dentries old_dentry delete_dentry update).

(** ** The last page of a file that shrinks *)
Definition nova_clear_last_page_tail (h : info_header) (i_size newsize : Z) : M unit :=
  let! c := gets sbc in
  let offset := Z.land newsize (s_blocksize c - 1) in
  if (offset =? 0) || (i_size <? newsize) then ret tt
  else
    let length := u64 (s_blocksize c - offset) in
    let pgoff := Z.shiftr newsize (s_blocksize_bits c) in
    let! nvmm := nova_find_nvmm_block (ih_tree h) 0 pgoff in
    if nvmm =? 0 then ret tt
    else
      let! nvmm_addr := gets (fun s => nova_get_block s nvmm) in
      nova_memunlock_range (nvmm_addr + offset) length ;;;
      let! _ := memcpy_to_pmem_nocache (nvmm_addr + offset) (replicate (Z.to_nat length) 0) in
      nova_memlock_range (nvmm_addr + offset) length ;;;
      (if 0 <? data_csum then let! _ := nova_update_truncated_block_csum (ih_base h) (ih_tree h) newsize in ret tt
       else ret tt) ;;;
      (if 0 <? data_parity then let! _ := nova_update_truncated_block_parity (ih_base h) (ih_tree h) newsize in ret tt
       else ret tt).
End log_append.
