(* ===== verification/LogGcSpec.v ===== *)
(** Fast collection of a log: the pages without a valid entry leave the chain and
    become free; everything else stays.

    A log is a chain of pages, by block number: [pre] before the page [t] of the
    tail, which is never collected, and [post] behind it.  [page_live] compares
    the two counters of a page. *)

From stdpp Require Import strings.
From S2P Require Import Prelude CInt Crc32c NovaEnv RangeNode Pmem NovaState NovaMonad NovaLib.
From S2P Require Import Balloc BallocSpec BallocAlloc NovaLayout PmemOps LogPage LogPageSpec RangeLog InodeTable Checksum Parity.
From S2P Require Import MetaCsum LogEntry Snapshot FileTree DirTree Rebuild RebuildSpec LogGc.

Local Open Scope nova_scope.
Local Open Scope string_scope.
Local Open Scope list_scope.
Local Open Scope Z_scope.

Definition page_at (s : nova) (b : Z) : Z := virt_addr (sbc s) + page_off b.
Definition n_entries (s : nova) (b : Z) : Z := load 4 (nvmm s) (page_at s b + 4068).
Definition n_invalid (s : nova) (b : Z) : Z := load 4 (nvmm s) (page_at s b + 4064).
Definition page_live (s : nova) (b : Z) : bool := negb (n_invalid s b =? n_entries s b).
Definition live_pages (s : nova) (bs : list Z) : list Z := List.filter (page_live s) bs.
Definition dead_pages (s : nova) (bs : list Z) : list Z := List.filter (fun b => negb (page_live s b)) bs.

(** The eight bytes of a page's link. *)
Definition link_word (s : nova) (b x : Z) : Prop := log_link s (page_off b) <= x < log_link s (page_off b) + 8.

(** The header's counters after the pages that stay. *)
Definition counted (s : nova) (bs : list Z) (h : info_header) : info_header :=
  set_ih_valid_entries (u64 (sumZ (fun b => u32 (n_entries s b - n_invalid s b)) (live_pages s bs)))
    (set_ih_num_entries (u64 (sumZ (n_entries s) (live_pages s bs))) h).

Lemma live_snoc s bs b : live_pages s (bs ++ [b]) = live_pages s bs ++ (if page_live s b then [b] else []).
Proof. unfold live_pages. rewrite List.filter_app. cbn [List.filter]. by destruct (page_live s b). Qed.
Lemma dead_snoc s bs b : dead_pages s (bs ++ [b]) = dead_pages s bs ++ (if page_live s b then [] else [b]).
Proof. unfold dead_pages. rewrite List.filter_app. cbn [List.filter]. by destruct (page_live s b). Qed.
Lemma elem_live s bs b : b ∈ live_pages s bs <-> b ∈ bs /\ page_live s b = true.
Proof. unfold live_pages. rewrite !list_elem_of_In. apply List.filter_In. Qed.
Lemma elem_dead s bs b : b ∈ dead_pages s bs <-> b ∈ bs /\ page_live s b = false.
Proof. unfold dead_pages. rewrite !list_elem_of_In, List.filter_In. by rewrite negb_true_iff. Qed.
Lemma live_dead_length s bs : (length (live_pages s bs) + length (dead_pages s bs) = length bs)%nat.
Proof.
  induction bs as [|b bs IH]; [done|]. unfold live_pages, dead_pages in *. cbn [List.filter length].
  destruct (page_live s b); cbn [negb length]; lia.
Qed.

Lemma shiftr_page_off b : Z.shiftr (page_off b) PAGE_SHIFT = b.
Proof. unfold page_off. rewrite Z.shiftr_div_pow2 by done. by apply Z.div_mul. Qed.

(** The last link of a chain redirected. *)
Lemma linked_to_redirect link m l p n n' :
  linked_to link m (l ++ [p]) n -> 0 <= n' < 2 ^ 64 ->
  (forall q, q ∈ l -> link q + 8 <= link p \/ link p + 8 <= link q) ->
  linked_to link (store 8 m (link p) n') (l ++ [p]) n'.
Proof.
  intros [L _]%linked_to_app Hn Hd. apply linked_to_app. split.
  - apply (linked_to_ext _ m); [exact L|]. intros q Hq. apply load_store_other. specialize (Hd q Hq). lia.
  - split; [|done]. by apply load_store_same.
Qed.

Section spec.
Context `{NovaEnv, RbLibOk, MediaLib}.
Context (Hrc : forall a n, memcpy_mcsafe_rc a n = 0) (Hmeta : metadata_csum = 0).

(** ** One page *)
Lemma page_tail_counts s b :
  let l := load_bytes (nvmm s) (page_at s b + 4064) 32 in
  buf_field nova_inode_page_tail "num_entries" l = n_entries s b /\
  buf_field nova_inode_page_tail "invalid_entries" l = n_invalid s b.
Proof.
  cbv zeta. unfold buf_field, n_entries, n_invalid, load.
  change (Z.to_nat (offsetof nova_inode_page_tail "num_entries")) with 4%nat.
  change (Z.to_nat (offsetof nova_inode_page_tail "invalid_entries")) with 0%nat.
  change (sizeof_field nova_inode_page_tail "num_entries") with 4%nat.
  change (sizeof_field nova_inode_page_tail "invalid_entries") with 4%nat.
  change 32%nat with (4 + (4 + 24))%nat. rewrite (load_bytes_app _ _ 4 (4 + 24)). split.
  - rewrite drop_app_length' by (by rewrite length_load_bytes). rewrite (load_bytes_app _ _ 4 24).
    rewrite take_app_length' by (by rewrite length_load_bytes). do 2 f_equal. change (Z.of_nat 4) with 4. lia.
  - rewrite drop_0, take_app_length' by (by rewrite length_load_bytes). done.
Qed.

Lemma curr_page_invalid_run s b h :
  device_ok s -> page_ok s b ->
  curr_page_invalid h (page_off b) s
  = Ok (negb (page_live s b),
      if page_live s b then
        set_ih_valid_entries (u64 (ih_valid_entries h + u32 (n_entries s b - n_invalid s b)))
          (set_ih_num_entries (u64 (ih_num_entries h + n_entries s b)) h)
      else h) s.
Proof.
  intros D P. unfold curr_page_invalid, bind at 1, gets. destruct (page_addr s b D P) as [_ ->].
  assert (memcpy_mcsafe (page_tail (virt_addr (sbc s) + page_off b)) (Z.to_nat (sizeof nova_inode_page_tail)) s
    = Ok (0, load_bytes (nvmm s) (page_at s b + 4064) 32) s) as Em.
  { unfold memcpy_mcsafe, bind, pload_bytes, ret. rewrite Hrc. cbn [negb Z.eqb].
    change (Z.to_nat (sizeof nova_inode_page_tail)) with 32%nat.
    change (page_tail (virt_addr (sbc s) + page_off b)) with (page_at s b + 4064).
    assert (in_pmem s (page_at s b + 4064) 32 = true) as ->; [|done].
    apply in_pmem_spec. destruct D as (Hv & _), P as [P1 P2]. unfold page_at, page_off in *. cbn. lia. }
  rewrite (bind_ok _ _ _ _ _ Em). cbn [fst snd negb Z.eqb].
  destruct (page_tail_counts s b) as [-> ->]. unfold page_live. by destruct (n_invalid s b =? n_entries s b).
Qed.

(** ** States in which pages were given back and the device has changed *)
Lemma log_freed_mem s m m' s1 s2 fr :
  log_freed (set_nvmm m s) s1 fr -> mem_upd m' s1 s2 -> log_freed (set_nvmm m' s) s2 fr.
Proof.
  intros [C Es En F Em Ep K] U. pose proof (mem_upd_balloc _ _ _ U) as K2.
  split.
  - apply (log_ctx_upd s1); [done| |by apply (mem_upd_sbc _ _ _ U)|done].
    apply (alloc_wf_same s1); [apply C|by rewrite (mem_upd_sbc _ _ _ U)|by rewrite (mem_upd_lists _ _ _ U)|
      by rewrite (mem_upd_plb _ _ _ U)|by rewrite (mem_upd_clock _ _ _ U)].
  - by rewrite (mem_upd_sbc _ _ _ U).
  - by rewrite (mem_upd_nvmm _ _ _ U).
  - intros b. specialize (F b). unfold free_block in *. by rewrite (mem_upd_lists _ _ _ U).
  - by rewrite (mem_upd_maps _ _ _ U).
  - by rewrite (mem_upd_plb _ _ _ U).
  - exact (balloc_keep_trans _ _ _ K K2).
Qed.

Lemma log_freed_same s s' bs bs' :
  (forall b, b ∈ bs <-> b ∈ bs') -> log_freed s s' bs -> log_freed s s' bs'.
Proof.
  intros E [C Es En F Em Ep K]. split; try done. intros b. rewrite F. f_equal. by apply bool_decide_ext.
Qed.

Lemma freed_set_refl s : log_ctx s -> log_freed (set_nvmm (nvmm s) s) s [].
Proof. intros C. apply (log_freed_mem s (nvmm s) (nvmm s) s s []); [|apply mem_upd_refl]. by destruct (log_freed_nil s C). Qed.

(** What does not change between [s] and a state reached by collecting. *)
Lemma freed_block s m s1 fr p : log_freed (set_nvmm m s) s1 fr -> nova_get_block s1 p = nova_get_block s p.
Proof. intros F. unfold nova_get_block. by rewrite (lf_sbc _ _ _ F). Qed.
Lemma freed_page_ok s m s1 fr b : log_freed (set_nvmm m s) s1 fr -> page_ok s b -> page_ok s1 b.
Proof. intros F. unfold page_ok. by rewrite (lf_sbc _ _ _ F). Qed.
Lemma freed_link s m s1 fr : log_freed (set_nvmm m s) s1 fr -> log_link s1 = log_link s.
Proof. intros F. unfold log_link. by rewrite (lf_sbc _ _ _ F). Qed.

(** A page to be collected: it is taken, and belongs to a list. *)
Definition page_held (s : nova) (b : Z) : Prop := page_ok s b /\ homed s b /\ free_block s b = false.

Context (s : nova).
Context (C0 : log_ctx s) (A0 : lists_apart s)
  (Hslab : forall p, (alloc_clock s <= p)%positive -> kmem_cache_zalloc_ok p = true).

(** Giving one page back. *)
Lemma free_page_run m s1 fr b :
  log_freed (set_nvmm m s) s1 fr -> page_held s b -> b ∉ fr ->
  exists s2, nova_free_log_blocks NOVA_BLOCK_TYPE_4K b 1 s1 = Ok 0 s2 /\ log_freed (set_nvmm m s) s2 (fr ++ [b]).
Proof.
  intros F (P & Hh & Ht) Hb.
  assert (forall c, c ∈ run_of b 1 -> c = b) as Hr by (intros c Hc%elem_of_run; lia).
  destruct (LogPageSpec.free_run (set_nvmm m s) s1 fr b 0 F) as (s2 & E & F2); auto.
  - intros c ->%Hr. exact Hh.
  - intros c ->%Hr. split; [done|]. exact Ht.
  - apply P.
  - exists s2. split; [exact E|]. by change (run_of b 1) with [b] in F2.
Qed.

(** The address of a page, seen from a later state. *)
Lemma page_at_freed m s1 fr b :
  log_freed (set_nvmm m s) s1 fr -> page_ok s b ->
  nova_get_block s1 (page_off b) = page_at s b /\ mem_upd m s1 s1 /\ device_ok s1 /\
  virt_addr (sbc s1) <= page_at s b /\ page_at s b + 4096 <= virt_addr (sbc s1) + initsize (sbc s1) /\
  s_blocksize (sbc s1) = 4096.
Proof.
  intros F P. pose proof (lf_ctx _ _ _ F) as C. pose proof (lf_sbc _ _ _ F) as Es.
  change (sbc (set_nvmm m s)) with (sbc s) in Es.
  destruct (page_addr s b (lc_dev _ C0) P) as [_ Eb]. split_and!.
  - by rewrite (freed_block _ _ _ _ _ F).
  - assert (nvmm s1 = m) as <- by apply F. apply mem_upd_refl.
  - apply C.
  - rewrite Es. destruct P. unfold page_at, page_off in *. lia.
  - rewrite Es. destruct P. unfold page_at, page_off in *. lia.
  - apply C.
Qed.

(** Redirecting a link, within the window in which the page can be written. *)
Lemma wp_redirect {A B} m s1 page (rd : M A) (f : A -> Z) x fence (k : M B) (Q : B -> nova -> Prop) :
  mem_upd m s1 s1 -> device_ok s1 -> s_blocksize (sbc s1) = 4096 -> virt_addr (sbc s1) <= page ->
  page + 4096 <= virt_addr (sbc s1) + initsize (sbc s1) ->
  (forall s', mem_upd m s1 s' -> rd s' = Ok x s') ->
  (forall s', mem_upd (store 8 m (page + 4088) (f x)) s1 s' -> wp k Q s') ->
  wp (nova_memunlock_block page ;;;
      let! x := rd in nova_set_next_page_address page (f x) fence ;;; nova_memlock_block page ;;; k) Q s1.
Proof.
  intros U (Hv & Hsz & _) Hbs Hlo Hhi Hrd HQ.
  apply wp_bind. unfold nova_memunlock_block. apply wp_bind, wp_gets. rewrite Hbs.
  eapply wp_memunlock; [exact U|lia..|]. intros s2 U2 W2.
  apply wp_bind. eapply wp_ok; [by apply Hrd|].
  apply wp_bind. eapply wp_set_next; [exact U2|done|done|done|]. intros s3 U3 W3.
  apply wp_bind. unfold nova_memlock_block. apply wp_bind, wp_gets. eapply wp_memlock; [exact U3|]. exact HQ.
Qed.

(** The page [b] is unlinked from [l], the page before it, and given back. *)
Lemma free_curr_page_run m s1 fr b l :
  log_freed (set_nvmm m s) s1 fr -> page_held s b -> page_ok s l -> b ∉ fr ->
  exists s2, free_curr_page NOVA_BLOCK_TYPE_4K (page_at s b) (page_at s l) (page_off b) s1 = Ok tt s2 /\
    log_freed (set_nvmm (store 8 m (log_link s (page_off l)) (load 8 m (log_link s (page_off b)))) s) s2 (fr ++ [b]).
Proof.
  intros F Hb Pl Hn. destruct (page_at_freed _ _ _ l F Pl) as (_ & U & D & Hlo & Hhi & Hbs).
  destruct (page_at_freed _ _ _ b F (proj1 Hb)) as (_ & _ & _ & Blo & Bhi & _).
  set (m' := store 8 m (log_link s (page_off l)) (load 8 m (log_link s (page_off b)))).
  assert (wp (free_curr_page NOVA_BLOCK_TYPE_4K (page_at s b) (page_at s l) (page_off b))
    (fun _ s2 => log_freed (set_nvmm m' s) s2 (fr ++ [b])) s1) as Wp.
  { unfold free_curr_page. eapply (wp_redirect m s1 (page_at s l) _ (fun x => x) (load 8 m (log_link s (page_off b))));
      [done..| |].
    - intros s' U'. unfold pload_field, pload.
      change (field_addr nova_inode_log_page (page_at s b) "next_page") with (log_link s (page_off b)).
      change (sizeof_field nova_inode_log_page "next_page") with 8%nat. rewrite (mem_upd_in_pmem _ _ _ _ _ U').
      assert (in_pmem s1 (log_link s (page_off b)) 8 = true) as ->.
      { apply in_pmem_spec. unfold log_link, page_at in *. cbn. lia. }
      by rewrite (mem_upd_nvmm _ _ _ U').
    - intros s' U'. pose proof (log_freed_mem _ _ _ _ _ _ F U') as F'.
      rewrite page_off_nr. destruct (free_page_run m' s' fr b F' Hb Hn) as (s2 & E2 & F2).
      apply wp_bind. eapply wp_ok; [exact E2|]. by apply wp_ret. }
  apply wp_run in Wp as ([] & s2 & E & F2). by exists s2.
Qed.
(** ** The walk *)
Record gc_log (h : info_header) (pre : list Z) (t : Z) (post : list Z) : Prop := {
  gl_nodup : NoDup (pre ++ t :: post);
  gl_held : forall b, b ∈ pre ++ t :: post -> page_held s b;
  gl_chain : log_chain s (nvmm s) (pre ++ t :: post);
  gl_head : sih_log_head (ih_base h) = page_off (default t (head pre));
  gl_tail : Z.shiftr (sih_log_tail (ih_base h)) PAGE_SHIFT = t;
  gl_type : i_blk_type (ih_base h) = NOVA_BLOCK_TYPE_4K;
  gl_len : Z.of_nat (length pre) < 2 ^ 31
}.

Context (h : info_header) (pre : list Z) (t : Z) (post : list Z) (G : gc_log h pre t post).

Definition first_page : Z := default t (head pre).

(** The pages given back during the walk: the first one is kept until its end. *)
Definition gone (done : list Z) : list Z := List.filter (fun b => negb (b =? first_page)) (dead_pages s done).

Lemma elem_gone done b : b ∈ gone done <-> (b ∈ done /\ page_live s b = false) /\ b <> first_page.
Proof.
  unfold gone. rewrite list_elem_of_In, List.filter_In, <- list_elem_of_In, elem_dead, negb_true_iff, Z.eqb_neq. done.
Qed.

(** The state of the walk after the pages [done], before [rest]. *)
Record gc_inv (done rest : list Z) (m : mem) (s1 : nova) (f : fast_state) : Prop := {
  gi_split : pre = done ++ rest;
  gi_mem : forall x, (forall b, b ∈ done -> ~ link_word s b x) -> mget m x = mget (nvmm s) x;
  gi_link : linked_to (log_link s) m (page_off <$> live_pages s done) (page_off (default t (head rest)));
  gi_freed : log_freed (set_nvmm m s) s1 (gone done);
  gi_curr : fs_curr f = page_off (default t (head rest));
  gi_found : fs_found_head f = negb (bool_decide (live_pages s done = []));
  gi_head : fs_possible_head f = default 0 (head (page_off <$> live_pages s done));
  gi_last : done <> [] -> fs_last_page f = page_at s (default first_page (last (live_pages s done)));
  gi_first : fs_first_need_free f = bool_decide (first_page ∈ dead_pages s done);
  gi_checked : fs_checked_pages f = Z.of_nat (length done);
  gi_nfreed : fs_freed_pages f = Z.of_nat (length (dead_pages s done));
  gi_h : fs_h f = counted s done h
}.

Lemma in_log b rest done : pre = done ++ b :: rest -> b ∈ pre ++ t :: post.
Proof. intros ->. set_solver. Qed.

Lemma link_word_page b x : link_word s b x -> in_page s b x.
Proof. unfold link_word, in_page, log_link, page_off. lia. Qed.

(** A page that was not walked yet is as it was. *)
Lemma fresh_link done rest m s1 f b n a :
  gc_inv done rest m s1 f -> b ∉ done -> page_at s b <= a -> a + Z.of_nat n <= page_at s b + 4096 ->
  load n m a = load n (nvmm s) a.
Proof.
  intros I Hb Hlo Hhi. apply load_ext. intros x Hx. apply (gi_mem _ _ _ _ _ I). intros c Hc Hw.
  apply Hb. rewrite (in_page_unique s b c x); [done| |by apply link_word_page].
  unfold in_page, page_at in *. lia.
Qed.

(** The counters of a page are as they were, walked or not. *)
Lemma counts_kept done rest m s1 f b :
  gc_inv done rest m s1 f -> n_entries s1 b = n_entries s b /\ n_invalid s1 b = n_invalid s b.
Proof.
  intros I. pose proof (gi_freed _ _ _ _ _ I) as F.
  assert (nvmm s1 = m) as En by apply F. assert (sbc s1 = sbc s) as Es by apply F.
  assert (forall a, a = 4064 \/ a = 4068 -> load 4 m (page_at s b + a) = load 4 (nvmm s) (page_at s b + a)) as Hl.
  { intros a Ha. apply load_ext. intros x Hx. apply (gi_mem _ _ _ _ _ I). intros c Hc Hw.
    assert (in_page s b x) as Hb by (unfold in_page, page_at in *; cbn in Hx; lia).
    pose proof (in_page_unique s b c x Hb (link_word_page _ _ Hw)) as ->.
    unfold link_word, log_link, page_at in *. cbn in Hx. lia. }
  unfold n_entries, n_invalid, page_at in *. rewrite En, Es. split; apply Hl; auto.
Qed.

(** What the walk reads of the page at the head of [rest]. *)
Lemma next_link done b rest m s1 f :
  gc_inv done (b :: rest) m s1 f ->
  b ∉ done /\ load 8 m (log_link s (page_off b)) = page_off (default t (head rest)).
Proof.
  intros I. pose proof (gi_split _ _ _ _ _ I) as E. pose proof (gl_nodup _ _ _ _ G) as ND. rewrite E in ND.
  assert (b ∉ done) as Hb.
  { rewrite <- app_assoc in ND. apply NoDup_app in ND as (_ & ND & _). intros Hd. apply (ND b Hd). set_solver. }
  split; [done|].
  rewrite (fresh_link _ _ _ _ _ b 8 (log_link s (page_off b)) I Hb) by (unfold log_link, page_at; cbn; lia).
  pose proof (gl_chain _ _ _ _ G) as Ch. rewrite E, <- app_assoc in Ch. unfold log_chain in Ch. rewrite fmap_app in Ch.
  apply linked_at in Ch. rewrite Ch. destruct rest; reflexivity.
Qed.
Lemma uwrap_add_l w x y : uwrap w (uwrap w x + y) = uwrap w (x + y).
Proof. unfold uwrap. apply Zplus_mod_idemp_l. Qed.

Lemma counted_snoc done b :
  counted s (done ++ [b]) h
  = (if page_live s b then
       set_ih_valid_entries (u64 (ih_valid_entries (counted s done h) + u32 (n_entries s b - n_invalid s b)))
         (set_ih_num_entries (u64 (ih_num_entries (counted s done h) + n_entries s b)) (counted s done h))
     else counted s done h).
Proof.
  unfold counted. rewrite live_snoc. destruct (page_live s b); [|by rewrite app_nil_r].
  rewrite !sumZ_app. cbn [ih_valid_entries ih_num_entries set_ih_valid_entries set_ih_num_entries].
  rewrite !uwrap_add_l. cbn [sumZ foldr]. by rewrite !Z.add_0_r.
Qed.

Lemma gone_snoc done b :
  gone (done ++ [b]) = gone done ++ (if page_live s b || (b =? first_page) then [] else [b]).
Proof.
  unfold gone. rewrite dead_snoc, List.filter_app. f_equal. destruct (page_live s b); [done|].
  cbn [List.filter orb]. by destruct (b =? first_page).
Qed.

Lemma first_walked done b rest : pre = done ++ b :: rest -> b <> first_page -> done <> [].
Proof. intros E Hb ->. apply Hb. unfold first_page. by rewrite E. Qed.

Lemma first_once done b rest : pre = done ++ b :: rest -> b ∉ done -> (b = first_page <-> done = []).
Proof.
  intros E Hb. unfold first_page. rewrite E. destruct done as [|c done]; cbn; [done|].
  split; [|done]. intros ->. by apply not_elem_of_cons in Hb as [? _].
Qed.

(** The last page that stays, or the first page: where the links go. *)
Definition last_kept (done : list Z) : Z := default first_page (last (live_pages s done)).

Lemma last_kept_done done rest : pre = done ++ rest -> done <> [] -> last_kept done ∈ done.
Proof.
  intros E Hd. unfold last_kept. destruct (last (live_pages s done)) as [l|] eqn:El; cbn.
  - apply last_Some_elem_of, elem_live in El. apply El.
  - unfold first_page. rewrite E. destruct done; [done|]. cbn. set_solver.
Qed.

Lemma gc_link_apart b c : b <> c ->
  log_link s (page_off b) + 8 <= log_link s (page_off c) \/ log_link s (page_off c) + 8 <= log_link s (page_off b).
Proof. unfold log_link, page_off. lia. Qed.

(** The chain of the pages that stay, after the last link was redirected. *)
Lemma redirect_link done m n n' :
  NoDup done -> linked_to (log_link s) m (page_off <$> live_pages s done) n -> 0 <= n' < 2 ^ 64 ->
  linked_to (log_link s) (store 8 m (log_link s (page_off (last_kept done))) n') (page_off <$> live_pages s done) n'.
Proof.
  intros ND L Hn. unfold last_kept. destruct (last (live_pages s done)) as [l|] eqn:El.
  - apply last_Some in El as [k Ek]. rewrite Ek, fmap_app in *. cbn [from_option default]. unfold id.
    apply (linked_to_redirect _ _ _ _ n); [exact L|done|]. intros q (c & -> & Hc)%list_elem_of_fmap. apply gc_link_apart.
    intros ->. assert (NoDup (live_pages s done)) as ND2.
    { unfold live_pages. apply NoDup_ListNoDup, List.NoDup_filter. by apply NoDup_ListNoDup. }
    rewrite Ek in ND2. apply NoDup_app in ND2 as (_ & ND2 & _). apply (ND2 l Hc). set_solver.
  - apply last_None in El. rewrite El. done.
Qed.

Lemma counters_snoc done b rest :
  pre = done ++ b :: rest ->
  u64 (Z.of_nat (length done) + 1) = Z.of_nat (length (done ++ [b])) /\
  (page_live s b = false ->
     s32 (Z.of_nat (length (dead_pages s done)) + 1) = Z.of_nat (length (dead_pages s (done ++ [b])))).
Proof.
  intros E. pose proof (gl_len _ _ _ _ G) as Hl. rewrite E, length_app in Hl. cbn [length] in Hl.
  pose proof (live_dead_length s done). rewrite length_app. cbn [length]. split.
  - rewrite uwrap_small; lia.
  - intros Hd. rewrite dead_snoc, Hd, length_app. cbn [length]. rewrite swrap_small; lia.
Qed.

(** One page with a valid entry: it stays. *)
Lemma gc_inv_live done b rest m s1 f lp alp nx :
  gc_inv done (b :: rest) m s1 f -> page_live s b = true -> lp = page_at s b ->
  gc_inv (done ++ [b]) rest m s1
    (mkFast (page_off (default t (head rest))) nx
      (if fs_found_head f then fs_possible_head f else fs_curr f)
      (if fs_found_head f then fs_alter_possible_head f else fs_alter_curr f) true lp alp
      (fs_first_need_free f) (u64 (fs_checked_pages f + 1)) (fs_freed_pages f) (counted s (done ++ [b]) h)).
Proof.
  intros I Hl ->. destruct (next_link _ _ _ _ _ _ I) as [Hb Hnx]. destruct I as [Esp Em El Ef Ec Efd Ehd Els Eff Eck Efr Eh].
  split; cbn [fs_curr fs_found_head fs_possible_head fs_last_page fs_first_need_free fs_checked_pages fs_freed_pages fs_h];
    rewrite ?live_snoc, ?dead_snoc, ?gone_snoc, ?Hl, ?app_nil_r; try done.
  - by rewrite <- app_assoc.
  - intros x Hx. apply Em. intros c Hc. apply Hx. set_solver.
  - rewrite fmap_app. apply linked_to_app. split; [exact El|]. by split.
  - rewrite bool_decide_false; [done|]. by destruct (live_pages s done).
  - rewrite Efd, Ehd, Ec. destruct (live_pages s done) as [|c l]; [by rewrite bool_decide_true|].
    by rewrite bool_decide_false.
  - intros _. by rewrite last_snoc.
  - rewrite Eck. by apply (counters_snoc done b rest).
Qed.

(** One page without: it leaves the chain, unless it is the first. *)
Lemma gc_inv_dead done b rest m s1 f m' s2 nx alp :
  gc_inv done (b :: rest) m s1 f -> page_live s b = false ->
  log_freed (set_nvmm m' s) s2 (gone (done ++ [b])) ->
  (if b =? first_page then m' = m else m' = store 8 m (log_link s (page_off (last_kept done))) (page_off (default t (head rest)))) ->
  0 <= page_off (default t (head rest)) < 2 ^ 64 ->
  gc_inv (done ++ [b]) rest m' s2
    (mkFast (page_off (default t (head rest))) nx (fs_possible_head f) (fs_alter_possible_head f) (fs_found_head f)
      (if b =? first_page then page_at s b else fs_last_page f) alp
      (if b =? first_page then true else fs_first_need_free f) (u64 (fs_checked_pages f + 1)) (s32 (fs_freed_pages f + 1))
      (counted s done h)).
Proof.
  intros I Hl F Hm Hn. destruct (next_link _ _ _ _ _ _ I) as [Hb Hnx]. destruct I as [Esp Em El Ef Ec Efd Ehd Els Eff Eck Efr Eh].
  destruct (counters_snoc done b rest Esp) as [Hc1 Hc2].
  assert (NoDup done) as ND.
  { pose proof (gl_nodup _ _ _ _ G) as ND. rewrite Esp in ND. rewrite <- app_assoc in ND. by apply NoDup_app in ND as [ND _]. }
  assert (b <> first_page -> done <> []) as Hdone by (by eapply first_walked).
  assert (b = first_page -> done = []) as Hfirst by (intros Hf; by apply (first_once done b rest)).
  split; cbn [fs_curr fs_found_head fs_possible_head fs_last_page fs_first_need_free fs_checked_pages fs_freed_pages fs_h];
    rewrite ?live_snoc, ?Hl, ?app_nil_r; try done.
  - by rewrite <- app_assoc.
  - intros x Hx. destruct (Z.eqb_spec b first_page) as [Hf|Hf]; subst m'.
    + apply Em. intros c Hc. apply Hx. set_solver.
    + rewrite mget_store_out; [apply Em; intros c Hc; apply Hx; set_solver|].
      apply (Hx (last_kept done)). apply elem_of_app. left. by apply (last_kept_done done (b :: rest)), Hdone.
  - destruct (Z.eqb_spec b first_page) as [Hf|Hf]; subst m'.
    + rewrite (Hfirst Hf). done.
    + by eapply redirect_link.
  - intros _. destruct (Z.eqb_spec b first_page) as [Hf|Hf]; [|by apply Els, Hdone].
    rewrite (Hfirst Hf). cbn. by rewrite Hf.
  - rewrite dead_snoc, Hl. destruct (Z.eqb_spec b first_page) as [Hf|Hf].
    + symmetry. apply bool_decide_true. rewrite Hf. set_solver.
    + rewrite Eff. apply bool_decide_ext. set_solver.
  - by rewrite Eck.
  - rewrite Efr. by apply Hc2.
  - by rewrite counted_snoc, Hl.
Qed.

(** One page. *)
Lemma fast_gc_page_run done b rest m s1 f :
  gc_inv done (b :: rest) m s1 f ->
  exists f' m' s2, fast_gc_page f (page_at s b) 0 (page_off (default t (head rest))) 0 s1 = Ok f' s2 /\
    gc_inv (done ++ [b]) rest m' s2 f'.
Proof.
  intros I. destruct (next_link _ _ _ _ _ _ I) as [Hb Hnx]. destruct (counts_kept _ _ _ _ _ b I) as [Cn Ci].
  pose proof (gi_split _ _ _ _ _ I) as Esp. pose proof (gi_freed _ _ _ _ _ I) as Ef.
  pose proof (in_log _ _ _ Esp) as Hin. pose proof (gl_held _ _ _ _ G b Hin) as Hheld.
  assert (device_ok s1 /\ page_ok s1 b) as [D1 P1].
  { split; [apply (lf_ctx _ _ _ Ef)|]. eapply freed_page_ok; [exact Ef|apply Hheld]. }
  assert (fs_h f = counted s done h) as Eh by apply I.
  assert (fs_curr f = page_off b) as Ec by apply I.
  assert (page_held s (default t (head rest))) as Hnext.
  { apply (gl_held _ _ _ _ G). rewrite Esp. destruct rest as [|c rest]; cbn; set_solver. }
  assert (0 <= page_off (default t (head rest)) < 2 ^ 64) as Hn64.
  { destruct Hnext as ([N1 N2] & _), (lc_dev _ C0) as (Hv & Hsz & _). unfold page_off in *. lia. }
  destruct f as [fc fa ph aph fh lp alp ff ck fr fh'] eqn:Ef'. cbn [fs_curr fs_h] in Ec, Eh. subst fc fh'.
  unfold fast_gc_page. rewrite (bind_ok _ _ _ _ _ (curr_page_invalid_run s1 b _ D1 P1)).
  assert (page_live s1 b = page_live s b) as -> by (unfold page_live; by rewrite Cn, Ci). rewrite Cn, Ci.
  destruct (page_live s b) eqn:Hl; cbn [negb].
  - do 3 eexists. split; [reflexivity|]. pose proof (gc_inv_live done b rest m s1 _ _ 0 0 I Hl eq_refl) as I'.
    rewrite counted_snoc, Hl in I'. exact I'.
  - change (sih_log_head (ih_base (counted s done h))) with (sih_log_head (ih_base h)).
    change (i_blk_type (ih_base (counted s done h))) with (i_blk_type (ih_base h)).
    rewrite (gl_head _ _ _ _ G), (gl_type _ _ _ _ G). fold first_page.
    assert ((page_off b =? page_off first_page) = (b =? first_page)) as ->.
    { apply eq_true_iff_eq. rewrite !Z.eqb_eq. unfold page_off. lia. }
    pose proof (gone_snoc done b) as Hg. rewrite Hl in Hg. cbn [orb] in Hg.
    destruct (b =? first_page) eqn:Hf.
    + do 3 eexists. split; [reflexivity|]. rewrite app_nil_r in Hg.
      pose proof (gc_inv_dead done b rest m s1 _ m s1 0 0 I Hl) as I'. rewrite Hf, Hg in I'.
      by apply I'.
    + rewrite Z.eqb_neq in Hf. assert (done <> []) as Hd by (by eapply first_walked).
      assert (lp = page_at s (last_kept done)) as -> by (by apply (gi_last _ _ _ _ _ I)).
      destruct (free_curr_page_run m s1 (gone done) b (last_kept done) Ef Hheld) as (s2 & E2 & F2).
      { apply (gl_held _ _ _ _ G). rewrite Esp. apply elem_of_app; left. apply elem_of_app; left.
        by eapply last_kept_done. }
      { rewrite elem_gone. tauto. }
      rewrite (bind_ok _ _ _ _ _ E2), Hmeta. cbn [when negb Z.eqb]. do 3 eexists. split; [reflexivity|].
      rewrite Hnx in F2. pose proof (gc_inv_dead done b rest m s1 _
        (store 8 m (log_link s (page_off (last_kept done))) (page_off (default t (head rest)))) s2 0 alp I Hl) as I'.
      rewrite Hg in I'. specialize (I' F2). apply Z.eqb_neq in Hf. rewrite Hf in I'. by apply I'.
Qed.
(** The whole walk. *)
Definition walk_end (f : fast_state) : fast_state :=
  if fs_found_head f then f
  else mkFast (fs_curr f) (fs_alter_curr f) (fs_curr f) (fs_alter_curr f) false (fs_last_page f) (fs_alter_last_page f)
         (fs_first_need_free f) (fs_checked_pages f) (fs_freed_pages f) (fs_h f).

Lemma fast_gc_loop_run rest : forall done m s1 f fuel,
  gc_inv done rest m s1 f -> (length rest <= fuel)%nat ->
  exists f' m' s2, fast_gc_loop fuel f s1 = Ok (walk_end f') s2 /\ gc_inv pre [] m' s2 f'.
Proof.
  induction rest as [|b rest IH]; intros done m s1 f fuel I Hf.
  - exists f, m, s1. pose proof (gi_split _ _ _ _ _ I) as E. rewrite app_nil_r in E. subst done. split; [|done].
    assert (same_page (fs_curr f) (sih_log_tail (ih_base (fs_h f))) = true) as Hs.
    { unfold same_page. rewrite (gi_curr _ _ _ _ _ I), (gi_h _ _ _ _ _ I), shiftr_page_off.
      apply Z.eqb_eq. cbn. symmetry. apply G. }
    destruct fuel; cbn [fast_gc_loop]; rewrite Hs; done.
  - destruct fuel as [|fuel]; [cbn in Hf; lia|]. cbn [length] in Hf.
    pose proof (gi_split _ _ _ _ _ I) as Esp. pose proof (gi_freed _ _ _ _ _ I) as Ef.
    assert (fs_curr f = page_off b) as Ec by apply I. pose proof (in_log _ _ _ Esp) as Hin.
    pose proof (gl_held _ _ _ _ G b Hin) as Hheld. destruct (next_link _ _ _ _ _ _ I) as [Hb Hnx].
    assert (same_page (fs_curr f) (sih_log_tail (ih_base (fs_h f))) = false) as Hs.
    { unfold same_page. rewrite Ec, (gi_h _ _ _ _ _ I), shiftr_page_off. apply Z.eqb_neq.
      change (sih_log_tail (ih_base (counted s done h))) with (sih_log_tail (ih_base h)). rewrite (gl_tail _ _ _ _ G).
      intros Hbt. pose proof (gl_nodup _ _ _ _ G) as ND. rewrite Esp, Hbt in ND.
      apply NoDup_app in ND as (_ & ND & _). apply (ND t); [apply elem_of_app; right|]; by left. }
    cbn [fast_gc_loop]. rewrite Hs, Ec. destruct (page_at_freed _ _ _ b Ef (proj1 Hheld)) as (Ep & _ & D1 & _).
    rewrite (bind_ok _ _ s1 (page_at s b) s1) by (unfold gets; by rewrite Ep).
    assert (next_log_page (page_off b) s1 = Ok (page_off (default t (head rest))) s1) as En.
    { rewrite (next_log_page_run s1 _ b D1); [|eapply freed_page_ok; [exact Ef|apply Hheld]|done|apply page_off_block].
      rewrite (freed_link _ _ _ _ Ef). assert (nvmm s1 = m) as -> by apply Ef. by rewrite Hnx. }
    rewrite (bind_ok _ _ _ _ _ En), Hmeta. cbn [negb Z.eqb andb]. rewrite (bind_ok _ _ s1 (0, 0) s1) by done.
    cbn [fst snd]. destruct (fast_gc_page_run _ _ _ _ _ _ I) as (f1 & m1 & s2 & E1 & I1).
    rewrite (bind_ok _ _ _ _ _ E1), (gi_curr _ _ _ _ _ I1), orb_false_r.
    assert (page_ok s (default t (head rest))) as [Hp _].
    { apply (gl_held _ _ _ _ G). rewrite Esp. destruct rest as [|c rest]; cbn; set_solver. }
    rewrite (proj2 (Z.eqb_neq _ 0)) by (unfold page_off; lia). apply (IH (done ++ [b]) m1); [exact I1|lia].
Qed.

Lemma gc_inv_start :
  gc_inv [] pre (nvmm s) s (mkFast (sih_log_head (ih_base h)) (sih_alter_log_head (ih_base h)) 0 0 false 0 0 false 0 0
    (set_ih_num_entries 0 (set_ih_valid_entries 0 h))).
Proof. split; try done; [by apply freed_set_refl|apply G]. Qed.

(** The chain before the new pages are linked. *)
Lemma chain_collected m s1 f :
  gc_inv pre [] m s1 f -> log_chain s m (live_pages s pre ++ t :: post).
Proof.
  intros I. unfold log_chain. rewrite fmap_app. apply linked_to_app. split.
  - exact (gi_link _ _ _ _ _ I).
  - pose proof (gl_chain _ _ _ _ G) as Ch. unfold log_chain in Ch. rewrite fmap_app in Ch.
    apply linked_to_app in Ch as [_ Ch]. apply (linked_to_ext _ (nvmm s)); [exact Ch|].
    intros p (c & -> & Hc)%list_elem_of_fmap.
    apply (fresh_link _ _ _ _ _ c 8 (log_link s (page_off c)) I); [|unfold log_link, page_at; cbn; lia..].
    intros Hp. pose proof (gl_nodup _ _ _ _ G) as ND. apply NoDup_app in ND as (_ & ND & _). by apply (ND c).
Qed.
(** ** New pages, the inode, and the first page *)
Record gc_new (new : list Z) (pi : Z) : Prop := {
  gn_apart : forall b, b ∈ new -> b ∉ pre ++ t :: post;
  gn_ok : forall b, b ∈ new -> page_ok s b;
  gn_chain : log_chain s (nvmm s) new;
  gn_len : Z.of_nat (length new) < 2 ^ 31;
  gn_pi : virt_addr (sbc s) <= pi /\ pi + 128 <= virt_addr (sbc s) + initsize (sbc s);
  gn_pi_apart : forall b x, b ∈ pre ++ t :: post ++ new -> in_page s b x -> ~ (pi <= x < pi + 128)
}.

Definition last_page_of : Z := default t (last post).
Definition new_head : Z := page_off (default t (head (live_pages s pre))).

(** What collection does. *)
Record gc_effect (new : list Z) (pi : Z) (s' : nova) : Prop := {
  ge_freed : log_freed (set_nvmm (nvmm s') s) s' (dead_pages s pre);
  ge_chain : log_chain s (nvmm s') (live_pages s pre ++ t :: post ++ new);
  ge_pi : load 8 (nvmm s') (pi + 64) = new_head;
  ge_rest : forall x, (forall b, b ∈ pre ++ [last_page_of] -> ~ link_word s b x) ->
    ~ (pi + 64 <= x < pi + 72) -> ~ (pi + 80 <= x < pi + 88) -> mget (nvmm s') x = mget (nvmm s) x
}.

Lemma post_last : exists l, t :: post = l ++ [last_page_of].
Proof.
  unfold last_page_of. destruct (last post) as [z|] eqn:E.
  - apply last_Some in E as [l ->]. by exists (t :: l).
  - apply last_None in E as ->. by exists [].
Qed.

(** The memory after the new pages were linked. *)
Definition linked_mem (new : list Z) (m : mem) : mem :=
  if 0 <? Z.of_nat (length new)
  then store 8 m (log_link s (page_off last_page_of)) (default 0 (head (page_off <$> new))) else m.

Lemma new_linked new pi m s1 f :
  gc_new new pi -> gc_inv pre [] m s1 f ->
  log_chain s (linked_mem new m) (live_pages s pre ++ t :: post ++ new).
Proof.
  intros N I. pose proof (chain_collected _ _ _ I) as Ch. unfold linked_mem.
  destruct new as [|n0 new]; [by rewrite app_nil_r|].
  rewrite (proj2 (Z.ltb_lt 0 (Z.of_nat (length (n0 :: new))))) by (cbn; lia).
  destruct post_last as [l El]. rewrite app_comm_cons, El in *.
  assert (n0 ∈ n0 :: new) as Hn0 by by left. pose proof (gn_ok _ _ N n0 Hn0) as [Hp1 Hp2].
  destruct (lc_dev _ C0) as (Hv & Hsz & _).
  unfold log_chain in *. rewrite !fmap_app in *.
  change (page_off <$> [last_page_of]) with [page_off last_page_of] in *. rewrite app_assoc in Ch.
  rewrite <- (app_assoc (page_off <$> l)), (app_assoc (page_off <$> live_pages s pre)).
  apply (linked_join _ m); [exact Ch| | |].
  - rewrite load_store_same; [done|]. cbn. unfold page_off in *. lia.
  - apply (linked_to_ext _ (nvmm s)); [apply N|]. intros p (c & -> & Hc)%list_elem_of_fmap.
    pose proof (gn_apart _ _ N c Hc) as Hd. rewrite El in Hd.
    rewrite load_store_other.
    + apply (fresh_link _ _ _ _ _ c 8 (log_link s (page_off c)) I); [set_solver|unfold log_link, page_at; cbn; lia..].
    + pose proof (gc_link_apart c last_page_of) as La. cbn. assert (c <> last_page_of) as Hne by set_solver. specialize (La Hne). lia.
  - intros p Hp. apply load_store_other. rewrite elem_of_app in Hp.
    assert (exists c, p = page_off c /\ c <> last_page_of) as (c & -> & Hc).
    { pose proof (gl_nodup _ _ _ _ G) as ND. rewrite El in ND.
      destruct Hp as [Hp|Hp].
      - apply list_elem_of_fmap in Hp as (c & -> & [Hc _]%elem_live). exists c. split; [done|]. intros ->.
        apply NoDup_app in ND as (_ & ND & _). apply (ND _ Hc). set_solver.
      - apply list_elem_of_fmap in Hp as (c & -> & Hc). exists c. split; [done|]. intros ->.
        apply NoDup_app in ND as (_ & _ & ND). apply NoDup_app in ND as (_ & ND & _). apply (ND _ Hc). set_solver. }
    pose proof (gc_link_apart c last_page_of Hc). cbn. lia.
Qed.
(** The step that links the new pages. *)
Lemma link_new_pages_run new pi curr_tail alter m s1 f :
  gc_new new pi -> gc_inv pre [] m s1 f -> BLOCK_OFF curr_tail = page_off last_page_of ->
  exists s2, when (0 <? Z.of_nat (length new))
      (link_new_pages (fs_h f) curr_tail (default 0 (head (page_off <$> new))) alter) s1 = Ok tt s2 /\
    log_freed (set_nvmm (linked_mem new m) s) s2 (gone pre).
Proof.
  intros N I Ht. pose proof (gi_freed _ _ _ _ _ I) as Ef. unfold linked_mem.
  destruct (0 <? Z.of_nat (length new)); cbn [when]; [|by exists s1].
  assert (page_ok s last_page_of) as Pl.
  { apply (gl_held _ _ _ _ G). destruct post_last as [l ->]. set_solver. }
  destruct (page_at_freed _ _ _ _ Ef Pl) as (Ep & U & D1 & Hlo & Hhi & Hbs).
  set (nb := default 0 (head (page_off <$> new))).
  assert (wp (link_new_pages (fs_h f) curr_tail nb alter) (fun _ s2 =>
    mem_upd (store 8 m (log_link s (page_off last_page_of)) nb) s1 s2) s1) as W.
  { unfold link_new_pages. apply wp_bind, wp_gets. rewrite Ht, Ep.
    pose proof (wp_redirect m s1 (page_at s last_page_of) (ret tt) (fun _ => nb) tt true
      (if negb (metadata_csum =? 0) then
         let! fuel := gets chain_fuel in
         let! alter_curr := last_log_page fuel (BLOCK_OFF (sih_alter_log_tail (ih_base (fs_h f)))) in
         let! alter_curr_page := gets (fun s => nova_get_block s alter_curr) in
         nova_memunlock_block (page_at s last_page_of) ;;;
         nova_set_next_page_address alter_curr_page alter true ;;;
         nova_memlock_block (page_at s last_page_of)
       else ret tt) (fun _ s2 => mem_upd (store 8 m (log_link s (page_off last_page_of)) nb) s1 s2) U D1 Hbs Hlo Hhi) as W.
    apply W; [done|]. intros s' U'. rewrite Hmeta. cbn [negb Z.eqb]. apply wp_ret. exact U'. }
  apply wp_run in W as ([] & s2 & E & U2). exists s2. split; [exact E|]. by eapply log_freed_mem.
Qed.

(** The new head pointers in the inode's record. *)
Lemma heads_run {A} m s1 fr pi hd ah hh (k : M A) (Q : A -> nova -> Prop) :
  log_freed (set_nvmm m s) s1 fr -> virt_addr (sbc s) <= pi -> pi + 128 <= virt_addr (sbc s) + initsize (sbc s) ->
  (forall s2, log_freed (set_nvmm (store 8 (store 8 m (pi + 64) hd) (pi + 80) ah) s) s2 fr -> wp k Q s2) ->
  wp (nova_memunlock_inode pi ;;;
      pstore_field nova_inode pi "log_head" hd ;;;
      pstore_field nova_inode pi "alter_log_head" ah ;;;
      seal_inode pi hh ;;;
      nova_flush_buffer (field_addr nova_inode pi "log_head") CACHELINE_SIZE true ;;; k) Q s1.
Proof.
  intros F Hlo Hhi HQ. assert (sbc s1 = sbc s) as Es by apply F. assert (nvmm s1 = m) as En by apply F.
  assert (mem_upd m s1 s1) as U by (rewrite <- En; apply mem_upd_refl). destruct (lc_dev _ C0) as (Hv & Hsz & _).
  unfold pstore_field. change (sizeof_field nova_inode "log_head") with 8%nat.
  change (sizeof_field nova_inode "alter_log_head") with 8%nat.
  change (field_addr nova_inode pi "log_head") with (pi + 64). change (field_addr nova_inode pi "alter_log_head") with (pi + 80).
  apply wp_bind. unfold nova_memunlock_inode. eapply wp_memunlock; [exact U|rewrite ?Es; unfold NOVA_INODE_SIZE; lia..|].
  intros s2 U2 W2. apply wp_bind. eapply wp_pstore; [exact U2|done|apply in_pmem_spec; rewrite Es; cbn; lia|]. intros s3 U3 W3.
  apply wp_bind. eapply wp_pstore; [exact U3|done|apply in_pmem_spec; rewrite Es; cbn; lia|]. intros s4 U4 W4.
  apply wp_bind. unfold seal_inode, nova_update_inode_checksum. rewrite Hmeta. cbn [negb Z.eqb andb].
  apply wp_bind. apply wp_bind, wp_ret. apply wp_bind. eapply wp_flush; [exact U4|done|done|]. intros s5 U5 W5. apply wp_ret.
  apply wp_bind, wp_ret. unfold nova_memlock_inode. eapply wp_memlock; [exact U5|]. intros s6 U6.
  apply wp_bind. eapply wp_flush; [exact U6|done|done|]. intros s7 U7 W7. apply HQ. by eapply log_freed_mem.
Qed.

Lemma gone_first b : b ∈ gone pre ++ (if bool_decide (first_page ∈ dead_pages s pre) then [first_page] else [])
  <-> b ∈ dead_pages s pre.
Proof.
  case_bool_decide as Hd; rewrite elem_dead in Hd; rewrite elem_of_app, elem_gone, elem_dead.
  - rewrite list_elem_of_singleton. destruct (decide (b = first_page)) as [->|]; tauto.
  - split; [intros [?|Hf]; [tauto|by apply elem_of_nil in Hf]|]. intros [Hb Hl]. left. split; [done|].
    intros ->. by apply Hd.
Qed.
Lemma walk_end_fields f :
  fs_h (walk_end f) = fs_h f /\ fs_checked_pages (walk_end f) = fs_checked_pages f /\
  fs_freed_pages (walk_end f) = fs_freed_pages f /\ fs_first_need_free (walk_end f) = fs_first_need_free f /\
  fs_possible_head (walk_end f) = (if fs_found_head f then fs_possible_head f else fs_curr f).
Proof. unfold walk_end. by destruct (fs_found_head f). Qed.

Lemma walk_head m s1 f :
  gc_inv pre [] m s1 f -> fs_possible_head (walk_end f) = new_head.
Proof.
  intros I. destruct (walk_end_fields f) as (_ & _ & _ & _ & ->). rewrite (gi_found _ _ _ _ _ I), (gi_head _ _ _ _ _ I), (gi_curr _ _ _ _ _ I).
  unfold new_head. destruct (live_pages s pre) as [|b l]; [by rewrite bool_decide_true|by rewrite bool_decide_false].
Qed.

(** The device at the end: the chain, the record, and what is untouched. *)
Lemma final_mem new pi m s1 f ah m' :
  gc_new new pi -> gc_inv pre [] m s1 f ->
  m' = store 8 (store 8 (linked_mem new m) (pi + 64) new_head) (pi + 80) ah ->
  log_chain s m' (live_pages s pre ++ t :: post ++ new) /\ load 8 m' (pi + 64) = new_head /\
  (forall x, (forall b, b ∈ pre ++ [last_page_of] -> ~ link_word s b x) ->
    ~ (pi + 64 <= x < pi + 72) -> ~ (pi + 80 <= x < pi + 88) -> mget m' x = mget (nvmm s) x).
Proof.
  intros N I ->. split_and!.
  - apply (linked_to_ext _ (linked_mem new m)); [by eapply new_linked|]. intros p (c & -> & Hc)%list_elem_of_fmap.
    apply load_ext. intros x Hx. assert (in_page s c x) as Hp.
    { apply link_word_page. unfold link_word. cbn in Hx. lia. }
    assert (c ∈ pre ++ t :: post ++ new) as Hin.
    { apply elem_of_app in Hc as [[Hc _]%elem_live|Hc]; set_solver. }
    pose proof (gn_pi_apart _ _ N c x Hin Hp). rewrite !mget_store_out; [done|cbn; lia..].
  - rewrite load_store_other by (cbn; lia). apply load_store_same.
    assert (page_ok s (default t (head (live_pages s pre)))) as [P1 P2].
    { apply (gl_held _ _ _ _ G). destruct (live_pages s pre) as [|b l] eqn:E; cbn; [set_solver|].
      assert (b ∈ live_pages s pre) as [Hb _]%elem_live by (rewrite E; by left). set_solver. }
    destruct (lc_dev _ C0) as (Hv & Hsz & _). unfold new_head, page_off in *. cbn. lia.
  - intros x Hx H64 H80. rewrite !mget_store_out by (cbn; lia).
    assert (mget (linked_mem new m) x = mget m x) as ->.
    { unfold linked_mem. destruct (0 <? Z.of_nat (length new)); [|done]. apply mget_store_out.
      intros Hw. apply (Hx last_page_of); [set_solver|]. unfold link_word. cbn in Hw. lia. }
    apply (gi_mem _ _ _ _ _ I). intros b Hb. apply Hx. set_solver.
Qed.

Lemma fast_gc_pages_run new pi curr_tail alter :
  gc_new new pi -> BLOCK_OFF curr_tail = page_off last_page_of ->
  exists ah s', fast_gc_pages pi h curr_tail (default 0 (head (page_off <$> new))) alter (Z.of_nat (length new)) s
    = Ok (set_ih_log_pages (u64 (ih_log_pages h + (Z.of_nat (length new) - Z.of_nat (length (dead_pages s pre)))))
            (set_log_heads new_head ah (counted s pre h)), Z.of_nat (length (live_pages s pre))) s' /\
    gc_effect new pi s'.
Proof.
  intros N Ht. unfold fast_gc_pages. rewrite (bind_ok _ _ s (chain_fuel s) s) by done.
  assert (length pre <= chain_fuel s)%nat as Hfuel.
  { pose proof (log_pages_bound s (pre ++ t :: post) (gl_nodup _ _ _ _ G)) as Hb.
    destruct (gl_held _ _ _ _ G t) as [[P1 P2] _]; [set_solver|]. unfold page_off in P2.
    assert (length (pre ++ t :: post) < chain_fuel s)%nat as Hl; [|rewrite length_app in Hl; lia].
    apply Hb; [intros b Hb'; by apply (gl_held _ _ _ _ G)|lia]. }
  destruct (fast_gc_loop_run pre [] _ _ _ (chain_fuel s) gc_inv_start Hfuel) as (f & m & s1 & E1 & I).
  rewrite (bind_ok _ _ _ _ _ E1). destruct (walk_end_fields f) as (-> & -> & -> & -> & _). rewrite (walk_head _ _ _ I).
  set (ah := fs_alter_possible_head (walk_end f)). clearbody ah.
  destruct (link_new_pages_run new pi curr_tail alter m s1 f N I Ht) as (s2 & E2 & F2). rewrite (bind_ok _ _ _ _ _ E2).
  rewrite (gi_checked _ _ _ _ _ I), (gi_nfreed _ _ _ _ _ I), (gi_first _ _ _ _ _ I), (gi_h _ _ _ _ _ I), Hmeta, (gl_type _ _ _ _ G).
  cbn [negb Z.eqb]. set (m' := store 8 (store 8 (linked_mem new m) (pi + 64) new_head) (pi + 80) ah).
  destruct (final_mem new pi m s1 f ah m' N I eq_refl) as (Fc & Fp & Fr).
  pose proof (live_dead_length s pre) as Hld. pose proof (gl_len _ _ _ _ G). pose proof (gn_len _ _ N).
  assert (forall A (x y : A) s', x = y -> (@Ok A x s') = Ok y s') as Ok_eq by (intros; by subst).
  match goal with |- exists _ _, ?M0 s2 = _ /\ _ => assert (wp M0 (fun r s' => r = (set_ih_log_pages (u64 (ih_log_pages h + (Z.of_nat (length new) - Z.of_nat (length (dead_pages s pre)))))
            (set_log_heads new_head ah (counted s pre h)), Z.of_nat (length (live_pages s pre))) /\ gc_effect new pi s') s2) as W end.
  { destruct (gn_pi _ _ N). eapply heads_run; [exact F2|done|done|]. intros s3 F3. fold m' in F3.
    assert (exists s4, when (bool_decide (first_page ∈ dead_pages s pre)) (free_first_page NOVA_BLOCK_TYPE_4K
        (sih_log_head (ih_base h)) (sih_alter_log_head (ih_base h))) s3 = Ok tt s4 /\
      log_freed (set_nvmm m' s) s4 (dead_pages s pre)) as (s4 & E4 & F4).
    { pose proof (log_freed_same (set_nvmm m' s)) as Hsame. pose proof gone_first as Hg.
      destruct (bool_decide (first_page ∈ dead_pages s pre)) eqn:Hd; cbn [when].
      - apply bool_decide_eq_true, elem_dead in Hd as [Hd _].
        destruct (free_page_run m' s3 (gone pre) first_page F3) as (s4 & E4 & F4).
        { apply (gl_held _ _ _ _ G). set_solver. } { rewrite elem_gone. tauto. }
        exists s4. split; [|by eapply Hsame]. unfold free_first_page. rewrite (gl_head _ _ _ _ G), page_off_nr. fold first_page.
        rewrite (bind_ok _ _ _ _ _ E4), Hmeta. done.
      - exists s3. split; [done|]. eapply Hsame; [|exact F3]. intros b. specialize (Hg b). rewrite app_nil_r in Hg. exact Hg. }
    apply wp_bind. eapply wp_ok; [exact E4|]. apply wp_ret. split.
    - f_equal.
      + cbn [ih_log_pages set_log_heads set_ih_base counted set_ih_valid_entries set_ih_num_entries].
        set (d := Z.of_nat (length new) - Z.of_nat (length (dead_pages s pre))).
        assert (s32 d = d) as Ed by (apply swrap_small; lia). by rewrite Z.mul_1_r, Ed, Ed.
      + rewrite uwrap_small; lia.
    - assert (nvmm s4 = m') as En by apply F4. split; rewrite En; done. }
  apply wp_run in W as (r & s' & E & -> & Ge). exists ah, s'. split; [exact E|exact Ge].
Qed.
(** Fast collection decides that the pages that stay are full enough. *)
Definition stays_fast : bool :=
  let hc := counted s pre h in
  let n := Z.of_nat (length (live_pages s pre)) in
  let blocks := gc_estimate hc n in
  (ih_num_entries hc =? 0) || (blocks =? 0) || (n <=? u64 (blocks * 2)).

Lemma fast_gc_run d new pi curr_tail alter :
  gc_new new pi -> BLOCK_OFF curr_tail = page_off last_page_of -> stays_fast = true ->
  exists ah s', nova_inode_log_fast_gc pi h curr_tail (default 0 (head (page_off <$> new))) alter (Z.of_nat (length new)) false d s
    = Ok (set_ih_log_pages (u64 (ih_log_pages h + (Z.of_nat (length new) - Z.of_nat (length (dead_pages s pre)))))
            (set_log_heads new_head ah (counted s pre h)), d) s' /\
    gc_effect new pi s'.
Proof.
  intros N Ht Hfast. destruct (fast_gc_pages_run new pi curr_tail alter N Ht) as (ah & s' & E & Ge).
  exists ah, s'. split; [|done]. unfold nova_inode_log_fast_gc.
  rewrite (sbind_lift _ _ d _ _ _ E).
  unfold stays_fast in Hfast. cbn [ih_num_entries set_ih_log_pages set_log_heads set_ih_base].
  set (hh := set_ih_log_pages _ _). assert (gc_estimate hh = gc_estimate (counted s pre h)) as Eg by done.
  change (ih_num_entries hh) with (ih_num_entries (counted s pre h)). rewrite Eg.
  destruct (ih_num_entries (counted s pre h) =? 0); [done|]. cbn [orb] in Hfast. cbv zeta. cbn [orb].
  destruct (gc_estimate (counted s pre h) (Z.of_nat (length (live_pages s pre))) =? 0); cbn [negb andb]; [done|].
  cbn [orb] in Hfast. apply Z.leb_le in Hfast. by rewrite (proj2 (Z.ltb_ge _ _) Hfast).
Qed.
End spec.

(** C19: fast collection of a log ends; exactly the pages before the tail
    page whose entries are all invalid become free, also the first one; the
    others keep their order and contents but for the links, are followed by the
    tail page, by what was behind it and by the new pages, and are what the
    inode's record and the header name as the log. *)
Theorem nova_inode_log_fast_gc_correct `{NovaEnv, RbLibOk, MediaLib}
    s d h pre t post new pi curr_tail alter :
  (forall a n, memcpy_mcsafe_rc a n = 0) -> metadata_csum = 0 -> log_ctx s -> lists_apart s ->
  (forall p, (alloc_clock s <= p)%positive -> kmem_cache_zalloc_ok p = true) ->
  gc_log s h pre t post -> gc_new s pre t post new pi ->
  BLOCK_OFF curr_tail = page_off (last_page_of t post) -> stays_fast s h pre = true ->
  exists ah s', nova_inode_log_fast_gc pi h curr_tail (default 0 (head (page_off <$> new))) alter (Z.of_nat (length new)) false d s
    = Ok (set_ih_log_pages (u64 (ih_log_pages h + (Z.of_nat (length new) - Z.of_nat (length (dead_pages s pre)))))
            (set_log_heads (new_head s pre t) ah (counted s pre h)), d) s' /\
    gc_effect s pre t post new pi s'.
Proof. intros Hrc Hmeta C A Hs G N. by apply fast_gc_run. Qed.
