(* ===== verification/LogAppendSpec.v ===== *)
(** Appending a directory entry: where it goes, and what the log is afterwards.

    [dir_walk] is [dir_log] with the positions the walk visits; [log_media] says
    that a chain of pages holds such a log: [pre] are the pages it fills, [bt] the
    page of its tail at offset [r], [post] pages that are still empty. *)

From stdpp Require Import strings.
From S2P Require Import Prelude CInt Crc32c NovaEnv RangeNode Pmem NovaState NovaMonad NovaLib.
From S2P Require Import Balloc BallocSpec BallocAlloc NovaLayout PmemOps LogPage LogPageSpec RangeLog RangeRoundtrip InodeTable Journal.
From S2P Require Import Checksum Parity MetaCsum LogEntry Snapshot SnapshotSpec FileTree DirTree DirTreeSpec Rebuild RebuildSpec LogGc LogAppend.

Local Open Scope nova_scope.
Local Open Scope string_scope.
Local Open Scope list_scope.
Local Open Scope Z_scope.

Record visit := mkVisit { v_at : Z; v_entry : Z; v_len : Z }.

(** The item whose entry, of length [len], is at position [q]. *)
Definition item_at (s : nova) (q len : Z) (i : dir_item) : Prop :=
  match i with
  | IDentry addr name ino inv =>
      addr = nova_get_block s q /\ dentry_rep s addr name ino inv len /\ 48 + Z.of_nat (length name) <= len
  | IAttr =>
      (in_pmem s (nova_get_block s q) 56 = true /\ load 1 (nvmm s) (nova_get_block s q) = entry_type_val SET_ATTR /\
         S_ISREG (load 2 (nvmm s) (nova_get_block s q + 2)) = false /\ len = sizeof nova_setattr_logentry) \/
      (in_pmem s (nova_get_block s q) 40 = true /\ load 1 (nvmm s) (nova_get_block s q) = entry_type_val LINK_CHANGE /\
         len = sizeof nova_link_change_entry)
  end.

Inductive dir_walk (s : nova) (t : Z) : Z -> list dir_item -> list visit -> Prop :=
| dw_end : dir_walk s t t [] []
| dw_step p q len i rest vs :
    p <> t -> cursor_at s p q -> item_at s q len i -> dir_walk s t (u64 (q + len)) rest vs ->
    dir_walk s t p (i :: rest) (mkVisit p q len :: vs).

Lemma dir_walk_log s t p items vs : dir_walk s t p items vs -> dir_log s t p items.
Proof.
  induction 1 as [|p q len i rest vs Hne C Hi _ IH]; [constructor|].
  destruct i as [addr name ino inv|].
  - destruct Hi as (-> & D & _). by eapply dl_dentry.
  - destruct Hi as [(Hp & Ht & Hm & ->)|(Hp & Ht & ->)]; [by eapply dl_setattr|by eapply dl_link].
Qed.

(** ** Devices that differ only where nothing is read *)

(** [s'] has what [s] has at the [n] bytes from [a] on. *)
Definition keeps (s s' : nova) (a n : Z) : Prop := forall x, a <= x < a + n -> mget (nvmm s') x = mget (nvmm s) x.

Lemma keeps_load s s' a n k b :
  keeps s s' a n -> a <= b -> b + Z.of_nat k <= a + n -> load k (nvmm s') b = load k (nvmm s) b.
Proof. intros K H1 H2. apply load_ext. intros x Hx. apply K. lia. Qed.

Lemma item_keep s s' q len i :
  sbc s' = sbc s -> keeps s s' (nova_get_block s q) len -> item_at s q len i -> item_at s' q len i.
Proof.
  intros Es K. assert (nova_get_block s' q = nova_get_block s q) as Eb by (unfold nova_get_block; by rewrite Es).
  assert (forall a n, in_pmem s' a n = in_pmem s a n) as Ep by (intros; unfold in_pmem; by rewrite Es).
  destruct i as [addr name ino inv|]; cbn [item_at]; rewrite Eb.
  - intros (-> & [D1 D2 D3 D4 D5 D6 D7 D8] & Hl). split_and!; [done| |done].
    split; rewrite ?Ep; try done; rewrite ?(keeps_load s s' _ len _ _ K) by (cbn; lia); try done.
    rewrite <- D8 at 2. apply load_bytes_ext. intros x Hx. apply K. lia.
  - change (sizeof nova_setattr_logentry) with 56. change (sizeof nova_link_change_entry) with 40.
    rewrite !Ep. intros [(Hp & Ht & Hm & ->)|(Hp & Ht & ->)]; [left|right];
      rewrite ?(keeps_load s s' _ _ _ _ K) by lia; done.
Qed.

Lemma cursor_keep s s' p q :
  sbc s' = sbc s -> ((LOG_BLOCK_TAIL <? ENTRY_LOC p + 32) = false -> keeps s s' (nova_get_block s p) 1) ->
  keeps s s' (nova_get_block s (BLOCK_OFF p) + 4088) 8 -> cursor_at s p q -> cursor_at s' p q.
Proof.
  intros Es K1 K2 [C1 C2 C3 C4].
  assert (forall x, nova_get_block s' x = nova_get_block s x) as Eb by (intros; unfold nova_get_block; by rewrite Es).
  assert (forall a n, in_pmem s' a n = in_pmem s a n) as Ep by (intros; unfold in_pmem; by rewrite Es).
  assert (log_end s' p = log_end s p) as Ee.
  { unfold log_end. rewrite Eb. destruct (LOG_BLOCK_TAIL <? ENTRY_LOC p + 32) eqn:E; [done|]. cbn [orb].
    by rewrite (keeps_load s s' _ 1 1 _ (K1 eq_refl)) by (cbn; lia). }
  split; rewrite ?Ee, ?Eb, ?Ep; try done. intros He. destruct (C3 He) as [Hp Hq]. split; [done|].
  etransitivity; [|exact Hq]. eapply keeps_load; [exact K2|lia|lia].
Qed.

(** A walk whose reads are kept, with one more entry behind its end. *)
Lemma dir_walk_snoc s s' t t' p items vs q len i :
  sbc s' = sbc s -> dir_walk s t p items vs ->
  (forall v, v ∈ vs -> v_at v <> t' /\
     ((LOG_BLOCK_TAIL <? ENTRY_LOC (v_at v) + 32) = false -> keeps s s' (nova_get_block s (v_at v)) 1) /\
     keeps s s' (nova_get_block s (BLOCK_OFF (v_at v)) + 4088) 8 /\ keeps s s' (nova_get_block s (v_entry v)) (v_len v)) ->
  t <> t' -> cursor_at s' t q -> item_at s' q len i -> u64 (q + len) = t' ->
  dir_walk s' t' p (items ++ [i]) (vs ++ [mkVisit t q len]).
Proof.
  intros Es W. induction W as [|p q0 len0 i0 rest vs Hne C Hi W IH]; intros Hv Ht Cq Hq Et.
  - cbn [app]. apply dw_step; [done|done|done|]. rewrite Et. constructor.
  - cbn [app]. destruct (Hv (mkVisit p q0 len0)) as (V1 & V2 & V3 & V4); [by left|]. cbn [v_at v_entry v_len] in *.
    apply dw_step; [done|by eapply cursor_keep|by eapply item_keep|].
    apply IH; try done. intros v Hin. apply Hv. by right.
Qed.

Lemma dir_walk_keep s s' t p items vs :
  sbc s' = sbc s -> dir_walk s t p items vs ->
  (forall v, v ∈ vs ->
     ((LOG_BLOCK_TAIL <? ENTRY_LOC (v_at v) + 32) = false -> keeps s s' (nova_get_block s (v_at v)) 1) /\
     keeps s s' (nova_get_block s (BLOCK_OFF (v_at v)) + 4088) 8 /\ keeps s s' (nova_get_block s (v_entry v)) (v_len v)) ->
  dir_walk s' t p items vs.
Proof.
  intros Es W. induction W as [|p q0 len0 i0 rest vs Hne C Hi W IH]; intros Hv; [constructor|].
  destruct (Hv (mkVisit p q0 len0)) as (V2 & V3 & V4); [by left|]. cbn [v_at v_entry v_len] in *.
  apply dw_step; [done|by eapply cursor_keep|by eapply item_keep|]. apply IH. intros v Hin. apply Hv. by right.
Qed.

(** ** The log on its pages *)
Definition visit_ok (pre : list Z) (bt r : Z) (v : visit) : Prop :=
  (exists c o, v_at v = page_off c + o /\ 0 <= o < 4096 /\ (c ∈ pre \/ c = bt /\ o < r)) /\
  (exists c o, v_entry v = page_off c + o /\ 0 <= o /\ 0 < v_len v /\ o + v_len v <= LOG_BLOCK_TAIL /\
     (c ∈ pre \/ c = bt /\ o + v_len v <= r)).

Definition first_of (pre : list Z) (bt : Z) : Z := default bt (head pre).

(** The last page of the device is reserved: no log page is its last one
    ([lb_spare]). *)
Record log_body (s : nova) (pre : list Z) (bt r : Z) (post : list Z) (items : list dir_item) (vs : list visit) : Prop := {
  lb_media : media_ok s;
  lb_bs : s_blocksize (sbc s) = 4096;
  lb_nodup : NoDup (pre ++ bt :: post);
  lb_pages : forall b, b ∈ pre ++ bt :: post -> page_ok s b;
  lb_spare : forall b, b ∈ pre ++ bt :: post -> page_off b + 8192 <= initsize (sbc s);
  lb_chain : log_chain s (nvmm s) (pre ++ bt :: post);
  lb_off : 0 <= r <= LOG_BLOCK_TAIL;
  lb_walk : dir_walk s (page_off bt + r) (page_off (first_of pre bt)) items vs;
  lb_visits : forall v, v ∈ vs -> visit_ok pre bt r v
}.

(** [pi] is the inode's record: it names the first page and the tail. *)
Record log_record (s : nova) (pi : Z) (pre : list Z) (bt r : Z) (post : list Z) : Prop := {
  lm_pi : virt_addr (sbc s) <= pi /\ pi + 128 <= virt_addr (sbc s) + initsize (sbc s);
  lm_pi_apart : forall b x, b ∈ pre ++ bt :: post -> in_page s b x -> ~ (pi <= x < pi + 128);
  lm_head : load 8 (nvmm s) (pi + 64) = page_off (first_of pre bt);
  lm_tail : load 8 (nvmm s) (pi + 72) = page_off bt + r
}.

(** ** A new entry *)

(** The device after the entry at [e] was filled in. *)
Definition dentry_mem (m : mem) (e size epoch trans ino mtime links : Z) (name : list Z) : mem :=
  store 2 (store 2 (store 4
    (store 1 (store_bytes (store 1 (store 8 (store 8 (store 8 (store 1
      (store_bytes m e (replicate (Z.to_nat size) 0))
      e (entry_type_val DIR_LOG)) (e + 32) epoch) (e + 40) trans) (e + 16) ino) (e + 1) (Z.of_nat (length name)))
      (e + 48) name) (e + 48 + Z.of_nat (length name)) 0)
    (e + 8) mtime) (e + 6) links) (e + 4) size.

Definition rec_len (name : list Z) : Z := NOVA_DIR_LOG_REC_LEN (Z.of_nat (length name)).

Lemma rec_len_bounds name :
  rec_len name mod 8 = 0 /\ 49 + Z.of_nat (length name) <= rec_len name <= 56 + Z.of_nat (length name).
Proof.
  unfold rec_len, NOVA_DIR_LOG_REC_LEN, NOVA_DIR_ROUND, NOVA_DENTRY_HEADER_LEN. change (8 - 1) with (2 ^ 3 - 1).
  rewrite land_lnot_mask by done. change (2 ^ 3) with 8. change (8 - 1) with 7.
  set (n := Z.of_nat (length name) + 1 + 48 + 7). assert (0 <= n mod 8 < 8) by (apply Z.mod_pos_bound; lia).
  pose proof (Z.div_mod n 8 ltac:(lia)). split; [|lia].
  replace (n - n mod 8) with ((n / 8) * 8) by lia. apply Z.mod_mul. lia.
Qed.

Ltac skip_stores := repeat first [rewrite load_store_other by lia | rewrite load_store_bytes_other by lia].

Lemma dentry_mem_loads m m' e epoch trans ino mtime links name :
  m' = dentry_mem m e (rec_len name) epoch trans ino mtime links name ->
  Z.of_nat (length name) < 256 -> 0 <= ino < 2 ^ 64 ->
  load 1 m' e = entry_type_val DIR_LOG /\ load 1 m' (e + 1) = Z.of_nat (length name) /\ load 1 m' (e + 3) = 0 /\
  load 2 m' (e + 4) = rec_len name /\ load 8 m' (e + 16) = ino /\ load_bytes m' (e + 48) (length name) = name /\
  (forall x, ~ (e <= x < e + rec_len name) -> mget m' x = mget m x).
Proof.
  intros -> Hn Hi. destruct (rec_len_bounds name) as [_ Hr]. unfold dentry_mem. split_and!.
  - skip_stores. by apply load_store_same.
  - skip_stores. apply load_store_same. cbn. lia.
  - skip_stores. apply load_zero. intros x Hx. rewrite mget_store_bytes, length_replicate, decide_True by (cbn in Hx; lia).
    by rewrite lookup_replicate_2 by (cbn in Hx; lia).
  - apply load_store_same. cbn. lia.
  - skip_stores. apply load_store_same. cbn. lia.
  - etransitivity; [|eapply load_store_bytes_same]. apply load_bytes_ext. intros x Hx.
    rewrite 4!mget_store_out by (cbn; lia). reflexivity.
  - intros x Hx. rewrite !mget_store_out by (cbn; lia). rewrite mget_store_bytes_out by lia.
    rewrite !mget_store_out by (cbn; lia). rewrite mget_store_bytes_out; [done|]. rewrite length_replicate. lia.
Qed.

Lemma page_pos s b o : page_ok s b -> 0 <= o -> nova_get_block s (page_off b + o) = virt_addr (sbc s) + page_off b + o.
Proof. intros [Hb _] Ho. unfold nova_get_block, page_off in *. rewrite (proj2 (Z.eqb_neq _ 0)) by lia. lia. Qed.

Lemma page_block s b : page_ok s b -> nova_get_block s (page_off b) = virt_addr (sbc s) + page_off b.
Proof. intros P. rewrite <- (Z.add_0_r (page_off b)) at 1. rewrite page_pos by (done || lia). lia. Qed.

Section spec.
Context `{NovaEnv, RbLibOk, MediaLib, ParityEnv}.
Context (Hrc : forall a n, memcpy_mcsafe_rc a n = 0) (Hmeta : metadata_csum = 0) (Hmedia : forall t a, poisoned t a = false).

Lemma wp_pstore_bytes m s0 s ev a l (Q : unit -> nova -> Prop) :
  mem_upd m s0 s -> writable s = true -> in_pmem s0 a (length l) = true ->
  (forall s', mem_upd (store_bytes m a l) s0 s' -> writable s' = true -> Q tt s') ->
  wp (pstore_bytes ev a l) Q s.
Proof.
  intros U W Hin HQ. unfold wp. rewrite pstore_bytes_run; [|by rewrite (mem_upd_in_pmem _ _ _ _ _ U)|done].
  apply HQ; [|done]. pose proof U as (w & t & ->). by eexists _, _.
Qed.

Lemma wp_dentry_field m s0 s e f v N (Q : unit -> nova -> Prop) :
  mem_upd m s0 s -> writable s = true -> in_pmem s0 e N = true -> 0 <= offsetof nova_dentry f ->
  offsetof nova_dentry f + Z.of_nat (sizeof_field nova_dentry f) <= Z.of_nat N ->
  (forall s', mem_upd (store (sizeof_field nova_dentry f) m (e + offsetof nova_dentry f) v) s0 s' -> writable s' = true -> Q tt s') ->
  wp (pstore_field nova_dentry e f v) Q s.
Proof.
  intros U W Hp Ho Hn HQ. unfold pstore_field, field_addr. eapply wp_pstore; [exact U|done| |exact HQ].
  eapply in_pmem_sub; [exact Hp|lia|lia].
Qed.

Definition dentry_info (name : list Z) (ino link_change epoch trans : Z) : nova_log_entry_info :=
  mkEntryInfo DIR_LOG (mkAttr 0 0) name epoch trans ino 0 (rec_len name) link_change false.

Ltac dentry_step Hp :=
  eapply wp_dentry_field; [eassumption|assumption|exact Hp|done| |];
    [match goal with |- ?x + ?y <= _ => let v := eval vm_compute in (x + y) in change (x + y) with v end; lia|]; intros ? ? ?.

Lemma wp_new_dentry m s0 s dir e name ino lc epoch trans i_flags (Q : Z -> nova -> Prop) :
  mem_upd m s0 s -> writable s = true -> in_pmem s0 e (Z.to_nat (rec_len name)) = true -> Z.of_nat (length name) < 256 ->
  (forall s', mem_upd (dentry_mem m e (rec_len name) epoch trans ino (u32 (vi_mtime dir)) (new_links_count (vi_nlink dir) lc) name) s0 s' ->
     writable s' = true -> Q 0 s') ->
  wp (pstore_bytes EvStore e (replicate (Z.to_nat (rec_len name)) 0) ;;;
      nova_update_log_entry i_flags dir e (dentry_info name ino lc epoch trans)) Q s.
Proof.
  intros U W Hp Hn HQ. destruct (rec_len_bounds name) as [_ Hr].
  assert (uwrap 8 (Z.of_nat (length name)) = Z.of_nat (length name)) as En by (apply uwrap_small; lia).
  assert (uwrap 16 (rec_len name) = rec_len name) as El by (apply uwrap_small; lia).
  apply wp_bind. eapply wp_pstore_bytes; [exact U|done|by rewrite length_replicate|]. intros s1 U1 W1.
  unfold nova_update_log_entry, dentry_info. cbn [ei_type ei_inplace]. apply wp_bind. unfold nova_update_new_dentry.
  cbn [ei_data ei_epoch_id ei_trans_id ei_ino ei_link_change ei_file_size]. rewrite En, El.
  do 5 (apply wp_bind; dentry_step Hp). apply wp_bind. unfold memcpy_to_pmem_nocache. apply wp_bind.
  eapply wp_pstore_bytes; [eassumption|assumption| |].
  { eapply in_pmem_sub; [exact Hp|unfold field_addr; change (offsetof nova_dentry "name") with 48; lia..]. }
  intros ? ? ?. apply wp_ret. apply wp_bind. eapply wp_pstore; [eassumption|assumption| |].
  { eapply in_pmem_sub; [exact Hp|unfold field_addr; change (offsetof nova_dentry "name") with 48; lia..]. }
  intros ? ? ?. do 3 (apply wp_bind; dentry_step Hp).
  apply wp_bind. unfold nova_update_entry_csum. rewrite Hmeta. cbn [Z.eqb].
  eapply wp_flush; [eassumption|done|done|]. intros sz Uz Wz. apply wp_ret, wp_ret.
  apply HQ; [|congruence]. unfold dentry_mem. unfold field_addr in Uz. rewrite Z.add_0_r in Uz. exact Uz.
Qed.

(** The entry at offset [o] of page [c]. *)
Lemma wp_fill_dentry m s0 s h dir c o name ino lc epoch trans (Q : unit -> nova -> Prop) :
  mem_upd m s0 s -> media_ok s0 -> page_ok s0 c -> 0 <= o -> o + rec_len name <= LOG_BLOCK_TAIL ->
  Z.of_nat (length name) < 256 ->
  (forall s' n, mem_upd (store 4 (dentry_mem m (virt_addr (sbc s0) + page_off c + o) (rec_len name) epoch trans ino
       (u32 (vi_mtime dir)) (new_links_count (vi_nlink dir) lc) name) (virt_addr (sbc s0) + page_off c + 4068) n) s0 s' -> Q tt s') ->
  wp (fill_entry h dir (page_off c + o) (rec_len name) (dentry_info name ino lc epoch trans) true) Q s.
Proof.
  intros U [Hv Hsz] P Ho Hfit Hn HQ. destruct (rec_len_bounds name) as [_ Hr]. unfold LOG_BLOCK_TAIL in *.
  pose proof P as [P1 P2]. unfold page_off in P2.
  assert (virt_addr (sbc s0) + c * 4096 + 4096 <= virt_addr (sbc s0) + initsize (sbc s0)) as Hend by lia.
  unfold fill_entry. apply wp_bind, wp_gets. rewrite (mem_upd_block _ _ _ _ U), (page_pos s0 c o P Ho).
  set (e := virt_addr (sbc s0) + page_off c + o). assert (e = virt_addr (sbc s0) + c * 4096 + o) as Ee by (unfold e, page_off; lia).
  apply wp_bind. eapply wp_memunlock; [exact U|lia|lia|lia|lia|lia|]. intros s1 U1 W1.
  pose proof (wp_new_dentry m s0 s1 dir e name ino lc epoch trans (ih_i_flags h)) as Wd.
  assert (forall (k : M unit) (Q : unit -> nova -> Prop), wp ((pstore_bytes EvStore e (replicate (Z.to_nat (rec_len name)) 0) ;;;
      nova_update_log_entry (ih_i_flags h) dir e (dentry_info name ino lc epoch trans)) ;;; k) Q s1 ->
    wp (pstore_bytes EvStore e (replicate (Z.to_nat (rec_len name)) 0) ;;;
      let! _ := nova_update_log_entry (ih_i_flags h) dir e (dentry_info name ino lc epoch trans) in k) Q s1) as Assoc.
  { intros k Q'. unfold wp, bind. by destruct (pstore_bytes EvStore e _ s1). }
  apply Assoc. apply wp_bind. apply Wd; [exact U1|done|apply in_pmem_spec; lia|done|]. intros s2 U2 W2.
  cbn [when]. apply wp_bind. unfold nova_inc_page_num_entries.
  destruct (off_split c o ltac:(lia)) as [_ ->]. apply wp_bind, wp_gets. rewrite (mem_upd_block _ _ _ _ U2), (page_block s0 c P).
  unfold pload_field, pstore_field. change (sizeof_field nova_inode_log_page "num_entries") with 4%nat.
  change (field_addr nova_inode_log_page (virt_addr (sbc s0) + page_off c) "num_entries") with (virt_addr (sbc s0) + page_off c + 4068).
  assert (in_pmem s0 (virt_addr (sbc s0) + page_off c + 4068) 4 = true) as Hp4 by (apply in_pmem_spec; unfold page_off; lia).
  apply wp_bind. eapply wp_pload; [exact U2|exact Hp4|]. apply wp_bind.
  eapply wp_pstore; [exact U2|done|exact Hp4|]. intros s3 U3 W3. eapply wp_flush; [exact U3|done|done|]. intros s4 U4 W4.
  eapply wp_memlock; [exact U4|]. intros s5 U5. eapply HQ. exact U5.
Qed.
(** ** The position *)
Lemma entry_loc_tail bt r : 0 <= r <= LOG_BLOCK_TAIL -> ENTRY_LOC (page_off bt + r) = r /\ BLOCK_OFF (page_off bt + r) = page_off bt.
Proof. intros Hr. apply off_split. unfold LOG_BLOCK_TAIL in Hr. lia. Qed.

Lemma is_last_tail bt r size :
  0 <= r <= LOG_BLOCK_TAIL -> 0 <= size <= LOG_BLOCK_TAIL ->
  is_last_entry (page_off bt + r) size = (LOG_BLOCK_TAIL <? r + size).
Proof.
  intros Hr Hs. unfold is_last_entry. destruct (entry_loc_tail bt r Hr) as [-> _].
  unfold LOG_BLOCK_TAIL in *. rewrite uwrap_small by lia. done.
Qed.

Lemma wp_end_page s bt r (Q : unit -> nova -> Prop) :
  media_ok s -> s_blocksize (sbc s) = 4096 -> page_ok s bt -> page_off bt + 8192 <= initsize (sbc s) -> 0 <= r <= LOG_BLOCK_TAIL ->
  (forall s', mem_upd (if LOG_BLOCK_TAIL <=? r then nvmm s
     else store 1 (nvmm s) (virt_addr (sbc s) + page_off bt + r) (entry_type_val NEXT_PAGE)) s s' -> Q tt s') ->
  wp (end_page (page_off bt + r)) Q s.
Proof.
  intros [Hv Hsz] Hbs P Hsp Hr HQ. pose proof P as [P1 P2]. unfold LOG_BLOCK_TAIL in *.
  unfold end_page. apply wp_bind, wp_gets. rewrite (page_pos s bt r P) by lia.
  apply wp_bind. unfold nova_memunlock_block. apply wp_bind, wp_gets. rewrite Hbs.
  eapply wp_memunlock; [apply mem_upd_refl|unfold page_off in *; lia..|]. intros s1 U1 W1. apply wp_bind.
  unfold nova_set_next_page_flag. destruct (entry_loc_tail bt r Hr) as [-> _]. change LOG_BLOCK_TAIL with 4064.
  destruct (4064 <=? r) eqn:E; zify_bool.
  - apply wp_ret. unfold nova_memlock_block. apply wp_bind, wp_gets. eapply wp_memlock; [exact U1|]. exact HQ.
  - apply wp_bind, wp_gets. rewrite (mem_upd_block _ _ _ _ U1), (page_pos s bt r P) by lia.
    apply wp_bind. unfold nova_set_entry_type. eapply wp_pstore; [exact U1|done|apply in_pmem_spec; unfold page_off in *; cbn; lia|].
    intros s2 U2 W2. eapply wp_flush; [exact U2|done|done|]. intros s3 U3 W3.
    unfold nova_memlock_block. apply wp_bind, wp_gets. eapply wp_memlock; [exact U3|]. exact HQ.
Qed.

(** The page after [bt]. *)
Lemma next_page_run s m s1 bt r b rest pre :
  mem_upd m s s1 -> media_ok s -> page_ok s bt -> 0 <= r <= LOG_BLOCK_TAIL ->
  log_chain s m (pre ++ bt :: b :: rest) -> next_log_page (page_off bt + r) s1 = Ok (page_off b) s1.
Proof.
  intros U [Hv Hsz] P Hr Ch. pose proof P as [P1 P2]. unfold next_log_page, read_tail. unfold bind at 1, gets.
  destruct (entry_loc_tail bt r Hr) as [_ ->]. rewrite (mem_upd_block _ _ _ _ U), (page_block s bt P).
  change (field_addr nova_inode_log_page (virt_addr (sbc s) + page_off bt) "next_page") with (log_link s (page_off bt)).
  assert (memcpy_mcsafe (log_link s (page_off bt)) 8 s1 = Ok (0, load_bytes m (log_link s (page_off bt)) 8) s1) as Em.
  { assert (wp (memcpy_mcsafe (log_link s (page_off bt)) 8) (fun r s' => r = (0, load_bytes m (log_link s (page_off bt)) 8) /\ s' = s1) s1) as W.
    { eapply wp_mcsafe; [exact U|apply Hrc| |done]. apply in_pmem_spec. unfold log_link, page_off in *. cbn. lia. }
    apply wp_run in W as (x & s' & E & -> & ->). exact E. }
  rewrite (bind_ok _ _ _ _ _ Em). cbn [fst snd negb Z.eqb]. unfold ret. f_equal.
  change (load 8 m (log_link s (page_off bt)) = page_off b). unfold log_chain in Ch. rewrite fmap_app, !fmap_cons in Ch.
  by apply linked_at in Ch.
Qed.

(** Where an entry of [size] bytes goes: the offset in its page, the page, and
    the pages before and behind it. *)
Inductive place (pre : list Z) (bt r : Z) (post : list Z) (size : Z) : list Z -> Z -> Z -> list Z -> Prop :=
| place_here : r + size <= LOG_BLOCK_TAIL -> place pre bt r post size pre bt r post
| place_next b rest : LOG_BLOCK_TAIL < r + size -> post = b :: rest -> place pre bt r post size (pre ++ [bt]) b 0 rest.

(** The device when the position is known: the old page may be marked. *)
Definition placed_mem (s : nova) (bt r bt' : Z) : mem :=
  if (bt' =? bt) || (LOG_BLOCK_TAIL <=? r) then nvmm s
  else store 1 (nvmm s) (virt_addr (sbc s) + page_off bt + r) (entry_type_val NEXT_PAGE).

Lemma append_head_run s d pi h pre bt r post size pre' bt' r' post' :
  media_ok s -> s_blocksize (sbc s) = 4096 -> NoDup (pre ++ bt :: post) ->
  (forall b, b ∈ pre ++ bt :: post -> page_ok s b /\ page_off b + 8192 <= initsize (sbc s)) ->
  log_chain s (nvmm s) (pre ++ bt :: post) -> 0 <= r <= LOG_BLOCK_TAIL -> 0 < size <= LOG_BLOCK_TAIL ->
  sih_log_tail (ih_base h) = page_off bt + r -> place pre bt r post size pre' bt' r' post' ->
  exists s', nova_get_append_head pi h 0 size MAIN_LOG false d s = Ok (page_off bt' + r', h, false, d) s' /\
    mem_upd (placed_mem s bt r bt') s s'.
Proof.
  intros Hmo Hbs ND Hpg Ch Hr Hsz Ht Hp. destruct (Hpg bt) as [Pb Hsp]; [set_solver|]. pose proof Pb as [Pb1 Pb2].
  unfold nova_get_append_head, append_head. cbn [Z.eqb negb]. change (MAIN_LOG =? MAIN_LOG) with true. cbv iota. rewrite Ht.
  assert (page_off bt + r <> 0) as Hne by (unfold page_off in *; lia).
  destruct Hp as [Hfit|b rest Hfit ->].
  - exists s. assert (is_last_entry (page_off bt + r) size = false) as El by (rewrite is_last_tail by lia; by apply Z.ltb_ge).
    assert (log_full (page_off bt + r) size s = Ok false s) as E1.
    { unfold log_full. rewrite (proj2 (Z.eqb_neq _ 0)), El by done. done. }
    rewrite (sbind_lift _ _ _ _ _ _ E1). assert (enter_page (page_off bt + r) size s = Ok (page_off bt + r) s) as E2
      by (unfold enter_page; by rewrite El).
    rewrite (sbind_lift _ _ _ _ _ _ E2). split; [done|]. unfold placed_mem. rewrite Z.eqb_refl. apply mem_upd_refl.
  - assert (is_last_entry (page_off bt + r) size = true) as El by (rewrite is_last_tail by lia; by apply Z.ltb_lt).
    assert (bt <> b) as Hbb.
    { intros ->. apply NoDup_app in ND as (_ & _ & ND). apply NoDup_cons in ND as [ND _]. set_solver. }
    destruct (Hpg b) as [[Pn1 Pn2] _]; [set_solver|].
    assert (log_full (page_off bt + r) size s = Ok false s) as E1.
    { unfold log_full. rewrite (proj2 (Z.eqb_neq _ 0)), El by done.
      rewrite (bind_ok _ _ _ _ _ (next_page_run s (nvmm s) s bt r b rest pre (mem_upd_refl s) Hmo Pb Hr Ch)).
      rewrite (proj2 (Z.eqb_neq _ 0)); [done|]. unfold page_off in *. lia. }
    rewrite (sbind_lift _ _ _ _ _ _ E1).
    assert (wp (end_page (page_off bt + r)) (fun _ s' => mem_upd (placed_mem s bt r b) s s') s) as W.
    { apply wp_end_page; [done..|]. intros s' U'. unfold placed_mem.
      rewrite (proj2 (Z.eqb_neq b bt)) by done. exact U'. }
    apply wp_run in W as ([] & s' & E2 & U'). exists s'. split; [|done].
    assert (log_chain s (placed_mem s bt r b) (pre ++ bt :: b :: rest)) as Ch'.
    { eapply linked_to_ext; [exact Ch|]. intros p (c & -> & Hc)%list_elem_of_fmap. unfold placed_mem.
      destruct ((b =? bt) || (LOG_BLOCK_TAIL <=? r)) eqn:Eo; [done|]. apply orb_false_iff in Eo as [_ Eo].
      zify_bool. apply load_store_other. destruct (decide (c = bt)) as [->|Hcb]; unfold log_link, page_off, LOG_BLOCK_TAIL in *; lia. }
    assert (enter_page (page_off bt + r) size s = Ok (page_off b + 0) s') as E3.
    { unfold enter_page. rewrite El, (bind_ok _ _ _ _ _ E2), Z.add_0_r.
      by rewrite (next_page_run s _ s' bt r b rest pre U' Hmo Pb Hr Ch'). }
    by rewrite (sbind_lift _ _ _ _ _ _ E3).
Qed.
(** ** The log afterwards *)
Definition appended_mem (s : nova) (bt r bt' r' : Z) (name : list Z) (ino epoch trans mtime links n : Z) : mem :=
  store 4 (dentry_mem (placed_mem s bt r bt') (virt_addr (sbc s) + page_off bt' + r') (rec_len name) epoch trans ino mtime links name)
    (virt_addr (sbc s) + page_off bt' + 4068) n.

(** What the append changes: the mark at the old tail, the entry, a counter. *)
Definition touched (s : nova) (bt r bt' r' size x : Z) : Prop :=
  (bt' <> bt /\ r < LOG_BLOCK_TAIL /\ x = virt_addr (sbc s) + page_off bt + r) \/
  virt_addr (sbc s) + page_off bt' + r' <= x < virt_addr (sbc s) + page_off bt' + r' + size \/
  virt_addr (sbc s) + page_off bt' + 4068 <= x < virt_addr (sbc s) + page_off bt' + 4072.

Lemma appended_keeps s bt r bt' r' name ino epoch trans mtime links n x :
  Z.of_nat (length name) < 256 -> 0 <= ino < 2 ^ 64 -> ~ touched s bt r bt' r' (rec_len name) x ->
  mget (appended_mem s bt r bt' r' name ino epoch trans mtime links n) x = mget (nvmm s) x.
Proof.
  intros Hn Hi Hx. unfold appended_mem, touched in *. rewrite mget_store_out by (cbn; lia).
  destruct (dentry_mem_loads (placed_mem s bt r bt') _ (virt_addr (sbc s) + page_off bt' + r') epoch trans ino mtime links name
    eq_refl Hn Hi) as (_ & _ & _ & _ & _ & _ & ->); [|lia].
  unfold placed_mem. destruct (Z.eqb_spec bt' bt); cbn [orb]; [done|]. destruct (LOG_BLOCK_TAIL <=? r) eqn:E; [done|].
  zify_bool. apply mget_store_out. cbn. lia.
Qed.

(** Addresses of the log that are not touched. *)
Lemma visit_untouched s pre bt r post size pre' bt' r' post' v :
  0 <= r <= LOG_BLOCK_TAIL -> NoDup (pre ++ bt :: post) -> place pre bt r post size pre' bt' r' post' -> 0 < size <= LOG_BLOCK_TAIL ->
  (forall b, b ∈ pre ++ bt :: post -> page_ok s b) -> visit_ok pre bt r v ->
  (forall x, nova_get_block s (v_entry v) <= x < nova_get_block s (v_entry v) + v_len v -> ~ touched s bt r bt' r' size x) /\
  (forall x, nova_get_block s (BLOCK_OFF (v_at v)) + 4088 <= x < nova_get_block s (BLOCK_OFF (v_at v)) + 4096 -> ~ touched s bt r bt' r' size x) /\
  ((LOG_BLOCK_TAIL <? ENTRY_LOC (v_at v) + 32) = false -> ~ touched s bt r bt' r' size (nova_get_block s (v_at v))) /\
  v_at v <> page_off bt' + (r' + size).
Proof.
  intros Hr ND Hp Hsz Pg [(c1 & o1 & E1 & Ho1 & H1') (c2 & o2 & E2 & Ho2 & Hl2 & Hf2 & H2')].
  assert (bt ∉ pre) as Hbp.
  { apply NoDup_app in ND as (_ & ND & _). intros Hb. apply (ND _ Hb). by left. }
  assert (bt' = bt /\ r' = r /\ r + size <= LOG_BLOCK_TAIL \/
          (bt' <> bt /\ bt' ∉ pre) /\ r' = 0 /\ LOG_BLOCK_TAIL < r + size) as Hc.
  { destruct Hp as [Hfit|b rest Hfit ->]; [by left|right]. split_and!; [| |done|done].
    - intros ->. apply NoDup_app in ND as (_ & _ & ND). apply NoDup_cons in ND as [ND _]. set_solver.
    - apply NoDup_app in ND as (_ & ND & _). intros Hb. apply (ND _ Hb). set_solver. }
  assert (page_ok s c1) as P1 by (apply Pg; destruct H1' as [?|[-> _]]; set_solver).
  assert (page_ok s c2) as P2 by (apply Pg; destruct H2' as [?|[-> _]]; set_solver).
  assert (c1 = bt -> o1 < r) as B1 by (intros ->; destruct H1' as [?|[_ ?]]; [done|lia]).
  assert (c2 = bt -> o2 + v_len v <= r) as B2 by (intros ->; destruct H2' as [?|[_ ?]]; [done|lia]).
  assert (bt' <> bt -> c1 <> bt' /\ c2 <> bt') as B3.
  { intros Hne. destruct Hc as [(-> & _)|((_ & Hn) & _)]; [done|].
    split; intros ->; [destruct H1' as [?|[-> _]]|destruct H2' as [?|[-> _]]]; done. }
  rewrite E1, E2. destruct (off_split c1 o1 Ho1) as [-> ->]. rewrite (page_pos s c2 o2 P2 Ho2), (page_pos s c1 o1 P1), (page_block s c1 P1) by lia.
  unfold touched, page_off, LOG_BLOCK_TAIL in *.
  split_and!.
  - intros x Hx Ht. destruct (decide (c2 = bt')), (decide (c2 = bt)), (decide (bt' = bt)); subst; lia.
  - intros x Hx Ht. destruct (decide (c1 = bt')), (decide (c1 = bt)), (decide (bt' = bt)); subst; lia.
  - intros Hz Ht. apply Z.ltb_ge in Hz. destruct (decide (c1 = bt')), (decide (c1 = bt)), (decide (bt' = bt)); subst; lia.
  - destruct (decide (c1 = bt')), (decide (c1 = bt)), (decide (bt' = bt)); subst; lia.
Qed.
Lemma place_list pre bt r post size pre' bt' r' post' :
  place pre bt r post size pre' bt' r' post' ->
  pre' ++ bt' :: post' = pre ++ bt :: post /\ first_of pre' bt' = first_of pre bt.
Proof.
  intros [Hfit|b rest Hfit ->]; [done|]. split; [by rewrite <- app_assoc|]. unfold first_of. by destruct pre.
Qed.

(** The new entry, as the walk finds it. *)
Lemma appended_entry s s' bt r bt' r' name ino epoch trans mtime links n :
  sbc s' = sbc s -> nvmm s' = appended_mem s bt r bt' r' name ino epoch trans mtime links n ->
  page_ok s bt' -> 0 <= r' -> r' + rec_len name <= LOG_BLOCK_TAIL -> name <> [] -> Z.of_nat (length name) < 256 -> 0 <= ino < 2 ^ 64 ->
  item_at s' (page_off bt' + r') (rec_len name) (IDentry (virt_addr (sbc s) + page_off bt' + r') name ino false) /\
  load 1 (nvmm s') (virt_addr (sbc s) + page_off bt' + r') = entry_type_val DIR_LOG.
Proof.
  intros Es En P Hr Hfit Hne Hn Hi. destruct (rec_len_bounds name) as [_ Hl].
  set (e := virt_addr (sbc s) + page_off bt' + r').
  assert (nova_get_block s' (page_off bt' + r') = e) as Eb.
  { unfold nova_get_block. rewrite Es. apply (page_pos s bt' r' P Hr). }
  destruct (dentry_mem_loads (placed_mem s bt r bt') _ e epoch trans ino mtime links name eq_refl Hn Hi)
    as (L1 & L2 & L3 & L4 & L5 & L6 & _). unfold LOG_BLOCK_TAIL in *. pose proof P as [P1 P2].
  assert (forall k a, e <= a -> a + Z.of_nat k <= e + rec_len name ->
    load k (nvmm s') a = load k (dentry_mem (placed_mem s bt r bt') e (rec_len name) epoch trans ino mtime links name) a) as Hld.
  { intros k a Ha Hb. rewrite En. unfold appended_mem. fold e. apply load_store_other. unfold e in *. lia. }
  split; [|by rewrite Hld by lia].
  cbn [item_at]. rewrite Eb. split_and!; [done| |lia]. split.
  - apply in_pmem_spec. rewrite Es. unfold e, page_off in *. lia.
  - done.
  - by rewrite Hld by lia.
  - by rewrite Hld by lia.
  - by rewrite Hld, L3 by lia.
  - by rewrite Hld by lia.
  - by rewrite Hld by lia.
  - rewrite <- L6 at 2. apply load_bytes_ext. intros x Hx. rewrite En. unfold appended_mem. fold e.
    apply mget_store_out. unfold e in *. cbn. lia.
Qed.

Lemma appended_cursor s s' pre bt r post pre' bt' r' post' name ino epoch trans mtime links n items vs :
  log_body s pre bt r post items vs -> place pre bt r post (rec_len name) pre' bt' r' post' ->
  sbc s' = sbc s -> nvmm s' = appended_mem s bt r bt' r' name ino epoch trans mtime links n ->
  name <> [] -> Z.of_nat (length name) < 256 -> 0 <= ino < 2 ^ 64 ->
  cursor_at s' (page_off bt + r) (page_off bt' + r').
Proof.
  intros B Hp Es En Hne Hn Hi. destruct (rec_len_bounds name) as [_ Hl]. pose proof (lb_off _ _ _ _ _ _ _ B) as Hr.
  assert (page_ok s bt) as P by (apply (lb_pages _ _ _ _ _ _ _ B); set_solver). pose proof P as [P1 P2].
  assert (forall x, nova_get_block s' x = nova_get_block s x) as Eb by (intros; unfold nova_get_block; by rewrite Es).
  assert (forall a k, in_pmem s' a k = in_pmem s a k) as Ep by (intros; unfold in_pmem; by rewrite Es).
  destruct (entry_loc_tail bt r Hr) as [El Eo]. unfold LOG_BLOCK_TAIL in Hr.
  destruct Hp as [Hfit|b rest Hfit ->]; unfold LOG_BLOCK_TAIL in Hfit.
  - assert (log_end s' (page_off bt + r) = false) as He.
    { unfold log_end. rewrite El. apply orb_false_iff. split; [apply Z.ltb_ge; unfold LOG_BLOCK_TAIL; lia|].
      destruct (appended_entry s s' bt r bt r name ino epoch trans mtime links n Es En P ltac:(lia) ltac:(unfold LOG_BLOCK_TAIL; lia) Hne Hn Hi)
        as [_ Ht]. rewrite Eb, (page_pos s bt r P) by lia. by rewrite Ht. }
    split; [unfold page_off in *; lia| |by rewrite He|done]. intros _. rewrite Eb, (page_pos s bt r P) by lia.
    rewrite Ep. apply in_pmem_spec. unfold page_off in *. cbn. lia.
  - assert (bt <> b) as Hbb.
    { pose proof (lb_nodup _ _ _ _ _ _ _ B) as ND. intros ->. apply NoDup_app in ND as (_ & _ & ND). apply NoDup_cons in ND as [ND _]. set_solver. }
    assert (page_ok s b) as [Q1 Q2] by (apply (lb_pages _ _ _ _ _ _ _ B); set_solver).
    assert (log_end s' (page_off bt + r) = true) as He.
    { unfold log_end. rewrite El. apply orb_true_iff. destruct (Z.ltb_spec LOG_BLOCK_TAIL (r + 32)) as [|Hlt]; [by left|right].
      unfold LOG_BLOCK_TAIL in Hlt. rewrite Eb, (page_pos s bt r P) by lia. apply Z.eqb_eq.
      transitivity (load 1 (placed_mem s bt r b) (virt_addr (sbc s) + page_off bt + r)).
      - apply load_ext. intros x Hx. rewrite En. unfold appended_mem. rewrite mget_store_out by (unfold page_off in *; cbn; cbn in Hx; lia).
        destruct (dentry_mem_loads (placed_mem s bt r b) _ (virt_addr (sbc s) + page_off b + 0) epoch trans ino mtime links name eq_refl Hn Hi)
          as (_ & _ & _ & _ & _ & _ & Hk). apply Hk. unfold page_off in *. cbn in Hx. lia.
      - unfold placed_mem. rewrite (proj2 (Z.eqb_neq b bt)) by done. cbn [orb].
        rewrite (proj2 (Z.leb_gt LOG_BLOCK_TAIL r)) by (unfold LOG_BLOCK_TAIL; lia). by apply load_store_same. }
    split; [unfold page_off in *; lia| | |by rewrite He].
    + intros Hz. rewrite El in Hz. apply Z.ltb_ge in Hz. unfold LOG_BLOCK_TAIL in Hz. rewrite Eb, (page_pos s bt r P) by lia.
      rewrite Ep. apply in_pmem_spec. unfold page_off in *. cbn. lia.
    + intros _. rewrite Eo, Eb, (page_block s bt P), Ep. split; [apply in_pmem_spec; unfold page_off in *; cbn; lia|].
      transitivity (load 8 (nvmm s) (log_link s (page_off bt))).
      * apply load_ext. intros x Hx. rewrite En. apply appended_keeps; [done|done|].
        unfold touched, log_link, LOG_BLOCK_TAIL, page_off in *. cbn in Hx. lia.
      * pose proof (lb_chain _ _ _ _ _ _ _ B) as Ch. unfold log_chain in Ch. rewrite fmap_app, !fmap_cons in Ch.
        apply linked_at in Ch. rewrite Ch. cbn. lia.
Qed.

(** The log with the entry. *)
Lemma log_body_append s s' pre bt r post items vs pre' bt' r' post' name ino epoch trans mtime links n :
  log_body s pre bt r post items vs -> place pre bt r post (rec_len name) pre' bt' r' post' ->
  sbc s' = sbc s -> nvmm s' = appended_mem s bt r bt' r' name ino epoch trans mtime links n ->
  name <> [] -> Z.of_nat (length name) < 256 -> 0 <= ino < 2 ^ 64 ->
  log_body s' pre' bt' (r' + rec_len name) post'
    (items ++ [IDentry (virt_addr (sbc s) + page_off bt' + r') name ino false])
    (vs ++ [mkVisit (page_off bt + r) (page_off bt' + r') (rec_len name)]).
Proof.
  intros B Hp Es En Hne Hn Hi. pose proof (appended_cursor _ _ _ _ _ _ _ _ _ _ _ _ _ _ _ _ _ _ _ B Hp Es En Hne Hn Hi) as Cq.
  destruct (rec_len_bounds name) as [_ Hl]. destruct (place_list _ _ _ _ _ _ _ _ _ Hp) as [Epl Efi].
  pose proof (lb_off _ _ _ _ _ _ _ B) as Hr. pose proof (lb_nodup _ _ _ _ _ _ _ B) as ND.
  pose proof (lb_pages _ _ _ _ _ _ _ B) as Pg.
  assert (page_ok s bt') as P' by (apply Pg; rewrite <- Epl; set_solver).
  assert (0 <= r' /\ r' + rec_len name <= LOG_BLOCK_TAIL) as [Hr0 Hfit].
  { unfold LOG_BLOCK_TAIL in *. destruct Hp as [Hfit|b rest Hfit ->]; unfold LOG_BLOCK_TAIL in *; lia. }
  assert (0 < rec_len name <= LOG_BLOCK_TAIL) as Hsz by (unfold LOG_BLOCK_TAIL; lia).
  pose proof (lb_media _ _ _ _ _ _ _ B) as [Hv Hdev]. pose proof P' as [P1 P2].
  assert (forall x, ~ touched s bt r bt' r' (rec_len name) x -> mget (nvmm s') x = mget (nvmm s) x) as Hk
    by (intros x Hx; rewrite En; by apply appended_keeps).
  split; rewrite ?Epl, ?Efi, ?Es; try (apply B).
  - unfold media_ok. by rewrite Es.
  - intros b Hb. unfold page_ok. rewrite Es. by apply Pg.
  - apply (linked_to_ext _ (nvmm s)); [unfold log_link; rewrite Es; apply B|]. intros p (c & -> & Hc)%list_elem_of_fmap.
    apply load_ext. intros x Hx. apply Hk. unfold log_link in Hx. rewrite Es in Hx.
    unfold touched, LOG_BLOCK_TAIL, page_off in *. cbn in Hx. lia.
  - unfold LOG_BLOCK_TAIL in *. lia.
  - apply (dir_walk_snoc s s' (page_off bt + r)); [done|apply B| | |done| |].
    + intros v Hv'. destruct (visit_untouched s _ _ _ _ _ _ _ _ _ v Hr ND Hp Hsz Pg (lb_visits _ _ _ _ _ _ _ B v Hv')) as (V1 & V2 & V3 & V4).
      split_and!; [done| | |].
      * intros Hz x Hx. apply Hk. assert (x = nova_get_block s (v_at v)) as -> by lia. by apply V3.
      * intros x Hx. apply Hk, V2. lia.
      * intros x Hx. by apply Hk, V1.
    + destruct Hp as [Hf|b rest Hf ->]; unfold LOG_BLOCK_TAIL, page_off in *; [lia|].
      assert (bt <> b) by (intros ->; apply NoDup_app in ND as (_ & _ & ND); apply NoDup_cons in ND as [ND _]; set_solver). lia.
    + by apply (appended_entry s s' bt r bt' r' name ino epoch trans mtime links n).
    + rewrite uwrap_small by (unfold LOG_BLOCK_TAIL, page_off in *; lia). lia.
  - intros v [Hv'|Hv']%elem_of_app.
    + destruct (lb_visits _ _ _ _ _ _ _ B v Hv') as [(c1 & o1 & E1 & Ho1 & H1') (c2 & o2 & E2 & Ho2 & Hl2 & Hf2 & H2')].
      split; [exists c1, o1|exists c2, o2]; split_and!; try done; try lia;
        destruct Hp as [Hf|b rest Hf ->]; rewrite ?elem_of_app, ?list_elem_of_singleton; intuition (subst; try lia; auto).
    + apply list_elem_of_singleton in Hv' as ->. unfold visit_ok. cbn [v_at v_entry v_len]. split.
      * exists bt, r. unfold LOG_BLOCK_TAIL in *. split_and!; [done|lia|lia|].
        destruct Hp as [Hf|b rest Hf ->]; [right; split; [done|lia]|left; set_solver].
      * exists bt', r'. split_and!; [done|lia|lia|lia|]. right. split; [done|lia].
Qed.

(** The log without the entry: it is behind the tail. *)
Lemma log_body_behind s s' pre bt r post items vs pre' bt' r' post' name ino epoch trans mtime links n :
  log_body s pre bt r post items vs -> place pre bt r post (rec_len name) pre' bt' r' post' ->
  sbc s' = sbc s -> nvmm s' = appended_mem s bt r bt' r' name ino epoch trans mtime links n ->
  Z.of_nat (length name) < 256 -> 0 <= ino < 2 ^ 64 -> log_body s' pre bt r post items vs.
Proof.
  intros B Hp Es En Hn Hi. destruct (rec_len_bounds name) as [_ Hl].
  pose proof (lb_off _ _ _ _ _ _ _ B) as Hr. pose proof (lb_nodup _ _ _ _ _ _ _ B) as ND.
  pose proof (lb_pages _ _ _ _ _ _ _ B) as Pg.
  assert (0 <= r' /\ r' + rec_len name <= LOG_BLOCK_TAIL) as [Hr0 Hfit].
  { unfold LOG_BLOCK_TAIL in *. destruct Hp as [Hfit|b rest Hfit ->]; unfold LOG_BLOCK_TAIL in *; lia. }
  assert (0 < rec_len name <= LOG_BLOCK_TAIL) as Hsz by (unfold LOG_BLOCK_TAIL; lia).
  assert (forall x, ~ touched s bt r bt' r' (rec_len name) x -> mget (nvmm s') x = mget (nvmm s) x) as Hk
    by (intros x Hx; rewrite En; by apply appended_keeps).
  split; rewrite ?Es; try (apply B).
  - unfold media_ok. rewrite Es. apply B.
  - intros b Hb. unfold page_ok. rewrite Es. by apply Pg.
  - apply (linked_to_ext _ (nvmm s)); [unfold log_link; rewrite Es; apply B|]. intros p (c & -> & Hc)%list_elem_of_fmap.
    apply load_ext. intros x Hx. apply Hk. unfold log_link in Hx. rewrite Es in Hx.
    unfold touched, LOG_BLOCK_TAIL, page_off in *. cbn in Hx. lia.
  - apply (dir_walk_keep s); [done|apply B|]. intros v Hv'.
    destruct (visit_untouched s _ _ _ _ _ _ _ _ _ v Hr ND Hp Hsz Pg (lb_visits _ _ _ _ _ _ _ B v Hv')) as (V1 & V2 & V3 & _).
    split_and!.
    + intros Hz x Hx. apply Hk. assert (x = nova_get_block s (v_at v)) as -> by lia. by apply V3.
    + intros x Hx. apply Hk, V2. lia.
    + intros x Hx. by apply Hk, V1.
Qed.

(** A log whose pages are kept. *)
Lemma log_body_keep s s' pre bt r post items vs :
  log_body s pre bt r post items vs -> sbc s' = sbc s ->
  (forall b x, b ∈ pre ++ bt :: post -> in_page s b x -> mget (nvmm s') x = mget (nvmm s) x) ->
  log_body s' pre bt r post items vs.
Proof.
  intros B Es Hk. pose proof (lb_pages _ _ _ _ _ _ _ B) as Pg. pose proof (lb_off _ _ _ _ _ _ _ B) as Hr. unfold LOG_BLOCK_TAIL in Hr.
  assert (forall c o n x, c ∈ pre ++ bt :: post -> 0 <= o -> o + n <= 4096 ->
    virt_addr (sbc s) + page_off c + o <= x < virt_addr (sbc s) + page_off c + o + n -> mget (nvmm s') x = mget (nvmm s) x) as Hk'.
  { intros c o n x Hc Ho Hn Hx. apply (Hk c); [done|]. unfold in_page. lia. }
  split; rewrite ?Es; try (apply B).
  - unfold media_ok. rewrite Es. apply B.
  - intros b Hb. unfold page_ok. rewrite Es. by apply Pg.
  - apply (linked_to_ext _ (nvmm s)); [unfold log_link; rewrite Es; apply B|]. intros p (c & -> & Hc)%list_elem_of_fmap.
    apply load_ext. intros x Hx. unfold log_link in Hx. rewrite Es in Hx. apply (Hk' c 4088 8); [done|lia|lia|cbn in Hx; lia].
  - apply (dir_walk_keep s); [done|apply B|]. intros v Hv.
    destruct (lb_visits _ _ _ _ _ _ _ B v Hv) as [(c1 & o1 & E1 & Ho1 & H1') (c2 & o2 & E2 & Ho2 & Hl2 & Hf2 & H2')].
    assert (c1 ∈ pre ++ bt :: post) as C1 by (destruct H1' as [?|[-> _]]; set_solver).
    assert (c2 ∈ pre ++ bt :: post) as C2 by (destruct H2' as [?|[-> _]]; set_solver).
    rewrite E1, E2. destruct (off_split c1 o1 Ho1) as [-> ->].
    rewrite (page_pos s c2 o2 (Pg _ C2) Ho2), (page_pos s c1 o1 (Pg _ C1)), (page_block s c1 (Pg _ C1)) by lia.
    unfold LOG_BLOCK_TAIL in *. split_and!.
    + intros Hz x Hx. apply Z.ltb_ge in Hz. apply (Hk' c1 o1 1); [done|lia|lia|lia].
    + intros x Hx. apply (Hk' c1 4088 8); [done|lia|lia|lia].
    + intros x Hx. apply (Hk' c2 o2 (v_len v)); [done|lia|lia|lia].
Qed.

(** ** The operations *)
Lemma inode_sound_run s h :
  in_pmem s (nova_get_block s (pi_addr (ih_base h))) 120 = true -> inode_unsound h s = Ok false s.
Proof.
  intros Hp. unfold inode_unsound, nova_check_inode_integrity. rewrite Hmeta. cbn [Z.eqb].
  change (Z.to_nat (sizeof nova_inode)) with 120%nat.
  assert (forall t a n, unreadable t a n = false) as Hu.
  { intros t a n. unfold unreadable. apply not_true_iff_false. rewrite existsb_exists. intros (x & _ & Hx). by rewrite Hmedia in Hx. }
  unfold bind, gets, mcsafe, ret. cbn. unfold bind. rewrite Hu. unfold pload_bytes. rewrite Hp. done.
Qed.

Lemma append_dentry_run s d pi dir h pre bt r post items vs u name ino lc epoch pre' bt' r' post' :
  log_body s pre bt r post items vs -> place pre bt r post (rec_len name) pre' bt' r' post' ->
  sih_log_tail (ih_base h) = page_off bt + r -> in_pmem s (nova_get_block s (pi_addr (ih_base h))) 120 = true ->
  up_tail u = 0 -> Z.of_nat (length name) < 256 ->
  exists n s', nova_append_dentry pi dir h name ino (rec_len name) u lc epoch d s
      = Ok (0, set_vi_blocks (ih_i_blocks h) dir, h, up_main (page_off bt' + r') (rec_len name) u, d) s' /\
    mem_upd (appended_mem s bt r bt' r' name ino epoch (ih_trans_id h) (u32 (vi_mtime dir)) (new_links_count (vi_nlink dir) lc) n) s s'.
Proof.
  intros B Hp Ht Hpi Hu Hn. destruct (rec_len_bounds name) as [_ Hl]. destruct (place_list _ _ _ _ _ _ _ _ _ Hp) as [Epl _].
  pose proof (lb_off _ _ _ _ _ _ _ B) as Hr.
  assert (page_ok s bt') as P' by (apply (lb_pages _ _ _ _ _ _ _ B); rewrite <- Epl; set_solver). pose proof P' as [P1 P2].
  assert (0 <= r' /\ r' + rec_len name <= LOG_BLOCK_TAIL) as [Hr0 Hfit].
  { unfold LOG_BLOCK_TAIL in *. destruct Hp as [Hfit|b rest Hfit ->]; unfold LOG_BLOCK_TAIL in *; lia. }
  destruct (append_head_run s d pi h pre bt r post (rec_len name) pre' bt' r' post') as (s1 & E1 & U1); try (apply B); try done.
  { intros b Hb. split; by apply B. } { unfold LOG_BLOCK_TAIL. lia. }
  assert (wp (fill_entry h dir (page_off bt' + r') (rec_len name) (dentry_info name ino lc epoch (ih_trans_id h)) true)
    (fun _ s' => exists n, mem_upd (appended_mem s bt r bt' r' name ino epoch (ih_trans_id h) (u32 (vi_mtime dir))
       (new_links_count (vi_nlink dir) lc) n) s s') s1) as W.
  { eapply wp_fill_dentry; [exact U1|apply B|done|done|done|done|]. intros s' n U'. by exists n. }
  apply wp_run in W as ([] & s' & E2 & n & U2). exists n, s'. split; [|done].
  unfold nova_append_dentry. rewrite (sbind_lift _ _ _ _ _ _ (inode_sound_run s h Hpi)).
  rewrite (sbind_ok _ _ d s (0, h, up_main (page_off bt' + r') (rec_len name) u, page_off bt' + r') d s'); [done|].
  unfold nova_append_log_entry. cbn [ei_type ei_file_size]. rewrite Hu, (sbind_ok _ _ _ _ _ _ _ E1). cbv iota beta.
  rewrite (proj2 (Z.eqb_neq _ 0)) by (unfold page_off in *; lia).
  rewrite (sbind_lift _ _ _ _ _ _ E2), Hmeta. done.
Qed.

(** The new tail is published (log.c: [nova_handle_setattr_operation] and others). *)
Definition publish (pi : Z) (h : info_header) (u : inode_update) : M info_header :=
  nova_memunlock_inode pi ;;;
  let! b := nova_update_inode (ih_base h) pi (up_tail u) (up_alter_tail u) true in
  nova_memlock_inode pi ;;;
  ret (set_ih_base b h).

Lemma publish_run s pi h u :
  media_ok s -> virt_addr (sbc s) <= pi -> pi + 128 <= virt_addr (sbc s) + initsize (sbc s) ->
  exists s', publish pi h u s = Ok (set_ih_base (mkSih (sih_ino (ih_base h)) (pi_addr (ih_base h)) (alter_pi_addr (ih_base h))
      (i_blk_type (ih_base h)) (sih_log_head (ih_base h)) (up_tail u) (sih_alter_log_head (ih_base h)) (up_alter_tail u)) h) s' /\
    mem_upd (store 8 (nvmm s) (pi + 72) (up_tail u)) s s'.
Proof.
  intros [Hv Hsz] Hlo Hhi. match goal with |- exists s', _ = Ok ?v s' /\ _ =>
    assert (wp (publish pi h u) (fun h' s' => h' = v /\ mem_upd (store 8 (nvmm s) (pi + 72) (up_tail u)) s s') s) as W end.
  { unfold publish. apply wp_bind. unfold nova_memunlock_inode.
    eapply wp_memunlock; [apply mem_upd_refl|unfold NOVA_INODE_SIZE; lia..|]. intros s1 U1 W1. apply wp_bind.
    unfold nova_update_inode, nova_update_tail, nova_update_inode_checksum, nova_update_alter_inode. rewrite Hmeta.
    cbn [negb Z.eqb when]. apply wp_bind, wp_bind. eapply wp_barrier; [exact U1|]. intros s2 U2 W2.
    apply wp_bind. unfold pstore_field. change (sizeof_field nova_inode "log_tail") with 8%nat.
    change (field_addr nova_inode pi "log_tail") with (pi + 72).
    eapply wp_pstore; [exact U2|congruence|apply in_pmem_spec; cbn; lia|]. intros s3 U3 W3.
    eapply wp_flush; [exact U3|done|done|]. intros s4 U4 W4. apply wp_bind, wp_ret, wp_bind, wp_bind, wp_ret, wp_bind.
    eapply wp_flush; [exact U4|done|done|]. intros s5 U5 W5. apply wp_ret, wp_bind, wp_bind, wp_ret, wp_ret, wp_ret, wp_bind.
    unfold nova_memlock_inode. eapply wp_memlock; [exact U5|]. intros s6 U6. apply wp_ret. by split. }
  apply wp_run in W as (h' & s' & E & -> & U). by exists s'.
Qed.
End spec.
