(* ===== verification/DirSync.v ===== *)
(** A directory's tree and its log stay in step.

    [dir_synced] relates the tree in DRAM, the log on the device and the map of
    hashes to entries they both stand for.  Adding a name ([nova_add_dentry]) and
    removing one whose entry is of another epoch ([nova_remove_dentry]), with the
    publication of the new tail, keep them in step, refusals included; removing a
    name that only collides with the one in the directory does not. *)

From stdpp Require Import strings.
From S2P Require Import Prelude CInt Crc32c NovaEnv RangeNode Pmem NovaState NovaMonad NovaLib.
From S2P Require Import Balloc BallocSpec BallocAlloc NovaLayout PmemOps LogPage LogPageSpec RangeLog RangeRoundtrip InodeTable Journal.
From S2P Require Import Checksum Parity MetaCsum LogEntry Snapshot SnapshotSpec FileTree DirTree DirTreeSpec Rebuild RebuildSpec LogGc LogAppend LogAppendSpec.

Local Open Scope nova_scope.
Local Open Scope list_scope.

(** ** Replay *)
Lemma replay_snoc l i m : replay (l ++ [i]) m = match replay l m with Some m' => replay_item i m' | None => None end.
Proof.
  revert m. induction l as [|j l IH]; intros m; cbn [app replay]; [by destruct (replay_item i m)|].
  by destruct (replay_item j m).
Qed.

(** What is under a hash was added by an entry. *)
Lemma replay_origin l : forall m m' k e,
  replay l m = Some m' -> m' !! k = Some e ->
  m !! k = Some e \/ exists name ino, IDentry e name ino false ∈ l /\ BKDRHash name = k /\ 0 < ino.
Proof.
  induction l as [|i l IH]; intros m m' k e; cbn [replay]; [intros [= ->]; by left|].
  destruct (replay_item i m) as [m1|] eqn:Ei; [|done]. intros Hr He.
  destruct (IH m1 m' k e Hr He) as [Hm|(name & ino & Hin & Hk)]; [|right; exists name, ino; split; [by right|done]].
  destruct i as [addr nm ino inv|]; cbn [replay_item] in Ei; [|injection Ei as ->; by left].
  destruct inv; [injection Ei as ->; by left|]. destruct (0 <? ino) eqn:Eo; zify_bool.
  - destruct (m !! BKDRHash nm) eqn:El; [done|]. injection Ei as <-. destruct (decide (BKDRHash nm = k)) as [<-|Hne].
    + rewrite lookup_insert_eq in Hm. injection Hm as ->. right. exists nm, ino. split_and!; [by left|done|done].
    + rewrite lookup_insert_ne in Hm by done. by left.
  - injection Ei as <-. left. destruct (decide (BKDRHash nm = k)) as [<-|Hne]; [by rewrite lookup_delete_eq in Hm|].
    by rewrite lookup_delete_ne in Hm.
Qed.

(** The items of a walk are on the device. *)
Lemma walk_item s t p items vs i :
  dir_walk s t p items vs -> i ∈ items -> exists q len, q <> 0 /\ item_at s q len i.
Proof.
  induction 1 as [|p q len j rest vs Hne C Hi W IH]; [by intros ?%elem_of_nil|].
  intros [->|Hin]%elem_of_cons; [|by apply IH]. exists q, len. split; [apply C|done].
Qed.

(** ** The operations *)
Inductive name_op := NAdd (name : list Z) (ino : Z) | NDel (name : list Z).
Definition nop_name (op : name_op) : list Z := match op with NAdd name _ | NDel name => name end.
Definition nop_ino (op : name_op) : Z := match op with NAdd _ ino => ino | NDel _ => 0 end.

Definition no_update : inode_update := mkUpdate 0 0 0 0 0 0.

Section sync.
Context `{NovaEnv, RbLibOk, MediaLib, ParityEnv}.

(** The operation with the publication of the tail. *)
Definition name_exec (op : name_op) (dir : vfs_inode) (h : info_header) (pi link_change now epoch : Z) : SM (Z * info_header) :=
  do! r := (match op with
    | NAdd name ino => nova_add_dentry dir h name ino link_change now no_update epoch
    | NDel name => nova_remove_dentry dir h name link_change now no_update epoch
    end) in
  let '(rc, _, h, u) := r in
  if negb (rc =? 0) then sret (rc, h) else do! h := lift (publish pi h u) in sret (0, h).

(** A name: no zero bytes, 1 to 255 of them. *)
Record name_ok (name : list Z) : Prop := {
  no_chars : Forall (fun c => c <> 0) name;
  no_some : name <> [];
  no_len : Z.of_nat (length name) < 256
}.

Record dir_synced (s : nova) (pi : Z) (pre : list Z) (bt r : Z) (post : list Z)
    (items : list dir_item) (vs : list visit) (h : info_header) (m : gmap Z Z) : Prop := {
  ds_body : log_body s pre bt r post items vs;
  ds_record : log_record s pi pre bt r post;
  ds_head : sih_log_head (ih_base h) = page_off (first_of pre bt);
  ds_tail : sih_log_tail (ih_base h) = page_off bt + r;
  ds_pi : nova_get_block s (pi_addr (ih_base h)) = pi;
  ds_wf : dir_wf (alloc_clock s) (ih_rb_tree h);
  ds_tree : dir_map (ih_rb_tree h) = m;
  ds_replay : replay items ∅ = Some m;
  ds_names : Forall name_ok (concat (item_name <$> items))
}.

(** What the operation needs: an inode number for a name to be added; for one to
    be removed, that the entry under its hash is of another epoch (an entry of this
    epoch is updated in place instead). *)
Definition name_ready (s : nova) (op : name_op) (epoch : Z) (m : gmap Z Z) : Prop :=
  match op with
  | NAdd _ ino => 0 < ino < 2 ^ 64
  | NDel name => forall e, m !! BKDRHash name = Some e -> load 8 (nvmm s) (e + 32) <> epoch
  end.

Context (Hrc : forall a n, memcpy_mcsafe_rc a n = 0) (Hmeta : metadata_csum = 0) (Hmedia : forall t a, poisoned t a = false)
  (Hdram : dram_struct_csum = 0) (Hslab : forall p, kmem_cache_zalloc_ok p = true).

Lemma rec_len_u16 name : Z.of_nat (length name) < 256 -> uwrap 16 (NOVA_DIR_LOG_REC_LEN (Z.of_nat (length name))) = rec_len name.
Proof. intros Hn. destruct (rec_len_bounds name) as [_ Hl]. apply uwrap_small. fold (rec_len name). lia. Qed.

Lemma dir_inode_run s h :
  in_pmem s (nova_get_block s (pi_addr (ih_base h))) 120 = true ->
  nova_get_inode (ih_base h) s = Ok (nova_get_block s (pi_addr (ih_base h))) s.
Proof.
  intros Hp. unfold nova_get_inode, bind at 1, gets. change (Z.to_nat (sizeof nova_inode)) with 120%nat.
  by rewrite (bind_ok _ _ _ _ _ (mcsafe_good Hrc _ 120 s Hp)).
Qed.

(** The entry under a hash. *)
Lemma synced_entry s pi pre bt r post items vs h m k e :
  dir_synced s pi pre bt r post items vs h m -> m !! k = Some e ->
  exists name, BKDRHash name = k /\ dentry_at s e name /\ in_pmem s e 48 = true.
Proof.
  intros [B R Hh Ht Hp W Tr Rp Nm] He.
  destruct (replay_origin items ∅ m k e Rp He) as [Hm|(name & ino & Hin & Hk & Hpos)]; [by rewrite lookup_empty in Hm|].
  destruct (walk_item _ _ _ _ _ _ (lb_walk _ _ _ _ _ _ _ B) Hin) as (q & len & Hq & -> & Dr & Hl).
  exists name. split_and!; [done| |eapply in_pmem_sub; [apply (de_pmem _ _ _ _ _ _ Dr)|lia|lia]].
  destruct Dr as [D1 D2 D3 D4 D5 D6 D7 D8]. split; try done.
  - unfold nova_get_block in *. rewrite (proj2 (Z.eqb_neq q 0)) in * by done. apply in_pmem_spec in D1.
    pose proof (lb_media _ _ _ _ _ _ _ B) as [Hv _]. lia.
  - rewrite Forall_forall in Nm. apply Nm, list_elem_of_In, in_concat. exists [name].
    split; [|by left]. apply list_elem_of_In, list_elem_of_fmap. by exists (IDentry (nova_get_block s q) name ino false).
  - lia.
  - symmetry in D5. apply negb_false_iff, Z.eqb_eq in D5. done.
Qed.

(** ** One operation *)

(** The entry is written: the log has one more, the record is the old one and so
    is the log up to the old tail. *)
Lemma synced_append s d pi dir h0 h pre bt r post items vs m u name ino lc epoch pre' bt' r' post' :
  dir_synced s pi pre bt r post items vs h0 m -> ih_base h = ih_base h0 ->
  place pre bt r post (rec_len name) pre' bt' r' post' -> up_tail u = 0 ->
  name_ok name -> 0 <= ino < 2 ^ 64 ->
  exists s', nova_append_dentry pi dir h name ino (rec_len name) u lc epoch d s
      = Ok (0, set_vi_blocks (ih_i_blocks h) dir, h, up_main (page_off bt' + r') (rec_len name) u, d) s' /\
    sbc s' = sbc s /\ alloc_clock s' = alloc_clock s /\ log_record s' pi pre bt r post /\
    log_body s' pre bt r post items vs /\
    log_body s' pre' bt' (r' + rec_len name) post'
      (items ++ [IDentry (virt_addr (sbc s) + page_off bt' + r') name ino false])
      (vs ++ [mkVisit (page_off bt + r) (page_off bt' + r') (rec_len name)]).
Proof.
  intros [B R Hh Ht Hpi W Tr Rp Nm] Eb Hp Hu [_ Hne Hn] Hi. destruct (place_list _ _ _ _ _ _ _ _ _ Hp) as [Epl _].
  destruct (append_dentry_run Hrc Hmeta Hmedia s d pi dir h pre bt r post items vs u name ino lc epoch pre' bt' r' post')
    as (n & s' & E & U); try done; rewrite ?Eb; try done.
  { rewrite Hpi. apply in_pmem_spec. destruct R as [[R1 R2] _ _ _]. cbn. lia. }
  exists s'. split; [exact E|]. pose proof (mem_upd_sbc _ _ _ U) as Es.
  split_and!; [done|by apply (mem_upd_clock _ _ _ U)| |by eapply (log_body_behind Hrc Hmeta Hmedia); [exact B|exact Hp|done|exact (mem_upd_nvmm _ _ _ U)|..]|].
  - assert (forall x, pi <= x < pi + 128 -> mget (nvmm s') x = mget (nvmm s) x) as Hk.
    { intros x Hx. rewrite (mem_upd_nvmm _ _ _ U). apply appended_keeps; [done|done|]. intros Hto.
      destruct R as [_ R2 _ _].
      assert (exists b, b ∈ pre ++ bt :: post /\ in_page s b x) as (b & Hb & Hin); [|by eapply R2].
      assert (bt' ∈ pre ++ bt :: post) as Hb' by (rewrite <- Epl; set_solver).
      destruct (rec_len_bounds name) as [_ Hl]. pose proof (lb_off _ _ _ _ _ _ _ B) as Hr.
      assert (0 <= r' /\ r' + rec_len name <= LOG_BLOCK_TAIL) as [Hr0 Hfit].
      { destruct Hp as [Hf|b rest Hf ->]; unfold LOG_BLOCK_TAIL in *; lia. }
      unfold touched, in_page, LOG_BLOCK_TAIL in *.
      destruct Hto as [(_ & ? & ->)|[?|?]]; [exists bt; split; [set_solver|lia]|exists bt'; split; [done|lia]..]. }
    destruct R as [R1 R2 R3 R4]. split; rewrite ?Es; try done.
    + intros b x Hb. unfold in_page. rewrite Es. by apply R2.
    + rewrite <- R3. apply load_ext. intros x Hx. apply Hk. cbn in Hx. lia.
    + rewrite <- R4. apply load_ext. intros x Hx. apply Hk. cbn in Hx. lia.
  - by eapply (log_body_append Hrc Hmeta Hmedia); [exact B|exact Hp|done|exact (mem_upd_nvmm _ _ _ U)|..].
Qed.

(** The tail is published: the record names the new end. *)
Lemma synced_publish s pi h u pre bt r post pre' bt' r' post' items vs :
  log_body s pre' bt' r' post' items vs -> log_record s pi pre bt r post ->
  pre' ++ bt' :: post' = pre ++ bt :: post -> first_of pre' bt' = first_of pre bt -> up_tail u = page_off bt' + r' ->
  exists b s', publish pi h u s = Ok (set_ih_base b h) s' /\ sbc s' = sbc s /\ alloc_clock s' = alloc_clock s /\
    sih_log_head b = sih_log_head (ih_base h) /\ sih_log_tail b = page_off bt' + r' /\ pi_addr b = pi_addr (ih_base h) /\
    log_body s' pre' bt' r' post' items vs /\ log_record s' pi pre' bt' r' post'.
Proof.
  intros B [[R1 R1'] R2 R3 R4] Epl Efi Eu.
  destruct (publish_run Hmeta s pi h u (lb_media _ _ _ _ _ _ _ B) R1 R1') as (s' & E & U). eexists _, s'.
  pose proof (mem_upd_sbc _ _ _ U) as Es. pose proof (mem_upd_nvmm _ _ _ U) as En.
  split_and!; [exact E|done|by apply (mem_upd_clock _ _ _ U)|done|done|done|..].
  - eapply (log_body_keep Hrc Hmeta Hmedia); [exact B|done|]. intros b x Hb Hx. rewrite En. apply mget_store_out.
    rewrite Epl in Hb. specialize (R2 b x Hb Hx). cbn. lia.
  - assert (page_ok s bt') as [P1 P2] by (apply (lb_pages _ _ _ _ _ _ _ B); set_solver).
    pose proof (lb_media _ _ _ _ _ _ _ B) as [Hv Hsz]. pose proof (lb_off _ _ _ _ _ _ _ B) as Hr. unfold LOG_BLOCK_TAIL, page_off in *.
    split; rewrite ?Es, ?Epl, ?Efi; try done.
    + intros b x Hb. unfold in_page. rewrite Es. by apply R2.
    + rewrite En, load_store_other by lia. done.
    + rewrite En, Eu. apply load_store_same. change (8 * Z.of_nat 8) with 64. unfold page_off. lia.
Qed.

(** The position of the new entry. *)
Lemma place_bounds s pre bt r post items vs name pre' bt' r' post' :
  log_body s pre bt r post items vs -> place pre bt r post (rec_len name) pre' bt' r' post' ->
  Z.of_nat (length name) < 256 ->
  page_ok s bt' /\ 0 <= r' <= LOG_BLOCK_TAIL /\ u64 (page_off bt' + r' + rec_len name) = page_off bt' + (r' + rec_len name).
Proof.
  intros B Hp Hlen. destruct (place_list _ _ _ _ _ _ _ _ _ Hp) as [Epl _]. destruct (rec_len_bounds name) as [_ Hl].
  assert (page_ok s bt') as P by (apply (lb_pages _ _ _ _ _ _ _ B); rewrite <- Epl; set_solver).
  assert (0 <= r' /\ r' + rec_len name <= LOG_BLOCK_TAIL) as Hr'.
  { pose proof (lb_off _ _ _ _ _ _ _ B). destruct Hp as [Hf|b rest Hf ->]; unfold LOG_BLOCK_TAIL in *; lia. }
  split_and!; [done|lia|lia|]. pose proof P as [P1 P2]. pose proof (lb_media _ _ _ _ _ _ _ B) as [Hv Hsz].
  unfold LOG_BLOCK_TAIL, page_off in *. rewrite uwrap_small by lia. lia.
Qed.

Lemma other_epoch_run s e epoch :
  in_pmem s e 48 = true -> e <> 0 -> load 8 (nvmm s) (e + 32) <> epoch ->
  nova_can_inplace_update_dentry e epoch s = Ok false s.
Proof.
  intros Hp He Hep. unfold nova_can_inplace_update_dentry, verified_entry. rewrite Hmeta. cbn [Z.eqb]. unfold bind at 1, ret at 1.
  rewrite (proj2 (Z.eqb_neq e 0)) by done.
  rewrite (bind_ok _ _ _ _ _ (inplace_field s e "epoch_id" 48 _ Hp ltac:(done) ltac:(done) eq_refl)).
  unfold ret. f_equal. by apply Z.eqb_neq.
Qed.

(** The directory with one more entry at [e]. *)
Definition entry_added (s' : nova) (pi : Z) (pre : list Z) (bt r : Z) (post : list Z) (at_ : Z) (items : list dir_item)
    (vs : list visit) (h' : info_header) (op : name_op) (e : Z) (m' : gmap Z Z) : Prop :=
  dir_synced s' pi pre bt (r + rec_len (nop_name op)) post (items ++ [IDentry e (nop_name op) (nop_ino op) false])
    (vs ++ [mkVisit at_ (page_off bt + r) (rec_len (nop_name op))]) h' m'.

(** The entry is in the log and the tree holds the new map: the publication
    completes the operation. *)
Lemma synced_finish s pi h s1 h1 u pre bt r post items vs m op pre' bt' r' post' at_ m' e :
  dir_synced s pi pre bt r post items vs h m -> name_ok (nop_name op) ->
  place pre bt r post (rec_len (nop_name op)) pre' bt' r' post' ->
  ih_base h1 = ih_base h -> up_tail u = page_off bt' + (r' + rec_len (nop_name op)) -> sbc s1 = sbc s ->
  log_record s1 pi pre bt r post ->
  log_body s1 pre' bt' (r' + rec_len (nop_name op)) post' (items ++ [IDentry e (nop_name op) (nop_ino op) false])
    (vs ++ [mkVisit at_ (page_off bt' + r') (rec_len (nop_name op))]) ->
  dir_wf (alloc_clock s1) (ih_rb_tree h1) -> dir_map (ih_rb_tree h1) = m' ->
  replay_item (IDentry e (nop_name op) (nop_ino op) false) m = Some m' ->
  exists h' s', publish pi h1 u s1 = Ok h' s' /\ sbc s' = sbc s /\
    entry_added s' pi pre' bt' r' post' at_ items vs h' op e m'.
Proof.
  intros [B R Hh Ht Hpi W Tr Rp Nm] Hn Hp Eh Eu Es1 R1 B1 W1 T1 Rp1. destruct (place_list _ _ _ _ _ _ _ _ _ Hp) as [Epl Efi].
  destruct (synced_publish s1 pi h1 u _ _ _ _ _ _ _ _ _ _ B1 R1 Epl Efi Eu) as (b & s2 & E2 & Es2 & Ec2 & Eb1 & Eb2 & Eb3 & B2 & R2).
  exists (set_ih_base b h1), s2. split_and!; [done|congruence|].
  split; cbn [ih_base set_ih_base ih_rb_tree]; try done.
  - by rewrite Eb1, Eh, Efi.
  - rewrite Eb3, Eh. unfold nova_get_block in *. by rewrite Es2, Es1.
  - by rewrite Ec2.
  - by rewrite replay_snoc, Rp.
  - rewrite fmap_app, concat_app. apply Forall_app. split; [done|]. by constructor.
Qed.

Lemma synced_inode s pi pre bt r post items vs h m :
  dir_synced s pi pre bt r post items vs h m -> in_pmem s (nova_get_block s (pi_addr (ih_base h))) 120 = true.
Proof. intros [B R Hh Ht Hpi W Tr Rp Nm]. rewrite Hpi. apply in_pmem_spec. destruct R as [[R1 R2] _ _ _]. cbn. lia. Qed.

(** Adding a name: the new entry is under its hash; or the hash has an entry, and
    the directory stays as it is. *)
Lemma add_synced s d pi dir pre bt r post items vs h m name ino lc now epoch pre' bt' r' post' :
  dir_synced s pi pre bt r post items vs h m -> name_ok name -> 0 < ino < 2 ^ 64 ->
  place pre bt r post (rec_len name) pre' bt' r' post' ->
  let e := virt_addr (sbc s) + page_off bt' + r' in
  exists rc h' s', name_exec (NAdd name ino) dir h pi lc now epoch d s = Ok (rc, h', d) s' /\ sbc s' = sbc s /\
    match m !! BKDRHash name with
    | None => rc = 0 /\ entry_added s' pi pre' bt' r' post' (page_off bt + r) items vs h' (NAdd name ino) e (<[BKDRHash name := e]> m)
    | Some _ => rc = - EINVAL /\ dir_synced s' pi pre bt r post items vs h' m
    end.
Proof.
  intros D No Hino Hp e. pose proof D as [B R Hh Ht Hpi W Tr Rp Nm]. pose proof No as [_ Hne Hlen].
  destruct (place_bounds _ _ _ _ _ _ _ _ _ _ _ _ B Hp Hlen) as (P & Hr' & Eu).
  assert ((Z.of_nat (length name) =? 0) = false) as Hz by (apply Z.eqb_neq; destruct name; [done|cbn; lia]).
  unfold name_exec, nova_add_dentry.
  destruct (synced_append s d pi (set_dir_times now dir) h h pre bt r post items vs m no_update name ino lc epoch pre' bt' r' post')
    as (s1 & E1 & Es & Ec & R1 & B0 & B1); try done; [lia|].
  assert (nova_get_block s1 (page_off bt' + r') = e) as Eb.
  { unfold nova_get_block. rewrite Es. apply (page_pos s bt' r' P). lia. }
  rewrite <- Ec in W. destruct (insert_dir_run s1 (ih_rb_tree h) name e Hdram W) as (rc & t' & E2 & W' & Hr2). rewrite Hslab, Tr in Hr2.
  rewrite Hz. erewrite sbind_ok.
  2:{ rewrite (sbind_lift _ _ _ _ _ _ (dir_inode_run s h (synced_inode _ _ _ _ _ _ _ _ _ _ D))), Hpi, rec_len_u16 by done.
      rewrite (sbind_ok _ _ _ _ _ _ _ E1). cbn [negb Z.eqb up_main up_curr_entry].
      unfold sbind at 1, lift at 1, gets. cbn [bind ret]. rewrite Eb. by rewrite (sbind_lift _ _ _ _ _ _ E2). }
  cbv iota beta. cbn [fst snd]. destruct (m !! BKDRHash name) as [e0|] eqn:Em; destruct Hr2 as [-> Et].
  - eexists _, _, (after_alloc s1). split; [reflexivity|]. split_and!; [done|done|].
    cbn [ih_base ih_rb_tree set_ih_trans_id set_ih_rb_tree set_ih_last_dentry]. subst t'.
    split; cbn [ih_base ih_rb_tree set_ih_trans_id set_ih_rb_tree set_ih_last_dentry]; try done.
    + eapply (log_body_keep Hrc Hmeta Hmedia); [exact B0|done|done].
    + destruct R1 as [? ? ? ?]. by split.
    + unfold nova_get_block in *. cbn. by rewrite Es.
  - match goal with |- context [publish pi ?hn ?u] =>
      edestruct (synced_finish s pi h (after_alloc s1) hn u pre bt r post items vs m (NAdd name ino)) as (h' & s' & Epb & Es' & Ea); [exact D|exact No|exact Hp|..|] end.
    9:{ exists 0, h', s'. split_and!; [|done|done|exact Ea]. cbn [negb Z.eqb]. by rewrite (sbind_lift _ _ _ _ _ _ Epb). }
    all: cbn [ih_base ih_rb_tree set_ih_trans_id set_ih_rb_tree set_ih_last_dentry up_tail up_main nop_name nop_ino]; try done.
    + destruct R1 as [? ? ? ?]. by split.
    + eapply (log_body_keep Hrc Hmeta Hmedia); [exact B1|done|done].
    + cbn [replay_item]. rewrite (proj2 (Z.ltb_lt 0 ino)), Em by lia. done.
Qed.

(** Removing a name. *)
Lemma del_synced s d pi dir pre bt r post items vs h m name lc now epoch pre' bt' r' post' :
  dir_synced s pi pre bt r post items vs h m -> name_ok name -> name_ready s (NDel name) epoch m ->
  place pre bt r post (rec_len name) pre' bt' r' post' ->
  let e := virt_addr (sbc s) + page_off bt' + r' in
  exists rc h' s', name_exec (NDel name) dir h pi lc now epoch d s = Ok (rc, h', d) s' /\ sbc s' = sbc s /\
    match m !! BKDRHash name with
    | None => rc = - EINVAL /\ s' = s /\ dir_synced s pi pre bt r post items vs h' m
    | Some e0 => exists name0, dentry_at s e0 name0 /\ BKDRHash name0 = BKDRHash name /\
        if decide (name = name0)
        then rc = 0 /\ entry_added s' pi pre' bt' r' post' (page_off bt + r) items vs h' (NDel name) e (delete (BKDRHash name) m)
        else rc = - EINVAL /\ s' = s /\ dir_map (ih_rb_tree h') = delete (BKDRHash name) m /\ ih_base h' = ih_base h
    end.
Proof.
  intros D No Rd Hp e. pose proof D as [B R Hh Ht Hpi W Tr Rp Nm]. pose proof No as [_ Hne Hlen].
  assert ((Z.of_nat (length name) =? 0) = false) as Hz by (apply Z.eqb_neq; destruct name; [done|cbn; lia]).
  unfold name_exec, nova_remove_dentry. rewrite Hz. destruct (m !! BKDRHash name) as [e0|] eqn:Em; cycle 1.
  { pose proof (remove_dir_node _ _ (BKDRHash name) W) as F. rewrite Tr, Em in F. destruct F as [o F].
    assert (nova_remove_dir_tree (ih_rb_tree h) name false 0 s = Ok (- EINVAL, ih_rb_tree h, 0) s) as E0
      by (unfold nova_remove_dir_tree; by rewrite F).
    eexists _, _, s. split; [by rewrite (sbind_ok _ _ _ _ _ _ _ (sbind_lift _ _ _ _ _ _ E0))|]. split_and!; [done|done|done|].
    by destruct h. }
  destruct (synced_entry _ _ _ _ _ _ _ _ _ _ _ e0 D Em) as (name0 & Hk & Da & Hp0).
  destruct (remove_unlink_run s _ (ih_rb_tree h) e0 name0 name 0 Hmeta W ltac:(by rewrite Tr) Da) as (t' & E0 & W' & Ed).
  destruct (decide (name = name0)) as [<-|Hdiff]; cycle 1.
  { eexists _, _, s. split; [by rewrite (sbind_ok _ _ _ _ _ _ _ (sbind_lift _ _ _ _ _ _ E0))|]. split; [done|].
    exists name0. rewrite decide_False by done. split_and!; try done. cbn [ih_rb_tree set_ih_rb_tree]. by rewrite Ed, Tr. }
  destruct (place_bounds _ _ _ _ _ _ _ _ _ _ _ _ B Hp Hlen) as (P & Hr' & Eu). set (h1 := set_ih_rb_tree t' h).
  destruct (synced_append s d pi (set_dir_times now dir) h h1 pre bt r post items vs m (up_dentries 0 0 no_update) name 0 lc epoch pre' bt' r' post')
    as (s1 & E1 & Es & Ec & R1 & B0 & B1); try done.
  erewrite sbind_ok.
  2:{ rewrite (sbind_lift _ _ _ _ _ _ E0). cbn [negb Z.eqb]. fold h1.
      rewrite (sbind_lift _ _ _ _ _ _ (dir_inode_run s h1 (synced_inode _ _ _ _ _ _ _ _ _ _ D))), rec_len_u16 by done.
      change (pi_addr (ih_base h1)) with (pi_addr (ih_base h)). rewrite Hpi.
      rewrite (sbind_lift _ _ _ _ _ _ (other_epoch_run s e0 epoch Hp0 (da_nonnull _ _ _ Da) (Rd _ Em))).
      rewrite (sbind_ok _ _ _ _ _ _ _ E1). cbn [negb Z.eqb up_main up_curr_entry].
      unfold sbind at 1, lift at 1, gets. cbn [bind ret]. reflexivity. }
  cbv iota beta. cbn [negb Z.eqb].
  match goal with |- context [publish pi ?hn ?u] =>
      edestruct (synced_finish s pi h s1 hn u pre bt r post items vs m (NDel name) pre' bt' r' post' (page_off bt + r) (delete (BKDRHash name) m) e) as (h' & s' & Epb & Es' & Ea); [exact D|exact No|exact Hp|..|] end.
  9:{ exists 0, h', s'. split; [by rewrite (sbind_lift _ _ _ _ _ _ Epb)|]. split; [done|].
      exists name. rewrite decide_True by done. split_and!; [done|done|done|exact Ea]. }
  all: cbn [ih_base ih_rb_tree set_ih_trans_id set_ih_rb_tree set_ih_last_dentry up_tail up_main nop_name nop_ino]; try done.
  - by rewrite Ec.
  - unfold h1. cbn [ih_rb_tree set_ih_rb_tree]. by rewrite Ed, Tr.
Qed.

(** C11: the tree of a directory, its log and the record of its inode
    stay in step.  When the tree holds the map from hashes to entries that the
    replay of the log gives, then adding a name whose hash is free, or removing a
    name whose entry is of another epoch, succeeds: exactly one entry is appended
    behind the tail (in the tail's page, or in the next page of the log when it
    does not fit there), the new tail is published in the inode, and the tree
    holds the new map, which the replay of the new log gives as well.  Adding a
    name whose hash is taken, by the name itself or by another one, is refused
    with EINVAL after the entry was written behind the tail, which is not
    published: tree, log and record stay in step.  Removing a name whose hash is
    free is refused with EINVAL and changes nothing.  Removing a name whose hash
    is taken by another name is refused with EINVAL and leaves the device as it
    is, but the other name's entry leaves the tree, which is out of step from
    then on.  (Checksums of DRAM nodes and of metadata are off, the media has no
    errors, nodes can be allocated, and the log has a next page where one is
    needed.) *)
Theorem name_update_synced s d pi dir pre bt r post items vs h m op lc now epoch pre' bt' r' post' :
  dir_synced s pi pre bt r post items vs h m -> name_ok (nop_name op) -> name_ready s op epoch m ->
  place pre bt r post (rec_len (nop_name op)) pre' bt' r' post' ->
  exists rc h' s', name_exec op dir h pi lc now epoch d s = Ok (rc, h', d) s' /\ sbc s' = sbc s /\
    let k := BKDRHash (nop_name op) in
    let e := virt_addr (sbc s) + page_off bt' + r' in
    let added := entry_added s' pi pre' bt' r' post' (page_off bt + r) items vs h' op e in
    match op, m !! k with
    | NAdd _ _, None => rc = 0 /\ added (<[k := e]> m)
    | NAdd _ _, Some _ => rc = - EINVAL /\ dir_synced s' pi pre bt r post items vs h' m
    | NDel _, None => rc = - EINVAL /\ s' = s /\ dir_synced s pi pre bt r post items vs h' m
    | NDel name, Some e0 => exists name0, dentry_at s e0 name0 /\ BKDRHash name0 = k /\
        if decide (name = name0) then rc = 0 /\ added (delete k m)
        else rc = - EINVAL /\ s' = s /\ dir_map (ih_rb_tree h') = delete k m /\ ih_base h' = ih_base h
    end.
Proof.
  intros D No Rd Hp. destruct op as [name ino|name]; cbn [nop_name] in *.
  - destruct (add_synced s d pi dir _ _ _ _ _ _ h m name ino lc now epoch _ _ _ _ D No Rd Hp) as (rc & h' & s' & E & Es & X).
    exists rc, h', s'. split_and!; [done|done|]. cbn zeta. by destruct (m !! BKDRHash name).
  - destruct (del_synced s d pi dir _ _ _ _ _ _ h m name lc now epoch _ _ _ _ D No Rd Hp) as (rc & h' & s' & E & Es & X).
    exists rc, h', s'. split_and!; [done|done|]. cbn zeta. by destruct (m !! BKDRHash name).
Qed.
End sync.
