(* ===== verification/TreeExample.v ===== *)
(** Directories and files on a small device: their trees, the rebuild from their
    logs, the collection of a log, and names added and removed. *)

(** Directories on a small device: names added, removed and looked up, two names
    with one hash, and the effect of node checksums. *)

From stdpp Require Import strings.
From S2P Require Import Prelude CInt Crc32c NovaEnv RangeNode Pmem NovaState NovaMonad NovaLib.
From S2P Require Import Balloc BallocSpec BallocInit BallocExample NovaLayout MetaCsum MetaExample DirTree DirTreeSpec.

Module DirExample.
Import BallocExample MetaExample.
Local Open Scope nova_scope.
Local Open Scope list_scope.

(** Neither metadata nor node checksums. *)
Definition plain : NovaEnv := {|
  nova_crc_env := CrcExample.env;
  metadata_csum := 0; data_csum := 0; data_parity := 0; dram_struct_csum := 0;
  wprotect := 1; support_clwb := 1;
  kmem_cache_zalloc_ok := fun _ => true;
  memcpy_mcsafe_rc := fun _ _ => 0
|}.

(** "file", "dir", "ad", and a name with the hash of "ad". *)
Definition n_file : list Z := [102; 105; 108; 101].
Definition n_dir : list Z := [100; 105; 114].
Definition n_ad : list Z := [97; 100].
Definition n_twin : list Z := [98; 225].

Example twins_collide : BKDRHash n_ad = BKDRHash n_twin.
Proof. reflexivity. Qed.

Definition ops : list dir_op :=
  [DAdd n_file 1000; DAdd n_dir 2000; DAdd n_file 3000; DFind n_dir; DDel n_file; DFind n_file; DDel n_ad].

Lemma dir_tree_refines_map_witness :
  exists t' s', @dir_execs plain RbExample.lib (media []) ops RB_ROOT s1
      = Ok ([0; 0; - EINVAL; 2000; 0; 0; - EINVAL], t') s' /\
    @dir_rel plain [n_file; n_dir; n_ad] (alloc_clock s') t' (dir_specs ops ∅).2.
Proof.
  replace [0; 0; - EINVAL; 2000; 0; 0; - EINVAL] with (dir_specs ops ∅).1 by (vm_compute; reflexivity).
  apply (@dir_tree_refines_map plain RbExample.lib RbExample.lib_ok (media []) [n_file; n_dir; n_ad] ops RB_ROOT s1 ∅).
  - reflexivity.
  - reflexivity.
  - apply (bool_decide_unpack _). vm_compute. exact I.
  - apply (bool_decide_unpack _). vm_compute. exact I.
  - split.
    + apply dir_wf_root.
    + intros name _. reflexivity.
    + intros h [e E]. discriminate E.
    + intros name [e E]. discriminate E.
Defined.

(** The entry of "ad" on the device, and a directory that holds it. *)
Definition ad_entry : Z := base + 600 * 4096 + 128.
Definition dm : mem :=
  store_bytes (store 8 (store 1 (store 1 ∅ ad_entry 2) (ad_entry + 1) 2) (ad_entry + 16) 40) (ad_entry + 48) n_ad.
Definition ds : nova := set_nvmm dm s1.
Definition ad_dir : rb_tree := Eval vm_compute in
  match @nova_insert_dir_tree plain RbExample.lib RB_ROOT n_ad ad_entry s1 with
  | Ok r _ => r.2
  | Fault _ => RB_ROOT
  end.

Lemma ad_wf : @dir_wf plain (alloc_clock s1 + 1) ad_dir.
Proof.
  destruct (@insert_dir_run plain RbExample.lib RbExample.lib_ok s1 RB_ROOT n_ad ad_entry eq_refl (dir_wf_root _))
    as (r & t' & E & W & _). vm_compute in E. injection E as <- <-. exact W.
Qed.

(** Removing the twin is refused, yet "ad" is gone. *)
Lemma nova_remove_dir_tree_unlink_witness :
  exists t', @nova_remove_dir_tree plain RbExample.lib (media []) ad_dir n_twin false 0 ds = Ok (- EINVAL, t', 0) ds /\
    @dir_wf plain (alloc_clock s1 + 1) t' /\ dir_map t' = delete (BKDRHash n_twin) (dir_map ad_dir) /\
    @nova_find_dentry plain t' n_twin = 0 /\ (BKDRHash n_ad = BKDRHash n_twin -> @nova_find_dentry plain t' n_ad = 0).
Proof.
  apply (@nova_remove_dir_tree_unlink plain RbExample.lib RbExample.lib_ok (media []) ds (alloc_clock s1 + 1)
    ad_dir ad_entry n_ad n_twin 0).
  - reflexivity.
  - apply ad_wf.
  - vm_compute. reflexivity.
  - split; try (vm_compute; congruence). apply (bool_decide_unpack _). vm_compute. exact I.
Defined.

Example unlink_ad :
  match @nova_remove_dir_tree plain RbExample.lib (media []) ad_dir n_ad false 0 ds with
  | Ok (r, t, e) _ => (r, t, e)
  | Fault _ => (1, RB_ROOT, 0)
  end = (0, RB_ROOT, ad_entry).
Proof. vm_compute. reflexivity. Qed.

(** With node checksums on, the node of a directory entry never gets one, so
    the entry is not found again. *)
Example dentry_lost_with_node_checksums :
  match @nova_insert_dir_tree env RbExample.lib RB_ROOT n_ad ad_entry s1 with
  | Ok (r, t) _ => (r, @nova_find_dentry env t n_ad)
  | Fault _ => (1, 1)
  end = (0, 0).
Proof. vm_compute. reflexivity. Qed.
End DirExample.

(** A file of six pages with holes: a write over the middle of it, and the index
    dropped from a page on. *)

From stdpp Require Import strings.
From S2P Require Import Prelude CInt Crc32c NovaEnv RangeNode Pmem NovaState NovaMonad NovaLib.
From S2P Require Import Balloc BallocSpec BallocInit BallocExample NovaLayout PmemOps LogPage MetaCsum MetaExample LogEntry.
From S2P Require Import Snapshot SnapshotSpec MetaExample DirTree FileTree FileTreeSpec.

Module FileTreeExample.
Import BallocExample MetaExample SnapshotExample DirExample.
Local Open Scope nova_scope.
Local Open Scope list_scope.

#[export] Instance radix_lib : RadixLib := {| radix_insert_ok := fun _ _ => true |}.

(** Two write entries: pages 0 and 1, and pages 3 and 4. *)
Definition w1 : Z := base + 600 * 4096 + 64.
Definition w2 : Z := base + 600 * 4096 + 128.
Definition w3 : Z := base + 600 * 4096 + 192.
Definition fm : mem :=
  store 4 (store 8 (store 4 (store 8 ∅
    (w1 + offsetof nova_file_write_entry "block") (700 * 4096)) (w1 + offsetof nova_file_write_entry "num_pages") 2)
    (w2 + offsetof nova_file_write_entry "pgoff") 3) (w2 + offsetof nova_file_write_entry "num_pages") 2.
Definition fs : nova := set_nvmm fm (set_cr0_wp false s1).
Definition T0 : gmap Z Z := {[ 0 := w1; 1 := w1; 3 := w2; 4 := w2 ]}.
Definition f0 : file_tree := mkFileTree T0 4 0.

(** A new entry for the pages 1 to 3, of epoch 0. *)
Definition w3c : list Z :=
  load_bytes (store 4 (store 8 ∅ (w3 + offsetof nova_file_write_entry "pgoff") 1)
    (w3 + offsetof nova_file_write_entry "num_pages") 3) w3 (Z.to_nat (sizeof nova_file_write_entry)).

Lemma T0_lookup q e : T0 !! q = Some e -> (q = 0 \/ q = 1) /\ e = w1 \/ (q = 3 \/ q = 4) /\ e = w2.
Proof.
  unfold T0. rewrite !lookup_insert_Some, lookup_singleton_Some. intuition lia.
Qed.

Lemma T0_no_gap : no_gap T0.
Proof.
  intros p q r e Hq [[Hp Ep]|[Hp Ep]]%T0_lookup [[Hr Er]|[Hr Er]]%T0_lookup; try (vm_compute in Ep, Er; lia); lia.
Qed.

Lemma T0_entries q e : T0 !! q = Some e -> e <> 0.
Proof. intros [[_ ->]|[_ ->]]%T0_lookup; vm_compute; discriminate. Qed.

Lemma nova_assign_write_entry_correct_witness :
  exists rs T',
    sm_eq (@nova_assign_write_entry plain RbExample.lib (media []) kmalloc_lib radix_lib f0 w3 w3c true)
      (sbind (@retire_all plain RbExample.lib (media []) kmalloc_lib rs true 0 f0) (fun x => sret (0, set_tree T' x))) /\
    (forall q, T' !! q = if decide (1 <= q < 1 + 3) then Some w3 else T0 !! q) /\
    ((forall q, T0 !! q <> Some w3) -> no_gap T') /\
    concat (pages_of_run <$> rs) = [1; 3] /\
    Forall (fun r => forall q, q ∈ pages_of_run r -> T0 !! q = Some r.1.1) rs.
Proof.
  assert (wfield "pgoff" w3c = 1) as Ep by (vm_compute; reflexivity).
  assert (wfield "num_pages" w3c = 3) as En by (vm_compute; reflexivity).
  assert (wfield "epoch_id" w3c = 0) as Ee by (vm_compute; reflexivity).
  destruct (@nova_assign_write_entry_correct plain RbExample.lib (media []) kmalloc_lib radix_lib f0 w3 w3c true)
    as (rs & T' & Eq & Lk & G & Pg & Fa).
  - reflexivity.
  - rewrite Ep. lia.
  - rewrite En. lia.
  - rewrite Ep, En. lia.
  - apply T0_no_gap.
  - apply T0_entries.
  - rewrite Ep, En in *. rewrite Ee in Eq. exists rs, T'. split; [exact Eq|]. split; [exact Lk|]. split; [exact G|].
    split; [|exact Fa]. refine (eq_trans Pg _). vm_compute. reflexivity.
Defined.

Lemma nova_delete_file_tree_correct_witness :
  exists sih', @nova_delete_file_tree plain RbExample.lib (media []) kmalloc_lib f0 1 false false 7 d1 fs = Ok (0, sih', d1) fs /\
    ft_i_blocks sih' = 4 /\ ft_blk_type sih' = 0 /\
    forall q, ft_tree sih' !! q = if decide (q < 1) then T0 !! q else None.
Proof.
  apply (@nova_delete_file_tree_correct plain RbExample.lib (media []) kmalloc_lib fs d1 f0 1 false 7).
  - lia.
  - intros k e E. split; [|by eapply T0_entries]. apply T0_lookup in E. lia.
  - intros k e [[Hk ->]|[Hk ->]]%T0_lookup Hs; [exists 0|exists 3]; (split; [vm_compute; reflexivity|lia]).
Defined.

(** The write with everything it does: no snapshot keeps the old data, so the
    two displaced pages are released and counted in their entries. *)
Example overwrite_releases :
  match @nova_assign_write_entry plain RbExample.lib (media []) kmalloc_lib radix_lib f0 w3 w3c true empty_snaps fs with
  | Ok ((rc, f), _) s => (rc, ft_i_blocks f,
      load 4 (nvmm s) (w1 + offsetof nova_file_write_entry "invalid_pages"),
      load 4 (nvmm s) (w2 + offsetof nova_file_write_entry "invalid_pages"))
  | Fault _ => (1, 0, 0, 0)
  end = (0, 2, 1, 1).
Proof. vm_compute. reflexivity. Qed.
End FileTreeExample.

(** A directory whose log covers two pages: two files are added, one of them is
    removed, and the directory is rebuilt. *)

From stdpp Require Import strings.
From S2P Require Import Prelude CInt Crc32c NovaEnv RangeNode Pmem NovaState NovaMonad NovaLib.
From S2P Require Import Balloc BallocSpec BallocInit BallocExample NovaLayout PmemOps LogPage RangeLog MetaCsum MetaExample LogEntry.
From S2P Require Import Snapshot SnapshotSpec MetaExample FileTree FileTreeSpec DirTree DirTreeSpec.
From S2P Require Import Parity ParityExample Rebuild RebuildSpec.

Module RebuildExample.
Import BallocExample MetaExample SnapshotExample DirExample FileTreeExample ParityExample.
Local Open Scope nova_scope.
Local Open Scope list_scope.

Definition dent (m : mem) (e ino len : Z) (name : list Z) : mem :=
  store_bytes (store 8 (store 2 (store 1 (store 1 m e (entry_type_val DIR_LOG)) (e + 1) (Z.of_nat (length name)))
    (e + 4) len) (e + 16) ino) (e + 48) name.

(** The inode is at block 20; the log pages are 600 and 601. *)
Definition rpi : Z := base + 20 * 4096.
Definition pg : Z := base + 600 * 4096.
Definition e1 : Z := pg.
Definition e2 : Z := pg + 56.
Definition e3 : Z := pg + 4096.
Definition rm : mem :=
  store 8 (store 8 (store 2 (store 8 (store 1
    (dent (dent (dent ∅ e1 40 56 n_file) e2 41 56 n_dir) e3 0 56 n_file)
    (pg + 112) (entry_type_val NEXT_PAGE)) (pg + 4088) (601 * 4096))
    (rpi + 28) 0x4000) (rpi + 64) (600 * 4096)) (rpi + 72) (601 * 4096 + 56).
Definition rs : nova := set_nvmm rm s1.

Definition items : list dir_item :=
  [IDentry e1 n_file 40 false; IDentry e2 n_dir 41 false; IDentry e3 n_file 0 false].

Ltac rep := split; vm_compute; first [reflexivity|discriminate].

Lemma rs_log : dir_log rs (601 * 4096 + 56) (600 * 4096) items.
Proof.
  assert (nova_get_block rs (600 * 4096) = e1) as E1 by (vm_compute; reflexivity).
  assert (nova_get_block rs (600 * 4096 + 56) = e2) as E2 by (vm_compute; reflexivity).
  assert (nova_get_block rs (601 * 4096) = e3) as E3 by (vm_compute; reflexivity).
  unfold items. rewrite <- E1, <- E2, <- E3.
  apply (dl_dentry rs (601 * 4096 + 56) (600 * 4096) (600 * 4096) n_file 40 false 56); [discriminate| |rep|].
  { split; vm_compute; intuition congruence. }
  change (u64 (600 * 4096 + 56)) with (600 * 4096 + 56).
  apply (dl_dentry rs (601 * 4096 + 56) (600 * 4096 + 56) (600 * 4096 + 56) n_dir 41 false 56); [discriminate| |rep|].
  { split; vm_compute; intuition congruence. }
  change (u64 (600 * 4096 + 56 + 56)) with (600 * 4096 + 112).
  apply (dl_dentry rs (601 * 4096 + 56) (600 * 4096 + 112) (601 * 4096) n_file 0 false 56); [discriminate| |rep|].
  { split; vm_compute; intuition congruence. }
  apply dl_end.
Qed.

(** Only "dir" is left; [n_twin] has the hash of "dir", and a lookup of it finds
    the entry of "dir". *)
Definition n_twin : list Z := [100; 106; 239].

Lemma nova_rebuild_dir_inode_tree_correct_witness :
  exists h' s', @nova_rebuild_dir_inode_tree plain RbExample.lib (media []) kmalloc_lib false rpi (20 * 4096)
      (nova_init_header 0x4000) d1 rs = Ok (0, h', d1) s' /\
    dir_map (ih_rb_tree h') = {[ BKDRHash n_dir := e2 ]} /\
    @nova_find_dentry plain (ih_rb_tree h') n_dir = e2 /\ @nova_find_dentry plain (ih_rb_tree h') n_file = 0 /\
    n_twin <> n_dir /\ @nova_find_dentry plain (ih_rb_tree h') n_twin = e2 /\
    (exists m', name_replay items ∅ = Some m' /\ @nova_find_dentry plain (ih_rb_tree h') n_dir = default 0 (m' !! n_dir)) /\
    (forall x, ~ (rpi <= x < rpi + 120) -> mget (nvmm s') x = mget (nvmm rs) x).
Proof.
  destruct (@nova_rebuild_dir_inode_tree_correct plain RbExample.lib RbExample.lib_ok (media []) kmalloc_lib
    ltac:(reflexivity) ltac:(reflexivity) rs d1 rpi (20 * 4096) (nova_init_header 0x4000) items {[ BKDRHash n_dir := e2 ]})
    as (h' & s' & E & W & Em & Ef & En & F).
  - reflexivity.
  - reflexivity.
  - split; vm_compute; reflexivity.
  - vm_compute. discriminate.
  - vm_compute. discriminate.
  - vm_compute. discriminate.
  - exact rs_log.
  - apply Nat.leb_le. vm_compute. reflexivity.
  - vm_compute. reflexivity.
  - vm_compute. reflexivity.
  - left. vm_compute. discriminate.
  - reflexivity.
  - reflexivity.
  - vm_compute. reflexivity.
  - exists h', s'. split_and!; [exact E|exact Em|by rewrite Ef|by rewrite Ef|discriminate|by rewrite Ef| |exact F].
    destruct (En [n_file; n_dir]) as (m' & Er & El).
    + apply (bool_decide_unpack _). vm_compute. exact I.
    + apply (bool_decide_unpack _). vm_compute. exact I.
    + exists m'. split; [exact Er|]. apply El. right. left.
Defined.
End RebuildExample.

(** A file whose log holds two overlapping writes, a truncation and a change of
    its links, rebuilt. *)

From stdpp Require Import strings.
From S2P Require Import Prelude CInt Crc32c NovaEnv RangeNode Pmem NovaState NovaMonad NovaLib.
From S2P Require Import Balloc BallocSpec BallocInit BallocExample NovaLayout PmemOps LogPage RangeLog MetaCsum MetaExample LogEntry.
From S2P Require Import Snapshot SnapshotSpec MetaExample FileTree FileTreeSpec DirTree DirTreeSpec.
From S2P Require Import Parity ParityExample Rebuild RebuildSpec RebuildFileSpec.

Module RebuildFileExample.
Import BallocExample MetaExample SnapshotExample DirExample FileTreeExample ParityExample.
Local Open Scope nova_scope.
Local Open Scope list_scope.

Definition went (m : mem) (e blk pg n size tid : Z) : mem :=
  store 8 (store 8 (store 8 (store 8 (store 4 (store 1 m e (entry_type_val FILE_WRITE)) (e + 4) n) (e + 8) (blk * 4096))
    (e + 16) pg) (e + 32) size) (e + 48) tid.

Definition fpi : Z := base + 20 * 4096.
Definition fpg : Z := base + 600 * 4096.
Definition fw1 : Z := fpg.
Definition fw2 : Z := fpg + 64.
Definition ftail : Z := 600 * 4096 + 224.

(** Pages 0 to 3 in blocks 700 to 703; pages 1 and 2 again, in blocks 710 and 711;
    the file cut to 8192 bytes. *)
Definition fmm : mem :=
  store 8 (store 8 (store 1 (store 8 (store 8 (store 2 (store 1
    (went (went ∅ fw1 700 0 4 16384 1) fw2 710 1 2 16384 2)
    (fpg + 128) (entry_type_val SET_ATTR)) (fpg + 130) 0x81A4) (fpg + 152) 8192) (fpg + 168) 3)
    (fpg + 184) (entry_type_val LINK_CHANGE)) (fpi + 64) (600 * 4096)) (fpi + 72) ftail.
Definition fss : nova := set_nvmm fmm s1.

Definition fitems : list file_item :=
  [FWrite fw1 0 4 0 16384 1; FWrite fw2 1 2 0 16384 2; FAttr true 8192 3; FOther].
Definition fW : list Z := [fw1; fw2].

Ltac cur := split; vm_compute; intuition congruence.
Ltac far := apply (bool_decide_unpack _); vm_compute; exact I.

Lemma wrep e pg n size tid :
  (e, pg, n, size, tid) ∈ [(fw1, 0, 4, 16384, 1); (fw2, 1, 2, 16384, 2)] -> write_rep fss fW e pg n 0 size tid.
Proof.
  intros He. rewrite !elem_of_cons, elem_of_nil in He.
  destruct He as [[= -> -> -> -> ->]|[[= -> -> -> -> ->]|[]]];
    (split; [vm_compute; reflexivity|unfold fW; set_solver|vm_compute; reflexivity..|lia|split; far]).
Qed.

Lemma fss_log : file_log fss fW ftail (600 * 4096) fitems.
Proof.
  assert (nova_get_block fss (600 * 4096) = fw1) as E1 by (vm_compute; reflexivity).
  assert (nova_get_block fss (600 * 4096 + 64) = fw2) as E2 by (vm_compute; reflexivity).
  assert (S_ISREG (load 2 (nvmm fss) (nova_get_block fss (600 * 4096 + 128) + 2)) = true) as E3 by (vm_compute; reflexivity).
  unfold fitems. rewrite <- E1, <- E2, <- E3.
  apply (fl_write fss fW ftail (600 * 4096) (600 * 4096) 0 4 0 16384 1); [discriminate|cur|split; far| |].
  { rewrite E1. apply wrep. by left. }
  change (u64 (600 * 4096 + 64)) with (600 * 4096 + 64).
  apply (fl_write fss fW ftail (600 * 4096 + 64) (600 * 4096 + 64) 1 2 0 16384 2); [discriminate|cur|split; far| |].
  { rewrite E2. apply wrep. right. by left. }
  change (u64 (600 * 4096 + 64 + 64)) with (600 * 4096 + 128).
  apply (fl_attr fss fW ftail (600 * 4096 + 128) (600 * 4096 + 128) 8192 3);
    [discriminate|cur|split; far|vm_compute; reflexivity|far|vm_compute; reflexivity|vm_compute; reflexivity|vm_compute; reflexivity|lia|].
  change (u64 (600 * 4096 + 128 + 56)) with (600 * 4096 + 184).
  apply (fl_link fss fW ftail (600 * 4096 + 184) (600 * 4096 + 184));
    [discriminate|cur|split; far|vm_compute; reflexivity|far|vm_compute; reflexivity|].
  change (u64 (600 * 4096 + 184 + 40)) with ftail. apply fl_end.
Qed.

Lemma nova_rebuild_file_inode_tree_correct_witness :
  exists h' s', @nova_rebuild_file_inode_tree plain RbExample.lib (media []) kmalloc_lib radix_lib parity_env false fpi (20 * 4096)
      (nova_init_header 0x8000) d1 fss = Ok (0, h', d1) s' /\
    ih_tree h' = {[ 0 := fw1; 1 := fw2 ]} /\ ih_i_size h' = 8192 /\ ih_i_blocks h' = 2 /\
    (forall x, (forall w, w ∈ fW -> x <> mark w) -> ~ (fpi <= x < fpi + 120) -> mget (nvmm s') x = mget (nvmm fss) x).
Proof.
  destruct (@nova_rebuild_file_inode_tree_correct plain RbExample.lib (media []) kmalloc_lib radix_lib parity_env
    ltac:(reflexivity) ltac:(reflexivity) ltac:(reflexivity) fW fss d1 fpi (20 * 4096) (nova_init_header 0x8000) fitems)
    as (h' & s' & E & Tr & Sz & Bl & Mm).
  - split; vm_compute; reflexivity.
  - vm_compute. discriminate.
  - vm_compute. discriminate.
  - vm_compute. discriminate.
  - vm_compute. discriminate.
  - exact fss_log.
  - apply Nat.leb_le. vm_compute. reflexivity.
  - vm_compute. reflexivity.
  - vm_compute. reflexivity.
  - far.
  - left. vm_compute. discriminate.
  - reflexivity.
  - exists h', s'. split; [exact E|]. split; [refine (eq_trans Tr _); vm_compute; reflexivity|].
    split; [refine (eq_trans Sz _); vm_compute; reflexivity|].
    split; [refine (eq_trans Bl _); vm_compute; reflexivity|exact Mm].
Defined.
End RebuildFileExample.

(** A log of four pages on a small device: the first and the third hold only
    invalid entries, the last one is the tail page, and one page is added. *)

From stdpp Require Import strings.
From S2P Require Import Prelude CInt Crc32c NovaEnv RangeNode Pmem NovaState NovaMonad NovaLib.
From S2P Require Import Balloc BallocSpec BallocAlloc BallocInit BallocExample NovaLayout PmemOps LogPage LogPageSpec.
From S2P Require Import RangeLog MetaCsum MetaExample LogEntry Snapshot SnapshotSpec FileTree.
From S2P Require Import DirTree Parity ParityExample Rebuild LogGc LogGcSpec.

Module LogGcExample.
Import BallocExample MetaExample SnapshotExample DirExample FileTreeExample ParityExample.
#[local] Existing Instance RbExample.lib.
#[local] Existing Instance RbExample.lib_ok.
Local Open Scope list_scope.

Definition ps1 : nova := Eval vm_compute in run (@nova_init_blockmap plain _ 0) s0.
Lemma ps1_run : @nova_init_blockmap plain _ 0 s0 = Ok tt ps1.
Proof. vm_compute. reflexivity. Qed.

Lemma ps1_wf : @alloc_wf plain ps1.
Proof.
  destruct (@init_blockmap_run plain _ _ s0) as (s' & E & W & _).
  - apply sb_geometry.
  - reflexivity.
  - intros fl Hfl. cbn in Hfl. set_solver.
  - intros. reflexivity.
  - rewrite ps1_run in E. by simplify_eq.
Qed.

Lemma ps1_log : @log_ctx plain ps1.
Proof.
  split; [apply ps1_wf| |reflexivity|cbn; lia|reflexivity].
  split_and!; [cbn; lia..|]. intros [|[|i]] fl E; cbn in E; simplify_eq; vm_compute; congruence.
Qed.

(** Five pages, of which the last is the new one. *)
Definition pl1 : nova := Eval vm_compute in
  run (@nova_allocate_inode_log_pages plain _ NOVA_BLOCK_TYPE_4K 5 0 ANY_CPU ALLOC_FROM_HEAD) ps1.
Lemma pl1_run :
  @nova_allocate_inode_log_pages plain _ NOVA_BLOCK_TYPE_4K 5 0 ANY_CPU ALLOC_FROM_HEAD ps1 = Ok (5, 2292 * 4096) pl1.
Proof. vm_compute. reflexivity. Qed.

Lemma pl1_log : @log_ctx plain pl1.
Proof.
  destruct (@allocate_log_pages_run plain _ _ ps1 5 0 ANY_CPU ALLOC_FROM_HEAD ps1_log) as (r & nb & s' & bs & E & T & _).
  - left. vm_compute. intuition congruence.
  - lia.
  - rewrite pl1_run in E. simplify_eq. apply T.
Qed.

(** The counters of a page, and the links. *)
Definition gp (b : Z) : Z := 0x100000000 + b * 4096.
Definition counts (m : mem) (b num inv : Z) : mem := store 4 (store 4 m (gp b + 4068) num) (gp b + 4064) inv.
Definition gm : mem := Eval vm_compute in
  store 8 (counts (counts (counts (nvmm pl1) 2292 2 2) 2293 3 1) 2294 4 4) (gp 2295 + 4088) 0.
Definition gs : nova := set_nvmm gm pl1.
Definition gpi : Z := gp 20.
Definition gh : info_header :=
  set_ih_log_pages 4 (set_ih_base (mkSih 40 (20 * 4096) 0 NOVA_BLOCK_TYPE_4K (2292 * 4096) (2295 * 4096 + 100) 0 0)
    (nova_init_header 0x4000)).

Lemma gs_log : @log_ctx plain gs.
Proof. destruct pl1_log as [C1 C2 C3 C4 C5]. split; try done. by apply (@alloc_wf_same plain pl1). Qed.

Lemma gs_apart : lists_apart gs.
Proof. intros [|[|i]] [|[|j]] fi fj Hi Hj; cbn in Hi, Hj; simplify_eq; vm_compute; congruence. Qed.

Lemma gs_held b : b ∈ [2292; 2293; 2294; 2295] -> page_held gs b.
Proof.
  intros Hb. split_and!.
  - unfold page_ok, page_off. cbn [gs set_nvmm sbc pl1 sb initsize]. set_unfold. lia.
  - destruct (free_lists gs !! 1%nat) as [fl|] eqn:E; [|by vm_compute in E]. exists 1%nat, fl. split; [done|].
    vm_compute in E. injection E as <-. cbn. set_unfold. lia.
  - set_unfold. destruct_or! Hb; subst b; vm_compute; reflexivity.
Qed.

Lemma gs_gc : gc_log gs gh [2292; 2293; 2294] 2295 [].
Proof.
  split.
  - apply (bool_decide_unpack _). vm_compute. exact I.
  - apply gs_held.
  - vm_compute. intuition congruence.
  - reflexivity.
  - reflexivity.
  - reflexivity.
  - cbn. lia.
Qed.

Lemma gs_new : gc_new gs [2292; 2293; 2294] 2295 [] [2296] gpi.
Proof.
  split.
  - intros b Hb%list_elem_of_singleton. subst. apply (bool_decide_unpack _). vm_compute. exact I.
  - intros b Hb%list_elem_of_singleton. subst. split; vm_compute; congruence.
  - vm_compute. intuition congruence.
  - cbn. lia.
  - split; vm_compute; congruence.
  - intros b x Hb Hp. unfold in_page, page_off in Hp. cbn [gs set_nvmm sbc pl1 sb virt_addr] in Hp.
    unfold gpi, gp. set_unfold. lia.
Qed.

(** Pages 2292 and 2294 are given back; the log is 2293, 2295, 2296. *)
Lemma nova_inode_log_fast_gc_correct_witness :
  exists ah s', @nova_inode_log_fast_gc plain _ (media []) gpi gh (2295 * 4096 + 4000)
      (2296 * 4096) 0 1 false d1 gs
    = Ok (set_ih_log_pages 3 (set_log_heads (2293 * 4096) ah (counted gs [2292; 2293; 2294] gh)), d1) s' /\
    @gc_effect plain gs [2292; 2293; 2294] 2295 [] [2296] gpi s' /\
    live_pages gs [2292; 2293; 2294] = [2293].
Proof.
  assert (live_pages gs [2292; 2293; 2294] = [2293] /\ dead_pages gs [2292; 2293; 2294] = [2292; 2294]) as [El Ed]
    by (vm_compute; done).
  destruct (@nova_inode_log_fast_gc_correct plain _ _ (media []) gs d1 gh
    [2292; 2293; 2294] 2295 [] [2296] gpi (2295 * 4096 + 4000) 0) as (ah & s' & E & Ge).
  - reflexivity.
  - reflexivity.
  - exact gs_log.
  - exact gs_apart.
  - reflexivity.
  - exact gs_gc.
  - exact gs_new.
  - reflexivity.
  - vm_compute. reflexivity.
  - exists ah, s'. rewrite Ed in E. unfold new_head in E. rewrite El in E. split; [exact E|]. split; [exact Ge|exact El].
Defined.
End LogGcExample.

(** The directory of [RebuildExample], with its tree in DRAM: "dir" is removed
    and "file" added again. *)

From stdpp Require Import strings.
From S2P Require Import Prelude CInt Crc32c NovaEnv RangeNode Pmem NovaState NovaMonad NovaLib.
From S2P Require Import Balloc BallocSpec BallocInit BallocExample NovaLayout PmemOps LogPage LogPageSpec RangeLog RangeRoundtrip InodeTable.
From S2P Require Import MetaCsum MetaExample LogEntry Snapshot SnapshotSpec FileTree FileTreeSpec DirTree DirTreeSpec.
From S2P Require Import Parity ParityExample Rebuild RebuildSpec LogGc LogAppend LogAppendSpec DirSync.

Module DirSyncExample.
Import BallocExample MetaExample SnapshotExample DirExample FileTreeExample ParityExample RebuildExample.
Local Open Scope nova_scope.
Local Open Scope list_scope.

Definition ss : nova := @after_alloc rs.
Definition stree : rb_tree := Eval vm_compute in
  match @nova_insert_dir_tree plain RbExample.lib RB_ROOT n_dir e2 rs with
  | Ok r _ => r.2
  | Fault _ => RB_ROOT
  end.
Definition sh : info_header :=
  set_ih_rb_tree stree (set_ih_base (mkSih 40 (20 * 4096) 0 NOVA_DEFAULT_BLOCK_TYPE (600 * 4096) (601 * 4096 + 56) 0 0)
    (nova_init_header 0x4000)).
Definition vs : list visit :=
  [mkVisit (600 * 4096) (600 * 4096) 56; mkVisit (600 * 4096 + 56) (600 * 4096 + 56) 56;
   mkVisit (600 * 4096 + 112) (601 * 4096) 56].
Definition smap : gmap Z Z := {[ BKDRHash n_dir := e2 ]}.

Lemma stree_map : @dir_wf plain (alloc_clock ss) stree /\ dir_map stree = smap.
Proof.
  destruct (@insert_dir_run plain RbExample.lib RbExample.lib_ok rs RB_ROOT n_dir e2 eq_refl (dir_wf_root _))
    as (r & t' & E & W & Hm). cbn in Hm. destruct Hm as [-> Hm].
  assert (t' = stree) as ->.
  { vm_compute in E. injection E as <-. reflexivity. }
  split; [exact W|exact Hm].
Qed.

Lemma ss_walk : dir_walk ss (601 * 4096 + 56) (600 * 4096) items vs.
Proof.
  assert (nova_get_block ss (600 * 4096) = e1) as E1 by (vm_compute; reflexivity).
  assert (nova_get_block ss (600 * 4096 + 56) = e2) as E2 by (vm_compute; reflexivity).
  assert (nova_get_block ss (601 * 4096) = e3) as E3 by (vm_compute; reflexivity).
  unfold items, vs. rewrite <- E1, <- E2, <- E3.
  repeat (apply dw_step; [discriminate|split; vm_compute; intuition congruence|split_and!; [reflexivity|rep|vm_compute; discriminate]|];
    match goal with |- dir_walk _ _ (u64 ?x) _ _ => let v := eval vm_compute in (u64 x) in change (u64 x) with v end;
    try (apply dw_end)).
Qed.

Lemma ss_body : log_body ss [600] 601 56 [] items vs.
Proof.
  assert (forall b, b ∈ [600] ++ 601 :: [] -> b = 600 \/ b = 601) as Hb by (intros b; set_solver).
  split.
  - split; vm_compute; reflexivity.
  - reflexivity.
  - apply (bool_decide_unpack _). vm_compute. exact I.
  - intros b [->| ->]%Hb; split; vm_compute; congruence.
  - intros b [->| ->]%Hb; vm_compute; congruence.
  - vm_compute. intuition congruence.
  - vm_compute. intuition congruence.
  - exact ss_walk.
  - intros v [->|[->|[->|[]%elem_of_nil]%elem_of_cons]%elem_of_cons]%elem_of_cons;
      unfold visit_ok, page_off, LOG_BLOCK_TAIL; cbn [v_at v_entry v_len].
    + split; exists 600, 0; split_and!; first [lia|left; left].
    + split; exists 600, 56; split_and!; first [lia|left; left].
    + split; [exists 600, 112; split_and!; first [lia|left; left]|].
      exists 601, 0. split_and!; first [lia|right; split; [done|lia]].
Qed.

Lemma ss_record : log_record ss rpi [600] 601 56 [].
Proof.
  split; [split; vm_compute; discriminate| |vm_compute; reflexivity..].
  intros b x Hb. assert (b = 600 \/ b = 601) as Hb' by set_solver.
  assert (virt_addr (sbc ss) = base) as Ev by reflexivity. unfold in_page, rpi, page_off. rewrite Ev. lia.
Qed.

Lemma names_fine name : name ∈ [n_file; n_dir; n_twin] -> name_ok name.
Proof.
  intros Hn. assert (name = n_file \/ name = n_dir \/ name = n_twin) as [->|[->| ->]] by set_solver;
    split; [apply (bool_decide_unpack _); exact I|discriminate|reflexivity|apply (bool_decide_unpack _); exact I|
      discriminate|reflexivity|apply (bool_decide_unpack _); exact I|discriminate|reflexivity].
Qed.

Lemma ss_synced : @dir_synced plain ss rpi [600] 601 56 [] items vs sh smap.
Proof.
  split; [exact ss_body|exact ss_record|reflexivity..| | | |].
  - apply stree_map.
  - apply stree_map.
  - vm_compute. reflexivity.
  - change (concat (item_name <$> items)) with [n_file; n_dir; n_file]. apply Forall_forall. intros name Hn.
    apply names_fine. set_solver.
Qed.

(** The entry at [e2] is of "dir". *)
Lemma dir_entry_name name : dentry_at ss e2 name -> name = n_dir.
Proof.
  intros [_ _ Hl Hb _ _ _]. assert (load 1 (nvmm ss) (e2 + 1) = 3) as L by (vm_compute; reflexivity).
  rewrite L in Hl. assert (length name = 3%nat) as Hn by lia. rewrite Hn in Hb. rewrite <- Hb. vm_compute. reflexivity.
Qed.

Definition dir0 : vfs_inode := mkInode 0x4000 0 0 0 0 0 4096 2 0 0.

(** "dir" is removed, "file" added; the name that collides with "dir" cannot be
    added, and removing it takes "dir" out of the tree. *)
Lemma name_update_synced_witness :
  (exists h' s', @name_exec plain RbExample.lib (media []) (NDel n_dir) dir0 sh rpi 0 77 5 d1 ss = Ok (0, h', d1) s' /\
    @entry_added plain s' rpi [600] 601 56 [] (601 * 4096 + 56) items vs h' (NDel n_dir) (pg + 4096 + 56)
      (delete (BKDRHash n_dir) smap)) /\
  (exists h' s', @name_exec plain RbExample.lib (media []) (NAdd n_file 42) dir0 sh rpi 0 77 5 d1 ss = Ok (0, h', d1) s' /\
    @entry_added plain s' rpi [600] 601 56 [] (601 * 4096 + 56) items vs h' (NAdd n_file 42) (pg + 4096 + 56)
      (<[BKDRHash n_file := pg + 4096 + 56]> smap)) /\
  (exists h' s', @name_exec plain RbExample.lib (media []) (NAdd n_twin 42) dir0 sh rpi 0 77 5 d1 ss = Ok (- EINVAL, h', d1) s' /\
    @dir_synced plain s' rpi [600] 601 56 [] items vs h' smap) /\
  (exists h', @name_exec plain RbExample.lib (media []) (NDel n_twin) dir0 sh rpi 0 77 5 d1 ss = Ok (- EINVAL, h', d1) ss /\
    dir_map (ih_rb_tree h') = delete (BKDRHash n_twin) smap).
Proof.
  pose proof (fun op => @name_update_synced plain RbExample.lib RbExample.lib_ok (media []) ltac:(reflexivity) ltac:(reflexivity)
    ltac:(reflexivity) ltac:(reflexivity) ltac:(reflexivity) ss d1 rpi dir0 [600] 601 56 [] items vs sh smap
    op 0 77 5 [600] 601 56 [] ss_synced) as Run.
  assert (forall e, smap !! BKDRHash n_dir = Some e -> load 8 (nvmm ss) (e + 32) <> 5) as Hep.
  { intros e He. unfold smap in He. rewrite lookup_singleton_eq in He. injection He as <-. vm_compute. discriminate. }
  assert (BKDRHash n_twin = BKDRHash n_dir) as Ht by (vm_compute; reflexivity).
  split_and!.
  - destruct (Run (NDel n_dir)) as (rc & h' & s' & E & _ & X).
    + apply names_fine. set_solver.
    + exact Hep.
    + apply place_here. vm_compute. discriminate.
    + destruct X as (name0 & Da & Hk & X). destruct (decide (n_dir = name0)) as [<-|Hne]; destruct X as [-> X].
      * exists h', s'. split; [exact E|exact X].
      * exfalso. apply Hne. symmetry. exact (dir_entry_name name0 Da).
  - destruct (Run (NAdd n_file 42)) as (rc & h' & s' & E & _ & X).
    + apply names_fine. set_solver.
    + split; reflexivity.
    + apply place_here. vm_compute. discriminate.
    + destruct X as [-> X]. exists h', s'. split; [exact E|exact X].
  - destruct (Run (NAdd n_twin 42)) as (rc & h' & s' & E & _ & X).
    + apply names_fine. set_solver.
    + split; reflexivity.
    + apply place_here. vm_compute. discriminate.
    + destruct X as [-> X]. exists h', s'. split; [exact E|exact X].
  - destruct (Run (NDel n_twin)) as (rc & h' & s' & E & _ & X).
    + apply names_fine. set_solver.
    + cbn [name_ready]. rewrite Ht. exact Hep.
    + apply place_here. vm_compute. discriminate.
    + destruct X as (name0 & Da & Hk & X). destruct (decide (n_twin = name0)) as [<-|Hne]; destruct X as [-> X].
      * exfalso. discriminate (dir_entry_name n_twin Da).
      * destruct X as (-> & X & _). exists h'. split; [exact E|exact X].
Defined.
End DirSyncExample.

(** The directory of [RebuildExample] with the inodes of its files: both names
    come with the inode number 41. *)

From S2P Require Import Readdir.

Module ReaddirExample.
Import BallocExample MetaExample SnapshotExample DirExample FileTreeExample ParityExample RebuildExample.
Local Open Scope nova_scope.
Local Open Scope list_scope.

Definition sink : DirSink := {| sink_takes := fun _ _ => true |}.

(** The inode tables of the two CPUs start at blocks 1024 and 1536. *)
Definition lm : mem :=
  store 2 (store 2 (store 8 (store 8 rm (base + 65536) (1024 * 4096)) (base + 65600) (1536 * 4096))
    (base + 1024 * 4096 + 20 * 128 + 28) 0x8000) (base + 1536 * 4096 + 20 * 128 + 28) 0x4000.
Definition ls : nova := set_nvmm lm s1.
Definition lh : info_header :=
  set_ih_base (mkSih 40 (20 * 4096) 0 NOVA_DEFAULT_BLOCK_TYPE (600 * 4096) (601 * 4096 + 56) 0 0) (nova_init_header 0x4000).
Definition ltype (ino : Z) : Z := if ino =? 40 then 8 else 4.

Lemma ls_log : dir_log ls (601 * 4096 + 56) (600 * 4096) items.
Proof.
  apply (dir_walk_log ls _ _ _ DirSyncExample.vs).
  assert (nova_get_block ls (600 * 4096) = e1) as E1 by (vm_compute; reflexivity).
  assert (nova_get_block ls (600 * 4096 + 56) = e2) as E2 by (vm_compute; reflexivity).
  assert (nova_get_block ls (601 * 4096) = e3) as E3 by (vm_compute; reflexivity).
  unfold items, DirSyncExample.vs. rewrite <- E1, <- E2, <- E3.
  repeat (apply dw_step; [discriminate|split; vm_compute; intuition congruence|split_and!; [reflexivity|rep|vm_compute; discriminate]|];
    match goal with |- dir_walk _ _ (u64 ?x) _ _ => let v := eval vm_compute in (u64 x) in change (u64 x) with v end;
    try (apply dw_end)).
Qed.

Lemma nova_readdir_fast_lists_witness :
  exists l, @nova_readdir plain RbExample.lib (media []) sink false lh (mkCtx 0 []) ls = Ok (0, mkCtx READDIR_END ([] ++ l)) ls /\
    dt_name <$> l = [n_file; n_dir] /\ dt_type <$> l = [8; 4] /\ dt_ino <$> l = [41; 41].
Proof.
  assert (live ls items = [(n_file, 40); (n_dir, 41)]) as El by (vm_compute; reflexivity).
  pose proof (@nova_readdir_fast_lists plain RbExample.lib RbExample.lib_ok (media []) sink
    ltac:(reflexivity) ltac:(reflexivity) ltac:(reflexivity) ls ltype lh [] items) as X. rewrite El in X.
  apply X.
  - vm_compute. reflexivity.
  - vm_compute. discriminate.
  - exact ls_log.
  - apply Nat.leb_le. vm_compute. reflexivity.
  - intros x [->|[->|[]%elem_of_nil]%elem_of_cons]%elem_of_cons; eexists _, _; (split_and!; [vm_compute; reflexivity|reflexivity|vm_compute; reflexivity..]).
Defined.
End ReaddirExample.
