(* ===== verification/VfsInode.v ===== *)
(** VFS inodes (inode.c): giving up an inode's data blocks, its log and its
    number; reading and creating inodes, attributes, sizes, and the search for
    data and holes.

    [vnode] is a struct inode with its nova_inode_info; the kernel's inode cache
    is a table of them by number ([icache]), which an action of [IM] changes
    besides the device and the snapshots.  Inodes are shared: an operation that
    meets one inode under two names works on one [vnode].  Operation vectors and
    the page cache are left out.  The services of the VFS are an interface
    ([VfsLib]); [vfs_state] holds what eviction reads of struct inode; readings of the clock are arguments.
    Each definition translates the C function of the same name. *)

From stdpp Require Import strings.
From S2P Require Import Prelude CInt Crc32c NovaEnv RangeNode Pmem NovaState NovaMonad NovaLib.
From S2P Require Import Balloc NovaLayout LogPage InodeMap RangeLog InodeTable Journal Checksum Parity MetaCsum LogEntry Snapshot FileTree DirTree Rebuild LogGc LogAppend.

Local Open Scope nova_scope.
Local Open Scope string_scope.
Local Open Scope list_scope.
Local Open Scope Z_scope.

(** ** Giving up an inode *)

Definition EACCES : Z := 13.
Definition NOVA_EOFBLOCKS_FL : Z := 0x20000000.

(** [i_nlink], [is_bad_inode], and IS_APPEND or IS_IMMUTABLE. *)
Record vfs_state := mkVfs { vs_i_nlink : Z; vs_bad : bool; vs_protected : bool }.

Section inode_delete.
Context `{NovaEnv, RbLib, MediaLib, KmallocLib, RadixLib, ParityEnv}.

Definition nova_get_last_blocknr (h : info_header) : M Z :=
  let! pi := gets (fun s => nova_get_block s (pi_addr (ih_base h))) in
  let! r := memcpy_mcsafe pi (Z.to_nat (sizeof nova_inode)) in
  let btype := if negb (r.1 =? 0) then 0 else i_blk_type (ih_base h) in
  ret (if ih_i_size h =? 0 then 0 else Z.shiftr (u64 (ih_i_size h - 1)) (nova_inode_blk_shift btype)).

(** Returns the result and the header. *)
Definition nova_free_inode (pi : Z) (h : info_header) : M (Z * info_header) :=
  let! _ := nova_free_inode_log pi (ih_base h) in
  let b := ih_base h in
  let h := set_ih_i_blocks 0 (set_ih_i_size 0 (set_ih_i_mode 0 (set_ih_log_pages 0
    (set_ih_base (mkSih (sih_ino b) 0 0 (i_blk_type b) (sih_log_head b) (sih_log_tail b)
       (sih_alter_log_head b) (sih_alter_log_tail b)) h)))) in
  let! ino := pload_field nova_inode pi "nova_ino" in
  let! rc := nova_free_inuse_inode ino in
  ret (rc, h).

(** The inode is marked deleted, its replica too. *)
Definition mark_deleted (pi : Z) (h : info_header) : M unit :=
  nova_memunlock_inode pi ;;;
  pstore_field nova_inode pi "deleted" 1 ;;;
  let! valid := pload_field nova_inode pi "valid" in
  when (negb (valid =? 0)) (pstore_field nova_inode pi "valid" 0) ;;;
  let! _ := nova_update_inode_checksum pi in
  (if negb (metadata_csum =? 0) && negb (alter_pi_addr (ih_base h) =? 0) then
     let! alter_pi := gets (fun s => nova_get_block s (alter_pi_addr (ih_base h))) in
     let! l := pload_bytes (Z.to_nat (sizeof nova_inode)) pi in
     let! _ := memcpy_to_pmem_nocache alter_pi l in ret tt
   else ret tt) ;;;
  nova_memlock_inode pi.

(** The index of a file is released with its blocks, from page 0 on. *)
Definition release_file (h : info_header) : SM info_header :=
  do! r := nova_delete_file_tree (ih_file h) 0 true true 0 in sret (put_file r.2 h).

Definition nova_free_inode_resource (pi : Z) (h : info_header) : SM (Z * info_header) :=
  lift (mark_deleted pi h) ,,,
  do! i_mode := lift (pload_field nova_inode pi "i_mode") in
  let kind := Z.land i_mode S_IFMT in
  do! h := (if kind =? S_IFREG then do! _ := lift (nova_get_last_blocknr h) in release_file h
    else if kind =? S_IFDIR then sret (set_ih_rb_tree (nova_delete_dir_tree (ih_rb_tree h)) h)
    else if kind =? S_IFLNK then release_file h
    else sret h) in
  do! r := lift (nova_free_inode pi h) in
  (if negb (r.1 =? 0) then lift nova_err else sret tt) ,,,
  sret r.

(** Returns [freed] and the header. *)
Definition nova_free_dram_resource (h : info_header) : SM (Z * info_header) :=
  if sih_ino (ih_base h) =? 0 then sret (0, h)
  else if S_ISREG (ih_i_mode h) then
    do! _ := lift (nova_get_last_blocknr h) in
    do! r := nova_delete_file_tree (ih_file h) 0 false false 0 in
    sret (r.1, put_file r.2 h)
  else if S_ISDIR (ih_i_mode h) then sret (1, set_ih_rb_tree (nova_delete_dir_tree (ih_rb_tree h)) h)
  else sret (0, h).

(** [pi] is [nova_get_inode]'s result, NULL included.  The messages about a
    number that does not match, and the page cache, are left out. *)
Definition nova_evict_inode (v : vfs_state) (h : info_header) : SM info_header :=
  do! pi := lift (nova_get_inode (ih_base h)) in
  do! in_snapshot := (if negb (pi =? 0) then
      do! valid := lift (pload_field nova_inode pi "valid") in
      if valid =? 0 then do! r := nova_append_inode_to_snapshot pi in sret (r =? 0) else sret false
    else sret false) in
  do! r := (if (in_snapshot : bool) || negb (vs_i_nlink v =? 0) || vs_bad v || vs_protected v then sret (false, h)
    else if negb (pi =? 0) then
      do! r := nova_free_inode_resource pi h in sret (r.1 =? 0, r.2)
    else sret (true, h)) in
  if r.1 : bool then sret r.2
  else do! r := nova_free_dram_resource r.2 in sret r.2.

(** First the tree is rebuilt, then the blocks are freed. *)
Definition nova_delete_dead_inode (mount_snapshot : bool) (ino : Z) : SM Z :=
  if ino <? NOVA_NORMAL_INODE_START then sret (- EINVAL)
  else
    do! r := lift (nova_get_inode_address ino 0 0 false false) in
    let '(err, pi_addr) := r in
    if negb (err =? 0) then sret (- EINVAL)
    else if pi_addr =? 0 then sret (- EACCES)
    else
      do! r := nova_rebuild_inode mount_snapshot (nova_init_header 0) ino pi_addr false in
      if negb (r.1 =? 0) then sret r.1
      else
        do! pi := lift (gets (fun s => nova_get_block s pi_addr)) in
        do! r := nova_free_inode_resource pi r.2 in
        sret r.1.

(** ** Truncation *)
Definition check_eof_blocks (pi i_size : Z) (h : info_header) : M unit :=
  let! flags := pload_field nova_inode pi "i_flags" in
  let! c := gets sbc in
  if negb (Z.land flags NOVA_EOFBLOCKS_FL =? 0)
     && (u64 (Z.shiftl (ih_i_blocks h) (s_blocksize_bits c)) <? u64 (i_size + s_blocksize c)) then
    nova_memunlock_inode pi ;;;
    pstore_field nova_inode pi "i_flags" (Z.land flags (Z.lnot NOVA_EOFBLOCKS_FL)) ;;;
    let! _ := nova_update_inode_checksum pi in
    let! _ := nova_update_alter_inode (ih_base h) pi in
    nova_memlock_inode pi
  else ret tt.

(** [i_blocks] is [inode->i_blocks], returned with the header; [i_size] is
    [inode->i_size]. *)
Definition nova_truncate_file_blocks (i_size i_blocks : Z) (h : info_header) (start end_ epoch_id : Z)
    : SM (Z * info_header) :=
  do! pi := lift (nova_get_inode (ih_base h)) in
  let data_bits := nova_inode_blk_shift (i_blk_type (ih_base h)) in
  let first_blocknr := Z.shiftr (u64 (start + Z.shiftl 1 data_bits - 1)) data_bits in
  if end_ =? 0 then sret (i_blocks, h)
  else
    let last_blocknr := u64 (Z.shiftr (s64 (end_ - 1)) data_bits) in
    if last_blocknr <? first_blocknr then sret (i_blocks, h)
    else
      do! r := nova_delete_file_tree (ih_file h) first_blocknr true false epoch_id in
      let h := put_file r.2 h in
      do! bits := lift (gets (fun s => s_blocksize_bits (sbc s))) in
      let i_blocks := u64 (i_blocks - s32 (r.1 * Z.shiftl 1 (data_bits - bits))) in
      let h := set_ih_i_blocks i_blocks h in
      lift (check_eof_blocks pi i_size h) ,,,
      sret (i_blocks, h).
End inode_delete.

(** ** Flags *)

(** linux/fs.h *)
Definition FS_SYNC_FL : Z := 0x8.
Definition FS_IMMUTABLE_FL : Z := 0x10.
Definition FS_APPEND_FL : Z := 0x20.
Definition FS_NODUMP_FL : Z := 0x40.
Definition FS_NOATIME_FL : Z := 0x80.
Definition FS_COMPR_FL : Z := 0x4.
Definition FS_DIRSYNC_FL : Z := 0x10000.
Definition FS_TOPDIR_FL : Z := 0x20000.
Definition S_SYNC : Z := 1.
Definition S_NOATIME : Z := 2.
Definition S_APPEND : Z := 4.
Definition S_IMMUTABLE : Z := 8.
Definition S_DIRSYNC : Z := 64.
Definition S_DAX : Z := 8192.
Definition S_IFCHR : Z := 0x2000.
Definition S_IFBLK : Z := 0x6000.
Definition ENXIO : Z := 6.
Definition NOVA_FL_INHERITED : Z :=
  fold_right Z.lor 0 [0x1; 0x2; FS_COMPR_FL; FS_SYNC_FL; FS_NODUMP_FL; FS_NOATIME_FL; 0x200; 0x400; 0x4000; 0x8000; FS_DIRSYNC_FL].
Definition NOVA_REG_FLMASK : Z := Z.lnot (Z.lor FS_DIRSYNC_FL FS_TOPDIR_FL).
Definition NOVA_OTHER_FLMASK : Z := Z.lor FS_NODUMP_FL FS_NOATIME_FL.

Definition nova_mask_flags (mode flags : Z) : Z :=
  let flags := Z.land flags NOVA_FL_INHERITED in
  if S_ISDIR mode then flags
  else if S_ISREG mode then Z.land flags NOVA_REG_FLMASK
  else Z.land flags NOVA_OTHER_FLMASK.

(** An inode in DRAM: its VFS fields, [i_flags], [i_rdev], and NOVA's header. *)
Record vnode := mkVnode { vn_i : vfs_inode; vn_flags : Z; vn_rdev : Z; vn_h : info_header }.
Definition set_vn_i (i : vfs_inode) (v : vnode) : vnode := mkVnode i (vn_flags v) (vn_rdev v) (vn_h v).
Definition set_vn_h (h : info_header) (v : vnode) : vnode := mkVnode (vn_i v) (vn_flags v) (vn_rdev v) h.

Definition set_vi_ctime (t : Z) (i : vfs_inode) : vfs_inode :=
  mkInode (vi_mode i) (vi_uid i) (vi_gid i) (vi_atime i) (vi_mtime i) t (vi_size i) (vi_nlink i) (vi_generation i) (vi_blocks i).
Definition set_vi_nlink (n : Z) (i : vfs_inode) : vfs_inode :=
  mkInode (vi_mode i) (vi_uid i) (vi_gid i) (vi_atime i) (vi_mtime i) (vi_ctime i) (vi_size i) n (vi_generation i) (vi_blocks i).
Definition set_vi_size (n : Z) (i : vfs_inode) : vfs_inode :=
  mkInode (vi_mode i) (vi_uid i) (vi_gid i) (vi_atime i) (vi_mtime i) (vi_ctime i) n (vi_nlink i) (vi_generation i) (vi_blocks i).

(** [init_special_inode]: only devices have a number. *)
Definition special_rdev (mode rdev : Z) : Z :=
  let kind := Z.land mode S_IFMT in if (kind =? S_IFCHR) || (kind =? S_IFBLK) then rdev else 0.

Class VfsLib := {
  (** is there memory for the inode whose allocation is the given one *)
  new_inode_ok : positive -> bool;
  (** mode, owner and group of an inode created with a mode in a directory *)
  inode_init_owner : vfs_inode -> Z -> Z * Z * Z;
  (** the flags, given the mode, of an inode without extended attributes *)
  inode_has_no_xattr : Z -> Z -> Z;
  (** may the attributes be changed, and the inode with them but for the size *)
  setattr_prepare : vfs_inode -> iattr -> Z;
  setattr_copy : vfs_inode -> iattr -> vfs_inode
}.

(** ** The inode cache *)
Record icache := mkIcache { ic_inodes : gmap Z vnode; next_generation : Z }.
Definition IM (A : Type) : Type := icache -> SM (A * icache).
Definition iret {A} (a : A) : IM A := fun c => sret (a, c).
Definition ibind {A B} (m : IM A) (k : A -> IM B) : IM B := fun c => do! r := m c in k r.1 r.2.
Definition ilift {A} (m : SM A) : IM A := fun c => do! a := m in sret (a, c).
Definition mlift {A} (m : M A) : IM A := ilift (lift m).
Notation "'io!' x ':=' m 'in' k" := (ibind m (fun x => k))
  (at level 10, x pattern, m at level 200, k at level 200) : nova_scope.
Notation "m ';!;' k" := (ibind m (fun _ => k)) (at level 199, right associativity) : nova_scope.

(** The inode numbered [ino], which the caller holds. *)
Definition vget (ino : Z) : IM vnode := fun c =>
  match ic_inodes c !! ino with Some v => sret (v, c) | None => sraise FDangling end.
Definition vput (ino : Z) (v : vnode) : IM unit := fun c => sret (tt, mkIcache (<[ino := v]> (ic_inodes c)) (next_generation c)).
Definition vupd (ino : Z) (f : vfs_inode -> vfs_inode) : IM unit := io! v := vget ino in vput ino (set_vn_i (f (vn_i v)) v).

(** ** Flags *)
Definition flag_if (b : bool) (f acc : Z) : Z := if b then Z.lor acc f else acc.
Definition has (x f : Z) : bool := negb (Z.land x f =? 0).

(** [nova_flags] of the inode's record after the call. *)
Definition nova_get_inode_flags (i_flags nova_flags : Z) : Z :=
  let f := Z.land nova_flags (Z.lnot (fold_right Z.lor 0 [FS_SYNC_FL; FS_APPEND_FL; FS_IMMUTABLE_FL; FS_NOATIME_FL; FS_DIRSYNC_FL])) in
  let f := flag_if (has i_flags S_SYNC) FS_SYNC_FL f in
  let f := flag_if (has i_flags S_APPEND) FS_APPEND_FL f in
  let f := flag_if (has i_flags S_IMMUTABLE) FS_IMMUTABLE_FL f in
  let f := flag_if (has i_flags S_NOATIME) FS_NOATIME_FL f in
  flag_if (has i_flags S_DIRSYNC) FS_DIRSYNC_FL f.

Section vfs_inode.
Context `{NovaEnv, RbLib, MediaLib, KmallocLib, RadixLib, ParityEnv, VfsLib}.

Definition nova_set_inode_flags (i_mode i_flags : Z) (has_xattr : bool) (flags : Z) : Z :=
  let f := Z.land i_flags (Z.lnot (fold_right Z.lor 0 [S_SYNC; S_APPEND; S_IMMUTABLE; S_NOATIME; S_DIRSYNC])) in
  let f := flag_if (has flags FS_SYNC_FL) S_SYNC f in
  let f := flag_if (has flags FS_APPEND_FL) S_APPEND f in
  let f := flag_if (has flags FS_IMMUTABLE_FL) S_IMMUTABLE f in
  let f := flag_if (has flags FS_NOATIME_FL) S_NOATIME f in
  let f := flag_if (has flags FS_DIRSYNC_FL) S_DIRSYNC f in
  let f := if has_xattr then f else inode_has_no_xattr i_mode f in
  Z.lor f S_DAX.

(** ** Reading an inode *)

(** [pi_addr] is the inode's record, [h] the header rebuilt from its log; returns
    the result and the inode. *)
Definition nova_read_inode (h : info_header) (pi_addr : Z) : M (Z * vnode) :=
  let bad rc := ret (rc, mkVnode (mkInode 0 0 0 0 0 0 0 0 0 0) 0 0 h) in
  let! pi := gets (fun s => nova_get_block s pi_addr) in
  let! r := memcpy_mcsafe pi (Z.to_nat (sizeof nova_inode)) in
  if negb (r.1 =? 0) then bad r.1
  else
    let get f := pload_field nova_inode pi f in
    let i_mode := ih_i_mode h in
    let! uid := get "i_uid" in
    let! gid := get "i_gid" in
    let! generation := get "i_generation" in
    let! flags := get "i_flags" in
    let! xattr := get "i_xattr" in
    let i_flags := nova_set_inode_flags i_mode 0 (negb (xattr =? 0)) flags in
    let! deleted := get "deleted" in
    if (i_mode =? 0) || (deleted =? 1) then bad (- ESTALE)
    else
      let kind := Z.land i_mode S_IFMT in
      let! rdev := (if (kind =? S_IFREG) || (kind =? S_IFDIR) || (kind =? S_IFLNK) then ret 0
        else let! rdev := get "rdev" in ret (special_rdev i_mode rdev)) in
      let! atime := get "i_atime" in
      let! ctime := get "i_ctime" in
      let! mtime := get "i_mtime" in
      let! links := get "i_links_count" in
      ret (0, mkVnode (mkInode i_mode uid gid (s32 atime) (s32 mtime) (s32 ctime) (s64 (ih_i_size h)) links generation
                         (ih_i_blocks h)) i_flags rdev h).

(** [new_inode], [iget_locked] of an inode that is not cached. *)
Definition alloc_inode : M bool := fun s => Ok (new_inode_ok (alloc_clock s)) (set_alloc_clock (alloc_clock s + 1)%positive s).

(** The error, or the number of the inode, which is cached then. *)
Definition nova_iget (mount_snapshot : bool) (ino : Z) : IM (Z + Z) := fun c =>
  match ic_inodes c !! ino with
  | Some _ => sret (inr ino, c)
  | None =>
      do! ok := lift alloc_inode in
      if negb ok then sret (inl (- ENOMEM), c)
      else
        do! r := lift (nova_get_inode_address ino 0 0 false false) in
        let '(err, pi_addr) := r in
        if negb (err =? 0) then sret (inl err, c)
        else if pi_addr =? 0 then sret (inl (- EACCES), c)
        else
          do! r := nova_rebuild_inode mount_snapshot (nova_init_header 0) ino pi_addr true in
          let '(err, h) := r in
          if negb (err =? 0) then sret (inl err, c)
          else
            do! r := lift (nova_read_inode h pi_addr) in
            let '(err, v) := r in
            if negb (err =? 0) then sret (inl err, c)
            else sret (inr ino, mkIcache (<[ino := v]> (ic_inodes c)) (next_generation c))
  end.

(** ** Creating an inode *)
Inductive nova_new_inode_type := TYPE_CREATE | TYPE_MKNOD | TYPE_SYMLINK | TYPE_MKDIR.

(** [pi->i_flags] is the value [nova_new_vfs_inode] left there. *)
Definition nova_init_inode (i : vfs_inode) (i_flags i_rdev pi : Z) : M unit :=
  let set f v := pstore_field nova_inode pi f v in
  set "i_mode" (uwrap 16 (vi_mode i)) ;;;
  set "i_uid" (u32 (vi_uid i)) ;;; set "i_gid" (u32 (vi_gid i)) ;;;
  set "i_links_count" (uwrap 16 (vi_nlink i)) ;;; set "i_size" (u64 (vi_size i)) ;;;
  set "i_atime" (u32 (vi_atime i)) ;;; set "i_ctime" (u32 (vi_ctime i)) ;;; set "i_mtime" (u32 (vi_mtime i)) ;;;
  set "i_generation" (u32 (vi_generation i)) ;;;
  set "log_head" 0 ;;; set "log_tail" 0 ;;; set "alter_log_head" 0 ;;; set "alter_log_tail" 0 ;;;
  set "deleted" 0 ;;; set "delete_epoch_id" 0 ;;;
  let! flags := pload_field nova_inode pi "i_flags" in
  set "i_flags" (u32 (nova_get_inode_flags i_flags flags)) ;;;
  let kind := Z.land (vi_mode i) S_IFMT in
  when ((kind =? S_IFCHR) || (kind =? S_IFBLK)) (set "rdev" (u32 i_rdev)).

(** The record of the new inode, and its replica. *)
Definition write_new_inode (i : vfs_inode) (rdev ino pi alter_pi_addr mode dir_flags epoch_id now : Z) : M unit :=
  let set f v := pstore_field nova_inode pi f v in
  nova_memunlock_inode pi ;;;
  set "i_blk_type" NOVA_DEFAULT_BLOCK_TYPE ;;;
  set "i_flags" (u32 (nova_mask_flags mode dir_flags)) ;;;
  set "nova_ino" ino ;;;
  set "i_create_time" (u32 now) ;;;
  set "create_epoch_id" epoch_id ;;;
  nova_init_inode i 0 rdev pi ;;;
  (if negb (metadata_csum =? 0) then
     let! alter_pi := gets (fun s => nova_get_block s alter_pi_addr) in
     let! l := pload_bytes (Z.to_nat (sizeof nova_inode)) pi in
     let! _ := memcpy_to_pmem_nocache alter_pi l in ret tt
   else ret tt) ;;;
  nova_memlock_inode pi.

(** The error, or the number of the new inode, which is cached then.  [now] and
    [now'] are the readings of the clock.  An inode whose set-up fails is dropped
    by the VFS. *)
Definition nova_new_vfs_inode (type : nova_new_inode_type) (dir pi_addr ino mode size rdev epoch_id now now' : Z) : IM (Z + Z) :=
  io! ok := mlift alloc_inode in
  if negb ok then iret (inl (- ENOMEM))
  else
    io! vdir := vget dir in
    let '(i_mode, uid, gid) := inode_init_owner (vn_i vdir) mode in
    io! c := (fun c => sret (c, mkIcache (ic_inodes c) (s32 (next_generation c + 1)))) in
    let generation := u32 (next_generation c + 1) in
    io! diri := mlift (nova_get_inode (ih_base (vn_h vdir))) in
    if diri =? 0 then iret (inl (- EACCES))
    else
      io! r := mlift (if negb (metadata_csum =? 0) then nova_get_alter_inode_address ino 0 else ret (0, 0)) in
      let '(errval, alter_pi_addr) := r in
      if negb (errval =? 0) then iret (inl errval)
      else
        io! pi := mlift (gets (fun s => nova_get_block s pi_addr)) in
        let nlink := match type with TYPE_MKDIR => 2 | _ => 1 end in
        let '(i_mode, rdev) := match type with TYPE_MKNOD => (mode, special_rdev mode rdev) | _ => (i_mode, 0) end in
        let i := mkInode i_mode uid gid now now now size nlink generation 0 in
        io! dir_flags := mlift (pload_field nova_inode diri "i_flags") in
        mlift (write_new_inode i rdev ino pi alter_pi_addr mode dir_flags epoch_id now') ;!;
        io! flags := mlift (pload_field nova_inode pi "i_flags") in
        io! xattr := mlift (pload_field nova_inode pi "i_xattr") in
        let h := set_ih_i_flags flags (set_ih_base (mkSih ino pi_addr alter_pi_addr NOVA_DEFAULT_BLOCK_TYPE 0 0 0 0)
                   (nova_init_header i_mode)) in
        let i_flags := nova_set_inode_flags i_mode 0 (negb (xattr =? 0)) flags in
        fun c => match ic_inodes c !! ino with
          | Some _ => do! _ := lift nova_err in sret (inl (- EINVAL), c)
          | None =>
              do! _ := lift (nova_flush_buffer pi NOVA_INODE_SIZE false) in
              sret (inr ino, mkIcache (<[ino := mkVnode i i_flags rdev h]> (ic_inodes c)) (next_generation c))
          end.

(** ** Attributes *)
Definition nova_dirty_inode (mount_snapshot : bool) (i : vfs_inode) (h : info_header) : M unit :=
  if mount_snapshot then ret tt
  else
    let! pi := gets (fun s => nova_get_block s (pi_addr (ih_base h))) in
    let! bad := inode_unsound h in
    if bad : bool then ret tt
    else
      nova_memunlock_inode pi ;;;
      pstore_field nova_inode pi "i_atime" (u32 (vi_atime i)) ;;;
      let! _ := nova_update_inode_checksum pi in
      let! _ := nova_update_alter_inode (ih_base h) pi in
      nova_memlock_inode pi ;;;
      nova_flush_buffer (field_addr nova_inode pi "i_atime") (Z.of_nat (sizeof_field nova_inode "i_atime")) false.

Definition nova_setsize (v : vnode) (oldsize newsize epoch_id : Z) : SM vnode :=
  if negb (S_ISREG (vi_mode (vn_i v))) then lift nova_err ,,, sret v
  else
    do! v := (if negb (newsize =? oldsize) then
        lift (nova_clear_last_page_tail (vn_h v) (vi_size (vn_i v)) newsize) ,,,
        sret (set_vn_h (set_ih_i_size (u64 newsize) (vn_h v)) (set_vn_i (set_vi_size newsize (vn_i v)) v))
      else sret v) in
    do! r := nova_truncate_file_blocks (vi_size (vn_i v)) (vi_blocks (vn_i v)) (vn_h v) newsize oldsize epoch_id in
    sret (set_vn_h r.2 (set_vn_i (set_vi_blocks r.1 (vn_i v)) v)).

(** linux/stat.h *)
Definition STATX_ATTR_COMPRESSED : Z := 0x4.
Definition STATX_ATTR_IMMUTABLE : Z := 0x10.
Definition STATX_ATTR_APPEND : Z := 0x20.
Definition STATX_ATTR_NODUMP : Z := 0x40.

(** [stat->attributes] and [stat->blocks] after the call; [generic_fillattr] copies
    the other fields of the inode.  [flags] is [sih->i_flags]. *)
Definition nova_getattr (s : nova) (i : vfs_inode) (flags attributes : Z) : Z * Z :=
  let attributes := flag_if (has flags FS_APPEND_FL) STATX_ATTR_APPEND attributes in
  let attributes := flag_if (has flags FS_COMPR_FL) STATX_ATTR_COMPRESSED attributes in
  let attributes := flag_if (has flags FS_IMMUTABLE_FL) STATX_ATTR_IMMUTABLE attributes in
  let attributes := flag_if (has flags FS_NODUMP_FL) STATX_ATTR_NODUMP attributes in
  (attributes, Z.shiftr (u64 (Z.shiftl (vi_blocks i) (s_blocksize_bits (sbc s)))) 9).

(** Returns the result and the inode. *)
Definition nova_notify_change (v : vnode) (attr : iattr) : SM (Z * vnode) :=
  do! pi := lift (nova_get_inode (ih_base (vn_h v))) in
  let oldsize := vi_size (vn_i v) in
  if pi =? 0 then sret (- EACCES, v)
  else
    let rc := setattr_prepare (vn_i v) attr in
    if negb (rc =? 0) then sret (rc, v)
    else
      let v := set_vn_i (setattr_copy (vn_i v) attr) v in
      do! epoch_id := lift (gets nova_get_epoch_id) in
      let valid := Z.land (ia_valid attr) attr_mask in
      if valid =? 0 then sret (rc, v)
      else
        do! r := nova_handle_setattr_operation (vn_i v) pi valid (vn_h v) attr epoch_id in
        let '(rc, h) := r in
        let v := set_vn_h h v in
        if negb (rc =? 0) then sret (rc, v)
        else
          do! i_flags := (if has valid ATTR_SIZE && (ia_size attr =? oldsize) then lift (pload_field nova_inode pi "i_flags")
            else sret 0) in
          do! v := (if has valid ATTR_SIZE && (negb (ia_size attr =? oldsize) || has i_flags NOVA_EOFBLOCKS_FL)
            then nova_setsize v oldsize (ia_size attr) epoch_id else sret v) in
          sret (rc, set_vn_h (set_ih_trans_id (u64 (ih_trans_id (vn_h v) + 1)) (vn_h v)) v).

(** ** Data and holes *)

(** Returns the result, as an unsigned long, and [*offset]. *)
Definition nova_find_region (i : vfs_inode) (h : info_header) (offset : Z) (hole : bool) : M (Z * Z) :=
  let data_bits := nova_inode_blk_shift (i_blk_type (ih_base h)) in
  let i_size := vi_size i in
  if i_size <=? offset then ret (u64 (- ENXIO), offset)
  else if (vi_blocks i =? 0) || (ih_i_size h =? 0) then ret (if hole then u64 i_size else u64 (- ENXIO), offset)
  else
    let offset_in_block := u64 (Z.land offset (Z.shiftl 1 data_bits - 1)) in
    let first_blocknr := u64 (Z.shiftr offset data_bits) in
    let last_blocknr := u64 (Z.shiftr i_size data_bits) in
    let! r := nova_lookup_hole_in_range (ih_tree h) first_blocknr last_blocknr false false hole in
    let '(blocks, data_found, hole_found) := r in
    let blocks := u64 blocks in
    if negb hole && negb data_found && hole_found then ret (u64 (- ENXIO), offset)
    else if data_found && negb hole_found then ret (0, if hole then i_size else offset)
    else if hole && hole_found && (blocks =? 0) then ret (0, if negb data_found then i_size else offset)
    else if negb (offset_in_block =? 0) then
      let blocks := u64 (blocks - 1) in
      ret (0, s64 (offset + u64 (Z.shiftl blocks data_bits) + u64 (Z.shiftl 1 data_bits - offset_in_block)))
    else ret (0, s64 (offset + u64 (Z.shiftl blocks data_bits))).

(** [nova_write_inode] and [nova_direct_IO] have constant results. *)
Definition nova_write_inode : Z := 0.
Definition nova_direct_IO : Z := - EIO.
End vfs_inode.
