(* ===== verification/Namei.v ===== *)
(** Operations on names (namei.c) and symbolic links (symlink.c).

    An inode is given by its number and lives in the inode cache ([VfsInode]);
    names are lists of bytes, readings of the clock arguments.  The dentry cache
    and reference counts of the VFS are left out: [d_instantiate] and
    [d_splice_alias] hand the inode to the caller, which is part of the result.
    Each definition translates the C function of the same name. *)

From stdpp Require Import strings.
From S2P Require Import Prelude CInt Crc32c NovaEnv RangeNode Pmem NovaState NovaMonad NovaLib.
From S2P Require Import Balloc NovaLayout LogPage InodeMap RangeLog InodeTable Journal Checksum Parity MetaCsum LogEntry Snapshot FileTree DirTree Rebuild LogGc LogAppend VfsInode.

Local Open Scope nova_scope.
Local Open Scope string_scope.
Local Open Scope list_scope.
Local Open Scope Z_scope.

Definition ENOENT : Z := 2.
Definition EMLINK : Z := 31.
Definition ENAMETOOLONG : Z := 36.
Definition ENOTEMPTY : Z := 39.
Definition NOVA_LINK_MAX : Z := 32000.
Definition RENAME_NOREPLACE : Z := 1.

(** [update.tail = 0; update.alter_tail = 0]; the other fields are set before they
    are read. *)
Definition new_update : inode_update := mkUpdate 0 0 0 0 0 0.

Section namei.
Context `{NovaEnv, RbLib, MediaLib, KmallocLib, RadixLib, ParityEnv, VfsLib}.

(** ** Calls on cached inodes *)
Definition get_inode (ino : Z) : IM Z := io! v := vget ino in mlift (nova_get_inode (ih_base (vn_h v))).
Definition base_of (ino : Z) : IM inode_header := io! v := vget ino in iret (ih_base (vn_h v)).

Definition add_dentry (dir : Z) (name : list Z) (ino inc_link now : Z) (u : inode_update) (epoch_id : Z) : IM (Z * inode_update) :=
  io! v := vget dir in
  io! r := ilift (nova_add_dentry (vn_i v) (vn_h v) name ino inc_link now u epoch_id) in
  let '(rc, i, h, u) := r in
  vput dir (set_vn_h h (set_vn_i i v)) ;!; iret (rc, u).

Definition remove_dentry (dir : Z) (name : list Z) (dec_link now : Z) (u : inode_update) (epoch_id : Z) : IM (Z * inode_update) :=
  io! v := vget dir in
  io! r := ilift (nova_remove_dentry (vn_i v) (vn_h v) name dec_link now u epoch_id) in
  let '(rc, i, h, u) := r in
  vput dir (set_vn_h h (set_vn_i i v)) ;!; iret (rc, u).

Definition append_link_change (pi ino : Z) (u : inode_update) (old_linkc epoch_id : Z) : IM (Z * inode_update * Z) :=
  io! v := vget ino in
  io! r := ilift (nova_append_link_change_entry pi (vn_i v) (vn_h v) u old_linkc epoch_id) in
  let '(rc, h, u, old_linkc) := r in
  vput ino (set_vn_h h v) ;!; iret (rc, u, old_linkc).

(** [nova_update_inode(sb, inode, pi, update, 0)] *)
Definition update_inode (ino pi : Z) (u : inode_update) : IM unit :=
  io! v := vget ino in
  io! b := mlift (nova_update_inode (ih_base (vn_h v)) pi (up_tail u) (up_alter_tail u) false) in
  vput ino (set_vn_h (set_ih_base b (vn_h v)) v).

Definition update_alter (ino pi : Z) : IM unit :=
  io! b := base_of ino in io! _ := mlift (nova_update_alter_inode b pi) in iret tt.

(** ** Lookup *)

(** The inode number and [*res_entry], [None] when it is left alone. *)
Definition nova_inode_by_name (h : info_header) (name : list Z) : M (Z * option Z) :=
  let direntry := nova_find_dentry (ih_rb_tree h) name in
  if direntry =? 0 then ret (0, None)
  else
    let! c := verified_entry direntry in
    match c with
    | None => ret (0, None)
    | Some direntryc => let! ino := entryc_field nova_dentry direntryc "ino" in ret (ino, Some direntry)
    end.

(** The error, or the inode the name stands for. *)
Definition nova_lookup (mount_snapshot : bool) (dir : Z) (name : list Z) : IM (Z + option Z) :=
  if NOVA_NAME_LEN <? Z.of_nat (length name) then iret (inl (- ENAMETOOLONG))
  else
    io! v := vget dir in
    io! r := mlift (nova_inode_by_name (vn_h v) name) in
    if negb (r.1 =? 0) then
      io! i := nova_iget mount_snapshot r.1 in
      match i with
      | inr ino => iret (inr (Some ino))
      | inl err =>
          if (err =? - ESTALE) || (err =? - ENOMEM) || (err =? - EACCES)
          then mlift nova_err ;!; iret (inl (- EIO)) else iret (inl err)
      end
    else iret (inr None).

Definition nova_get_parent (mount_snapshot : bool) (child : Z) : IM (Z + Z) :=
  io! v := vget child in
  io! r := mlift (nova_inode_by_name (vn_h v) [46; 46]) in
  match r.2 with
  | None => iret (inl (- ENOENT))
  | Some de =>
      io! ino := mlift (pload_field nova_dentry de "ino") in
      if negb (ino =? 0) then nova_iget mount_snapshot ino else iret (inl (- ENOENT))
  end.

(** ** New inodes *)
Definition nova_lite_transaction_for_new_inode (pi pidir inode dir : Z) (update : inode_update) : IM unit :=
  io! cpu := mlift (gets nova_get_cpuid) in
  io! bi := base_of inode in
  io! bd := base_of dir in
  mlift nova_memunlock_journal ;!;
  io! journal_tail := mlift (nova_create_inode_transaction bi bd cpu true false) in
  update_inode dir pidir update ;!;
  mlift (pstore_field nova_inode pi "valid" 1) ;!;
  io! _ := mlift (nova_update_inode_checksum pi) in
  mlift PERSISTENT_BARRIER ;!;
  mlift (nova_commit_lite_transaction journal_tail cpu) ;!;
  mlift nova_memlock_journal ;!;
  if negb (metadata_csum =? 0) then
    mlift (nova_memunlock_inode pi) ;!;
    update_alter inode pi ;!;
    update_alter dir pidir ;!;
    mlift (nova_memlock_inode pi)
  else iret tt.

(** [err] is 0 when the inode number or the inode cannot be had: the call
    reports success.  The inode is returned when there is one. *)
Definition create_node (type : nova_new_inode_type) (dir : Z) (name : list Z) (mode rdev : Z) (now1 now2 now3 : Z)
    : IM (Z * option Z) :=
  io! pidir := get_inode dir in
  if pidir =? 0 then mlift nova_err ;!; iret (0, None)
  else
    io! epoch_id := mlift (gets nova_get_epoch_id) in
    io! r := mlift (nova_new_nova_inode 0) in
    let '(ino, pi_addr) := r in
    if ino =? 0 then mlift nova_err ;!; iret (0, None)
    else
      io! r := add_dentry dir name ino 0 now1 new_update epoch_id in
      let '(err, update) := r in
      if negb (err =? 0) then mlift nova_err ;!; iret (err, None)
      else
        io! r := nova_new_vfs_inode type dir pi_addr ino mode 0 rdev epoch_id now2 now3 in
        match r with
        | inl _ => mlift nova_err ;!; iret (err, None)
        | inr inode =>
            io! pi := mlift (gets (fun s => nova_get_block s pi_addr)) in
            nova_lite_transaction_for_new_inode pi pidir inode dir update ;!;
            iret (err, Some inode)
        end.

Definition nova_create (dir : Z) (name : list Z) (mode : Z) (now1 now2 now3 : Z) : IM (Z * option Z) :=
  create_node TYPE_CREATE dir name mode 0 now1 now2 now3.
Definition nova_mknod (dir : Z) (name : list Z) (mode rdev : Z) (now1 now2 now3 : Z) : IM (Z * option Z) :=
  create_node TYPE_MKNOD dir name mode rdev now1 now2 now3.

(** ** Symbolic links *)

(** dax.c *)
Definition nova_init_file_write_entry (h : info_header) (epoch_id pgoff num_pages blocknr time file_size : Z) : list Z :=
  let set f v l := set_buf_field nova_file_write_entry f v l in
  set "size" file_size (set "mtime" time (set "block" (nova_get_block_off blocknr (i_blk_type (ih_base h)))
    (set "invalid_pages" 0 (set "num_pages" num_pages (set "pgoff" pgoff (set "trans_id" (ih_trans_id h)
      (set "epoch_id" epoch_id (set "updating" 0 (set "reassigned" 0 (set "entry_type" (entry_type_val FILE_WRITE)
        (replicate (Z.to_nat (sizeof nova_file_write_entry)) 0))))))))))).

(** Returns the result and the header. *)
Definition nova_block_symlink (pi : Z) (i : vfs_inode) (h : info_header) (symname : list Z) (epoch_id now : Z)
    : SM (Z * info_header) :=
  let len := Z.of_nat (length symname) in
  let update := mkUpdate (sih_log_tail (ih_base h)) (sih_alter_log_tail (ih_base h)) 0 0 0 0 in
  do! r := lift (nova_new_data_blocks (i_blk_type (ih_base h)) 0 1 true ANY_CPU ALLOC_FROM_TAIL) in
  let '(allocated, name_blocknr) := r in
  if negb (allocated =? 1) || (name_blocknr =? 0) then sret (allocated, h)
  else
    do! blockp := lift (gets (fun s => nova_get_block s (nova_get_block_off name_blocknr NOVA_BLOCK_TYPE_4K))) in
    lift (nova_memunlock_block blockp) ,,,
    do! _ := lift (memcpy_to_pmem_nocache blockp symname) in
    lift (pstore 1 (blockp + len) 0) ,,,
    lift (nova_memlock_block blockp) ,,,
    do! r := nova_append_file_write_entry pi i h
      (nova_init_file_write_entry h epoch_id 0 1 name_blocknr (u32 now) (u64 (len + 1))) update in
    let '(rc, h, update) := r in
    if negb (rc =? 0) then
      do! _ := lift (nova_free_data_blocks (i_blk_type (ih_base h)) name_blocknr 1) in sret (rc, h)
    else
      lift (nova_memunlock_inode pi) ,,,
      do! b := lift (nova_update_inode (ih_base h) pi (up_tail update) (up_alter_tail update) true) in
      lift (nova_memlock_inode pi) ,,,
      let h := set_ih_base b h in
      sret (0, set_ih_trans_id (u64 (ih_trans_id h + 1)) h).

(** [symname] has no zero byte.  A failure after the inode was created leaves the
    name and the inode behind. *)
Definition nova_symlink (dir : Z) (name symname : list Z) (now1 now2 now3 now4 : Z) : IM (Z * option Z) :=
  io! blocksize := mlift (gets (fun s => s_blocksize (sbc s))) in
  if blocksize <? u32 (Z.of_nat (length symname) + 1) then iret (- ENAMETOOLONG, None)
  else
    let fail err := mlift nova_err ;!; iret (err, None) in
    io! pidir := get_inode dir in
    if pidir =? 0 then fail (- ENAMETOOLONG)
    else
      io! epoch_id := mlift (gets nova_get_epoch_id) in
      io! r := mlift (nova_new_nova_inode 0) in
      let '(ino, pi_addr) := r in
      if ino =? 0 then fail (- ENAMETOOLONG)
      else
        io! r := add_dentry dir name ino 0 now1 new_update epoch_id in
        let '(err, update) := r in
        if negb (err =? 0) then fail err
        else
          io! r := nova_new_vfs_inode TYPE_SYMLINK dir pi_addr ino (Z.lor S_IFLNK 0x1FF)
            (Z.of_nat (length symname)) 0 epoch_id now2 now3 in
          match r with
          | inl err => fail err
          | inr inode =>
              io! pi := get_inode inode in
              io! v := vget inode in
              io! r := ilift (nova_block_symlink pi (vn_i v) (vn_h v) symname epoch_id now4) in
              let '(err, h) := r in
              vput inode (set_vn_h h v) ;!;
              if negb (err =? 0) then fail err
              else
                nova_lite_transaction_for_new_inode pi pidir inode dir update ;!;
                iret (err, Some inode)
          end.

(** The first entry of the log, and the address of the link's text. *)
Definition link_block (h : info_header) : M (option Z) :=
  let! entry := gets (fun s => nova_get_block s (sih_log_head (ih_base h))) in
  let! c := verified_entry entry in
  match c with
  | None => ret None
  | Some entryc =>
      let! block := entryc_field nova_file_write_entry entryc "block" in
      let! p := gets (fun s => nova_get_block s (BLOCK_OFF block)) in ret (Some p)
  end.

(** The bytes up to the first zero, at most [fuel] of them. *)
Fixpoint cstring (fuel : nat) (p : Z) : M (list Z) :=
  match fuel with
  | O => ret []
  | S fuel =>
      let! b := pload 1 p in
      if b =? 0 then ret [] else let! l := cstring fuel (p + 1) in ret (b :: l)
  end.

(** The length, and what is copied to the user's buffer of [buflen] bytes, which
    is taken to be writable. *)
Definition nova_readlink (h : info_header) (buflen : Z) : M (Z * list Z) :=
  let! p := link_block h in
  match p with
  | None => ret (- EIO, [])
  | Some link =>
      let! fuel := gets (fun s => Z.to_nat (virt_addr (sbc s) + initsize (sbc s) - link)) in
      let! text := cstring fuel link in
      let len := Z.of_nat (length text) in
      let len := if u32 buflen <? len then s32 buflen else len in
      ret (len, take (Z.to_nat len) text)
  end.

(** NULL is 0. *)
Definition nova_get_link (h : info_header) : M Z := let! p := link_block h in ret (default 0 p).

(** ** Links *)
Definition nova_lite_transaction_for_time_and_link (pi pidir inode dir : Z) (update update_dir : inode_update)
    (invalidate : bool) (epoch_id : Z) : IM unit :=
  io! cpu := mlift (gets nova_get_cpuid) in
  io! bi := base_of inode in
  io! bd := base_of dir in
  mlift nova_memunlock_journal ;!;
  io! journal_tail := mlift (nova_create_inode_transaction bi bd cpu false invalidate) in
  mlift (when invalidate
    (pstore_field nova_inode pi "valid" 0 ;;; pstore_field nova_inode pi "delete_epoch_id" epoch_id)) ;!;
  update_inode inode pi update ;!;
  update_inode dir pidir update_dir ;!;
  mlift PERSISTENT_BARRIER ;!;
  mlift (nova_commit_lite_transaction journal_tail cpu) ;!;
  mlift nova_memlock_journal ;!;
  if negb (metadata_csum =? 0) then
    mlift (nova_memunlock_inode pi) ;!;
    update_alter inode pi ;!;
    update_alter dir pidir ;!;
    mlift (nova_memlock_inode pi)
  else iret tt.

Definition inc_nlink (i : vfs_inode) : vfs_inode := set_vi_nlink (u32 (vi_nlink i + 1)) i.
Definition drop_nlink (i : vfs_inode) : vfs_inode := set_vi_nlink (u32 (vi_nlink i - 1)) i.
Definition clear_nlink (i : vfs_inode) : vfs_inode := set_vi_nlink 0 i.

(** [inode] gets the name [name] in [dir]. *)
Definition nova_link (inode dir : Z) (name : list Z) (now1 now2 : Z) : IM Z :=
  io! pi := get_inode inode in
  io! v := vget inode in
  if NOVA_LINK_MAX <=? vi_nlink (vn_i v) then iret (- EMLINK)
  else
    io! pidir := get_inode dir in
    if pidir =? 0 then iret (- EINVAL)
    else
      io! epoch_id := mlift (gets nova_get_epoch_id) in
      io! r := add_dentry dir name inode 0 now1 new_update epoch_id in
      let '(err, update_dir) := r in
      if negb (err =? 0) then iret err
      else
        vupd inode (fun i => inc_nlink (set_vi_ctime now2 i)) ;!;
        io! r := append_link_change pi inode new_update 0 epoch_id in
        let '(err, update, old_linkc) := r in
        if negb (err =? 0) then iret err
        else
          nova_lite_transaction_for_time_and_link pi pidir inode dir update update_dir false epoch_id ;!;
          io! _ := mlift (nova_invalidate_link_change_entry old_linkc) in
          iret err.

Definition nova_unlink (dir inode : Z) (name : list Z) (now : Z) : IM Z :=
  io! pi := get_inode inode in
  io! pidir := get_inode dir in
  if pidir =? 0 then mlift nova_err ;!; iret (- ENOMEM)
  else
    io! epoch_id := mlift (gets nova_get_epoch_id) in
    io! r := remove_dentry dir name 0 now new_update epoch_id in
    let '(retval, update_dir) := r in
    if negb (retval =? 0) then mlift nova_err ;!; iret retval
    else
      io! vd := vget dir in
      io! v := vget inode in
      let invalidate := vi_nlink (vn_i v) =? 1 in
      vupd inode (fun i => let i := set_vi_ctime (vi_ctime (vn_i vd)) i in
        if negb (vi_nlink i =? 0) then drop_nlink i else i) ;!;
      io! r := append_link_change pi inode new_update 0 epoch_id in
      let '(retval, update, old_linkc) := r in
      if negb (retval =? 0) then mlift nova_err ;!; iret retval
      else
        nova_lite_transaction_for_time_and_link pi pidir inode dir update update_dir invalidate epoch_id ;!;
        io! _ := mlift (nova_invalidate_link_change_entry old_linkc) in
        io! _ := mlift (nova_invalidate_dentries (up_create_dentry update_dir) (up_delete_dentry update_dir)) in
        iret 0.

(** ** Directories *)

(** [now1] for the entry, [now2] and [now3] for the inode, the rest for the
    entries of the new directory. *)
Definition nova_mkdir (mount_snapshot : bool) (dir : Z) (name : list Z) (mode : Z)
    (now1 now2 now3 now4 now5 now6 now7 : Z) : IM (Z * option Z) :=
  let fail err := mlift nova_err ;!; iret (err, None) in
  io! vd := vget dir in
  if NOVA_LINK_MAX <=? vi_nlink (vn_i vd) then iret (- EMLINK, None)
  else
    io! r := mlift (nova_new_nova_inode 0) in
    let '(ino, pi_addr) := r in
    if ino =? 0 then fail (- EMLINK)
    else
      io! epoch_id := mlift (gets nova_get_epoch_id) in
      io! r := add_dentry dir name ino 1 now1 new_update epoch_id in
      let '(err, update) := r in
      if negb (err =? 0) then fail err
      else
        io! blocksize := mlift (gets (fun s => s_blocksize (sbc s))) in
        io! r := nova_new_vfs_inode TYPE_MKDIR dir pi_addr ino (Z.lor S_IFDIR mode) blocksize 0 epoch_id now2 now3 in
        match r with
        | inl err => fail err
        | inr inode =>
            io! pi := get_inode inode in
            io! err := mlift (nova_append_dir_init_entries pi inode dir epoch_id now4 now5 now6 now7) in
            if err <? 0 then fail err
            else
              io! v := vget inode in
              io! r := ilift (nova_rebuild_dir_inode_tree mount_snapshot pi pi_addr (vn_h v)) in
              vput inode (set_vn_h r.2 v) ;!;
              io! pidir := get_inode dir in
              vupd dir (fun i => inc_nlink (set_vi_blocks (ih_i_blocks r.2) i)) ;!;
              nova_lite_transaction_for_new_inode pi pidir inode dir update ;!;
              iret (err, Some inode)
        end.

(** nova.h *)
Definition is_dir_init_entry (entry : entryc) : M bool :=
  let! name_len := entryc_field nova_dentry entry "name_len" in
  let! dot := (if name_len =? 1 then let! r := strncmp_name entry 0 [46] in ret (r =? 0) else ret false) in
  if dot : bool then ret true
  else if name_len =? 2 then let! r := strncmp_name entry 0 [46; 46] in ret (r =? 0) else ret false.

Fixpoint empty_loop (tree : rb_tree) (fuel : nat) (temp : option (ptr * range_node)) : M bool :=
  match temp with
  | None => ret true
  | Some (p, curr) =>
      match fuel with
      | O => raise FFuel
      | S fuel =>
          let! c := verified_entry (direntry curr) in
          match c with
          | None => ret false
          | Some entryc =>
              let! b := is_dir_init_entry entryc in
              if negb b then ret false else empty_loop tree fuel (rb_next tree p)
          end
      end
  end.
Definition nova_empty_dir (h : info_header) : M bool :=
  let tree := ih_rb_tree h in empty_loop tree (length (inorder tree)) (rb_first tree).

(** [inode] is not NULL: the code has used it before it tests it. *)
Definition nova_rmdir (dir inode : Z) (name : list Z) (now : Z) : IM Z :=
  io! pi := get_inode inode in
  io! pidir := get_inode dir in
  if pidir =? 0 then iret (- EINVAL)
  else
    io! vd := vget dir in
    io! r := mlift (nova_inode_by_name (vn_h vd) name) in
    if r.1 =? 0 then iret (- ENOENT)
    else
      io! v := vget inode in
      io! empty := mlift (nova_empty_dir (vn_h v)) in
      if negb empty then iret (- ENOTEMPTY)
      else
        io! epoch_id := mlift (gets nova_get_epoch_id) in
        io! r := remove_dentry dir name (-1) now new_update epoch_id in
        let '(err, update_dir) := r in
        if negb (err =? 0) then mlift nova_err ;!; iret err
        else
          io! vd := vget dir in
          vupd inode (fun i => set_vi_ctime (vi_ctime (vn_i vd)) (clear_nlink i)) ;!;
          vupd dir (fun i => if negb (vi_nlink i =? 0) then drop_nlink i else i) ;!;
          io! v := vget inode in
          vput inode (set_vn_h (set_ih_rb_tree (nova_delete_dir_tree (ih_rb_tree (vn_h v))) (vn_h v)) v) ;!;
          io! r := append_link_change pi inode new_update 0 epoch_id in
          let '(err, update, old_linkc) := r in
          if negb (err =? 0) then mlift nova_err ;!; iret err
          else
            nova_lite_transaction_for_time_and_link pi pidir inode dir update update_dir true epoch_id ;!;
            io! _ := mlift (nova_invalidate_link_change_entry old_linkc) in
            io! _ := mlift (nova_invalidate_dentries (up_create_dentry update_dir) (up_delete_dentry update_dir)) in
            iret err.

(** ** Rename *)

(** [inc_link] and [dec_link] when a directory moves. *)
Definition rename_links (is_dir replaces same_dir : bool) : Z * Z :=
  if negb is_dir then (0, 0)
  else
    let inc_link := (if replaces then 0 else 1) - (if same_dir then 1 else 0) in
    (inc_link, if same_dir && (inc_link =? 0) then 0 else -1).

(** The first tests: the error, or 0. *)
Definition rename_refused (is_dir : bool) (new_dir : Z) (new_inode : option Z) : IM Z :=
  match new_inode with
  | Some n =>
      if is_dir then io! v := vget n in io! empty := mlift (nova_empty_dir (vn_h v)) in iret (if negb empty then - ENOTEMPTY else 0)
      else iret 0
  | None =>
      if is_dir then io! v := vget new_dir in iret (if NOVA_LINK_MAX <=? vi_nlink (vn_i v) then - EMLINK else 0)
      else iret 0
  end.

(** The entry ".." of a directory that gets another parent; [None] when its
    checksum is wrong. *)
Definition rename_father (old_pi old_dir : Z) : M (option Z) :=
  let! log_head := pload_field nova_inode old_pi "log_head" in
  let! head_addr := gets (fun s => nova_get_block s log_head) in
  let father_entry := head_addr + NOVA_DIR_LOG_REC_LEN 1 in
  let! c := verified_entry father_entry in
  match c with
  | None => ret None
  | Some father_entryc =>
      let! ino := entryc_field nova_dentry father_entryc "ino" in
      when (negb (ino =? old_dir)) nova_err ;;;
      ret (Some father_entry)
  end.

(** The inode that is replaced loses its link, a directory both. *)
Definition rename_drop (is_dir : bool) (i : vfs_inode) : vfs_inode :=
  let drop i := if negb (vi_nlink i =? 0) then drop_nlink i else i in
  drop (if is_dir then drop i else i).

(** What the transaction needs: the record of each inode and its new tail. *)
Record rename_tx := mkRename {
  rt_old_inode : Z; rt_old_pi : Z; rt_update_old : inode_update;
  rt_old_dir : Z; rt_old_pidir : Z; rt_update_dir_old : inode_update;
  rt_new_dir : Z; rt_new_pidir : Z; rt_update_dir_new : inode_update;
  rt_new : option (Z * Z * inode_update);
  rt_father : option Z
}.

(** The journalled part. *)
Definition rename_commit (t : rename_tx) (epoch_id : Z) : IM unit :=
  let new_inode := (fun x => x.1.1) <$> rt_new t in
  io! cpu := mlift (gets nova_get_cpuid) in
  mlift nova_memunlock_journal ;!;
  io! invalidate := (match new_inode with
    | Some n => io! v := vget n in iret (vi_nlink (vn_i v) =? 0)
    | None => iret false end) in
  io! bo := base_of (rt_old_inode t) in
  io! bd := base_of (rt_old_dir t) in
  io! bn := (match new_inode with Some n => io! b := base_of n in iret (Some b) | None => iret None end) in
  io! bnd := (if negb (rt_old_dir t =? rt_new_dir t) then io! b := base_of (rt_new_dir t) in iret (Some b) else iret None) in
  io! journal_tail := mlift (nova_create_rename_transaction bo bd bn bnd (default 0 (rt_father t)) invalidate cpu) in
  update_inode (rt_old_inode t) (rt_old_pi t) (rt_update_old t) ;!;
  update_inode (rt_old_dir t) (rt_old_pidir t) (rt_update_dir_old t) ;!;
  (if negb (rt_old_pidir t =? rt_new_pidir t) then update_inode (rt_new_dir t) (rt_new_pidir t) (rt_update_dir_new t) else iret tt) ;!;
  (match rt_father t with
   | Some father_entry =>
       mlift (pstore_field nova_dentry father_entry "ino" (rt_new_dir t)) ;!;
       mlift (nova_update_entry_csum father_entry) ;!;
       io! _ := mlift (nova_update_alter_entry father_entry) in iret tt
   | None => iret tt
   end) ;!;
  (match rt_new t with
   | Some (n, new_pi, update_new) =>
       mlift (when invalidate (pstore_field nova_inode new_pi "valid" 0 ;;;
         pstore_field nova_inode new_pi "delete_epoch_id" epoch_id)) ;!;
       update_inode n new_pi update_new
   | None => iret tt
   end) ;!;
  mlift PERSISTENT_BARRIER ;!;
  mlift (nova_commit_lite_transaction journal_tail cpu) ;!;
  mlift nova_memlock_journal ;!;
  mlift (nova_memunlock_inode (rt_old_pi t)) ;!;
  update_alter (rt_old_inode t) (rt_old_pi t) ;!;
  update_alter (rt_old_dir t) (rt_old_pidir t) ;!;
  (if negb (rt_old_dir t =? rt_new_dir t) then update_alter (rt_new_dir t) (rt_new_pidir t) else iret tt) ;!;
  (match rt_new t with Some (n, new_pi, _) => update_alter n new_pi | None => iret tt end) ;!;
  mlift (nova_memlock_inode (rt_old_pi t)).

Definition invalidate_dentries (u : inode_update) : IM unit :=
  io! _ := mlift (nova_invalidate_dentries (up_create_dentry u) (up_delete_dentry u)) in iret tt.

(** [now1] to [now5] are the readings of the clock, in the order of their use. *)
Definition nova_rename (old_dir old_inode : Z) (old_name : list Z) (new_dir : Z) (new_inode : option Z) (new_name : list Z)
    (flags now1 now2 now3 now4 now5 : Z) : IM Z :=
  let out err := mlift nova_err ;!; iret err in
  if has flags (Z.lnot RENAME_NOREPLACE) then iret (- EINVAL)
  else
  io! vo := vget old_inode in
  let is_dir := S_ISDIR (vi_mode (vn_i vo)) in
  let same_dir := old_dir =? new_dir in
  let '(inc_link, dec_link) := rename_links is_dir (match new_inode with Some _ => true | None => false end) same_dir in
  io! err := rename_refused is_dir new_dir new_inode in
  if negb (err =? 0) then out err else
  io! epoch_id := mlift (gets nova_get_epoch_id) in
  io! new_pidir := get_inode new_dir in
  io! old_pidir := get_inode old_dir in
  io! old_pi := get_inode old_inode in
  vupd old_inode (set_vi_ctime now1) ;!;
  io! r := append_link_change old_pi old_inode new_update 0 epoch_id in
  let '(err, update_old, old_linkc1) := r in
  if negb (err =? 0) then out err else
  io! father := (if is_dir && negb same_dir then io! f := mlift (rename_father old_pi old_dir) in iret (Some f) else iret None) in
  match father with
  | Some None => out (- EIO)
  | _ =>
  io! r := (match new_inode with
    | Some _ => remove_dentry new_dir new_name 0 now2 new_update epoch_id
    | None => iret (0, new_update) end) in
  let '(err, update_dir_new) := r in
  if negb (err =? 0) then out err else
  io! r := add_dentry new_dir new_name old_inode inc_link now3 update_dir_new epoch_id in
  let '(err, update_dir_new) := r in
  if negb (err =? 0) then out err else
  (if 0 <? inc_link then vupd new_dir inc_nlink else iret tt) ;!;
  io! r := remove_dentry old_dir old_name dec_link now4
    (if same_dir then up_tails (up_tail update_dir_new) (up_alter_tail update_dir_new) new_update else new_update) epoch_id in
  let '(err, update_dir_old) := r in
  if negb (err =? 0) then out err else
  (if dec_link <? 0 then vupd old_dir drop_nlink else iret tt) ;!;
  io! r := (match new_inode with
    | Some n =>
        io! new_pi := get_inode n in
        vupd n (fun i => rename_drop is_dir (set_vi_ctime now5 i)) ;!;
        io! r := append_link_change new_pi n new_update 0 epoch_id in
        let '(err, update_new, old_linkc2) := r in
        iret (err, Some (n, new_pi, update_new), old_linkc2)
    | None => iret (0, None, 0) end) in
  let '(err, new, old_linkc2) := r in
  if negb (err =? 0) then out err else
  rename_commit (mkRename old_inode old_pi update_old old_dir old_pidir update_dir_old new_dir new_pidir update_dir_new new
    (match father with Some f => f | None => None end)) epoch_id ;!;
  io! _ := mlift (nova_invalidate_link_change_entry old_linkc1) in
  io! _ := mlift (nova_invalidate_link_change_entry old_linkc2) in
  (match new_inode with Some _ => invalidate_dentries update_dir_new | None => iret tt end) ;!;
  invalidate_dentries update_dir_old ;!;
  iret 0
  end.
End namei.
