(* ===== verification/NameiSpec.v ===== *)
(** What the operations on names guarantee.

    The creation of an inode, in the directory's log and in the inode's record,
    is all-or-nothing under a power failure at any point. *)

From stdpp Require Import strings.
From S2P Require Import Prelude CInt Crc32c NovaEnv RangeNode Pmem NovaState NovaMonad NovaLib.
From S2P Require Import Balloc NovaLayout PmemOps LogPage InodeMap RangeLog InodeTable Journal Crash JournalSpec JournalRecover JournalTx.
From S2P Require Import Checksum Parity MetaCsum LogEntry Snapshot SnapshotSpec FileTree DirTree DirTreeSpec Rebuild RebuildSpec LogGc LogAppend VfsInode Namei.

Local Open Scope nova_scope.
Local Open Scope string_scope.
Local Open Scope list_scope.
Local Open Scope Z_scope.

(** ** Steps of [IM] *)
Lemma ibind_ok {A B} (m : IM A) (k : A -> IM B) c d s a c' d' s' :
  m c d s = Ok (a, c', d') s' -> ibind m k c d s = k a c' d' s'.
Proof. intros E. unfold ibind. by rewrite (sbind_ok _ _ _ _ _ _ _ E). Qed.

Lemma mlift_ok {A} (m : M A) c d s a s' : m s = Ok a s' -> mlift m c d s = Ok (a, c, d) s'.
Proof. intros E. unfold mlift, ilift. by rewrite (sbind_lift _ _ _ _ _ _ E). Qed.

Lemma ibind_mlift {A B} (m : M A) (k : A -> IM B) c d s a s' :
  m s = Ok a s' -> ibind (mlift m) k c d s = k a c d s'.
Proof. intros E. by apply ibind_ok, mlift_ok. Qed.

Lemma vget_ok c d s ino v : ic_inodes c !! ino = Some v -> vget ino c d s = Ok (v, c, d) s.
Proof. intros E. unfold vget. by rewrite E. Qed.

(** ** Durable updates *)
Lemma durable_app e1 e2 : durable e1 -> durable e2 -> durable (e1 ++ e2).
Proof.
  intros D1 D2 i ev w Hw Ei T. apply lookup_app_Some in Ei as [Ei|[Hi Ei]].
  - apply (must_persist_mid [] e1 e2 i w). by eapply D1.
  - pose proof (must_persist_mid e1 e2 [] _ w (D2 _ ev w Hw Ei T)) as P. rewrite app_nil_r in P.
    by replace (length e1 + (i - length e1))%nat with i in P by lia.
Qed.

Lemma durable_no_store evs : Forall no_store evs -> durable evs.
Proof.
  intros F i ev w _ Ei (x & _ & Hw). rewrite Forall_lookup in F. specialize (F _ _ Ei). by destruct ev.
Qed.

Section new_inode.
Context `{NovaEnv, RbLib, MediaLib, KmallocLib, RadixLib, ParityEnv, VfsLib}.

(** A store that stays in one word, which is written back behind it. *)
Lemma durable_store a l w0 b len :
  w0 mod 8 = 0 -> w0 <= a -> a + Z.of_nat (length l) <= w0 + 8 -> b <= w0 < b + len ->
  durable (EvStore a l :: flush_buffer_events b len true).
Proof.
  intros Hw0 Ha Hl Hb i ev w Hw Ei T. destruct i as [|i]; cbn in Ei.
  - injection Ei as <-. pose proof T as (x & Hx & Hwr). cbn [writes] in Hwr.
    assert (w = w0) as -> by (pose proof (Z.div_mod w 8 ltac:(lia)); pose proof (Z.div_mod w0 8 ltac:(lia)); lia).
    unfold flush_buffer_events. apply (must_persist_flushed [EvStore a l] _ [] 0 (EvStore a l) w0); [done|done|].
    destruct (flush_buffer_events_cover b len true w0) as (kd & f & Hf & Ef); [lia|].
    unfold flush_buffer_events in Hf. apply elem_of_app in Hf as [Hf|Hf]; [|set_solver].
    apply Exists_exists. by exists (EvFlush kd f).
  - destruct T as (x & _ & Hwr). pose proof (flush_buffer_no_store b len true) as F. rewrite Forall_lookup in F.
    specialize (F _ _ Ei). by destruct ev.
Qed.

(** The events of publishing a tail, and of making an inode valid. *)
Definition tail_events (pi tail : Z) : list pm_event :=
  EvFence :: (EvStore (pi + 72) (le_bytes 8 tail) :: flush_buffer_events (pi + 72) 64 true) ++ flush_buffer_events pi 120 true.
Definition valid_events (pi : Z) : list pm_event := EvStore (pi + 1) (le_bytes 1 1) :: flush_buffer_events pi 120 true.
Definition new_inode_updates (pi pidir tail : Z) : list pm_event := tail_events pidir tail ++ valid_events pi ++ [EvFence].

(** The updates are durable. *)
Lemma tail_events_durable pi tail : pi mod 8 = 0 -> durable (tail_events pi tail).
Proof.
  intros Hp. apply (durable_app [EvFence]); [apply durable_no_store; by repeat constructor|].
  apply durable_app; [|apply durable_no_store, flush_buffer_no_store].
  apply (durable_store _ _ (pi + 72)); rewrite ?length_le_bytes; try lia. rewrite Zplus_mod, Hp. done.
Qed.

Lemma new_inode_durable pi pidir tail :
  pi mod 8 = 0 -> pidir mod 8 = 0 -> durable (new_inode_updates pi pidir tail).
Proof.
  intros Hp Hd. apply durable_app; [by apply tail_events_durable|].
  apply durable_app; [|apply durable_no_store; by repeat constructor].
  apply (durable_store _ _ pi); rewrite ?length_le_bytes; lia.
Qed.

Context {CO : @CrcEnvOk nova_crc_env}.
Context (Hmeta : metadata_csum = 0).

Lemma barrier_step s : PERSISTENT_BARRIER s = Ok tt (pm_step s [EvFence]).
Proof. unfold pm_step. rewrite apply_no_store by repeat constructor. by destruct s. Qed.

Lemma checksum_step s pi : nova_update_inode_checksum pi s = Ok 0 (pm_step s (flush_buffer_events pi 120 true)).
Proof.
  unfold nova_update_inode_checksum. rewrite Hmeta, Z.eqb_refl. rewrite (bind_ok _ _ s tt s) by done.
  by rewrite (bind_ok _ _ _ tt _ (nova_flush_buffer_step pi (sizeof nova_inode) true s ltac:(done) ltac:(done))).
Qed.

Lemma update_tail_step s b pi tail alter :
  in_pmem s pi 120 = true -> writable s = true ->
  nova_update_inode b pi tail alter false s = Ok (mkSih (sih_ino b) (pi_addr b) (alter_pi_addr b) (i_blk_type b)
    (sih_log_head b) tail (sih_alter_log_head b) alter) (pm_step s (tail_events pi tail)).
Proof.
  intros Hp Hw. unfold nova_update_inode. rewrite Hmeta. cbn [negb Z.eqb when].
  assert (in_pmem s (pi + 72) 8 = true) as Hp8 by (eapply in_pmem_sub; [exact Hp|lia|cbn; lia]).
  rewrite (bind_ok _ _ s tt (pm_step s (EvFence :: EvStore (pi + 72) (le_bytes 8 tail) :: flush_buffer_events (pi + 72) 64 true))).
  - rewrite (bind_ok _ _ _ tt _ (eq_refl (A := outcome unit))), (bind_ok _ _ _ 0 _ (checksum_step _ _)).
    rewrite (bind_ok _ _ _ tt _ (eq_refl (A := outcome unit))), pm_step_app. done.
  - unfold nova_update_tail. rewrite (bind_ok _ _ _ _ _ (barrier_step s)).
    rewrite (bind_ok _ _ _ tt _ (pstore_field_step nova_inode pi "log_tail" tail s [EvFence] (pi + 72) 8 eq_refl eq_refl Hp8 Hw)).
    change (field_addr nova_inode pi "log_tail") with (pi + 72). unfold CACHELINE_SIZE.
    rewrite nova_flush_buffer_step by done. by rewrite pm_step_app.
Qed.

Lemma flush_upd_ok s qs b len : Forall (upd_ok s qs) (flush_buffer_events b len true).
Proof. eapply Forall_impl; [apply flush_buffer_no_store|]. by intros [] ? x Hw. Qed.

Lemma tail_upd_ok s qs i pi tail :
  pi = virt_addr (sbc s) + pi_addr i -> pi mod 8 = 0 -> ReqField (field_addr nova_inode pi "log_tail") ∈ qs ->
  Forall (upd_ok s qs) (tail_events pi tail).
Proof.
  intros Ep Hp Hq. constructor; [by intros x Hw|]. apply Forall_app. split; [|apply flush_upd_ok].
  constructor; [|apply flush_upd_ok]. intros x Hw. cbn [writes] in Hw. rewrite length_le_bytes in Hw.
  apply Exists_exists. eexists. split; [exact Hq|]. unfold in_region. cbn [region fst snd].
  change (field_addr nova_inode pi "log_tail") with (pi + 72). rewrite align8_spec, Zplus_mod, Hp.
  change ((0 + 72 mod 8) mod 8) with 0. lia.
Qed.

Lemma valid_upd_ok s qs pi :
  pi mod 8 = 0 -> ReqField (field_addr nova_inode pi "valid") ∈ qs -> Forall (upd_ok s qs) (valid_events pi).
Proof.
  intros Hp Hq. constructor; [|apply flush_upd_ok]. intros x Hw. cbn [writes] in Hw. rewrite length_le_bytes in Hw.
  apply Exists_exists. eexists. split; [exact Hq|]. unfold in_region. cbn [region fst snd].
  change (field_addr nova_inode pi "valid") with (pi + 1). rewrite align8_spec, Zplus_mod, Hp.
  change ((0 + 1 mod 8) mod 8) with 1. lia.
Qed.

Lemma new_inode_applied m pi pidir tail :
  apply_evs m (new_inode_updates pi pidir tail) = store 1 (store 8 m (pidir + 72) tail) (pi + 1) 1.
Proof.
  unfold new_inode_updates, tail_events, valid_events. rewrite !apply_evs_app.
  change (apply_evs m (EvFence :: ?l)) with (apply_evs m l). rewrite apply_evs_app.
  change (apply_evs m (EvStore ?a ?l :: ?e)) with (apply_evs (store_bytes m a l) e).
  rewrite (apply_no_store _ (flush_buffer_events _ 64 _)), (apply_no_store _ (flush_buffer_events pidir _ _)) by apply flush_buffer_no_store.
  change (apply_evs ?m' (EvStore ?a ?l :: ?e)) with (apply_evs (store_bytes m' a l) e).
  by rewrite (apply_no_store _ (flush_buffer_events _ _ _)), apply_no_store by (apply flush_buffer_no_store || by repeat constructor).
Qed.

Lemma memunlock_journal_run s cpu J : jgeo s cpu J -> nova_memunlock_journal s = Ok tt (unlocked s).
Proof.
  intros G. pose proof (jg_page _ _ _ G) as [HJ HJ2]. pose proof (jg_apart _ _ _ G). pose proof (jg_cpu _ _ _ G).
  pose proof (jg_pos _ _ _ G). pose proof (jg_top _ _ _ G). pose proof (proj1 (in_pmem_spec _ _ _) (jg_in _ _ _ G)).
  pose proof (Z.div_mod J 4096 ltac:(lia)).
  unfold pair_addr in *. unfold nova_memunlock_journal. rewrite (bind_ok _ _ _ (virt_addr (sbc s) + NOVA_DEF_BLOCK_SIZE_4K * JOURNAL_START) s) by done.
  apply memunlock_run; try done; unfold NOVA_DEF_BLOCK_SIZE_4K, JOURNAL_START, CACHELINE_SIZE in *; lia.
Qed.

Lemma memlock_journal_run s : nova_memlock_journal s = Ok tt (locked s).
Proof. apply memlock_run. Qed.

(** The cached directory once its tail has moved. *)
Definition dir_updated (v : vnode) (u : inode_update) : vnode :=
  let b := ih_base (vn_h v) in
  set_vn_h (set_ih_base (mkSih (sih_ino b) (pi_addr b) (alter_pi_addr b) (i_blk_type b)
    (sih_log_head b) (up_tail u) (sih_alter_log_head b) (up_alter_tail u)) (vn_h v)) v.

Lemma update_inode_step s c d ino v pi u :
  ic_inodes c !! ino = Some v -> in_pmem s pi 120 = true -> writable s = true ->
  update_inode ino pi u c d s
  = Ok (tt, mkIcache (<[ino := dir_updated v u]> (ic_inodes c)) (next_generation c), d) (pm_step s (tail_events pi (up_tail u))).
Proof.
  intros Ev Hp Hw. unfold update_inode. rewrite (ibind_ok _ _ _ _ _ _ _ _ _ (vget_ok _ _ _ _ _ Ev)).
  by rewrite (ibind_mlift _ _ _ _ _ _ _ (update_tail_step s _ pi _ _ Hp Hw)).
Qed.

Lemma base_of_ok s c d ino v : ic_inodes c !! ino = Some v -> base_of ino c d s = Ok (ih_base (vn_h v), c, d) s.
Proof. intros Ev. unfold base_of. by rewrite (ibind_ok _ _ _ _ _ _ _ _ _ (vget_ok _ _ _ _ _ Ev)). Qed.

Lemma new_inode_run s c d J h inode dir vi vd u :
  let cpu := nova_get_cpuid s in
  let bi := ih_base (vn_h vi) in
  let bd := ih_base (vn_h vd) in
  let pi := virt_addr (sbc s) + pi_addr bi in
  let pidir := virt_addr (sbc s) + pi_addr bd in
  let s1 := unlocked s in
  let qs := inode_reqs s1 bi true false false ++ inode_reqs s1 bd true false true in
  let recs := rec_of s1 <$> qs in
  let upd := new_inode_updates pi pidir (up_tail u) in
  let evs := tx_events s1 cpu J h recs ++ upd ++ commit_events s1 cpu J (h + Z.of_nat (length recs)) in
  ic_inodes c !! inode = Some vi -> ic_inodes c !! dir = Some vd ->
  inode_readable s1 bi -> inode_readable s1 bd -> pi mod 8 = 0 -> pidir mod 8 = 0 -> tx_pre s1 cpu J h qs ->
  Forall (upd_ok s1 qs) upd /\
  nova_lite_transaction_for_new_inode pi pidir inode dir u c d s
  = Ok (tt, mkIcache (<[dir := dir_updated vd u]> (ic_inodes c)) (next_generation c), d) (locked (pm_step s1 evs)).
Proof.
  intros cpu bi bd pi pidir s1 qs recs upd evs Ei Ed Ri Rd Ai Ad Pre.
  assert (sbc s1 = sbc s) as Es by (unfold s1, unlocked; by destruct (is_protected s)).
  pose proof Pre as [G A Hw Hm Hlen F Hrep].
  assert (qs = [ReqField (field_addr nova_inode pi "valid"); ReqField (field_addr nova_inode pidir "log_tail")]) as Eq.
  { unfold qs, inode_reqs. rewrite Hmeta, Es. done. }
  assert (Forall (upd_ok s1 qs) upd) as Fu.
  { unfold upd, new_inode_updates. repeat apply Forall_app_2.
    - apply (tail_upd_ok s1 qs bd); [by rewrite Es|done|rewrite Eq; set_solver].
    - apply valid_upd_ok; [done|rewrite Eq; set_solver].
    - constructor; [by intros x Hx|constructor]. }
  split; [done|]. unfold nova_lite_transaction_for_new_inode.
  rewrite (ibind_mlift _ _ _ _ _ cpu s (eq_refl : gets nova_get_cpuid s = Ok cpu s)).
  rewrite (ibind_ok _ _ _ _ _ _ _ _ _ (base_of_ok _ _ _ _ _ Ei)), (ibind_ok _ _ _ _ _ _ _ _ _ (base_of_ok _ _ _ _ _ Ed)).
  assert (jgeo s cpu J) as Gs by (by apply (jgeo_sbc s1)).
  rewrite (ibind_mlift _ _ _ _ _ _ _ (memunlock_journal_run s cpu J Gs)). fold s1.
  assert (appends s1 (fun t => let! t := nova_append_inode_journal t bi true false false in nova_append_inode_journal t bd true false true) qs) as Ap.
  { apply appends_bind; by apply appends_inode. }
  rewrite (ibind_mlift _ _ _ _ _ _ _ (tx_run s1 cpu J h qs _ Pre Ap)). fold recs.
  set (T := tx_events s1 cpu J h recs).
  assert (in_pmem s pi 120 = true /\ in_pmem s pidir 120 = true) as [Hpi Hpd].
  { destruct Ri as (_ & _ & Hi & _). destruct Rd as (_ & _ & Hd & _). rewrite Es in Hi, Hd.
    split; [rewrite <- Hi|rewrite <- Hd]; by apply in_pmem_sbc. }
  assert (forall e, in_pmem (pm_step s1 e) pi 120 = true /\ in_pmem (pm_step s1 e) pidir 120 = true) as Hpm.
  { intros e. split; [rewrite <- Hpi|rewrite <- Hpd]; by apply in_pmem_sbc. }
  rewrite (ibind_ok _ _ _ _ _ _ _ _ _ (update_inode_step (pm_step s1 T) c d dir vd pidir u Ed (proj2 (Hpm T)) Hw)), pm_step_app.
  assert (in_pmem s1 (pi + 1) 1 = true) as Hp1 by (apply (in_pmem_sub s1 pi 120); [apply (Hpm [])|lia|cbn; lia]).
  rewrite (ibind_mlift _ _ _ _ _ _ _ (pstore_field_step nova_inode pi "valid" 1 s1 _ (pi + 1) 1 eq_refl eq_refl Hp1 Hw)).
  rewrite (ibind_mlift _ _ _ _ _ _ _ (checksum_step _ _)), pm_step_app, (ibind_mlift _ _ _ _ _ _ _ (barrier_step _)), pm_step_app.
  replace ((((T ++ tail_events pidir (up_tail u)) ++ [EvStore (pi + 1) (le_bytes 1 1)]) ++ flush_buffer_events pi 120 true) ++ [EvFence])
    with (T ++ upd) by (unfold upd, new_inode_updates, valid_events; by rewrite <- !app_assoc).
  assert (journal_at (pm_step s1 (T ++ upd)) cpu J h (h + Z.of_nat (length qs))) as A2.
  { rewrite <- pm_step_app. apply (journal_at_updates s1 _ _ _ _ _ qs); [done|exact F|exact Fu|]. by apply tx_events_journal. }
  rewrite (ibind_mlift _ _ _ _ _ _ _ (commit_run _ cpu J h _ (jgeo_step _ _ _ _ G) A2 Hw)), pm_step_app.
  rewrite (ibind_mlift _ _ _ _ _ _ _ (memlock_journal_run _)), Hmeta. cbn [negb Z.eqb].
  unfold evs. fold T. rewrite <- app_assoc. unfold recs. by rewrite length_fmap.
Qed.

Lemma mounted_sbc s s' cpu J m r : sbc s' = sbc s -> mounted s cpu J m r <-> mounted s' cpu J m r.
Proof. intros Es. unfold mounted, in_journal, pair_addr. by rewrite Es. Qed.

(** C8: creating an inode (the step all of create, mknod, symlink and
    mkdir end with) is all or nothing.  The call returns with the directory's
    cached tail moved; a power failure at any point leaves, after the mount, either
    the device as it was, or the directory's log extended to the new tail and
    the inode valid, and nothing else changed outside the journal; once it has
    returned it is the second. *)
Theorem nova_lite_transaction_for_new_inode_atomic s c d J h inode dir vi vd u :
  let cpu := nova_get_cpuid s in
  let bi := ih_base (vn_h vi) in
  let bd := ih_base (vn_h vd) in
  let pi := virt_addr (sbc s) + pi_addr bi in
  let pidir := virt_addr (sbc s) + pi_addr bd in
  let new := store 1 (store 8 (nvmm s) (field_addr nova_inode pidir "log_tail") (up_tail u)) (field_addr nova_inode pi "valid") 1 in
  ic_inodes c !! inode = Some vi -> ic_inodes c !! dir = Some vd ->
  inode_readable s bi -> inode_readable s bd -> pi mod 8 = 0 -> pidir mod 8 = 0 ->
  tx_pre (unlocked s) cpu J h (inode_reqs s bi true false false ++ inode_reqs s bd true false true) ->
  exists evs,
    nova_lite_transaction_for_new_inode pi pidir inode dir u c d s
    = Ok (tt, mkIcache (<[dir := dir_updated vd u]> (ic_inodes c)) (next_generation c), d) (locked (pm_step (unlocked s) evs)) /\
    forall n r, rebooted s r (take n evs) ->
      (mounted s cpu J (nvmm s) r \/ mounted s cpu J new r) /\ ((length evs <= n)%nat -> mounted s cpu J new r).
Proof.
  intros cpu bi bd pi pidir new Ei Ed Ri Rd Ai Ad Pre. pose proof (unlocked_sbc s) as Es.
  assert (forall b x y z, inode_reqs (unlocked s) b x y z = inode_reqs s b x y z) as Er by (intros; unfold inode_reqs; by rewrite Es).
  rewrite <- !Er in Pre.
  destruct (new_inode_run s c d J h inode dir vi vd u Ei Ed) as [Fu E];
    [by apply (inode_readable_sbc s)|by apply (inode_readable_sbc s)|done|done|exact Pre|].
  eexists. split; [exact E|]. intros n r [Ers C].
  assert (durable (new_inode_updates pi pidir (up_tail u))) as Du by (by apply new_inode_durable).
  destruct (tx_all_or_nothing (unlocked s) r cpu J h _ _ n Pre Fu Du) as [Hor Hret].
  { split; [by rewrite Es|]. by rewrite unlocked_nvmm. }
  rewrite new_inode_applied, unlocked_nvmm in Hor, Hret. 
  assert (forall m, mounted (unlocked s) cpu J m r -> mounted s cpu J m r) as Hs by (intros m; apply mounted_sbc; by rewrite Es).
  split; [destruct Hor as [Ho|Ho]; [left|right]; by apply Hs|]. intros Hn. by apply Hs, Hret.
Qed.
End new_inode.
