(* ===== verification/FileData.v ===== *)
(** Reading and writing the data of files (file.c, dax.c, the ranges of mapped
    memory of mprotect.c).

    A file's data are the pages its index names ([ih_tree]); user memory is an
    interface.  Locks, timing and the page cache are left out; readings of the
    clock are arguments.  Each definition translates the C function of the same
    name. *)

From stdpp Require Import strings.
From S2P Require Import Prelude CInt Crc32c NovaEnv RangeNode Pmem NovaState NovaMonad NovaLib.
From S2P Require Import Balloc NovaLayout LogPage InodeMap RangeLog InodeTable Journal Checksum Parity MetaCsum LogEntry Snapshot FileTree DirTree Rebuild LogGc LogAppend VfsInode Namei.

Local Open Scope nova_scope.
Local Open Scope string_scope.
Local Open Scope list_scope.
Local Open Scope Z_scope.

Definition EOPNOTSUPP : Z := 95.
Definition FALLOC_FL_KEEP_SIZE : Z := 1.
Definition NOVA_MOUNT_DATA_COW : Z := 0x400.
Definition SEEK_DATA : Z := 3.
Definition SEEK_HOLE : Z := 4.

(** User memory.  [copy_from_user l n] is the number of bytes copied when [n] are
    wanted and the bytes [l] can be read; [copy_to_user w n] the number of bytes
    stored when [n] are to be stored and [w] can be written. *)
Class UserLib := {
  access_ok : Z -> bool;
  copy_from_user : list Z -> Z -> Z;
  copy_to_user : Z -> Z -> Z;
  file_remove_privs : vfs_inode -> Z;
  inode_newsize_ok : vfs_inode -> Z -> Z;
  generic_file_llseek : vfs_inode -> Z -> Z -> Z -> Z * Z
}.

(** What the C library documents. *)
Class UserLibOk (U : UserLib) : Prop := {
  copy_from_range : forall l n, 0 <= n -> 0 <= copy_from_user l n <= Z.min n (Z.of_nat (length l));
  copy_from_all : forall l n, 0 <= n <= Z.of_nat (length l) -> copy_from_user l n = n;
  copy_to_range : forall w n, 0 <= n -> 0 <= copy_to_user w n <= n;
  copy_to_all : forall w n, 0 <= n <= w -> copy_to_user w n = n
}.

Section file_data.
Context `{NovaEnv, RbLib, MediaLib, KmallocLib, RadixLib, ParityEnv, VfsLib, UserLib}.

(** ** Mapped memory (mprotect.c, dax.c) *)

(** The overlap of an area with pages: its first page and length. *)
Definition nova_get_vma_overlap_range (bits : Z) (vma : vm_area) (entry_pgoff entry_pages : Z) : option (Z * Z) :=
  let vma_pages := Z.shiftr (u64 (vm_end vma - vm_start vma)) bits in
  let vma_last := u64 (vm_pgoff vma + vma_pages) in
  let entry_last := u64 (entry_pgoff + entry_pages) in
  if (vma_last <=? entry_pgoff) || (entry_last <=? vm_pgoff vma) then None
  else
    let start_pgoff := if entry_pgoff <? vm_pgoff vma then vm_pgoff vma else entry_pgoff in
    let end_pgoff := if entry_last <? vma_last then entry_last else vma_last in
    Some (start_pgoff, u64 (end_pgoff - start_pgoff)).

Definition pgoff_in_vma (vma : vm_area) (pgoff : Z) : bool :=
  let num_pages := Z.shiftr (u64 (vm_end vma - vm_start vma)) PAGE_SHIFT in
  (vm_pgoff vma <=? pgoff) && (pgoff <? u64 (vm_pgoff vma + num_pages)).

Definition nova_find_pgoff_in_vma (h : info_header) (pgoff : Z) : bool :=
  existsb (fun item => pgoff_in_vma (it_vma item) pgoff) (ih_vmas h).

Definition nova_check_overlap_vmas (bits : Z) (h : info_header) (pgoff num_pages : Z) : bool :=
  existsb (fun item =>
    match nova_get_vma_overlap_range bits (it_vma item) pgoff num_pages with
    | None => false
    | Some (start_pgoff, num) =>
        existsb (fun i => negb (nova_get_write_entry h (u64 (start_pgoff + i)) =? 0)) (seqZ 0 num)
    end) (ih_vmas h).

Definition nova_rbtree_compare_vma (curr : vma_item) (vma : vm_area) : Z :=
  if vm_ptr vma <? vm_ptr (it_vma curr) then -1
  else if vm_ptr (it_vma curr) <? vm_ptr vma then 1 else 0.

(** ** Partial blocks *)

(** The bytes of a write entry. *)
Definition entryc_whole (c : entryc) : M (list Z) := entryc_bytes c 0 (Z.to_nat (sizeof nova_file_write_entry)).

(** The result is not used by the caller. *)
Definition nova_copy_partial_block (c : entryc) (index offset length kmem : Z) : M Z :=
  let! l := entryc_whole c in
  let! ptr := gets (fun s => nova_get_block s (u64 (Z.shiftl (get_nvmm l index) PAGE_SHIFT))) in
  if ptr =? 0 then ret 0
  else if negb (support_clwb =? 0) then mcsafe_pmem (kmem + offset) (ptr + offset) (Z.to_nat length)
  else
    let! src := pload_bytes (Z.to_nat length) (ptr + offset) in
    let! _ := memcpy_to_pmem_nocache (kmem + offset) src in ret 0.

(** [-EIO] leaves the block unlocked. *)
Definition nova_handle_partial_block (entry index offset length kmem : Z) : M Z :=
  nova_memunlock_block kmem ;;;
  let finish : M Z :=
    (nova_memlock_block kmem ;;;
     (if negb (support_clwb =? 0) then nova_flush_buffer (kmem + offset) (u32 length) false else ret tt) ;;; ret 0) in
  if entry =? 0 then
    (let zeros := replicate (Z.to_nat length) 0 in
     if negb (support_clwb =? 0) then pstore_bytes EvStore (kmem + offset) zeros
     else let! _ := memcpy_to_pmem_nocache (kmem + offset) zeros in ret tt) ;;; finish
  else
    let! c := verified_entry entry in
    match c with
    | None => ret (- EIO)
    | Some entryc => let! _ := nova_copy_partial_block entryc index offset length kmem in finish
    end.

(** The blocks a write touches, as the code computes it. *)
Definition blocks_touched (c : sb_const) (pos count : Z) : Z :=
  u64 (Z.shiftr (u64 (count + Z.land pos (s_blocksize c - 1) - 1)) (s_blocksize_bits c) + 1).

Definition nova_handle_head_tail_blocks (h : info_header) (pos count kmem : Z) : M Z :=
  let! c := gets sbc in
  let blk_size := nova_inode_blk_size (i_blk_type (ih_base h)) in
  let num_blocks := blocks_touched c pos count in
  let offset := Z.land pos (blk_size - 1) in
  let start_blk := Z.shiftr pos (s_blocksize_bits c) in
  let end_blk := u64 (start_blk + num_blocks - 1) in
  let! r := (if negb (offset =? 0)
    then nova_handle_partial_block (nova_get_write_entry h start_blk) start_blk 0 offset kmem else ret 0) in
  if r <? 0 then ret r
  else
    let kmem := kmem + u64 (Z.shiftl (num_blocks - 1) (s_blocksize_bits c)) in
    let eblk_offset := Z.land (u64 (pos + count)) (blk_size - 1) in
    if negb (eblk_offset =? 0) then
      nova_handle_partial_block (nova_get_write_entry h end_blk) end_blk eblk_offset (s_blocksize c - eblk_offset) kmem
    else ret r.

(** ** The index and the log of a write *)
Fixpoint reassign_loop (fuel : nat) (h : info_header) (curr_p : Z) : SM (Z * info_header) :=
  if (curr_p =? 0) || (curr_p =? sih_log_tail (ih_base h)) then sret (0, h)
  else
    match fuel with
    | O => sraise FFuel
    | S fuel =>
        let entry_size := sizeof nova_file_write_entry in
        do! curr_p := lift (if is_last_entry curr_p entry_size then next_log_page curr_p else ret curr_p) in
        if curr_p =? 0 then lift nova_err ,,, sret (- EINVAL, h)
        else
          do! addr := lift (gets (fun s => nova_get_block s curr_p)) in
          do! c := lift (verified_entry addr) in
          match c with
          | None => sret (- EIO, h)
          | Some c =>
              do! type := lift (entryc_type c) in
              if negb (type =? entry_type_val FILE_WRITE) then reassign_loop fuel h (u64 (curr_p + entry_size))
              else
                do! l := lift (entryc_whole c) in
                do! r := nova_assign_write_entry (ih_file h) addr l true in
                reassign_loop fuel (put_file r.2 h) (u64 (curr_p + entry_size))
          end
    end.

Definition nova_reassign_file_tree (h : info_header) (begin_tail : Z) : SM (Z * info_header) :=
  do! fuel := lift (gets entry_fuel) in reassign_loop fuel h begin_tail.

Fixpoint cleanup_loop (fuel : nat) (i_blk_type curr_p end_tail : Z) : M Z :=
  if curr_p =? end_tail then ret 0
  else
    match fuel with
    | O => raise FFuel
    | S fuel =>
        let entry_size := sizeof nova_file_write_entry in
        let! curr_p := (if is_last_entry curr_p entry_size then next_log_page curr_p else ret curr_p) in
        if curr_p =? 0 then nova_err ;;; ret (- EINVAL)
        else
          let! addr := gets (fun s => nova_get_block s curr_p) in
          let! c := (if metadata_csum =? 0 then ret (Some (InPlace addr))
            else
              let! r := mcsafe addr (Z.to_nat entry_size) in
              ret (if negb (r.1 =? 0) then None else Some (InCopy r.2))) in
          match c with
          | None => ret (- EIO)
          | Some c =>
              let! type := entryc_type c in
              if negb (type =? entry_type_val FILE_WRITE) then cleanup_loop fuel i_blk_type (u64 (curr_p + entry_size)) end_tail
              else
                let! block := entryc_field nova_file_write_entry c "block" in
                let! num_pages := entryc_field nova_file_write_entry c "num_pages" in
                let! _ := nova_free_data_blocks i_blk_type (Z.shiftr block PAGE_SHIFT) (s32 num_pages) in
                cleanup_loop fuel i_blk_type (u64 (curr_p + entry_size)) end_tail
          end
    end.

Definition nova_cleanup_incomplete_write (i_blk_type blocknr allocated begin_tail end_tail : Z) : M Z :=
  (if (0 <? blocknr) && (0 <? allocated) then let! _ := nova_free_data_blocks i_blk_type blocknr allocated in ret tt else ret tt) ;;;
  if (begin_tail =? 0) || (end_tail =? 0) then ret 0
  else let! fuel := gets entry_fuel in cleanup_loop fuel i_blk_type begin_tail end_tail.

(** ** Checksums and parity of a write *)

(** The part of a block outside the write, from the file or zeros, is put into
    [blockbuf]; [inl] is a [return] at once, [inr] the value of [ret]. *)
Definition protect_edge (h : info_header) (inplace : bool) (blk off len blockbuf : Z) : SM (Z + Z) :=
  let entry := nova_get_write_entry h blk in
  if entry =? 0 then dstore_bytes (blockbuf + off) (replicate (Z.to_nat len) 0) ,,, sret (inr 0)
  else
    do! c := lift (verified_entry entry) in
    match c with
    | None => sret (inl (- EIO))
    | Some c =>
        do! l := lift (entryc_whole c) in
        let nvmm := get_nvmm l blk in
        do! blockptr := lift (gets (fun s => nova_get_block s (nova_get_block_off nvmm (i_blk_type (ih_base h))))) in
        let mapped := nova_find_pgoff_in_vma h blk in
        do! ok := (if (0 <? data_csum) && negb mapped && negb inplace
          then lift (nova_verify_data_csum (ih_base h) nvmm off len) else sret true) in
        if negb ok then sret (inr (- EIO))
        else
          do! r := lift (mcsafe (blockptr + off) (Z.to_nat len)) in
          if r.1 <? 0 then sret (inr r.1)
          else if negb (r.1 =? 0) then sraise FUninit
          else dstore_bytes (blockbuf + off) r.2 ,,, sret (inr 0)
    end.

(** [copy_from_user] into [blockbuf]: whether all of it was copied. *)
Definition copy_to_buf (buf : list Z) (bytes dst : Z) : SM bool :=
  let n := copy_from_user buf bytes in
  dstore_bytes dst (take (Z.to_nat n) buf) ,,, sret (n =? bytes).

Definition update_protection (h : info_header) (inplace : bool) (blockbuf blocknr offset bytes : Z) : SM unit :=
  do! c := lift (gets sbc) in
  do! block := dload_bytes (Z.to_nat (s_blocksize c)) blockbuf in
  do! _ := lift (if inplace then nova_update_block_csum_parity (ih_base h) block blocknr offset bytes
    else nova_update_block_csum_parity (ih_base h) block blocknr 0 (s_blocksize c)) in
  sret tt.

(** The [do] loop: the state before the last block, or the error. *)
Fixpoint protect_loop (fuel : nat) (h : info_header) (inplace : bool) (blockbuf : Z)
    (pos : Z) (buf : list Z) (count blocknr offset bytes : Z) : SM (Z + Z * Z * Z * Z * Z) :=
  match fuel with
  | O => sraise FFuel
  | S fuel =>
      do! c := lift (gets sbc) in
      update_protection h inplace blockbuf blocknr offset bytes ,,,
      let blocknr := u64 (blocknr + 1) in
      let pos := s64 (pos + bytes) in
      let buf := drop (Z.to_nat bytes) buf in
      let count := u64 (count - bytes) in
      let offset := Z.land pos (s_blocksize c - 1) in
      let bytes := if count <? s_blocksize c then count else s_blocksize c in
      do! ok := copy_to_buf buf bytes blockbuf in
      if negb ok then lift nova_err ,,, sret (inl (- EFAULT))
      else if s_blocksize c <? count then protect_loop fuel h inplace blockbuf pos buf count blocknr offset bytes
      else sret (inr (pos, count, blocknr, offset, bytes))
  end.

(** An entry that fails verification returns without freeing the buffer. *)
Definition nova_protect_file_data (h : info_header) (pos count : Z) (buf : list Z) (blocknr : Z) (inplace : bool) : SM Z :=
  do! c := lift (gets sbc) in
  let offset := Z.land pos (s_blocksize c - 1) in
  let num_blocks := blocks_touched c pos count in
  let start_blk := Z.shiftr pos (s_blocksize_bits c) in
  let end_blk := u64 (start_blk + num_blocks - 1) in
  do! blockbuf := kmalloc in
  if blockbuf =? 0 then lift nova_err ,,, sret (- ENOMEM)
  else
    let out r := kfree blockbuf ,,, sret r in
    let bytes := if count <? s_blocksize c - offset then count else s_blocksize c - offset in
    do! ok := copy_to_buf buf bytes (blockbuf + offset) in
    if negb ok then lift nova_err ,,, out (- EFAULT)
    else
      do! r := (if negb (offset =? 0) then protect_edge h inplace start_blk 0 offset blockbuf else sret (inr 0)) in
      match r with
      | inl r => sret r
      | inr r =>
      if negb (r =? 0) then out r
      else
        do! st := (if num_blocks =? 1 then sret (inr (pos, count, blocknr, offset, bytes))
          else protect_loop (Z.to_nat num_blocks) h inplace blockbuf pos buf count blocknr offset bytes) in
        match st with
        | inl r => out r
        | inr (pos, count, blocknr, offset, bytes) =>
            let eblk_offset := Z.land (u64 (pos + count)) (s_blocksize c - 1) in
            do! r := (if negb (eblk_offset =? 0)
              then protect_edge h inplace end_blk eblk_offset (s_blocksize c - eblk_offset) blockbuf else sret (inr 0)) in
            match r with
            | inl r => sret r
            | inr r => if negb (r =? 0) then out r else update_protection h inplace blockbuf blocknr offset bytes ,,, out 0
            end
        end
      end.

(** ** Existing data *)

(** [false] when the entry cannot be read; with [locked] unset it is copied
    without a test. *)
Definition nova_get_verify_entry (entry : Z) (locked : bool) : M (option entryc) :=
  if metadata_csum =? 0 then ret (Some (InPlace entry))
  else if negb locked then
    let! r := mcsafe entry (Z.to_nat (sizeof nova_file_write_entry)) in
    ret (if r.1 <? 0 then None else Some (InCopy r.2))
  else verified_entry entry.

(** What is at a page: [*ret_entry] with its copy, [*inplace], and the number of
    blocks. *)
Record existing := mkExisting { ex_blks : Z; ex_entry : option (Z * entryc); ex_inplace : bool }.

(** The copy of a following entry is also left in [ret_entryc], where the callers
    do not use it. *)
Definition nova_check_existing_entry (h : info_header) (num_blocks start_blk : Z) (check_next : bool) (epoch_id : Z)
    (locked : bool) : M existing :=
  let fld c f := entryc_field nova_file_write_entry c f in
  let entry := nova_get_write_entry h start_blk in
  let most n := if num_blocks <? n then num_blocks else n in
  if negb (entry =? 0) then
    let! c := nova_get_verify_entry entry locked in
    match c with
    | None => ret (mkExisting 0 None false)
    | Some c =>
        let! reassigned := fld c "reassigned" in
        let! ent_blks := (if reassigned =? 0 then
            let! num_pages := fld c "num_pages" in
            let! pgoff := fld c "pgoff" in ret (u64 (num_pages - u64 (start_blk - pgoff)))
          else ret 1) in
        let! e := fld c "epoch_id" in
        ret (mkExisting (most ent_blks) (Some (entry, c)) (e =? epoch_id))
    end
  else if check_next then
    let entry := nova_find_next_entry (ih_tree h) start_blk in
    if entry =? 0 then ret (mkExisting num_blocks None false)
    else
      let! c := nova_get_verify_entry entry locked in
      match c with
      | None => ret (mkExisting 0 None false)
      | Some c =>
          let! next_pgoff := fld c "pgoff" in
          if next_pgoff <=? start_blk then nova_err ;;; raise FBug
          else ret (mkExisting (most (u64 (next_pgoff - start_blk))) None false)
      end
  else ret (mkExisting 0 None false).

(** ** Reading *)

(** What is at page [index]: the number of bytes from the start of the page that
    follow each other, and their block, [None] in a hole; [inl] is an error that
    returns at once. *)
Definition read_source (h : info_header) (index : Z) : M (Z + Z * option Z) :=
  let fld c f := entryc_field nova_file_write_entry c f in
  let entry := nova_get_write_entry h index in
  if entry =? 0 then ret (inr (PAGE_SIZE, None))
  else
    let! c := verified_entry entry in
    match c with
    | None => ret (inl (- EIO))
    | Some c =>
        let! pgoff := fld c "pgoff" in
        let! num_pages := fld c "num_pages" in
        if (index <? pgoff) || (num_pages <=? index - pgoff) then nova_err ;;; ret (inl (- EINVAL))
        else
          let! reassigned := fld c "reassigned" in
          let nr := if reassigned =? 0 then u64 ((num_pages - (index - pgoff)) * PAGE_SIZE) else PAGE_SIZE in
          let! l := entryc_whole c in
          ret (inr (nr, Some (get_nvmm l index)))
    end.

(** The [n] bytes at [offset] of it. *)
Definition read_data (nvmm : option Z) (offset n : Z) : M (list Z) :=
  match nvmm with
  | Some nvmm =>
      let! dax_mem := gets (fun s => nova_get_block s (u64 (Z.shiftl nvmm PAGE_SHIFT))) in
      pload_bytes (Z.to_nat n) (dax_mem + offset)
  | None => ret (replicate (Z.to_nat n) 0)
  end.

(** The loop from page [index] on; [out] are the bytes stored so far.  [inl] is a
    [return] at once, [inr] the error. *)
Fixpoint read_loop (fuel : nat) (h : info_header) (isize len w : Z) (index offset : Z) (out : list Z) : M (Z * list Z + Z * list Z) :=
  match fuel with
  | O => raise FFuel
  | S fuel =>
      let end_index := Z.shiftr (isize - 1) PAGE_SHIFT in
      if (end_index <? index) ||
         ((index =? end_index) && (Z.land (isize - 1) (PAGE_SIZE - 1) + 1 <=? offset)) then ret (inr (0, out))
      else
        let copied := Z.of_nat (length out) in
        let! r := read_source h index in
        match r with
        | inl err => ret (inl (err, out))
        | inr (nr, nvmm) =>
            let nr := u64 (nr - offset) in
            let nr := if len - copied <? nr then len - copied else nr in
            let! ok := (match nvmm with
              | Some nvmm =>
                  if (0 <? data_csum) && negb (nova_find_pgoff_in_vma h index)
                  then nova_verify_data_csum (ih_base h) nvmm offset nr else ret true
              | None => ret true
              end) in
            if negb ok then nova_err ;;; ret (inr (- EIO, out))
            else
              let stored := copy_to_user (w - copied) nr in
              let! data := read_data nvmm offset stored in
              if negb (stored =? nr) then ret (inr (- EFAULT, out))
              else
                let out := out ++ data in
                let offset := u64 (offset + nr) in
                let index := u64 (index + Z.shiftr offset PAGE_SHIFT) in
                let offset := Z.land offset (PAGE_SIZE - 1) in
                if Z.of_nat (length out) <? len then read_loop fuel h isize len w index offset out
                else ret (inr (0, out))
        end
  end.

(** The result, the bytes that count as read and [*ppos]; [w] bytes of the buffer
    can be written. *)
Definition do_dax_mapping_read (i : vfs_inode) (h : info_header) (len w ppos : Z) : M (Z * list Z * Z) :=
  let pos := ppos in
  let out error l := ret (if negb (Z.of_nat (length l) =? 0) then Z.of_nat (length l) else error, l, pos + Z.of_nat (length l)) in
  if negb (access_ok len) then out (- EFAULT) []
  else
    let isize := vi_size i in
    if isize =? 0 then out 0 []
    else
      let len := if u64 (isize - pos) <? len then u64 (isize - pos) else len in
      if len =? 0 then out 0 []
      else
        let! r := read_loop (Z.to_nat len) h isize len w (Z.shiftr pos PAGE_SHIFT) (Z.land pos (PAGE_SIZE - 1)) [] in
        match r with
        | inl (err, l) => ret (err, l, ppos)
        | inr (error, l) => out error l
        end.

Definition nova_dax_file_read (i : vfs_inode) (h : info_header) (len w ppos : Z) : M (Z * list Z * Z) :=
  do_dax_mapping_read i h len w ppos.

(** ** Writing *)

(** Copying [bytes] bytes of the user's buffer to a block of a write; with [fill]
    the rest of a block is filled first.  [inl] is an error, [inr] the number of
    bytes copied. *)
Definition write_copy (h : info_header) (fill : bool) (pos offset bytes blk_off : Z) (buf : list Z) : M (Z + Z) :=
  let! kmem := gets (fun s => nova_get_block s blk_off) in
  let! r := (if fill && (negb (offset =? 0) || negb (Z.land (u64 (offset + bytes)) (PAGE_SIZE - 1) =? 0))
    then nova_handle_head_tail_blocks h pos bytes kmem else ret 0) in
  if negb (r =? 0) then ret (inl r)
  else
    nova_memunlock_range (kmem + offset) bytes ;;;
    let copied := copy_from_user buf bytes in
    let! _ := memcpy_to_pmem_nocache (kmem + offset) (take (Z.to_nat copied) buf) in
    nova_memlock_range (kmem + offset) bytes ;;;
    ret (inr copied).

(** The variables of the loops of a write. *)
Record wstate := mkW {
  w_h : info_header; w_pos : Z; w_buf : list Z; w_count : Z; w_num_blocks : Z; w_written : Z;
  w_blocknr : Z; w_allocated : Z; w_begin_tail : Z; w_update : inode_update;
  w_new_blocks : Z; w_update_log : bool
}.

(** How a round ends: [goto out], [break], or with the next one. *)
Inductive verdict := Goto_out (r : Z) | Broken | Going.

(** The end of a round in which [copied] of [bytes] bytes were copied. *)
Definition advance (w : wstate) (h : info_header) (blocknr allocated : Z) (u : inode_update) (new_blocks copied bytes : Z)
    (hole_fill cow : bool) : verdict * wstate :=
  let more := 0 <? copied in
  let broken := negb (copied =? bytes) in
  let written := if more then w_written w + copied else w_written w in
  let published := hole_fill && negb broken in
  (if broken then Broken else Going,
   mkW h (if more then w_pos w + copied else w_pos w) (if more then drop (Z.to_nat copied) (w_buf w) else w_buf w)
     (if more then w_count w - copied else w_count w) (if more then u64 (w_num_blocks w - allocated) else w_num_blocks w)
     (if broken && negb cow then - EFAULT else written) blocknr allocated
     (if published && (w_begin_tail w =? 0) then up_curr_entry u else w_begin_tail w) u new_blocks
     (w_update_log w || published)).

Definition goto_out (r : Z) (w : wstate) (h : info_header) (blocknr allocated : Z) (u : inode_update) (new_blocks : Z)
    : verdict * wstate :=
  (Goto_out r, mkW h (w_pos w) (w_buf w) (w_count w) (w_num_blocks w) (w_written w) blocknr allocated
    (w_begin_tail w) u new_blocks (w_update_log w)).

Definition grown_size (i : vfs_inode) (pos copied : Z) : Z := if vi_size i <? pos + copied then pos + copied else vi_size i.

(** The entry of a filled hole, or of a copy, goes to the log. *)
Definition append_write (pi : Z) (i : vfs_inode) (h : info_header) (epoch_id start_blk allocated blocknr time file_size : Z)
    (u : inode_update) : SM (Z * info_header * inode_update) :=
  do! r := nova_append_file_write_entry pi i h
    (nova_init_file_write_entry h epoch_id start_blk allocated blocknr time (u64 file_size)) u in
  let '(rc, h, u) := r in sret (if negb (rc =? 0) then - ENOSPC else 0, h, u).

Definition protect_write (h : info_header) (pos bytes : Z) (buf : list Z) (blocknr : Z) (inplace : bool) : SM Z :=
  if (0 <? data_csum) || (0 <? data_parity) then nova_protect_file_data h pos bytes buf blocknr inplace else sret 0.

Definition inplace_round (pi : Z) (i : vfs_inode) (epoch_id time : Z) (w : wstate) : SM (verdict * wstate) :=
  do! c := lift (gets sbc) in
  let h := w_h w in
  let pos := w_pos w in
  let offset := Z.land pos (nova_inode_blk_size (i_blk_type (ih_base h)) - 1) in
  let start_blk := Z.shiftr pos (s_blocksize_bits c) in
  do! ex := lift (nova_check_existing_entry h (w_num_blocks w) start_blk true epoch_id true) in
  do! target := (match ex_entry ex, ex_inplace ex with
    | Some (entry, entryc), true =>
        do! l := lift (entryc_whole entryc) in
        let blocknr := get_nvmm l start_blk in
        (if negb (data_csum =? 0) || negb (data_parity =? 0)
         then do! _ := lift (nova_set_write_entry_updating entry true) in sret tt else sret tt) ,,,
        sret (s32 (ex_blks ex), blocknr, u64 (Z.shiftl blocknr PAGE_SHIFT), Some entry)
    | _, _ =>
        do! r := lift (nova_new_data_blocks (i_blk_type (ih_base h)) (w_blocknr w) (ex_blks ex) false ANY_CPU ALLOC_FROM_HEAD) in
        sret (r.1, r.2, nova_get_block_off r.2 (i_blk_type (ih_base h)), None)
    end) in
  let '(allocated, blocknr, blk_off, existing) := target in
  let hole_fill := match existing with None => true | Some _ => false end in
  if hole_fill && (allocated <=? 0) then sret (goto_out allocated w h blocknr allocated (w_update w) (w_new_blocks w))
  else
    let new_blocks := if hole_fill then u64 (w_new_blocks w + allocated) else w_new_blocks w in
    let bytes := u64 (s_blocksize c * allocated - offset) in
    let bytes := if w_count w <? bytes then w_count w else bytes in
    do! r := lift (write_copy h hole_fill pos offset bytes blk_off (w_buf w)) in
    match r with
    | inl err => sret (goto_out err w h blocknr allocated (w_update w) new_blocks)
    | inr copied =>
        do! rc := protect_write h pos bytes (w_buf w) blocknr (negb hole_fill) in
        if negb (rc =? 0) then sret (goto_out rc w h blocknr allocated (w_update w) new_blocks)
        else
          let file_size := grown_size i pos copied in
          match existing with
          | None =>
              do! r := append_write pi i h epoch_id start_blk allocated blocknr time file_size (w_update w) in
              let '(rc, h, u) := r in
              if negb (rc =? 0) then sret (goto_out rc w h blocknr allocated u new_blocks)
              else sret (advance w h blocknr allocated u new_blocks copied bytes true false)
          | Some entry =>
              do! _ := lift (nova_inplace_update_write_entry (ih_i_flags h) i entry
                (mkEntryInfo FILE_WRITE (mkAttr 0 0) [] epoch_id (ih_trans_id h) 0 time (u64 file_size) 0 true)) in
              sret (advance w h blocknr allocated (w_update w) new_blocks copied bytes false false)
          end
    end.

Definition cow_round (pi : Z) (i : vfs_inode) (epoch_id time : Z) (w : wstate) : SM (verdict * wstate) :=
  do! c := lift (gets sbc) in
  let h := w_h w in
  let pos := w_pos w in
  let offset := Z.land pos (nova_inode_blk_size (i_blk_type (ih_base h)) - 1) in
  let start_blk := Z.shiftr pos (s_blocksize_bits c) in
  do! r := lift (nova_new_data_blocks (i_blk_type (ih_base h)) (w_blocknr w) (w_num_blocks w) false ANY_CPU ALLOC_FROM_HEAD) in
  let '(allocated, blocknr) := r in
  if allocated <=? 0 then sret (goto_out allocated w h blocknr allocated (w_update w) (w_new_blocks w))
  else
    let bytes := u64 (s_blocksize c * allocated - offset) in
    let bytes := if w_count w <? bytes then w_count w else bytes in
    do! r := lift (write_copy h true pos offset bytes (nova_get_block_off blocknr (i_blk_type (ih_base h))) (w_buf w)) in
    match r with
    | inl err => sret (goto_out err w h blocknr allocated (w_update w) (w_new_blocks w))
    | inr copied =>
        do! rc := protect_write h pos bytes (w_buf w) blocknr false in
        if negb (rc =? 0) then sret (goto_out rc w h blocknr allocated (w_update w) (w_new_blocks w))
        else
          do! r := append_write pi i h epoch_id start_blk allocated blocknr time (grown_size i pos copied) (w_update w) in
          let '(rc, h, u) := r in
          if negb (rc =? 0) then sret (goto_out rc w h blocknr allocated u (w_new_blocks w))
          else sret (advance w h blocknr allocated u (w_new_blocks w) copied bytes true true)
    end.

(** A round writes at least one block or ends the loop. *)
Fixpoint write_loop (fuel : nat) (round : wstate -> SM (verdict * wstate)) (w : wstate) : SM (option Z * wstate) :=
  if w_num_blocks w =? 0 then sret (None, w)
  else
    match fuel with
    | O => sraise FFuel
    | S fuel =>
        do! r := round w in
        match r with
        | (Goto_out rc, w) => sret (Some rc, w)
        | (Broken, w) => sret (None, w)
        | (Going, w) => write_loop fuel round w
        end
    end.

Definition set_vi_times (t : Z) (i : vfs_inode) : vfs_inode :=
  mkInode (vi_mode i) (vi_uid i) (vi_gid i) (vi_atime i) t t (vi_size i) (vi_nlink i) (vi_generation i) (vi_blocks i).

Definition add_blocks (c : sb_const) (n : Z) (h : info_header) : info_header :=
  set_ih_i_blocks (u64 (ih_i_blocks h + Z.shiftl n (nova_inode_blk_shift (i_blk_type (ih_base h)) - s_blocksize_bits c))) h.

(** The tail is published and the index follows the log. *)
Definition publish_write (pi : Z) (h : info_header) (u : inode_update) (begin_tail : Z) : SM (Z * info_header) :=
  lift (nova_memunlock_inode pi) ,,,
  do! b := lift (nova_update_inode (ih_base h) pi (up_tail u) (up_alter_tail u) true) in
  lift (nova_memlock_inode pi) ,,,
  nova_reassign_file_tree (set_ih_base b h) begin_tail.

Definition start_write (c : sb_const) (h : info_header) (pos len : Z) (buf : list Z) : wstate :=
  mkW h pos buf len (blocks_touched c pos len) 0 0 0 0
    (mkUpdate (sih_log_tail (ih_base h)) (sih_alter_log_tail (ih_base h)) 0 0 0 0) 0 false.

(** [out]: the blocks of a write that failed are given back. *)
Definition finish_write (rc pos : Z) (v : vnode) (w : wstate) : SM (Z * Z * vnode) :=
  (if rc <? 0 then
     do! _ := lift (nova_cleanup_incomplete_write (i_blk_type (ih_base (vn_h v))) (w_blocknr w) (w_allocated w)
       (w_begin_tail w) (up_tail (w_update w))) in sret tt
   else sret tt) ,,, sret (rc, pos, v).

(** The inode and its header after a write that ended at [pos]. *)
Definition written_vnode (pos : Z) (v : vnode) : vnode :=
  let v := if vi_size (vn_i v) <? pos then set_vn_i (set_vi_size pos (vn_i v)) (set_vn_h (set_ih_i_size pos (vn_h v)) v) else v in
  set_vn_h (set_ih_trans_id (u64 (ih_trans_id (vn_h v) + 1)) (vn_h v)) v.

(** Result, [*ppos] and the inode; [append] is O_APPEND, [now] the clock.  Errors
    before the loop leave nothing to clean up. *)
Definition do_nova_inplace_file_write (append : bool) (v : vnode) (buf : list Z) (len ppos now : Z) : SM (Z * Z * vnode) :=
  if len =? 0 then sret (0, ppos, v)
  else if negb (access_ok len) then sret (- EFAULT, ppos, v)
  else
    let pos := if append then vi_size (vn_i v) else ppos in
    let b := ih_base (vn_h v) in
    do! pi := lift (gets (fun s => nova_get_block s (pi_addr b))) in
    do! r := lift (nova_check_inode_integrity (pi_addr b) (alter_pi_addr b) false) in
    if r.1 <? 0 then sret (- EIO, ppos, v)
    else
      let privs := file_remove_privs (vn_i v) in
      if negb (privs =? 0) then sret (privs, ppos, v)
      else
        do! c := lift (gets sbc) in
        do! epoch_id := lift (gets nova_get_epoch_id) in
        let v := set_vn_i (set_vi_times now (vn_i v)) v in
        let w := start_write c (vn_h v) pos len buf in
        do! r := write_loop (Z.to_nat (w_num_blocks w)) (inplace_round pi (vn_i v) epoch_id (u32 now)) w in
        let '(stop, w) := r in
        match stop with
        | Some rc => finish_write rc ppos (set_vn_h (w_h w) v) w
        | None =>
            let h := add_blocks c (w_new_blocks w) (w_h w) in
            let i := set_vi_blocks (ih_i_blocks h) (vn_i v) in
            do! r := (if w_update_log w then publish_write pi h (w_update w) (w_begin_tail w) else sret (0, h)) in
            let '(rc, h) := r in
            let v := set_vn_h h (set_vn_i i v) in
            if negb (rc =? 0) then finish_write rc ppos v w
            else finish_write (w_written w) (w_pos w) (written_vnode (w_pos w) v) w
        end.

Definition nova_inplace_file_write (append : bool) (v : vnode) (buf : list Z) (len ppos now : Z) : SM (Z * Z * vnode) :=
  if len =? 0 then sret (0, ppos, v)
  else do! r := do_nova_inplace_file_write append v buf len ppos now in let '(rc, pos, v) := r in sret (s32 rc, pos, v).

(** A write over mapped pages is done in place; [now2] is the clock then. *)
Definition do_nova_cow_file_write (append : bool) (v : vnode) (buf : list Z) (len ppos now now2 : Z) : SM (Z * Z * vnode) :=
  if len =? 0 then sret (0, ppos, v)
  else if negb (access_ok len) then sret (- EFAULT, ppos, v)
  else
    let pos := if append then vi_size (vn_i v) else ppos in
    let b := ih_base (vn_h v) in
    do! pi := lift (gets (fun s => nova_get_block s (pi_addr b))) in
    do! r := lift (nova_check_inode_integrity (pi_addr b) (alter_pi_addr b) false) in
    if r.1 <? 0 then sret (- EIO, ppos, v)
    else
      do! c := lift (gets sbc) in
      let total_blocks := blocks_touched c pos len in
      if nova_check_overlap_vmas (s_blocksize_bits c) (vn_h v) (Z.shiftr pos (s_blocksize_bits c)) total_blocks
      then do_nova_inplace_file_write append v buf len ppos now2
      else
        let privs := file_remove_privs (vn_i v) in
        if negb (privs =? 0) then sret (privs, ppos, v)
        else
          do! epoch_id := lift (gets nova_get_epoch_id) in
          let v := set_vn_i (set_vi_times now (vn_i v)) v in
          let w := start_write c (vn_h v) pos len buf in
          do! r := write_loop (Z.to_nat (w_num_blocks w)) (cow_round pi (vn_i v) epoch_id (u32 now)) w in
          let '(stop, w) := r in
          match stop with
          | Some rc => finish_write rc ppos (set_vn_h (w_h w) v) w
          | None =>
              do! r := publish_write pi (add_blocks c total_blocks (w_h w)) (w_update w) (w_begin_tail w) in
              let '(rc, h) := r in
              let v := set_vn_h h v in
              if negb (rc =? 0) then finish_write rc ppos v w
              else
                let v := set_vn_i (set_vi_blocks (ih_i_blocks h) (vn_i v)) v in
                finish_write (w_written w) (w_pos w) (written_vnode (w_pos w) v) w
          end.

Definition nova_cow_file_write (append : bool) (v : vnode) (buf : list Z) (len ppos now now2 : Z) : SM (Z * Z * vnode) :=
  if len =? 0 then sret (0, ppos, v)
  else do! r := do_nova_cow_file_write append v buf len ppos now now2 in let '(rc, pos, v) := r in sret (s32 rc, pos, v).

Definition nova_dax_file_write (append : bool) (v : vnode) (buf : list Z) (len ppos now now2 : Z) : SM (Z * Z * vnode) :=
  do! cow := lift (gets (fun s => test_opt s NOVA_MOUNT_DATA_COW)) in
  if cow : bool then nova_cow_file_write append v buf len ppos now now2
  else nova_inplace_file_write append v buf len ppos now.

Definition do_nova_dax_file_write (append : bool) (v : vnode) (buf : list Z) (len ppos now now2 : Z) : SM (Z * Z * vnode) :=
  do! cow := lift (gets (fun s => test_opt s NOVA_MOUNT_DATA_COW)) in
  if cow : bool then do_nova_cow_file_write append v buf len ppos now now2
  else do_nova_inplace_file_write append v buf len ppos now.
End file_data.
