(* ===== verification/FileMap.v ===== *)
(** Blocks of files that are allocated without being written, and mapped memory
    (file.c, dax.c, mprotect.c, rebuild.c).

    The areas that map a file are kept in [ih_vmas], in the order of their
    addresses.  The page tables and the tags of the page cache belong to the kernel:
    the dirty pages are an argument, changes of mappings are results. *)

From stdpp Require Import strings.
From S2P Require Import Prelude CInt Crc32c NovaEnv RangeNode Pmem NovaState NovaMonad NovaLib.
From S2P Require Import Balloc NovaLayout LogPage InodeMap RangeLog InodeTable Journal Checksum Parity MetaCsum LogEntry Snapshot FileTree DirTree Rebuild LogGc LogAppend VfsInode Namei FileData.

Local Open Scope nova_scope.
Local Open Scope string_scope.
Local Open Scope list_scope.
Local Open Scope Z_scope.

Definition ENODEV : Z := 19.
Definition PAGEVEC_SIZE : nat := 15.
Definition NOVA_BLOCK_1G : Z := 0x40000000.
Definition NOVA_BLOCK_2M : Z := 0x200000.

Section file_map.
Context `{NovaEnv, RbLib, MediaLib, KmallocLib, RadixLib, ParityEnv, VfsLib, UserLib}.

(** ** Allocation without writing *)

(** A round of [nova_fallocate]. *)
Definition fallocate_round (pi : Z) (i : vfs_inode) (epoch_id time new_size : Z) (w : wstate) : SM (verdict * wstate) :=
  do! c := lift (gets sbc) in
  let h := w_h w in
  let start_blk := w_pos w in
  let next h blocknr allocated u begin_tail total update_log :=
    mkW h (u64 (start_blk + allocated)) [] 0 (u64 (w_num_blocks w - allocated)) 0 blocknr allocated begin_tail u total update_log in
  do! ex := lift (nova_check_existing_entry h (w_num_blocks w) start_blk true epoch_id true) in
  match ex_entry ex, ex_inplace ex with
  | Some (entry, entryc), true =>
      do! size := lift (entryc_field nova_file_write_entry entryc "size") in
      (if size <? new_size then
         lift (nova_memunlock_range entry CACHELINE_SIZE) ,,,
         lift (pstore_field nova_file_write_entry entry "size" (u64 new_size)) ,,,
         lift (nova_update_entry_csum entry) ,,,
         do! _ := lift (nova_update_alter_entry entry) in
         lift (nova_memlock_range entry CACHELINE_SIZE)
       else sret tt) ,,,
      sret (Going, next h (w_blocknr w) (s32 (ex_blks ex)) (w_update w) (w_begin_tail w) (w_new_blocks w) (w_update_log w))
  | _, _ =>
      do! r := lift (nova_new_data_blocks (i_blk_type (ih_base h)) (w_blocknr w) (ex_blks ex) true ANY_CPU ALLOC_FROM_HEAD) in
      let '(allocated, blocknr) := r in
      if allocated <=? 0 then sret (goto_out allocated w h blocknr allocated (w_update w) (w_new_blocks w))
      else
        do! r := append_write pi i h epoch_id start_blk allocated blocknr time new_size (w_update w) in
        let '(rc, h, u) := r in
        if negb (rc =? 0) then sret (goto_out rc w h blocknr allocated u (w_new_blocks w))
        else
          do! entry := lift (gets (fun s => nova_get_block s (up_curr_entry u))) in
          do! _ := lift (nova_reset_csum_parity_range h entry start_blk (u64 (start_blk + allocated)) true false) in
          sret (Going, next h blocknr allocated u (if w_begin_tail w =? 0 then up_curr_entry u else w_begin_tail w)
            (u64 (w_new_blocks w + allocated)) true)
  end.

(** The tail is published without a checksum; it is made later. *)
Definition publish_tail (pi : Z) (h : info_header) (u : inode_update) (begin_tail : Z) : SM (Z * info_header) :=
  let b := ih_base h in
  let b := mkSih (sih_ino b) (pi_addr b) (alter_pi_addr b) (i_blk_type b) (sih_log_head b) (up_tail u)
    (sih_alter_log_head b) (up_alter_tail u) in
  lift (nova_memunlock_inode pi) ,,,
  lift (nova_update_tail pi (up_tail u)) ,,,
  lift (when (negb (metadata_csum =? 0)) (nova_update_alter_tail pi (up_alter_tail u))) ,,,
  lift (nova_memlock_inode pi) ,,,
  nova_reassign_file_tree (set_ih_base b h) begin_tail.

(** Returns the result and the inode. *)
Definition nova_fallocate (v : vnode) (mode offset len now : Z) : SM (Z * vnode) :=
  let keep := has mode FALLOC_FL_KEEP_SIZE in
  let i := vn_i v in
  if has mode (Z.lnot FALLOC_FL_KEEP_SIZE) then sret (- EOPNOTSUPP, v)
  else if S_ISDIR (vi_mode i) then sret (- ENODEV, v)
  else
    let grow := negb keep && (vi_size i <? s64 (len + offset)) in
    let ok := if grow then inode_newsize_ok i (s64 (len + offset)) else 0 in
    if negb (ok =? 0) then sret (ok, v)
    else
      let new_size := if grow then s64 (len + offset) else vi_size i in
      do! pi := lift (nova_get_inode (ih_base (vn_h v))) in
      if pi =? 0 then sret (- EACCES, v)
      else
        do! c := lift (gets sbc) in
        do! epoch_id := lift (gets nova_get_epoch_id) in
        let i := set_vi_times now i in
        let v := set_vn_i i v in
        let mask := s_blocksize c - 1 in
        let num_blocks := u64 (Z.shiftr (u64 (Z.land offset mask + len + mask)) (s_blocksize_bits c)) in
        let b := ih_base (vn_h v) in
        let w := mkW (vn_h v) (Z.shiftr offset (s_blocksize_bits c)) [] 0 num_blocks 0 0 0 0
          (mkUpdate (sih_log_tail b) (sih_alter_log_tail b) 0 0 0 0) 0 false in
        do! r := write_loop (Z.to_nat num_blocks) (fallocate_round pi i epoch_id (u32 now) new_size) w in
        let '(stop, w) := r in
        match stop with
        | Some rc => do! r := finish_write rc 0 (set_vn_h (w_h w) v) w in sret (r.1.1, r.2)
        | None =>
            let h := add_blocks c (w_new_blocks w) (w_h w) in
            let v := set_vn_i (set_vi_blocks (ih_i_blocks h) i) v in
            do! r := (if w_update_log w then publish_tail pi h (w_update w) (w_begin_tail w) else sret (0, h)) in
            let '(rc, h) := r in
            if negb (rc =? 0) then do! r := finish_write rc 0 (set_vn_h h v) w in sret (r.1.1, r.2)
            else
              do! h := (if keep then
                  lift (nova_memunlock_inode pi) ,,,
                  do! f := lift (pload_field nova_inode pi "i_flags") in
                  lift (pstore_field nova_inode pi "i_flags" (Z.lor f NOVA_EOFBLOCKS_FL)) ,,,
                  lift (nova_memlock_inode pi) ,,,
                  sret (set_ih_i_flags (Z.lor (ih_i_flags h) NOVA_EOFBLOCKS_FL) h)
                else sret h) in
              let '(i, h) := if negb keep && (vi_size (vn_i v) <? new_size)
                then (set_vi_size new_size (vn_i v), set_ih_i_size new_size h) else (vn_i v, h) in
              lift (nova_memunlock_inode pi) ,,,
              do! _ := lift (nova_update_inode_checksum pi) in
              do! _ := lift (nova_update_alter_inode (ih_base h) pi) in
              lift (nova_memlock_inode pi) ,,,
              sret (rc, set_vn_i i (set_vn_h (set_ih_trans_id (u64 (ih_trans_id h + 1)) h) v))
        end.

(** The blocks at page [iblock]: their number (0 for a hole), [*bno] and the inode.
    With [taking_lock] the entry is looked up again under the inode's lock. *)
Definition nova_dax_get_blocks (v : vnode) (iblock max_blocks : Z) (create taking_lock : bool) (now : Z)
    : SM (Z * option Z * vnode) :=
  if max_blocks =? 0 then sret (0, None, v)
  else
    do! c := lift (gets sbc) in
    do! epoch_id := lift (gets nova_get_epoch_id) in
    let h := vn_h v in
    let found (ex : existing) : SM (option Z) :=
      match ex_entry ex with
      | Some (_, entryc) =>
          if negb create || ex_inplace ex then do! l := lift (entryc_whole entryc) in sret (Some (get_nvmm l iblock)) else sret None
      | None => sret None
      end in
    do! ex := lift (nova_check_existing_entry h max_blocks iblock (negb taking_lock) epoch_id false) in
    do! nvmm := found ex in
    match nvmm with
    | Some nvmm => sret (s32 (ex_blks ex), Some (u32 nvmm), v)
    | None =>
        if negb create then sret (0, None, v)
        else
          do! ex := (if taking_lock then lift (nova_check_existing_entry h max_blocks iblock true epoch_id true) else sret ex) in
          do! nvmm := (if taking_lock then found ex else sret None) in
          match nvmm with
          | Some nvmm => sret (s32 (ex_blks ex), Some (u32 nvmm), v)
          | None =>
              do! pi := lift (nova_get_inode (ih_base h)) in
              let v := set_vn_i (set_vi_times now (vn_i v)) v in
              let b := ih_base h in
              let u := mkUpdate (sih_log_tail b) (sih_alter_log_tail b) 0 0 0 0 in
              let fail rc blocknr allocated v :=
                (if rc <? 0 then
                   do! _ := lift (nova_cleanup_incomplete_write (i_blk_type b) blocknr allocated 0 0) in sret tt
                 else sret tt) ,,, sret (rc, None, v) in
              do! r := lift (nova_new_data_blocks (i_blk_type b) 0 (s32 (ex_blks ex)) true ANY_CPU ALLOC_FROM_HEAD) in
              let '(allocated, blocknr) := r in
              if allocated <=? 0 then fail allocated blocknr allocated v
              else
                do! r := append_write pi (vn_i v) h epoch_id iblock allocated blocknr (u32 now) (vi_size (vn_i v)) u in
                let '(rc, h, u) := r in
                if negb (rc =? 0) then fail rc blocknr allocated (set_vn_h h v)
                else
                  do! r := publish_write pi (add_blocks c allocated h) u (up_curr_entry u) in
                  let '(rc, h) := r in
                  let v := set_vn_h h v in
                  if negb (rc =? 0) then fail rc blocknr allocated v
                  else
                    let v := set_vn_i (set_vi_blocks (ih_i_blocks h) (vn_i v)) v in
                    sret (allocated, Some (u32 blocknr), set_vn_h (set_ih_trans_id (u64 (ih_trans_id h + 1)) h) v)
          end
    end.

(** struct iomap: the fields that are set; [None] is IOMAP_HOLE. *)
Record iomap := mkIomap { im_offset : Z; im_addr : option Z; im_length : Z }.

Definition nova_iomap_begin (v : vnode) (offset length : Z) (write taking_lock : bool) (now : Z) : SM ((Z + iomap) * vnode) :=
  do! c := lift (gets sbc) in
  let blkbits := s_blocksize_bits c in
  let first_block := Z.shiftr offset blkbits in
  let max_blocks := Z.shiftr (s64 (length + Z.shiftl 1 blkbits - 1)) blkbits in
  do! r := nova_dax_get_blocks v first_block max_blocks write taking_lock now in
  let '(rc, bno, v) := r in
  if rc <? 0 then sret (inl rc, v)
  else
    let offset := u64 (Z.shiftl first_block blkbits) in
    if rc =? 0 then sret (inr (mkIomap offset None (Z.shiftl 1 blkbits)), v)
    else
      do! bno := lift (initialised bno) in
      sret (inr (mkIomap offset (Some (u64 (Z.shiftl bno blkbits))) (u64 (Z.shiftl rc blkbits))), v).

(** ** Mapped areas *)

(** [data_csum] or [data_parity]: the mapping is recorded in the log, so that the
    checksums of its pages can be made again. *)
Definition nova_append_write_mmap_to_log (v : vnode) (vma : vm_area) (curr_p0 : Z) : SM (Z * vnode * Z) :=
  if (data_csum =? 0) && (data_parity =? 0) then sret (0, v, 0)
  else
    do! pi := lift (nova_get_inode (ih_base (vn_h v))) in
    do! epoch_id := lift (gets nova_get_epoch_id) in
    let set f x l := set_buf_field nova_mmap_entry f x l in
    let num_pages := Z.shiftr (u64 (vm_end vma - vm_start vma)) PAGE_SHIFT in
    let data := set "invalid" 0 (set "num_pages" num_pages (set "pgoff" (vm_pgoff vma) (set "epoch_id" epoch_id
      (set "entry_type" (entry_type_val MMAP_WRITE) (replicate (Z.to_nat (sizeof nova_mmap_entry)) 0))))) in
    do! r := nova_append_mmap_entry pi (vn_i v) (vn_h v) data new_update curr_p0 in
    let '(rc, h, u, mmap_entry) := r in
    let v := set_vn_h h v in
    let item := default 0 mmap_entry in
    if negb (rc =? 0) then sret (rc, v, item)
    else
      lift (nova_memunlock_inode pi) ,,,
      do! b := lift (nova_update_inode (ih_base h) pi (up_tail u) (up_alter_tail u) true) in
      lift (nova_memlock_inode pi) ,,,
      sret (rc, set_vn_h (set_ih_base b h) v, item).

(** The tree ordered by the address of the area; [None] when it is there. *)
Fixpoint insert_vma (item : vma_item) (l : list vma_item) : option (list vma_item) :=
  match l with
  | [] => Some [item]
  | curr :: l' =>
      let compVal := nova_rbtree_compare_vma curr (it_vma item) in
      if compVal =? -1 then Some (item :: l)
      else if compVal =? 1 then (fun r => curr :: r) <$> insert_vma item l'
      else None
  end.

(** Result, the inode, and whether it joins the list of mapped inodes. *)
Definition nova_insert_write_vma (v : vnode) (vma : vm_area) (shared_write : bool) (curr_p0 : Z) : SM (Z * vnode * bool) :=
  if negb shared_write then sret (0, v, false)
  else
    do! item := lift kmem_cache_zalloc in
    match item with
    | None => sret (- ENOMEM, v, false)
    | Some _ =>
        do! r := nova_append_write_mmap_to_log v vma curr_p0 in
        let '(rc, v, mmap_entry) := r in
        if negb (rc =? 0) then sret (rc, v, false)
        else
          match insert_vma (mkVmaItem vma mmap_entry) (ih_vmas (vn_h v)) with
          | None => sret (rc, v, false)
          | Some vmas =>
              let h := set_ih_vmas vmas (vn_h v) in
              sret (rc, set_vn_h (set_ih_trans_id (u64 (ih_trans_id h + 1)) h) v, bool_decide (length vmas = 1%nat))
          end
    end.

(** [find_get_entries_tag]: the dirty pages from [start] on, at most a vector of
    them; [dirty] is in order. *)
Definition find_get_entries_tag (dirty : list Z) (start : Z) : list Z :=
  take PAGEVEC_SIZE (filter (fun i => start <= i) dirty).

(** The pages up to the end; was it reached? *)
Fixpoint reset_pages (h : info_header) (end_pgoff : Z) (l : list Z) : M bool :=
  match l with
  | [] => ret false
  | i :: l =>
      if end_pgoff <=? i then ret true
      else let! _ := nova_reset_csum_parity_page h 0 i false in reset_pages h end_pgoff l
  end.

Fixpoint reset_mapping_loop (fuel : nat) (h : info_header) (dirty : list Z) (start_pgoff end_pgoff : Z) : M unit :=
  match fuel with
  | O => raise FFuel
  | S fuel =>
      let indices := find_get_entries_tag dirty start_pgoff in
      match last indices with
      | None => ret tt
      | Some lasti =>
          let! done := reset_pages h end_pgoff indices in
          if done || (length indices <? PAGEVEC_SIZE)%nat then ret tt
          else reset_mapping_loop fuel h dirty (u64 (lasti + 1)) end_pgoff
      end
  end.

Definition nova_reset_mapping_csum_parity (h : info_header) (dirty : list Z) (start_pgoff end_pgoff : Z) : M Z :=
  if (data_csum =? 0) && (data_parity =? 0) then ret 0
  else reset_mapping_loop (S (length dirty)) h dirty start_pgoff end_pgoff ;;; ret 0.

Definition nova_reset_vma_csum_parity (h : info_header) (dirty : list Z) (item : vma_item) : M Z :=
  if (data_csum =? 0) && (data_parity =? 0) then ret 0
  else
    let vma := it_vma item in
    let num_pages := Z.shiftr (u64 (vm_end vma - vm_start vma)) PAGE_SHIFT in
    let! rc := nova_reset_mapping_csum_parity h dirty (vm_pgoff vma) (u64 (vm_pgoff vma + num_pages)) in
    if negb (it_mmap_entry item =? 0) then
      let! entry := gets (fun s => nova_get_block s (it_mmap_entry item)) in
      nova_invalidate_logentry entry MMAP_WRITE 0
    else ret rc.

(** Returns the header, and whether it leaves the list of mapped inodes. *)
Definition nova_remove_write_vma (h : info_header) (dirty : list Z) (vma : vm_area) : M (info_header * bool) :=
  match list_find (fun item => vm_ptr (it_vma item) = vm_ptr vma) (ih_vmas h) with
  | None => ret (h, false)
  | Some (n, item) =>
      let! _ := nova_reset_vma_csum_parity h dirty item in
      let vmas := delete n (ih_vmas h) in
      ret (set_ih_vmas vmas h, bool_decide (vmas = []))
  end.

(** ** Copy on write of mapped pages (mprotect.c) *)

(** The page cache's entries of the file's pages, the pages tagged dirty and the
    ranges mapped: address, frame, size. *)
Record mappings := mkMappings { mp_pages : gmap Z Z; mp_dirty : list Z; mp_ranges : list (Z * Z * Z) }.

Definition nova_update_dax_mapping (m : mappings) (block start_pgoff num_pages : Z) : mappings :=
  let start_blocknr := nova_get_blocknr block 0 in
  foldl (fun m i =>
    let curr_pgoff := u64 (start_pgoff + i) in
    let blocknr := u64 (start_blocknr + i) in
    match mp_pages m !! curr_pgoff with
    | None => m
    | Some value =>
        mkMappings (<[curr_pgoff := Z.lor (u64 (Z.shiftl blocknr 9)) (Z.land value 0xff)]> (mp_pages m))
          (curr_pgoff :: mp_dirty m) (mp_ranges m)
    end) m (seqZ 0 num_pages).

Definition nova_update_entry_pfn (remap_pfn_range : Z -> Z -> Z -> Z) (phys_addr : Z) (m : mappings) (vma : vm_area)
    (block pgoff start_pgoff num_pages : Z) : Z * mappings :=
  let addr := u64 (vm_start vma + u64 (Z.shiftl (u64 (start_pgoff - vm_pgoff vma)) PAGE_SHIFT)) in
  let pfn := u64 (Z.shiftr (u64 (phys_addr + block)) PAGE_SHIFT + start_pgoff - pgoff) in
  let size := u64 (Z.shiftl num_pages PAGE_SHIFT) in
  (remap_pfn_range addr pfn size, mkMappings (mp_pages m) (mp_dirty m) (mp_ranges m ++ [(addr, pfn, size)])).

Definition nova_dax_mmap_update_mapping (remap_pfn_range : Z -> Z -> Z -> Z) (phys_addr : Z) (m : mappings) (vma : vm_area)
    (c : entryc) : M (Z * mappings) :=
  let fld f := entryc_field nova_file_write_entry c f in
  let! bits := gets (fun s => s_blocksize_bits (sbc s)) in
  let! pgoff := fld "pgoff" in
  let! num := fld "num_pages" in
  match nova_get_vma_overlap_range bits vma pgoff num with
  | None => ret (0, m)
  | Some (start_pgoff, num_pages) =>
      let! block := fld "block" in
      let m := nova_update_dax_mapping m block start_pgoff num_pages in
      let '(rc, m) := nova_update_entry_pfn remap_pfn_range phys_addr m vma block pgoff start_pgoff num_pages in
      when (negb (rc =? 0)) nova_err ;;; ret (rc, m)
  end.

(** The entries from [curr_p] on; an entry that fails verification is skipped. *)
Fixpoint cow_handler_loop (remap_pfn_range : Z -> Z -> Z -> Z) (phys_addr : Z) (fuel : nat) (vma : vm_area)
    (log_tail curr_p rc : Z) (m : mappings) : M (Z * mappings) :=
  if (curr_p =? 0) || (curr_p =? log_tail) then ret (rc, m)
  else
    match fuel with
    | O => raise FFuel
    | S fuel =>
        let entry_size := sizeof nova_file_write_entry in
        let! curr_p := (if is_last_entry curr_p entry_size then next_log_page curr_p else ret curr_p) in
        if curr_p =? 0 then nova_err ;;; ret (- EINVAL, m)
        else
          let! entry := gets (fun s => nova_get_block s curr_p) in
          let next rc m := cow_handler_loop remap_pfn_range phys_addr fuel vma log_tail (u64 (curr_p + entry_size)) rc m in
          let! c := verified_entry entry in
          match c with
          | None => next (- EIO) m
          | Some c =>
              let! type := entryc_type c in
              if negb (type =? entry_type_val FILE_WRITE) then next rc m
              else
                let! r := nova_dax_mmap_update_mapping remap_pfn_range phys_addr m vma c in
                if negb (r.1 =? 0) then ret r else next 0 r.2
          end
    end.

Definition nova_dax_cow_mmap_handler (remap_pfn_range : Z -> Z -> Z -> Z) (phys_addr : Z) (m : mappings) (vma : vm_area)
    (h : info_header) (begin_tail : Z) : M (Z * mappings) :=
  let! fuel := gets entry_fuel in
  cow_handler_loop remap_pfn_range phys_addr fuel vma (sih_log_tail (ih_base h)) begin_tail 0 m.

(** The first block and the number of blocks around [address]. *)
Definition nova_get_dax_cow_range (bits : Z) (vma : vm_area) (address : Z) : Z * Z :=
  let vma_blocks := Z.shiftr (u64 (vm_end vma - vm_start vma)) bits in
  let base := if 4096 <=? vma_blocks then 4096 else 1 in
  let pgoff := Z.shiftr (u64 (address - vm_start vma)) bits in
  let start_pgoff := Z.land pgoff (u64 (Z.lnot (base - 1))) in
  let rest := u64 (vma_blocks - start_pgoff) in
  (u64 (vm_pgoff vma + start_pgoff), s32 (if rest <? base then rest else base)).

(** A round of the copy; [w_pos] is [start_blk], and [w_count] is [end_blk]. *)
Definition mmap_cow_round (pi : Z) (i : vfs_inode) (epoch_id time : Z) (w : wstate) : SM (verdict * wstate) :=
  do! c := lift (gets sbc) in
  let h := w_h w in
  let end_blk := w_count w in
  let entry := nova_get_write_entry h (w_pos w) in
  let hole := entry =? 0 in
  let entry := if hole then nova_find_next_entry (ih_tree h) (w_pos w) else entry in
  if entry =? 0 then sret (Broken, w)
  else
    do! e := lift (verified_entry entry) in
    match e with
    | None => sret (Broken, w)
    | Some e =>
        let fld f := lift (entryc_field nova_file_write_entry e f) in
        do! pgoff := fld "pgoff" in
        let start_blk := if hole then pgoff else w_pos w in
        if end_blk <=? start_blk then sret (Broken, w)
        else
          do! e_epoch := fld "epoch_id" in
          if e_epoch =? epoch_id then sret (Broken, w)
          else
            do! l := lift (entryc_whole e) in
            do! btype := lift (pload_field nova_inode pi "i_blk_type") in
            do! from_kmem := lift (gets (fun s => nova_get_block s (nova_get_block_off (get_nvmm l start_blk) btype))) in
            do! reassigned := fld "reassigned" in
            do! avail := (if reassigned =? 0 then do! num := fld "num_pages" in sret (u64 (num - u64 (start_blk - pgoff))) else sret 1) in
            let avail := if end_blk - start_blk <? avail then end_blk - start_blk else avail in
            do! r := lift (nova_new_data_blocks (i_blk_type (ih_base h)) (w_blocknr w) avail false ANY_CPU ALLOC_FROM_HEAD) in
            let '(allocated, blocknr) := r in
            if allocated <=? 0 then sret (goto_out allocated w h blocknr allocated (w_update w) 0)
            else
              do! to_kmem := lift (gets (fun s => nova_get_block s (nova_get_block_off blocknr btype))) in
              let bytes := u64 (s_blocksize c * allocated) in
              do! data := lift (pload_bytes (Z.to_nat bytes) from_kmem) in
              lift (nova_memunlock_range to_kmem bytes) ,,,
              do! _ := lift (memcpy_to_pmem_nocache to_kmem data) in
              lift (nova_memlock_range to_kmem bytes) ,,,
              do! r := append_write pi i h epoch_id start_blk allocated blocknr time (vi_size i) (w_update w) in
              let '(rc, h, u) := r in
              if negb (rc =? 0) then sret (goto_out rc w h blocknr allocated u 0)
              else
                let start_blk := u64 (start_blk + allocated) in
                sret (Going, mkW h start_blk [] end_blk (if start_blk <? end_blk then end_blk - start_blk else 0) 0 blocknr allocated
                  (if w_begin_tail w =? 0 then up_curr_entry u else w_begin_tail w) u 0 false)
    end.

(** Returns the result, the inode and the mappings. *)
Definition nova_mmap_to_new_blocks (remap_pfn_range : Z -> Z -> Z -> Z) (phys_addr : Z) (m : mappings) (v : vnode)
    (vma : vm_area) (address now : Z) : SM (Z * vnode * mappings) :=
  do! c := lift (gets sbc) in
  let '(start_blk, num_blocks) := nova_get_dax_cow_range (s_blocksize_bits c) vma address in
  let end_blk := u64 (start_blk + num_blocks) in
  if end_blk <=? start_blk then sret (0, v, m)
  else
    do! pi := lift (nova_get_inode (ih_base (vn_h v))) in
    do! epoch_id := lift (gets nova_get_epoch_id) in
    do! tail := lift (pload_field nova_inode pi "log_tail") in
    do! alter := lift (pload_field nova_inode pi "alter_log_tail") in
    let w := mkW (vn_h v) start_blk [] end_blk num_blocks 0 0 0 0 (mkUpdate tail alter 0 0 0 0) 0 false in
    do! r := write_loop (Z.to_nat num_blocks) (mmap_cow_round pi (vn_i v) epoch_id (u32 now)) w in
    let '(stop, w) := r in
    let out rc h m := do! r := finish_write rc 0 (set_vn_h h v) w in sret (rc, r.2, m) in
    match stop with
    | Some rc => out rc (w_h w) m
    | None =>
        if w_begin_tail w =? 0 then out 0 (w_h w) m
        else
          do! r := publish_write pi (w_h w) (w_update w) (w_begin_tail w) in
          let '(rc, h) := r in
          if negb (rc =? 0) then out rc h m
          else
            do! r := lift (nova_dax_cow_mmap_handler remap_pfn_range phys_addr m vma h (w_begin_tail w)) in
            let '(rc, m) := r in
            if negb (rc =? 0) then out rc h m
            else out 0 (set_ih_trans_id (u64 (ih_trans_id h + 1)) h) m
    end.

(** ** Files *)
Definition nova_can_set_blocksize_hint (h : info_header) : bool := negb (0 <? ih_i_size h).

Definition nova_set_blocksize_hint (h : info_header) (pi new_size : Z) : M Z :=
  if negb (nova_can_set_blocksize_hint h) then ret 0
  else
    let block_type := if NOVA_BLOCK_1G <=? new_size then NOVA_BLOCK_TYPE_1G
      else if NOVA_BLOCK_2M <=? new_size then NOVA_BLOCK_TYPE_2M else NOVA_BLOCK_TYPE_4K in
    nova_memunlock_inode pi ;;;
    pstore_field nova_inode pi "i_blk_type" block_type ;;;
    nova_memlock_inode pi ;;; ret 0.

(** The result and [f_pos]; [unsigned] is FMODE_UNSIGNED_OFFSET.  The result of
    [nova_find_region] goes through an int. *)
Definition nova_llseek (i : vfs_inode) (h : info_header) (offset origin f_pos s_maxbytes : Z) (unsigned : bool) : M (Z * Z) :=
  if negb (origin =? SEEK_DATA) && negb (origin =? SEEK_HOLE) then ret (generic_file_llseek i offset origin f_pos)
  else
    let! r := nova_find_region i h offset (origin =? SEEK_HOLE) in
    let '(rc, offset) := r in
    let retval := s32 rc in
    if negb (retval =? 0) then ret (retval, f_pos)
    else if ((offset <? 0) && negb unsigned) || (s_maxbytes <? offset) then ret (- ENXIO, f_pos)
    else ret (offset, offset).

(** [mapped]: the dirty pages of a mapped file; [synced] is the result of
    [generic_file_fsync]. *)
Definition nova_fsync (h : info_header) (mapped : option (list Z)) (start endp synced : Z) : M Z :=
  let! rc := (match mapped with
    | None => ret 0
    | Some dirty =>
        let! _ := nova_reset_mapping_csum_parity h dirty (Z.shiftr start PAGE_SHIFT) (Z.shiftr (s64 (endp + 1)) PAGE_SHIFT) in ret synced
    end) in
  PERSISTENT_BARRIER ;;; ret rc.

Definition nova_flush : M Z := PERSISTENT_BARRIER ;;; ret 0.

Definition nova_update_iter_csum_parity (h : info_header) (offset count : Z) : M Z :=
  if (data_csum =? 0) && (data_parity =? 0) then ret 0
  else
    let! c := gets sbc in
    let endo := s64 (offset + count) in
    let end_pgoff := Z.shiftr endo (s_blocksize_bits c) in
    let end_pgoff := if negb (Z.land endo (nova_inode_blk_size (i_blk_type (ih_base h)) - 1) =? 0) then u64 (end_pgoff + 1) else end_pgoff in
    let! _ := nova_reset_csum_parity_range h 0 (Z.shiftr offset (s_blocksize_bits c)) end_pgoff false false in
    ret 0.

(** The segments of a vector: the total, [ki_pos] and the inode, or the first
    error. *)
Fixpoint write_segs (append : bool) (v : vnode) (segs : list (list Z * Z)) (ki_pos written now now2 : Z) : SM (Z * Z * vnode) :=
  match segs with
  | [] => sret (written, ki_pos, v)
  | (buf, len) :: segs =>
      do! r := do_nova_dax_file_write append v buf len ki_pos now now2 in
      let '(rc, ki_pos, v) := r in
      if rc <? 0 then sret (rc, ki_pos, v) else write_segs append v segs ki_pos (written + rc) now now2
  end.

Fixpoint read_segs (i : vfs_inode) (h : info_header) (segs : list (Z * Z)) (ki_pos written : Z) (out : list Z) : M (Z * list Z * Z) :=
  match segs with
  | [] => ret (written, out, ki_pos)
  | (len, w) :: segs =>
      let! r := do_dax_mapping_read i h len w ki_pos in
      let '(rc, l, ki_pos) := r in
      if rc <? 0 then ret (rc, out ++ l, ki_pos) else read_segs i h segs ki_pos (written + rc) (out ++ l)
  end.
End file_map.
