(* ===== verification/FileDataSpec.v ===== *)
(** What reads and writes of files do: a read returns the bytes of the file, the
    copy made by a write holds the file with the new bytes in place. *)

From stdpp Require Import strings.
From S2P Require Import Prelude CInt Crc32c NovaEnv RangeNode Pmem NovaState NovaMonad NovaLib.
From S2P Require Import Balloc NovaLayout PmemOps LogPage InodeMap RangeLog InodeTable Journal Crash JournalSpec JournalRecover JournalTx Checksum Parity MetaCsum MetaCsumSpec.
From S2P Require Import LogEntry Snapshot SnapshotSpec FileTree DirTree Rebuild RebuildSpec LogGc LogAppend VfsInode Namei NameiSpec FileData.

Local Open Scope nova_scope.
Local Open Scope string_scope.
Local Open Scope list_scope.
Local Open Scope Z_scope.

(** ** The bytes of a file *)

(** The fields of the write entry at [e], and the block of its page [p]. *)
Definition we_reassigned (s : nova) (e : Z) : Z := load 1 (nvmm s) (e + 1).
Definition we_num (s : nova) (e : Z) : Z := load 4 (nvmm s) (e + 4).
Definition we_block (s : nova) (e : Z) : Z := load 8 (nvmm s) (e + 8).
Definition we_pgoff (s : nova) (e : Z) : Z := load 8 (nvmm s) (e + 16).
Definition we_nvmm (s : nova) (e p : Z) : Z := Z.shiftr (we_block s e) PAGE_SHIFT + p - we_pgoff s e.

(** The byte at offset [x]: that of the page the index names, 0 in a hole. *)
Definition file_byte (s : nova) (h : info_header) (x : Z) : Z :=
  let e := nova_get_write_entry h (x / 4096) in
  if e =? 0 then 0 else mget (nvmm s) (virt_addr (sbc s) + we_nvmm s e (x / 4096) * 4096 + x mod 4096).

Definition file_bytes (s : nova) (h : info_header) (x : Z) (n : nat) : list Z := file_byte s h <$> seqZ x (Z.of_nat n).

(** An entry of the index covers its page, its blocks are on the device, and all
    pages of an entry that was never displaced belong to it. *)
Record page_ok (s : nova) (h : info_header) (p e : Z) : Prop := {
  po_entry : in_pmem s e 64 = true;
  po_covers : we_pgoff s e <= p < we_pgoff s e + we_num s e;
  po_num : 0 < we_num s e < 2 ^ 32;
  po_first : 0 < we_nvmm s e (we_pgoff s e);
  po_last : (we_nvmm s e (we_pgoff s e) + we_num s e) * 4096 <= initsize (sbc s);
  po_whole : we_reassigned s e = 0 -> forall q, we_pgoff s e <= q < we_pgoff s e + we_num s e -> nova_get_write_entry h q = e
}.

Definition file_wf (s : nova) (h : info_header) : Prop :=
  0 < virt_addr (sbc s) /\ 0 <= initsize (sbc s) < 2 ^ 60 /\
  forall p, nova_get_write_entry h p <> 0 -> page_ok s h p (nova_get_write_entry h p).

Lemma land_low12 x : Z.land x (4096 - 1) = x mod 4096.
Proof. change (4096 - 1) with (Z.ones 12). by rewrite Z.land_ones by lia. Qed.

Lemma length_file_bytes s h x n : length (file_bytes s h x n) = n.
Proof. unfold file_bytes. rewrite length_fmap, length_seqZ. lia. Qed.

Lemma lookup_file_bytes s h x n k : (k < n)%nat -> file_bytes s h x n !! k = Some (file_byte s h (x + Z.of_nat k)).
Proof. intros Hk. unfold file_bytes. rewrite list_lookup_fmap, lookup_seqZ_lt by lia. done. Qed.

Lemma file_bytes_app s h x n k : file_bytes s h x (n + k) = file_bytes s h x n ++ file_bytes s h (x + Z.of_nat n) k.
Proof. unfold file_bytes. rewrite Nat2Z.inj_add, seqZ_app by lia. by rewrite fmap_app. Qed.

Lemma hole_bytes s h p o n :
  nova_get_write_entry h p = 0 -> 0 <= o -> o + Z.of_nat n <= 4096 -> file_bytes s h (p * 4096 + o) n = replicate n 0.
Proof.
  intros Ee Ho Hn. apply list_eq_same_length with n; [by rewrite length_replicate|by rewrite length_file_bytes|].
  intros k x y Hk Ex Ey. rewrite lookup_file_bytes in Ex by done. apply lookup_replicate in Ey as [-> _]. injection Ex as <-.
  unfold file_byte. assert ((p * 4096 + o + Z.of_nat k) / 4096 = p) as -> by (symmetry; apply (Z.div_unique _ _ _ (o + Z.of_nat k)); lia).
  by rewrite Ee.
Qed.

Section read.
Context `{NovaEnv, RbLib, MediaLib, KmallocLib, RadixLib, ParityEnv, VfsLib, UserLib} {UO : UserLibOk H6}.
Context (Hmeta : metadata_csum = 0) (Hdata : data_csum = 0).

(** What a read needs of an entry. *)
Lemma file_entry_run s h p e :
  page_ok s h p e ->
  verified_entry e s = Ok (Some (InPlace e)) s /\
  entryc_field nova_file_write_entry (InPlace e) "pgoff" s = Ok (we_pgoff s e) s /\
  entryc_field nova_file_write_entry (InPlace e) "num_pages" s = Ok (we_num s e) s /\
  entryc_field nova_file_write_entry (InPlace e) "reassigned" s = Ok (we_reassigned s e) s /\
  entryc_whole (InPlace e) s = Ok (load_bytes (nvmm s) e 64) s.
Proof.
  intros P. pose proof (po_entry _ _ _ _ P) as Hp.
  split_and!.
  - unfold verified_entry. by rewrite Hmeta.
  - by rewrite (entry_field nova_file_write_entry s e "pgoff" 64 Hp).
  - by rewrite (entry_field nova_file_write_entry s e "num_pages" 64 Hp).
  - by rewrite (entry_field nova_file_write_entry s e "reassigned" 64 Hp).
  - unfold entryc_whole, entryc_bytes, pload_bytes. rewrite Z.add_0_r.
    change (Z.to_nat (sizeof nova_file_write_entry)) with 64%nat. by rewrite Hp.
Qed.

Lemma get_nvmm_load s h p e :
  file_wf s h -> page_ok s h p e -> get_nvmm (load_bytes (nvmm s) e 64) p = we_nvmm s e p.
Proof.
  intros (Hv & Hi & _) [Hp Hc Hn Hf Hl _]. unfold get_nvmm.
  change (Z.to_nat (offsetof nova_file_write_entry "block")) with 8%nat.
  change (sizeof_field nova_file_write_entry "block") with 8%nat.
  change (Z.to_nat (offsetof nova_file_write_entry "pgoff")) with 16%nat.
  change (sizeof_field nova_file_write_entry "pgoff") with 8%nat.
  rewrite !drop_load_bytes, !take_load_bytes by lia.
  change (le_val (load_bytes (nvmm s) (e + Z.of_nat 8) 8)) with (we_block s e).
  change (le_val (load_bytes (nvmm s) (e + Z.of_nat 16) 8)) with (we_pgoff s e).
  fold (we_nvmm s e p). apply uwrap_small. unfold we_nvmm in *. lia.
Qed.

(** The pages of a run of one entry. *)
Lemma run_bytes s h p e o n :
  file_wf s h -> nova_get_write_entry h p = e -> e <> 0 -> page_ok s h p e -> 0 <= o < 4096 -> 0 <= p ->
  (forall q, p <= q < p + (o + Z.of_nat n + 4095) / 4096 -> nova_get_write_entry h q = e) ->
  load_bytes (nvmm s) (virt_addr (sbc s) + we_nvmm s e p * 4096 + o) n = file_bytes s h (p * 4096 + o) n.
Proof.
  intros W Ee He P Ho Hp Hr. apply list_eq_same_length with n; [by rewrite length_file_bytes|by rewrite length_load_bytes|].
  intros k x y Hk Ex Ey. rewrite lookup_load_bytes in Ex by done. rewrite lookup_file_bytes in Ey by done.
  injection Ex as <-. injection Ey as <-. unfold file_byte. set (z := p * 4096 + o + Z.of_nat k).
  pose proof (Z.div_mod z 4096 ltac:(lia)). pose proof (Z.mod_pos_bound z 4096 ltac:(lia)).
  pose proof (Z.div_mod (o + Z.of_nat n + 4095) 4096 ltac:(lia)). pose proof (Z.mod_pos_bound (o + Z.of_nat n + 4095) 4096 ltac:(lia)).
  rewrite (Hr (z / 4096)) by lia. rewrite (proj2 (Z.eqb_neq _ _)) by done. f_equal. unfold we_nvmm. lia.
Qed.

(** What the page cache of the kernel has no part in: the data at a page. *)
Lemma nvmm_addr s h p e :
  file_wf s h -> page_ok s h p e -> nova_get_block s (u64 (Z.shiftl (we_nvmm s e p) PAGE_SHIFT)) = virt_addr (sbc s) + we_nvmm s e p * 4096.
Proof.
  intros (Hv & Hi & _) [Hp Hc Hn Hf Hl _]. unfold PAGE_SHIFT. rewrite Z.shiftl_mul_pow2 by lia. change (2 ^ 12) with 4096.
  unfold we_nvmm in *. rewrite uwrap_small by lia. unfold nova_get_block. by rewrite (proj2 (Z.eqb_neq _ _)) by lia.
Qed.

Lemma read_source_run s h p o :
  file_wf s h -> 0 <= p -> 0 <= o < 4096 ->
  exists nr nv, read_source h p s = Ok (inr (nr, nv)) s /\ 4096 <= nr < 2 ^ 45 /\
    forall n, 0 <= n <= nr - o -> read_data nv o n s = Ok (file_bytes s h (p * 4096 + o) (Z.to_nat n)) s.
Proof.
  intros W Hp Ho. unfold read_source. destruct (nova_get_write_entry h p =? 0) eqn:Ee.
  - apply Z.eqb_eq in Ee. exists 4096, None. split_and!; [done|lia|lia|]. intros n Hn. cbn [read_data]. unfold ret. f_equal.
    symmetry. apply hole_bytes; [done|lia|lia].
  - apply Z.eqb_neq in Ee. pose proof W as (Hv & Hi & Wp). pose proof (Wp p Ee) as P. set (e := nova_get_write_entry h p) in *.
    destruct (file_entry_run s h p e P) as (E1 & E2 & E3 & E4 & E5).
    rewrite (bind_ok _ _ _ _ _ E1), (bind_ok _ _ _ _ _ E2), (bind_ok _ _ _ _ _ E3).
    pose proof (po_covers _ _ _ _ P). pose proof (po_num _ _ _ _ P). pose proof (po_first _ _ _ _ P). pose proof (po_last _ _ _ _ P).
    rewrite (proj2 (Z.ltb_ge _ _)), (proj2 (Z.leb_gt _ _)) by lia. cbn [orb].
    rewrite (bind_ok _ _ _ _ _ E4), (bind_ok _ _ _ _ _ E5), (get_nvmm_load s h p e W P).
    unfold PAGE_SIZE. rewrite (uwrap_small 64) by lia.
    eexists _, _. split; [reflexivity|]. split; [destruct (we_reassigned s e =? 0); lia|].
    intros n Hn. cbn [read_data]. rewrite (bind_ok _ _ s (nova_get_block s (u64 (Z.shiftl (we_nvmm s e p) PAGE_SHIFT))) s) by done.
    rewrite (nvmm_addr s h p e W P).
    unfold pload_bytes.
    assert (forall q, p <= q < p + (o + n + 4095) / 4096 -> nova_get_write_entry h q = e) as Hr.
    { intros q Hq. pose proof (Z.div_mod (o + n + 4095) 4096 ltac:(lia)). pose proof (Z.mod_pos_bound (o + n + 4095) 4096 ltac:(lia)).
      destruct (we_reassigned s e =? 0) eqn:Er.
      - apply Z.eqb_eq in Er. apply (po_whole _ _ _ _ P Er). lia.
      - by replace q with p by lia. }
    assert (p + (o + n + 4095) / 4096 <= we_pgoff s e + we_num s e) as Hend.
    { pose proof (Z.div_mod (o + n + 4095) 4096 ltac:(lia)). pose proof (Z.mod_pos_bound (o + n + 4095) 4096 ltac:(lia)).
      destruct (we_reassigned s e =? 0); lia. }
    pose proof (Z.div_mod (o + n + 4095) 4096 ltac:(lia)). pose proof (Z.mod_pos_bound (o + n + 4095) 4096 ltac:(lia)).
    assert (in_pmem s (virt_addr (sbc s) + we_nvmm s e p * 4096 + o) (Z.to_nat n) = true) as ->.
    { apply in_pmem_spec. rewrite Z2Nat.id by lia. unfold we_nvmm in *. lia. }
    f_equal. apply run_bytes; try done. by rewrite Z2Nat.id by lia.
Qed.

Lemma read_loop_run s h isize len w pos fuel index offset out :
  file_wf s h -> isize < 2 ^ 60 -> len <= w -> 0 <= pos -> pos + len <= isize ->
  out = file_bytes s h pos (length out) -> 0 <= offset < 4096 -> 0 <= index ->
  index * 4096 + offset = pos + Z.of_nat (length out) -> Z.of_nat (length out) < len ->
  (Z.to_nat len - length out <= fuel)%nat ->
  read_loop fuel h isize len w index offset out s = Ok (inr (0, file_bytes s h pos (Z.to_nat len))) s.
Proof.
  intros W Hi Hw Hpos Hlen. pose proof W as (Hv & Hsz & Wp).
  revert index offset out. induction fuel as [|fuel IH]; intros index offset out Eo Ho Hx Ex Hl Hf; [lia|]. cbn [read_loop].
  unfold PAGE_SHIFT, PAGE_SIZE. rewrite Z.shiftr_div_pow2 by lia. change (2 ^ 12) with 4096.
  rewrite land_low12. pose proof (Z.div_mod (isize - 1) 4096 ltac:(lia)). pose proof (Z.mod_pos_bound (isize - 1) 4096 ltac:(lia)).
  rewrite (proj2 (Z.ltb_ge _ _)) by lia. cbn [orb].
  assert ((index =? (isize - 1) / 4096) && ((isize - 1) mod 4096 + 1 <=? offset) = false) as ->.
  { apply andb_false_iff. destruct (decide (index = (isize - 1) / 4096)); [right; apply Z.leb_gt|left; apply Z.eqb_neq]; lia. }
  destruct (read_source_run s h index offset W Hx Ho) as (nr & nv & E1 & Hnr & Hd). rewrite (bind_ok _ _ _ _ _ E1).
  rewrite (uwrap_small 64 (nr - offset)) by lia. set (copied := Z.of_nat (length out)) in *.
  set (n := if len - copied <? nr - offset then len - copied else nr - offset).
  assert (0 < n <= nr - offset /\ n <= len - copied) as [Hn Hn2] by (unfold n; destruct (len - copied <? nr - offset) eqn:E; [apply Z.ltb_lt in E|apply Z.ltb_ge in E]; lia).
  rewrite (bind_ok _ _ _ true s) by (rewrite Hdata; by destruct nv). cbn [negb].
  rewrite (copy_to_all _ n) by lia. rewrite (bind_ok _ _ _ _ _ (Hd n ltac:(lia))). rewrite Z.eqb_refl. cbn [negb].
  rewrite Ex, (uwrap_small 64 (offset + n)) by lia.
  assert (out ++ file_bytes s h (pos + copied) (Z.to_nat n) = file_bytes s h pos (length out + Z.to_nat n)) as ->
    by (rewrite file_bytes_app, <- Eo; done).
  rewrite length_file_bytes.
  pose proof (Z.div_mod (offset + n) 4096 ltac:(lia)). pose proof (Z.mod_pos_bound (offset + n) 4096 ltac:(lia)).
  destruct (Z.ltb_spec (Z.of_nat (length out + Z.to_nat n)) len) as [Hlt|Hge].
  - rewrite Z.shiftr_div_pow2, land_low12 by lia. change (2 ^ 12) with 4096. rewrite (uwrap_small 64 (index + (offset + n) / 4096)) by lia.
    apply IH; rewrite ?length_file_bytes; try done; try lia.
  - by replace (length out + Z.to_nat n)%nat with (Z.to_nat len) by lia.
Qed.

(** C5: reading [len] bytes at [pos], with a buffer that can be written,
    returns and stores exactly the bytes of the file in that range, cut at the end
    of the file, zeros in holes, whatever entries of the log the pages come
    from and whether they were displaced in part; it moves the position by the
    number of bytes and changes nothing. *)
Theorem do_dax_mapping_read_correct s i h len w pos :
  let n := Z.to_nat (Z.min len (vi_size i - pos)) in
  file_wf s h -> access_ok len = true -> 0 <= len <= w -> len < 2 ^ 63 -> 0 <= pos < 2 ^ 60 -> 0 <= vi_size i < 2 ^ 60 ->
  do_dax_mapping_read i h len w pos s = Ok (Z.of_nat n, file_bytes s h pos n, pos + Z.of_nat n) s.
Proof.
  intros n W Hok Hlen Hmax Hpos Hs. unfold do_dax_mapping_read. rewrite Hok. cbn [negb].
  assert (n = 0%nat -> Ok (Z.of_nat n, file_bytes s h pos n, pos + Z.of_nat n) s = Ok (0, [], pos) s) as Hz
    by (intros ->; by rewrite Z.add_0_r).
  destruct (Z.eqb_spec (vi_size i) 0) as [Ez|Hnz].
  { rewrite Hz by lia. unfold ret. cbn [length Z.of_nat Z.eqb negb]. by rewrite Z.add_0_r. }
  destruct (decide (vi_size i < pos)) as [Hbig|Hin].
  - (* beyond the end *)
    rewrite Hz by lia.
    assert (u64 (vi_size i - pos) = vi_size i - pos + 2 ^ 64) as -> by (symmetry; apply (Z.mod_unique _ _ (-1)); lia).
    rewrite (proj2 (Z.ltb_ge _ _)) by lia.
    destruct (Z.eqb_spec len 0) as [E0|N0]; [unfold ret; by rewrite Z.add_0_r|].
    destruct (Z.to_nat len) as [|fuel] eqn:Ef; [lia|]. cbn [read_loop].
    unfold PAGE_SHIFT, PAGE_SIZE. rewrite !Z.shiftr_div_pow2 by lia. change (2 ^ 12) with 4096.
    rewrite !land_low12. pose proof (Z.div_mod (vi_size i - 1) 4096 ltac:(lia)). pose proof (Z.mod_pos_bound (vi_size i - 1) 4096 ltac:(lia)).
    pose proof (Z.div_mod pos 4096 ltac:(lia)). pose proof (Z.mod_pos_bound pos 4096 ltac:(lia)).
    rewrite (bind_ok _ _ _ (inr (0, [])) s); [unfold ret; by rewrite Z.add_0_r|].
    assert (((vi_size i - 1) / 4096 <? pos / 4096) || (pos / 4096 =? (vi_size i - 1) / 4096) && ((vi_size i - 1) mod 4096 + 1 <=? pos mod 4096) = true) as ->; [|done].
    destruct (decide (pos / 4096 = (vi_size i - 1) / 4096)) as [E|N].
    + rewrite (proj2 (Z.eqb_eq _ _) E), (proj2 (Z.leb_le _ _)) by lia. apply orb_true_r.
    + rewrite (proj2 (Z.ltb_lt _ _)) by lia. done.
  - rewrite (uwrap_small 64) by lia.
    set (L := if vi_size i - pos <? len then vi_size i - pos else len).
    assert (L = Z.min len (vi_size i - pos)) as EL by (unfold L; destruct (Z.ltb_spec (vi_size i - pos) len); lia).
    destruct (Z.eqb_spec L 0) as [E0|N0]; [rewrite Hz by lia; unfold ret; by rewrite Z.add_0_r|].
    unfold PAGE_SHIFT, PAGE_SIZE. rewrite land_low12. rewrite Z.shiftr_div_pow2 by lia. change (2 ^ 12) with 4096.
    pose proof (Z.div_mod pos 4096 ltac:(lia)). pose proof (Z.mod_pos_bound pos 4096 ltac:(lia)).
    assert (0 <= pos / 4096) by (apply Z.div_pos; lia).
    rewrite (bind_ok _ _ _ (inr (0, file_bytes s h pos (Z.to_nat L))) s)
      by (apply read_loop_run; try done; cbn [length]; lia).
    rewrite length_file_bytes, (proj2 (Z.eqb_neq _ _)) by lia. cbn [negb]. unfold n. by rewrite <- EL.
Qed.
End read.

(** ** Stores that wait for a fence *)

(** Every store is non-temporal or its lines are written back later. *)
Definition staged (evs : list pm_event) : Prop :=
  forall i ev w, w mod 8 = 0 -> evs !! i = Some ev -> touches ev w ->
    non_temporal ev \/ exists f fe, (i < f)%nat /\ evs !! f = Some fe /\ flushes fe w.

Lemma staged_app e1 e2 : staged e1 -> staged e2 -> staged (e1 ++ e2).
Proof.
  intros S1 S2 i ev w Hw Ei T. apply lookup_app_Some in Ei as [Ei|[Hi Ei]].
  - destruct (S1 i ev w Hw Ei T) as [?|(f & fe & Hf & Ef & Hfl)]; [by left|right].
    exists f, fe. split_and!; [done|by apply lookup_app_l_Some|done].
  - destruct (S2 _ ev w Hw Ei T) as [?|(f & fe & Hf & Ef & Hfl)]; [by left|right].
    exists (length e1 + f)%nat, fe. split_and!; [lia| |done]. rewrite lookup_app_r by lia.
    by replace (length e1 + f - length e1)%nat with f by lia.
Qed.

Lemma staged_fence evs : staged evs -> durable (evs ++ [EvFence]).
Proof.
  intros S i ev w Hw Ei T. apply lookup_app_Some in Ei as [Ei|[_ Ei]].
  2: { apply list_lookup_singleton_Some in Ei as [_ <-]. by destruct T as (x & _ & []). }
  exists ev. split_and!; [by apply lookup_app_l_Some|done|].
  assert ((evs ++ [EvFence]) !! length evs = Some EvFence) as Hg by (rewrite lookup_app_r, Nat.sub_diag by lia; done).
  pose proof (lookup_lt_Some _ _ _ Ei).
  destruct (S i ev w Hw Ei T) as [Hn|(f & fe & Hf & Ef & Hfl)]; [right; split; [done|by exists (length evs)]|left].
  pose proof (lookup_lt_Some _ _ _ Ef). exists f, (length evs), fe. split_and!; [lia|lia|by apply lookup_app_l_Some|done|done].
Qed.

Lemma staged_nt a l : staged [EvNtStore a l].
Proof. intros i ev w _ Ei _. apply list_lookup_singleton_Some in Ei as [_ <-]. by left. Qed.

Lemma staged_nil : staged [].
Proof. by intros i ev w _ Ei. Qed.

Section copy.
Context `{NovaEnv, RbLib, MediaLib, KmallocLib, RadixLib, ParityEnv, VfsLib, UserLib} {UO : UserLibOk H6}.
Context (Hmeta : metadata_csum = 0) (Hmedia : forall t a, poisoned t a = false).

(** Bytes put into a new block beside the data of a write. *)
Definition fill_events (a : Z) (l : list Z) : list pm_event :=
  if support_clwb =? 0 then [EvNtStore a l] else EvStore a l :: flush_buffer_events a (Z.of_nat (length l)) false.

Lemma fill_applied m a l : apply_evs m (fill_events a l) = store_bytes m a l.
Proof.
  unfold fill_events. destruct (support_clwb =? 0); [done|]. cbn [apply_evs foldl apply_ev].
  apply (apply_no_store (store_bytes m a l)), flush_buffer_no_store.
Qed.

Lemma fill_staged a l : staged (fill_events a l).
Proof.
  unfold fill_events. destruct (support_clwb =? 0); [apply staged_nt|].
  intros i ev w Hw Ei (x & Hx & Hwr). destruct i as [|i]; cbn in Ei.
  - injection Ei as <-. right. cbn [writes] in Hwr.
    destruct (flush_buffer_events_cover a (Z.of_nat (length l)) false x) as (kd & f & Hf & Ef); [lia|].
    apply list_elem_of_lookup in Hf as [j Ej]. exists (S j), (EvFlush kd f). split_and!; [lia|done|]. cbn [flushes]. rewrite Ef.
    pose proof (Z.div_mod w 8 ltac:(lia)). pose proof (Z.div_mod x 64 ltac:(lia)). pose proof (Z.mod_pos_bound x 64 ltac:(lia)).
    pose proof (Z.div_mod w 64 ltac:(lia)). pose proof (Z.mod_pos_bound w 64 ltac:(lia)). lia.
  - exfalso. pose proof (flush_buffer_no_store a (Z.of_nat (length l)) false) as F. rewrite Forall_lookup in F.
    specialize (F _ _ Ei). by destruct ev.
Qed.

Lemma fill_writes a l ev x : ev ∈ fill_events a l -> writes ev x -> a <= x < a + Z.of_nat (length l).
Proof.
  unfold fill_events. destruct (support_clwb =? 0).
  - by intros ->%list_elem_of_singleton.
  - intros [->|Hin]%elem_of_cons; [done|]. pose proof (flush_buffer_no_store a (Z.of_nat (length l)) false) as F.
    rewrite Forall_forall in F. specialize (F _ Hin). by destruct ev.
Qed.

(** Events in a window without write protection. *)
Definition window (s : nova) (evs : list pm_event) : nova := locked (pm_step (unlocked s) evs).

Lemma window_window s e1 e2 : window (window s e1) e2 = window s (e1 ++ e2).
Proof.
  unfold window, locked, unlocked. rewrite <- (pm_step_app _ e1 e2). destruct (is_protected s) eqn:E;
    repeat (match goal with |- context [is_protected ?x] => change (is_protected x) with (is_protected s) end; rewrite E); done.
Qed.

(** The device has 4 KB blocks and lies below the top of the address space. *)
Record geo4k (s : nova) : Prop := {
  g4_size : s_blocksize (sbc s) = 4096;
  g4_bits : s_blocksize_bits (sbc s) = 12;
  g4_top : virt_addr (sbc s) + initsize (sbc s) < 2 ^ 64
}.

Lemma geo4k_sbc s s' : sbc s' = sbc s -> geo4k s -> geo4k s'.
Proof. intros E []. split; by rewrite E. Qed.

Lemma page_ok_ext s s' h p e : sbc s' = sbc s -> nvmm s' = nvmm s -> page_ok s h p e -> page_ok s' h p e.
Proof.
  intros Es En [Pe Pc Pn Pf Pl Pw]. destruct s, s'. cbn in Es, En. subst. split; assumption.
Qed.

Lemma file_wf_ext s s' h : sbc s' = sbc s -> nvmm s' = nvmm s -> file_wf s h -> file_wf s' h.
Proof. intros Es En (Hv & Hi & Wp). unfold file_wf. rewrite Es. split_and!; [done|lia|lia|]. intros p Hp. by apply (page_ok_ext s), Wp. Qed.

Lemma file_byte_ext s s' h x : sbc s' = sbc s -> nvmm s' = nvmm s -> file_byte s' h x = file_byte s h x.
Proof. intros Es En. unfold file_byte, we_nvmm, we_block, we_pgoff. by rewrite Es, En. Qed.

Lemma file_bytes_ext s s' h x n : sbc s' = sbc s -> nvmm s' = nvmm s -> file_bytes s' h x n = file_bytes s h x n.
Proof. intros Es En. apply list_fmap_ext. intros k y _. by apply file_byte_ext. Qed.

(** A piece of one page of the file. *)
Lemma piece_bytes s h p e o n :
  file_wf s h -> nova_get_write_entry h p = e -> e <> 0 -> 0 <= o -> o + Z.of_nat n <= 4096 -> 0 <= p ->
  page_ok s h p e /\ in_pmem s (virt_addr (sbc s) + we_nvmm s e p * 4096 + o) n = true /\
  load_bytes (nvmm s) (virt_addr (sbc s) + we_nvmm s e p * 4096 + o) n = file_bytes s h (p * 4096 + o) n.
Proof.
  intros W Ee He Ho Hn Hp. pose proof W as (Hv & Hi & Wp). assert (page_ok s h p e) as P by (subst e; by apply Wp).
  pose proof (po_covers _ _ _ _ P). pose proof (po_first _ _ _ _ P). pose proof (po_last _ _ _ _ P). split_and!; [done| |].
  - apply in_pmem_spec. unfold we_nvmm in *. lia.
  - destruct n as [|n]; [done|]. apply run_bytes; try done; [lia|]. intros q Hq.
    pose proof (Z.div_mod (o + Z.of_nat (S n) + 4095) 4096 ltac:(lia)). pose proof (Z.mod_pos_bound (o + Z.of_nat (S n) + 4095) 4096 ltac:(lia)).
    by replace q with p by lia.
Qed.

(** The end of [nova_handle_partial_block]. *)
Lemma partial_finish s s1 a l kmem :
  s1 = pm_step (unlocked s) [if support_clwb =? 0 then EvNtStore a l else EvStore a l] -> geo4k s -> Z.of_nat (length l) <= 4096 ->
  (nova_memlock_block kmem ;;;
   (if negb (support_clwb =? 0) then nova_flush_buffer a (u32 (Z.of_nat (length l))) false else ret tt) ;;; ret 0) s1
  = Ok 0 (window s (fill_events a l)).
Proof.
  intros -> G Hl. unfold nova_memlock_block.
  rewrite (bind_ok _ _ _ tt (locked (pm_step (unlocked s) [if support_clwb =? 0 then EvNtStore a l else EvStore a l])))
    by apply memlock_run.
  unfold fill_events, window. destruct (support_clwb =? 0); cbn [negb]; [done|].
  rewrite (uwrap_small 32) by lia. rewrite (bind_ok _ _ _ tt _ (nova_flush_buffer_step a (Z.of_nat (length l)) false _ ltac:(lia) ltac:(lia))).
  unfold ret. f_equal. change (EvStore a l :: flush_buffer_events a (Z.of_nat (length l)) false)
    with ([EvStore a l] ++ flush_buffer_events a (Z.of_nat (length l)) false).
  rewrite <- pm_step_app. set (y := pm_step (unlocked s) [EvStore a l]). set (X := flush_buffer_events _ _ _). unfold locked.
  change (is_protected (pm_step y X)) with (is_protected y). by destruct (is_protected y).
Qed.

Lemma partial_run s h index off len kmem :
  file_wf s h -> geo4k s -> 0 <= index -> 0 <= off -> 0 <= len -> off + len <= 4096 ->
  in_pmem s kmem 4096 = true ->
  nova_handle_partial_block (nova_get_write_entry h index) index off len kmem s
  = Ok 0 (window s (fill_events (kmem + off) (file_bytes s h (index * 4096 + off) (Z.to_nat len)))).
Proof.
  intros W G Hi Ho Hl Hol Hk. unfold nova_handle_partial_block. pose proof W as (Hv & Hsz & Wp).
  pose proof (proj1 (in_pmem_spec _ _ _) Hk) as Hk'. pose proof (g4_size s G). pose proof (g4_top s G).
  set (L := file_bytes s h (index * 4096 + off) (Z.to_nat len)).
  assert (Z.of_nat (length L) = len) as EL by (unfold L; rewrite length_file_bytes; lia).
  rewrite (bind_ok _ _ _ tt (unlocked s)).
  2: { unfold nova_memunlock_block. rewrite (bind_ok _ _ s 4096 s) by (by rewrite <- (g4_size s G)). apply memunlock_run; lia. }
  assert (forall ev, pstore_bytes ev (kmem + off) L (unlocked s) = Ok tt (pm_write ev (kmem + off) L (unlocked s))) as Est.
  { intros ev. apply pstore_bytes_run; [|apply writable_unlocked]. rewrite (in_pmem_sbc s) by apply unlocked_sbc.
    eapply in_pmem_sub; [exact Hk|lia|lia]. }
  destruct (Z.eqb_spec (nova_get_write_entry h index) 0) as [E0|N0].
  - assert (replicate (Z.to_nat len) 0 = L) as -> by (symmetry; apply hole_bytes; [done|lia|lia]).
    rewrite (bind_ok _ _ _ tt (pm_step (unlocked s) [if support_clwb =? 0 then EvNtStore (kmem + off) L else EvStore (kmem + off) L])).
    + rewrite <- EL. by apply partial_finish; [|done|lia].
    + unfold memcpy_to_pmem_nocache. destruct (support_clwb =? 0); cbn [negb]; [|by rewrite Est].
      rewrite (bind_ok _ _ _ 0 (pm_step (unlocked s) [EvNtStore (kmem + off) L])); [done|]. by rewrite (bind_ok _ _ _ _ _ (Est EvNtStore)).
  - set (e := nova_get_write_entry h index) in *.
    destruct (piece_bytes s h index e off (Z.to_nat len) W eq_refl N0 Ho ltac:(lia) Hi) as (P & Hin & Eb). fold L in Eb.
    assert (page_ok (unlocked s) h index e) as Pu by (apply (page_ok_ext s); [apply unlocked_sbc|apply unlocked_nvmm|done]).
    assert (file_wf (unlocked s) h) as Wu by (apply (file_wf_ext s); [apply unlocked_sbc|apply unlocked_nvmm|done]).
    destruct (file_entry_run Hmeta (unlocked s) h index e Pu) as (E1 & _ & _ & _ & E5).
    rewrite (bind_ok _ _ _ _ _ E1).
    rewrite (bind_ok _ _ _ 0 (pm_step (unlocked s) [if support_clwb =? 0 then EvNtStore (kmem + off) L else EvStore (kmem + off) L])).
    { rewrite <- EL. by apply partial_finish; [|done|lia]. }
    unfold nova_copy_partial_block. rewrite (bind_ok _ _ _ _ _ E5), (get_nvmm_load _ h index e Wu Pu).
    assert (we_nvmm (unlocked s) e index = we_nvmm s e index) as En by (unfold we_nvmm, we_block, we_pgoff; by rewrite unlocked_nvmm).
    rewrite (bind_ok _ _ _ (virt_addr (sbc s) + we_nvmm s e index * 4096) (unlocked s)).
    2: { unfold gets. f_equal. rewrite (nvmm_addr _ h index e Wu Pu). by rewrite unlocked_sbc, En. }
    pose proof (proj1 (in_pmem_spec _ _ _) Hin).
    assert (pload_bytes (Z.to_nat len) (virt_addr (sbc s) + we_nvmm s e index * 4096 + off) (unlocked s) = Ok L (unlocked s)) as El.
    { unfold pload_bytes. rewrite (in_pmem_sbc s), Hin by apply unlocked_sbc. by rewrite unlocked_nvmm, Eb. }
    pose proof (po_covers _ _ _ _ P). pose proof (po_first _ _ _ _ P).
    rewrite (proj2 (Z.eqb_neq _ _)) by (unfold we_nvmm in *; lia).
    destruct (support_clwb =? 0); cbn [negb].
    + rewrite (bind_ok _ _ _ _ _ El). unfold memcpy_to_pmem_nocache.
      rewrite (bind_ok _ _ _ 0 (pm_step (unlocked s) [EvNtStore (kmem + off) L])); [done|]. by rewrite (bind_ok _ _ _ _ _ (Est EvNtStore)).
    + unfold mcsafe_pmem. rewrite (bind_ok _ _ (unlocked s) (trace (unlocked s)) (unlocked s)) by done.
      assert (unreadable (trace (unlocked s)) (virt_addr (sbc s) + we_nvmm s e index * 4096 + off) (Z.to_nat len) = false) as ->.
      { apply unreadable_false. intros y _. apply Hmedia. }
      rewrite (bind_ok _ _ _ _ _ El). by rewrite (bind_ok _ _ _ _ _ (Est EvStore)).
Qed.

(** ** The copy made by a write *)

(** No page of the file and no entry of its index meets [a, a + n). *)
Definition fresh (s : nova) (h : info_header) (a n : Z) : Prop :=
  forall p, let e := nova_get_write_entry h p in e <> 0 ->
    (e + 64 <= a \/ a + n <= e) /\
    (virt_addr (sbc s) + we_nvmm s e p * 4096 + 4096 <= a \/ a + n <= virt_addr (sbc s) + we_nvmm s e p * 4096).

Lemma file_kept s s' h a n :
  sbc s' = sbc s -> (forall x, ~ (a <= x < a + n) -> mget (nvmm s') x = mget (nvmm s) x) -> fresh s h a n -> file_wf s h ->
  file_wf s' h /\ forall x, file_byte s' h x = file_byte s h x.
Proof.
  intros Es Em F W. pose proof W as (Hv & Hi & Wp).
  assert (forall p, nova_get_write_entry h p <> 0 -> forall k o, 0 <= o -> o + Z.of_nat k <= 64 ->
    load k (nvmm s') (nova_get_write_entry h p + o) = load k (nvmm s) (nova_get_write_entry h p + o)) as Hl.
  { intros p Hp k o Ho Hk. apply load_ext. intros x Hx. apply Em. destruct (F p Hp) as [F1 _]. lia. }
  assert (forall p, nova_get_write_entry h p <> 0 -> let e := nova_get_write_entry h p in
    we_reassigned s' e = we_reassigned s e /\ we_num s' e = we_num s e /\ we_block s' e = we_block s e /\ we_pgoff s' e = we_pgoff s e) as Hf.
  { intros p Hp e. unfold we_reassigned, we_num, we_block, we_pgoff, e. rewrite !(Hl p Hp) by (cbn; lia). done. }
  split.
  - unfold file_wf. rewrite Es. split_and!; [done|lia|lia|]. intros p Hp. destruct (Hf p Hp) as (E1 & E2 & E3 & E4).
    destruct (Wp p Hp) as [Pe Pc Pn Pf Pl Pw]. unfold we_nvmm in *.
    split; unfold we_nvmm; rewrite ?E1, ?E2, ?E3, ?E4, ?Es; try done. by rewrite (in_pmem_sbc s).
  - intros x. unfold file_byte. destruct (Z.eqb_spec (nova_get_write_entry h (x / 4096)) 0) as [E0|N0]; [done|].
    destruct (Hf _ N0) as (E1 & E2 & E3 & E4). unfold we_nvmm. rewrite E3, E4, Es. apply Em. destruct (F _ N0) as [_ F2].
    pose proof (Z.mod_pos_bound x 4096 ltac:(lia)). unfold we_nvmm in F2. lia.
Qed.

(** The state after events in a window, if there are any. *)
Definition after (s : nova) (evs : list pm_event) : nova := match evs with [] => s | _ => window s evs end.

Lemma window_sbc s evs : sbc (window s evs) = sbc s.
Proof. unfold window, locked. rewrite <- (unlocked_sbc s). by destruct (is_protected _). Qed.
Lemma window_nvmm s evs : nvmm (window s evs) = apply_evs (nvmm s) evs.
Proof. unfold window, locked. rewrite <- (unlocked_nvmm s). by destruct (is_protected _). Qed.
Lemma after_sbc s evs : sbc (after s evs) = sbc s.
Proof. destruct evs; [done|apply window_sbc]. Qed.
Lemma after_nvmm s evs : nvmm (after s evs) = apply_evs (nvmm s) evs.
Proof. destruct evs; [done|apply window_nvmm]. Qed.
Lemma window_after s e1 e2 : window (after s e1) e2 = window s (e1 ++ e2).
Proof. destruct e1; [done|apply window_window]. Qed.
Lemma fill_nonempty s a l e : after s (e ++ fill_events a l) = window s (e ++ fill_events a l).
Proof. unfold fill_events. destruct e; [|done]. by destruct (support_clwb =? 0). Qed.

Definition head_events (s : nova) (h : info_header) (pos kmem : Z) : list pm_event :=
  if pos mod 4096 =? 0 then [] else fill_events kmem (file_bytes s h (pos / 4096 * 4096) (Z.to_nat (pos mod 4096))).
Definition copy_blocks (pos bytes : Z) : Z := (pos mod 4096 + bytes + 4095) / 4096.
Definition tail_fill (s : nova) (h : info_header) (pos bytes kmem : Z) : list pm_event :=
  let eo := (pos + bytes) mod 4096 in
  let k := copy_blocks pos bytes - 1 in
  if eo =? 0 then []
  else fill_events (kmem + k * 4096 + eo) (file_bytes s h ((pos / 4096 + k) * 4096 + eo) (Z.to_nat (4096 - eo))).

Lemma store_outside a n m evs x :
  (forall ev y, ev ∈ evs -> writes ev y -> a <= y < a + n) -> ~ (a <= x < a + n) -> mget (apply_evs m evs) x = mget m x.
Proof. intros Hw Hx. apply apply_evs_unwritten. apply Forall_forall. intros ev Hev Hwr. by apply Hx, (Hw ev). Qed.

Lemma copy_arith pos bytes :
  0 <= pos -> 0 < bytes ->
  let o := pos mod 4096 in let K := copy_blocks pos bytes in let eo := (pos + bytes) mod 4096 in
  0 <= o < 4096 /\ 0 <= eo < 4096 /\ 1 <= K /\ (K - 1) * 4096 < o + bytes <= K * 4096 /\
  (eo <> 0 -> o + bytes = (K - 1) * 4096 + eo) /\ (eo = 0 -> o + bytes = K * 4096).
Proof.
  intros Hp Hb. cbn zeta. unfold copy_blocks.
  pose proof (Z.div_mod pos 4096 ltac:(lia)). pose proof (Z.mod_pos_bound pos 4096 ltac:(lia)).
  pose proof (Z.div_mod (pos + bytes) 4096 ltac:(lia)). pose proof (Z.mod_pos_bound (pos + bytes) 4096 ltac:(lia)).
  pose proof (Z.div_mod (pos mod 4096 + bytes + 4095) 4096 ltac:(lia)).
  pose proof (Z.mod_pos_bound (pos mod 4096 + bytes + 4095) 4096 ltac:(lia)). lia.
Qed.

Lemma blocks_touched_eq s pos bytes :
  geo4k s -> 0 <= pos -> 0 < bytes < 2 ^ 60 -> blocks_touched (sbc s) pos bytes = copy_blocks pos bytes.
Proof.
  intros G Hp Hb. unfold blocks_touched, copy_blocks. rewrite (g4_size s G), (g4_bits s G), land_low12.
  pose proof (Z.mod_pos_bound pos 4096 ltac:(lia)). rewrite (uwrap_small 64 (bytes + _ - 1)) by lia.
  rewrite Z.shiftr_div_pow2 by lia. change (2 ^ 12) with 4096.
  replace (pos mod 4096 + bytes + 4095) with (bytes + pos mod 4096 - 1 + 1 * 4096) by lia. rewrite Z.div_add by lia.
  assert (0 <= (bytes + pos mod 4096 - 1) / 4096) by (apply Z.div_pos; lia).
  pose proof (Z.div_mod (bytes + pos mod 4096 - 1) 4096 ltac:(lia)).  pose proof (Z.mod_pos_bound (bytes + pos mod 4096 - 1) 4096 ltac:(lia)).
  apply uwrap_small. lia.
Qed.

Lemma head_writes s h pos bytes kmem ev y :
  0 <= pos -> 0 < bytes -> ev ∈ head_events s h pos kmem -> writes ev y -> kmem <= y < kmem + copy_blocks pos bytes * 4096.
Proof.
  intros Hp Hb. unfold head_events. destruct (pos mod 4096 =? 0); [by intros ?%elem_of_nil|].
  intros Hev Hw. pose proof (fill_writes _ _ _ _ Hev Hw) as F. rewrite length_file_bytes in F.
  pose proof (copy_arith pos bytes Hp Hb) as A. cbn zeta in A. lia.
Qed.

Lemma tail_writes s h pos bytes kmem ev y :
  0 <= pos -> 0 < bytes -> ev ∈ tail_fill s h pos bytes kmem -> writes ev y -> kmem <= y < kmem + copy_blocks pos bytes * 4096.
Proof.
  intros Hp Hb. unfold tail_fill. destruct ((pos + bytes) mod 4096 =? 0); [by intros ?%elem_of_nil|].
  intros Hev Hw. pose proof (fill_writes _ _ _ _ Hev Hw) as F. rewrite length_file_bytes in F.
  pose proof (copy_arith pos bytes Hp Hb) as A. cbn zeta in A. lia.
Qed.

Lemma head_tail_run s h pos bytes kmem :
  file_wf s h -> geo4k s -> i_blk_type (ih_base h) = 0 -> 0 <= pos < 2 ^ 60 -> 0 < bytes < 2 ^ 60 ->
  in_pmem s kmem (Z.to_nat (copy_blocks pos bytes * 4096)) = true -> fresh s h kmem (copy_blocks pos bytes * 4096) ->
  nova_handle_head_tail_blocks h pos bytes kmem s = Ok 0 (after s (head_events s h pos kmem ++ tail_fill s h pos bytes kmem)).
Proof.
  intros W G Hbt Hp Hb Hin F. pose proof (copy_arith pos bytes ltac:(lia) ltac:(lia)) as A. cbn zeta in A.
  pose proof (Z.div_mod pos 4096 ltac:(lia)). set (K := copy_blocks pos bytes) in *. set (o := pos mod 4096) in *.
  assert (0 <= pos / 4096) by (apply Z.div_pos; lia).
  unfold nova_handle_head_tail_blocks. rewrite (bind_ok _ _ s (sbc s) s) by done.
  rewrite (blocks_touched_eq s pos bytes G) by lia. fold K. rewrite Hbt. change (nova_inode_blk_size 0) with 4096.
  rewrite (g4_bits s G), (g4_size s G), !land_low12, Z.shiftr_div_pow2, Z.shiftl_mul_pow2 by lia. change (2 ^ 12) with 4096.
  fold o. rewrite (uwrap_small 64 (pos / 4096 + K - 1)), (uwrap_small 64 ((K - 1) * 4096)), (uwrap_small 64 (pos + bytes)) by lia.
  set (s1 := after s (head_events s h pos kmem)).
  rewrite (bind_ok _ _ _ 0 s1).
  2: { unfold s1, head_events. fold o. destruct (Z.eqb_spec o 0) as [E0|N0]; [done|]. cbn [negb].
    assert (in_pmem s kmem 4096 = true) as Hk by (apply (in_pmem_sub _ _ _ _ _ Hin); lia).
    rewrite (partial_run s h (pos / 4096) 0 o kmem) by (done || lia).
    rewrite !Z.add_0_r. pose proof (fill_nonempty s kmem (file_bytes s h (pos / 4096 * 4096) (Z.to_nat o)) []) as E. cbn [app] in E. by rewrite E. }
  cbn [Z.ltb Z.compare].
  assert (sbc s1 = sbc s) as Es by apply after_sbc.
  destruct (file_kept s s1 h kmem (K * 4096) Es) as [W1 Eb]; [|done|done|].
  { intros x Hx. unfold s1. rewrite after_nvmm. eapply store_outside; [|exact Hx]. intros ev y. apply head_writes; lia. }
  unfold tail_fill. fold K. set (eo := (pos + bytes) mod 4096) in *. destruct (Z.eqb_spec eo 0) as [E0|N0]; cbn [negb].
  { by rewrite app_nil_r. }
  rewrite (partial_run s1 h (pos / 4096 + K - 1) eo (4096 - eo) (kmem + (K - 1) * 4096)).
  - unfold s1. rewrite window_after, fill_nonempty. do 4 f_equal. unfold file_bytes.
    replace (pos / 4096 + (K - 1)) with (pos / 4096 + K - 1) by lia. apply list_fmap_ext. intros j x _. apply Eb.
  - done.
  - by apply (geo4k_sbc s).
  - lia.
  - lia.
  - lia.
  - lia.
  - rewrite (in_pmem_sbc s) by done. apply (in_pmem_sub _ _ _ _ _ Hin); lia.
Qed.

Definition copy_events (s : nova) (h : info_header) (pos bytes kmem : Z) (buf : list Z) : list pm_event :=
  (head_events s h pos kmem ++ tail_fill s h pos bytes kmem) ++ [EvNtStore (kmem + pos mod 4096) (take (Z.to_nat bytes) buf)].

Lemma copy_staged s h pos bytes kmem buf : staged (copy_events s h pos bytes kmem buf).
Proof.
  unfold copy_events, head_events, tail_fill. repeat apply staged_app; [| |apply staged_nt];
    match goal with |- context [if ?b then _ else _] => destruct b end; (apply staged_nil || apply fill_staged).
Qed.

Lemma copy_writes s h pos bytes kmem buf ev y :
  0 <= pos -> 0 < bytes <= Z.of_nat (length buf) -> ev ∈ copy_events s h pos bytes kmem buf -> writes ev y ->
  kmem <= y < kmem + copy_blocks pos bytes * 4096.
Proof.
  intros Hp Hb Hev Hw. unfold copy_events in Hev. rewrite !elem_of_app in Hev. destruct Hev as [[Hev|Hev]|Hev].
  - eapply head_writes; [..|exact Hev|done]; lia.
  - eapply tail_writes; [..|exact Hev|done]; lia.
  - apply list_elem_of_singleton in Hev as ->. cbn [writes] in Hw. rewrite length_take in Hw.
    pose proof (copy_arith pos bytes ltac:(lia) ltac:(lia)) as A. cbn zeta in A. lia.
Qed.

Lemma file_bytes_at s h x n k : 0 <= k < Z.of_nat n -> default 0 (file_bytes s h x n !! Z.to_nat k) = file_byte s h (x + k).
Proof. intros Hk. rewrite lookup_file_bytes by lia. cbn [default]. by rewrite Z2Nat.id by lia. Qed.

(** The new blocks hold the pages of the file with the new bytes in place. *)
Lemma copy_contents s h pos bytes kmem buf x :
  0 <= pos -> 0 < bytes <= Z.of_nat (length buf) -> 0 <= x < copy_blocks pos bytes * 4096 ->
  mget (apply_evs (nvmm s) (copy_events s h pos bytes kmem buf)) (kmem + x)
  = if decide (pos mod 4096 <= x < pos mod 4096 + bytes) then default 0 (buf !! Z.to_nat (x - pos mod 4096))
    else file_byte s h (pos / 4096 * 4096 + x).
Proof.
  intros Hp Hb Hx. pose proof (copy_arith pos bytes ltac:(lia) ltac:(lia)) as A. cbn zeta in A.
  unfold copy_events. rewrite !apply_evs_app. cbn [apply_evs foldl apply_ev]. rewrite mget_store_bytes, length_take.
  destruct (decide (pos mod 4096 <= x < pos mod 4096 + bytes)) as [Hin|Hout].
  { rewrite decide_True by lia. replace (kmem + x - (kmem + pos mod 4096)) with (x - pos mod 4096) by lia.
    by rewrite lookup_take_lt by lia. }
  rewrite decide_False by lia.
  fold (apply_evs (apply_evs (nvmm s) (head_events s h pos kmem)) (tail_fill s h pos bytes kmem)).
  unfold tail_fill. set (K := copy_blocks pos bytes) in *. set (eo := (pos + bytes) mod 4096) in *.
  destruct (decide (x < pos mod 4096)) as [Hhd|Htl].
  - assert (mget (apply_evs (nvmm s) (head_events s h pos kmem)) (kmem + x) = file_byte s h (pos / 4096 * 4096 + x)) as Eh.
    { unfold head_events. rewrite (proj2 (Z.eqb_neq _ _)) by lia. rewrite fill_applied, mget_store_bytes, length_file_bytes.
      rewrite decide_True by lia. replace (kmem + x - kmem) with x by lia. apply file_bytes_at. lia. }
    destruct (Z.eqb_spec eo 0) as [E0|N0]; [done|]. rewrite fill_applied, mget_store_bytes_out; [done|]. rewrite length_file_bytes. lia.
  - destruct (Z.eqb_spec eo 0) as [E0|N0]; [lia|]. rewrite fill_applied, mget_store_bytes, length_file_bytes, decide_True by lia.
    rewrite file_bytes_at by lia. f_equal. lia.
Qed.

Lemma write_copy_run s h pos bytes blk buf :
  let kmem := virt_addr (sbc s) + blk * 4096 in
  let n := copy_blocks pos bytes * 4096 in
  file_wf s h -> geo4k s -> i_blk_type (ih_base h) = 0 -> 0 <= pos < 2 ^ 60 -> 0 < bytes < 2 ^ 60 -> bytes <= Z.of_nat (length buf) ->
  0 < blk -> blk * 4096 + n <= initsize (sbc s) -> fresh s h kmem n ->
  write_copy h true pos (pos mod 4096) bytes (nova_get_block_off blk 0) buf s
  = Ok (inr bytes) (window s (copy_events s h pos bytes kmem buf)).
Proof.
  intros kmem n W G Hbt Hp Hb Hbuf Hblk Hdev F. pose proof (copy_arith pos bytes ltac:(lia) ltac:(lia)) as A. cbn zeta in A.
  pose proof W as (Hv & Hi & Wp). pose proof (g4_top s G).
  assert (in_pmem s kmem (Z.to_nat n) = true) as Hin by (apply in_pmem_spec; unfold n, kmem in *; lia).
  unfold write_copy. rewrite (bind_ok _ _ s kmem s).
  2: { unfold gets, nova_get_block_off, nova_get_block, PAGE_SHIFT. rewrite Z.shiftl_mul_pow2 by lia. change (2 ^ 12) with 4096.
    rewrite uwrap_small, (proj2 (Z.eqb_neq _ _)) by (unfold n in *; lia). done. }
  set (ht := head_events s h pos kmem ++ tail_fill s h pos bytes kmem). cbn [andb].
  rewrite (bind_ok _ _ _ 0 (after s ht)).
  2: { unfold PAGE_SIZE. rewrite (uwrap_small 64 (pos mod 4096 + bytes)), land_low12 by lia.
    assert ((pos mod 4096 + bytes) mod 4096 = (pos + bytes) mod 4096) as -> by (by rewrite Z.add_mod_idemp_l by lia).
    destruct (_ || _) eqn:E; [by apply head_tail_run|]. apply orb_false_iff in E as [E1 E2].
    apply negb_false_iff in E1, E2. unfold ht, head_events, tail_fill. by rewrite E1, E2. }
  cbn [negb Z.eqb]. set (s2 := after s ht).
  assert (sbc s2 = sbc s) as Es by apply after_sbc.
  rewrite (bind_ok _ _ _ tt (unlocked s2)) by (apply memunlock_run; rewrite ?Es; unfold n, kmem in *; lia).
  rewrite copy_from_all by lia.
  rewrite (bind_ok _ _ _ 0 (pm_step (unlocked s2) [EvNtStore (kmem + pos mod 4096) (take (Z.to_nat bytes) buf)])).
  2: { assert (in_pmem (unlocked s2) (kmem + pos mod 4096) (length (take (Z.to_nat bytes) buf)) = true) as Hst.
    { rewrite (in_pmem_sbc s) by (by rewrite unlocked_sbc). apply (in_pmem_sub _ _ _ _ _ Hin); rewrite ?length_take; unfold n in *; lia. }
    unfold memcpy_to_pmem_nocache. by rewrite (bind_ok _ _ _ _ _ (pstore_bytes_run EvNtStore _ _ _ Hst (writable_unlocked _))). }
  rewrite (bind_ok _ _ _ tt _ (memlock_run _ _ _)). unfold ret. f_equal.
  change (locked (pm_step (unlocked s2) ?e)) with (window s2 e). unfold s2. by rewrite window_after.
Qed.

(** C10: the copy a write makes.  Into blocks the file does not use,
    [write_copy] puts the [bytes] bytes of the user's buffer and around them, where the
    write covers a block only in part, the bytes of the file (zeros in a hole):
    it returns the number of bytes, a power failure at any point leaves the file
    as it was, and once a fence has followed the new blocks hold exactly the new
    contents whatever happens. *)
Theorem write_copy_correct s h pos bytes blk buf :
  let kmem := virt_addr (sbc s) + blk * 4096 in
  let n := copy_blocks pos bytes * 4096 in
  file_wf s h -> geo4k s -> i_blk_type (ih_base h) = 0 -> 0 <= pos < 2 ^ 60 -> 0 < bytes < 2 ^ 60 -> bytes <= Z.of_nat (length buf) ->
  0 < blk -> blk * 4096 + n <= initsize (sbc s) -> fresh s h kmem n ->
  exists evs,
    write_copy h true pos (pos mod 4096) bytes (nova_get_block_off blk 0) buf s = Ok (inr bytes) (window s evs) /\
    (forall r k x, rebooted s r (take k evs) -> file_byte r h x = file_byte s h x) /\
    (forall r x, rebooted s r (evs ++ [EvFence]) -> 0 <= x < n ->
       mget (nvmm r) (kmem + x) =
         if decide (pos mod 4096 <= x < pos mod 4096 + bytes) then default 0 (buf !! Z.to_nat (x - pos mod 4096))
         else file_byte s h (pos / 4096 * 4096 + x)).
Proof.
  intros kmem n W G Hbt Hp Hb Hbuf Hblk Hdev F. pose proof (copy_arith pos bytes ltac:(lia) ltac:(lia)) as A. cbn zeta in A.
  set (evs := copy_events s h pos bytes kmem buf). exists evs. pose proof W as (Hv & Hi & Wp). pose proof (g4_top s G).
  assert (in_pmem s kmem (Z.to_nat n) = true) as Hin by (apply in_pmem_spec; unfold n, kmem in *; lia).
  split_and!.
  - by apply write_copy_run.
  - intros r k x [Es C]. eapply (file_kept s r h kmem n Es); [|done|done]. intros y Hy.
    apply (crash_unwritten _ _ _ _ C). apply Forall_take, Forall_forall. intros ev Hev Hw. apply Hy.
    eapply (copy_writes s h pos bytes kmem buf); [..|exact Hev|done]; lia.
  - intros r x [Es C] Hx. rewrite <- (copy_contents s h pos bytes kmem buf x) by (unfold n in *; lia). fold evs.
    set (w := kmem + x - (kmem + x) mod 8). pose proof (Z.mod_pos_bound (kmem + x) 8 ltac:(lia)).
    assert (w mod 8 = 0) as Hw8 by (unfold w; by rewrite Zminus_mod, Zmod_mod, Z.sub_diag).
    apply (load_bytes_mget _ _ w 8); [|unfold w; lia]. rewrite (crash_persisted _ _ _ w C Hw8).
    + by rewrite apply_evs_app.
    + intros i ev Ei T. by apply (staged_fence evs (copy_staged s h pos bytes kmem buf) i ev w).
Qed.
End copy.
