(* ===== verification/CowWriteSpec.v ===== *)
(** A whole copy-on-write write (file.c: [do_nova_cow_file_write]): what it leaves
    in the file, and what a power failure during it can leave. *)

From stdpp Require Import strings.
From S2P Require Import Prelude CInt Crc32c NovaEnv RangeNode Pmem NovaState NovaMonad NovaLib.
From S2P Require Import Balloc BallocSpec BallocAlloc NovaLayout PmemOps LogPage LogPageSpec InodeMap RangeLog InodeTable Journal Crash JournalSpec JournalRecover JournalTx.
From S2P Require Import Checksum Parity MetaCsum MetaCsumSpec LogEntry Snapshot SnapshotSpec FileTree FileTreeSpec DirTree Rebuild RebuildSpec LogGc LogAppend LogAppendSpec.
From S2P Require Import VfsInode Namei NameiSpec FileData FileDataSpec.

Local Open Scope nova_scope.
Local Open Scope string_scope.
Local Open Scope list_scope.
Local Open Scope Z_scope.

(** ** The bytes of a write entry *)
Definition write_entry (h : info_header) (epoch pgoff num blk time size : Z) : list Z :=
  nova_init_file_write_entry h epoch pgoff num blk time size.

Lemma write_entry_bytes h epoch pgoff num blk time size :
  let l := write_entry h epoch pgoff num blk time size in
  length l = 64%nat /\ take 1 l = le_bytes 1 (entry_type_val FILE_WRITE) /\ take 1 (drop 1 l) = [0] /\
  take 4 (drop 4 l) = le_bytes 4 num /\
  take 8 (drop 8 l) = le_bytes 8 (nova_get_block_off blk (i_blk_type (ih_base h))) /\ take 8 (drop 16 l) = le_bytes 8 pgoff.
Proof. split_and!; reflexivity. Qed.

(** ** When a write can go through at once *)

(** The bytes that hold the file's pages and the entries of its index. *)
Definition file_uses (s : nova) (h : info_header) (x : Z) : Prop :=
  exists p, let e := nova_get_write_entry h p in e <> 0 /\
    (e <= x < e + 64 \/ virt_addr (sbc s) + we_nvmm s e p * 4096 <= x < virt_addr (sbc s) + we_nvmm s e p * 4096 + 4096).

Definition inode_at (s : nova) (h : info_header) : Z := virt_addr (sbc s) + pi_addr (ih_base h).
Definition is_free (s : nova) (x : Z) : Prop := exists c, free_block s c = true /\ in_page s c x.

(** A file stays as it is while its bytes do. *)
Lemma used_fields s r h p :
  (forall x, file_uses s h x -> mget (nvmm r) x = mget (nvmm s) x) -> let e := nova_get_write_entry h p in e <> 0 ->
  we_reassigned r e = we_reassigned s e /\ we_num r e = we_num s e /\ we_block r e = we_block s e /\ we_pgoff r e = we_pgoff s e.
Proof.
  intros Hk e He. assert (forall k o, 0 <= o -> o + Z.of_nat k <= 64 -> load k (nvmm r) (e + o) = load k (nvmm s) (e + o)) as Hl.
  { intros k o Ho Hb. apply load_ext. intros x Hx. apply Hk. exists p. split; [done|left]. fold e. lia. }
  unfold we_reassigned, we_num, we_block, we_pgoff. rewrite !Hl by (cbn; lia). done.
Qed.

Lemma used_byte s r h x :
  sbc r = sbc s -> (forall x, file_uses s h x -> mget (nvmm r) x = mget (nvmm s) x) -> file_byte r h x = file_byte s h x.
Proof.
  intros Es Hk. unfold file_byte. destruct (Z.eqb_spec (nova_get_write_entry h (x / 4096)) 0) as [?|N0]; [done|].
  destruct (used_fields s r h _ Hk N0) as (_ & _ & E3 & E4). unfold we_nvmm. rewrite E3, E4, Es. apply Hk.
  exists (x / 4096). split; [done|right]. unfold we_nvmm. pose proof (Z.mod_pos_bound x 4096 ltac:(lia)). lia.
Qed.

Lemma crash_last m0 e1 ev e2 m w :
  crash m0 (e1 ++ ev :: e2) m -> w mod 8 = 0 -> must_persist (e1 ++ ev :: e2) (length e1) w -> Forall (fun ev => ~ touches ev w) e2 ->
  load_bytes m w 8 = load_bytes (apply_evs m0 (e1 ++ [ev])) w 8.
Proof.
  intros C Hw Pe U. destruct (C w Hw) as (k & Hk & Hn & ->).
  assert (length e1 < k)%nat as Hlt by (apply Nat.lt_nge; intros Hle; by apply (Hn (length e1))).
  replace (e1 ++ ev :: e2) with ((e1 ++ [ev]) ++ e2) by (by rewrite <- app_assoc).
  rewrite take_app_ge by (rewrite length_app; cbn; lia). rewrite (apply_evs_app _ (e1 ++ [ev])).
  apply load_untouched. by apply Forall_take.
Qed.

Section ready.
Context `{NovaEnv, UserLib}.

(** The file and the inode are where nothing is free, the written pages are holes
    (beyond the end of the file or inside), the tail of the log, at offset [r] of
    page [bt], has room for an entry, and no page is mapped. *)
Record write_ready (s : nova) (v : vnode) (pos len : Z) (buf : list Z) (bt r : Z) : Prop := {
  wr_file : file_wf s (vn_h v);
  wr_geo : geo4k s;
  wr_base : virt_addr (sbc s) mod 8 = 0;
  wr_dev : device_ok s;
  wr_alloc : alloc_wf s;
  wr_cpu : valid_cpu s ANY_CPU;
  wr_slab : slab_ok s (copy_blocks pos len) DATA;
  wr_vmas : ih_vmas (vn_h v) = [];
  wr_type : i_blk_type (ih_base (vn_h v)) = 0;
  wr_pos : 0 <= pos < 2 ^ 59;
  wr_len : 0 < len < 2 ^ 43;
  wr_buf : len <= Z.of_nat (length buf);
  wr_access : access_ok len = true;
  wr_privs : file_remove_privs (vn_i v) = 0;
  wr_holes : forall p, pos / 4096 <= p < pos / 4096 + copy_blocks pos len -> ih_tree (vn_h v) !! p = None;
  wr_page : LogPageSpec.page_ok s bt;
  wr_room : 0 <= r /\ r + 64 <= LOG_BLOCK_TAIL;
  wr_tail : sih_log_tail (ih_base (vn_h v)) = page_off bt + r;
  wr_pi : 0 < pi_addr (ih_base (vn_h v)) /\ pi_addr (ih_base (vn_h v)) + 128 <= initsize (sbc s);
  wr_pi8 : pi_addr (ih_base (vn_h v)) mod 8 = 0;
  wr_pi_tail : load 8 (nvmm s) (inode_at s (vn_h v) + 72) = page_off bt + r;
  wr_apart : forall x,
    is_free s x \/ virt_addr (sbc s) + page_off bt + r <= x < virt_addr (sbc s) + page_off bt + 4096 \/
    inode_at s (vn_h v) <= x < inode_at s (vn_h v) + 128 -> ~ file_uses s (vn_h v) x;
  wr_log : forall x, in_page s bt x -> ~ is_free s x /\ ~ (inode_at s (vn_h v) <= x < inode_at s (vn_h v) + 128);
  wr_inode : forall x, is_free s x -> ~ (inode_at s (vn_h v) <= x < inode_at s (vn_h v) + 128)
}.
End ready.

Section write.
Context `{NovaEnv, RbLib, MediaLib, KmallocLib, RadixLib, ParityEnv, VfsLib, UserLib} {RO : RbLibOk} {UO : UserLibOk H6}.
Context (Hmeta : metadata_csum = 0) (Hmedia : forall t a, poisoned t a = false).

Lemma window_step s E F : Forall no_store F -> pm_step (window s E) F = window s (E ++ F).
Proof.
  intros HF. unfold window. rewrite <- pm_step_app. set (y := pm_step (unlocked s) E). unfold locked.
  change (is_protected (pm_step y F)) with (is_protected y). by destruct (is_protected y).
Qed.

Lemma flush_silent buf len fence ev x : ev ∈ flush_buffer_events buf len fence -> ~ writes ev x.
Proof.
  intros Hev Hw. pose proof (flush_buffer_no_store buf len fence) as F. rewrite Forall_forall in F. specialize (F _ Hev). by destruct ev.
Qed.

Lemma step_window s F E : window (pm_step s F) E = window s (F ++ E).
Proof.
  unfold window. rewrite <- pm_step_app. do 2 f_equal. unfold unlocked.
  change (is_protected (pm_step s F)) with (is_protected s). by destruct (is_protected s).
Qed.

(** ** The entry *)
Definition entry_events (e page : Z) (l : list Z) (n : Z) : list pm_event :=
  [EvStore e (replicate 64 0); EvNtStore e l; EvStore (page + 4068) (le_bytes 4 (u32 (n + 1)))]
  ++ flush_buffer_events (page + 4064) 32 false.

Lemma fill_entry_run s h i bt r l :
  media_ok s -> LogPageSpec.page_ok s bt -> 0 <= r -> r + 64 <= LOG_BLOCK_TAIL -> length l = 64%nat ->
  let page := virt_addr (sbc s) + page_off bt in
  fill_entry h i (page_off bt + r) 64 (data_info FILE_WRITE l) true s
  = Ok tt (window s (entry_events (page + r) page l (load 4 (nvmm s) (page + 4068)))).
Proof.
  intros [Hv Hsz] P Hr Hfit Hl page. pose proof P as [P1 P2]. unfold LOG_BLOCK_TAIL in *. unfold fill_entry.
  set (n := load 4 (nvmm s) (page + 4068)). set (U := unlocked s).
  assert (sbc U = sbc s) as Es by apply unlocked_sbc. assert (writable U = true) as Wu by apply writable_unlocked.
  assert (forall a k, page <= a -> a + Z.of_nat k <= page + 4096 -> in_pmem U a k = true) as Hin.
  { intros a k Ha Hk. apply in_pmem_spec. rewrite Es. unfold page, page_off in *. lia. }
  rewrite (bind_ok _ _ s (page + r) s) by (unfold gets; f_equal; rewrite page_pos by done; done).
  rewrite (bind_ok _ _ _ tt U) by (apply memunlock_run; unfold page, page_off in *; lia).
  change (Z.to_nat 64) with 64%nat.
  rewrite (bind_ok _ _ _ tt (pm_step U [EvStore (page + r) (replicate 64 0)]))
    by (rewrite pstore_bytes_run by (try apply Hin; cbn; lia || done); done).
  rewrite (bind_ok _ _ _ 0 (pm_step U [EvStore (page + r) (replicate 64 0); EvNtStore (page + r) l])).
  2: { unfold nova_update_log_entry. cbn [ei_type ei_inplace data_info]. unfold copy_entry_data. cbn [ei_data].
    change (Z.to_nat (sizeof nova_file_write_entry)) with 64%nat.
    rewrite (bind_ok _ _ _ 0 (pm_step U [EvStore (page + r) (replicate 64 0); EvNtStore (page + r) l])); [done|].
    rewrite (bind_ok _ _ _ l (pm_step U [EvStore (page + r) (replicate 64 0)])).
    - unfold memcpy_to_pmem_nocache. rewrite (bind_ok _ _ _ tt (pm_step U [EvStore (page + r) (replicate 64 0); EvNtStore (page + r) l])); [done|].
      rewrite pstore_bytes_run; [|apply Hin; rewrite ?Hl; lia|done].
      change (pm_write EvNtStore ?a ?x ?y) with (pm_step y [EvNtStore a x]). by rewrite pm_step_app.
    - unfold buf_read. change (ei_data (data_info FILE_WRITE l)) with l. rewrite Hl. cbn [Nat.leb]. by rewrite take_ge by lia. }
  cbn [when]. set (E2 := [EvStore (page + r) (replicate 64 0); EvNtStore (page + r) l]).
  rewrite (bind_ok _ _ _ tt (pm_step U (E2 ++ EvStore (page + 4068) (le_bytes 4 (u32 (n + 1))) :: flush_buffer_events (page + 4064) 32 false))).
  - rewrite memlock_run. done.
  - unfold nova_inc_page_num_entries.
    rewrite (bind_ok _ _ _ page (pm_step U E2)).
    2: { unfold gets. f_equal. destruct (entry_loc_tail bt r) as [_ ->]; [unfold LOG_BLOCK_TAIL; lia|].
      rewrite get_block_step. unfold nova_get_block. rewrite Es. rewrite (proj2 (Z.eqb_neq _ _)) by (unfold page_off in *; lia). done. }
    rewrite (bind_ok _ _ _ n (pm_step U E2)).
    2: { unfold pload_field. change (field_addr nova_inode_log_page page "num_entries") with (page + 4068).
      change (sizeof_field nova_inode_log_page "num_entries") with 4%nat. rewrite pload_run by (apply Hin; cbn; lia). f_equal.
      unfold n. apply load_ext. intros x Hx. unfold E2, pm_step. cbn [nvmm set_trace set_nvmm apply_evs foldl apply_ev].
      rewrite !mget_store_bytes_out by (rewrite ?length_replicate, ?Hl; cbn in Hx; lia). by unfold U; rewrite unlocked_nvmm. }
    rewrite (bind_ok _ _ _ tt _ (pstore_field_step nova_inode_log_page page "num_entries" (u32 (n + 1)) U E2 (page + 4068) 4 eq_refl eq_refl
      (Hin (page + 4068) 4%nat ltac:(lia) ltac:(cbn; lia)) Wu)).
    change (page_tail page) with (page + 4064). change (sizeof nova_inode_page_tail) with 32.
    rewrite nova_flush_buffer_step by lia. by rewrite pm_step_app, <- app_assoc.
Qed.

Lemma append_write_run s d pi i h epoch pg num blk time size u bt r :
  media_ok s -> LogPageSpec.page_ok s bt -> 0 <= r -> r + 64 <= LOG_BLOCK_TAIL -> up_tail u = page_off bt + r ->
  let page := virt_addr (sbc s) + page_off bt in
  let l := write_entry h epoch pg num blk time (u64 size) in
  append_write pi i h epoch pg num blk time size u d s
  = Ok (0, h, up_main (page_off bt + r) 64 u, d)
      (window s (EvFence :: entry_events (page + r) page l (load 4 (nvmm s) (page + 4068)))).
Proof.
  intros M P Hr Hfit Hu page l. pose proof P as [P1 P2]. destruct (write_entry_bytes h epoch pg num blk time (u64 size)) as [Hl _]. fold l in Hl.
  unfold append_write. fold (write_entry h epoch pg num blk time (u64 size)). fold l. unfold nova_append_file_write_entry.
  assert (update_data_csum l s = Ok l (pm_step s [EvFence])) as E1.
  { unfold update_data_csum. rewrite Hmeta. cbn [Z.eqb]. by rewrite (bind_ok _ _ _ _ _ (barrier_step s)). }
  set (s1 := pm_step s [EvFence]) in *. set (s2 := window s _).
  assert (nova_append_log_entry pi i h (data_info FILE_WRITE l) u 0 d s1
    = Ok (0, h, up_main (page_off bt + r) 64 u, page_off bt + r, d) s2) as E2.
  { unfold nova_append_log_entry. cbn [ei_type data_info]. change (nova_get_log_entry_size FILE_WRITE) with 64.
    assert (page_off bt + r <> 0) as Hne by (unfold page_off; lia).
    assert (is_last_entry (page_off bt + r) 64 = false) as El
      by (rewrite is_last_tail by (unfold LOG_BLOCK_TAIL in *; lia); apply Z.ltb_ge; lia).
    rewrite (sbind_ok _ _ d s1 (page_off bt + r, h, false) d s1).
    2: { unfold nova_get_append_head, append_head. rewrite Hu, (proj2 (Z.eqb_neq _ _) Hne). cbn [negb].
      rewrite (sbind_lift _ _ _ _ false s1) by (unfold log_full; by rewrite (proj2 (Z.eqb_neq _ _) Hne), El).
      by rewrite (sbind_lift _ _ _ _ (page_off bt + r) s1) by (unfold enter_page; by rewrite El). }
    cbv iota beta. rewrite (proj2 (Z.eqb_neq _ _) Hne).
    rewrite (sbind_lift _ _ _ _ _ _ (fill_entry_run s1 h i bt r l M P Hr Hfit Hl)). rewrite Hmeta. cbn [Z.eqb negb].
    unfold s1, s2. by rewrite step_window. }
  by rewrite (sbind_ok _ _ d s (0, h, up_main (page_off bt + r) 64 u) d s2)
    by (rewrite (sbind_lift _ _ _ _ _ _ E1); by rewrite (sbind_ok _ _ _ _ _ _ _ E2)).
Qed.

(** ** The new tail *)
Definition moved_tail (b : inode_header) (tail alter : Z) : inode_header :=
  mkSih (sih_ino b) (pi_addr b) (alter_pi_addr b) (i_blk_type b) (sih_log_head b) tail (sih_alter_log_head b) alter.

Lemma publish_write_run s d pi h u begin_tail :
  media_ok s -> virt_addr (sbc s) <= pi -> pi + 128 <= virt_addr (sbc s) + initsize (sbc s) ->
  publish_write pi h u begin_tail d s
  = nova_reassign_file_tree (set_ih_base (moved_tail (ih_base h) (up_tail u) (up_alter_tail u)) h) begin_tail d
      (window s (tail_events pi (up_tail u))).
Proof.
  intros [Hv Hsz] Hlo Hhi. unfold publish_write.
  rewrite (sbind_lift _ _ _ _ tt (unlocked s)) by (apply memunlock_run; unfold NOVA_INODE_SIZE; lia).
  assert (in_pmem (unlocked s) pi 120 = true) as Hp by (rewrite (in_pmem_sbc s) by apply unlocked_sbc; apply in_pmem_spec; lia).
  assert (nova_update_inode (ih_base h) pi (up_tail u) (up_alter_tail u) true (unlocked s)
    = Ok (moved_tail (ih_base h) (up_tail u) (up_alter_tail u)) (pm_step (unlocked s) (tail_events pi (up_tail u)))) as E.
  { etrans; [|exact (update_tail_step Hmeta (unlocked s) (ih_base h) pi (up_tail u) (up_alter_tail u) Hp (writable_unlocked s))].
    unfold nova_update_inode, nova_update_alter_inode. rewrite Hmeta. done. }
  rewrite (sbind_lift _ _ _ _ _ _ E).
  by rewrite (sbind_lift _ _ _ _ tt (window s (tail_events pi (up_tail u)))) by apply memlock_run.
Qed.

Lemma tail_applied m pi t : apply_evs m (tail_events pi t) = store_bytes m (pi + 72) (le_bytes 8 t).
Proof.
  unfold tail_events.
  change (apply_evs m (EvFence :: (EvStore (pi + 72) (le_bytes 8 t) :: ?f) ++ ?g)) with (apply_evs (store_bytes m (pi + 72) (le_bytes 8 t)) (f ++ g)).
  apply apply_no_store. apply Forall_app. split; apply flush_buffer_no_store.
Qed.

(** ** The index *)
Lemma runs_holes n : forall p T cur, (forall q, p <= q < p + Z.of_nat n -> T !! q = None) -> runs n p T cur = ([], cur).
Proof.
  induction n as [|n IH]; intros p T cur Hq; [done|]. cbn [runs]. rewrite Hq by lia. apply IH. intros q Hr. apply Hq. lia.
Qed.

Lemma assign_holes (Hmem : forall t p, radix_insert_ok t p = true) sih entry entryc free d s :
  let p := wfield "pgoff" entryc in
  let n := wfield "num_pages" entryc in
  0 <= p -> 0 <= n < 2 ^ 31 -> p + n < 2 ^ 64 -> (forall q, p <= q < p + n -> ft_tree sih !! q = None) ->
  nova_assign_write_entry sih entry entryc free d s = Ok (0, set_tree (fill (Z.to_nat n) p entry (ft_tree sih)) sih, d) s.
Proof.
  intros p n Hp Hn Hpn Hh. rewrite (assign_run Hmem sih entry entryc free Hp Hn Hpn d s). fold p n. unfold all_runs.
  by rewrite runs_holes by (intros q Hq; apply Hh; lia).
Qed.

Lemma reassign_entry_run (Hmem : forall t p, radix_insert_ok t p = true) (Hrc : forall a n, memcpy_mcsafe_rc a n = 0) s d h bt r l :
  let e := virt_addr (sbc s) + page_off bt + r in
  let pg := wfield "pgoff" l in
  let n := wfield "num_pages" l in
  media_ok s -> LogPageSpec.page_ok s bt -> 0 <= r -> r + 64 <= LOG_BLOCK_TAIL ->
  sih_log_tail (ih_base h) = page_off bt + r + 64 -> page_off bt + r + 64 < 2 ^ 64 ->
  load_bytes (nvmm s) e 64 = l -> load 1 (nvmm s) e = entry_type_val FILE_WRITE ->
  0 <= pg -> 0 <= n < 2 ^ 31 -> pg + n < 2 ^ 64 -> (forall q, pg <= q < pg + n -> ih_tree h !! q = None) ->
  nova_reassign_file_tree h (page_off bt + r) d s
  = Ok (0, set_ih_tree (fill (Z.to_nat n) pg e (ih_tree h)) h, d) s.
Proof.
  intros e pg n [Hv Hsz] P Hr Hfit Ht H64 El Ety Hpg Hn Hpn Hh. pose proof P as [P1 P2]. unfold LOG_BLOCK_TAIL in *.
  assert (in_pmem s e 64 = true) as Hin by (apply in_pmem_spec; unfold e, page_off in *; lia).
  unfold nova_reassign_file_tree. rewrite (sbind_lift _ _ _ _ (entry_fuel s) s) by done.
  assert (exists k, entry_fuel s = S k) as [k ->].
  { unfold entry_fuel. exists (Z.to_nat (initsize (sbc s) / 16)). assert (0 <= initsize (sbc s) / 16) by (apply Z.div_pos; unfold page_off in *; lia). lia. }
  assert (page_off bt + r <> 0) as Hne by (unfold page_off; lia).
  cbn [reassign_loop]. rewrite Ht, (proj2 (Z.eqb_neq _ _) Hne), (proj2 (Z.eqb_neq _ _)) by lia. cbn [orb].
  change (sizeof nova_file_write_entry) with 64.
  rewrite (sbind_lift _ _ _ _ (page_off bt + r) s).
  2: { rewrite is_last_tail by (unfold LOG_BLOCK_TAIL; lia). unfold LOG_BLOCK_TAIL. by rewrite (proj2 (Z.ltb_ge _ _)) by lia. }
  rewrite (proj2 (Z.eqb_neq _ _) Hne). rewrite (sbind_lift _ _ _ _ e s) by (unfold gets; f_equal; by rewrite page_pos).
  rewrite (sbind_lift _ _ _ _ (Some (InPlace e)) s) by (unfold verified_entry; by rewrite Hmeta).
  rewrite (sbind_lift _ _ _ _ (entry_type_val FILE_WRITE) s).
  2: { rewrite <- Ety. cbn [entryc_type]. unfold nova_get_entry_type, memcpy_mcsafe, bind. rewrite Hrc. cbn [negb Z.eqb].
    unfold pload_bytes. by rewrite (in_pmem_sub _ _ _ _ _ Hin) by (cbn; lia). }
  rewrite Z.eqb_refl. cbn [negb].
  rewrite (sbind_lift _ _ _ _ l s).
  2: { unfold entryc_whole, entryc_bytes, pload_bytes. rewrite Z.add_0_r. change (Z.to_nat (sizeof nova_file_write_entry)) with 64%nat.
    by rewrite Hin, El. }
  rewrite (sbind_ok _ _ _ _ _ _ _ (assign_holes Hmem (ih_file h) e l true d s Hpg Hn Hpn Hh)). cbn [snd].
  fold pg n. rewrite (uwrap_small 64) by (unfold page_off in *; lia).
  set (h' := put_file _ h).
  assert (h' = set_ih_tree (fill (Z.to_nat n) pg e (ih_tree h)) h) as -> by (by destruct h).
  destruct k; cbn [reassign_loop set_ih_tree ih_base]; rewrite Ht, Z.eqb_refl, orb_true_r; done.
Qed.

(** ** The whole write *)
Section whole.
Context (Hmem : forall t p, radix_insert_ok t p = true) (Hrc : forall a n, memcpy_mcsafe_rc a n = 0).
Context (Hdc : data_csum = 0) (Hdp : data_parity = 0).
Context (s s1 : nova) (v : vnode) (pos len : Z) (buf : list Z) (bt r blk now now2 : Z).

Let h := vn_h v.
Let n := copy_blocks pos len.
Let P := pos / 4096.
Let page := virt_addr (sbc s) + page_off bt.
Let e := page + r.
Let kmem := virt_addr (sbc s) + blk * 4096.
Let pi := inode_at s h.
Let size := grown_size (set_vi_times now (vn_i v)) pos len.
Let l := write_entry h (nova_get_epoch_id s) P n blk (u32 now) (u64 size).

Definition write_events : list pm_event :=
  let E1 := copy_events s h pos len kmem buf in
  E1 ++ (EvFence :: entry_events e page l (load 4 (nvmm (window s1 E1)) (page + 4068))) ++ tail_events pi (page_off bt + r + 64).

(** The inode and its header afterwards. *)
Definition written_header : info_header :=
  set_ih_tree (fill (Z.to_nat n) P e (ih_tree h))
    (set_ih_base (moved_tail (ih_base h) (page_off bt + r + 64) (sih_alter_log_tail (ih_base h)))
      (add_blocks (sbc s) n h)).
Definition written : vnode :=
  written_vnode (pos + len)
    (set_vn_i (set_vi_blocks (ih_i_blocks written_header) (set_vi_times now (vn_i v)))
      (set_vn_h written_header (set_vn_i (set_vi_times now (vn_i v)) v))).

Context (R : write_ready s v pos len buf bt r).
Context (A : nova_new_data_blocks 0 0 n false ANY_CPU ALLOC_FROM_HEAD s = Ok (n, blk) s1).

Lemma len_arith : 0 <= pos mod 4096 < 4096 /\ 1 <= n /\ (n - 1) * 4096 < pos mod 4096 + len <= n * 4096 /\ n < 2 ^ 32 /\ 0 <= P < 2 ^ 59.
Proof.
  pose proof (wr_pos _ _ _ _ _ _ _ R). pose proof (wr_len _ _ _ _ _ _ _ R).
  pose proof (copy_arith pos len ltac:(lia) ltac:(lia)) as B. cbn zeta in B. fold n in B.
  pose proof (Z.div_mod pos 4096 ltac:(lia)). unfold P. lia.
Qed.

Lemma taken : alloc_effect s s1 blk n.
Proof.
  pose proof len_arith. eapply (new_blocks_inv s s1 0 n DATA ANY_CPU ALLOC_FROM_HEAD n blk); try apply R; [lia|exact A|lia].
Qed.

Lemma taken_frame : sbc s1 = sbc s /\ nvmm s1 = nvmm s.
Proof. destruct (ae_frame _ _ _ _ taken) as (? & ? & _). done. Qed.

Lemma taken_bounds : 0 < blk /\ (blk + n) * 4096 <= initsize (sbc s) /\ n < 2 ^ 31.
Proof.
  pose proof taken as T. destruct (ae_home _ _ _ _ T) as (cpu & fl & [_ Hfl] & H1' & H2').
  destruct taken_frame as [Es _]. destruct (ae_keep _ _ _ _ T) as (_ & _ & Hb).
  destruct (device_ok_keep s s1 (wr_dev _ _ _ _ _ _ _ R) Es Hb) as (_ & _ & D). specialize (D _ _ Hfl). rewrite Es in D.
  pose proof (ae_blk _ _ _ _ T). pose proof (ae_pos _ _ _ _ T). unfold PAGE_SIZE in D. lia.
Qed.

Lemma taken_free x : kmem <= x < kmem + n * 4096 -> is_free s x.
Proof.
  intros Hx. exists (blk + (x - kmem) / 4096). pose proof (Z.div_mod (x - kmem) 4096 ltac:(lia)).
  pose proof (Z.mod_pos_bound (x - kmem) 4096 ltac:(lia)). split.
  - apply (ae_from _ _ _ _ taken). unfold in_blocks. apply andb_true_iff. rewrite Z.leb_le, Z.ltb_lt. lia.
  - unfold in_page, page_off, kmem in *. lia.
Qed.

(** No byte of [a, a + k) belongs to the file. *)
Lemma fresh_of s' a k : 0 < k -> (forall x, a <= x < a + k -> ~ file_uses s' h x) -> fresh s' h a k.
Proof.
  intros Hk Hf p e0 He. split.
  - destruct (decide (e0 + 64 <= a)) as [?|N1]; [by left|right]. destruct (decide (a + k <= e0)) as [?|N2]; [done|exfalso].
    apply (Hf (Z.max a e0)); [lia|]. exists p. split; [done|left]. fold e0. lia.
  - set (q := virt_addr (sbc s') + we_nvmm s' e0 p * 4096).
    destruct (decide (q + 4096 <= a)) as [?|N1]; [by left|right]. destruct (decide (a + k <= q)) as [?|N2]; [done|exfalso].
    apply (Hf (Z.max a q)); [lia|]. exists p. split; [done|right]. fold e0 q. lia.
Qed.

Lemma blocks_fresh : fresh s h kmem (n * 4096).
Proof. pose proof len_arith. apply fresh_of; [lia|]. intros x Hx. apply (wr_apart _ _ _ _ _ _ _ R). left. by apply taken_free. Qed.

Lemma copy_events_ext s' : sbc s' = sbc s -> nvmm s' = nvmm s -> copy_events s' h pos len kmem buf = copy_events s h pos len kmem buf.
Proof. intros Es En. unfold copy_events, head_events, tail_fill. by rewrite !(file_bytes_ext s s' h) by done. Qed.

(** The state of the loop after the only round. *)
Definition last_state : wstate :=
  mkW h (pos + len) (drop (Z.to_nat len) buf) 0 0 len blk n (page_off bt + r)
    (mkUpdate (page_off bt + r + 64) (sih_alter_log_tail (ih_base h)) (page_off bt + r) 0 0 0) 0 true.

Definition before_tail : list pm_event :=
  let E1 := copy_events s h pos len kmem buf in
  E1 ++ EvFence :: entry_events e page l (load 4 (nvmm (window s1 E1)) (page + 4068)).

Lemma cow_round_run d :
  cow_round pi (set_vi_times now (vn_i v)) (nova_get_epoch_id s) (u32 now) (start_write (sbc s) h pos len buf) d s
  = Ok (Going, last_state, d) (window s1 before_tail).
Proof.
  destruct taken_frame as [Es En]. pose proof len_arith as L. pose proof taken_bounds as T.
  pose proof (wr_pos _ _ _ _ _ _ _ R). pose proof (wr_len _ _ _ _ _ _ _ R). pose proof (wr_geo _ _ _ _ _ _ _ R) as G.
  pose proof (wr_type _ _ _ _ _ _ _ R) as Hbt. pose proof (wr_room _ _ _ _ _ _ _ R) as [Hr0 Hfit]. fold h in Hbt.
  pose proof (wr_page _ _ _ _ _ _ _ R) as Pg. pose proof (wr_dev _ _ _ _ _ _ _ R) as (Hv & Hsz & _).
  unfold cow_round, start_write. rewrite (sbind_lift _ _ _ _ (sbc s) s) by done. cbn [w_h w_pos w_blocknr w_num_blocks w_count w_update w_buf].
  rewrite (blocks_touched_eq s pos len G) by lia. fold n. rewrite Hbt. change (nova_inode_blk_size 0) with 4096. rewrite land_low12, (g4_bits s G).
  rewrite (sbind_lift _ _ _ _ _ _ A). cbv iota beta. rewrite (proj2 (Z.leb_gt n 0)) by lia. rewrite (g4_size s G).
  rewrite (uwrap_small 64 (4096 * n - pos mod 4096)) by lia.
  assert ((if len <? 4096 * n - pos mod 4096 then len else 4096 * n - pos mod 4096) = len) as ->
    by (destruct (Z.ltb_spec len (4096 * n - pos mod 4096)); lia).
  assert (fresh s1 h (virt_addr (sbc s1) + blk * 4096) (n * 4096)) as F1.
  { rewrite Es. fold kmem. intros p e0 He. pose proof (blocks_fresh p He) as F. unfold e0, we_nvmm, we_block, we_pgoff in *. by rewrite Es, En. }
  pose proof (write_copy_run Hmeta Hmedia s1 h pos len blk buf (file_wf_ext _ _ _ Es En (wr_file _ _ _ _ _ _ _ R))
    (geo4k_sbc _ _ Es G) Hbt ltac:(lia) ltac:(lia) (wr_buf _ _ _ _ _ _ _ R) ltac:(lia)) as Ec. cbn zeta in Ec. fold n in Ec.
  rewrite Es in Ec. fold kmem in Ec. rewrite Es in F1. fold kmem in F1. rewrite (copy_events_ext s1 Es En) in Ec.
  rewrite (sbind_lift _ _ _ _ _ _ (Ec ltac:(lia) F1)). cbv iota beta. clear Ec.
  rewrite (sbind_ok _ _ d _ 0 d (window s1 (copy_events s h pos len kmem buf))) by (unfold protect_write; by rewrite Hdc, Hdp).
  cbn [Z.eqb negb]. set (s2 := window s1 (copy_events s h pos len kmem buf)).
  assert (sbc s2 = sbc s) as Es2 by (unfold s2; by rewrite window_sbc).
  rewrite Z.shiftr_div_pow2 by lia. change (2 ^ 12) with 4096. fold P. fold size.
  rewrite (sbind_ok _ _ d _ _ _ _ (append_write_run s2 d pi _ h (nova_get_epoch_id s) P n blk (u32 now) size
    (mkUpdate (sih_log_tail (ih_base h)) (sih_alter_log_tail (ih_base h)) 0 0 0 0) bt r
    ltac:(unfold media_ok; by rewrite Es2) ltac:(unfold LogPageSpec.page_ok; by rewrite Es2) Hr0 Hfit (wr_tail _ _ _ _ _ _ _ R))).
  cbv iota beta. cbn [Z.eqb negb]. rewrite Es2. fold page. fold e. fold l. unfold s2 at 1. rewrite window_window. fold before_tail.
  unfold sret. f_equal. f_equal. unfold advance.
  cbn [w_written w_pos w_buf w_count w_num_blocks w_begin_tail w_update_log up_curr_entry up_main]. rewrite Z.eqb_refl. cbn [negb andb orb Z.eqb].
  rewrite (proj2 (Z.ltb_lt 0 len)) by lia. unfold last_state. destruct Pg as [Pg1 Pg2]. unfold LOG_BLOCK_TAIL, page_off, device_ok in *.
  rewrite !Z.sub_diag. cbn [up_tail up_alter_tail up_alter_entry up_create_dentry up_delete_dentry].
  unfold up_main. rewrite (uwrap_small 64 (bt * 4096 + r + 64)) by lia. done.
Qed.

Lemma write_events_split : write_events = before_tail ++ tail_events pi (page_off bt + r + 64).
Proof. unfold write_events, before_tail. by rewrite <- app_assoc. Qed.

(** The bytes of the entry in memory, once it was written. *)
Lemma entry_applied m k : load_bytes (apply_evs m (entry_events e page l k)) e 64 = l.
Proof.
  pose proof (wr_room _ _ _ _ _ _ _ R) as [Hr0 Hfit]. unfold LOG_BLOCK_TAIL in Hfit.
  destruct (write_entry_bytes h (nova_get_epoch_id s) P n blk (u32 now) (u64 size)) as [Hl _]. fold l in Hl.
  unfold entry_events. rewrite apply_evs_app, apply_no_store by apply flush_buffer_no_store. cbn [apply_evs foldl apply_ev].
  rewrite load_bytes_store_other by (rewrite length_le_bytes; unfold e; lia).
  rewrite <- Hl. by rewrite load_store_bytes_same.
Qed.

Lemma entry_loaded :
  load_bytes (nvmm (window s1 write_events)) e 64 = l.
Proof.
  pose proof (wr_room _ _ _ _ _ _ _ R) as [Hr0 Hfit]. unfold LOG_BLOCK_TAIL in Hfit.
  assert (forall x, e <= x < e + 64 -> in_page s bt x) as Hx by (intros x Hx; unfold in_page, e, page in *; lia).
  rewrite write_events_split, window_nvmm, apply_evs_app, tail_applied.
  rewrite (load_bytes_ext _ (apply_evs (nvmm s1) before_tail)).
  2: { intros x Hx'. apply mget_store_bytes_out. rewrite length_le_bytes. destruct (wr_log _ _ _ _ _ _ _ R x (Hx x Hx')) as [_ Hn].
    fold h pi in Hn. lia. }
  unfold before_tail. rewrite apply_evs_app. apply (entry_applied (apply_ev (apply_evs (nvmm s1) _) EvFence)).
Qed.

Lemma entry_values :
  wfield "pgoff" l = P /\ wfield "num_pages" l = n /\ take 1 l = le_bytes 1 (entry_type_val FILE_WRITE) /\ take 1 (drop 1 l) = [0] /\
  le_val (take 8 (drop 8 l)) = blk * 4096.
Proof.
  pose proof len_arith. pose proof taken_bounds. pose proof (wr_file _ _ _ _ _ _ _ R) as (Hv & Hi & _).
  destruct (write_entry_bytes h (nova_get_epoch_id s) P n blk (u32 now) (u64 size)) as (Hl & E1 & E2 & E3 & E4 & E5). fold l in Hl, E1, E2, E3, E4, E5.
  unfold wfield, buf_field. change (Z.to_nat (offsetof nova_file_write_entry "pgoff")) with 16%nat.
  change (Z.to_nat (offsetof nova_file_write_entry "num_pages")) with 4%nat. change (sizeof_field nova_file_write_entry "pgoff") with 8%nat.
  change (sizeof_field nova_file_write_entry "num_pages") with 4%nat. rewrite E3, E4, E5, !le_val_le_bytes.
  change (8 * Z.of_nat 8) with 64. change (8 * Z.of_nat 4) with 32. unfold nova_get_block_off, PAGE_SHIFT.
  rewrite Z.shiftl_mul_pow2 by lia. change (2 ^ 12) with 4096. rewrite (uwrap_small 64 (blk * 4096)) by lia.
  rewrite !Z.mod_small by lia. split_and!; reflexivity || assumption.
Qed.

Lemma pi_block : nova_get_block s (pi_addr (ih_base h)) = pi.
Proof.
  pose proof (wr_pi _ _ _ _ _ _ _ R) as Hp. fold h in Hp. unfold nova_get_block. rewrite (proj2 (Z.eqb_neq _ _)) by lia. done.
Qed.

Lemma cow_write_run d :
  do_nova_cow_file_write false v buf len pos now now2 d s = Ok (len, pos + len, written, d) (window s1 write_events).
Proof.
  destruct taken_frame as [Es En]. pose proof len_arith as L. pose proof taken_bounds as T.
  pose proof (wr_pos _ _ _ _ _ _ _ R). pose proof (wr_len _ _ _ _ _ _ _ R). pose proof (wr_geo _ _ _ _ _ _ _ R) as G.
  pose proof (wr_room _ _ _ _ _ _ _ R) as [Hr0 Hfit]. pose proof (wr_page _ _ _ _ _ _ _ R) as Pg.
  pose proof (wr_dev _ _ _ _ _ _ _ R) as (Hv & Hsz & _). pose proof (wr_pi _ _ _ _ _ _ _ R) as Hpi. fold h in Hpi.
  unfold do_nova_cow_file_write. rewrite (proj2 (Z.eqb_neq len 0)), (wr_access _ _ _ _ _ _ _ R) by lia. cbn [negb]. fold h.
  rewrite (sbind_lift _ _ _ _ pi s) by (unfold gets; by rewrite pi_block).
  assert (in_pmem s pi 120 = true) as Hin by (apply in_pmem_spec; unfold pi, inode_at; lia).
  assert (exists c, nova_check_inode_integrity (pi_addr (ih_base h)) (alter_pi_addr (ih_base h)) false s = Ok (0, c) s) as [c Ei].
  { unfold nova_check_inode_integrity. rewrite (bind_ok _ _ s pi s) by (unfold gets; by rewrite pi_block). rewrite Hmeta. cbn [Z.eqb].
    change (Z.to_nat (sizeof nova_inode)) with 120%nat. unfold mcsafe. rewrite (bind_ok _ _ s (trace s) s) by done.
    rewrite (proj2 (unreadable_false _ _ _)) by (intros y _; apply Hmedia).
    eexists. rewrite (bind_ok _ _ _ (load_bytes (nvmm s) pi 120) s) by (unfold pload_bytes; by rewrite Hin). done. }
  rewrite (sbind_lift _ _ _ _ _ _ Ei). cbn [fst Z.ltb Z.compare]. rewrite (sbind_lift _ _ _ _ (sbc s) s) by done.
  unfold nova_check_overlap_vmas. rewrite (wr_vmas _ _ _ _ _ _ _ R : ih_vmas h = []). cbn [existsb].
  rewrite (wr_privs _ _ _ _ _ _ _ R), Z.eqb_refl. cbn [negb].
  rewrite (sbind_lift _ _ _ _ (nova_get_epoch_id s) s) by done.
  cbn [set_vn_i vn_i vn_h]. fold h.
  assert (w_num_blocks (start_write (sbc s) h pos len buf) = n) as En' by (cbn [start_write w_num_blocks]; by rewrite (blocks_touched_eq s pos len G) by lia).
  rewrite En'. destruct (Z.to_nat n) as [|k] eqn:Ek; [lia|].
  rewrite (sbind_ok _ _ d s (None, last_state) d (window s1 before_tail)).
  2: { cbn [write_loop]. rewrite En', (proj2 (Z.eqb_neq n 0)) by lia. rewrite (sbind_ok _ _ _ _ _ _ _ (cow_round_run d)).
    destruct k; reflexivity. }
  cbv iota beta. cbn [last_state w_h w_update w_begin_tail w_written w_pos].
  rewrite (blocks_touched_eq s pos len G) by lia. fold n.
  destruct entry_values as (Ep & Enp & Et & _ & _).
  set (h1 := set_ih_base (moved_tail (ih_base (add_blocks (sbc s) n h)) (page_off bt + r + 64) (sih_alter_log_tail (ih_base h))) (add_blocks (sbc s) n h)).
  assert (sbc (window s1 write_events) = sbc s) as Ew by (by rewrite window_sbc).
  assert (publish_write pi (add_blocks (sbc s) n h)
     (mkUpdate (page_off bt + r + 64) (sih_alter_log_tail (ih_base h)) (page_off bt + r) 0 0 0) (page_off bt + r) d (window s1 before_tail)
    = Ok (0, written_header, d) (window s1 write_events)) as Epub.
  { rewrite publish_write_run; [|unfold media_ok; rewrite window_sbc, Es; done|rewrite window_sbc, Es; unfold pi, inode_at; lia..].
    cbn [up_tail up_alter_tail]. rewrite window_window, <- write_events_split. fold h1.
    pose proof (reassign_entry_run Hmem Hrc (window s1 write_events) d h1 bt r l) as Er. cbn zeta in Er.
    rewrite Ep, Enp, Ew in Er. fold page e in Er. rewrite Er; [reflexivity|..].
    - unfold media_ok. by rewrite Ew.
    - unfold LogPageSpec.page_ok. by rewrite Ew.
    - exact Hr0.
    - exact Hfit.
    - reflexivity.
    - unfold LOG_BLOCK_TAIL, page_off in *. destruct Pg. unfold page_off in *. lia.
    - apply entry_loaded.
    - transitivity (le_val (take 1 (load_bytes (nvmm (window s1 write_events)) e 64))); [by rewrite take_load_bytes by lia|].
      by rewrite entry_loaded, Et.
    - lia.
    - lia.
    - lia.
    - apply (wr_holes _ _ _ _ _ _ _ R). }
  rewrite (sbind_ok _ _ _ _ _ _ _ Epub). cbv iota beta. cbn [Z.eqb negb]. unfold finish_write.
  rewrite (proj2 (Z.ltb_ge len 0)) by lia. done.
Qed.

(** ** What is written where *)
Lemma entry_events_writes k ev x :
  ev ∈ entry_events e page l k -> writes ev x -> page + r <= x < page + 4096.
Proof.
  pose proof (wr_room _ _ _ _ _ _ _ R) as [Hr0 Hfit]. unfold LOG_BLOCK_TAIL in Hfit.
  destruct (write_entry_bytes h (nova_get_epoch_id s) P n blk (u32 now) (u64 size)) as [Hl _]. fold l in Hl.
  unfold entry_events. rewrite elem_of_app, !elem_of_cons. unfold e.
  intros [[->|[->|[->|[]%elem_of_nil]]]|Hev] Hw; cbn [writes] in Hw; rewrite ?length_replicate, ?Hl, ?length_le_bytes in Hw; try lia.
  by destruct (flush_silent (page + 4064) 32 false ev x Hev).
Qed.

Lemma tail_events_writes t ev x : ev ∈ tail_events pi t -> writes ev x -> pi + 72 <= x < pi + 80.
Proof.
  unfold tail_events. rewrite elem_of_cons, elem_of_app, elem_of_cons. intros [->|[[->|Hev]|Hev]] Hw; cbn [writes] in Hw.
  - done.
  - rewrite length_le_bytes in Hw. lia.
  - by destruct (flush_silent (pi + 72) 64 true ev x Hev).
  - by destruct (flush_silent pi 120 true ev x Hev).
Qed.

Lemma copy_here ev x : ev ∈ copy_events s h pos len kmem buf -> writes ev x -> kmem <= x < kmem + n * 4096.
Proof.
  pose proof (wr_pos _ _ _ _ _ _ _ R). pose proof (wr_len _ _ _ _ _ _ _ R). pose proof (wr_buf _ _ _ _ _ _ _ R).
  intros Hev Hw. eapply (copy_writes s h pos len kmem buf); [..|exact Hev|exact Hw]; lia.
Qed.

Lemma write_events_writes ev x :
  ev ∈ write_events -> writes ev x ->
  kmem <= x < kmem + n * 4096 \/ page + r <= x < page + 4096 \/ pi + 72 <= x < pi + 80.
Proof.
  unfold write_events. rewrite !elem_of_app, elem_of_cons. intros [Hev|[[->|Hev]|Hev]] Hw.
  - left. by eapply copy_here.
  - done.
  - right; left. by eapply entry_events_writes.
  - right; right. by eapply tail_events_writes.
Qed.

Lemma unused ev x : ev ∈ write_events -> writes ev x -> ~ file_uses s h x.
Proof.
  intros Hev Hw. apply (wr_apart _ _ _ _ _ _ _ R). fold h pi page. destruct (write_events_writes ev x Hev Hw) as [Hx|[Hx|Hx]].
  - left. by apply taken_free.
  - right; left. lia.
  - right; right. lia.
Qed.

(** ** The file afterwards *)

Lemma written_index q : nova_get_write_entry (vn_h written) q = if decide (P <= q < P + n) then e else nova_get_write_entry h q.
Proof.
  pose proof len_arith. assert (ih_tree (vn_h written) = fill (Z.to_nat n) P e (ih_tree h)) as Et.
  { unfold written, written_vnode. cbn [vn_i set_vn_i set_vn_h vn_h]. by case_match. }
  unfold nova_get_write_entry. rewrite Et, fill_lookup, Z2Nat.id by lia. by case_decide.
Qed.

Lemma hole q : P <= q < P + n -> nova_get_write_entry h q = 0.
Proof. intros Hq. unfold nova_get_write_entry, h. by rewrite (wr_holes _ _ _ _ _ _ _ R q Hq). Qed.

(** A state with the file's bytes, the entry and the new blocks. *)
Definition holds_write (r' : nova) : Prop :=
  sbc r' = sbc s /\ (forall x, file_uses s h x -> mget (nvmm r') x = mget (nvmm s) x) /\
  load_bytes (nvmm r') e 64 = l /\
  forall x, 0 <= x < n * 4096 -> mget (nvmm r') (kmem + x) =
    if decide (pos mod 4096 <= x < pos mod 4096 + len) then default 0 (buf !! Z.to_nat (x - pos mod 4096))
    else file_byte s h (P * 4096 + x).

Lemma new_entry r' : holds_write r' ->
  we_reassigned r' e = 0 /\ we_num r' e = n /\ we_pgoff r' e = P /\ forall q, we_nvmm r' e q = blk + q - P.
Proof.
  intros (_ & _ & El & _). destruct entry_values as (E1 & E2 & _ & E4 & E5).
  assert (forall k o, (o + k <= 64)%nat -> load k (nvmm r') (e + Z.of_nat o) = le_val (take k (drop o l))) as Hl.
  { intros k o Hk. rewrite <- El, drop_load_bytes, take_load_bytes by lia. done. }
  assert (we_pgoff r' e = P) as Ep by (rewrite <- E1; apply (Hl 8%nat 16%nat); lia).
  assert (we_block r' e = blk * 4096) as Eb by (rewrite <- E5; apply (Hl 8%nat 8%nat); lia).
  split_and!; [|rewrite <- E2; apply (Hl 4%nat 4%nat); lia|done|].
  { etrans; [apply (Hl 1%nat 1%nat); lia|]. by rewrite E4. }
  intros q. unfold we_nvmm. rewrite Ep, Eb. unfold PAGE_SHIFT. rewrite Z.shiftr_div_pow2 by lia.
  change (2 ^ 12) with 4096. by rewrite Z.div_mul.
Qed.

Lemma written_byte r' x : holds_write r' ->
  file_byte r' (vn_h written) x = if decide (pos <= x < pos + len) then default 0 (buf !! Z.to_nat (x - pos)) else file_byte s h x.
Proof.
  intros Hw. pose proof Hw as (Es & Hk & _ & Hc). pose proof len_arith as L. destruct (new_entry r' Hw) as (_ & _ & _ & Env).
  pose proof (Z.div_mod x 4096 ltac:(lia)). pose proof (Z.mod_pos_bound x 4096 ltac:(lia)). pose proof (Z.div_mod pos 4096 ltac:(lia)) as Dp. fold P in Dp.
  pose proof (wr_page _ _ _ _ _ _ _ R) as [Pg _]. pose proof (wr_dev _ _ _ _ _ _ _ R) as (Hv & _). pose proof (wr_room _ _ _ _ _ _ _ R) as [Hr0 _].
  unfold file_byte at 1. rewrite written_index. destruct (decide (P <= x / 4096 < P + n)) as [Hin|Hout].
  - rewrite (proj2 (Z.eqb_neq e 0)) by (unfold e, page, page_off; lia). rewrite Env, Es.
    replace (virt_addr (sbc s) + (blk + x / 4096 - P) * 4096 + x mod 4096) with (kmem + (x - P * 4096)) by (unfold kmem; lia).
    rewrite Hc by lia. replace (P * 4096 + (x - P * 4096)) with x by lia.
    destruct (decide (pos <= x < pos + len)); [rewrite decide_True by lia; do 3 f_equal; lia|by rewrite decide_False by lia].
  - rewrite decide_False by lia. exact (used_byte s r' h x Es Hk).
Qed.

Lemma written_wf r' : holds_write r' -> file_wf r' (vn_h written).
Proof.
  intros Hw. pose proof Hw as (Es & Hk & _ & Hc). pose proof (wr_file _ _ _ _ _ _ _ R) as (Hv & Hi & Wp). fold h in Wp.
  pose proof len_arith as L. pose proof taken_bounds as T. destruct (new_entry r' Hw) as (E1 & E2 & E3 & E4).
  pose proof (wr_page _ _ _ _ _ _ _ R) as [Pg1 Pg2]. pose proof (wr_room _ _ _ _ _ _ _ R) as [Hr0 Hfit]. unfold LOG_BLOCK_TAIL in Hfit.
  unfold file_wf. rewrite Es. split_and!; [lia|lia|lia|]. intros p. rewrite written_index.
  destruct (decide (P <= p < P + n)) as [Hin|Hout]; intros Hp.
  - split; rewrite ?E2, ?E3, ?E4, ?Es; try lia.
    + apply in_pmem_spec. rewrite Es. unfold e, page, page_off in *. lia.
    + intros _ q Hq. rewrite written_index. by rewrite decide_True by lia.
  - destruct (used_fields s r' h p Hk Hp) as (F1 & F2 & F3 & F4). destruct (Wp p Hp) as [Pe Pc Pn Pf Pl Pw]. unfold we_nvmm in *.
    split; unfold we_nvmm; rewrite ?F1, ?F2, ?F3, ?F4, ?Es; try done.
    + by rewrite (in_pmem_sbc s).
    + intros Ez q Hq. specialize (Pw Ez q Hq). rewrite written_index. destruct (decide (P <= q < P + n)) as [Hin|_]; [|done].
      rewrite (hole q Hin) in Pw. congruence.
Qed.

Lemma copied_here m x :
  nvmm m = nvmm s -> 0 <= x < n * 4096 ->
  mget (apply_evs (nvmm m) (copy_events s h pos len kmem buf)) (kmem + x) =
    if decide (pos mod 4096 <= x < pos mod 4096 + len) then default 0 (buf !! Z.to_nat (x - pos mod 4096))
    else file_byte s h (P * 4096 + x).
Proof.
  intros -> Hx. pose proof (wr_pos _ _ _ _ _ _ _ R). pose proof (wr_len _ _ _ _ _ _ _ R). pose proof (wr_buf _ _ _ _ _ _ _ R).
  by apply copy_contents; [lia|lia|].
Qed.

(** The log and the inode are not in the new blocks. *)
Lemma blocks_apart x : kmem <= x < kmem + n * 4096 -> ~ in_page s bt x /\ ~ (pi <= x < pi + 128).
Proof.
  intros Hx. pose proof (taken_free x Hx) as F. split; [|by apply (wr_inode _ _ _ _ _ _ _ R)].
  intros Hp. by destruct (wr_log _ _ _ _ _ _ _ R x Hp).
Qed.

Lemma rest_apart ev x : ev ∈ (EvFence :: entry_events e page l (load 4 (nvmm (window s1 (copy_events s h pos len kmem buf))) (page + 4068)))
    ++ tail_events pi (page_off bt + r + 64) -> writes ev x -> ~ (kmem <= x < kmem + n * 4096).
Proof.
  pose proof (wr_room _ _ _ _ _ _ _ R) as [Hr0 _]. rewrite elem_of_app, elem_of_cons. intros Hev Hw Hx.
  destruct (blocks_apart x Hx) as [N1 N2]. destruct Hev as [[->|Hev]|Hev]; [done| |].
  - apply N1. pose proof (entry_events_writes _ ev x Hev Hw). unfold in_page. fold page. lia.
  - apply N2. pose proof (tail_events_writes _ ev x Hev Hw). lia.
Qed.

Lemma final_holds : holds_write (window s1 write_events).
Proof.
  destruct taken_frame as [Es En]. split_and!.
  - by rewrite window_sbc.
  - intros x Hx. rewrite window_nvmm, En. apply apply_evs_unwritten, Forall_forall. intros ev Hev Hw. by apply (unused ev x Hev Hw).
  - apply entry_loaded.
  - intros x Hx. rewrite window_nvmm. unfold write_events at 1. rewrite apply_evs_app. rewrite apply_evs_unwritten; [by apply copied_here|].
    apply Forall_forall. intros ev Hev Hw. apply (rest_apart ev (kmem + x) Hev Hw). lia.
Qed.

(** ** After a power failure *)

Lemma aligned : page mod 8 = 0 /\ kmem mod 8 = 0 /\ pi mod 8 = 0.
Proof.
  pose proof (wr_base _ _ _ _ _ _ _ R) as Hb. pose proof (wr_pi8 _ _ _ _ _ _ _ R) as Hp. fold h in Hp.
  assert (forall z, (virt_addr (sbc s) + z) mod 8 = z mod 8) as Hm by (intros z; by rewrite Zplus_mod, Hb, Z.add_0_l, Zmod_mod).
  unfold page, kmem, pi, inode_at, page_off. rewrite !Hm. replace (bt * 4096) with (bt * 512 * 8) by lia.
  replace (blk * 4096) with (blk * 512 * 8) by lia. by rewrite !Z_mod_mult.
Qed.

Section failure.
Context (r' : nova) (rest : list pm_event).
Context (RB : rebooted s r' (before_tail ++ EvFence :: rest)).
Context (Hrest : forall ev x, ev ∈ rest -> writes ev x -> pi + 72 <= x < pi + 80).

Lemma failed_unused x : file_uses s h x -> mget (nvmm r') x = mget (nvmm s) x.
Proof.
  intros Hu. apply (crash_unwritten _ _ _ _ (rb_mem _ _ _ RB)). apply Forall_forall. intros ev Hev Hw.
  apply elem_of_app in Hev as [Hev|[->|Hev]%elem_of_cons]; [|done|].
  - apply (unused ev x); [|done..]. rewrite write_events_split. apply elem_of_app. by left.
  - apply (wr_apart _ _ _ _ _ _ _ R x); [|done]. right; right. fold h pi. pose proof (Hrest ev x Hev Hw). lia.
Qed.

Lemma rest_silent w : w mod 8 = 0 -> w <> pi + 72 -> Forall (fun ev => ~ touches ev w) rest.
Proof.
  intros Hw Hne. apply Forall_forall. intros ev Hev (x & Hx & Hwr). pose proof (Hrest ev x Hev Hwr). destruct aligned as (_ & _ & Hp).
  pose proof (Z.div_mod w 8 ltac:(lia)). pose proof (Z.div_mod pi 8 ltac:(lia)). lia.
Qed.

Lemma failed_entry : load_bytes (nvmm r') e 64 = l.
Proof.
  pose proof (wr_room _ _ _ _ _ _ _ R) as [Hr0 Hfit]. unfold LOG_BLOCK_TAIL in Hfit. destruct aligned as (Ha & _ & Hp).
  destruct (write_entry_bytes h (nova_get_epoch_id s) P n blk (u32 now) (u64 size)) as [Hl _]. fold l in Hl.
  set (k := load 4 (nvmm (window s1 (copy_events s h pos len kmem buf))) (page + 4068)).
  set (e1 := copy_events s h pos len kmem buf ++ [EvFence; EvStore e (replicate 64 0)]).
  set (cnt := EvStore (page + 4068) (le_bytes 4 (u32 (k + 1))) :: flush_buffer_events (page + 4064) 32 false).
  assert (before_tail ++ EvFence :: rest = e1 ++ EvNtStore e l :: cnt ++ EvFence :: rest) as Ee
    by (unfold before_tail, e1, entry_events, cnt; fold k; by rewrite <- !app_assoc).
  apply list_eq_same_length with 64%nat; [done|by rewrite length_load_bytes|].
  intros i a b Hi Ea Eb. rewrite lookup_load_bytes in Ea by done. injection Ea as <-. set (x := e + Z.of_nat i).
  set (w := x - x mod 8). pose proof (Z.mod_pos_bound x 8 ltac:(lia)).
  assert (w mod 8 = 0) as Hw8 by (unfold w; by rewrite Zminus_mod, Zmod_mod, Z.sub_diag).
  pose proof (Z.div_mod w 8 ltac:(lia)). pose proof (Z.div_mod page 8 ltac:(lia)).
  assert (page <= w /\ w + 8 <= page + 4064) as [Hw1 Hw2] by (unfold w, x, e in *; lia).
  assert (load_bytes (nvmm r') w 8 = load_bytes (apply_evs (nvmm s) (e1 ++ [EvNtStore e l])) w 8) as El.
  { pose proof (rb_mem _ _ _ RB) as C. rewrite Ee in C. apply (crash_last _ _ _ _ _ _ C Hw8).
    - exists (EvNtStore e l). split_and!.
      + rewrite lookup_app_r by lia. by rewrite Nat.sub_diag.
      + exists x. split; [unfold w; lia|]. cbn [writes]. rewrite Hl. unfold x. lia.
      + right. split; [done|]. exists (length e1 + S (length cnt))%nat. split; [lia|].
        rewrite lookup_app_r by lia. replace (length e1 + S (length cnt) - length e1)%nat with (S (length cnt)) by lia. rewrite lookup_cons_ne_0 by lia.
        cbn [Nat.pred]. by rewrite lookup_app_r, Nat.sub_diag by lia.
    - apply Forall_app. split.
      + unfold cnt. constructor; [|apply no_store_untouched, flush_buffer_no_store]. intros (y & Hy & Hwr). cbn [writes] in Hwr. lia.
      + constructor; [by intros (y & _ & [])|]. apply rest_silent; [done|]. intros Ew.
        destruct (wr_log _ _ _ _ _ _ _ R w) as [_ Hn]; [unfold in_page; fold page; lia|]. apply Hn. fold h pi. lia. }
  rewrite (load_bytes_mget _ _ _ _ x El) by (unfold w; lia). rewrite apply_evs_app. cbn [apply_evs foldl apply_ev].
  rewrite mget_store_bytes, decide_True by (rewrite Hl; unfold x; lia).
  replace (Z.to_nat (x - e)) with i by (unfold x; lia). by rewrite Eb.
Qed.

Lemma failed_data x : kmem <= x < kmem + n * 4096 ->
  mget (nvmm r') x = mget (apply_evs (nvmm s) (copy_events s h pos len kmem buf)) x.
Proof.
  intros Hx. destruct aligned as (_ & Ha & Hp). set (E1 := copy_events s h pos len kmem buf).
  set (E2 := entry_events e page l (load 4 (nvmm (window s1 E1)) (page + 4068)) ++ EvFence :: rest).
  assert (before_tail ++ EvFence :: rest = (E1 ++ [EvFence]) ++ E2) as Ee by (unfold before_tail, E2; by rewrite <- !app_assoc).
  pose proof (rb_mem _ _ _ RB) as C. rewrite Ee in C.
  set (w := x - x mod 8). pose proof (Z.mod_pos_bound x 8 ltac:(lia)).
  assert (w mod 8 = 0) as Hw8 by (unfold w; by rewrite Zminus_mod, Zmod_mod, Z.sub_diag).
  pose proof (Z.div_mod w 8 ltac:(lia)). pose proof (Z.div_mod kmem 8 ltac:(lia)).
  assert (forall y, w <= y < w + 8 -> kmem <= y < kmem + n * 4096) as Hw.
  { intros y Hy. replace (n * 4096) with (8 * (n * 512)) in * by lia. unfold w in *. lia. }
  assert (Forall (fun ev => ~ touches ev w) E2) as U2.
  { apply Forall_forall. intros ev Hev (y & Hy & Hwr). specialize (Hw y Hy). unfold E2 in Hev. rewrite elem_of_app, elem_of_cons in Hev.
    destruct Hev as [Hev|[->|Hev]]; [|done|].
    - apply (rest_apart ev y); [|done..]. fold E1. apply elem_of_app. left. apply elem_of_cons. by right.
    - destruct (blocks_apart y Hw) as [_ Hn]. apply Hn. pose proof (Hrest ev y Hev Hwr). lia. }
  assert (load_bytes (nvmm r') w 8 = load_bytes (apply_evs (nvmm s) ((E1 ++ [EvFence]) ++ E2)) w 8) as El.
  { apply (crash_persisted _ _ _ w C Hw8). intros i ev Ei T. apply lookup_app_Some in Ei as [Ei|[_ Ei]].
    - apply (must_persist_mid [] _ E2 i w). by apply (staged_fence E1 (copy_staged s h pos len kmem buf) i ev w).
    - rewrite Forall_lookup in U2. by destruct (U2 _ _ Ei). }
  rewrite (load_bytes_mget _ _ _ _ x El) by (unfold w; lia). rewrite !apply_evs_app. cbn [apply_evs foldl apply_ev].
  apply apply_evs_unwritten. eapply Forall_impl; [exact U2|]. intros ev Hn Hwr. apply Hn. exists x. split; [unfold w; lia|done].
Qed.

Lemma failed_holds : holds_write r'.
Proof.
  split_and!; [apply (rb_sbc _ _ _ RB)|apply failed_unused|apply failed_entry|].
  intros x Hx. rewrite failed_data by lia. by apply (copied_here s).
Qed.
End failure.

Lemma before_apart ev x : ev ∈ before_tail -> writes ev x -> ~ (pi <= x < pi + 128).
Proof.
  pose proof (wr_room _ _ _ _ _ _ _ R) as [Hr0 _].
  unfold before_tail. rewrite elem_of_app, elem_of_cons. intros [Hev|[->|Hev]] Hw Hx; [|done|].
  - by destruct (blocks_apart x (copy_here ev x Hev Hw)).
  - pose proof (entry_events_writes _ ev x Hev Hw). destruct (wr_log _ _ _ _ _ _ _ R x) as [_ Hn]; [|by apply Hn].
    unfold in_page. fold page. lia.
Qed.

Lemma before_silent : Forall (fun ev => ~ touches ev (pi + 72)) (before_tail ++ [EvFence]).
Proof.
  apply Forall_app. split; [|constructor; [by intros (x & _ & [])|constructor]].
  apply Forall_forall. intros ev Hev (x & Hx & Hw). apply (before_apart ev x Hev Hw). lia.
Qed.

Lemma failed_tail r' k : rebooted s r' (take k write_events) ->
  (load 8 (nvmm r') (pi + 72) = page_off bt + r \/ load 8 (nvmm r') (pi + 72) = page_off bt + r + 64 /\ holds_write r') /\
  ((length write_events <= k)%nat -> load 8 (nvmm r') (pi + 72) = page_off bt + r + 64).
Proof.
  intros RB. destruct aligned as (_ & _ & Hp). pose proof (wr_page _ _ _ _ _ _ _ R) as [Pg1 Pg2]. pose proof (wr_dev _ _ _ _ _ _ _ R) as (Hv & Hsz & _).
  pose proof (wr_room _ _ _ _ _ _ _ R) as [Hr0 Hfit]. unfold LOG_BLOCK_TAIL in Hfit.
  assert ((pi + 72) mod 8 = 0) as Hw8 by (by rewrite Zplus_mod, Hp).
  pose proof (wr_pi_tail _ _ _ _ _ _ _ R) as Et. fold h pi in Et. set (t := page_off bt + r + 64) in *.
  set (F := flush_buffer_events (pi + 72) 64 true ++ flush_buffer_events pi 120 true).
  assert (write_events = (before_tail ++ [EvFence]) ++ EvStore (pi + 72) (le_bytes 8 t) :: F) as Ew
    by (rewrite write_events_split; unfold tail_events, F; by rewrite <- app_assoc).
  assert (load 8 (apply_evs (nvmm s) ((before_tail ++ [EvFence]) ++ [EvStore (pi + 72) (le_bytes 8 t)])) (pi + 72) = t) as Enew.
  { rewrite apply_evs_app. cbn [apply_evs foldl apply_ev]. unfold load.
    pose proof (load_store_bytes_same (apply_evs (nvmm s) (before_tail ++ [EvFence])) (pi + 72) (le_bytes 8 t)) as E0.
    rewrite length_le_bytes in E0. rewrite E0, le_val_le_bytes. apply Z.mod_small.
    change (8 * Z.of_nat 8) with 64. unfold t, page_off in *. lia. }
  set (b := before_tail ++ [EvFence]) in *.
  destruct (decide (k <= length b)%nat) as [Hle|Hgt].
  - assert (load 8 (nvmm r') (pi + 72) = page_off bt + r) as Eo.
    { rewrite <- Et. unfold load. f_equal. rewrite Ew, take_app_le in RB by done.
      apply (crash_untouched _ _ _ _ (rb_mem _ _ _ RB) Hw8). apply Forall_take, before_silent. }
    split; [by left|]. rewrite Ew, length_app. cbn [length]. lia.
  - rewrite Ew in RB. rewrite take_app_ge in RB by lia. destruct (k - length b)%nat as [|j] eqn:Ej; [lia|]. cbn [firstn take] in RB.
    assert (Forall (fun ev => ~ touches ev (pi + 72)) (take j F)) as UF
      by (apply Forall_take, no_store_untouched, Forall_app; split; apply flush_buffer_no_store).
    assert (holds_write r') as Hh.
    { apply (failed_holds r' (EvStore (pi + 72) (le_bytes 8 t) :: take j F)).
      - unfold b in RB. by rewrite <- app_assoc in RB.
      - intros ev x [->|Hev]%elem_of_cons Hw; [cbn [writes] in Hw; rewrite length_le_bytes in Hw; lia|].
        assert (ev ∈ F) as Hev' by (rewrite <- (take_drop j F); apply elem_of_app; by left). clear Hev. rename Hev' into Hev.
        unfold F in Hev. apply elem_of_app in Hev as [Hev|Hev]; by destruct (flush_silent _ _ _ ev x Hev). }
    split.
    + destruct (crash_single _ _ _ _ _ _ (rb_mem _ _ _ RB) Hw8 before_silent UF) as [E|E]; [left|right].
      * rewrite <- Et. unfold load. by rewrite E.
      * split; [|done]. rewrite <- Enew. unfold load. by rewrite E.
    + intros Hall. rewrite Ew, length_app in Hall. cbn [length] in Hall.
      assert (take j F = F) as EF by (apply firstn_all2; lia). rewrite EF in RB, UF.
      rewrite <- Enew. unfold load. f_equal. apply (crash_last _ _ _ _ _ _ (rb_mem _ _ _ RB) Hw8); [|done].
      replace (b ++ EvStore (pi + 72) (le_bytes 8 t) :: F) with (before_tail ++ tail_events pi t ++ [])
        by (rewrite app_nil_r; unfold b, F, tail_events; by rewrite <- app_assoc).
      replace (length b) with (length before_tail + 1)%nat by (unfold b; rewrite length_app; done).
      apply must_persist_mid. eapply (tail_events_durable pi t Hp 1%nat); [done|reflexivity|].
      exists (pi + 72). split; [lia|]. cbn [writes]. rewrite length_le_bytes. lia.
Qed.
End whole.

(** C2: a copy-on-write write of any bytes into pages the file does not have
    yet, when the allocator has a run of blocks and the page at the tail of the log
    room for an entry, succeeds and moves the position by its length; afterwards the
    file reads as before with the new bytes in place, its index is well-formed and
    its size covers the write.  A power failure at any point leaves the file that
    the old tail describes byte for byte as it was; the tail on the device is the
    old one or the new one, and if it is the new one the entry and all the
    data of the write are on the device as well; after the call has returned it is
    the new one. *)
Theorem do_nova_cow_file_write_atomic s s1 v pos len buf bt r blk now now2 d :
  (forall t p, radix_insert_ok t p = true) -> (forall a n, memcpy_mcsafe_rc a n = 0) -> data_csum = 0 -> data_parity = 0 ->
  write_ready s v pos len buf bt r ->
  nova_new_data_blocks 0 0 (copy_blocks pos len) false ANY_CPU ALLOC_FROM_HEAD s = Ok (copy_blocks pos len, blk) s1 ->
  exists evs v',
    let s' := window s1 evs in
    let tail := inode_at s (vn_h v) + 72 in
    do_nova_cow_file_write false v buf len pos now now2 d s = Ok (len, pos + len, v', d) s' /\
    vi_size (vn_i v') = Z.max (vi_size (vn_i v)) (pos + len) /\ file_wf s' (vn_h v') /\
    (forall x, file_byte s' (vn_h v') x =
       if decide (pos <= x < pos + len) then default 0 (buf !! Z.to_nat (x - pos)) else file_byte s (vn_h v) x) /\
    forall k r', rebooted s r' (take k evs) ->
      (forall x, file_byte r' (vn_h v) x = file_byte s (vn_h v) x) /\
      (load 8 (nvmm r') tail = page_off bt + r \/
       load 8 (nvmm r') tail = page_off bt + r + 64 /\
       load_bytes (nvmm r') (virt_addr (sbc s) + page_off bt + r) 64
         = nova_init_file_write_entry (vn_h v) (nova_get_epoch_id s) (pos / 4096) (copy_blocks pos len) blk (u32 now)
             (u64 (Z.max (vi_size (vn_i v)) (pos + len))) /\
       forall x, file_byte r' (vn_h v') x = file_byte s' (vn_h v') x) /\
      ((length evs <= k)%nat -> load 8 (nvmm r') tail = page_off bt + r + 64).
Proof.
  intros Hmem Hrc Hdc Hdp R A.
  set (evs := write_events s s1 v pos len buf bt r blk now). set (v' := written s v pos len bt r now).
  assert (grown_size (set_vi_times now (vn_i v)) pos len = Z.max (vi_size (vn_i v)) (pos + len)) as Eg.
  { unfold grown_size. cbn [set_vi_times vi_size]. destruct (Z.ltb_spec (vi_size (vn_i v)) (pos + len)); lia. }
  pose proof (final_holds s s1 v pos len buf bt r blk now R A) as Hf.
  exists evs, v'. cbn zeta. split_and!.
  - by apply cow_write_run.
  - rewrite <- Eg. unfold v', written, written_vnode, grown_size. cbn [vn_i set_vn_i set_vn_h set_vi_blocks set_vi_times vi_size].
    by destruct (vi_size (vn_i v) <? pos + len).
  - by apply (written_wf s s1 v pos len buf bt r blk now).
  - intros x. by apply (written_byte s s1 v pos len buf bt r blk now).
  - intros k r' RB. destruct (failed_tail s s1 v pos len buf bt r blk now R A r' k RB) as [Ht Hd]. split_and!; [|destruct Ht as [Ho|[Hn Hh]]|exact Hd].
    + intros x. apply used_byte; [apply RB|]. intros y Hy. apply (crash_unwritten _ _ _ _ (rb_mem _ _ _ RB)).
      apply Forall_take, Forall_forall. intros ev Hev Hw. by apply (unused s s1 v pos len buf bt r blk now R A ev y Hev Hw).
    + by left.
    + right. split_and!; [done| |].
      * destruct Hh as (_ & _ & El & _). rewrite <- Eg. exact El.
      * intros x. etrans; [exact (written_byte s s1 v pos len buf bt r blk now R A r' x Hh)|].
        symmetry. by apply (written_byte s s1 v pos len buf bt r blk now).
Qed.
End write.
