(* ===== verification/Super.v ===== *)
(** The super block (super.c, super.h): its checksum, its two copies on the
    device, and the choice between them at mount.

    The DRAM copy [sbi->nova_sb] is the list of its bytes, passed along.  The
    replica address of nova_get_nvmm_info is computed from the geometry.
    Each definition translates the C function of the same name. *)

From stdpp Require Import strings.
From S2P Require Import Prelude CInt Crc32c NovaEnv RangeNode Pmem NovaState NovaMonad NovaLib.
From S2P Require Import Balloc NovaLayout LogPage MetaCsum LogAppend.
From S2P Require Import Crash JournalSpec JournalRecover FileDataSpec.

Local Open Scope nova_scope.
Local Open Scope string_scope.
Local Open Scope list_scope.
Local Open Scope Z_scope.

Definition nova_super_block : struct := [
  ("s_sum", 4%nat); ("s_magic", 4%nat); ("s_padding32", 4%nat); ("s_blocksize", 4%nat);
  ("s_size", 8%nat); ("s_volume_name", 16%nat); ("s_epoch_id", 8%nat); ("s_mtime", 4%nat);
  ("s_wtime", 4%nat); ("s_padding8", 1%nat); ("s_metadata_csum", 1%nat); ("s_data_csum", 1%nat);
  ("s_data_parity", 1%nat)].
Definition NOVA_SUPER_MAGIC : Z := 0x4E4F5641.

Definition sb_get (f : string) (nova_sb : list Z) : Z := buf_field nova_super_block f nova_sb.
Definition sb_set (f : string) (v : Z) (nova_sb : list Z) : list Z := set_buf_field nova_super_block f v nova_sb.
Definition sb_len : nat := Z.to_nat (sizeof nova_super_block).

(** The module parameters a mount may change. *)
Record module_params := mkParams { mp_metadata_csum : Z; mp_data_csum : Z; mp_data_parity : Z }.

Section super.
Context `{NovaEnv, MediaLib}.

Definition nova_get_super (s : nova) : Z := virt_addr (sbc s).
Definition nova_get_redund_super (s : nova) : Z := virt_addr (sbc s) + initsize (sbc s) - PAGE_SIZE.

(** mprotect.h: no range check. *)
Definition nova_memunlock_super : M unit :=
  let! prot := gets is_protected in when prot (nova_writeable true ;;; ret tt).
Definition nova_memlock_super : M unit :=
  let! prot := gets is_protected in when prot (nova_writeable false ;;; ret tt).

(** ** The checksum skips [s_sum], the first four bytes *)
Definition super_crc (nova_sb : list Z) : Z := nova_crc32c (u32 (-1)) (take (sb_len - 4) (drop 4 nova_sb)).

Definition nova_check_super_checksum (nova_sb : list Z) : Z :=
  if sb_get "s_sum" nova_sb =? super_crc nova_sb then 0 else 1.

Definition nova_update_super_crc (seconds : Z) (nova_sb : list Z) : list Z :=
  let nova_sb := sb_set "s_sum" 0 (sb_set "s_wtime" seconds nova_sb) in
  sb_set "s_sum" (super_crc nova_sb) nova_sb.

(** ** Both copies *)
Definition nova_sync_super (nova_sb : list Z) : M unit :=
  let! super := gets nova_get_super in
  nova_memunlock_super ;;;
  let! super_redund := gets nova_get_redund_super in
  let! _ := memcpy_to_pmem_nocache super (take sb_len nova_sb) in
  PERSISTENT_BARRIER ;;;
  let! _ := memcpy_to_pmem_nocache super_redund (take sb_len nova_sb) in
  PERSISTENT_BARRIER ;;;
  nova_memlock_super.

(** [seconds] and [seconds'] are what the two calls of get_seconds return. *)
Definition nova_update_mount_time (seconds seconds' : Z) (nova_sb : list Z) : M (list Z) :=
  let mnt_write_time := Z.land seconds 0xFFFFFFFF in
  let mnt_write_time := Z.lor mnt_write_time (u64 (Z.shiftl mnt_write_time 32)) in
  let nova_sb := nova_update_super_crc seconds' (sb_set "s_mtime" mnt_write_time nova_sb) in
  nova_sync_super nova_sb ;;; ret nova_sb.

(** ** At mount *)

(** A copy that fails leaves its first bytes in the buffer. *)
Definition nova_check_super (ps : Z) (nova_sb : list Z) : M (Z * list Z) :=
  let! t := gets trace in
  let! r := (if unreadable t ps sb_len then
      let n := Nat.min sb_len (copied t ps sb_len) in
      let! l := pload_bytes n ps in ret (mcsafe_error t ps sb_len, l ++ drop n nova_sb)
    else let! l := pload_bytes sb_len ps in ret (0, l)) in
  let '(rc, nova_sb) := r in
  if rc <? 0 then ret (rc, nova_sb)
  else if negb (sb_get "s_magic" nova_sb =? NOVA_SUPER_MAGIC) then ret (- EIO, nova_sb)
  else if negb (nova_check_super_checksum nova_sb =? 0) then ret (- EIO, nova_sb)
  else ret (0, nova_sb).

Definition nova_check_module_params (nova_sb : list Z) (p : module_params) : module_params :=
  let p := if negb (sb_get "s_metadata_csum" nova_sb =? mp_metadata_csum p)
    then mkParams (sb_get "s_metadata_csum" nova_sb) (mp_data_csum p) (mp_data_parity p) else p in
  let p := if negb (sb_get "s_data_csum" nova_sb =? mp_data_csum p)
    then mkParams (mp_metadata_csum p) (sb_get "s_data_csum" nova_sb) (mp_data_parity p) else p in
  if negb (sb_get "s_data_parity" nova_sb =? mp_data_parity p)
    then mkParams (mp_metadata_csum p) (mp_data_csum p) (sb_get "s_data_parity" nova_sb) else p.

Definition module_params_now : module_params := mkParams metadata_csum data_csum data_parity.

(** The result, the DRAM copy and the module parameters. *)
Definition nova_check_integrity (nova_sb : list Z) : M (Z * list Z * module_params) :=
  let! super := gets nova_get_super in
  let! super_redund := gets nova_get_redund_super in
  let synced nova_sb :=
    nova_sync_super nova_sb ;;; ret (0, nova_sb, nova_check_module_params nova_sb module_params_now) in
  let! r := nova_check_super super nova_sb in
  let '(rc, nova_sb) := r in
  if rc <? 0 then
    let! r := nova_check_super super_redund nova_sb in
    let '(rc, nova_sb) := r in
    if rc <? 0 then nova_err ;;; ret (rc, nova_sb, module_params_now) else synced nova_sb
  else synced nova_sb.
End super.

(** ** Specification *)

(** Evaluates the offsets and sizes of fields. *)
Ltac sb_off :=
  repeat match goal with
  | |- context [Z.to_nat (offsetof nova_super_block ?f)] =>
      let v := eval vm_compute in (Z.to_nat (offsetof nova_super_block f)) in
      change (Z.to_nat (offsetof nova_super_block f)) with v
  | |- context [sizeof_field nova_super_block ?f] =>
      let v := eval vm_compute in (sizeof_field nova_super_block f) in
      change (sizeof_field nova_super_block f) with v
  end; try done; lia.

(** Word [k] of a super block. *)
Definition sb_word (k : nat) (l : list Z) : list Z := take 8 (drop (8 * k) l).
(** [l] is not [new], but each of its words is that of [new] or of [old]. *)
Definition torn (old new l : list Z) : Prop :=
  l <> new /\ forall k, (k < 8)%nat -> sb_word k l = sb_word k old \/ sb_word k l = sb_word k new.

Lemma length_sb_set f v l :
  (Z.to_nat (offsetof nova_super_block f) + sizeof_field nova_super_block f <= length l)%nat ->
  length (sb_set f v l) = length l.
Proof. intros. unfold sb_set, set_buf_field. rewrite !length_app, length_le_bytes, length_take, length_drop. lia. Qed.

Lemma sb_set_bytes f v l : Forall byteZ l -> Forall byteZ (sb_set f v l).
Proof. intros. unfold sb_set, set_buf_field. rewrite !Forall_app. auto using Forall_take, Forall_drop. Qed.

(** Bytes at offset [o] replaced by [x]. *)
Lemma read_replaced (o : nat) (x l : list Z) (p n : nat) :
  (o + length x <= length l)%nat -> (p + n <= o \/ o + length x <= p)%nat ->
  take n (drop p (take o l ++ x ++ drop (o + length x) l)) = take n (drop p l).
Proof.
  intros Hl Hd. apply list_eq. intros i. destruct (decide (i < n)%nat) as [Hi|Hi].
  2: { rewrite !lookup_ge_None_2; [done|rewrite length_take; lia..]. }
  rewrite !lookup_take, !decide_True, !lookup_drop by lia. destruct Hd as [Hd|Hd].
  - rewrite lookup_app_l by (rewrite length_take; lia). by rewrite lookup_take, decide_True by lia.
  - rewrite lookup_app_r by (rewrite length_take; lia). rewrite length_take, Nat.min_l by lia.
    rewrite lookup_app_r by lia. rewrite lookup_drop. f_equal. lia.
Qed.

Lemma read_written (o : nat) (x l : list Z) :
  (o + length x <= length l)%nat -> take (length x) (drop o (take o l ++ x ++ drop (o + length x) l)) = x.
Proof.
  intros Hl. rewrite drop_app_ge by (rewrite length_take; lia). rewrite length_take, Nat.min_l by lia.
  rewrite Nat.sub_diag, drop_0. by rewrite take_app_length.
Qed.

Lemma sb_get_set_other f g v l :
  (Z.to_nat (offsetof nova_super_block g) + sizeof_field nova_super_block g <= length l)%nat ->
  (Z.to_nat (offsetof nova_super_block f) + sizeof_field nova_super_block f <= Z.to_nat (offsetof nova_super_block g) \/
   Z.to_nat (offsetof nova_super_block g) + sizeof_field nova_super_block g <= Z.to_nat (offsetof nova_super_block f))%nat ->
  sb_get f (sb_set g v l) = sb_get f l.
Proof.
  intros Hl Hd. unfold sb_get, sb_set, buf_field, set_buf_field. f_equal.
  pose proof (read_replaced (Z.to_nat (offsetof nova_super_block g)) (le_bytes (sizeof_field nova_super_block g) v) l) as R.
  rewrite length_le_bytes in R. by apply R.
Qed.

Lemma sb_get_set_same f v l :
  (Z.to_nat (offsetof nova_super_block f) + sizeof_field nova_super_block f <= length l)%nat ->
  sb_get f (sb_set f v l) = v mod 2 ^ (8 * Z.of_nat (sizeof_field nova_super_block f)).
Proof.
  intros Hl. unfold sb_get, sb_set, buf_field, set_buf_field. rewrite <- le_val_le_bytes. f_equal.
  pose proof (read_written (Z.to_nat (offsetof nova_super_block f)) (le_bytes (sizeof_field nova_super_block f) v) l) as R.
  rewrite length_le_bytes in R. by apply R.
Qed.

Section super_spec.
Context {NE : NovaEnv} {CO : @CrcEnvOk nova_crc_env} {ML : MediaLib} {MN : McsafeNegative}.

Definition super_ok (l : list Z) : Prop :=
  length l = sb_len /\ sb_get "s_magic" l = NOVA_SUPER_MAGIC /\ nova_check_super_checksum l = 0.
#[global] Instance super_ok_dec l : Decision (super_ok l).
Proof. unfold super_ok. apply _. Defined.

(** The replaced checksum verifies. *)
Lemma nova_update_super_crc_ok sec l :
  length l = sb_len -> Forall byteZ l -> sb_get "s_magic" l = NOVA_SUPER_MAGIC ->
  super_ok (nova_update_super_crc sec l).
Proof.
  intros Hl Hb Hm. assert (length l = 60%nat) as Hl' by done. unfold nova_update_super_crc.
  set (l1 := sb_set "s_wtime" sec l). assert (length l1 = 60%nat) as H1 by (unfold l1; rewrite length_sb_set; sb_off).
  set (l2 := sb_set "s_sum" 0 l1). assert (length l2 = 60%nat) as H2 by (unfold l2; rewrite length_sb_set; sb_off).
  set (l3 := sb_set "s_sum" (super_crc l2) l2).
  assert (length l3 = 60%nat) as H3 by (unfold l3; rewrite length_sb_set; sb_off).
  assert (Forall byteZ l2) as B2 by (by apply sb_set_bytes, sb_set_bytes).
  split_and!; [done| |].
  - unfold l3. rewrite sb_get_set_other by sb_off. unfold l2. rewrite sb_get_set_other by sb_off.
    unfold l1. by rewrite sb_get_set_other by sb_off.
  - unfold nova_check_super_checksum. unfold l3 at 1. rewrite sb_get_set_same by sb_off.
    assert (super_crc l3 = super_crc l2) as -> by (unfold super_crc, l3, sb_set, set_buf_field; by f_equal).
    assert (0 <= super_crc l2 < 2 ^ 32) as Hr.
    { apply nova_crc32c_range; [vm_compute; by split|]. by apply Forall_take, Forall_drop. }
    rewrite Z.mod_small by sb_off. by rewrite Z.eqb_refl.
Qed.

Lemma update_super_crc_get f sec l : length l = 60%nat -> (4 <= Z.to_nat (offsetof nova_super_block f))%nat ->
  sb_get f (nova_update_super_crc sec l) = sb_get f (sb_set "s_wtime" sec l).
Proof.
  intros Hl Hf. unfold nova_update_super_crc.
  assert (length (sb_set "s_wtime" sec l) = 60%nat) as H1 by (rewrite length_sb_set; sb_off).
  assert (length (sb_set "s_sum" 0 (sb_set "s_wtime" sec l)) = 60%nat) as H2 by (rewrite length_sb_set; sb_off).
  rewrite sb_get_set_other; [rewrite sb_get_set_other; [done|..]|..]; revert Hf; generalize (Z.to_nat (offsetof nova_super_block f));
    generalize (sizeof_field nova_super_block f); intros n o Hf; sb_off.
Qed.

Lemma mount_time_low t :
  Z.lor (Z.land t 0xFFFFFFFF) (u64 (Z.shiftl (Z.land t 0xFFFFFFFF) 32)) mod 2 ^ (8 * Z.of_nat 4) = u32 t.
Proof.
  change 0xFFFFFFFF with (Z.ones 32). rewrite Z.land_ones by lia. change (8 * Z.of_nat 4) with 32.
  pose proof (Z.mod_pos_bound t (2 ^ 32)). rewrite Z.shiftl_mul_pow2 by lia.
  rewrite uwrap_small by (change (2 ^ 64) with (2 ^ 32 * 2 ^ 32); nia).
  rewrite <- Z.land_ones by lia. rewrite Z.land_lor_distr_l, !Z.land_ones by lia.
  rewrite Z.mod_mul, Z.lor_0_r, Z.mod_mod by lia. done.
Qed.

(** ** What a mount finds *)
Definition readable_copy (s : nova) (a : Z) : Prop := unreadable (trace s) a sb_len = false.
Definition copy_at (s : nova) (a : Z) : option (list Z) :=
  let l := load_bytes (nvmm s) a sb_len in
  if unreadable (trace s) a sb_len then None else if decide (super_ok l) then Some l else None.
Definition found (s : nova) : option (list Z) :=
  match copy_at s (nova_get_super s) with Some l => Some l | None => copy_at s (nova_get_redund_super s) end.

(** The device holds two pages at least, at an aligned address. *)
Record super_geo (s : nova) : Prop := {
  sg_virt : virt_addr (sbc s) mod 8 = 0;
  sg_size : 8192 <= initsize (sbc s) /\ initsize (sbc s) mod 8 = 0
}.

Lemma super_in s n : super_geo s -> (n <= 60)%nat ->
  in_pmem s (nova_get_super s) n = true /\ in_pmem s (nova_get_redund_super s) n = true.
Proof. intros [? []] ?. unfold nova_get_super, nova_get_redund_super, PAGE_SIZE. rewrite !in_pmem_spec. lia. Qed.

Definition sync_events (s : nova) (l : list Z) : list pm_event :=
  [EvNtStore (nova_get_super s) l; EvFence; EvNtStore (nova_get_redund_super s) l; EvFence].

Lemma nova_sync_super_run s l :
  super_geo s -> length l = sb_len -> nova_sync_super l s = Ok tt (window s (sync_events s l)).
Proof.
  intros G Hl. assert (length l = 60%nat) as Hl' by done. unfold nova_sync_super.
  rewrite (bind_ok _ _ s (nova_get_super s) s) by done.
  rewrite (bind_ok _ _ _ tt (unlocked s)) by (unfold nova_memunlock_super, bind, gets, unlocked; by destruct (is_protected s)).
  rewrite (bind_ok _ _ (unlocked s) (nova_get_redund_super s) (unlocked s))
    by (unfold gets, nova_get_redund_super; by rewrite unlocked_sbc).
  rewrite take_ge by lia. destruct (super_in s 60 G ltac:(lia)) as [I1 I2].
  assert (forall x e a, sbc x = sbc s -> writable x = true -> in_pmem s a 60 = true ->
    (let! _ := memcpy_to_pmem_nocache a l in PERSISTENT_BARRIER ;;; e) x = (e : M unit) (pm_step x [EvNtStore a l; EvFence])) as W.
  { intros x e a Ex Wx Ia. unfold memcpy_to_pmem_nocache, bind.
    rewrite pstore_bytes_run; [|unfold in_pmem in *; by rewrite Ex, Hl'|done].
    unfold ret, PERSISTENT_BARRIER, emit, modify. f_equal. unfold pm_write, pm_step. cbn. by rewrite <- app_assoc. }
  rewrite W; [|apply unlocked_sbc|apply writable_unlocked|done].
  rewrite W; [|apply unlocked_sbc|apply writable_unlocked|done].
  rewrite pm_step_app. unfold nova_memlock_super, bind, gets, window, locked.
  cbn [app]. fold (sync_events s l). set (y := pm_step _ _). by destruct (is_protected y).
Qed.

Lemma copy_at_some s a l : copy_at s a = Some l ->
  unreadable (trace s) a sb_len = false /\ super_ok l /\ load_bytes (nvmm s) a sb_len = l.
Proof. unfold copy_at. case_match; [done|]. case_decide; [|done]. intros [= <-]. done. Qed.

Lemma nova_check_super_good s a b l :
  in_pmem s a 60 = true -> copy_at s a = Some l -> nova_check_super a b s = Ok (0, l) s.
Proof.
  intros Hin (Hr & (_ & Hm & Hc) & El)%copy_at_some. unfold nova_check_super, bind, gets. rewrite Hr.
  unfold pload_bytes. change sb_len with 60%nat in *. rewrite Hin, El. unfold ret. cbn [Z.ltb Z.compare]. by rewrite Hm, Hc.
Qed.

Lemma nova_check_super_bad s a b :
  (forall n, (n <= 60)%nat -> in_pmem s a n = true) -> copy_at s a = None ->
  exists rc l', rc < 0 /\ nova_check_super a b s = Ok (rc, l') s.
Proof.
  intros Hin Hn. unfold copy_at in Hn. unfold nova_check_super, bind, gets, pload_bytes.
  destruct (unreadable (trace s) a sb_len).
  - pose proof (mcsafe_negative (trace s) a sb_len) as Hneg. eexists (mcsafe_error (trace s) a sb_len), _. split; [done|].
    rewrite Hin by (change sb_len with 60%nat; lia). unfold ret. by rewrite (proj2 (Z.ltb_lt _ _) Hneg).
  - rewrite Hin by (change sb_len with 60%nat; lia). set (l := load_bytes (nvmm s) a sb_len) in *.
    exists (- EIO), l. split; [done|]. unfold ret. cbn [Z.ltb Z.compare]. case_decide as D; [done|].
    destruct (Z.eqb_spec (sb_get "s_magic" l) NOVA_SUPER_MAGIC) as [Em|]; [|done]. cbn [negb].
    destruct (Z.eqb_spec (nova_check_super_checksum l) 0) as [Ec|]; [|done].
    exfalso. apply D. split_and!; [apply length_load_bytes|done..].
Qed.

(** Both copies after a synchronisation. *)
Lemma synced_copies s l : super_geo s -> length l = sb_len ->
  let m := apply_evs (nvmm s) (sync_events s l) in
  load_bytes m (nova_get_super s) sb_len = l /\ load_bytes m (nova_get_redund_super s) sb_len = l.
Proof.
  intros [? [? ?]] Hl. cbn [apply_evs sync_events foldl apply_ev]. rewrite <- Hl.
  assert (Z.of_nat (length l) = 60) as H60 by (rewrite Hl; done).
  rewrite load_bytes_store_other
    by (unfold nova_get_super, nova_get_redund_super, PAGE_SIZE; lia). by rewrite !load_store_bytes_same.
Qed.

Lemma nova_check_integrity_found s b l : super_geo s -> found s = Some l ->
  nova_check_integrity b s = Ok (0, l, nova_check_module_params l module_params_now) (window s (sync_events s l)).
Proof.
  intros G Hf. destruct (super_in s 60 G ltac:(lia)) as [I1 I2]. unfold nova_check_integrity.
  rewrite (bind_ok _ _ s (nova_get_super s) s), (bind_ok _ _ s (nova_get_redund_super s) s) by done.
  assert (length l = sb_len) as Hl.
  { unfold found in Hf. case_match eqn:E; simplify_eq.
    - by apply copy_at_some in E as (_ & [? _] & _).
    - by apply copy_at_some in Hf as (_ & [? _] & _). }
  unfold found in Hf. destruct (copy_at s (nova_get_super s)) as [l1|] eqn:E.
  - simplify_eq. rewrite (bind_ok _ _ s (0, l) s) by (by apply nova_check_super_good). cbn [Z.ltb Z.compare].
    by rewrite (bind_ok _ _ s tt (window s (sync_events s l))) by (by apply nova_sync_super_run).
  - destruct (nova_check_super_bad s (nova_get_super s) b) as (rc & l' & Hrc & E1); [|done|].
    { intros n Hn. by apply (super_in s n G Hn). }
    rewrite (bind_ok _ _ s _ _ E1), (proj2 (Z.ltb_lt _ _) Hrc).
    rewrite (bind_ok _ _ s (0, l) s) by (by apply nova_check_super_good). cbn [Z.ltb Z.compare].
    by rewrite (bind_ok _ _ s tt (window s (sync_events s l))) by (by apply nova_sync_super_run).
Qed.

Lemma check_module_params_eq l p : nova_check_module_params l p
  = mkParams (sb_get "s_metadata_csum" l) (sb_get "s_data_csum" l) (sb_get "s_data_parity" l).
Proof.
  destruct p as [a b c]. unfold nova_check_module_params. cbn [mp_metadata_csum].
  destruct (Z.eqb_spec (sb_get "s_metadata_csum" l) a) as [<-|]; cbn [negb mp_data_csum];
    destruct (Z.eqb_spec (sb_get "s_data_csum" l) b) as [<-|]; cbn [negb mp_data_parity];
    destruct (Z.eqb_spec (sb_get "s_data_parity" l) c) as [<-|]; done.
Qed.


(** ** Power failures *)
Lemma sb_word_load m a k : (k < 8)%nat ->
  sb_word k (load_bytes m a sb_len) = take (sb_len - 8 * k) (load_bytes m (a + 8 * Z.of_nat k) 8).
Proof.
  intros Hk. unfold sb_word. change sb_len with 60%nat. apply list_eq. intros i.
  destruct (decide (i < 8 /\ i < 60 - 8 * k)%nat) as [Hi|Hi].
  - rewrite !lookup_take, !decide_True, lookup_drop, !lookup_load_bytes by lia. do 2 f_equal. lia.
  - rewrite !lookup_ge_None_2; [done|rewrite ?length_take, ?length_drop, ?length_load_bytes; lia..].
Qed.

Lemma sb_words_eq l1 l2 : length l1 = sb_len -> length l2 = sb_len ->
  (forall k, (k < 8)%nat -> sb_word k l1 = sb_word k l2) -> l1 = l2.
Proof.
  change sb_len with 60%nat. intros E1 E2 Hw. apply list_eq. intros i. destruct (decide (i < 60)%nat) as [Hi|Hi].
  2: { rewrite !lookup_ge_None_2; [done|lia..]. }
  pose proof (Nat.div_mod_eq i 8). pose proof (Nat.mod_upper_bound i 8 ltac:(lia)).
  specialize (Hw (i / 8)%nat ltac:(apply Nat.Div0.div_lt_upper_bound; lia)).
  apply (f_equal (fun l => l !! (i mod 8)%nat)) in Hw. unfold sb_word in Hw.
  rewrite !lookup_take, !decide_True, !lookup_drop in Hw by lia. by rewrite <- Nat.div_mod_eq in Hw.
Qed.

Section sync_crash.
Context (s r : nova) (new : list Z) (K : nat).
Context (G : super_geo s) (Hnew : super_ok new) (RB : rebooted s r (take K (sync_events s new))).
Local Abbreviation P := (nova_get_super s).
Local Abbreviation R := (nova_get_redund_super s).

Lemma apart_supers : P mod 8 = 0 /\ R mod 8 = 0 /\ P + 4096 <= R.
Proof.
  destruct G as [G1 [G2 G3]]. unfold nova_get_super, nova_get_redund_super, PAGE_SIZE. split_and!; [done| |lia].
  rewrite Zminus_mod, Zplus_mod, G1, G3. done.
Qed.

Lemma word_aligned a k : a mod 8 = 0 -> (a + 8 * Z.of_nat k) mod 8 = 0.
Proof. intros E. rewrite Z.mul_comm, Z.mod_add by lia. done. Qed.

(** Before the second store, the replica is as it was. *)
Lemma replica_kept : (K <= 2)%nat -> load_bytes (nvmm r) R sb_len = load_bytes (nvmm s) R sb_len.
Proof.
  intros HK. destruct apart_supers as (_ & _ & Hd). destruct Hnew as [Hl _].
  apply load_bytes_ext. intros x Hx. apply (crash_unwritten _ _ _ _ (rb_mem _ _ _ RB)).
  assert (Z.of_nat (length new) = 60) as H60 by (rewrite Hl; done).
  destruct K as [|[|[|]]]; cbn [take sync_events]; repeat constructor; cbn [writes]; lia.
Qed.

(** Each word of the first copy is old or new, and new after the fence. *)
Lemma first_word k : (k < 8)%nat ->
  let new_word := sb_word k (load_bytes (nvmm r) P sb_len) = sb_word k new in
  ((K <= 2)%nat -> sb_word k (load_bytes (nvmm r) P sb_len) = sb_word k (load_bytes (nvmm s) P sb_len) \/ new_word) /\
  ((2 < K)%nat -> new_word).
Proof.
  intros Hk. destruct apart_supers as (A1 & _ & Hd). destruct Hnew as [Hl _].
  assert (Z.of_nat (length new) = 60) as H60 by (rewrite Hl; done).
  destruct (rb_mem _ _ _ RB _ (word_aligned P k A1)) as (j & Hj & Hmust & E).
  assert (forall m, load_bytes (store_bytes m P new) P sb_len = new) as Hst.
  { intros m. rewrite <- Hl. apply load_store_bytes_same. }
  assert (forall m, load_bytes (store_bytes m R new) (P + 8 * Z.of_nat k) 8 = load_bytes m (P + 8 * Z.of_nat k) 8) as Hoth.
  { intros m. apply load_bytes_store_other. lia. }
  assert ((0 < j)%nat -> sb_word k (load_bytes (nvmm r) P sb_len) = sb_word k new) as Hpos.
  { intros Hp. rewrite sb_word_load, E by done. rewrite <- (Hst (nvmm s)) at 2. rewrite sb_word_load by done. f_equal.
    rewrite take_take. destruct (Nat.min j K) as [|[|[|[|n]]]] eqn:Em; cbn [take sync_events apply_evs foldl apply_ev]; [|done..|].
    - destruct K; [cbn in Hj; lia|lia].
    - destruct n; cbn [take foldl apply_ev]; apply Hoth. }
  cbn zeta. split.
  - intros HK. destruct j as [|j]; [|right; apply Hpos; lia]. left. rewrite !sb_word_load, E by done. done.
  - intros HK. apply Hpos. destruct j as [|j]; [|lia]. exfalso. apply (Hmust 0%nat); [lia|].
    exists (EvNtStore P new). destruct K as [|[|[|n]]]; [lia..|]. split_and!; [done| |].
    + exists (P + 8 * Z.of_nat k). cbn [writes]. lia.
    + right. split; [done|]. exists 1%nat. split; [lia|done].
Qed.

Lemma sync_crash_found old :
  load_bytes (nvmm s) R sb_len = old -> super_ok old -> readable_copy r P -> readable_copy r R ->
  exists l, found r = Some l /\ ((2 < K)%nat -> l = new) /\
    (l = old \/ l = new \/ torn (load_bytes (nvmm s) P sb_len) new l).
Proof.
  intros Eo Ho RP RR. assert (nova_get_super r = P /\ nova_get_redund_super r = R) as [EP ER].
  { unfold nova_get_super, nova_get_redund_super. by rewrite (rb_sbc _ _ _ RB). }
  unfold found, copy_at. rewrite EP, ER, RP, RR. set (lp := load_bytes (nvmm r) P sb_len).
  assert (length lp = sb_len) as Hlp by apply length_load_bytes.
  destruct (decide (2 < K)%nat) as [HK|HK].
  - assert (lp = new) as ->.
    { apply sb_words_eq; [done|apply Hnew|]. intros k Hk. by apply first_word. }
    rewrite decide_True by done. exists new. auto.
  - destruct (decide (super_ok lp)) as [Hp|Hp].
    + exists lp. split_and!; [done|lia|]. destruct (decide (lp = new)) as [|Hne]; [auto|].
      right; right. split; [done|]. intros k Hk. apply first_word; [done|lia].
    + exists old. rewrite replica_kept, Eo by lia. rewrite decide_True by done. split_and!; [done|lia|auto].
Qed.
End sync_crash.

(** C9: the mount time is written to both copies of the super block,
    with a checksum that verifies.  When power fails at any point of the update, the
    next mount succeeds with the old super block, the new one, or a first copy whose
    words are partly old and partly new and whose checksum verifies all the same;
    once the update has returned it is the new one. *)
Theorem nova_update_mount_time_atomic s nova_sb sec sec' old :
  super_geo s -> length nova_sb = sb_len -> Forall byteZ nova_sb -> sb_get "s_magic" nova_sb = NOVA_SUPER_MAGIC ->
  load_bytes (nvmm s) (nova_get_redund_super s) sb_len = old -> super_ok old ->
  exists new evs, nova_update_mount_time sec sec' nova_sb s = Ok new (window s evs) /\
    super_ok new /\ sb_get "s_mtime" new = u32 sec /\ sb_get "s_wtime" new = u32 sec' /\
    forall k r b, rebooted s r (take k evs) ->
      readable_copy r (nova_get_super s) -> readable_copy r (nova_get_redund_super s) ->
      exists l s', nova_check_integrity b r = Ok (0, l, nova_check_module_params l module_params_now) s' /\
        (l = old \/ l = new \/ torn (load_bytes (nvmm s) (nova_get_super s) sb_len) new l) /\
        ((length evs <= k)%nat -> l = new).
Proof.
  intros G Hl Hb Hm Eo Ho. unfold nova_update_mount_time.
  set (t := Z.lor _ _). set (sb1 := sb_set "s_mtime" t nova_sb). set (new := nova_update_super_crc sec' sb1).
  assert (length nova_sb = 60%nat) as Hl' by done.
  assert (length sb1 = 60%nat) as H1 by (unfold sb1; rewrite length_sb_set; sb_off).
  assert (super_ok new) as Hnew.
  { apply nova_update_super_crc_ok; [done|by apply sb_set_bytes|]. unfold sb1. by rewrite sb_get_set_other by sb_off. }
  exists new, (sync_events s new). split_and!; [|done| | |].
  - rewrite (bind_ok _ _ s tt (window s (sync_events s new))); [done|]. apply nova_sync_super_run; [done|apply Hnew].
  - unfold new. rewrite update_super_crc_get by (done || sb_off). rewrite sb_get_set_other by sb_off.
    unfold sb1. rewrite sb_get_set_same by sb_off. apply mount_time_low.
  - unfold new. rewrite update_super_crc_get by (done || sb_off). by rewrite sb_get_set_same by sb_off.
  - intros k r b RB RP RR. destruct (sync_crash_found s r new k G Hnew RB old Eo Ho RP RR) as (l & Hf & Hd & Hc).
    exists l. eexists. split; [|split; [done|]].
    + apply nova_check_integrity_found; [|done]. destruct G. split; by rewrite (rb_sbc _ _ _ RB).
    + cbn [length sync_events]. intros. apply Hd. lia.
Qed.
End super_spec.
