(* ===== verification/NameiExample.v ===== *)
(** Creating an inode on a small device: CPU 1's journal is the page at block 400,
    the new inode and its directory lie at blocks 500 and 502; neither metadata nor
    node checksums.  Then a file on that device is read and part of it is copied
    for a write. *)

From stdpp Require Import strings.
From S2P Require Import Prelude CInt Crc32c NovaEnv RangeNode Pmem NovaState NovaMonad NovaLib.
From S2P Require Import Balloc BallocSpec BallocAlloc BallocExample NovaLayout Parity LogPageSpec InodeTable Journal Crash JournalSpec JournalRecover JournalTx LogExample.
From S2P Require Import MetaCsum LogEntry Snapshot FileTree DirTree Rebuild LogAppend MetaExample TreeExample VfsInode Namei NameiSpec FileData FileDataSpec CowWriteSpec.

Local Open Scope Z_scope.

Module NameiExample.
Import BallocExample MetaExample SnapshotExample DirExample FileTreeExample JournalExample.
Local Open Scope nova_scope.

Definition vnode_of (b : inode_header) : vnode :=
  mkVnode (mkInode 0x81A4 0 0 0 0 0 0 1 0 0) 0 0 (set_ih_base b (nova_init_header 0x81A4)).
Definition cache : icache := mkIcache {[33 := vnode_of file; 34 := vnode_of dir]} 0.
Definition upd : inode_update := mkUpdate (601 * 4096 + 56) 0 0 0 0 0.

(** CPU 1 runs; head and tail of its journal are at the first entry. *)
Definition cs : nova := set_nvmm (store 8 (store 8 ∅ (P + 64) J) (P + 72) J) BallocExample.s0.

#[local] Existing Instance CrcExample.env_ok.
#[local] Existing Instance plain.

Lemma plain_pre : @tx_pre plain (@unlocked plain cs) 1 J 0 (@inode_reqs plain cs file true false false ++ @inode_reqs plain cs dir true false true).
Proof.
  split.
  - split; try reflexivity; vm_compute; intuition congruence.
  - split; vm_compute; reflexivity.
  - vm_compute; reflexivity.
  - unfold unlocked. destruct (is_protected cs); apply mem_bytes_store, mem_bytes_store, mem_bytes_empty.
  - cbn. lia.
  - repeat constructor; vm_compute; intuition congruence.
  - intros sih x [E|[E|E%elem_of_nil]%elem_of_cons]%elem_of_cons; done.
Qed.

Lemma nova_lite_transaction_for_new_inode_atomic_witness :
  exists evs c' s', @nova_lite_transaction_for_new_inode plain (base + 500 * 4096) (base + 502 * 4096) 33 34 upd cache empty_snaps cs = Ok (tt, c', empty_snaps) s' /\
    forall r, rebooted cs r evs ->
      @mounted plain cs 1 J (store 1 (store 8 (nvmm cs) (base + 502 * 4096 + 72) (601 * 4096 + 56)) (base + 500 * 4096 + 1) 1) r.
Proof.
  destruct (nova_lite_transaction_for_new_inode_atomic (H := plain) eq_refl cs cache empty_snaps J 0 33 34 (vnode_of file) (vnode_of dir) upd)
    as (evs & E & Hc).
  - vm_compute; reflexivity.
  - vm_compute; reflexivity.
  - split_and!; vm_compute; reflexivity.
  - split_and!; vm_compute; reflexivity.
  - vm_compute; reflexivity.
  - vm_compute; reflexivity.
  - exact plain_pre.
  - eexists evs, _, _. split; [exact E|]. intros r Hr. apply (Hc (length evs) r); [by rewrite firstn_all|done].
Defined.
End NameiExample.

Module FileDataExample.
Import BallocExample MetaExample SnapshotExample DirExample FileTreeExample.
Local Open Scope nova_scope.
Local Open Scope list_scope.

#[local] Instance user_lib : UserLib := {|
  access_ok := fun _ => true;
  copy_from_user := fun l n => Z.min n (Z.of_nat (length l));
  copy_to_user := fun w n => Z.min n (Z.max 0 w);
  file_remove_privs := fun _ => 0;
  inode_newsize_ok := fun _ _ => 0;
  generic_file_llseek := fun _ offset _ pos => (offset, offset)
|}.
#[local] Instance user_lib_ok : UserLibOk user_lib.
Proof. split; cbn; intros; lia. Qed.
#[local] Instance parity_env : ParityEnv := {| cpu_has_xmm2 := true |}.

(** Pages 0 and 1 are the blocks 700 and 701; page 1 ends with 10 20 30 40. *)
Definition fm : mem :=
  store_bytes (store 4 (store 8 ∅ (w1 + 8) (700 * 4096)) (w1 + 4) 2) (base + 702 * 4096 - 4) [10; 20; 30; 40].
Definition fs : nova := set_nvmm fm (set_cr0_wp true s1).
Definition fh : info_header := set_ih_tree {[ 0 := w1; 1 := w1 ]} (nova_init_header 0x81A4).
Definition fi : vfs_inode := mkInode 0x81A4 0 0 0 0 0 9000 1 0 0.

Lemma fh_entry p : nova_get_write_entry fh p <> 0 -> (p = 0 \/ p = 1) /\ nova_get_write_entry fh p = w1.
Proof.
  unfold nova_get_write_entry. cbn [fh set_ih_tree ih_tree]. intros Hp.
  destruct (decide (p = 0)) as [->|N0]; [by auto|]. destruct (decide (p = 1)) as [->|N1]; [by auto|].
  exfalso. apply Hp. rewrite lookup_insert_ne, lookup_singleton_ne by congruence. done.
Qed.

Lemma fs_wf : file_wf fs fh.
Proof.
  split_and!; [done|done|done|]. intros p [Hp ->]%fh_entry. split; try (vm_compute; reflexivity); try (vm_compute; intuition congruence).
  - assert (we_pgoff fs w1 = 0) as -> by (vm_compute; reflexivity). assert (we_num fs w1 = 2) as -> by (vm_compute; reflexivity). lia.
  - intros _ q Hq. assert (we_pgoff fs w1 = 0) as E1 by (vm_compute; reflexivity). assert (we_num fs w1 = 2) as E2 by (vm_compute; reflexivity).
    rewrite E1, E2 in Hq. assert (q = 0 \/ q = 1) as [-> | ->] by lia; vm_compute; reflexivity.
Qed.

(** Eight bytes from the last two of page 1 on, six of them in a hole. *)
Lemma do_dax_mapping_read_correct_witness :
  @do_dax_mapping_read plain (media []) parity_env user_lib fi fh 8 8 8190 fs = Ok (8, [30; 40; 0; 0; 0; 0; 0; 0], 8198) fs.
Proof.
  assert (file_bytes fs fh 8190 8 = [30; 40; 0; 0; 0; 0; 0; 0]) as <- by (vm_compute; reflexivity).
  apply (do_dax_mapping_read_correct (H := plain) (H1 := media []) (H6 := user_lib) eq_refl eq_refl fs fi fh 8 8 8190 fs_wf eq_refl); cbn; lia.
Defined.

(** Three bytes at 8187, copied into block 800. *)
Lemma write_copy_correct_witness :
  exists evs, @write_copy plain (media []) user_lib fh true 8187 4091 3 (nova_get_block_off 800 0) [1; 2; 3] fs
      = Ok (inr 3) (@window plain fs evs) /\
    forall r, rebooted fs r (evs ++ [EvFence]) -> mget (nvmm r) (base + 800 * 4096 + 4094) = 30 /\
      mget (nvmm r) (base + 800 * 4096 + 4092) = 2.
Proof.
  destruct (write_copy_correct (H := plain) (H1 := media []) (H6 := user_lib) eq_refl (fun _ _ => eq_refl) fs fh 8187 3 800 [1; 2; 3] fs_wf)
    as (evs & E & _ & C).
  - split; vm_compute; reflexivity.
  - reflexivity.
  - lia.
  - lia.
  - cbn; lia.
  - lia.
  - vm_compute; congruence.
  - intros p e He. destruct (fh_entry p He) as [Hp Ee]. subst e. rewrite Ee.
    destruct Hp as [-> | ->]; split; vm_compute; intuition congruence.
  - exists evs. split; [exact E|]. intros r Hr.
    split; [etrans; [apply (C r 4094 Hr); vm_compute; intuition congruence|]|
      etrans; [apply (C r 4092 Hr); vm_compute; intuition congruence|]]; vm_compute; reflexivity.
Defined.

(** A device with its free lists; what is in use here lies in its first 64 blocks:
    the inode at block 5, its log at block 10, pages 0 and 1 at blocks 20 and 21. *)
Definition we : Z := base + 10 * 4096 + 64.
Definition wm : mem :=
  store 8 (store_bytes (store 4 (store 8 ∅ (we + 8) (20 * 4096)) (we + 4) 2) (base + 22 * 4096 - 4) [10; 20; 30; 40])
    (base + 5 * 4096 + 72) (10 * 4096 + 128).
Definition ws : nova := set_nvmm wm LogGcExample.ps1.
Definition wh : info_header :=
  set_ih_base (mkSih 33 (5 * 4096) 0 0 (10 * 4096) (10 * 4096 + 128) 0 0) (set_ih_tree {[ 0 := we; 1 := we ]} (nova_init_header 0x81A4)).
Definition wv : vnode := mkVnode (mkInode 0x81A4 0 0 0 0 0 8192 1 0 0) 0 0 wh.

Lemma wh_entry p : nova_get_write_entry wh p <> 0 -> (p = 0 \/ p = 1) /\ nova_get_write_entry wh p = we.
Proof.
  unfold nova_get_write_entry. cbn [wh set_ih_base set_ih_tree ih_tree]. intros Hp.
  destruct (decide (p = 0)) as [->|N0]; [by auto|]. destruct (decide (p = 1)) as [->|N1]; [by auto|].
  exfalso. apply Hp. rewrite lookup_insert_ne, lookup_singleton_ne by congruence. done.
Qed.

Lemma ws_free x : is_free ws x -> base + 64 * 4096 <= x.
Proof.
  intros (c & Hf & Hx). apply existsb_lookup in Hf as (i & fl & Hi & Hf). apply (fl_free_bounds _ _ _ (aw_list _ LogGcExample.ps1_wf _ _ Hi)) in Hf.
  assert (64 <= block_start fl) as Hb.
  { change (free_lists ws) with (free_lists LogGcExample.ps1) in Hi. destruct i as [|[|i]]; vm_compute in Hi; [injection Hi as <-..|done]; vm_compute; congruence. }
  unfold in_page, page_off in Hx. change (virt_addr (sbc ws)) with base in Hx. lia.
Qed.

Lemma we_fields : we_pgoff ws we = 0 /\ we_num ws we = 2 /\ we_block ws we = 20 * 4096.
Proof. split_and!; vm_compute; reflexivity. Qed.

Lemma we_page p : we_nvmm ws we p = 20 + p.
Proof. destruct we_fields as (E1 & _ & E3). unfold we_nvmm. rewrite E1, E3. change (Z.shiftr (20 * 4096) PAGE_SHIFT) with 20. lia. Qed.

Lemma ws_uses x : file_uses ws wh x -> we <= x < we + 64 \/ base + 20 * 4096 <= x < base + 22 * 4096.
Proof.
  intros (p & Hp & Hx). destruct (wh_entry p Hp) as [Hpp Ee]. rewrite Ee, we_page in Hx. change (virt_addr (sbc ws)) with base in Hx.
  destruct Hx as [Hx|Hx]; [by left|right; lia].
Qed.

Lemma ws_wf : file_wf ws wh.
Proof.
  destruct we_fields as (E1 & E2 & _). split_and!; [done|done|done|]. intros p [Hp ->]%wh_entry. split; rewrite ?we_page, ?E1, ?E2.
  - vm_compute; reflexivity.
  - lia.
  - lia.
  - lia.
  - vm_compute; congruence.
  - intros _ q Hq. assert (q = 0 \/ q = 1) as [-> | ->] by lia; vm_compute; reflexivity.
Qed.

(** Three bytes behind the end of the file, in page 2. *)
Lemma ws_ready : @write_ready plain user_lib ws wv 8292 3 [7; 8; 9] 10 128.
Proof.
  split.
  - exact ws_wf.
  - split; vm_compute; reflexivity.
  - vm_compute; reflexivity.
  - split_and!; [vm_compute; reflexivity..|]. intros i fl Hi. change (free_lists ws) with (free_lists LogGcExample.ps1) in Hi.
    destruct i as [|[|i]]; vm_compute in Hi; [injection Hi as <-..|done]; vm_compute; congruence.
  - apply (@alloc_wf_same plain LogGcExample.ps1); [apply LogGcExample.ps1_wf|done..].
  - left. split; vm_compute; congruence.
  - intros _. reflexivity.
  - reflexivity.
  - reflexivity.
  - lia.
  - lia.
  - cbn; lia.
  - reflexivity.
  - reflexivity.
  - intros p Hp. change (8292 / 4096) with 2 in Hp. change (copy_blocks 8292 3) with 1 in Hp. assert (p = 2) as -> by lia. vm_compute. reflexivity.
  - split; vm_compute; congruence.
  - unfold LOG_BLOCK_TAIL. lia.
  - reflexivity.
  - split; vm_compute; congruence.
  - reflexivity.
  - vm_compute; reflexivity.
  - intros x Hx Hu. apply ws_uses in Hu. unfold inode_at in Hx. change (virt_addr (sbc ws)) with base in Hx. unfold page_off in Hx.
    change (pi_addr (ih_base (vn_h wv))) with (5 * 4096) in Hx. unfold we in Hu. destruct Hx as [Hx%ws_free|Hx]; lia.
  - intros x Hx. unfold in_page, page_off in Hx. change (virt_addr (sbc ws)) with base in Hx. unfold inode_at.
    change (virt_addr (sbc ws)) with base. change (pi_addr (ih_base (vn_h wv))) with (5 * 4096). split; [intros ?%ws_free; lia|lia].
  - intros x Hx%ws_free. unfold inode_at. change (virt_addr (sbc ws)) with base. change (pi_addr (ih_base (vn_h wv))) with (5 * 4096). lia.
Qed.

Definition ws1 : nova :=
  match @nova_new_data_blocks plain RbExample.lib 0 0 1 false ANY_CPU ALLOC_FROM_HEAD ws with Ok _ x => x | Fault _ => ws end.

Lemma do_nova_cow_file_write_atomic_witness :
  exists evs v' s', @do_nova_cow_file_write plain RbExample.lib (media []) kmalloc_lib radix_lib parity_env user_lib
      false wv [7; 8; 9] 3 8292 1000 0 empty_snaps ws = Ok (3, 8295, v', empty_snaps) s' /\
    vi_size (vn_i v') = 8295 /\ file_byte s' (vn_h v') 8293 = 8 /\ file_byte s' (vn_h v') 8200 = 0 /\ file_byte s' (vn_h v') 8191 = 40 /\
    forall r, rebooted ws r evs -> file_byte r (vn_h v') 8293 = 8 /\ file_byte r wh 8191 = 40.
Proof.
  destruct (do_nova_cow_file_write_atomic (H := plain) (H0 := RbExample.lib) (H1 := media []) (H2 := kmalloc_lib) (H3 := radix_lib)
    (H4 := parity_env) (H6 := user_lib) (RO := RbExample.lib_ok) eq_refl (fun _ _ => eq_refl)
    ws ws1 wv 8292 3 [7; 8; 9] 10 128 2292 1000 0 empty_snaps) as (evs & v' & E & Ez & _ & Eb & C).
  - reflexivity.
  - reflexivity.
  - reflexivity.
  - reflexivity.
  - exact ws_ready.
  - vm_compute. reflexivity.
  - eexists evs, v', _. split; [exact E|]. rewrite !Eb. split_and!; [exact Ez|vm_compute; reflexivity..|].
    intros r Hr. destruct (C (length evs) r) as (C1 & C2 & C3); [by rewrite firstn_all|]. specialize (C3 (le_n _)).
    destruct C2 as [C2|(_ & _ & C2)]; [exfalso; rewrite C2 in C3; discriminate C3|]. rewrite C2, C1, Eb. split; vm_compute; reflexivity.
Defined.
End FileDataExample.
