(* ===== verification/SnapshotOps.v ===== *)
(** Snapshots as a whole (snapshot.c): walking and releasing the lists, the
    background cleaner, creation of the table's records, deletion, and the
    copies of the lists on the device.

    The memory of a [struct snapshot_info] itself is not modelled; the two
    allocations it needs are flags.  [mount_snapshot] is the flag of struct
    nova_sb_info.
    Each definition translates the C function of the same name. *)

From stdpp Require Import strings.
From S2P Require Import Prelude CInt Crc32c NovaEnv RangeNode Pmem NovaState NovaMonad NovaLib.
From S2P Require Import Balloc NovaLayout LogPage InodeTable Checksum Parity MetaCsum LogEntry Snapshot FileTree DirTree Rebuild VfsInode.

Local Open Scope nova_scope.
Local Open Scope string_scope.
Local Open Scope list_scope.
Local Open Scope Z_scope.

Definition NOVA_SNAPSHOT_INO : Z := 6.

(** Entries the DRAM pages have room for. *)
Definition list_fuel (d : snapshots) : nat := size (dram_pages d) * 128 + 1.

Section snapshot_ops.
Context `{NovaEnv, RbLib, MediaLib, KmallocLib, RadixLib, ParityEnv}.

(** ** Walking a list *)

(** The top of a round: the position of the next entry, [None] at the end. *)
Definition list_cursor (curr_p tail : Z) : SM (option (Z * bool)) :=
  do! b := goto_next_list_page curr_p in
  do! p := (if b : bool then next_list_page curr_p else sret curr_p) in
  if (b : bool) && (p =? tail) then sret None else sret (Some (p, b)).

Definition delete_entry (mount_snapshot : bool) (addr : Z) : SM unit :=
  do! type := dload 1 addr in
  if type =? SS_INODE then
    do! deleted := dload_field snapshot_inode_entry addr "deleted" in
    if deleted =? 0 then
      do! ino := dload_field snapshot_inode_entry addr "nova_ino" in
      do! _ := nova_delete_dead_inode mount_snapshot ino in sret tt
    else sret tt
  else if type =? SS_FILE_WRITE then
    do! deleted := dload_field snapshot_file_write_entry addr "deleted" in
    if deleted =? 0 then
      do! nvmm := dload_field snapshot_file_write_entry addr "nvmm" in
      do! num := dload_field snapshot_file_write_entry addr "num_pages" in
      do! _ := lift (nova_free_data_blocks NOVA_DEFAULT_BLOCK_TYPE nvmm (s32 num)) in sret tt
    else sret tt
  else lift nova_err.

Fixpoint delete_entries_loop (fuel : nat) (mount_snapshot : bool) (curr_p tail : Z) : SM unit :=
  if curr_p =? tail then sret tt
  else
    match fuel with
    | O => sraise FFuel
    | S fuel =>
        do! c := list_cursor curr_p tail in
        match c with
        | None => sret tt
        | Some (p, _) =>
            if p =? 0 then lift nova_err ,,, sraise FBug
            else
              delete_entry mount_snapshot p ,,,
              delete_entries_loop fuel mount_snapshot (u64 (p + 32)) tail
        end
    end.

Definition nova_delete_snapshot_list_entries (mount_snapshot : bool) (l : snapshot_list) : SM Z :=
  if (sl_head l =? 0) && (sl_tail l =? 0) then sret 0
  else
    do! fuel := sgets list_fuel in
    delete_entries_loop fuel mount_snapshot (sl_head l) (sl_tail l) ,,, sret 0.

Definition nova_background_clean_inode_entry (mount_snapshot : bool) (i_entry epoch_id : Z) : SM Z :=
  do! deleted := dload_field snapshot_inode_entry i_entry "deleted" in
  do! del := dload_field snapshot_inode_entry i_entry "delete_epoch_id" in
  (if (deleted =? 0) && (del <=? epoch_id) then
     do! ino := dload_field snapshot_inode_entry i_entry "nova_ino" in
     do! _ := nova_delete_dead_inode mount_snapshot ino in
     dstore_field snapshot_inode_entry i_entry "deleted" 1
   else sret tt) ,,,
  sret 0.

Definition nova_background_clean_write_entry (w_entry epoch_id : Z) : SM Z :=
  do! deleted := dload_field snapshot_file_write_entry w_entry "deleted" in
  do! del := dload_field snapshot_file_write_entry w_entry "delete_epoch_id" in
  (if (deleted =? 0) && (del <=? epoch_id) then
     do! nvmm := dload_field snapshot_file_write_entry w_entry "nvmm" in
     do! num := dload_field snapshot_file_write_entry w_entry "num_pages" in
     do! _ := lift (nova_free_data_blocks NOVA_DEFAULT_BLOCK_TYPE nvmm (s32 num)) in
     dstore_field snapshot_file_write_entry w_entry "deleted" 1
   else sret tt) ,,,
  sret 0.

Definition clean_entry (mount_snapshot : bool) (addr epoch_id : Z) : SM unit :=
  do! type := dload 1 addr in
  if type =? SS_INODE then do! _ := nova_background_clean_inode_entry mount_snapshot addr epoch_id in sret tt
  else if type =? SS_FILE_WRITE then do! _ := nova_background_clean_write_entry addr epoch_id in sret tt
  else lift nova_err.

(** [curr_page] changes only when a page is entered. *)
Fixpoint clean_loop (fuel : nat) (mount_snapshot : bool) (curr_page curr_p tail epoch_id : Z) : SM unit :=
  do! e := dload_field nova_inode_log_page curr_page "epoch_id" in
  if negb ((e <? epoch_id) && negb (curr_p =? tail)) then sret tt
  else
    match fuel with
    | O => sraise FFuel
    | S fuel =>
        do! c := list_cursor curr_p tail in
        match c with
        | None => sret tt
        | Some (p, entered) =>
            let curr_page := if entered : bool then p else curr_page in
            do! stop := (if entered : bool then
                do! e := dload_field nova_inode_log_page p "epoch_id" in sret (e =? epoch_id)
              else sret false) in
            if stop : bool then sret tt
            else if p =? 0 then lift nova_err ,,, sraise FBug
            else
              clean_entry mount_snapshot p epoch_id ,,,
              clean_loop fuel mount_snapshot curr_page (u64 (p + 32)) tail epoch_id
        end
    end.

Definition nova_background_clean_snapshot_list (mount_snapshot : bool) (l : snapshot_list) (epoch_id : Z) : SM Z :=
  if (sl_head l =? 0) && (sl_tail l =? 0) then sret 0
  else
    do! fuel := sgets list_fuel in
    clean_loop fuel mount_snapshot (sl_head l) (sl_head l) (sl_tail l) epoch_id ,,, sret 0.

(** ** Releasing *)
Definition nova_delete_snapshot_list (mount_snapshot : bool) (l : snapshot_list) (delete_entries : bool) : SM Z :=
  (if delete_entries then do! _ := nova_delete_snapshot_list_entries mount_snapshot l in sret tt else sret tt) ,,,
  do! _ := nova_delete_snapshot_list_pages l in
  sret 0.

Fixpoint delete_lists (mount_snapshot : bool) (ls : list snapshot_list) (delete_entries : bool) : SM unit :=
  match ls with
  | [] => sret tt
  | l :: ls =>
      do! _ := nova_delete_snapshot_list mount_snapshot l delete_entries in
      delete_lists mount_snapshot ls delete_entries
  end.

(** [info->lists] has one list for each CPU. *)
Definition nova_delete_snapshot_info (mount_snapshot : bool) (info : snapshot_info) (delete_entries : bool) : SM Z :=
  delete_lists mount_snapshot (si_lists info) delete_entries ,,, sret 0.

(** ** The record of a snapshot *)
Fixpoint free_heads (ls : list snapshot_list) : SM unit :=
  match ls with
  | [] => sret tt
  | l :: ls => (if negb (sl_head l =? 0) then kfree (sl_head l) else sret tt) ,,, free_heads ls
  end.

(** [ret], [None] when it was never set, and the record.  [info_ok] and
    [lists_ok] say whether the two allocations succeed; after a failure of the
    second the code uses the record it has freed. *)
Definition nova_initialize_snapshot_info (info_ok lists_ok init_pages : bool) (epoch_id : Z)
    : SM (option Z * option snapshot_info) :=
  if negb info_ok then sret (Some (- ENOMEM), None)
  else if negb lists_ok then sraise FDangling
  else
    do! n := lift (gets (fun s => cpus (sbc s))) in
    let lists := replicate (Z.to_nat n) (mkSnapList 0 0 0) in
    if init_pages then
      do! r := nova_initialize_snapshot_info_pages lists epoch_id in
      if negb (r.1 =? 0) then free_heads r.2 ,,, sret (Some r.1, None)
      else sret (Some 0, Some (mkSnapInfo 0 0 0 r.2))
    else sret (None, Some (mkSnapInfo 0 0 0 lists)).

Definition nova_invalidate_snapshot_entry (info : snapshot_info) : M Z :=
  let! entry := gets (fun s => nova_get_block s (si_snapshot_entry info)) in
  nova_invalidate_logentry entry SNAPSHOT_INFO 0.

(** Always 0. *)
Definition nova_delete_snapshot (mount_snapshot : bool) (epoch_id : Z) : SM Z :=
  do! r := nova_find_target_snapshot_info epoch_id in
  match r with
  | None => sret 0
  | Some info =>
      if negb (si_epoch_id info =? epoch_id) then sret 0
      else
        do! next := nova_find_next_snapshot_info info in
        (match next with
         | Some next => do! _ := nova_link_to_next_snapshot info next in sret tt
         | None => sret tt
         end) ,,,
        smodify (fun d => set_snapshot_info_tree (delete epoch_id (snapshot_info_tree d)) d) ,,,
        do! _ := lift (nova_invalidate_snapshot_entry info) in
        smodify (fun d => set_num_snapshots (s32 (sbi_num_snapshots d - 1)) d) ,,,
        (match next with
         | Some _ => sret tt
         | None => do! _ := nova_delete_snapshot_info mount_snapshot info true in sret tt
         end) ,,,
        sret 0
  end.

(** ** The cleaner *)
Fixpoint clean_lists (mount_snapshot : bool) (epoch_id : Z) (ls : list snapshot_list) : SM unit :=
  match ls with
  | [] => sret tt
  | l :: ls =>
      do! _ := nova_background_clean_snapshot_list mount_snapshot l epoch_id in
      clean_lists mount_snapshot epoch_id ls
  end.

(** The record named by [curr_clean_snapshot_info] may be gone. *)
Definition nova_clean_snapshot (mount_snapshot : bool) : SM Z :=
  do! c := sgets curr_clean_snapshot_info in
  match c with
  | None => sret 0
  | Some k =>
      do! info := sgets (fun d => snapshot_info_tree d !! k) in
      match info with
      | None => sraise FDangling
      | Some info =>
          clean_lists mount_snapshot (si_epoch_id info) (si_lists info) ,,,
          smodify (set_curr_clean None) ,,, sret 0
      end
  end.

(** ** The lists on the device *)

(** [&nvmm_page->lists[i]] *)
Definition nvmm_list_addr (nvmm_page i : Z) : Z := nvmm_page + i * sizeof snapshot_nvmm_list.

(** [i] rounds of the copy; the last page copied and what follows it.  An error
    of [next_log_page] is not noticed: the test is on an unsigned value. *)
Fixpoint save_pages (n : nat) (curr_dram curr_nvmm prev_nvmm : Z) : SM Z :=
  match n with
  | O => sret prev_nvmm
  | S n =>
      do! addr := lift (gets (fun s => nova_get_block s curr_nvmm)) in
      lift (nova_memunlock_block addr) ,,,
      do! l := dload_bytes (Z.to_nat LOG_BLOCK_TAIL) curr_dram in
      do! _ := lift (memcpy_to_pmem_nocache addr l) in
      lift (nova_memlock_block addr) ,,,
      do! next := lift (next_log_page curr_nvmm) in
      do! dram := dload_field nova_inode_log_page curr_dram "next_page" in
      save_pages n dram next curr_nvmm
  end.

Definition nova_copy_snapshot_list_to_nvmm (l : snapshot_list) (nvmm_list new_block : Z) : SM Z :=
  let set f v := lift (pstore_field snapshot_nvmm_list nvmm_list f v) in
  do! prev := save_pages (Z.to_nat (sl_num_pages l)) (sl_head l) new_block new_block in
  lift (nova_memunlock_range nvmm_list (sizeof snapshot_nvmm_list)) ,,,
  set "num_pages" (sl_num_pages l) ,,,
  set "tail" (u64 (prev + ENTRY_LOC (sl_tail l))) ,,,
  set "head" new_block ,,,
  lift (nova_memlock_range nvmm_list (sizeof snapshot_nvmm_list)) ,,,
  lift (nova_flush_buffer nvmm_list (sizeof snapshot_nvmm_list) true) ,,,
  sret 0.

Definition nova_set_nvmm_page_addr (entry nvmm_page_addr : Z) : M Z :=
  nova_memunlock_range entry CACHELINE_SIZE ;;;
  pstore_field nova_snapshot_info_entry entry "nvmm_page_addr" nvmm_page_addr ;;;
  nova_update_entry_csum entry ;;;
  let! _ := nova_update_alter_entry entry in
  nova_memlock_range entry CACHELINE_SIZE ;;; ret 0.

Fixpoint save_lists (ls : list snapshot_list) (i nvmm_page : Z) : SM Z :=
  match ls with
  | [] => sret 0
  | l :: ls =>
      do! r := lift (nova_allocate_inode_log_pages 0 (sl_num_pages l) 0 i ALLOC_FROM_HEAD) in
      let '(allocated, new_block) := r in
      if negb (u64 allocated =? sl_num_pages l) then sret (- ENOSPC)
      else
        do! _ := nova_copy_snapshot_list_to_nvmm l (nvmm_list_addr nvmm_page i) new_block in
        save_lists ls (i + 1) nvmm_page
  end.

Definition nova_save_snapshot_info (info : snapshot_info) : SM Z :=
  do! r := lift (nova_allocate_inode_log_pages 0 1 0 ANY_CPU ALLOC_FROM_HEAD) in
  let '(allocated, nvmm_page_addr) := r in
  if negb (allocated =? 1) then sret (- ENOSPC)
  else
    do! nvmm_page := lift (gets (fun s => nova_get_block s nvmm_page_addr)) in
    do! rc := save_lists (si_lists info) 0 nvmm_page in
    if negb (rc =? 0) then sret rc
    else
      do! entry := lift (gets (fun s => nova_get_block s (si_snapshot_entry info))) in
      do! _ := lift (nova_set_nvmm_page_addr entry nvmm_page_addr) in
      sret 0.

(** The pages of a list to be restored; the list has its [head]. *)
Fixpoint allocate_list_loop (n : nat) (prev_page head epoch_id : Z) : SM (bool * Z) :=
  match n with
  | O => sret (true, head)
  | S n =>
      do! new_page := kmalloc in
      if new_page =? 0 then sret (false, head)
      else
        nova_set_link_page_epoch_id new_page epoch_id ,,,
        nova_set_next_link_page_address new_page 0 ,,,
        (if negb (prev_page =? 0) then nova_set_next_link_page_address prev_page new_page else sret tt) ,,,
        allocate_list_loop n new_page (if prev_page =? 0 then new_page else head) epoch_id
  end.

(** Returns the result and the list. *)
Definition nova_allocate_snapshot_list_pages (l : snapshot_list) (nvmm_list epoch_id : Z) : SM (Z * snapshot_list) :=
  do! n := lift (pload_field snapshot_nvmm_list nvmm_list "num_pages") in
  do! r := allocate_list_loop (Z.to_nat n) 0 (sl_head l) epoch_id in
  let l := mkSnapList (sl_num_pages l) r.2 (sl_tail l) in
  if r.1 : bool then sret (0, l)
  else do! _ := nova_delete_snapshot_list_pages l in sret (- ENOMEM, l).

(** A copy that fails with a negative code leaves the page and is tried again
    in the next round. *)
Fixpoint restore_pages (n : nat) (curr_dram prev_dram curr_nvmm : Z) : SM Z :=
  match n with
  | O => sret prev_dram
  | S n =>
      do! addr := lift (gets (fun s => nova_get_block s curr_nvmm)) in
      do! r := lift (memcpy_mcsafe addr (Z.to_nat LOG_BLOCK_TAIL)) in
      if r.1 <? 0 then restore_pages n curr_dram prev_dram curr_nvmm
      else if negb (r.1 =? 0) then sraise FUninit
      else
        dstore_bytes curr_dram r.2 ,,,
        do! next := lift (next_log_page curr_nvmm) in
        do! dram := dload_field nova_inode_log_page curr_dram "next_page" in
        restore_pages n dram curr_dram next
  end.

Definition nova_copy_snapshot_list_to_dram (l : snapshot_list) (nvmm_list : Z) : SM snapshot_list :=
  let fld f := lift (pload_field snapshot_nvmm_list nvmm_list f) in
  do! head := fld "head" in
  do! n := fld "num_pages" in
  do! prev := restore_pages (Z.to_nat n) (sl_head l) (sl_head l) head in
  do! n := fld "num_pages" in
  do! tail := fld "tail" in
  sret (mkSnapList n (sl_head l) (u64 (prev + ENTRY_LOC tail))).

(** Returns the result and the lists. *)
Fixpoint restore_lists (ls : list snapshot_list) (i nvmm_page epoch_id : Z) : SM (Z * list snapshot_list) :=
  match ls with
  | [] => sret (0, [])
  | l :: ls =>
      do! r := nova_allocate_snapshot_list_pages l (nvmm_list_addr nvmm_page i) epoch_id in
      if negb (r.1 =? 0) then sret (r.1, r.2 :: ls)
      else
        do! l := nova_copy_snapshot_list_to_dram r.2 (nvmm_list_addr nvmm_page i) in
        do! r := restore_lists ls (i + 1) nvmm_page epoch_id in
        sret (r.1, l :: r.2)
  end.

Definition nova_restore_snapshot_info_lists (info : snapshot_info) (entry : Z) : SM (Z * snapshot_info) :=
  do! a := lift (pload_field nova_snapshot_info_entry entry "nvmm_page_addr") in
  do! nvmm_page := lift (gets (fun s => nova_get_block s a)) in
  do! r := restore_lists (si_lists info) 0 nvmm_page (si_epoch_id info) in
  sret (r.1, mkSnapInfo (si_epoch_id info) (si_timestamp info) (si_snapshot_entry info) r.2).

(** The failure path dereferences the record even when there is none. *)
Definition nova_restore_snapshot_info (mount_snapshot info_ok lists_ok : bool) (entry epoch_id timestamp curr_p : Z)
    (just_init : bool) : SM Z :=
  do! r := nova_initialize_snapshot_info info_ok lists_ok just_init epoch_id in
  do! rc := lift (initialised r.1) in
  match r.2 with
  | None => sraise (FWild 0)
  | Some info =>
      let info := mkSnapInfo epoch_id timestamp curr_p (si_lists info) in
      do! r := (if just_init then sret (rc, info) else nova_restore_snapshot_info_lists info entry) in
      if negb (r.1 =? 0) then do! _ := nova_delete_snapshot_info mount_snapshot r.2 false in sret r.1
      else nova_insert_snapshot_info r.2
  end.

Definition free_nvmm_body (nvmm_page i : Z) : M (option Z) :=
  let fld f := pload_field snapshot_nvmm_list (nvmm_list_addr nvmm_page i) f in
  let! head := fld "head" in
  let! tail := fld "tail" in
  let! _ := nova_free_inode_log 0 (mkSih NOVA_SNAPSHOT_INO 0 0 NOVA_DEFAULT_BLOCK_TYPE head tail 0 0) in
  ret None.

Definition nova_free_nvmm_page (nvmm_page_addr : Z) : M Z :=
  if nvmm_page_addr =? 0 then ret 0
  else
    let! nvmm_page := gets (fun s => nova_get_block s nvmm_page_addr) in
    let! n := gets (fun s => cpus (sbc s)) in
    let! _ := for_loop (Z.to_nat n) 0 (free_nvmm_body nvmm_page) in
    let! _ := nova_free_log_blocks NOVA_DEFAULT_BLOCK_TYPE (nova_get_blocknr nvmm_page_addr 0) 1 in
    ret 0.

Definition nova_clear_nvmm_page (entry : Z) (just_init : bool) : M Z :=
  (if just_init then ret tt
   else
     let! a := pload_field nova_snapshot_info_entry entry "nvmm_page_addr" in
     let! _ := nova_free_nvmm_page a in ret tt) ;;;
  let! _ := nova_set_nvmm_page_addr entry 0 in
  ret 0.

Definition nova_restore_snapshot_entry (mount_snapshot info_ok lists_ok : bool) (entry curr_p : Z) (just_init : bool)
    : SM Z :=
  let fld f := lift (pload_field nova_snapshot_info_entry entry f) in
  do! deleted := fld "deleted" in
  do! rc := (if deleted =? 1 then sret 0
    else
      do! epoch_id := fld "epoch_id" in
      do! timestamp := fld "timestamp" in
      do! rc := nova_restore_snapshot_info mount_snapshot info_ok lists_ok entry epoch_id timestamp curr_p just_init in
      (if (rc =? 0) then
         lift (modify (fun s => if s_epoch_id s <? epoch_id then set_s_epoch_id epoch_id s else s))
       else sret tt) ,,,
      sret rc) in
  do! _ := lift (nova_clear_nvmm_page entry just_init) in
  sret rc.

(** ** All snapshots, at unmount *)

(** In the order of their epochs, which the code looks up in batches of 16. *)
Fixpoint traverse_infos (fuel : nat) (mount_snapshot save : bool) (epoch_id : Z) : SM Z :=
  do! r := nova_find_target_snapshot_info epoch_id in
  match r, fuel with
  | None, _ => sret 0
  | Some _, O => sraise FFuel
  | Some info, S fuel =>
      (if save then do! _ := nova_save_snapshot_info info in sret tt else sret tt) ,,,
      do! _ := nova_delete_snapshot_info mount_snapshot info false in
      smodify (fun d => set_snapshot_info_tree (delete (si_epoch_id info) (snapshot_info_tree d)) d) ,,,
      traverse_infos fuel mount_snapshot save (si_epoch_id info)
  end.

Definition nova_traverse_and_delete_snapshot_infos (mount_snapshot save : bool) : SM Z :=
  do! n := sgets (fun d => size (snapshot_info_tree d)) in
  traverse_infos n mount_snapshot save 0.

Definition nova_save_snapshots (mount_snapshot : bool) : SM Z :=
  if mount_snapshot then sret 0 else nova_traverse_and_delete_snapshot_infos mount_snapshot true.
Definition nova_destroy_snapshot_infos (mount_snapshot : bool) : SM Z :=
  nova_traverse_and_delete_snapshot_infos mount_snapshot false.
End snapshot_ops.
