(* ===== verification/FailureScan.v ===== *)
(** Recovery at mount (bbuild.c, rebuild.c): loading what a clean unmount saved,
    or the scan of every inode after a failure.

    The scan walks the log of each inode and marks the blocks in use.  For a file
    it keeps, for a window of [MAX_PGOFF] pages, the entry and the block of each
    page in the arrays of a [task_ring]; longer files are walked once per window.
    The recovery threads work on the inodes, the bitmap, the ring and the lists of
    their own CPU and are run one after the other, each on its CPU, where the code
    wakes them; waiting for threads that were not woken is [FFuel].
    Each definition translates the C function of the same name. *)

From stdpp Require Import strings.
From S2P Require Import Prelude CInt Crc32c NovaEnv RangeNode Pmem NovaState NovaMonad NovaLib.
From S2P Require Import Balloc InodeMap NovaLayout LogPage RangeLog ScanBitmap InodeTable Journal Checksum Parity MetaCsum LogEntry.
From S2P Require Import Snapshot FileTree DirTree Rebuild SnapshotOps LogAppend Super.

Local Open Scope nova_scope.
Local Open Scope string_scope.
Local Open Scope list_scope.
Local Open Scope Z_scope.

Definition MAX_PGOFF : Z := 262144.
Definition NOVA_ROOT_INO : Z := 1.

(** [nvmm_array] comes zeroed, [entry_array] does not. *)
Record task_ring := mkRing {
  addr0 : gmap Z Z;
  addr1 : gmap Z Z;
  ring_num : Z;
  inodes_used_count : Z;
  entry_array : gmap Z Z;
  nvmm_array : gmap Z Z
}.
Definition new_ring : task_ring := mkRing ∅ ∅ 0 0 ∅ ∅.

Definition ring_nvmm (r : task_ring) (index : Z) : M Z :=
  if (index <? 0) || (MAX_PGOFF <=? index) then raise (FIndex index) else ret (default 0 (nvmm_array r !! index)).
Definition ring_entry (r : task_ring) (index : Z) : M Z :=
  if (index <? 0) || (MAX_PGOFF <=? index) then raise (FIndex index)
  else match entry_array r !! index with Some e => ret e | None => raise FUninit end.
Definition ring_put (index entry nvmm : Z) (r : task_ring) : M task_ring :=
  if (index <? 0) || (MAX_PGOFF <=? index) then raise (FIndex index)
  else ret (mkRing (addr0 r) (addr1 r) (ring_num r) (inodes_used_count r)
              (<[index := entry]> (entry_array r)) (<[index := nvmm]> (nvmm_array r))).

Section failure_scan.
Context `{NovaEnv, RbLib, MediaLib, KmallocLib, RadixLib, ParityEnv, BitLib}.

(** ** The pages of a file *)

(** Marks the blocks of [n] pages from [index] on. *)
Fixpoint mark_pages (n : nat) (index : Z) (r : task_ring) (bm : scan_bitmap) : M scan_bitmap :=
  match n with
  | O => ret bm
  | S n =>
      let! nvmm := ring_nvmm r index in
      let! bm := (if negb (nvmm =? 0) then set_bm nvmm bm BM_4K else ret bm) in
      mark_pages n (u64 (index + 1)) r bm
  end.

(** The callers ignore the result. *)
Definition nova_check_old_entry (entry_addr pgoff num_free epoch_id : Z) (r : task_ring) (base : Z) (bm : scan_bitmap)
    : SM scan_bitmap :=
  if entry_addr =? 0 then sret bm
  else
    do! c := lift (verified_entry entry_addr) in
    match c with
    | None => sret bm
    | Some c =>
        do! l := lift (entryc_bytes c 0 (Z.to_nat (sizeof nova_file_write_entry))) in
        do! rc := nova_append_data_to_snapshot (buf_field nova_file_write_entry "epoch_id" l) (get_nvmm l pgoff) num_free epoch_id in
        if negb (rc =? 0) then sret bm
        else lift (mark_pages (Z.to_nat num_free) (u64 (pgoff - base)) r bm)
    end.

(** The loop over the pages that an entry or a truncation takes over: runs of
    pages of one old entry are handed to the snapshots. *)
Fixpoint old_runs (n : nat) (pgoff base epoch_id : Z) (r : task_ring) (bm : scan_bitmap) (old_entry old_pgoff num_free : Z)
    : SM scan_bitmap :=
  match n with
  | O =>
      if negb (old_entry =? 0) then nova_check_old_entry old_entry old_pgoff num_free epoch_id r base bm else sret bm
  | S n =>
      let index := u64 (pgoff - base) in
      do! nvmm := lift (ring_nvmm r index) in
      if negb (nvmm =? 0) then
        do! e := lift (ring_entry r index) in
        if negb (e =? old_entry) then
          do! bm := (if negb (old_entry =? 0) then nova_check_old_entry old_entry old_pgoff num_free epoch_id r base bm
                     else sret bm) in
          old_runs n (u64 (pgoff + 1)) base epoch_id r bm e pgoff 1
        else old_runs n (u64 (pgoff + 1)) base epoch_id r bm old_entry old_pgoff (u32 (num_free + 1))
      else old_runs n (u64 (pgoff + 1)) base epoch_id r bm old_entry old_pgoff num_free
  end.

(** Stores [entry] and [block + k] (0 and 0 when [entry] is 0) for [n] pages. *)
Fixpoint fill_ring (n : nat) (index entry block : Z) (r : task_ring) : M task_ring :=
  match n with
  | O => ret r
  | S n =>
      let! r := ring_put index entry block r in
      fill_ring n (u64 (index + 1)) entry (if entry =? 0 then 0 else u64 (block + 1)) r
  end.

Definition nova_set_ring_array (entry : Z) (c : entryc) (r : task_ring) (base : Z) (bm : scan_bitmap)
    : SM (task_ring * scan_bitmap) :=
  let fld f := lift (entryc_field nova_file_write_entry c f) in
  do! epoch_id := fld "epoch_id" in
  do! pg := fld "pgoff" in
  do! num := fld "num_pages" in
  do! block := fld "block" in
  let start := if pg <? base then base else pg in
  let end_ := u64 (pg + num) in
  let end_ := if u64 (base + MAX_PGOFF) <? end_ then u64 (base + MAX_PGOFF) else end_ in
  let n := Z.to_nat (end_ - start) in
  do! bm := old_runs n start base epoch_id r bm 0 0 0 in
  do! r := lift (fill_ring n (u64 (start - base)) entry (u64 (Z.shiftr block PAGE_SHIFT + start - pg)) r) in
  sret (r, bm).

Fixpoint set_file_loop (n : nat) (pgoff : Z) (r : task_ring) (bm : scan_bitmap) : M (task_ring * scan_bitmap) :=
  match n with
  | O => ret (r, bm)
  | S n =>
      let! nvmm := ring_nvmm r pgoff in
      if negb (nvmm =? 0) then
        let! bm := set_bm nvmm bm BM_4K in
        let! r := ring_put pgoff 0 0 r in
        set_file_loop n (pgoff + 1) r bm
      else set_file_loop n (pgoff + 1) r bm
  end.

Definition nova_set_file_bm (r : task_ring) (bm : scan_bitmap) (base last_blocknr : Z) : M (task_ring * scan_bitmap) :=
  let last := if u64 (base + MAX_PGOFF) <=? last_blocknr then MAX_PGOFF - 1 else u64 (last_blocknr - base) in
  set_file_loop (Z.to_nat (last + 1)) 0 r bm.

Definition nova_ring_setattr_entry (h : info_header) (c : entryc) (r : task_ring) (base data_bits : Z) (bm : scan_bitmap)
    : SM (info_header * task_ring * scan_bitmap) :=
  let fld f := lift (entryc_field nova_setattr_logentry c f) in
  do! epoch_id := fld "epoch_id" in
  do! size := fld "size" in
  let out r bm := sret (set_ih_i_size size h, r, bm) in
  if ih_i_size h <=? size then out r bm
  else
    let end_ := s64 (ih_i_size h) in
    let first_blocknr := Z.shiftr (u64 (size + Z.shiftl 1 data_bits - 1)) data_bits in
    let last_blocknr := if 0 <? end_ then Z.shiftr (end_ - 1) data_bits else 0 in
    if last_blocknr <? first_blocknr then out r bm
    else
      let first_blocknr := if first_blocknr <? base then base else first_blocknr in
      let last_blocknr := if u64 (base + MAX_PGOFF - 1) <? last_blocknr then u64 (base + MAX_PGOFF - 1) else last_blocknr in
      let n := Z.to_nat (last_blocknr + 1 - first_blocknr) in
      do! bm := old_runs n first_blocknr base epoch_id r bm 0 0 0 in
      do! r := lift (fill_ring n (u64 (first_blocknr - base)) 0 0 r) in
      out r bm.

(** Returns the last page of the entry, 0 when all its pages are invalid. *)
Definition nova_traverse_file_write_entry (h : info_header) (entry : Z) (c : entryc) (r : task_ring) (base : Z)
    (bm : scan_bitmap) : SM (Z * info_header * task_ring * scan_bitmap) :=
  let fld f := lift (entryc_field nova_file_write_entry c f) in
  do! size := fld "size" in
  let h := set_ih_i_size size h in
  do! num := fld "num_pages" in
  do! invalid := fld "invalid_pages" in
  if negb (num =? invalid) then
    do! pg := fld "pgoff" in
    let max_blocknr := u64 (pg + num - 1) in
    if (pg <? u64 (base + MAX_PGOFF)) && (base <? u64 (pg + num)) then
      do! r := nova_set_ring_array entry c r base bm in
      sret (max_blocknr, h, r.1, r.2)
    else sret (max_blocknr, h, r, bm)
  else sret (0, h, r, bm).

(** ** The walk over a file's log *)

(** The log is marked in the first walk. *)
Definition mark_log_page (base curr_p : Z) (bm : scan_bitmap) : M scan_bitmap :=
  if base =? 0 then
    if negb (Z.land curr_p (PAGE_SIZE - 1) =? 0) then raise FBug
    else set_bm (Z.shiftr curr_p PAGE_SHIFT) bm BM_4K
  else ret bm.

(** What a walk carries along: the header, the ring, the bitmap and the last page seen. *)
Definition walk : Type := info_header * task_ring * scan_bitmap * Z.

(** The [switch]: the length of the entry. *)
Definition scan_entry (base data_bits addr : Z) (c : entryc) (type : Z) (w : walk) : SM (Z * walk) :=
  let '(h, r, bm, last_blocknr) := w in
  match entry_kind type with
  | Some SET_ATTR =>
      do! x := nova_ring_setattr_entry h c r base data_bits bm in
      let '(h, r, bm) := x in sret (sizeof nova_setattr_logentry, (h, r, bm, last_blocknr))
  | Some LINK_CHANGE => sret (sizeof nova_link_change_entry, w)
  | Some FILE_WRITE =>
      do! x := nova_traverse_file_write_entry h addr c r base bm in
      let '(curr_last, h, r, bm) := x in
      sret (sizeof nova_file_write_entry, (h, r, bm, if last_blocknr <? curr_last then curr_last else last_blocknr))
  | Some MMAP_WRITE => sret (sizeof nova_mmap_entry, w)
  | _ => sraise FBug
  end.

(** [None] is a [return] out of the loop. *)
Fixpoint scan_file_loop (fuel : nat) (base data_bits curr_p log_tail : Z) (w : walk) : SM (option Z * walk) :=
  if curr_p =? log_tail then sret (Some curr_p, w)
  else
    match fuel with
    | O => sraise FFuel
    | S fuel =>
        let '(h, r, bm, last_blocknr) := w in
        do! jump := lift (goto_next_page curr_p) in
        do! x := lift (if jump : bool then
            let! next := next_log_page curr_p in
            let! bm := mark_log_page base next bm in ret (next, bm)
          else ret (curr_p, bm)) in
        let '(curr_p, bm) := x in
        if curr_p =? 0 then lift nova_err ,,, sraise FBug
        else
          do! addr := lift (gets (fun s => nova_get_block s curr_p)) in
          do! c := lift (verified_entry addr) in
          match c with
          | None => sret (None, (h, r, bm, last_blocknr))
          | Some c =>
              do! type := lift (entryc_type c) in
              do! x := scan_entry base data_bits addr c type (h, r, bm, last_blocknr) in
              scan_file_loop fuel base data_bits (u64 (curr_p + x.1)) log_tail x.2
          end
    end.

(** One walk, from the label [again] to the [goto]; [false] is a [return]. *)
Definition scan_file_pass (base data_bits log_head log_tail : Z) (w : walk) : SM (bool * walk) :=
  let '(h, r, bm, last_blocknr) := w in
  if (log_head =? 0) || (log_tail =? 0) then lift PERSISTENT_BARRIER ,,, sret (false, w)
  else
    do! bm := lift (mark_log_page base log_head bm) in
    do! fuel := lift (gets entry_fuel) in
    do! x := scan_file_loop fuel base data_bits log_head log_tail (h, r, bm, last_blocknr) in
    match x with
    | (None, w) => sret (false, w)
    | (Some curr_p, (h, r, bm, last_blocknr)) =>
        do! bm := lift (if base =? 0 then
            let! next := next_log_page (BLOCK_OFF curr_p) in nova_traverse_inode_log bm next
          else ret bm) in
        do! x := lift (nova_set_file_bm r bm base last_blocknr) in
        sret (true, (h, x.1, x.2, last_blocknr))
    end.

(** The walks that follow the first one; the last page bounds their number. *)
Fixpoint scan_passes (fuel : nat) (base data_bits log_head log_tail : Z) (w : walk) : SM walk :=
  let '(h, r, bm, last_blocknr) := w in
  if last_blocknr <? u64 (base + MAX_PGOFF) then sret w
  else
    match fuel with
    | O => sraise FFuel
    | S fuel =>
        let base := u64 (base + MAX_PGOFF) in
        do! x := scan_file_pass base data_bits log_head log_tail w in
        if x.1 then scan_passes fuel base data_bits log_head log_tail x.2 else sret x.2
    end.

(** [pi] is the inode's copy in DRAM, of which only the first fields are used; its
    flush touches no line of the device. *)
Definition nova_traverse_file_inode_log (pi : list Z) (h : info_header) (r : task_ring) (bm : scan_bitmap)
    : SM (info_header * task_ring * scan_bitmap) :=
  let fld f := buf_field nova_inode f pi in
  let data_bits := nova_inode_blk_shift (fld "i_blk_type") in
  do! bm := lift (if negb (metadata_csum =? 0) then nova_traverse_inode_log bm (fld "alter_log_head") else ret bm) in
  do! x := scan_file_pass 0 data_bits (fld "log_head") (fld "log_tail") (h, r, bm, 0) in
  do! w := (if x.1 then
      scan_passes (Z.to_nat (x.2.2 / MAX_PGOFF)) 0 data_bits (fld "log_head") (fld "log_tail") x.2
    else sret x.2) in
  sret w.1.

(** [nova_traverse_dir_inode_log] on a copy of the inode. *)
Definition traverse_dir_copy (pi : list Z) (bm : scan_bitmap) : M scan_bitmap :=
  let! bm := nova_traverse_inode_log bm (buf_field nova_inode "log_head" pi) in
  if negb (metadata_csum =? 0) then nova_traverse_inode_log bm (buf_field nova_inode "alter_log_head" pi) else ret bm.

Definition nova_recover_inode_pages (h : info_header) (r : task_ring) (pi : list Z) (bm : scan_bitmap)
    : SM (info_header * task_ring * scan_bitmap) :=
  let fld f := buf_field nova_inode f pi in
  if fld "deleted" =? 1 then sret (h, r, bm)
  else
    let r := mkRing (addr0 r) (addr1 r) (ring_num r) (s32 (inodes_used_count r + 1)) (entry_array r) (nvmm_array r) in
    let b := ih_base h in
    let h := set_ih_i_mode (fld "i_mode") (set_ih_base (set_numbers (fld "nova_ino") (alter_pi_addr b) b) h) in
    if Z.land (fld "i_mode") S_IFMT =? S_IFDIR then
      do! bm := lift (traverse_dir_copy pi bm) in sret (h, r, bm)
    else nova_traverse_file_inode_log pi h r bm.

(** ** A recovery thread *)

(** The range of inode numbers collected so far. *)
Definition nova_failure_update_inodetree (pi ino_low ino_high : Z) : M (Z * Z) :=
  let! ino := pload_field nova_inode pi "nova_ino" in
  if ino_low =? 0 then ret (ino, ino)
  else
    let! cpus := gets (fun s => cpus (sbc s)) in
    if ino =? u64 (ino_high + cpus) then ret (ino_low, ino)
    else let! _ := nova_failure_insert_inodetree ino_low ino_high in ret (ino, ino).

(** nova.h: the address in NVMM and the copy. *)
Definition nova_get_reference (block : Z) (size : nat) : M (Z * (Z * list Z)) :=
  let! nvmm := gets (fun s => nova_get_block s block) in
  let! r := memcpy_mcsafe nvmm size in ret (nvmm, r).

(** What the loop over the inodes of a page carries along; the last component is
    the largest size seen. *)
Definition inode_walk : Type := info_header * task_ring * scan_bitmap * (Z * Z) * Z.

Fixpoint scan_inodes (n : nat) (pi_addr : Z) (w : inode_walk) : SM inode_walk :=
  match n with
  | O => sret w
  | S n =>
      let '(h, r, bm, (ino_low, ino_high), max_size) := w in
      let next := u64 (pi_addr + NOVA_INODE_SIZE) in
      do! x := lift (nova_get_reference pi_addr (Z.to_nat (sizeof nova_inode))) in
      let '(pi, (rc, fake_pi)) := x in
      if negb (rc =? 0) then scan_inodes n next w
      else
        let fld f := buf_field nova_inode f fake_pi in
        if negb (fld "i_mode" =? 0) && (fld "deleted" =? 0) then
          do! dead := (if fld "valid" =? 0 then do! rc := nova_append_inode_to_snapshot pi in sret (negb (rc =? 0))
                       else sret false) in
          if dead : bool then lift (pstore_field nova_inode pi "deleted" 1) ,,, scan_inodes n next w
          else
            do! x := nova_recover_inode_pages h r fake_pi bm in
            let '(h, r, bm) := x in
            do! range := lift (nova_failure_update_inodetree pi ino_low ino_high) in
            scan_inodes n next (h, r, bm, range, if max_size <? ih_i_size h then ih_i_size h else max_size)
        else scan_inodes n next w
  end.

(** The blocks of a 2 MB piece of an inode table. *)
Fixpoint mark_blocks (n : nat) (blocknr : Z) (bm : scan_bitmap) : M scan_bitmap :=
  match n with
  | O => ret bm
  | S n => let! bm := set_bm blocknr bm BM_4K in mark_blocks n (blocknr + 1) bm
  end.

Fixpoint scan_tables (n : nat) (count num_inodes_per_page : Z) (h : info_header) (r : task_ring) (bm : scan_bitmap)
    (max_size : Z) : SM (info_header * task_ring * scan_bitmap * Z) :=
  match n with
  | O => sret (h, r, bm, max_size)
  | S n =>
      let curr := default 0 (addr0 r !! count) in
      let curr1 := default 0 (addr1 r !! count) in
      do! bm := lift (mark_blocks 512 (Z.shiftr curr PAGE_SHIFT) bm) in
      do! bm := lift (if negb (metadata_csum =? 0) then mark_blocks 512 (Z.shiftr curr1 PAGE_SHIFT) bm else ret bm) in
      do! w := scan_inodes (Z.to_nat num_inodes_per_page) curr (h, r, bm, (0, 0), max_size) in
      let '(h, r, bm, (ino_low, ino_high), max_size) := w in
      do! _ := lift (if negb (ino_low =? 0) && negb (ino_high =? 0) then nova_failure_insert_inodetree ino_low ino_high
                     else ret 0) in
      scan_tables n (count + 1) num_inodes_per_page h r bm max_size
  end.

Definition failure_thread_func (r : task_ring) (bm : scan_bitmap) : SM (task_ring * scan_bitmap) :=
  do! pi := lift (gets (fun s => nova_get_inode_by_ino s NOVA_INODETABLE_INO)) in
  do! btype := lift (pload_field nova_inode pi "i_blk_type") in
  let data_bits := nova_inode_blk_shift btype in
  let num_inodes_per_page := Z.shiftl 1 (data_bits - NOVA_INODE_BITS) in
  do! w := scan_tables (Z.to_nat (ring_num r)) 0 num_inodes_per_page (nova_init_header 0) r bm 0 in
  let '(h, r, bm, max_size) := w in
  (if negb (max_size =? 0) then do! _ := nova_delete_file_tree (ih_file h) 0 false false 0 in sret tt else sret tt) ,,,
  sret (r, bm).

(** All threads, each bound to its CPU. *)
Definition on_cpu {A} (cpu : Z) (m : SM A) : SM A :=
  do! me := lift (gets running_cpu) in
  lift (modify (set_running_cpu cpu)) ,,,
  do! a := m in
  lift (modify (set_running_cpu me)) ,,, sret a.

Fixpoint run_threads (cpu : Z) (rings : list task_ring) (bms : list scan_bitmap) : SM (list task_ring * list scan_bitmap) :=
  match rings, bms with
  | r :: rings, bm :: bms =>
      do! x := on_cpu cpu (failure_thread_func r bm) in
      do! rest := run_threads (cpu + 1) rings bms in
      sret (x.1 :: rest.1, x.2 :: rest.2)
  | _, _ => sret (rings, bms)
  end.

(** ** The crawl *)

(** The chain of one inode table: the ring and the number of pieces; [None] is the
    error of a ring that is full. *)
Fixpoint collect_table (fuel : nat) (version curr count : Z) (r : task_ring) : M (option (Z * task_ring)) :=
  if curr =? 0 then ret (Some (count, r))
  else
    match fuel with
    | O => raise FFuel
    | S fuel =>
        if 512 <=? ring_num r then nova_err ;;; ret None
        else if 512 <=? count then raise (FIndex count)
        else
          let r := if version =? 0
            then mkRing (<[count := curr]> (addr0 r)) (addr1 r) (ring_num r) (inodes_used_count r) (entry_array r) (nvmm_array r)
            else mkRing (addr0 r) (<[count := curr]> (addr1 r)) (ring_num r) (inodes_used_count r) (entry_array r) (nvmm_array r) in
          let! curr_addr := gets (fun s => nova_get_block s curr) in
          let! next := pload 8 (curr_addr + (2097152 - 8)) in
          collect_table fuel version next (count + 1) r
    end.

Fixpoint collect_versions (versions : list Z) (cpuid : Z) (r : task_ring) : M (option task_ring) :=
  match versions with
  | [] => ret (Some r)
  | version :: versions =>
      let! inode_table := nova_get_inode_table version cpuid in
      if inode_table =? 0 then ret None
      else
        let! curr := pload_field NovaLayout.inode_table inode_table "log_head" in
        let! fuel := gets chain_fuel in
        let! x := collect_table fuel version curr 0 r in
        match x with
        | None => ret None
        | Some (count, r) =>
            let r := if ring_num r <? count
              then mkRing (addr0 r) (addr1 r) count (inodes_used_count r) (entry_array r) (nvmm_array r) else r in
            collect_versions versions cpuid r
        end
  end.

Fixpoint collect_tables (versions : list Z) (cpuid : Z) (rings : list task_ring) : M (option (list task_ring)) :=
  match rings with
  | [] => ret (Some [])
  | r :: rings =>
      let! x := collect_versions versions cpuid r in
      match x with
      | None => ret None
      | Some r =>
          let! rest := collect_tables versions (cpuid + 1) rings in
          ret (cons r <$> rest)
      end
  end.

(** The result, whether the threads were woken, the rings and the bitmaps. *)
Definition nova_failure_recovery_crawl (rings : list task_ring) (bms : list scan_bitmap)
    : SM (Z * bool * list task_ring * list scan_bitmap) :=
  let root_addr := nova_get_reserved_inode_addr NOVA_ROOT_INO in
  let versions := if negb (metadata_csum =? 0) then [0; 1] else [0] in
  do! collected := lift (collect_tables versions 0 rings) in
  match collected with
  | None => sret (- EINVAL, false, rings, bms)
  | Some rings =>
      do! x := run_threads 0 rings bms in
      let '(rings, bms) := x in
      do! x := lift (nova_get_reference root_addr (Z.to_nat (sizeof nova_inode))) in
      let '(pi, (rc, fake_pi)) := x in
      if negb (rc =? 0) then sret (rc, true, rings, bms)
      else
        match rings, bms with
        | r :: rings, bm :: bms =>
            do! x := nova_recover_inode_pages (nova_init_header 0) r fake_pi bm in
            let '(h, r, bm) := x in
            sret (0, true, r :: rings, bm :: bms)
        | _, _ => sraise (FIndex 0)
        end
  end.

(** ** The whole scan *)

(** kthread_create is taken to succeed. *)
Fixpoint allocate_rings (n : nat) : M (option (list task_ring)) :=
  match n with
  | O => ret (Some [])
  | S n =>
      let! nvmm_array := kmem_cache_zalloc in
      match nvmm_array with
      | None => ret None
      | Some _ =>
          let! entry_array := kmem_cache_zalloc in
          match entry_array with
          | None => ret None
          | Some _ => let! rest := allocate_rings n in ret (cons new_ring <$> rest)
          end
      end
  end.

Definition allocate_resources (cpus : Z) : M (Z + list task_ring) :=
  let! task_rings := kmem_cache_zalloc in
  match task_rings with
  | None => ret (inl (- ENOMEM))
  | Some _ =>
      let! rings := allocate_rings (Z.to_nat cpus) in
      match rings with
      | None => ret (inl (- ENOMEM))
      | Some rings =>
          let! threads := kmem_cache_zalloc in
          let! finished := (match threads with Some _ => kmem_cache_zalloc | None => ret None end) in
          match threads, finished with
          | Some _, Some _ => ret (inr rings)
          | _, _ => ret (inl (- ENOMEM))
          end
      end
  end.

Fixpoint mark_journals (cpu : Z) (bms : list scan_bitmap) : M (list scan_bitmap) :=
  match bms with
  | [] => ret []
  | bm :: bms =>
      let! pairp := nova_get_journal_pointers cpu in
      let! head := pload_field journal_ptr_pair pairp "journal_head" in
      let! bm := set_bm (Z.shiftr head PAGE_SHIFT) bm BM_4K in
      let! rest := mark_journals (cpu + 1) bms in
      ret (bm :: rest)
  end.

Definition nova_failure_recovery (bms : list scan_bitmap) : SM (Z * list scan_bitmap) :=
  lift (modify (set_s_inodes_used_count 0)) ,,,
  do! rc := lift nova_init_inode_inuse_list in
  if rc <? 0 then sret (- EINVAL, bms)
  else
    do! pi := lift (gets (fun s => nova_get_inode_by_ino s NOVA_BLOCKNODE_INO)) in
    lift (pstore_field nova_inode pi "log_tail" 0) ,,,
    lift (pstore_field nova_inode pi "log_head" 0) ,,,
    lift (nova_flush_buffer (field_addr nova_inode pi "log_head") CACHELINE_SIZE false) ,,,
    do! bms := lift (mark_journals 0 bms) in
    do! cpus := lift (gets (fun s => cpus (sbc s))) in
    if cpus =? 0 then sraise FDivide
    else
      let i := Z.rem NOVA_SNAPSHOT_INO cpus in
      do! pi := lift (gets (fun s => nova_get_inode_by_ino s NOVA_SNAPSHOT_INO)) in
      match bms !! Z.to_nat i with
      | None => sraise (FIndex i)
      | Some bm =>
          do! bm := lift (nova_traverse_dir_inode_log pi bm) in
          let bms := <[Z.to_nat i := bm]> bms in
          lift PERSISTENT_BARRIER ,,,
          do! x := lift (allocate_resources cpus) in
          match x with
          | inl rc => sret (rc, bms)
          | inr rings =>
              do! x := nova_failure_recovery_crawl rings bms in
              let '(rc, woken, rings, bms) := x in
              if negb woken then sraise FFuel
              else
                lift (modify (fun s => set_s_inodes_used_count
                  (foldl (fun n r => u64 (n + inodes_used_count r)) (s_inodes_used_count s) rings) s)) ,,,
                sret (rc, bms)
          end
      end.

(** ** The table of snapshots (rebuild.c) *)

(** The [while] loop; [inl] is a [return] or the jump to [out]. *)
Fixpoint restore_table_loop (fuel : nat) (mount_snapshot : bool) (info_ok lists_ok : Z -> bool) (just_init : bool)
    (curr_p : Z) (h : info_header) : SM ((Z + Z) * info_header) :=
  if curr_p =? sih_log_tail (ih_base h) then sret (inr curr_p, h)
  else
    match fuel with
    | O => sraise FFuel
    | S fuel =>
        do! x := lift (log_cursor curr_p h) in
        let '(curr_p, h) := x in
        do! addr := lift (gets (fun s => nova_get_block s curr_p)) in
        do! c := lift (verified_entry addr) in
        match c with
        | None => sret (inl 0, h)
        | Some c =>
            do! type := lift (entryc_type c) in
            let next := u64 (curr_p + sizeof nova_snapshot_info_entry) in
            match entry_kind type with
            | Some SNAPSHOT_INFO =>
                do! rc := nova_restore_snapshot_entry mount_snapshot (info_ok curr_p) (lists_ok curr_p) addr curr_p just_init in
                if negb (rc =? 0) then lift nova_err ,,, sret (inl rc, h)
                else restore_table_loop fuel mount_snapshot info_ok lists_ok just_init next h
            | _ => lift nova_err ,,, restore_table_loop fuel mount_snapshot info_ok lists_ok just_init next h
            end
        end
    end.

(** [h] is the header of sbi->snapshot_si; [info_ok] and [lists_ok] say whether
    there is memory for the snapshot whose entry is at the given position. *)
Definition nova_restore_snapshot_table (mount_snapshot : bool) (info_ok lists_ok : Z -> bool) (just_init : bool)
    (h : info_header) : SM (Z * info_header) :=
  do! pi := lift (gets (fun s => nova_get_reserved_inode s NOVA_SNAPSHOT_INO)) in
  let data_bits := nova_inode_blk_shift (i_blk_type (ih_base h)) in
  do! x := lift (nova_rebuild_inode_start pi h (pi_addr (ih_base h))) in
  let '(rc, reb, h) := x in
  if negb (rc =? 0) then sret (rc, h)
  else
    do! reb := lift (initialised reb) in
    let curr_p := sih_log_head (ih_base h) in
    if (curr_p =? 0) && (sih_log_tail (ih_base h) =? 0) then sret (0, h)
    else
      do! fuel := lift (gets entry_fuel) in
      do! x := restore_table_loop fuel mount_snapshot info_ok lists_ok just_init curr_p h in
      match x with
      | (inl rc, h) => sret (rc, h)
      | (inr curr_p, h) =>
          do! h := lift (nova_rebuild_inode_finish pi h reb curr_p) in
          sret (0, set_ih_i_blocks (blocks_of_size (ih_i_size h) data_bits) h)
      end.

(** ** Recovery *)
Definition nova_try_normal_recovery (mount_snapshot : bool) (info_ok lists_ok : Z -> bool) (sih0 : inode_header) (h : info_header)
    : SM (bool * info_header) :=
  do! pi := lift (gets (fun s => nova_get_inode_by_ino s NOVA_BLOCKNODE_INO)) in
  do! head := lift (pload_field nova_inode pi "log_head") in
  do! tail := lift (pload_field nova_inode pi "log_tail") in
  if (head =? 0) || (tail =? 0) then sret (false, h)
  else
    do! rc := lift nova_init_blockmap_from_inode in
    if negb (rc =? 0) then lift nova_err ,,, sret (false, h)
    else
      do! rc := lift (nova_init_inode_list_from_inode sih0) in
      if negb (rc =? 0) then lift nova_err ,,, lift nova_destroy_blocknode_trees ,,, sret (false, h)
      else if mount_snapshot then sret (true, h)
      else
        do! x := nova_restore_snapshot_table mount_snapshot info_ok lists_ok false h in
        let '(rc, h) := x in
        if negb (rc =? 0) then
          lift nova_err ,,, do! _ := nova_destroy_snapshot_infos mount_snapshot in sret (false, h)
        else sret (true, h).

Definition set_sbc (v : sb_const) (s : nova) : nova :=
  mkNova v (s_flags s) (cr0_wp s) (per_list_blocks s) (free_lists s) (inode_maps s) (map_id s) (s_inodes_used_count s)
    (s_epoch_id s) (mount_snapshot_epoch_id s) (running_cpu s) (alloc_clock s) (nvmm s) (trace s).
Definition set_num_blocks (v : Z) (sb : sb_const) : sb_const :=
  mkSbConst (virt_addr sb) (initsize sb) v (cpus sb) (head_reserved_blocks sb) (tail_reserved_blocks sb)
    (s_blocksize sb) (s_blocksize_bits sb) (s_mount_opt sb) (replica_reserved_inodes_addr sb).

(** The scan, from the allocation of the bitmaps to the jump to [out]. *)
Definition failure_branch (mount_snapshot : bool) (info_ok lists_ok : Z -> bool) (initsize : Z) (h : info_header)
    : SM (Z * info_header) :=
  do! x := lift (alloc_bm initsize) in
  let '(rc, bms) := x in
  if negb (rc =? 0) then sret (rc, h)
  else
    do! x := (if mount_snapshot then sret (0, h)
              else
                do! x := nova_restore_snapshot_table mount_snapshot info_ok lists_ok true h in
                (if negb (x.1 =? 0) then do! _ := nova_destroy_snapshot_infos mount_snapshot in sret tt else sret tt) ,,,
                sret x) in
    let '(rc, h) := x in
    if negb (rc =? 0) then sret (rc, h)
    else
      lift (modify (set_s_inodes_used_count 0)) ,,,
      do! x := nova_failure_recovery bms in
      let '(rc, bms) := x in
      if negb (rc =? 0) then sret (rc, h)
      else do! x := lift (nova_build_blocknode_map bms initsize) in sret (x.1, h).

Definition nova_recovery (nova_sb : list Z) (mount_snapshot : bool) (info_ok lists_ok : Z -> bool) (sih0 : inode_header)
    (h : info_header) : SM (Z * info_header) :=
  let initsize := sb_get "s_size" nova_sb in
  lift (modify (fun s => set_sbc (set_num_blocks (Z.shiftr initsize PAGE_SHIFT) (sbc s)) s)) ,,,
  lift (nova_init_blockmap 1) ,,,
  do! x := nova_try_normal_recovery mount_snapshot info_ok lists_ok sih0 h in
  let '(value, h) := x in
  do! x := (if value : bool then sret (0, h) else failure_branch mount_snapshot info_ok lists_ok initsize h) in
  lift (modify (set_s_epoch_id (sb_get "s_epoch_id" nova_sb))) ,,,
  sret x.
End failure_scan.
