(* ===== verification/FailureScanSpec.v ===== *)
(** The failure scan marks what a file uses.

    [scan_file] is the reference of the scan: the pages of the file and the entry
    each belongs to, as the walk over the log finds them.  [ring_rel] relates the
    arrays of a ring to the part of that index in the current window of pages. *)

From stdpp Require Import strings.
From S2P Require Import Prelude CInt Crc32c NovaEnv RangeNode Pmem NovaState NovaMonad NovaLib.
From S2P Require Import Balloc BallocSpec BallocAlloc NovaLayout LogPage LogPageSpec RangeLog RangeRoundtrip ScanBitmap ScanBuildSpec InodeTable Checksum Parity MetaCsum LogEntry.
From S2P Require Import Snapshot SnapshotSpec FileTree FileTreeSpec DirTree DirTreeSpec Rebuild RebuildSpec RebuildFileSpec FailureScan.

Local Open Scope nova_scope.
Local Open Scope list_scope.

(** ** Bits *)

(** [bm'] has the bits of [bm] and those of [P]. *)
Definition marks (bm bm' : scan_bitmap) (P : Z -> Prop) : Prop :=
  scan_bm_2M bm' = scan_bm_2M bm /\ scan_bm_1G bm' = scan_bm_1G bm /\
  bitmap_size (scan_bm_4K bm') = bitmap_size (scan_bm_4K bm) /\
  forall k, 0 <= k -> Z.testbit (bitmap (scan_bm_4K bm')) k = true <-> Z.testbit (bitmap (scan_bm_4K bm)) k = true \/ P k.

Lemma marks_none bm (P : Z -> Prop) : (forall k, 0 <= k -> ~ P k) -> marks bm bm P.
Proof. intros N. split_and!; [done..|]. intros k Hk. specialize (N k Hk). tauto. Qed.
Lemma marks_trans bm1 bm2 bm3 (P Q R : Z -> Prop) :
  marks bm1 bm2 P -> marks bm2 bm3 Q -> (forall k, 0 <= k -> P k \/ Q k <-> R k) -> marks bm1 bm3 R.
Proof.
  intros (A1 & A2 & A3 & A4) (B1 & B2 & B3 & B4) E. split_and!; [congruence..|].
  intros k Hk. rewrite B4, A4 by done. specialize (E k Hk). tauto.
Qed.
Lemma marks_ext bm bm' (P Q : Z -> Prop) : marks bm bm' P -> (forall k, 0 <= k -> P k <-> Q k) -> marks bm bm' Q.
Proof. intros (A1 & A2 & A3 & A4) E. split_and!; [done..|]. intros k Hk. rewrite A4 by done. specialize (E k Hk). tauto. Qed.
Lemma marks_seq bm1 bm2 bm3 (P Q : Z -> Prop) : marks bm1 bm2 P -> marks bm2 bm3 Q -> marks bm1 bm3 (fun k => P k \/ Q k).
Proof. intros. by eapply marks_trans. Qed.
Lemma marks_size bm bm' P : marks bm bm' P -> bitmap_size (scan_bm_4K bm') = bitmap_size (scan_bm_4K bm).
Proof. by intros (_ & _ & ? & _). Qed.
Lemma marked_marks bm bm' f : marked_4K bm bm' f -> marks bm bm' (fun k => f k = true).
Proof. intros (A1 & A2 & A3 & A4). split_and!; [done..|]. intros k Hk. rewrite A4 by done. apply orb_true_iff. Qed.

Lemma set_bm_run bit bm s : 0 <= bit < 8 * bitmap_size (scan_bm_4K bm) ->
  exists bm', set_bm bit bm BM_4K s = Ok bm' s /\ marks bm bm' (fun k => k = bit).
Proof.
  intros Hb. destruct (set_bm_4K_run bit bm s Hb) as (bm' & E & Mk). exists bm'. split; [done|].
  eapply marks_ext; [by apply marked_marks|]. intros k _. apply Z.eqb_eq.
Qed.

(** ** The reference of the scan *)
Definition hole (a b : Z) (T : gmap Z Z) : gmap Z Z := filter (fun x => ~ (a <= x.1 <= b)) T.
Lemma hole_lookup a b T q : hole a b T !! q = if decide (a <= q <= b) then None else T !! q.
Proof.
  unfold hole. case_decide.
  - apply map_lookup_filter_None_2. right. intros e _. cbn. tauto.
  - destruct (T !! q) as [e|] eqn:E; [by rewrite map_lookup_filter_Some|]. by apply map_lookup_filter_None_2; left.
Qed.

Definition last_block (bits size : Z) : Z := if 0 <? s64 size then Z.shiftr (s64 size - 1) bits else 0.

Definition scan_item (bits : Z) (i : file_item) (st : gmap Z Z * Z) : gmap Z Z * Z :=
  match i with
  | FWrite e pg n inv size _ => (if n =? inv then st.1 else fill (Z.to_nat n) pg e st.1, size)
  | FAttr _ size _ => (if st.2 <=? size then st.1 else hole (first_block bits size) (last_block bits st.2) st.1, size)
  | FOther => st
  end.
Definition scan_file (bits : Z) (l : list file_item) (st : gmap Z Z * Z) : gmap Z Z * Z :=
  fold_left (fun st i => scan_item bits i st) l st.

(** What the scan keeps contains what a rebuild keeps. *)
Lemma scan_contains_replay bits items : forall T size T' size' tid,
  Forall (fun i => forall reg sz t, i = FAttr reg sz t -> reg = true) items -> T' ⊆ T ->
  (replay_file bits items (T', size', tid)).1.1 ⊆ (scan_file bits items (T, size)).1.
Proof.
  induction items as [|i items IH]; intros T size T' size' tid F Sub; [done|].
  inversion F as [|? ? Fi F']; subst. cbn [replay_file scan_file fold_left].
  change (fold_left (fun st i => replay_file_item bits i st) items ?st) with (replay_file bits items st).
  change (fold_left (fun st i => scan_item bits i st) items ?st) with (scan_file bits items st).
  assert (forall x y t X Y, X ⊆ Y -> (replay_file bits items (newer x t (X, size', tid))).1.1 ⊆ (scan_file bits items (Y, y)).1) as Next.
  { intros x y t X Y HXY. unfold newer. cbn [fst snd]. destruct (tid <=? t); by apply IH. }
  destruct i as [e pg n inv sz t|reg sz t|]; cbn [replay_file_item scan_item fst snd].
  - apply Next. destruct (n =? inv); [done|]. apply map_subseteq_spec. intros q x. rewrite !fill_lookup.
    case_decide; [done|]. intros E. by eapply lookup_weaken.
  - rewrite (Fi reg sz t eq_refl). apply Next. apply map_subseteq_spec. intros q x. rewrite before_lookup.
    case_decide; [|done]. intros E. destruct (size <=? sz); [by eapply lookup_weaken|].
    rewrite hole_lookup, decide_False by lia. by eapply lookup_weaken.
  - by apply IH.
Qed.

(** The block that page [p] of entry [e] is in. *)
Definition page_block (s : nova) (e p : Z) : Z :=
  Z.shiftr (load 8 (nvmm s) (e + 8)) 12 + p - load 8 (nvmm s) (e + 16).

(** Entries and blocks of an index lie on the device of [nb] blocks. *)
Definition index_fits (s : nova) (nb : Z) (T : gmap Z Z) : Prop :=
  forall p e, T !! p = Some e -> in_pmem s e 64 = true /\ 0 < page_block s e p < nb.

(** The ring holds the window of [MAX_PGOFF] pages from [base] on. *)
Definition ring_rel (s : nova) (base : Z) (T : gmap Z Z) (r : task_ring) : Prop :=
  forall i, 0 <= i < MAX_PGOFF ->
    match T !! (base + i) with
    | None => default 0 (nvmm_array r !! i) = 0
    | Some e => nvmm_array r !! i = Some (page_block s e (base + i)) /\ entry_array r !! i = Some e
    end.

(** No page is left in the ring. *)
Definition ring_clean (r : task_ring) : Prop := forall i, 0 <= i < MAX_PGOFF -> default 0 (nvmm_array r !! i) = 0.

(** The fields of a ring beside its arrays. *)
Definition same_ring (r r' : task_ring) : Prop :=
  addr0 r' = addr0 r /\ addr1 r' = addr1 r /\ ring_num r' = ring_num r /\ inodes_used_count r' = inodes_used_count r.

Section scan_spec.
Context `{NovaEnv, RbLib, MediaLib, KmallocLib, RadixLib, ParityEnv, BitLib} {RO : RbLibOk} {BO : BitLibOk}.
Context (Hrc : forall a n, memcpy_mcsafe_rc a n = 0) (Hmeta : metadata_csum = 0).

Lemma ring_put_run i e v r s : 0 <= i < MAX_PGOFF -> ring_put i e v r s
  = Ok (mkRing (addr0 r) (addr1 r) (ring_num r) (inodes_used_count r) (<[i := e]> (entry_array r)) (<[i := v]> (nvmm_array r))) s.
Proof. intros Hi. unfold ring_put. by rewrite (proj2 (Z.ltb_ge _ _)), (proj2 (Z.leb_gt _ _)) by lia. Qed.
Lemma ring_nvmm_run i r s : 0 <= i < MAX_PGOFF -> ring_nvmm r i s = Ok (default 0 (nvmm_array r !! i)) s.
Proof. intros Hi. unfold ring_nvmm. by rewrite (proj2 (Z.ltb_ge _ _)), (proj2 (Z.leb_gt _ _)) by lia. Qed.
Lemma ring_entry_run i e r s : 0 <= i < MAX_PGOFF -> entry_array r !! i = Some e -> ring_entry r i s = Ok e s.
Proof. intros Hi E. unfold ring_entry. rewrite (proj2 (Z.ltb_ge _ _)), (proj2 (Z.leb_gt _ _)) by lia. by rewrite E. Qed.

(** Without snapshots a displaced run is just dropped. *)
Lemma check_old_run s d e pgoff k ep r base bm :
  snapshot_info_tree d = ∅ -> in_pmem s e 64 = true ->
  nova_check_old_entry e pgoff k ep r base bm d s = Ok (bm, d) s.
Proof.
  intros Hd Hp. unfold nova_check_old_entry. destruct (e =? 0); [done|].
  unfold verified_entry. rewrite Hmeta. cbn [Z.eqb].
  rewrite (sbind_lift (ret (Some (InPlace e))) _ d s (Some (InPlace e)) s) by done.
  rewrite (sbind_lift (entryc_bytes (InPlace e) 0 (Z.to_nat (sizeof nova_file_write_entry))) _ d s
    (load_bytes (nvmm s) (e + 0) 64) s).
  2: { cbn [entryc_bytes]. change (Z.to_nat (sizeof nova_file_write_entry)) with 64%nat. unfold pload_bytes.
       rewrite Z.add_0_r. by rewrite Hp. }
  rewrite (sbind_ok _ _ d s 1 d s); [done|].
  unfold nova_append_data_to_snapshot. rewrite (sbind_ok _ _ d s (1, None) d s); [done|].
  unfold nova_old_entry_deleteable. destruct (_ =? ep); [done|].
  unfold nova_find_target_snapshot_info. by rewrite (sbind_ok _ _ d s None d s)
    by (unfold sgets, ret; by rewrite Hd, map_to_list_empty).
Qed.

Lemma old_runs_run s d base T r nb bm ep :
  snapshot_info_tree d = ∅ -> ring_rel s base T r -> index_fits s nb T -> 0 <= base -> base + MAX_PGOFF < 2 ^ 64 ->
  forall n pgoff oe op k, base <= pgoff -> pgoff + Z.of_nat n <= base + MAX_PGOFF -> (oe = 0 \/ in_pmem s oe 64 = true) ->
  old_runs n pgoff base ep r bm oe op k d s = Ok (bm, d) s.
Proof.
  intros Hd R F Hb Hw. assert (forall oe op k, oe = 0 \/ in_pmem s oe 64 = true ->
    (if negb (oe =? 0) then nova_check_old_entry oe op k ep r base bm else sret bm) d s = Ok (bm, d) s) as Drop.
  { intros oe op k Ho. destruct (Z.eqb_spec oe 0); [done|]. cbn [negb]. destruct Ho; [done|]. by apply check_old_run. }
  induction n as [|n IH]; intros pgoff oe op k Hlo Hhi Ho; cbn [old_runs]; [by apply Drop|].
  rewrite (uwrap_small 64 (pgoff - base)) by (unfold MAX_PGOFF in *; lia).
  rewrite (sbind_lift _ _ _ _ _ _ (ring_nvmm_run (pgoff - base) r s ltac:(lia))).
  rewrite (uwrap_small 64 (pgoff + 1)) by lia.
  pose proof (R (pgoff - base) ltac:(lia)) as Ri. replace (base + (pgoff - base)) with pgoff in Ri by lia.
  destruct (T !! pgoff) as [e|] eqn:Et.
  - destruct Ri as [E1 E2]. destruct (F pgoff e Et) as [Hp Hk]. rewrite E1.
    change (default 0 (Some (page_block s e pgoff))) with (page_block s e pgoff).
    rewrite (proj2 (Z.eqb_neq (page_block s e pgoff) 0)) by lia. cbn [negb].
    rewrite (sbind_lift _ _ _ _ _ _ (ring_entry_run (pgoff - base) e r s ltac:(lia) E2)).
    destruct (e =? oe); cbn [negb]; [apply IH; [lia|lia|done]|].
    rewrite (sbind_ok _ _ _ _ _ _ _ (Drop oe op k Ho)). apply IH; [lia|lia|by right].
  - rewrite Ri. cbn [Z.eqb negb]. apply IH; [lia|lia|done].
Qed.

Lemma fill_ring_run s e : forall n idx blk r,
  0 <= idx -> idx + Z.of_nat n <= MAX_PGOFF -> 0 <= blk -> blk + Z.of_nat n < 2 ^ 64 -> (e = 0 -> blk = 0) ->
  exists r', fill_ring n idx e blk r s = Ok r' s /\ same_ring r r' /\ forall i,
    nvmm_array r' !! i = (if decide (idx <= i < idx + Z.of_nat n) then Some (if e =? 0 then 0 else blk + (i - idx))
                          else nvmm_array r !! i) /\
    entry_array r' !! i = (if decide (idx <= i < idx + Z.of_nat n) then Some e else entry_array r !! i).
Proof.
  induction n as [|n IH]; intros idx blk r Hi Hm Hb Hbn He; cbn [fill_ring].
  { exists r. split_and!; [done..|]. intros i. by rewrite !decide_False by lia. }
  rewrite (bind_ok _ _ _ _ _ (ring_put_run idx e blk r s ltac:(lia))).
  rewrite (uwrap_small 64 (idx + 1)) by (unfold MAX_PGOFF in *; lia). rewrite (uwrap_small 64 (blk + 1)) by lia.
  set (r1 := mkRing _ _ _ _ _ _). set (blk1 := if e =? 0 then 0 else blk + 1).
  destruct (IH (idx + 1) blk1 r1) as (r' & E & S & L).
  { lia. } { lia. } { unfold blk1. destruct (e =? 0); lia. } { unfold blk1. destruct (e =? 0); lia. }
  { intros ->. done. }
  exists r'. split_and!; [done|exact S|]. intros i. destruct (L i) as [L1 L2]. rewrite L1, L2. unfold r1. cbn [nvmm_array entry_array].
  destruct (decide (i = idx)) as [->|Hne].
  - destruct (decide (idx + 1 <= idx < _)); [lia|]. destruct (decide (idx <= idx < _)); [|lia].
    rewrite !lookup_insert_eq. split; [|done]. f_equal.
    destruct (Z.eqb_spec e 0) as [->|]; [by apply He|lia].
  - rewrite !lookup_insert_ne by done. destruct (decide (idx + 1 <= i < _)), (decide (idx <= i < _)); [|lia|lia|done].
    split; [|done]. f_equal. unfold blk1. destruct (e =? 0); lia.
Qed.

Lemma set_file_loop_run s : forall n pg r bm,
  0 <= pg -> pg + Z.of_nat n <= MAX_PGOFF ->
  (forall i, pg <= i < pg + Z.of_nat n -> 0 <= default 0 (nvmm_array r !! i) < 8 * bitmap_size (scan_bm_4K bm)) ->
  exists r' bm', set_file_loop n pg r bm s = Ok (r', bm') s /\ same_ring r r' /\
    marks bm bm' (fun k => k <> 0 /\ exists i, pg <= i < pg + Z.of_nat n /\ default 0 (nvmm_array r !! i) = k) /\
    (forall i, default 0 (nvmm_array r' !! i) = if decide (pg <= i < pg + Z.of_nat n) then 0 else default 0 (nvmm_array r !! i)).
Proof.
  induction n as [|n IH]; intros pg r bm Hp Hm Hv; cbn [set_file_loop].
  { exists r, bm. split_and!; [done..| |].
    - apply marks_none. intros k _ (_ & i & Hi & _). lia.
    - intros i. by rewrite decide_False by lia. }
  rewrite (bind_ok _ _ _ _ _ (ring_nvmm_run pg r s ltac:(lia))). set (v := default 0 (nvmm_array r !! pg)) in *.
  destruct (Z.eqb_spec v 0) as [Ev|Hne]; cbn [negb].
  - destruct (IH (pg + 1) r bm) as (r' & bm' & E & S & Mk & Cl); [lia|lia|intros; apply Hv; lia|].
    exists r', bm'. split_and!; [done|done| |].
    + eapply marks_ext; [exact Mk|]. intros k _. split; intros [Hk (i & Hi & Ei)]; (split; [done|]).
      * exists i. split; [lia|done].
      * destruct (decide (i = pg)) as [->|]; [fold v in Ei; congruence|]. exists i. split; [lia|done].
    + intros i. rewrite Cl. destruct (decide (i = pg)) as [->|].
      * rewrite decide_False, decide_True by lia. done.
      * destruct (decide (pg + 1 <= i < pg + 1 + Z.of_nat n)); [by rewrite decide_True by lia|by rewrite decide_False by lia].
  - destruct (set_bm_run v bm s) as (bm1 & E1 & M1); [apply Hv; lia|]. rewrite (bind_ok _ _ _ _ _ E1).
    rewrite (bind_ok _ _ _ _ _ (ring_put_run pg 0 0 r s ltac:(lia))). set (r1 := mkRing _ _ _ _ _ _).
    assert (forall i, i <> pg -> nvmm_array r1 !! i = nvmm_array r !! i) as R1 by (intros; by apply lookup_insert_ne).
    destruct (IH (pg + 1) r1 bm1) as (r' & bm' & E & S & Mk & Cl); [lia|lia| |].
    { intros i Hi. rewrite R1, (marks_size _ _ _ M1) by lia. apply Hv. lia. }
    exists r', bm'. split_and!; [done|exact S| |].
    + eapply marks_trans; [exact M1|exact Mk|]. intros k _. split.
      * intros [->|[Hk (i & Hi & Ei)]]; (split; [done|]); [exists pg; split; [lia|done]|].
        exists i. rewrite R1 in Ei by lia. split; [lia|done].
      * intros [Hk (i & Hi & Ei)]. destruct (decide (i = pg)) as [->|]; [by left|right].
        split; [done|]. exists i. rewrite R1 by lia. split; [lia|done].
    + intros i. rewrite Cl. destruct (decide (i = pg)) as [->|].
      * rewrite decide_False, decide_True by lia. unfold r1. cbn [nvmm_array]. by rewrite lookup_insert_eq.
      * destruct (decide (pg + 1 <= i < pg + 1 + Z.of_nat n)); [by rewrite decide_True by lia|].
        rewrite decide_False by lia. by rewrite R1.
Qed.

(** ** One entry *)

(** What the scan relies on: entries with valid pages have pages and blocks on the
    device of [nb] blocks, and attributes are those of a regular file. *)
Definition item_fits (s : nova) (nb : Z) (i : file_item) : Prop :=
  match i with
  | FWrite e pg n inv _ _ => n <> inv -> 0 < n /\ pg + n <= 2 ^ 62 /\ 0 < page_block s e pg /\ page_block s e pg + n <= nb
  | FAttr reg _ _ => reg = true
  | FOther => True
  end.

Section window.
Context (s : nova) (d : snapshots) (base nb : Z) (bm : scan_bitmap).
Context (Hd : snapshot_info_tree d = ∅) (Hb : 0 <= base) (Hbw : base + MAX_PGOFF <= 2 ^ 63) (Hnb : nb <= 2 ^ 62).

Lemma set_ring_array_run W T r e pg n inv size tid :
  media_ok s -> write_rep s W e pg n inv size tid -> item_fits s nb (FWrite e pg n inv size tid) -> n <> inv ->
  ring_rel s base T r -> index_fits s nb T -> pg < base + MAX_PGOFF -> base < pg + n ->
  exists r', nova_set_ring_array e (InPlace e) r base bm d s = Ok (r', bm, d) s /\ same_ring r r' /\
    ring_rel s base (fill (Z.to_nat n) pg e T) r'.
Proof.
  intros Hmo R Fi Hne RR F Hw1 Hw2. destruct (Fi Hne) as (F1 & F2 & F3 & F4). unfold nova_set_ring_array.
  pose proof (wr_range _ _ _ _ _ _ _ _ R) as (Rg & _ & _).
  rewrite (sbind_lift _ _ _ _ _ _ (write_field _ _ _ _ _ _ _ _ "epoch_id" R ltac:(done) ltac:(done))).
  rewrite (sbind_lift _ _ _ _ _ _ (write_field _ _ _ _ _ _ _ _ "pgoff" R ltac:(done) ltac:(done))).
  rewrite (sbind_lift _ _ _ _ _ _ (write_field _ _ _ _ _ _ _ _ "num_pages" R ltac:(done) ltac:(done))).
  rewrite (sbind_lift _ _ _ _ _ _ (write_field _ _ _ _ _ _ _ _ "block" R ltac:(done) ltac:(done))).
  set (ep := load _ _ (e + offsetof nova_file_write_entry "epoch_id")).
  change (load (sizeof_field nova_file_write_entry "pgoff") (nvmm s) (e + offsetof nova_file_write_entry "pgoff"))
    with (load 8 (nvmm s) (e + 16)). rewrite (wr_pgoff _ _ _ _ _ _ _ _ R).
  change (load (sizeof_field nova_file_write_entry "num_pages") (nvmm s) (e + offsetof nova_file_write_entry "num_pages"))
    with (load 4 (nvmm s) (e + 4)). rewrite (wr_num _ _ _ _ _ _ _ _ R).
  change (load (sizeof_field nova_file_write_entry "block") (nvmm s) (e + offsetof nova_file_write_entry "block"))
    with (load 8 (nvmm s) (e + 8)).
  unfold MAX_PGOFF in *. rewrite (uwrap_small 64 (pg + n)), (uwrap_small 64 (base + 262144)) by lia.
  set (start := if pg <? base then base else pg). set (end_ := if base + 262144 <? pg + n then base + 262144 else pg + n).
  assert (start = Z.max pg base) as Es by (unfold start; destruct (Z.ltb_spec pg base); lia).
  assert (end_ = Z.min (pg + n) (base + 262144)) as Ee by (unfold end_; destruct (Z.ltb_spec (base + 262144) (pg + n)); lia).
  set (k := Z.to_nat (end_ - start)).
  rewrite (sbind_ok _ _ _ _ _ _ _ (old_runs_run s d base T r nb bm ep Hd RR F Hb ltac:(unfold MAX_PGOFF; lia) k start 0 0 0
    ltac:(lia) ltac:(unfold k, MAX_PGOFF; lia) (or_introl eq_refl))).
  assert (u64 (Z.shiftr (load 8 (nvmm s) (e + 8)) PAGE_SHIFT + start - pg) = page_block s e start) as ->.
  { assert (Z.shiftr (load 8 (nvmm s) (e + 8)) PAGE_SHIFT + start - pg = page_block s e start) as ->
      by (unfold page_block; rewrite (wr_pgoff _ _ _ _ _ _ _ _ R); done).
    apply uwrap_small. unfold page_block in *. lia. }
  rewrite (uwrap_small 64 (start - base)) by lia.
  assert (page_block s e start = page_block s e pg + (start - pg)) as Ep by (unfold page_block; lia).
  destruct (fill_ring_run s e k (start - base) (page_block s e start) r) as (r' & E & S & L).
  { lia. } { unfold k, MAX_PGOFF. lia. } { lia. } { unfold k. lia. }
  { intros ->. exfalso. exact (pmem_nonnull s 0 64 Hmo (wr_pmem _ _ _ _ _ _ _ _ R) eq_refl). }
  exists r'. split_and!; [by rewrite (sbind_lift _ _ _ _ _ _ E)|done|].
  intros i Hi. rewrite fill_lookup. destruct (L i) as [L1 L2]. rewrite L1, L2. unfold MAX_PGOFF in Hi.
  specialize (RR i ltac:(unfold MAX_PGOFF; lia)).
  destruct (decide (pg <= base + i < _)) as [D1|D1], (decide (start - base <= i < _)) as [D2|D2]; try (unfold k in *; lia); [|exact RR].
  split; [|done]. f_equal. rewrite (proj2 (Z.eqb_neq e 0)) by (apply (pmem_nonnull s e 64 Hmo), R).
  unfold page_block. lia.
Qed.

Lemma index_fits_fill W T e pg n inv size tid :
  write_rep s W e pg n inv size tid -> item_fits s nb (FWrite e pg n inv size tid) -> n <> inv ->
  index_fits s nb T -> index_fits s nb (fill (Z.to_nat n) pg e T).
Proof.
  intros R Fi Hne F p x. rewrite fill_lookup. case_decide as D; [|apply F]. intros [= <-].
  destruct (Fi Hne) as (F1 & F2 & F3 & F4). split; [apply R|]. unfold page_block in *. lia.
Qed.

Lemma scan_write_run W T r h e pg n inv size tid :
  media_ok s -> write_rep s W e pg n inv size tid -> item_fits s nb (FWrite e pg n inv size tid) ->
  ring_rel s base T r -> index_fits s nb T ->
  let T' := if n =? inv then T else fill (Z.to_nat n) pg e T in
  exists h' r', nova_traverse_file_write_entry h e (InPlace e) r base bm d s
      = Ok (if n =? inv then 0 else pg + n - 1, h', r', bm, d) s /\
    same_ring r r' /\ ih_i_size h' = size /\ ring_rel s base T' r' /\ index_fits s nb T'.
Proof.
  intros Hmo R Fi RR F T'. unfold nova_traverse_file_write_entry.
  pose proof (wr_range _ _ _ _ _ _ _ _ R) as (Rg & _ & _).
  rewrite (sbind_lift _ _ _ _ _ _ (write_field _ _ _ _ _ _ _ _ "size" R ltac:(done) ltac:(done))).
  rewrite (sbind_lift _ _ _ _ _ _ (write_field _ _ _ _ _ _ _ _ "num_pages" R ltac:(done) ltac:(done))).
  rewrite (sbind_lift _ _ _ _ _ _ (write_field _ _ _ _ _ _ _ _ "invalid_pages" R ltac:(done) ltac:(done))).
  change (load (sizeof_field nova_file_write_entry "size") (nvmm s) (e + offsetof nova_file_write_entry "size"))
    with (load 8 (nvmm s) (e + 32)). rewrite (wr_size _ _ _ _ _ _ _ _ R).
  change (load (sizeof_field nova_file_write_entry "num_pages") (nvmm s) (e + offsetof nova_file_write_entry "num_pages"))
    with (load 4 (nvmm s) (e + 4)). rewrite (wr_num _ _ _ _ _ _ _ _ R).
  change (load (sizeof_field nova_file_write_entry "invalid_pages") (nvmm s) (e + offsetof nova_file_write_entry "invalid_pages"))
    with (load 4 (nvmm s) (e + 24)). rewrite (wr_inv _ _ _ _ _ _ _ _ R).
  unfold T'. destruct (Z.eqb_spec n inv) as [En|Hne]; cbn [negb].
  { by exists (set_ih_i_size size h), r. }
  pose proof (Fi Hne) as (F1 & F2 & F3 & F4). assert (index_fits s nb (fill (Z.to_nat n) pg e T)) as F' by (by eapply index_fits_fill).
  rewrite (sbind_lift _ _ _ _ _ _ (write_field _ _ _ _ _ _ _ _ "pgoff" R ltac:(done) ltac:(done))).
  change (load (sizeof_field nova_file_write_entry "pgoff") (nvmm s) (e + offsetof nova_file_write_entry "pgoff"))
    with (load 8 (nvmm s) (e + 16)). rewrite (wr_pgoff _ _ _ _ _ _ _ _ R).
  rewrite (uwrap_small 64 (pg + n - 1)), (uwrap_small 64 (base + MAX_PGOFF)), (uwrap_small 64 (pg + n)) by (unfold MAX_PGOFF in *; lia).
  destruct (Z.ltb_spec pg (base + MAX_PGOFF)) as [Hw1|Hw1], (Z.ltb_spec base (pg + n)) as [Hw2|Hw2]; cbn [andb].
  1: { destruct (set_ring_array_run W T r e pg n inv size tid) as (r' & E & S & RR'); [done..|].
       rewrite (sbind_ok _ _ _ _ _ _ _ E). by exists (set_ih_i_size size h), r'. }
  all: exists (set_ih_i_size size h), r; split_and!; [done..| |done].
  all: intros i Hi; rewrite fill_lookup, decide_False by lia; by apply RR.
Qed.

Lemma index_fits_hole T a b : index_fits s nb T -> index_fits s nb (hole a b T).
Proof. intros F p e. rewrite hole_lookup. case_decide; [done|apply F]. Qed.

Lemma scan_attr_run T r h e bits size :
  in_pmem s e 56 = true -> load 8 (nvmm s) (e + 24) = size -> 0 <= bits -> 0 <= size ->
  ring_rel s base T r -> index_fits s nb T ->
  let T' := if ih_i_size h <=? size then T else hole (first_block bits size) (last_block bits (ih_i_size h)) T in
  exists h' r', nova_ring_setattr_entry h (InPlace e) r base bits bm d s = Ok (h', r', bm, d) s /\
    same_ring r r' /\ ih_i_size h' = size /\ ring_rel s base T' r' /\ index_fits s nb T'.
Proof.
  intros Hp Es Hbits Hsz RR F T'. unfold nova_ring_setattr_entry.
  rewrite (sbind_lift _ _ _ _ _ _ (attr_field s e "epoch_id" Hp ltac:(done) ltac:(done))).
  rewrite (sbind_lift _ _ _ _ _ _ (attr_field s e "size" Hp ltac:(done) ltac:(done))).
  set (ep := load _ _ (e + offsetof nova_setattr_logentry "epoch_id")).
  change (load (sizeof_field nova_setattr_logentry "size") (nvmm s) (e + offsetof nova_setattr_logentry "size"))
    with (load 8 (nvmm s) (e + 24)). rewrite Es. unfold T'. destruct (ih_i_size h <=? size).
  { by exists (set_ih_i_size size h), r. }
  cbv zeta. fold (last_block bits (ih_i_size h)). fold (first_block bits size).
  set (a := first_block bits size). set (b := last_block bits (ih_i_size h)).
  assert (0 <= a) as Ha by (apply Z.shiftr_nonneg; pose proof (uwrap_range 64 (size + Z.shiftl 1 bits - 1)); lia).
  assert (a < 2 ^ 64) as Ha64.
  { unfold a, first_block. rewrite Z.shiftr_div_pow2 by done. pose proof (uwrap_range 64 (size + Z.shiftl 1 bits - 1)).
    apply Z.le_lt_trans with (u64 (size + Z.shiftl 1 bits - 1)); [|lia].
    apply Z.div_le_upper_bound; [apply Z.pow_pos_nonneg; lia|]. assert (0 < 2 ^ bits) by (apply Z.pow_pos_nonneg; lia). nia. }
  assert (index_fits s nb (hole a b T)) as F' by (by apply index_fits_hole).
  destruct (Z.ltb_spec b a) as [Hlt|Hge].
  { exists (set_ih_i_size size h), r. split_and!; [done..| |done]. intros i Hi. rewrite hole_lookup, decide_False by lia. by apply RR. }
  rewrite (uwrap_small 64 (base + MAX_PGOFF - 1)) by (unfold MAX_PGOFF in *; lia).
  set (a' := if a <? base then base else a). set (b' := if base + MAX_PGOFF - 1 <? b then base + MAX_PGOFF - 1 else b).
  assert (a' = Z.max a base) as Ea by (unfold a'; destruct (Z.ltb_spec a base); lia).
  assert (b' = Z.min b (base + MAX_PGOFF - 1)) as Eb by (unfold b'; destruct (Z.ltb_spec (base + MAX_PGOFF - 1) b); lia).
  set (k := Z.to_nat (b' + 1 - a')). rewrite (uwrap_small 64 (a' - base)) by (unfold MAX_PGOFF in *; lia).
  destruct (Z.lt_ge_cases b' a') as [Hn|Hn].
  - replace k with 0%nat by lia. cbn [old_runs fill_ring Z.eqb negb].
    exists (set_ih_i_size size h), r. split_and!; [done..| |done]. intros i Hi. rewrite hole_lookup, decide_False by lia. by apply RR.
  - rewrite (sbind_ok _ _ _ _ _ _ _ (old_runs_run s d base T r nb bm ep Hd RR F Hb ltac:(lia) k a' 0 0 0
      ltac:(lia) ltac:(lia) (or_introl eq_refl))).
    destruct (fill_ring_run s 0 k (a' - base) 0 r) as (r' & E & S & L); [lia|lia|lia|unfold MAX_PGOFF in *; lia|done|].
    exists (set_ih_i_size size h), r'. split_and!; [by rewrite (sbind_lift _ _ _ _ _ _ E)|done|done| |done].
    intros i Hi. rewrite hole_lookup. destruct (L i) as [L1 L2]. rewrite L1, L2. specialize (RR i Hi).
    destruct (decide (a <= base + i <= b)), (decide (a' - base <= i < _)); try lia; [done|exact RR].
Qed.
End window.

(** ** The walk *)
Definition item_len (i : file_item) : Z := match i with FWrite _ _ _ _ _ _ => 64 | FAttr _ _ _ => 56 | FOther => 40 end.

(** The pages the walk over [items] from [p] on moves to. *)
Fixpoint pages_entered (s : nova) (p : Z) (items : list file_item) : list Z :=
  match items with
  | [] => []
  | i :: items =>
      let q := if log_end s p then load 8 (nvmm s) (nova_get_block s (BLOCK_OFF p) + 4088) else p in
      (if log_end s p then [q] else []) ++ pages_entered s (u64 (q + item_len i)) items
  end.

Definition page_fits (nb q : Z) : Prop := q mod 4096 = 0 /\ 0 <= q / 4096 < nb.

(** The last page that an entry with valid pages has. *)
Definition later_page (last : Z) (i : file_item) : Z :=
  match i with FWrite _ pg n inv _ _ => if n =? inv then last else Z.max last (pg + n - 1) | _ => last end.

Lemma mark_log_page_run s base q nb bm :
  8 * bitmap_size (scan_bm_4K bm) = nb -> (base = 0 -> page_fits nb q) ->
  exists bm', mark_log_page base q bm s = Ok bm' s /\ marks bm bm' (fun k => base = 0 /\ k = q / 4096).
Proof.
  intros Hnb Hq. unfold mark_log_page. destruct (Z.eqb_spec base 0) as [E|Hne].
  - destruct (Hq E) as [Hal Hr]. assert (Z.land q (PAGE_SIZE - 1) = 0) as ->.
    { change (PAGE_SIZE - 1) with (Z.ones 12). by rewrite Z.land_ones by lia. }
    cbn [Z.eqb negb]. change PAGE_SHIFT with 12. rewrite Z.shiftr_div_pow2 by lia. change (2 ^ 12) with 4096.
    destruct (set_bm_run (q / 4096) bm s) as (bm' & E' & Mk); [lia|]. exists bm'. split; [done|].
    eapply marks_ext; [exact Mk|]. intros k _. tauto.
  - exists bm. split; [done|]. apply marks_none. tauto.
Qed.

Lemma cursor_mark_run s base p q nb bm :
  cursor_at s p q -> 8 * bitmap_size (scan_bm_4K bm) = nb -> (base = 0 -> log_end s p = true -> page_fits nb q) ->
  exists bm', (if log_end s p then let! next := next_log_page p in let! bm := mark_log_page base next bm in ret (next, bm)
               else ret (p, bm)) s = Ok (q, bm') s /\
    marks bm bm' (fun k => base = 0 /\ log_end s p = true /\ k = q / 4096).
Proof.
  intros C Hnb Hq. destruct (log_end s p) eqn:E.
  - rewrite (bind_ok _ _ _ _ _ (cursor_next_run Hrc s p q C E)).
    destruct (mark_log_page_run s base q nb bm Hnb) as (bm' & E' & Mk); [intros; by apply Hq|].
    rewrite (bind_ok _ _ _ _ _ E'). exists bm'. split; [done|]. eapply marks_ext; [exact Mk|]. intros k _. tauto.
  - rewrite (ca_here _ _ _ C E). exists bm. split; [done|]. apply marks_none. intros k _ (_ & [=] & _).
Qed.

Lemma type_run s e N : in_pmem s e N = true -> (0 < N)%nat -> entryc_type (InPlace e) s = Ok (load 1 (nvmm s) e) s.
Proof.
  intros Hp HN. cbn [entryc_type]. unfold nova_get_entry_type.
  by rewrite (bind_ok _ _ _ _ _ (mcsafe_good Hrc e 1 s ltac:(eapply in_pmem_sub; [exact Hp|lia|lia]))).
Qed.

(** One entry of the log. *)
Lemma scan_entry_run s d W t base nb bits i p items T r h bm last :
  media_ok s -> snapshot_info_tree d = ∅ -> 0 <= base -> base + MAX_PGOFF <= 2 ^ 63 -> nb <= 2 ^ 62 -> 0 <= bits -> 0 <= last ->
  file_log s W t p (i :: items) -> item_fits s nb i -> ring_rel s base T r -> index_fits s nb T ->
  exists q h' r', p <> t /\ cursor_at s p q /\ file_log s W t (u64 (q + item_len i)) items /\
    in_pmem s (nova_get_block s q) 40 = true /\
    scan_entry base bits (nova_get_block s q) (InPlace (nova_get_block s q)) (load 1 (nvmm s) (nova_get_block s q)) (h, r, bm, last) d s
    = Ok (item_len i, (h', r', bm, later_page last i), d) s /\
    same_ring r r' /\ ih_i_size h' = (scan_item bits i (T, ih_i_size h)).2 /\
    ring_rel s base (scan_item bits i (T, ih_i_size h)).1 r' /\ index_fits s nb (scan_item bits i (T, ih_i_size h)).1.
Proof.
  intros Hmo Hd Hb Hbw Hnb Hbits Hl Lg Fi RR F.
  inversion Lg as [|p' q pg n inv size tid rest Hne C P R L1|p' q size tid rest Hne C P Hp Ha Hty Hs Hi H0' L1
      |p' q rest Hne C P Hp Ha Hty L1]; subst p' rest; try subst i; exists q.
  - pose proof R as R'. destruct (scan_write_run s d base nb bm Hd Hb Hbw Hnb W T r h _ pg n inv size tid Hmo R Fi RR F) as (h' & r' & E & S & Z & RR' & F').
    exists h', r'. split_and!; [done|done|done| | |done|done|done|done].
    + eapply in_pmem_sub; [apply R'|lia|lia].
    + unfold scan_entry. rewrite (wr_type _ _ _ _ _ _ _ _ R). change (entry_kind (entry_type_val FILE_WRITE)) with (Some FILE_WRITE). cbv iota.
      rewrite (sbind_ok _ _ _ _ _ _ _ E). cbv iota beta. cbn [later_page]. change (sizeof nova_file_write_entry) with 64.
      destruct (n =? inv).
      * by rewrite (proj2 (Z.ltb_ge last 0)) by lia.
      * do 4 f_equal. destruct (Z.ltb_spec last (pg + n - 1)); unfold sret, ret; do 4 f_equal; lia.
  - destruct (scan_attr_run s d base nb bm Hd Hb Hbw T r h _ bits size Hp Hs Hbits H0' RR F) as (h' & r' & E & S & Z & RR' & F').
    exists h', r'. split_and!; [done|done|done| | |done|done|done|done].
    + eapply in_pmem_sub; [exact Hp|lia|lia].
    + unfold scan_entry. rewrite Hty. change (entry_kind (entry_type_val SET_ATTR)) with (Some SET_ATTR). cbv iota.
      by rewrite (sbind_ok _ _ _ _ _ _ _ E).
  - exists h, r. split_and!; [done|done|done|done| |done|done|done|done].
    unfold scan_entry. rewrite Hty. by change (entry_kind (entry_type_val LINK_CHANGE)) with (Some LINK_CHANGE).
Qed.

Section walk.
Context (s : nova) (d : snapshots) (W : list Z) (t nb bits : Z).
Context (Hmo : media_ok s) (Hd : snapshot_info_tree d = ∅) (Hnb : nb <= 2 ^ 62) (Hbits : 0 <= bits).

Lemma scan_loop_run base : 0 <= base -> base + MAX_PGOFF <= 2 ^ 63 -> forall items fuel p h r bm last T,
  file_log s W t p items -> (length items <= fuel)%nat -> Forall (item_fits s nb) items ->
  ring_rel s base T r -> index_fits s nb T -> (base = 0 -> Forall (page_fits nb) (pages_entered s p items)) ->
  8 * bitmap_size (scan_bm_4K bm) = nb -> 0 <= last ->
  let st := scan_file bits items (T, ih_i_size h) in
  exists h' r' bm', scan_file_loop fuel base bits p t (h, r, bm, last) d s
      = Ok (Some t, (h', r', bm', fold_left later_page items last), d) s /\
    same_ring r r' /\ marks bm bm' (fun k => base = 0 /\ exists q, q ∈ pages_entered s p items /\ k = q / 4096) /\
    ring_rel s base st.1 r' /\ index_fits s nb st.1.
Proof.
  intros Hb Hbw. induction items as [|i items IH]; intros fuel p h r bm last T Lg Hf Fi RR F Hpg Hbm Hl st.
  { inversion Lg; subst p. exists h, r, bm. destruct fuel; cbn [scan_file_loop]; rewrite Z.eqb_refl;
      (split_and!; [done..| |done|done]); apply marks_none; intros k _ (_ & q & Hq & _); set_solver. }
  destruct fuel as [|fuel]; [cbn [length] in Hf; lia|]. inversion Fi as [|? ? Fi0 Fi1]; subst.
  destruct (scan_entry_run s d W t base (8 * bitmap_size (scan_bm_4K bm)) bits i p items T r h bm last)
    as (q & h1 & r1 & Hne & C & Lg1 & Hp & _ & _ & _ & RR1 & F1); [done..|].
  assert (log_end s p = true -> load 8 (nvmm s) (nova_get_block s (BLOCK_OFF p) + 4088) = q) as Eq by (intros E; by apply (ca_next _ _ _ C E)).
  assert ((if log_end s p then load 8 (nvmm s) (nova_get_block s (BLOCK_OFF p) + 4088) else p) = q) as Eq'.
  { destruct (log_end s p) eqn:E; [by apply Eq|by apply (ca_here _ _ _ C)]. }
  cbn [pages_entered] in *. rewrite Eq' in *.
  destruct (cursor_mark_run s base p q _ bm C eq_refl) as (bm1 & Em & M1).
  { intros E0 E1. specialize (Hpg E0). rewrite E1 in Hpg. by inversion Hpg. }
  destruct (scan_entry_run s d W t base (8 * bitmap_size (scan_bm_4K bm)) bits i p items T r h bm1 last)
    as (q' & h1' & r1' & _ & C' & Lg1' & _ & Ee & S1 & Z1 & RR1' & F1'); [done..|].
  assert (q' = q) as ->.
  { destruct (log_end s p) eqn:E; [rewrite <- (proj2 (ca_next _ _ _ C' E)); by apply Eq|].
    by rewrite <- (ca_here _ _ _ C' E), <- (ca_here _ _ _ C E). }
  destruct (IH fuel (u64 (q + item_len i)) h1' r1' bm1 (later_page last i) (scan_item bits i (T, ih_i_size h)).1)
    as (h2 & r2 & bm2 & E2 & S2 & M2 & RR2 & F2); [done|cbn [length] in Hf; lia|done|done|done|..].
  { intros E0. specialize (Hpg E0). by apply Forall_app in Hpg as [_ ?]. }
  { by apply marks_size in M1 as ->. }
  { destruct i as [? ? n inv ? ?|? ? ?|]; cbn [later_page]; [destruct (n =? inv)|..]; lia. }
  assert (((scan_item bits i (T, ih_i_size h)).1, ih_i_size h1') = scan_item bits i (T, ih_i_size h)) as Est
    by (rewrite Z1; by destruct (scan_item bits i (T, ih_i_size h))).
  rewrite Est in RR2, F2.
  exists h2, r2, bm2. split_and!; [| | |done|done].
  - cbn [scan_file_loop]. rewrite (proj2 (Z.eqb_neq _ _) Hne). cbv iota beta.
    rewrite (sbind_lift _ _ _ _ _ _ (goto_run Hrc s p q C)). rewrite (sbind_lift _ _ _ _ _ _ Em). cbv iota beta.
    rewrite (proj2 (Z.eqb_neq q 0) (ca_null _ _ _ C)).
    rewrite (sbind_lift (gets (fun s => nova_get_block s q)) _ d s (nova_get_block s q) s) by done.
    rewrite (sbind_lift (verified_entry (nova_get_block s q)) _ d s (Some (InPlace (nova_get_block s q))) s)
      by (unfold verified_entry; by rewrite Hmeta).
    rewrite (sbind_lift _ _ _ _ _ _ (type_run s _ 40 Hp ltac:(lia))). rewrite (sbind_ok _ _ _ _ _ _ _ Ee). cbn [fst snd]. exact E2.
  - destruct S1 as (? & ? & ? & ?), S2 as (? & ? & ? & ?). split_and!; congruence.
  - eapply marks_trans; [exact M1|exact M2|]. intros k _. setoid_rewrite elem_of_app. split.
    + intros [(E0 & E1 & ->)|(E0 & x & Hx & ->)]; (split; [done|]); [|by exists x; auto].
      exists q. rewrite E1. split; [|done]. left. set_solver.
    + intros (E0 & x & [Hx|Hx] & ->); [left|right; split; [done|by exists x]].
      destruct (log_end s p); [|set_solver]. apply list_elem_of_singleton in Hx as ->. done.
Qed.

Lemma index_bound items : forall T size last,
  (forall p e, T !! p = Some e -> 0 <= p <= last) -> Forall (item_fits s nb) items -> Forall (fun i => forall e pg n inv sz t, i = FWrite e pg n inv sz t -> 0 <= pg) items ->
  forall p e, (scan_file bits items (T, size)).1 !! p = Some e -> 0 <= p <= fold_left later_page items last.
Proof.
  induction items as [|i items IH]; intros T size last HT Fi Fp; [done|].
  inversion Fi as [|? ? Fi0 Fi1]; subst. inversion Fp as [|? ? Fp0 Fp1]; subst. cbn [scan_file fold_left].
  change (fold_left (fun st i => scan_item bits i st) items ?st) with (scan_file bits items st).
  rewrite (surjective_pairing (scan_item bits i (T, size))). apply IH; [|done|done].
  destruct i as [e pg n inv sz t'|reg sz t'|]; cbn [scan_item later_page fst snd].
  - destruct (Z.eqb_spec n inv) as [|Hne]; [done|]. destruct (Fi0 Hne) as (? & _). specialize (Fp0 _ _ _ _ _ _ eq_refl).
    intros p x. rewrite fill_lookup. case_decide; [lia|]. intros E. specialize (HT p x E). lia.
  - destruct (size <=? sz); [done|]. intros p x. rewrite hole_lookup. case_decide; [done|apply HT].
  - done.
Qed.

(** The blocks of the pages of [T] from [lo] on and before [hi]. *)
Definition live_blocks (T : gmap Z Z) (lo hi k : Z) : Prop :=
  exists p e, T !! p = Some e /\ lo <= p < hi /\ k = page_block s e p.

(** The log from [hd] on: its entries up to the tail, and the pages [bs] behind
    the tail. *)
Record scannable (hd : Z) (items : list file_item) (bs : list Z) : Prop := {
  sc_ends : hd <> 0 /\ t <> 0;
  sc_log : file_log s W t hd items;
  sc_fuel : (length items <= entry_fuel s)%nat;
  sc_items : Forall (item_fits s nb) items;
  sc_pages : Forall (page_fits nb) (hd :: pages_entered s hd items);
  sc_tail : in_pmem s (nova_get_block s (BLOCK_OFF (BLOCK_OFF t)) + 4088) 8 = true;
  sc_link : load 8 (nvmm s) (nova_get_block s (BLOCK_OFF (BLOCK_OFF t)) + 4088) = default 0 (head (page_off <$> bs));
  sc_rest : forall b, b ∈ bs -> LogPageSpec.page_ok s b /\ b < nb;
  sc_nodup : NoDup bs;
  sc_chain : log_chain s (nvmm s) bs
}.

Lemma rest_run hd items bs bm : device_ok s -> scannable hd items bs -> 8 * bitmap_size (scan_bm_4K bm) = nb ->
  exists bm', (let! next := next_log_page (BLOCK_OFF t) in nova_traverse_inode_log bm next) s = Ok bm' s /\
    marks bm bm' (fun k => k ∈ bs).
Proof.
  intros D Sc Hbm. rewrite (bind_ok _ _ s (default 0 (head (page_off <$> bs))) s).
  2: { unfold next_log_page, read_tail, bind at 1, gets.
       change (field_addr nova_inode_log_page (nova_get_block s (BLOCK_OFF (BLOCK_OFF t))) "next_page")
         with (nova_get_block s (BLOCK_OFF (BLOCK_OFF t)) + 4088).
       rewrite (bind_ok _ _ _ _ _ (mcsafe_good Hrc _ 8 s (sc_tail _ _ _ Sc))). cbn [fst snd Z.eqb negb].
       unfold ret. f_equal. exact (sc_link _ _ _ Sc). }
  unfold nova_traverse_inode_log. rewrite (bind_ok _ _ _ (chain_fuel s) s) by done.
  destruct (traverse_log_run s D bs (chain_fuel s) bm) as (bm' & E & Mk).
  - intros b Hb. destruct (sc_rest _ _ _ Sc b Hb). split_and!; [done|apply Hrc|lia].
  - apply Sc.
  - destruct bs as [|b bs]; [cbn; lia|]. destruct (sc_rest _ _ _ Sc b ltac:(set_solver)) as [[P1 P2] _].
    pose proof (log_pages_bound s _ (sc_nodup _ _ _ Sc) (fun b Hb => proj1 (sc_rest _ _ _ Sc b Hb)) ltac:(unfold page_off in P2; lia)). lia.
  - exists bm'. split; [done|]. eapply marks_ext; [by apply marked_marks|]. intros k _. apply bool_decide_eq_true.
Qed.

Lemma later_mono items : forall last, last <= fold_left later_page items last.
Proof.
  induction items as [|i items IH]; intros last; cbn [fold_left]; [lia|]. etransitivity; [|apply IH].
  destruct i as [? ? n inv ? ?|? ? ?|]; cbn [later_page]; [destruct (n =? inv)|..]; lia.
Qed.

(** The ring at the end of a walk: its pages are marked and it is clean again. *)
Lemma set_file_bm_run base T r bm last :
  0 < nb -> 0 <= base <= last -> base + MAX_PGOFF <= 2 ^ 63 -> 8 * bitmap_size (scan_bm_4K bm) = nb ->
  ring_rel s base T r -> index_fits s nb T -> (forall p e, T !! p = Some e -> 0 <= p <= last) ->
  exists r' bm', nova_set_file_bm r bm base last s = Ok (r', bm') s /\ same_ring r r' /\ ring_clean r' /\
    marks bm bm' (live_blocks T base (base + MAX_PGOFF)).
Proof.
  intros Hpos Hbl Hbw Hbm RR F HT. unfold nova_set_file_bm. rewrite (uwrap_small 64 (base + MAX_PGOFF)) by (unfold MAX_PGOFF in *; lia).
  set (n := Z.to_nat _). assert (Z.of_nat n = Z.min MAX_PGOFF (last - base + 1)) as En.
  { unfold n. destruct (Z.leb_spec (base + MAX_PGOFF) last).
    - unfold MAX_PGOFF in *. lia.
    - rewrite uwrap_small by (unfold MAX_PGOFF in *; lia). lia. }
  assert (forall i, 0 <= i < MAX_PGOFF -> default 0 (nvmm_array r !! i) <> 0 ->
    exists e, T !! (base + i) = Some e /\ default 0 (nvmm_array r !! i) = page_block s e (base + i)) as Live.
  { intros i Hi Hv. specialize (RR i Hi). destruct (T !! (base + i)) as [e|]; [|done].
    destruct RR as [E _]. exists e. split; [done|]. by rewrite E. }
  assert (forall i, 0 <= i < MAX_PGOFF -> 0 <= default 0 (nvmm_array r !! i) < nb) as Hv.
  { intros i Hi. destruct (decide (default 0 (nvmm_array r !! i) = 0)) as [->|Hn].
    - lia.
    - destruct (Live i Hi Hn) as (e & Et & ->). destruct (F _ _ Et). lia. }
  destruct (set_file_loop_run s n 0 r bm) as (r' & bm' & E & S & Mk & Cl); [lia|lia|rewrite Hbm; intros; apply Hv; lia|].
  exists r', bm'. split_and!; [done|done| |].
  - intros i Hi. rewrite Cl. case_decide as D; [done|]. specialize (RR i Hi).
    destruct (T !! (base + i)) as [e|] eqn:Et; [|done]. specialize (HT _ _ Et). lia.
  - eapply marks_ext; [exact Mk|]. intros k _. split.
    + intros (Hk & i & Hi & Ei). destruct (Live i) as (e & Et & Ev); [lia|congruence|].
      exists (base + i), e. split_and!; [done|lia|lia|congruence].
    + intros (p & e & Et & Hp & ->). pose proof (HT p e Et). pose proof (F p e Et) as [_ Hk]. split; [lia|].
      exists (p - base). split; [lia|]. specialize (RR (p - base) ltac:(lia)). replace (base + (p - base)) with p in RR by lia.
      rewrite Et in RR. by destruct RR as [-> _].
Qed.

(** One walk marks the live pages of its window, the first one also the log. *)
Lemma scan_pass_run base hd items bs h r bm last0 :
  0 <= base -> base + MAX_PGOFF <= 2 ^ 63 -> device_ok s -> scannable hd items bs -> 8 * bitmap_size (scan_bm_4K bm) = nb ->
  ring_clean r -> 0 <= last0 -> (0 < base -> base <= last0) ->
  let T := (scan_file bits items (∅, ih_i_size h)).1 in
  let last := fold_left later_page items last0 in
  (forall p e, T !! p = Some e -> 0 <= p <= last) -> 
  exists h' r' bm', scan_file_pass base bits hd t (h, r, bm, last0) d s = Ok (true, (h', r', bm', last), d) s /\
    same_ring r r' /\ ring_clean r' /\ index_fits s nb T /\
    marks bm bm' (fun k => (base = 0 /\ (k ∈ bs \/ exists q, q ∈ hd :: pages_entered s hd items /\ k = q / 4096)) \/
      live_blocks T base (base + MAX_PGOFF) k).
Proof.
  intros Hb Hbw D Sc Hbm Rc Hl0 Hbl T last HT. destruct (sc_ends _ _ _ Sc) as [Hh Ht]. unfold scan_file_pass.
  rewrite (proj2 (Z.eqb_neq _ _) Hh), (proj2 (Z.eqb_neq _ _) Ht). cbn [orb]. pose proof (sc_pages _ _ _ Sc) as Pg.
  apply Forall_cons in Pg as [Pg0 Pg1].
  destruct (mark_log_page_run s base hd nb bm Hbm) as (bm1 & E1 & M1); [done|]. rewrite (sbind_lift _ _ _ _ _ _ E1).
  rewrite (sbind_lift (gets entry_fuel) _ d s (entry_fuel s) s) by done.
  destruct (scan_loop_run base Hb Hbw items (entry_fuel s) hd h r bm1 last0 ∅) as (h2 & r2 & bm2 & E2 & S2 & M2 & RR2 & F2).
  { apply Sc. } { apply Sc. } { apply Sc. }
  { intros i Hi. rewrite lookup_empty. by apply Rc. } { intros p e. by rewrite lookup_empty. } { done. }
  { by rewrite (marks_size _ _ _ M1). } { done. }
  rewrite (sbind_ok _ _ _ _ _ _ _ E2). cbv iota beta. fold last. fold T in RR2, F2.
  assert (8 * bitmap_size (scan_bm_4K bm2) = nb) as Hbm2 by (by rewrite (marks_size _ _ _ M2), (marks_size _ _ _ M1)).
  assert (exists bm3, (if base =? 0 then let! next := next_log_page (BLOCK_OFF t) in nova_traverse_inode_log bm2 next else ret bm2) s
    = Ok bm3 s /\ marks bm2 bm3 (fun k => base = 0 /\ k ∈ bs)) as (bm3 & E3 & M3).
  { destruct (Z.eqb_spec base 0) as [E0|Hn0].
    - destruct (rest_run hd items bs bm2 D Sc Hbm2) as (bm3 & E3 & M3). exists bm3. split; [done|].
      eapply marks_ext; [exact M3|]. intros k _. tauto.
    - exists bm2. split; [done|]. apply marks_none. tauto. }
  rewrite (sbind_lift _ _ _ _ _ _ E3).
  destruct (set_file_bm_run base T r2 bm3 last) as (r4 & bm4 & E4 & S4 & C4 & M4); [destruct Pg0; lia| |done| |done|done|done|].
  { pose proof (later_mono items last0). unfold last. destruct (decide (base = 0)) as [->|]; [lia|]. specialize (Hbl ltac:(lia)). lia. }
  { by rewrite (marks_size _ _ _ M3). }
  rewrite (sbind_lift _ _ _ _ _ _ E4). exists h2, r4, bm4. split_and!; [done| |done|done|].
  - destruct S2 as (? & ? & ? & ?), S4 as (? & ? & ? & ?). split_and!; congruence.
  - apply (marks_trans bm bm3 bm4 (fun k => base = 0 /\ (k ∈ bs \/ exists q, q ∈ hd :: pages_entered s hd items /\ k = q / 4096))
      (live_blocks T base (base + MAX_PGOFF))); [|exact M4|done].
    eapply marks_ext; [eapply marks_seq; [eapply marks_seq; [exact M1|exact M2]|exact M3]|]. intros k _. setoid_rewrite elem_of_cons. split.
    + intros [[(E0 & ->)|(E0 & q & Hq & ->)]|(E0 & Hk)]; (split; [done|]); [right|right|by left].
      * exists hd. auto.
      * exists q. auto.
    + intros (E0 & [Hk|(q & [->|Hq] & ->)]); [by right|left; by left|left; right; split; [done|by exists q]].
Qed.

(** ** All walks *)

(** The index does not depend on the size the walk starts with. *)
Lemma scan_file_size items : forall x y, (scan_file bits items (∅, x)).1 = (scan_file bits items (∅, y)).1.
Proof.
  induction items as [|i items IH]; intros x y; [done|]. cbn [scan_file fold_left].
  change (fold_left (fun st i => scan_item bits i st) items ?st) with (scan_file bits items st).
  destruct i as [e pg n inv sz t'|reg sz t'|]; cbn [scan_item fst snd]; [done| |apply IH].
  assert (forall a b, hole a b ∅ = ∅) as Eh by (intros a b; apply map_eq; intros q; rewrite hole_lookup, lookup_empty; by case_decide).
  rewrite !Eh. by destruct (x <=? sz), (y <=? sz).
Qed.

Lemma later_fix items : forall last x, fold_left later_page items x <= last -> fold_left later_page items last = last.
Proof.
  induction items as [|i items IH]; intros last x Hx; [done|]. cbn [fold_left] in *.
  pose proof (later_mono items (later_page x i)).
  assert (later_page last i = last) as -> by (destruct i as [? ? n inv ? ?|? ? ?|]; cbn [later_page] in *; [destruct (n =? inv)|..]; lia).
  by eapply IH.
Qed.

Lemma later_bound items : forall x, x < 2 ^ 62 -> Forall (item_fits s nb) items -> fold_left later_page items x < 2 ^ 62.
Proof.
  induction items as [|i items IH]; intros x Hx Fi; [done|]. inversion Fi as [|? ? Fi0 Fi1]; subst. cbn [fold_left]. apply IH; [|done].
  destruct i as [e pg n inv ? ?|? ? ?|]; cbn [later_page]; [|done..]. destruct (Z.eqb_spec n inv) as [|Hne]; [done|].
  destruct (Fi0 Hne) as (? & ? & _). lia.
Qed.

Lemma file_log_pgoff p items : file_log s W t p items ->
  Forall (fun i => forall e pg n inv sz t, i = FWrite e pg n inv sz t -> 0 <= pg) items.
Proof.
  induction 1 as [|p q pg n inv size tid rest Hne C P R _ IH| |]; constructor; try done.
  intros ? ? ? ? ? ? [= <- <- <- <- <- <-]. apply (wr_range _ _ _ _ _ _ _ _ R).
Qed.

Lemma scan_passes_run hd items bs z : device_ok s -> scannable hd items bs ->
  let T := (scan_file bits items (∅, z)).1 in let last := fold_left later_page items 0 in
  forall fuel base h r bm, 0 <= base -> last < base + MAX_PGOFF * (1 + Z.of_nat fuel) -> base <= last ->
  8 * bitmap_size (scan_bm_4K bm) = nb -> ring_clean r ->
  exists h' r' bm', scan_passes fuel base bits hd t (h, r, bm, last) d s = Ok (h', r', bm', last, d) s /\
    same_ring r r' /\ ring_clean r' /\ marks bm bm' (live_blocks T (base + MAX_PGOFF) (last + 1)).
Proof.
  intros D Sc T last. pose proof (later_bound items 0 ltac:(lia) (sc_items _ _ _ Sc)) as Hlast. fold last in Hlast.
  assert (forall p e, T !! p = Some e -> 0 <= p <= last) as HT.
  { apply (index_bound items ∅ z 0); [intros p e; by rewrite lookup_empty|apply Sc|eapply file_log_pgoff, Sc]. }
  induction fuel as [|fuel IH]; intros base h r bm Hb Hf Hle Hbm Rc; cbn [scan_passes];
    rewrite (uwrap_small 64 (base + MAX_PGOFF)) by (unfold MAX_PGOFF in *; lia);
    destruct (Z.ltb_spec last (base + MAX_PGOFF)) as [Hlt|Hge]; [|lia| |].
  1, 2: exists h, r, bm; split_and!; [done..|]; apply marks_none; intros k _ (p & e & Et & Hp & _); lia.
  destruct (scan_pass_run (base + MAX_PGOFF) hd items bs h r bm last) as (h1 & r1 & bm1 & E1 & S1 & C1 & F1 & M1);
    [unfold MAX_PGOFF in *; lia|unfold MAX_PGOFF in *; lia|done|done|done|done|lia|lia| |].
  { rewrite (later_fix items last 0) by done. rewrite (scan_file_size items _ z). exact HT. }
  rewrite (later_fix items last 0) in E1 by done. rewrite (scan_file_size items _ z) in M1. fold T in M1.
  rewrite (sbind_ok _ _ _ _ _ _ _ E1). cbn [fst snd].
  destruct (IH (base + MAX_PGOFF) h1 r1 bm1) as (h2 & r2 & bm2 & E2 & S2 & C2 & M2); [unfold MAX_PGOFF in *; lia|lia|lia| |done|].
  { by rewrite (marks_size _ _ _ M1). }
  exists h2, r2, bm2. split_and!; [done| |done|].
  - destruct S1 as (? & ? & ? & ?), S2 as (? & ? & ? & ?). split_and!; congruence.
  - eapply marks_trans; [exact M1|exact M2|]. intros k _. split.
    + intros [[[E0 _]|(p & e & Et & Hp & ->)]|(p & e & Et & Hp & ->)].
      * unfold MAX_PGOFF in *. lia.
      * exists p, e. specialize (HT _ _ Et). split_and!; [done|lia|lia|done].
      * exists p, e. split_and!; [done|unfold MAX_PGOFF in *; lia|lia|done].
    + intros (p & e & Et & Hp & ->). destruct (Z.lt_ge_cases p (base + MAX_PGOFF + MAX_PGOFF)).
      * left. right. exists p, e. split_and!; [done|lia|lia|done].
      * right. exists p, e. split_and!; [done|lia|lia|done].
Qed.
End walk.

(** C6: the failure scan of a file ends, whatever the length of the
    file, leaves the ring clean for the next one, and marks exactly the pages of
    the log, those reserved behind its tail included, and the blocks of the pages
    that its reference replay keeps.  Every block that the file's index has after
    a rebuild from the same log is among them, so that no data of the file is on the
    free lists built from the bitmaps.  (Without snapshots, which keep more.) *)
Theorem nova_traverse_file_inode_log_marks s d W nb pi h r bm items bs :
  let fld f := buf_field nova_inode f pi in
  let bits := nova_inode_blk_shift (fld "i_blk_type"%string) in
  device_ok s -> snapshot_info_tree d = ∅ -> nb <= 2 ^ 62 -> 8 * bitmap_size (scan_bm_4K bm) = nb -> ring_clean r ->
  scannable s W (fld "log_tail"%string) nb (fld "log_head"%string) items bs ->
  let T := (scan_file bits items (∅, ih_i_size h)).1 in
  exists h' r' bm', nova_traverse_file_inode_log pi h r bm d s = Ok (h', r', bm', d) s /\
    same_ring r r' /\ ring_clean r' /\
    marks bm bm' (fun k => k ∈ bs \/ (exists q, q ∈ fld "log_head"%string :: pages_entered s (fld "log_head"%string) items /\ k = q / 4096) \/
      exists p e, T !! p = Some e /\ k = page_block s e p) /\
    (forall size p e, (replay_file bits items (∅, size, 0)).1.1 !! p = Some e ->
       Z.testbit (bitmap (scan_bm_4K bm')) (page_block s e p) = true).
Proof.
  intros fld bits D Hd Hnb Hbm Rc Sc T. set (hd := fld "log_head"%string) in *. set (t := fld "log_tail"%string) in *.
  assert (media_ok s) as Hmo by (destruct D as (? & ? & _); done).
  assert (0 <= bits) as Hbits.
  { unfold bits, nova_inode_blk_shift. by destruct (Z.to_nat _) as [|[|[|[|]]]]. }
  assert (forall p e, T !! p = Some e -> 0 <= p <= fold_left later_page items 0) as HT.
  { apply (index_bound s nb bits items ∅ _ 0); [intros p e; by rewrite lookup_empty|apply Sc|eapply file_log_pgoff, Sc]. }
  destruct (scan_pass_run s d W t nb bits Hmo Hd Hnb Hbits 0 hd items bs h r bm 0) as (h1 & r1 & bm1 & E1 & S1 & C1 & F1 & M1);
    [lia|unfold MAX_PGOFF; lia|done|done|done|done|lia|lia|done|]. fold T in M1.
  pose proof (later_mono items 0) as Hl0. set (last := fold_left later_page items 0) in *.
  destruct (scan_passes_run s d W t nb bits Hmo Hd Hnb Hbits hd items bs (ih_i_size h) D Sc (Z.to_nat (last / MAX_PGOFF)) 0 h1 r1 bm1)
    as (h2 & r2 & bm2 & E2 & S2 & C2 & M2).
  { lia. }
  { fold last. pose proof (Z.div_mod last MAX_PGOFF ltac:(done)). pose proof (Z.mod_pos_bound last MAX_PGOFF ltac:(done)).
    pose proof (Z.div_pos last MAX_PGOFF Hl0 ltac:(done)). rewrite Z2Nat.id by lia. lia. }
  { done. } { by rewrite (marks_size _ _ _ M1). } { done. }
  fold last in E2, M2. fold T in M2.
  assert (marks bm bm2 (fun k => k ∈ bs \/ (exists q, q ∈ hd :: pages_entered s hd items /\ k = q / 4096) \/
      exists p e, T !! p = Some e /\ k = page_block s e p)) as Mk.
  { eapply marks_trans; [exact M1|exact M2|]. intros k _. split.
    - intros [[(_ & [?|?])|(p & e & Et & _ & ->)]|(p & e & Et & _ & ->)]; [by left|by right; left|right; right; by exists p, e..].
    - intros [?|[?|(p & e & Et & ->)]]; [left; left; auto|left; left; auto|]. specialize (HT p e Et).
      destruct (Z.lt_ge_cases p (0 + MAX_PGOFF)); [left; right|right]; exists p, e; (split_and!; [done|lia|lia|done]). }
  exists h2, r2, bm2. split_and!; [| |done|done|].
  - unfold nova_traverse_file_inode_log. rewrite Hmeta. cbn [Z.eqb negb].
    rewrite (sbind_lift (ret bm) _ d s bm s) by done. fold fld. fold bits hd t.
    rewrite (sbind_ok _ _ _ _ _ _ _ E1). cbn [fst snd]. by rewrite (sbind_ok _ _ _ _ _ _ _ E2).
  - destruct S1 as (? & ? & ? & ?), S2 as (? & ? & ? & ?). split_and!; congruence.
  - intros size p e Et. assert (T !! p = Some e) as E.
    { eapply lookup_weaken; [exact Et|]. apply scan_contains_replay; [|done].
      eapply Forall_impl; [exact (sc_items _ _ _ _ _ _ _ Sc)|]. intros i Fi reg sz t' ->. exact Fi. }
    destruct Mk as (_ & _ & _ & Mk). destruct (F1 p e E) as [_ Hk].
    apply (Mk (page_block s e p) (Z.lt_le_incl _ _ (proj1 Hk))). right. right. right. by exists p, e.
Qed.
End scan_spec.

(** ** Examples

    The scan of a file on a small device: the log in block 600 writes the pages 0
    to 3 and then 1 and 2 again, and cuts the file to two pages. *)

From S2P Require Import BallocExample ParityExample LogExample MetaExample TreeExample Crash JournalRecover FileDataSpec Super.

Module FileScanExample.
Import BallocExample MetaExample SnapshotExample DirExample FileTreeExample RebuildFileExample ParityExample.
Local Open Scope nova_scope.
Local Open Scope list_scope.

Definition fake : list Z := load_bytes fmm fpi 128.
Definition bm0 : scan_bitmap := mkScanBitmap (mkScanBm 512 0) (mkScanBm 1 0) (mkScanBm 0 0).

Lemma fss_scannable : scannable fss fW ftail 4096 (600 * 4096) fitems [].
Proof.
  split.
  - split; vm_compute; discriminate.
  - exact fss_log.
  - apply Nat.leb_le. vm_compute. reflexivity.
  - repeat constructor; vm_compute; intuition congruence.
  - replace (pages_entered fss (600 * 4096) fitems) with (@nil Z) by (vm_compute; reflexivity).
    constructor; [split; vm_compute; intuition congruence|constructor].
  - vm_compute. reflexivity.
  - vm_compute. reflexivity.
  - intros b Hb. by apply elem_of_nil in Hb.
  - constructor.
  - exact I.
Qed.

(** The log is in block 600; the live pages are in 700 and 710, and the blocks of
    what was overwritten or cut off are not marked. *)
Lemma nova_traverse_file_inode_log_marks_witness :
  exists h' r' bm', @nova_traverse_file_inode_log plain (media []) kmalloc_lib
      fake (nova_init_header 0) new_ring bm0 empty_snaps fss = Ok (h', r', bm', empty_snaps) fss /\
    ring_clean r' /\ Z.testbit (bitmap (scan_bm_4K bm')) 600 = true /\ Z.testbit (bitmap (scan_bm_4K bm')) 700 = true /\
    Z.testbit (bitmap (scan_bm_4K bm')) 710 = true.
Proof.
  destruct (nova_traverse_file_inode_log_marks (H := plain) (H0 := RbExample.lib) (H1 := media []) (H2 := kmalloc_lib)
    (H5 := ScanExample.bits) (RO := RbExample.lib_ok) (BO := ScanExample.bits_ok)
    ltac:(reflexivity) ltac:(reflexivity) fss empty_snaps fW 4096 fake (nova_init_header 0) new_ring bm0 fitems [])
    as (h' & r' & bm' & E & _ & C & Mk & Lv).
  - exact s1_device.
  - reflexivity.
  - lia.
  - reflexivity.
  - intros i _. reflexivity.
  - exact fss_scannable.
  - exists h', r', bm'. split; [exact E|]. split; [exact C|]. split_and!.
    + apply (proj2 (proj2 (proj2 Mk)) 600 ltac:(lia)). right. right. left. exists (600 * 4096).
      split; [apply elem_of_cons; left; vm_compute; reflexivity|reflexivity].
    + exact (Lv 0 0 fw1 ltac:(vm_compute; reflexivity)).
    + exact (Lv 0 1 fw2 ltac:(vm_compute; reflexivity)).
Defined.
End FileScanExample.

(** The two copies of a super block. *)
Module SuperExample.
Import BallocExample MetaExample DirExample.
Local Open Scope nova_scope.
Local Open Scope string_scope.
Local Open Scope list_scope.
Local Open Scope Z_scope.

#[local] Existing Instance CrcExample.env_ok.
#[local] Existing Instance plain.

Definition blank : list Z := sb_set "s_size" 0x1000000 (sb_set "s_magic" NOVA_SUPER_MAGIC (replicate 60 0)).
Definition old : list Z := Eval vm_compute in nova_update_super_crc 100 blank.
Definition first_copy : Z := 0x100000000.
Definition second_copy : Z := 0x100fff000.

(** Both copies are good; the first one is lost. *)
Definition us : nova := set_nvmm (store_bytes (store_bytes ∅ first_copy old) second_copy old) s1.
Definition lost : nova := set_nvmm (store_bytes ∅ second_copy old) s1.

Lemma us_geo : super_geo us.
Proof. split; vm_compute; intuition congruence. Qed.
Lemma old_ok : super_ok old.
Proof. split_and!; vm_compute; reflexivity. Qed.


(** Mounted at 200, the update at 201. *)
Lemma nova_update_mount_time_atomic_witness :
  exists new evs, nova_update_mount_time 200 201 old us = Ok new (window us evs) /\ sb_get "s_mtime" new = 200 /\
    forall r b, rebooted us r evs -> readable_copy (ML := media []) r first_copy -> readable_copy (ML := media []) r second_copy ->
      exists s', nova_check_integrity (H0 := media []) b r = Ok (0, new, nova_check_module_params new module_params_now) s'.
Proof.
  destruct (nova_update_mount_time_atomic (NE := plain) (ML := media []) us old 200 201 old) as (new & evs & E & _ & Em & _ & C).
  - exact us_geo.
  - vm_compute. reflexivity.
  - apply (bool_decide_unpack _). vm_compute. exact I.
  - vm_compute. reflexivity.
  - vm_compute. reflexivity.
  - exact old_ok.
  - exists new, evs. split; [exact E|]. split; [exact Em|]. intros r b RB R1 R2.
    destruct (C (length evs) r b) as (l & s' & Ec & _ & El); [by rewrite firstn_all|exact R1|exact R2|].
    rewrite (El ltac:(lia)) in Ec. by exists s'.
Defined.
End SuperExample.
