(* ===== verification/Squint.v ===== *)
(** The Squint tracer: what its three copies share.

    The kernel's [kfifo] is an interface, [KfifoOps] with the laws its
    documentation states ([KfifoLaws]); a list-backed instance shows that the
    laws are consistent.  C strings are byte buffers with their NUL, printed
    by [snprintf].  Also here: the wrappers the compiler pass calls (print.c)
    and the lemmas on sequences of [kfifo_in_spinlocked] calls. *)

From Stdlib Require Import Ascii.
From stdpp Require Import strings.
From S2P Require Import Prelude CInt NovaEnv.

Local Open Scope string_scope.
Local Open Scope list_scope.
Local Open Scope Z_scope.

(** ** The kernel's byte FIFO *)
Class KfifoOps (F : Type) := {
  kfifo_alloc : Z -> F;
  kfifo_in : F -> list Z -> F;
  kfifo_avail : F -> Z;
  (* [kfifo_to_user f count ulen]: the user buffer is writable for [ulen]
     bytes; yields the return code, [copied], the bytes that reached the
     buffer and the new FIFO *)
  kfifo_to_user : F -> Z -> Z -> Z * Z * list Z * F
}.

(** [length] in [Z]. *)
Definition zlen {A} (l : list A) : Z := Z.of_nat (length l).
Definition ztake {A} (n : Z) (l : list A) : list A := take (Z.to_nat n) l.
Definition zdrop {A} (n : Z) (l : list A) : list A := drop (Z.to_nat n) l.

Class KfifoLaws (F : Type) `{KfifoOps F} := {
  kfifo_data : F -> list Z;
  kfifo_size : F -> Z;
  kfifo_ok : F -> Prop;
  kfifo_ok_bound f : kfifo_ok f -> zlen (kfifo_data f) <= kfifo_size f;
  kfifo_alloc_spec k : 0 <= k < 31 ->
    kfifo_ok (kfifo_alloc (2 ^ k)) /\ kfifo_data (kfifo_alloc (2 ^ k)) = []
    /\ kfifo_size (kfifo_alloc (2 ^ k)) = 2 ^ k;
  kfifo_avail_spec f : kfifo_ok f -> kfifo_avail f = kfifo_size f - zlen (kfifo_data f);
  kfifo_in_spec f l : kfifo_ok f ->
    kfifo_ok (kfifo_in f l) /\ kfifo_size (kfifo_in f l) = kfifo_size f
    /\ kfifo_data (kfifo_in f l)
       = kfifo_data f ++ ztake (kfifo_size f - zlen (kfifo_data f)) l;
  kfifo_to_user_spec f count ulen rc copied out f' :
    kfifo_ok f -> 0 <= count -> 0 <= ulen ->
    kfifo_to_user f count ulen = (rc, copied, out, f') ->
    kfifo_ok f' /\ kfifo_size f' = kfifo_size f
    /\ out = ztake copied (kfifo_data f) /\ kfifo_data f' = zdrop copied (kfifo_data f)
    /\ (Z.min count (zlen (kfifo_data f)) <= ulen ->
        rc = 0 /\ copied = Z.min count (zlen (kfifo_data f)))
    /\ (ulen < Z.min count (zlen (kfifo_data f)) ->
        rc = - EFAULT /\ 0 <= copied <= ulen)
}.

(** ** C strings *)
Fixpoint bytes_of (s : string) : list Z :=
  match s with
  | EmptyString => []
  | String c s => Z.of_nat (nat_of_ascii c) :: bytes_of s
  end.

Definition newline : list Z := [10].

(** A string literal as the array it denotes. *)
Definition literal (l : list Z) : list Z := l ++ [0].

(** The characters of a buffer up to its first NUL: [strlen] is their number. *)
Fixpoint cstr (buf : list Z) : list Z :=
  match buf with
  | [] => []
  | c :: buf => if c =? 0 then [] else c :: cstr buf
  end.

Definition strlen (buf : list Z) : Z := zlen (cstr buf).

(** [snprintf(buf, n, ...)] of a text: what [buf] holds afterwards. *)
Definition snprintf (n : nat) (text : list Z) : list Z := take (n - 1) text ++ [0].

(** [%lu] *)
Fixpoint dec_digits (fuel : nat) (n : Z) : list Z :=
  match fuel with
  | O => []
  | S fuel => if n <? 10 then [48 + n] else dec_digits fuel (n / 10) ++ [48 + n mod 10]
  end.
Definition fmt_lu (n : Z) : list Z := dec_digits 20 n.

(** A reader of the trace: the number a run of digits denotes. *)
Definition parse_dec (l : list Z) : Z := foldl (fun a c => 10 * a + (c - 48)) 0 l.

(** What the kernel prints for ["[<%px>] %pS\n"] and an address. *)
Class KernelPrint := { fmt_entry : Z -> list Z }.
Class KernelPrintOk `{KernelPrint} := {
  fmt_entry_nonul a : Forall (fun c => c <> 0) (fmt_entry a)
}.

(** The module's state: the FIFO ([None] while it is not allocated) and the
    /proc entry. *)
Record squint (F : Type) := mkSquint { squint_dev : option F; proc_entry : bool }.
Arguments mkSquint {F} squint_dev proc_entry.
Arguments squint_dev {F} s.
Arguments proc_entry {F} s.

Definition KFIFO_LEN : Z := 16384.
Definition MAX_ENTRIES : nat := 32.

(** The texts of the trace records. *)
Definition flush_text : list Z := bytes_of "@ flush" ++ newline.
Definition fence_text : list Z := bytes_of "@ fence" ++ newline.
Definition store_text (addr : Z) : list Z := bytes_of "@ store: " ++ fmt_lu addr ++ newline.

(** ** print.c

    The functions the compiler pass inserts calls to. *)
Section wrappers.
Context {S : Type}.
Variables (write_fence_trace write_flush_trace : S -> option S)
  (write_store_trace : Z -> S -> option S).

Definition write_fence_trace_wrapper : S -> option S := write_fence_trace.
Definition write_flush_trace_wrapper (addr : Z) : S -> option S := write_flush_trace.
Definition write_store_trace_wrapper (addr sz : Z) : S -> option S := write_store_trace addr.
End wrappers.

(** ** Lemmas *)
Lemma zlen_app {A} (l k : list A) : zlen (l ++ k) = zlen l + zlen k.
Proof. unfold zlen. rewrite length_app. lia. Qed.
Lemma zlen_nonneg {A} (l : list A) : 0 <= zlen l.
Proof. unfold zlen. lia. Qed.
Lemma ztake_zdrop {A} n (l : list A) : ztake n l ++ zdrop n l = l.
Proof. apply take_drop. Qed.
Lemma ztake_all {A} n (l : list A) : zlen l <= n -> ztake n l = l.
Proof. unfold zlen, ztake. intros. apply take_ge. lia. Qed.
Lemma zlen_ztake {A} n (l : list A) : 0 <= n -> zlen (ztake n l) = Z.min n (zlen l).
Proof. unfold zlen, ztake. rewrite length_take. lia. Qed.
Lemma zlen_zdrop {A} n (l : list A) : 0 <= n <= zlen l -> zlen (zdrop n l) = zlen l - n.
Proof. unfold zlen, zdrop. rewrite length_drop. lia. Qed.
Lemma drop_le {A} n (l : list A) : zlen (zdrop n l) <= zlen l.
Proof. unfold zlen, zdrop. rewrite length_drop. lia. Qed.
Lemma ztake_prefix {A} n (l : list A) : ztake n l `prefix_of` l.
Proof. exists (zdrop n l). by rewrite ztake_zdrop. Qed.

Lemma cstr_nonul l : Forall (fun c => c <> 0) l -> cstr (l ++ [0]) = l.
Proof.
  induction 1 as [|c l Hc _ IH]; [done|]. cbn.
  destruct (Z.eqb_spec c 0); [done|]. by rewrite IH.
Qed.

Lemma cstr_snprintf n text :
  Forall (fun c => c <> 0) text -> cstr (snprintf n text) = take (n - 1) text.
Proof. intros Ht. apply cstr_nonul. by apply Forall_take. Qed.

Lemma zlen_cstr_snprintf n text :
  Forall (fun c => c <> 0) text -> (0 < n)%nat ->
  zlen (cstr (snprintf n text)) <= Z.of_nat n - 1.
Proof. intros Ht Hn. rewrite cstr_snprintf by done. unfold zlen. rewrite length_take. lia. Qed.

(** *** Decimal printing *)
Lemma dec_digits_spec fuel n :
  0 <= n < 10 ^ Z.of_nat fuel -> (0 < fuel)%nat ->
  Forall (fun c => 48 <= c <= 57) (dec_digits fuel n)
  /\ parse_dec (dec_digits fuel n) = n /\ (length (dec_digits fuel n) <= fuel)%nat.
Proof.
  revert n. induction fuel as [|fuel IH]; intros n Hn Hf; [lia|]. cbn [dec_digits].
  destruct (Z.ltb_spec n 10).
  - repeat split; [|unfold parse_dec; cbn; lia|cbn; lia].
    constructor; [lia|constructor].
  - destruct (decide (fuel = 0%nat)) as [->|Hf0]; [cbn in Hn; lia|].
    pose proof (Z.div_mod n 10). pose proof (Z.mod_pos_bound n 10).
    destruct (IH (n / 10)) as (HF & HP & HL); [|lia|].
    { split; [apply Z.div_pos; lia|]. apply Z.div_lt_upper_bound; [lia|].
      rewrite <- Z.pow_succ_r, <- Nat2Z.inj_succ by lia. lia. }
    repeat split.
    + apply Forall_app. split; [done|]. constructor; [lia|constructor].
    + unfold parse_dec in *. rewrite foldl_app, HP. cbn. lia.
    + rewrite length_app. cbn. lia.
Qed.

Lemma fmt_lu_spec n :
  0 <= n < 2 ^ 64 ->
  Forall (fun c => 48 <= c <= 57) (fmt_lu n) /\ parse_dec (fmt_lu n) = n
  /\ (length (fmt_lu n) <= 20)%nat.
Proof. intros. apply dec_digits_spec; [cbn; lia|lia]. Qed.

Lemma store_text_nonul addr :
  0 <= addr < 2 ^ 64 -> Forall (fun c => c <> 0) (store_text addr).
Proof.
  intros Ha. destruct (fmt_lu_spec addr Ha) as (HF & _ & _). unfold store_text.
  rewrite !Forall_app. repeat split.
  - repeat constructor; done.
  - eapply Forall_impl; [exact HF|]. cbn. lia.
  - repeat constructor; done.
Qed.

(** The record of a store never exceeds its 40-byte buffer. *)
Lemma store_text_fits addr :
  0 <= addr < 2 ^ 64 -> cstr (snprintf 40 (store_text addr)) = store_text addr.
Proof.
  intros Ha. rewrite cstr_snprintf by by apply store_text_nonul.
  apply take_ge. destruct (fmt_lu_spec addr Ha) as (_ & _ & HL).
  unfold store_text. rewrite !length_app. generalize dependent (length (fmt_lu addr)).
  intros k Hk. cbn. lia.
Qed.

(** *** Sequences of writes *)
Section writes.
Context {F : Type} `{KfifoLaws F}.

(** Successive [kfifo_in] calls; [accepted f ls] are the pieces they store. *)
Definition kfifo_ins (f : F) (ls : list (list Z)) : F := foldl kfifo_in f ls.

Fixpoint accepted (f : F) (ls : list (list Z)) : list (list Z) :=
  match ls with
  | [] => []
  | l :: ls => ztake (kfifo_avail f) l :: accepted (kfifo_in f l) ls
  end.

Lemma kfifo_ins_ok f ls :
  kfifo_ok f -> kfifo_ok (kfifo_ins f ls) /\ kfifo_size (kfifo_ins f ls) = kfifo_size f.
Proof.
  revert f. induction ls as [|l ls IH]; intros f Hf; [done|].
  change (kfifo_ins f (l :: ls)) with (kfifo_ins (kfifo_in f l) ls).
  destruct (kfifo_in_spec f l Hf) as (Hok & Hsz & _).
  destruct (IH _ Hok) as [? E]. split; [done|]. by rewrite E.
Qed.

Lemma kfifo_ins_data f ls :
  kfifo_ok f -> kfifo_data (kfifo_ins f ls) = kfifo_data f ++ concat (accepted f ls).
Proof.
  revert f. induction ls as [|l ls IH]; intros f Hf; [cbn; by rewrite app_nil_r|].
  change (kfifo_ins f (l :: ls)) with (kfifo_ins (kfifo_in f l) ls). cbn [accepted concat].
  destruct (kfifo_in_spec f l Hf) as (Hok & _ & Hd).
  rewrite IH, Hd, <- app_assoc by done. by rewrite (kfifo_avail_spec f Hf).
Qed.

Lemma accepted_prefix f ls : Forall2 (prefix (A := Z)) (accepted f ls) ls.
Proof.
  revert f. induction ls as [|l ls IH]; intros f; cbn; [constructor|].
  constructor; [apply ztake_prefix|apply IH].
Qed.

Lemma accepted_all f ls :
  kfifo_ok f -> zlen (concat ls) <= kfifo_avail f -> accepted f ls = ls.
Proof.
  revert f. induction ls as [|l ls IH]; intros f Hf Hl; cbn; [done|].
  destruct (kfifo_in_spec f l Hf) as (Hok & Hsz & Hd).
  cbn in Hl. rewrite zlen_app in Hl. pose proof (zlen_nonneg (concat ls)).
  rewrite ztake_all by lia. f_equal. apply IH; [done|].
  rewrite (kfifo_avail_spec f Hf) in Hl. rewrite (kfifo_avail_spec _ Hok), Hsz, Hd, zlen_app.
  rewrite ztake_all by lia. lia.
Qed.
End writes.

(** ** Writes under the spinlock

    [kfifo_in_spinlocked] takes the lock, calls [kfifo_in] and releases the
    lock.  The copy of [kfifo_in] takes time; the calls of a handler are kept as
    a list, so that the threads of [SquintModule] interleave at every point of it. *)
Inductive call := SpinLock | KfifoIn (buf : list Z) | SpinUnlock.

Definition kfifo_in_spinlocked (buf : list Z) : list call := [SpinLock; KfifoIn buf; SpinUnlock].

(** The calls of one thread with nobody else around; [None]: the FIFO is not
    allocated, or the thread waits for a lock it holds itself. *)
Fixpoint run_calls {F} `{KfifoOps F} (calls : list call) (held : bool) (s : squint F) : option (squint F) :=
  match calls with
  | [] => Some s
  | SpinLock :: calls => if held then None else run_calls calls true s
  | KfifoIn buf :: calls =>
      match squint_dev s with
      | None => None
      | Some dev => run_calls calls held (mkSquint (Some (kfifo_in dev buf)) (proc_entry s))
      end
  | SpinUnlock :: calls => run_calls calls false s
  end.

(** ** A list-backed FIFO *)
Module ListFifo.
Record fifo := mkFifo { items : list Z; cap : Z }.

Definition alloc (n : Z) : fifo := mkFifo [] n.
Definition push (f : fifo) (l : list Z) : fifo :=
  mkFifo (items f ++ ztake (cap f - zlen (items f)) l) (cap f).
Definition avail (f : fifo) : Z := cap f - zlen (items f).
Definition to_user (f : fifo) (count ulen : Z) : Z * Z * list Z * fifo :=
  let n := Z.min count (zlen (items f)) in
  if n <=? ulen then (0, n, ztake n (items f), mkFifo (zdrop n (items f)) (cap f))
  else (- EFAULT, ulen, ztake ulen (items f), mkFifo (zdrop ulen (items f)) (cap f)).

#[export] Instance ops : KfifoOps fifo := {
  kfifo_alloc := alloc; kfifo_in := push; kfifo_avail := avail; kfifo_to_user := to_user }.

Lemma drop_bound (l : list Z) n c : zlen l <= c -> zlen (zdrop n l) <= c.
Proof. unfold zlen, zdrop. rewrite length_drop. lia. Qed.

#[export] Program Instance laws : KfifoLaws fifo := {
  kfifo_data := items; kfifo_size := cap; kfifo_ok := fun f => zlen (items f) <= cap f }.
Next Obligation. done. Qed.
Next Obligation. intros k Hk. cbn. repeat split. apply Z.lt_le_incl, Z.pow_pos_nonneg; lia. Qed.
Next Obligation. done. Qed.
Next Obligation.
  intros f l Hf. repeat split. cbn in *. rewrite zlen_app, zlen_ztake by lia. lia.
Qed.
Next Obligation.
  intros f count ulen rc copied out f' Hf Hc Hu. cbn. unfold to_user.
  destruct (Z.leb_spec (Z.min count (zlen (items f))) ulen); intros [= <- <- <- <-];
    cbn; (split; [by apply drop_bound|]); repeat split; lia.
Qed.
End ListFifo.
