(* ===== verification/SquintModule.v ===== *)
(** The Squint tracer of kfifo_kernel_module/src/squint_module.c.

    The handlers as state transformers ([None]: the FIFO is used before it is
    allocated), and the tracer under concurrency: threads that append lines
    under the spinlock while a reader drains the device, as a step relation over
    the calls of [kfifo_in_spinlocked]. *)

From stdpp Require Import strings relations.
From S2P Require Import Prelude CInt NovaEnv Squint.

Local Open Scope list_scope.
Local Open Scope Z_scope.

Section squint_module.
Context {F : Type} `{KfifoLaws F} `{KernelPrint}.
Implicit Types s : squint F.

(** The conditional expression [ret ? ret : copied] mixes [int] and [unsigned
    int]: its value is an [unsigned int], then converted to [ssize_t]. *)
Definition SquintDeviceRead (count ulen : Z) (s : squint F)
    : option (Z * list Z * squint F) :=
  match squint_dev s with
  | None => None
  | Some dev =>
      let '(rc, copied, out, dev') := kfifo_to_user dev count ulen in
      Some (if negb (rc =? 0) then u32 rc else u32 copied, out,
            mkSquint (Some dev') (proc_entry s))
  end.

(** [alloc_rc] is what [kfifo_alloc] returns, [proc_ok] whether [proc_create]
    succeeds. *)
Definition kfifo_squint_init (alloc_rc : Z) (proc_ok : bool) (s : squint F) : Z * squint F :=
  if negb (alloc_rc =? 0) then (alloc_rc, s)
  else if negb proc_ok then (- ENOMEM, mkSquint None (proc_entry s))
  else (0, mkSquint (Some (kfifo_alloc KFIFO_LEN)) true).

Definition squint_fifo_write_calls (input : list Z) : list call := kfifo_in_spinlocked (cstr input).

Definition squint_fifo_write (input : list Z) (s : squint F) : option (squint F) :=
  run_calls (squint_fifo_write_calls input) false s.

Fixpoint print_entries (entries : list Z) (s : squint F) : option (squint F) :=
  match entries with
  | [] => Some s
  | e :: entries =>
      match squint_fifo_write (snprintf 200 (fmt_entry e)) s with
      | None => None
      | Some s => print_entries entries s
      end
  end.

(** [stack_trace_save] stores at most 32 of the caller's return addresses. *)
Definition print_trace (stack : list Z) (s : squint F) : option (squint F) :=
  print_entries (take MAX_ENTRIES stack) s.

Definition write_flush_trace (stack : list Z) (s : squint F) : option (squint F) :=
  match squint_fifo_write (literal flush_text) s with
  | None => None
  | Some s => print_trace stack s
  end.

Definition write_fence_trace (stack : list Z) (s : squint F) : option (squint F) :=
  match squint_fifo_write (literal fence_text) s with
  | None => None
  | Some s => print_trace stack s
  end.

Definition write_store_trace (addr : Z) (stack : list Z) (s : squint F) : option (squint F) :=
  match squint_fifo_write (snprintf 40 (store_text addr)) s with
  | None => None
  | Some s => print_trace stack s
  end.

Definition kfifo_squint_exit (s : squint F) : squint F := mkSquint None false.

(** ** The handlers as sequences of lines *)
Definition trace_lines (stack : list Z) : list (list Z) :=
  (fun e => cstr (snprintf 200 (fmt_entry e))) <$> take MAX_ENTRIES stack.

Lemma print_entries_run entries dev p :
  print_entries entries (mkSquint (Some dev) p)
  = Some (mkSquint (Some (kfifo_ins dev
            ((fun e => cstr (snprintf 200 (fmt_entry e))) <$> entries))) p).
Proof. revert dev. induction entries as [|e entries IH]; intros dev; [done|]. apply IH. Qed.

Lemma write_flush_trace_run stack dev p :
  write_flush_trace stack (mkSquint (Some dev) p)
  = Some (mkSquint (Some (kfifo_ins dev (flush_text :: trace_lines stack))) p).
Proof. unfold write_flush_trace. unfold squint_fifo_write; cbn [run_calls squint_fifo_write_calls kfifo_in_spinlocked squint_dev proc_entry]. apply print_entries_run. Qed.

Lemma write_fence_trace_run stack dev p :
  write_fence_trace stack (mkSquint (Some dev) p)
  = Some (mkSquint (Some (kfifo_ins dev (fence_text :: trace_lines stack))) p).
Proof. unfold write_fence_trace. unfold squint_fifo_write; cbn [run_calls squint_fifo_write_calls kfifo_in_spinlocked squint_dev proc_entry]. apply print_entries_run. Qed.

Lemma write_store_trace_run addr stack dev p :
  0 <= addr < 2 ^ 64 ->
  write_store_trace addr stack (mkSquint (Some dev) p)
  = Some (mkSquint (Some (kfifo_ins dev (store_text addr :: trace_lines stack))) p).
Proof.
  intros Ha. unfold write_store_trace, squint_fifo_write. cbn [run_calls squint_fifo_write_calls kfifo_in_spinlocked squint_dev proc_entry].
  rewrite store_text_fits by done. apply print_entries_run.
Qed.

(** ** Concurrent use

    Each thread runs the calls of a sequence of [squint_fifo_write]s, one reader
    calls [SquintDeviceRead].  A [kfifo_in] is two steps: it sees the free room,
    and later its copy is complete.  The kernel allows one [kfifo_in] beside one
    reader; what happens when two of them overlap is not defined, and sets
    [raced].  [log] records, in the order of the copies, the thread, its line and
    the room its copy saw. *)
Record tracer := mkTracer {
  fifo : F;
  out : list Z;
  threads : list (list call);
  lock : option nat;
  copying : option (nat * Z);
  raced : bool;
  log : list (nat * list Z * Z)
}.

Definition boot_tracer (progs : list (list (list Z))) : tracer :=
  mkTracer (kfifo_alloc KFIFO_LEN) [] ((fun prog => concat (squint_fifo_write_calls <$> prog)) <$> progs)
    None None false [].

Inductive tstep : tracer -> tracer -> Prop :=
| tstep_lock t i k :
    threads t !! i = Some (SpinLock :: k) -> lock t = None ->
    tstep t (mkTracer (fifo t) (out t) (<[i := k]> (threads t)) (Some i) (copying t) (raced t) (log t))
| tstep_begin t i buf k :
    threads t !! i = Some (KfifoIn buf :: k) -> copying t = None ->
    tstep t (mkTracer (fifo t) (out t) (threads t) (lock t) (Some (i, kfifo_avail (fifo t))) (raced t) (log t))
| tstep_race t i buf k j room :
    threads t !! i = Some (KfifoIn buf :: k) -> copying t = Some (j, room) -> i <> j ->
    tstep t (mkTracer (fifo t) (out t) (threads t) (lock t) (copying t) true (log t))
| tstep_end t i buf k room :
    threads t !! i = Some (KfifoIn buf :: k) -> copying t = Some (i, room) ->
    tstep t (mkTracer (kfifo_in (fifo t) (ztake room buf)) (out t) (<[i := k]> (threads t)) (lock t) None
               (raced t) (log t ++ [(i, buf, room)]))
| tstep_unlock t i k :
    threads t !! i = Some (SpinUnlock :: k) ->
    tstep t (mkTracer (fifo t) (out t) (<[i := k]> (threads t)) None (copying t) (raced t) (log t))
| tstep_read t count ulen rc bytes s' p dev' :
    0 <= count -> 0 <= ulen ->
    SquintDeviceRead count ulen (mkSquint (Some (fifo t)) p) = Some (rc, bytes, s') ->
    squint_dev s' = Some dev' ->
    tstep t (mkTracer dev' (out t ++ bytes) (threads t) (lock t) (copying t) (raced t) (log t)).

(** What was stored of a line: all of it, or what the room it saw allowed. *)
Definition stored (x : nat * list Z * Z) : list Z := ztake x.2 x.1.2.

(** The lines thread [i] has written. *)
Definition done_lines (i : nat) (l : list (nat * list Z * Z)) : list (list Z) :=
  (fun x => x.1.2) <$> filter (fun x => x.1.1 = i) l.

Definition calls_of (lines : list (list Z)) : list call := concat (kfifo_in_spinlocked <$> lines).

(** Where thread [i] is in its program: between lines, with the lock and a line
    to copy, or with the line copied and the lock to release. *)
Inductive phase (t : tracer) (i : nat) (lines : list (list Z)) : Prop :=
| ph_idle rest : lines = done_lines i (log t) ++ rest -> threads t !! i = Some (calls_of rest) ->
    lock t <> Some i -> phase t i lines
| ph_copy l rest : lines = done_lines i (log t) ++ l :: rest ->
    threads t !! i = Some (KfifoIn l :: SpinUnlock :: calls_of rest) -> lock t = Some i -> phase t i lines
| ph_copied rest : lines = done_lines i (log t) ++ rest ->
    threads t !! i = Some (SpinUnlock :: calls_of rest) -> lock t = Some i -> copying t = None -> phase t i lines.

Record tracer_inv (progs : list (list (list Z))) (t : tracer) : Prop := {
  ti_ok : kfifo_ok (fifo t);
  ti_size : kfifo_size (fifo t) = KFIFO_LEN;
  ti_stream : out t ++ kfifo_data (fifo t) = concat (stored <$> log t);
  ti_raced : raced t = false;
  ti_copying : forall j room, copying t = Some (j, room) -> lock t = Some j /\ 0 <= room <= kfifo_avail (fifo t);
  ti_len : length (threads t) = length progs;
  ti_phase : forall i prog, progs !! i = Some prog -> phase t i (cstr <$> prog)
}.

Lemma done_lines_app i l x :
  done_lines i (l ++ [x]) = done_lines i l ++ (if decide (x.1.1 = i) then [x.1.2] else []).
Proof.
  unfold done_lines. rewrite filter_app, fmap_app. f_equal.
  rewrite filter_cons. by case_decide.
Qed.

Lemma inv_thread progs t i k :
  tracer_inv progs t -> threads t !! i = Some k -> exists prog, progs !! i = Some prog /\ phase t i (cstr <$> prog).
Proof.
  intros I Hi. apply lookup_lt_Some in Hi. rewrite (ti_len _ _ I) in Hi.
  destruct (lookup_lt_is_Some_2 progs i Hi) as [prog Hp]. exists prog. split; [done|by apply (ti_phase _ _ I)].
Qed.

(** A step of thread [i] leaves the phases of the others. *)
Lemma phase_other t t' i j lines k :
  phase t j lines -> i <> j -> threads t' = <[i := k]> (threads t) \/ threads t' = threads t ->
  done_lines j (log t') = done_lines j (log t) ->
  (lock t' = Some j <-> lock t = Some j) -> (lock t = Some j -> copying t' = copying t) -> phase t' j lines.
Proof.
  intros Ph Hne Ht El Hl Hc.
  assert (threads t' !! j = threads t !! j) as Et by (destruct Ht as [-> | ->]; [by rewrite list_lookup_insert_ne|done]).
  destruct Ph as [rest E1 E2 E3|l rest E1 E2 E3|rest E1 E2 E3 E4]; rewrite <- ?Et, <- ?El in *.
  - apply (ph_idle _ _ _ rest); [done|done|tauto].
  - apply (ph_copy _ _ _ l rest); [done|done|tauto].
  - apply (ph_copied _ _ _ rest); [done|done|tauto|]. rewrite Hc; done.
Qed.

Lemma lookup_new {A} (l : list A) i x y : l !! i = Some y -> <[i := x]> l !! i = Some x.
Proof. intros Hi. apply list_lookup_insert_eq. by eapply lookup_lt_Some. Qed.

Lemma tstep_inv progs t t' : tracer_inv progs t -> tstep t t' -> tracer_inv progs t'.
Proof.
  intros I St. pose proof I as [Hok Hsz Hst Hr Hc Hl Hp].
  destruct St as [t i k Hi Hlk|t i buf k Hi Hcp|t i buf k j room Hi Hcp Hne|t i buf k room Hi Hcp|t i k Hi
                 |t count ulen rc bytes s' p dev' Hcount Hu E Ed].
  - destruct (inv_thread _ _ _ _ I Hi) as (prog & Hpi & Ph).
    assert (copying t = None) as Hcn by (destruct (copying t) as [[j room]|]; [|done]; destruct (Hc j room eq_refl); congruence).
    split; cbn; [done..| |by rewrite length_insert|]; [by rewrite Hcn|].
    intros j prog' Hj. destruct (decide (i = j)) as [<-|Hne].
    2: { apply (phase_other t _ i j _ k); cbn; [by apply Hp|done|by left|done| |done]. rewrite Hlk. naive_solver. }
    rewrite Hj in Hpi. injection Hpi as ->. destruct Ph as [rest E1 E2 E3|? ? _ _ E3|? _ _ E3]; [|congruence..].
    rewrite Hi in E2. destruct rest as [|l rest]; [done|]. injection E2 as ->.
    apply (ph_copy _ _ _ l rest); cbn; [done|by eapply lookup_new|done].
  - destruct (inv_thread _ _ _ _ I Hi) as (prog & Hpi & Ph).
    destruct Ph as [rest _ E2|l rest E1 E2 E3|rest _ E2];
      [destruct rest; rewrite Hi in E2; discriminate E2| |rewrite Hi in E2; discriminate E2].
    split; cbn; [done..| |done|].
    + intros j room [= <- <-]. split; [done|]. rewrite kfifo_avail_spec by done. pose proof (kfifo_ok_bound _ Hok). lia.
    + intros j prog' Hj. destruct (decide (i = j)) as [<-|Hne].
      * rewrite Hj in Hpi. injection Hpi as ->. by apply (ph_copy _ _ _ l rest).
      * apply (phase_other t _ i j _ k); cbn; [by apply Hp|done|by right|done|done|]. congruence.
  - exfalso. destruct (inv_thread _ _ _ _ I Hi) as (prog & Hpi & Ph). destruct (Hc _ _ Hcp) as [Hlj _].
    destruct Ph as [rest _ E2|l rest E1 E2 E3|rest _ E2];
      [destruct rest; rewrite Hi in E2; discriminate E2|congruence|rewrite Hi in E2; discriminate E2].
  - destruct (inv_thread _ _ _ _ I Hi) as (prog & Hpi & Ph). destruct (Hc _ _ Hcp) as [Hlj Hroom].
    destruct (kfifo_in_spec (fifo t) (ztake room buf) Hok) as (Hok' & Hsz' & Hd').
    split; cbn [fifo out threads lock copying raced log];
      [done|by rewrite Hsz'| |done|done|by rewrite length_insert|].
    + rewrite kfifo_avail_spec in Hroom by done. rewrite Hd', (ztake_all _ (ztake room buf))
        by (rewrite zlen_ztake by lia; lia).
      rewrite fmap_app, concat_app, <- Hst. cbn [fmap list_fmap concat]. by rewrite app_nil_r, app_assoc.
    + intros j prog' Hj. destruct (decide (i = j)) as [<-|Hne].
      2: { apply (phase_other t _ i j _ k); cbn [threads lock copying log];
             [by apply Hp|done|by left| |done|rewrite Hlj; naive_solver].
           rewrite done_lines_app. cbn [fst snd]. by rewrite decide_False, app_nil_r. }
      rewrite Hj in Hpi. injection Hpi as ->.
      destruct Ph as [rest _ E2|l rest E1 E2 E3|rest _ E2];
        [destruct rest; rewrite Hi in E2; discriminate E2| |rewrite Hi in E2; discriminate E2].
      rewrite Hi in E2. injection E2 as -> ->.
      apply (ph_copied _ _ _ rest); cbn [threads lock copying log]; [|by eapply lookup_new|done|done].
      rewrite done_lines_app. cbn [fst snd]. by rewrite decide_True, <- app_assoc.
  - destruct (inv_thread _ _ _ _ I Hi) as (prog & Hpi & Ph).
    destruct Ph as [rest _ E2|l rest E1 E2 E3|rest E1 E2 E3 E4];
      [destruct rest; rewrite Hi in E2; discriminate E2|rewrite Hi in E2; discriminate E2|].
    rewrite Hi in E2. injection E2 as ->.
    split; cbn; [done..| |by rewrite length_insert|]; [by rewrite E4|].
    intros j prog' Hj. destruct (decide (i = j)) as [<-|Hne].
    + rewrite Hj in Hpi. injection Hpi as ->. apply (ph_idle _ _ _ rest); cbn; [done|by eapply lookup_new|done].
    + apply (phase_other t _ i j _ (calls_of rest)); cbn; [by apply Hp|done|by left|done|rewrite E3; naive_solver|done].
  - unfold SquintDeviceRead in E. cbn in E.
    destruct (kfifo_to_user (fifo t) count ulen) as [[[rc' copied] o] f'] eqn:Eu.
    injection E as <- <- <-. cbn in Ed. injection Ed as <-.
    destruct (kfifo_to_user_spec _ _ _ _ _ _ _ Hok Hcount Hu Eu) as (Hok' & Hsz' & -> & Hd & _).
    split; cbn [fifo out threads lock copying raced log]; [done|by rewrite Hsz'| |done| |done|].
    + by rewrite <- app_assoc, Hd, ztake_zdrop.
    + intros j room Hj. destruct (Hc j room Hj) as [? Hr']. split; [done|].
      rewrite kfifo_avail_spec in Hr' |- * by done. rewrite Hsz', Hd.
      pose proof (drop_le copied (kfifo_data (fifo t))). lia.
    + intros j prog Hj. by destruct (Hp j prog Hj); econstructor.
Qed.

Lemma tracer_reachable progs t : rtc tstep (boot_tracer progs) t -> tracer_inv progs t.
Proof.
  intros Hr. destruct (kfifo_alloc_spec 14 ltac:(lia)) as (Hok & Hd & Hs).
  change (2 ^ 14) with KFIFO_LEN in *. remember (boot_tracer progs) as t0.
  assert (tracer_inv progs t0) as Ht0.
  { subst t0. split; cbn; [done|done|by rewrite Hd|done|done|by rewrite length_fmap|].
    intros i prog Hi. apply (ph_idle _ _ _ (cstr <$> prog)); cbn; [done| |done].
    rewrite list_lookup_fmap, Hi. cbn. unfold calls_of. by rewrite <- list_fmap_compose. }
  clear Heqt0. induction Hr as [t|t1 t2 t3 Hstep _ IH]; [done|].
  apply IH. by eapply tstep_inv.
Qed.

Lemma trace_lines_bound `{!KernelPrintOk} stack :
  zlen (concat (trace_lines stack)) <= 32 * 199.
Proof.
  unfold trace_lines. set (es := take MAX_ENTRIES stack).
  assert (length es <= 32)%nat as Hl by (unfold es, MAX_ENTRIES; rewrite length_take; lia).
  enough (zlen (concat ((fun e => cstr (snprintf 200 (fmt_entry e))) <$> es))
          <= Z.of_nat (length es) * 199) by lia.
  clear Hl. induction es as [|e es IH]; [done|]. cbn [fmap list_fmap concat length].
  rewrite zlen_app. pose proof (zlen_cstr_snprintf 200 _ (fmt_entry_nonul e)). lia.
Qed.

(** A store record is complete and decodable.  With 6398
    free bytes (so twice over on an empty device), [write_store_trace addr]
    appends exactly ["@ store: <decimal>\n"] followed by the stack lines, never
    truncated by its 40-byte buffer, and the digits read back as [addr]. *)
Theorem write_store_trace_record `{!KernelPrintOk} addr stack dev p :
  0 <= addr < 2 ^ 64 -> kfifo_ok dev -> 30 + 32 * 199 <= kfifo_avail dev ->
  exists dev' digits,
    write_store_trace addr stack (mkSquint (Some dev) p) = Some (mkSquint (Some dev') p)
    /\ kfifo_ok dev'
    /\ kfifo_data dev' = kfifo_data dev ++ bytes_of "@ store: " ++ digits ++ newline
                         ++ concat (trace_lines stack)
    /\ Forall (fun c => 48 <= c <= 57) digits /\ parse_dec digits = addr.
Proof.
  intros Ha Hok Hav. destruct (fmt_lu_spec addr Ha) as (HF & HP & HL).
  exists (kfifo_ins dev (store_text addr :: trace_lines stack)), (fmt_lu addr).
  split; [by apply write_store_trace_run|]. split; [by apply kfifo_ins_ok|].
  split; [|done]. rewrite kfifo_ins_data, accepted_all by first [done |
    cbn [concat]; rewrite zlen_app; pose proof (trace_lines_bound stack);
    unfold store_text; rewrite !zlen_app; change (zlen (bytes_of "@ store: ")) with 9;
    change (zlen newline) with 1; unfold zlen at 1; lia].
  cbn [concat]. unfold store_text. by rewrite <- !app_assoc.
Qed.

(** C27: for any number of threads that trace through the spinlock, one
    reader, and any interleaving of their steps: two copies into the FIFO never
    overlap; the bytes delivered to the reader followed by those still queued are
    the stored pieces in the order of the copies, so that no line is mixed into
    another; a piece is its whole line, unless the line was longer than the room
    the copy saw, and then it is the front of the line (the next line follows it
    directly); every thread's lines are stored in program order; and the queue
    never exceeds KFIFO_LEN. *)
Theorem squint_stream_fifo (progs : list (list (list Z))) t :
  rtc tstep (boot_tracer progs) t ->
  raced t = false
  /\ out t ++ kfifo_data (fifo t) = concat (stored <$> log t)
  /\ zlen (kfifo_data (fifo t)) <= KFIFO_LEN
  /\ Forall (fun x => stored x `prefix_of` x.1.2 /\ (zlen x.1.2 <= x.2 -> stored x = x.1.2)) (log t)
  /\ (forall i prog, progs !! i = Some prog -> done_lines i (log t) `prefix_of` (cstr <$> prog)).
Proof.
  intros Hr. destruct (tracer_reachable progs t Hr) as [Hok Hsz Hst Hra Hc Hl Hp].
  split_and!; [done|done|rewrite <- Hsz; by apply kfifo_ok_bound| |].
  - apply Forall_forall. intros x _. split; [apply ztake_prefix|]. intros. by apply ztake_all.
  - intros i prog Hi. destruct (Hp i prog Hi) as [r ->|l r ->|r ->]; by eexists.
Qed.

(** A read into a good buffer delivers the oldest bytes, at
    most [count], removes them and returns their number; a read that faults
    returns 4294967282 (-EFAULT as an unsigned int), a positive count. *)
Theorem SquintDeviceRead_spec dev p count ulen :
  kfifo_ok dev -> 0 <= count < 2 ^ 32 -> 0 <= ulen ->
  exists r bytes dev',
    SquintDeviceRead count ulen (mkSquint (Some dev) p)
      = Some (r, bytes, mkSquint (Some dev') p)
    /\ bytes ++ kfifo_data dev' = kfifo_data dev
    /\ (Z.min count (zlen (kfifo_data dev)) <= ulen ->
         r = Z.min count (zlen (kfifo_data dev)) /\ zlen bytes = r)
    /\ (ulen < Z.min count (zlen (kfifo_data dev)) -> r = 4294967282).
Proof.
  intros Hok Hc Hu. unfold SquintDeviceRead. cbn.
  destruct (kfifo_to_user dev count ulen) as [[[rc copied] o] f'] eqn:Eu.
  destruct (kfifo_to_user_spec _ _ _ _ _ _ _ Hok (proj1 Hc) Hu Eu)
    as (Hok' & Hsz' & -> & Hd & Hgood & Hbad).
  eexists _, _, _. split; [done|]. split; [by rewrite Hd, ztake_zdrop|].
  pose proof (zlen_nonneg (kfifo_data dev)). split; intros Hl.
  - destruct (Hgood Hl) as [-> ->]. cbn. rewrite uwrap_small by lia.
    split; [done|]. rewrite zlen_ztake by lia. lia.
  - destruct (Hbad Hl) as [-> _]. done.
Qed.

(** Loading the module either leaves a device with an empty
    FIFO of KFIFO_LEN bytes and returns 0, or returns a negative error and
    leaves no FIFO and no /proc entry behind; unloading always releases both. *)
Theorem kfifo_squint_init_spec alloc_rc proc_ok :
  alloc_rc <= 0 ->
  let '(r, s) := kfifo_squint_init alloc_rc proc_ok (mkSquint None false) in
  (r = 0 <-> alloc_rc = 0 /\ proc_ok = true)
  /\ (r = 0 -> exists dev, s = mkSquint (Some dev) true /\ kfifo_data dev = []
                           /\ kfifo_avail dev = KFIFO_LEN)
  /\ (r <> 0 -> r < 0 /\ s = mkSquint None false)
  /\ kfifo_squint_exit s = mkSquint None false.
Proof.
  intros Hrc. destruct (kfifo_alloc_spec 14 ltac:(lia)) as (Hok & Hd & Hs).
  change (2 ^ 14) with KFIFO_LEN in *. unfold kfifo_squint_init, ENOMEM.
  destruct (Z.eqb_spec alloc_rc 0) as [->|Hne]; cbn.
  - destruct proc_ok; cbn; repeat split; try done; try lia; try naive_solver.
    intros _. eexists. split; [done|]. split; [done|].
    rewrite kfifo_avail_spec, Hd, Hs by done. unfold zlen. cbn. lia.
  - repeat split; try done; try lia; naive_solver.
Qed.
End squint_module.
