(* ===== verification/SquintNova.v ===== *)
(** The Squint tracer linked into the instrumented NOVA module
    (llvm_evaluation/NOVA/nova/squint_module.c).

    It differs from the stand-alone module in [print_trace], which uses the
    older [save_stack_trace] and prints a fixed number of entries. *)

From stdpp Require Import strings.
From S2P Require Import Prelude CInt NovaEnv Squint SquintModule.

Local Open Scope list_scope.
Local Open Scope Z_scope.

Section squint_nova.
Context {F : Type} `{KfifoLaws F} `{KernelPrint}.

Definition SquintDeviceRead (count ulen : Z) (s : squint F)
    : option (Z * list Z * squint F) :=
  match squint_dev s with
  | None => None
  | Some dev =>
      let '(rc, copied, out, dev') := kfifo_to_user dev count ulen in
      Some (if negb (rc =? 0) then u32 rc else u32 copied, out,
            mkSquint (Some dev') (proc_entry s))
  end.

Definition kfifo_squint_init (alloc_rc : Z) (proc_ok : bool) (s : squint F) : Z * squint F :=
  if negb (alloc_rc =? 0) then (alloc_rc, s)
  else if negb proc_ok then (- ENOMEM, mkSquint None (proc_entry s))
  else (0, mkSquint (Some (kfifo_alloc KFIFO_LEN)) true).

Definition squint_fifo_write (input : list Z) (s : squint F) : option (squint F) :=
  run_calls (kfifo_in_spinlocked (cstr input)) false s.

(** [save_stack_trace(&trace)]: the first return addresses overwrite the front
    of the 32-word array, whose other words keep their previous contents. *)
Definition save_stack_trace (stack entries : list Z) : list Z :=
  take MAX_ENTRIES stack ++ drop (length (take MAX_ENTRIES stack)) entries.

Fixpoint print_loop (n : nat) (i : nat) (entries : list Z) (s : squint F)
    : option (squint F) :=
  match n with
  | O => Some s
  | S n =>
      match entries !! i with
      | None => None
      | Some e =>
          match squint_fifo_write (snprintf 200 (fmt_entry e)) s with
          | None => None
          | Some s => print_loop n (S i) entries s
          end
      end
  end.

(** [uninit] is what the automatic array [stack_entries] holds on entry. *)
Definition print_trace (uninit stack : list Z) (s : squint F) : option (squint F) :=
  let len := MAX_ENTRIES in
  let stack_entries := save_stack_trace stack uninit in
  print_loop len 0 stack_entries s.

Definition write_flush_trace (uninit stack : list Z) (s : squint F) : option (squint F) :=
  match squint_fifo_write (literal flush_text) s with
  | None => None
  | Some s => print_trace uninit stack s
  end.

Definition write_fence_trace (uninit stack : list Z) (s : squint F) : option (squint F) :=
  match squint_fifo_write (literal fence_text) s with
  | None => None
  | Some s => print_trace uninit stack s
  end.

Definition write_store_trace (addr : Z) (uninit stack : list Z) (s : squint F)
    : option (squint F) :=
  match squint_fifo_write (snprintf 40 (store_text addr)) s with
  | None => None
  | Some s => print_trace uninit stack s
  end.

Definition kfifo_squint_exit (s : squint F) : squint F := mkSquint None false.

(** ** What a trace contains *)
Lemma length_save_stack_trace stack uninit :
  length uninit = MAX_ENTRIES -> length (save_stack_trace stack uninit) = MAX_ENTRIES.
Proof.
  intros Hu. unfold save_stack_trace. rewrite length_app, length_drop, Hu.
  rewrite length_take. unfold MAX_ENTRIES. lia.
Qed.

Lemma print_loop_run n i entries dev p :
  (i + n <= length entries)%nat ->
  print_loop n i entries (mkSquint (Some dev) p)
  = Some (mkSquint (Some (kfifo_ins dev
      ((fun e => cstr (snprintf 200 (fmt_entry e))) <$> take n (drop i entries)))) p).
Proof.
  revert i dev. induction n as [|n IH]; intros i dev Hi; [done|]. cbn [print_loop].
  destruct (lookup_lt_is_Some_2 entries i) as [e He]; [lia|].
  rewrite He. unfold squint_fifo_write; cbn [run_calls kfifo_in_spinlocked squint_dev proc_entry]. rewrite IH by lia.
  by rewrite (drop_S _ _ _ He).
Qed.

Lemma print_trace_run uninit stack dev p :
  length uninit = MAX_ENTRIES ->
  print_trace uninit stack (mkSquint (Some dev) p)
  = Some (mkSquint (Some (kfifo_ins dev
      ((fun e => cstr (snprintf 200 (fmt_entry e))) <$> save_stack_trace stack uninit))) p).
Proof.
  intros Hu. pose proof (length_save_stack_trace stack uninit Hu) as HL.
  unfold print_trace. rewrite print_loop_run by lia. rewrite drop_0, take_ge by lia. done.
Qed.

(** The trace of a flush is the flush line, the lines of the
    (at most 32) saved return addresses, and then as many lines made from
    uninitialised words as are needed to reach 32; when the stack is at
    least 32 deep it is the stand-alone module's trace. *)
Theorem nova_flush_trace_lines uninit stack dev p :
  length uninit = MAX_ENTRIES ->
  write_flush_trace uninit stack (mkSquint (Some dev) p)
  = Some (mkSquint (Some (kfifo_ins dev
      (flush_text :: trace_lines stack
       ++ ((fun e => cstr (snprintf 200 (fmt_entry e)))
             <$> drop (length (take MAX_ENTRIES stack)) uninit)))) p)
  /\ ((MAX_ENTRIES <= length stack)%nat ->
      write_flush_trace uninit stack (mkSquint (Some dev) p)
      = SquintModule.write_flush_trace stack (mkSquint (Some dev) p)).
Proof.
  intros Hu.
  assert (write_flush_trace uninit stack (mkSquint (Some dev) p)
    = Some (mkSquint (Some (kfifo_ins dev
      (flush_text :: trace_lines stack
       ++ ((fun e => cstr (snprintf 200 (fmt_entry e)))
             <$> drop (length (take MAX_ENTRIES stack)) uninit)))) p)) as E.
  { unfold write_flush_trace. unfold squint_fifo_write; cbn [run_calls kfifo_in_spinlocked squint_dev proc_entry].
    change (cstr (literal flush_text)) with flush_text.
    rewrite print_trace_run by done. unfold save_stack_trace. by rewrite fmap_app. }
  split; [done|]. intros Hs. rewrite E, write_flush_trace_run.
  rewrite (drop_ge uninit) by (rewrite length_take; lia).
  cbn [fmap list_fmap]. by rewrite app_nil_r.
Qed.
End squint_nova.
