(* ===== verification/SquintEval.v ===== *)
(** The Squint tracer of kfifo_kernel_evaluation/squint_module.c, in which a
    writer that finds the FIFO nearly full sleeps until the reader drains it.

    Blocking makes the handlers state machines: [writer_step] and
    [reader_step] are the atomic steps of [squint_fifo_write] and
    [SquintDeviceRead] on the shared state (the FIFO, [asleep] and the wait
    queue), and [estep] interleaves any number of writers with the reader. *)

From stdpp Require Import strings relations.
From S2P Require Import Prelude CInt NovaEnv Squint SquintModule.

Local Open Scope list_scope.
Local Open Scope Z_scope.

Definition KFIFO_THRESHOLD_LEN : Z := 500.

Section squint_eval.
Context {F : Type} `{KfifoLaws F} `{KernelPrint}.

(** Shared variables. *)
Record shared := mkShared { squint_dev : F; asleep : Z }.

(** A writer: about to call [squint_fifo_write], past [kfifo_in_spinlocked],
    past the test of the free space, about to evaluate the condition of
    [wait_event_interruptible], or asleep on the wait queue.  [todo] are the
    strings it has still to write. *)
Inductive wpc := WCall | WTest | WSet | WCond | WSleep.
Record writer := mkWriter { pc : wpc; todo : list (list Z) }.

#[global] Instance wpc_eq_dec : EqDecision wpc.
Proof. solve_decision. Defined.

(** The next atomic step of [squint_fifo_write]; [None] when there is none
    (nothing to write, or asleep). *)
Definition writer_step (w : writer) (sh : shared) : option (writer * shared) :=
  match pc w, todo w with
  | WCall, [] => None
  | WCall, input :: rest =>
      Some (mkWriter WTest rest, mkShared (kfifo_in (squint_dev sh) (cstr input)) (asleep sh))
  | WTest, rest =>
      if kfifo_avail (squint_dev sh) <? KFIFO_THRESHOLD_LEN
      then Some (mkWriter WSet rest, sh) else Some (mkWriter WCall rest, sh)
  | WSet, rest => Some (mkWriter WCond rest, mkShared (squint_dev sh) 1)
  | WCond, rest =>
      if KFIFO_THRESHOLD_LEN <? kfifo_avail (squint_dev sh)
      then Some (mkWriter WCall rest, sh) else Some (mkWriter WSleep rest, sh)
  | WSleep, _ => None
  end.

(** The reader: idle, past [kfifo_to_user], past the test, past [asleep = 0]. *)
Inductive rpc := RIdle | RTest | RClear | RWake.

(** [wake_up_interruptible(&wq)]: sleepers evaluate their condition again. *)
Definition wake (w : writer) : writer :=
  if decide (pc w = WSleep) then mkWriter WCond (todo w) else w.

(** The steps of [SquintDeviceRead]; [count] and [ulen] are its arguments (used
    by the first step), the result carries the bytes delivered. *)
Definition reader_step (r : rpc) (count ulen : Z) (ws : list writer) (sh : shared)
    : rpc * list writer * shared * list Z :=
  match r with
  | RIdle =>
      let '(rc, copied, out, dev') := kfifo_to_user (squint_dev sh) count ulen in
      (RTest, ws, mkShared dev' (asleep sh), out)
  | RTest =>
      if (asleep sh =? 1) && (KFIFO_THRESHOLD_LEN <? kfifo_avail (squint_dev sh))
      then (RClear, ws, sh, []) else (RIdle, ws, sh, [])
  | RClear => (RWake, ws, mkShared (squint_dev sh) 0, [])
  | RWake => (RIdle, wake <$> ws, sh, [])
  end.

(** [kfifo_squint_init], [kfifo_squint_exit]: as for the other tracers. *)
Definition kfifo_squint_init (alloc_rc : Z) (proc_ok : bool) (s : squint F) : Z * squint F :=
  if negb (alloc_rc =? 0) then (alloc_rc, s)
  else if negb proc_ok then (- ENOMEM, mkSquint None (proc_entry s))
  else (0, mkSquint (Some (kfifo_alloc KFIFO_LEN)) true).

Definition kfifo_squint_exit (s : squint F) : squint F := mkSquint None false.

(** The strings the trace functions pass to [squint_fifo_write], in order. *)
Definition print_trace (stack : list Z) : list (list Z) :=
  (fun e => snprintf 200 (fmt_entry e)) <$> take MAX_ENTRIES stack.
Definition write_flush_trace (stack : list Z) : list (list Z) :=
  literal flush_text :: print_trace stack.
Definition write_fence_trace (stack : list Z) : list (list Z) :=
  literal fence_text :: print_trace stack.
Definition write_store_trace (addr : Z) (stack : list Z) : list (list Z) :=
  snprintf 40 (store_text addr) :: print_trace stack.

(** mockfs.c: reading /proc/MockFStrace traces one flush, /proc/MockFSnotrace
    nothing; both return 0. *)
Definition TraceDeviceRead (stack : list Z) : Z * list (list Z) := (0, write_flush_trace stack).
Definition NoTraceDeviceRead (stack : list Z) : Z * list (list Z) := (0, []).

(** ** Interleavings

    [written] are the lines handed to [kfifo_in] so far, in order, and
    [delivered] the bytes the reader has received. *)
Record machine := mkMachine {
  sh : shared;
  writers : list writer;
  reader : rpc;
  delivered : list Z;
  written : list (list Z)
}.

(** The line a writer's next step hands to the FIFO. *)
Definition issues (w : writer) : list (list Z) :=
  match pc w, todo w with WCall, input :: _ => [cstr input] | _, _ => [] end.

Inductive estep : machine -> machine -> Prop :=
| estep_writer m i w w' sh' :
    writers m !! i = Some w -> writer_step w (sh m) = Some (w', sh') ->
    estep m (mkMachine sh' (<[i := w']> (writers m)) (reader m) (delivered m)
               (written m ++ issues w))
| estep_reader m count ulen r' ws' sh' bytes :
    0 <= count -> 0 <= ulen ->
    reader_step (reader m) count ulen (writers m) (sh m) = (r', ws', sh', bytes) ->
    estep m (mkMachine sh' ws' r' (delivered m ++ bytes) (written m)).

(** A signal makes [wait_event_interruptible] return although the FIFO is full. *)
Inductive esignal : machine -> machine -> Prop :=
| esignal_intro m i w :
    writers m !! i = Some w -> pc w = WSleep ->
    esignal m (mkMachine (sh m) (<[i := mkWriter WCall (todo w)]> (writers m))
                 (reader m) (delivered m) (written m)).

Definition boot (progs : list (list (list Z))) : machine :=
  mkMachine (mkShared (kfifo_alloc KFIFO_LEN) 0) (mkWriter WCall <$> progs) RIdle [] [].

(** ** No loss with two writers *)

(** Writers that have written since they last saw enough room. *)
Definition behind (w : writer) : bool := negb (bool_decide (pc w = WCall)).

Definition n_behind (ws : list writer) : Z := sumZ (fun w => if behind w then 1 else 0) ws.

Definition short_lines (w : writer) : Prop := Forall (fun l => zlen (cstr l) <= 199) (todo w).

Record lossless_inv (m : machine) : Prop := {
  li_ok : kfifo_ok (squint_dev (sh m));
  li_room : KFIFO_THRESHOLD_LEN
            <= kfifo_avail (squint_dev (sh m)) + 199 * n_behind (writers m);
  li_short : Forall short_lines (writers m);
  li_count : (length (writers m) <= 2)%nat;
  li_stream : delivered m ++ kfifo_data (squint_dev (sh m)) = concat (written m)
}.

Lemma behind_pc p l : behind (mkWriter p l) = match p with WCall => false | _ => true end.
Proof. by destruct p. Qed.

Lemma n_behind_nonneg ws : 0 <= n_behind ws.
Proof.
  unfold n_behind. induction ws as [|v ws IH]; [done|]. rewrite sumZ_cons.
  destruct (behind v); lia.
Qed.

Lemma n_behind_insert ws i w w' :
  ws !! i = Some w ->
  n_behind (<[i := w']> ws)
  = n_behind ws - (if behind w then 1 else 0) + (if behind w' then 1 else 0).
Proof.
  unfold n_behind. revert i. induction ws as [|v ws IH]; intros i Hi; [done|].
  destruct i as [|i]; cbn in Hi.
  - injection Hi as ->. change (<[0%nat := w']> (w :: ws)) with (w' :: ws).
    rewrite !sumZ_cons. lia.
  - change (<[S i := w']> (v :: ws)) with (v :: <[i := w']> ws).
    rewrite !sumZ_cons, (IH i) by done. lia.
Qed.

Lemma n_behind_bound ws i w :
  ws !! i = Some w -> behind w = false -> 0 <= n_behind ws <= Z.of_nat (length ws) - 1.
Proof.
  unfold n_behind.
  assert (forall vs, 0 <= sumZ (fun w => if behind w then 1 else 0) vs <= Z.of_nat (length vs)) as Hb.
  { induction vs as [|v vs IH]; [done|]. rewrite sumZ_cons. cbn [length]. destruct (behind v); lia. }
  revert i. induction ws as [|v ws IH]; intros i Hi Hw; [done|].
  rewrite sumZ_cons. cbn [length]. destruct i as [|i]; cbn in Hi.
  - injection Hi as ->. rewrite Hw. specialize (Hb ws). lia.
  - specialize (IH i Hi Hw). specialize (Hb ws). destruct (behind v); lia.
Qed.

Lemma n_behind_wake ws : n_behind (wake <$> ws) = n_behind ws.
Proof.
  unfold n_behind. induction ws as [|w ws IH]; [done|].
  cbn [fmap list_fmap]. rewrite !sumZ_cons, IH. f_equal.
  unfold wake. case_decide as E; [|done]. unfold behind. by rewrite E.
Qed.

(** One write when at most one other writer is behind. *)
Lemma write_fits m i input rest :
  lossless_inv m -> writers m !! i = Some (mkWriter WCall (input :: rest)) ->
  zlen (cstr input) <= 199 /\ zlen (cstr input) <= kfifo_avail (squint_dev (sh m)).
Proof.
  intros [Hok Hroom Hs Hc _] Hi.
  assert (zlen (cstr input) <= 199).
  { pose proof (Forall_lookup_1 _ _ _ _ Hs Hi) as Hl. by inversion Hl. }
  pose proof (n_behind_bound _ _ _ Hi ltac:(done)).
  unfold KFIFO_THRESHOLD_LEN in Hroom. lia.
Qed.

Lemma short_insert ws i w w' :
  Forall short_lines ws -> ws !! i = Some w -> todo w' `suffix_of` todo w ->
  Forall short_lines (<[i := w']> ws).
Proof.
  intros Hs Hi [k E]. apply Forall_insert; [done|].
  pose proof (Forall_lookup_1 _ _ _ _ Hs Hi) as Hl. unfold short_lines in *.
  rewrite E in Hl. by apply Forall_app in Hl as [_ Hl].
Qed.

Lemma writer_step_inv m i w w' sh' :
  lossless_inv m -> writers m !! i = Some w -> writer_step w (sh m) = Some (w', sh') ->
  lossless_inv (mkMachine sh' (<[i := w']> (writers m)) (reader m) (delivered m)
                  (written m ++ issues w)).
Proof.
  intros Hm Hi Hst. pose proof Hm as [Hok Hroom Hs Hc Hstr].
  destruct w as [[] [|input rest]]; unfold writer_step in Hst; cbn [pc todo] in Hst; try done.
  1: { injection Hst as <- <-.
    destruct (write_fits _ _ _ _ Hm Hi) as [H199 Hfit].
    destruct (kfifo_in_spec (squint_dev (sh m)) (cstr input) Hok) as (Hok' & Hsz' & Hd').
    rewrite kfifo_avail_spec in Hfit by done. rewrite ztake_all in Hd' by done.
    split; cbn [sh writers delivered written squint_dev]; [done|..].
    - rewrite (n_behind_insert _ _ _ _ Hi), (kfifo_avail_spec _ Hok').
      rewrite !behind_pc. cbv iota.
      rewrite kfifo_avail_spec in Hroom by done. rewrite Hsz', Hd', zlen_app.
      unfold KFIFO_THRESHOLD_LEN in *. lia.
    - eapply short_insert; [done..|]. by exists [input].
    - by rewrite length_insert.
    - rewrite Hd', app_assoc, Hstr, concat_app. cbn. by rewrite app_nil_r. }
  all: repeat match type of Hst with context [if ?b then _ else _] =>
         destruct b eqn:?; zify_bool end; injection Hst as <- <-;
    (split; cbn [sh writers delivered written squint_dev issues pc todo];
      [done| |eapply short_insert; [done..|done]|by rewrite length_insert
      |by rewrite ?app_nil_r]);
    rewrite (n_behind_insert _ _ _ _ Hi), !behind_pc; unfold KFIFO_THRESHOLD_LEN in *;
    cbv iota; try lia.
  all: pose proof (n_behind_insert _ _ _ (mkWriter WCall []) Hi) as E;
    rewrite !behind_pc in E; cbv iota in E;
    pose proof (n_behind_nonneg (<[i:=mkWriter WCall []]> (writers m))); lia.
Qed.

Lemma reader_step_inv m count ulen r' ws' sh' bytes :
  lossless_inv m -> 0 <= count -> 0 <= ulen ->
  reader_step (reader m) count ulen (writers m) (sh m) = (r', ws', sh', bytes) ->
  lossless_inv (mkMachine sh' ws' r' (delivered m ++ bytes) (written m)).
Proof.
  intros [Hok Hroom Hs Hc Hstr] Hcnt Hu Hst.
  destruct (reader m); cbn [reader_step] in Hst.
  - destruct (kfifo_to_user (squint_dev (sh m)) count ulen) as [[[rc copied] o] f'] eqn:Eu.
    injection Hst as <- <- <- <-.
    destruct (kfifo_to_user_spec _ _ _ _ _ _ _ Hok Hcnt Hu Eu) as (Hok' & Hsz' & -> & Hd & _).
    split; cbn [sh writers delivered written squint_dev]; [done| |done|done|].
    + rewrite (kfifo_avail_spec _ Hok) in Hroom. rewrite (kfifo_avail_spec _ Hok'), Hsz', Hd.
      unfold zlen, zdrop in *. rewrite length_drop. lia.
    + by rewrite <- app_assoc, Hd, ztake_zdrop.
  - destruct (_ && _); injection Hst as <- <- <- <-; split; cbn; by rewrite ?app_nil_r.
  - injection Hst as <- <- <- <-; split; cbn; by rewrite ?app_nil_r.
  - injection Hst as <- <- <- <-. split; cbn [sh writers delivered written squint_dev];
      [done|by rewrite n_behind_wake| |by rewrite length_fmap|by rewrite app_nil_r].
    apply Forall_fmap. eapply Forall_impl; [exact Hs|]. intros w Hw. cbn. unfold wake.
    by case_decide.
Qed.

Lemma boot_inv progs :
  (length progs <= 2)%nat ->
  Forall (Forall (fun l => zlen (cstr l) <= 199)) progs -> lossless_inv (boot progs).
Proof.
  intros Hl Hs. destruct (kfifo_alloc_spec 14 ltac:(lia)) as (Hok & Hd & Hsz).
  change (2 ^ 14) with KFIFO_LEN in *.
  split; cbn [boot sh writers delivered written squint_dev]; [done| | |by rewrite length_fmap|].
  - rewrite kfifo_avail_spec, Hsz, Hd by done. unfold KFIFO_LEN, KFIFO_THRESHOLD_LEN, zlen.
    pose proof (n_behind_nonneg (mkWriter WCall <$> progs)). cbn [length]. lia.
  - apply Forall_fmap. eapply Forall_impl; [exact Hs|]. done.
  - by rewrite Hd.
Qed.

Lemma lossless_reachable m0 m : lossless_inv m0 -> rtc estep m0 m -> lossless_inv m.
Proof.
  intros Hi Hr. induction Hr as [m|m1 m2 m3 Hst _ IH]; [done|]. apply IH.
  destruct Hst as [m i w w' sh' Hw Hst|m count ulen r' ws' sh' bytes Hc Hu Hst].
  - by eapply writer_step_inv.
  - exact (reader_step_inv _ _ _ _ _ _ _ Hi Hc Hu Hst).
Qed.

(** What an instrumented thread does. *)
Inductive traced := TFlush (stack : list Z) | TFence (stack : list Z)
  | TStore (addr : Z) (stack : list Z).

Definition calls (e : traced) : list (list Z) :=
  match e with
  | TFlush stack => write_flush_trace stack
  | TFence stack => write_fence_trace stack
  | TStore addr stack => write_store_trace addr stack
  end.

Lemma print_trace_short `{!KernelPrintOk} stack :
  Forall (fun l => zlen (cstr l) <= 199) (print_trace stack).
Proof.
  unfold print_trace. apply Forall_fmap, Forall_forall. intros e _. cbn.
  apply (zlen_cstr_snprintf 200); [apply fmt_entry_nonul|lia].
Qed.

Lemma calls_short `{!KernelPrintOk} e :
  Forall (fun l => zlen (cstr l) <= 199) (calls e).
Proof.
  destruct e; cbn [calls]; constructor; try apply print_trace_short; try done.
  unfold snprintf. assert (forall l, zlen (cstr l) <= zlen l) as Hc.
  { induction l as [|c l IH]; [done|]. cbn. unfold zlen in *. case_if; cbn [length]; lia. }
  etransitivity; [apply Hc|]. unfold zlen. rewrite length_app, length_take. cbn [length]. lia.
Qed.

(** C36: with at most two tracing threads and no signals, the
    sleeping tracer loses nothing: in every reachable state the bytes delivered
    followed by the bytes queued are exactly the lines written so far, each
    complete and in the order of the writes. *)
Theorem squint_eval_lossless `{!KernelPrintOk} (evs : list (list traced)) m :
  (length evs <= 2)%nat ->
  rtc estep (boot ((fun es => concat (calls <$> es)) <$> evs)) m ->
  delivered m ++ kfifo_data (squint_dev (sh m)) = concat (written m).
Proof.
  intros Hl Hr. refine (li_stream _ (lossless_reachable _ _ (boot_inv _ _ _) Hr)).
  - by rewrite length_fmap.
  - apply Forall_fmap, Forall_forall. intros es _. cbn. apply Forall_concat, Forall_fmap.
    apply Forall_forall. intros e _. apply calls_short.
Qed.

(** ** Schedules *)
Inductive move := MWriter (i : nat) | MReader (count ulen : Z).

Definition exec_move (mv : move) (m : machine) : option machine :=
  match mv with
  | MWriter i =>
      match writers m !! i with
      | None => None
      | Some w =>
          match writer_step w (sh m) with
          | None => None
          | Some (w', sh') =>
              Some (mkMachine sh' (<[i := w']> (writers m)) (reader m) (delivered m)
                      (written m ++ issues w))
          end
      end
  | MReader count ulen =>
      if (0 <=? count) && (0 <=? ulen) then
        let '(r', ws', sh', bytes) := reader_step (reader m) count ulen (writers m) (sh m) in
        Some (mkMachine sh' ws' r' (delivered m ++ bytes) (written m))
      else None
  end.

Fixpoint exec_moves (mvs : list move) (m : machine) : option machine :=
  match mvs with
  | [] => Some m
  | mv :: mvs => match exec_move mv m with None => None | Some m => exec_moves mvs m end
  end.

Lemma exec_move_step mv m m' : exec_move mv m = Some m' -> estep m m'.
Proof.
  destruct mv as [i|count ulen]; cbn [exec_move].
  - destruct (writers m !! i) as [w|] eqn:Ew; [|done].
    destruct (writer_step w (sh m)) as [[w' sh']|] eqn:Es; [|done].
    intros [= <-]. by apply estep_writer.
  - destruct (_ && _) eqn:E; [|done]. zify_bool.
    destruct (reader_step _ _ _ _ _) as [[[r' ws'] sh'] bytes] eqn:Er.
    intros [= <-]. by eapply (estep_reader m count ulen).
Qed.

Lemma exec_moves_rtc mvs m m' : exec_moves mvs m = Some m' -> rtc estep m m'.
Proof.
  revert m. induction mvs as [|mv mvs IH]; intros m; cbn [exec_moves]; [by intros [= <-]|].
  destruct (exec_move mv m) as [m1|] eqn:E; [|done]. intros Hr.
  eapply rtc_l; [by eapply exec_move_step|by apply IH].
Qed.

(** A writer asleep while [asleep] is 0 stays asleep. *)
Definition stuck (w : writer) (m : machine) : Prop :=
  writers m = [w] /\ pc w = WSleep /\ asleep (sh m) = 0
  /\ (reader m = RIdle \/ reader m = RTest).

Lemma stuck_step w m m' : stuck w m -> estep m m' -> stuck w m'.
Proof.
  intros (Hw & Hpc & Ha & Hr) Hst.
  destruct Hst as [m i v v' sh' Hi Hv|m count ulen r' ws' sh' bytes _ _ Hst].
  - rewrite Hw in Hi. destruct i as [|i]; [|done]. injection Hi as <-.
    unfold writer_step in Hv. by rewrite Hpc in Hv.
  - unfold stuck. cbn. destruct Hr as [Hr|Hr]; rewrite Hr in Hst; cbn [reader_step] in Hst.
    + destruct (kfifo_to_user _ _ _) as [[[rc copied] o] f']. injection Hst as <- <- <- <-.
      cbn. auto.
    + rewrite Ha in Hst. cbn in Hst. injection Hst as <- <- <- <-. cbn. auto.
Qed.

Lemma stuck_forever w m m' : stuck w m -> rtc estep m m' -> stuck w m'.
Proof. intros Hs Hr. induction Hr; eauto using stuck_step. Qed.
End squint_eval.

(** ** The lost wake-up *)
Section lost_wakeup.
Import ListFifo.

(** One thread with lines of 199 characters. *)
Definition long_line : list Z := replicate 199 65 ++ [0].
Definition long_prog : list (list Z) := replicate 100 long_line.

(** The writer fills the FIFO and announces itself; the reader drains some
    bytes and decides to wake it up; the writer, which has seen the room, fills
    the FIFO again and sleeps; the reader then clears [asleep] and wakes the
    writer, which finds the FIFO full. *)
Definition race : list move :=
  replicate 161 (MWriter 0) ++ [MReader 1000 1000; MReader 0 0] ++ replicate 13 (MWriter 0)
  ++ [MReader 0 0; MReader 0 0; MWriter 0; MReader 16384 16384; MReader 0 0].

Definition race_end : option (machine (F := ListFifo.fifo)) := exec_moves race (boot [long_prog]).

Definition abandoned (m : machine (F := ListFifo.fifo)) : bool :=
  match writers m, reader m with
  | [w], RIdle =>
      bool_decide (pc w = WSleep) && bool_decide (todo w <> []) && (asleep (sh m) =? 0)
      && bool_decide (ListFifo.items (squint_dev (sh m)) = [])
  | _, _ => false
  end.

Definition abandons (o : option (machine (F := ListFifo.fifo))) : bool :=
  match o with Some m => abandoned m | None => false end.

Lemma race_abandons : abandons race_end = true.
Proof. vm_compute. reflexivity. Qed.

Lemma race_reach m : race_end = Some m -> rtc estep (boot [long_prog]) m.
Proof. unfold race_end. apply exec_moves_rtc. Qed.

Lemma abandons_stuck o :
  abandons o = true ->
  exists m w, o = Some m /\ stuck w m /\ todo w <> []
              /\ kfifo_data (squint_dev (sh m)) = [].
Proof.
  destruct o as [m|]; [|done]. cbn [abandons]. unfold abandoned, stuck. intros Hb.
  destruct (writers m) as [|w [|]] eqn:Ew; [done| |done].
  destruct (reader m) eqn:Er; try done. zify_bool.
  repeat match goal with Hd : bool_decide _ = true |- _ => apply bool_decide_eq_true in Hd end.
  exists m, w. split; [done|]. split; [|done]. split; [done|]. split; [done|]. auto.
Qed.

(** C37: a single tracing thread can sleep forever.  The
    reader tests [asleep], and clears it in a later step; a writer that goes to
    sleep in between is woken too early and then left with [asleep] at 0, so no
    later read, even of an empty device, ever wakes it. *)
Theorem squint_eval_lost_wakeup :
  exists (m : machine (F := ListFifo.fifo)) w,
    rtc estep (boot [long_prog]) m
    /\ kfifo_data (squint_dev (sh m)) = [] /\ todo w <> []
    /\ (forall m', rtc estep m m' -> writers m' = [w] /\ pc w = WSleep).
Proof.
  destruct (abandons_stuck _ race_abandons) as (m & w & Em & Hs & Ht & Hd).
  apply race_reach in Em. exists m, w.
  split; [exact Em|]. split; [exact Hd|]. split; [exact Ht|]. intros m' Hr.
  destruct (stuck_forever _ _ _ Hs Hr) as (Hw & Hpc & _). exact (conj Hw Hpc).
Qed.
End lost_wakeup.
