(* ===== verification/FencePass.v ===== *)
(** The LLVM instrumentation pass (fencePass/fencePass.cpp).

    The part of the IR the pass inspects and builds is a data type; LLVM's
    own services (type sizes, [IRBuilder::CreatePointerCast]) are the class
    [LLVM].  [instrumentFunction] inserts a call of the store callback before
    every store; [FenceInstru] inserts the fence and flush callbacks at the
    entry of the first matching functions.  A big-step semantics of the IR,
    with the opcodes the pass ignores left abstract ([IRSem]), states what
    instrumentation preserves. *)

From stdpp Require Import strings.
From S2P Require Import Prelude CInt.

Local Open Scope string_scope.
Local Open Scope list_scope.
Local Open Scope Z_scope.

(** ** The IR *)
Inductive ty := TVoid | TInt (bits : Z) | TPtr (pointee : ty) | TStruct (fields : list ty).

Inductive value :=
| VLocal (id : positive) (t : ty)
| VArg (n : nat) (t : ty)
| VConstInt (bits v : Z)
| VGlobal (name : string) (t : ty).

Definition type_of (v : value) : ty :=
  match v with
  | VLocal _ t | VArg _ t | VGlobal _ t => t
  | VConstInt bits _ => TInt bits
  end.

Inductive callee := Direct (name : string) | Indirect (v : value).

(** [Other phi op dst ops] is any opcode the pass does not look at; [phi] marks
    the ones an insertion point must follow. *)
Inductive instr :=
| Store (v p : value)
| Fence
| Call (dst : option positive) (f : callee) (args : list value)
| PtrToInt (dst : positive) (v : value) (t : ty)
| Other (phi : bool) (op : Z) (dst : option positive) (ops : list value).

Abbreviation block := (list instr).
Record func := mkFunc { fname : string; fargs : list ty; blocks : list block; next_id : positive }.

(** A module: its functions with a body and the names it declares. *)
Record modul := mkModule { functions : list func; declared : list string }.

(** ** What the pass asks of LLVM *)
Class LLVM := {
  pointer_bits : Z;
  (* DataLayout::getTypeStoreSize *)
  getTypeStoreSize : ty -> Z;
  (* IRBuilder::CreatePointerCast: the instructions inserted, numbered with the
     given fresh name, and the resulting value *)
  CreatePointerCast : positive -> value -> ty -> list instr * value
}.

Definition store_callback : string := "write_store_trace_wrapper".
Definition fence_callback : string := "write_fence_trace_wrapper".
Definition flush_callback : string := "write_flush_trace_wrapper".

Definition flush_function_name : string := "nova_flush_buffer".
Definition fence_function_name : string := "PERSISTENT_BARRIER".
Definition instrumenation_functions : list string :=
  [fence_callback; flush_callback; store_callback].

(** [StringRef::contains] *)
Fixpoint contains (s sub : string) : bool :=
  String.prefix sub s || match s with EmptyString => false | String _ s => contains s sub end.

Section pass.
Context `{LLVM}.

Definition getIntPtrTy : ty := TInt pointer_bits.

(** [M.getOrInsertFunction] *)
Definition getOrInsertFunction (name : string) (m : list string) : list string :=
  if decide (name ∈ m) then m else m ++ [name].
Definition initializeFenceCallbacks : list string -> list string :=
  getOrInsertFunction fence_callback.
Definition initializeStoreCallbacks : list string -> list string :=
  getOrInsertFunction store_callback.
Definition initializeFlushCallbacks : list string -> list string :=
  getOrInsertFunction flush_callback.

Fixpoint instrumented_in (names : list string) (f : string) : bool :=
  match names with
  | [] => false
  | n :: names => if decide (f = n) then true else instrumented_in names f
  end.
Definition instrumented_function (F : func) : bool :=
  instrumented_in instrumenation_functions (fname F).

(** The type a pointer points to ([getPointerElementType]). *)
Definition pointee (t : ty) : ty := match t with TPtr t => t | _ => TVoid end.

(** What is inserted before a store to [p]. *)
Definition store_hook (id : positive) (p : value) : list instr :=
  let '(cast, AddrLong) := CreatePointerCast id p getIntPtrTy in
  let storeSize := s32 (getTypeStoreSize (pointee (type_of p))) in
  cast ++ [Call None (Direct store_callback) [AddrLong; VConstInt 32 storeSize]].

(** The loop over the instructions of a block: insertions go before the
    current instruction, so they are not visited. *)
Fixpoint instrument_block (id : positive) (b : block) : bool * positive * block :=
  match b with
  | [] => (false, id, [])
  | Inst :: b =>
      match Inst with
      | Store v p =>
          let '(_, id', b') := instrument_block (Pos.succ id) b in
          (true, id', store_hook id p ++ Inst :: b')
      | _ =>
          let '(changed, id', b') := instrument_block id b in (changed, id', Inst :: b')
      end
  end.

Fixpoint instrument_blocks (id : positive) (bs : list block)
    : bool * positive * list block :=
  match bs with
  | [] => (false, id, [])
  | b :: bs =>
      let '(c1, id1, b') := instrument_block id b in
      let '(c2, id2, bs') := instrument_blocks id1 bs in
      (c1 || c2, id2, b' :: bs')
  end.

(** The result, the function and the module's declarations. *)
Definition instrumentFunction (F : func) (m : list string) : bool * func * list string :=
  if instrumented_function F then (false, F, m)
  else
    let m := initializeFlushCallbacks (initializeStoreCallbacks m) in
    let '(changed, id, bs) := instrument_blocks (next_id F) (blocks F) in
    (changed, mkFunc (fname F) (fargs F) bs id, m).

(** The analyses a pass reports as preserved. *)
Inductive PreservedAnalyses := PA_all | PA_none.

Definition StoreFlushInstru_run (F : func) (m : list string)
    : PreservedAnalyses * func * list string :=
  let '(changed, F', m') := instrumentFunction F m in
  (if negb changed then PA_all else PA_all, F', m').

(** [getFirstInsertionPt]: after the leading phi nodes. *)
Fixpoint insert_first (code : list instr) (b : block) : block :=
  match b with
  | Other true op dst ops :: b => Other true op dst ops :: insert_first code b
  | _ => code ++ b
  end.

(** The entry block is the first one; a function without a body has none. *)
Definition insert_at_entry (code : list instr) (bs : list block) : option (list block) :=
  match bs with
  | [] => None
  | b :: bs => Some (insert_first code b :: bs)
  end.

(** The pass's globals [instrument_fence_once] and [instrument_flush_once]. *)
Record once := mkOnce { instrument_fence_once : bool; instrument_flush_once : bool }.

(** [None]: no entry block or, for the flush callback, no first argument. *)
Definition FenceInstru_run (F : func) (m : list string) (o : once)
    : option (PreservedAnalyses * func * list string * once) :=
  let m := initializeFlushCallbacks (initializeFenceCallbacks m) in
  if contains (fname F) fence_function_name && negb (instrument_fence_once o) then
    match insert_at_entry [Call None (Direct fence_callback) []] (blocks F) with
    | None => None
    | Some bs =>
        Some (PA_all, mkFunc (fname F) (fargs F) bs (next_id F), m,
              mkOnce true (instrument_flush_once o))
    end
  else if contains (fname F) flush_function_name && negb (instrument_flush_once o) then
    match fargs F with
    | [] => None
    | t :: _ =>
        let '(cast, AddrLong) := CreatePointerCast (next_id F) (VArg 0 t) getIntPtrTy in
        match insert_at_entry (cast ++ [Call None (Direct flush_callback) [AddrLong]])
                (blocks F) with
        | None => None
        | Some bs =>
            Some (PA_all, mkFunc (fname F) (fargs F) bs (Pos.succ (next_id F)), m,
                  mkOnce (instrument_fence_once o) true)
        end
    end
  else Some (PA_all, F, m, o).

(** The function pass manager runs a pass over the functions of a module. *)
Fixpoint FenceInstru_module (Fs : list func) (m : list string) (o : once)
    : option (list func * list string * once) :=
  match Fs with
  | [] => Some ([], m, o)
  | F :: Fs =>
      match FenceInstru_run F m o with
      | None => None
      | Some (_, F', m', o') =>
          match FenceInstru_module Fs m' o' with
          | None => None
          | Some (Fs', m'', o'') => Some (F' :: Fs', m'', o'')
          end
      end
  end.
End pass.

(** ** Semantics of the IR *)
Inductive event :=
| EvStoreI (addr size : Z)
| EvFenceI
| EvCall (f : string + Z) (args : list Z).

(** The meaning of what the pass does not look at: the memory, the effect of the
    other opcodes (given the previous block; possibly a jump or return) and of
    calls, and the addresses of globals. *)
Class IRSem := {
  ir_mem : Type;
  mem_store : ir_mem -> Z -> Z -> Z -> ir_mem;
  other_sem : Z -> nat -> list Z -> ir_mem -> Z * ir_mem * option nat;
  call_sem : string + Z -> list Z -> ir_mem -> Z * ir_mem;
  global_addr : string -> Z
}.

Section semantics.
Context `{LLVM} `{IRSem}.

Record state := mkState {
  locals : gmap positive Z;
  actuals : list Z;
  memory : ir_mem;
  prev : nat;
  events : list event
}.

Definition eval (st : state) (v : value) : Z :=
  match v with
  | VLocal id _ => default 0 (locals st !! id)
  | VArg n _ => default 0 (actuals st !! n)
  | VConstInt _ c => c
  | VGlobal g _ => global_addr g
  end.

Definition set_dst (dst : option positive) (x : Z) (l : gmap positive Z) : gmap positive Z :=
  match dst with None => l | Some d => <[d := x]> l end.

Definition target (st : state) (f : callee) : string + Z :=
  match f with Direct n => inl n | Indirect v => inr (eval st v) end.

(** One instruction; [Some n] leaves the block for block [n]. *)
Definition exec_instr (st : state) (i : instr) : state * option nat :=
  match i with
  | Store v p =>
      let sz := getTypeStoreSize (pointee (type_of p)) in
      (mkState (locals st) (actuals st) (mem_store (memory st) (eval st p) sz (eval st v))
         (prev st) (events st ++ [EvStoreI (eval st p) sz]), None)
  | Fence =>
      (mkState (locals st) (actuals st) (memory st) (prev st) (events st ++ [EvFenceI]), None)
  | Call dst f args =>
      let vs := eval st <$> args in
      let '(r, m) := call_sem (target st f) vs (memory st) in
      (mkState (set_dst dst r (locals st)) (actuals st) m (prev st)
         (events st ++ [EvCall (target st f) vs]), None)
  | PtrToInt dst v t =>
      (mkState (<[dst := eval st v]> (locals st)) (actuals st) (memory st) (prev st)
         (events st), None)
  | Other _ op dst ops =>
      let '(r, m, j) := other_sem op (prev st) (eval st <$> ops) (memory st) in
      (mkState (set_dst dst r (locals st)) (actuals st) m (prev st) (events st), j)
  end.

Fixpoint exec_instrs (st : state) (code : list instr) : state * option nat :=
  match code with
  | [] => (st, None)
  | i :: code =>
      match exec_instr st i with
      | (st', Some n) => (st', Some n)
      | (st', None) => exec_instrs st' code
      end
  end.

(** Runs at most [fuel] blocks from block [cur]; [None]: the function returned,
    [Some n]: block [n] is next. *)
Fixpoint run_blocks (fuel : nat) (bs : list block) (cur : nat) (st : state)
    : state * option nat :=
  match fuel with
  | O => (st, Some cur)
  | S fuel =>
      match bs !! cur with
      | None => (st, None)
      | Some b =>
          match exec_instrs st b with
          | (st', None) => (st', None)
          | (st', Some n) =>
              run_blocks fuel bs n
                (mkState (locals st') (actuals st') (memory st') cur (events st'))
          end
      end
  end.

Definition run (fuel : nat) (F : func) (actuals : list Z) (m : ir_mem) : state * option nat :=
  run_blocks fuel (blocks F) 0 (mkState ∅ actuals m 0 []).
End semantics.
