(* ===== verification/FencePassSpec.v ===== *)
(** What the instrumentation pass preserves and adds.

    [annotate] is the intended effect on the events of an execution: the store
    callback, with the address and size of the store, right before each store.
    The theorems relate every run of an instrumented function to the run of
    the original one, block by block. *)

From stdpp Require Import strings.
From S2P Require Import Prelude CInt FencePass.

Local Open Scope list_scope.
Local Open Scope Z_scope.

(** ** Laws of the environment *)

(** A pointer cast to the pointer-sized integer keeps the address; it may add
    instructions, which touch nothing but the fresh name. *)
Class LLVMOk `{LLVM} `{IRSem} := {
  CreatePointerCast_spec id v st :
    let '(cast, v') := CreatePointerCast id v getIntPtrTy in
    exists l, exec_instrs st cast
              = (mkState l (actuals st) (memory st) (prev st) (events st), None)
      /\ (forall j, j <> id -> l !! j = locals st !! j)
      /\ eval (mkState l (actuals st) (memory st) (prev st) (events st)) v' = eval st v
}.

(** The callbacks leave the program's memory alone, and no jump enters a
    function's entry block. *)
Class IRSemOk `{IRSem} := {
  callback_mem f vs m : f ∈ instrumenation_functions -> (call_sem (inl f) vs m).2 = m;
  no_jump_to_entry op p vs m : (other_sem op p vs m).2 <> Some 0%nat
}.

Section spec.
Context `{LLVM} `{IRSem} `{!LLVMOk} `{!IRSemOk}.

(** ** Well-formed functions: every name used is below [next_id]. *)
Definition wf_value (n : positive) (v : value) : Prop :=
  match v with VLocal id _ => (id < n)%positive | _ => True end.
Definition wf_callee (n : positive) (f : callee) : Prop :=
  match f with Direct _ => True | Indirect v => wf_value n v end.
Definition wf_dst (n : positive) (d : option positive) : Prop :=
  match d with None => True | Some d => (d < n)%positive end.
Definition wf_instr (n : positive) (i : instr) : Prop :=
  match i with
  | Store v p => wf_value n v /\ wf_value n p
  | Fence => True
  | Call dst f args => wf_dst n dst /\ wf_callee n f /\ Forall (wf_value n) args
  | PtrToInt dst v _ => (dst < n)%positive /\ wf_value n v
  | Other _ _ dst ops => wf_dst n dst /\ Forall (wf_value n) ops
  end.
Definition wf_func (F : func) : Prop := Forall (Forall (wf_instr (next_id F))) (blocks F).

(** ** Annotated executions *)
Definition annotate1 (e : event) : list event :=
  match e with
  | EvStoreI a sz => [EvCall (inl store_callback) [a; s32 sz]; EvStoreI a sz]
  | _ => [e]
  end.
Definition annotate (es : list event) : list event := es ≫= annotate1.

(** The instrumented state, up to names the original does not use: [ann] gives
    the events each event of the original becomes, [pre] those before. *)
Record rel_by (ann : event -> list event) (n : positive) (pre : list event) (st st' : state)
    : Prop := {
  rel_actuals : actuals st' = actuals st;
  rel_memory : memory st' = memory st;
  rel_prev : prev st' = prev st;
  rel_events : events st' = pre ++ (events st ≫= ann);
  rel_locals : forall id, (id < n)%positive -> locals st' !! id = locals st !! id
}.

Abbreviation rel := (rel_by annotate1).

Lemma bind_singleton (l : list event) : (l ≫= fun e => [e]) = l.
Proof. induction l as [|e l IH]; [done|]. cbn. by rewrite IH. Qed.

Lemma rel_eval {ann} n pre st st' v :
  rel_by ann n pre st st' -> wf_value n v -> eval st' v = eval st v.
Proof.
  intros [Ha _ _ _ Hl] Hv. destruct v; cbn in *; [by rewrite Hl|by rewrite Ha|done..].
Qed.

Lemma rel_evals {ann} n pre st st' vs :
  rel_by ann n pre st st' -> Forall (wf_value n) vs -> eval st' <$> vs = eval st <$> vs.
Proof.
  intros Hr. induction 1 as [|v vs Hv _ IH]; [done|]. cbn.
  by rewrite (rel_eval _ _ _ _ _ Hr) by done; f_equal.
Qed.

Lemma rel_target {ann} n pre st st' f :
  rel_by ann n pre st st' -> wf_callee n f -> target st' f = target st f.
Proof. intros Hr Hf. destruct f; [done|]. cbn. by rewrite (rel_eval _ _ _ _ _ Hr). Qed.

Definition is_store (i : instr) : bool := match i with Store _ _ => true | _ => false end.

Lemma set_dst_agree n dst x (l l' : gmap positive Z) :
  (forall id, (id < n)%positive -> l' !! id = l !! id) ->
  forall id, (id < n)%positive -> set_dst dst x l' !! id = set_dst dst x l !! id.
Proof.
  intros Hl id Hid. destruct dst as [d|]; cbn; [|by apply Hl].
  destruct (decide (d = id)) as [->|]; [by rewrite !lookup_insert_eq|].
  rewrite !lookup_insert_ne by done. by apply Hl.
Qed.

(** An instruction whose events are kept as they are. *)
Lemma exec_instr_rel {ann} n pre i st st' :
  (forall e, (forall a sz, e <> EvStoreI a sz) -> ann e = [e]) ->
  (is_store i = true -> forall a sz, ann (EvStoreI a sz) = [EvStoreI a sz]) ->
  rel_by ann n pre st st' -> wf_instr n i ->
  rel_by ann n pre (exec_instr st i).1 (exec_instr st' i).1
  /\ (exec_instr st' i).2 = (exec_instr st i).2.
Proof.
  intros Hann Hst Hr Hw. pose proof Hr as [Ha Hm Hp He Hl].
  destruct i as [v p| |dst f args|dst v t|phi op dst ops]; cbn [exec_instr wf_instr] in *.
  - destruct Hw as [Hv Hpt]. rewrite !(rel_eval _ _ _ _ _ Hr) by done.
    split; [|done]. split; cbn; [done|by rewrite Hm|done| |done].
    rewrite He, bind_app. cbn. rewrite Hst by done. by rewrite app_assoc.
  - split; [|done]. split; cbn; [done..| |done].
    rewrite He, bind_app. cbn. rewrite Hann by done. by rewrite app_assoc.
  - destruct Hw as (Hd & Hf & Hargs).
    rewrite (rel_evals n pre st st' args Hr), (rel_target n pre st st' f Hr), Hm by done.
    destruct (call_sem _ _ _) as [r m]. split; [|done]. split; cbn; [done..| |].
    + rewrite He, bind_app. cbn. rewrite Hann by done. by rewrite app_assoc.
    + by apply set_dst_agree.
  - destruct Hw as (Hd & Hv). rewrite (rel_eval n pre st st' v Hr) by done.
    split; [|done]. split; cbn; [done..|]. by apply (set_dst_agree n (Some dst)).
  - destruct Hw as (Hd & Hops). rewrite (rel_evals n pre st st' ops Hr), Hm, Hp by done.
    destruct (other_sem _ _ _ _) as [[r m] j]. split; [|done]. split; cbn; [done..|].
    by apply set_dst_agree.
Qed.

Lemma exec_instrs_app st l1 l2 :
  exec_instrs st (l1 ++ l2)
  = match exec_instrs st l1 with
    | (st', Some n) => (st', Some n)
    | (st', None) => exec_instrs st' l2
    end.
Proof.
  revert st. induction l1 as [|i l1 IH]; intros st; cbn [exec_instrs app]; [done|].
  destruct (exec_instr st i) as [st1 [j|]]; [done|]. apply IH.
Qed.

(** Running a cast followed by a callback call on its result. *)
Lemma exec_hook id v f extra cast v' st :
  CreatePointerCast id v getIntPtrTy = (cast, v') -> f ∈ instrumenation_functions ->
  exists l, exec_instrs st (cast ++ [Call None (Direct f) (v' :: (VConstInt 32 <$> extra))])
            = (mkState l (actuals st) (memory st) (prev st)
                 (events st ++ [EvCall (inl f) (eval st v :: extra)]), None)
    /\ (forall j, j <> id -> l !! j = locals st !! j).
Proof.
  intros Ec Hf. pose proof (CreatePointerCast_spec id v st) as Hc. rewrite Ec in Hc.
  destruct Hc as (l & Ex & Hl & Ev). exists l. split; [|done].
  rewrite exec_instrs_app, Ex. cbn [exec_instrs exec_instr target fmap list_fmap memory].
  rewrite Ev.
  assert (eval (mkState l (actuals st) (memory st) (prev st) (events st))
            <$> (VConstInt 32 <$> extra) = extra) as ->.
  { rewrite <- list_fmap_compose. apply list_fmap_id. }
  pose proof (callback_mem f (eval st v :: extra) (memory st) Hf) as Hm.
  destruct (call_sem _ _ _) as [r m]. cbn in Hm. by subst m.
Qed.

Lemma exec_store_hook n pre id v p st st' :
  rel n pre st st' -> (n <= id)%positive -> wf_instr n (Store v p) ->
  exists st1, exec_instrs st' (store_hook id p ++ [Store v p]) = (st1, None)
    /\ rel n pre (exec_instr st (Store v p)).1 st1.
Proof.
  intros Hr Hid Hw. unfold store_hook.
  destruct (CreatePointerCast id p getIntPtrTy) as [cast a] eqn:Ec.
  set (sz := s32 (getTypeStoreSize (pointee (type_of p)))).
  destruct (exec_hook id p store_callback [sz] cast a st' Ec) as (l & Ex & Hl);
    [set_solver|]. rewrite exec_instrs_app.
  cbn [fmap list_fmap] in Ex.
  rewrite Ex. eexists. split; [reflexivity|]. destruct Hw as [Hv Hp].
  pose proof Hr as [Ha Hm Hpr He Hlo].
  assert (rel n (pre ++ annotate (events st) ++ [EvCall (inl store_callback) [eval st' p; sz]])
    (mkState (locals st) (actuals st) (memory st) (prev st) [])
    (mkState l (actuals st') (memory st') (prev st')
       (events st' ++ [EvCall (inl store_callback) [eval st' p; sz]]))) as Hr1.
  { split; cbn; [done..| |].
    - by rewrite He, app_nil_r, app_assoc.
    - intros j Hj. rewrite Hl by lia. by apply Hlo. }
  cbn [exec_instr fst]. rewrite !(rel_eval _ _ _ _ _ Hr1) by done.
  split; cbn [actuals memory prev events locals]; [done|by rewrite Hm|done| |].
  - rewrite He, bind_app, (rel_eval n pre st st' p Hr) by done. cbn.
    by rewrite <- !app_assoc.
  - exact (rel_locals _ _ _ _ _ Hr1).
Qed.

Lemma exec_block_rel n pre b : forall id st st',
  Forall (wf_instr n) b -> (n <= id)%positive -> rel n pre st st' ->
  (n <= (instrument_block id b).1.2)%positive
  /\ rel n pre (exec_instrs st b).1 (exec_instrs st' (instrument_block id b).2).1
  /\ (exec_instrs st' (instrument_block id b).2).2 = (exec_instrs st b).2.
Proof.
  induction b as [|i b IH]; intros id st st' Hw Hid Hr; [done|].
  apply Forall_cons in Hw as [Hi Hb].
  assert (forall id1 b1, is_store i = false ->
    instrument_block id (i :: b) = (b1, id1, i :: (instrument_block id b).2) ->
    id1 = (instrument_block id b).1.2 ->
    (n <= id1)%positive
    /\ rel n pre (exec_instrs st (i :: b)).1
         (exec_instrs st' (i :: (instrument_block id b).2)).1
    /\ (exec_instrs st' (i :: (instrument_block id b).2)).2 = (exec_instrs st (i :: b)).2)
    as Hother.
  { intros id1 b1 Hns _ ->. destruct (exec_instr_rel (ann := annotate1) n pre i st st') as [Hr1 Hj];
      [by intros []; naive_solver|by rewrite Hns|done..|].
    cbn [exec_instrs]. destruct (exec_instr st i) as [s1 j1], (exec_instr st' i) as [s2 j2].
    cbn in Hr1, Hj. subst j2. destruct (IH id s1 s2 Hb Hid Hr1) as (Hn & Hr2 & Hj2).
    destruct j1; done. }
  destruct i as [v p| |dst f args|dst v t|phi op dst ops];
    cbn [instrument_block] in *.
  2-5: destruct (instrument_block id b) as [[c id1] b1]; by apply (Hother id1 c).
  destruct (exec_store_hook n pre id v p st st' Hr Hid Hi) as (s1 & E1 & Hr1).
  destruct (IH (Pos.succ id) _ _ Hb ltac:(lia) Hr1) as (Hn & Hr2 & Hj2).
  destruct (instrument_block (Pos.succ id) b) as [[c id1] b1]. cbn [fst snd] in *.
  split; [done|].
  change (store_hook id p ++ Store v p :: b1) with (store_hook id p ++ [Store v p] ++ b1).
  rewrite app_assoc, exec_instrs_app, E1. by cbn [exec_instrs exec_instr fst] in *.
Qed.

Lemma instrument_blocks_lookup n (bs : list block) : forall id,
  Forall (Forall (wf_instr n)) bs -> (n <= id)%positive ->
  forall k, match bs !! k with
       | None => (instrument_blocks id bs).2 !! k = None
       | Some b => exists id', (n <= id')%positive
                    /\ (instrument_blocks id bs).2 !! k = Some (instrument_block id' b).2
       end.
Proof.
  induction bs as [|b bs IH]; intros id Hw Hid k; [done|].
  apply Forall_cons in Hw as [Hb Hbs]. cbn [instrument_blocks].
  pose proof (exec_block_rel n [] b id) as Hn.
  destruct (instrument_block id b) as [[c1 id1] b1] eqn:E1.
  assert (n <= id1)%positive as Hid1.
  { (* the names only grow *)
    assert (forall b id, (id <= (instrument_block id b).1.2)%positive) as Hgrow.
    { clear. induction b as [|i b IH]; intros id; [done|].
      destruct i; cbn [instrument_block].
      1: specialize (IH (Pos.succ id)); destruct (instrument_block (Pos.succ id) b)
           as [[? ?] ?]; cbn in *; lia.
      all: specialize (IH id); destruct (instrument_block id b) as [[? ?] ?]; done. }
    specialize (Hgrow b id). rewrite E1 in Hgrow. cbn in Hgrow. lia. }
  specialize (IH id1 Hbs Hid1).
  destruct (instrument_blocks id1 bs) as [[c2 id2] bs1]. cbn [snd] in *.
  destruct k as [|k]; cbn.
  - exists id. by rewrite E1.
  - apply IH.
Qed.

Lemma run_blocks_rel n pre id (bs : list block) fuel : forall cur st st',
  Forall (Forall (wf_instr n)) bs -> (n <= id)%positive -> rel n pre st st' ->
  rel n pre (run_blocks fuel bs cur st).1
    (run_blocks fuel (instrument_blocks id bs).2 cur st').1
  /\ (run_blocks fuel (instrument_blocks id bs).2 cur st').2 = (run_blocks fuel bs cur st).2.
Proof.
  induction fuel as [|fuel IH]; intros cur st st' Hw Hid Hr; [done|]. cbn [run_blocks].
  pose proof (instrument_blocks_lookup n bs id Hw Hid cur) as Hl.
  destruct (bs !! cur) as [b|] eqn:Eb; [|by rewrite Hl].
  destruct Hl as (id' & Hid' & ->).
  destruct (exec_block_rel n pre b id' st st' (Forall_lookup_1 _ _ _ _ Hw Eb) Hid' Hr)
    as (_ & Hr1 & Hj).
  destruct (exec_instrs st b) as [s1 j1], (exec_instrs st' _) as [s2 j2].
  cbn in Hr1, Hj. subst j2. destruct j1 as [j|]; [|done].
  apply IH; [done..|]. destruct Hr1 as [? ? ? ? ?]. by split.
Qed.

(** C22: instrumentation is transparent and complete.  Every run
    of the instrumented function, from any arguments and memory, takes the
    same blocks as the run of the original, ends in the same memory and the
    same way, and its events are the original's with, right before each store,
    one call of [write_store_trace_wrapper] with that store's address and
    size; the callbacks themselves are left alone. *)
Theorem instrumentFunction_sound F m :
  wf_func F ->
  let '(changed, F', m') := instrumentFunction F m in
  if instrumented_function F then F' = F
  else forall fuel args mem,
    let '(st, o) := run fuel F args mem in
    let '(st', o') := run fuel F' args mem in
    o' = o /\ memory st' = memory st /\ events st' = annotate (events st).
Proof.
  intros Hw. unfold instrumentFunction.
  destruct (instrumented_function F); [done|].
  pose proof (fun fuel args mem => run_blocks_rel (next_id F) [] (next_id F) (blocks F) fuel 0
    (mkState ∅ args mem 0 []) (mkState ∅ args mem 0 []) Hw ltac:(done) ltac:(by split)) as Hrun.
  destruct (instrument_blocks (next_id F) (blocks F)) as [[c id] bs]. cbn [snd] in Hrun.
  intros fuel args mem. specialize (Hrun fuel args mem). unfold run. cbn [blocks].
  destruct (run_blocks fuel (blocks F) 0 _) as [st o], (run_blocks fuel bs 0 _) as [st' o'].
  destruct Hrun as [[_ Hm _ He _] Hj]. auto.
Qed.

(** ** Which functions change *)
Definition has_store (F : func) : bool := existsb (existsb is_store) (blocks F).

Lemma instrument_block_changed b : forall id,
  (instrument_block id b).1.1 = existsb is_store b
  /\ (existsb is_store b = false -> (instrument_block id b).2 = b).
Proof.
  induction b as [|i b IH]; intros id; [done|]. destruct i; cbn [instrument_block].
  1: by destruct (instrument_block (Pos.succ id) b) as [[? ?] ?].
  all: specialize (IH id); destruct (instrument_block id b) as [[? ?] ?]; cbn in *;
    destruct IH as [-> IH]; split; [done|]; intros Hf; by rewrite (IH Hf).
Qed.

Lemma instrument_blocks_changed bs : forall id,
  (instrument_blocks id bs).1.1 = existsb (existsb is_store) bs
  /\ (existsb (existsb is_store) bs = false -> (instrument_blocks id bs).2 = bs).
Proof.
  induction bs as [|b bs IH]; intros id; [done|]. cbn [instrument_blocks existsb].
  destruct (instrument_block_changed b id) as [H3 H4].
  destruct (instrument_block id b) as [[c1 id1] b1]. specialize (IH id1).
  destruct (instrument_blocks id1 bs) as [[c2 id2] bs2]. cbn in *.
  destruct IH as [-> IH]. subst c1. split; [done|]. intros [Hb Hbs]%orb_false_iff.
  by rewrite H4, IH.
Qed.

(** [instrumentFunction] returns true exactly when a
    function that is not itself a callback contains a store, and otherwise
    leaves the code as it was; the pass nevertheless reports all analyses as
    preserved in both cases. *)
Theorem instrumentFunction_changed F m :
  let '(changed, F', m') := instrumentFunction F m in
  changed = negb (instrumented_function F) && has_store F
  /\ (changed = false -> blocks F' = blocks F)
  /\ fname F' = fname F /\ fargs F' = fargs F
  /\ (StoreFlushInstru_run F m).1.1 = PA_all.
Proof.
  unfold StoreFlushInstru_run, instrumentFunction.
  destruct (instrumented_function F); [done|].
  destruct (instrument_blocks_changed (blocks F) (next_id F)) as [H3 H4].
  destruct (instrument_blocks (next_id F) (blocks F)) as [[c id] bs]. cbn in *.
  unfold has_store. rewrite H3. repeat split; [|by destruct (existsb _ _)].
  by apply H4.
Qed.

(** ** The fence and flush callbacks *)
Definition wants_fence (F : func) : bool := contains (fname F) fence_function_name.
Definition wants_flush (F : func) : bool := contains (fname F) flush_function_name.

(** [F'] is [F] with code inserted at its entry. *)
Definition entry_hooked (code : list instr) (F F' : func) : Prop :=
  fname F' = fname F /\ fargs F' = fargs F
  /\ insert_at_entry code (blocks F) = Some (blocks F').
Definition fence_hooked : func -> func -> Prop :=
  entry_hooked [Call None (Direct fence_callback) []].
Definition flush_hooked (F F' : func) : Prop :=
  exists t ts cast a, fargs F = t :: ts
    /\ CreatePointerCast (next_id F) (VArg 0 t) getIntPtrTy = (cast, a)
    /\ entry_hooked (cast ++ [Call None (Direct flush_callback) [a]]) F F'.

Lemma FenceInstru_run_cases F m o r F' m' o' :
  FenceInstru_run F m o = Some (r, F', m', o') ->
  (wants_fence F = true /\ instrument_fence_once o = false /\ fence_hooked F F'
   /\ o' = mkOnce true (instrument_flush_once o))
  \/ (wants_fence F && negb (instrument_fence_once o) = false
      /\ wants_flush F = true /\ instrument_flush_once o = false /\ flush_hooked F F'
      /\ o' = mkOnce (instrument_fence_once o) true)
  \/ (wants_fence F && negb (instrument_fence_once o) = false
      /\ wants_flush F && negb (instrument_flush_once o) = false /\ F' = F /\ o' = o).
Proof.
  unfold FenceInstru_run. fold (wants_fence F) (wants_flush F).
  destruct (wants_fence F && _) eqn:E1.
  { destruct (insert_at_entry _ _) as [bs|] eqn:Ei; [|done]. intros [= <- <- <- <-].
    zify_bool. left. repeat split; done. }
  destruct (wants_flush F && _) eqn:E2; [|intros [= <- <- <- <-]; auto 10].
  destruct (fargs F) as [|t ts] eqn:Ea; [done|].
  destruct (CreatePointerCast _ _ _) as [cast a] eqn:Ec.
  destruct (insert_at_entry _ _) as [bs|] eqn:Ei; [|done]. intros [= <- <- <- <-].
  zify_bool. right; left. repeat split; try done.
  exists t, ts, cast, a. repeat split; try done.
Qed.

Lemma declares_both m :
  fence_callback ∈ initializeFlushCallbacks (initializeFenceCallbacks m)
  /\ flush_callback ∈ initializeFlushCallbacks (initializeFenceCallbacks m).
Proof.
  unfold initializeFlushCallbacks, initializeFenceCallbacks, getOrInsertFunction.
  repeat case_decide; set_solver.
Qed.

Lemma FenceInstru_run_declares F m o r F' m' o' :
  FenceInstru_run F m o = Some (r, F', m', o') -> fence_callback ∈ m' /\ flush_callback ∈ m'.
Proof.
  intros E. pose proof (declares_both m) as D. unfold FenceInstru_run in E.
  repeat case_match; simplify_eq; done.
Qed.

(** Functions already served leave the rest of a module alone. *)
Lemma FenceInstru_module_served Fs : forall m Fs' m' o o',
  FenceInstru_module Fs m o = Some (Fs', m', o') ->
  (instrument_fence_once o = true -> instrument_fence_once o' = true)
  /\ (instrument_flush_once o = true -> instrument_flush_once o' = true)
  /\ length Fs' = length Fs.
Proof.
  induction Fs as [|F Fs IH]; intros m Fs' m' o o' E; cbn in E; [by injection E as <- <- <-|].
  destruct (FenceInstru_run F m o) as [[[[r F1] m1] o1]|] eqn:E1; [|done].
  destruct (FenceInstru_module Fs m1 o1) as [[[Fs2 m2] o2]|] eqn:E2; [|done].
  injection E as <- <- <-. destruct (IH _ _ _ _ _ E2) as (Hf & Hg & Hl).
  cbn [length]. rewrite Hl.
  apply FenceInstru_run_cases in E1 as [(_ & _ & _ & ->)|[(_ & _ & _ & _ & ->)|(_ & _ & _ & ->)]];
    cbn in *; auto.
Qed.

(** Two lists of functions that differ by one entry hook of the first matching
    function, if any. *)
Inductive served (want : func -> bool) (hooked : func -> func -> Prop)
    : bool -> list func -> list func -> Prop :=
| served_done Fs : served want hooked true Fs Fs
| served_none Fs : Forall (fun F => want F = false) Fs -> served want hooked false Fs Fs
| served_first F F' Fs : want F = true -> hooked F F' ->
    served want hooked false (F :: Fs) (F' :: Fs)
| served_skip F Fs Fs' : want F = false -> served want hooked false Fs Fs' ->
    served want hooked false (F :: Fs) (F :: Fs').

Lemma served_true want hooked Fs Fs' : served want hooked true Fs Fs' -> Fs' = Fs.
Proof. by inversion 1. Qed.

(** Over the functions of a module, [FenceInstru] puts the
    fence callback at the entry of the first function whose name contains
    PERSISTENT_BARRIER and the flush callback at the entry of the first whose
    name contains nova_flush_buffer, unless an earlier module of the same
    compiler process was served, and changes nothing else. *)
Theorem FenceInstru_once Fs m o Fs' m' o' :
  Forall (fun F => wants_fence F && wants_flush F = false) Fs ->
  FenceInstru_module Fs m o = Some (Fs', m', o') ->
  exists Fs1,
    served wants_fence fence_hooked (instrument_fence_once o) Fs Fs1
    /\ served wants_flush flush_hooked (instrument_flush_once o) Fs1 Fs'.
Proof.
  intros Hd. revert m o Fs' m' o'.
  induction Hd as [|F Fs HF _ IH]; intros m o Fs' m' o' E; cbn in E.
  { injection E as <- <- <-. exists [].
    destruct (instrument_fence_once o), (instrument_flush_once o); repeat constructor. }
  destruct (FenceInstru_run F m o) as [[[[r F1] m1] o1]|] eqn:E1; [|done].
  destruct (FenceInstru_module Fs m1 o1) as [[[Fs2 m2] o2]|] eqn:E2; [|done].
  injection E as <- <- <-. destruct (IH _ _ _ _ _ E2) as (Fs1 & H3 & H4). clear IH.
  apply FenceInstru_run_cases in E1 as
    [(Hf & Ho & Hk & ->)|[(Hnf & Hf & Ho & Hk & ->)|(Hnf & Hng & -> & ->)]];
    cbn [instrument_fence_once instrument_flush_once] in *.
  - apply served_true in H3 as ->. exists (F1 :: Fs). rewrite Ho. split; [by constructor|].
    assert (wants_flush F1 = false) as Hg.
    { unfold wants_flush. destruct Hk as (-> & _). fold (wants_flush F). by rewrite Hf in HF. }
    destruct (instrument_flush_once o); [apply served_true in H4 as ->; constructor|].
    by apply served_skip.
  - apply served_true in H4 as ->. exists (F :: Fs1). rewrite Ho. split; [|by constructor].
    destruct (instrument_fence_once o); [apply served_true in H3 as ->; constructor|].
    apply served_skip; [|done]. by rewrite andb_true_r in Hnf.
  - exists (F :: Fs1). split.
    + destruct (instrument_fence_once o); [apply served_true in H3 as ->; constructor|].
      apply served_skip; [|done]. by rewrite andb_true_r in Hnf.
    + destruct (instrument_flush_once o); [apply served_true in H4 as ->; constructor|].
      apply served_skip; [|done]. by rewrite andb_true_r in Hng.
Qed.

(** *** Executions of a hooked function *)
Lemma exec_instrs_same n pre b : forall st st',
  Forall (wf_instr n) b -> rel_by (fun e => [e]) n pre st st' ->
  rel_by (fun e => [e]) n pre (exec_instrs st b).1 (exec_instrs st' b).1
  /\ (exec_instrs st' b).2 = (exec_instrs st b).2.
Proof.
  induction b as [|i b IH]; intros st st' Hw Hr; [done|].
  apply Forall_cons in Hw as [Hi Hb]. cbn [exec_instrs].
  destruct (exec_instr_rel (ann := fun e => [e]) n pre i st st') as [Hr1 Hj]; [done..|].
  destruct (exec_instr st i) as [s1 j1], (exec_instr st' i) as [s2 j2].
  cbn in Hr1, Hj. subst j2. destruct j1; [done|]. by apply IH.
Qed.

Lemma exec_instrs_no_entry b : forall st, (exec_instrs st b).2 <> Some 0%nat.
Proof.
  induction b as [|i b IH]; intros st; [done|]. cbn [exec_instrs].
  destruct (exec_instr st i) as [s1 [j|]] eqn:E; [|apply IH]. cbn.
  destruct i as [| |dst f args| |phi op dst ops]; cbn in E; try done.
  - by destruct (call_sem _ _ _).
  - pose proof (no_jump_to_entry op (prev st) (eval st <$> ops) (memory st)) as Hn.
    destruct (other_sem _ _ _ _) as [[r m] j']. injection E as <- ->. done.
Qed.

Lemma run_blocks_same n pre b b' (bs : list block) fuel : forall cur st st',
  Forall (Forall (wf_instr n)) bs -> cur <> 0%nat -> rel_by (fun e => [e]) n pre st st' ->
  rel_by (fun e => [e]) n pre (run_blocks fuel (b :: bs) cur st).1
    (run_blocks fuel (b' :: bs) cur st').1
  /\ (run_blocks fuel (b' :: bs) cur st').2 = (run_blocks fuel (b :: bs) cur st).2.
Proof.
  induction fuel as [|fuel IH]; intros cur st st' Hw Hc Hr; [done|]. cbn [run_blocks].
  destruct cur as [|k]; [done|]. cbn [lookup list_lookup].
  change (list_lookup k bs) with (bs !! k).
  destruct (bs !! k) as [c|] eqn:Ec; [|done].
  pose proof (exec_instrs_no_entry c st) as Hn0.
  destruct (exec_instrs_same n pre c st st' (Forall_lookup_1 _ _ _ _ Hw Ec) Hr) as [Hr1 Hj].
  destruct (exec_instrs st c) as [s1 j1], (exec_instrs st' c) as [s2 j2].
  cbn in Hr1, Hj, Hn0. subst j2. destruct j1 as [j|]; [|done].
  apply IH; [done|naive_solver|]. destruct Hr1. by split.
Qed.

(** A hook that issues one callback call and touches only a fresh name. *)
Definition hook_ok (n : positive) (code : list instr) (ev : list Z -> event) : Prop :=
  forall st, exists l,
    exec_instrs st code
    = (mkState l (actuals st) (memory st) (prev st) (events st ++ [ev (actuals st)]), None)
    /\ (forall j, (j < n)%positive -> l !! j = locals st !! j).

(** The entry block has no phi nodes. *)
Definition no_entry_phi (F : func) : Prop :=
  match blocks F with (Other true _ _ _ :: _) :: _ => False | _ => True end.

Lemma insert_at_entry_no_phi code F bs :
  no_entry_phi F -> insert_at_entry code (blocks F) = Some bs ->
  exists b bs0, blocks F = b :: bs0 /\ bs = (code ++ b) :: bs0.
Proof.
  unfold no_entry_phi. destruct (blocks F) as [|b bs0]; [done|]. intros Hp [= <-].
  exists b, bs0. split; [done|]. f_equal. destruct b as [|[| | | |[] ? ? ?] b]; done.
Qed.

Lemma hooked_run F F' code ev fuel args mem :
  wf_func F -> no_entry_phi F -> entry_hooked code F F' -> hook_ok (next_id F) code ev ->
  let '(st, o) := run (S fuel) F args mem in
  let '(st', o') := run (S fuel) F' args mem in
  o' = o /\ memory st' = memory st /\ events st' = ev args :: events st.
Proof.
  intros Hw Hp (_ & _ & Hi) Hk.
  destruct (insert_at_entry_no_phi _ _ _ Hp Hi) as (b & bs0 & Eb & Eb'). unfold wf_func in Hw.
  unfold run. rewrite Eb' in *. rewrite Eb in *. apply Forall_cons in Hw as [Hb Hbs].
  cbn [run_blocks lookup list_lookup].
  rewrite exec_instrs_app. destruct (Hk (mkState ∅ args mem 0 [])) as (l & -> & Hl).
  cbn [actuals memory prev events locals app] in *.
  pose proof (exec_instrs_no_entry b (mkState ∅ args mem 0 [])) as Hn0.
  destruct (exec_instrs_same (next_id F) [ev args] b (mkState ∅ args mem 0 [])
    (mkState l args mem 0 [ev args]) Hb ltac:(by split)) as [Hr1 Hj].
  destruct (exec_instrs _ b) as [s1 j1], (exec_instrs (mkState l _ _ _ _) b) as [s2 j2].
  cbn in Hr1, Hj, Hn0. subst j2. destruct j1 as [j|].
  - destruct (run_blocks_same (next_id F) [ev args] b (code ++ b) bs0 fuel j
      (mkState (locals s1) (actuals s1) (memory s1) 0 (events s1))
      (mkState (locals s2) (actuals s2) (memory s2) 0 (events s2))) as [[_ Hm _ He _] Ho];
      [done|naive_solver|destruct Hr1; by split|].
    destruct (run_blocks fuel (b :: bs0) _ _), (run_blocks fuel (_ :: bs0) _ _).
    cbn in *. by rewrite He, bind_singleton.
  - destruct Hr1 as [_ Hm _ He _]. by rewrite He, bind_singleton.
Qed.

(** What a run of the pass on [F] makes it report first: a fence or flush function
    that is the first of its kind reports itself. *)
Definition hook_events (F : func) (o : once) (args : list Z) : list event :=
  if wants_fence F && negb (instrument_fence_once o) then [EvCall (inl fence_callback) []]
  else if wants_flush F && negb (instrument_flush_once o)
       then [EvCall (inl flush_callback) [default 0 (args !! 0%nat)]]
       else [].

Lemma fence_hook_ok n : hook_ok n [Call None (Direct fence_callback) []] (fun _ => EvCall (inl fence_callback) []).
Proof.
  intros s0. exists (locals s0). split; [|done]. cbn.
  pose proof (callback_mem fence_callback [] (memory s0) ltac:(set_solver)) as Hm.
  destruct (call_sem _ _ _) as [r m]. cbn in Hm. by subst m.
Qed.

Lemma flush_hook_ok n t cast a :
  CreatePointerCast n (VArg 0 t) getIntPtrTy = (cast, a) ->
  hook_ok n (cast ++ [Call None (Direct flush_callback) [a]])
    (fun vs => EvCall (inl flush_callback) [default 0 (vs !! 0%nat)]).
Proof.
  intros Ec s0. destruct (exec_hook n (VArg 0 t) flush_callback [] cast a s0 Ec)
    as (l & Ex & Hl); [set_solver|]. exists l. split; [exact Ex|]. intros j Hj. apply Hl. lia.
Qed.

Lemma FenceInstru_run_total F m o :
  blocks F <> [] -> (wants_flush F = true -> fargs F <> []) ->
  exists r, FenceInstru_run F m o = Some r.
Proof.
  intros Hb Ha. assert (forall code, exists bs, insert_at_entry code (blocks F) = Some bs) as Hi
    by (intros code; destruct (blocks F); [done|by eexists]).
  unfold FenceInstru_run. fold (wants_fence F) (wants_flush F).
  destruct (wants_fence F && _); [edestruct Hi as [bs ->]; by eexists|].
  destruct (wants_flush F) eqn:Ew; cbn [andb]; [|by eexists].
  destruct (negb _); [|by eexists]. specialize (Ha eq_refl). destruct (fargs F); [done|].
  destruct (CreatePointerCast _ _ _). edestruct Hi as [bs ->]. by eexists.
Qed.

(** C34: the pass [FenceInstru] hooks the first fence and the first flush function.
    On a function with a body (and a first argument, when it is a flush
    function) it returns, declares both callbacks and remembers what it has
    served.  Every run of the resulting function, from any arguments and memory,
    takes the same blocks as the original, ends in the same memory and the same
    way, and its events are those of the original behind one call: of
    [write_fence_trace_wrapper] if it is the first fence function, of
    [write_flush_trace_wrapper] with its first argument if it is the first flush
    function, and behind none otherwise. *)
Theorem FenceInstru_run_traced F m o :
  wf_func F -> no_entry_phi F -> blocks F <> [] -> (wants_flush F = true -> fargs F <> []) ->
  let fence := wants_fence F && negb (instrument_fence_once o) in
  exists r F' m' o', FenceInstru_run F m o = Some (r, F', m', o')
  /\ fence_callback ∈ m' /\ flush_callback ∈ m'
  /\ o' = mkOnce (instrument_fence_once o || wants_fence F)
                 (instrument_flush_once o || (negb fence && wants_flush F))
  /\ forall fuel args mem, (0 < fuel)%nat -> length args = length (fargs F) ->
     let '(st, x) := run fuel F args mem in
     let '(st', x') := run fuel F' args mem in
     x' = x /\ memory st' = memory st /\ events st' = hook_events F o args ++ events st.
Proof.
  intros Hw Hp Hb Ha fence.
  destruct (FenceInstru_run_total F m o Hb Ha) as [[[[r F'] m'] o'] E].
  exists r, F', m', o'. split; [done|]. destruct (FenceInstru_run_declares _ _ _ _ _ _ _ E) as [D1 D2].
  split_and!; [done|done| |].
  - unfold fence. destruct (FenceInstru_run_cases _ _ _ _ _ _ _ E)
      as [(-> & -> & _ & ->)|[(E1 & -> & -> & _ & ->)|(E1 & E2 & _ & ->)]]; cbn.
    + by rewrite orb_false_r.
    + rewrite E1. cbn. f_equal. by destruct (wants_fence F), (instrument_fence_once o).
    + rewrite E1. cbn. destruct o as [[] []], (wants_fence F), (wants_flush F); done.
  - intros fuel args mem Hf Hl. destruct fuel as [|fuel]; [lia|]. unfold hook_events.
    pose proof (fun code ev => hooked_run F F' code ev fuel args mem Hw Hp) as Hrun.
    destruct (FenceInstru_run_cases _ _ _ _ _ _ _ E)
      as [(-> & -> & Hk & _)|[(-> & -> & -> & (t & ts & cast & a & _ & Ec & Hk) & _)|(-> & -> & -> & _)]]; cbn [andb negb].
    + specialize (Hrun _ _ Hk (fence_hook_ok _)).
      by destruct (run (S fuel) F args mem), (run (S fuel) F' args mem).
    + specialize (Hrun _ _ Hk (flush_hook_ok _ _ _ _ Ec)).
      by destruct (run (S fuel) F args mem), (run (S fuel) F' args mem).
    + by destruct (run (S fuel) F args mem).
Qed.
End spec.
