(* ===== verification/TracerExample.v ===== *)
(** Runs of the tracer and of the pass. *)

(** Concrete runs of the Squint tracers on the list-backed FIFO. *)

From stdpp Require Import strings relations.
From S2P Require Import Prelude CInt NovaEnv Squint SquintModule SquintNova SquintEval.

Local Open Scope list_scope.
Local Open Scope Z_scope.

Module SquintExample.
Import ListFifo.

(** A printer that writes the address in decimal between brackets. *)
#[local] Instance kprint : KernelPrint :=
  {| fmt_entry a := 91 :: fmt_lu (a mod 2 ^ 64) ++ [93; 10] |}.

Lemma kprint_nonul a : Forall (fun c => c <> 0) (@fmt_entry kprint a).
Proof.
  cbn [fmt_entry kprint]. destruct (fmt_lu_spec (a mod 2 ^ 64)) as (HF & _).
  { apply Z.mod_pos_bound. lia. }
  constructor; [lia|]. apply Forall_app. split.
  - eapply Forall_impl; [exact HF|]. cbn. lia.
  - repeat constructor; lia.
Qed.

#[local] Instance kprint_ok : KernelPrintOk := {| fmt_entry_nonul := kprint_nonul |}.

Definition stack : list Z := [1000; 2000].
Definition dev0 : fifo := alloc KFIFO_LEN.

Lemma dev0_ok : kfifo_ok dev0.
Proof. unfold dev0. vm_compute. discriminate. Qed.

Lemma write_store_trace_record_witness :
  exists dev' digits,
    SquintModule.write_store_trace 12345 stack (mkSquint (Some dev0) true)
      = Some (mkSquint (Some dev') true)
    /\ kfifo_ok dev'
    /\ kfifo_data dev' = kfifo_data dev0 ++ bytes_of "@ store: " ++ digits ++ newline
                         ++ concat (trace_lines stack)
    /\ Forall (fun c => 48 <= c <= 57) digits /\ parse_dec digits = 12345.
Proof.
  apply (write_store_trace_record 12345 stack dev0 true);
    [lia|exact dev0_ok|vm_compute; discriminate].
Defined.

(** Two threads; the first writes a line while the second waits for the lock,
    and the reader fetches three bytes. *)
Definition progs : list (list (list Z)) := [[literal flush_text]; [literal fence_text]].
Definition t2 : tracer (F := fifo) :=
  mkTracer (mkFifo (drop 3 flush_text) KFIFO_LEN) (take 3 flush_text)
    [[]; kfifo_in_spinlocked fence_text] None None false [(0%nat, flush_text, KFIFO_LEN)].

(** The states on the way. *)
Definition at_write (f : fifo) (calls : list call) (l : option nat) (c : option (nat * Z)) (lg : list (nat * list Z * Z))
    : tracer (F := fifo) :=
  mkTracer f [] [calls; kfifo_in_spinlocked fence_text] l c false lg.
Definition locked0 := at_write dev0 [KfifoIn flush_text; SpinUnlock] (Some 0%nat) None [].
Definition copying0 := at_write dev0 [KfifoIn flush_text; SpinUnlock] (Some 0%nat) (Some (0%nat, KFIFO_LEN)) [].
Definition copied0 := at_write (push dev0 flush_text) [SpinUnlock] (Some 0%nat) None [(0%nat, flush_text, KFIFO_LEN)].
Definition unlocked0 := at_write (push dev0 flush_text) [] None None [(0%nat, flush_text, KFIFO_LEN)].

Lemma run_t2 : rtc tstep (boot_tracer progs) t2.
Proof.
  apply (rtc_l _ _ locked0); [exact (tstep_lock (boot_tracer progs) 0 [KfifoIn flush_text; SpinUnlock] eq_refl eq_refl)|].
  apply (rtc_l _ _ copying0); [exact (tstep_begin locked0 0 flush_text [SpinUnlock] eq_refl eq_refl)|].
  apply (rtc_l _ _ copied0); [exact (tstep_end copying0 0 flush_text [SpinUnlock] KFIFO_LEN eq_refl eq_refl)|].
  apply (rtc_l _ _ unlocked0); [exact (tstep_unlock copied0 0 [] eq_refl)|].
  apply (rtc_l _ _ t2); [|apply rtc_refl].
  exact (tstep_read unlocked0 3 3 3 (take 3 flush_text)
           (mkSquint (Some (mkFifo (drop 3 flush_text) KFIFO_LEN)) true) true
           (mkFifo (drop 3 flush_text) KFIFO_LEN) ltac:(lia) ltac:(lia) eq_refl eq_refl).
Defined.

Lemma squint_stream_fifo_witness :
  raced t2 = false
  /\ out t2 ++ kfifo_data (SquintModule.fifo t2) = concat (stored <$> log t2)
  /\ zlen (kfifo_data (SquintModule.fifo t2)) <= KFIFO_LEN
  /\ Forall (fun x => stored x `prefix_of` x.1.2 /\ (zlen x.1.2 <= x.2 -> stored x = x.1.2)) (log t2)
  /\ (forall i prog, progs !! i = Some prog -> done_lines i (log t2) `prefix_of` (cstr <$> prog)).
Proof. exact (squint_stream_fifo progs t2 run_t2). Defined.

Definition dev1 : fifo := mkFifo flush_text KFIFO_LEN.

Lemma SquintDeviceRead_spec_witness :
  exists r bytes dev',
    SquintModule.SquintDeviceRead 5 2 (mkSquint (Some dev1) true)
      = Some (r, bytes, mkSquint (Some dev') true)
    /\ bytes ++ kfifo_data dev' = kfifo_data dev1
    /\ (Z.min 5 (zlen (kfifo_data dev1)) <= 2 ->
         r = Z.min 5 (zlen (kfifo_data dev1)) /\ zlen bytes = r)
    /\ (2 < Z.min 5 (zlen (kfifo_data dev1)) -> r = 4294967282).
Proof.
  apply (SquintDeviceRead_spec dev1 true 5 2); [vm_compute; discriminate|lia|lia].
Defined.

Lemma kfifo_squint_init_spec_witness :
  let '(r, s) := SquintModule.kfifo_squint_init (F := fifo) 0 false (mkSquint None false) in
  (r = 0 <-> 0 = 0 /\ false = true)
  /\ (r = 0 -> exists dev, s = mkSquint (Some dev) true /\ kfifo_data dev = []
                           /\ kfifo_avail dev = KFIFO_LEN)
  /\ (r <> 0 -> r < 0 /\ s = mkSquint None false)
  /\ SquintModule.kfifo_squint_exit s = mkSquint None false.
Proof. apply (kfifo_squint_init_spec (F := fifo) 0 false). lia. Defined.

Definition uninit : list Z := replicate 32 7.

Lemma nova_flush_trace_lines_witness :
  SquintNova.write_flush_trace uninit stack (mkSquint (Some dev0) true)
  = Some (mkSquint (Some (kfifo_ins dev0
      (flush_text :: trace_lines stack
       ++ ((fun e => cstr (snprintf 200 (fmt_entry e)))
             <$> drop (length (take MAX_ENTRIES stack)) uninit)))) true)
  /\ ((MAX_ENTRIES <= length stack)%nat ->
      SquintNova.write_flush_trace uninit stack (mkSquint (Some dev0) true)
      = SquintModule.write_flush_trace stack (mkSquint (Some dev0) true)).
Proof. apply (nova_flush_trace_lines uninit stack dev0 true). reflexivity. Defined.

(** Two threads; one of them has written its first line. *)
Definition evs : list (list traced) := [[TFlush stack]; [TStore 77 stack; TFence stack]].
Definition boot0 : machine (F := fifo) := boot ((fun es => concat (calls <$> es)) <$> evs).
Definition after0 : machine (F := fifo) := default boot0 (exec_moves [MWriter 1; MReader 4 4] boot0).

Lemma run_after0 : rtc estep boot0 after0.
Proof. apply (exec_moves_rtc [MWriter 1; MReader 4 4]). reflexivity. Defined.

Lemma squint_eval_lossless_witness :
  delivered after0 ++ kfifo_data (squint_dev (sh after0)) = concat (written after0).
Proof. apply (squint_eval_lossless evs after0); [cbn; lia|exact run_after0]. Defined.
End SquintExample.

(** The instrumentation pass on a small module: a function with a store in a
    two-block body, PERSISTENT_BARRIER and nova_flush_buffer. *)

From stdpp Require Import strings.
From S2P Require Import Prelude CInt FencePass FencePassSpec.

Local Open Scope string_scope.
Local Open Scope list_scope.
Local Open Scope Z_scope.

Module FencePassExample.

(** x86-64: 8-byte pointers. *)
Fixpoint store_size (t : ty) : Z :=
  match t with
  | TVoid => 0
  | TInt bits => (bits + 7) / 8
  | TPtr _ => 8
  | TStruct fields => foldr (fun f a => store_size f + a) 0 fields
  end.

#[local] Instance llvm : LLVM := {|
  pointer_bits := 64;
  getTypeStoreSize := store_size;
  CreatePointerCast id v t :=
    match v with
    | VLocal _ _ | VArg _ _ => ([PtrToInt id v t], VLocal id t)
    | VConstInt _ _ => ([], v)
    | VGlobal g _ => ([], VGlobal g t)
    end |}.

(** Opcode 1 jumps to block 1; the others compute nothing. *)
#[local] Instance sem : IRSem := {|
  ir_mem := gmap Z Z;
  mem_store m a sz v := <[a := v]> m;
  other_sem op p vs m := (0, m, if op =? 1 then Some 1%nat else None);
  call_sem f vs m := (0, m);
  global_addr g := 4096 |}.

#[local] Instance llvm_ok : LLVMOk.
Proof.
  constructor. intros id v st.
  destruct v as [i t|n t|bits c|g t]; cbn [CreatePointerCast llvm].
  1, 2: eexists; split; [reflexivity|]; split;
    [intros j Hj; by rewrite lookup_insert_ne by done|cbn; by rewrite lookup_insert_eq].
  1, 2: exists (locals st); split; [by destruct st|]; split; [done|]; done.
Qed.

#[local] Instance sem_ok : IRSemOk.
Proof.
  constructor; [done|]. intros op p vs m. cbn. by destruct (op =? 1).
Qed.

Definition i32p : ty := TPtr (TInt 32).
Definition set_field : func :=
  mkFunc "set_field" [i32p]
    [[Store (VConstInt 32 7) (VArg 0 i32p); Other false 1 None []];
     [Fence; Other false 2 None []]] 10.
Definition barrier : func :=
  mkFunc "PERSISTENT_BARRIER" [] [[Fence; Other false 2 None []]] 1.
Definition flush : func :=
  mkFunc "nova_flush_buffer" [i32p] [[Other false 2 None []]] 1.

Lemma set_field_wf : wf_func set_field.
Proof. repeat constructor. Qed.

Lemma instrumentFunction_sound_witness :
  let '(changed, F', m') := instrumentFunction set_field [] in
  if instrumented_function set_field then F' = set_field
  else forall fuel args mem,
    let '(st, o) := run fuel set_field args mem in
    let '(st', o') := run fuel F' args mem in
    o' = o /\ memory st' = memory st /\ events st' = annotate (events st).
Proof. exact (instrumentFunction_sound set_field [] set_field_wf). Defined.

(** The trace of the instrumented function on address 100. *)
Lemma set_field_trace :
  events (run 5 (instrumentFunction set_field []).1.2 [100] ∅).1
  = [EvCall (inl store_callback) [100; 4]; EvStoreI 100 4; EvFenceI].
Proof. reflexivity. Qed.

Definition fs : list func := [set_field; barrier; flush; barrier].
Definition fence_run : list func * list string * once :=
  default ([], [], mkOnce false false) (FenceInstru_module fs [] (mkOnce false false)).

Lemma FenceInstru_once_witness :
  exists Fs1,
    served wants_fence fence_hooked false fs Fs1
    /\ served wants_flush flush_hooked false Fs1 fence_run.1.1.
Proof.
  apply (FenceInstru_once fs [] (mkOnce false false) fence_run.1.1 fence_run.1.2 fence_run.2).
  - repeat constructor.
  - reflexivity.
Defined.

Definition flush' : func := nth 2 fence_run.1.1 flush.

Lemma FenceInstru_run_traced_witness :
  exists r F' m' o', FenceInstru_run flush [] (mkOnce true false) = Some (r, F', m', o')
  /\ fence_callback ∈ m' /\ flush_callback ∈ m' /\ o' = mkOnce true true
  /\ forall fuel args mem, (0 < fuel)%nat -> length args = 1%nat ->
     let '(st, x) := run fuel flush args mem in
     let '(st', x') := run fuel F' args mem in
     x' = x /\ memory st' = memory st /\ events st' = hook_events flush (mkOnce true false) args ++ events st.
Proof.
  apply (FenceInstru_run_traced flush [] (mkOnce true false)).
  - repeat constructor.
  - exact I.
  - discriminate.
  - discriminate.
Defined.

Lemma flush'_trace : events (run 3 flush' [512] ∅).1 = [EvCall (inl flush_callback) [512]].
Proof. reflexivity. Qed.
End FencePassExample.
